(* ===== verification/_CoqProject ===== *)
-Q . S2P
Prelude.v
Kernel.v
Graph.v
Node.v
Text.v
Ip.v
UrlText.v
Float64.v
UrlInstance.v
NodePool.v
Chain.v
Template.v
GenTypes.v
Yaml.v
Validation.v
Selection.v
Compat.v
Assemble.v
UriParse.v
UriEmit.v
UriRoundtrip.v
UriProtocols.v
UriTheorems.v
RateLimiter.v
CacheKey.v
CacheRepo.v
Generation.v
Subscription.v
SubCommands.v
Traffic.v
Delivery.v
Credentials.v
Crypto.v
Source.v
SourceParse.v
Ssrf.v
Fetch.v
SourceDb.v
Reconcile.v
SourceInv.v
PoolInv.v
SourceSteps.v
Refresh.v
RefreshSafety.v
RefreshTheorems.v
SourceCommands.v
NodeEdits.v
PoolView.v
Auth.v
AuthCommands.v
AuthSteps.v
AuthInv.v
AuthTheorems.v
AuthLogin.v
Templates.v
TemplateCommands.v
TemplateInv.v
TemplateTheorems.v
Containers.v
XrayParse.v
XrayEmit.v
XrayTheorems.v
SingboxParse.v
SingboxEmit.v
SingboxReads.v
SingboxTheorems.v
MihomoParse.v
MihomoEmit.v
MihomoTheorems.v
ContainerDispatch.v
DispatchTheorems.v
YamlRead.v
YamlTheorems.v
ClashRules.v
Clash.v
ClashGroups.v
ClashWork.v
ClashDocument.v
ClashTheorems.v
Pipeline.v
