(* ===== verification/Prelude.v ===== *)
(** * Deve Sub: a verified model of its core

    Deve Sub fetches proxy nodes from several sources into a pool, renders
    templates over that pool for client profiles (Mihomo, sing-box, ...), and
    delivers the result to subscribers; administrators log in to manage it.
    This library translates the parts that carry its own logic into Rocq and
    proves what makes them correct.

    ** The program and its model

    Each file opens with the sources it translates; paths are below [src/].

    - [Prelude]: the error monad of [Result] and [?], tables as lists of rows,
      comparators and sorting, shared lemmas and tactics.
    - [Kernel] ([crates/deve-sub-kernel]): revisions, timestamps, identifiers.
    - [Graph] ([crates/deve-sub-domain/src/graph.rs]): the iterative
      three-colour cycle search both chain validators share.
    - [Node], [Text]: the protocol-neutral node model and the text functions.
    - [NodePool] ([source/ports.rs], [node_row.rs],
      [node_pool_repository.rs]): the pool as an interface with a contract
      ([NodePoolRepository], [PoolContract]) and its SQLite implementation.
    - [Chain] ([node_chain.rs], [node_pool_repository/chain.rs]): node chains
      and their transactional update.
    - [Template], [GenTypes], [Yaml], [Validation]: template documents, their
      dependency graph, and [validate_document] with its tree walks.
    - [Selection] ([template/selection.rs]): dynamic and fixed selection, proxy
      groups and the paged listing of the pool, proved against the contract.
    - [Compat] ([deve-sub-compatibility], [template/compatibility.rs]): the
      capability matrix, node and group checks, the report.
    - [Assemble], [Generation] ([template/generation.rs],
      [clash_generation.rs]): naming, assembly and the pipeline with its entry
      points [generate], [generate_for_delivery] and [preview].
    - [CacheKey], [CacheRepo] ([template/cache.rs],
      [generation_cache_repository.rs], [pool_meta_repository.rs]): cache keys
      and the cache tables with retention, activation and withdrawal.
    - [RateLimiter] ([deve-sub-inmemory/src/rate_limiter.rs]): login throttling.
    - [Subscription], [SubCommands] ([subscription/entity.rs], [commands.rs],
      the four repositories): subscriptions, tokens, short codes, links.
    - [Traffic] ([traffic_repository.rs], migration 0024): the traffic ledger.
    - [Delivery] ([subscription/delivery.rs], [apps/server/src/delivery.rs]):
      credentials, access control, entity tags and the public HTTP routes.
    - [Credentials]: rotation, grace, sweeping, revocation over any history.
    - [Ip], [UrlText], [Float64]: addresses, URLs, percent-encoding, Base64 and
      JSON text as the URI code uses them; [UrlLib] and [UrlLaws] state what is
      used of the crates, [UrlInstance] satisfies them.
    - [UriParse], [UriEmit] ([deve-sub-protocol/src/], [deve-sub-emitter/src/]):
      the share-URI parsers and emitters of eleven protocols; [UriRoundtrip],
      [UriProtocols], [UriTheorems] relate them.
    - [Crypto] ([deve-sub-security/src/]): envelopes, subkeys, keyed digests,
      tokens, TOTP, recovery codes over [CryptoLib] with [CryptoLaws].
    - [Ssrf], [Fetch] ([ssrf.rs], [deve-sub-adapters/src/http_fetcher.rs]): the
      address guard and the fetcher over DNS and HTTP as a [World].
    - [Source], [SourceParse] ([domain/src/source/], [source/parse.rs],
      [filter.rs], [geoip.rs]): sources, jobs, snapshots; bodies and imports.
    - [SourceDb], [Reconcile] (the source, snapshot and job repositories,
      [node_pool_repository/reconcile.rs], [write.rs]): the tables and their
      transactions; [SourceInv], [PoolInv], [SourceSteps] keep the invariant.
    - [Refresh], [RefreshSafety], [RefreshTheorems]
      ([source/refresh.rs], [scheduler.rs]): a refresh as a program over calls,
      run against any interleaving of other writes.
    - [SourceCommands], [NodeEdits], [PoolView] ([source/commands.rs],
      [node_commands.rs], [node_override_repository.rs], [tags.rs]): source and
      node commands, and the effective pool every query reads.
    - [Auth], [AuthCommands] ([domain/src/identity/], [auth/commands.rs],
      [twofa.rs], [challenge.rs] and the four identity repositories): users,
      sessions, second factors; each command is a tree of atomic calls.
      [AuthSteps] interleaves any number of them; [AuthInv], [AuthTheorems],
      [AuthLogin] prove what holds.
    - [Templates], [TemplateCommands] ([template/commands.rs],
      [template_repository.rs], [template_version_repository.rs]): templates
      and their versions beside the cache and the subscriptions that refer to
      them; [TemplateInv], [TemplateTheorems] prove what holds when any number
      of commands run at once.
    - [Containers], [XrayParse], [SingboxParse], [MihomoParse], [XrayEmit],
      [SingboxEmit], [MihomoEmit] ([deve-sub-protocol/src/container/],
      [deve-sub-emitter/src/container/]): the documents of the clients, read
      and written; [XrayTheorems], [SingboxReads], [SingboxTheorems],
      [MihomoTheorems] relate the two.  [ContainerDispatch] and
      [DispatchTheorems]: which parser and emitter is used, and the Mihomo
      document of a whole template.
    - [YamlRead] ([crates/deve-sub-yaml]): scalars, the bounded reader with its
      aliases, merges, the ordered and the JSON projection, and the inspection
      of generated output; [YamlTheorems] proves sizes, depths and an end.
    - [ClashRules], [Clash], [ClashGroups], [ClashDocument]
      ([template/clash*.rs]): native Clash documents, their validation, and the
      materialisation of their groups; [ClashWork] counts the work of a
      materialisation, [ClashTheorems] proves what holds.
    - [Pipeline]: the interface of [Generation] filled with these parts.

    The parts meet as in the code: [Chain] and [Template] call [Graph];
    [Generation] calls [Validation], [Selection], [Compat], [Assemble] and the
    cache; [Delivery] calls [Generation], reads the stores of [SubCommands] and
    [Traffic], and writes only the cache.  [Refresh] fetches, parses with
    [SourceParse] and [UriParse], and publishes through [Reconcile] into the
    pool that [Selection] reads; [AuthCommands] calls [RateLimiter] and [Crypto];
    [Templates] implements the [TemplateStore] that [Generation] reads.
    [ContainerDispatch.containers] are the parsers [SourceParse] calls, and
    [Pipeline.server] gives [Generation] the YAML reader, the native documents
    and the emitters.

    ** How the code is represented

    Machine integers are [N] or [Z] with their wrap-around, saturation and
    range checks written out.  Strings are UTF-8 byte strings.  A repository
    transaction is a function from a database record to a database and a
    [Result]; an error return yields the old database, since the transaction is
    dropped.  Tables whose row order matters are lists in [rowid] order, others
    finite maps.  Identifiers, random tokens and clock readings are arguments,
    so a theorem over all histories covers every draw and every time.  Code
    that awaits between transactions ([Refresh], [AuthCommands],
    [TemplateCommands]) is a program
    whose calls are atomic steps; other tasks run, calls fail and tasks are
    dropped between any two of them.  Stored timestamps are whole seconds, whose text order is the order of time.

    ** What the theorems show

    - Graphs and chains: the search decides acyclicity and returns a real
      cycle; no sequence of chain updates stores a cyclic pool; templates are
      rejected exactly when their dependency relation is cyclic.
    - Validation: acceptance is characterised exactly; one gap of the script
      walk is exhibited ([script_in_complex_key_accepted]).
    - Selection and compatibility: the selection is the selector's meaning,
      groups cannot widen it, every reference is accounted for, the paged
      listing terminates, the report partitions the nodes; the JSON profile
      excludes nodes its documentation promises ([json_excludes]).
    - Generation: emitted documents are closed, strict mode is lossless,
      previews are faithful, errors never change what is published, fallback
      content obeys the withdrawal floor.
    - Cache: invariants of every sequence of transactions, atomic activation,
      final withdrawal, protected last-good entries, injective keys up to a
      SHA-256 collision.
    - Rate limiter: bounded table, unshakeable lockouts, no lost failures.
    - Subscriptions: consistent tables after any history, the exact rotation
      window, invisible sweeps, retired credentials never serve.
    - Traffic: totals refine the log of accepted observations.
    - Delivery: content is served exactly to the entitled, refusals are ordered
      and leak nothing, and no request changes a published entry; a slug with
      control characters is undeliverable ([control_slug_undeliverable]).
    - Share URIs: canonical nodes survive emission and parsing, hostile names
      cannot add entries, every parsed node is emitted again; WireGuard loses
      its allowed addresses ([wireguard_routes_widened]).
    - Sources: the tables keep their invariant under every sequence of writes;
      a refresh publishes exactly when it succeeds, under its lease, and always
      ends its job; reconciliation, due dates and parsed content are exact;
      sealed columns read back.
    - Fetching: every connection goes to checked addresses its own host resolved
      to, and none is opened after the deadline; the guard accepts exactly the
      URLs whose addresses, literal or resolved, are outside the listed blocks.
    - Node edits: whatever changes the effective pool raises its revision by one
      in the same transaction; batches apply to all nodes or to none.
    - Authentication, under every interleaving: sessions are earned, no
      login reuses the time step or the recovery code of another, disabled users
      and sessions that were logged out stay out, enabled secrets were proven, the server is set up once; challenges
      live five minutes, refusals look alike, the right code gets in.  The code
      that enables a second factor can be used once more to log in
      ([enrolment_code_reusable]).
    - Templates, under every interleaving: the tables stay consistent, saved
      versions are immutable, numbers only grow, rollbacks and failures have
      exactly their stated effect, commands are all or nothing also when the
      answer of a commit is lost, histories page completely, and whatever was
      saved can be generated from.
    - Client documents: Xray and sing-box documents of canonical nodes read back
      as those nodes; sing-box documents are closed and the entries of one keep
      protocol, name, credential, address and TLS, wrappers apart that only
      wrappers detour through ([shadowtls_self_detour_dropped]); a Mihomo document has one entry per node whatever the quoted
      texts hold, and the unquoted ones are exhibited ([mihomo_cipher_injects]).
    - YAML: reading ends; what is read is within its size and depth with aliases
      and merges expanded, and mappings have distinct keys.
    - Native Clash: validation rejects exactly the cyclic documents among those
      of the right shape, whatever the order of its hash map, and leaves no
      dangling rule; an accepted document materialises without a panic into
      groups that its second validation accepts, and does so whenever its members
      are there and its work fits the budget.

    ** Bounds and fuel

    The cycle search gets one unit of fuel per vertex and per edge, which
    [first_cycle_correct] proves enough.  The pool listing gets one
    page per entry and one more ([list_active_nodes_exact]).  The suffix search
    of [Assemble] tries one candidate more than there are taken names.
    [Text.trim] removes at most as many characters as there are.  The redirect
    loop of [Fetch] runs once per allowed hop and once more; the paged walk over
    sources gets one page per source ([due_exact]).  Programs of [Refresh],
    [AuthCommands] and [TemplateCommands] are finite trees, so running one
    needs no fuel.  Loading a history takes one page per version and one more
    ([history_pages_complete]).  The YAML readers get two rounds per event
    ([yaml_reading_ends]); the elimination of groups one round per group
    ([ClashOrder.eliminate_correct]); the scan of the pool for unavailable names
    one page per visit its budget has left ([ClashMembers.scan_pool_fuel]).  The
    search for a free wrapper tag tries one candidate more than there are tags,
    and a duration is read in at most one round per character.

    ** Parameters

    Code outside the repository is an argument: the YAML scanner and serializer,
    serde's conversions, SHA-256, regular expressions and the order of hash maps
    ([Generation.Externals], [Pipeline.Platform]), serde's selector codec,
    RFC 3339 parsing and the HMAC ([SubCommands.CommandExternals]), and the
    validity of HTTP header values; the URL, Base64 and JSON crates ([UrlLib]),
    the ciphers and hashes ([CryptoLib]), Argon2, ULID text and the challenge
    payload ([AuthLib]), DNS and HTTP ([Fetch.World]), the JSON of a
    specification ([SpecCodec]) and of a node's identity.  Laws they must satisfy
    are hypotheses of the theorems that use them, each with a witness at concrete
    instances.

    ** Not modelled

    The YAML scanner and serializer and the printer of JSON text are third-party.
    Probes are network measurements and their storage.  The audit log keeps
    records for people to read, and no other part depends on it.  Backup, update
    and the other operational commands are sequences of file and process
    operations.  The web interface, HTTP wiring beyond the delivery routes and
    logging have no logic of their own.  The scheduler loops around the modelled
    steps ([Sweep], [Prune]) are timers.

    The pool revision and the version of a snapshot are counted without an upper
    end; the code keeps them in 64 bits, which one step per write does not use
    up.  A call of a refresh either takes effect or fails without one; that a
    commit succeeds and its answer is lost is modelled in [AuthCommands] and
    [TemplateCommands] only.  Generation and delivery read and write their
    storage in one step; what other tasks do between their calls is covered for
    the cache by the theorems over every sequence of its transactions. *)

From stdpp Require Export base list strings gmap numbers sorting.
From Stdlib Require String Ascii.

(** ** Results

    Rust's [Result<A, E>].  The [?] operator is the bind of this error monad;
    [let? x := c in k] is [let x = c?; k]. *)

Inductive Result (E A : Type) : Type :=
  | Ok (a : A)
  | Err (e : E).
Arguments Ok {E A} a.
Arguments Err {E A} e.

Declare Scope ds_scope.
Delimit Scope ds_scope with ds.
Open Scope ds_scope.

Definition result_bind {E A B : Type} (c : Result E A) (k : A → Result E B) : Result E B :=
  match c with
  | Ok a => k a
  | Err e => Err e
  end.

Definition map_err {E F A : Type} (f : E → F) (c : Result E A) : Result F A :=
  match c with
  | Ok a => Ok a
  | Err e => Err (f e)
  end.

Definition ok_or {E A : Type} (o : option A) (e : E) : Result E A :=
  match o with
  | Some a => Ok a
  | None => Err e
  end.

Definition is_ok {E A : Type} (c : Result E A) : bool :=
  match c with Ok _ => true | Err _ => false end.

Notation "'let?' x := c 'in' k" := (result_bind c (λ x, k))
  (at level 10, x pattern, c at level 100, k at level 200,
   format "'let?'  x  :=  c  'in' '//' k") : ds_scope.

(** [iter().map(f).collect::<Result<Vec<_>, _>>()]: the first error, or all values. *)
Fixpoint collect_ok {E A B : Type} (f : A → Result E B) (l : list A) : Result E (list B) :=
  match l with
  | [] => Ok []
  | a :: l => let? b := f a in let? bs := collect_ok f l in Ok (b :: bs)
  end.

(** ** Automation *)

Create HintDb ds discriminated.

(** Split the boolean conjunctions, disjunctions and comparisons the code's
    guards are made of. *)
Ltac bool_solve :=
  repeat match goal with
  | H : _ && _ = true |- _ => apply andb_true_iff in H as [? ?]
  | H : _ && _ = false |- _ => apply andb_false_iff in H as [?|?]
  | H : _ || _ = false |- _ => apply orb_false_iff in H as [? ?]
  | H : negb _ = true |- _ => apply negb_true_iff in H
  | H : negb _ = false |- _ => apply negb_false_iff in H
  end.

(** Case on the scrutinee of the outermost [match] or [if] of the goal or of
    a hypothesis, keeping the equation. *)
Ltac case_goal :=
  match goal with
  | |- context [match ?x with _ => _ end] => destruct x eqn:?
  end.

Ltac case_hyp H :=
  match type of H with
  | context [match ?x with _ => _ end] => destruct x eqn:?
  end.

(** Case on every [N] comparison of the goal and close by arithmetic. *)
Ltac leb_cases :=
  repeat match goal with
  | |- context [N.leb ?a ?b] => destruct (N.leb_spec a b)
  | |- context [N.ltb ?a ?b] => destruct (N.ltb_spec a b)
  end; cbn [result_bind]; first [done | lia | idtac].

(** Inversion of a [let?] chain that succeeded. *)
Lemma result_bind_Ok {E A B} (c : Result E A) (k : A → Result E B) b :
  result_bind c k = Ok b ↔ ∃ a, c = Ok a ∧ k a = Ok b.
Proof. destruct c; simpl; naive_solver. Qed.

Lemma result_bind_Err {E A B} (c : Result E A) (k : A → Result E B) e :
  result_bind c k = Err e ↔ c = Err e ∨ ∃ a, c = Ok a ∧ k a = Err e.
Proof. destruct c; simpl; naive_solver. Qed.

Lemma Ok_inj {E A} (a b : A) : @Ok E A a = Ok b → a = b.
Proof. congruence. Qed.

Lemma collect_ok_Forall2 {E A B} (f : A → Result E B) (l : list A) (bs : list B) :
  collect_ok f l = Ok bs ↔ Forall2 (λ a b, f a = Ok b) l bs.
Proof.
  revert bs. induction l as [|a l IH]; intros bs; simpl.
  - split; [intros [= <-]; constructor|]. by inversion 1.
  - rewrite result_bind_Ok. setoid_rewrite result_bind_Ok. setoid_rewrite IH. split.
    + intros (b & Hb & bs' & Hbs & [= <-]). by constructor.
    + inversion 1; subst. eauto 6.
Qed.

Lemma collect_ok_total {E A B} (f : A → Result E B) (l : list A) :
  (∀ a, a ∈ l → ∃ b, f a = Ok b) → ∃ bs, collect_ok f l = Ok bs.
Proof.
  induction l as [|a l IH]; intros Hf; simpl; [eauto|]. destruct (Hf a) as [b ->]; [left|]. simpl.
  destruct IH as [bs ->]; [intros x Hx; apply Hf; by right|]. simpl. eauto.
Qed.

Lemma ok_or_Ok {E A} (o : option A) (e : E) a : ok_or o e = Ok a ↔ o = Some a.
Proof. destruct o; simpl; naive_solver. Qed.

(** ** Orders and sorting

    Rust's comparators return an [Ordering]; [sort_by] with such a comparator
    is a stable sort for the order it induces.  [slice::sort_unstable_by]
    yields the same list whenever the comparator only equates equal elements,
    which is how the sources use it. *)

Definition cmp_le {A : Type} (compare : A → A → comparison) (a b : A) : Prop :=
  compare a b ≠ Gt.

#[export] Instance comparison_eq_decision : EqDecision comparison.
Proof. solve_decision. Defined.

#[export] Instance cmp_le_dec {A} (compare : A → A → comparison) : RelDecision (cmp_le compare).
Proof. unfold cmp_le. intros a b. apply _. Defined.

Definition sort_by {A : Type} (compare : A → A → comparison) (l : list A) : list A :=
  merge_sort (cmp_le compare) l.

Lemma sort_by_Permutation {A} (compare : A → A → comparison) l : sort_by compare l ≡ₚ l.
Proof. apply merge_sort_Permutation. Qed.

Lemma elem_of_sort_by {A} (compare : A → A → comparison) l x :
  x ∈ sort_by compare l ↔ x ∈ l.
Proof. by rewrite sort_by_Permutation. Qed.

Lemma length_sort_by {A} (compare : A → A → comparison) l :
  length (sort_by compare l) = length l.
Proof. by rewrite sort_by_Permutation. Qed.

(** A comparator that defines a total preorder. *)
Class CmpOrder {A} (compare : A → A → comparison) : Prop := {
  #[global] cmp_trans :: Transitive (cmp_le compare);
  #[global] cmp_total :: Total (cmp_le compare)
}.

Lemma sort_by_sorted {A} (compare : A → A → comparison) `{!CmpOrder compare} l :
  StronglySorted (cmp_le compare) (sort_by compare l).
Proof. apply StronglySorted_merge_sort; apply _. Qed.

(** The first element of a sorted list is a least one. *)
Lemma sort_by_head {A} (compare : A → A → comparison) `{!CmpOrder compare} l x :
  head (sort_by compare l) = Some x → x ∈ l ∧ ∀ y, y ∈ l → cmp_le compare x y.
Proof.
  intros Hx. pose proof (sort_by_sorted compare l) as Hs.
  setoid_rewrite <-(elem_of_sort_by compare l).
  destruct (sort_by compare l) as [|z k]; simplify_eq/=. split; [left|].
  inversion Hs as [|? ? _ Hall]; subst.
  intros y [->|Hy]%elem_of_cons.
  - by destruct (total (cmp_le compare) x x).
  - by eapply Forall_forall in Hall.
Qed.

Lemma sort_by_head_None {A} (compare : A → A → comparison) l :
  head (sort_by compare l) = None ↔ l = [].
Proof.
  pose proof (length_sort_by compare l). destruct (sort_by compare l), l; naive_solver.
Qed.

#[export] Instance N_compare_order {A} (f : A → N) : CmpOrder (λ a b, N.compare (f a) (f b)).
Proof.
  split; unfold cmp_le.
  - intros x y z. rewrite !N.compare_ngt_iff. lia.
  - intros x y. rewrite !N.compare_ngt_iff. lia.
Qed.

(** [Iterator::skip_while]. *)
Fixpoint skip_while {A : Type} (p : A → bool) (l : list A) : list A :=
  match l with
  | [] => []
  | x :: l' => if p x then skip_while p l' else (x :: l')
  end.

Lemma skip_while_ne {A} `{EqDecision A} (x : A) (l : list A) :
  x ∈ l → ∃ pre post, l = pre ++ (x :: post) ∧ (x ∉ pre) ∧
    skip_while (λ y, negb (bool_decide (y = x))) l = x :: post.
Proof.
  induction l as [|y l IH]; intros Hx; [by apply elem_of_nil in Hx|].
  destruct (decide (y = x)) as [->|Hne].
  - exists [], l. simpl. rewrite bool_decide_eq_true_2 by done. set_solver.
  - apply elem_of_cons in Hx as [->|Hx]; [done|].
    destruct (IH Hx) as (pre & post & -> & Hpre & Heq).
    exists (y :: pre), post. simpl. rewrite bool_decide_eq_false_2 by done.
    split_and!; [done|set_solver|done].
Qed.

(** An invariant of every step is an invariant of a run. *)
Lemma foldl_preserve {S E} (P : S → Prop) (step : S → E → S) (l : list E) :
  (∀ s e, P s → P (step s e)) → ∀ s, P s → P (foldl step s l).
Proof. intros Hstep. induction l as [|e l IH]; intros s Hs; simpl; auto. Qed.

Lemma list_filter_Forall {A} (P : A → Prop) `{!∀ x, Decision (P x)} (l : list A) :
  Forall P l → filter P l = l.
Proof. induction 1 as [|x l Hx _ IH]; [done|]. by rewrite filter_cons, decide_True, IH by done. Qed.

Lemma list_filter_none {A} (P : A → Prop) `{!∀ x, Decision (P x)} (l : list A) :
  (∀ x, x ∈ l → ¬ P x) → filter P l = [].
Proof.
  induction l as [|x l IH]; intros Hn; [done|]. rewrite filter_cons, decide_False by (apply Hn; left).
  apply IH. intros y Hy. apply Hn. by right.
Qed.

Lemma list_filter_all {A} (P : A → Prop) `{!∀ x, Decision (P x)} (l : list A) :
  (∀ x, P x) → filter P l = l.
Proof.
  intros HP. induction l as [|x l IH]; [done|]. rewrite filter_cons, decide_True by done. by rewrite IH.
Qed.

(** ** Tables: lists of rows with boolean conditions *)

Lemma existsb_false {A} (p : A → bool) (l : list A) :
  existsb p l = false ↔ ∀ x, x ∈ l → p x = false.
Proof.
  rewrite <-not_true_iff_false, existsb_exists. setoid_rewrite <-list_elem_of_In. split.
  - intros Hn x Hx. destruct (p x) eqn:Hp; [destruct Hn; eauto|done].
  - intros Hall (x & Hx & Hp). by rewrite Hall in Hp.
Qed.

Lemma existsb_true {A} (p : A → bool) (l : list A) :
  existsb p l = true ↔ ∃ x, x ∈ l ∧ p x = true.
Proof. rewrite existsb_exists. by setoid_rewrite <-list_elem_of_In. Qed.

Lemma find_Some_elem {A} (p : A → bool) (l : list A) x :
  List.find p l = Some x → x ∈ l ∧ p x = true.
Proof. intros [? ?]%find_some. by rewrite list_elem_of_In. Qed.

Lemma find_None_elem {A} (p : A → bool) (l : list A) :
  List.find p l = None ↔ ∀ x, x ∈ l → p x = false.
Proof.
  split; [intros H x Hx; eapply find_none; [done|by rewrite <-list_elem_of_In]|].
  induction l as [|y l IH]; [done|]. intros Hall. simpl. rewrite (Hall y) by left.
  apply IH. intros x Hx. apply Hall. by right.
Qed.

(** A condition at most one row satisfies finds that row. *)
Lemma find_unique {A} (p : A → bool) (l : list A) x :
  x ∈ l → p x = true → (∀ y, y ∈ l → p y = true → y = x) → List.find p l = Some x.
Proof.
  intros Hx Hp Hu. destruct (List.find p l) as [y|] eqn:Hf.
  - apply find_Some_elem in Hf as [? ?]. f_equal. auto.
  - rewrite find_None_elem in Hf. by rewrite Hf in Hp.
Qed.

Lemma existsb_fmap {A B} (f : A → B) (p : B → bool) (q : A → bool) (l : list A) :
  (∀ x, p (f x) = q x) → existsb p (f <$> l) = existsb q l.
Proof. intros Hp. induction l as [|x l IH]; [done|]. rewrite fmap_cons. simpl. by rewrite Hp, IH. Qed.

Lemma find_fmap {A B} (f : A → B) (p : B → bool) (q : A → bool) (l : list A) :
  (∀ x, p (f x) = q x) → List.find p (f <$> l) = f <$> List.find q l.
Proof.
  intros Hp. induction l as [|x l IH]; [done|]. rewrite fmap_cons. simpl. rewrite Hp, IH. by destruct (q x).
Qed.

Lemma filter_fmap_comm {A B} (f : A → B) (P : B → Prop) (Q : A → Prop)
    `{!∀ x, Decision (P x), !∀ x, Decision (Q x)} (l : list A) :
  (∀ x, P (f x) ↔ Q x) → filter P (f <$> l) = f <$> filter Q l.
Proof.
  intros Hp. induction l as [|x l IH]; [done|]. rewrite fmap_cons, !filter_cons.
  destruct (decide (P (f x))), (decide (Q x)); try (by exfalso; naive_solver); by rewrite IH.
Qed.

Lemma NoDup_fmap_filter {A B} (f : A → B) (P : A → Prop) `{!∀ x, Decision (P x)} (l : list A) :
  NoDup (f <$> l) → NoDup (f <$> filter P l).
Proof.
  induction l as [|x l IH]; [done|]. rewrite fmap_cons, NoDup_cons. intros [Hx Hl].
  rewrite filter_cons. case_decide; [|auto]. rewrite fmap_cons, NoDup_cons. split; [|auto].
  intros (y & Hy & [_ Hin]%list_elem_of_filter)%list_elem_of_fmap. apply Hx, list_elem_of_fmap. eauto.
Qed.

Lemma NoDup_fmap_snoc {A B} (f : A → B) (l : list A) x :
  NoDup (f <$> l) → (∀ y, y ∈ l → f y ≠ f x) → NoDup (f <$> l ++ [x]).
Proof.
  intros Hl Hx. rewrite fmap_app, NoDup_app. split_and!; [done| |apply NoDup_singleton].
  intros k (y & -> & Hy)%list_elem_of_fmap Hk. apply list_elem_of_singleton in Hk. by apply (Hx y).
Qed.

Lemma NoDup_fmap_elem {A B} (f : A → B) (l : list A) x y :
  NoDup (f <$> l) → x ∈ l → y ∈ l → f x = f y → x = y.
Proof.
  intros Hn [i Hi]%list_elem_of_lookup [j Hj]%list_elem_of_lookup He.
  assert (i = j) as ->; [|congruence].
  apply (NoDup_lookup (f <$> l) i j (f x)); [done|by rewrite list_lookup_fmap, Hi|].
  by rewrite list_lookup_fmap, Hj, He.
Qed.

Lemma NoDup_fmap_fine {A B C} (f : A → B) (g : A → C) (l : list A) :
  (∀ x y, x ∈ l → y ∈ l → g x = g y → f x = f y) → NoDup (f <$> l) → NoDup (g <$> l).
Proof.
  induction l as [|x l IH]; [constructor|]. rewrite !fmap_cons, !NoDup_cons. intros Hfg [Hx Hl]. split.
  - intros (y & He & Hy)%list_elem_of_fmap. apply Hx, list_elem_of_fmap. exists y.
    split; [|done]. eapply (Hfg x y); eauto using list_elem_of_here, list_elem_of_further.
  - apply IH; [|done]. intros a b Ha Hb. apply Hfg; by right.
Qed.

(** [UPDATE ... WHERE key = k] *)
Definition update_where {A K} `{EqDecision K} (key : A → K) (k : K) (u : A → A) (l : list A) : list A :=
  (λ x, if decide (key x = k) then u x else x) <$> l.

Lemma elem_of_update_where {A K} `{EqDecision K} (key : A → K) k u l y :
  y ∈ update_where key k u l ↔ ∃ x, x ∈ l ∧ ((key x = k ∧ y = u x) ∨ (key x ≠ k ∧ y = x)).
Proof.
  unfold update_where. rewrite list_elem_of_fmap. split.
  - intros (x & -> & Hx). exists x. case_decide; naive_solver.
  - intros (x & Hx & Hc). exists x. case_decide; naive_solver.
Qed.

(** Columns the update leaves alone. *)
Lemma fmap_update_where {A B K} `{EqDecision K} (f : A → B) (key : A → K) k u l :
  (∀ x, key x = k → f (u x) = f x) → f <$> update_where key k u l = f <$> l.
Proof.
  intros Hf. unfold update_where. rewrite <-list_fmap_compose. apply list_fmap_ext.
  intros i x _. simpl. case_decide; auto.
Qed.

(** A unique column stays unique when the updated row's new value is not
    another row's. *)
Lemma NoDup_update_where {A B K} `{EqDecision K} (f : A → B) (key : A → K) k u l :
  NoDup (key <$> l) → NoDup (f <$> l) →
  (∀ x y, x ∈ l → y ∈ l → key x = k → key y ≠ k → f (u x) ≠ f y) →
  NoDup (f <$> update_where key k u l).
Proof.
  unfold update_where. induction l as [|x l IH]; [constructor|].
  rewrite !fmap_cons, !NoDup_cons. intros [Hkx Hk] [Hfx Hf] Hu. split.
  - intros (y & Hy & Hin)%list_elem_of_fmap.
    change (y ∈ update_where key k u l) in Hin. apply elem_of_update_where in Hin as (z & Hz & Hc).
    assert (key z ≠ key x) as Hzx.
    { intros He. apply Hkx. rewrite <-He. apply list_elem_of_fmap. eauto. }
    assert (f z ≠ f x) as Hfzx.
    { intros He. apply Hfx. rewrite <-He. apply list_elem_of_fmap. eauto. }
    destruct Hc as [[Hkz ->]|[Hkz ->]]; case_decide; try congruence.
    + eapply (Hu z x); eauto using list_elem_of_here, list_elem_of_further.
    + eapply (Hu x z); eauto using list_elem_of_here, list_elem_of_further.
  - apply IH; [done..|]. intros a b Ha Hb. apply Hu; by right.
Qed.

(** ** Sums over finite sets, used by termination measures *)

Definition sum_set {A} `{Countable A} (f : A → nat) (X : gset A) : nat :=
  sum_list_with f (elements X).

Lemma sum_list_with_Permutation {A} (f : A → nat) (l k : list A) :
  l ≡ₚ k → sum_list_with f l = sum_list_with f k.
Proof. induction 1; simpl; lia. Qed.

Lemma sum_set_insert {A} `{Countable A} (f : A → nat) (X : gset A) x :
  x ∈ X → sum_set f X = f x + sum_set f (X ∖ {[x]}).
Proof.
  intros Hx. unfold sum_set.
  rewrite (sum_list_with_Permutation f (elements X) (x :: elements (X ∖ {[x]}))); [done|].
  rewrite <-(elements_union_singleton (X ∖ {[x]}) x) by set_solver.
  f_equiv. intros y. destruct (decide (x = y)); set_solver.
Qed.

(** ** Relations *)

Lemma tc_mono {A} (R S : A → A → Prop) x y :
  (∀ a b, R a b → S a b) → tc R x y → tc S x y.
Proof. intros HRS. induction 1; [apply tc_once|eapply tc_l]; eauto. Qed.

(** ** Texts *)

Lemma string_app_assoc (a b c : string) : (a +:+ b) +:+ c = a +:+ (b +:+ c).
Proof. induction a as [|x a IH]; [done|]. exact (f_equal (String x) IH). Qed.

Lemma string_length_app (a b : string) : String.length (a +:+ b) = String.length a + String.length b.
Proof. induction a as [|x a IH]; [done|]. exact (f_equal S IH). Qed.

Lemma string_app_nil_r (a : string) : a +:+ "" = a.
Proof. induction a as [|x a IH]; [done|]. exact (f_equal (String x) IH). Qed.
