(* ===== verification/Kernel.v ===== *)
(** * Kernel primitives ([crates/deve-sub-kernel/src])

    Entity identifiers, the saturating pool [Revision] and the UTC
    [Timestamp], with machine-integer bounds written out. *)

From S2P Require Import Prelude.

(** ** Machine integers *)

Definition u16_max : N := 65535.
Definition u32_max : N := 4294967295.
Definition u64_max : N := 18446744073709551615.
Definition i64_max : N := 9223372036854775807.

Definition saturating_add_u32 (a b : N) : N := N.min (a + b) u32_max.
Definition saturating_add_u64 (a b : N) : N := N.min (a + b) u64_max.

(** ** Identifiers

    [entity_id!] makes one newtype per aggregate over [ulid::Ulid], a 128-bit
    integer ordered as such; an identifier is that integer. *)

Abbreviation NodeId := N (only parsing).
Abbreviation TagId := N (only parsing).
Abbreviation UserId := N (only parsing).
Abbreviation SourceId := N (only parsing).
Abbreviation TemplateId := N (only parsing).
Abbreviation GenerationCacheId := N (only parsing).
Abbreviation SubscriptionId := N (only parsing).
Abbreviation SubscriptionTokenId := N (only parsing).
Abbreviation SourceRefreshJobId := N (only parsing).

Module Revision.
Local Open Scope N_scope.

(** [pub struct Revision(u64)] *)
Record Revision := mkRevision { value : N }.

Definition new (v : N) : Revision := mkRevision v.

(** [self.0 = self.0.saturating_add(1)] *)
Definition increment (r : Revision) : Revision := mkRevision (saturating_add_u64 (value r) 1).

Definition le (a b : Revision) : Prop := value a ≤ value b.

Lemma increment_mono r : value r ≤ u64_max → le r (increment r).
Proof. unfold le, increment, saturating_add_u64, u64_max. simpl. lia. Qed.

End Revision.

Module Timestamp.
Local Open Scope Z_scope.

(** [Timestamp] wraps [time::OffsetDateTime]: nanoseconds since the Unix
    epoch, restricted to the range that type can represent. *)
Abbreviation Timestamp := Z (only parsing).

Section range.
(** The range of [OffsetDateTime] belongs to the [time] crate: its bounds are
    parameters, of which the source relies on their fitting the millisecond
    [i64] range. *)
Variables min_ns max_ns : Z.

Definition in_range (ns : Z) : bool := (min_ns <=? ns) && (ns <=? max_ns).

Inductive KernelError := InvalidTimestamp.

(** [from_unix_timestamp_nanos(i128::from(ms) * 1_000_000)] *)
Definition from_unix_ms (ms : Z) : Result KernelError Z :=
  if in_range (ms * 1000000) then Ok (ms * 1000000) else Err InvalidTimestamp.

(** [self.0.unix_timestamp_nanos() / 1_000_000]: [i128] division truncates
    towards zero. *)
Definition unix_ms (ts : Z) : Z := Z.quot ts 1000000.

Definition checked_add (ts d : Z) : option Z := if in_range (ts + d) then Some (ts + d) else None.
Definition checked_sub (ts d : Z) : option Z := if in_range (ts - d) then Some (ts - d) else None.

Hypothesis min_ns_nonpos : min_ns ≤ 0.
Hypothesis max_ns_nonneg : 0 ≤ max_ns.

Lemma unix_ms_from_unix_ms ms ts : from_unix_ms ms = Ok ts → unix_ms ts = ms.
Proof.
  unfold from_unix_ms, unix_ms. destruct (in_range _); [|done]. intros [= <-].
  by apply Z.quot_mul.
Qed.

Lemma from_unix_ms_unix_ms ts :
  in_range ts = true → ∃ ts', from_unix_ms (unix_ms ts) = Ok ts' ∧ unix_ms ts' = unix_ms ts ∧
    Z.abs (ts - ts') < 1000000.
Proof.
  intros Hr. unfold in_range in Hr. apply andb_true_iff in Hr as [H1%Z.leb_le H2%Z.leb_le].
  assert (Z.min ts 0 ≤ 1000000 * Z.quot ts 1000000 ≤ Z.max ts 0) as Hq.
  { destruct (Z.le_ge_cases 0 ts) as [Hs|Hs].
    - pose proof (Z.mul_quot_le ts 1000000 Hs ltac:(done)). lia.
    - pose proof (Z.mul_quot_ge ts 1000000 Hs ltac:(done)). lia. }
  pose proof (Z.quot_rem ts 1000000 ltac:(done)) as Hqr.
  pose proof (Z.rem_bound_abs ts 1000000 ltac:(done)) as Hb.
  exists (unix_ms ts * 1000000).
  assert (from_unix_ms (unix_ms ts) = Ok (unix_ms ts * 1000000)) as Hok.
  { unfold from_unix_ms, in_range, unix_ms.
    replace (min_ns <=? Z.quot ts 1000000 * 1000000) with true by lia.
    replace (Z.quot ts 1000000 * 1000000 <=? max_ns) with true by lia. done. }
  split_and!; [done|by eapply unix_ms_from_unix_ms|].
  unfold unix_ms. lia.
Qed.

End range.
End Timestamp.
