(* ===== verification/Graph.v ===== *)
(** * Depth-first cycle search ([crates/deve-sub-domain/src/graph.rs])

    The iterative three-colour traversal [first_cycle] shared by the node-chain
    graph and the template chain graph, with the explicit frame stack of the
    source. *)

From S2P Require Import Prelude.

Module Graph.

Inductive Color := Gray | Black.

Section first_cycle.
Context `{Countable V}.
Variable compare : V → V → comparison.
Variable adjacency : gmap V (list V).

Record Frame := mkFrame { fr_node : V; fr_neighbors : list V }.

Definition neighbors (v : V) : list V := default [] (adjacency !! v).

(** The closure [frame]: the node with its neighbours in comparator order. *)
Definition frame (v : V) : Frame := mkFrame v (sort_by compare (neighbors v)).

(** The path reported when an edge reaches the grey vertex [w]: the active
    frames from [w] upwards, closed by [w].  The head of [stack] is the top. *)
Definition cycle_from (stack : list Frame) (w : V) : list V :=
  skip_while (λ v, negb (bool_decide (v = w))) (reverse (fr_node <$> stack)) ++ [w].

Inductive LoopResult :=
  | LCycle (cycle : list V)
  | LDone (color : gmap V Color) (fuel : nat)
  | LFuel.

(** The [while let Some(current) = stack.last_mut()] loop; one unit of fuel
    per iteration, the unused fuel is returned. *)
Fixpoint dfs_loop (fuel : nat) (color : gmap V Color) (stack : list Frame) : LoopResult :=
  match stack with
  | [] => LDone color fuel
  | current :: rest =>
      match fuel with
      | O => LFuel
      | S fuel =>
          match fr_neighbors current with
          | [] => dfs_loop fuel (<[fr_node current := Black]> color) rest
          | w :: ws =>
              let current := mkFrame (fr_node current) ws in
              match color !! w with
              | None => dfs_loop fuel (<[w := Gray]> color) (frame w :: current :: rest)
              | Some Gray => LCycle (cycle_from (current :: rest) w)
              | Some Black => dfs_loop fuel color (current :: rest)
              end
          end
      end
  end.

Inductive SearchResult :=
  | NoCycle
  | HasCycle (cycle : list V)
  | FuelExhausted.

(** The [for root in roots] loop. *)
Fixpoint search_roots (fuel : nat) (roots : list V) (color : gmap V Color) : SearchResult :=
  match roots with
  | [] => NoCycle
  | root :: roots =>
      match color !! root with
      | Some _ => search_roots fuel roots color
      | None =>
          match dfs_loop fuel (<[root := Gray]> color) [frame root] with
          | LCycle c => HasCycle c
          | LDone color fuel => search_roots fuel roots color
          | LFuel => FuelExhausted
          end
      end
  end.

Definition edge (v w : V) : Prop := w ∈ neighbors v.

(** Every vertex that is a key or an edge target. *)
Definition vertices : gset V :=
  dom adjacency ∪ list_to_set (mjoin ((map_to_list adjacency).*2)).

(** |V| + |E|: the number of loop iterations the traversal may take. *)
Definition traversal_bound : nat := sum_set (λ v, S (length (neighbors v))) vertices.

Definition first_cycle : SearchResult :=
  search_roots traversal_bound (sort_by compare (map_to_list adjacency).*1) ∅.

(** ** Specification *)

Fixpoint is_path (l : list V) : Prop :=
  match l with
  | x :: ((y :: _) as t) => edge x y ∧ is_path t
  | _ => True
  end.

(** A closed simple cycle: [v, p1, .., pn, v] along edges, without repetition
    apart from its endpoints. *)
Definition closed_cycle (c : list V) : Prop :=
  ∃ v p, c = v :: p ++ [v] ∧ NoDup (v :: p) ∧ is_path c.

Definition acyclic : Prop := ∀ v, ¬ tc edge v v.

(** ** Invariant of the traversal *)

Fixpoint frames_ok (color : gmap V Color) (above : option V) (stack : list Frame) : Prop :=
  match stack with
  | [] => True
  | f :: rest =>
      (∀ m, edge (fr_node f) m →
         m ∈ fr_neighbors f ∨ color !! m = Some Black ∨ above = Some m) ∧
      (∀ m, m ∈ fr_neighbors f ∨ above = Some m → edge (fr_node f) m) ∧
      frames_ok color (Some (fr_node f)) rest
  end.

Record dfs_inv (color : gmap V Color) (stack : list Frame) : Prop := {
  inv_gray : ∀ v, color !! v = Some Gray ↔ v ∈ fr_node <$> stack;
  inv_nodup : NoDup (fr_node <$> stack);
  inv_frames : frames_ok color None stack;
  inv_black : ∀ v, color !! v = Some Black → Acc (flip edge) v
}.

Lemma frames_ok_mono color color' above stack :
  (∀ v, color !! v = Some Black → color' !! v = Some Black) →
  frames_ok color above stack → frames_ok color' above stack.
Proof.
  intros Hb. revert above. induction stack as [|f rest IH]; intros above; simpl; [done|].
  intros (H1 & H2 & H3). split_and!; [|done|by apply IH].
  intros m Hm. destruct (H1 m Hm) as [?|[?|?]]; auto.
Qed.

Lemma elem_of_frame v m : m ∈ fr_neighbors (frame v) ↔ edge v m.
Proof. apply elem_of_sort_by. Qed.

Lemma inv_push color f rest w ws :
  fr_neighbors f = w :: ws → color !! w = None →
  dfs_inv color (f :: rest) →
  dfs_inv (<[w := Gray]> color) (frame w :: mkFrame (fr_node f) ws :: rest).
Proof.
  intros Hf Hw [Hg Hn Hfr Hb]. simpl in *.
  destruct Hfr as (H1 & H2 & H3).
  assert (w ∉ fr_node f :: (fr_node <$> rest)) as Hnot.
  { intros Hin. apply Hg in Hin. congruence. }
  split; simpl.
  - intros v. destruct (decide (w = v)) as [->|Hne].
    + rewrite lookup_insert_eq. set_solver.
    + rewrite lookup_insert_ne by done. rewrite Hg. set_solver.
  - by apply NoDup_cons.
  - split_and!.
    + intros m Hm. left. by apply elem_of_frame.
    + intros m [Hm|?]; [by apply elem_of_frame|done].
    + intros m Hm. destruct (H1 m Hm) as [Hin|[Hbl|?]]; [|right; left|done].
      * rewrite Hf in Hin. apply elem_of_cons in Hin as [->|Hin]; auto.
      * rewrite lookup_insert_ne; [done|congruence].
    + intros m [Hm|Hm]; apply H2; left; rewrite Hf; set_solver.
    + eapply frames_ok_mono; [|exact H3].
      intros v Hv. rewrite lookup_insert_ne; [done|congruence].
  - intros v. destruct (decide (w = v)) as [->|Hne].
    + by rewrite lookup_insert_eq.
    + rewrite lookup_insert_ne by done. apply Hb.
Qed.

Lemma inv_skip color f rest w ws :
  fr_neighbors f = w :: ws → color !! w = Some Black →
  dfs_inv color (f :: rest) → dfs_inv color (mkFrame (fr_node f) ws :: rest).
Proof.
  intros Hf Hw [Hg Hn (H1 & H2 & H3) Hb]. split; simpl; try done. split_and!; [| |done].
  - intros m Hm. destruct (H1 m Hm) as [Hin|[?|?]]; auto.
    rewrite Hf in Hin. apply elem_of_cons in Hin as [->|Hin]; auto.
  - intros m [Hm|Hm]; apply H2; [left; rewrite Hf; set_solver|by right].
Qed.

Lemma inv_pop color f rest :
  fr_neighbors f = [] → dfs_inv color (f :: rest) →
  dfs_inv (<[fr_node f := Black]> color) rest.
Proof.
  intros Hf [Hg Hn (H1 & H2 & H3) Hb]. simpl in *.
  apply NoDup_cons in Hn as [Hnot Hn].
  assert (∀ v, color !! v = Some Black → <[fr_node f := Black]> color !! v = Some Black) as Hmono.
  { intros v Hv. destruct (decide (fr_node f = v)) as [->|?];
      [by rewrite lookup_insert_eq|by rewrite lookup_insert_ne]. }
  split; [| done | |].
  - intros v. destruct (decide (fr_node f = v)) as [<-|Hne].
    + rewrite lookup_insert_eq. split; [done|]. intros Hin. by destruct Hnot.
    + rewrite lookup_insert_ne by done. rewrite Hg. set_solver.
  - destruct rest as [|g rest]; simpl in *; [done|].
    destruct H3 as (G1 & G2 & G3). split_and!.
    + intros m Hm. destruct (G1 m Hm) as [?|[?|[= <-]]]; auto.
      right; left. apply lookup_insert_eq.
    + intros m [Hm|?]; [|done]. apply G2. by left.
    + by eapply frames_ok_mono.
  - intros v. destruct (decide (fr_node f = v)) as [<-|Hne].
    + intros _. constructor. intros m Hm. unfold flip in Hm.
      destruct (H1 m Hm) as [Hin|[Hbl|?]]; [|by apply Hb|done].
      rewrite Hf in Hin. by apply elem_of_nil in Hin.
    + rewrite lookup_insert_ne by done. apply Hb.
Qed.

(** ** The reported path is a cycle *)

Lemma is_path_app_r l k : is_path (l ++ k) → is_path k.
Proof.
  induction l as [|x l IH]; simpl; [done|].
  destruct l, k; simpl in *; naive_solver.
Qed.

Lemma is_path_snoc l a b : is_path (l ++ [a]) → edge a b → is_path (l ++ [a; b]).
Proof.
  induction l as [|x l IH]; simpl; [done|].
  destruct l as [|y l]; simpl in *; naive_solver.
Qed.

Lemma frames_path color above stack :
  frames_ok color above stack →
  is_path (reverse (fr_node <$> stack) ++ option_list above).
Proof.
  revert above. induction stack as [|f rest IH]; intros above.
  - by destruct above.
  - intros (_ & H2 & H3). apply IH in H3.
    rewrite fmap_cons, reverse_cons, <-(assoc_L (++)).
    destruct above as [m|]; simpl; [|done].
    apply is_path_snoc; [done|]. apply H2. by right.
Qed.

Lemma cycle_from_closed color f rest w ws :
  fr_neighbors f = w :: ws → color !! w = Some Gray →
  dfs_inv color (f :: rest) →
  closed_cycle (cycle_from (mkFrame (fr_node f) ws :: rest) w).
Proof.
  intros Hf Hw [Hg Hn (_ & H2 & H3) _]. apply Hg in Hw. apply frames_path in H3.
  unfold cycle_from. rewrite fmap_cons in *. rewrite reverse_cons. cbn [fr_node].
  assert (edge (fr_node f) w) as Hedge by (apply H2; left; rewrite Hf; set_solver).
  assert (is_path (reverse (fr_node <$> rest) ++ [fr_node f; w])) as Hpath
    by by apply is_path_snoc.
  assert (w ∈ reverse (fr_node <$> rest) ++ [fr_node f]) as Hin
    by (rewrite elem_of_app, elem_of_reverse; set_solver).
  assert (NoDup (reverse (fr_node <$> rest) ++ [fr_node f])) as Hnd
    by (rewrite <-reverse_cons, reverse_Permutation; done).
  destruct (skip_while_ne _ _ Hin) as (pre & post & Heq & Hpre & ->).
  exists w, post. split_and!; [done| |].
  - rewrite Heq in Hnd. by apply NoDup_app in Hnd as (_ & _ & ?).
  - apply (is_path_app_r pre).

    by rewrite (assoc_L (++)), <-Heq, <-(assoc_L (++)).
Qed.

(** ** Partial correctness of the loops *)

Lemma dfs_loop_inv fuel color stack :
  dfs_inv color stack →
  match dfs_loop fuel color stack with
  | LCycle c => closed_cycle c
  | LDone color' _ => dfs_inv color' [] ∧ dom color ⊆ dom color'
  | LFuel => True
  end.
Proof.
  revert color stack. induction fuel as [|fuel IH]; intros color [|f rest] Hinv; simpl; try done.
  destruct (fr_neighbors f) as [|w ws] eqn:Hf.
  - pose proof (IH _ _ (inv_pop _ _ _ Hf Hinv)) as Hl.
    destruct (dfs_loop _ _ _); [done| |done]. destruct Hl as [? Hd]. split; [done|set_solver].
  - destruct (color !! w) as [[]|] eqn:Hw.
    + by eapply cycle_from_closed.
    + by apply IH, (inv_skip _ _ _ w).
    + pose proof (IH _ _ (inv_push _ _ _ _ _ Hf Hw Hinv)) as Hl.
      destruct (dfs_loop _ _ _); [done| |done]. destruct Hl as [? Hd]. split; [done|set_solver].
Qed.

Lemma dfs_inv_root color root :
  dfs_inv color [] → color !! root = None →
  dfs_inv (<[root := Gray]> color) [frame root].
Proof.
  intros [Hg _ _ Hb] Hr. split; simpl.
  - intros v. destruct (decide (root = v)) as [<-|Hne].
    + rewrite lookup_insert_eq. set_solver.
    + rewrite lookup_insert_ne, Hg by done. simpl. set_solver.
  - apply NoDup_singleton.
  - split_and!; [intros m ?; left; by apply elem_of_frame|intros m [?|?]; [by apply elem_of_frame|done]|done].
  - intros v. destruct (decide (root = v)) as [<-|Hne]; [by rewrite lookup_insert_eq|].
    rewrite lookup_insert_ne by done. apply Hb.
Qed.

Lemma search_roots_inv fuel roots color :
  dfs_inv color [] →
  match search_roots fuel roots color with
  | HasCycle c => closed_cycle c
  | NoCycle => ∀ v, v ∈ roots ∨ v ∈ dom color → Acc (flip edge) v
  | FuelExhausted => True
  end.
Proof.
  assert (∀ color v, dfs_inv color [] → v ∈ dom color → Acc (flip edge) v) as Hdone.
  { intros c v [Hg _ _ Hb] [[] Hv]%elem_of_dom; [|by apply Hb].
    apply Hg in Hv. by apply elem_of_nil in Hv. }
  revert fuel color. induction roots as [|r roots IH]; intros fuel color Hinv; simpl.
  { intros v [Hv|Hv]; [by apply elem_of_nil in Hv|eauto]. }
  destruct (color !! r) as [col|] eqn:Hr.
  - specialize (IH fuel color Hinv). destruct (search_roots _ _ _) as [|c|]; [|exact IH|exact I].
    intros v [[->|Hv]%elem_of_cons|Hv]; apply IH; [right|by left|by right].
    apply elem_of_dom. by exists col.
  - pose proof (dfs_loop_inv fuel _ _ (dfs_inv_root _ _ Hinv Hr)) as Hl.
    destruct (dfs_loop _ _ _) as [c|color' fuel'|]; [done| |done].
    destruct Hl as [Hinv' Hd]. specialize (IH fuel' color' Hinv').
    destruct (search_roots _ _ _) as [|c'|]; [|exact IH|exact I]. rewrite dom_insert in Hd.
    intros v [[->|Hv]%elem_of_cons|Hv]; apply IH; [|by left|]; right; set_solver.
Qed.

(** ** Termination: each iteration consumes one vertex or one edge *)

Definition weight (color : gmap V Color) (stack : list Frame) : nat :=
  sum_set (λ v, S (length (neighbors v))) (vertices ∖ dom color) +
  sum_list_with (λ f, S (length (fr_neighbors f))) stack.

Lemma edge_vertices v w : edge v w → w ∈ vertices.
Proof.
  unfold edge, neighbors, vertices. intros Hw.
  destruct (adjacency !! v) as [l|] eqn:Hv; simpl in Hw; [|by apply elem_of_nil in Hw].
  apply elem_of_union_r, elem_of_list_to_set, list_elem_of_join.
  exists l. split; [done|]. apply list_elem_of_fmap. exists (v, l).
  split; [done|]. by apply elem_of_map_to_list.
Qed.

Lemma weight_push color v stack :
  v ∈ vertices → color !! v = None →
  weight (<[v := Gray]> color) (frame v :: stack) = weight color stack.
Proof.
  intros Hv Hc. unfold weight. simpl. rewrite length_sort_by.
  assert (v ∉ dom color) as Hnot by by apply not_elem_of_dom.
  rewrite (sum_set_insert _ (vertices ∖ dom color) v) by set_solver.
  replace (vertices ∖ dom (<[v := Gray]> color)) with (vertices ∖ dom color ∖ {[v]})
    by (apply leibniz_equiv; rewrite dom_insert; set_solver).
  lia.
Qed.

Lemma weight_black color v stack :
  v ∈ dom color → weight (<[v := Black]> color) stack = weight color stack.
Proof.
  intros Hv. unfold weight. do 2 f_equal. apply leibniz_equiv. rewrite dom_insert. set_solver.
Qed.

Lemma dfs_loop_fuel fuel color stack :
  dfs_inv color stack → weight color stack ≤ fuel →
  match dfs_loop fuel color stack with
  | LFuel => False
  | LDone color' fuel' => weight color' [] ≤ fuel'
  | LCycle _ => True
  end.
Proof.
  revert color stack. induction fuel as [|fuel IH]; intros color [|f rest] Hinv Hw; simpl; try done.
  { unfold weight in Hw. simpl in Hw. lia. }
  assert (fr_node f ∈ dom color) as Hdom.
  { apply elem_of_dom. exists Gray. apply (inv_gray _ _ Hinv). set_solver. }
  assert (∀ g, S (weight color (g :: rest)) + length (fr_neighbors f) =
    S (length (fr_neighbors g)) + weight color (f :: rest)) as Hstep
    by (intros g; unfold weight; simpl; lia).
  destruct (fr_neighbors f) as [|w ws] eqn:Hf.
  - apply IH; [by apply inv_pop|]. rewrite weight_black by done.
    unfold weight in *. simpl in *. lia.
  - specialize (Hstep (mkFrame (fr_node f) ws)). simpl in Hstep.
    destruct (color !! w) as [[]|] eqn:Hc; [done| |].
    + apply IH; [by eapply inv_skip|]. lia.
    + apply IH; [by apply inv_push|]. rewrite weight_push; [lia| |done].
      apply (edge_vertices (fr_node f)). destruct Hinv as [_ _ (_ & H2 & _) _].
      apply H2. left. rewrite Hf. set_solver.
Qed.

Lemma search_roots_fuel fuel roots color :
  dfs_inv color [] → weight color [] ≤ fuel → Forall (λ r, r ∈ vertices) roots →
  search_roots fuel roots color ≠ FuelExhausted.
Proof.
  revert fuel color. induction roots as [|r roots IH]; intros fuel color Hinv Hw Hr; simpl; [done|].
  apply Forall_cons in Hr as [Hr Hrs].
  destruct (color !! r) as [col|] eqn:Hc; [by apply IH|].
  pose proof (dfs_inv_root _ _ Hinv Hc) as Hroot.
  pose proof (dfs_loop_inv fuel _ _ Hroot) as Hl.
  pose proof (dfs_loop_fuel fuel _ _ Hroot) as Hl2.
  rewrite weight_push in Hl2 by done. specialize (Hl2 Hw).
  destruct (dfs_loop _ _ _) as [c|color' fuel'|]; [done| |done].
  apply IH; naive_solver.
Qed.

Lemma dfs_inv_empty : dfs_inv ∅ [].
Proof.
  split; simpl; [|apply NoDup_nil_2|done|]; intros v; rewrite lookup_empty; [|done].
  split; [done|]. intros Hv. by apply elem_of_nil in Hv.
Qed.

Lemma elem_of_keys v : v ∈ (map_to_list adjacency).*1 ↔ v ∈ dom adjacency.
Proof.
  rewrite list_elem_of_fmap, elem_of_dom. split.
  - intros ([? l] & -> & Hin%elem_of_map_to_list). by exists l.
  - intros [l Hl]. exists (v, l). split; [done|]. by apply elem_of_map_to_list.
Qed.

Lemma first_cycle_total : first_cycle ≠ FuelExhausted.
Proof.
  apply search_roots_fuel; [apply dfs_inv_empty| |].
  - unfold weight, traversal_bound. rewrite dom_empty_L, difference_empty_L. simpl. lia.
  - apply Forall_forall. intros r Hr%elem_of_sort_by%elem_of_keys. set_solver.
Qed.

Lemma first_cycle_sound c : first_cycle = HasCycle c → closed_cycle c.
Proof.
  pose proof (search_roots_inv traversal_bound (sort_by compare (map_to_list adjacency).*1) ∅
    dfs_inv_empty) as Hs.
  unfold first_cycle. intros Heq. by rewrite Heq in Hs.
Qed.

Lemma Acc_acyclic v : Acc (flip edge) v → ¬ tc edge v v.
Proof.
  intros Hacc. assert (∀ w, tc edge v w → w ≠ v) as Hw; [|intros Ht; by apply (Hw v)].
  induction Hacc as [v _ IH]. intros w Ht ->.
  inversion Ht as [? ? He|? y ? He Hyv]; subst.
  - apply (IH v He v); [by constructor|done].
  - apply (IH y He y); [|done]. by eapply tc_r.
Qed.

Lemma first_cycle_complete : first_cycle = NoCycle → acyclic.
Proof.
  pose proof (search_roots_inv traversal_bound (sort_by compare (map_to_list adjacency).*1) ∅
    dfs_inv_empty) as Hs.
  unfold first_cycle. intros Heq. rewrite Heq in Hs. intros v Ht.
  apply (Acc_acyclic v); [|done]. apply Hs. left. apply elem_of_sort_by, elem_of_keys, elem_of_dom.
  assert (∃ w, edge v w) as [w Hw] by (inversion Ht; eauto).
  unfold edge, neighbors in Hw. destruct (adjacency !! v); [eauto|].
  by apply elem_of_nil in Hw.
Qed.

Lemma closed_cycle_tc c : closed_cycle c → ∃ v, tc edge v v.
Proof.
  intros (v & p & -> & _ & Hp). exists v.
  assert (∀ q x, is_path (x :: q ++ [v]) → tc edge x v) as Hq; [|by apply (Hq p)].
  clear. induction q as [|y q IH]; intros x; simpl.
  - intros [? _]. by constructor.
  - intros [? Hq]. eapply tc_l; [done|]. by apply IH.
Qed.

Lemma first_cycle_NoCycle : first_cycle = NoCycle ↔ acyclic.
Proof.
  split; [apply first_cycle_complete|]. intros Hac.
  destruct first_cycle as [|c|] eqn:Heq; [done| |by destruct first_cycle_total].
  destruct (closed_cycle_tc c) as [v Hv]; [by apply first_cycle_sound|].
  by destruct (Hac v).
Qed.

(** C36: the iterative three-colour search decides acyclicity.  On every finite
    graph it terminates within one loop iteration per vertex and per edge;
    it reports no cycle exactly when the graph is acyclic, and a reported
    path is a simple cycle along edges, closed by its first vertex. *)
Theorem first_cycle_correct :
  first_cycle ≠ FuelExhausted ∧
  (first_cycle = NoCycle ↔ acyclic) ∧
  (∀ c, first_cycle = HasCycle c → closed_cycle c).
Proof.
  split_and!; [apply first_cycle_total|apply first_cycle_NoCycle|apply first_cycle_sound].
Qed.

End first_cycle.
End Graph.
