(* ===== verification/Node.v ===== *)
(** * The canonical node model ([crates/deve-sub-domain/src])

    [node.rs], [protocol.rs], [protocol_config.rs], [tls.rs], [transport.rs],
    [endpoint.rs] and [node_override.rs]: the data every parser produces and
    every emitter consumes, with the string keys other components match on. *)

From S2P Require Import Prelude Kernel.

(** [serde_json::Value]; a number keeps its text. *)
Inductive Json :=
  | JNull
  | JBool (b : bool)
  | JNumber (repr : string)
  | JString (s : string)
  | JArray (items : list Json)
  | JObject (fields : list (string * Json)).

(** ** Protocol kinds ([protocol.rs]) *)

Inductive ProtocolKind :=
  | Vless | VMess | Trojan | Shadowsocks | Hysteria2 | TuicV5 | NaiveProxy
  | Socks5 | Http | HysteriaV1 | AnyTls | Snell | WireGuard | ShadowTls | Ssh
  | Unknown (name : string).

#[export] Instance ProtocolKind_eq_dec : EqDecision ProtocolKind.
Proof. solve_decision. Defined.

(** [impl Display for ProtocolKind] *)
Definition protocol_display (k : ProtocolKind) : string :=
  match k with
  | Vless => "VLESS" | VMess => "VMess" | Trojan => "Trojan"
  | Shadowsocks => "Shadowsocks" | Hysteria2 => "Hysteria2" | TuicV5 => "TUIC v5"
  | NaiveProxy => "NaiveProxy" | Socks5 => "SOCKS5" | Http => "HTTP"
  | HysteriaV1 => "Hysteria v1" | AnyTls => "AnyTLS" | Snell => "Snell"
  | WireGuard => "WireGuard" | ShadowTls => "ShadowTLS" | Ssh => "SSH"
  | Unknown name => "Unknown(" +:+ name +:+ ")"
  end.

(** [ProtocolKind::as_filter_key] *)
Definition as_filter_key (k : ProtocolKind) : string :=
  match k with
  | Vless => "vless" | VMess => "vmess" | Trojan => "trojan"
  | Shadowsocks => "shadowsocks" | Hysteria2 => "hysteria2" | TuicV5 => "tuic-v5"
  | NaiveProxy => "naiveproxy" | Socks5 => "socks5" | Http => "http"
  | HysteriaV1 => "hysteria-v1" | AnyTls => "anytls" | Snell => "snell"
  | WireGuard => "wireguard" | ShadowTls => "shadowtls" | Ssh => "ssh"
  | Unknown name => name
  end.

(** ** Transport ([transport.rs]) *)

Inductive TransportKind :=
  | Tcp | Kcp | Ws | H2 | Quic | Grpc | HttpUpgrade | Xtls | Xhttp.

#[export] Instance TransportKind_eq_dec : EqDecision TransportKind.
Proof. solve_decision. Defined.

Definition transport_display (k : TransportKind) : string :=
  match k with
  | Tcp => "tcp" | Kcp => "kcp" | Ws => "ws" | H2 => "h2" | Quic => "quic"
  | Grpc => "grpc" | HttpUpgrade => "httpupgrade" | Xtls => "xtls" | Xhttp => "xhttp"
  end.

Inductive XhttpMode := XAuto | StreamOne | StreamUp | PacketUp.

(** [XhttpMode::from_str_lossy] *)
Definition xhttp_from_str_lossy (s : string) : option XhttpMode :=
  if String.eqb s "auto" then Some XAuto
  else if String.eqb s "stream-one" then Some StreamOne
  else if String.eqb s "stream-up" then Some StreamUp
  else if String.eqb s "packet-up" then Some PacketUp
  else None.

(** [XhttpMode::as_str] *)
Definition xhttp_as_str (m : XhttpMode) : string :=
  match m with
  | XAuto => "auto" | StreamOne => "stream-one"
  | StreamUp => "stream-up" | PacketUp => "packet-up"
  end.

Record Transport := mkTransport {
  tr_kind : TransportKind;
  tr_path : option string;
  tr_host : option string;
  tr_xhttp_mode : option XhttpMode
}.

Record UdpCapability := mkUdp { udp_supported : option bool; udp_xudp : option bool }.

Record MultiplexConfig := mkMultiplex { mux_protocol : string; mux_max_connections : option N }.

Record Obfuscation := mkObfuscation { obfs_kind : string; obfs_password : option string }.

Inductive CongestionController := Bbr | Cubic | NewReno | OtherController (name : string).

Record CongestionConfig := mkCongestion {
  cc_controller : CongestionController;
  cc_up_bps : option N;
  cc_down_bps : option N
}.

(** ** TLS ([tls.rs]) *)

Record RealityConfig := mkReality {
  public_key : string;
  short_id : string;
  spider_x : option string
}.

Record TlsConfig := mkTls {
  tls_enabled : bool;
  server_name : option string;
  skip_cert_verify : option bool;
  alpn : list string;
  client_fingerprint : option string;
  certificate_pins : list string;
  reality : option RealityConfig
}.

#[export] Instance RealityConfig_eq_dec : EqDecision RealityConfig.
Proof. solve_decision. Defined.

(** ** Typed protocol configuration ([protocol_config.rs])

    [time::Duration] values are nanosecond counts. *)

Record VlessRealityConfig := mkVlessReality {
  vless_encryption : option string; vless_flow : option string;
  vless_packet_encoding : option string }.

Record Hysteria2Config := mkHysteria2 {
  hy2_ports : option string; hy2_hop_interval : option Z;
  hy2_fast_open : option bool; hy2_lazy : option bool }.

Inductive UdpRelayMode := UrmNative | UrmQuic.

Record TuicV5Config := mkTuicV5 {
  tuic_udp_relay_mode : option UdpRelayMode; tuic_zero_rtt_handshake : option bool;
  tuic_heartbeat : option Z; tuic_disable_sni : option bool }.

Record NaiveProxyConfig := mkNaive {
  naive_quic : option bool; naive_http2 : option bool; naive_http3 : option bool }.

Record ShadowsocksConfig := mkShadowsocks {
  ss_method : string; ss_plugin : option string; ss_plugin_opts : option string }.

Record VMessConfig := mkVMess {
  vmess_alter_id : option N; vmess_security : option string;
  vmess_packet_encoding : option string }.

Record TrojanConfig := mkTrojan { trojan_packet_encoding : option string }.

Record WireGuardPeer := mkWireGuardPeer {
  wgp_public_key : string; wgp_pre_shared_key : option string;
  wgp_allowed_ips : list string; wgp_reserved : option (N * N * N);
  persistent_keepalive : option Z }.

Record WireGuardConfig := mkWireGuard {
  wg_private_key : string; wg_address : list string; wg_peers : list WireGuardPeer;
  wg_mtu : option N; wg_workers : option N; wg_dns : list string }.

Record AnyTlsConfig := mkAnyTls {
  anytls_idle_session_check_interval : option Z; anytls_idle_session_timeout : option Z;
  anytls_min_idle_session : option N; anytls_client_metadata : option string }.

Inductive SnellVersion := SnellV1 | SnellV2 | SnellV3 | SnellV4 | SnellV5 | SnellV6.
Inductive SnellV6Mode := V6Default | V6Unshaped | V6UnsafeRaw.
Inductive SnellObfsMode := ObfsTls | ObfsHttp | ObfsShadowTls | ObfsRestls | ObfsJls.

#[export] Instance SnellVersion_eq_dec : EqDecision SnellVersion.
Proof. solve_decision. Defined.
#[export] Instance SnellObfsMode_eq_dec : EqDecision SnellObfsMode.
Proof. solve_decision. Defined.

(** [SnellVersion::as_u32] and [SnellVersion::from_u32] *)
Definition snell_as_u32 (v : SnellVersion) : N :=
  match v with
  | SnellV1 => 1 | SnellV2 => 2 | SnellV3 => 3 | SnellV4 => 4 | SnellV5 => 5 | SnellV6 => 6
  end.

Definition snell_from_u32 (n : N) : option SnellVersion :=
  match n with
  | 1%N => Some SnellV1 | 2%N => Some SnellV2 | 3%N => Some SnellV3
  | 4%N => Some SnellV4 | 5%N => Some SnellV5 | 6%N => Some SnellV6
  | _ => None
  end.

Record SnellObfs := mkSnellObfs {
  so_mode : SnellObfsMode; so_host : option string; so_password : option string;
  so_version : option N; so_alpn : list string }.

Record SnellConfig := mkSnell {
  sn_version : SnellVersion; sn_reuse : option bool;
  sn_obfs : option SnellObfs; sn_v6_mode : option SnellV6Mode }.

(** [SnellConfig::tls_is_obfs_alias] *)
Definition tls_is_obfs_alias (cfg : SnellConfig) (tls : option TlsConfig) : bool :=
  match tls with
  | None => true
  | Some tls =>
      match sn_obfs cfg with
      | None => false
      | Some obfs =>
          bool_decide (so_mode obfs = ObfsTls) && tls_enabled tls &&
          bool_decide (server_name tls = so_host obfs) &&
          bool_decide (skip_cert_verify tls = None) &&
          bool_decide (alpn tls = so_alpn obfs) &&
          bool_decide (client_fingerprint tls = None) &&
          bool_decide (certificate_pins tls = []) &&
          bool_decide (reality tls = None)
      end
  end.

Inductive ShadowTlsVersion := StV1 | StV2 | StV3.

(** [ShadowTlsVersion::as_u32] and [ShadowTlsVersion::from_u32] *)
Definition shadowtls_as_u32 (v : ShadowTlsVersion) : N :=
  match v with StV1 => 1 | StV2 => 2 | StV3 => 3 end.

Definition shadowtls_from_u32 (n : N) : option ShadowTlsVersion :=
  match n with
  | 1%N => Some StV1 | 2%N => Some StV2 | 3%N => Some StV3
  | _ => None
  end.

Record UnsupportedNode := mkUnsupported {
  raw : Json; raw_format : option string; un_reason : string }.

(** [ProtocolConfig], with the fields of [ShadowTlsConfig] inlined in its
    variant: its [inner_config] is a boxed [ProtocolConfig]. *)
Inductive ProtocolConfig :=
  | CVlessReality (c : VlessRealityConfig)
  | CHysteria2 (c : Hysteria2Config)
  | CTuicV5 (c : TuicV5Config)
  | CNaiveProxy (c : NaiveProxyConfig)
  | CShadowsocks (c : ShadowsocksConfig)
  | CVMess (c : VMessConfig)
  | CTrojan (c : TrojanConfig)
  | CWireGuard (c : WireGuardConfig)
  | CAnyTls (c : AnyTlsConfig)
  | CSnell (c : SnellConfig)
  | CShadowTls (version : ShadowTlsVersion) (password : option string)
      (inner_protocol : ProtocolKind) (inner_config : ProtocolConfig)
  | CUnsupported (u : UnsupportedNode).

(** ** Endpoint ([endpoint.rs]) *)

Inductive Host :=
  | Ipv4 (octets : N * N * N * N)
  | Ipv6 (segments : list N)
  | Domain (name : string).

Record Endpoint := mkEndpoint { host : Host; port : N }.

(** ** The node aggregate ([node.rs]) *)

Inductive Authentication :=
  | AuthUuid (uuid : string)
  | AuthPassword (password : string)
  | AuthUserPassword (username password : string)
  | AuthUuidPassword (uuid password : string)
  | AuthNone.

Record NodeSource := mkNodeSource {
  source_label : string; raw_uri : option string; imported_at : Z }.

Inductive RegionMethod := RegionAuto | RegionManual.

Record RegionAssignment := mkRegion { region_method : RegionMethod; region_value : option string }.

Record Node := mkNode {
  n_id : NodeId;
  display_name : string;
  protocol : ProtocolKind;
  config : ProtocolConfig;
  endpoint : Endpoint;
  authentication : Authentication;
  transport : option Transport;
  tls : option TlsConfig;
  udp : UdpCapability;
  multiplex : option MultiplexConfig;
  obfuscation : option Obfuscation;
  congestion : option CongestionConfig;
  n_chain : option (list NodeId);
  source : NodeSource;
  n_tags : list TagId;
  region : RegionAssignment;
  extras : gmap string Json
}.

(** ** Overrides and tags ([node_override.rs]) *)

Record NodeOverride := mkNodeOverride {
  ov_id : N; ov_node_id : NodeId;
  ov_display_name : option string; ov_region : option string; ov_enabled : option bool;
  ov_sni : option string; ov_skip_cert_verify : option bool; ov_fingerprint : option string;
  sort_order : Z }.

Record Tag := mkTag { tag_id : TagId; tag_name : string; tag_color : option string }.

(** [NodePoolEntry] ([source/ports.rs]) *)
Record NodePoolEntry := mkNodePoolEntry {
  node : Node;
  missing_from_source : bool;
  is_active : bool;
  e_revision : N;
  e_created_at : Z;
  override_info : option NodeOverride;
  tags : list Tag
}.

(** ** Round trips of the string keys *)

Lemma xhttp_roundtrip m : xhttp_from_str_lossy (xhttp_as_str m) = Some m.
Proof. by destruct m. Qed.

Lemma snell_roundtrip v : snell_from_u32 (snell_as_u32 v) = Some v.
Proof. by destruct v. Qed.

Lemma shadowtls_roundtrip v : shadowtls_from_u32 (shadowtls_as_u32 v) = Some v.
Proof. by destruct v. Qed.

(** The typed protocol kinds have pairwise distinct filter keys. *)
Lemma as_filter_key_inj k1 k2 :
  (∀ n, k1 ≠ Unknown n) → (∀ n, k2 ≠ Unknown n) →
  as_filter_key k1 = as_filter_key k2 → k1 = k2.
Proof. by destruct k1, k2; try (intros; done); naive_solver. Qed.
