(* ===== verification/Text.v ===== *)
(** * Text functions of the standard library the sources use

    Rust strings are UTF-8 byte strings.  [str::trim], the [Display] of IP
    addresses, and [Host::uri_host]
    ([crates/deve-sub-domain/src/endpoint.rs]), which orders nodes. *)

From stdpp Require Import pretty.
From S2P Require Import Prelude Kernel Node.

Module Text.

Definition bytes (l : list N) : string :=
  foldr (λ n s, String (Ascii.ascii_of_N n) s) "" l.

(** The UTF-8 encodings of the characters with the [White_Space] property. *)
Definition whitespace : list string :=
  (bytes ∘ (λ n, [n]) <$> [9; 10; 11; 12; 13; 32]%N) ++
  [bytes [194; 133]%N; bytes [194; 160]%N; bytes [225; 154; 128]%N] ++
  ((λ n, bytes [226; 128; n]%N) <$>
    [128; 129; 130; 131; 132; 133; 134; 135; 136; 137; 138; 168; 169; 175]%N) ++
  [bytes [226; 129; 159]%N; bytes [227; 128; 128]%N].

Fixpoint strip_prefix (p s : string) : option string :=
  match p, s with
  | EmptyString, s => Some s
  | String a p, String b s => if Ascii.eqb a b then strip_prefix p s else None
  | _, _ => None
  end.

Fixpoint first_strip (ps : list string) (s : string) : option string :=
  match ps with
  | [] => None
  | p :: ps => match strip_prefix p s with Some s' => Some s' | None => first_strip ps s end
  end.

(** Repeatedly remove a leading pattern; every removal shortens the text. *)
Fixpoint strip_all (fuel : nat) (ps : list string) (s : string) : string :=
  match fuel with
  | O => s
  | S fuel => match first_strip ps s with Some s' => strip_all fuel ps s' | None => s end
  end.

Definition trim_start (s : string) : string := strip_all (String.length s) whitespace s.
Definition trim_end (s : string) : string :=
  String.rev (strip_all (String.length s) (String.rev <$> whitespace) (String.rev s)).

(** [str::trim] *)
Definition trim (s : string) : string := trim_end (trim_start s).

Definition is_empty (s : string) : bool := match s with EmptyString => true | _ => false end.

(** ** IP addresses *)

Definition hex_char (n : N) : Ascii.ascii := default Ascii.zero (String.get (N.to_nat n) "0123456789abcdef").

Fixpoint hex_digits (fuel : nat) (n : N) (acc : string) : string :=
  match fuel with
  | O => acc
  | S fuel =>
      let acc := String (hex_char (n mod 16)) acc in
      if N.ltb n 16 then acc else hex_digits fuel (n / 16) acc
  end.

(** [{:x}] of a 16-bit segment: at most four digits. *)
Definition hex_u16 (n : N) : string := hex_digits 4 n "".

Definition ipv4_display (o : N * N * N * N) : string :=
  let '(a, b, c, d) := o in
  pretty a +:+ "." +:+ pretty b +:+ "." +:+ pretty c +:+ "." +:+ pretty d.

(** The first longest run of zero segments: start and length. *)
Fixpoint zero_run (i : nat) (segs : list N) (cur best : nat * nat) : nat * nat :=
  match segs with
  | [] => best
  | s :: segs =>
      if N.eqb s 0 then
        let cur := if Nat.eqb cur.2 0 then (i, 1) else (cur.1, S cur.2) in
        zero_run (S i) segs cur (if Nat.ltb best.2 cur.2 then cur else best)
      else zero_run (S i) segs (0, 0) best
  end.

Definition segments_display (segs : list N) : string := String.concat ":" (hex_u16 <$> segs).

(** [Ipv6Addr::to_ipv4_mapped]: the two segments of the embedded address. *)
Definition ipv4_mapped (segs : list N) : option (N * N) :=
  match segs with
  | [s0; s1; s2; s3; s4; s5; a; b] =>
      if bool_decide ([s0; s1; s2; s3; s4; s5] = [0; 0; 0; 0; 0; 65535]%N) then Some (a, b) else None
  | _ => None
  end.

(** [impl Display for Ipv6Addr] *)
Definition ipv6_display (segs : list N) : string :=
  match ipv4_mapped segs with
  | Some (a, b) => "::ffff:" +:+ ipv4_display (a / 256, a mod 256, b / 256, b mod 256)%N
  | None =>
      let '(start, len) := zero_run 0 segs (0, 0) (0, 0) in
      if Nat.ltb 1 len
      then segments_display (take start segs) +:+ "::" +:+ segments_display (drop (start + len) segs)
      else segments_display segs
  end.

(** [Host::uri_host] *)
Definition uri_host (h : Host) : string :=
  match h with
  | Ipv4 o => ipv4_display o
  | Ipv6 s => "[" +:+ ipv6_display s +:+ "]"
  | Domain d => d
  end.

Example ipv6_compressed : ipv6_display [8193; 3512; 0; 0; 0; 0; 0; 1]%N = "2001:db8::1".
Proof. vm_compute. reflexivity. Qed.
Example ipv6_mapped : ipv6_display [0; 0; 0; 0; 0; 65535; 49320; 513]%N = "::ffff:192.168.2.1".
Proof. vm_compute. reflexivity. Qed.
Example trim_spaces : trim "  a b  " = "a b".
Proof. vm_compute. reflexivity. Qed.

End Text.
