(* ===== verification/Ip.v ===== *)
(** * Reading IP addresses ([std::net])

    [Ipv4Addr::from_str] and [Ipv6Addr::from_str] of the Rust standard
    library, as the recursive-descent reader it implements them with, and the
    proof that they invert the [Display] texts of [Text]: the parsers and the
    storage adapter rely on that to recover the host an emitter wrote. *)

From Stdlib Require Import Ascii.
From stdpp Require Import pretty.
From S2P Require Import Prelude Kernel Node Text.
Import Text.

#[local] Arguments String.append !_ _ / : simpl nomatch.

Module Ip.

(** ** The reader

    A reader consumes a prefix; [None] leaves the input as it was
    ([read_atomically]). *)

Definition ascii_in (lo hi c : N) : bool := N.leb lo c && N.leb c hi.

(** [char::to_digit] *)
Definition to_digit (radix : N) (c : Ascii.ascii) : option N :=
  let n := Ascii.N_of_ascii c in
  let d := if ascii_in 48 57 n then Some (n - 48)%N
           else if ascii_in 97 122 n then Some (n - 87)%N
           else if ascii_in 65 90 n then Some (n - 55)%N else None in
  match d with Some d => if N.ltb d radix then Some d else None | None => None end.

(** The maximal run of digits: how many, their value, the rest. *)
Fixpoint read_digits (radix : N) (s : string) (count : nat) (acc : N) : nat * N * string :=
  match s with
  | EmptyString => (count, acc, "")
  | String c s' =>
      match to_digit radix c with
      | Some d => read_digits radix s' (S count) (acc * radix + d)
      | None => (count, acc, s)
      end
  end.

Definition starts_with_zero (s : string) : bool :=
  match s with String c _ => Ascii.eqb c "0"%char | EmptyString => false end.

(** [Parser::read_number], for a type whose greatest value is [limit] *)
Definition read_number (radix : N) (max_digits : nat) (limit : N) (allow_zero_prefix : bool)
    (s : string) : option (N * string) :=
  let '(count, v, rest) := read_digits radix s 0 0 in
  if Nat.ltb max_digits count then None
  else if Nat.eqb count 0 then None
  else if negb allow_zero_prefix && starts_with_zero s && Nat.ltb 1 count then None
  else if N.leb v limit then Some (v, rest) else None.

(** [Parser::read_given_char] *)
Definition read_given_char (c : Ascii.ascii) (s : string) : option string :=
  match s with String d s' => if Ascii.eqb c d then Some s' else None | EmptyString => None end.

(** [Parser::read_separator]: the separator precedes every element but the
    first. *)
Definition read_separator {A} (sep : Ascii.ascii) (index : nat)
    (inner : string → option (A * string)) (s : string) : option (A * string) :=
  match index with
  | O => inner s
  | S _ => match read_given_char sep s with Some s' => inner s' | None => None end
  end.

Definition read_octet : string → option (N * string) := read_number 10 3 255 false.

(** [Parser::read_ipv4_addr] *)
Definition read_ipv4_addr (s : string) : option (N * N * N * N * string) :=
  '(a, s) ← read_separator "."%char 0 read_octet s;
  '(b, s) ← read_separator "."%char 1 read_octet s;
  '(c, s) ← read_separator "."%char 2 read_octet s;
  '(d, s) ← read_separator "."%char 3 read_octet s;
  Some (a, b, c, d, s).

(** [impl FromStr for Ipv4Addr]: at most 15 bytes, all consumed. *)
Definition ipv4_from_str (s : string) : option (N * N * N * N) :=
  if Nat.ltb 15 (String.length s) then None
  else match read_ipv4_addr s with Some (o, "") => Some o | _ => None end.

(** [read_groups]: at most [limit] groups from index [i] on, with an optional
    trailing IPv4 address; the groups, whether one was read, the rest. *)
Fixpoint read_groups (limit i : nat) (s : string) : list N * bool * string :=
  match limit with
  | O => ([], false, s)
  | S limit' =>
      let group :=
        match read_separator ":"%char i (read_number 16 4 65535 true) s with
        | Some (g, s') => let '(gs, v4, rest) := read_groups limit' (S i) s' in (g :: gs, v4, rest)
        | None => ([], false, s)
        end in
      match limit' with
      | O => group
      | S _ =>
          match read_separator ":"%char i read_ipv4_addr s with
          | Some (a, b, c, d, s') => ([a * 256 + b; c * 256 + d]%N, true, s')
          | None => group
          end
      end
  end.

(** [Parser::read_ipv6_addr] *)
Definition read_ipv6_addr (s : string) : option (list N * string) :=
  let '(head, head_ipv4, s) := read_groups 8 0 s in
  if Nat.eqb (length head) 8 then Some (head, s)
  else if head_ipv4 then None
  else
    s ← read_given_char ":"%char s;
    s ← read_given_char ":"%char s;
    let '(tail, _, s) := read_groups (8 - (length head + 1)) 0 s in
    Some (head ++ replicate (8 - length head - length tail) 0%N ++ tail, s).

(** [impl FromStr for Ipv6Addr] *)
Definition ipv6_from_str (s : string) : option (list N) :=
  match read_ipv6_addr s with Some (segs, "") => Some segs | _ => None end.

Example ipv6_full : ipv6_from_str "1:2:3:4:5:6:7:8" = Some [1; 2; 3; 4; 5; 6; 7; 8]%N.
Proof. vm_compute. reflexivity. Qed.
Example ipv6_mapped_read :
  ipv6_from_str "::ffff:192.168.2.1" = Some [0; 0; 0; 0; 0; 65535; 49320; 513]%N.
Proof. vm_compute. reflexivity. Qed.
Example ipv6_two_gaps : ipv6_from_str "1::2::3" = None.
Proof. vm_compute. reflexivity. Qed.
Example ipv4_leading_zero : ipv4_from_str "1.2.3.04" = None.
Proof. vm_compute. reflexivity. Qed.

(** [Host::parse_uri_host] *)
Definition strip_brackets (s : string) : option string :=
  match strip_prefix "[" s with
  | Some rest => String.rev <$> strip_prefix "]" (String.rev rest)
  | None => None
  end.

Definition parse_uri_host (s : string) : Host :=
  match strip_brackets s with
  | Some inner =>
      match ipv6_from_str inner with Some segs => Ipv6 segs | None => Domain inner end
  | None =>
      match ipv4_from_str s with
      | Some o => Ipv4 o
      | None => match ipv6_from_str s with Some segs => Ipv6 segs | None => Domain s end
      end
  end.

(** ** What is read is in range *)

Lemma read_number_le radix m l z s n rest : read_number radix m l z s = Some (n, rest) → (n ≤ l)%N.
Proof.
  unfold read_number. destruct (read_digits radix s 0 0) as [[count v] r].
  do 3 (case_goal; [done|]). destruct (N.leb_spec v l); [|done]. by intros [= <- _].
Qed.

Lemma read_separator_inner {A} sep i (inner : string → option (A * string)) s x :
  read_separator sep i inner s = Some x → ∃ s', inner s' = Some x.
Proof. unfold read_separator. destruct i; [eauto|]. destruct (read_given_char sep s); [eauto|done]. Qed.

(** ** Reading inverts [Display] *)

(** A decidable property of every [k]-bit number, by enumeration. *)
Fixpoint all_bits (k : nat) (P : N → bool) (acc : N) : bool :=
  match k with
  | O => P acc
  | S k => all_bits k P (2 * acc) && all_bits k P (2 * acc + 1)
  end.

Lemma all_bits_spec k P acc n :
  all_bits k P acc = true → (acc * 2 ^ N.of_nat k ≤ n < (acc + 1) * 2 ^ N.of_nat k)%N → P n = true.
Proof.
  revert acc. induction k as [|k IH]; simpl; intros acc H Hn.
  - rewrite N.pow_0_r in Hn. by replace n with acc by lia.
  - apply andb_prop in H as [H1 H2].
    rewrite Nat2N.inj_succ, N.pow_succ_r' in Hn.
    destruct (decide (n < (2 * acc + 1) * 2 ^ N.of_nat k)%N) as [Hlt|Hge];
      [apply (IH _ H1)|apply (IH _ H2)]; revert Hn; generalize dependent (2 ^ N.of_nat k)%N; nia.
Qed.

(** A text that does not continue a number. *)
Definition stops (radix : N) (s : string) : bool :=
  match s with EmptyString => true | String c _ => bool_decide (to_digit radix c = None) end.

Lemma read_digits_app radix s rest c a c' a' :
  read_digits radix s c a = (c', a', "") → stops radix rest = true →
  read_digits radix (s +:+ rest) c a = (c', a', rest).
Proof.
  revert c a. induction s as [|x s IH]; simpl; intros c a H Hr.
  - injection H as <- <-. destruct rest as [|y rest]; simpl in *; [done|].
    apply bool_decide_eq_true in Hr. by rewrite Hr.
  - destruct (to_digit radix x); [by apply IH|discriminate].
Qed.

Lemma starts_with_zero_app s rest : s ≠ "" → starts_with_zero (s +:+ rest) = starts_with_zero s.
Proof. by destruct s. Qed.

(** A number text read alone is read alike in front of a text that stops it. *)
Lemma read_number_app radix m l z s rest n :
  read_number radix m l z s = Some (n, "") → stops radix rest = true →
  read_number radix m l z (s +:+ rest) = Some (n, rest).
Proof.
  unfold read_number. destruct (read_digits radix s 0 0) as [[c v] r] eqn:E. intros H Hr.
  assert (Hz : Nat.eqb c 0 = false) by (destruct (Nat.ltb m c), (Nat.eqb c 0); congruence).
  destruct (decide (s = "")) as [->|Hne].
  { simpl in E. by injection E as <- _ _. }
  assert (r = "") as -> by (repeat case_match; congruence).
  rewrite (read_digits_app _ _ _ _ _ _ _ E Hr), (starts_with_zero_app _ _ Hne).
  repeat case_match; congruence.
Qed.

Definition number_reads (radix : N) (m : nat) (l : N) (z : bool) (show : N → string) (n : N) : bool :=
  bool_decide (read_number radix m l z (show n) = Some (n, "")).

Lemma read_octet_pretty n rest :
  (n < 256)%N → stops 10 rest = true → read_octet (pretty n +:+ rest) = Some (n, rest).
Proof.
  intros Hn. apply read_number_app.
  assert (all_bits 8 (number_reads 10 3 255 false pretty) 0 = true) as H by (vm_compute; done).
  apply (all_bits_spec _ _ _ n) in H; [|simpl; lia].
  by apply bool_decide_eq_true in H.
Qed.

Lemma read_hex_group n rest :
  (n < 65536)%N → stops 16 rest = true →
  read_number 16 4 65535 true (hex_u16 n +:+ rest) = Some (n, rest).
Proof.
  intros Hn. apply read_number_app.
  assert (all_bits 16 (number_reads 16 4 65535 true hex_u16) 0 = true) as H by (vm_compute; done).
  apply (all_bits_spec _ _ _ n) in H; [|simpl; lia].
  by apply bool_decide_eq_true in H.
Qed.

Definition octets_ok (o : N * N * N * N) : Prop :=
  let '(a, b, c, d) := o in (a < 256 ∧ b < 256 ∧ c < 256 ∧ d < 256)%N.

Lemma read_ipv4_addr_ok s o rest : read_ipv4_addr s = Some (o, rest) → octets_ok o.
Proof.
  unfold read_ipv4_addr. intros H.
  apply bind_Some in H as ([a s1] & [? Ha%read_number_le]%read_separator_inner & H).
  apply bind_Some in H as ([b s2] & [? Hb%read_number_le]%read_separator_inner & H).
  apply bind_Some in H as ([c s3] & [? Hc%read_number_le]%read_separator_inner & H).
  apply bind_Some in H as ([d s4] & [? Hd%read_number_le]%read_separator_inner & [= <- <-]).
  unfold octets_ok. lia.
Qed.

Lemma ipv4_from_str_ok s o : ipv4_from_str s = Some o → octets_ok o.
Proof.
  unfold ipv4_from_str. case_goal; [done|]. destruct (read_ipv4_addr s) as [[o' rest]|] eqn:H; [|done].
  destruct rest; [|done]. intros [= <-]. by eapply read_ipv4_addr_ok.
Qed.

Lemma read_ipv4_display o rest :
  octets_ok o → stops 10 rest = true →
  read_ipv4_addr (ipv4_display o +:+ rest) = Some (o, rest).
Proof.
  destruct o as [[[a b] c] d]. intros (Ha & Hb & Hc & Hd) Hr.
  unfold ipv4_display, read_ipv4_addr. rewrite !string_app_assoc. simpl.
  rewrite (read_octet_pretty a) by done. simpl.
  rewrite (read_octet_pretty b) by done. simpl.
  rewrite (read_octet_pretty c) by done. simpl.
  rewrite (read_octet_pretty d) by done. done.
Qed.

Lemma pretty_octet_length n : (n < 256)%N → String.length (pretty n) ≤ 3.
Proof.
  intros Hn.
  assert (all_bits 8 (λ n, Nat.leb (String.length (pretty n)) 3) 0 = true) as H by (vm_compute; done).
  apply (all_bits_spec _ _ _ n) in H; [|simpl; lia]. by apply Nat.leb_le.
Qed.

Lemma ipv4_from_display o : octets_ok o → ipv4_from_str (ipv4_display o) = Some o.
Proof.
  intros Ho. unfold ipv4_from_str.
  assert (String.length (ipv4_display o) ≤ 15) as Hlen.
  { destruct o as [[[a b] c] d]. destruct Ho as (Ha & Hb & Hc & Hd). unfold ipv4_display.
    rewrite !string_length_app.
    apply pretty_octet_length in Ha, Hb, Hc, Hd. simpl. lia. }
  destruct (Nat.ltb_spec 15 (String.length (ipv4_display o))); [lia|].
  rewrite <- (string_app_nil_r (ipv4_display o)). by rewrite read_ipv4_display.
Qed.

(** Up to its first colon the text has no dot, so no IPv4 address is read. *)
Fixpoint no_dot (s : string) : bool :=
  match s with
  | EmptyString => true
  | String c s => Ascii.eqb c ":" || negb (Ascii.eqb c ".") && no_dot s
  end.

Lemma read_digits_no_dot s c a c' a' r :
  read_digits 10 s c a = (c', a', r) → no_dot s = true → no_dot r = true.
Proof.
  revert c a. induction s as [|x s IH]; simpl; intros c a H Hs; [by injection H as <- <- <-|].
  destruct (to_digit 10 x) eqn:Ex; [|by injection H as <- <- <-].
  apply (IH _ _ H). apply orb_prop in Hs as [Hx|Hs]; [|by apply andb_prop in Hs as [_ ?]].
  apply Ascii.eqb_eq in Hx as ->. by vm_compute in Ex.
Qed.

Lemma no_ipv4 s : no_dot s = true → read_ipv4_addr s = None.
Proof.
  intros Hs. unfold read_ipv4_addr, read_separator.
  destruct (read_octet s) as [[a r]|] eqn:E; [|done]. cbn [mbind option_bind].
  unfold read_octet, read_number in E.
  destruct (read_digits 10 s 0 0) as [[c v] r'] eqn:Ed.
  assert (r' = r) as -> by (repeat case_match; congruence).
  apply read_digits_no_dot in Ed; [|done].
  destruct r as [|x r]; [done|]. unfold read_given_char.
  destruct (Ascii.eqb_spec "." x) as [<-|]; [by vm_compute in Ed|].
  done.
Qed.

Lemma no_dot_app s rest :
  no_dot s = true → no_dot rest = true → no_dot (s +:+ rest) = true.
Proof.
  induction s as [|x s IH]; simpl; [done|]. intros Hs Hr.
  destruct (Ascii.eqb x ":"); [done|]. apply andb_prop in Hs as [-> Hs]. simpl. auto.
Qed.

Lemma hex_no_dot n : (n < 65536)%N → no_dot (hex_u16 n) = true.
Proof.
  intros Hn.
  assert (all_bits 16 (λ n, no_dot (hex_u16 n)) 0 = true) as H by (vm_compute; done).
  apply (all_bits_spec _ _ _ n) in H; [done|simpl; lia].
Qed.

(** The text of the groups from index [i] on, separators included. *)
Fixpoint group_text (i : nat) (segs : list N) : string :=
  match segs with
  | [] => ""
  | g :: gs => (if Nat.eqb i 0 then "" else ":") +:+ hex_u16 g +:+ group_text (S i) gs
  end.

Lemma group_text_S i segs : group_text (S i) segs = group_text 1 segs.
Proof.
  revert i. induction segs as [|g segs IH]; intros i; simpl; [done|].
  by rewrite (IH (S i)), (IH 1).
Qed.

Lemma segments_display_text segs : segments_display segs = group_text 0 segs.
Proof.
  unfold segments_display. destruct segs as [|g segs]; simpl; [done|].
  revert g. induction segs as [|h segs IH]; intros g; simpl; [by rewrite string_app_nil_r|].
  by rewrite (group_text_S 1), <- IH.
Qed.

(** What may follow the groups of one side of an address. *)
Definition side_end (rest : string) : Prop := rest = "" ∨ ∃ t, rest = "::" +:+ t.

Lemma group_text_stops i segs rest :
  i ≠ 0 → side_end rest → stops 16 (group_text i segs +:+ rest) = true.
Proof. intros Hi [->|[t ->]]; destruct segs, i; done. Qed.

Lemma group_text_no_dot i segs rest :
  i ≠ 0 → side_end rest → no_dot (group_text i segs +:+ rest) = true.
Proof. intros Hi [->|[t ->]]; destruct segs, i; done. Qed.

Lemma read_groups_end limit i rest : side_end rest → read_groups limit i rest = ([], false, rest).
Proof. by intros [->|[t ->]]; destruct limit as [|[|limit]], i. Qed.

Lemma read_groups_text segs i limit rest :
  Forall (λ g, g < 65536)%N segs → length segs ≤ limit → side_end rest →
  read_groups limit i (group_text i segs +:+ rest) = (segs, false, rest).
Proof.
  intros Hs. revert i limit. induction Hs as [|g segs Hg Hs IH]; intros i limit Hlen Hrest.
  { by apply read_groups_end. }
  destruct limit as [|limit]; simpl in Hlen; [lia|].
  assert (Hnum : read_number 16 4 65535 true (hex_u16 g +:+ (group_text (S i) segs +:+ rest))
    = Some (g, group_text (S i) segs +:+ rest)) by (apply read_hex_group, group_text_stops; auto; done).
  assert (Hv4 : read_ipv4_addr (hex_u16 g +:+ (group_text (S i) segs +:+ rest)) = None).
  { apply no_ipv4, no_dot_app; [by apply hex_no_dot|by apply group_text_no_dot]. }
  assert (Htail : read_groups limit (S i) (group_text (S i) segs +:+ rest) = (segs, false, rest))
    by (apply IH; [lia|done]).
  simpl group_text. destruct i as [|i]; cbn [Nat.eqb]; rewrite !string_app_assoc; simpl;
    rewrite Hnum, Htail, ?Hv4; by destruct limit.
Qed.

(** ** Zero compression *)

(** A run of zero segments. *)
Definition zeros_at (segs : list N) (run : nat * nat) : Prop :=
  ∀ j, run.1 ≤ j < run.1 + run.2 → segs !! j = Some 0%N.

Lemma zeros_at_split segs st len :
  zeros_at segs (st, len) → segs = take st segs ++ replicate len 0%N ++ drop (st + len) segs.
Proof.
  intros H. rewrite <- (take_drop st segs) at 1. f_equal.
  rewrite <- (take_drop len (drop st segs)) at 1. rewrite drop_drop. f_equal.
  apply list_eq. intros j. destruct (decide (j < len)).
  - rewrite lookup_take_lt, lookup_drop, lookup_replicate_2 by done. apply H. simpl. lia.
  - rewrite lookup_take_ge by lia. symmetry. apply lookup_replicate_None. lia.
Qed.

Lemma zeros_at_app pre segs run : zeros_at pre run → zeros_at (pre ++ segs) run.
Proof. intros H j Hj. by apply lookup_app_l_Some, H. Qed.

Lemma zeros_at_snoc pre st len :
  zeros_at pre (st, len) → st + len = length pre → zeros_at (pre ++ [0%N]) (st, S len).
Proof.
  intros H Hlen j Hj. simpl in *. destruct (decide (j = length pre)) as [->|].
  - by apply list_lookup_middle.
  - apply lookup_app_l_Some, H. simpl. lia.
Qed.

(** The longest run found is a run, whatever the segments. *)
Lemma zero_run_spec segs pre cur best :
  (cur.2 = 0 ∨ cur.1 + cur.2 = length pre) → zeros_at pre cur → zeros_at pre best →
  zeros_at (pre ++ segs) (zero_run (length pre) segs cur best).
Proof.
  revert pre cur best. induction segs as [|s segs IH]; intros pre cur best Hcur Hzc Hzb; simpl.
  { by rewrite app_nil_r. }
  assert (Hpre : pre ++ s :: segs = (pre ++ [s]) ++ segs) by by rewrite <- app_assoc.
  assert (Hl : S (length pre) = length (pre ++ [s])) by (rewrite length_app; simpl; lia).
  rewrite Hpre, Hl. destruct (N.eqb_spec s 0) as [->|Hs].
  - assert (Hc : let cur := if Nat.eqb cur.2 0 then (length pre, 1) else (cur.1, S cur.2) in
      cur.1 + cur.2 = length (pre ++ [0%N]) ∧ zeros_at (pre ++ [0%N]) cur).
    { rewrite <- Hl. destruct cur as [st n]. simpl in *. destruct (Nat.eqb_spec n 0); simpl.
      - split; [lia|]. apply (zeros_at_snoc pre (length pre) 0); [|lia]. intros j Hj. simpl in Hj. lia.
      - split; [lia|]. apply zeros_at_snoc; [done|lia]. }
    destruct Hc as [Hc1 Hc2].
    apply IH; [by right|done|].
    match goal with |- zeros_at _ (if ?b then _ else _) => destruct b end; [done|by apply zeros_at_app].
  - apply IH; [by left| |by apply zeros_at_app]. intros j Hj. simpl in Hj. lia.
Qed.

Definition segments_ok (segs : list N) : Prop :=
  length segs = 8 ∧ Forall (λ g, g < 65536)%N segs.

Lemma read_groups_ok limit i s gs v4 rest :
  read_groups limit i s = (gs, v4, rest) → length gs ≤ limit ∧ Forall (λ g, g < 65536)%N gs.
Proof.
  revert i s gs v4 rest. induction limit as [|limit IH]; intros i s gs v4 rest; simpl.
  { intros [= <- _ _]. by split. }
  assert (∀ gs v4 rest, match read_separator ":"%char i (read_number 16 4 65535 true) s with
      | Some (g, s') => let '(gs, v4, rest) := read_groups limit (S i) s' in (g :: gs, v4, rest)
      | None => ([], false, s) end = (gs, v4, rest) → length gs ≤ S limit ∧ Forall (λ g, g < 65536)%N gs) as Hg.
  { intros gs' v4' rest'. destruct (read_separator _ _ _ _) as [[g s']|] eqn:Hs; [|intros [= <- _ _]; split; [simpl; lia|done]].
    apply read_separator_inner in Hs as [? Hg%read_number_le].
    destruct (read_groups limit (S i) s') as [[gs0 v0] r0] eqn:Hr. intros [= <- _ _].
    apply IH in Hr as [Hl Hf]. split; [simpl; lia|]. constructor; [lia|done]. }
  destruct limit as [|limit]; [apply Hg|]. destruct (read_separator ":"%char i read_ipv4_addr s) as [[[[[a b] c] d] s']|] eqn:Hs;
    [|apply Hg]. intros [= <- _ _]. apply read_separator_inner in Hs as [? Ho%read_ipv4_addr_ok].
  unfold octets_ok in Ho. split; [simpl; lia|]. repeat constructor; lia.
Qed.

Lemma ipv6_from_str_ok s segs : ipv6_from_str s = Some segs → segments_ok segs.
Proof.
  unfold ipv6_from_str. destruct (read_ipv6_addr s) as [[segs' rest]|] eqn:H; [|done]. destruct rest; [|done].
  intros [= <-]. unfold read_ipv6_addr in H. destruct (read_groups 8 0 s) as [[head v4] s1] eqn:Hh.
  apply read_groups_ok in Hh as [Hl Hf]. destruct (Nat.eqb_spec (length head) 8); [by injection H as <- _|].
  destruct v4; [done|]. apply bind_Some in H as (? & _ & H). apply bind_Some in H as (s3 & _ & H).
  destruct (read_groups (8 - (length head + 1)) 0 s3) as [[tail tv] s4] eqn:Ht.
  apply read_groups_ok in Ht as [Hl' Hf']. injection H as <- _. split.
  - rewrite !length_app, length_replicate. lia.
  - rewrite !Forall_app. split_and!; [done| |done]. by apply Forall_replicate.
Qed.

(** The two sides of a compressed address. *)
Lemma read_ipv6_gap head tail len :
  Forall (λ g, g < 65536)%N head → Forall (λ g, g < 65536)%N tail →
  1 ≤ len → length head + len + length tail = 8 →
  read_ipv6_addr (segments_display head +:+ "::" +:+ segments_display tail)
  = Some (head ++ replicate len 0%N ++ tail, "").
Proof.
  intros Hh Ht Hlen H8. rewrite !segments_display_text. unfold read_ipv6_addr.
  rewrite read_groups_text by (done || lia || by right; eexists).
  destruct (Nat.eqb_spec (length head) 8); [lia|]. simpl.
  rewrite <- (string_app_nil_r (group_text 0 tail)).
  rewrite read_groups_text by (done || lia || by left).
  by replace (8 - length head - length tail) with len by lia.
Qed.

Lemma ipv6_from_mapped a b :
  (a < 65536)%N → (b < 65536)%N →
  ipv6_from_str ("::ffff:" +:+ ipv4_display (a / 256, a mod 256, b / 256, b mod 256)%N)
  = Some [0; 0; 0; 0; 0; 65535; a; b]%N.
Proof.
  intros Ha Hb. unfold ipv6_from_str, read_ipv6_addr.
  set (t := ipv4_display _).
  assert (Ht : read_ipv4_addr t = Some (a / 256, a mod 256, b / 256, b mod 256, "")%N).
  { rewrite <- (string_app_nil_r t). apply read_ipv4_display; [|done].
    pose proof (N.Div0.div_lt_upper_bound a 256 256). pose proof (N.Div0.div_lt_upper_bound b 256 256).
    pose proof (N.mod_lt a 256). pose proof (N.mod_lt b 256). simpl. lia. }
  assert (E : read_groups 7 0 ("ffff:" +:+ t) = ([65535; a; b]%N, true, "")).
  { simpl. rewrite Ht.
    pose proof (N.div_mod' a 256). pose proof (N.div_mod' b 256).
    repeat f_equal; lia. }
  rewrite (read_groups_end 8 0 ("::ffff:" +:+ t)) by (right; by eexists ("ffff:" +:+ t)).
  change (("::ffff:" +:+ t)) with (String ":" (String ":" ("ffff:" +:+ t))).
  clearbody t. cbn -[read_groups String.append replicate Nat.sub]. change (8 - 1) with 7. by rewrite E.
Qed.

(** [Ipv6Addr::from_str] inverts [Display], compressed and mapped forms
    included. *)
Lemma ipv6_from_display segs : segments_ok segs → ipv6_from_str (ipv6_display segs) = Some segs.
Proof.
  intros [H8 Hs]. unfold ipv6_display. destruct (ipv4_mapped segs) as [[a b]|] eqn:Em.
  { unfold ipv4_mapped in Em. do 8 (destruct segs as [|? segs]; [done|]). destruct segs; [|done].
    case_bool_decide as Hm; [|done]. injection Em as <- <-. injection Hm as -> -> -> -> -> ->.
    rewrite !Forall_cons in Hs. apply ipv6_from_mapped; tauto. }
  pose proof (zero_run_spec segs [] (0, 0) (0, 0)) as Hz. simpl in Hz.
  destruct (zero_run 0 segs (0, 0) (0, 0)) as [st len].
  assert (zeros_at segs (st, len)) as Hrun.
  { apply Hz; [by left| |]; intros j Hj; simpl in Hj; lia. }
  destruct (Nat.ltb_spec 1 len) as [Hlen|_]; unfold ipv6_from_str.
  - assert (st + len ≤ 8).
    { assert (is_Some (segs !! (st + len - 1))) as Hl%lookup_lt_is_Some.
      { rewrite Hrun; [done|simpl; lia]. }
      lia. }
    rewrite (read_ipv6_gap _ _ len); [|by apply Forall_take|by apply Forall_drop|lia|].
    + by rewrite <- zeros_at_split.
    + rewrite length_take, length_drop. lia.
  - unfold read_ipv6_addr. rewrite segments_display_text, <- (string_app_nil_r (group_text 0 segs)).
    rewrite read_groups_text by (done || lia || by left). by rewrite H8.
Qed.

(** ** Hosts *)

Lemma rev_app_spec (a b c : string) : String.rev_app (a +:+ b) c = String.rev_app b (String.rev_app a c).
Proof. revert c. induction a as [|x a IH]; intros c; simpl; [done|apply IH]. Qed.

Lemma rev_app_acc (a c : string) : String.rev_app a c = String.rev a +:+ c.
Proof.
  unfold String.rev. revert c. induction a as [|x a IH]; intros c; simpl; [done|].
  by rewrite IH, (IH (String x "")), string_app_assoc.
Qed.

Lemma rev_app_distr (a b : string) : String.rev (a +:+ b) = String.rev b +:+ String.rev a.
Proof. unfold String.rev at 1. by rewrite rev_app_spec, rev_app_acc. Qed.

Lemma rev_rev (a : string) : String.rev (String.rev a) = a.
Proof.
  induction a as [|x a IH]; [done|].
  change (String x a) with (String x "" +:+ a) at 1. rewrite rev_app_distr, rev_app_distr, IH. done.
Qed.

Lemma strip_brackets_app (t : string) : strip_brackets ("[" +:+ t +:+ "]") = Some t.
Proof.
  unfold strip_brackets. simpl. rewrite rev_app_distr. simpl. by rewrite rev_rev.
Qed.

(** A value of [Host]: the addresses are machine values; a domain name is any
    text that does not read as a bracketed or plain address. *)
Definition host_ok (h : Host) : Prop :=
  match h with
  | Ipv4 o => octets_ok o
  | Ipv6 segs => segments_ok segs
  | Domain d => strip_brackets d = None ∧ ipv4_from_str d = None ∧ ipv6_from_str d = None
  end.

Lemma ipv4_display_unbracketed o : octets_ok o → strip_brackets (ipv4_display o) = None.
Proof.
  destruct o as [[[a b] c] d]. intros (Ha & _). unfold strip_brackets, ipv4_display.
  assert (all_bits 8 (λ n, bool_decide (strip_prefix "[" (pretty n) = None)
    && negb (is_empty (pretty n))) 0 = true) as H by (vm_compute; done).
  apply (all_bits_spec _ _ _ a) in H; [|simpl; lia]. apply andb_prop in H as [H1%bool_decide_eq_true H2].
  destruct (pretty a) as [|x t]; [done|].
  cbn [strip_prefix String.append] in *. by destruct (Ascii.eqb "[" x).
Qed.

(** The text stored for a host reads back as that host. *)
Lemma uri_host_roundtrip h : host_ok h → parse_uri_host (uri_host h) = h.
Proof.
  unfold parse_uri_host, uri_host. destruct h as [o|segs|d].
  - intros Ho. by rewrite ipv4_display_unbracketed, ipv4_from_display.
  - intros Hs. by rewrite strip_brackets_app, ipv6_from_display.
  - by intros (-> & -> & ->).
Qed.

End Ip.
