(* ===== verification/Float64.v ===== *)
(** * Decimal texts as [f64]

    [parse_bandwidth] computes in [f64].  A finite value is a fraction; a
    decimal text, and a product, is the nearest value with a 53-bit
    significand, ties to even.  The exponent is unbounded: past the range of
    [f64] the result saturates to [u64::MAX], and under it rounds to 0, either
    way. *)

From Stdlib Require Import Ascii.
From S2P Require Import Prelude Kernel Text Ip.
Import Text Ip.

Module F64.
Local Open Scope N_scope.

(** The fraction [num / den]; [den] is positive. *)
Record F64 := mkF64 { num : N; den : N }.

(** Round half to even. *)
Definition nearest_even (n d : N) : N :=
  let q := n / d in let r := n mod d in
  match N.compare (2 * r) d with
  | Lt => q
  | Gt => q + 1
  | Eq => if N.even q then q else q + 1
  end.

(** [floor (log2 (n / d))] *)
Definition floor_log2 (n d : N) : Z :=
  if N.leb d n then Z.of_N (N.log2 (n / d)) else (- Z.of_N (N.log2_up ((d + n - 1) / n)))%Z.

(** The nearest value with a 53-bit significand. *)
Definition round53 (n d : N) : F64 :=
  if N.eqb n 0 then mkF64 0 1
  else
    let e := (floor_log2 n d - 52)%Z in
    if Z.leb 0 e
    then mkF64 (nearest_even n (d * 2 ^ Z.to_N e) * 2 ^ Z.to_N e) 1
    else mkF64 (nearest_even (n * 2 ^ Z.to_N (- e)) d) (2 ^ Z.to_N (- e)).

Definition mul (a b : F64) : F64 := round53 (num a * num b) (den a * den b).
Definition of_u64 (n : N) : F64 := round53 n 1.

(** [f64::round] (half away from zero), then the saturating cast [as u64]. *)
Definition round_u64 (a : F64) : N := N.min ((2 * num a + den a) / (2 * den a)) u64_max.

(** [f64::from_str] of a text of digits and dots: one optional dot, at least
    one digit. *)
Fixpoint read_decimal (s : string) (dot : bool) (digits : nat) (v scale : N) : option F64 :=
  match s with
  | EmptyString => if Nat.eqb digits 0 then None else Some (round53 v scale)
  | String c s =>
      match to_digit 10 c with
      | Some d => read_decimal s dot (S digits) (v * 10 + d) (if dot then scale * 10 else scale)
      | None => if Ascii.eqb c "." && negb dot then read_decimal s true digits v scale else None
      end
  end.

Definition f64_from_str (s : string) : option F64 := read_decimal s false 0 0 1.

Example half_mega : (λ x, round_u64 (mul x (of_u64 1000000))) <$> f64_from_str "0.5" = Some 500000.
Proof. vm_compute. reflexivity. Qed.
Example above_53_bits : (λ x, round_u64 (mul x (of_u64 1))) <$> f64_from_str "9007199254740993" = Some 9007199254740992.
Proof. vm_compute. reflexivity. Qed.
Example saturates : (λ x, round_u64 (mul x (of_u64 1000000000))) <$> f64_from_str "99999999999" = Some u64_max.
Proof. vm_compute. reflexivity. Qed.
Example no_digits : f64_from_str "." = None.
Proof. reflexivity. Qed.

(** ** Integers below 2^53 are exact *)

Definition denotes (a : F64) (n : N) : Prop := 0 < den a ∧ num a = n * den a.

Lemma nearest_even_exact n d : 0 < d → nearest_even (n * d) d = n.
Proof.
  intros Hd. unfold nearest_even. rewrite N.div_mul by lia. rewrite N.Div0.mod_mul.
  destruct (N.compare_spec (2 * 0) d); lia.
Qed.

Lemma round53_exact n d : 0 < d → n < 2 ^ 53 → denotes (round53 (n * d) d) n.
Proof.
  intros Hd Hn. unfold round53, denotes. destruct (N.eqb_spec (n * d) 0) as [H0|H0].
  { simpl. nia. }
  assert (Hn0 : n ≠ 0) by (intros ->; lia).
  unfold floor_log2. destruct (N.leb_spec d (n * d)) as [_|]; [|nia].
  rewrite N.div_mul by lia.
  assert (N.log2 n < 53) by (apply N.log2_lt_pow2; lia).
  destruct (Z.leb_spec 0 (Z.of_N (N.log2 n) - 52)) as [He|He]; simpl.
  - replace (Z.to_N (Z.of_N (N.log2 n) - 52)) with 0 by lia. rewrite N.pow_0_r, !N.mul_1_r.
    rewrite nearest_even_exact; lia.
  - set (k := 2 ^ _). assert (0 < k) by (apply N.neq_0_lt_0, N.pow_nonzero; lia).
    replace (n * d * k) with (n * k * d) by lia. rewrite nearest_even_exact; lia.
Qed.

Lemma mul_exact a b m n :
  denotes a m → denotes b n → m * n < 2 ^ 53 → denotes (mul a b) (m * n).
Proof.
  intros [Ha Hm] [Hb Hn] Hlt. unfold mul. rewrite Hm, Hn.
  replace (m * den a * (n * den b)) with (m * n * (den a * den b)) by lia.
  apply round53_exact; [nia|done].
Qed.

Lemma of_u64_exact n : n < 2 ^ 53 → denotes (of_u64 n) n.
Proof. intros H. pose proof (round53_exact n 1 ltac:(lia) H) as E. by rewrite N.mul_1_r in E. Qed.

Lemma round_u64_exact a n : denotes a n → n ≤ u64_max → round_u64 a = n.
Proof.
  intros [Hd Hn] Hmax. unfold round_u64. rewrite Hn.
  replace ((2 * (n * den a) + den a) / (2 * den a)) with n; [lia|].
  apply (N.div_unique _ _ _ (den a)); lia.
Qed.

Lemma read_decimal_digits s k v count value rest :
  read_digits 10 s k v = (count, value, rest) → rest = "" →
  read_decimal s false k v 1 = if Nat.eqb count 0 then None else Some (round53 value 1).
Proof.
  revert k v. induction s as [|c s IH]; intros k v H Hr; simpl in H |- *.
  - by injection H as -> -> _.
  - destruct (to_digit 10 c); [by apply IH|]. by injection H as _ _ <-.
Qed.

End F64.
