(* ===== verification/UrlInstance.v ===== *)
(** * The URL contract is satisfiable

    A small concrete [UrlLib] and the proof of [UrlLaws] for it.  It is not a
    model of the crates (its Base64 is hexadecimal, its JSON a number): it shows
    that the contract of [UrlText] has an implementation, and the concrete
    instances of the round-trip theorems run on it. *)

From Stdlib Require Import Ascii.
From stdpp Require Import pretty.
From S2P Require Import Prelude Kernel Node Text Ip UrlText.
Import Text Ip UrlText.

#[local] Arguments String.append !_ _ / : simpl nomatch.

Module UrlInstance.

(** ** Bytes as two hexadecimal digits *)

Definition upper_hex (n : N) : ascii := default Ascii.zero (String.get (N.to_nat n) "0123456789ABCDEF").
Definition high (c : ascii) : ascii := upper_hex (code c / 16).
Definition low (c : ascii) : ascii := upper_hex (code c mod 16).
Definition byte_of (h l : ascii) : option ascii :=
  h ← to_digit 16 h; l ← to_digit 16 l; Some (Ascii.ascii_of_N (h * 16 + l)).

Lemma byte_of_hex c : byte_of (high c) (low c) = Some c.
Proof.
  enough (bool_decide (byte_of (high c) (low c) = Some c) = true) as H by by apply bool_decide_eq_true in H.
  revert c. apply all_ascii. vm_compute. reflexivity.
Qed.

Lemma hex_upper c : hex_digit_upper (high c) && hex_digit_upper (low c) = true.
Proof. revert c. apply all_ascii. vm_compute. reflexivity. Qed.

Fixpoint hex_text (s : string) : string :=
  match s with EmptyString => "" | String c s => String (high c) (String (low c) (hex_text s)) end.

Fixpoint unhex_text (s : string) : option string :=
  match s with
  | EmptyString => Some ""
  | String h (String l s) => c ← byte_of h l; String c <$> unhex_text s
  | _ => None
  end.

Lemma unhex_hex s : unhex_text (hex_text s) = Some s.
Proof. induction s as [|c s IH]; simpl; [done|]. by rewrite byte_of_hex, IH. Qed.

(** ** Percent-encoding *)

Fixpoint encode_bytes (S : AsciiSet) (s : string) : string :=
  match s with
  | EmptyString => ""
  | String c s =>
      if S c || N.leb 128 (code c)
      then String "%" (String (high c) (String (low c) (encode_bytes S s)))
      else String c (encode_bytes S s)
  end.

Fixpoint decode_bytes (s : string) : string :=
  match s with
  | EmptyString => ""
  | String c s1 =>
      match s1 with
      | String h (String l s2) =>
          if Ascii.eqb c "%"
          then match byte_of h l with Some b => String b (decode_bytes s2) | None => String c (decode_bytes s1) end
          else String c (decode_bytes s1)
      | _ => String c (decode_bytes s1)
      end
  end.

Lemma decode_bytes_plain c s : c ≠ "%"%char → decode_bytes (String c s) = String c (decode_bytes s).
Proof. intros Hc. destruct s as [|h [|l s]]; simpl; [done..|]. by destruct (Ascii.eqb_spec c "%"). Qed.

Lemma percent_roundtrip (S : AsciiSet) s : S "%"%char = true → decode_bytes (encode_bytes S s) = s.
Proof.
  intros HS. induction s as [|c s IH]; [done|]. cbn [encode_bytes].
  destruct (S c || N.leb 128 (code c)) eqn:E.
  - cbn [decode_bytes]. rewrite Ascii.eqb_refl, byte_of_hex. by rewrite IH.
  - rewrite decode_bytes_plain; [by rewrite IH|]. intros ->. by rewrite HS in E.
Qed.

Lemma decode_no_escape s : lacks "%" s → decode_bytes s = s.
Proof.
  induction s as [|c s IH]; [done|]. intros [Hc Hs]%lacks_string.
  rewrite decode_bytes_plain by done. by rewrite IH.
Qed.

Lemma encode_chars (S : AsciiSet) s :
  all_chars (λ c, N.ltb (code c) 128 && (negb (S c) || Ascii.eqb c "%" || hex_digit_upper c))
    (encode_bytes S s) = true.
Proof.
  assert (Hhex : ∀ c, implb (hex_digit_upper c) (N.ltb (code c) 128) = true)
    by (apply all_ascii; vm_compute; reflexivity).
  induction s as [|c s IH]; [done|]. cbn [encode_bytes].
  destruct (S c || N.leb 128 (code c)) eqn:E; cbn [all_chars]; rewrite IH, ?andb_true_r.
  - pose proof (hex_upper c) as [Hh Hl]%andb_prop.
    pose proof (Hhex (high c)) as H1. pose proof (Hhex (low c)) as H2.
    rewrite Hh in H1. rewrite Hl in H2. simpl in H1, H2. by rewrite H1, H2, Hh, Hl, !orb_true_r.
  - apply orb_false_elim in E as [-> E]. simpl. rewrite andb_true_r.
    apply N.leb_gt in E. by apply N.ltb_lt.
Qed.

(** ** Form-encoded queries *)

Fixpoint plus_as_space (s : string) : string :=
  match s with
  | EmptyString => ""
  | String c s => String (if Ascii.eqb "+" c then " " else c) (plus_as_space s)
  end.

Lemma plus_as_space_id s : lacks "+" s → plus_as_space s = s.
Proof.
  induction s as [|c s IH]; [done|]. intros [Hc Hs]%lacks_string. cbn [plus_as_space].
  destruct (Ascii.eqb_spec "+" c); [done|]. by rewrite IH.
Qed.

Definition form_text (s : string) : string := decode_bytes (plus_as_space s).

Definition form_pair (piece : string) : string * string :=
  match split_once "=" piece with
  | Some (k, v) => (form_text k, form_text v)
  | None => (form_text piece, "")
  end.

Definition form_pairs (s : string) : list (string * string) :=
  form_pair <$> filter (λ p, p ≠ "") (split "&" s).

Lemma encode_lacks (S : AsciiSet) c s :
  S c = true → c ≠ "%"%char → hex_digit_upper c = false → lacks c (encode_bytes S s).
Proof.
  intros HS Hp Hh. unfold lacks. eapply all_chars_impl; [|apply (encode_chars S s)].
  intros d [_ Hd]%andb_prop. destruct (Ascii.eqb_spec c d) as [<-|]; [|done].
  rewrite HS, Hh in Hd. by destruct (Ascii.eqb_spec c "%").
Qed.

Lemma key_lacks c k : key_char c = false → all_chars key_char k = true → lacks c k.
Proof.
  intros Hc. apply all_chars_impl. intros d Hd. destruct (Ascii.eqb_spec c d); [congruence|done].
Qed.

Lemma form_pair_text (S : AsciiSet) k v :
  S "%"%char = true → S "+"%char = true → all_chars key_char k = true →
  form_pair (k +:+ "=" +:+ encode_bytes S v) = (k, v).
Proof.
  intros HS1 HS2 Hk. unfold form_pair. cbn [String.append].
  rewrite split_once_app by (by apply key_lacks).
  cbv beta iota. unfold form_text. rewrite !plus_as_space_id by first [by apply key_lacks|by apply encode_lacks].
  by rewrite percent_roundtrip, decode_no_escape by first [by apply key_lacks|done].
Qed.

Lemma filter_Forall {A} (P : A → Prop) `{!∀ x, Decision (P x)} (l : list A) : Forall P l → filter P l = l.
Proof.
  induction 1 as [|x l Hx _ IH]; [done|]. by rewrite filter_cons, decide_True, IH.
Qed.

Lemma form_pairs_text (S : AsciiSet) params :
  S "%"%char = true → S "&"%char = true → S "+"%char = true →
  Forall (λ kv, kv.1 ≠ "" ∧ all_chars key_char kv.1 = true) params →
  form_pairs (query_text (encode_bytes S) params) = params.
Proof.
  intros HS1 HS2 HS3 Hp. destruct params as [|kv params]; [done|].
  unfold form_pairs, query_text. rewrite split_join; [|done|].
  - rewrite filter_Forall.
    + rewrite <- list_fmap_compose. rewrite <- (list_fmap_id (kv :: params)) at 2.
      apply list_fmap_ext. intros i [k v] Hi. simpl.
      apply (Forall_lookup_1 _ _ _ _ Hp) in Hi as [_ Hk]. by apply form_pair_text.
    + rewrite Forall_fmap. eapply Forall_impl; [exact Hp|]. intros [k v] [Hk _]. simpl in *. by destruct k.
  - rewrite Forall_fmap. eapply Forall_impl; [exact Hp|]. intros [k v] [_ Hk]. simpl in *.
    apply lacks_app. split; [by apply key_lacks|]. apply lacks_string. split; [done|].
    by apply encode_lacks.
Qed.

(** ** URLs *)

Definition cut (c : ascii) (s : string) : string * option string :=
  match split_once c s with Some (a, b) => (a, Some b) | None => (s, None) end.

Lemma cut_prefixed c a o : lacks c a → cut c (a +:+ prefixed (String c "") o) = (a, o).
Proof.
  intros Ha. unfold cut. destruct o as [t|]; simpl.
  - by rewrite split_once_app.
  - rewrite string_app_nil_r. by rewrite split_once_None.
Qed.

Definition read_url (s : string) : option Url :=
  '(scheme, rest) ← split_once ":" s;
  rest ← strip_prefix "//" rest;
  let '(rest, fragment) := cut "#" rest in
  let '(rest, query) := cut "?" rest in
  '(credentials, host_port) ← split_once "@" rest;
  '(host, port) ← rsplit_once ":" host_port;
  p ← parse_unsigned u16_max port;
  let '(user, pass) := cut ":" credentials in
  Some (mkUrl scheme user pass (Some host) (Some p) query fragment).

Definition parse_url (s : string) : Result string Url :=
  match read_url s with Some u => Ok u | None => Err "invalid URL" end.

Lemma class_lacks (p : ascii → bool) c s : p c = false → all_chars p s = true → lacks c s.
Proof.
  intros Hc. apply all_chars_impl. intros d Hd. destruct (Ascii.eqb_spec c d); [congruence|done].
Qed.

Definition addr_char (c : ascii) : bool := in_range 48 58 c || in_range 97 102 c || Ascii.eqb c ".".

Lemma pretty_addr (n : N) : all_chars addr_char (pretty n) = true.
Proof. eapply all_chars_impl; [|apply pretty_digits]. intros c. by_ascii c. Qed.

Lemma ipv4_display_addr o : all_chars addr_char (ipv4_display o) = true.
Proof.
  destruct o as [[[a b] c] d]. unfold ipv4_display.
  by rewrite !all_chars_app, !pretty_addr.
Qed.

Lemma segments_display_addr segs :
  Forall (λ g, g < 65536)%N segs → all_chars addr_char (segments_display segs) = true.
Proof.
  intros H. rewrite segments_display_text. generalize 0 at 1 as i.
  induction H as [|g segs Hg H IH]; intros i; [done|]. cbn [group_text].
  rewrite !all_chars_app, IH, andb_true_r.
  assert (all_bits 16 (λ n, all_chars addr_char (hex_u16 n)) 0 = true) as Hh by (vm_compute; done).
  apply (all_bits_spec _ _ _ g) in Hh; [|simpl; lia]. cbv beta in Hh. rewrite Hh.
  by destruct (Nat.eqb i 0).
Qed.

Lemma ipv6_display_addr segs : segments_ok segs → all_chars addr_char (ipv6_display segs) = true.
Proof.
  intros [_ H]. unfold ipv6_display. destruct (ipv4_mapped segs) as [[a b]|].
  - by rewrite all_chars_app, ipv4_display_addr.
  - destruct (zero_run 0 segs (0, 0) (0, 0)) as [st len]. destruct (Nat.ltb 1 len).
    + rewrite !all_chars_app, !segments_display_addr; [done|by apply Forall_drop|by apply Forall_take].
    + by apply segments_display_addr.
Qed.

(** No host text has a delimiter of the parts around it. *)
Lemma uri_host_lacks h c :
  url_host h → addr_char c || opaque_host_char c || one_of "[]" c = false → lacks c (uri_host h).
Proof.
  intros Hh [[Ha Ho]%orb_false_elim Hb]%orb_false_elim.
  destruct h as [o|segs|d]; simpl in Hh; unfold uri_host.
  - eapply class_lacks; [exact Ha|]. apply ipv4_display_addr.
  - apply lacks_app. split; [|apply lacks_app; split].
    + apply lacks_string. split; [by intros ->|done].
    + eapply class_lacks; [exact Ha|]. by apply ipv6_display_addr.
    + apply lacks_string. split; [by intros ->|done].
  - eapply class_lacks; [exact Ho|]. apply Hh.
Qed.

Lemma userinfo_lacks c t : userinfo_char c = false → all_chars userinfo_char t = true → lacks c t.
Proof. apply class_lacks. Qed.

Lemma pretty_lacks c (n : N) : in_range 48 57 c = false → lacks c (pretty n).
Proof. intros Hc. eapply class_lacks; [exact Hc|apply pretty_digits]. Qed.

Lemma credentials_lacks c user pass :
  all_chars userinfo_char user = true →
  (∀ t, pass = Some t → t ≠ "" ∧ all_chars userinfo_char t = true) →
  userinfo_char c = false → c ≠ ":"%char → lacks c (credentials_text user pass).
Proof.
  intros Hu Hp Hc Hcol. unfold credentials_text. apply lacks_app. split; [by apply userinfo_lacks|].
  destruct pass as [t|]; [|done]. apply lacks_string. split; [done|].
  apply userinfo_lacks; [done|by apply Hp].
Qed.

Lemma strip_slashes t : strip_prefix "//" ("//" +:+ t) = Some t.
Proof. done. Qed.

Lemma read_url_text scheme user pass h p query fragment :
  ordinary_scheme scheme → all_chars userinfo_char user = true →
  (∀ t, pass = Some t → t ≠ "" ∧ all_chars userinfo_char t = true) →
  url_host h → (p ≤ u16_max)%N →
  (∀ t, query = Some t → all_chars query_char t = true) →
  read_url (url_text scheme user pass h p query fragment)
  = Some (mkUrl scheme user pass (Some (uri_host h)) (Some p) query fragment).
Proof.
  intros [Hs _] Hu Hp Hh Hport Hq. unfold read_url, url_text.
  set (authority := credentials_text user pass +:+ "@" +:+ uri_host h +:+ ":" +:+ pretty p).
  assert (Hauth : ∀ c, userinfo_char c = false → c ≠ ":"%char → c ≠ "@"%char →
    addr_char c || opaque_host_char c || one_of "[]" c = false → lacks c authority).
  { intros c H1 H2 H3 H4. unfold authority. apply lacks_app. split; [by apply credentials_lacks|].
    apply lacks_string. split; [done|]. apply lacks_app. split; [by apply uri_host_lacks|].
    apply lacks_string. split; [done|]. apply pretty_lacks.
    destruct (in_range 48 57 c) eqn:E; [|done]. exfalso. revert H4 E. clear.
    intros H4 E. enough (addr_char c = true) as Ha by by rewrite Ha in H4.
    clear H4. revert E. by_ascii c. }
  replace (scheme +:+ "://" +:+ _) with
    (scheme +:+ String ":" ("//" +:+ ((authority +:+ prefixed "?" query) +:+ prefixed "#" fragment)))
    by (unfold authority; repeat (rewrite string_app_assoc || cbn [String.append]); reflexivity).
  rewrite split_once_app by (eapply class_lacks; [|exact Hs]; done).
  cbn [mbind option_bind]. rewrite strip_slashes. cbn [mbind option_bind].
  rewrite cut_prefixed.
  2:{ apply lacks_app. split; [by apply Hauth|]. destruct query as [q|]; [|done].
      apply lacks_string. split; [done|]. eapply class_lacks; [|by apply Hq]. done. }
  rewrite cut_prefixed by by apply Hauth.
  unfold authority. cbn [String.append].
  rewrite split_once_app by by apply credentials_lacks. cbn [mbind option_bind].
  rewrite rsplit_once_app by by apply pretty_lacks. cbn [mbind option_bind].
  rewrite parse_unsigned_pretty by done. cbn [mbind option_bind].
  unfold credentials_text. rewrite cut_prefixed by by apply userinfo_lacks. done.
Qed.

(** ** JSON *)

Definition as_string (kv : string * Json) : option (string * string) :=
  match kv.2 with JString s => Some (kv.1, s) | _ => None end.

Definition strings_of (j : Json) : option (list (string * string)) :=
  match j with JObject fields => mapM as_string fields | _ => None end.

Definition write_json (j : Json) : string :=
  match strings_of j with Some l => pretty (N.pos (encode l)) | None => "" end.

Definition read_json (s : string) : Result string Json :=
  match read_digits 10 s 0 0 with
  | (_, N.pos p, "") =>
      match decode (A := list (string * string)) p with
      | Some l => Ok (JObject (prod_map id JString <$> l))
      | None => Err "invalid JSON"
      end
  | _ => Err "invalid JSON"
  end.

Lemma strings_of_fields l : strings_of (JObject (prod_map id JString <$> l)) = Some l.
Proof.
  simpl. apply mapM_Some. induction l as [|[k v] l IH]; simpl; [constructor|]. by constructor.
Qed.

Lemma ascii_utf8 s : all_chars (in_range 0 127) s = true → utf8_valid s = true.
Proof.
  induction s as [|c s IH]; [done|]. cbn [all_chars utf8_valid].
  intros [-> Hs]%andb_prop. auto.
Qed.

#[export] Instance url_lib : UrlLib := {|
  url_parse := parse_url;
  form_urlencoded := form_pairs;
  percent_encode := encode_bytes;
  percent_decode := decode_bytes;
  base64_encode := λ _, hex_text;
  base64_decode := λ _, unhex_text;
  json_from_str := read_json;
  json_to_string := write_json;
  json_data_error := λ _, "invalid type";
  utf8_error := λ _, "invalid utf-8 sequence"
|}.

#[export] Instance url_laws : UrlLaws url_lib.
Proof.
  split; simpl.
  - apply encode_chars.
  - apply percent_roundtrip.
  - intros S s. split; [|by intros ->]. destruct s as [|c s]; [done|]. simpl. by case_match.
  - apply form_pairs_text.
  - intros scheme user pass h p query fragment Hs Hu Hp Hh Hport Hq _.
    eexists. unfold parse_url. rewrite read_url_text by done. split_and!; try done.
    exists (uri_host h). split; [done|]. destruct h as [o|segs|d]; simpl; [done| |done].
    exists (ipv6_display segs). split; [done|]. by apply ipv6_from_display.
  - intros _. apply unhex_hex.
  - intros e s. induction s as [|c s IH]; [done|]. cbn [hex_text all_chars]. rewrite IH, andb_true_r.
    revert IH. intros _. revert c. apply all_ascii. destruct e; vm_compute; reflexivity.
  - congruence.
  - intros fields _. exists fields. split; [done|]. unfold write_json, read_json.
    rewrite strings_of_fields. destruct (read_digits_pretty (N.pos (encode fields))) as (j & ->).
    by rewrite countable.decode_encode.
  - intros fields _. unfold write_json. rewrite strings_of_fields. apply ascii_utf8.
    eapply all_chars_impl; [|apply pretty_digits]. intros c. by_ascii c.
Qed.

End UrlInstance.
