(* ===== verification/NodePool.v ===== *)
(** * The node pool
      ([crates/deve-sub-domain/src/source/ports.rs],
      [crates/deve-sub-storage-sqlite/src/node_row.rs],
      [crates/deve-sub-storage-sqlite/src/node_pool_repository.rs])

    The repository interface the template resolver is written against, with
    the contract its documentation states, and the SQLite implementation of
    the read operations, which satisfies it. *)

From S2P Require Import Prelude Kernel Node.

(** ** Filters ([source/ports.rs]) *)

Record NodeFilter := mkNodeFilter {
  nf_protocol : option ProtocolKind;
  nf_region : option string;
  nf_include_missing : bool;
  nf_include_inactive : bool
}.

(** [NodeFilter::active_only], [NodeFilter::all] *)
Definition filter_active_only : NodeFilter := mkNodeFilter None None false false.
Definition filter_all : NodeFilter := mkNodeFilter None None true true.

(** What a filter selects, as documented. *)
Definition entry_matches (f : NodeFilter) (e : NodePoolEntry) : Prop :=
  (∀ p, nf_protocol f = Some p → protocol (node e) = p) ∧
  (∀ r, nf_region f = Some r → region_value (region (node e)) = Some r) ∧
  (nf_include_missing f = false → missing_from_source e = false) ∧
  (nf_include_inactive f = false → is_active e = true).

Definition after_cursor (cursor : option NodeId) (e : NodePoolEntry) : Prop :=
  match cursor with None => True | Some c => (c < n_id (node e))%N end.

#[export] Instance entry_matches_dec f e : Decision (entry_matches f e).
Proof.
  unfold entry_matches. repeat apply and_dec.
  - destruct (nf_protocol f) as [p|]; [|by left].
    destruct (decide (protocol (node e) = p)); [left; naive_solver|right; naive_solver].
  - destruct (nf_region f) as [p|]; [|by left].
    destruct (decide (region_value (region (node e)) = Some p)); [left; naive_solver|right; naive_solver].
  - apply _.
  - apply _.
Defined.

#[export] Instance after_cursor_dec c e : Decision (after_cursor c e).
Proof. unfold after_cursor. destruct c; apply _. Defined.

(** ** The repository interface *)

Class NodePoolRepository (R : Type) := {
  list_nodes : R → NodeFilter → option NodeId → N → Result string (list NodePoolEntry);
  get_nodes : R → list NodeId → Result string (list NodePoolEntry);
  (** the readable contents of the pool, for the contract only *)
  pool_entries : R → list NodePoolEntry
}.

Definition entry_id (e : NodePoolEntry) : NodeId := n_id (node e).

(** The entries a listing call may return. *)
Definition listing {R} `{NodePoolRepository R} (r : R) (f : NodeFilter) (c : option NodeId) :
    list NodePoolEntry :=
  filter (λ e, entry_matches f e ∧ after_cursor c e) (pool_entries r).

(** The contract: entries are listed in increasing identifier order after the
    cursor, a page is a prefix of what remains and is empty only when nothing
    does, and a batch fetch returns exactly the existing requested entries. *)
Class PoolContract (R : Type) `{NodePoolRepository R} : Prop := {
  pool_sorted : ∀ r, StronglySorted N.lt (entry_id <$> pool_entries r);
  list_nodes_prefix : ∀ r f c lim l,
    list_nodes r f c lim = Ok l → l `prefix_of` listing r f c;
  list_nodes_progress : ∀ r f c lim,
    (0 < lim)%N → list_nodes r f c lim = Ok [] → listing r f c = [];
  get_nodes_exact : ∀ r ids l,
    get_nodes r ids = Ok l → ∀ e, e ∈ l ↔ e ∈ pool_entries r ∧ entry_id e ∈ ids
}.

(** ** The SQLite implementation *)

Module SqlitePool.

(** A row of [nodes] joined with its override.  [row_node] is what decrypting
    and decoding the configuration columns yields: the parsed node, or the
    storage error of the first column that fails. *)
Record PoolRow := mkPoolRow {
  row_node : Result string Node;
  row_protocol : ProtocolKind;
  row_region : option string;
  row_status : string;
  row_missing : bool;
  row_revision : N;
  row_created_at : Z;
  row_override : option NodeOverride;
  row_tags : list Tag
}.

Definition or_else {A} (o d : option A) : option A := match o with Some _ => o | None => d end.

(** The three TLS fields of an override replace the parsed ones only where the
    node has a TLS configuration. *)
Definition graft_tls (o : option NodeOverride) (t : option TlsConfig) : option TlsConfig :=
  match o, t with
  | Some o, Some t =>
      Some (mkTls (tls_enabled t) (or_else (ov_sni o) (server_name t))
        (or_else (ov_skip_cert_verify o) (skip_cert_verify t)) (alpn t)
        (or_else (ov_fingerprint o) (client_fingerprint t)) (certificate_pins t) (reality t))
  | _, t => t
  end.

Definition override_field {A} (o : option NodeOverride) (f : NodeOverride → option A) : option A :=
  match o with Some o => f o | None => None end.

(** [NodeRow::to_pool_entry] *)
Definition to_pool_entry (id : NodeId) (r : PoolRow) : Result string NodePoolEntry :=
  let? n := row_node r in
  let o := row_override r in
  let name := default (display_name n) (override_field o ov_display_name) in
  let reg := match override_field o ov_region with
             | Some v => mkRegion RegionManual (Some v)
             | None => mkRegion RegionAuto (row_region r)
             end in
  let n' := mkNode id name (row_protocol r) (config n) (endpoint n) (authentication n)
    (transport n) (graft_tls o (tls n)) (udp n) (multiplex n) (obfuscation n) (congestion n)
    (n_chain n) (mkNodeSource (source_label (source n)) None (imported_at (source n)))
    [] reg (extras n) in
  Ok (mkNodePoolEntry n' (row_missing r)
    (default (String.eqb (row_status r) "active") (override_field o ov_enabled))
    (row_revision r) (row_created_at r) o (row_tags r)).

Record Table := mkTable { table_rows : gmap NodeId PoolRow }.

(** [ORDER BY n.id ASC] *)
Definition sorted_rows (t : Table) : list (NodeId * PoolRow) :=
  sort_by (λ a b, N.compare a.1 b.1) (map_to_list (table_rows t)).

(** The [WHERE] clause [list_nodes] assembles. *)
Definition sql_where (f : NodeFilter) (cursor : option NodeId) (p : NodeId * PoolRow) : bool :=
  match nf_protocol f with
  | Some k => bool_decide (row_protocol p.2 = k) | None => true end
  && match nf_region f with
     | Some v => bool_decide (or_else (override_field (row_override p.2) ov_region)
                   (row_region p.2) = Some v) | None => true end
  && (nf_include_missing f || negb (row_missing p.2))
  && (nf_include_inactive f
      || default (String.eqb (row_status p.2) "active") (override_field (row_override p.2) ov_enabled))
  && match cursor with Some c => N.ltb c p.1 | None => true end.

(** [.map(|r| r.to_pool_entry(..)).collect::<Result<Vec<_>, _>>()] *)
Fixpoint collect_entries (l : list (NodeId * PoolRow)) : Result string (list NodePoolEntry) :=
  match l with
  | [] => Ok []
  | p :: l => let? e := to_pool_entry p.1 p.2 in let? es := collect_entries l in Ok (e :: es)
  end.

(** [SqliteNodePoolRepository::list_nodes] *)
Definition list_nodes_sql (t : Table) (f : NodeFilter) (cursor : option NodeId) (limit : N) :
    Result string (list NodePoolEntry) :=
  collect_entries (take (N.to_nat (N.min limit 10000))
    (filter (λ p, sql_where f cursor p = true) (sorted_rows t))).

(** [ids.chunks(500)] *)
Fixpoint chunks (fuel : nat) (n : nat) (ids : list NodeId) : list (list NodeId) :=
  match fuel, ids with
  | S fuel, _ :: _ => take n ids :: chunks fuel n (drop n ids)
  | _, _ => []
  end.

Fixpoint fetch_chunks (t : Table) (cs : list (list NodeId)) : Result string (list NodePoolEntry) :=
  match cs with
  | [] => Ok []
  | c :: cs =>
      let? es := collect_entries (filter (λ p, p.1 ∈ c) (sorted_rows t)) in
      let? rest := fetch_chunks t cs in
      Ok (es ++ rest)
  end.

(** [SqliteNodePoolRepository::get_nodes]; a chunk takes at least one
    identifier, so their number never exceeds that of the identifiers. *)
Definition get_nodes_sql (t : Table) (ids : list NodeId) : Result string (list NodePoolEntry) :=
  match ids with
  | [] => Ok []
  | _ => fetch_chunks t (chunks (length ids) 500 ids)
  end.

Definition readable (p : NodeId * PoolRow) : option NodePoolEntry :=
  match to_pool_entry p.1 p.2 with Ok e => Some e | Err _ => None end.

#[export] Instance sqlite_repository : NodePoolRepository Table := {
  list_nodes := list_nodes_sql;
  get_nodes := get_nodes_sql;
  pool_entries t := omap readable (sorted_rows t)
}.

(** *** The SQL filter and the decoded entry agree *)

Lemma to_pool_entry_id id r e : to_pool_entry id r = Ok e → entry_id e = id.
Proof.
  unfold to_pool_entry. destruct (row_node r); simpl; [|done]. by intros [= <-].
Qed.

Lemma sql_where_matches f c id r e :
  to_pool_entry id r = Ok e →
  sql_where f c (id, r) = true ↔ entry_matches f e ∧ after_cursor c e.
Proof.
  intros He. pose proof (to_pool_entry_id _ _ _ He) as Hid.
  unfold to_pool_entry in He. destruct (row_node r) as [n|]; [|done]. simpl in He.
  assert (region_value (region (node e)) =
    or_else (override_field (row_override r) ov_region) (row_region r)) as Hreg.
  { injection He as <-. simpl. by destruct (override_field _ ov_region). }
  assert (protocol (node e) = row_protocol r) as Hproto by (by injection He as <-).
  assert (missing_from_source e = row_missing r) as Hmiss by (by injection He as <-).
  assert (is_active e = default (String.eqb (row_status r) "active")
    (override_field (row_override r) ov_enabled)) as Hact by (by injection He as <-).
  unfold sql_where, entry_matches, after_cursor. simpl.
  unfold entry_id in Hid. rewrite Hreg, Hproto, Hmiss, Hact, Hid.
  rewrite !andb_true_iff. clear.
  assert (∀ (o : option ProtocolKind) k, (match o with Some x => bool_decide (k = x) | None => true end = true)
    ↔ (∀ p, o = Some p → k = p)) as -> by
    (intros [x|] k; [rewrite bool_decide_eq_true|]; naive_solver).
  assert (∀ (o : option string) v, (match o with Some x => bool_decide (v = Some x) | None => true end = true)
    ↔ (∀ p, o = Some p → v = Some p)) as -> by
    (intros [x|] k; [rewrite bool_decide_eq_true|]; naive_solver).
  assert (∀ a b : bool, a || negb b = true ↔ (a = false → b = false)) as -> by
    (intros [] []; simpl; naive_solver).
  assert (∀ a b : bool, a || b = true ↔ (a = false → b = true)) as -> by
    (intros [] []; simpl; naive_solver).
  destruct c; [rewrite N.ltb_lt|]; tauto.
Qed.

(** *** Sorted rows *)

Lemma sorted_rows_sorted t : StronglySorted N.lt ((sorted_rows t).*1).
Proof.
  pose proof (sort_by_sorted (λ a b : NodeId * PoolRow, N.compare a.1 b.1)
    (map_to_list (table_rows t))) as Hs.
  assert (NoDup ((sorted_rows t).*1)) as Hnd.
  { unfold sorted_rows. rewrite sort_by_Permutation. apply NoDup_fst_map_to_list. }
  unfold sorted_rows in *. induction Hs as [|p l Hs IH Hall]; simpl; [constructor|].
  rewrite fmap_cons in Hnd. apply NoDup_cons in Hnd as [Hp Hnd]. constructor; [by apply IH|].
  apply Forall_fmap, Forall_forall. intros q Hq. simpl.
  rewrite Forall_forall in Hall. specialize (Hall q Hq). unfold cmp_le in Hall.
  assert (p.1 ≠ q.1) as Hne.
  { intros Heq. apply Hp. rewrite Heq. by apply list_elem_of_fmap_2. }
  destruct (N.compare_spec p.1 q.1); [lia|done|done].
Qed.

Lemma readable_sorted l :
  StronglySorted N.lt (l.*1) → StronglySorted N.lt (entry_id <$> omap readable l).
Proof.
  induction l as [|p l IH]; csimpl; [constructor|]. inversion 1 as [|? ? Hs Hall]; subst.
  destruct (readable p) as [e|] eqn:He; csimpl; [|by apply IH]. constructor; [by apply IH|].
  unfold readable in He. destruct (to_pool_entry p.1 p.2) eqn:Hp; simplify_eq.
  apply to_pool_entry_id in Hp as ->.
  apply Forall_fmap, Forall_forall. intros e' (q & Hq & Hqe)%list_elem_of_omap. simpl.
  unfold readable in Hqe. destruct (to_pool_entry q.1 q.2) eqn:Hqq; simplify_eq.
  apply to_pool_entry_id in Hqq as ->. rewrite Forall_fmap, Forall_forall in Hall. by apply Hall.
Qed.

(** A successful collection is what its readable rows are. *)
Lemma collect_entries_Ok l es : collect_entries l = Ok es → es = omap readable l ∧ length es = length l.
Proof.
  revert es. induction l as [|p l IH]; intros es; simpl; [by intros [= <-]|].
  unfold readable at 1. destruct (to_pool_entry p.1 p.2) as [e|] eqn:He; simpl; [|done].
  destruct (collect_entries l) as [es'|]; simpl; [|done]. intros [= <-].
  destruct (IH es' eq_refl) as [-> Hl]. simpl. split; [done|lia].
Qed.

Lemma omap_filter_rows f c (l : list (NodeId * PoolRow)) :
  omap readable (filter (λ p, sql_where f c p = true) l) =
  filter (λ e, entry_matches f e ∧ after_cursor c e) (omap readable l).
Proof.
  induction l as [|[id r] l IH]; [done|]. rewrite filter_cons. csimpl.
  destruct (readable (id, r)) as [e|] eqn:Hr.
  - unfold readable in Hr. simpl in Hr. destruct (to_pool_entry id r) eqn:He; [|done].
    injection Hr as ->.
    rewrite filter_cons. pose proof (sql_where_matches f c id r e He) as Hiff.
    destruct (decide (sql_where f c (id, r) = true)) as [Hw|Hw].
    + rewrite decide_True by (by apply Hiff). csimpl. unfold readable at 1. simpl. by rewrite He, IH.
    + rewrite decide_False by (by rewrite <-Hiff). done.
  - case_decide; csimpl; [by rewrite Hr|done].
Qed.

Lemma list_nodes_sql_page t f c lim l :
  list_nodes_sql t f c lim = Ok l →
  l `prefix_of` listing t f c ∧ ((0 < lim)%N → l = [] → listing t f c = []).
Proof.
  unfold list_nodes_sql, listing. simpl. rewrite <-omap_filter_rows.
  set (rows := filter _ (sorted_rows t)). intros Hc.
  destruct (collect_entries_Ok _ _ Hc) as [-> Hlen]. split.
  - exists (omap readable (drop (N.to_nat (N.min lim 10000)) rows)).
    rewrite <-omap_app. by rewrite take_drop.
  - intros Hlim Hnil. rewrite Hnil, length_take in Hlen. simpl in Hlen.
    destruct rows as [|p rows]; [done|]. simpl in Hlen. lia.
Qed.

Lemma chunks_elem fuel n ids i :
  0 < n → length ids ≤ fuel → i ∈ ids ↔ ∃ c, c ∈ chunks fuel n ids ∧ i ∈ c.
Proof.
  intros Hn. revert ids. induction fuel as [|fuel IH]; intros ids Hl.
  - destruct ids; [|simpl in Hl; lia]. simpl. split; [by intros ?%elem_of_nil|].
    by intros (c & ?%elem_of_nil & _).
  - destruct ids as [|x ids]; [simpl; split; [by intros ?%elem_of_nil|by intros (c & ?%elem_of_nil & _)]|].
    cbn [chunks]. rewrite <-(take_drop n (x :: ids)) at 1. rewrite elem_of_app.
    rewrite (IH (drop n (x :: ids))) by (rewrite length_drop; simpl in *; lia).
    setoid_rewrite elem_of_cons. naive_solver.
Qed.

Lemma fetch_chunks_Ok t cs l :
  fetch_chunks t cs = Ok l →
  ∀ e, e ∈ l ↔ e ∈ pool_entries t ∧ ∃ c, c ∈ cs ∧ entry_id e ∈ c.
Proof.
  revert l. induction cs as [|c cs IH]; intros l; simpl.
  { intros [= <-] e. split; [by intros ?%elem_of_nil|]. by intros (_ & c & ?%elem_of_nil & _). }
  destruct (collect_entries _) as [es|] eqn:Hes; simpl; [|done].
  destruct (fetch_chunks t cs) as [rest|]; simpl; [|done]. intros [= <-] e.
  apply collect_entries_Ok in Hes as [-> _]. rewrite elem_of_app, (IH rest eq_refl e).
  simpl. rewrite !list_elem_of_omap. setoid_rewrite elem_of_cons.
  setoid_rewrite list_elem_of_filter.
  assert (∀ p, readable p = Some e → p.1 = entry_id e) as Hid.
  { intros p. unfold readable. destruct (to_pool_entry p.1 p.2) eqn:Hp; [|done].
    intros [= <-]. by apply to_pool_entry_id in Hp. }
  split.
  - intros [(p & [Hc Hp] & Hr)|[(p & Hp & Hr) (c' & Hc' & He)]]; [|by eauto 10].
    split; [by eauto|]. exists c. rewrite <-(Hid p Hr). auto.
  - intros [(p & Hp & Hr) (c' & [->|Hc'] & He)].
    + left. exists p. split; [|done]. split; [by rewrite (Hid p Hr)|done].
    + right. eauto 10.
Qed.

#[export] Instance sqlite_contract : PoolContract Table.
Proof.
  split.
  - intros t. apply readable_sorted, sorted_rows_sorted.
  - intros t f c lim l Hl. by apply list_nodes_sql_page in Hl as [? _].
  - intros t f c lim Hlim Hl. apply list_nodes_sql_page in Hl as [_ Hl]. by apply Hl.
  - intros t ids l Hl e. simpl in Hl. unfold get_nodes_sql in Hl.
    destruct ids as [|i ids]; [injection Hl as <-; split; [by intros ?%elem_of_nil|by intros [_ ?%elem_of_nil]]|].
    rewrite (fetch_chunks_Ok _ _ _ Hl e).
    by rewrite (chunks_elem (length (i :: ids)) 500 (i :: ids) (entry_id e)) by (simpl; lia).
Qed.

(** the override semantics of a read: a display name, a region, an enabled
    flag and the three TLS fields of the override win over the parsed node,
    an unset field falls back, a missing TLS configuration is never created,
    and the SQL activity filter selects exactly the entries decoded as
    active. *)
Theorem to_pool_entry_override id r n e :
  row_node r = Ok n → to_pool_entry id r = Ok e →
  display_name (node e) = default (display_name n) (override_field (row_override r) ov_display_name) ∧
  is_active e = default (String.eqb (row_status r) "active") (override_field (row_override r) ov_enabled) ∧
  (is_Some (tls (node e)) ↔ is_Some (tls n)) ∧
  (∀ t, tls (node e) = Some t →
    (∀ b, override_field (row_override r) ov_skip_cert_verify = Some b → skip_cert_verify t = Some b)) ∧
  (∀ f, sql_where f None (id, r) = true ↔ entry_matches f e).
Proof.
  intros Hn He. pose proof (λ f, sql_where_matches f None id r e He) as Hw.
  unfold to_pool_entry in He. rewrite Hn in He. simpl in He. injection He as <-. simpl.
  split_and!; [done|done|..].
  - destruct (row_override r), (tls n); simpl; rewrite ?is_Some_alt; done.
  - intros t. destruct (row_override r) as [o|], (tls n) as [t0|]; simpl; try done.
    intros [= <-] b Hb. simpl. by rewrite Hb.
  - intros f. rewrite (Hw f). simpl. tauto.
Qed.

Definition demo_tls : TlsConfig := mkTls true (Some "old.example") (Some true) [] None [] None.
Definition demo_node : Node :=
  mkNode 3 "parsed" Trojan (CUnsupported (mkUnsupported JNull None "demo"))
    (mkEndpoint (Domain "host.example") 443) AuthNone None (Some demo_tls) (mkUdp None None) None None None
    None (mkNodeSource "src" None 0) [] (mkRegion RegionAuto None) ∅.
Definition demo_override : NodeOverride :=
  mkNodeOverride 8 3 (Some "renamed") None (Some true) None (Some false) None 0.
Definition demo_row : PoolRow :=
  mkPoolRow (Ok demo_node) Trojan (Some "HK") "disabled" false 1 0 (Some demo_override) [].

Lemma to_pool_entry_override_witness :
  ∃ e, to_pool_entry 3 demo_row = Ok e ∧ is_active e = true ∧
    ∃ t, tls (node e) = Some t ∧ skip_cert_verify t = Some false.
Proof.
  eexists. split; [reflexivity|].
  edestruct (to_pool_entry_override 3 demo_row demo_node) as (_ & Ha & _ & Ht & _);
    [reflexivity|reflexivity|].
  split; [exact Ha|]. eexists. split; [reflexivity|]. apply Ht; reflexivity.
Defined.

End SqlitePool.
