(* ===== verification/Chain.v ===== *)
(** * Proxy chains: node chains and template chains

    [crates/deve-sub-domain/src/node.rs] ([NodeChain]),
    [crates/deve-sub-domain/src/node_chain.rs] ([NodeChainGraph]),
    [crates/deve-sub-domain/src/template/chain.rs] ([ChainGraph]) and the
    storage operation that publishes a chain,
    [crates/deve-sub-storage-sqlite/src/node_pool_repository/chain.rs]. *)

From S2P Require Import Prelude Kernel Graph.
Import Graph.

Module Chain.

(** ** Node chains *)

Record NodeChain := mkNodeChain { nodes : list NodeId }.

Record NodeChainEntry := mkNodeChainEntry { node_id : NodeId; chain : list NodeId }.

Inductive NodeChainError :=
  | Empty
  | SelfReference
  | Duplicate (id : NodeId)
  | NodeNotFound (ids : list NodeId)
  | Cycle (path : list NodeId).

(** [NodeChain::new] *)
Definition new (ids : list NodeId) : Result NodeChainError NodeChain :=
  match ids with
  | [] => Err Empty
  | _ => Ok (mkNodeChain ids)
  end.

(** The [seen] loop of [validate_structure]. *)
Fixpoint check_duplicates (seen : gset NodeId) (ids : list NodeId) : Result NodeChainError () :=
  match ids with
  | [] => Ok ()
  | id :: ids =>
      if bool_decide (id ∈ seen) then Err (Duplicate id)
      else check_duplicates ({[id]} ∪ seen) ids
  end.

(** [NodeChain::validate_structure] *)
Definition validate_structure (c : NodeChain) (self_id : NodeId) : Result NodeChainError () :=
  match nodes c with
  | [] => Err Empty
  | ids =>
      if bool_decide (self_id ∈ ids) then Err SelfReference
      else check_duplicates ∅ ids
  end.

Lemma check_duplicates_Ok seen ids :
  check_duplicates seen ids = Ok () ↔ NoDup ids ∧ ∀ i, i ∈ ids → i ∉ seen.
Proof.
  revert seen. induction ids as [|id ids IH]; intros seen; simpl.
  { split; [intros _|done]. split; [apply NoDup_nil_2|]. intros i Hi. by apply elem_of_nil in Hi. }
  case_bool_decide as Hin.
  - split; [done|]. intros [_ Hn]. destruct (Hn id); [set_solver|done].
  - rewrite IH, NoDup_cons. split.
    + intros [Hnd Hs]. split_and!; [|done|].
      * intros Hc. apply (Hs id Hc). set_solver.
      * intros i [->|Hi]%elem_of_cons; [done|]. specialize (Hs i Hi). set_solver.
    + intros [[Hc Hnd] Hs]. split; [done|]. intros i Hi Hu.
      apply elem_of_union in Hu as [->%elem_of_singleton|Hu]; [done|].
      apply (Hs i); set_solver.
Qed.

Lemma validate_structure_Ok c self_id :
  validate_structure c self_id = Ok () ↔
    nodes c ≠ [] ∧ (self_id ∉ nodes c) ∧ NoDup (nodes c).
Proof.
  unfold validate_structure. destruct (nodes c) as [|id ids]; [naive_solver|].
  case_bool_decide as Hin; [naive_solver|].
  rewrite check_duplicates_Ok. set_solver.
Qed.

(** ** The node chain graph *)

(** [NodeChainGraph::from_chains] *)
Definition from_chains (chains : list (NodeId * option (list NodeId))) :
    gmap NodeId (list NodeId) :=
  foldl (λ adj p, <[p.1 := default [] (adj !! p.1) ++ default [] p.2]> adj) ∅ chains.

(** [NodeChainGraph::detect_cycle], over [NodeId::cmp]. *)
Definition detect_cycle (adj : gmap NodeId (list NodeId)) : option (list NodeId) :=
  match first_cycle N.compare adj with
  | HasCycle c => Some c
  | _ => None
  end.

(** The candidate chains of [NodeChainGraph::validate_update]: the first entry
    of [id] replaced, or a new entry pushed. *)
Definition splice (existing : list NodeChainEntry) (id : NodeId) (new_chain : list NodeId) :
    list (NodeId * option (list NodeId)) :=
  let chains := (λ e, (node_id e, Some (chain e))) <$> existing in
  match list_find (λ p, p.1 = id) chains with
  | Some (i, _) => <[i := (id, Some new_chain)]> chains
  | None => chains ++ [(id, Some new_chain)]
  end.

(** [NodeChainGraph::validate_update] *)
Definition validate_update (existing : list NodeChainEntry) (id : NodeId)
    (new_chain : list NodeId) : option (list NodeId) :=
  detect_cycle (from_chains (splice existing id new_chain)).

Lemma detect_cycle_None adj : detect_cycle adj = None ↔ acyclic adj.
Proof.
  unfold detect_cycle. rewrite <-(first_cycle_NoCycle N.compare).
  pose proof (first_cycle_total N.compare adj).
  destruct (first_cycle _ _); naive_solver.
Qed.

Lemma detect_cycle_Some adj c : detect_cycle adj = Some c → closed_cycle adj c.
Proof.
  unfold detect_cycle. destruct (first_cycle _ _) eqn:Hf; [done| |done].
  intros [= ->]. by eapply first_cycle_sound.
Qed.

Lemma from_chains_edge_acc (chains : list (NodeId * option (list NodeId)))
    (adj : gmap NodeId (list NodeId)) x y :
  edge (foldl (λ adj p, <[p.1 := default [] (adj !! p.1) ++ default [] p.2]> adj) adj chains) x y
  ↔ edge adj x y ∨ ∃ l, (x, Some l) ∈ chains ∧ y ∈ l.
Proof.
  revert adj. induction chains as [|[id o] chains IH]; intros adj; simpl.
  { split; [by left|]. intros [?|(l & Hl & _)]; [done|by apply elem_of_nil in Hl]. }
  rewrite IH. unfold edge at 1, neighbors.
  assert (y ∈ default [] (<[id := default [] (adj !! id) ++ default [] o]> adj !! x) ↔
    edge adj x y ∨ (x = id ∧ y ∈ default [] o)) as ->.
  { unfold edge, neighbors. destruct (decide (id = x)) as [<-|Hne].
    - rewrite lookup_insert_eq. simpl. rewrite elem_of_app. naive_solver.
    - rewrite lookup_insert_ne by done. naive_solver. }
  split.
  - intros [[?|[-> Hy]]|(l & Hl & Hy)]; [by left| |right; exists l; set_solver].
    right. destruct o as [l|]; simpl in Hy; [|by apply elem_of_nil in Hy].
    exists l. set_solver.
  - intros [?|(l & [[= -> <-]|Hl]%elem_of_cons & Hy)]; [by left; left|by left; right|].
    right. eauto.
Qed.

Lemma from_chains_edge chains x y :
  edge (from_chains chains) x y ↔ ∃ l, (x, Some l) ∈ chains ∧ y ∈ l.
Proof.
  unfold from_chains. rewrite from_chains_edge_acc.
  assert (¬ edge (∅ : gmap NodeId (list NodeId)) x y) as Hno; [|tauto].
  unfold edge, neighbors. rewrite lookup_empty. simpl. apply not_elem_of_nil.
Qed.

(** The edge relation an update is meant to establish: [id]'s chain is the new
    one, every other node keeps its own. *)
Definition updated_edge (existing : list NodeChainEntry) (id : NodeId) (new_chain : list NodeId)
    (x y : NodeId) : Prop :=
  (x = id ∧ y ∈ new_chain) ∨
  (x ≠ id ∧ ∃ e, e ∈ existing ∧ node_id e = x ∧ y ∈ chain e).

Lemma splice_edge existing id new_chain x y :
  NoDup (node_id <$> existing) →
  edge (from_chains (splice existing id new_chain)) x y ↔
    updated_edge existing id new_chain x y.
Proof.
  intros Hnd. rewrite from_chains_edge. unfold splice, updated_edge.
  set (chains := (λ e, (node_id e, Some (chain e))) <$> existing).
  assert (∀ a l, (a, Some l) ∈ chains ↔ ∃ e, e ∈ existing ∧ node_id e = a ∧ chain e = l) as Hch.
  { intros a l. unfold chains. rewrite list_elem_of_fmap.
    split; [intros ([i c] & [= -> ->] & ?); eauto|intros (e & ? & <- & <-); eauto]. }
  destruct (list_find (λ p, p.1 = id) chains) as [[i p]|] eqn:Hfind.
  - apply list_find_Some in Hfind as (Hi & Hp & _).
    assert (∀ j q, chains !! j = Some q → q.1 = id → j = i) as Huniq.
    { intros j q Hj Hq. eapply (NoDup_lookup (node_id <$> existing) _ _ id Hnd).
      - unfold chains in Hj. rewrite list_lookup_fmap in Hj. rewrite list_lookup_fmap.
        destruct (existing !! j) eqn:E; [|done]. injection Hj as <-. simpl in *. by rewrite Hq.
      - unfold chains in Hi. rewrite list_lookup_fmap in Hi. rewrite list_lookup_fmap.
        destruct (existing !! i) eqn:E; [|done]. by simplify_eq/=. }
    assert (i < length chains) as Hlen by by eapply lookup_lt_Some.
    split.
    + intros (l & [j Hj]%list_elem_of_lookup & Hy).
      destruct (decide (j = i)) as [->|Hne].
      * rewrite list_lookup_insert_eq in Hj by done. naive_solver.
      * rewrite list_lookup_insert_ne in Hj by done. right. split.
        -- intros ->. by apply Hne, (Huniq _ _ Hj).
        -- assert ((x, Some l) ∈ chains) as (e & He & Hex & <-)%Hch
             by (apply list_elem_of_lookup; eauto). eauto.
    + intros [[-> Hy]|(Hne & e & He & Hx & Hy)].
      * exists new_chain. split; [|done]. apply list_elem_of_lookup. exists i.
        by apply list_lookup_insert_eq.
      * exists (chain e). split; [|done].
        assert ((x, Some (chain e)) ∈ chains) as [j Hj]%list_elem_of_lookup
          by (apply Hch; eauto).
        apply list_elem_of_lookup. exists j. rewrite list_lookup_insert_ne; [done|].
        intros ->. by simplify_eq/=.
  - apply list_find_None in Hfind. rewrite Forall_forall in Hfind.
    split.
    + intros (l & Hl & Hy). apply elem_of_app in Hl as [Hl|Hl%list_elem_of_singleton].
      * right. split; [by apply (Hfind _ Hl)|]. apply Hch in Hl as (e & ? & ? & <-). eauto.
      * naive_solver.
    + intros [[-> Hy]|(Hne & e & He & Hx & Hy)].
      * exists new_chain. split; [|done]. set_solver.
      * exists (chain e). split; [|done]. apply elem_of_app. left. apply Hch. eauto.
Qed.

(** ** Publishing a chain ([set_chain_checked])

    The part of the database the transaction reads and writes: the [nodes]
    rows with their [chain_json] column and the pool revision. *)

Record PoolDb := mkPoolDb {
  db_nodes : gmap NodeId (option (list NodeId));
  db_revision : N
}.

Inductive SourceError :=
  | SE_NodeNotFound (id : NodeId)
  | SE_Chain (e : NodeChainError).

(** [SELECT id, chain_json FROM nodes WHERE chain_json IS NOT NULL] *)
Definition chain_entries (db : PoolDb) : list NodeChainEntry :=
  omap (λ p : NodeId * option (list NodeId),
    match p.2 with Some c => Some (mkNodeChainEntry p.1 c) | None => None end)
    (map_to_list (db_nodes db)).

(** The [for id in ids] existence loop. *)
Fixpoint check_exist (db : PoolDb) (ids : list NodeId) : Result NodeChainError () :=
  match ids with
  | [] => Ok ()
  | id :: ids =>
      if bool_decide (id ∈ dom (db_nodes db)) then check_exist db ids
      else Err (NodeNotFound [id])
  end.

(** The validation of a proposed chain inside the transaction. *)
Definition check_chain (db : PoolDb) (id : NodeId) (ids : list NodeId) :
    Result NodeChainError () :=
  let? c := new ids in
  let? _ := validate_structure c id in
  let? _ := check_exist db ids in
  match validate_update (chain_entries db) id ids with
  | Some cycle => Err (Cycle cycle)
  | None => Ok ()
  end.

(** [UPDATE nodes SET chain_json = ? WHERE id = ?], then [bump_revision_tx]. *)
Definition write_chain (db : PoolDb) (id : NodeId) (c : option (list NodeId)) : PoolDb :=
  mkPoolDb (alter (λ _, c) id (db_nodes db)) (db_revision db + 1).

(** [SqliteNodePoolRepository::set_chain_checked]; an early return drops the
    transaction, so the database is unchanged. *)
Definition set_chain_checked (db : PoolDb) (id : NodeId) (c : option (list NodeId)) :
    PoolDb * Result SourceError () :=
  if bool_decide (id ∈ dom (db_nodes db)) then
    match c with
    | None => (write_chain db id None, Ok ())
    | Some ids =>
        match check_chain db id ids with
        | Ok _ => (write_chain db id (Some ids), Ok ())
        | Err e => (db, Err (SE_Chain e))
        end
    end
  else (db, Err (SE_NodeNotFound id)).

(** *** The pool invariant *)

Definition db_edge (db : PoolDb) (x y : NodeId) : Prop :=
  ∃ c, db_nodes db !! x = Some (Some c) ∧ y ∈ c.

(** Chains are non-empty, duplicate-free, refer to stored nodes other than
    their owner, and form an acyclic graph. *)
Record db_ok (db : PoolDb) : Prop := {
  ok_acyclic : ∀ x, ¬ tc (db_edge db) x x;
  ok_chain : ∀ x c, db_nodes db !! x = Some (Some c) →
    c ≠ [] ∧ NoDup c ∧ (x ∉ c) ∧ ∀ y, y ∈ c → y ∈ dom (db_nodes db)
}.

Lemma elem_of_chain_entries db e :
  e ∈ chain_entries db ↔ db_nodes db !! node_id e = Some (Some (chain e)).
Proof.
  unfold chain_entries. rewrite list_elem_of_omap. split.
  - intros ([i o] & Hin%elem_of_map_to_list & He). destruct o; simplify_eq/=. done.
  - intros Hl. exists (node_id e, Some (chain e)). split; [by apply elem_of_map_to_list|].
    by destruct e.
Qed.

Lemma chain_entries_NoDup db : NoDup (node_id <$> chain_entries db).
Proof.
  unfold chain_entries. pose proof (NoDup_fst_map_to_list (db_nodes db)) as Hnd.
  induction (map_to_list (db_nodes db)) as [|[i [c|]] l IH]; csimpl in *.
  - apply NoDup_nil_2.
  - apply NoDup_cons in Hnd as [Hi Hnd]. apply NoDup_cons. split; [|by apply IH].
    intros (e & -> & ([j o] & Hj & He)%list_elem_of_omap)%list_elem_of_fmap.
    apply Hi, list_elem_of_fmap. exists (j, o). by destruct o; simplify_eq/=.
  - apply NoDup_cons in Hnd as [_ Hnd]. by apply IH.
Qed.

Lemma check_exist_Ok db ids :
  check_exist db ids = Ok () ↔ ∀ y, y ∈ ids → y ∈ dom (db_nodes db).
Proof.
  induction ids as [|id ids IH]; simpl.
  { split; [|done]. intros _ y Hy. by apply elem_of_nil in Hy. }
  case_bool_decide as Hd.
  - rewrite IH. split; [intros Hi y [->|Hy]%elem_of_cons; eauto|set_solver].
  - split; [done|]. intros Hi. destruct Hd. apply Hi. set_solver.
Qed.

Lemma check_chain_Ok db id ids :
  check_chain db id ids = Ok () ↔
    ids ≠ [] ∧ (id ∉ ids) ∧ NoDup ids ∧ (∀ y, y ∈ ids → y ∈ dom (db_nodes db)) ∧
    ∀ x, ¬ tc (updated_edge (chain_entries db) id ids) x x.
Proof.
  unfold check_chain. rewrite result_bind_Ok.
  assert ((∀ x, ¬ tc (updated_edge (chain_entries db) id ids) x x) ↔
    validate_update (chain_entries db) id ids = None) as Hcyc.
  { unfold validate_update. rewrite detect_cycle_None. unfold acyclic.
    split; intros Hno x Ht; apply (Hno x); revert Ht; apply tc_mono; intros a b;
      by rewrite splice_edge by apply chain_entries_NoDup. }
  rewrite Hcyc. split.
  - intros (c & Hc & Hrest). apply result_bind_Ok in Hrest as ([] & Hv & Hrest).
    apply result_bind_Ok in Hrest as ([] & He & Hu).
    destruct ids as [|i ids]; [done|]. injection Hc as <-.
    apply validate_structure_Ok in Hv as (? & ? & ?). pose proof (proj1 (check_exist_Ok _ _) He) as Hex.
    destruct (validate_update _ _ _); [done|]. done.
  - intros (Hne & Hid & Hnd & Hex & Hu). exists (mkNodeChain ids).
    split; [by destruct ids|].
    rewrite (proj2 (validate_structure_Ok (mkNodeChain ids) id)) by done. simpl.
    rewrite (proj2 (check_exist_Ok db ids)) by done. simpl. by rewrite Hu.
Qed.

Lemma write_chain_lookup db id c x :
  id ∈ dom (db_nodes db) →
  db_nodes (write_chain db id c) !! x = if decide (id = x) then Some c else db_nodes db !! x.
Proof.
  intros [o Ho]%elem_of_dom. simpl. rewrite lookup_alter.
  case_decide as Hx; [|done]. subst. by rewrite Ho.
Qed.

Lemma write_chain_dom db id c : dom (db_nodes (write_chain db id c)) = dom (db_nodes db).
Proof. apply dom_alter_L. Qed.

Lemma write_chain_edge db id ids x y :
  id ∈ dom (db_nodes db) →
  db_edge (write_chain db id (Some ids)) x y ↔ updated_edge (chain_entries db) id ids x y.
Proof.
  intros Hid. unfold db_edge, updated_edge. setoid_rewrite (write_chain_lookup db id _ x Hid).
  case_decide as Hx.
  - subst. split; [intros (c & [= <-] & ?); by left|]. intros [[_ ?]|[? _]]; [eauto|done].
  - split.
    + intros (c & Hc & Hy). right. split; [done|]. exists (mkNodeChainEntry x c).
      by rewrite elem_of_chain_entries.
    + intros [[-> _]|(_ & e & He & <- & Hy)]; [done|].
      exists (chain e). by rewrite elem_of_chain_entries in He.
Qed.

Lemma write_None_edge db id x y :
  id ∈ dom (db_nodes db) → db_edge (write_chain db id None) x y → db_edge db x y.
Proof.
  intros Hid (c & Hc & Hy). rewrite write_chain_lookup in Hc by done.
  case_decide; [done|]. by exists c.
Qed.

Lemma set_chain_checked_ok db id c :
  db_ok db → db_ok (set_chain_checked db id c).1.
Proof.
  intros Hok. unfold set_chain_checked. case_bool_decide as Hid; [|done].
  destruct c as [ids|].
  - destruct (check_chain db id ids) as [[]|e] eqn:Hc; [|done].
    apply check_chain_Ok in Hc as (Hne & Hself & Hnd & Hex & Hcyc). cbn [fst].
    split.
    + intros x Ht. apply (Hcyc x). revert Ht. apply tc_mono. intros a b.
      by rewrite write_chain_edge.
    + intros x c. rewrite write_chain_lookup, write_chain_dom by done.
      case_decide as Hx; [intros [= <-]; by subst|]. apply Hok.
  - split.
    + intros x Ht. apply (ok_acyclic _ Hok x). revert Ht. apply tc_mono.
      intros a b. by apply write_None_edge.
    + intros x c. cbn [fst]. rewrite write_chain_lookup, write_chain_dom by done.
      case_decide as Hx; [done|]. apply Hok.
Qed.

(** One committed or rejected chain update. *)
Definition chain_step (db : PoolDb) (u : NodeId * option (list NodeId)) : PoolDb :=
  (set_chain_checked db u.1 u.2).1.

(** pool safety: whatever sequence of chain updates is submitted, every
    stored chain stays non-empty, duplicate-free, free of its owner and made
    of stored nodes, and the graph of all chains stays acyclic. *)
Theorem chain_updates_safe db us : db_ok db → db_ok (foldl chain_step db us).
Proof. intros Hok. apply foldl_preserve; [intros; by apply set_chain_checked_ok|done]. Qed.

(** an update of a stored node is accepted exactly when the proposed chain
    is well formed, refers to stored nodes and closes no cycle; it then
    replaces that node's chain and bumps the revision, and a refused update
    leaves the database unchanged. *)
Theorem set_chain_checked_exact db id ids :
  id ∈ dom (db_nodes db) →
  ((set_chain_checked db id (Some ids)).2 = Ok () ↔
    ids ≠ [] ∧ (id ∉ ids) ∧ NoDup ids ∧ (∀ y, y ∈ ids → y ∈ dom (db_nodes db)) ∧
    ∀ x, ¬ tc (updated_edge (chain_entries db) id ids) x x) ∧
  (∀ e, (set_chain_checked db id (Some ids)).2 = Err e → (set_chain_checked db id (Some ids)).1 = db) ∧
  ((set_chain_checked db id (Some ids)).2 = Ok () →
    db_nodes (set_chain_checked db id (Some ids)).1 !! id = Some (Some ids) ∧
    db_revision (set_chain_checked db id (Some ids)).1 = (db_revision db + 1)%N).
Proof.
  intros Hid. rewrite <-check_chain_Ok. unfold set_chain_checked.
  rewrite bool_decide_eq_true_2 by done. destruct (check_chain db id ids) as [[]|e] eqn:Hc; cbn [fst snd].
  - split_and!; [done|done|]. intros _. split; [|done].
    rewrite write_chain_lookup by done. by rewrite decide_True.
  - split_and!; [done|done|done].
Qed.

(** *** Witnesses: three nodes, one chain. *)

Definition demo_pool : PoolDb := mkPoolDb {[ 1%N := None; 2%N := Some [1%N]; 3%N := None ]} 0.

Lemma demo_pool_chain x c : db_nodes demo_pool !! x = Some (Some c) → x = 2%N ∧ c = [1%N].
Proof.
  simpl. intros Hx. apply lookup_insert_Some in Hx as [[? ?]|[_ Hx]]; [done|].
  apply lookup_insert_Some in Hx as [[? ?]|[_ Hx]]; [by simplify_eq|].
  by apply lookup_singleton_Some in Hx as [? ?].
Qed.

Lemma demo_pool_ok : db_ok demo_pool.
Proof.
  split.
  - intros x Ht. assert (∀ a b, tc (db_edge demo_pool) a b → a = 2%N ∧ b = 1%N) as Hall.
    { assert (∀ a b, db_edge demo_pool a b → a = 2%N ∧ b = 1%N) as He.
      { intros a b (c & [-> ->]%demo_pool_chain & ->%list_elem_of_singleton). done. }
      induction 1 as [a b Hab|a b c Hab _ IH]; [by apply He|].
      apply He in Hab as [-> ->]. by destruct IH. }
    by destruct (Hall x x Ht) as [-> ?].
  - intros x c [-> ->]%demo_pool_chain. split_and!; [done|apply NoDup_singleton|set_solver|].
    intros y ->%list_elem_of_singleton. apply elem_of_dom. by exists None.
Qed.

Lemma chain_updates_safe_witness :
  db_ok (foldl chain_step demo_pool [(1%N, Some [2%N]); (3%N, Some [2%N; 1%N]); (2%N, None)]).
Proof. apply (chain_updates_safe demo_pool _ demo_pool_ok). Defined.

Lemma set_chain_checked_exact_witness :
  db_nodes (set_chain_checked demo_pool 3 (Some [2%N; 1%N])).1 !! 3%N = Some (Some [2%N; 1%N]).
Proof.
  refine (proj1 (proj2 (proj2 (set_chain_checked_exact demo_pool 3 [2%N; 1%N] _)) _)).
  - apply elem_of_dom. by exists None.
  - vm_compute. reflexivity.
Defined.

End Chain.
