(* ===== verification/Template.v ===== *)
(** * Templates: spec types, chain graph and validation

    [crates/deve-sub-domain/src/template/spec.rs],
    [crates/deve-sub-domain/src/template/chain.rs] and
    [crates/deve-sub-application/src/template/validation.rs]. *)

From S2P Require Import Prelude Kernel Graph Node.
Import Graph.

(** ** Spec value objects ([spec.rs]) *)

Inductive GroupType := Select | UrlTest | Fallback | LoadBalance | Relay | Direct | Reject.

#[export] Instance GroupType_eq_dec : EqDecision GroupType.
Proof. solve_decision. Defined.

Definition group_type_display (t : GroupType) : string :=
  match t with
  | Select => "select" | UrlTest => "url-test" | Fallback => "fallback"
  | LoadBalance => "load-balance" | Relay => "relay" | Direct => "direct" | Reject => "reject"
  end.

(** [GroupType::from_str]; [None] is the [InvalidSpec] error. *)
Definition group_type_from_str (s : string) : option GroupType :=
  if String.eqb s "select" then Some Select
  else if String.eqb s "url-test" then Some UrlTest
  else if String.eqb s "fallback" then Some Fallback
  else if String.eqb s "load-balance" then Some LoadBalance
  else if String.eqb s "relay" then Some Relay
  else if String.eqb s "direct" then Some Direct
  else if String.eqb s "reject" then Some Reject
  else None.

Inductive GroupMember := MNode (id : NodeId) | MGroup (name : string).

Record QuickGroupFilter := mkQuickGroupFilter {
  qf_region : option string; qf_protocol : option string; qf_tag : option string }.

Inductive SortOrder := Asc | Desc.

Record ProxyGroup := mkProxyGroup {
  pg_name : string;
  pg_type : GroupType;
  pg_members : list GroupMember;
  pg_filter : option QuickGroupFilter;
  pg_sort_order : option SortOrder
}.

Inductive SelectionMode := Dynamic | Fixed.

#[export] Instance SelectionMode_eq_dec : EqDecision SelectionMode.
Proof. solve_decision. Defined.

Inductive FilterField := FProtocol | FRegion | FTag | FSource.

Record NodeFilterRule := mkNodeFilterRule { fr_field : FilterField; fr_value : string }.

Record NodeSelector := mkNodeSelector {
  sel_mode : SelectionMode;
  sel_filters : list NodeFilterRule;
  sel_node_ids : list NodeId;
  sel_node_revision : N
}.

(** [struct Rule]: an opaque rule object. *)
Record Rule := mkRule { rule_value : Json }.

Record TemplateSpec := mkTemplateSpec {
  clash : option string;
  target_profiles : list string;
  variables : Json;
  node_selector : NodeSelector;
  proxy_groups : list ProxyGroup;
  rules : list Rule;
  dns : Json;
  tun : Json;
  output : Json
}.

Record TemplateMetadata := mkTemplateMetadata {
  md_name : string; md_description : string; md_version : N }.

Record TemplateDocument := mkTemplateDocument {
  api_version : string;
  kind : string;
  metadata : TemplateMetadata;
  spec : TemplateSpec
}.

Definition API_VERSION : string := "deve-sub.io/v1".
Definition KIND : string := "SubscriptionTemplate".
Definition MAX_SPEC_BYTES : nat := Z.to_nat (1024 * 1024).
Definition MAX_ALIAS_DEPTH : N := 10.

Lemma group_type_roundtrip t : group_type_from_str (group_type_display t) = Some t.
Proof. by destruct t. Qed.

(** ** The chain graph of a template ([chain.rs]) *)

Module TemplateChain.

Inductive ChainVertex := VNode (id : NodeId) | VGroup (name : string).

#[export] Instance ChainVertex_eq_dec : EqDecision ChainVertex.
Proof. solve_decision. Defined.

#[export] Program Instance ChainVertex_countable : Countable ChainVertex :=
  inj_countable
    (λ v, match v with VNode i => inl i | VGroup s => inr s end)
    (λ x, Some (match x with inl i => VNode i | inr s => VGroup s end)) _.
Next Obligation. by intros []. Qed.

(** [member_to_vertex] *)
Definition member_to_vertex (m : GroupMember) : ChainVertex :=
  match m with MNode id => VNode id | MGroup name => VGroup name end.

(** [compare_vertices]: groups before nodes. *)
Definition compare_vertices (a b : ChainVertex) : comparison :=
  match a, b with
  | VGroup a, VGroup b => String.compare a b
  | VNode a, VNode b => N.compare a b
  | VGroup _, VNode _ => Lt
  | VNode _, VGroup _ => Gt
  end.

(** [adjacency.entry(from).or_default().push(to)] *)
Definition push_edge (adj : gmap ChainVertex (list ChainVertex)) (from to : ChainVertex) :
    gmap ChainVertex (list ChainVertex) :=
  <[from := default [] (adj !! from) ++ [to]]> adj.

(** [members.windows(2)] *)
Fixpoint windows2 (l : list GroupMember) : list (GroupMember * GroupMember) :=
  match l with
  | a :: ((b :: _) as t) => (a, b) :: windows2 t
  | _ => []
  end.

(** The edges one iteration of the [for group in groups] loop pushes, in
    order: the group references, then the relay hops. *)
Definition group_edges (g : ProxyGroup) : list (ChainVertex * ChainVertex) :=
  omap (λ m, match m with MGroup name => Some (VGroup (pg_name g), VGroup name) | MNode _ => None end)
    (pg_members g) ++
  (if decide (pg_type g = Relay)
   then (λ w, (member_to_vertex w.1, member_to_vertex w.2)) <$> windows2 (pg_members g)
   else []).

(** [ChainGraph::from_groups] *)
Definition from_groups (groups : list ProxyGroup) : gmap ChainVertex (list ChainVertex) :=
  foldl (λ adj g, foldl (λ adj e, push_edge adj e.1 e.2) adj (group_edges g)) ∅ groups.

(** [ChainGraph::detect_cycle] *)
Definition detect_cycle (adj : gmap ChainVertex (list ChainVertex)) : option (list ChainVertex) :=
  match first_cycle compare_vertices adj with
  | HasCycle c => Some c
  | _ => None
  end.

(** The dependency relation the module documentation describes. *)
Definition chain_edge (groups : list ProxyGroup) (x y : ChainVertex) : Prop :=
  ∃ g, g ∈ groups ∧
    ((∃ name, MGroup name ∈ pg_members g ∧ x = VGroup (pg_name g) ∧ y = VGroup name) ∨
     (pg_type g = Relay ∧ ∃ i a b, pg_members g !! i = Some a ∧ pg_members g !! S i = Some b ∧
        x = member_to_vertex a ∧ y = member_to_vertex b)).

Lemma elem_of_windows2 l a b :
  (a, b) ∈ windows2 l ↔ ∃ i, l !! i = Some a ∧ l !! S i = Some b.
Proof.
  induction l as [|x [|y l] IH]; simpl in *.
  - split; [by intros ?%elem_of_nil|intros (i & ? & _); done].
  - split; [by intros ?%elem_of_nil|]. intros ([|i] & ? & ?); done.
  - rewrite elem_of_cons, IH. split.
    + intros [[= <- <-]|(i & ? & ?)]; [by exists 0|by exists (S i)].
    + intros ([|i] & Ha & Hb); [left; simplify_eq/=; done|right; by exists i].
Qed.

Lemma elem_of_group_edges g x y :
  (x, y) ∈ group_edges g ↔ chain_edge [g] x y.
Proof.
  unfold group_edges, chain_edge. rewrite elem_of_app, list_elem_of_omap. split.
  - intros [(m & Hm & He)|Hr]; exists g; (split; [set_solver|]).
    + left. destruct m; simplify_eq/=. eauto.
    + right. case_decide as Ht; [|by apply elem_of_nil in Hr]. split; [done|].
      apply list_elem_of_fmap in Hr as ([a b] & ? & (i & ? & ?)%elem_of_windows2).
      simplify_eq/=. eauto 10.
  - intros (g' & ->%list_elem_of_singleton & [(name & Hm & -> & ->)|(Ht & i & a & b & Ha & Hb & -> & ->)]).
    + left. eauto.
    + right. rewrite decide_True by done. apply list_elem_of_fmap. exists (a, b).
      split; [done|]. apply elem_of_windows2. eauto.
Qed.

Lemma push_edges_edge es (adj : gmap ChainVertex (list ChainVertex)) x y :
  edge (foldl (λ adj e, push_edge adj e.1 e.2) adj es) x y ↔ edge adj x y ∨ (x, y) ∈ es.
Proof.
  revert adj. induction es as [|[a b] es IH]; intros adj; simpl.
  { split; [by left|]. intros [?|?%elem_of_nil]; done. }
  rewrite IH, elem_of_cons.
  assert (edge (push_edge adj a b) x y ↔ edge adj x y ∨ (x, y) = (a, b)) as ->; [|tauto].
  unfold edge, neighbors, push_edge. destruct (decide (a = x)) as [<-|Hne].
  - rewrite lookup_insert_eq. simpl. rewrite elem_of_app, list_elem_of_singleton. naive_solver.
  - rewrite lookup_insert_ne by done. naive_solver.
Qed.

Lemma from_groups_edge groups x y : edge (from_groups groups) x y ↔ chain_edge groups x y.
Proof.
  unfold from_groups.
  assert (∀ adj : gmap ChainVertex (list ChainVertex),
    edge (foldl (λ adj g, foldl (λ adj e, push_edge adj e.1 e.2) adj (group_edges g)) adj groups) x y
    ↔ edge adj x y ∨ chain_edge groups x y) as Hacc.
  { induction groups as [|g groups IH]; intros adj; simpl.
    - split; [by left|]. intros [?|(g & ?%elem_of_nil & _)]; done.
    - rewrite IH, push_edges_edge, elem_of_group_edges. unfold chain_edge.
      setoid_rewrite elem_of_cons. setoid_rewrite elem_of_nil. naive_solver. }
  rewrite Hacc. assert (¬ edge (∅ : gmap ChainVertex (list ChainVertex)) x y) as Hno; [|tauto].
  unfold edge, neighbors. rewrite lookup_empty. simpl. apply not_elem_of_nil.
Qed.

Lemma detect_cycle_spec groups :
  detect_cycle (from_groups groups) = None ↔ ∀ v, ¬ tc (chain_edge groups) v v.
Proof.
  unfold detect_cycle.
  assert ((∀ v, ¬ tc (chain_edge groups) v v) ↔ acyclic (from_groups groups)) as ->.
  { unfold acyclic. split; intros Hno v Ht; apply (Hno v); revert Ht; apply tc_mono;
      intros a b; by rewrite from_groups_edge. }
  rewrite <-(first_cycle_NoCycle compare_vertices).
  pose proof (first_cycle_total compare_vertices (from_groups groups)).
  destruct (first_cycle _ _); naive_solver.
Qed.

Lemma detect_cycle_closed groups c :
  detect_cycle (from_groups groups) = Some c → closed_cycle (from_groups groups) c.
Proof.
  unfold detect_cycle. destruct (first_cycle _ _) eqn:Hf; [done| |done].
  intros [= ->]. by eapply first_cycle_sound.
Qed.

(** template chain validation: a cycle is reported exactly when the
    documented dependency relation (group references, and consecutive hops of
    relay groups) has one, and the reported path is a simple cycle of that
    relation. *)
Theorem template_cycle_correct groups :
  (detect_cycle (from_groups groups) = None ↔ ∀ v, ¬ tc (chain_edge groups) v v) ∧
  (∀ c, detect_cycle (from_groups groups) = Some c → closed_cycle (from_groups groups) c) ∧
  (∀ x y, edge (from_groups groups) x y ↔ chain_edge groups x y).
Proof.
  split_and!; [apply detect_cycle_spec|apply detect_cycle_closed|apply from_groups_edge].
Qed.

End TemplateChain.
