(* ===== verification/GenTypes.v ===== *)
(** * Generation vocabulary and template errors
      ([crates/deve-sub-domain/src/template/generation.rs], [error.rs],
      [selection.rs]; [crates/deve-sub-application/src/template/error.rs])

    The inputs, outputs and error types the resolver, the pipeline and the
    cache share. *)

From stdpp Require Import pretty.
From S2P Require Import Prelude Kernel Node Template.

(** ** Generation modes *)

Inductive GenerationMode := Strict | Lenient.

#[export] Instance GenerationMode_eq_dec : EqDecision GenerationMode.
Proof. solve_decision. Defined.

Definition mode_as_str (m : GenerationMode) : string :=
  match m with Strict => "strict" | Lenient => "lenient" end.

Definition mode_from_str (s : string) : Result string GenerationMode :=
  if String.eqb s "strict" then Ok Strict
  else if String.eqb s "lenient" then Ok Lenient
  else Err ("unknown generation mode: " +:+ s).

Lemma mode_roundtrip m : mode_from_str (mode_as_str m) = Ok m.
Proof. by destruct m. Qed.

(** ** Requests and reports *)

Record GenerationRequest := mkRequest {
  rq_template_id : TemplateId;
  rq_profile : string;
  rq_mode : GenerationMode;
  rq_node_selection : option NodeSelector;
  rq_template_version_pin : option N
}.

(** [GenerationRequest::new] *)
Definition request_new (t : TemplateId) (profile : string) (mode : GenerationMode) : GenerationRequest :=
  mkRequest t profile mode None None.

Record ExcludedNode := mkExcluded {
  ex_node_id : NodeId; ex_display_name : string; ex_reason : string }.

Record GenerationResult := mkGenerationResult {
  gr_content : string;
  gr_profile : string;
  gr_included_node_ids : list NodeId;
  gr_excluded : list ExcludedNode;
  gr_warnings : list string
}.

Record CompatibilityReport := mkReport {
  rp_profile : string;
  rp_included_node_ids : list NodeId;
  rp_excluded : list ExcludedNode
}.

Record IncompatibleGroup := mkIncompatibleGroup {
  ig_group_name : string; ig_group_type : string; ig_reason : string }.

Inductive GenerationError :=
  | IncompatibleNodes (report : CompatibilityReport)
  | IncompatibleGroupTypes (count : nat) (names : string) (groups : list IncompatibleGroup)
  | ContainerFieldsUnsupported (profile fields : string).

(** ** Selection results ([template/selection.rs]) *)

Inductive MissingReason := NotFound | MissingFromSource | Inactive | OutsideSelection.

Definition missing_reason_display (r : MissingReason) : string :=
  match r with
  | NotFound => "not_found" | MissingFromSource => "missing_from_source"
  | Inactive => "inactive" | OutsideSelection => "outside_selection"
  end.

Record MissingNodeRef := mkMissing { mr_node_id : NodeId; mr_reason : MissingReason }.

Record GroupResolution := mkGroupResolution {
  gs_group_name : string;
  gs_explicit_node_ids : list NodeId;
  gs_quick_group_node_ids : list NodeId;
  gs_missing : list MissingNodeRef
}.

Record TemplateResolution := mkTemplateResolution {
  ts_selected_node_ids : list NodeId;
  ts_selection_missing : list MissingNodeRef;
  ts_groups : list GroupResolution
}.

(** ** Errors *)

(** Domain [TemplateError]. *)
Inductive TemplateError :=
  | TE_TemplateNotFound
  | TE_InUse
  | TE_NameExists
  | TE_VersionNotFound
  | TE_InvalidSpec (message : string)
  | TE_SpecTooLarge (size : N)
  | TE_AliasDepthExceeded (depth limit : N)
  | TE_ForbiddenScript (key : string)
  | TE_DuplicateGroupName (name : string)
  | TE_UnknownGroupReference (name : string)
  | TE_CacheInvalidated
  | TE_Storage (message : string).

(** Application [TemplateAppError]. *)
Inductive TemplateAppError :=
  | InvalidInput (message : string)
  | TemplateNotFound
  | VersionNotFound
  | VersionTemplateMismatch
  | NameExists
  | SpecYamlParse (message : string)
  | SpecTooLarge (size limit : nat)
  | AliasDepthExceeded (depth limit : N)
  | ForbiddenScript (key : string)
  | Template (e : TemplateError)
  | Storage (message : string)
  | UnknownProfile (profile : string)
  | Generation (e : GenerationError)
  | Emit (message : string)
  | EmptyOutput
  | InvalidStructure (message : string)
  | NoCompatibleNodes.

(** [map_template_error] ([template/validation.rs]) *)
Definition map_template_error (e : TemplateError) : TemplateAppError :=
  match e with
  | TE_TemplateNotFound => TemplateNotFound
  | TE_VersionNotFound => VersionNotFound
  | TE_NameExists => NameExists
  | other => Template other
  end.
