(* ===== verification/Yaml.v ===== *)
(** * YAML values ([crates/deve-sub-yaml/src/value.rs], [number.rs])

    The ordered, format-neutral value tree the template sources are parsed
    into, with its accessors and an induction principle for the nesting. *)

From S2P Require Import Prelude Kernel.

Module Yaml.

(** [enum Repr]; an [f64] is kept as its 64-bit pattern. *)
Inductive Number :=
  | NI64 (z : Z)
  | NU64 (n : N)
  | NF64 (bits : N).

(** [impl From<i64> for Number]: non-negative integers share the unsigned
    representation. *)
Definition number_from_i64 (z : Z) : Number :=
  if Z.leb 0 z then NU64 (Z.to_N z) else NI64 z.

(** [Number::as_i64] *)
Definition number_as_i64 (n : Number) : option Z :=
  match n with
  | NI64 z => Some z
  | NU64 n => if N.leb n i64_max then Some (Z.of_N n) else None
  | NF64 _ => None
  end.

(** [Number::as_u64] *)
Definition number_as_u64 (n : Number) : option N :=
  match n with
  | NU64 n => Some n
  | NI64 _ | NF64 _ => None
  end.

(** [enum Value]; a mapping iterates in insertion order and may have complex
    keys. *)
Inductive Value :=
  | VNull
  | VBool (b : bool)
  | VNumber (n : Number)
  | VString (s : string)
  | VSequence (items : list Value)
  | VMapping (entries : list (Value * Value)).

(** [Value::as_str] *)
Definition as_str (v : Value) : option string :=
  match v with VString s => Some s | _ => None end.

(** [Value::as_mapping] *)
Definition as_mapping (v : Value) : option (list (Value * Value)) :=
  match v with VMapping m => Some m | _ => None end.

(** [StringKey::equivalent] *)
Definition equivalent (key : string) (v : Value) : bool :=
  bool_decide (as_str v = Some key).

(** [Value::get]: look up a string key in a mapping. *)
Definition get (v : Value) (key : string) : option Value :=
  match as_mapping v with
  | Some m => snd <$> List.find (λ p : Value * Value, equivalent key p.1) m
  | None => None
  end.

Section value_ind.
Variable P : Value → Prop.
Hypothesis HNull : P VNull.
Hypothesis HBool : ∀ b, P (VBool b).
Hypothesis HNumber : ∀ n, P (VNumber n).
Hypothesis HString : ∀ s, P (VString s).
Hypothesis HSequence : ∀ l, Forall P l → P (VSequence l).
Hypothesis HMapping : ∀ m, Forall (λ p, P p.1 ∧ P p.2) m → P (VMapping m).

Fixpoint value_nested_ind (v : Value) : P v :=
  match v with
  | VNull => HNull
  | VBool b => HBool b
  | VNumber n => HNumber n
  | VString s => HString s
  | VSequence l => HSequence l
      ((fix go l : Forall P l :=
        match l with
        | [] => Forall_nil_2 P
        | v :: l => Forall_cons_2 P v l (value_nested_ind v) (go l)
        end) l)
  | VMapping m => HMapping m
      ((fix go m : Forall (λ p, P p.1 ∧ P p.2) m :=
        match m with
        | [] => Forall_nil_2 _
        | p :: m => Forall_cons_2 (λ p, P p.1 ∧ P p.2) p m
            (match p as p0 return P p0.1 ∧ P p0.2 with
             | (k, v) => conj (value_nested_ind k) (value_nested_ind v) end) (go m)
        end) m)
  end.
End value_ind.

(** An [i64] survives the shared non-negative representation. *)
Lemma number_i64_roundtrip z :
  (z ≤ Z.of_N i64_max)%Z → number_as_i64 (number_from_i64 z) = Some z.
Proof.
  intros Hz. unfold number_from_i64. destruct (Z.leb_spec 0 z); [|done]. simpl.
  destruct (N.leb_spec (Z.to_N z) i64_max); [by rewrite Z2N.id|lia].
Qed.

End Yaml.
