(* ===== verification/Validation.v ===== *)
(** * Template validation ([crates/deve-sub-application/src/template/validation.rs])

    The checks a template passes before it is stored: size, nesting depth,
    forbidden script keys, version and kind, unique group names, resolved
    group references and an acyclic chain graph. *)

From S2P Require Import Prelude Kernel Graph Node Template GenTypes Yaml.
Import Yaml TemplateChain.

Module Validation.

Definition FORBIDDEN_SCRIPT_KEYS : list string :=
  ["script"; "script_str"; "shell"; "exec"; "eval"; "javascript"; "lua"].

(** [check_depth]: keys stay at their parent's depth. *)
Fixpoint check_depth (value : Value) (depth : N) : Result TemplateAppError () :=
  let next_depth := (depth + 1)%N in
  if N.ltb MAX_ALIAS_DEPTH next_depth then Err (AliasDepthExceeded next_depth MAX_ALIAS_DEPTH)
  else match value with
  | VMapping map =>
      (fix go (m : list (Value * Value)) : Result TemplateAppError () :=
        match m with
        | [] => Ok ()
        | (k, v) :: m =>
            let? _ := check_depth k depth in
            let? _ := check_depth v next_depth in
            go m
        end) map
  | VSequence seq =>
      (fix go (l : list Value) : Result TemplateAppError () :=
        match l with
        | [] => Ok ()
        | v :: l => let? _ := check_depth v next_depth in go l
        end) seq
  | VNull | VBool _ | VNumber _ | VString _ => Ok ()
  end.

(** [check_forbidden_scripts] *)
Fixpoint check_forbidden_scripts (value : Value) : Result TemplateAppError () :=
  match value with
  | VMapping map =>
      (fix go (m : list (Value * Value)) : Result TemplateAppError () :=
        match m with
        | [] => Ok ()
        | (k, v) :: m =>
            match k with
            | VString key =>
                if bool_decide (key ∈ FORBIDDEN_SCRIPT_KEYS) then Err (ForbiddenScript key)
                else let? _ := check_forbidden_scripts v in go m
            | _ => let? _ := check_forbidden_scripts v in go m
            end
        end) map
  | VSequence seq =>
      (fix go (l : list Value) : Result TemplateAppError () :=
        match l with
        | [] => Ok ()
        | v :: l => let? _ := check_forbidden_scripts v in go l
        end) seq
  | VNull | VBool _ | VNumber _ | VString _ => Ok ()
  end.

(** *** What the two tree walks decide *)

(** Levels a value occupies by the application's convention: a value takes
    one level below its parent, a key shares its parent's level. *)
Fixpoint levels (v : Value) : N :=
  match v with
  | VMapping map =>
      (fix go (m : list (Value * Value)) : N :=
        match m with
        | [] => 1
        | (k, v) :: m => N.max (N.max (levels k) (1 + levels v)) (go m)
        end) map
  | VSequence seq =>
      (fix go (l : list Value) : N :=
        match l with [] => 1 | v :: l => N.max (1 + levels v) (go l) end) seq
  | VNull | VBool _ | VNumber _ | VString _ => 1
  end%N.

(** [value_key v s]: [s] is a string key of a mapping reached from [v] through
    sequence items and mapping values. *)
Inductive value_key : Value → string → Prop :=
  | value_key_here m s v : (VString s, v) ∈ m → value_key (VMapping m) s
  | value_key_value m k v s : (k, v) ∈ m → value_key v s → value_key (VMapping m) s
  | value_key_item l v s : v ∈ l → value_key v s → value_key (VSequence l) s.

(** [any_key v s]: [s] is a string key of a mapping anywhere in the document,
    complex mapping keys included. *)
Inductive any_key : Value → string → Prop :=
  | any_key_here m s v : (VString s, v) ∈ m → any_key (VMapping m) s
  | any_key_value m k v s : (k, v) ∈ m → any_key v s → any_key (VMapping m) s
  | any_key_key m k v s : (k, v) ∈ m → any_key k s → any_key (VMapping m) s
  | any_key_item l v s : v ∈ l → any_key v s → any_key (VSequence l) s.

(** No mapping key is a collection. *)
Fixpoint scalar_keys (v : Value) : bool :=
  match v with
  | VMapping map =>
      (fix go (m : list (Value * Value)) : bool :=
        match m with
        | [] => true
        | (VMapping _, _) :: _ | (VSequence _, _) :: _ => false
        | (_, v) :: m => scalar_keys v && go m
        end) map
  | VSequence seq =>
      (fix go (l : list Value) : bool :=
        match l with [] => true | v :: l => scalar_keys v && go l end) seq
  | VNull | VBool _ | VNumber _ | VString _ => true
  end.

Lemma scalar_keys_entry m k v :
  scalar_keys (VMapping m) = true → (k, v) ∈ m → scalar_keys v = true ∧ ∀ s, ¬ any_key k s.
Proof.
  intros Hm Hin. induction m as [|[k' v'] m IH]; [by apply elem_of_nil in Hin|].
  destruct k'; cbn in Hm; try done; apply andb_prop in Hm as [Hv Hm]; apply elem_of_cons in Hin as [[= -> ->]|Hin]; auto;
    split; try done; intros x Hx; inversion Hx.
Qed.

(** With scalar keys only, the two reaches agree. *)
Lemma any_key_scalar v s : scalar_keys v = true → any_key v s → value_key v s.
Proof.
  intros Hk Ha. induction Ha as [m s v Hin|m k v s Hin Ha IH|m k v s Hin Ha IH|l v s Hin Ha IH].
  - by eapply value_key_here.
  - destruct (scalar_keys_entry _ _ _ Hk Hin) as [Hv _]. eapply value_key_value; eauto.
  - destruct (scalar_keys_entry _ _ _ Hk Hin) as [_ Hn]. by destruct (Hn s).
  - eapply value_key_item; [done|]. apply IH. clear IH Ha. induction l as [|w l IHl]; [by apply elem_of_nil in Hin|].
    cbn in Hk. apply andb_prop in Hk as [Hw Hk]. apply elem_of_cons in Hin as [->|Hin]; auto.
Qed.

Lemma levels_pos v : (1 ≤ levels v)%N.
Proof.
  induction v as [| | | |l H|m H] using value_nested_ind; simpl; try lia.
  - induction H; simpl; lia.
  - induction H as [|[k v] m [? ?] ? IH]; simpl in *; lia.
Qed.

Lemma check_depth_levels v d :
  (d ≤ MAX_ALIAS_DEPTH)%N →
  check_depth v d =
    if N.leb (d + levels v) MAX_ALIAS_DEPTH then Ok ()
    else Err (AliasDepthExceeded (MAX_ALIAS_DEPTH + 1) MAX_ALIAS_DEPTH).
Proof.
  revert d. induction v as [| | | |l H|m H] using value_nested_ind; intros d Hd; simpl;
    (destruct (N.ltb_spec MAX_ALIAS_DEPTH (d + 1));
      [assert (d = MAX_ALIAS_DEPTH) as -> by lia|]).
  1,3,5,7: reflexivity.
  1-4: destruct (N.leb_spec (d + 1) MAX_ALIAS_DEPTH); [done|lia].
  - pose proof (levels_pos (VSequence l)) as Hp. simpl in Hp.
    by rewrite (proj2 (N.leb_gt _ _)) by lia.
  - induction H as [|v l Hv H IH]; simpl.
    { by rewrite (proj2 (N.leb_le _ _)) by lia. }
    rewrite Hv, IH by lia. clear. leb_cases.
  - pose proof (levels_pos (VMapping m)) as Hp. simpl in Hp.
    by rewrite (proj2 (N.leb_gt _ _)) by lia.
  - induction H as [|[k v] m [Hk Hv] H IH]; simpl in *.
    { by rewrite (proj2 (N.leb_le _ _)) by lia. }
    rewrite Hk, Hv, IH by lia. clear. leb_cases.
Qed.

(** Unfolding equations that hide the nested loops. *)
Lemma check_forbidden_mapping k v m :
  check_forbidden_scripts (VMapping ((k, v) :: m)) =
    match as_str k with
    | Some key =>
        if bool_decide (key ∈ FORBIDDEN_SCRIPT_KEYS) then Err (ForbiddenScript key)
        else let? _ := check_forbidden_scripts v in check_forbidden_scripts (VMapping m)
    | None => let? _ := check_forbidden_scripts v in check_forbidden_scripts (VMapping m)
    end.
Proof. by destruct k. Qed.

Lemma check_forbidden_sequence v l :
  check_forbidden_scripts (VSequence (v :: l)) =
    let? _ := check_forbidden_scripts v in check_forbidden_scripts (VSequence l).
Proof. done. Qed.

Lemma value_key_cons k v m s :
  value_key (VMapping ((k, v) :: m)) s ↔
    as_str k = Some s ∨ value_key v s ∨ value_key (VMapping m) s.
Proof.
  split.
  - inversion 1 as [? ? ? Hin|? ? ? ? Hin Hk|]; subst; apply elem_of_cons in Hin as [Heq|Hin].
    + injection Heq as <- _. by left.
    + right; right. by eapply value_key_here.
    + injection Heq as _ ->. by right; left.
    + right; right. by eapply value_key_value.
  - intros [Hk|[Hk|Hk]].
    + destruct k; simplify_eq/=. eapply value_key_here. left.
    + eapply value_key_value; [left|done].
    + inversion Hk; subst; [eapply value_key_here|eapply value_key_value]; try (by right); done.
Qed.

Lemma value_key_item_cons v l s :
  value_key (VSequence (v :: l)) s ↔ value_key v s ∨ value_key (VSequence l) s.
Proof.
  split.
  - inversion 1 as [| |? ? ? Hin Hk]; subst. apply elem_of_cons in Hin as [->|Hin]; [by left|].
    right. by eapply value_key_item.
  - intros [Hk|Hk]; [eapply value_key_item; [left|done]|].
    inversion Hk; subst. eapply value_key_item; [by right|done].
Qed.

Lemma value_key_nil s : ¬ value_key (VMapping []) s ∧ ¬ value_key (VSequence []) s.
Proof.
  split; inversion 1 as [? ? ? Hin|? ? ? ? Hin Hk|? ? ? Hin Hk]; by apply elem_of_nil in Hin.
Qed.

Lemma check_forbidden_spec v :
  match check_forbidden_scripts v with
  | Ok _ => ∀ s, value_key v s → s ∉ FORBIDDEN_SCRIPT_KEYS
  | Err e => ∃ s, e = ForbiddenScript s ∧ value_key v s ∧ s ∈ FORBIDDEN_SCRIPT_KEYS
  end.
Proof.
  induction v as [| | | |l H|m H] using value_nested_ind.
  1-4: simpl; intros ? Hs; by inversion Hs.
  - induction H as [|v l Hv H IH]; [intros s Hs; by apply value_key_nil in Hs|].
    rewrite check_forbidden_sequence.
    destruct (check_forbidden_scripts v) as [[]|e]; cbn [result_bind].
    + destruct (check_forbidden_scripts (VSequence l)) as [[]|e].
      * intros s [Hs|Hs]%value_key_item_cons; [by apply Hv|by apply IH].
      * destruct IH as (s & ? & ? & ?). exists s. rewrite value_key_item_cons. tauto.
    + destruct Hv as (s & ? & ? & ?). exists s. rewrite value_key_item_cons. tauto.
  - induction H as [|[k v] m [_ Hv] H IH]; [intros s Hs; by apply value_key_nil in Hs|].
    rewrite check_forbidden_mapping. simpl in Hv.
    destruct (as_str k) as [key|] eqn:Hkey; [case_bool_decide as Hf|].
    { exists key. rewrite value_key_cons. tauto. }
    all: destruct (check_forbidden_scripts v) as [[]|e]; cbn [result_bind].
    2,4: destruct Hv as (s & ? & ? & ?); exists s; rewrite value_key_cons; tauto.
    all: destruct (check_forbidden_scripts (VMapping m)) as [[]|e].
    2,4: destruct IH as (s & ? & ? & ?); exists s; rewrite value_key_cons; tauto.
    all: intros s [Hs|[Hs|Hs]]%value_key_cons; [|by apply Hv|by apply IH].
    + rewrite Hkey in Hs. by injection Hs as <-.
    + by rewrite Hkey in Hs.
Qed.

(** ** Parsing and validating a document

    The YAML parser, the [serde] conversion of the typed document and the
    native-Clash validator are arguments of the definitions that call them. *)

Section document.
(** [bounded_yaml::parse], with the message of its error. *)
Variable yaml_parse : string → Result string Value.
(** [deve_sub_yaml::from_value::<TemplateDocument>] (derived by [serde]). *)
Variable from_value : Value → Result string TemplateDocument.
(** [clash::parse], and [clash::config] followed by [clash::validate]. *)
Variable clash_parse : Value → Result TemplateAppError TemplateDocument.
Variable clash_validate : string → Result TemplateAppError ().
(** [impl Display for NodeId] (the [ulid] crate's text form). *)
Variable node_id_display : NodeId → string.

(** [checked_yaml] *)
Definition checked_yaml (spec_yaml : string) : Result TemplateAppError Value :=
  if Nat.ltb MAX_SPEC_BYTES (String.length spec_yaml)
  then Err (SpecTooLarge (String.length spec_yaml) MAX_SPEC_BYTES)
  else
    let? raw := map_err SpecYamlParse (yaml_parse spec_yaml) in
    let? _ := check_depth raw 0 in
    let? _ := check_forbidden_scripts raw in
    Ok raw.

(** [parse_template_document] *)
Definition parse_template_document (spec_yaml : string) : Result TemplateAppError TemplateDocument :=
  let? raw := checked_yaml spec_yaml in
  if bool_decide (is_Some (get raw "apiVersion")) || bool_decide (is_Some (get raw "kind"))
     || bool_decide (is_Some (get raw "spec"))
  then
    let? doc := map_err SpecYamlParse (from_value raw) in
    match clash (spec doc) with
    | Some _ => Err (InvalidInput
        "spec.clash is internal; submit native Clash YAML without the V3 wrapper")
    | None => Ok doc
    end
  else clash_parse raw.

(** The [seen] loop that names the first duplicate group. *)
Fixpoint first_duplicate (seen : gset string) (groups : list ProxyGroup) : Result TemplateAppError () :=
  match groups with
  | [] => Ok ()
  | g :: groups =>
      if bool_decide (pg_name g ∈ seen)
      then Err (InvalidInput ("duplicate proxy group name: " +:+ pg_name g))
      else first_duplicate ({[pg_name g]} ∪ seen) groups
  end.

(** The inner [for member in &group.members] loop. *)
Fixpoint check_members (group_names : gset string) (group : string) (members : list GroupMember) :
    Result TemplateAppError () :=
  match members with
  | [] => Ok ()
  | MGroup name :: members =>
      if bool_decide (name ∈ group_names) then check_members group_names group members
      else Err (InvalidInput
        ("proxy group '" +:+ group +:+ "' references unknown group '" +:+ name +:+ "'"))
  | MNode _ :: members => check_members group_names group members
  end.

Fixpoint check_references (group_names : gset string) (groups : list ProxyGroup) :
    Result TemplateAppError () :=
  match groups with
  | [] => Ok ()
  | g :: groups =>
      let? _ := check_members group_names (pg_name g) (pg_members g) in
      check_references group_names groups
  end.

(** [impl Display for ChainVertex], [impl Display for CyclePath] *)
Definition vertex_display (v : ChainVertex) : string :=
  match v with
  | VNode id => "node:" +:+ node_id_display id
  | VGroup name => "group:" +:+ name
  end.

Definition cycle_display (vertices : list ChainVertex) : string :=
  String.concat " -> " (vertex_display <$> vertices).

Definition json_is_null (j : Json) : bool := match j with JNull => true | _ => false end.

(** The mixing guard of a native-Clash document. *)
Definition clash_mixed (s : TemplateSpec) : bool :=
  negb (bool_decide (target_profiles s = ["mihomo"]))
  || negb (match proxy_groups s with [] => true | _ => false end)
  || negb (match rules s with [] => true | _ => false end)
  || negb (json_is_null (dns s)) || negb (json_is_null (tun s))
  || negb (json_is_null (output s)) || negb (json_is_null (variables s)).

Definition check_clash (s : TemplateSpec) : Result TemplateAppError () :=
  match clash s with
  | Some c =>
      let? _ := clash_validate c in
      if clash_mixed s then Err (InvalidInput
        "native Clash sections cannot be mixed with V3 routing fields or other profiles")
      else Ok ()
  | None => Ok ()
  end.

Definition group_names (s : TemplateSpec) : gset string :=
  list_to_set (pg_name <$> proxy_groups s).

(** [validate_document] *)
Definition validate_document (doc : TemplateDocument) (spec_yaml : string) :
    Result TemplateAppError () :=
  if Nat.ltb MAX_SPEC_BYTES (String.length spec_yaml)
  then Err (SpecTooLarge (String.length spec_yaml) MAX_SPEC_BYTES)
  else if negb (String.eqb (api_version doc) API_VERSION)
  then Err (InvalidInput ("apiVersion must be '" +:+ API_VERSION +:+ "', got '"
                          +:+ api_version doc +:+ "'"))
  else if negb (String.eqb (kind doc) KIND)
  then Err (InvalidInput ("kind must be '" +:+ KIND +:+ "', got '" +:+ kind doc +:+ "'"))
  else if String.eqb (md_name (metadata doc)) ""
  then Err (InvalidInput "metadata.name must not be empty")
  else
    let? _ := checked_yaml spec_yaml in
    let? _ := check_clash (spec doc) in
    let names := group_names (spec doc) in
    let? _ := (if Nat.eqb (size names) (length (proxy_groups (spec doc))) then Ok ()
               else first_duplicate ∅ (proxy_groups (spec doc))) in
    let? _ := check_references names (proxy_groups (spec doc)) in
    match detect_cycle (from_groups (proxy_groups (spec doc))) with
    | Some cycle => Err (InvalidInput ("chain proxy cycle detected: " +:+ cycle_display cycle))
    | None => Ok ()
    end.

(** The source text satisfies the size, depth and script limits. *)
Definition yaml_admissible (spec_yaml : string) (raw : Value) : Prop :=
  String.length spec_yaml ≤ MAX_SPEC_BYTES ∧
  yaml_parse spec_yaml = Ok raw ∧
  (levels raw ≤ MAX_ALIAS_DEPTH)%N ∧
  (∀ s, value_key raw s → s ∉ FORBIDDEN_SCRIPT_KEYS).

(** A native-Clash section passes its own validator and stands alone: the
    only target is Mihomo and no V3 routing field is used. *)
Definition clash_alone (s : TemplateSpec) (c : string) : Prop :=
  clash_validate c = Ok () ∧ target_profiles s = ["mihomo"] ∧ proxy_groups s = [] ∧ rules s = [] ∧
  dns s = JNull ∧ tun s = JNull ∧ output s = JNull ∧ variables s = JNull.

(** What a stored document satisfies. *)
Record valid_document (doc : TemplateDocument) (spec_yaml : string) : Prop := {
  vd_yaml : ∃ raw, yaml_admissible spec_yaml raw;
  vd_api_version : api_version doc = API_VERSION;
  vd_kind : kind doc = KIND;
  vd_name : md_name (metadata doc) ≠ "";
  vd_clash : ∀ c, clash (spec doc) = Some c → clash_alone (spec doc) c;
  vd_unique : NoDup (pg_name <$> proxy_groups (spec doc));
  vd_refs : ∀ g name, g ∈ proxy_groups (spec doc) → MGroup name ∈ pg_members g →
    name ∈ (pg_name <$> proxy_groups (spec doc));
  vd_acyclic : ∀ v, ¬ tc (chain_edge (proxy_groups (spec doc))) v v
}.

Lemma check_forbidden_Ok v :
  check_forbidden_scripts v = Ok () ↔ ∀ s, value_key v s → s ∉ FORBIDDEN_SCRIPT_KEYS.
Proof.
  pose proof (check_forbidden_spec v) as H. destruct (check_forbidden_scripts v) as [[]|e]; [done|].
  split; [done|]. intros Hn. destruct H as (s & _ & Hk & Hf). by destruct (Hn s Hk).
Qed.

Lemma check_depth_Ok v : check_depth v 0 = Ok () ↔ (levels v ≤ MAX_ALIAS_DEPTH)%N.
Proof.
  rewrite check_depth_levels by (unfold MAX_ALIAS_DEPTH; lia). rewrite N.add_0_l.
  destruct (N.leb_spec (levels v) MAX_ALIAS_DEPTH); [done|]. split; [done|lia].
Qed.

Lemma checked_yaml_Ok spec_yaml raw :
  checked_yaml spec_yaml = Ok raw ↔ yaml_admissible spec_yaml raw.
Proof.
  unfold checked_yaml, yaml_admissible. rewrite <-check_depth_Ok, <-check_forbidden_Ok.
  destruct (Nat.ltb_spec MAX_SPEC_BYTES (String.length spec_yaml)) as [Hl|Hl].
  { split; [done|]. intros [? _]. lia. }
  destruct (yaml_parse spec_yaml) as [v|e]; simpl; [|naive_solver].
  destruct (check_depth v 0) as [[]|e] eqn:Hd; simpl;
    [destruct (check_forbidden_scripts v) as [[]|e] eqn:Hf; simpl|].
  - split; [intros [= <-]; done|]. by intros (_ & [= <-] & _).
  - split; [done|]. intros (_ & [= <-] & _ & Hf'). by rewrite Hf in Hf'.
  - split; [done|]. intros (_ & [= <-] & Hd' & _). by rewrite Hd in Hd'.
Qed.

Lemma first_duplicate_Ok seen groups :
  first_duplicate seen groups = Ok () ↔
    NoDup (pg_name <$> groups) ∧ ∀ n, n ∈ pg_name <$> groups → n ∉ seen.
Proof.
  revert seen. induction groups as [|g groups IH]; intros seen; csimpl.
  { split; [|done]. intros _. split; [apply NoDup_nil_2|]. intros n Hn. by apply elem_of_nil in Hn. }
  case_bool_decide as Hin.
  - split; [done|]. intros [_ Hn]. destruct (Hn (pg_name g)); [left|done].
  - rewrite IH, NoDup_cons. setoid_rewrite elem_of_cons.
    setoid_rewrite not_elem_of_union. setoid_rewrite not_elem_of_singleton. naive_solver.
Qed.

(** The length comparison is a correct fast path for the duplicate loop. *)
Lemma group_names_size s :
  size (group_names s) = length (proxy_groups s) ↔ NoDup (pg_name <$> proxy_groups s).
Proof.
  unfold group_names. generalize (proxy_groups s). clear s. intros l. split.
  - induction l as [|g l IH]; csimpl; [intros _; apply NoDup_nil_2|].
    intros Hs. assert (size (list_to_set (C := gset string) (pg_name <$> l)) ≤ length l) as Hle.
    { clear. induction l as [|g l IH]; csimpl; [done|]. rewrite size_union_alt, size_singleton.
      pose proof (subseteq_size (list_to_set (pg_name <$> l) ∖ {[pg_name g]} : gset string)
        (list_to_set (pg_name <$> l)) ltac:(set_solver)). lia. }
    apply NoDup_cons. destruct (decide (pg_name g ∈ pg_name <$> l)) as [Hin|Hin].
    + exfalso. rewrite (subseteq_union_1_L {[pg_name g]}) in Hs; [lia|].
      apply singleton_subseteq_l. by rewrite elem_of_list_to_set.
    + split; [done|]. apply IH. rewrite size_union, size_singleton in Hs; [lia|].
      apply disjoint_singleton_l. by rewrite elem_of_list_to_set.
  - intros Hnd. rewrite size_list_to_set by done. by rewrite length_fmap.
Qed.

Lemma check_members_Ok names group ms :
  check_members names group ms = Ok () ↔ ∀ n, MGroup n ∈ ms → n ∈ names.
Proof.
  induction ms as [|[i|n] ms IH]; simpl.
  - split; [|done]. intros _ n Hn. by apply elem_of_nil in Hn.
  - rewrite IH. setoid_rewrite elem_of_cons. naive_solver.
  - case_bool_decide as Hn.
    + rewrite IH. setoid_rewrite elem_of_cons. naive_solver.
    + split; [done|]. intros Hall. destruct Hn. apply Hall. left.
Qed.

Lemma check_references_Ok names groups :
  check_references names groups = Ok () ↔
    ∀ g n, g ∈ groups → MGroup n ∈ pg_members g → n ∈ names.
Proof.
  induction groups as [|g groups IH]; simpl.
  - split; [|done]. intros _ g n Hg. by apply elem_of_nil in Hg.
  - rewrite result_bind_Ok. setoid_rewrite elem_of_cons. split.
    + intros ([] & Hm & Hr) g' n [->|Hg'] Hn.
      * by eapply (proj1 (check_members_Ok _ _ _) Hm).
      * by eapply (proj1 IH Hr).
    + intros Hall. exists (). split; [apply check_members_Ok; eauto|apply IH; eauto].
Qed.

Lemma duplicate_check_Ok s :
  (if Nat.eqb (size (group_names s)) (length (proxy_groups s)) then Ok ()
   else first_duplicate ∅ (proxy_groups s)) = Ok () ↔ NoDup (pg_name <$> proxy_groups s).
Proof.
  destruct (Nat.eqb_spec (size (group_names s)) (length (proxy_groups s))) as [Hs|Hs].
  - by rewrite group_names_size in Hs.
  - rewrite first_duplicate_Ok. split; [by intros [? _]|]. intros ?. split; [done|]. set_solver.
Qed.

Lemma clash_mixed_false s :
  clash_mixed s = false ↔ target_profiles s = ["mihomo"] ∧ proxy_groups s = [] ∧ rules s = [] ∧
    dns s = JNull ∧ tun s = JNull ∧ output s = JNull ∧ variables s = JNull.
Proof.
  clear. unfold clash_mixed. rewrite !orb_false_iff, !negb_false_iff, bool_decide_eq_true.
  assert (∀ j, json_is_null j = true ↔ j = JNull) as Hj by by intros [].
  rewrite !Hj. destruct (proxy_groups s), (rules s); intuition congruence.
Qed.

Lemma check_clash_Ok s : check_clash s = Ok () ↔ ∀ c, clash s = Some c → clash_alone s c.
Proof.
  unfold check_clash, clash_alone. destruct (clash s) as [c|]; [|done]. rewrite result_bind_Ok.
  setoid_rewrite <-clash_mixed_false. destruct (clash_mixed s); split.
  - by intros (? & _ & ?).
  - intros H. by destruct (H c eq_refl).
  - intros ([] & Hc & _) c' [= <-]. done.
  - intros H. destruct (H c eq_refl). by exists ().
Qed.

Lemma validate_document_Ok doc spec_yaml :
  validate_document doc spec_yaml = Ok () ↔ valid_document doc spec_yaml.
Proof.
  unfold validate_document.
  destruct (Nat.ltb_spec MAX_SPEC_BYTES (String.length spec_yaml)) as [Hl|Hl].
  { split; [done|]. intros [(raw & ? & _)]. lia. }
  destruct (String.eqb_spec (api_version doc) API_VERSION) as [Ha|Ha]; simpl;
    [|split; [done|by intros []]].
  destruct (String.eqb_spec (kind doc) KIND) as [Hk|Hk]; simpl; [|split; [done|by intros []]].
  destruct (String.eqb_spec (md_name (metadata doc)) "") as [Hn|Hn]; [split; [done|by intros []]|].
  rewrite result_bind_Ok. split.
  - intros (raw & Hy%checked_yaml_Ok & H). apply result_bind_Ok in H as ([] & Hc & H).
    apply result_bind_Ok in H as ([] & Hd & H). apply result_bind_Ok in H as ([] & Hr & H).
    destruct (detect_cycle _) eqn:Hcy; [done|]. split; try done.
    + eauto.
    + by apply check_clash_Ok.
    + by apply duplicate_check_Ok.
    + intros g name Hg Hm. pose proof (proj1 (check_references_Ok _ _) Hr g name Hg Hm) as Hin.
      by apply elem_of_list_to_set in Hin.
    + by apply detect_cycle_spec.
  - intros [(raw & Hy%checked_yaml_Ok) _ _ _ Hc%check_clash_Ok Hd Hr Hcy]. exists raw. split; [done|].
    rewrite Hc. cbn [result_bind]. rewrite (proj2 (duplicate_check_Ok _) Hd). cbn [result_bind].
    rewrite (proj2 (check_references_Ok _ _)); cbn [result_bind].
    + by rewrite (proj2 (detect_cycle_spec _) Hcy).
    + intros g n Hg Hm. apply elem_of_list_to_set. eauto.
Qed.


End document.

(** [check_depth] rejects exactly the trees that occupy more than
    [MAX_ALIAS_DEPTH] levels, and the error always reports the first level
    over the limit. *)
Theorem check_depth_exact v :
  check_depth v 0 =
    if N.leb (levels v) MAX_ALIAS_DEPTH then Ok ()
    else Err (AliasDepthExceeded (MAX_ALIAS_DEPTH + 1) MAX_ALIAS_DEPTH).
Proof. rewrite check_depth_levels by (unfold MAX_ALIAS_DEPTH; lia). by rewrite N.add_0_l. Qed.

(** [check_forbidden_scripts] succeeds exactly when no mapping reached
    through sequence items and mapping values has a forbidden key, and a
    rejection names a forbidden key that occurs. *)
Theorem check_forbidden_scripts_exact v :
  (check_forbidden_scripts v = Ok () ↔ ∀ s, value_key v s → s ∉ FORBIDDEN_SCRIPT_KEYS) ∧
  (∀ e, check_forbidden_scripts v = Err e →
    ∃ s, e = ForbiddenScript s ∧ value_key v s ∧ s ∈ FORBIDDEN_SCRIPT_KEYS).
Proof.
  split; [apply check_forbidden_Ok|]. intros e He.
  pose proof (check_forbidden_spec v) as H. by rewrite He in H.
Qed.

(** the walk does not look inside mapping keys: a document whose complex
    mapping key contains the key [script] passes both tree checks, although
    the module documentation forbids the key anywhere in the document. *)
Theorem script_in_complex_key_accepted :
  ∃ v, any_key v "script" ∧ ("script" ∈ FORBIDDEN_SCRIPT_KEYS) ∧
    check_depth v 0 = Ok () ∧ check_forbidden_scripts v = Ok ().
Proof.
  exists (VMapping [(VString "rules", VSequence [VMapping [(VMapping [(VString "script", VString "x")], VNull)]])]).
  split_and!; [|by repeat constructor|reflexivity|reflexivity].
  eapply any_key_value; [left|]. eapply any_key_item; [left|].
  eapply any_key_key; [left|]. eapply any_key_here. left.
Qed.

(** ** A small document *)

Definition demo_raw : Value := VMapping [(VString "apiVersion", VString API_VERSION); (VString "spec", VMapping [])].
Definition demo_doc : TemplateDocument :=
  mkTemplateDocument API_VERSION KIND (mkTemplateMetadata "demo" "" 1)
    (mkTemplateSpec None ["mihomo"] JNull (mkNodeSelector Dynamic [] [] 0)
      [mkProxyGroup "PROXY" Select [MGroup "AUTO"] None None; mkProxyGroup "AUTO" UrlTest [MNode 7] None None] [] JNull JNull JNull).


End Validation.
