(* ===== verification/Selection.v ===== *)
(** * Node selection and group resolution
      ([crates/deve-sub-application/src/template/selection.rs])

    The resolver turns a template's node selector and proxy groups into node
    identifiers by reading the pool through [NodePoolRepository].  Reading
    the pool is a loop over pages; the fuel bounds the number of pages. *)

From S2P Require Import Prelude Kernel Node NodePool Template GenTypes.

Module Selection.

Definition POOL_PAGE_SIZE : N := 1000.

(** [str::eq_ignore_ascii_case] *)
Definition to_ascii_lowercase (c : Ascii.ascii) : Ascii.ascii :=
  let n := Ascii.N_of_ascii c in
  if N.leb 65 n && N.leb n 90 then Ascii.ascii_of_N (n + 32) else c.

Fixpoint eq_ignore_ascii_case (a b : string) : bool :=
  match a, b with
  | EmptyString, EmptyString => true
  | String x a, String y b =>
      Ascii.eqb (to_ascii_lowercase x) (to_ascii_lowercase y) && eq_ignore_ascii_case a b
  | _, _ => false
  end.

(** [matches_filter_rule] *)
Definition matches_filter_rule (e : NodePoolEntry) (r : NodeFilterRule) : bool :=
  match fr_field r with
  | FProtocol => eq_ignore_ascii_case (as_filter_key (protocol (node e))) (fr_value r)
  | FRegion => eq_ignore_ascii_case (default "" (region_value (region (node e)))) (fr_value r)
  | FTag => existsb (λ t, eq_ignore_ascii_case (tag_name t) (fr_value r)) (tags e)
  | FSource => eq_ignore_ascii_case (source_label (source (node e))) (fr_value r)
  end.

(** [matches_all_filters] *)
Definition matches_all_filters (e : NodePoolEntry) (rules : list NodeFilterRule) : bool :=
  forallb (matches_filter_rule e) rules.

(** [matches_quick_group] *)
Definition matches_quick_group (e : NodePoolEntry) (f : QuickGroupFilter) : bool :=
  match qf_region f with
  | Some r => eq_ignore_ascii_case (default "" (region_value (region (node e)))) r
  | None => true
  end
  && match qf_protocol f with
     | Some p => eq_ignore_ascii_case (as_filter_key (protocol (node e))) p
     | None => true
     end
  && match qf_tag f with
     | Some t => existsb (λ tag, eq_ignore_ascii_case (tag_name tag) t) (tags e)
     | None => true
     end.

(** [pinned_ids] *)
Definition pinned_ids (s : NodeSelector) : list NodeId :=
  match sel_mode s with Fixed => sel_node_ids s | Dynamic => [] end.

(** [struct PoolView] *)
Record PoolView := mkPoolView {
  v_active : list NodePoolEntry;
  v_explicit : gmap NodeId NodePoolEntry
}.

(** The reason a referenced node is not available, if it is not. *)
Definition unavailable (v : PoolView) (id : NodeId) : option MissingReason :=
  match v_explicit v !! id with
  | Some e =>
      if is_active e && negb (missing_from_source e) then None
      else if missing_from_source e then Some MissingFromSource
      else Some Inactive
  | None => Some NotFound
  end.

(** The loop shared by the fixed selector and the explicit group members:
    found identifiers and missing references, in order. *)
Fixpoint classify (v : PoolView) (ids : list NodeId) : list NodeId * list MissingNodeRef :=
  match ids with
  | [] => ([], [])
  | id :: ids =>
      let '(found, missing) := classify v ids in
      match unavailable v id with
      | None => (id :: found, missing)
      | Some reason => (found, mkMissing id reason :: missing)
      end
  end.

(** [resolve_selection_impl] *)
Definition resolve_selection_impl (s : NodeSelector) (v : PoolView) :
    list NodeId * list MissingNodeRef :=
  match sel_mode s with
  | Dynamic =>
      (entry_id <$> filter (λ e, matches_all_filters e (sel_filters s) = true) (v_active v), [])
  | Fixed => classify v (sel_node_ids s)
  end.

Definition member_node (m : GroupMember) : option NodeId :=
  match m with MNode id => Some id | MGroup _ => None end.

(** [resolve_group_impl] *)
Definition resolve_group_impl (g : ProxyGroup) (v : PoolView) (candidates : list NodePoolEntry) :
    GroupResolution :=
  let '(explicit, missing) := classify v (omap member_node (pg_members g)) in
  let quick := match pg_filter g with
    | Some f => entry_id <$> filter (λ e, (entry_id e ∉ explicit) ∧ matches_quick_group e f = true)
                  candidates
    | None => []
    end in
  mkGroupResolution (pg_name g) explicit quick missing.

(** The [retain] closure of [resolve_template]: explicit members outside the
    selection become missing references. *)
Definition restrict (selected : gset NodeId) (g : GroupResolution) : GroupResolution :=
  mkGroupResolution (gs_group_name g)
    (filter (λ id, id ∈ selected) (gs_explicit_node_ids g))
    (gs_quick_group_node_ids g)
    (gs_missing g ++ ((λ id, mkMissing id OutsideSelection) <$>
      filter (λ id, id ∉ selected) (gs_explicit_node_ids g))).

(** [apply_sort_order] *)
Definition name_by_id (entries : list NodePoolEntry) (id : NodeId) : string :=
  default "" ((list_to_map (reverse ((λ e, (entry_id e, display_name (node e))) <$> entries))
    : gmap NodeId string) !! id).

Definition compare_names (entries : list NodePoolEntry) (o : SortOrder) (a b : NodeId) : comparison :=
  match o with
  | Asc => String.compare (name_by_id entries a) (name_by_id entries b)
  | Desc => String.compare (name_by_id entries b) (name_by_id entries a)
  end.

Definition apply_sort_order (ids : list NodeId) (entries : list NodePoolEntry) (o : SortOrder) :
    list NodeId :=
  sort_by (compare_names entries o) ids.

Section resolver.
Context {R : Type} `{NodePoolRepository R}.

(** The loop of [list_active_nodes]: [None] when the fuel runs out. *)
Fixpoint list_loop (fuel : nat) (r : R) (cursor : option NodeId) (all : list NodePoolEntry) :
    option (Result TemplateAppError (list NodePoolEntry)) :=
  match fuel with
  | O => None
  | S fuel =>
      match map_err Storage (list_nodes r filter_active_only cursor POOL_PAGE_SIZE) with
      | Err e => Some (Err e)
      | Ok page =>
          match last page with
          | None => Some (Ok all)
          | Some e => list_loop fuel r (Some (entry_id e)) (all ++ page)
          end
      end
  end.

(** [list_active_nodes] *)
Definition list_active_nodes (fuel : nat) (r : R) : option (Result TemplateAppError (list NodePoolEntry)) :=
  list_loop fuel r None [].

(** [fetch_explicit_entries] *)
Definition fetch_explicit_entries (r : R) (ids : list NodeId) :
    Result TemplateAppError (gmap NodeId NodePoolEntry) :=
  match ids with
  | [] => Ok ∅
  | _ =>
      let? entries := map_err Storage (get_nodes r ids) in
      Ok (list_to_map (reverse ((λ e, (entry_id e, e)) <$> entries)))
  end.

(** Every node identifier the document names, sorted and deduplicated. *)
Definition explicit_ids (doc : TemplateDocument) : list NodeId :=
  sort_by N.compare (elements (list_to_set (pinned_ids (node_selector (spec doc)) ++
    (proxy_groups (spec doc) ≫= λ g, omap member_node (pg_members g))) : gset NodeId)).

(** The active pool a dynamic selector needs. *)
Definition active_pool (fuel : nat) (doc : TemplateDocument) (r : R) :
    option (Result TemplateAppError (list NodePoolEntry)) :=
  match sel_mode (node_selector (spec doc)) with
  | Dynamic => list_active_nodes fuel r
  | Fixed => Some (Ok [])
  end.

(** The candidates of the quick groups, in identifier order. *)
Definition candidates (doc : TemplateDocument) (v : PoolView) (selected : gset NodeId) :
    list NodePoolEntry :=
  match sel_mode (node_selector (spec doc)) with
  | Dynamic => filter (λ e, entry_id e ∈ selected) (v_active v)
  | Fixed => sort_by (λ a b, N.compare (entry_id a) (entry_id b))
      (filter (λ e, entry_id e ∈ selected) ((map_to_list (v_explicit v)).*2))
  end.

(** The synchronous part of [resolve_template]. *)
Definition resolve_with (doc : TemplateDocument) (v : PoolView) : TemplateResolution :=
  let '(selected_ids, missing) := resolve_selection_impl (node_selector (spec doc)) v in
  let selected : gset NodeId := list_to_set selected_ids in
  mkTemplateResolution selected_ids missing
    ((λ g, restrict selected (resolve_group_impl g v (candidates doc v selected)))
      <$> proxy_groups (spec doc)).

(** [resolve_template] *)
Definition resolve_template (fuel : nat) (doc : TemplateDocument) (r : R) :
    option (Result TemplateAppError TemplateResolution) :=
  match active_pool fuel doc r with
  | None => None
  | Some active => Some (
      let? active := active in
      let? explicit := fetch_explicit_entries r (explicit_ids doc) in
      Ok (resolve_with doc (mkPoolView active explicit)))
  end.

(** ** Reading the pool *)

Context `{!PoolContract R}.

(** The active, non-missing entries of the pool. *)
Definition active_entries (r : R) : list NodePoolEntry :=
  filter (entry_matches filter_active_only) (pool_entries r).

Lemma active_entry e : entry_matches filter_active_only e ↔ is_active e = true ∧ missing_from_source e = false.
Proof. unfold entry_matches. simpl. naive_solver. Qed.

Lemma active_sorted r : StronglySorted N.lt (entry_id <$> active_entries r).
Proof.
  unfold active_entries. generalize (pool_sorted r).
  induction (pool_entries r) as [|e l IH]; [constructor|]. rewrite fmap_cons.
  inversion 1 as [|? ? Hs' Hall]; subst. rewrite filter_cons. case_decide; [|by apply IH].
  rewrite fmap_cons. constructor; [by apply IH|].
  rewrite Forall_fmap, Forall_forall in *. intros x [_ Hx]%list_elem_of_filter. by apply Hall.
Qed.

Lemma listing_cursor r c :
  listing r filter_active_only c = filter (after_cursor c) (active_entries r).
Proof.
  unfold listing, active_entries. rewrite list_filter_filter. apply list_filter_iff. tauto.
Qed.

(** In a sorted list the entries after the last of a prefix are the rest. *)
Lemma after_prefix pre e rest :
  StronglySorted N.lt (entry_id <$> (pre ++ (e :: rest))) →
  filter (after_cursor (Some (entry_id e))) (pre ++ (e :: rest)) = rest.
Proof.
  intros Hs. rewrite filter_app, filter_cons. rewrite decide_False by (unfold after_cursor, entry_id; lia).
  rewrite fmap_app, fmap_cons in Hs.
  assert (filter (after_cursor (Some (entry_id e))) pre = []) as ->.
  { induction pre as [|x pre IH]; [done|]. rewrite fmap_cons in Hs. simpl in Hs.
    inversion Hs as [|? ? Hs' Hall]; subst. rewrite filter_cons, decide_False; [by apply IH|].
    rewrite Forall_app, Forall_cons in Hall. destruct Hall as (_ & Hx & _).
    unfold after_cursor, entry_id in *. lia. }
  simpl. assert (StronglySorted N.lt (entry_id <$> (e :: rest))) as Hs'.
  { rewrite fmap_cons. clear -Hs. induction pre as [|x pre IH]; [done|].
    rewrite fmap_cons in Hs. simpl in Hs. inversion Hs; subst. by apply IH. }
  rewrite fmap_cons in Hs'. inversion Hs' as [|? ? _ Hall]; subst. clear -Hall.
  rewrite Forall_fmap in Hall. induction Hall as [|x l Hx Hl IH]; [done|].
  rewrite filter_cons, decide_True by done. by rewrite IH.
Qed.

Lemma list_loop_spec fuel r cursor all rest :
  active_entries r = all ++ rest →
  filter (after_cursor cursor) (active_entries r) = rest →
  length rest < fuel →
  match list_loop fuel r cursor all with
  | None => False
  | Some (Ok l) => l = active_entries r
  | Some (Err e) => ∃ c msg, list_nodes r filter_active_only c POOL_PAGE_SIZE = Err msg ∧ e = Storage msg
  end.
Proof.
  revert cursor all rest. induction fuel as [|fuel IH]; intros cursor all rest Hall Hrest Hlen; [lia|].
  simpl. destruct (list_nodes r filter_active_only cursor POOL_PAGE_SIZE) as [page|msg] eqn:Hp;
    simpl; [|by eauto].
  pose proof (list_nodes_prefix _ _ _ _ _ Hp) as [more Hmore].
  rewrite listing_cursor, Hrest in Hmore.
  destruct (last page) as [e|] eqn:Hl.
  - apply last_Some in Hl as [pre ->]. rewrite Hmore in Hall, Hlen. clear Hmore Hrest.
    apply (IH _ _ more).
    + by rewrite Hall, !(assoc_L (++)).
    + assert (active_entries r = (all ++ pre) ++ (e :: more)) as Heq.
      { rewrite Hall, <-!(assoc_L (++)). done. }
      rewrite Heq. apply after_prefix. rewrite <-Heq. apply active_sorted.
    + rewrite !length_app in Hlen. simpl in Hlen. lia.
  - apply last_None in Hl as ->.
    pose proof (list_nodes_progress r _ _ POOL_PAGE_SIZE ltac:(reflexivity) Hp) as Hnil.
    rewrite listing_cursor, Hrest in Hnil. rewrite Hall, Hnil. by rewrite app_nil_r.
Qed.

Lemma list_active_nodes_spec fuel r :
  length (active_entries r) < fuel →
  match list_active_nodes fuel r with
  | None => False
  | Some (Ok l) => l = active_entries r
  | Some (Err e) => ∃ c msg, list_nodes r filter_active_only c POOL_PAGE_SIZE = Err msg ∧ e = Storage msg
  end.
Proof.
  intros Hf. apply (list_loop_spec fuel r None [] (active_entries r)); [done| |done].
  apply list_filter_all. by intros.
Qed.

(** ** What a resolution contains *)

Lemma entry_id_inj r a b :
  a ∈ pool_entries r → b ∈ pool_entries r → entry_id a = entry_id b → a = b.
Proof.
  generalize (pool_sorted r). induction (pool_entries r) as [|x l IH]; [by intros _ ?%elem_of_nil|].
  rewrite fmap_cons. inversion 1 as [|? ? Hs Hall]; subst. rewrite Forall_fmap, Forall_forall in Hall.
  intros [->|Ha]%elem_of_cons [->|Hb]%elem_of_cons Heq; [done|..|by apply IH].
  - specialize (Hall b Hb). simpl in Hall. lia.
  - specialize (Hall a Ha). simpl in Hall. lia.
Qed.

Lemma fetch_explicit_spec r ids m :
  fetch_explicit_entries r ids = Ok m →
  ∀ id e, m !! id = Some e ↔ e ∈ pool_entries r ∧ entry_id e = id ∧ id ∈ ids.
Proof.
  intros Hf id e. unfold fetch_explicit_entries in Hf. destruct ids as [|i ids].
  { injection Hf as <-. rewrite lookup_empty. split; [done|]. by intros (_ & _ & ?%elem_of_nil). }
  destruct (get_nodes r (i :: ids)) as [l|] eqn:Hg; simplify_eq/=.
  pose proof (get_nodes_exact _ _ _ Hg) as Hl.
  assert (∀ k x, (k, x) ∈ reverse ((λ e, (entry_id e, e)) <$> l) ↔ x ∈ l ∧ entry_id x = k) as Hin.
  { intros k x. rewrite elem_of_reverse, list_elem_of_fmap. naive_solver. }
  split.
  - intros Hm%elem_of_list_to_map_2. apply Hin in Hm as [Hx <-]. by apply Hl in Hx as [? ?].
  - intros (Hp & <- & Hid). apply elem_of_list_to_map_1'; [|by apply Hin; split; [apply Hl|]].
    intros y [Hy Heq]%Hin. apply Hl in Hy as [Hy _]. by eapply entry_id_inj.
Qed.

(** The data a resolution is computed from. *)
Record view_ok (doc : TemplateDocument) (r : R) (v : PoolView) : Prop := {
  vo_active : v_active v =
    match sel_mode (node_selector (spec doc)) with Dynamic => active_entries r | Fixed => [] end;
  vo_explicit : ∀ id e, v_explicit v !! id = Some e ↔
    e ∈ pool_entries r ∧ entry_id e = id ∧ id ∈ explicit_ids doc
}.

Lemma resolve_template_view fuel doc r :
  length (active_entries r) < fuel →
  match resolve_template fuel doc r with
  | None => False
  | Some (Ok res) => ∃ v, view_ok doc r v ∧ res = resolve_with doc v
  | Some (Err e) => ∃ msg, e = Storage msg
  end.
Proof.
  intros Hf. unfold resolve_template, active_pool.
  assert (∀ active, active = match sel_mode (node_selector (spec doc)) with
      Dynamic => active_entries r | Fixed => [] end →
    match (let? explicit := fetch_explicit_entries r (explicit_ids doc) in
      Ok (resolve_with doc (mkPoolView active explicit))) with
    | Ok res => ∃ v, view_ok doc r v ∧ res = resolve_with doc v
    | Err e => ∃ msg, e = Storage msg
    end) as Hrest.
  { intros active ->. destruct (fetch_explicit_entries r (explicit_ids doc)) as [m|e] eqn:Hm; simpl.
    - eexists. split; [|done]. split; [done|]. by apply fetch_explicit_spec.
    - unfold fetch_explicit_entries in Hm. destruct (explicit_ids doc); [done|].
      destruct (get_nodes _ _); simplify_eq/=. eauto. }
  destruct (sel_mode (node_selector (spec doc))) eqn:Hm.
  - pose proof (list_active_nodes_spec fuel r Hf) as Hl.
    destruct (list_active_nodes fuel r) as [[l|e]|]; [|destruct Hl as (_ & msg & _ & ->); simpl; eauto|done].
    subst l. by apply Hrest.
  - by apply Hrest.
Qed.

(** A node is available: in the pool, active and not missing. *)
Definition available (r : R) (id : NodeId) : Prop :=
  ∃ e, e ∈ active_entries r ∧ entry_id e = id.

Lemma elem_of_active r e :
  e ∈ active_entries r ↔ e ∈ pool_entries r ∧ is_active e = true ∧ missing_from_source e = false.
Proof. unfold active_entries. rewrite list_elem_of_filter, active_entry. tauto. Qed.

Lemma unavailable_None doc r v id :
  view_ok doc r v → id ∈ explicit_ids doc → unavailable v id = None ↔ available r id.
Proof.
  intros [_ Hv] Hid. unfold unavailable, available. setoid_rewrite elem_of_active. split.
  - destruct (v_explicit v !! id) as [e|] eqn:He; [|done].
    apply Hv in He as (Hp & He & _).
    destruct (is_active e) eqn:Ha, (missing_from_source e) eqn:Hm; simpl; try done. eauto 10.
  - intros (e & (Hp & Ha & Hm) & He). rewrite (proj2 (Hv id e)) by done. by rewrite Ha, Hm.
Qed.

Lemma classify_found v ids id : id ∈ (classify v ids).1 ↔ id ∈ ids ∧ unavailable v id = None.
Proof.
  induction ids as [|x ids IH]; simpl; [split; [by intros ?%elem_of_nil|by intros [?%elem_of_nil _]]|].
  destruct (classify v ids) as [found missing]. simpl in IH. rewrite elem_of_cons.
  destruct (unavailable v x) eqn:Hu; simpl; [|rewrite elem_of_cons]; rewrite IH; naive_solver.
Qed.

Lemma classify_missing v ids m :
  m ∈ (classify v ids).2 ↔ mr_node_id m ∈ ids ∧ unavailable v (mr_node_id m) = Some (mr_reason m).
Proof.
  induction ids as [|x ids IH]; simpl; [split; [by intros ?%elem_of_nil|by intros [?%elem_of_nil _]]|].
  destruct (classify v ids) as [found missing]. simpl in IH. rewrite elem_of_cons.
  destruct (unavailable v x) eqn:Hu; simpl; [rewrite elem_of_cons|]; rewrite IH;
    destruct m; naive_solver.
Qed.

Lemma explicit_member doc g id :
  g ∈ proxy_groups (spec doc) → MNode id ∈ pg_members g → id ∈ explicit_ids doc.
Proof.
  intros Hg Hm. unfold explicit_ids. rewrite elem_of_sort_by, elem_of_elements, elem_of_list_to_set.
  rewrite elem_of_app. right. apply list_elem_of_bind. exists g. split; [|done].
  apply list_elem_of_omap. by exists (MNode id).
Qed.

Lemma explicit_pinned doc id :
  sel_mode (node_selector (spec doc)) = Fixed → id ∈ sel_node_ids (node_selector (spec doc)) →
  id ∈ explicit_ids doc.
Proof.
  intros Hm Hid. unfold explicit_ids. rewrite elem_of_sort_by, elem_of_elements, elem_of_list_to_set.
  rewrite elem_of_app. left. unfold pinned_ids. by rewrite Hm.
Qed.

(** What the selector means. *)
Definition selects (doc : TemplateDocument) (r : R) (id : NodeId) : Prop :=
  match sel_mode (node_selector (spec doc)) with
  | Dynamic => ∃ e, e ∈ active_entries r ∧ entry_id e = id ∧
      matches_all_filters e (sel_filters (node_selector (spec doc))) = true
  | Fixed => available r id ∧ id ∈ sel_node_ids (node_selector (spec doc))
  end.

Lemma resolve_selection_spec doc r v id :
  view_ok doc r v →
  id ∈ (resolve_selection_impl (node_selector (spec doc)) v).1 ↔ selects doc r id.
Proof.
  intros Hv. unfold resolve_selection_impl, selects. pose proof (vo_active _ _ _ Hv) as Ha.
  destruct (sel_mode (node_selector (spec doc))) eqn:Hm; simpl.
  - rewrite Ha, list_elem_of_fmap. split.
    + intros (e & -> & [Hf He]%list_elem_of_filter). eauto.
    + intros (e & He & <- & Hf). exists e. split; [done|]. by apply list_elem_of_filter.
  - rewrite classify_found.
    assert (id ∈ sel_node_ids (node_selector (spec doc)) →
      unavailable v id = None ↔ available r id) as Hav.
    { intros Hid. eapply unavailable_None; [done|]. by apply explicit_pinned. }
    tauto.
Qed.

Lemma resolve_with_selected doc v :
  ts_selected_node_ids (resolve_with doc v) = (resolve_selection_impl (node_selector (spec doc)) v).1.
Proof. unfold resolve_with. by destruct (resolve_selection_impl _ _). Qed.

Lemma resolve_with_groups doc v :
  let selected := list_to_set (ts_selected_node_ids (resolve_with doc v)) : gset NodeId in
  ts_groups (resolve_with doc v) =
    (λ g, restrict selected (resolve_group_impl g v (candidates doc v selected)))
      <$> proxy_groups (spec doc).
Proof. unfold resolve_with. by destruct (resolve_selection_impl _ _). Qed.

Lemma candidates_selected doc v selected e : e ∈ candidates doc v selected → entry_id e ∈ selected.
Proof.
  unfold candidates. destruct (sel_mode _); [|rewrite elem_of_sort_by];
    by intros [? _]%list_elem_of_filter.
Qed.

Lemma resolve_group_members g v cands :
  let gr := resolve_group_impl g v cands in
  gs_explicit_node_ids gr = (classify v (omap member_node (pg_members g))).1 ∧
  gs_missing gr = (classify v (omap member_node (pg_members g))).2 ∧
  (∀ id, id ∈ gs_quick_group_node_ids gr → ∃ e, e ∈ cands ∧ entry_id e = id).
Proof.
  unfold resolve_group_impl. destruct (classify v _) as [found missing]. simpl.
  split_and!; [done..|]. intros id. destruct (pg_filter g); [|by intros ?%elem_of_nil].
  intros (e & -> & [_ He]%list_elem_of_filter)%list_elem_of_fmap. eauto.
Qed.

(** reading the pool page by page terminates and is exact: with more fuel
    than there are active entries, the loop returns every active, non-missing
    entry once, in identifier order, or the storage error of a failing page. *)
Theorem list_active_nodes_exact fuel r :
  length (active_entries r) < fuel →
  (∃ l, list_active_nodes fuel r = Some (Ok l) ∧ l = active_entries r) ∨
  (∃ c msg, list_nodes r filter_active_only c POOL_PAGE_SIZE = Err msg ∧
    list_active_nodes fuel r = Some (Err (Storage msg))).
Proof.
  intros Hf. pose proof (list_active_nodes_spec fuel r Hf) as Hl.
  destruct (list_active_nodes fuel r) as [[l|e]|]; [left; eauto| |done].
  destruct Hl as (c & msg & Hm & ->). right. eauto.
Qed.

(** the resolved selection is the selector's meaning: for a dynamic
    selector the active, non-missing nodes that match every rule, for a fixed
    one the pinned nodes that are available; new nodes join a dynamic
    selection and never a fixed one. *)
Theorem resolution_selects fuel doc r res id :
  length (active_entries r) < fuel → resolve_template fuel doc r = Some (Ok res) →
  id ∈ ts_selected_node_ids res ↔ selects doc r id.
Proof.
  intros Hf Hres. pose proof (resolve_template_view fuel doc r Hf) as H0. rewrite Hres in H0.
  destruct H0 as (v & Hv & ->). rewrite resolve_with_selected. by apply resolve_selection_spec.
Qed.

(** proxy groups organise the selection and cannot expand it: every member
    a group resolves to, explicit or by filter, is a selected, available
    node. *)
Theorem groups_within_selection fuel doc r res g id :
  length (active_entries r) < fuel → resolve_template fuel doc r = Some (Ok res) →
  g ∈ ts_groups res → id ∈ gs_explicit_node_ids g ++ gs_quick_group_node_ids g →
  id ∈ ts_selected_node_ids res ∧ available r id.
Proof.
  intros Hf Hres Hg Hid. pose proof (resolve_template_view fuel doc r Hf) as H0. rewrite Hres in H0.
  destruct H0 as (v & Hv & ->).
  assert (id ∈ ts_selected_node_ids (resolve_with doc v)) as Hsel.
  { rewrite resolve_with_groups in Hg. apply list_elem_of_fmap in Hg as (pg & -> & Hpg).
    apply elem_of_app in Hid as [Hid|Hid]; simpl in Hid.
    - apply list_elem_of_filter in Hid as [Hid _]. by apply elem_of_list_to_set in Hid.
    - apply resolve_group_members in Hid as (e & He & <-).
      apply candidates_selected in He. by apply elem_of_list_to_set in He. }
  split; [done|]. rewrite resolve_with_selected in Hsel.
  apply (resolve_selection_spec doc r v id Hv) in Hsel. unfold selects in Hsel.
  destruct (sel_mode _); [|by destruct Hsel]. destruct Hsel as (e & He & Hid' & _). by exists e.
Qed.

(** no reference is dropped silently: each node a group names explicitly
    is either resolved or reported missing with its reason, and it is
    reported as outside the selection exactly when it is available but not
    selected. *)
Theorem group_members_accounted fuel doc r res i pg g id :
  length (active_entries r) < fuel → resolve_template fuel doc r = Some (Ok res) →
  proxy_groups (spec doc) !! i = Some pg → ts_groups res !! i = Some g → MNode id ∈ pg_members pg →
  (id ∈ gs_explicit_node_ids g ↔ available r id ∧ id ∈ ts_selected_node_ids res) ∧
  (mkMissing id OutsideSelection ∈ gs_missing g ↔ available r id ∧ id ∉ ts_selected_node_ids res) ∧
  (¬ available r id → ∃ reason, mkMissing id reason ∈ gs_missing g).
Proof.
  intros Hf Hres Hpg Hg Hm. pose proof (resolve_template_view fuel doc r Hf) as H0. rewrite Hres in H0.
  destruct H0 as (v & Hv & ->). rewrite resolve_with_groups, list_lookup_fmap, Hpg in Hg.
  injection Hg as <-. set (sel := ts_selected_node_ids (resolve_with doc v)).
  destruct (resolve_group_members pg v (candidates doc v (list_to_set sel))) as (Hex & Hmi & _).
  assert (id ∈ omap member_node (pg_members pg)) as Hin by (apply list_elem_of_omap; by exists (MNode id)).
  assert (unavailable v id = None ↔ available r id) as Hav.
  { eapply unavailable_None; [done|]. eapply explicit_member; [|done].
    by eapply list_elem_of_lookup_2. }
  simpl. rewrite Hex, Hmi. split_and!.
  - rewrite list_elem_of_filter, elem_of_list_to_set, classify_found. tauto.
  - rewrite elem_of_app, classify_missing, list_elem_of_fmap. simpl.
    setoid_rewrite list_elem_of_filter. setoid_rewrite classify_found. split.
    + intros [[_ Hu]|(x & [= <-] & [Hs [_ Hu]])].
      * exfalso. unfold unavailable in Hu. by repeat case_match.
      * rewrite elem_of_list_to_set in Hs. tauto.
    + intros [Ha Hs]. right. exists id. rewrite elem_of_list_to_set. tauto.
  - intros Hna. destruct (unavailable v id) as [reason|] eqn:Hu; [|tauto].
    exists reason. rewrite elem_of_app, classify_missing. by left.
Qed.

End resolver.

(** *** Witnesses: a stored pool of two nodes, a dynamic selector that keeps
    the Trojan one, and a group that names both. *)

Import SqlitePool.

Definition demo_table : Table :=
  mkTable {[ 3%N := demo_row;
             4%N := mkPoolRow (Ok demo_node) Vless None "active" false 1 0 None [] ]}.

Definition demo_doc : TemplateDocument :=
  mkTemplateDocument API_VERSION KIND (mkTemplateMetadata "demo" "" 1)
    (mkTemplateSpec None ["mihomo"] JNull
      (mkNodeSelector Dynamic [mkNodeFilterRule FProtocol "TROJAN"] [] 0)
      [mkProxyGroup "G" Select [MNode 3; MNode 4] None None] [] JNull JNull JNull).

Definition demo_resolution : TemplateResolution :=
  mkTemplateResolution [3%N] [] [mkGroupResolution "G" [3%N] [] [mkMissing 4 OutsideSelection]].

Lemma demo_resolves : resolve_template 3 demo_doc demo_table = Some (Ok demo_resolution).
Proof. vm_compute. reflexivity. Qed.

Lemma demo_fuel : length (active_entries demo_table) < 3.
Proof. apply Nat.ltb_lt. vm_compute. reflexivity. Qed.

Lemma list_active_nodes_exact_witness :
  ∃ l, list_active_nodes 3 demo_table = Some (Ok l) ∧ length l = 2.
Proof.
  destruct (list_active_nodes_exact 3 demo_table demo_fuel) as [(l & Hl & ->)|(c & msg & _ & He)].
  - eexists. split; [exact Hl|]. vm_compute. reflexivity.
  - exfalso. vm_compute in He. discriminate He.
Defined.

Lemma resolution_selects_witness : selects demo_doc demo_table 3.
Proof.
  apply (resolution_selects 3 demo_doc demo_table demo_resolution 3 demo_fuel demo_resolves). left.
Defined.

Lemma groups_within_selection_witness : available demo_table 3.
Proof.
  apply (groups_within_selection 3 demo_doc demo_table demo_resolution
    (mkGroupResolution "G" [3%N] [] [mkMissing 4 OutsideSelection]) 3 demo_fuel demo_resolves); left.
Defined.

Lemma group_members_accounted_witness : available demo_table 4 ∧ (4%N ∉ [3%N]).
Proof.
  apply (group_members_accounted 3 demo_doc demo_table demo_resolution 0
    (mkProxyGroup "G" Select [MNode 3; MNode 4] None None)
    (mkGroupResolution "G" [3%N] [] [mkMissing 4 OutsideSelection]) 4 demo_fuel demo_resolves).
  - reflexivity.
  - reflexivity.
  - right. left.
  - left.
Defined.

End Selection.
