(* ===== verification/Compat.v ===== *)
(** * Profile compatibility
      ([crates/deve-sub-compatibility/src/lib.rs], [restrictions.rs];
      [crates/deve-sub-application/src/template/compatibility.rs])

    Which nodes and group types a target profile accepts, the reason a node
    is excluded, and the report over a resolved set of nodes. *)

From stdpp Require Import pretty.
From S2P Require Import Prelude Kernel Node NodePool Template GenTypes.

(** ** Profiles *)

Inductive ProfileKind := Mihomo | SingBox | Xray | V2Ray | Shadowrocket | UriList | JsonProfile.

#[export] Instance ProfileKind_eq_dec : EqDecision ProfileKind.
Proof. solve_decision. Defined.

(** [ProfileKind::from_kebab], [ProfileKind::as_kebab] *)
Definition from_kebab (s : string) : option ProfileKind :=
  if String.eqb s "mihomo" then Some Mihomo
  else if String.eqb s "sing-box" then Some SingBox
  else if String.eqb s "xray" then Some Xray
  else if String.eqb s "v2ray" then Some V2Ray
  else if String.eqb s "shadowrocket" then Some Shadowrocket
  else if String.eqb s "uri_list" then Some UriList
  else if String.eqb s "json" then Some JsonProfile
  else None.

Definition as_kebab (p : ProfileKind) : string :=
  match p with
  | Mihomo => "mihomo" | SingBox => "sing-box" | Xray => "xray" | V2Ray => "v2ray"
  | Shadowrocket => "shadowrocket" | UriList => "uri_list" | JsonProfile => "json"
  end.

Lemma from_kebab_Some s p : from_kebab s = Some p ↔ s = as_kebab p.
Proof.
  unfold from_kebab. split.
  - repeat match goal with |- context [String.eqb s ?x] => destruct (String.eqb_spec s x) end;
      intros Hp; simplify_eq; done.
  - intros ->. by destruct p.
Qed.

Module Compat.

Record ProfileCapability := mkCapability {
  cap_profile : ProfileKind;
  supported_protocols : list ProtocolKind;
  supported_transports : list TransportKind;
  chain_support : bool;
  supported_group_types : list GroupType
}.

Inductive CompatibilityReason :=
  | UnsupportedField (field : string)
  | UnsupportedProtocol (protocol : string)
  | UnsupportedTransport (transport : string)
  | UnsupportedGroupType (group_type : string)
  | UnsupportedConfig
  | UnsupportedProtocolVersion (protocol : string) (version : N) (supported : string)
  | UnsupportedObfsMode (protocol profile mode supported : string).

(** The [thiserror] messages. *)
Definition reason_display (r : CompatibilityReason) : string :=
  match r with
  | UnsupportedField f => "unsupported field: " +:+ f
  | UnsupportedProtocol p => "unsupported protocol '" +:+ p +:+ "' for profile"
  | UnsupportedTransport t => "unsupported transport '" +:+ t +:+ "' for profile"
  | UnsupportedGroupType t => "unsupported group type '" +:+ t +:+ "' for profile"
  | UnsupportedConfig => "node has no typed protocol config (unsupported)"
  | UnsupportedProtocolVersion p v s =>
      "unsupported protocol version '" +:+ pretty v +:+ "' for " +:+ p +:+ "; supported: " +:+ s
  | UnsupportedObfsMode p pr m s =>
      "unsupported obfs mode '" +:+ m +:+ "' for " +:+ p +:+ " on " +:+ pr +:+ "; supported: " +:+ s
  end.

(** [capability_for] *)
Definition capability_for (profile : ProfileKind) : ProfileCapability :=
  match profile with
  | Mihomo => mkCapability profile
      [Vless; VMess; Trojan; Shadowsocks; Hysteria2; TuicV5; WireGuard; AnyTls; Snell; ShadowTls]
      [Tcp; Ws; H2; Grpc; Quic; HttpUpgrade; Xhttp] true
      [Select; UrlTest; Fallback; LoadBalance; Relay]
  | SingBox => mkCapability profile
      [Vless; VMess; Trojan; Shadowsocks; Hysteria2; TuicV5; WireGuard; AnyTls; Snell; ShadowTls]
      [Tcp; Ws; H2; Grpc; Quic; HttpUpgrade] true [Select; UrlTest; Fallback]
  | Xray => mkCapability profile
      [Vless; VMess; Trojan; Shadowsocks; WireGuard]
      [Tcp; Ws; H2; Grpc; Quic; HttpUpgrade; Xtls; Xhttp] false [Select]
  | V2Ray => mkCapability profile
      [VMess; Vless; Trojan; Shadowsocks] [Tcp; Ws; H2; Grpc; Quic] false [Select]
  | Shadowrocket => mkCapability profile
      [Vless; VMess; Trojan; Shadowsocks; Hysteria2; TuicV5]
      [Tcp; Ws; H2; Grpc; Quic] false [Select; UrlTest]
  | UriList => mkCapability profile
      [Vless; VMess; Trojan; Shadowsocks; Hysteria2; TuicV5; NaiveProxy; WireGuard; AnyTls; Snell]
      [Tcp; Ws; H2; Grpc; Quic; HttpUpgrade; Kcp; Xtls; Xhttp] false []
  | JsonProfile => mkCapability profile
      [Vless; VMess; Trojan; Shadowsocks; Hysteria2; TuicV5; NaiveProxy; WireGuard; AnyTls; Snell;
       ShadowTls]
      [Tcp; Ws; H2; Grpc; Quic; HttpUpgrade; Kcp; Xtls; Xhttp] false []
  end.

Abbreviation Check := (Result CompatibilityReason unit).

Definition reject (field : string) : Check := Err (UnsupportedField field).

(** [if c { return e }] before the rest. *)
Definition guard (c : bool) (e : Check) (rest : Check) : Check := if c then e else rest.

Definition is_unsupported (cfg : ProtocolConfig) : bool :=
  match cfg with CUnsupported _ => true | _ => false end.

Definition obfs_is_http_or_tls (m : SnellObfsMode) : bool :=
  match m with ObfsHttp | ObfsTls => true | _ => false end.

Definition is_some {A} (o : option A) : bool := match o with Some _ => true | None => false end.

(** The Snell block of [restrictions::check]. *)
Definition check_snell (profile : ProfileKind) (n : Node) (tls : option TlsConfig) (cfg : SnellConfig)
    (rest : Check) : Check :=
  guard (is_some (extras n !! "snell_userkey") && negb (bool_decide (profile = SingBox)))
    (reject "Snell userkey") (
  guard (bool_decide (profile = Mihomo) && bool_decide (sn_version cfg = SnellV6))
    (Err (UnsupportedProtocolVersion "snell" 6 "1, 2, 3, 4, 5")) (
  guard (bool_decide (profile = Mihomo)
         && (bool_decide (sn_version cfg = SnellV1) || bool_decide (sn_version cfg = SnellV2))
         && bool_decide (udp_supported (udp n) = Some true))
    (reject "Snell v1/v2 UDP on Mihomo") (
  guard (bool_decide (profile = UriList)
         && (is_some (sn_v6_mode cfg) || negb (tls_is_obfs_alias cfg tls)
             || match sn_obfs cfg with
                | Some o => negb (obfs_is_http_or_tls (so_mode o)) || is_some (so_password o)
                            || is_some (so_version o)
                | None => false
                end))
    (reject "Snell options without URI representation") (
  guard (bool_decide (profile = SingBox) && negb (tls_is_obfs_alias cfg tls))
    (reject "Snell TLS settings beyond camouflage") (
  guard (bool_decide (profile = SingBox)
         && ((bool_decide (sn_version cfg = SnellV6) && is_some (sn_obfs cfg))
             || (negb (bool_decide (sn_version cfg = SnellV6)) && is_some (sn_v6_mode cfg))))
    (reject "Snell version-specific options") (
  guard (bool_decide (profile = SingBox)
         && match sn_obfs cfg with
            | Some o => is_some (so_password o) || is_some (so_version o)
                        || negb (bool_decide (so_alpn o = []))
            | None => false
            end)
    (reject "Snell obfuscation options beyond mode and host") rest)))))).

(** A keepalive outside whole seconds of a [u16]. *)
Definition keepalive_unrepresentable (d : Z) : bool :=
  Z.ltb (Z.quot d 1000000000) 0 || Z.ltb 65535 (Z.quot d 1000000000)
  || negb (Z.eqb (Z.rem d 1000000000) 0).

(** The WireGuard block. *)
Definition check_wireguard (profile : ProfileKind) (cfg : WireGuardConfig) (rest : Check) : Check :=
  guard (bool_decide (profile = SingBox) && negb (bool_decide (wg_dns cfg = [])))
    (reject "WireGuard interface DNS on sing-box") (
  guard (bool_decide (profile = SingBox)
         && existsb (λ p, match persistent_keepalive p with
                          | Some d => keepalive_unrepresentable d | None => false end) (wg_peers cfg))
    (reject "WireGuard keepalive outside uint16 seconds") rest).

(** The protocols a ShadowTLS wrapper may carry. *)
Definition shadowtls_inner_supported (profile : ProfileKind) (k : ProtocolKind) : bool :=
  match profile with
  | Mihomo => bool_decide (k ∈ [Shadowsocks; Snell; Vless; Trojan; VMess; AnyTls])
  | SingBox => bool_decide (k ∈ [Shadowsocks; Trojan; VMess; Vless])
  | _ => false
  end.

(** [restrictions::check]; [inner] is the result of checking the node a
    ShadowTLS wrapper carries. *)
Definition restrictions_check (profile : ProfileKind) (n : Node) (tls : option TlsConfig)
    (cfg : ProtocolConfig) (inner : Check) : Check :=
  guard (bool_decide (profile = JsonProfile)) (Ok ()) (
  guard (bool_decide (profile = V2Ray)
         && match tls with Some t => is_some (reality t) | None => false end)
    (reject "Reality security on V2Ray") (
  match cfg with
  | CSnell c => check_snell profile n tls c (Ok ())
  | CWireGuard c => check_wireguard profile c (Ok ())
  | CShadowTls _ _ inner_protocol inner_config =>
      guard (negb (shadowtls_inner_supported profile inner_protocol) || is_unsupported inner_config)
        (reject "ShadowTLS incomplete or unsupported inner protocol") inner
  | _ => Ok ()
  end)).

(** The sing-box Snell block of [check_node]. *)
Definition check_singbox_snell (cfg : SnellConfig) : Check :=
  match sn_version cfg with
  | SnellV4 =>
      match sn_obfs cfg with
      | Some o =>
          match so_mode o with
          | ObfsShadowTls => Err (UnsupportedObfsMode "snell" "sing-box" "shadow-tls" "http, tls")
          | ObfsRestls => Err (UnsupportedObfsMode "snell" "sing-box" "restls" "http, tls")
          | ObfsJls => Err (UnsupportedObfsMode "snell" "sing-box" "jls" "http, tls")
          | ObfsHttp | ObfsTls => Ok ()
          end
      | None => Ok ()
      end
  | SnellV6 => Ok ()
  | other => Err (UnsupportedProtocolVersion "snell" (snell_as_u32 other) "4, 6")
  end.

(** [check_node] on [n] with its protocol, TLS and configuration replaced:
    the recursion follows the configurations ShadowTLS nests. *)
Fixpoint check_config (cfg : ProtocolConfig) (cap : ProfileCapability) (proto : ProtocolKind)
    (tls : option TlsConfig) (n : Node) : Check :=
  if negb (bool_decide (proto ∈ supported_protocols cap))
  then Err (UnsupportedProtocol (protocol_display proto))
  else if is_unsupported cfg then Err UnsupportedConfig
  else if match transport n with
          | Some t => negb (bool_decide (tr_kind t ∈ supported_transports cap)) | None => false end
  then Err (UnsupportedTransport
    (match transport n with Some t => transport_display (tr_kind t) | None => "" end))
  else
    let inner := match cfg with
      | CShadowTls _ _ inner_protocol inner_config =>
          check_config inner_config (capability_for (cap_profile cap)) inner_protocol None n
      | _ => Ok ()
      end in
    let? _ := restrictions_check (cap_profile cap) n tls cfg inner in
    match cfg with
    | CSnell c => if bool_decide (cap_profile cap = SingBox) then check_singbox_snell c else Ok ()
    | _ => Ok ()
    end.

(** [check_node] *)
Definition check_node (n : Node) (cap : ProfileCapability) : Check :=
  check_config (config n) cap (protocol n) (tls n) n.

(** [check_group_type] *)
Definition check_group_type (t : GroupType) (cap : ProfileCapability) : Check :=
  match supported_group_types cap with
  | [] => Ok ()
  | ts => if bool_decide (t ∈ ts) then Ok () else Err (UnsupportedGroupType (group_type_display t))
  end.

(** ** The compatibility report *)

(** The [for id in node_ids] loop of [check_compatibility]. *)
Fixpoint partition_nodes (cap : ProfileCapability) (entries : gmap NodeId NodePoolEntry)
    (ids : list NodeId) : list NodeId * list ExcludedNode :=
  match ids with
  | [] => ([], [])
  | id :: ids =>
      let '(included, excluded) := partition_nodes cap entries ids in
      match entries !! id with
      | Some e =>
          match check_node (node e) cap with
          | Ok _ => (id :: included, excluded)
          | Err reason =>
              (included, mkExcluded id (display_name (node e)) (reason_display reason) :: excluded)
          end
      | None => (included, mkExcluded id "" "node not found in pool" :: excluded)
      end
  end.

(** [check_compatibility] *)
Definition check_compatibility {R} `{NodePoolRepository R} (ids : list NodeId) (profile : ProfileKind)
    (r : R) : Result TemplateAppError (CompatibilityReport * gmap NodeId NodePoolEntry) :=
  let? fetched := map_err Storage (get_nodes r ids) in
  let entries : gmap NodeId NodePoolEntry :=
    list_to_map (reverse ((λ e, (entry_id e, e)) <$> fetched)) in
  let '(included, excluded) := partition_nodes (capability_for profile) entries ids in
  Ok (mkReport (as_kebab profile) included excluded, entries).

(** ** What acceptance means *)

Lemma guard_Ok c e rest : guard c e rest = Ok () → (c = true ∧ e = Ok ()) ∨ (c = false ∧ rest = Ok ()).
Proof. destruct c; simpl; auto. Qed.

(** Every configuration a node nests is typed. *)
Fixpoint fully_typed (cfg : ProtocolConfig) : Prop :=
  match cfg with
  | CUnsupported _ => False
  | CShadowTls _ _ _ inner => fully_typed inner
  | _ => True
  end.

Lemma check_config_shape cfg cap proto tls n :
  check_config cfg cap proto tls n = Ok () →
  proto ∈ supported_protocols cap ∧ is_unsupported cfg = false ∧
  (∀ t, transport n = Some t → tr_kind t ∈ supported_transports cap) ∧
  (restrictions_check (cap_profile cap) n tls cfg
    (match cfg with
     | CShadowTls _ _ ip ic => check_config ic (capability_for (cap_profile cap)) ip None n
     | _ => Ok ()
     end) = Ok ()).
Proof.
  destruct cfg; simpl; (case_bool_decide as Hp; simpl; [|done]); try done;
    (destruct (transport n) as [t|]; [case_bool_decide as Ht; simpl; [|done]|]);
    intros H; apply result_bind_Ok in H as ([] & Hr & _);
    (split_and!; [done|done|naive_solver|done]).
Qed.

(** A profile other than JSON looks through ShadowTLS wrappers. *)
Lemma check_config_typed cfg cap proto tls n :
  cap_profile cap ≠ JsonProfile → check_config cfg cap proto tls n = Ok () → fully_typed cfg.
Proof.
  revert cap proto tls. induction cfg as [| | | | | | | | | |v pw ip ic IH|u]; intros cap proto tls Hj Hc;
    simpl; try done.
  - apply check_config_shape in Hc as (_ & _ & _ & Hr). unfold restrictions_check in Hr.
    rewrite bool_decide_eq_false_2 in Hr by done. simpl in Hr.
    apply guard_Ok in Hr as [[_ ?]|[_ Hr]]; [done|].
    apply guard_Ok in Hr as [[_ ?]|[_ Hr]]; [done|].
    eapply (IH (capability_for (cap_profile cap))); [|exact Hr]. by destruct (cap_profile cap).
  - by apply check_config_shape in Hc as (_ & ? & _).
Qed.

Lemma json_transport k : k ∈ supported_transports (capability_for JsonProfile).
Proof. apply list_elem_of_In. destruct k; simpl; tauto. Qed.

Lemma check_config_json cfg proto tls n :
  check_config cfg (capability_for JsonProfile) proto tls n = Ok () ↔
    proto ∈ supported_protocols (capability_for JsonProfile) ∧ is_unsupported cfg = false.
Proof.
  split; [intros H; by apply check_config_shape in H as (? & ? & _)|]. intros [Hp Hu].
  destruct cfg; cbn [check_config]; rewrite (bool_decide_eq_true_2 _ Hp); cbn [negb];
    rewrite ?Hu; try done;
    (destruct (transport n) as [t|]; [rewrite (bool_decide_eq_true_2 _ (json_transport (tr_kind t)))|]);
    done.
Qed.

Lemma json_protocols p k :
  k ∈ supported_protocols (capability_for p) → k ∈ supported_protocols (capability_for JsonProfile).
Proof. rewrite !list_elem_of_In. destruct p; simpl; tauto. Qed.

Lemma partition_included cap entries ids id :
  id ∈ (partition_nodes cap entries ids).1 ↔
    id ∈ ids ∧ ∃ e, entries !! id = Some e ∧ check_node (node e) cap = Ok ().
Proof.
  induction ids as [|x ids IH]; simpl; [split; [by intros ?%elem_of_nil|by intros [?%elem_of_nil _]]|].
  destruct (partition_nodes cap entries ids) as [inc exc]. cbn [fst] in *. rewrite elem_of_cons.
  destruct (entries !! x) as [e|] eqn:He; [destruct (check_node (node e) cap) as [[]|] eqn:Hc|];
    cbn [fst]; rewrite ?elem_of_cons, IH.
  - split; [intros [->|[? ?]]; by eauto|intros [[->|?] ?]; by auto].
  - split; [tauto|]. intros [[->|?] (e' & He' & Hc')]; [congruence|by eauto].
  - split; [tauto|]. intros [[->|?] (e' & He' & Hc')]; [congruence|by eauto].
Qed.

Lemma partition_ids cap entries ids :
  let p := partition_nodes cap entries ids in
  p.1 ++ (ex_node_id <$> p.2) ≡ₚ ids.
Proof.
  induction ids as [|x ids IH]; [done|]. simpl.
  destruct (partition_nodes cap entries ids) as [inc exc]. simpl in *.
  destruct (entries !! x) as [e|]; [destruct (check_node (node e) cap)|]; csimpl.
  - by rewrite IH.
  - by rewrite <-Permutation_middle, IH.
  - by rewrite <-Permutation_middle, IH.
Qed.

(** An accepted node is fully supported: its protocol and transport are in
    the profile's matrix and, beyond the JSON profile, no layer of its
    configuration (ShadowTLS wrappers included) is untyped. *)
Theorem check_node_accepts n p :
  check_node n (capability_for p) = Ok () →
  protocol n ∈ supported_protocols (capability_for p) ∧
  (∀ t, transport n = Some t → tr_kind t ∈ supported_transports (capability_for p)) ∧
  (p ≠ JsonProfile → fully_typed (config n)).
Proof.
  intros H. pose proof (check_config_shape _ _ _ _ _ H) as (Hp & _ & Ht & _).
  split_and!; [done|done|]. intros Hj. eapply check_config_typed; [|exact H]. by destruct p.
Qed.

(** The JSON profile is the most permissive one: whatever another profile
    accepts, it accepts. *)
Theorem json_most_permissive n p :
  check_node n (capability_for p) = Ok () → check_node n (capability_for JsonProfile) = Ok ().
Proof.
  intros H. apply check_config_shape in H as (Hp & Hu & _). apply check_config_json.
  split; [by eapply json_protocols|done].
Qed.

(** but it is not full-fidelity, as its documentation claims ("accepts all
    protocols and transports", "no filtering, no exclusion"): nodes of the
    SOCKS5, HTTP, Hysteria v1, SSH and unknown protocols, and every node
    without a typed configuration, are excluded. *)
Theorem json_excludes n :
  (protocol n = Socks5 ∨ protocol n = Http ∨ protocol n = HysteriaV1 ∨ protocol n = Ssh ∨
   (∃ name, protocol n = Unknown name) ∨ ∃ u, config n = CUnsupported u) →
  is_ok (check_node n (capability_for JsonProfile)) = false.
Proof.
  intros Hn. destruct (check_node n (capability_for JsonProfile)) as [[]|] eqn:H; [|done].
  apply check_config_json in H as [Hp Hu]. rewrite list_elem_of_In in Hp. simpl in Hp.
  destruct Hn as [Hn|[Hn|[Hn|[Hn|[[x Hn]|[u Hn]]]]]]; rewrite Hn in *; [naive_solver..|done].
Qed.

(** no silent dropping: the report lists every resolved node exactly once,
    either as included (found and accepted by [check_node]) or as excluded
    with a reason. *)
Theorem compatibility_partition {R} `{PoolContract R} ids profile (r : R) report entries :
  check_compatibility ids profile r = Ok (report, entries) →
  rp_included_node_ids report ++ (ex_node_id <$> rp_excluded report) ≡ₚ ids ∧
  (∀ id, id ∈ rp_included_node_ids report ↔
    id ∈ ids ∧ ∃ e, entries !! id = Some e ∧ check_node (node e) (capability_for profile) = Ok ()).
Proof.
  unfold check_compatibility. intros Hc. apply result_bind_Ok in Hc as (l & _ & Hc).
  pose proof (partition_ids (capability_for profile)
    (list_to_map (reverse ((λ e, (entry_id e, e)) <$> l))) ids) as Hids.
  pose proof (λ id, partition_included (capability_for profile)
    (list_to_map (reverse ((λ e, (entry_id e, e)) <$> l))) ids id) as Hinc.
  destruct (partition_nodes _ _ ids) as [inc exc]. injection Hc as <- <-. done.
Qed.

(** *** Witnesses *)

Definition demo_trojan : Node :=
  mkNode 3 "t" Trojan (CTrojan (mkTrojan None)) (mkEndpoint (Domain "host.example") 443)
    (AuthPassword "p") (Some (mkTransport Ws None None None)) None (mkUdp None None) None None None
    None (mkNodeSource "src" None 0) [] (mkRegion RegionAuto None) ∅.

Definition demo_socks : Node :=
  mkNode 4 "s" Socks5 (CTrojan (mkTrojan None)) (mkEndpoint (Domain "host.example") 443)
    AuthNone None None (mkUdp None None) None None None
    None (mkNodeSource "src" None 0) [] (mkRegion RegionAuto None) ∅.

Lemma check_node_accepts_witness : fully_typed (config demo_trojan).
Proof.
  apply (check_node_accepts demo_trojan Xray); [vm_compute; reflexivity|discriminate].
Defined.

Lemma json_most_permissive_witness : check_node demo_trojan (capability_for JsonProfile) = Ok ().
Proof. apply (json_most_permissive demo_trojan V2Ray). vm_compute. reflexivity. Defined.

Lemma json_excludes_witness : is_ok (check_node demo_socks (capability_for JsonProfile)) = false.
Proof. apply (json_excludes demo_socks). left. reflexivity. Defined.

Import SqlitePool.

Definition demo_pool : Table := mkTable {[ 3%N := mkPoolRow (Ok demo_trojan) Trojan None "active" false 1 0 None [] ]}.

Lemma compatibility_partition_witness :
  ∃ report, (∃ es, check_compatibility [3%N; 9%N] Mihomo demo_pool = Ok (report, es)) ∧
    rp_included_node_ids report ++ (ex_node_id <$> rp_excluded report) ≡ₚ [3%N; 9%N].
Proof.
  destruct (check_compatibility [3%N; 9%N] Mihomo demo_pool) as [[report es]|e] eqn:Hc.
  - exists report. split; [by exists es|].
    exact (proj1 (compatibility_partition [3%N; 9%N] Mihomo demo_pool report es Hc)).
  - exfalso. vm_compute in Hc. discriminate Hc.
Defined.

End Compat.
