(* ===== verification/Assemble.v ===== *)
(** * Assembling the output document
      ([crates/deve-sub-application/src/template/generation.rs]
      [sort_and_dedup], [assemble_groups]; [clash_generation.rs])

    The order of the emitted nodes, the names they get in the namespace they
    share with groups and policies, and the member names of the groups. *)

From stdpp Require Import pretty.
From S2P Require Import Prelude Kernel Node Text NodePool Template GenTypes.

Record AssembledGroup := mkAssembledGroup {
  ag_name : string; ag_type : GroupType; ag_members : list string }.

Module Assemble.

(** ** Order and duplicates *)

(** The [then]/[then_with] chain of the comparator. *)
Definition then_cmp (a b : comparison) : comparison := match a with Eq => b | _ => a end.

Definition compare_nodes (a b : Node * Z) : comparison :=
  then_cmp (Z.compare a.2 b.2)
    (then_cmp (String.compare (Text.uri_host (host (endpoint a.1))) (Text.uri_host (host (endpoint b.1))))
      (then_cmp (N.compare (port (endpoint a.1)) (port (endpoint b.1)))
        (String.compare (as_filter_key (protocol a.1)) (as_filter_key (protocol b.1))))).

(** [nodes.retain(|(n, _)| seen.insert(n.id))] *)
Fixpoint retain_first (seen : gset NodeId) (l : list (Node * Z)) : list (Node * Z) :=
  match l with
  | [] => []
  | x :: l =>
      if bool_decide (n_id x.1 ∈ seen) then retain_first seen l
      else x :: retain_first ({[n_id x.1]} ∪ seen) l
  end.

(** [sort_and_dedup] *)
Definition sort_and_dedup (nodes : list (Node * Z)) : list (Node * Z) :=
  retain_first ∅ (sort_by compare_nodes nodes).

(** ** The proxy namespace *)

(** [clash::POLICIES] *)
Definition POLICIES : list string :=
  ["DIRECT"; "REJECT"; "REJECT-DROP"; "PASS"; "COMPATIBLE"; "GLOBAL"].

Definition with_name (n : Node) (name : string) : Node :=
  mkNode (n_id n) name (protocol n) (config n) (endpoint n) (authentication n) (transport n)
    (tls n) (udp n) (multiplex n) (obfuscation n) (congestion n) (n_chain n) (source n)
    (n_tags n) (region n) (extras n).

Section naming.
(** The [ulid] crate's text form of an identifier. *)
Variable id_display : NodeId → string.

(** Occurrences of a display name. *)
Definition count_name (nodes : list (Node * Z)) (name : string) : nat :=
  length (filter (λ x, display_name x.1 = name) nodes).

(** Whether a node must be renamed. *)
Definition must_rename (used : gset string) (nodes : list (Node * Z)) (n : Node) : bool :=
  Text.is_empty (Text.trim (display_name n)) || bool_decide (display_name n ∈ used)
  || Nat.ltb 1 (count_name nodes (display_name n)).

(** The [k]-th candidate: the base, then suffixes from 2. *)
Definition candidate (base : string) (k : nat) : string :=
  match k with
  | O => base
  | S k => base +:+ " " +:+ pretty (N.of_nat (k + 2))
  end.

(** The [while !used.insert(candidate)] loop. *)
Fixpoint fresh_name (fuel : nat) (used : gset string) (base : string) (k : nat) : string :=
  let c := candidate base k in
  if bool_decide (c ∈ used) then
    match fuel with
    | O => c
    | S fuel => fresh_name fuel used base (S k)
    end
  else c.

Definition rename_base (n : Node) : string :=
  Text.trim (display_name n) +:+ " [" +:+ id_display (n_id n) +:+ "]".

(** The renaming pass over the nodes and their flags. *)
Fixpoint assign_names (used : gset string) (nodes : list (Node * Z * bool)) : list (Node * Z) :=
  match nodes with
  | [] => []
  | (n, s, false) :: nodes => (n, s) :: assign_names used nodes
  | (n, s, true) :: nodes =>
      let name := fresh_name (size used) used (rename_base n) 0 in
      (with_name n name, s) :: assign_names ({[name]} ∪ used) nodes
  end.

(** The renaming part of [prepare_nodes], for the names already taken by
    policies, groups and, for a native document, its tokens and groups. *)
Definition rename_nodes (taken : gset string) (nodes : list (Node * Z)) : list (Node * Z) :=
  let flagged := (λ x, (x, must_rename taken nodes x.1)) <$> nodes in
  let kept : gset string :=
    list_to_set (omap (λ y : Node * Z * bool, if y.2 then None else Some (display_name y.1.1)) flagged) in
  assign_names (taken ∪ kept) flagged.

(** ** Groups *)

(** [seen.insert(name)] guarding each push: the first occurrences. *)
Fixpoint first_occurrences (seen : gset string) (l : list string) : list string :=
  match l with
  | [] => []
  | x :: l =>
      if bool_decide (x ∈ seen) then first_occurrences seen l
      else x :: first_occurrences ({[x]} ∪ seen) l
  end.

(** The names an assembled group lists, before sorting. *)
Definition group_names_of (name_by_id : gmap NodeId string) (spec : ProxyGroup)
    (res : option GroupResolution) : list string :=
  first_occurrences ∅
    (omap (λ m, match m with MNode id => name_by_id !! id | MGroup name => Some name end) (pg_members spec)
     ++ match res with
        | Some r => omap (λ id, name_by_id !! id) (gs_quick_group_node_ids r ++ gs_explicit_node_ids r)
        | None => []
        end).

(** [assemble_groups] *)
Definition assemble_groups (specs : list ProxyGroup) (ress : list GroupResolution)
    (name_by_id : gmap NodeId string) : list AssembledGroup :=
  let res_by_name : gmap string GroupResolution :=
    list_to_map (reverse ((λ r, (gs_group_name r, r)) <$> ress)) in
  (λ spec,
    let members := group_names_of name_by_id spec (res_by_name !! pg_name spec) in
    let members := match pg_sort_order spec with
      | None => members
      | Some Asc => sort_by String.compare members
      | Some Desc => reverse (sort_by String.compare members)
      end in
    mkAssembledGroup (pg_name spec) (pg_type spec) members) <$> specs.

(** The Mihomo guard for groups whose last member vanished. *)
Definition reject_empty (g : AssembledGroup) : AssembledGroup :=
  match ag_members g with
  | [] => mkAssembledGroup (ag_name g) Select ["REJECT"]
  | _ => g
  end.

(** ** Lemmas *)

Lemma retain_first_spec seen l :
  NoDup ((n_id ∘ fst) <$> retain_first seen l) ∧
  (∀ x, x ∈ retain_first seen l → x ∈ l ∧ n_id x.1 ∉ seen) ∧
  (∀ x, x ∈ l → n_id x.1 ∉ seen → ∃ y, y ∈ retain_first seen l ∧ n_id y.1 = n_id x.1).
Proof.
  revert seen. induction l as [|x l IH]; intros seen; csimpl.
  { split_and!; [apply NoDup_nil_2|by intros x ?%elem_of_nil|by intros x ?%elem_of_nil]. }
  case_bool_decide as Hx.
  - destruct (IH seen) as (Hnd & Hs & Hc). split_and!; [done| |].
    + intros y Hy. apply Hs in Hy as [? ?]. split; [by right|done].
    + intros y [->|Hy]%elem_of_cons Hns; [done|by apply Hc].
  - destruct (IH ({[n_id x.1]} ∪ seen)) as (Hnd & Hs & Hc). csimpl. split_and!.
    + apply NoDup_cons. split; [|done]. intros (y & Heq & Hy)%list_elem_of_fmap.
      apply Hs in Hy as [_ Hy]. simpl in Heq. set_solver.
    + intros y [->|Hy]%elem_of_cons; [split; [left|done]|]. apply Hs in Hy as [? ?]. split; [by right|set_solver].
    + intros y [->|Hy]%elem_of_cons Hns; [exists x; split; [left|done]|].
      destruct (decide (n_id y.1 = n_id x.1)) as [->|Hne]; [exists x; split; [left|done]|].
      destruct (Hc y Hy) as (z & Hz & ?); [set_solver|]. exists z. split; [by right|done].
Qed.

Lemma string_app_inj_l (a b c : string) : a +:+ b = a +:+ c → b = c.
Proof. induction a as [|x a IH]; [done|]. cbn. intros [= H]. by apply IH. Qed.

Lemma string_app_neq (a b : string) (x : Ascii.ascii) : a ≠ a +:+ String x b.
Proof. induction a as [|y a IH]; [done|]. cbn. intros [= H]. by apply IH. Qed.

Lemma candidate_inj base j k : candidate base j = candidate base k → j = k.
Proof.
  destruct j as [|j], k as [|k]; cbn [candidate]; intros Heq; [done|..].
  - by apply string_app_neq in Heq.
  - symmetry in Heq. by apply string_app_neq in Heq.
  - apply string_app_inj_l in Heq. injection Heq as Heq. apply pretty_N_inj in Heq. lia.
Qed.

(** The search cannot run out of candidates: they are pairwise distinct, and
    only [size used] of them can be taken. *)
Lemma fresh_name_spec fuel used base k (tried : gset string) :
  tried ⊆ used → (∀ c, c ∈ tried ↔ ∃ j, j < k ∧ c = candidate base j) →
  size used ≤ fuel + size tried → fresh_name fuel used base k ∉ used.
Proof.
  revert k tried. induction fuel as [|fuel IH]; intros k tried Hsub Htr Hsz; simpl;
    (case_bool_decide as Hc; [|done]).
  - exfalso. assert (candidate base k ∉ tried) as Hnew.
    { intros (j & Hj & Heq)%Htr. apply candidate_inj in Heq. lia. }
    assert (tried = used) as ->; [|done].
    apply set_subseteq_size_eq; [done|lia].
  - assert (candidate base k ∉ tried) as Hnew.
    { intros (j & Hj & Heq)%Htr. apply candidate_inj in Heq. lia. }
    apply (IH (S k) ({[candidate base k]} ∪ tried)).
    + set_solver.
    + intros c. rewrite elem_of_union, elem_of_singleton, Htr. split.
      * intros [->|(j & Hj & ->)]; [exists k|exists j]; (split; [lia|done]).
      * intros (j & Hj & ->). destruct (decide (j = k)) as [->|]; [by left|].
        right. exists j. split; [lia|done].
    + rewrite size_union, size_singleton by set_solver. lia.
Qed.

Lemma fresh_name_0 used base : fresh_name (size used) used base 0 ∉ used.
Proof.
  apply (fresh_name_spec (size used) used base 0 ∅); [set_solver| |rewrite size_empty; lia].
  intros c. split; [by intros ?%not_elem_of_empty|]. intros (j & ? & _). lia.
Qed.

(** Names of the flagged nodes after the pass. *)
Lemma assign_names_spec used l :
  (∀ x, x ∈ l → x.2 = false → display_name x.1.1 ∈ used) →
  NoDup (omap (λ y : Node * Z * bool, if y.2 then None else Some (display_name y.1.1)) l) →
  NoDup ((display_name ∘ fst) <$> assign_names used l) ∧
  (∀ n, n ∈ (display_name ∘ fst) <$> assign_names used l →
    (n ∉ used) ∨ n ∈ omap (λ y : Node * Z * bool, if y.2 then None else Some (display_name y.1.1)) l) ∧
  (n_id ∘ fst <$> assign_names used l) = (λ x, n_id x.1.1) <$> l.
Proof.
  revert used. induction l as [|[[n s] b] l IH]; intros used Hu Hnd.
  { csimpl. split_and!; [apply NoDup_nil_2|by intros ? ?%elem_of_nil|done]. }
  destruct b; csimpl in *.
  - set (name := fresh_name (size used) used (rename_base n) 0).
    assert (name ∉ used) as Hf by apply fresh_name_0.
    destruct (IH ({[name]} ∪ used)) as (H1 & H2 & H3); [|done|].
    { intros x Hx Hb. apply elem_of_union_r, Hu; [by right|done]. }
    split_and!.
    + apply NoDup_cons. split; [|done]. intros Hin. apply H2 in Hin as [Hin|Hin]; [set_solver|].
      apply list_elem_of_omap in Hin as ([[n' s'] b'] & Hin & Heq).
      destruct b'; simplify_eq/=. apply Hf. rewrite <-Heq.
      apply (Hu (n', s', false)); [by right|done].
    + intros m [->|Hm]%elem_of_cons; [by left|]. apply H2 in Hm as [Hm|Hm]; [left; set_solver|by right].
    + by rewrite H3.
  - apply NoDup_cons in Hnd as [Hn Hnd].
    destruct (IH used) as (H1 & H2 & H3); [intros x Hx; apply Hu; by right|done|].
    split_and!.
    + apply NoDup_cons. split; [|done]. intros Hin. apply H2 in Hin as [Hin|Hin]; [|done].
      apply Hin. apply (Hu (n, s, false)); [left|done].
    + intros m [->|Hm]%elem_of_cons; [right; left|]. apply H2 in Hm as [Hm|Hm]; [by left|right; by right].
    + by rewrite H3.
Qed.

Lemma kept_names_NoDup (f : Node → bool) (l : list (Node * Z)) :
  (∀ x, x ∈ l → f x.1 = false → count_name l (display_name x.1) ≤ 1) →
  NoDup (omap (λ y : Node * Z * bool, if y.2 then None else Some (display_name y.1.1))
    ((λ x, (x, f x.1)) <$> l)).
Proof.
  induction l as [|x l IH]; intros Hc; csimpl; [apply NoDup_nil_2|].
  assert (∀ name, count_name l name ≤ count_name (x :: l) name) as Hmono.
  { intros name. unfold count_name. rewrite filter_cons. case_decide; simpl; lia. }
  assert (NoDup (omap (λ y : Node * Z * bool, if y.2 then None else Some (display_name y.1.1))
    ((λ x, (x, f x.1)) <$> l))) as Hnd.
  { apply IH. intros y Hy Hf. etrans; [apply Hmono|]. apply Hc; [by right|done]. }
  destruct (f x.1) eqn:Hf; [done|]. apply NoDup_cons. split; [|done].
  intros ([[n s] b] & Hin & Heq)%list_elem_of_omap. destruct b; simplify_eq/=.
  apply list_elem_of_fmap in Hin as (y & Hyy & Hy). injection Hyy as Hyy _.
  pose proof (Hc x ltac:(left) Hf) as Hx. unfold count_name in Hx.
  rewrite filter_cons, decide_True in Hx by done. simpl in Hx.
  assert (y ∈ filter (λ z, display_name z.1 = display_name x.1) l) as Hin.
  { apply list_elem_of_filter. split; [|done]. by rewrite <-Hyy. }
  destruct (filter _ l) as [|z l']; [by apply elem_of_nil in Hin|]. simpl in Hx. lia.
Qed.

Lemma rename_nodes_spec taken nodes :
  NoDup ((display_name ∘ fst) <$> rename_nodes taken nodes) ∧
  (∀ n, n ∈ (display_name ∘ fst) <$> rename_nodes taken nodes → n ∉ taken) ∧
  (n_id ∘ fst <$> rename_nodes taken nodes) = (n_id ∘ fst) <$> nodes.
Proof.
  unfold rename_nodes. set (l := (λ x, (x, must_rename taken nodes x.1)) <$> nodes).
  set (kept := omap _ l). edestruct (assign_names_spec (taken ∪ list_to_set kept) l) as (H1 & H2 & H3).
  - intros [x b] Hx Hb. simpl in Hb. subst b. apply elem_of_union_r, elem_of_list_to_set, list_elem_of_omap.
    exists (x, false). done.
  - unfold l. apply kept_names_NoDup. intros x Hx Hr. unfold must_rename in Hr. bool_solve.
    apply Nat.ltb_ge in H0. done.
  - split_and!; [done| |].
    + intros n Hn. apply H2 in Hn as [Hn|Hn]; [set_solver|].
      apply list_elem_of_omap in Hn as ([[x s] b] & Hin & Heq). destruct b; simplify_eq/=.
      apply list_elem_of_fmap in Hin as (y & Hyy & _). injection Hyy as Hy1 Hy2. subst y.
      symmetry in Hy2. unfold must_rename in Hy2. bool_solve. by apply bool_decide_eq_false in H4.
    + rewrite H3. unfold l. rewrite <-list_fmap_compose. done.
Qed.

Lemma with_own_name n : with_name n (display_name n) = n.
Proof. by destruct n. Qed.

(** Renaming changes names only. *)
Lemma rename_nodes_only_names taken nodes :
  Forall2 (λ x y, y = (with_name x.1 (display_name y.1), x.2)) nodes (rename_nodes taken nodes).
Proof.
  unfold rename_nodes. generalize (taken ∪ list_to_set (omap (λ y : Node * Z * bool, if y.2 then None else Some (display_name y.1.1))
    ((λ x, (x, must_rename taken nodes x.1)) <$> nodes))). generalize (must_rename taken nodes).
  intros f. induction nodes as [|[n s] nodes IH]; intros used; [constructor|]. rewrite fmap_cons. cbn [assign_names fst].
  destruct (f n); (constructor; [|apply IH]); cbn; [done|]. by rewrite with_own_name.
Qed.

Lemma first_occurrences_spec seen l :
  NoDup (first_occurrences seen l) ∧ (∀ x, x ∈ first_occurrences seen l ↔ x ∈ l ∧ x ∉ seen).
Proof.
  revert seen. induction l as [|x l IH]; intros seen; simpl.
  { split; [apply NoDup_nil_2|]. intros x. split; [by intros ?%elem_of_nil|by intros [?%elem_of_nil _]]. }
  case_bool_decide as Hx.
  - destruct (IH seen) as [Hnd Hs]. split; [done|]. intros y. rewrite Hs, elem_of_cons. naive_solver.
  - destruct (IH ({[x]} ∪ seen)) as [Hnd Hs]. split.
    + apply NoDup_cons. split; [|done]. rewrite Hs. set_solver.
    + intros y. rewrite !elem_of_cons, Hs, not_elem_of_union, not_elem_of_singleton.
      destruct (decide (y = x)); naive_solver.
Qed.

Lemma sorted_members (o : option SortOrder) (l : list string) :
  match o with
  | None => l | Some Asc => sort_by String.compare l
  | Some Desc => reverse (sort_by String.compare l)
  end ≡ₚ l.
Proof.
  destruct o as [[]|]; [apply sort_by_Permutation| |done].
  by rewrite reverse_Permutation, sort_by_Permutation.
Qed.

Lemma assemble_groups_spec specs ress name_by_id g :
  g ∈ assemble_groups specs ress name_by_id →
  ∃ spec, spec ∈ specs ∧ ag_name g = pg_name spec ∧ ag_type g = pg_type spec ∧
    NoDup (ag_members g) ∧
    ∀ m, m ∈ ag_members g → (∃ id, name_by_id !! id = Some m) ∨ MGroup m ∈ pg_members spec.
Proof.
  intros (spec & -> & Hspec)%list_elem_of_fmap. exists spec. simpl. split_and!; [done..| |].
  - rewrite sorted_members. apply first_occurrences_spec.
  - intros m Hm. rewrite sorted_members in Hm. apply first_occurrences_spec in Hm as [Hm _].
    apply elem_of_app in Hm as [Hm|Hm].
    + apply list_elem_of_omap in Hm as ([id|name] & Hin & Heq); [by left; eauto|].
      injection Heq as ->. by right.
    + left. case_match; [|by apply elem_of_nil in Hm].
      apply list_elem_of_omap in Hm as (id & _ & ?). eauto.
Qed.

(** the output namespace is unambiguous: after renaming, the nodes' names
    are pairwise distinct and clash with no policy, group or other taken
    name; identifiers, number and order of the nodes are unchanged.  The
    suffix search always ends, since its candidates are pairwise distinct. *)
Theorem rename_nodes_distinct taken nodes :
  NoDup ((display_name ∘ fst) <$> rename_nodes taken nodes) ∧
  (∀ n, n ∈ (display_name ∘ fst) <$> rename_nodes taken nodes → n ∉ taken) ∧
  (n_id ∘ fst <$> rename_nodes taken nodes) = (n_id ∘ fst) <$> nodes.
Proof. apply rename_nodes_spec. Qed.

End naming.
End Assemble.
