(* ===== verification/UriParse.v ===== *)
(** * Share-URI parsers ([crates/deve-sub-protocol/src])

    [uri.rs] (dispatch and shared helpers), [transport.rs], [error.rs] and one
    parser per protocol, each from a parsed URL (or, for Shadowsocks and VMess,
    from the raw text) to a canonical node.  The identifier and the instant
    [node_shell] draws are arguments. *)

From Stdlib Require Import Ascii.
From stdpp Require Import pretty.
From S2P Require Import Prelude Kernel Node Text Ip UrlText Float64 Selection.
Import Text Ip UrlText.

Module UriParse.

(** [ParseError] *)
Inductive ParseError :=
  | TooManyEntries (count : nat)
  | InvalidUri (text : string)
  | UnknownScheme (scheme : string)
  | PMissingField (field : string)
  | PInvalidField (field value : string)
  | NotReality (security : string)
  | InvalidHost (text : string)
  | InvalidPort (text : string)
  | InvalidBase64 (text : string)
  | InvalidJson (text : string)
  | InvalidBandwidth (text : string)
  | InvalidYaml (text : string)
  | UnsupportedProxyType (text : string)
  | MissingContainerKey (key : string).

(** ** Shared helpers ([uri.rs]) *)

(** [Option::map] to a result, then [transpose]. *)
Definition traverse {E A B} (f : A → Result E B) (o : option A) : Result E (option B) :=
  match o with
  | None => Ok None
  | Some a => let? b := f a in Ok (Some b)
  end.

(** The UTF-8 texts of the characters no domain name may have: control
    characters, white space and the URI delimiters. *)
Definition c1_controls : list string := (λ n, bytes [194; n]%N) <$> (N.of_nat <$> seq 128 32).

Definition rejected_char (c : ascii) : bool :=
  in_range 0 31 c || N.eqb (code c) 127 || one_of "/:@#?[]" c || N.eqb (code c) 32.

Definition rejected_host (s : string) : bool :=
  negb (all_chars (λ c, negb (rejected_char c)) s)
  || existsb (λ p, contains p s) (c1_controls ++ whitespace).

Definition parse_host (host_str : string) : Result ParseError Host :=
  if is_empty host_str then Err (InvalidHost "empty host")
  else
    let host_str := default host_str (strip_brackets host_str) in
    match ipv4_from_str host_str with
    | Some o => Ok (Ipv4 o)
    | None =>
        match ipv6_from_str host_str with
        | Some segs => Ok (Ipv6 segs)
        | None =>
            if rejected_host host_str
            then Err (InvalidHost ("domain name contains invalid characters: " +:+ host_str))
            else Ok (Domain host_str)
        end
    end.

Definition parse_host_port (s : string) : Result ParseError (Host * N) :=
  match strip_prefix "[" s with
  | Some rest =>
      let? (ipv6_str, after) := ok_or (split_once "]" rest) (InvalidHost "unclosed IPv6 bracket") in
      let? port_str := ok_or (strip_prefix ":" after) (PMissingField "port after IPv6 host") in
      let? host := parse_host ipv6_str in
      let? port := ok_or (parse_unsigned u16_max port_str) (InvalidPort port_str) in
      Ok (host, port)
  | None =>
      let? (host_str, port_str) := ok_or (rsplit_once ":" s) (PMissingField "host:port") in
      let? host := parse_host host_str in
      let? port := ok_or (parse_unsigned u16_max port_str) (InvalidPort port_str) in
      Ok (host, port)
  end.

Definition parse_bool (value : string) : Result ParseError bool :=
  if String.eqb value "true" || String.eqb value "1" then Ok true
  else if String.eqb value "false" || String.eqb value "0" then Ok false
  else Err (PInvalidField "boolean" value).

(** [HashMap<String, String>] of query parameters. *)
Definition Query : Type := gmap string string.

Definition node_shell (id : NodeId) (now : Z) (raw_uri : option string) : Node := {|
  n_id := id;
  display_name := "";
  protocol := Unknown "";
  config := CUnsupported (mkUnsupported JNull None "");
  endpoint := mkEndpoint (Domain "") 0;
  authentication := AuthNone;
  transport := None;
  tls := None;
  udp := mkUdp None None;
  multiplex := None;
  obfuscation := None;
  congestion := None;
  n_chain := None;
  source := mkNodeSource "" raw_uri now;
  n_tags := [];
  region := mkRegion RegionAuto None;
  extras := ∅
|}.

Fixpoint query_insecure (query : Query) (params : list string) : Result ParseError (option bool) :=
  match params with
  | [] => Ok None
  | param :: params =>
      match query !! param with
      | Some value =>
          if String.eqb value "0" || String.eqb value "false" then Ok (Some false)
          else if String.eqb value "1" || String.eqb value "true" then Ok (Some true)
          else Err (PInvalidField "insecure" value)
      | None => query_insecure query params
      end
  end.

Definition parse_alpn (value : string) : list string :=
  if is_empty value then [] else split "," value.

(** The longest prefix of digits and dots. *)
Fixpoint numeric_prefix (s : string) : string * string :=
  match s with
  | EmptyString => ("", "")
  | String c s' =>
      if in_range 48 57 c || Ascii.eqb c "."
      then let '(a, b) := numeric_prefix s' in (String c a, b) else ("", s)
  end.

Fixpoint map_chars (f : ascii → ascii) (s : string) : string :=
  match s with EmptyString => "" | String c s => String (f c) (map_chars f s) end.

Definition unit_multiplier (unit : string) : option N :=
  let u := map_chars Selection.to_ascii_lowercase unit in
  if String.eqb u "" || String.eqb u "bps" then Some 1%N
  else if String.eqb u "k" || String.eqb u "kbps" then Some 1000%N
  else if String.eqb u "m" || String.eqb u "mbps" then Some 1000000%N
  else if String.eqb u "g" || String.eqb u "gbps" then Some 1000000000%N
  else None.

Definition parse_bandwidth (value : string) : Result ParseError N :=
  let trimmed := trim value in
  if is_empty trimmed then Err (InvalidBandwidth "empty")
  else
    let '(num_str, unit_str) := numeric_prefix trimmed in
    let? num := ok_or (F64.f64_from_str num_str) (InvalidBandwidth value) in
    let? multiplier := ok_or (unit_multiplier (trim unit_str)) (InvalidBandwidth value) in
    Ok (F64.round_u64 (F64.mul num (F64.of_u64 multiplier))).

(** [time::Duration] values are nanosecond counts. *)
Definition parse_duration (unit : Z) (field value : string) : Result ParseError Z :=
  let? n := ok_or (parse_i64 value) (PInvalidField field value) in
  if Z.ltb n 0 then Err (PInvalidField field value) else Ok (n * unit)%Z.

Definition parse_duration_secs : string → Result ParseError Z :=
  parse_duration 1000000000 "duration (seconds)".
Definition parse_duration_millis : string → Result ParseError Z :=
  parse_duration 1000000 "duration (milliseconds)".

(** [container::default_tls_enabled] *)
Definition default_tls_enabled : TlsConfig := mkTls true None None [] None [] None.

Definition build_common_tls (query : Query) (insecure_params : list string)
    (pin_param : option string) : Result ParseError (option TlsConfig) :=
  let has k := bool_decide (is_Some (query !! k)) in
  if has "sni" || has "alpn" || existsb has insecure_params
     || match pin_param with Some p => has p | None => false end
  then
    let? skip := query_insecure query insecure_params in
    let alpn := default [] (parse_alpn <$> query !! "alpn") in
    let pins := default [] (p ← pin_param; v ← query !! p;
      Some (if is_empty v then [] else (λ pin, "pinSHA256:" +:+ pin) <$> split "," v)) in
    Ok (Some (mkTls true (query !! "sni") skip alpn None pins None))
  else Ok None.

(** [transport.rs]: [map_transport_kind] *)
Definition map_transport_kind (value : string) : Result ParseError TransportKind :=
  if String.eqb value "tcp" then Ok Tcp
  else if String.eqb value "ws" then Ok Ws
  else if String.eqb value "grpc" then Ok Grpc
  else if String.eqb value "h2" then Ok H2
  else if String.eqb value "kcp" then Ok Kcp
  else if String.eqb value "quic" then Ok Quic
  else if String.eqb value "httpupgrade" then Ok HttpUpgrade
  else if String.eqb value "xtls" then Ok Xtls
  else if String.eqb value "xhttp" then Ok Xhttp
  else Err (PInvalidField "type (transport)" value).

(** The controller names TUIC and Hysteria2 share. *)
Definition parse_controller (v : string) : CongestionController :=
  if String.eqb v "bbr" then Bbr
  else if String.eqb v "cubic" then Cubic
  else if String.eqb v "new_reno" then NewReno
  else OtherController v.

(** The transport of VLESS and Trojan: the mode is read for XHTTP only, and is
    [auto] unless given. *)
Definition parse_transport (query : Query) (kind : TransportKind) : Transport :=
  let mode :=
    if bool_decide (kind = Xhttp)
    then default (Some XAuto) (xhttp_from_str_lossy <$> query !! "mode") else None in
  mkTransport kind (query !! "path") (query !! "host") mode.

Section parsers.
Context `{L : UrlLib}.
(** [NodeId::new] and [Timestamp::now] at the call. *)
Variables (id : NodeId) (now : Z).

Definition decode_fragment (u : Url) : string := default "" (percent_decode <$> u_fragment u).
Definition decode_userinfo (s : string) : string := percent_decode s.
Definition decode_fragment_parts (fragment : option string) : string :=
  default "" (percent_decode <$> fragment).

(** [query_pairs] collected into a map: the last value of a key wins. *)
Definition collect (pairs : list (string * string)) : Query :=
  foldl (λ m kv, <[kv.1 := kv.2]> m) ∅ pairs.
Definition collect_query (u : Url) : Query := collect (form_urlencoded (default "" (u_query u))).

Definition decode_base64_flexible (input : string) : Result ParseError string :=
  match base64_decode STANDARD input with
  | Some r => Ok r
  | None =>
      match base64_decode STANDARD_NO_PAD input with
      | Some r => Ok r
      | None =>
          match base64_decode URL_SAFE input with
          | Some r => Ok r
          | None => ok_or (base64_decode URL_SAFE_NO_PAD input) (InvalidBase64 input)
          end
      end
  end.

Definition url_endpoint (protocol : string) (u : Url) : Result ParseError Endpoint :=
  let? host_str := ok_or (u_host_str u) (InvalidHost ("missing host in " +:+ protocol +:+ " URI")) in
  let? host := parse_host host_str in
  let? port := ok_or (u_port u) (PMissingField "port") in
  Ok (mkEndpoint host port).

(** ** Trojan ([trojan.rs]) *)
Definition trojan_parse (u : Url) (raw_uri : string) : Result ParseError Node :=
  let password := decode_userinfo (u_username u) in
  if is_empty password then Err (PMissingField "password") else
  let? endpoint := url_endpoint "trojan" u in
  let query := collect_query u in
  let? kind := traverse map_transport_kind (query !! "type") in
  let kind := default Tcp kind in
  let? tls := build_common_tls query ["skip-cert-verify"; "allowInsecure"; "insecure"] None in
  let shell := node_shell id now (Some raw_uri) in
  Ok (mkNode (n_id shell) (decode_fragment u) Trojan
    (CTrojan (mkTrojan (query !! "packetEncoding"))) endpoint (AuthPassword password)
    (Some (parse_transport query kind)) (Some (default default_tls_enabled tls))
    (udp shell) (multiplex shell) (obfuscation shell) (congestion shell) (n_chain shell)
    (source shell) (n_tags shell) (region shell) (extras shell)).

(** ** AnyTLS ([anytls.rs]) *)
Definition anytls_parse (u : Url) (raw_uri : string) : Result ParseError Node :=
  let password := decode_userinfo (u_username u) in
  if is_empty password then Err (PMissingField "password") else
  let? endpoint := url_endpoint "anytls" u in
  let query := collect_query u in
  let? tls := build_common_tls query ["insecure"; "skip-cert-verify"; "allowInsecure"] None in
  let t := default default_tls_enabled tls in
  let t := match client_fingerprint t with
           | None => mkTls (tls_enabled t) (server_name t) (skip_cert_verify t) (alpn t)
                       (query !! "fp") (certificate_pins t) (reality t)
           | Some _ => t
           end in
  let shell := node_shell id now (Some raw_uri) in
  Ok (mkNode (n_id shell) (decode_fragment u) AnyTls
    (CAnyTls (mkAnyTls None None None None)) endpoint (AuthPassword password)
    (transport shell) (Some t) (udp shell) (multiplex shell) (obfuscation shell)
    (congestion shell) (n_chain shell) (source shell) (n_tags shell) (region shell) (extras shell)).

(** ** Hysteria2 ([hysteria2.rs]) *)
Definition hysteria2_parse (u : Url) (raw_uri : string) : Result ParseError Node :=
  let password := decode_userinfo (u_username u) in
  if is_empty password then Err (PMissingField "password") else
  let? endpoint := url_endpoint "hysteria2" u in
  let query := collect_query u in
  let? tls := build_common_tls query ["insecure"; "skip-cert-verify"] (Some "pinSHA256") in
  let obfuscation := (λ kind, mkObfuscation kind (query !! "obfs-password")) <$> query !! "obfs" in
  let? up_bps := traverse parse_bandwidth (query !! "up") in
  let? down_bps := traverse parse_bandwidth (query !! "down") in
  let controller := parse_controller <$> query !! "congestion-controller" in
  let congestion :=
    match up_bps, down_bps, controller with
    | None, None, None => None
    | _, _, _ => Some (mkCongestion (default Bbr controller) up_bps down_bps)
    end in
  let? hop_interval := traverse parse_duration_secs (query !! "hop_interval") in
  let? fast_open := traverse parse_bool (query !! "fast-open") in
  let? lazy := traverse parse_bool (query !! "lazy") in
  let shell := node_shell id now (Some raw_uri) in
  Ok (mkNode (n_id shell) (decode_fragment u) Hysteria2
    (CHysteria2 (mkHysteria2 (query !! "ports") hop_interval fast_open lazy)) endpoint
    (AuthPassword password) (transport shell) (Some (default default_tls_enabled tls))
    (udp shell) (multiplex shell) obfuscation congestion (n_chain shell)
    (source shell) (n_tags shell) (region shell) (extras shell)).

(** ** NaiveProxy ([naive.rs]) *)
Definition naive_parse (u : Url) (raw_uri : string) : Result ParseError Node :=
  let username := decode_userinfo (u_username u) in
  if is_empty username then Err (PMissingField "username") else
  let? raw_password := ok_or (u_password u) (PMissingField "password") in
  let? endpoint := url_endpoint "naive" u in
  let query := collect_query u in
  let? tls :=
    (if String.eqb (u_scheme u) "naive+https"
     then let? t := build_common_tls query ["skip-cert-verify"; "insecure"] (Some "pinSHA256") in
          Ok (Some (default default_tls_enabled t))
     else Ok None) in
  let? quic := traverse parse_bool (query !! "quic") in
  let? http2 := traverse parse_bool (query !! "http2") in
  let? http3 := traverse parse_bool (query !! "http3") in
  let shell := node_shell id now (Some raw_uri) in
  Ok (mkNode (n_id shell) (decode_fragment u) NaiveProxy
    (CNaiveProxy (mkNaive quic http2 http3)) endpoint
    (AuthUserPassword username (decode_userinfo raw_password)) (transport shell) tls
    (udp shell) (multiplex shell) (obfuscation shell) (congestion shell) (n_chain shell)
    (source shell) (n_tags shell) (region shell) (extras shell)).

(** ** TUIC v5 ([tuic_v5.rs]) *)
Definition parse_udp_relay_mode (v : string) : Result ParseError UdpRelayMode :=
  if String.eqb v "native" then Ok UrmNative
  else if String.eqb v "quic" then Ok UrmQuic
  else Err (PInvalidField "udp-relay-mode" v).

Definition tuic_parse (u : Url) (raw_uri : string) : Result ParseError Node :=
  let uuid := decode_userinfo (u_username u) in
  if is_empty uuid then Err (PMissingField "uuid") else
  let? raw_password := ok_or (u_password u) (PMissingField "password") in
  let? endpoint := url_endpoint "tuic" u in
  let query := collect_query u in
  let? tls := build_common_tls query ["skip-cert-verify"; "insecure"] None in
  let congestion :=
    (λ v, mkCongestion (parse_controller v) None None) <$> query !! "congestion-controller" in
  let? udp_relay_mode := traverse parse_udp_relay_mode (query !! "udp-relay-mode") in
  let? zero_rtt_handshake := traverse parse_bool (query !! "zero-rtt-handshake") in
  let? heartbeat := traverse parse_duration_millis (query !! "heartbeat") in
  let? disable_sni := traverse parse_bool (query !! "disable-sni") in
  let shell := node_shell id now (Some raw_uri) in
  Ok (mkNode (n_id shell) (decode_fragment u) TuicV5
    (CTuicV5 (mkTuicV5 udp_relay_mode zero_rtt_handshake heartbeat disable_sni)) endpoint
    (AuthUuidPassword uuid (decode_userinfo raw_password)) (transport shell)
    (Some (default default_tls_enabled tls)) (udp shell) (multiplex shell) (obfuscation shell)
    congestion (n_chain shell) (source shell) (n_tags shell) (region shell) (extras shell)).

(** ** VLESS ([vless_reality.rs]) *)
Definition vless_build_tls (query : Query) (is_reality : bool) : Result ParseError (option TlsConfig) :=
  let has k := bool_decide (is_Some (query !! k)) in
  if is_reality || has "sni" || has "allowInsecure" || has "fp" || has "alpn"
  then
    let? skip := query_insecure query ["allowInsecure"] in
    let? reality :=
      (if is_reality
       then let? pbk := ok_or (query !! "pbk") (PMissingField "pbk (reality public key)") in
            let? sid := ok_or (query !! "sid") (PMissingField "sid (reality short id)") in
            Ok (Some (mkReality pbk sid (query !! "spx")))
       else Ok None) in
    Ok (Some (mkTls true (query !! "sni") skip (default [] (parse_alpn <$> query !! "alpn"))
      (query !! "fp") [] reality))
  else Ok None.

Definition vless_parse (u : Url) (raw_uri : string) : Result ParseError Node :=
  let uuid := decode_userinfo (u_username u) in
  if is_empty uuid then Err (PMissingField "uuid") else
  let? endpoint := url_endpoint "vless" u in
  let query := collect_query u in
  let security := default "" (query !! "security") in
  let is_reality := String.eqb security "reality" in
  let? kind := traverse map_transport_kind (query !! "type") in
  let kind := default Tcp kind in
  let? tls := vless_build_tls query is_reality in
  let config :=
    if is_reality
    then CVlessReality (mkVlessReality (query !! "encryption") (query !! "flow") (query !! "packetEncoding"))
    else CUnsupported (mkUnsupported (JString raw_uri) (Some "vless-uri")
           ("VLESS with security=" +:+ security +:+ " is not P0 (Reality only)")) in
  let? supported := traverse parse_bool (query !! "udp") in
  let? xudp := traverse parse_bool (query !! "xudp") in
  let shell := node_shell id now (Some raw_uri) in
  Ok (mkNode (n_id shell) (decode_fragment u) Vless config endpoint (AuthUuid uuid)
    (Some (parse_transport query kind)) tls (mkUdp supported xudp) (multiplex shell)
    (obfuscation shell) (congestion shell) (n_chain shell) (source shell) (n_tags shell)
    (region shell) (extras shell)).

(** ** Snell ([snell.rs]) *)
Definition snell_parse_obfs (query : Query) : Result ParseError (option SnellObfs) :=
  match query !! "obfs" with
  | None => Ok None
  | Some mode_str =>
      let? mode :=
        (if String.eqb mode_str "http" then Ok ObfsHttp
         else if String.eqb mode_str "tls" then Ok ObfsTls
         else Err (PInvalidField "obfs" mode_str)) in
      Ok (Some (mkSnellObfs mode (query !! "obfs-host") None None
        (default [] (parse_alpn <$> query !! "alpn"))))
  end.

Definition snell_obfs_tls (obfs : option SnellObfs) : option TlsConfig :=
  match obfs with
  | Some o =>
      if bool_decide (so_mode o = ObfsTls)
      then Some (mkTls true (so_host o) None (so_alpn o) None [] None) else None
  | None => None
  end.

Definition snell_parse (u : Url) (raw_uri : string) : Result ParseError Node :=
  let userinfo_psk := decode_userinfo (u_username u) in
  let query := collect_query u in
  let? psk :=
    (if is_empty userinfo_psk
     then match query !! "psk" with
          | Some p => if is_empty p then Err (PMissingField "psk") else Ok p
          | None => Err (PMissingField "psk")
          end
     else Ok userinfo_psk) in
  let? endpoint := url_endpoint "snell" u in
  let? v := ok_or (query !! "version") (PMissingField "version") in
  let? n := ok_or (parse_unsigned u32_max v) (PInvalidField "version" v) in
  let? version := ok_or (snell_from_u32 n) (PInvalidField "version" v) in
  let? reuse := traverse parse_bool (query !! "reuse") in
  let? supported := traverse parse_bool (query !! "udp") in
  let? obfs := snell_parse_obfs query in
  let shell := node_shell id now (Some raw_uri) in
  Ok (mkNode (n_id shell) (decode_fragment u) Snell (CSnell (mkSnell version reuse obfs None))
    endpoint (AuthPassword psk) (transport shell) (snell_obfs_tls obfs) (mkUdp supported None)
    (multiplex shell) (obfuscation shell) (congestion shell) (n_chain shell) (source shell)
    (n_tags shell) (region shell) (extras shell)).

(** ** ShadowTLS ([shadowtls.rs]) *)
Definition shadowtls_parse (u : Url) (raw_uri : string) : Result ParseError Node :=
  let password := decode_userinfo (u_username u) in
  let? endpoint := url_endpoint "shadow-tls" u in
  let query := collect_query u in
  let? v := ok_or (query !! "version") (PMissingField "version") in
  let? n := ok_or (parse_unsigned u32_max v) (PInvalidField "version" v) in
  let? version := ok_or (shadowtls_from_u32 n) (PInvalidField "version" (pretty n)) in
  let? password :=
    (if is_empty password
     then match version with StV1 => Ok None | _ => Err (PMissingField "password") end
     else Ok (Some password)) in
  let? insecure := query_insecure query ["insecure"] in
  let shell := node_shell id now (Some raw_uri) in
  Ok (mkNode (n_id shell) (decode_fragment u) ShadowTls
    (CShadowTls version password (Unknown "")
      (CUnsupported (mkUnsupported JNull None "shadow-tls URI: inner protocol not representable")))
    endpoint AuthNone (transport shell)
    (Some (mkTls true (query !! "sni") insecure [] None [] None)) (udp shell) (multiplex shell)
    (obfuscation shell) (congestion shell) (n_chain shell) (source shell) (n_tags shell)
    (region shell) (extras shell)).

(** ** WireGuard ([wireguard.rs]) *)
Definition parse_u8 (value part : string) : Result ParseError N :=
  ok_or (parse_unsigned 255 (trim part)) (PInvalidField "reserved" value).

Definition parse_reserved (value : string) : Result ParseError (N * N * N) :=
  match split "," value with
  | [a; b; c] =>
      let? a := parse_u8 value a in
      let? b := parse_u8 value b in
      let? c := parse_u8 value c in
      Ok (a, b, c)
  | _ => Err (PInvalidField "reserved" value)
  end.

Definition wireguard_parse (u : Url) (raw_uri : string) : Result ParseError Node :=
  let private_key := decode_userinfo (u_username u) in
  if is_empty private_key then Err (PMissingField "private-key") else
  let? endpoint := url_endpoint "wireguard" u in
  let query := collect_query u in
  let? public_key := ok_or (query !! "publickey") (PMissingField "publickey") in
  let? address_str := ok_or (query !! "address") (PMissingField "address") in
  let? reserved := traverse parse_reserved (query !! "reserved") in
  let? mtu := traverse (λ v, ok_or (parse_unsigned u32_max v) (PInvalidField "mtu" v)) (query !! "mtu") in
  let? keepalive := traverse parse_duration_secs (query !! "keepalive") in
  let allowed_ips := default ["0.0.0.0/0"; "::/0"] (parse_alpn <$> query !! "allowedips") in
  let peer := mkWireGuardPeer public_key (query !! "presharedkey") allowed_ips reserved keepalive in
  let shell := node_shell id now (Some raw_uri) in
  Ok (mkNode (n_id shell) (decode_fragment u) WireGuard
    (CWireGuard (mkWireGuard private_key (parse_alpn address_str) [peer] mtu None []))
    endpoint AuthNone (transport shell) (tls shell) (udp shell) (multiplex shell)
    (obfuscation shell) (congestion shell) (n_chain shell) (source shell) (n_tags shell)
    (region shell) (extras shell)).

(** ** Shadowsocks ([shadowsocks.rs]) *)

(** Split at the first separator, keeping the whole text without one. *)
Definition split_opt (c : ascii) (s : string) : string * option string :=
  match split_once c s with Some (a, b) => (a, Some b) | None => (s, None) end.

Definition ss_userinfo (userinfo : string) : Result ParseError (string * string) :=
  let? (decoded_str, plain) :=
    (match decode_base64_flexible userinfo with
     | Ok bytes => let? t := map_err InvalidBase64 (from_utf8 bytes) in Ok (t, false)
     | Err _ => if contains_char ":" userinfo then Ok (userinfo, true) else Err (InvalidBase64 userinfo)
     end) in
  let? (method, password) :=
    ok_or (split_once ":" decoded_str) (PMissingField "method:password in userinfo") in
  Ok (if (plain : bool) then (decode_userinfo method, decode_userinfo password) else (method, password)).

Definition ss_authority (authority : string) : Result ParseError (string * string * (Host * N)) :=
  match split_once "@" authority with
  | Some (userinfo, host_port_path) =>
      let host_port := (split_opt "/" host_port_path).1 in
      let? credentials := ss_userinfo userinfo in
      let? host_port := parse_host_port host_port in
      Ok (credentials, host_port)
  | None =>
      let? decoded := decode_base64_flexible authority in
      let? decoded_str := map_err InvalidBase64 (from_utf8 decoded) in
      let? (userinfo, host_port) :=
        ok_or (split_once "@" decoded_str) (PMissingField "method:password@host:port in legacy base64") in
      let? credentials := ok_or (split_once ":" userinfo) (PMissingField "method:password") in
      let? host_port := parse_host_port host_port in
      Ok (credentials, host_port)
  end.

Definition ss_plugin_of (query : option string) : option string * option string :=
  match query with
  | Some q =>
      match find (λ kv, String.eqb kv.1 "plugin") (form_urlencoded q) with
      | Some (_, p) => let '(name, opts) := split_opt ";" p in (Some name, opts)
      | None => (None, None)
      end
  | None => (None, None)
  end.

Definition shadowsocks_parse (uri : string) : Result ParseError Node :=
  let '(body, fragment) := split_opt "#" uri in
  let? after_scheme := ok_or (strip_prefix "ss://" body) (UnknownScheme "expected ss://") in
  let '(authority_and_path, query) := split_opt "?" after_scheme in
  let? ((method, password), (host, port)) := ss_authority authority_and_path in
  let '(plugin, plugin_opts) := ss_plugin_of query in
  let shell := node_shell id now (Some uri) in
  Ok (mkNode (n_id shell) (decode_fragment_parts fragment) Shadowsocks
    (CShadowsocks (mkShadowsocks method plugin plugin_opts)) (mkEndpoint host port)
    (AuthPassword password) (transport shell) (tls shell) (udp shell) (multiplex shell)
    (obfuscation shell) (congestion shell) (n_chain shell) (source shell) (n_tags shell)
    (region shell) (extras shell)).

(** ** VMess ([vmess.rs]) *)

(** [VmessJson] *)
Record VmessJson := mkVmessJson {
  vj_v : option string; vj_ps : option string; vj_add : string; vj_port : Json; vj_id : string;
  vj_aid : option Json; vj_scy : option string; vj_net : option string;
  vj_header_type : option string; vj_host : option string; vj_path : option string;
  vj_tls : option string; vj_sni : option string; vj_alpn : option string;
  vj_packet_encoding : option string
}.

Definition vmess_fields : list string :=
  ["v"; "ps"; "add"; "port"; "id"; "aid"; "scy"; "net"; "type"; "host"; "path"; "tls"; "sni";
   "alpn"; "packetEncoding"].

(** The derived [Deserialize]: an optional field may be absent or null, a field
    of the struct may occur once, other members are ignored; a sequence gives
    the fields in order. *)
Definition opt_string_field (v : option Json) : option (option string) :=
  match v with
  | None | Some JNull => Some None
  | Some (JString s) => Some (Some s)
  | Some _ => None
  end.
Definition string_field (v : option Json) : option string :=
  match v with Some (JString s) => Some s | _ => None end.
Definition opt_value_field (v : option Json) : option Json :=
  match v with None | Some JNull => None | Some j => Some j end.

Definition member (fields : list (string * Json)) (k : string) : option Json :=
  snd <$> find (λ kv, String.eqb kv.1 k) fields.

Definition members_once (fields : list (string * Json)) : bool :=
  forallb (λ k, Nat.leb (length (filter (λ kv, kv.1 = k) fields)) 1) vmess_fields.

Definition vmess_of_members (get : string → option Json) : option VmessJson :=
  v ← opt_string_field (get "v");
  ps ← opt_string_field (get "ps");
  add ← string_field (get "add");
  port ← get "port";
  id ← string_field (get "id");
  let aid := opt_value_field (get "aid") in
  scy ← opt_string_field (get "scy");
  net ← opt_string_field (get "net");
  header_type ← opt_string_field (get "type");
  host ← opt_string_field (get "host");
  path ← opt_string_field (get "path");
  tls ← opt_string_field (get "tls");
  sni ← opt_string_field (get "sni");
  alpn ← opt_string_field (get "alpn");
  packet_encoding ← opt_string_field (get "packetEncoding");
  Some (mkVmessJson v ps add port id aid scy net header_type host path tls sni alpn packet_encoding).

Definition vmess_of_json (j : Json) : option VmessJson :=
  match j with
  | JObject fields => if members_once fields then vmess_of_members (member fields) else None
  | JArray items =>
      if Nat.eqb (length items) (length vmess_fields)
      then vmess_of_members (member (zip vmess_fields items)) else None
  | _ => None
  end.

(** [serde_json::Number::as_u64]: the text of a non-negative integer. *)
Definition json_number_u64 (repr : string) : option N :=
  match strip_prefix "+" repr with Some _ => None | None => parse_unsigned u64_max repr end.

(** [json_value_as_u16] and [json_value_as_u32] *)
Definition json_value_as (max : N) (value : Json) (field : string) : Result ParseError N :=
  match value with
  | JString s => ok_or (parse_unsigned max s) (PInvalidField field s)
  | JNumber r =>
      ok_or (n ← json_number_u64 r; if N.leb n max then Some n else None) (PInvalidField field r)
  | _ => Err (PMissingField field)
  end.

Definition non_empty (o : option string) : option string :=
  match o with Some s => if is_empty s then None else Some s | None => None end.

Definition vmess_parse (uri : string) : Result ParseError Node :=
  let? body := ok_or (strip_prefix "vmess://" uri) (UnknownScheme "expected vmess://") in
  let? decoded := decode_base64_flexible body in
  let? json_str := map_err InvalidBase64 (from_utf8 decoded) in
  let? doc := map_err InvalidJson (json_from_str json_str) in
  let? vmess := ok_or (vmess_of_json doc) (InvalidJson (json_data_error doc)) in
  let? port := json_value_as u16_max (vj_port vmess) "port" in
  let? alter_id := traverse (λ v, json_value_as u32_max v "aid") (vj_aid vmess) in
  let? host := parse_host (vj_add vmess) in
  let? kind := traverse map_transport_kind (vj_net vmess) in
  let transport :=
    mkTransport (default Tcp kind) (non_empty (vj_path vmess)) (non_empty (vj_host vmess)) None in
  let tls :=
    (λ t, mkTls (String.eqb t "tls" || String.eqb t "reality" || String.eqb t "xtls")
       (non_empty (vj_sni vmess)) None (default [] (split "," <$> non_empty (vj_alpn vmess)))
       None [] None) <$> non_empty (vj_tls vmess) in
  let extras : gmap string Json :=
    match non_empty (vj_header_type vmess) with
    | Some ht => if String.eqb ht "none" then ∅ else {[ "vmess_header_type" := JString ht ]}
    | None => ∅
    end in
  let shell := node_shell id now (Some uri) in
  Ok (mkNode (n_id shell) (default "" (vj_ps vmess)) VMess
    (CVMess (mkVMess alter_id (non_empty (vj_scy vmess)) (non_empty (vj_packet_encoding vmess))))
    (mkEndpoint host port) (AuthUuid (vj_id vmess)) (Some transport) tls (udp shell)
    (multiplex shell) (obfuscation shell) (congestion shell) (n_chain shell) (source shell)
    (n_tags shell) (region shell) extras).

(** ** The dispatcher *)
Definition parse_uri (uri : string) : Result ParseError Node :=
  if starts_with "ss://" uri then shadowsocks_parse uri
  else if starts_with "vmess://" uri then vmess_parse uri
  else
    let? parsed := map_err InvalidUri (url_parse uri) in
    let scheme := u_scheme parsed in
    if String.eqb scheme "vless" then vless_parse parsed uri
    else if String.eqb scheme "trojan" then trojan_parse parsed uri
    else if String.eqb scheme "hysteria2" || String.eqb scheme "hy2" then hysteria2_parse parsed uri
    else if String.eqb scheme "tuic" then tuic_parse parsed uri
    else if String.eqb scheme "naive+https" || String.eqb scheme "naive+http" then naive_parse parsed uri
    else if String.eqb scheme "wireguard" then wireguard_parse parsed uri
    else if String.eqb scheme "anytls" then anytls_parse parsed uri
    else if String.eqb scheme "snell" then snell_parse parsed uri
    else if String.eqb scheme "shadow-tls" then shadowtls_parse parsed uri
    else Err (UnknownScheme scheme).

End parsers.

(** ** Lists of URIs ([container/uri_list.rs], [base64.rs], [shadowrocket.rs]) *)

Section lists.
Context `{L : UrlLib}.
(** The identifier and instant drawn for the [k]-th entry. *)
Variable draw : nat → NodeId * Z.

(** [MAX_ENTRIES] and [check_entry_count] *)
Definition MAX_ENTRIES : nat := N.to_nat 10000.
Definition check_entry_count (count : nat) : Result ParseError unit :=
  if Nat.ltb MAX_ENTRIES count then Err (TooManyEntries count) else Ok ().

Definition unsupported_entry (id : NodeId) (now : Z) (raw : Json) (raw_format : string)
    (protocol : ProtocolKind) (reason : string) : Node :=
  let shell := node_shell id now None in
  mkNode (n_id shell) (display_name shell) protocol
    (CUnsupported (mkUnsupported raw (Some raw_format) reason)) (endpoint shell)
    (authentication shell) (transport shell) (tls shell) (udp shell) (multiplex shell)
    (obfuscation shell) (congestion shell) (n_chain shell) (source shell) (n_tags shell)
    (region shell) (extras shell).

(** What one line adds. *)
Definition parse_line (k : nat) (trimmed : string) : list Node :=
  let '(id, now) := draw k in
  match parse_uri id now trimmed with
  | Ok node => [node]
  | Err (UnknownScheme scheme) =>
      [unsupported_entry id now (JString trimmed) "uri" (Unknown scheme) "unknown protocol scheme"]
  | Err _ => []
  end.

Definition ignored_line (trimmed : string) : bool := is_empty trimmed || starts_with "#" trimmed.

Fixpoint parse_lines (ls : list string) (entry_count : nat) (nodes : list Node) : Result ParseError (list Node) :=
  match ls with
  | [] => Ok nodes
  | line :: ls =>
      let trimmed := trim line in
      if ignored_line trimmed then parse_lines ls entry_count nodes
      else
        let? _ := check_entry_count (S entry_count) in
        parse_lines ls (S entry_count) (nodes ++ parse_line (S entry_count) trimmed)
  end.

Definition parse_uri_list (text : string) : Result ParseError (list Node) := parse_lines (lines text) 0 [].

Definition parse_base64_subscription (text : string) : Result ParseError (list Node) :=
  let? decoded := decode_base64_flexible (trim text) in
  let? decoded_str := map_err (PInvalidField "base64 body") (from_utf8 decoded) in
  parse_uri_list decoded_str.

Definition parse_shadowrocket (text : string) : Result ParseError (list Node) :=
  let decoded :=
    match base64_decode STANDARD (trim text) with
    | Some b =>
        if utf8_valid b && (contains "://" b || forallb is_empty (lines b)) then Some b else None
    | None => None
    end in
  parse_uri_list (default text decoded).

End lists.

End UriParse.
