(* ===== verification/UriEmit.v ===== *)
(** * Share-URI emitters ([crates/deve-sub-emitter/src])

    [common.rs] (the percent-encode sets and the formatting helpers),
    [transport.rs], [error.rs], [uri.rs], [uri_list.rs] and one emitter per
    protocol. *)

From Stdlib Require Import Ascii.
From stdpp Require Import pretty.
From S2P Require Import Prelude Kernel Node Text Ip UrlText.
Import Text Ip UrlText.

Module UriEmit.

(** [EmitError] *)
Inductive EmitError :=
  | NoEmitter (text : string)
  | EMissingField (field : string)
  | EInvalidField (field value : string)
  | EncodeError (text : string).

(** ** Percent-encode sets ([common.rs]) *)

(** [percent_encoding::CONTROLS] *)
Definition CONTROLS : AsciiSet := λ c, in_range 0 31 c || N.eqb (code c) 127.

(** A set extended with characters; the quotation mark is byte 34. *)
Definition add_all (base : AsciiSet) (text : string) : AsciiSet :=
  λ c, base c || one_of text c || N.eqb (code c) 34.

Definition USERINFO_ENCODE : AsciiSet := add_all CONTROLS " <>`#&?/@:[]%".
Definition FRAGMENT_ENCODE : AsciiSet := add_all CONTROLS " <>`#&?%".
Definition QUERY_VALUE_ENCODE : AsciiSet := add_all CONTROLS " <>`#&+=%".

(** ** Formatting *)

(** [Vec<(String, String)>] built by conditional pushes. *)
Definition Params : Type := list (string * string).
Definition param (k v : string) : Params := [(k, v)].
Definition param_opt {A} (k : string) (show : A → string) (o : option A) : Params :=
  match o with Some a => [(k, show a)] | None => [] end.
Definition param_list (k : string) (show : list string → string) (l : list string) : Params :=
  match l with [] => [] | _ => [(k, show l)] end.

Definition flag (b : bool) : string := if b then "1" else "0".
Definition comma : list string → string := join ",".

(** [format_pins] *)
Definition strip_pin (pin : string) : string := default pin (strip_prefix "pinSHA256:" pin).
Definition format_pins (pins : list string) : string := comma (strip_pin <$> pins).

(** [format_bandwidth] *)
Definition format_bandwidth (bps : N) : string :=
  let per u := N.leb u bps && N.eqb (bps mod u) 0 in
  if per 1000000000%N then pretty (bps / 1000000000)%N +:+ " Gbps"
  else if per 1000000%N then pretty (bps / 1000000)%N +:+ " Mbps"
  else if per 1000%N then pretty (bps / 1000)%N +:+ " Kbps"
  else pretty bps +:+ " bps".

(** [transport_kind_str] *)
Definition transport_kind_str (kind : TransportKind) : string :=
  match kind with
  | Tcp => "tcp" | Kcp => "kcp" | Ws => "ws" | H2 => "h2" | Quic => "quic" | Grpc => "grpc"
  | HttpUpgrade => "httpupgrade" | Xtls => "xtls" | Xhttp => "xhttp"
  end.

(** [whole_seconds] and [whole_milliseconds] of a duration, pushed unless
    negative. *)
Definition param_duration (k : string) (unit : Z) (o : option Z) : Params :=
  match o with
  | Some d => let n := Z.quot d unit in if Z.leb 0 n then [(k, pretty n)] else []
  | None => []
  end.

Definition controller_name (c : CongestionController) : string :=
  match c with Bbr => "bbr" | Cubic => "cubic" | NewReno => "new_reno" | OtherController name => name end.

(** The TLS parameters most emitters start with. *)
Definition tls_params (insecure_key : string) (t : TlsConfig) : Params :=
  param_opt "sni" id (server_name t) ++ param_list "alpn" comma (alpn t)
  ++ param_opt insecure_key flag (skip_cert_verify t).

Definition on_some {A} (o : option A) (f : A → Params) : Params :=
  match o with Some a => f a | None => [] end.

Definition transport_params (t : Transport) : Params :=
  param_opt "path" id (tr_path t) ++ param_opt "host" id (tr_host t)
  ++ param_opt "mode" xhttp_as_str (tr_xhttp_mode t).

Section emitters.
Context `{L : UrlLib}.

Definition encode_userinfo (s : string) : string := percent_encode USERINFO_ENCODE s.
Definition format_query (params : Params) : string :=
  join "&" ((λ kv, kv.1 +:+ "=" +:+ percent_encode QUERY_VALUE_ENCODE kv.2) <$> params).
Definition format_fragment (name : string) : string := percent_encode FRAGMENT_ENCODE name.

(** [#name], when there is a name *)
Definition fragment_suffix (node : Node) : string :=
  if is_empty (display_name node) then "" else "#" +:+ format_fragment (display_name node).

Definition host_port (node : Node) : string :=
  uri_host (host (endpoint node)) +:+ ":" +:+ pretty (port (endpoint node)).

(** [format!("{scheme}://{credentials}@{host}:{port}?{query}")]; some emitters
    leave an empty query out. *)
Definition uri_with (scheme credentials : string) (node : Node) (query : option string) : string :=
  scheme +:+ "://" +:+ credentials +:+ "@" +:+ host_port node
  +:+ match query with Some q => "?" +:+ q | None => "" end
  +:+ fragment_suffix node.

Definition unless_empty (q : string) : option string := if is_empty q then None else Some q.

(** ** Trojan *)
Definition trojan_params (node : Node) (packet_encoding : option string) : Params :=
  on_some (tls node) (tls_params "skip-cert-verify")
  ++ param "type" (transport_kind_str (default Tcp (tr_kind <$> transport node)))
  ++ on_some (transport node) transport_params
  ++ param_opt "packetEncoding" id packet_encoding.

Definition trojan_emit (node : Node) : Result EmitError string :=
  let? password :=
    (match authentication node with
     | AuthPassword p => Ok p | _ => Err (EMissingField "password authentication") end) in
  let? cfg :=
    (match config node with CTrojan c => Ok c | _ => Err (NoEmitter "non-Trojan config") end) in
  let query := format_query (trojan_params node (trojan_packet_encoding cfg)) in
  Ok (uri_with "trojan" (encode_userinfo password) node (Some query)).

(** ** AnyTLS *)
Definition anytls_params (node : Node) : Params :=
  on_some (tls node) (λ t, tls_params "insecure" t ++ param_opt "fp" id (client_fingerprint t)).

Definition anytls_emit (node : Node) : Result EmitError string :=
  let? password :=
    (match authentication node with
     | AuthPassword p => Ok p | _ => Err (EMissingField "anytls password authentication") end) in
  let? _ :=
    (match config node with CAnyTls c => Ok c | _ => Err (NoEmitter "non-AnyTLS config") end) in
  let params := anytls_params node in
  let query := match params with [] => None | _ => Some (format_query params) end in
  Ok (uri_with "anytls" (encode_userinfo password) node query).

(** ** Hysteria2 *)
Definition non_bbr_name (c : CongestionController) : option string :=
  match c with Bbr => None | c => Some (controller_name c) end.

Definition hysteria2_params (node : Node) (cfg : Hysteria2Config) : Params :=
  on_some (tls node) (λ t, tls_params "insecure" t ++ param_list "pinSHA256" format_pins (certificate_pins t))
  ++ on_some (obfuscation node) (λ o,
       param "obfs" (obfs_kind o) ++ param_opt "obfs-password" id (obfs_password o))
  ++ on_some (congestion node) (λ c,
       param_opt "up" format_bandwidth (cc_up_bps c) ++ param_opt "down" format_bandwidth (cc_down_bps c)
       ++ param_opt "congestion-controller" id (non_bbr_name (cc_controller c)))
  ++ param_opt "ports" id (hy2_ports cfg)
  ++ param_duration "hop_interval" 1000000000 (hy2_hop_interval cfg)
  ++ param_opt "fast-open" flag (hy2_fast_open cfg)
  ++ param_opt "lazy" flag (hy2_lazy cfg).

Definition hysteria2_emit (node : Node) : Result EmitError string :=
  let? password :=
    (match authentication node with
     | AuthPassword p => Ok p | _ => Err (EMissingField "password authentication") end) in
  let? cfg :=
    (match config node with CHysteria2 c => Ok c | _ => Err (NoEmitter "non-Hysteria2 config") end) in
  let query := format_query (hysteria2_params node cfg) in
  Ok (uri_with "hysteria2" (encode_userinfo password) node (unless_empty query)).

(** ** NaiveProxy *)
Definition naive_params (node : Node) (cfg : NaiveProxyConfig) : Params :=
  on_some (tls node) (λ t,
    tls_params "skip-cert-verify" t ++ param_list "pinSHA256" format_pins (certificate_pins t))
  ++ param_opt "quic" flag (naive_quic cfg) ++ param_opt "http2" flag (naive_http2 cfg)
  ++ param_opt "http3" flag (naive_http3 cfg).

Definition naive_emit (node : Node) : Result EmitError string :=
  let? (username, password) :=
    (match authentication node with
     | AuthUserPassword u p => Ok (u, p) | _ => Err (EMissingField "user+password authentication") end) in
  let? cfg :=
    (match config node with CNaiveProxy c => Ok c | _ => Err (NoEmitter "non-NaiveProxy config") end) in
  let scheme := match tls node with Some _ => "naive+https" | None => "naive+http" end in
  let query := format_query (naive_params node cfg) in
  Ok (uri_with scheme (encode_userinfo username +:+ ":" +:+ encode_userinfo password) node
        (unless_empty query)).

(** ** TUIC v5 *)
Definition udp_relay_str (m : UdpRelayMode) : string :=
  match m with UrmNative => "native" | UrmQuic => "quic" end.

Definition tuic_params (node : Node) (cfg : TuicV5Config) : Params :=
  on_some (tls node) (tls_params "skip-cert-verify")
  ++ on_some (congestion node) (λ c, param "congestion-controller" (controller_name (cc_controller c)))
  ++ param_opt "udp-relay-mode" udp_relay_str (tuic_udp_relay_mode cfg)
  ++ param_opt "zero-rtt-handshake" flag (tuic_zero_rtt_handshake cfg)
  ++ param_duration "heartbeat" 1000000 (tuic_heartbeat cfg)
  ++ param_opt "disable-sni" flag (tuic_disable_sni cfg).

Definition tuic_emit (node : Node) : Result EmitError string :=
  let? (uuid, password) :=
    (match authentication node with
     | AuthUuidPassword u p => Ok (u, p) | _ => Err (EMissingField "uuid+password authentication") end) in
  let? cfg :=
    (match config node with CTuicV5 c => Ok c | _ => Err (NoEmitter "non-TUIC config") end) in
  let query := format_query (tuic_params node cfg) in
  Ok (uri_with "tuic" (encode_userinfo uuid +:+ ":" +:+ encode_userinfo password) node (Some query)).

(** ** VLESS Reality *)
Definition true_false (b : bool) : string := if b then "true" else "false".

Definition vless_params (node : Node) (t : TlsConfig) (r : RealityConfig) (cfg : VlessRealityConfig) : Params :=
  param "security" "reality"
  ++ param "type" (transport_kind_str (default Tcp (tr_kind <$> transport node)))
  ++ param_opt "allowInsecure" flag (skip_cert_verify t)
  ++ param_opt "sni" id (server_name t) ++ param_opt "fp" id (client_fingerprint t)
  ++ param_opt "flow" id (vless_flow cfg)
  ++ param "sid" (short_id r) ++ param "pbk" (public_key r)
  ++ param_opt "encryption" id (vless_encryption cfg)
  ++ param_opt "packetEncoding" id (vless_packet_encoding cfg)
  ++ param_opt "udp" true_false (udp_supported (udp node)) ++ param_opt "xudp" true_false (udp_xudp (udp node))
  ++ param_opt "spx" id (spider_x r)
  ++ on_some (transport node) transport_params
  ++ param_list "alpn" comma (alpn t).

Definition vless_emit (node : Node) : Result EmitError string :=
  let? uuid :=
    (match authentication node with
     | AuthUuid u => Ok u | _ => Err (EMissingField "uuid authentication") end) in
  let? cfg :=
    (match config node with
     | CVlessReality c => Ok c
     | CUnsupported _ => Err (NoEmitter "VLESS non-Reality")
     | _ => Err (NoEmitter "non-VLESS config")
     end) in
  let? (t, r) :=
    (match tls node with
     | Some t => match reality t with Some r => Ok (t, r) | None => Err (EMissingField "tls.reality") end
     | None => Err (EMissingField "tls.reality")
     end) in
  let query := format_query (vless_params node t r cfg) in
  Ok (uri_with "vless" (encode_userinfo uuid) node (Some query)).

(** ** Snell *)
Definition snell_obfs_params (o : SnellObfs) : Result EmitError Params :=
  let? mode :=
    (match so_mode o with
     | ObfsHttp => Ok "http" | ObfsTls => Ok "tls"
     | ObfsShadowTls => Err (NoEmitter "snell obfs mode ShadowTls has no URI representation")
     | ObfsRestls => Err (NoEmitter "snell obfs mode Restls has no URI representation")
     | ObfsJls => Err (NoEmitter "snell obfs mode Jls has no URI representation")
     end) in
  Ok (param "obfs" mode ++ param_opt "obfs-host" id (so_host o) ++ param_list "alpn" comma (so_alpn o)).

Definition snell_unrepresentable (node : Node) (cfg : SnellConfig) : bool :=
  bool_decide (is_Some (sn_v6_mode cfg)) || bool_decide (is_Some (extras node !! "snell_userkey"))
  || negb (tls_is_obfs_alias cfg (tls node))
  || match sn_obfs cfg with
     | Some o => bool_decide (is_Some (so_password o)) || bool_decide (is_Some (so_version o))
     | None => false
     end.

Definition snell_emit (node : Node) : Result EmitError string :=
  let? psk :=
    (match authentication node with
     | AuthPassword p => Ok p | _ => Err (EMissingField "snell psk (password) authentication") end) in
  let? cfg :=
    (match config node with CSnell c => Ok c | _ => Err (NoEmitter "non-Snell config") end) in
  if snell_unrepresentable node cfg then Err (NoEmitter "Snell options without URI representation") else
  let? obfs := (match sn_obfs cfg with Some o => snell_obfs_params o | None => Ok [] end) in
  let params :=
    param "version" (pretty (snell_as_u32 (sn_version cfg)))
    ++ param_opt "udp" flag (udp_supported (udp node)) ++ param_opt "reuse" flag (sn_reuse cfg) ++ obfs in
  Ok (uri_with "snell" (encode_userinfo psk) node (Some (format_query params))).

(** ** ShadowTLS *)
Definition shadowtls_unrepresentable (node : Node) : bool :=
  match tls node with
  | Some t =>
      negb (tls_enabled t) || negb (bool_decide (alpn t = []))
      || bool_decide (is_Some (client_fingerprint t)) || negb (bool_decide (certificate_pins t = []))
      || bool_decide (is_Some (reality t))
  | None => false
  end
  || bool_decide (is_Some (transport node))
  || match authentication node with AuthNone => false | _ => true end.

Definition shadowtls_emit (node : Node) : Result EmitError string :=
  let? (version, password, inner_protocol) :=
    (match config node with
     | CShadowTls v p k _ => Ok (v, p, k) | _ => Err (NoEmitter "non-ShadowTls config") end) in
  match inner_protocol with
  | Unknown _ =>
      if shadowtls_unrepresentable node
      then Err (NoEmitter "ShadowTLS wrapper options without URI representation")
      else
        let params :=
          param "version" (pretty (shadowtls_as_u32 version))
          ++ on_some (tls node) (λ t,
               param_opt "sni" id (server_name t) ++ param_opt "insecure" flag (skip_cert_verify t)) in
        Ok (uri_with "shadow-tls" (encode_userinfo (default "" password)) node
              (Some (format_query params)))
  | _ => Err (NoEmitter "ShadowTLS URI cannot preserve the inner protocol and authentication")
  end.

(** ** WireGuard *)
Definition show_reserved (r : N * N * N) : string :=
  let '(a, b, c) := r in pretty a +:+ "," +:+ pretty b +:+ "," +:+ pretty c.

Definition wireguard_params (cfg : WireGuardConfig) (peer : WireGuardPeer) : Params :=
  param "publickey" (wgp_public_key peer)
  ++ param_list "address" comma (wg_address cfg)
  ++ param_opt "presharedkey" id (wgp_pre_shared_key peer)
  ++ param_opt "reserved" show_reserved (wgp_reserved peer)
  ++ param_opt "mtu" pretty (wg_mtu cfg)
  ++ param_duration "keepalive" 1000000000 (persistent_keepalive peer).

Definition wireguard_emit (node : Node) : Result EmitError string :=
  let? _ :=
    (match authentication node with
     | AuthNone => Ok () | _ => Err (EMissingField "wireguard uses no authentication") end) in
  let? cfg :=
    (match config node with CWireGuard c => Ok c | _ => Err (NoEmitter "non-WireGuard config") end) in
  let? peer := ok_or (head (wg_peers cfg)) (EMissingField "wireguard peer") in
  let query := format_query (wireguard_params cfg peer) in
  Ok (uri_with "wireguard" (encode_userinfo (wg_private_key cfg)) node (Some query)).

(** ** Shadowsocks *)
Definition ss_plugin_value (name : string) (opts : option string) : string :=
  match opts with Some o => name +:+ ";" +:+ o | None => name end.

Definition shadowsocks_emit (node : Node) : Result EmitError string :=
  let? password :=
    (match authentication node with
     | AuthPassword p => Ok p | _ => Err (EMissingField "password authentication") end) in
  let? cfg :=
    (match config node with CShadowsocks c => Ok c | _ => Err (NoEmitter "non-Shadowsocks config") end) in
  let userinfo := base64_encode URL_SAFE_NO_PAD (ss_method cfg +:+ ":" +:+ password) in
  let plugin :=
    match ss_plugin cfg with
    | Some name =>
        "/?plugin=" +:+ percent_encode QUERY_VALUE_ENCODE (ss_plugin_value name (ss_plugin_opts cfg))
    | None => ""
    end in
  Ok ("ss://" +:+ userinfo +:+ "@" +:+ host_port node +:+ plugin +:+ fragment_suffix node).

(** ** VMess *)
Definition host_to_string (h : Host) : string :=
  match h with Ipv4 o => ipv4_display o | Ipv6 s => ipv6_display s | Domain d => d end.

Definition vmess_header (node : Node) : string :=
  match extras node !! "vmess_header_type" with Some (JString s) => s | _ => "none" end.

(** The members of the emitted object, all strings. *)
Definition vmess_members (node : Node) (uuid : string) (cfg : VMessConfig) : Params :=
  let tls_str := match tls node with Some t => if tls_enabled t then "tls" else "" | None => "" end in
  [("v", "2"); ("ps", display_name node); ("add", host_to_string (host (endpoint node)));
   ("port", pretty (port (endpoint node))); ("id", uuid);
   ("aid", pretty (default 0%N (vmess_alter_id cfg)));
   ("scy", default "auto" (vmess_security cfg));
   ("net", transport_kind_str (default Tcp (tr_kind <$> transport node)));
   ("type", vmess_header node);
   ("host", default "" (transport node ≫= tr_host)); ("path", default "" (transport node ≫= tr_path));
   ("tls", tls_str); ("sni", default "" (tls node ≫= server_name));
   ("alpn", default "" ((λ t, comma (alpn t)) <$> tls node));
   ("packetEncoding", default "" (vmess_packet_encoding cfg))].

Definition vmess_emit (node : Node) : Result EmitError string :=
  let? uuid :=
    (match authentication node with
     | AuthUuid u => Ok u | _ => Err (EMissingField "uuid authentication") end) in
  let? cfg :=
    (match config node with CVMess c => Ok c | _ => Err (NoEmitter "non-VMess config") end) in
  let json_body := JObject (prod_map id JString <$> vmess_members node uuid cfg) in
  Ok ("vmess://" +:+ base64_encode STANDARD (json_to_string json_body)).

(** ** The dispatcher ([uri.rs]) and URI lists ([uri_list.rs]) *)
Definition emit_uri (node : Node) : Result EmitError string :=
  match protocol node with
  | Vless => vless_emit node
  | Trojan => trojan_emit node
  | Hysteria2 => hysteria2_emit node
  | TuicV5 => tuic_emit node
  | NaiveProxy => naive_emit node
  | Shadowsocks => shadowsocks_emit node
  | VMess => vmess_emit node
  | WireGuard => wireguard_emit node
  | AnyTls => anytls_emit node
  | Snell => snell_emit node
  | ShadowTls => shadowtls_emit node
  | other => Err (NoEmitter (protocol_display other))
  end.

Fixpoint emit_lines (nodes : list Node) : Result EmitError (list string) :=
  match nodes with
  | [] => Ok []
  | node :: nodes =>
      match emit_uri node with
      | Ok uri => let? rest := emit_lines nodes in Ok (uri :: rest)
      | Err (NoEmitter _) => emit_lines nodes
      | Err e => Err e
      end
  end.

Definition emit_uri_list (nodes : list Node) : Result EmitError string :=
  let? uris := emit_lines nodes in Ok (join (String "010" "") uris).

End emitters.

End UriEmit.
