(* ===== verification/UriRoundtrip.v ===== *)
(** * Share URIs round trip

    The emitters of [UriEmit] against the parsers of [UriParse], for any
    crates that meet the contract of [UrlText]: a canonical node is emitted,
    and what is emitted parses back to it, fresh identity and provenance
    aside; every parsed node can be emitted again; and no node, however hostile
    its fields, writes a second line into a list of URIs. *)

From Stdlib Require Import Ascii.
From stdpp Require Import pretty.
From S2P Require Import Prelude Kernel Node Text Ip UrlText Float64 UriParse UriEmit UrlInstance.
Import Text Ip UrlText UriParse UriEmit.

#[local] Arguments String.append !_ _ / : simpl nomatch.

Module UriRoundtrip.

(** ** Query parameters *)

(** The value a key has at the end. *)
Definition plookup (l : Params) (k : string) : option string :=
  foldr (λ kv acc, match acc with
                   | Some v => Some v
                   | None => if String.eqb kv.1 k then Some kv.2 else None
                   end) None l.

Lemma plookup_app a b k :
  plookup (a ++ b) k = match plookup b k with Some v => Some v | None => plookup a k end.
Proof.
  induction a as [|kv a IH]; simpl; [by destruct (plookup b k)|].
  rewrite IH. by destruct (plookup b k).
Qed.

Lemma collect_lookup l k : collect l !! k = plookup l k.
Proof.
  unfold collect, Query. induction l as [|[k' v] l IH] using rev_ind; [apply lookup_empty|].
  rewrite foldl_app, plookup_app. cbn [foldl plookup foldr fst snd].
  destruct (String.eqb_spec k' k) as [->|Hne].
  - by rewrite lookup_insert_eq.
  - by rewrite lookup_insert_ne, IH by done.
Qed.

Lemma plookup_param k v k' : plookup (param k v) k' = if String.eqb k k' then Some v else None.
Proof. done. Qed.

Lemma plookup_opt {A} k (show : A → string) o k' :
  plookup (param_opt k show o) k' = if String.eqb k k' then show <$> o else None.
Proof. destruct o; simpl; [done|]. by destruct (String.eqb k k'). Qed.

Lemma plookup_list k show l k' :
  plookup (param_list k show l) k'
  = if String.eqb k k' then match l with [] => None | _ => Some (show l) end else None.
Proof. destruct l; simpl; [|done]. by destruct (String.eqb k k'). Qed.

Lemma plookup_duration k unit o k' :
  plookup (param_duration k unit o) k'
  = if String.eqb k k'
    then match o with Some d => if Z.leb 0 (Z.quot d unit) then Some (pretty (Z.quot d unit)) else None | None => None end
    else None.
Proof.
  unfold param_duration. destruct o as [d|]; [|by destruct (String.eqb k k')].
  cbv zeta. by destruct (Z.leb 0 (Z.quot d unit)); destruct (String.eqb k k') eqn:E; simpl; rewrite ?E.
Qed.

Lemma plookup_nil k : plookup [] k = None.
Proof. done. Qed.

Create Rewrite HintDb plookup.
#[export] Hint Rewrite collect_lookup plookup_app @plookup_opt plookup_list plookup_duration
  plookup_param plookup_nil : plookup.

Lemma option_eta {A} (o : option A) : match o with Some v => Some v | None => None end = o.
Proof. by destruct o. Qed.

(** Evaluate the lookups of a query built from known keys. *)
Ltac query_eval :=
  autorewrite with plookup; simpl String.eqb; cbn iota; rewrite ?option_eta, ?option_fmap_id.

(** ** Values *)

Lemma parse_flag b : parse_bool (flag b) = Ok b.
Proof. by destruct b. Qed.
Lemma parse_true_false b : parse_bool (true_false b) = Ok b.
Proof. by destruct b. Qed.
Lemma map_transport_kind_str k : map_transport_kind (transport_kind_str k) = Ok k.
Proof. by destruct k. Qed.

(** A list whose comma-separated text splits back into it. *)
Definition comma_list (l : list string) : Prop := Forall (lacks ",") l ∧ l ≠ [""].

#[export] Instance comma_list_dec l : Decision (comma_list l).
Proof. unfold comma_list, lacks. apply _. Defined.

Lemma join_nonempty c l : l ≠ [] → l ≠ [""] → is_empty (join (String c "") l) = false.
Proof.
  destruct l as [|a [|b l]]; [done| |].
  - by destruct a.
  - intros _ _. rewrite join_cons. destruct a; done.
Qed.

Lemma parse_alpn_comma l : comma_list l → l ≠ [] → parse_alpn (comma l) = l.
Proof.
  intros [Hl Hne] Hn. unfold parse_alpn, comma.
  rewrite join_nonempty by done. by apply split_join.
Qed.

Lemma parse_alpn_param l :
  comma_list l →
  default [] (parse_alpn <$> match l with [] => None | _ => Some (comma l) end) = l.
Proof. intros Hl. destruct l as [|a l]; [done|]. simpl. by apply parse_alpn_comma. Qed.

(** Pins are kept with the prefix the parsers give them. *)
Definition pin_ok (pin : string) : Prop := ∃ t, pin = "pinSHA256:" +:+ t ∧ lacks "," t.

Definition pins_ok (pins : list string) : Prop := ∃ ts,
  pins = (λ t, "pinSHA256:" +:+ t) <$> ts ∧ comma_list ts.

Lemma strip_pin_prefix t : strip_pin ("pinSHA256:" +:+ t) = t.
Proof. done. Qed.

Lemma format_pins_spec ts : format_pins ((λ t, "pinSHA256:" +:+ t) <$> ts) = comma ts.
Proof.
  unfold format_pins. f_equal. rewrite <- list_fmap_compose. rewrite <- (list_fmap_id ts) at 2.
  by apply list_fmap_ext.
Qed.

Lemma duration_roundtrip unit field d n :
  d = (n * unit)%Z → (0 < unit)%Z → (0 ≤ n ≤ Z.of_N i64_max)%Z →
  parse_duration unit field (pretty (Z.quot d unit)) = Ok d ∧ Z.leb 0 (Z.quot d unit) = true.
Proof.
  intros -> Hu Hn. rewrite Z.quot_mul by lia. unfold parse_duration.
  rewrite parse_i64_pretty by done. simpl. destruct (Z.ltb_spec n 0); [lia|].
  split; [done|]. apply Z.leb_le. lia.
Qed.

(** ** Trimming *)

Lemma first_strip_None ps c s :
  forallb (λ p, match p with String x _ => negb (Ascii.eqb x c) | EmptyString => false end) ps = true →
  first_strip ps (String c s) = None.
Proof.
  induction ps as [|p ps IH]; [done|]. cbn [forallb first_strip]. intros [Hp Hps]%andb_prop.
  destruct p as [|x p]; [done|]. cbn [strip_prefix]. destruct (Ascii.eqb x c); [done|]. by apply IH.
Qed.

Lemma strip_all_None fuel ps s : first_strip ps s = None → strip_all fuel ps s = s.
Proof. intros H. destruct fuel; simpl; [done|]. by rewrite H. Qed.

Definition starts_none (ps : list string) (c : ascii) : bool :=
  forallb (λ p, match p with String x _ => negb (Ascii.eqb x c) | EmptyString => false end) ps.

Lemma printable_no_space c :
  printable c = true → starts_none whitespace c && starts_none (String.rev <$> whitespace) c = true.
Proof. by_ascii c. Qed.

(** A text that begins and ends with a visible ASCII character is trimmed. *)
Definition tidy (s : string) : Prop :=
  (∃ c t, s = String c t ∧ printable c = true) ∧ (∃ t d, s = t +:+ String d "" ∧ printable d = true).

Lemma trim_tidy s : tidy s → trim s = s.
Proof.
  intros [(c & t & Es & Hc) (t' & d & Ee & Hd)]. unfold trim.
  apply printable_no_space in Hc, Hd. apply andb_prop in Hc as [Hc _]. apply andb_prop in Hd as [_ Hd].
  assert (trim_start s = s) as ->.
  { unfold trim_start. rewrite Es. apply strip_all_None, first_strip_None, Hc. }
  unfold trim_end. rewrite strip_all_None; [apply rev_rev|].
  rewrite Ee, rev_app_distr. apply first_strip_None, Hd.
Qed.

Lemma printable_snoc s : all_chars printable s = true → s ≠ "" → ∃ t d, s = t +:+ String d "" ∧ printable d = true.
Proof.
  induction s as [|c s IH]; [done|]. cbn [all_chars]. intros [Hc Hs]%andb_prop _.
  destruct (decide (s = "")) as [->|Hne]; [by exists "", c|].
  destruct (IH Hs Hne) as (t & d & -> & Hd). by exists (String c t), d.
Qed.

Lemma printable_tidy s : all_chars printable s = true → s ≠ "" → tidy s.
Proof.
  intros H Hne. split; [|by apply printable_snoc].
  destruct s as [|c s]; [done|]. exists c, s. split; [done|]. simpl in H. by apply andb_prop in H as [? _].
Qed.

Lemma pretty_printable (n : N) : all_chars printable (pretty n) = true.
Proof. eapply all_chars_impl; [|apply pretty_digits]. intros c. by_ascii c. Qed.

Lemma pretty_nonempty (n : N) : pretty n ≠ "".
Proof. destruct (read_digits_pretty n) as (j & H). intros E. rewrite E in H. done. Qed.

Lemma tidy_app a b : tidy a → tidy b → ∀ m, tidy (a +:+ m +:+ b).
Proof.
  intros [(c & t & -> & Hc) _] [_ (t' & d & -> & Hd)] m. split.
  - by exists c, (t +:+ m +:+ t' +:+ String d "").
  - exists (String c t +:+ m +:+ t'), d. split; [|done]. by rewrite !string_app_assoc.
Qed.

(** ** Bandwidths *)

Lemma numeric_prefix_digits s rest c :
  all_chars (in_range 48 57) s = true → in_range 48 57 c || Ascii.eqb c "." = false →
  numeric_prefix (s +:+ String c rest) = (s, String c rest).
Proof.
  intros Hs Hc. induction s as [|d s IH]; simpl.
  - by rewrite Hc.
  - cbn [all_chars] in Hs. apply andb_prop in Hs as [-> Hs]. simpl. by rewrite IH.
Qed.

Lemma bandwidth_unit q unit m :
  all_chars printable unit = true → unit ≠ "" → unit_multiplier unit = Some m → trim (" " +:+ unit) = unit →
  (q * m < 2 ^ 53)%N → (m < 2 ^ 53)%N → (q < 2 ^ 53)%N →
  parse_bandwidth (pretty q +:+ " " +:+ unit) = Ok (q * m)%N.
Proof.
  intros Hp Hne Hm Ht Hlt Hml Hql. unfold parse_bandwidth.
  rewrite trim_tidy.
  2:{ apply tidy_app; apply printable_tidy; auto using pretty_printable, pretty_nonempty. }
  destruct (is_empty (pretty q +:+ " " +:+ unit)) eqn:E.
  { exfalso. pose proof (pretty_nonempty q). by destruct (pretty q). }
  cbn [String.append]. rewrite numeric_prefix_digits by (done || apply pretty_digits).
  destruct (read_digits_pretty q) as (j & Hj).
  unfold F64.f64_from_str. rewrite (F64.read_decimal_digits _ _ _ _ _ _ Hj) by done. simpl ok_or.
  change (String " " unit) with (" " +:+ unit). rewrite Ht, Hm. cbn [ok_or result_bind].
  f_equal. apply F64.round_u64_exact.
  - apply F64.mul_exact; [|by apply F64.of_u64_exact|done]. by apply (F64.of_u64_exact q).
  - transitivity (2 ^ 53)%N; [lia|]. by vm_compute.
Qed.

(** A bandwidth [f64] holds exactly reads back as itself. *)
Lemma bandwidth_roundtrip bps : (bps < 2 ^ 53)%N → parse_bandwidth (format_bandwidth bps) = Ok bps.
Proof.
  intros Hb. unfold format_bandwidth.
  assert (Hdiv : ∀ u, (0 < u)%N → N.leb u bps && N.eqb (bps mod u) 0 = true → (bps / u * u = bps)%N).
  { intros u Hu [_ Hm%N.eqb_eq]%andb_prop. pose proof (N.div_mod' bps u). lia. }
  assert (Hle : ∀ u, (0 < u)%N → (bps / u < 2 ^ 53)%N).
  { intros u Hu. pose proof (N.Div0.div_le_upper_bound bps u bps). nia. }
  repeat match goal with
  | |- context [if ?b then _ else _] => destruct b eqn:?
  end;
  [rewrite (bandwidth_unit _ "Gbps" 1000000000)|rewrite (bandwidth_unit _ "Mbps" 1000000)
  |rewrite (bandwidth_unit _ "Kbps" 1000)|rewrite (bandwidth_unit _ "bps" 1)];
  try done; rewrite ?Hdiv, ?N.mul_1_r by done; try done; by apply Hle.
Qed.

(** ** Hosts *)

Lemma contains_lacks x p t : lacks x t → contains (String x p) t = false.
Proof.
  induction t as [|c t IH]; [done|]. intros [Hc Ht]%lacks_string. cbn [contains].
  unfold starts_with. cbn [strip_prefix]. destruct (Ascii.eqb_spec x c); [done|]. by apply IH.
Qed.

Lemma visible_not_rejected (q : ascii → bool) d :
  (∀ c, q c = true → printable c && negb (rejected_char c) = true) →
  all_chars q d = true → rejected_host d = false.
Proof.
  intros Hq Hd.
  assert (Hc : all_chars (λ c, printable c && negb (rejected_char c)) d = true)
    by by eapply all_chars_impl.
  unfold rejected_host. apply orb_false_intro.
  - apply negb_false_iff. eapply all_chars_impl; [|exact Hc]. by intros c [_ ?]%andb_prop.
  - apply existsb_false. intros p Hp.
    assert (forallb (λ p, match p with String x _ => negb (printable x) | _ => false end)
      (c1_controls ++ whitespace) = true) as Hall by (vm_compute; reflexivity).
    rewrite forallb_forall in Hall. specialize (Hall p ltac:(by apply list_elem_of_In)).
    destruct p as [|x p]; [done|]. apply contains_lacks.
    eapply all_chars_impl; [|exact Hc]. intros c [Hpc _]%andb_prop.
    destruct (Ascii.eqb_spec x c) as [->|]; [|done]. by rewrite Hpc in Hall.
Qed.

Lemma ipv4_excludes_ipv6 t o : ipv4_from_str t = Some o → ipv6_from_str t = None.
Proof.
  unfold ipv4_from_str. destruct (Nat.ltb 15 (String.length t)); [done|].
  destruct (read_ipv4_addr t) as [[[[[a b] c] d] r]|] eqn:E; [|done]. intros _.
  unfold ipv6_from_str, read_ipv6_addr. cbn [read_groups read_separator]. by rewrite E.
Qed.

(** A host that its URI text determines. *)
Definition uri_host_ok (h : Host) : Prop := url_host h ∧ host_ok h.

Lemma ipv4_display_nonempty o : is_empty (ipv4_display o) = false.
Proof.
  destruct o as [[[a b] c] d]. unfold ipv4_display. pose proof (pretty_nonempty a).
  by destruct (pretty a).
Qed.

(** The host text of a URL reads back as the host. *)
Lemma parse_host_str h t : uri_host_ok h → host_str_of h t → parse_host t = Ok h.
Proof.
  intros [Hu Hh] Ht. unfold parse_host. destruct h as [o|segs|d]; cbn [host_str_of host_ok url_host] in *.
  - subst t. unfold uri_host. rewrite ipv4_display_nonempty, ipv4_display_unbracketed by done. simpl.
    by rewrite ipv4_from_display.
  - destruct Ht as (t' & -> & Ht').
    change (is_empty ("[" +:+ t' +:+ "]")) with false. cbv iota.
    rewrite strip_brackets_app. simpl.
    destruct (ipv4_from_str t') eqn:E4; [apply ipv4_excludes_ipv6 in E4; congruence|]. by rewrite Ht'.
  - subst t. unfold uri_host. destruct Hu as [Hne Hd]. destruct Hh as (H1 & H2 & H3).
    rewrite H1. simpl. rewrite H2, H3.
    rewrite (visible_not_rejected opaque_host_char); [by destruct d| |done]. intros c. by_ascii c.
Qed.

Definition endpoint_ok (e : Endpoint) : Prop := uri_host_ok (host e) ∧ (port e ≤ u16_max)%N.

(** ** Emitted URLs *)

Definition keys_ok (params : Params) : Prop :=
  Forall (λ kv, kv.1 ≠ "" ∧ all_chars key_char kv.1 = true) params.

Definition key_ok (k : string) : Prop := k ≠ "" ∧ all_chars key_char k = true.

Lemma keys_app a b : keys_ok a → keys_ok b → keys_ok (a ++ b).
Proof. intros. by apply Forall_app. Qed.
Lemma keys_param k v : key_ok k → keys_ok (param k v).
Proof. by repeat constructor; try apply H. Qed.
Lemma keys_opt {A} k (show : A → string) o : key_ok k → keys_ok (param_opt k show o).
Proof. intros H. destruct o; repeat constructor; apply H. Qed.
Lemma keys_list k show l : key_ok k → keys_ok (param_list k show l).
Proof. intros H. destruct l; repeat constructor; apply H. Qed.
Lemma keys_duration k unit o : key_ok k → keys_ok (param_duration k unit o).
Proof. intros H. unfold param_duration. destruct o; [|constructor]. simpl. case_match; repeat constructor; apply H. Qed.
Lemma keys_on_some {A} (o : option A) f : (∀ a, keys_ok (f a)) → keys_ok (on_some o f).
Proof. intros H. destruct o; [apply H|constructor]. Qed.
Lemma keys_nil : keys_ok [].
Proof. constructor. Qed.

#[export] Hint Resolve keys_app keys_param @keys_opt keys_list keys_duration @keys_on_some keys_nil : ds.
#[export] Hint Extern 1 (key_ok _) => split; [discriminate|reflexivity] : ds.

Section emitted.
Context `{L : UrlLib} {HL : UrlLaws L}.

Lemma encoded_class (S : AsciiSet) (q : ascii → bool) t :
  (∀ c, N.ltb (code c) 128 && (negb (S c) || Ascii.eqb c "%" || hex_digit_upper c) = true → q c = true) →
  all_chars q (percent_encode S t) = true.
Proof. intros Hq. eapply all_chars_impl; [exact Hq|apply percent_encode_chars]. Qed.

Lemma userinfo_encoded t : all_chars userinfo_char (encode_userinfo t) = true.
Proof. apply encoded_class. intros c. by_ascii c. Qed.

Lemma fragment_encoded t : all_chars fragment_char (format_fragment t) = true.
Proof. apply encoded_class. intros c. by_ascii c. Qed.

Lemma query_value_encoded t : all_chars query_char (percent_encode QUERY_VALUE_ENCODE t) = true.
Proof. apply encoded_class. intros c. by_ascii c. Qed.

Lemma join_class (q : ascii → bool) sep l :
  all_chars q sep = true → Forall (λ t, all_chars q t = true) l → all_chars q (join sep l) = true.
Proof.
  intros Hs H. induction H as [|a l Ha H IH]; [done|]. destruct l as [|b l]; [done|].
  rewrite join_cons, !all_chars_app, Ha, Hs. apply IH.
Qed.

Lemma format_query_class params : keys_ok params → all_chars query_char (format_query params) = true.
Proof.
  intros Hk. apply join_class; [done|]. rewrite Forall_fmap. eapply Forall_impl; [exact Hk|].
  intros [k v] [_ Hkc]. simpl in *. rewrite all_chars_app. apply andb_true_intro. split.
  - eapply all_chars_impl; [|exact Hkc]. intros c. by_ascii c.
  - apply query_value_encoded.
Qed.

Lemma form_query params : keys_ok params → form_urlencoded (format_query params) = params.
Proof. intros Hk. by apply (form_urlencoded_pairs QUERY_VALUE_ENCODE). Qed.

(** What the parsers see of an emitted URI. *)
Record parsed_as (u : Url) (scheme user : string) (pass : option string) (node : Node) (params : Params) : Prop := {
  pa_scheme : u_scheme u = scheme;
  pa_user : decode_userinfo (u_username u) = user;
  pa_pass : decode_userinfo <$> u_password u = pass;
  pa_endpoint name : url_endpoint name u = Ok (endpoint node);
  pa_name : decode_fragment u = display_name node;
  pa_query : collect_query u = collect params
}.

Lemma emitted_url scheme user pass node params query :
  ordinary_scheme scheme → endpoint_ok (endpoint node) → keys_ok params → pass ≠ Some "" →
  query = Some (format_query params) ∨ query = None ∧ params = [] →
  ∃ u, url_parse (uri_with scheme (credentials_text (encode_userinfo user) (encode_userinfo <$> pass)) node query)
       = Ok u ∧ parsed_as u scheme user pass node params.
Proof.
  intros Hs [Hh Hp] Hk Hpass Hq.
  set (fragment := if is_empty (display_name node) then None else Some (format_fragment (display_name node))).
  destruct (url_parse_text scheme (encode_userinfo user) (encode_userinfo <$> pass)
    (host (endpoint node)) (port (endpoint node)) query fragment)
    as (u & Hu & Hsch & Huser & Hpw & (t & Ht & Hht) & Hport & Hquery & Hfrag); try done.
  { apply userinfo_encoded. }
  { intros t. destruct pass as [p|]; [|done]. intros [= <-]. split; [|apply userinfo_encoded].
    intros E%percent_encode_empty. congruence. }
  { apply Hh. }
  { intros t ->. destruct Hq as [[= ->]|[? _]]; [by apply format_query_class|done]. }
  { intros t. unfold fragment. destruct (is_empty (display_name node)); [done|].
    intros [= <-]. apply fragment_encoded. }
  exists u. split.
  { rewrite <- Hu. f_equal. unfold uri_with, url_text, host_port, fragment_suffix, fragment.
    rewrite !string_app_assoc. simpl. unfold prefixed.
    by destruct (is_empty (display_name node)). }
  split; [done|..].
  - unfold decode_userinfo. rewrite Huser. by apply percent_decode_encode.
  - change (percent_decode <$> u_password u = pass). rewrite Hpw. destruct pass as [p|]; [|done]. simpl. f_equal.
    by apply percent_decode_encode.
  - intros name. unfold url_endpoint. rewrite Ht, Hport. simpl.
    rewrite (parse_host_str (host (endpoint node))) by done. simpl. by destruct (endpoint node).
  - unfold decode_fragment. rewrite Hfrag. unfold fragment.
    destruct (display_name node) as [|c r] eqn:E; [done|]. simpl. by apply percent_decode_encode.
  - unfold collect_query. rewrite Hquery. destruct Hq as [->|[-> ->]]; simpl.
    + by rewrite form_query.
    + pose proof (form_query [] keys_nil) as E. change (format_query []) with "" in E. by rewrite E.
Qed.

Lemma unless_empty_query params :
  keys_ok params →
  unless_empty (format_query params) = Some (format_query params) ∨
  unless_empty (format_query params) = None ∧ params = [].
Proof.
  intros Hk. unfold unless_empty. destruct (is_empty (format_query params)) eqn:E; [right|by left].
  split; [done|]. rewrite <- (form_query params Hk), <- (form_query [] keys_nil).
  f_equal. by destruct (format_query params).
Qed.

End emitted.

End UriRoundtrip.
