(* ===== verification/UriProtocols.v ===== *)
(** * Share URIs: round trips of the protocols

    [UriProtocols]: the protocols written as URLs.  [UriBase64]: those written in
    base64. *)

(** * Canonical nodes and their share URIs, protocol by protocol

    [canonical] says of a node that its share URI carries all of it; the
    emitter of each protocol writes such a node and its parser reads it back
    as [reimported], with the identity and provenance of the new import. *)

From Stdlib Require Import Ascii.
From stdpp Require Import pretty.
From S2P Require Import Prelude Kernel Node Text Ip UrlText Float64 UriParse UriEmit UrlInstance UriRoundtrip.
Import Text Ip UrlText UriParse UriEmit UriRoundtrip.
#[local] Arguments String.append !_ _ / : simpl nomatch.

Module UriProtocols.

(** The node a share URI of [n] is imported as. *)
Definition reimported (id : NodeId) (now : Z) (uri : string) (n : Node) : Node :=
  mkNode id (display_name n) (protocol n) (config n) (endpoint n) (authentication n) (transport n)
    (tls n) (udp n) (multiplex n) (obfuscation n) (congestion n) (n_chain n)
    (mkNodeSource "" (Some uri) now) (n_tags n) (region n) (extras n).

(** ** Canonical nodes *)

Definition no_udp : UdpCapability := mkUdp None None.

(** No share URI carries these. *)
Definition plain (n : Node) : Prop :=
  endpoint_ok (endpoint n) ∧ multiplex n = None ∧ n_chain n = None ∧ n_tags n = [] ∧
  region n = mkRegion RegionAuto None.

(** TLS settings with at most a fingerprint, pins and Reality parameters. *)
Definition tls_with (fp : option string) (pins : list string) (r : option RealityConfig) (t : TlsConfig) : Prop :=
  t = mkTls true (server_name t) (skip_cert_verify t) (alpn t) fp pins r ∧ comma_list (alpn t).

Definition mode_ok (t : Transport) : Prop :=
  if bool_decide (tr_kind t = Xhttp) then tr_xhttp_mode t ≠ None else tr_xhttp_mode t = None.

Definition some_with {A} (P : A → Prop) (o : option A) : Prop := match o with Some a => P a | None => False end.
Definition opt_with {A} (P : A → Prop) (o : option A) : Prop := match o with Some a => P a | None => True end.

Definition duration_of (unit d : Z) : Prop := ∃ k, d = (k * unit)%Z ∧ (0 ≤ k ≤ Z.of_N i64_max)%Z.

Definition controller_ok (c : CongestionController) : Prop :=
  match c with OtherController s => s ∉ ["bbr"; "cubic"; "new_reno"] | _ => True end.

Definition trojan_ok (n : Node) : Prop :=
  match config n, authentication n with
  | CTrojan _, AuthPassword p =>
      p ≠ "" ∧ some_with mode_ok (transport n) ∧ some_with (tls_with None [] None) (tls n) ∧
      udp n = no_udp ∧ obfuscation n = None ∧ congestion n = None ∧ extras n = ∅
  | _, _ => False
  end.

Definition anytls_ok (n : Node) : Prop :=
  match config n, authentication n with
  | CAnyTls c, AuthPassword p =>
      c = mkAnyTls None None None None ∧ p ≠ "" ∧ transport n = None ∧
      some_with (λ t, tls_with (client_fingerprint t) [] None t) (tls n) ∧
      udp n = no_udp ∧ obfuscation n = None ∧ congestion n = None ∧ extras n = ∅
  | _, _ => False
  end.

Definition hy2_congestion_ok (c : CongestionConfig) : Prop :=
  controller_ok (cc_controller c) ∧ opt_with (λ b, b < 2 ^ 53)%N (cc_up_bps c) ∧
  opt_with (λ b, b < 2 ^ 53)%N (cc_down_bps c) ∧ c ≠ mkCongestion Bbr None None.

Definition pinned_tls (t : TlsConfig) : Prop :=
  tls_with None (certificate_pins t) None t ∧ pins_ok (certificate_pins t).

Definition hysteria2_ok (n : Node) : Prop :=
  match config n, authentication n with
  | CHysteria2 c, AuthPassword p =>
      p ≠ "" ∧ transport n = None ∧ some_with pinned_tls (tls n) ∧
      opt_with (duration_of 1000000000) (hy2_hop_interval c) ∧
      opt_with hy2_congestion_ok (congestion n) ∧ udp n = no_udp ∧ extras n = ∅
  | _, _ => False
  end.

Definition naive_ok (n : Node) : Prop :=
  match config n, authentication n with
  | CNaiveProxy c, AuthUserPassword u p =>
      u ≠ "" ∧ p ≠ "" ∧ transport n = None ∧ opt_with pinned_tls (tls n) ∧
      udp n = no_udp ∧ obfuscation n = None ∧ congestion n = None ∧ extras n = ∅
  | _, _ => False
  end.

Definition tuic_ok (n : Node) : Prop :=
  match config n, authentication n with
  | CTuicV5 c, AuthUuidPassword u p =>
      u ≠ "" ∧ p ≠ "" ∧ transport n = None ∧ some_with (tls_with None [] None) (tls n) ∧
      opt_with (duration_of 1000000) (tuic_heartbeat c) ∧
      opt_with (λ g, controller_ok (cc_controller g) ∧ g = mkCongestion (cc_controller g) None None) (congestion n) ∧
      udp n = no_udp ∧ obfuscation n = None ∧ extras n = ∅
  | _, _ => False
  end.

Definition vless_ok (n : Node) : Prop :=
  match config n, authentication n with
  | CVlessReality c, AuthUuid u =>
      u ≠ "" ∧ some_with mode_ok (transport n) ∧
      some_with (λ t, is_Some (reality t) ∧ tls_with (client_fingerprint t) [] (reality t) t) (tls n) ∧
      obfuscation n = None ∧ congestion n = None ∧ extras n = ∅
  | _, _ => False
  end.

Definition snell_obfs_ok (o : SnellObfs) : Prop :=
  (so_mode o = ObfsHttp ∨ so_mode o = ObfsTls) ∧ so_password o = None ∧ so_version o = None ∧
  comma_list (so_alpn o).

Definition snell_ok (n : Node) : Prop :=
  match config n, authentication n with
  | CSnell c, AuthPassword p =>
      p ≠ "" ∧ transport n = None ∧ sn_v6_mode c = None ∧ opt_with snell_obfs_ok (sn_obfs c) ∧
      tls n = snell_obfs_tls (sn_obfs c) ∧ udp_xudp (udp n) = None ∧
      obfuscation n = None ∧ congestion n = None ∧ extras n = ∅
  | _, _ => False
  end.

Definition shadowtls_ok (n : Node) : Prop :=
  match config n, authentication n with
  | CShadowTls v p k inner, AuthNone =>
      match p with Some t => t ≠ "" | None => v = StV1 end ∧ k = Unknown "" ∧
      inner = CUnsupported (mkUnsupported JNull None "shadow-tls URI: inner protocol not representable") ∧
      transport n = None ∧ some_with (λ t, tls_with None [] None t ∧ alpn t = []) (tls n) ∧
      udp n = no_udp ∧ obfuscation n = None ∧ congestion n = None ∧ extras n = ∅
  | _, _ => False
  end.

Definition byte3 (r : N * N * N) : Prop := let '(a, b, c) := r in (a < 256 ∧ b < 256 ∧ c < 256)%N.

Definition wireguard_ok (n : Node) : Prop :=
  match config n, authentication n with
  | CWireGuard c, AuthNone =>
      wg_private_key c ≠ "" ∧ comma_list (wg_address c) ∧ wg_address c ≠ [] ∧
      opt_with (λ m, m ≤ u32_max)%N (wg_mtu c) ∧ wg_workers c = None ∧ wg_dns c = [] ∧
      (∃ peer, wg_peers c = [peer] ∧ wgp_allowed_ips peer = ["0.0.0.0/0"; "::/0"] ∧
         opt_with byte3 (wgp_reserved peer) ∧ opt_with (duration_of 1000000000) (persistent_keepalive peer)) ∧
      transport n = None ∧ tls n = None ∧ udp n = no_udp ∧ obfuscation n = None ∧
      congestion n = None ∧ extras n = ∅
  | _, _ => False
  end.

(** ** Parsing what was emitted *)

Section protocols.
Context `{L : UrlLib} {HL : UrlLaws L}.
Variables (id : NodeId) (now : Z).

(** A parser reads back what an emitter wrote. *)
Definition reads_back (scheme : string) (parse : Url → string → Result ParseError Node)
    (emit : Node → Result EmitError string) (n : Node) : Prop :=
  ∃ s u rest, emit n = Ok s ∧ s = scheme +:+ "://" +:+ rest ∧ url_parse s = Ok u ∧ u_scheme u = scheme ∧
    parse u s = Ok (reimported id now s n).

Lemma is_empty_false t : t ≠ "" → is_empty t = false.
Proof. by destruct t. Qed.

Lemma single_credentials t : encode_userinfo t = credentials_text (encode_userinfo t) (encode_userinfo <$> None).
Proof. unfold credentials_text. simpl. by rewrite string_app_nil_r. Qed.

Lemma query_insecure_absent (query : Query) ks :
  Forall (λ k, query !! k = None) ks → query_insecure query ks = Ok None.
Proof. induction 1 as [|k ks Hk _ IH]; simpl; [done|]. by rewrite Hk. Qed.

(** The TLS parameters an emitter writes are the ones the parser collects. *)
Lemma query_insecure_flag (query : Query) k ks o :
  query !! k = flag <$> o → Forall (λ k, query !! k = None) ks →
  query_insecure query (k :: ks) = Ok o ∧
  existsb (λ k, bool_decide (is_Some (query !! k))) (k :: ks) = bool_decide (is_Some o).
Proof.
  intros H Hks. cbn [query_insecure existsb]. rewrite H.
  assert (existsb (λ k, bool_decide (is_Some (query !! k))) ks = false) as ->.
  { apply existsb_false. intros k' Hk'. rewrite Forall_forall in Hks. by rewrite (Hks k' Hk'). }
  destruct o as [b|]; simpl; [by destruct b|]. split; [by apply query_insecure_absent|done].
Qed.

Definition pins_param (pins : list string) : option string :=
  match pins with [] => None | _ => Some (format_pins pins) end.

Lemma pins_read ts pins :
  pins = (λ t, "pinSHA256:" +:+ t) <$> ts → comma_list ts →
  default [] (v ← pins_param pins;
    Some (if is_empty v then [] else (λ pin, "pinSHA256:" +:+ pin) <$> split "," v)) = pins.
Proof.
  intros -> [Hts Hne]. unfold pins_param. destruct ts as [|a ts]; [done|]. rewrite format_pins_spec.
  simpl. unfold comma. rewrite join_nonempty by done. by rewrite split_join.
Qed.

Lemma common_tls_read (query : Query) k ks pin t pins :
  query !! "sni" = server_name t →
  query !! "alpn" = (match alpn t with [] => None | _ => Some (comma (alpn t)) end) →
  query !! k = flag <$> skip_cert_verify t → Forall (λ k, query !! k = None) ks →
  (match pin with Some p => query !! p = pins_param pins | None => pins = [] end) →
  tls_with None pins None t → pins_ok pins →
  ∃ o, build_common_tls query (k :: ks) pin = Ok o ∧ default default_tls_enabled o = t.
Proof.
  intros Hsni Halpn Hk Hks Hpin [Et Ha] (ts & Hts & Hcl). unfold build_common_tls.
  destruct (query_insecure_flag query k ks _ Hk Hks) as [-> ->]. rewrite Hsni, Halpn. cbn [result_bind].
  assert (Hpins : default [] (p ← pin; v ← query !! p;
    Some (if is_empty v then [] else (λ pin, "pinSHA256:" +:+ pin) <$> split "," v)) = pins).
  { destruct pin as [p|]; simpl; [rewrite Hpin; by apply (pins_read ts)|done]. }
  rewrite Hpins, parse_alpn_param by done.
  match goal with |- context [if ?b then _ else _] => destruct b eqn:Eb end.
  { eexists. split; [done|]. by rewrite Et. }
  eexists. split; [done|]. simpl. rewrite Et. unfold default_tls_enabled.
  rewrite !orb_false_iff in Eb. destruct Eb as [[[E1 E2] E3] E4].
  destruct (server_name t); [done|]. destruct (skip_cert_verify t); [done|].
  destruct (alpn t); [|done]. destruct pin as [p|]; [|by rewrite Hpin].
  rewrite Hpin in E4. by destruct pins.
Qed.

Lemma transport_read (query : Query) t :
  query !! "path" = tr_path t → query !! "host" = tr_host t →
  query !! "mode" = xhttp_as_str <$> tr_xhttp_mode t → mode_ok t →
  parse_transport query (tr_kind t) = t.
Proof.
  intros Hp Hh Hm Ht. unfold parse_transport. rewrite Hp, Hh, Hm. unfold mode_ok in Ht.
  destruct t as [k p h m]; simpl in *. case_bool_decide; [|by subst].
  destruct m as [m|]; [|done]. simpl. by rewrite xhttp_roundtrip.
Qed.

Lemma traverse_flag o : traverse parse_bool (flag <$> o) = Ok o.
Proof. destruct o as [b|]; simpl; [|done]. by rewrite parse_flag. Qed.

Lemma pins_ok_nil : pins_ok [].
Proof. by exists []. Qed.

End protocols.

(** Open a node and its canonicity. *)
Ltac open_node H :=
  let nid := fresh "nid" in
  match goal with n : Node |- _ =>
    destruct n as [nid name proto cfg ep auth tr tl ud mux obf cong ch src tags reg ext];
    cbn [endpoint multiplex n_chain n_tags region protocol config authentication transport tls udp
         obfuscation congestion extras display_name] in *;
    destruct cfg; try done; destruct auth; try done; destruct_and? H; subst
  end.

Section readers.
Context `{L : UrlLib} {HL : UrlLaws L}.
Variables (id : NodeId) (now : Z).

(** One URL suffices: the parser is run on what [emitted_url] says it sees. *)
Lemma reads_back_url scheme user pass params query parse emit n :
  emit n = Ok (uri_with scheme (credentials_text (encode_userinfo user) (encode_userinfo <$> pass)) n query) →
  bool_decide (ordinary_scheme scheme) = true → plain n → keys_ok params → pass ≠ Some "" →
  query = Some (format_query params) ∨ query = None ∧ params = [] →
  (∀ u s, parsed_as u scheme user pass n params → parse u s = Ok (reimported id now s n)) →
  reads_back id now scheme parse emit n.
Proof.
  intros Hemit Hs%bool_decide_eq_true [He _] Hk Hp Hq Hparse.
  destruct (emitted_url scheme user pass n params query Hs He Hk Hp Hq) as (u & Hu & Hpa).
  eexists _, u, _. split_and!; [exact Hemit|reflexivity|exact Hu|apply Hpa|by apply Hparse].
Qed.

Lemma single_emit scheme user n query :
  uri_with scheme (encode_userinfo user) n query
  = uri_with scheme (credentials_text (encode_userinfo user) (encode_userinfo <$> None)) n query.
Proof. by rewrite <- single_credentials. Qed.

(** Run a parser on an emitted URL; [lookups] evaluates the parameters it
    reads, one at a time. *)
Ltac run_parser u Hpa :=
  intros u s Hpa; destruct Hpa as [Hscheme Huser Hpass Hend Hname Hquery];
  rewrite ?Huser, ?is_empty_false, ?Hend, ?Hname by done; cbn [result_bind].

Ltac look Hquery := rewrite Hquery; query_eval; done.

Ltac lookups u Hquery :=
  repeat match goal with |- context [collect_query u !! ?k] =>
    let H := fresh in
    eassert (H : collect_query u !! k = _) by (rewrite Hquery; query_eval; reflexivity);
    rewrite H; clear H
  end.

(** Read the common TLS parameters, the lookups evaluated. *)
Ltac read_tls Hquery t pins :=
  match goal with |- context [build_common_tls ?q (?k :: ?ks) ?p] =>
    let o := fresh "o" in
    destruct (common_tls_read q k ks p t pins) as (o & -> & Ho);
    [look Hquery|look Hquery|look Hquery|repeat constructor; look Hquery|try (look Hquery); try done|done|
     try apply pins_ok_nil; try done|]
  end.

Lemma trojan_reads_back n :
  plain n → protocol n = Trojan → trojan_ok n → reads_back id now "trojan" (trojan_parse id now) trojan_emit n.
Proof.
  intros Hpl Hpr Hok. pose proof Hpl as (_ & ? & ? & ? & ?). unfold trojan_ok in Hok. open_node Hok.
  destruct tr as [tr|]; [|done]. destruct tl as [t|]; [|done].
  set (n := mkNode _ _ _ _ _ _ _ _ _ _ _ _ _ _ _ _ _).
  apply (reads_back_url "trojan" password None (trojan_params n (trojan_packet_encoding c))
    (Some (format_query (trojan_params n (trojan_packet_encoding c))))); try done.
  - by rewrite <- single_emit.
  - unfold trojan_params, tls_params, transport_params. auto 12 with ds.
  - by left.
  - unfold trojan_parse. run_parser u Hpa.
    unfold trojan_params, tls_params, transport_params in Hquery; cbn [on_some tls transport n] in Hquery.
    lookups u Hquery. cbn [traverse]. rewrite map_transport_kind_str. cbn [result_bind].
    read_tls Hquery t (@nil string). cbn [result_bind]. rewrite Ho.
    rewrite (transport_read _ tr) by (look Hquery || done). by destruct c.
Qed.

Lemma anytls_reads_back n :
  plain n → protocol n = AnyTls → anytls_ok n → reads_back id now "anytls" (anytls_parse id now) anytls_emit n.
Proof.
  intros Hpl Hpr Hok. pose proof Hpl as (_ & ? & ? & ? & ?). unfold anytls_ok in Hok. open_node Hok.
  destruct tl as [t|]; [|done].
  set (n := mkNode _ _ _ _ _ _ _ _ _ _ _ _ _ _ _ _ _).
  apply (reads_back_url "anytls" password None (anytls_params n)
    (match anytls_params n with [] => None | _ => Some (format_query (anytls_params n)) end)); try done.
  - by rewrite <- single_emit.
  - unfold anytls_params, tls_params. auto 12 with ds.
  - destruct (anytls_params n); [by right|by left].
  - unfold anytls_parse. run_parser u Hpa.
    unfold anytls_params, tls_params in Hquery; cbn [on_some tls n] in Hquery. lookups u Hquery.
    destruct t as [en sn sk al fp pins re].
    match goal with H : some_with _ (Some (mkTls _ _ _ _ _ _ _)) |- _ => destruct H as [[= -> -> ->] Hal] end.
    read_tls Hquery (mkTls true sn sk al None [] None) (@nil string). cbn [result_bind]. by rewrite Ho.
Qed.

Lemma traverse_bandwidth o :
  opt_with (λ b, b < 2 ^ 53)%N o → traverse parse_bandwidth (format_bandwidth <$> o) = Ok o.
Proof. destruct o as [b|]; simpl; [|done]. intros Hb. by rewrite bandwidth_roundtrip. Qed.

Lemma traverse_duration unit field o :
  (0 < unit)%Z → opt_with (duration_of unit) o →
  traverse (parse_duration unit field)
    (match o with Some d => if Z.leb 0 (Z.quot d unit) then Some (pretty (Z.quot d unit)) else None | None => None end)
  = Ok o.
Proof.
  intros Hu. destruct o as [d|]; [|done]. intros (k & Hd & Hk).
  destruct (duration_roundtrip unit field d k Hd Hu Hk) as [E ->]. simpl. by rewrite E.
Qed.

Lemma controller_read c : controller_ok c → parse_controller (controller_name c) = c.
Proof.
  destruct c as [| | |name]; try done. simpl. intros Hn. unfold parse_controller.
  rewrite !not_elem_of_cons in Hn. destruct Hn as (H1 & H2 & H3 & _).
  by rewrite !(proj2 (String.eqb_neq _ _)) by done.
Qed.

Lemma congestion_read o :
  opt_with hy2_congestion_ok o →
  let up := o ≫= cc_up_bps in let down := o ≫= cc_down_bps in
  let controller := parse_controller <$> (o ≫= λ c, non_bbr_name (cc_controller c)) in
  match up, down, controller with
  | None, None, None => None
  | _, _, _ => Some (mkCongestion (default Bbr controller) up down)
  end = o.
Proof.
  destruct o as [[c up down]|]; [|done]. simpl. intros (Hc & _ & _ & Hne). simpl in Hc.
  pose proof (controller_read c Hc) as E.
  destruct c; simpl in *; rewrite ?E; by destruct up, down.
Qed.

Lemma hysteria2_reads_back n :
  plain n → protocol n = Hysteria2 → hysteria2_ok n →
  reads_back id now "hysteria2" (hysteria2_parse id now) hysteria2_emit n.
Proof.
  intros Hpl Hpr Hok. pose proof Hpl as (_ & ? & ? & ? & ?). unfold hysteria2_ok in Hok. open_node Hok.
  destruct tl as [t|]; [|done].
  match goal with H : some_with pinned_tls _ |- _ => destruct H as [Ht Hpins] end.
  match goal with H : opt_with hy2_congestion_ok _ |- _ =>
    pose proof (congestion_read _ H) as Hcong; rename H into Hcok end.
  match goal with H : opt_with (duration_of _) _ |- _ => rename H into Hhop end.
  set (n := mkNode _ _ _ _ _ _ _ _ _ _ _ _ _ _ _ _ _).
  assert (Hk : keys_ok (hysteria2_params n c)) by (unfold hysteria2_params, tls_params; auto 15 with ds).
  apply (reads_back_url "hysteria2" password None (hysteria2_params n c)
    (unless_empty (format_query (hysteria2_params n c)))); try done.
  - by rewrite <- single_emit.
  - by apply unless_empty_query.
  - unfold hysteria2_parse. run_parser u Hpa.
    unfold hysteria2_params, tls_params in Hquery; cbn [on_some tls obfuscation congestion n] in Hquery.
    assert (Hup : opt_with (λ b, b < 2 ^ 53)%N (cong ≫= cc_up_bps)) by (by destruct cong as [[]|]; [apply Hcok|]).
    assert (Hdown : opt_with (λ b, b < 2 ^ 53)%N (cong ≫= cc_down_bps)) by (by destruct cong as [[]|]; [apply Hcok|]).
    destruct c as [ports hop fo lazy], obf as [[ok op]|], cong as [g|]; cbn [on_some] in Hquery; lookups u Hquery;
      (read_tls Hquery t (certificate_pins t)); cbn [result_bind]; rewrite Ho;
      rewrite ?traverse_bandwidth by done; cbn [result_bind traverse];
      unfold parse_duration_secs, parse_duration_millis; (rewrite traverse_duration by done); cbn [result_bind]; rewrite !traverse_flag; cbn [result_bind];
      simpl in Hcong |- *; rewrite ?Hcong; done.
Qed.

Lemma naive_reads_back n :
  plain n → protocol n = NaiveProxy → naive_ok n →
  reads_back id now (match tls n with Some _ => "naive+https" | None => "naive+http" end)
    (naive_parse id now) naive_emit n.
Proof.
  intros Hpl Hpr Hok. pose proof Hpl as (_ & ? & ? & ? & ?). unfold naive_ok in Hok. open_node Hok.
  match goal with H : opt_with pinned_tls _ |- _ => rename H into Htls end.
  set (n := mkNode _ _ _ _ _ _ _ _ _ _ _ _ _ _ _ _ _).
  assert (Hk : keys_ok (naive_params n c)) by (unfold naive_params, tls_params; auto 15 with ds).
  apply (reads_back_url _ username (Some password) (naive_params n c)
    (unless_empty (format_query (naive_params n c)))); try done.
  - by destruct tl.
  - congruence.
  - by apply unless_empty_query.
  - unfold naive_parse. run_parser u Hpa.
    destruct (u_password u) as [w|]; [|done]. injection Hpass as Hpass. cbn [ok_or result_bind].
    rewrite Hscheme, Hpass. cbn [result_bind].
    unfold naive_params, tls_params in Hquery; cbn [on_some tls n] in Hquery. destruct c as [q h2 h3].
    destruct tl as [t|]; cbn [on_some] in Hquery; lookups u Hquery; simpl String.eqb; cbv iota.
    + destruct Htls as [Ht Hpins]. read_tls Hquery t (certificate_pins t). cbn [result_bind]. rewrite Ho.
      rewrite !traverse_flag. done.
    + cbn [result_bind]. rewrite !traverse_flag. done.
Qed.

Lemma tuic_reads_back n :
  plain n → protocol n = TuicV5 → tuic_ok n → reads_back id now "tuic" (tuic_parse id now) tuic_emit n.
Proof.
  intros Hpl Hpr Hok. pose proof Hpl as (_ & ? & ? & ? & ?). unfold tuic_ok in Hok. open_node Hok.
  destruct tl as [t|]; [|done].
  match goal with H : opt_with (λ g, _) cong |- _ => rename H into Hcong end.
  match goal with H : opt_with (duration_of _) _ |- _ => rename H into Hhb end.
  set (n := mkNode _ _ _ _ _ _ _ _ _ _ _ _ _ _ _ _ _).
  apply (reads_back_url "tuic" uuid (Some password) (tuic_params n c)
    (Some (format_query (tuic_params n c)))); try done.
  - unfold tuic_params, tls_params. auto 15 with ds.
  - congruence.
  - by left.
  - unfold tuic_parse. run_parser u Hpa.
    destruct (u_password u) as [w|]; [|done]. injection Hpass as Hpass. cbn [ok_or result_bind].
    rewrite Hpass. cbn [result_bind].
    unfold tuic_params, tls_params in Hquery; cbn [on_some tls congestion n] in Hquery. destruct c as [m z hb ds].
    assert (Hm : traverse parse_udp_relay_mode (udp_relay_str <$> m) = Ok m) by (by destruct m as [[]|]).
    destruct cong as [g|]; cbn [on_some] in Hquery; lookups u Hquery; (read_tls Hquery t (@nil string)); cbn [result_bind]; rewrite Ho;
      cbn [tuic_udp_relay_mode tuic_zero_rtt_handshake tuic_heartbeat tuic_disable_sni]; rewrite Hm; cbn [result_bind]; rewrite traverse_flag; cbn [result_bind];
      unfold parse_duration_secs, parse_duration_millis; (rewrite traverse_duration by done); cbn [result_bind]; rewrite traverse_flag; cbn [result_bind fmap option_fmap option_map];
      [|done].
    destruct Hcong as [Hc Hg]. rewrite controller_read by done. by rewrite <- Hg.
Qed.

Lemma traverse_true_false o : traverse parse_bool (true_false <$> o) = Ok o.
Proof. destruct o as [b|]; simpl; [|done]. by rewrite parse_true_false. Qed.

Lemma vless_reads_back n :
  plain n → protocol n = Vless → vless_ok n → reads_back id now "vless" (vless_parse id now) vless_emit n.
Proof.
  intros Hpl Hpr Hok. pose proof Hpl as (_ & ? & ? & ? & ?). unfold vless_ok in Hok. open_node Hok.
  destruct tr as [tr|]; [|done]. destruct tl as [t|]; [|done].
  match goal with H : some_with _ (Some t) |- _ => destruct H as [[r Hr] [Et Hal]] end.
  destruct t as [en sn sk al fp pins re]. cbn [reality] in Hr. subst re. injection Et as -> ->.
  set (t := mkTls _ _ _ _ _ _ _) in *. set (n := mkNode _ _ _ _ _ _ _ _ _ _ _ _ _ _ _ _ _).
  apply (reads_back_url "vless" uuid None (vless_params n t r c)
    (Some (format_query (vless_params n t r c)))); try done.
  - rewrite <- single_emit. unfold vless_emit. done.
  - unfold vless_params, transport_params. auto 25 with ds.
  - by left.
  - unfold vless_parse. run_parser u Hpa.
    unfold vless_params, transport_params in Hquery; cbn [on_some transport udp n] in Hquery.
    unfold vless_build_tls.
    destruct (query_insecure_flag (collect_query u) "allowInsecure" [] (skip_cert_verify t)) as [E _];
      [look Hquery|done|]. rewrite E. lookups u Hquery. cbn [traverse default].
    rewrite map_transport_kind_str. cbn [result_bind]. simpl String.eqb. cbn [orb].
    cbn [ok_or result_bind]. rewrite !traverse_true_false, (parse_alpn_param (alpn t)) by done. cbn [result_bind].
    rewrite (transport_read _ tr) by (look Hquery || done).
    by destruct c, r, ud.
Qed.

Lemma snell_reads_back n :
  plain n → protocol n = Snell → snell_ok n → reads_back id now "snell" (snell_parse id now) snell_emit n.
Proof.
  intros Hpl Hpr Hok. pose proof Hpl as (_ & ? & ? & ? & ?). unfold snell_ok in Hok. open_node Hok.
  destruct c as [v reuse obfs v6], ud as [sup xu]. cbn [sn_v6_mode sn_obfs udp_xudp] in *. subst.
  match goal with H : opt_with snell_obfs_ok _ |- _ => rename H into Ho end.
  set (n := mkNode _ _ _ _ _ _ _ _ _ _ _ _ _ _ _ _ _).
  assert (∃ ps, keys_ok ps ∧ match obfs with Some o => snell_obfs_params o | None => Ok [] end = Ok ps ∧
    plookup ps "version" = None ∧ plookup ps "udp" = None ∧ plookup ps "reuse" = None ∧
    ∀ q : Query, q !! "obfs" = plookup ps "obfs" → q !! "obfs-host" = plookup ps "obfs-host" →
      q !! "alpn" = plookup ps "alpn" → snell_parse_obfs q = Ok obfs) as (ps & Hks & Hps & Hv & Hu & Hr & Hq).
  { destruct obfs as [[mode h w ve al]|].
    - destruct Ho as (Hm & Hw & Hve & Hal). simpl in *. subst.
      destruct Hm as [-> | ->]; eexists; (split; [|split; [reflexivity|]]).
      1,3: auto 8 with ds.
      all: (split_and!; [by query_eval..|]); intros q; query_eval; cbn [so_host so_alpn]; intros E1 E2 E3;
        unfold snell_parse_obfs; rewrite E1, E2, E3; simpl String.eqb; cbn [result_bind]; by rewrite (parse_alpn_param al).
    - exists []. split_and!; try done; [constructor|]. intros q E _ _. unfold snell_parse_obfs. by rewrite E. }
  assert (Hrep : snell_unrepresentable n (mkSnell v reuse obfs None) = false).
  { unfold snell_unrepresentable. cbn [sn_v6_mode sn_obfs extras tls n].
    destruct obfs as [[mode h w ve al]|]; [|done]. destruct Ho as (Hm & Hw & Hve & Hal). simpl in *. subst.
    destruct Hm as [-> | ->]; 
      rewrite lookup_empty; cbn; unfold tls_is_obfs_alias; cbn;
      repeat (case_bool_decide; try done). }
  set (params := param "version" (pretty (snell_as_u32 v)) ++ param_opt "udp" flag sup
    ++ param_opt "reuse" flag reuse ++ ps).
  apply (reads_back_url "snell" password None params (Some (format_query params))); try done.
  - rewrite <- single_emit. unfold snell_emit. cbn [authentication config n result_bind].
    rewrite Hrep. cbn [sn_obfs]. by rewrite Hps.
  - unfold params. auto 8 with ds.
  - by left.
  - unfold snell_parse. run_parser u Hpa. unfold params in Hquery. lookups u Hquery. rewrite Hv, Hu, Hr. cbn [ok_or result_bind].
    rewrite parse_unsigned_pretty by (by destruct v). cbn [ok_or result_bind].
    rewrite snell_roundtrip. cbn [ok_or result_bind]. rewrite !traverse_flag. cbn [result_bind].
    rewrite Hq by (rewrite Hquery; query_eval; by destruct (plookup ps _)). done.
Qed.

Lemma shadowtls_reads_back n :
  plain n → protocol n = ShadowTls → shadowtls_ok n →
  reads_back id now "shadow-tls" (shadowtls_parse id now) shadowtls_emit n.
Proof.
  intros Hpl Hpr Hok. pose proof Hpl as (_ & ? & ? & ? & ?). unfold shadowtls_ok in Hok. open_node Hok.
  destruct tl as [t|]; [|done].
  match goal with H : some_with _ (Some t) |- _ => destruct H as [[Et _] Hal] end.
  match goal with H : match password with Some _ => _ | None => _ end |- _ => rename H into Hpw end.
  destruct t as [en sn sk al fp pins re]. cbn [alpn] in Hal. subst al. injection Et as -> -> -> ->.
  set (n := mkNode _ _ _ _ _ _ _ _ _ _ _ _ _ _ _ _ _).
  set (params := param "version" (pretty (shadowtls_as_u32 version)) ++
    param_opt "sni" Datatypes.id sn ++ param_opt "insecure" flag sk).
  apply (reads_back_url "shadow-tls" (default "" password) None params (Some (format_query params))); try done.
  - by rewrite <- single_emit.
  - unfold params. auto 8 with ds.
  - by left.
  - unfold shadowtls_parse. run_parser u Hpa. unfold params in Hquery. lookups u Hquery. cbn [ok_or result_bind].
    rewrite parse_unsigned_pretty by (by destruct version). cbn [ok_or result_bind].
    rewrite shadowtls_roundtrip. cbn [ok_or result_bind].
    destruct (query_insecure_flag (collect_query u) "insecure" [] sk) as [E _]; [look Hquery|done|]. rewrite E.
    destruct password as [w|]; cbn [default].
    + rewrite is_empty_false by done. done.
    + by subst.
Qed.

Lemma show_reserved_read r : byte3 r → parse_reserved (show_reserved r) = Ok r.
Proof.
  destruct r as [[a b] c]. intros (Ha & Hb & Hc). unfold parse_reserved, show_reserved.
  assert (Hl : ∀ n : N, lacks "," (pretty n)) by (intros n; by apply UrlInstance.pretty_lacks).
  assert (Hu : ∀ n value, (n < 256)%N → parse_u8 value (pretty n) = Ok n).
  { intros n value Hn. unfold parse_u8.
    rewrite trim_tidy by (apply printable_tidy; auto using pretty_printable, pretty_nonempty).
    by rewrite parse_unsigned_pretty by lia. }
  cbn [String.append]. rewrite !split_app, split_lacks by done. by rewrite !Hu.
Qed.

Lemma wireguard_reads_back n :
  plain n → protocol n = WireGuard → wireguard_ok n →
  reads_back id now "wireguard" (wireguard_parse id now) wireguard_emit n.
Proof.
  intros Hpl Hpr Hok. pose proof Hpl as (_ & ? & ? & ? & ?). unfold wireguard_ok in Hok. open_node Hok.
  destruct c as [key addr peers mtu workers dns]. cbn [wg_private_key wg_address wg_peers wg_mtu wg_workers wg_dns] in *.
  match goal with H : ∃ peer, _ |- _ => destruct H as (peer & Hpeer & Hips & Hres & Hka) end. subst.
  set (n := mkNode _ _ _ _ _ _ _ _ _ _ _ _ _ _ _ _ _).
  set (cfg := mkWireGuard key addr [peer] mtu None []).
  apply (reads_back_url "wireguard" key None (wireguard_params cfg peer)
    (Some (format_query (wireguard_params cfg peer)))); try done.
  - by rewrite <- single_emit.
  - unfold wireguard_params. auto 12 with ds.
  - by left.
  - unfold wireguard_parse. run_parser u Hpa. unfold wireguard_params in Hquery; cbn [wg_address wg_mtu cfg] in Hquery.
    lookups u Hquery.
    destruct peer as [pk psk ips res ka]. cbn [wgp_public_key wgp_pre_shared_key wgp_reserved persistent_keepalive wgp_allowed_ips] in *.
    destruct addr as [|a addr]; [done|]. cbn [ok_or result_bind].
    assert (traverse parse_reserved (show_reserved <$> res) = Ok res) as ->.
    { destruct res as [r|]; [|done]. simpl. by rewrite show_reserved_read. }
    cbn [result_bind].
    assert (traverse (λ v, ok_or (parse_unsigned u32_max v) (PInvalidField "mtu" v)) (pretty <$> mtu) = Ok mtu) as ->.
    { destruct mtu as [m|]; [|done]. simpl. by rewrite parse_unsigned_pretty. }
    cbn [result_bind]. unfold parse_duration_secs. rewrite traverse_duration by done. cbn [result_bind].
    rewrite parse_alpn_comma by done. by subst ips.
Qed.

End readers.

End UriProtocols.

(** * Shadowsocks and VMess share URIs

    The two protocols whose URIs hide their parameters in Base64: the round
    trip of [shadowsocks.rs] and [vmess.rs] between parser and emitter. *)

From Stdlib Require Import Ascii.
From stdpp Require Import pretty.
From S2P Require Import Prelude Kernel Node Text Ip UrlText Float64 UriParse UriEmit UrlInstance UriRoundtrip.
Import Text Ip UrlText UriParse UriEmit UriRoundtrip UriProtocols.
#[local] Arguments String.append !_ _ / : simpl nomatch.

Module UriBase64.

Lemma utf8_valid_app a b : utf8_valid a = true → utf8_valid b = true → utf8_valid (a +:+ b) = true.
Proof.
  intros Ha Hb. remember (String.length a) as k eqn:Hk. revert a Hk Ha.
  induction (Nat.lt_wf_0 k) as [k _ IH]. intros a -> Ha.
  assert (Hrec : ∀ r, String.length r < String.length a → utf8_valid r = true → utf8_valid (r +:+ b) = true)
    by (intros r Hr; by apply (IH _ Hr r)).
  destruct a as [|c1 a]; [done|]. cbn [String.append utf8_valid String.length] in *.
  destruct (in_range 0 127 c1); [apply Hrec; [lia|done]|].
  destruct a as [|c2 a]; [done|]. cbn [String.append String.length] in *.
  destruct (in_range 194 223 c1).
  { apply andb_prop in Ha as [-> Ha]. apply Hrec; [lia|done]. }
  destruct a as [|c3 a]; [done|]. cbn [String.append String.length] in *.
  destruct (in_range 224 239 c1).
  { apply andb_prop in Ha as [-> Ha]. apply Hrec; [lia|done]. }
  destruct a as [|c4 a]; [done|]. cbn [String.append String.length] in *.
  apply andb_prop in Ha as [-> Ha]. apply Hrec; [lia|done].
Qed.

(** ** Hosts outside a URL *)

Lemma addr_unbracketed t : all_chars UrlInstance.addr_char t = true → strip_prefix "[" t = None.
Proof.
  destruct t as [|c t]; [done|]. cbn [all_chars strip_prefix]. intros [Hc _]%andb_prop.
  destruct (Ascii.eqb_spec "[" c) as [<-|]; done.
Qed.

Lemma parse_host_plain h : uri_host_ok h → parse_host (host_to_string h) = Ok h.
Proof.
  intros Hh. destruct h as [o|segs|d].
  - apply (parse_host_str (Ipv4 o)); done.
  - destruct Hh as [_ Hs]. cbn [host_ok] in Hs. unfold host_to_string, parse_host.
    pose proof (ipv6_from_display segs Hs) as E6.
    assert (Hne : is_empty (ipv6_display segs) = false) by (by destruct (ipv6_display segs)).
    rewrite Hne. unfold strip_brackets.
    rewrite addr_unbracketed by by apply UrlInstance.ipv6_display_addr. cbn [default].
    destruct (ipv4_from_str (ipv6_display segs)) eqn:E4; [apply ipv4_excludes_ipv6 in E4; congruence|].
    by rewrite E6.
  - apply (parse_host_str (Domain d)); done.
Qed.

Lemma parse_host_uri h : uri_host_ok h → parse_host (uri_host h) = Ok h.
Proof.
  intros Hh. apply parse_host_str; [done|]. destruct h as [o|segs|d]; [done| |done].
  exists (ipv6_display segs). split; [done|]. apply ipv6_from_display. apply Hh.
Qed.

Lemma parse_host_port_text node :
  endpoint_ok (endpoint node) →
  parse_host_port (host_port node) = Ok (host (endpoint node), port (endpoint node)).
Proof.
  intros [Hh Hp]. unfold parse_host_port, host_port. pose proof (parse_host_plain _ Hh) as Hparse.
  assert (Hcol : lacks ":" (pretty (port (endpoint node)))) by by apply UrlInstance.pretty_lacks.
  destruct (host (endpoint node)) as [o|segs|d] eqn:E; cbn [host_to_string uri_host] in *.
  - assert (strip_prefix "[" (ipv4_display o +:+ ":" +:+ pretty (port (endpoint node))) = None) as ->.
    { pose proof (UrlInstance.ipv4_display_addr o) as Ha. pose proof (ipv4_display_nonempty o).
      destruct (ipv4_display o) as [|c t]; [done|]. apply addr_unbracketed in Ha.
      cbn [strip_prefix String.append] in *. by destruct (Ascii.eqb "[" c). }
    cbn [String.append]. rewrite rsplit_once_app by done. cbn [ok_or result_bind].
    rewrite Hparse, parse_unsigned_pretty by done. done.
  - rewrite !string_app_assoc. cbn [String.append].
    change (strip_prefix "[" (String "[" (ipv6_display segs +:+ String "]" (String ":" (pretty (port (endpoint node)))))))
      with (Some (ipv6_display segs +:+ String "]" (String ":" (pretty (port (endpoint node)))))).
    cbv iota. rewrite split_once_app.
    2:{ eapply UrlInstance.class_lacks; [|apply UrlInstance.ipv6_display_addr, Hh]. done. }
    cbn [ok_or result_bind]. change (strip_prefix ":" (String ":" ?t)) with (Some t). cbn [ok_or result_bind].
    rewrite Hparse. simpl. by rewrite parse_unsigned_pretty.
  - destruct Hh as [[Hne Hd] _].
    assert (strip_prefix "[" (d +:+ ":" +:+ pretty (port (endpoint node))) = None) as ->.
    { destruct d as [|c t]; [done|]. cbn [all_chars] in Hd. apply andb_prop in Hd as [Hc _].
      cbn [String.append strip_prefix]. by destruct (Ascii.eqb_spec "[" c) as [<-|]. }
    cbn [String.append]. rewrite rsplit_once_app by done. cbn [ok_or result_bind].
    rewrite Hparse, parse_unsigned_pretty by done. done.
Qed.

(** ** Shadowsocks *)

Definition shadowsocks_ok (n : Node) : Prop :=
  match config n, authentication n with
  | CShadowsocks c, AuthPassword p =>
      lacks ":" (ss_method c) ∧ utf8_valid (ss_method c) = true ∧ utf8_valid p = true ∧
      match ss_plugin c with Some name => lacks ";" name | None => ss_plugin_opts c = None end ∧
      transport n = None ∧ tls n = None ∧ udp n = no_udp ∧ obfuscation n = None ∧
      congestion n = None ∧ extras n = ∅
  | _, _ => False
  end.

Section raw.
Context `{L : UrlLib} {HL : UrlLaws L}.
Variables (id : NodeId) (now : Z).

Definition reads_back_raw (parse : string → Result ParseError Node)
    (emit : Node → Result EmitError string) (n : Node) : Prop :=
  ∃ s, emit n = Ok s ∧ parse s = Ok (reimported id now s n).

Lemma decode_flexible e t x : base64_decode e t = Some x → decode_base64_flexible t = Ok x.
Proof.
  intros H. unfold decode_base64_flexible.
  assert (Hag : ∀ e' y, base64_decode e' t = Some y → y = x) by (intros e' y Hy; by eapply base64_agree).
  destruct (base64_decode STANDARD t) eqn:E1; [f_equal; by eapply Hag|].
  destruct (base64_decode STANDARD_NO_PAD t) eqn:E2; [f_equal; by eapply Hag|].
  destruct (base64_decode URL_SAFE t) eqn:E3; [f_equal; by eapply Hag|].
  destruct (base64_decode URL_SAFE_NO_PAD t) eqn:E4; simpl; [f_equal; by eapply Hag|].
  destruct e; congruence.
Qed.

Lemma from_utf8_valid t : utf8_valid t = true → from_utf8 t = Ok t.
Proof. unfold from_utf8. by intros ->. Qed.

Lemma split_opt_prefixed c a o : lacks c a → split_opt c (a +:+ prefixed (String c "") o) = (a, o).
Proof. apply UrlInstance.cut_prefixed. Qed.

Lemma split_opt_lacks c a : lacks c a → split_opt c a = (a, None).
Proof. intros Ha. unfold split_opt. by rewrite split_once_None. Qed.

(** The plugin as the query of the URI, and the path before it. *)
Definition plugin_query (c : ShadowsocksConfig) : option string :=
  (λ name, format_query (param "plugin" (ss_plugin_value name (ss_plugin_opts c)))) <$> ss_plugin c.
Definition plugin_path (c : ShadowsocksConfig) : string :=
  match ss_plugin c with Some _ => "/" | None => "" end.

Lemma plugin_read c :
  match ss_plugin c with Some name => lacks ";" name | None => ss_plugin_opts c = None end →
  ss_plugin_of (plugin_query c) = (ss_plugin c, ss_plugin_opts c).
Proof.
  intros H. unfold ss_plugin_of, plugin_query. destruct (ss_plugin c) as [name|]; simpl; [|by rewrite H].
  rewrite form_query by auto with ds. simpl. unfold ss_plugin_value.
  destruct (ss_plugin_opts c) as [opts|].
  - change (";" +:+ opts) with (prefixed ";" (Some opts)). by rewrite split_opt_prefixed.
  - by rewrite split_opt_lacks.
Qed.

Definition name_fragment (n : Node) : option string :=
  if is_empty (display_name n) then None else Some (format_fragment (display_name n)).

Lemma fragment_suffix_prefixed n : fragment_suffix n = prefixed "#" (name_fragment n).
Proof. unfold fragment_suffix, name_fragment. by destruct (is_empty (display_name n)). Qed.

Lemma name_fragment_decoded n : decode_fragment_parts (name_fragment n) = display_name n.
Proof.
  unfold decode_fragment_parts, name_fragment. destruct (display_name n) as [|c r]; [done|]. simpl.
  by apply percent_decode_encode.
Qed.

Lemma host_port_lacks n c :
  endpoint_ok (endpoint n) →
  UrlInstance.addr_char c || opaque_host_char c || one_of "[]" c = false → c ≠ ":"%char →
  lacks c (host_port n).
Proof.
  intros [[Hh _] _] Hc Hcol. unfold host_port. apply lacks_app. split; [by apply UrlInstance.uri_host_lacks|].
  apply lacks_string. split; [done|]. apply UrlInstance.pretty_lacks.
  destruct (in_range 48 57 c) eqn:E; [|done]. exfalso.
  enough (UrlInstance.addr_char c = true) as Ha by by rewrite Ha in Hc. clear Hc Hcol. revert E. by_ascii c.
Qed.

Lemma shadowsocks_reads_back n :
  plain n → protocol n = Shadowsocks → shadowsocks_ok n →
  reads_back_raw (shadowsocks_parse id now) shadowsocks_emit n.
Proof.
  intros Hpl Hpr Hok. pose proof Hpl as (He & Hmux & Hch & Htags & Hreg). unfold shadowsocks_ok in Hok.
  destruct (config n) as [| | | |c| | | | | | |] eqn:Ec; try done.
  destruct (authentication n) as [|p| | |] eqn:Ea; try done.
  destruct Hok as (Hm & Hmu & Hpu & Hplug & Htr & Htls & Hudp & Hobf & Hcong & Hext).
  set (ui := base64_encode URL_SAFE_NO_PAD (ss_method c +:+ ":" +:+ p)).
  set (authority := ui +:+ "@" +:+ host_port n +:+ plugin_path c).
  eexists. split; [unfold shadowsocks_emit; rewrite Ea, Ec; reflexivity|]. cbn [result_bind].
  set (s := "ss://" +:+ _).
  assert (Es : s = ("ss://" +:+ (authority +:+ prefixed "?" (plugin_query c))) +:+ prefixed "#" (name_fragment n)).
  { unfold s, authority, plugin_path, plugin_query. rewrite fragment_suffix_prefixed.
    destruct (ss_plugin c); cbn [fmap option_fmap option_map prefixed];
      repeat (rewrite string_app_assoc || cbn [String.append]); reflexivity. }
  assert (Hauth : ∀ ch, in_range 65 90 ch || in_range 97 122 ch || in_range 48 57 ch || one_of "+/=-_" ch = false →
    ch ≠ "@"%char → ch ≠ ":"%char →
    UrlInstance.addr_char ch || opaque_host_char ch || one_of "[]" ch = false → lacks ch authority).
  { intros ch H1 H2 H3 H4. unfold authority. apply lacks_app. split; [by apply base64_lacks|].
    apply lacks_string. split; [done|]. apply lacks_app. split; [by apply host_port_lacks|].
    unfold plugin_path. destruct (ss_plugin c); [|done]. apply lacks_string. split; [by intros ->|done]. }
  assert (Hq : lacks "#" (prefixed "?" (plugin_query c))).
  { unfold plugin_query. destruct (ss_plugin c); [|done]. apply lacks_string. split; [done|].
    eapply UrlInstance.class_lacks; [|apply format_query_class; auto with ds]. done. }
  assert (Hs : split_opt "#" s = ("ss://" +:+ (authority +:+ prefixed "?" (plugin_query c)), name_fragment n)).
  { rewrite Es. apply split_opt_prefixed, lacks_app. split; [done|]. apply lacks_app. split; [by apply Hauth|done]. }
  assert (Hss : strip_prefix "ss://" ("ss://" +:+ (authority +:+ prefixed "?" (plugin_query c)))
    = Some (authority +:+ prefixed "?" (plugin_query c))) by reflexivity.
  unfold shadowsocks_parse. rewrite Hs, Hss. clearbody s.
  cbn [ok_or result_bind]. rewrite split_opt_prefixed by by apply Hauth.
  assert (Hat : ss_authority authority = Ok ((ss_method c, p), (host (endpoint n), port (endpoint n)))).
  { unfold ss_authority, authority. cbn [String.append]. rewrite split_once_app by by apply base64_lacks.
    assert (split_opt "/" (host_port n +:+ plugin_path c) = (host_port n, match ss_plugin c with Some _ => Some "" | None => None end)) as ->.
    { unfold plugin_path. destruct (ss_plugin c).
      - apply (split_opt_prefixed "/" (host_port n) (Some "")). by apply host_port_lacks.
      - rewrite string_app_nil_r. apply split_opt_lacks. by apply host_port_lacks. }
    unfold ss_userinfo, ui. rewrite (decode_flexible URL_SAFE_NO_PAD _ _ (base64_roundtrip _ _)).
    rewrite from_utf8_valid by (apply utf8_valid_app; [done|by apply (utf8_valid_app ":")]).
    cbn [map_err result_bind String.append]. rewrite split_once_app by done. cbn [ok_or result_bind fst].
    by rewrite parse_host_port_text. }
  rewrite Hat. cbn [result_bind]. rewrite plugin_read by done.
  rewrite name_fragment_decoded. unfold reimported.
  destruct n as [? ? ? ? [? ?]]; simpl in *; subst. by destruct c.
Qed.

(** ** VMess *)

Definition json_fields (l : Params) : list (string * Json) := prod_map Datatypes.id JString <$> l.

Lemma member_json l k : member (json_fields l) k = JString <$> (list_to_map l : gmap string string) !! k.
Proof.
  unfold member, json_fields. induction l as [|[k' v] l IH]; simpl; [by rewrite lookup_empty|].
  destruct (String.eqb_spec k' k) as [->|Hne]; simpl.
  - by rewrite lookup_insert_eq.
  - rewrite lookup_insert_ne by done. apply IH.
Qed.

Lemma member_Permutation l l' k : NoDup l.*1 → l' ≡ₚ l → member (json_fields l') k = member (json_fields l) k.
Proof.
  intros Hnd Hp. rewrite !member_json. f_equal. f_equal. apply list_to_map_proper; [|done].
  by rewrite Hp.
Qed.

Lemma members_once_NoDup l : NoDup l.*1 → members_once (json_fields l) = true.
Proof.
  intros Hnd. apply forallb_forall. intros k _. apply Nat.leb_le. unfold json_fields.
  induction l as [|[k' v] l IH]; [simpl; lia|].
  apply NoDup_cons in Hnd as [Hk Hnd]. cbn [fmap list_fmap]. rewrite filter_cons. simpl.
  destruct (decide (k' = k)) as [->|]; [|by apply IH].
  assert (filter (λ kv : string * Json, kv.1 = k) (prod_map Datatypes.id JString <$> l) = []) as ->; [|simpl; lia].
  apply elem_of_nil_inv. intros x [Hx Hin]%list_elem_of_filter.
  apply list_elem_of_fmap in Hin as ([k2 v2] & -> & Hin). simpl in Hx. subst.
  apply Hk. by apply (list_elem_of_fmap_2 fst _ (k, v2)).
Qed.

Definition non_empty_opt (o : option string) : Prop := o ≠ Some "".

Lemma non_empty_default o : non_empty_opt o → non_empty (Some (default "" o)) = o.
Proof. intros H. destruct o as [t|]; [|done]. simpl. destruct t; [done|]. done. Qed.

Definition vmess_tls_ok (t : TlsConfig) : Prop :=
  t = mkTls true (server_name t) None (alpn t) None [] None ∧
  non_empty_opt (server_name t) ∧ comma_list (alpn t).

Definition vmess_transport_ok (t : Transport) : Prop :=
  tr_xhttp_mode t = None ∧ non_empty_opt (tr_path t) ∧ non_empty_opt (tr_host t).

Definition vmess_extras_ok (e : gmap string Json) : Prop :=
  e = ∅ ∨ ∃ ht, e = {[ "vmess_header_type" := JString ht ]} ∧ ht ≠ "" ∧ ht ≠ "none".

Definition vmess_ok (n : Node) : Prop :=
  match config n, authentication n with
  | CVMess c, AuthUuid u =>
      some_with (λ a, a ≤ u32_max)%N (vmess_alter_id c) ∧ some_with (λ t, t ≠ "") (vmess_security c) ∧
      non_empty_opt (vmess_packet_encoding c) ∧ some_with vmess_transport_ok (transport n) ∧
      opt_with vmess_tls_ok (tls n) ∧ vmess_extras_ok (extras n) ∧
      Forall (λ kv, utf8_valid kv.2 = true) (vmess_members n u c) ∧
      udp n = no_udp ∧ obfuscation n = None ∧ congestion n = None
  | _, _ => False
  end.

Definition header_extras (ht : string) : gmap string Json :=
  match non_empty (Some ht) with
  | Some ht => if String.eqb ht "none" then ∅ else {[ "vmess_header_type" := JString ht ]}
  | None => ∅
  end.

Lemma header_read n : vmess_extras_ok (extras n) → header_extras (vmess_header n) = extras n.
Proof.
  unfold vmess_header, header_extras. intros [-> | (ht & -> & Hne & Hn)].
  - by rewrite lookup_empty.
  - rewrite lookup_singleton_eq. destruct ht as [|c ht]; [done|]. cbn [non_empty is_empty].
    by rewrite (proj2 (String.eqb_neq _ _)).
Qed.

(** What the emitted object is read as. *)
Lemma vmess_fields_read n u c l :
  l ≡ₚ vmess_members n u c →
  vmess_of_json (JObject (json_fields l)) = Some (mkVmessJson (Some "2") (Some (display_name n))
    (host_to_string (host (endpoint n))) (JString (pretty (port (endpoint n)))) u
    (Some (JString (pretty (default 0%N (vmess_alter_id c))))) (Some (default "auto" (vmess_security c)))
    (Some (transport_kind_str (default Tcp (tr_kind <$> transport n)))) (Some (vmess_header n))
    (Some (default "" (transport n ≫= tr_host))) (Some (default "" (transport n ≫= tr_path)))
    (Some (match tls n with Some t => if tls_enabled t then "tls" else "" | None => "" end))
    (Some (default "" (tls n ≫= server_name))) (Some (default "" ((λ t, comma (alpn t)) <$> tls n)))
    (Some (default "" (vmess_packet_encoding c)))).
Proof.
  intros Hp. unfold vmess_of_json.
  assert (Hnd : NoDup (vmess_members n u c).*1) by (apply (bool_decide_unpack _); vm_compute; exact I).
  rewrite members_once_NoDup by by rewrite Hp.
  unfold vmess_of_members. rewrite !(member_Permutation (vmess_members n u c) l) by done. reflexivity.
Qed.

Lemma vmess_tls_read o :
  opt_with vmess_tls_ok o →
  (λ t, mkTls (String.eqb t "tls" || String.eqb t "reality" || String.eqb t "xtls")
     (non_empty (Some (default "" (o ≫= server_name)))) None
     (default [] (split "," <$> non_empty (Some (default "" ((λ t, comma (alpn t)) <$> o))))) None [] None)
    <$> non_empty (Some (match o with Some t => if tls_enabled t then "tls" else "" | None => "" end)) = o.
Proof.
  destruct o as [[en sn sk al fp pins re]|]; [|done]. intros (Et & Hsn & Hal). cbn [server_name alpn] in *.
  injection Et as -> -> -> -> ->. cbn [mbind option_bind server_name]. rewrite non_empty_default by done.
  cbn [tls_enabled fmap option_fmap option_map alpn default]. simpl. f_equal. f_equal.
  pose proof (parse_alpn_param al Hal) as E. unfold parse_alpn in E.
  destruct al as [|a al]; [done|]. cbn [fmap option_fmap option_map default] in E. revert E.
  by destruct (is_empty (comma (a :: al))).
Qed.

Lemma vmess_reads_back n :
  plain n → protocol n = VMess → vmess_ok n → reads_back_raw (vmess_parse id now) vmess_emit n.
Proof.
  intros Hpl Hpr Hok. pose proof Hpl as ([Hh Hp] & Hmux & Hch & Htags & Hreg). unfold vmess_ok in Hok.
  destruct (config n) as [| | | | |c| | | | | |] eqn:Ec; try done.
  destruct (authentication n) as [u| | | |] eqn:Ea; try done.
  destruct Hok as (Haid & Hsec & Hpe & Htr & Htls & Hext & Hutf & Hudp & Hobf & Hcong).
  assert (Hnd : NoDup (vmess_members n u c).*1) by (apply (bool_decide_unpack _); vm_compute; exact I).
  destruct (json_roundtrip (vmess_members n u c) Hnd) as (l & Hl & Hjson).
  assert (Hju : utf8_valid (json_to_string (JObject (json_fields (vmess_members n u c)))) = true).
  { apply json_utf8. assert (Hk : Forall (λ k, utf8_valid k = true) (vmess_members n u c).*1)
      by (repeat constructor). rewrite Forall_fmap in Hk. by apply Forall_and. }
  eexists. split; [unfold vmess_emit; rewrite Ea, Ec; reflexivity|].
  set (s := "vmess://" +:+ _).
  assert (Hs : strip_prefix "vmess://" s = Some (base64_encode STANDARD (json_to_string (JObject (json_fields (vmess_members n u c))))))
    by reflexivity.
  unfold vmess_parse. rewrite Hs. clearbody s. cbn [ok_or result_bind].
  rewrite (decode_flexible STANDARD _ _ (base64_roundtrip _ _)). cbn [result_bind].
  rewrite from_utf8_valid by done. cbn [map_err result_bind]. unfold json_fields at 1. rewrite Hjson.
  cbn [map_err result_bind]. change (prod_map Datatypes.id JString <$> l) with (json_fields l).
  rewrite (vmess_fields_read n u c l Hl).
  cbn [ok_or result_bind vj_port vj_aid vj_add vj_net vj_path vj_host vj_tls vj_sni vj_alpn vj_header_type
       vj_ps vj_scy vj_packet_encoding vj_id json_value_as traverse].
  rewrite parse_unsigned_pretty by done. cbn [ok_or result_bind].
  destruct (vmess_alter_id c) as [a|] eqn:Eaid; [|done]. cbn [default].
  rewrite parse_unsigned_pretty by done. cbn [ok_or result_bind].
  rewrite parse_host_plain by done. cbn [result_bind]. rewrite map_transport_kind_str. cbn [result_bind].
  destruct (transport n) as [tr|] eqn:Etr; [|done]. destruct Htr as (Hmode & Hpath & Hhost).
  cbn [mbind option_bind]. rewrite !non_empty_default by done.
  change (match non_empty (Some (vmess_header n)) with Some ht => _ | None => _ end) with (header_extras (vmess_header n)).
  rewrite header_read by done. unfold reimported.
  destruct (vmess_security c) as [sec|] eqn:Esec; [|done]. rewrite Etr.
  rewrite (vmess_tls_read (tls n)) by done.
  destruct n as [? ? ? ? [? ?]]; simpl in *; subst. destruct c, tr; simpl in *; subst.
  by destruct sec.
Qed.

End raw.

End UriBase64.
