(* ===== verification/UriTheorems.v ===== *)
(** * What share URIs guarantee

    The round trip for every protocol and for lists, the re-emission of every
    parsed URI, and the safety of emitted lists. *)

From Stdlib Require Import Ascii.
From stdpp Require Import pretty.
From S2P Require Import Prelude Kernel Node Text Ip UrlText Float64 UriParse UriEmit UrlInstance UriRoundtrip UriProtocols.
Import Text Ip UrlText UriParse UriEmit UriRoundtrip UriProtocols UriBase64.

#[local] Arguments String.append !_ _ / : simpl nomatch.

Module UriTheorems.

(** A node its share URI carries in full. *)
Definition canonical (n : Node) : Prop :=
  plain n ∧
  match protocol n with
  | Vless => vless_ok n
  | Trojan => trojan_ok n
  | Hysteria2 => hysteria2_ok n
  | TuicV5 => tuic_ok n
  | NaiveProxy => naive_ok n
  | Shadowsocks => shadowsocks_ok n
  | VMess => vmess_ok n
  | WireGuard => wireguard_ok n
  | AnyTls => anytls_ok n
  | Snell => snell_ok n
  | ShadowTls => shadowtls_ok n
  | _ => False
  end.

Section theorems.
Context `{L : UrlLib} {HL : UrlLaws L}.

(** The dispatcher sends an emitted URI to the parser of its scheme. *)
Lemma parse_uri_url id now scheme rest u :
  let s := scheme +:+ "://" +:+ rest in
  starts_with "ss://" s = false → starts_with "vmess://" s = false → url_parse s = Ok u → u_scheme u = scheme →
  parse_uri id now s =
    if String.eqb scheme "vless" then vless_parse id now u s
    else if String.eqb scheme "trojan" then trojan_parse id now u s
    else if String.eqb scheme "hysteria2" || String.eqb scheme "hy2" then hysteria2_parse id now u s
    else if String.eqb scheme "tuic" then tuic_parse id now u s
    else if String.eqb scheme "naive+https" || String.eqb scheme "naive+http" then naive_parse id now u s
    else if String.eqb scheme "wireguard" then wireguard_parse id now u s
    else if String.eqb scheme "anytls" then anytls_parse id now u s
    else if String.eqb scheme "snell" then snell_parse id now u s
    else if String.eqb scheme "shadow-tls" then shadowtls_parse id now u s
    else Err (UnknownScheme scheme).
Proof. intros s H1 H2 Hu Hs. unfold parse_uri. rewrite H1, H2, Hu. cbn [map_err result_bind]. by rewrite Hs. Qed.

Ltac dispatch_url H :=
  let s := fresh "s" in let u := fresh "u" in let rest := fresh "rest" in
  destruct H as (s & u & rest & Hemit & -> & Hu & Hsch & Hparse);
  eexists; split; [exact Hemit|];
  rewrite (parse_uri_url _ _ _ _ u); [exact Hparse|reflexivity|reflexivity|exact Hu|exact Hsch].

(** Every canonical node has a share URI, and importing that URI gives the
    node back, with a fresh identity and the URI as its provenance. *)
Lemma canonical_reads_back (id : NodeId) (now : Z) (n : Node) (Hn : canonical n) :
  ∃ s, emit_uri n = Ok s ∧ parse_uri id now s = Ok (reimported id now s n).
Proof.
  destruct Hn as [Hpl Hn]. unfold emit_uri. destruct (protocol n) eqn:Hp; try done.
  - dispatch_url (vless_reads_back id now n Hpl Hp Hn).
  - destruct (vmess_reads_back id now n Hpl Hp Hn) as (s & Hs & Hparse).
    exists s. split; [done|].
    assert (∃ t, s = "vmess://" +:+ t) as [t ->].
    { unfold vmess_emit in Hs. destruct (authentication n), (config n); try done.
      injection Hs as <-. by eexists. }
    exact Hparse.
  - dispatch_url (trojan_reads_back id now n Hpl Hp Hn).
  - destruct (shadowsocks_reads_back id now n Hpl Hp Hn) as (s & Hs & Hparse).
    exists s. split; [done|].
    assert (∃ t, s = "ss://" +:+ t) as [t ->].
    { unfold shadowsocks_emit in Hs. destruct (authentication n), (config n); try done.
      injection Hs as <-. by eexists. }
    exact Hparse.
  - dispatch_url (hysteria2_reads_back id now n Hpl Hp Hn).
  - dispatch_url (tuic_reads_back id now n Hpl Hp Hn).
  - pose proof (naive_reads_back id now n Hpl Hp Hn) as H. destruct (tls n); dispatch_url H.
  - dispatch_url (anytls_reads_back id now n Hpl Hp Hn).
  - dispatch_url (snell_reads_back id now n Hpl Hp Hn).
  - dispatch_url (wireguard_reads_back id now n Hpl Hp Hn).
  - dispatch_url (shadowtls_reads_back id now n Hpl Hp Hn).
Qed.

(** ** Every parsed URI can be emitted again *)

Ltac bind_ok H :=
  repeat match type of H with
  | result_bind ?c _ = Ok _ =>
      let x := fresh "x" in let Hx := fresh "Hx" in
      apply result_bind_Ok in H as (x & Hx & H)
  | (if ?b then Err _ else _) = Ok _ => destruct b; [discriminate H|]
  | (let '(_, _) := ?x in _) = Ok _ => destruct x
  end.

Lemma vless_reality_tls q o : vless_build_tls q true = Ok o → ∃ t r, o = Some t ∧ reality t = Some r.
Proof.
  unfold vless_build_tls. cbn [orb]. intros H. bind_ok H. bind_ok Hx0. injection H as <-. injection Hx0 as <-.
  by eexists _, _.
Qed.

Lemma snell_obfs_parsed q o :
  snell_parse_obfs q = Ok o →
  opt_with (λ o, (so_mode o = ObfsHttp ∨ so_mode o = ObfsTls) ∧ so_password o = None ∧ so_version o = None) o.
Proof.
  unfold snell_parse_obfs. destruct (q !! "obfs") as [m|]; [|by intros [= <-]]. intros H. bind_ok H.
  injection H as <-. simpl. destruct (String.eqb m "http"); [injection Hx as <-; auto|].
  destruct (String.eqb m "tls"); [injection Hx as <-; auto|discriminate].
Qed.

Lemma snell_representable n cfg :
  sn_v6_mode cfg = None → extras n = ∅ → tls n = snell_obfs_tls (sn_obfs cfg) →
  opt_with (λ o, (so_mode o = ObfsHttp ∨ so_mode o = ObfsTls) ∧ so_password o = None ∧ so_version o = None)
    (sn_obfs cfg) →
  snell_unrepresentable n cfg = false.
Proof.
  intros H6 He Ht Ho. unfold snell_unrepresentable. rewrite H6, He, Ht, lookup_empty.
  unfold tls_is_obfs_alias. destruct (sn_obfs cfg) as [[mode h w ve al]|]; [|done].
  destruct Ho as (Hm & Hw & Hve). simpl in *. subst.
  destruct Hm as [-> | ->]; cbn; repeat (case_bool_decide; try done).
Qed.

(** A typed node of protocol [p] that has a share URI. *)
Definition emits (p : ProtocolKind) (n : Node) : Prop :=
  (∃ t, emit_uri n = Ok t) ∧ protocol n = p ∧ ∀ u, config n ≠ CUnsupported u.

(** A VLESS URI whose [security] is not Reality. *)
Definition plain_vless (s : string) : bool :=
  negb (starts_with "ss://" s || starts_with "vmess://" s) &&
  match url_parse s with
  | Ok u => String.eqb (u_scheme u) "vless" && bool_decide (collect_query u !! "security" ≠ Some "reality")
  | Err _ => false
  end.

(** The protocol a URI announces. *)
Definition announced (s : string) : option ProtocolKind :=
  if starts_with "ss://" s then Some Shadowsocks
  else if starts_with "vmess://" s then Some VMess
  else match url_parse s with
       | Ok u => (list_to_map [("vless", Vless); ("trojan", Trojan); ("hysteria2", Hysteria2); ("hy2", Hysteria2);
           ("tuic", TuicV5); ("naive+https", NaiveProxy); ("naive+http", NaiveProxy); ("wireguard", WireGuard);
           ("anytls", AnyTls); ("snell", Snell); ("shadow-tls", ShadowTls)] : gmap string ProtocolKind) !! u_scheme u
       | Err _ => None
       end.

Ltac open_ok H := cbv zeta in H; bind_ok H; injection H as <-; split; [by eexists|done].

Lemma vless_parse_emits id now u s n :
  vless_parse id now u s = Ok n →
  if bool_decide (collect_query u !! "security" = Some "reality") then emits Vless n
  else protocol n = Vless ∧ (∃ why, config n = CUnsupported (mkUnsupported (JString s) (Some "vless-uri") why)) ∧
    emit_uri n = Err (NoEmitter "VLESS non-Reality").
Proof.
  unfold vless_parse. intros H. cbv zeta in H. bind_ok H. injection H as <-.
  assert (String.eqb (default "" (collect_query u !! "security")) "reality"
    = bool_decide (collect_query u !! "security" = Some "reality")) as Er.
  { destruct (collect_query u !! "security") as [v|]; [|done]. cbn.
    destruct (String.eqb_spec v "reality") as [->|]; symmetry; [by apply bool_decide_eq_true_2|].
    apply bool_decide_eq_false_2. congruence. }
  rewrite Er in *. destruct (bool_decide _).
  - apply vless_reality_tls in Hx1 as (t & r & -> & Hr). split; [|done]. unfold emit_uri, vless_emit.
    cbn. rewrite Hr. by eexists.
  - split; [done|]. split; [by eexists|done].
Qed.

Lemma snell_parse_emits id now u s n : snell_parse id now u s = Ok n → emits Snell n.
Proof.
  unfold snell_parse. intros H. cbv zeta in H. bind_ok H. injection H as <-. split; [|done].
  pose proof (snell_obfs_parsed _ _ Hx6) as Ho.
  unfold emit_uri, snell_emit. cbn [protocol authentication config result_bind].
  rewrite snell_representable by done. cbn [sn_obfs].
  destruct x6 as [o|]; [|by eexists]. destruct Ho as [[Hm|Hm] _]; unfold snell_obfs_params; rewrite Hm; by eexists.
Qed.

Lemma shadowtls_parse_emits id now u s n : shadowtls_parse id now u s = Ok n → emits ShadowTls n.
Proof. unfold shadowtls_parse. intros H. open_ok H. Qed.

(** C39: Every share URI that parses gives a node of the protocol its scheme
    announces.  A VLESS URI whose security is not Reality, and no other URI,
    gives an unsupported node, which keeps the URI and which the emitter refuses
    by name; every other node is typed and has a share URI again. *)
Theorem parsed_uri_emits (id : NodeId) (now : Z) (s : string) (n : Node) (Hp : parse_uri id now s = Ok n) :
  announced s = Some (protocol n) ∧
  if plain_vless s
  then (∃ why, config n = CUnsupported (mkUnsupported (JString s) (Some "vless-uri") why)) ∧
       emit_uri n = Err (NoEmitter "VLESS non-Reality")
  else (∃ t, emit_uri n = Ok t) ∧ ∀ u, config n ≠ CUnsupported u.
Proof.
  assert (∀ p, announced s = Some p → plain_vless s = false → emits p n →
    announced s = Some (protocol n) ∧ if plain_vless s
    then (∃ why, config n = CUnsupported (mkUnsupported (JString s) (Some "vless-uri") why)) ∧
       emit_uri n = Err (NoEmitter "VLESS non-Reality")
    else (∃ t, emit_uri n = Ok t) ∧ ∀ u, config n ≠ CUnsupported u) as Hemits.
  { intros p Ha Hv (He & <- & Hc). by rewrite Hv. }
  unfold parse_uri in Hp. unfold announced, plain_vless in *.
  destruct (starts_with "ss://" s).
  { apply (Hemits Shadowsocks); [done..|]. unfold shadowsocks_parse in Hp. open_ok Hp. }
  destruct (starts_with "vmess://" s).
  { apply (Hemits VMess); [done..|]. unfold vmess_parse in Hp. open_ok Hp. }
  apply result_bind_Ok in Hp as (u & Hu & Hp). destruct (url_parse s) as [u'|]; [|done]. apply Ok_inj in Hu as ->.
  cbn [orb negb andb] in *.
  destruct (String.eqb_spec (u_scheme u) "vless") as [Hs|]; cbn [andb] in *.
  { apply vless_parse_emits in Hp. rewrite Hs. rewrite bool_decide_not.
    destruct (bool_decide _); cbn [negb]; [destruct Hp as (? & -> & ?)|destruct Hp as (-> & ? & ?)]; done. }
  repeat match type of Hp with (if String.eqb ?a ?b || _ then _ else _) = _ => destruct (String.eqb_spec a b) as [Hs|]; cbn [orb] in Hp
    | (if String.eqb ?a ?b then _ else _) = _ => destruct (String.eqb_spec a b) as [Hs|] end; [..|done];
    rewrite Hs in Hemits |- *; (eapply Hemits; [vm_compute; reflexivity|done|]).
  - unfold trojan_parse in Hp. open_ok Hp.
  - unfold hysteria2_parse in Hp. open_ok Hp.
  - unfold hysteria2_parse in Hp. open_ok Hp.
  - unfold tuic_parse in Hp. open_ok Hp.
  - unfold naive_parse in Hp. open_ok Hp.
  - unfold naive_parse in Hp. open_ok Hp.
  - unfold wireguard_parse in Hp. open_ok Hp.
  - unfold anytls_parse in Hp. open_ok Hp.
  - by eapply snell_parse_emits.
  - by eapply shadowtls_parse_emits.
Qed.

(** ** One line per URI *)

(** Neither an ASCII control character nor a space. *)
Definition visible (c : ascii) : bool := printable c || N.leb 128 (code c).

Lemma printable_visible t : all_chars printable t = true → all_chars visible t = true.
Proof. apply all_chars_impl. intros c. by_ascii c. Qed.

(** A host as [parse_host] gives it: addresses are machine values, and a name
    has no character of the list it rejects.  The domain type itself does not
    check names. *)
Definition host_safe (h : Host) : Prop :=
  match h with
  | Ipv4 _ => True
  | Ipv6 segs => segments_ok segs
  | Domain d => rejected_host d = false
  end.

Lemma parse_host_safe t h : parse_host t = Ok h → match h with Domain d => rejected_host d = false | _ => True end.
Proof.
  unfold parse_host. destruct (is_empty t); [done|]. intros H.
  destruct (ipv4_from_str _); [by injection H as <-|].
  destruct (ipv6_from_str _); [by injection H as <-|].
  destruct (rejected_host _) eqn:E; [done|]. by injection H as <-.
Qed.

Lemma addr_printable t : all_chars UrlInstance.addr_char t = true → all_chars printable t = true.
Proof. apply all_chars_impl. intros c. by_ascii c. Qed.

Lemma uri_host_visible h : host_safe h → all_chars visible (uri_host h) = true.
Proof.
  destruct h as [o|segs|d]; intros Hh; unfold uri_host.
  - apply printable_visible, addr_printable, UrlInstance.ipv4_display_addr.
  - rewrite !all_chars_app.
    rewrite (printable_visible (ipv6_display segs)) by by apply addr_printable, UrlInstance.ipv6_display_addr.
    done.
  - cbn [host_safe] in Hh. apply orb_false_elim in Hh as [Hd%negb_false_iff _].
    eapply all_chars_impl; [|exact Hd]. intros c. by_ascii c.
Qed.

(** A line that is read as one entry: visible, trimmed, no comment. *)
Record entry_text (s : string) : Prop := {
  et_visible : all_chars visible s = true;
  et_tidy : tidy s;
  et_entry : ignored_line s = false
}.

Definition lower_start (s : string) : bool := match s with String c _ => in_range 97 122 c | _ => false end.

Lemma lower_visible c : in_range 97 122 c = true → printable c && negb (Ascii.eqb "#" c) = true.
Proof. by_ascii c. Qed.

Lemma entry_text_app a t :
  lower_start a = true → all_chars visible a = true → all_chars printable t = true → t ≠ "" →
  entry_text (a +:+ t).
Proof.
  intros Hl Ha Ht Hne. destruct a as [|c a]; [done|]. cbn [lower_start] in Hl.
  assert (Hc : printable c && negb (Ascii.eqb "#" c) = true) by by apply lower_visible.
  apply andb_prop in Hc as [Hc1 Hc2]. split.
  - rewrite all_chars_app, Ha. by apply printable_visible.
  - split; [by exists c, (a +:+ t)|]. destruct (printable_snoc t Ht Hne) as (t' & d & -> & Hd).
    exists (String c a +:+ t'), d. by rewrite string_app_assoc.
  - unfold ignored_line, starts_with. cbn [String.append is_empty orb strip_prefix].
    by destruct (Ascii.eqb "#" c).
Qed.

Lemma class_printable (q : ascii → bool) t :
  all_bits 8 (λ n, implb (q (Ascii.ascii_of_N n)) (printable (Ascii.ascii_of_N n))) 0 = true →
  all_chars q t = true → all_chars printable t = true.
Proof.
  intros Hq. apply all_chars_impl. intros c. apply Bool.implb_true_iff.
  revert c. apply (all_ascii (λ c, implb (q c) (printable c))). exact Hq.
Qed.

Lemma fragment_printable n : all_chars printable (fragment_suffix n) = true.
Proof.
  unfold fragment_suffix. destruct (is_empty (display_name n)); [done|].
  rewrite all_chars_app. simpl. eapply class_printable; [|apply fragment_encoded]. vm_compute. reflexivity.
Qed.

Lemma userinfo_printable t : all_chars printable (encode_userinfo t) = true.
Proof. eapply class_printable; [|apply userinfo_encoded]. vm_compute. reflexivity. Qed.

Lemma query_printable params : keys_ok params → all_chars printable (format_query params) = true.
Proof. intros H. eapply class_printable; [|by apply format_query_class]. vm_compute. reflexivity. Qed.

Lemma uri_with_entry scheme cred n q :
  lower_start scheme = true → all_chars printable scheme = true → all_chars printable cred = true →
  host_safe (host (endpoint n)) → opt_with (λ t, all_chars printable t = true) q →
  entry_text (uri_with scheme cred n q).
Proof.
  intros Hl Hs Hc Hh Hq. unfold uri_with, host_port.
  replace (scheme +:+ _) with ((scheme +:+ "://" +:+ cred +:+ "@" +:+ uri_host (host (endpoint n)) +:+ ":") +:+
    (pretty (port (endpoint n)) +:+ (match q with Some q => "?" +:+ q | None => "" end) +:+ fragment_suffix n))
    by (repeat (rewrite string_app_assoc || cbn [String.append]); reflexivity).
  apply entry_text_app.
  - by destruct scheme.
  - rewrite !all_chars_app, (uri_host_visible _ Hh), (printable_visible scheme), (printable_visible cred) by done. done.
  - rewrite !all_chars_app, pretty_printable, fragment_printable. destruct q as [t|]; [|done].
    cbn [opt_with] in Hq. rewrite all_chars_app, Hq. done.
  - pose proof (pretty_nonempty (port (endpoint n))). by destruct (pretty (port (endpoint n))).
Qed.

Lemma printable_app a b : all_chars printable a = true → all_chars printable b = true → all_chars printable (a +:+ b) = true.
Proof. intros Ha Hb. by rewrite all_chars_app, Ha, Hb. Qed.

Lemma unless_empty_printable params :
  keys_ok params → opt_with (λ t, all_chars printable t = true) (unless_empty (format_query params)).
Proof. intros Hk. unfold unless_empty. destruct (is_empty _); [done|]. by apply query_printable. Qed.

Lemma base64_printable e t : all_chars printable (base64_encode e t) = true.
Proof.
  eapply all_chars_impl; [|apply (base64_alphabet e t)]. intros c.
  apply Bool.implb_true_iff. revert c.
  apply (all_ascii (λ c, implb _ (printable c))). destruct e; vm_compute; reflexivity.
Qed.

(** Whatever its fields, the URI of a node is one entry. *)
Ltac url_entry H :=
  apply Ok_inj in H as <-; apply uri_with_entry; try done;
  [solve [repeat apply printable_app; try apply userinfo_printable; done]
  |solve [apply query_printable; unfold trojan_params, anytls_params, hysteria2_params, naive_params, tuic_params,
            vless_params, wireguard_params, tls_params, transport_params; auto 30 with ds
         |apply unless_empty_printable; unfold hysteria2_params, naive_params, tls_params; auto 30 with ds]].

Lemma snell_obfs_keys o ps : snell_obfs_params o = Ok ps → keys_ok ps.
Proof. unfold snell_obfs_params. intros H. bind_ok H. apply Ok_inj in H as <-. auto 8 with ds. Qed.

Lemma shadowsocks_entry n s :
  host_safe (host (endpoint n)) → shadowsocks_emit n = Ok s → entry_text s.
Proof.
  intros Hh H. unfold shadowsocks_emit in H. bind_ok H. apply Ok_inj in H as <-.
  match goal with |- entry_text ("ss://" +:+ ?ui +:+ "@" +:+ host_port n +:+ ?p +:+ ?f) =>
    replace ("ss://" +:+ ui +:+ "@" +:+ host_port n +:+ p +:+ f) with
      (("ss://" +:+ ui +:+ "@" +:+ uri_host (host (endpoint n)) +:+ ":") +:+ (pretty (port (endpoint n)) +:+ p +:+ f))
      by (unfold host_port; repeat (rewrite string_app_assoc || cbn [String.append]); reflexivity) end.
  apply entry_text_app; [done| | |].
  - rewrite !all_chars_app, (uri_host_visible _ Hh), (printable_visible (base64_encode _ _)) by apply base64_printable.
    done.
  - rewrite !all_chars_app, pretty_printable, fragment_printable. destruct (ss_plugin x0); [|done].
    rewrite all_chars_app. simpl.
    rewrite andb_true_r. eapply class_printable; [|apply query_value_encoded]. vm_compute. reflexivity.
  - pose proof (pretty_nonempty (port (endpoint n))). by destruct (pretty (port (endpoint n))).
Qed.

Lemma vmess_entry n s : vmess_emit n = Ok s → entry_text s.
Proof.
  intros H. unfold vmess_emit in H. bind_ok H. apply Ok_inj in H as <-.
  set (b := base64_encode _ _).
  replace ("vmess://" +:+ b) with ("vmess:" +:+ ("//" +:+ b)) by done.
  apply entry_text_app; try done. rewrite all_chars_app. simpl. apply base64_printable.
Qed.

Lemma emit_uri_entry n s : host_safe (host (endpoint n)) → emit_uri n = Ok s → entry_text s.
Proof.
  intros Hh H. unfold emit_uri in H. destruct (protocol n); try discriminate H.
  - unfold vless_emit in H. bind_ok H. url_entry H.
  - by eapply vmess_entry.
  - unfold trojan_emit in H. bind_ok H. url_entry H.
  - by eapply shadowsocks_entry.
  - unfold hysteria2_emit in H. bind_ok H. url_entry H.
  - unfold tuic_emit in H. bind_ok H. url_entry H.
  - unfold naive_emit in H. bind_ok H. destruct (tls n) eqn:Et; url_entry H.
  - unfold anytls_emit in H. bind_ok H. apply Ok_inj in H as <-. apply uri_with_entry; try done; [apply userinfo_printable|].
    destruct (anytls_params n) as [|kv l] eqn:E; [done|]. rewrite <- E. apply query_printable.
    unfold anytls_params, tls_params. auto 12 with ds.
  - unfold snell_emit in H. bind_ok H. apply Ok_inj in H as <-. apply uri_with_entry; try done; [apply userinfo_printable|].
    apply query_printable. assert (keys_ok x1) by (destruct (sn_obfs x0); [by eapply snell_obfs_keys|by apply Ok_inj in Hx1 as <-; constructor]).
    auto 8 with ds.
  - unfold wireguard_emit in H. bind_ok H. url_entry H.
  - unfold shadowtls_emit in H. bind_ok H. 
    match type of H with match ?k with _ => _ end = _ => destruct k; try discriminate H end. bind_ok H. apply Ok_inj in H as <-.
    apply uri_with_entry; try done; [apply userinfo_printable|]. apply query_printable. auto 12 with ds.
Qed.

(** ** Lists *)

Lemma entry_lacks_lf s : entry_text s → lacks "010" s.
Proof.
  intros [Hv _ _]. eapply all_chars_impl; [|exact Hv]. intros c. by_ascii c.
Qed.

Lemma strip_cr_tidy s : tidy s → strip_cr s = s.
Proof.
  intros [_ (t & d & -> & Hd)]. unfold strip_cr. rewrite rev_app_distr.
  change (String.rev (String d "")) with (String d ""). cbn [String.append strip_prefix].
  by destruct (Ascii.eqb_spec "013" d) as [<-|]; [vm_compute in Hd|].
Qed.

Lemma lines_join uris : Forall entry_text uris → lines (join (String "010" "") uris) = uris.
Proof.
  intros He. destruct uris as [|u uris]; [done|]. unfold lines. rewrite split_join; [|done|].
  2:{ eapply Forall_impl; [exact He|]. apply entry_lacks_lf. }
  assert (Hl : last (u :: uris) ≠ Some "").
  { intros Hl%last_Some_elem_of. rewrite Forall_forall in He.
    destruct (He _ Hl) as [_ [(c & t & ? & _) _] _]. done. }
  rewrite bool_decide_eq_false_2 by done. rewrite <- (list_fmap_id (u :: uris)) at 2.
  apply list_fmap_ext. intros i x Hx. apply strip_cr_tidy.
  apply (Forall_lookup_1 _ _ _ _ He Hx).
Qed.

Lemma emit_lines_entries nodes uris :
  Forall (λ n, host_safe (host (endpoint n))) nodes → emit_lines nodes = Ok uris → Forall entry_text uris.
Proof.
  intros Hh. revert uris. induction Hh as [|n nodes Hn _ IH]; intros uris H; simpl in H.
  { injection H as <-. constructor. }
  destruct (emit_uri n) as [uri|e] eqn:E.
  - apply result_bind_Ok in H as (rest & Hr & [= <-]). constructor; [by eapply emit_uri_entry|auto].
  - destruct e; try discriminate H. auto.
Qed.

(** The entries of a list of one-line texts, each read on its own. *)
Lemma parse_lines_entries draw ls k nodes :
  Forall entry_text ls → k + length ls ≤ MAX_ENTRIES →
  parse_lines draw ls k nodes = Ok (nodes ++ concat (imap (λ i u, parse_line draw (S (k + i)) u) ls)).
Proof.
  intros He. revert k nodes. induction He as [|u ls Hu He IH]; intros k nodes Hk; simpl.
  { by rewrite app_nil_r. }
  destruct Hu as [_ Ht Hi]. rewrite trim_tidy, Hi by done. simpl in Hk.
  unfold check_entry_count. destruct (Nat.ltb_spec MAX_ENTRIES (S k)); [lia|]. cbn [result_bind].
  rewrite IH by lia. rewrite <- app_assoc, Nat.add_0_r. do 2 f_equal. f_equal. f_equal.
  apply imap_ext. intros i x _. simpl. by rewrite Nat.add_succ_r.
Qed.

(** C32: However hostile the fields of the nodes, an emitted list re-imports
    as exactly one entry per emitted URI, in order, each parsed on its own: no
    name, credential or parameter opens a new line, a comment or a blank. *)
Theorem emitted_list_entries (draw : nat → NodeId * Z) (nodes : list Node) (uris : list string) (text : string)
  (Hh : Forall (λ n, host_safe (host (endpoint n))) nodes) (Hu : emit_lines nodes = Ok uris)
  (Ht : emit_uri_list nodes = Ok text) (Hmax : length uris ≤ MAX_ENTRIES) :
  lines text = uris ∧
  parse_uri_list draw text = Ok (concat (imap (λ i u, parse_line draw (S i) u) uris)).
Proof.
  pose proof (emit_lines_entries nodes uris Hh Hu) as He.
  unfold emit_uri_list in Ht. rewrite Hu in Ht. cbn [result_bind] in Ht. injection Ht as <-.
  unfold parse_uri_list. rewrite lines_join by done. split; [done|].
  by rewrite parse_lines_entries.
Qed.

(** The nodes agree in everything but identity and provenance. *)
Definition same_config (n n' : Node) : Prop := ∃ id now uri, n' = reimported id now uri n.

Lemma canonical_host_safe n : canonical n → host_safe (host (endpoint n)).
Proof.
  intros [[[[Hu Hh] _] _] _]. destruct (host (endpoint n)) as [o|segs|d]; [done|done|].
  destruct Hu as [_ Hd]. eapply (visible_not_rejected opaque_host_char); [|exact Hd]. intros c. by_ascii c.
Qed.

Lemma canonical_lines nodes :
  Forall canonical nodes →
  ∃ uris, emit_lines nodes = Ok uris ∧ length uris = length nodes ∧
    ∀ draw k, Forall2 same_config nodes (concat (imap (λ i u, parse_line draw (S (k + i)) u) uris)).
Proof.
  induction 1 as [|n nodes Hn _ (uris & He & Hl & Hd)]; [by exists []|].
  destruct (canonical_reads_back 0%N 0%Z n Hn) as (s & Hs & _).
  exists (s :: uris). cbn [emit_lines]. rewrite Hs, He. split_and!; [done|simpl; lia|].
  intros draw k. cbn [imap concat]. unfold parse_line at 1. rewrite Nat.add_0_r.
  destruct (draw (S k)) as [id now].
  destruct (canonical_reads_back id now n Hn) as (s' & Hs' & Hp).
  assert (s' = s) as -> by congruence. rewrite Hp. simpl. constructor; [by eexists _, _, _|].
  rewrite (imap_ext _ (λ i u, parse_line draw (S (S k + i)) u)); [apply Hd|].
  intros i x _. simpl. by rewrite Nat.add_succ_r.
Qed.

(** C6: A list of canonical nodes is emitted as text that re-imports as the
    same list: same length, same order, every field the same but identity and
    provenance. *)
Theorem uri_list_roundtrip (draw : nat → NodeId * Z) (nodes : list Node)
  (Hc : Forall canonical nodes) (Hmax : length nodes ≤ MAX_ENTRIES) :
  ∃ text nodes', emit_uri_list nodes = Ok text ∧ parse_uri_list draw text = Ok nodes' ∧
    Forall2 same_config nodes nodes'.
Proof.
  destruct (canonical_lines nodes Hc) as (uris & He & Hl & Hd).
  assert (Hs : Forall entry_text uris).
  { eapply emit_lines_entries; [|exact He]. eapply Forall_impl; [exact Hc|]. apply canonical_host_safe. }
  eexists _, _. unfold emit_uri_list. rewrite He. split_and!; [done| |exact (Hd draw 0)].
  unfold parse_uri_list. rewrite lines_join by done. by rewrite parse_lines_entries by (done || lia).
Qed.

(** ** What WireGuard URIs lose *)

Definition with_allowed_ips (ips : list string) (n : Node) : Node :=
  match config n with
  | CWireGuard c =>
      let peers := (λ p, mkWireGuardPeer (wgp_public_key p) (wgp_pre_shared_key p) ips (wgp_reserved p)
                           (persistent_keepalive p)) <$> wg_peers c in
      mkNode (n_id n) (display_name n) (protocol n)
        (CWireGuard (mkWireGuard (wg_private_key c) (wg_address c) peers (wg_mtu c) (wg_workers c) (wg_dns c)))
        (endpoint n) (authentication n) (transport n) (tls n) (udp n) (multiplex n) (obfuscation n)
        (congestion n) (n_chain n) (source n) (n_tags n) (region n) (extras n)
  | _ => n
  end.

Lemma allowed_ips_not_emitted ips n : emit_uri (with_allowed_ips ips n) = emit_uri n.
Proof.
  unfold with_allowed_ips. destruct (config n) as [| | | | | | |c| | | |] eqn:Ec; try done.
  unfold emit_uri. cbn [protocol]. destruct (protocol n) eqn:Ep; try done;
    unfold wireguard_emit, vless_emit, vmess_emit, trojan_emit, shadowsocks_emit, hysteria2_emit, tuic_emit,
      naive_emit, anytls_emit, snell_emit, shadowtls_emit; rewrite ?Ec; try done.
  cbn [authentication config]. destruct c as [k a [|p ps] m w d]; try done.
Qed.

(** A WireGuard node restricted to some routes is emitted without them,
    and its URI re-imports as a node that routes everything. *)
Theorem wireguard_routes_widened (id : NodeId) (now : Z) (ips : list string) (n : Node)
  (Hn : canonical n) (Hp : protocol n = WireGuard) :
  ∃ s, emit_uri (with_allowed_ips ips n) = Ok s ∧ parse_uri id now s = Ok (reimported id now s n).
Proof. rewrite allowed_ips_not_emitted. by apply canonical_reads_back. Qed.

End theorems.

(** The text [[]] passes the empty-host check and becomes a nameless host. *)
Lemma empty_brackets_accepted : parse_host "[]" = Ok (Domain "").
Proof. vm_compute. reflexivity. Qed.

(** ** Concrete nodes *)

#[local] Existing Instance UrlInstance.url_lib.
#[local] Existing Instance UrlInstance.url_laws.

Definition demo_node (name : string) (k : ProtocolKind) (c : ProtocolConfig) (h : Host) (a : Authentication)
    (tr : option Transport) (t : option TlsConfig) : Node :=
  mkNode 7 name k c (mkEndpoint h 443) a tr t no_udp None None None None
    (mkNodeSource "feed" None 0) [] (mkRegion RegionAuto None) ∅.

Definition demo_trojan : Node :=
  demo_node "A # b" Trojan (CTrojan (mkTrojan None)) (Ipv6 [8193; 3512; 0; 0; 0; 0; 0; 1]%N) (AuthPassword "p@ss:w")
    (Some (mkTransport Xhttp (Some "/a?b") None (Some StreamUp)))
    (Some (mkTls true (Some "example.com") (Some false) ["h2"; "http/1.1"] None [] None)).

Definition demo_shadowsocks : Node :=
  demo_node "" Shadowsocks (CShadowsocks (mkShadowsocks "aes-256-gcm" (Some "obfs-local") (Some "obfs=http")))
    (Domain "relay.example") (AuthPassword "a:b") None None.

Definition demo_wireguard : Node :=
  demo_node "wg" WireGuard
    (CWireGuard (mkWireGuard "key" ["10.0.0.2/32"]
       [mkWireGuardPeer "peer" None ["0.0.0.0/0"; "::/0"] (Some (1, 2, 3)%N) (Some 25000000000%Z)]
       (Some 1408%N) None [])) (Ipv4 (192, 0, 2, 1)%N) AuthNone None None.

Lemma demo_trojan_canonical : canonical demo_trojan.
Proof.
  split.
  - split; [|done]. split; [|done]. split; cbn.
    + split; [done|]. repeat constructor.
    + split; [done|]. repeat constructor.
  - cbn. split_and!; try done. split; [done|]. split; [by repeat constructor|done].
Qed.

Lemma demo_shadowsocks_canonical : canonical demo_shadowsocks.
Proof.
  split; [|by cbn; split_and!].
  split; [|done]. split; [|done]. split; cbn; by split_and!.
Qed.

Lemma demo_wireguard_canonical : canonical demo_wireguard.
Proof.
  split; [by split|]. cbn. split_and!; try done.
  - split; [by repeat constructor|done].
  - eexists. split_and!; [done|done|done|]. exists 25%Z. split; [done|]. by split.
Qed.

Lemma uri_list_roundtrip_witness :
  ∃ text nodes', emit_uri_list [demo_trojan; demo_shadowsocks; demo_wireguard] = Ok text ∧
    parse_uri_list (λ k, (N.of_nat k, 0%Z)) text = Ok nodes' ∧
    Forall2 same_config [demo_trojan; demo_shadowsocks; demo_wireguard] nodes'.
Proof.
  apply (uri_list_roundtrip (L := UrlInstance.url_lib) (λ k, (N.of_nat k, 0%Z))).
  - rewrite !Forall_cons.
    exact (conj demo_trojan_canonical (conj demo_shadowsocks_canonical (conj demo_wireguard_canonical (Forall_nil_2 _)))).
  - unfold MAX_ENTRIES. simpl length. lia.
Defined.

Lemma wireguard_routes_widened_witness :
  ∃ s, emit_uri (with_allowed_ips ["10.0.0.0/8"] demo_wireguard) = Ok s ∧
    parse_uri 9 0 s = Ok (reimported 9 0 s demo_wireguard).
Proof.
  exact (wireguard_routes_widened (L := UrlInstance.url_lib) 9 0 ["10.0.0.0/8"] demo_wireguard
    demo_wireguard_canonical eq_refl).
Defined.

(** A name that tries to open a second line. *)
Definition hostile_trojan : Node :=
  demo_node (String "010" "trojan://x@evil:1") Trojan (CTrojan (mkTrojan None)) (Domain "real.example")
    (AuthPassword (String "010" "#")) None None.

Lemma emitted_list_entries_witness :
  ∃ text uris, lines text = uris ∧ length uris = 2 ∧
    parse_uri_list (λ k, (N.of_nat k, 0%Z)) text
    = Ok (concat (imap (λ i u, parse_line (λ k, (N.of_nat k, 0%Z)) (S i) u) uris)).
Proof.
  eexists _, _.
  assert (∀ a b c : Prop, a ∧ c → b → a ∧ b ∧ c) as Hand by tauto. apply Hand.
  - eapply (emitted_list_entries (L := UrlInstance.url_lib) (λ k, (N.of_nat k, 0%Z)) [hostile_trojan; demo_wireguard]);
      [|vm_compute; reflexivity|vm_compute; reflexivity|unfold MAX_ENTRIES; simpl length; lia].
    repeat constructor.
  - reflexivity.
Defined.

Lemma parsed_uri_emits_witness :
  (∃ n, parse_uri 9 0 "trojan://p%40ss@192.0.2.1:443?type=ws&sni=a.example#x" = Ok n ∧ (∃ t, emit_uri n = Ok t)) ∧
  (∃ n, parse_uri 9 0 "vless://u@192.0.2.1:443?security=tls#x" = Ok n ∧ emit_uri n = Err (NoEmitter "VLESS non-Reality")).
Proof.
  assert (∀ a b : Prop, a → (a → b) → a ∧ b) as Hand by tauto. split; eexists; (apply Hand; [vm_compute; reflexivity|]).
  - intros H. exact (proj1 (proj2 (parsed_uri_emits (L := UrlInstance.url_lib) _ _ _ _ H))).
  - intros H. exact (proj2 (proj2 (parsed_uri_emits (L := UrlInstance.url_lib) _ _ _ _ H))).
Defined.

End UriTheorems.
