(* ===== verification/RateLimiter.v ===== *)
(** * Login rate limiter ([crates/deve-sub-inmemory/src/rate_limiter.rs])

    The bounded table of username and IP failure records.  The mutex of the
    source serialises the operations, so each one is a state transformer; the
    value of [Instant::now()] under the lock is an argument. *)

From S2P Require Import Prelude Kernel.

Module RateLimiter.
Local Open Scope N_scope.

Definition MAX_ENTRIES : nat := N.to_nat 10000.
Definition EVICTION_BATCH : nat := 256%nat.

(** Time is in nanoseconds.  [Duration] holds [u64] seconds and less than a
    second of nanoseconds. *)
Definition one_second : N := 1000000000.
Definition duration_max : N := u64_max * one_second + 999999999.

(** [Duration::saturating_mul] *)
Definition saturating_mul (d n : N) : N := N.min (d * n) duration_max.

(** A 32-byte digest, read as a big-endian number: the derived order of
    [[u8; 32]] is the order of these numbers. *)
Abbreviation Key := N (only parsing).

Record RateLimitEntry := mkEntry {
  failed_attempts : N;
  locked_until : option N;
  last_failure : N
}.

Record State := mkState {
  entries : gmap Key RateLimitEntry;
  next_sweep : N
}.

Inductive AuthError := RateLimited.

Section limiter.
(** The fields of [InMemoryLoginRateLimiter]. *)
Variables (max_attempts lockout_duration : N).
(** The last representable [Instant] of the platform, and [sha2]'s SHA-256. *)
Variable instant_max : N.
Variable sha256 : string → Key.

(** [Instant::checked_add] *)
Definition checked_add (now d : N) : option N :=
  if N.leb (now + d) instant_max then Some (now + d) else None.

(** [Self::key] *)
Definition key (namespace : Ascii.ascii) (value : string) : Key := sha256 (String namespace value).

(** [Self::keys], flattened as every caller does. *)
Definition keys (username : string) (ip : option string) : list Key :=
  key Ascii.zero username ::
  match ip with Some ip => [key Ascii.one ip] | None => [] end.

(** [keys.iter().flatten().filter(|key| !entries.contains_key(key)).count()] *)
Definition count_missing (es : gmap Key RateLimitEntry) (ks : list Key) : nat :=
  length (filter (λ k, es !! k = None) ks).

(** The closure of [retain]. *)
Definition retained (ks : list Key) (now : N) (p : Key * RateLimitEntry) : Prop :=
  p.1 ∈ ks ∨
  match locked_until p.2 with
  | Some until => now < until
  | None => now - last_failure p.2 < saturating_mul lockout_duration 2
  end.

#[export] Instance retained_dec ks now p : Decision (retained ks now p).
Proof. unfold retained. destruct (locked_until p.2); apply _. Defined.

(** The filter of the eviction candidates. *)
Definition evictable (ks : list Key) (now : N) (p : Key * RateLimitEntry) : Prop :=
  (p.1 ∉ ks) ∧
  match locked_until p.2 with Some until => until ≤ now | None => True end.

#[export] Instance evictable_dec ks now p : Decision (evictable ks now p).
Proof. unfold evictable. destruct (locked_until p.2); apply _. Defined.

(** The derived order of [(Instant, [u8; 32])]. *)
Definition compare_candidates (a b : N * Key) : comparison :=
  match N.compare a.1 b.1 with Eq => N.compare a.2 b.2 | c => c end.

(** The keys evicted by one batch.  [select_nth_unstable(n)] puts the [n]
    least candidates first; candidates are pairwise distinct, so these are
    the first [n] of the sorted list. *)
Definition victims (ks : list Key) (now : N) (es : gmap Key RateLimitEntry) : list Key :=
  let candidates := (λ p : Key * RateLimitEntry, (last_failure p.2, p.1)) <$>
    filter (evictable ks now) (map_to_list es) in
  let evicted := Nat.min (length candidates) EVICTION_BATCH in
  snd <$> take evicted (sort_by compare_candidates candidates).

(** [make_room] *)
Definition make_room (st : State) (ks : list Key) (now : N) : State :=
  let missing := count_missing (entries st) ks in
  if Nat.leb missing (MAX_ENTRIES - size (entries st)) || N.ltb now (next_sweep st) then st
  else
    let before := size (entries st) in
    let kept := filter (retained ks now) (entries st) in
    if Nat.leb missing (MAX_ENTRIES - size kept) then
      mkState kept
        (if Nat.ltb (before - size kept) EVICTION_BATCH then now + one_second else next_sweep st)
    else
      let rest := foldl (λ es k, delete k es) kept (victims ks now kept) in
      mkState rest
        (if Nat.ltb (before - size rest) EVICTION_BATCH then now + one_second else next_sweep st).

(** The key loop of [check]: the table it leaves, and the number of missing
    keys, or [None] for the early [RateLimited] return. *)
Fixpoint check_keys (now : N) (es : gmap Key RateLimitEntry) (ks : list Key) (missing : nat) :
    gmap Key RateLimitEntry * option nat :=
  match ks with
  | [] => (es, Some missing)
  | k :: ks =>
      match es !! k with
      | Some e =>
          match locked_until e with
          | Some until =>
              if N.ltb now until then (es, None)
              else check_keys now
                (<[k := mkEntry (failed_attempts e) None (last_failure e)]> es) ks missing
          | None => check_keys now es ks missing
          end
      | None => check_keys now es ks (missing + 1)
      end
  end.

(** [LoginRateLimiter::check] *)
Definition check (st : State) (now : N) (username : string) (ip : option string) :
    State * Result AuthError () :=
  let ks := keys username ip in
  match check_keys now (entries st) ks 0 with
  | (es, None) => (mkState es (next_sweep st), Err RateLimited)
  | (es, Some missing) =>
      let st := make_room (mkState es (next_sweep st)) ks now in
      if Nat.ltb (MAX_ENTRIES - size (entries st)) missing then (st, Err RateLimited)
      else (st, Ok ())
  end.

(** One iteration of the loop of [record_failure]. *)
Definition fail_entry (now : N) (o : option RateLimitEntry) : RateLimitEntry :=
  let e := default (mkEntry 0 None now) o in
  let attempts := saturating_add_u32 (failed_attempts e) 1 in
  mkEntry attempts
    (if N.leb max_attempts attempts then checked_add now lockout_duration else locked_until e) now.

Definition record_key (now : N) (es : gmap Key RateLimitEntry) (k : Key) : gmap Key RateLimitEntry :=
  if bool_decide (es !! k = None) && Nat.eqb (size es) MAX_ENTRIES then es
  else <[k := fail_entry now (es !! k)]> es.

(** [LoginRateLimiter::record_failure] *)
Definition record_failure (st : State) (now : N) (username : string) (ip : option string) : State :=
  let ks := keys username ip in
  let st := make_room st ks now in
  mkState (foldl (record_key now) (entries st) ks) (next_sweep st).

(** [LoginRateLimiter::record_success] *)
Definition record_success (st : State) (username : string) : State :=
  mkState (delete (key Ascii.zero username) (entries st)) (next_sweep st).

(** ** The limiter as a step relation over calls *)

Inductive Event :=
  | ECheck (now : N) (username : string) (ip : option string)
  | EFailure (now : N) (username : string) (ip : option string)
  | ESuccess (username : string).

Definition step (st : State) (ev : Event) : State :=
  match ev with
  | ECheck now u ip => (check st now u ip).1
  | EFailure now u ip => record_failure st now u ip
  | ESuccess u => record_success st u
  end.

(** *** Invariant: the table is bounded, and a lock is what the last failure
    of a key over the threshold set. *)

Definition entry_ok (e : RateLimitEntry) : Prop :=
  match locked_until e with
  | Some until => max_attempts ≤ failed_attempts e ∧ until = last_failure e + lockout_duration
  | None => True
  end.

Record limiter_ok (st : State) : Prop := {
  ok_size : (size (entries st) ≤ MAX_ENTRIES)%nat;
  ok_entries : map_Forall (λ _, entry_ok) (entries st)
}.

Lemma delete_list_lookup (ks : list Key) (es : gmap Key RateLimitEntry) k :
  (k ∉ ks) → foldl (λ es k, delete k es) es ks !! k = es !! k.
Proof.
  revert es. induction ks as [|k' ks IH]; intros es; simpl; [done|].
  rewrite not_elem_of_cons. intros [? ?]. rewrite IH by done. by rewrite lookup_delete_ne.
Qed.

Lemma delete_list_subseteq (ks : list Key) (es : gmap Key RateLimitEntry) :
  foldl (λ es k, delete k es) es ks ⊆ es.
Proof.
  revert es. induction ks as [|k' ks IH]; intros es; simpl; [done|].
  etrans; [apply IH|apply delete_subseteq].
Qed.

(** The three ways [make_room] leaves the table. *)
Lemma make_room_cases st ks now :
  let kept := filter (retained ks now) (entries st) in
  entries (make_room st ks now) = entries st ∨
  entries (make_room st ks now) = kept ∨
  entries (make_room st ks now) = foldl (λ es k, delete k es) kept (victims ks now kept).
Proof.
  unfold make_room. destruct (_ || _); [by left|]. destruct (Nat.leb _ _); auto.
Qed.

Lemma make_room_subseteq st ks now : entries (make_room st ks now) ⊆ entries st.
Proof.
  destruct (make_room_cases st ks now) as [->|[->| ->]]; [done|apply map_filter_subseteq|].
  etrans; [apply delete_list_subseteq|apply map_filter_subseteq].
Qed.

Lemma elem_of_victims ks now es k :
  k ∈ victims ks now es → ∃ e, es !! k = Some e ∧ evictable ks now (k, e).
Proof.
  unfold victims. intros ([t k'] & -> & Hin)%list_elem_of_fmap.
  assert ((t, k') ∈ (λ p : Key * RateLimitEntry, (last_failure p.2, p.1)) <$>
    filter (evictable ks now) (map_to_list es)) as Hc.
  { apply elem_of_take in Hin as (i & Hi & _).
    eapply elem_of_sort_by, list_elem_of_lookup. by exists i. }
  apply list_elem_of_fmap in Hc as ([k'' e] & Heq & Hin'). simplify_eq/=.
  apply list_elem_of_filter in Hin' as [He Hin']. apply elem_of_map_to_list in Hin'. eauto.
Qed.

(** An entry that must be kept: one of the current call, or an active lock. *)
Definition pinned (ks : list Key) (now : N) (k : Key) (e : RateLimitEntry) : Prop :=
  k ∈ ks ∨ ∃ until, locked_until e = Some until ∧ now < until.

Lemma make_room_pinned st ks now k e :
  entries st !! k = Some e → pinned ks now k e → entries (make_room st ks now) !! k = Some e.
Proof.
  intros Hk Hp.
  assert (filter (retained ks now) (entries st) !! k = Some e) as Hf.
  { apply map_lookup_filter_Some_2; [done|]. unfold retained. simpl.
    destruct Hp as [?|(u & -> & ?)]; auto. }
  destruct (make_room_cases st ks now) as [->|[->| ->]]; [done..|].
  rewrite delete_list_lookup; [done|].
  intros (e' & He' & Hno & Hl)%elem_of_victims. simplify_eq/=.
  destruct Hp as [?|(u & Hu & ?)]; [done|]. rewrite Hu in Hl. lia.
Qed.

Lemma make_room_ok st ks now : limiter_ok st → limiter_ok (make_room st ks now).
Proof.
  intros [Hs He]. pose proof (make_room_subseteq st ks now) as Hsub. split.
  - etrans; [by apply map_subseteq_size|done].
  - intros k e Hk. apply (He k). by eapply lookup_weaken.
Qed.

Lemma check_keys_ok now es ks n :
  (size es ≤ MAX_ENTRIES)%nat → map_Forall (λ _, entry_ok) es →
  let es' := (check_keys now es ks n).1 in
  (size es' ≤ MAX_ENTRIES)%nat ∧ map_Forall (λ _, entry_ok) es'.
Proof.
  revert es n. induction ks as [|k ks IH]; intros es n Hs He; simpl; [done|].
  destruct (es !! k) as [e|] eqn:Hk; [|by apply IH].
  destruct (locked_until e) eqn:Hl; [|by apply IH]. case_match; [done|]. apply IH.
  - rewrite map_size_insert_Some by eauto. done.
  - by apply map_Forall_insert_2.
Qed.

Lemma check_ok st now u ip : limiter_ok st → limiter_ok (check st now u ip).1.
Proof.
  intros [Hs He]. unfold check.
  pose proof (check_keys_ok now (entries st) (keys u ip) 0 Hs He) as Hck.
  destruct (check_keys _ _ _ _) as [es [m|]]; simpl in Hck; destruct Hck as [Hs' He'].
  - assert (limiter_ok (make_room (mkState es (next_sweep st)) (keys u ip) now)) as Hr
      by by apply make_room_ok.
    by case_match.
  - by split.
Qed.

Lemma fail_entry_ok now o : (∀ e, o = Some e → entry_ok e) →
  max_attempts ≤ u32_max → entry_ok (fail_entry now o).
Proof.
  intros Ho Hmax. unfold entry_ok, fail_entry, checked_add, saturating_add_u32. simpl.
  destruct (N.leb_spec max_attempts (N.min (failed_attempts (default (mkEntry 0 None now) o) + 1) u32_max)).
  - destruct (N.leb_spec (now + lockout_duration) instant_max); [|done]. done.
  - destruct o as [e|]; simpl in *; [|done]. specialize (Ho e eq_refl). unfold entry_ok in Ho.
    destruct (locked_until e); [|done]. lia.
Qed.

Lemma record_key_ok now es k :
  max_attempts ≤ u32_max →
  (size es ≤ MAX_ENTRIES)%nat → map_Forall (λ _, entry_ok) es →
  (size (record_key now es k) ≤ MAX_ENTRIES)%nat ∧ map_Forall (λ _, entry_ok) (record_key now es k).
Proof.
  intros Hmax Hs He. unfold record_key.
  destruct (es !! k) as [e|] eqn:Hk; simpl.
  - split.
    + by rewrite map_size_insert_Some by eauto.
    + apply map_Forall_insert_2; [|done]. apply fail_entry_ok; [|done].
      intros e' [= <-]. by apply (He k).
  - destruct (Nat.eqb_spec (size es) MAX_ENTRIES) as [|Hn]; [done|]. split.
    + rewrite map_size_insert_None by done. lia.
    + apply map_Forall_insert_2; [|done]. by apply fail_entry_ok.
Qed.

Lemma record_failure_ok st now u ip :
  max_attempts ≤ u32_max → limiter_ok st → limiter_ok (record_failure st now u ip).
Proof.
  intros Hmax Hok. unfold record_failure. apply (make_room_ok _ (keys u ip) now) in Hok as [Hs He].
  revert Hs He. generalize (entries (make_room st (keys u ip) now)).
  generalize (next_sweep (make_room st (keys u ip) now)).
  generalize (keys u ip). intros ks sweep. induction ks as [|k ks IH]; intros es Hs He; simpl.
  - by split.
  - destruct (record_key_ok now es k Hmax Hs He). by apply IH.
Qed.

Lemma step_ok st ev : max_attempts ≤ u32_max → limiter_ok st → limiter_ok (step st ev).
Proof.
  intros Hmax Hok. destruct ev; simpl.
  - by apply check_ok.
  - by apply record_failure_ok.
  - destruct Hok as [Hs He]. split; simpl.
    + etrans; [apply map_subseteq_size, delete_subseteq|done].
    + by apply map_Forall_delete.
Qed.

(** *** Lockouts *)

(** [k] is locked at least until [t]. *)
Definition locked_to (st : State) (k : Key) (t : N) : Prop :=
  ∃ e until, entries st !! k = Some e ∧ locked_until e = Some until ∧ t ≤ until.

(** No record is younger than the clock. *)
Definition clock_ok (clock : N) (st : State) : Prop :=
  map_Forall (λ _ e, last_failure e ≤ clock) (entries st).

(** The calls of a trace happen at times that do not decrease and lie before
    [t], no lock deadline leaves the range of [Instant], and no login of the
    user whose record is [k] succeeds. *)
Fixpoint trace_before (k : Key) (t clock : N) (evs : list Event) : Prop :=
  match evs with
  | [] => True
  | ECheck now _ _ :: evs => clock ≤ now < t ∧ trace_before k t now evs
  | EFailure now _ _ :: evs =>
      clock ≤ now < t ∧ now + lockout_duration ≤ instant_max ∧ trace_before k t now evs
  | ESuccess u :: evs => key Ascii.zero u ≠ k ∧ trace_before k t clock evs
  end.

Lemma check_keys_locked now es ks n k e until :
  es !! k = Some e → locked_until e = Some until → now < until →
  (check_keys now es ks n).1 !! k = Some e ∧ (k ∈ ks → (check_keys now es ks n).2 = None).
Proof.
  revert es n. induction ks as [|k' ks IH]; intros es n Hk Hu Hlt; simpl.
  { split; [done|]. by intros ?%elem_of_nil. }
  destruct (decide (k' = k)) as [->|Hne].
  { rewrite Hk, Hu, (proj2 (N.ltb_lt _ _) Hlt). done. }
  assert (k ∈ k' :: ks → k ∈ ks) as Hks by (by intros [?|?]%elem_of_cons; [subst|]).
  destruct (es !! k') as [e'|] eqn:Hk'.
  - destruct (locked_until e') as [u'|]; [case_match; [done|]|].
    + destruct (IH (<[k' := mkEntry (failed_attempts e') None (last_failure e')]> es) n)
        as [? ?]; [by rewrite lookup_insert_ne|done..|]. auto.
    + destruct (IH es n) as [? ?]; auto.
  - destruct (IH es (n + 1)%nat) as [? ?]; auto.
Qed.

Lemma check_locked st now u ip k t :
  locked_to st k t → now < t →
  locked_to (check st now u ip).1 k t ∧
  (k ∈ keys u ip → (check st now u ip).2 = Err RateLimited).
Proof.
  intros (e & until & Hk & Hu & Ht) Hlt. unfold check, locked_to.
  destruct (check_keys_locked now (entries st) (keys u ip) 0 k e until Hk Hu ltac:(lia)) as [H1 H2].
  destruct (check_keys _ _ _ _) as [es [m|]]; simpl in *; [|by eauto 10].
  split; [|by intros Hin; specialize (H2 Hin)].
  exists e, until. split; [|done].
  assert (entries (make_room (mkState es (next_sweep st)) (keys u ip) now) !! k = Some e) as Hr
    by (apply make_room_pinned; [done|right; exists until; split; [done|lia]]).
  by case_match.
Qed.

Lemma record_key_lookup_ne now es k k' : k ≠ k' → record_key now es k' !! k = es !! k.
Proof. intros Hne. unfold record_key. case_match; [done|]. by rewrite lookup_insert_ne. Qed.

Lemma record_key_present now es k e :
  es !! k = Some e → record_key now es k !! k = Some (fail_entry now (Some e)).
Proof.
  intros Hk. unfold record_key. rewrite bool_decide_eq_false_2 by (by rewrite Hk).
  simpl. by rewrite lookup_insert_eq, Hk.
Qed.

(** Failures only extend a lock. *)
Lemma record_key_locked now es k k' t :
  max_attempts ≤ u32_max → now + lockout_duration ≤ instant_max →
  map_Forall (λ _, entry_ok) es → map_Forall (λ _ e, last_failure e ≤ now) es →
  (∃ e until, es !! k = Some e ∧ locked_until e = Some until ∧ t ≤ until) →
  ∃ e until, record_key now es k' !! k = Some e ∧ locked_until e = Some until ∧ t ≤ until.
Proof.
  intros Hmax Hrange He Hclk (e & until & Hk & Hu & Ht).
  destruct (decide (k = k')) as [<-|Hne]; [|rewrite record_key_lookup_ne by done; by eauto 10].
  erewrite record_key_present by done. eexists _, (now + lockout_duration). split; [done|].
  pose proof (He k e Hk) as Hok. unfold entry_ok in Hok. rewrite Hu in Hok.
  pose proof (Hclk k e Hk) as Hlast. simpl in Hlast.
  unfold fail_entry, checked_add, saturating_add_u32. simpl.
  rewrite (proj2 (N.leb_le max_attempts _)) by lia.
  rewrite (proj2 (N.leb_le _ instant_max)) by lia. split; [done|lia].
Qed.

Lemma record_key_clock now es k :
  map_Forall (λ _ e, last_failure e ≤ now) es →
  map_Forall (λ _ e, last_failure e ≤ now) (record_key now es k).
Proof.
  intros Hc. unfold record_key. case_match; [done|]. apply map_Forall_insert_2; [|done].
  unfold fail_entry. simpl. lia.
Qed.

Lemma record_failure_locked st now u ip k t :
  max_attempts ≤ u32_max → now + lockout_duration ≤ instant_max →
  limiter_ok st → clock_ok now st → locked_to st k t → now < t →
  locked_to (record_failure st now u ip) k t ∧ clock_ok now (record_failure st now u ip).
Proof.
  intros Hmax Hrange Hok Hclk (e & until & Hk & Hu & Ht) Hlt.
  unfold record_failure, locked_to, clock_ok. cbn [entries].
  assert (∃ e until, entries (make_room st (keys u ip) now) !! k = Some e ∧
    locked_until e = Some until ∧ t ≤ until) as Hl.
  { exists e, until. split; [|done]. apply make_room_pinned; [done|].
    right. exists until. split; [done|lia]. }
  assert (map_Forall (λ _ e, last_failure e ≤ now) (entries (make_room st (keys u ip) now))) as Hc.
  { intros k' e' Hk'. apply (Hclk k'). eapply lookup_weaken; [done|apply make_room_subseteq]. }
  apply (make_room_ok st (keys u ip) now) in Hok as [Hs He].
  revert Hl Hc Hs He. generalize (entries (make_room st (keys u ip) now)).
  induction (keys u ip) as [|k' ks IH]; intros es Hl Hc Hs He; simpl; [done|].
  destruct (record_key_ok now es k' Hmax Hs He). apply IH; try done.
  - by apply record_key_locked.
  - by apply record_key_clock.
Qed.

Lemma check_clock clock st now u ip :
  clock_ok clock st → clock ≤ now → clock_ok now (check st now u ip).1.
Proof.
  intros Hc Hle. unfold check, clock_ok in *.
  assert (map_Forall (λ _ e, last_failure e ≤ now)
    (check_keys now (entries st) (keys u ip) 0).1) as Hck.
  { assert (map_Forall (λ _ e, last_failure e ≤ now) (entries st)) as H0.
    { intros k e Hk. specialize (Hc k e Hk). simpl in Hc. lia. }
    clear Hc. revert H0. generalize (entries st) 0%nat.
    induction (keys u ip) as [|k ks IH]; intros es n He; simpl; [done|].
    destruct (es !! k) as [e|] eqn:Hk; [|by apply IH].
    destruct (locked_until e); [case_match; [done|]|by apply IH]. apply IH.
    apply map_Forall_insert_2; [|done]. exact (He k e Hk). }
  destruct (check_keys _ _ _ _) as [es [m|]]; simpl in *; [|done].
  assert (map_Forall (λ _ e, last_failure e ≤ now)
    (entries (make_room (mkState es (next_sweep st)) (keys u ip) now))) as Hr.
  { intros k e Hk. apply (Hck k). eapply lookup_weaken; [done|].
    apply (make_room_subseteq (mkState es (next_sweep st))). }
  by case_match.
Qed.

Lemma trace_locked st clock evs k t :
  max_attempts ≤ u32_max → limiter_ok st → clock_ok clock st → locked_to st k t →
  trace_before k t clock evs → locked_to (foldl step st evs) k t.
Proof.
  intros Hmax. revert st clock. induction evs as [|ev evs IH]; intros st clock Hok Hc Hl Ht; simpl in *.
  { done. }
  pose proof (step_ok st ev Hmax Hok) as Hok'. destruct ev as [now u ip|now u ip|u]; simpl in *.
  - destruct Ht as [[? ?] Ht]. eapply IH; [done|by eapply check_clock| |done].
    by eapply check_locked.
  - destruct Ht as [[? ?] [? Ht]].
    destruct (record_failure_locked st now u ip k t) as [? ?]; try done.
    { intros k' e' Hk'. specialize (Hc k' e' Hk'). simpl in Hc. lia. }
    by eapply IH.
  - destruct Ht as [Hne Ht]. eapply IH; [done| | |done].
    + by apply map_Forall_delete.
    + destruct Hl as (e & until & Hk & ? & ?). exists e, until.
      split; [|done]. simpl. by rewrite lookup_delete_ne.
Qed.

(** *** Admission reserves what the failure needs *)

Lemma count_missing_ext es es' ks :
  (∀ k, k ∈ ks → es' !! k = es !! k) → count_missing es' ks = count_missing es ks.
Proof.
  unfold count_missing. induction ks as [|k ks IH]; intros Heq; [done|].
  rewrite !filter_cons, (Heq k) by left.
  assert (length (filter (λ k, es' !! k = None) ks) = length (filter (λ k, es !! k = None) ks))
    as IH' by (apply IH; intros; apply Heq; by right).
  case_decide; simpl; lia.
Qed.

Lemma record_keys_lookup now ks es k :
  NoDup ks → (size es + count_missing es ks ≤ MAX_ENTRIES)%nat → k ∈ ks →
  foldl (record_key now) es ks !! k = Some (fail_entry now (es !! k)).
Proof.
  revert es. induction ks as [|k' ks IH]; intros es Hnd Hs Hin; [by apply elem_of_nil in Hin|].
  apply NoDup_cons in Hnd as [Hk' Hnd]. simpl.
  assert (record_key now es k' = <[k' := fail_entry now (es !! k')]> es) as Hrec.
  { unfold record_key. unfold count_missing in Hs. rewrite filter_cons in Hs.
    case_bool_decide as Hn; simpl; [|done]. rewrite decide_True in Hs by done.
    destruct (Nat.eqb_spec (size es) MAX_ENTRIES); [simpl in Hs; lia|done]. }
  assert (∀ k'', k'' ∈ ks → record_key now es k' !! k'' = es !! k'') as Hother.
  { intros k'' Hin'. apply record_key_lookup_ne. by intros ->. }
  apply elem_of_cons in Hin as [->|Hin].
  - assert (∀ es' : gmap Key RateLimitEntry, foldl (record_key now) es' ks !! k' = es' !! k') as ->.
    { clear -Hk'. induction ks as [|k ks IH]; intros es'; simpl; [done|].
      apply not_elem_of_cons in Hk' as [? ?]. rewrite IH by done.
      by apply record_key_lookup_ne. }
    by rewrite Hrec, lookup_insert_eq.
  - rewrite <-(Hother k Hin). apply IH; [done| |done].
    assert (count_missing (record_key now es k') ks = count_missing es ks) as ->.
    { by apply count_missing_ext. }
    rewrite Hrec. unfold count_missing in *. rewrite filter_cons in Hs.
    destruct (es !! k') as [e|] eqn:He.
    + rewrite map_size_insert_Some by eauto. rewrite decide_False in Hs by done. done.
    + rewrite map_size_insert_None by done. rewrite decide_True in Hs by done. simpl in Hs. lia.
Qed.

Lemma record_keys_ne now ks es k :
  (k ∉ ks) → foldl (record_key now) es ks !! k = es !! k.
Proof.
  revert es. induction ks as [|k' ks IH]; intros es; simpl; [done|].
  intros [? ?]%not_elem_of_cons. rewrite IH by done. by apply record_key_lookup_ne.
Qed.

Lemma record_keys_present now ks es k e :
  NoDup ks → k ∈ ks → es !! k = Some e →
  foldl (record_key now) es ks !! k = Some (fail_entry now (Some e)).
Proof.
  revert es. induction ks as [|k' ks IH]; intros es Hnd Hin Hk; [by apply elem_of_nil in Hin|].
  apply NoDup_cons in Hnd as [Hk' Hnd]. simpl. apply elem_of_cons in Hin as [<-|Hin].
  - rewrite record_keys_ne by done. by apply record_key_present.
  - apply IH; [done..|]. rewrite record_key_lookup_ne; [done|]. by intros ->.
Qed.

Lemma check_keys_missing now es ks n es' m :
  check_keys now es ks n = (es', Some m) →
  (∀ k, es' !! k = None ↔ es !! k = None) ∧ m = (n + count_missing es ks)%nat.
Proof.
  revert es n. induction ks as [|k ks IH]; intros es n Hc; simpl in Hc.
  { injection Hc as <- <-. unfold count_missing. simpl. split; [done|lia]. }
  unfold count_missing. rewrite filter_cons.
  destruct (es !! k) as [e|] eqn:Hk.
  - rewrite decide_False by done.
    destruct (locked_until e); [case_match; [done|]|]; apply IH in Hc as [Hdom ->]; [|done].
    assert (∀ k', <[k := mkEntry (failed_attempts e) None (last_failure e)]> es !! k' = None ↔
      es !! k' = None) as Hins.
    { intros k'. destruct (decide (k = k')) as [<-|]; [|by rewrite lookup_insert_ne].
      rewrite lookup_insert_eq, Hk. done. }
    split; [intros k'; by rewrite Hdom, Hins|].
    f_equal. unfold count_missing. by erewrite list_filter_iff by apply Hins.
  - rewrite decide_True by done. apply IH in Hc as [Hdom ->]. split; [done|].
    simpl. unfold count_missing. lia.
Qed.

(** [make_room] changes none of the current call's slots. *)
Lemma make_room_keys st ks now k : k ∈ ks → entries (make_room st ks now) !! k = entries st !! k.
Proof.
  intros Hk. destruct (entries st !! k) as [e|] eqn:He.
  - apply make_room_pinned; [done|by left].
  - by eapply lookup_weaken_None, make_room_subseteq.
Qed.

Lemma check_admits st now u ip st' :
  limiter_ok st → check st now u ip = (st', Ok ()) →
  (size (entries st') + count_missing (entries st') (keys u ip) ≤ MAX_ENTRIES)%nat.
Proof.
  intros Hok Hc. assert (limiter_ok st') as [Hs _].
  { pose proof (check_ok st now u ip Hok) as H. by rewrite Hc in H. }
  unfold check in Hc. destruct (check_keys _ _ _ _) as [es [m|]] eqn:Hk; [|done].
  apply check_keys_missing in Hk as [Hdom ->].
  destruct (Nat.ltb_spec (MAX_ENTRIES -
    size (entries (make_room (mkState es (next_sweep st)) (keys u ip) now)))
    (0 + count_missing (entries st) (keys u ip))) as [|Hle]; [done|].
  injection Hc as <-. rewrite (count_missing_ext es);
    [|intros k Hin; by rewrite make_room_keys].
  assert (count_missing es (keys u ip) = count_missing (entries st) (keys u ip)) as ->.
  { unfold count_missing. by erewrite list_filter_iff by apply Hdom. }
  lia.
Qed.

Lemma make_room_noop st ks now :
  (size (entries st) + count_missing (entries st) ks ≤ MAX_ENTRIES)%nat → make_room st ks now = st.
Proof.
  intros Hs. unfold make_room. rewrite (proj2 (Nat.leb_le _ _)) by lia. done.
Qed.

(** whatever calls are made, in whatever order and at whatever times, the
    table never holds more than [MAX_ENTRIES] records, and every lock in it
    is the consequence of a counted failure over the threshold; in particular
    the unsigned subtraction [MAX_ENTRIES - len] never underflows. *)
Theorem limiter_bounded sweep evs :
  max_attempts ≤ u32_max → limiter_ok (foldl step (mkState ∅ sweep) evs).
Proof.
  intros Hmax. apply foldl_preserve; [by intros; apply step_ok|].
  split; simpl; [by rewrite map_size_empty; apply Nat.le_0_l|apply map_Forall_empty].
Qed.

(** a lockout cannot be shaken off.  While a key is locked until [t], no
    sequence of checks, failures (of any identity, under any table pressure)
    and successes of other users before [t] frees it: every check involving
    the key before [t] is refused with [RateLimited]. *)
Theorem lockout_holds st clock evs k t now u ip :
  max_attempts ≤ u32_max → limiter_ok st → clock_ok clock st → locked_to st k t →
  trace_before k t clock evs → now < t → k ∈ keys u ip →
  (check (foldl step st evs) now u ip).2 = Err RateLimited.
Proof.
  intros Hmax Hok Hc Hl Ht Hlt Hin.
  eapply check_locked; [by eapply trace_locked|done|done].
Qed.

(** an admitted attempt is always accounted for: after a successful
    [check] the failure of the same identity finds a slot for each of its
    keys, and records exactly one more failure on each. *)
Theorem admitted_failure_recorded st now u ip st' now' k :
  limiter_ok st → NoDup (keys u ip) → check st now u ip = (st', Ok ()) → k ∈ keys u ip →
  entries (record_failure st' now' u ip) !! k = Some (fail_entry now' (entries st' !! k)).
Proof.
  intros Hok Hnd Hc Hin. apply check_admits in Hc; [|done].
  unfold record_failure. rewrite make_room_noop by done. cbn [entries].
  by apply record_keys_lookup.
Qed.

(** Reaching the threshold locks, and an expired lock is re-entered by a
    single failure: a failure of a known key whose count reaches
    [max_attempts] locks it for the whole lockout duration. *)
Theorem threshold_locks st now u ip k e :
  NoDup (keys u ip) → k ∈ keys u ip → entries st !! k = Some e →
  max_attempts ≤ u32_max → max_attempts ≤ failed_attempts e + 1 →
  now + lockout_duration ≤ instant_max →
  locked_to (record_failure st now u ip) k (now + lockout_duration).
Proof.
  intros Hnd Hin Hk Hmax He Hr. unfold locked_to, record_failure. cbn [entries].
  exists (fail_entry now (Some e)), (now + lockout_duration). split_and!; [|..|lia].
  - apply record_keys_present; [done..|]. by rewrite make_room_keys.
  - unfold fail_entry, checked_add, saturating_add_u32. simpl.
    rewrite (proj2 (N.leb_le max_attempts _)) by lia.
    by rewrite (proj2 (N.leb_le _ instant_max)) by lia.
Qed.

(** A successful login clears the user's own record and nothing else; the
    IP record, in a name space of its own, is kept. *)
Theorem success_clears_only_user st u k :
  entries (record_success st u) !! k =
    if decide (k = key Ascii.zero u) then None else entries st !! k.
Proof.
  unfold record_success. simpl. case_decide as Hk; [subst; by rewrite lookup_delete_eq|].
  by rewrite lookup_delete_ne.
Qed.

End limiter.

(** *** Witnesses: two attempts, a lock of 50 ns, and a digest that is the
    length-tagged text itself. *)

Definition demo_digest (s : string) : N := Npos (encode s).
Definition demo_step := step 2 50 1000 demo_digest.
Definition demo_alice : N := key demo_digest Ascii.zero "alice".
Definition demo_start : State := mkState ∅ 0.
Definition demo_locked : State :=
  foldl demo_step demo_start [EFailure 1 "alice" None; EFailure 2 "alice" None].

Lemma limiter_bounded_witness : limiter_ok 2 50 demo_locked.
Proof. apply (limiter_bounded 2 50 1000 demo_digest 0). vm_compute. discriminate. Defined.

Lemma lockout_holds_witness :
  (check 50 demo_digest
    (foldl demo_step demo_locked [ECheck 5 "bob" None; EFailure 9 "alice" (Some "192.0.2.1");
                                  ESuccess "bob"]) 51 "alice" None).2 = Err RateLimited.
Proof.
  apply (lockout_holds 2 50 1000 demo_digest demo_locked 2 _ demo_alice 52).
  - vm_compute. discriminate.
  - split; [apply Nat.leb_le; vm_compute; reflexivity|].
    apply map_Forall_to_list. vm_compute. repeat constructor. discriminate.
  - apply map_Forall_to_list. vm_compute. repeat constructor. discriminate.
  - eexists _, _. split_and!; vm_compute; [reflexivity..|discriminate].
  - vm_compute. split_and!; try reflexivity; discriminate.
  - reflexivity.
  - left.
Defined.

Lemma admitted_failure_recorded_witness :
  entries (record_failure 2 50 1000 demo_digest demo_start 7 "carol" None) !!
    key demo_digest Ascii.zero "carol" = Some (mkEntry 1 None 7).
Proof.
  rewrite (admitted_failure_recorded 2 50 1000 demo_digest demo_start 6 "carol" None demo_start 7).
  - reflexivity.
  - split; [apply Nat.leb_le; vm_compute; reflexivity|apply map_Forall_empty].
  - apply NoDup_singleton.
  - vm_compute. reflexivity.
  - left.
Defined.

Lemma threshold_locks_witness :
  locked_to (record_failure 2 50 1000 demo_digest demo_locked 60 "alice" None) demo_alice 110.
Proof.
  apply (threshold_locks 2 50 1000 demo_digest demo_locked 60 "alice" None demo_alice
    (mkEntry 2 (Some 52) 2)).
  - apply NoDup_singleton.
  - left.
  - vm_compute. reflexivity.
  - vm_compute. discriminate.
  - vm_compute. discriminate.
  - vm_compute. discriminate.
Defined.

End RateLimiter.
