(* ===== verification/CacheKey.v ===== *)
(** * Generation cache keys ([crates/deve-sub-domain/src/template/cache.rs])

    A cache entry is keyed by the SHA-256 digest of a length-prefixed
    encoding of everything the generated output depends on. *)

From stdpp Require Import pretty.
From S2P Require Import Prelude Kernel GenTypes.

(** [struct GenerationCacheEntry] *)
Record GenerationCacheEntry := mkCacheEntry {
  ce_id : GenerationCacheId;
  ce_template_id : TemplateId;
  ce_template_version : N;
  ce_profile : string;
  ce_mode : string;
  ce_selection_mode : string;
  ce_selection_payload : string;
  ce_pool_revision : N;
  ce_cache_key : string;
  ce_content : string;
  ce_is_active : bool
}.

(** [struct CacheKeyParams] *)
Record CacheKeyParams := mkCacheKeyParams {
  kp_template_id : TemplateId;
  kp_template_version : N;
  kp_profile : string;
  kp_mode : GenerationMode;
  kp_selection_mode : string;
  kp_selection_payload : string;
  kp_pool_revision : Revision.Revision
}.

Module CacheKey.

(** [u64::to_le_bytes] of a [k]-byte integer. *)
Fixpoint le_bytes (k : nat) (n : N) : string :=
  match k with
  | O => ""
  | S k => String (Ascii.ascii_of_N (n mod 256)) (le_bytes k (n / 256))
  end.

(** The nested function [feed]: the length as eight little-endian bytes, then
    the field. *)
Definition feed (field : string) : string :=
  le_bytes 8 (N.of_nat (String.length field) mod (u64_max + 1)) +:+ field.

Definition hex_digit (n : N) : Ascii.ascii :=
  default Ascii.zero (String.get (N.to_nat n) "0123456789abcdef").

(** The output loop of [compute_key]. *)
Fixpoint hex_lower (bytes : string) : string :=
  match bytes with
  | EmptyString => ""
  | String b bytes =>
      let b := Ascii.N_of_ascii b in
      String (hex_digit (N.shiftr b 4)) (String (hex_digit (N.land b 15)) (hex_lower bytes))
  end.

Section key.
(** [Sha256::finalize] as a byte string, and the [ulid] crate's text form of
    an identifier. *)
Variable sha256 : string → string.
Variable id_display : N → string.

(** The fields in the order they are fed. *)
Definition key_fields (p : CacheKeyParams) : list string :=
  ["deve-sub-generation-v5";
   id_display (kp_template_id p);
   pretty (kp_template_version p);
   kp_profile p;
   mode_as_str (kp_mode p);
   kp_selection_mode p;
   kp_selection_payload p;
   pretty (Revision.value (kp_pool_revision p))].

Definition feed_all (fields : list string) : string := foldr (λ f acc, feed f +:+ acc) "" fields.

(** [CacheKeyParams::compute_key] *)
Definition compute_key (p : CacheKeyParams) : string :=
  hex_lower (sha256 (feed_all (key_fields p))).

(** [GenerationCacheEntry::has_current_semantics] *)
Definition has_current_semantics (e : GenerationCacheEntry) : bool :=
  match mode_from_str (ce_mode e) with
  | Err _ => false
  | Ok mode => String.eqb (ce_cache_key e)
      (compute_key (mkCacheKeyParams (ce_template_id e) (ce_template_version e) (ce_profile e)
        mode (ce_selection_mode e) (ce_selection_payload e) (Revision.new (ce_pool_revision e))))
  end.

(** *** The encoding is injective *)

Lemma string_app_inj_length (a b c d : string) :
  String.length a = String.length b → a +:+ c = b +:+ d → a = b ∧ c = d.
Proof.
  revert b. induction a as [|x a IH]; intros [|y b]; simpl; try done.
  intros [= Hl] [= -> Heq]. destruct (IH b Hl Heq) as [-> ->]. done.
Qed.

Lemma le_bytes_length k n : String.length (le_bytes k n) = k.
Proof. revert n. induction k as [|k IH]; intros n; simpl; auto. Qed.

Lemma le_bytes_inj k m n :
  (m < 256 ^ N.of_nat k)%N → (n < 256 ^ N.of_nat k)%N → le_bytes k m = le_bytes k n → m = n.
Proof.
  revert m n. induction k as [|k IH]; intros m n Hm Hn; [simpl in *; lia|].
  simpl le_bytes. intros [= Hd Hr].
  assert ((m mod 256)%N = (n mod 256)%N) as Hmod.
  { rewrite <-(Ascii.N_ascii_embedding (m mod 256)), <-(Ascii.N_ascii_embedding (n mod 256))
      by (apply N.mod_lt; done). by rewrite Hd. }
  assert ((m / 256)%N = (n / 256)%N) as Hdiv.
  { rewrite Nat2N.inj_succ, N.pow_succ_r' in Hm, Hn.
    apply IH; [apply N.Div0.div_lt_upper_bound; lia..|done]. }
  rewrite (N.div_mod m 256), (N.div_mod n 256) by done. by rewrite Hmod, Hdiv.
Qed.

(** A field whose length fits the eight-byte prefix, as any Rust string's
    does. *)
Definition fits (s : string) : Prop := (N.of_nat (String.length s) ≤ u64_max)%N.

Lemma feed_inj f g r s : fits f → fits g → feed f +:+ r = feed g +:+ s → f = g ∧ r = s.
Proof.
  unfold fits, feed. intros Hf Hg. rewrite !N.mod_small by (unfold u64_max in *; lia).
  rewrite !string_app_assoc. intros H.
  apply string_app_inj_length in H as [Hlen H]; [|by rewrite !le_bytes_length].
  apply le_bytes_inj in Hlen; [|change (N.of_nat 8) with 8%N; unfold u64_max in *; lia..].
  apply string_app_inj_length in H; [done|lia].
Qed.

Lemma feed_all_inj fs gs :
  length fs = length gs → Forall fits fs → Forall fits gs → feed_all fs = feed_all gs → fs = gs.
Proof.
  revert gs. induction fs as [|f fs IH]; intros [|g gs] Hl Hf Hg; simpl; try done.
  intros H. apply Forall_cons in Hf as [? ?]. apply Forall_cons in Hg as [? ?].
  apply feed_inj in H as [-> H]; [|done..]. f_equal. apply IH; try done. by injection Hl.
Qed.

Lemma hex_digit_inj a b : (a < 16)%N → (b < 16)%N → hex_digit a = hex_digit b → a = b.
Proof.
  intros Ha Hb.
  assert (∀ n, (n < 16)%N → n ∈ [0;1;2;3;4;5;6;7;8;9;10;11;12;13;14;15]%N) as Hall.
  { intros n Hn. rewrite !elem_of_cons. lia. }
  apply Hall in Ha, Hb. rewrite !elem_of_cons in Ha, Hb.
  repeat destruct Ha as [->|Ha]; try (by apply elem_of_nil in Ha);
  repeat destruct Hb as [->|Hb]; try (by apply elem_of_nil in Hb); vm_compute; congruence.
Qed.

Lemma hex_lower_inj a b : hex_lower a = hex_lower b → a = b.
Proof.
  revert b. induction a as [|x a IH]; intros [|y b]; simpl; try done.
  intros [= Hh Hl Hr]. f_equal; [|by apply IH].
  pose proof (Ascii.N_ascii_bounded x). pose proof (Ascii.N_ascii_bounded y).
  assert (∀ n, (n < 256)%N → (N.shiftr n 4 < 16 ∧ N.land n 15 < 16)%N ∧
    n = (N.shiftr n 4 * 16 + N.land n 15)%N) as Hsplit.
  { intros n Hn. rewrite N.shiftr_div_pow2. change 15%N with (N.ones 4). rewrite N.land_ones.
    change (2 ^ 4)%N with 16%N. pose proof (N.mod_lt n 16 ltac:(done)).
    pose proof (N.div_mod n 16 ltac:(done)). split; [|lia]. split; [|done].
    apply N.Div0.div_lt_upper_bound. lia. }
  destruct (Hsplit (Ascii.N_of_ascii x)) as [[? ?] Hx]; [done|].
  destruct (Hsplit (Ascii.N_of_ascii y)) as [[? ?] Hy]; [done|].
  apply hex_digit_inj in Hh; [|done..]. apply hex_digit_inj in Hl; [|done..].
  rewrite <-(Ascii.ascii_N_embedding x), <-(Ascii.ascii_N_embedding y).
  f_equal. rewrite Hx, Hy. by rewrite Hh, Hl.
Qed.

Lemma mode_as_str_inj : Inj (=) (=) mode_as_str.
Proof. by intros [] []. Qed.

Hypothesis id_display_inj : Inj (=) (=) id_display.

Lemma key_fields_inj p q : key_fields p = key_fields q → p = q.
Proof.
  destruct p as [t v pr m sm sp [r]], q as [t' v' pr' m' sm' sp' [r']]. unfold key_fields. simpl.
  intros H. injection H as Ht Hv -> Hm -> -> Hr.
  apply (inj id_display) in Ht. apply (inj pretty) in Hv. apply mode_as_str_inj in Hm.
  apply (inj pretty) in Hr. by subst.
Qed.

(** two parameter sets share a cache key only if they are equal or exhibit
    a SHA-256 collision: length-prefixing makes the encoding injective, so no
    crafted selection payload can alias another template, version, profile,
    mode, selection or pool revision. *)
Theorem compute_key_injective p q :
  Forall fits (key_fields p) → Forall fits (key_fields q) → compute_key p = compute_key q →
  p = q ∨
  (feed_all (key_fields p) ≠ feed_all (key_fields q) ∧
   sha256 (feed_all (key_fields p)) = sha256 (feed_all (key_fields q))).
Proof.
  intros Hp Hq Heq. apply hex_lower_inj in Heq.
  destruct (decide (feed_all (key_fields p) = feed_all (key_fields q))) as [He|He]; [|by right].
  left. by apply key_fields_inj, feed_all_inj.
Qed.

(** Without collisions on the encodings at hand, an entry has current
    semantics exactly when its key is the key of its own columns. *)
Lemma has_current_semantics_iff e :
  has_current_semantics e = true ↔
    ∃ mode, mode_from_str (ce_mode e) = Ok mode ∧
      ce_cache_key e = compute_key (mkCacheKeyParams (ce_template_id e) (ce_template_version e)
        (ce_profile e) mode (ce_selection_mode e) (ce_selection_payload e)
        (Revision.new (ce_pool_revision e))).
Proof.
  unfold has_current_semantics. destruct (mode_from_str (ce_mode e)) as [m|].
  - rewrite String.eqb_eq. split; [eauto|]. by intros (m' & [= <-] & ?).
  - split; [done|]. by intros (? & ? & _).
Qed.

End key.

(** Witness: with the identity in place of the digest there are no
    collisions, so a payload that imitates the next field's encoding still
    gets a different key. *)
Definition demo_key (payload : string) (revision : N) : CacheKeyParams :=
  mkCacheKeyParams 7 1 "mihomo" Lenient "dynamic" payload (Revision.new revision).

Lemma compute_key_injective_witness :
  compute_key id (λ n, pretty n) (demo_key "{}" 12) ≠ compute_key id (λ n, pretty n) (demo_key "{}1" 2).
Proof.
  intros Heq.
  destruct (compute_key_injective id (λ n, pretty n) pretty_N_inj (demo_key "{}" 12) (demo_key "{}1" 2))
    as [H|[Hne H]].
  - repeat constructor; vm_compute; discriminate.
  - repeat constructor; vm_compute; discriminate.
  - exact Heq.
  - discriminate H.
  - exact (Hne H).
Defined.

End CacheKey.
