(* ===== verification/CacheRepo.v ===== *)
(** * The generation cache in storage
      ([crates/deve-sub-storage-sqlite/src/generation_cache_repository.rs],
      [pool_meta_repository.rs] and the withdrawal of [source_repository.rs])

    The [generation_cache] table with its unique cache key and its
    single-active index, the [pool_meta] counters, and each transaction as a
    state transformer: an error return drops the transaction and leaves the
    database as it was. *)

From S2P Require Import Prelude Kernel GenTypes CacheKey.

Module CacheRepo.

(** SQLite integers are [i64]; [u64 as i64] wraps. *)
Definition as_i64 (n : N) : Z :=
  let z := (Z.of_N n mod 2 ^ 64)%Z in if Z.ltb z (2 ^ 63) then z else (z - 2 ^ 64)%Z.

(** [struct CacheRow]; identifiers are kept as the integers their text
    stands for, in the same order. *)
Record CacheRow := mkCacheRow {
  r_id : GenerationCacheId;
  r_template_id : TemplateId;
  r_template_version : Z;
  r_profile : string;
  r_mode : string;
  r_selection_mode : string;
  r_selection_payload : string;
  r_pool_revision : Z;
  r_cache_key : string;
  r_content : string;
  r_is_active : bool
}.

#[export] Instance CacheRow_eq_dec : EqDecision CacheRow.
Proof. solve_decision. Defined.

(** [u64::try_from] of a column. *)
Definition u64_column (z : Z) (message : string) : Result TemplateError N :=
  if Z.leb 0 z then Ok (Z.to_N z) else Err (TE_Storage message).

(** [CacheRow::into_domain] *)
Definition into_domain (r : CacheRow) : Result TemplateError GenerationCacheEntry :=
  let? version := u64_column (r_template_version r) "negative template_version" in
  let? revision := u64_column (r_pool_revision r) "negative pool_revision" in
  Ok (mkCacheEntry (r_id r) (r_template_id r) version (r_profile r) (r_mode r)
    (r_selection_mode r) (r_selection_payload r) revision (r_cache_key r) (r_content r)
    (r_is_active r)).

(** The row [store] binds. *)
Definition from_domain (e : GenerationCacheEntry) : CacheRow :=
  mkCacheRow (ce_id e) (ce_template_id e) (as_i64 (ce_template_version e)) (ce_profile e)
    (ce_mode e) (ce_selection_mode e) (ce_selection_payload e) (as_i64 (ce_pool_revision e))
    (ce_cache_key e) (ce_content e) (ce_is_active e).

(** The columns of [subscriptions] the retention statement joins with. *)
Record SubRow := mkSubRow {
  s_id : SubscriptionId;
  s_template_id : TemplateId;
  s_profile : string;
  s_node_selection : string;
  s_template_version_pin : option Z
}.

Record Db := mkDb {
  rows : gmap GenerationCacheId CacheRow;
  templates : gset TemplateId;
  subscriptions : list SubRow;
  revision : Z;
  withdrawal_revision : Z
}.

Definition set_rows (db : Db) (rs : gmap GenerationCacheId CacheRow) : Db :=
  mkDb rs (templates db) (subscriptions db) (revision db) (withdrawal_revision db).

Definition INACTIVE_RETAIN : nat := 8.

(** [transpose] of [row.map(CacheRow::into_domain)]. *)
Definition transpose_row (o : option CacheRow) : Result TemplateError (option GenerationCacheEntry) :=
  match o with
  | None => Ok None
  | Some r => let? e := into_domain r in Ok (Some e)
  end.

(** [fetch_optional]: the first row a [SELECT] returns. *)
Definition select (db : Db) (p : CacheRow → bool) : list CacheRow :=
  filter (λ r, p r = true) ((map_to_list (rows db)).*2).

Definition above_floor (db : Db) (r : CacheRow) : bool :=
  Z.leb (withdrawal_revision db) (r_pool_revision r).

(** [find_by_key] *)
Definition find_by_key (db : Db) (cache_key : string) :
    Result TemplateError (option GenerationCacheEntry) :=
  transpose_row (head (select db (λ r,
    String.eqb (r_cache_key r) cache_key && above_floor db r))).

Definition for_profile (t : TemplateId) (p : string) (r : CacheRow) : bool :=
  N.eqb (r_template_id r) t && String.eqb (r_profile r) p.

(** [find_active] *)
Definition find_active (db : Db) (t : TemplateId) (p : string) :
    Result TemplateError (option GenerationCacheEntry) :=
  transpose_row (head (select db (λ r, for_profile t p r && r_is_active r && above_floor db r))).

(** [ORDER BY id DESC] *)
Definition compare_id_desc (a b : CacheRow) : comparison := N.compare (r_id b) (r_id a).

(** [? IS NULL OR template_version = ?] *)
Definition pin_matches (pin : option Z) (version : Z) : bool :=
  match pin with None => true | Some v => Z.eqb version v end.

(** [find_latest] *)
Definition find_latest (db : Db) (t : TemplateId) (p sel_mode sel_payload : string)
    (version_pin : option N) (mode : string) :
    Result TemplateError (option GenerationCacheEntry) :=
  transpose_row (head (sort_by compare_id_desc (select db (λ r,
    for_profile t p r && String.eqb (r_selection_mode r) sel_mode
    && String.eqb (r_selection_payload r) sel_payload
    && pin_matches (as_i64 <$> version_pin) (r_template_version r)
    && String.eqb (r_mode r) mode && above_floor db r)))).

(** The join condition of the [protected] subquery. *)
Definition protects (db : Db) (s : SubRow) (r : CacheRow) : bool :=
  for_profile (s_template_id s) (s_profile s) r
  && String.eqb (r_selection_payload r) (s_node_selection s)
  && String.eqb (r_mode r) "lenient"
  && pin_matches (s_template_version_pin s) (r_template_version r)
  && above_floor db r.

(** [MAX(c.id)] of one subscription's group. *)
Definition last_good (db : Db) (s : SubRow) : option GenerationCacheId :=
  r_id <$> head (sort_by compare_id_desc (select db (protects db s))).

(** [WITH protected(id)]: the subscriptions of this template and profile. *)
Definition protected (db : Db) (t : TemplateId) (p : string) : list GenerationCacheId :=
  omap (λ s, if N.eqb (s_template_id s) t && String.eqb (s_profile s) p
             then last_good db s else None) (subscriptions db).

(** The rows the retention statement deletes: inactive, unprotected, beyond
    the newest [INACTIVE_RETAIN]. *)
Definition expired (db : Db) (t : TemplateId) (p : string) : list CacheRow :=
  drop INACTIVE_RETAIN (sort_by compare_id_desc (select db (λ r,
    for_profile t p r && negb (r_is_active r)
    && negb (bool_decide (r_id r ∈ protected db t p))))).

Definition retain (db : Db) (t : TemplateId) (p : string) : Db :=
  set_rows db (foldl (λ rs r, delete (r_id r) rs) (rows db) (expired db t p)).

(** The constraints an inserted row must satisfy: primary key, unique cache
    key, single active entry, template foreign key. *)
Definition insertable (db : Db) (r : CacheRow) : bool :=
  bool_decide (rows db !! r_id r = None)
  && match select db (λ r', String.eqb (r_cache_key r') (r_cache_key r)) with
     | [] => true | _ => false end
  && (negb (r_is_active r)
      || match select db (λ r', for_profile (r_template_id r) (r_profile r) r' && r_is_active r') with
         | [] => true | _ => false end)
  && bool_decide (r_template_id r ∈ templates db).

(** [store] *)
Definition store (db : Db) (e : GenerationCacheEntry) : Db * Result TemplateError () :=
  let r := from_domain e in
  if negb (above_floor db r) then (db, Err TE_CacheInvalidated)
  else if negb (insertable db r) then (db, Err (TE_Storage "constraint failed"))
  else (retain (set_rows db (<[r_id r := r]> (rows db))) (r_template_id r) (r_profile r), Ok ()).

Definition set_active (b : bool) (r : CacheRow) : CacheRow :=
  mkCacheRow (r_id r) (r_template_id r) (r_template_version r) (r_profile r) (r_mode r)
    (r_selection_mode r) (r_selection_payload r) (r_pool_revision r) (r_cache_key r)
    (r_content r) b.

(** [UPDATE ... SET is_active = 0 WHERE template_id = ? AND profile = ?] *)
Definition deactivate (db : Db) (t : TemplateId) (p : string) : Db :=
  set_rows db ((λ r, if for_profile t p r && r_is_active r then set_active false r else r) <$> rows db).

(** [activate] *)
Definition activate (db : Db) (t : TemplateId) (p : string) (new_id : GenerationCacheId) :
    Db * Result TemplateError () :=
  let db' := deactivate db t p in
  match rows db' !! new_id with
  | Some r =>
      if for_profile t p r && above_floor db r
      then (set_rows db' (<[new_id := set_active true r]> (rows db')), Ok ())
      else (db, Err TE_CacheInvalidated)
  | None => (db, Err TE_CacheInvalidated)
  end.

(** [bump_revision_tx] and [bump_revision]. *)
Definition bump_revision (db : Db) : Db :=
  mkDb (rows db) (templates db) (subscriptions db) (revision db + 1) (withdrawal_revision db).

(** The [pool_meta] part of deleting a source: both columns are assigned from
    the revision before the update. *)
Definition withdraw (db : Db) : Db :=
  mkDb (rows db) (templates db) (subscriptions db) (revision db + 1) (revision db + 1).

(** ** Invariant *)

Record cache_ok (db : Db) : Prop := {
  ok_id : map_Forall (λ i r, r_id r = i) (rows db);
  ok_key : ∀ i j r r', rows db !! i = Some r → rows db !! j = Some r' →
    r_cache_key r = r_cache_key r' → i = j;
  ok_active : ∀ i j r r', rows db !! i = Some r → rows db !! j = Some r' →
    r_is_active r = true → r_is_active r' = true →
    r_template_id r = r_template_id r' → r_profile r = r_profile r' → i = j;
  ok_floor : (withdrawal_revision db ≤ revision db)%Z
}.

Lemma elem_of_select db p r :
  r ∈ select db p ↔ ∃ i, rows db !! i = Some r ∧ p r = true.
Proof.
  unfold select. rewrite list_elem_of_filter, list_elem_of_fmap. split.
  - intros (Hp & [i r'] & -> & Hin%elem_of_map_to_list). eauto.
  - intros (i & Hi & Hp). split; [done|]. exists (i, r). split; [done|].
    by apply elem_of_map_to_list.
Qed.

Lemma select_nil db p i r : select db p = [] → rows db !! i = Some r → p r = false.
Proof.
  intros Hs Hr. destruct (p r) eqn:Hp; [|done].
  assert (r ∈ select db p) as Hin by (apply elem_of_select; eauto).
  rewrite Hs in Hin. by apply elem_of_nil in Hin.
Qed.

Lemma delete_rows_lookup (l : list CacheRow) (rs : gmap GenerationCacheId CacheRow) i :
  (∀ r, r ∈ l → r_id r ≠ i) → foldl (λ rs r, delete (r_id r) rs) rs l !! i = rs !! i.
Proof.
  revert rs. induction l as [|r l IH]; intros rs Hl; simpl; [done|].
  rewrite IH by (intros; apply Hl; by right). apply lookup_delete_ne. apply Hl. left.
Qed.

Lemma delete_rows_subseteq (l : list CacheRow) (rs : gmap GenerationCacheId CacheRow) :
  foldl (λ rs r, delete (r_id r) rs) rs l ⊆ rs.
Proof.
  revert rs. induction l as [|r l IH]; intros rs; simpl; [done|].
  etrans; [apply IH|apply delete_subseteq].
Qed.

(** Rows may only be removed: uniqueness survives. *)
Lemma cache_ok_subseteq db rs : rs ⊆ rows db → cache_ok db → cache_ok (set_rows db rs).
Proof.
  intros Hsub [Hid Hkey Hact Hfl]. split; simpl; [..|done].
  - intros i r Hi. apply (Hid i). by eapply lookup_weaken.
  - intros i j r r' Hi Hj. apply Hkey; by eapply lookup_weaken.
  - intros i j r r' Hi Hj. apply Hact; by eapply lookup_weaken.
Qed.

Lemma for_profile_true t p r : for_profile t p r = true ↔ r_template_id r = t ∧ r_profile r = p.
Proof. unfold for_profile. rewrite andb_true_iff, N.eqb_eq, String.eqb_eq. done. Qed.

Lemma insertable_id db r : insertable db r = true → rows db !! r_id r = None.
Proof.
  unfold insertable. intros Hins. apply andb_true_iff in Hins as [Hins _].
  apply andb_true_iff in Hins as [Hins _]. apply andb_true_iff in Hins as [Hins _].
  by apply bool_decide_eq_true in Hins.
Qed.

Lemma insert_ok db r :
  cache_ok db → insertable db r = true → cache_ok (set_rows db (<[r_id r := r]> (rows db))).
Proof.
  intros [Hid Hkey Hact Hfl] Hins. unfold insertable in Hins. bool_solve.
  destruct (select db (λ r', String.eqb _ _)) eqn:Hk; [|done].
  assert (∀ i r', rows db !! i = Some r' → r_cache_key r' ≠ r_cache_key r) as Hnk.
  { intros i r' Hi He. pose proof (select_nil _ _ _ _ Hk Hi) as Hf. simpl in Hf.
    apply String.eqb_neq in Hf. done. }
  assert (r_is_active r = true → ∀ i r', rows db !! i = Some r' → r_is_active r' = true →
    r_template_id r' = r_template_id r → r_profile r' = r_profile r → False) as Hna.
  { intros Ha i r' Hi Ha' Ht Hp. rewrite Ha in *. simpl in *.
    destruct (select db (λ r', for_profile _ _ r' && _)) eqn:Hs; [|done].
    pose proof (select_nil _ _ _ _ Hs Hi) as Hf. simpl in Hf.
    rewrite Ha', (proj2 (for_profile_true _ _ _) (conj Ht Hp)) in Hf. done. }
  split; simpl; [..|done].
  - by apply map_Forall_insert_2.
  - intros i j a b [[<- <-]|[? Hi]]%lookup_insert_Some [[<- <-]|[? Hj]]%lookup_insert_Some He;
      [done|by destruct (Hnk j b Hj)|by destruct (Hnk i a Hi)|by eapply Hkey].
  - intros i j a b [[<- <-]|[? Hi]]%lookup_insert_Some [[<- <-]|[? Hj]]%lookup_insert_Some Ha Hb Ht Hp;
      [done|by destruct (Hna Ha j b Hj)|by destruct (Hna Hb i a Hi)|by eapply Hact].
Qed.

Lemma store_ok db e : cache_ok db → cache_ok (store db e).1.
Proof.
  intros Hok. unfold store. destruct (negb (above_floor _ _)); [done|].
  destruct (insertable db (from_domain e)) eqn:Hins; [|done]. cbn [negb fst].
  eapply cache_ok_subseteq; [apply delete_rows_subseteq|by apply insert_ok].
Qed.

Lemma deactivate_lookup db t p i :
  rows (deactivate db t p) !! i =
    (λ r, if for_profile t p r && r_is_active r then set_active false r else r) <$> rows db !! i.
Proof. simpl. by rewrite lookup_fmap. Qed.

Lemma activate_ok db t p id : cache_ok db → cache_ok (activate db t p id).1.
Proof.
  intros Hok. unfold activate. rewrite deactivate_lookup.
  destruct (rows db !! id) as [r0|] eqn:H0; simpl; [|done].
  set (r := if for_profile t p r0 && r_is_active r0 then set_active false r0 else r0).
  destruct (for_profile t p r && above_floor db r) eqn:Hg; [|done]. bool_solve.
  destruct Hok as [Hid Hkey Hact Hfl].
  assert (∀ i x, <[id := set_active true r]> ((λ r, if for_profile t p r && r_is_active r
      then set_active false r else r) <$> rows db) !! i = Some x →
    ∃ y, rows db !! i = Some y ∧ r_id x = r_id y ∧ r_cache_key x = r_cache_key y ∧
      r_template_id x = r_template_id y ∧ r_profile x = r_profile y ∧
      (r_is_active x = true → (i = id ∨ (for_profile t p y = false ∧ r_is_active y = true)))) as Hback.
  { intros i x Hx. apply lookup_insert_Some in Hx as [[<- <-]|[Hne Hx]].
    - exists r0. unfold r. split; [done|]. destruct (for_profile t p r0 && r_is_active r0); simpl;
        split_and!; try done; auto.
    - rewrite lookup_fmap in Hx. destruct (rows db !! i) as [y|]; [|done].
      exists y. simplify_eq/=. split; [done|].
      destruct (for_profile t p y) eqn:Hf, (r_is_active y) eqn:Ha; simpl; split_and!; try done;
        try (rewrite Ha; done); auto. }
  assert (r_template_id r0 = t ∧ r_profile r0 = p) as [Ht0 Hp0].
  { apply for_profile_true in H. unfold r in H. by destruct (_ && _). }
  split; simpl; [..|done].
  - intros i x Hx. apply Hback in Hx as (y & Hy & -> & _). by apply (Hid i).
  - intros i j x x' (y & Hy & _ & -> & _)%Hback (y' & Hy' & _ & -> & _)%Hback. by apply Hkey.
  - intros i j x x' (y & Hy & _ & _ & Ht & Hp & Ha)%Hback (y' & Hy' & _ & _ & Ht' & Hp' & Ha')%Hback
      Hx Hx'. rewrite Ht, Hp, Ht', Hp'. intros Htt Hpp.
    destruct (Ha Hx) as [->|[Hf Hact1]], (Ha' Hx') as [->|[Hf' Hact2]]; [done|..].
    + simplify_eq. rewrite (proj2 (for_profile_true _ _ y')) in Hf'; [done|]. by split.
    + simplify_eq. rewrite (proj2 (for_profile_true _ _ y)) in Hf; [done|]. by split.
    + by eapply Hact.
Qed.

(** ** The repository as a sequence of committed transactions *)

Inductive Event :=
  | EStore (e : GenerationCacheEntry)
  | EActivate (t : TemplateId) (p : string) (id : GenerationCacheId)
  | EBump
  | EWithdraw
  | ESubscriptions (subs : list SubRow).

Definition step (db : Db) (ev : Event) : Db :=
  match ev with
  | EStore e => (store db e).1
  | EActivate t p id => (activate db t p id).1
  | EBump => bump_revision db
  | EWithdraw => withdraw db
  | ESubscriptions subs => mkDb (rows db) (templates db) subs (revision db) (withdrawal_revision db)
  end.

Lemma store_meta db e :
  revision (store db e).1 = revision db ∧
  withdrawal_revision (store db e).1 = withdrawal_revision db.
Proof. unfold store. by repeat case_match. Qed.

Lemma activate_meta db t p id :
  revision (activate db t p id).1 = revision db ∧
  withdrawal_revision (activate db t p id).1 = withdrawal_revision db.
Proof. unfold activate. by repeat case_match. Qed.

Lemma step_cache_ok db ev : cache_ok db → cache_ok (step db ev).
Proof.
  intros Hok. destruct ev; simpl; [by apply store_ok|by apply activate_ok|..];
    destruct Hok as [? ? ? Hfl]; split; simpl; try done; lia.
Qed.

(** The withdrawal floor never moves down. *)
Lemma step_floor db ev :
  cache_ok db → (withdrawal_revision db ≤ withdrawal_revision (step db ev))%Z.
Proof.
  intros [_ _ _ Hfl]. destruct ev; simpl; [|..|lia|lia|lia].
  - by rewrite (proj2 (store_meta db e)).
  - by rewrite (proj2 (activate_meta db t p id)).
Qed.

Lemma run_floor db evs :
  cache_ok db → (withdrawal_revision db ≤ withdrawal_revision (foldl step db evs))%Z.
Proof.
  revert db. induction evs as [|ev evs IH]; intros db Hok; simpl; [lia|].
  etrans; [by apply (step_floor db ev)|]. by apply IH, step_cache_ok.
Qed.

(** *** Reads respect the floor *)

Lemma into_domain_Ok r e :
  into_domain r = Ok e → ce_id e = r_id r ∧ ce_content e = r_content r ∧
    Z.of_N (ce_pool_revision e) = r_pool_revision r ∧
    Z.of_N (ce_template_version e) = r_template_version r ∧ ce_is_active e = r_is_active r.
Proof.
  unfold into_domain, u64_column.
  destruct (Z.leb_spec 0 (r_template_version r)), (Z.leb_spec 0 (r_pool_revision r)); simpl; try done.
  intros [= <-]. simpl. by rewrite !Z2N.id.
Qed.

Lemma transpose_floor db l e :
  (∀ r, r ∈ l → above_floor db r = true) → transpose_row (head l) = Ok (Some e) →
  (withdrawal_revision db ≤ Z.of_N (ce_pool_revision e))%Z.
Proof.
  destruct l as [|r l]; simpl; [done|]. intros Hl Hr.
  destruct (into_domain r) as [e'|] eqn:He; [|done]. simplify_eq/=.
  apply into_domain_Ok in He as (_ & _ & -> & _). specialize (Hl r ltac:(left)).
  unfold above_floor in Hl. lia.
Qed.

Lemma find_latest_floor db t p sm sp pin m e :
  find_latest db t p sm sp pin m = Ok (Some e) →
  (withdrawal_revision db ≤ Z.of_N (ce_pool_revision e))%Z.
Proof.
  apply transpose_floor. intros r Hr. rewrite elem_of_sort_by in Hr.
  apply elem_of_select in Hr as (i & _ & Hr). by bool_solve.
Qed.

Lemma find_active_floor db t p e :
  find_active db t p = Ok (Some e) → (withdrawal_revision db ≤ Z.of_N (ce_pool_revision e))%Z.
Proof.
  apply transpose_floor. intros r Hr. apply elem_of_select in Hr as (i & _ & Hr). by bool_solve.
Qed.

Lemma find_by_key_floor db k e :
  find_by_key db k = Ok (Some e) → (withdrawal_revision db ≤ Z.of_N (ce_pool_revision e))%Z.
Proof.
  apply transpose_floor. intros r Hr. apply elem_of_select in Hr as (i & _ & Hr). by bool_solve.
Qed.

(** *** Activation *)

Lemma activate_rows db t p id db' :
  activate db t p id = (db', Ok ()) →
  ∃ r, rows db !! id = Some r ∧ for_profile t p r = true ∧ above_floor db r = true ∧
    rows db' = <[id := set_active true r]> (rows (deactivate db t p)).
Proof.
  unfold activate. rewrite deactivate_lookup. destruct (rows db !! id) as [r|]; simpl; [|done].
  destruct (for_profile t p r && r_is_active r) eqn:Hc; simpl.
  - destruct (for_profile t p (set_active false r) && _) eqn:Hg; [|done]. bool_solve.
    intros [= <-]. by exists r.
  - destruct (for_profile t p r && above_floor db r) eqn:Hg; [|done]. bool_solve;
      intros [= <-]; by exists r.
Qed.

(** *** Retention *)

Lemma compare_id_desc_le a b : cmp_le compare_id_desc a b ↔ (r_id b ≤ r_id a)%N.
Proof. unfold cmp_le, compare_id_desc. destruct (N.compare_spec (r_id b) (r_id a)); split; done || lia. Qed.

#[export] Instance compare_id_desc_order : CmpOrder compare_id_desc.
Proof.
  split.
  - intros a b c. rewrite !compare_id_desc_le. lia.
  - intros a b. rewrite !compare_id_desc_le. lia.
Qed.

Lemma last_good_Some db s i :
  cache_ok db →
  last_good db s = Some i ↔
    ∃ r, rows db !! i = Some r ∧ protects db s r = true ∧
      ∀ j r', rows db !! j = Some r' → protects db s r' = true → (j ≤ i)%N.
Proof.
  intros [Hid _ _ _]. unfold last_good. split.
  - destruct (head _) as [r|] eqn:Hh; [|done]. intros [= <-].
    apply sort_by_head in Hh as [Hin Hmin]; [|apply _].
    apply elem_of_select in Hin as (i & Hi & Hp). pose proof (Hid i r Hi) as <-.
    exists r. split_and!; [done..|]. intros j r' Hj Hp'. pose proof (Hid j r' Hj) as <-.
    apply compare_id_desc_le, Hmin, elem_of_select. eauto.
  - intros (r & Hi & Hp & Hmax). destruct (head _) as [x|] eqn:Hh.
    + apply sort_by_head in Hh as [Hin Hmin]; [|apply _]. simpl. f_equal.
      assert (r ∈ select db (protects db s)) as Hr by (apply elem_of_select; eauto).
      specialize (Hmin r Hr). rewrite compare_id_desc_le in Hmin.
      apply elem_of_select in Hin as (j & Hj & Hpx). specialize (Hmax j x Hj Hpx).
      pose proof (Hid j x Hj). pose proof (Hid i r Hi). simpl in *. lia.
    + apply sort_by_head_None in Hh. rewrite (select_nil _ _ _ _ Hh Hi) in Hp. done.
Qed.

Lemma expired_spec db t p r :
  r ∈ expired db t p → ∃ i, rows db !! i = Some r ∧ for_profile t p r = true ∧
    r_is_active r = false ∧ r_id r ∉ protected db t p.
Proof.
  unfold expired. intros [i Hi]%list_elem_of_lookup. rewrite lookup_drop in Hi.
  assert (r ∈ select db (λ r, for_profile t p r && negb (r_is_active r)
    && negb (bool_decide (r_id r ∈ protected db t p)))) as Hin.
  { eapply elem_of_sort_by, list_elem_of_lookup. eauto. }
  apply elem_of_select in Hin as (j & Hj & Hp). bool_solve.
  apply bool_decide_eq_false in H0. eauto.
Qed.

Lemma retain_keeps db t p i r :
  cache_ok db → rows db !! i = Some r →
  (for_profile t p r = false ∨ r_is_active r = true ∨ i ∈ protected db t p) →
  rows (retain db t p) !! i = Some r.
Proof.
  intros Hok Hi Hkeep. simpl. rewrite delete_rows_lookup; [done|].
  intros r' (j & Hj & Hf & Ha & Hn)%expired_spec Hid.
  pose proof (ok_id _ Hok j r' Hj) as Hj'. simpl in Hj'. subst.
  destruct Hkeep as [?|[?|?]]; simplify_eq; congruence.
Qed.

Lemma retain_last_good db t p s :
  cache_ok db → s ∈ subscriptions db → last_good (retain db t p) s = last_good db s.
Proof.
  intros Hok Hs.
  assert (cache_ok (retain db t p)) as Hok'
    by (apply cache_ok_subseteq; [apply delete_rows_subseteq|done]).
  assert (∀ i r, rows (retain db t p) !! i = Some r → rows db !! i = Some r) as Hsub.
  { intros i r Hr. eapply lookup_weaken; [exact Hr|apply delete_rows_subseteq]. }
  destruct (last_good db s) as [i|] eqn:Hl.
  - pose proof Hl as Hl'. apply last_good_Some in Hl as (r & Hi & Hp & Hmax); [|done].
    apply last_good_Some; [done|]. exists r. split_and!; [|done|by eauto].
    apply retain_keeps; [done..|].
    destruct (for_profile t p r) eqn:Hf; [|by left]. right; right.
    apply list_elem_of_omap. exists s. split; [done|].
    apply for_profile_true in Hf as [<- <-]. unfold protects in Hp. bool_solve.
    apply for_profile_true in H as [-> ->]. by rewrite N.eqb_refl, String.eqb_refl.
  - destruct (last_good (retain db t p) s) as [i|] eqn:Hl'; [|done].
    apply last_good_Some in Hl' as (r & Hi & Hp & _); [|done].
    unfold last_good in Hl. destruct (head _) eqn:Hh in Hl; [done|].
    apply sort_by_head_None in Hh. change (protects (retain db t p) s) with (protects db s) in Hp.
    rewrite (select_nil _ _ _ _ Hh (Hsub _ _ Hi)) in Hp. done.
Qed.

(** The rows of the retention query that survive it. *)
Definition unprotected (db db' : Db) (t : TemplateId) (p : string) : list CacheRow :=
  filter (λ r, rows db' !! r_id r = Some r) (select db (λ r,
    for_profile t p r && negb (r_is_active r) && negb (bool_decide (r_id r ∈ protected db t p)))).

Lemma delete_rows_gone (l : list CacheRow) (rs : gmap GenerationCacheId CacheRow) r :
  r ∈ l → foldl (λ rs r, delete (r_id r) rs) rs l !! r_id r = None.
Proof.
  revert rs. induction l as [|x l IH]; intros rs Hr; [by apply elem_of_nil in Hr|]. simpl.
  apply elem_of_cons in Hr as [->|Hr]; [|by apply IH].
  eapply lookup_weaken_None; [|apply delete_rows_subseteq]. apply lookup_delete_eq.
Qed.

Lemma select_NoDup db p : cache_ok db → NoDup (select db p).
Proof.
  intros [Hid _ _ _]. apply NoDup_filter. apply NoDup_fmap_2_strong; [|apply NoDup_map_to_list].
  intros [i r] [j r'] Hi%elem_of_map_to_list Hj%elem_of_map_to_list Heq. simpl in Heq. subst.
  pose proof (Hid i r' Hi). pose proof (Hid j r' Hj). simpl in *. congruence.
Qed.

Lemma retain_bound db t p :
  cache_ok db → length (unprotected db (retain db t p) t p) ≤ INACTIVE_RETAIN.
Proof.
  intros Hok. unfold unprotected.
  set (sel := select db _).
  assert (filter (λ r, rows (retain db t p) !! r_id r = Some r) sel
    ⊆+ take INACTIVE_RETAIN (sort_by compare_id_desc sel)) as Hsub.
  { apply NoDup_submseteq; [by apply NoDup_filter, select_NoDup|].
    intros r [Hr Hin]%list_elem_of_filter.
    apply (elem_of_sort_by compare_id_desc) in Hin.
    rewrite <-(take_drop INACTIVE_RETAIN (sort_by compare_id_desc sel)) in Hin.
    apply elem_of_app in Hin as [?|Hin]; [done|].
    assert (rows (retain db t p) !! r_id r = None) as Hgone by (apply delete_rows_gone; exact Hin).
    congruence. }
  apply submseteq_length in Hsub. rewrite length_take in Hsub. lia.
Qed.

(** A successful [store] is an insertion followed by the retention. *)
Lemma store_Ok db e db' :
  store db e = (db', Ok ()) →
  let r := from_domain e in
  let inserted := set_rows db (<[r_id r := r]> (rows db)) in
  insertable db r = true ∧ above_floor db r = true ∧
  db' = retain inserted (r_template_id r) (r_profile r).
Proof.
  unfold store. destruct (above_floor db _) eqn:Hf; [|done].
  destruct (insertable db _) eqn:Hi; [|done]. by intros [= <-].
Qed.

(** *** Reading the active entry *)

Lemma activate_Err db t p id db' e : activate db t p id = (db', Err e) → db' = db.
Proof. unfold activate. intros Ha. by repeat case_match; simplify_eq. Qed.

Lemma store_Err db e db' err : store db e = (db', Err err) → db' = db.
Proof. unfold store. intros Hs. by repeat case_match; simplify_eq. Qed.

(** A query that matches at most one row does not depend on the row order. *)
Lemma head_select db p r :
  (∀ x y, x ∈ select db p → y ∈ select db p → x = y) → r ∈ select db p → head (select db p) = Some r.
Proof.
  intros Hu Hr. destruct (select db p) as [|x l]; [by apply elem_of_nil in Hr|].
  simpl. f_equal. apply Hu; [left|done].
Qed.

Lemma head_select_ext db db' p p' :
  (∀ x y, x ∈ select db p → y ∈ select db p → x = y) →
  (∀ r, r ∈ select db' p' ↔ r ∈ select db p) → head (select db' p') = head (select db p).
Proof.
  intros Hu Hext. destruct (select db' p') as [|x l] eqn:Hs.
  - destruct (select db p) as [|y k]; [done|]. exfalso.
    by apply (not_elem_of_nil y), Hext; left.
  - symmetry. apply head_select; [done|]. apply Hext. left.
Qed.

Lemma select_active_unique db t p x y :
  cache_ok db →
  x ∈ select db (λ r, for_profile t p r && r_is_active r && above_floor db r) →
  y ∈ select db (λ r, for_profile t p r && r_is_active r && above_floor db r) → x = y.
Proof.
  intros Hok (i & Hi & Hx)%elem_of_select (j & Hj & Hy)%elem_of_select. bool_solve.
  apply for_profile_true in H as [? ?]. apply for_profile_true in H2 as [? ?].
  assert (i = j) as ->; [|congruence].
  eapply (ok_active _ Hok i j x y); try done; congruence.
Qed.

Lemma select_key_unique db k x y :
  cache_ok db →
  x ∈ select db (λ r, String.eqb (r_cache_key r) k && above_floor db r) →
  y ∈ select db (λ r, String.eqb (r_cache_key r) k && above_floor db r) → x = y.
Proof.
  intros Hok (i & Hi & Hx)%elem_of_select (j & Hj & Hy)%elem_of_select. bool_solve.
  apply String.eqb_eq in H, H1. assert (i = j) as ->; [|congruence].
  eapply (ok_key _ Hok i j x y); [done..|congruence].
Qed.

Lemma find_active_row db t p i r :
  cache_ok db → rows db !! i = Some r → for_profile t p r = true → r_is_active r = true →
  above_floor db r = true → find_active db t p = transpose_row (Some r).
Proof.
  intros Hok Hi Hf Ha Hab. unfold find_active. f_equal. apply head_select.
  - intros x y. by apply select_active_unique.
  - apply elem_of_select. exists i. by rewrite Hf, Ha, Hab.
Qed.

(** Storing an inactive entry does not touch the active ones. *)
Lemma store_keeps_active db e t p :
  cache_ok db → ce_is_active e = false → find_active (store db e).1 t p = find_active db t p.
Proof.
  intros Hok Hin. destruct (store db e) as [db' [[]|err]] eqn:Hs; [|by apply store_Err in Hs as ->].
  unfold find_active. f_equal. apply head_select_ext; [intros x y; by apply select_active_unique|].
  destruct (store_Ok _ _ _ Hs) as (Hins & _ & ->). cbn [fst].
  set (r := from_domain e). set (db1 := set_rows db (<[r_id r := r]> (rows db))).
  assert (cache_ok db1) as Hok1 by by apply insert_ok.
  intros x. rewrite !elem_of_select. split.
  - intros (i & Hi & Hx). eapply lookup_weaken in Hi; [|apply delete_rows_subseteq].
    unfold db1 in Hi. cbn [rows set_rows] in Hi. apply lookup_insert_Some in Hi as [[_ <-]|[_ Hi]]; [|by exists i].
    exfalso. bool_solve. change (r_is_active r) with (ce_is_active e) in *. congruence.
  - intros (i & Hi & Hx). exists i. split; [|done]. apply retain_keeps; [done| |].
    + simpl. rewrite lookup_insert_ne; [done|]. intros Heq. subst i.
      apply insertable_id in Hins. simpl in Hins. congruence.
    + right. left. by bool_solve.
Qed.

(** An entry found by its key is a stored row above the floor. *)
Lemma find_by_key_row db k e :
  find_by_key db k = Ok (Some e) →
  ∃ i r, rows db !! i = Some r ∧ into_domain r = Ok e ∧ above_floor db r = true ∧ r_cache_key r = k.
Proof.
  unfold find_by_key. destruct (head _) as [r|] eqn:Hh; [|done]. simpl.
  destruct (into_domain r) as [e'|] eqn:He; [|done]. intros [= <-].
  assert (r ∈ select db (λ r, String.eqb (r_cache_key r) k && above_floor db r)) as Hin.
  { destruct (select _ _); simplify_eq/=. left. }
  apply elem_of_select in Hin as (i & Hi & Hp). bool_solve. apply String.eqb_eq in H. eauto 10.
Qed.

Lemma into_domain_fields r e :
  into_domain r = Ok e → ce_template_id e = r_template_id r ∧ ce_profile e = r_profile r ∧
    ce_id e = r_id r ∧ ce_content e = r_content r ∧ ce_is_active e = r_is_active r.
Proof.
  unfold into_domain, u64_column.
  destruct (Z.leb 0 (r_template_version r)), (Z.leb 0 (r_pool_revision r)); simpl; try done.
  by intros [= <-].
Qed.

(** A successful activation publishes the row. *)
Lemma activate_find db t p id db' :
  cache_ok db → activate db t p id = (db', Ok ()) →
  ∃ r, rows db !! id = Some r ∧ find_active db' t p = transpose_row (Some (set_active true r)).
Proof.
  intros Hok Ha. destruct (activate_rows _ _ _ _ _ Ha) as (r & H0 & Hf & Hab & Hrows).
  exists r. split; [done|]. apply (find_active_row db' t p id).
  - pose proof (activate_ok db t p id Hok) as H. by rewrite Ha in H.
  - by rewrite Hrows, lookup_insert_eq.
  - exact Hf.
  - done.
  - unfold above_floor. pose proof (activate_meta db t p id) as [_ Hm].
    rewrite Ha in Hm. cbn [fst] in Hm. rewrite Hm. exact Hab.
Qed.

(** C1: every sequence of stores, activations, revision bumps, withdrawals and
    subscription edits keeps the cache well formed: cache keys are unique,
    at most one entry per template and profile is active, and the withdrawal
    floor stays at or below the pool revision. *)
Theorem cache_invariant db evs : cache_ok db → cache_ok (foldl step db evs).
Proof. intros Hok. apply foldl_preserve; [intros; by apply step_cache_ok|done]. Qed.

(** activation is atomic.  If it fails nothing changes; if it succeeds the
    active entry of that template and profile is the requested one, with its
    stored content, and no entry of any other template or profile changes. *)
Theorem activate_atomic db t p id db' res :
  cache_ok db → activate db t p id = (db', res) →
  match res with
  | Err _ => db' = db
  | Ok _ =>
      (∃ r, rows db !! id = Some r ∧ find_active db' t p = transpose_row (Some (set_active true r))) ∧
      (∀ i r, rows db !! i = Some r → for_profile t p r = false → rows db' !! i = Some r)
  end.
Proof.
  intros Hok Ha. destruct res as [[]|err]; [|by eapply activate_Err].
  split; [by eapply activate_find|].
  destruct (activate_rows _ _ _ _ _ Ha) as (r0 & H0 & Hf & _ & Hrows).
  intros i r Hi Hfr. rewrite Hrows, lookup_insert_ne.
  - rewrite deactivate_lookup, Hi. simpl. by rewrite Hfr.
  - intros ->. simplify_eq. congruence.
Qed.

(** C22: an explicit withdrawal is final.  After a source is deleted at pool
    revision [revision db], no read, whatever transactions are committed
    afterwards, returns content generated at or below that revision. *)
Theorem withdrawn_never_served db evs e :
  cache_ok db →
  (∃ t p, find_active (foldl step (withdraw db) evs) t p = Ok (Some e)) ∨
  (∃ k, find_by_key (foldl step (withdraw db) evs) k = Ok (Some e)) ∨
  (∃ t p sm sp pin m, find_latest (foldl step (withdraw db) evs) t p sm sp pin m = Ok (Some e)) →
  (revision db < Z.of_N (ce_pool_revision e))%Z.
Proof.
  intros Hok Hread. set (db' := foldl step (withdraw db) evs) in *.
  assert (withdrawal_revision db' ≤ Z.of_N (ce_pool_revision e))%Z as Hfl.
  { destruct Hread as [(t & p & H)|[(k & H)|(t & p & sm & sp & pin & m & H)]].
    - by eapply find_active_floor.
    - by eapply find_by_key_floor.
    - by eapply find_latest_floor. }
  pose proof (run_floor (withdraw db) evs (step_cache_ok db EWithdraw Hok)) as Hrun.
  change (withdrawal_revision (withdraw db)) with (revision db + 1)%Z in Hrun.
  fold db' in Hrun. lia.
Qed.

(** retention never evicts a subscription's last-good content: after a
    successful store, each subscription's newest matching lenient entry is
    the newest of the old entries and the new one, and it is still there. *)
Theorem store_keeps_last_good db e db' s :
  cache_ok db → store db e = (db', Ok ()) → s ∈ subscriptions db →
  let r := from_domain e in
  last_good db' s = last_good (set_rows db (<[r_id r := r]> (rows db))) s.
Proof.
  intros Hok Hst Hs. destruct (store_Ok _ _ _ Hst) as (Hins & _ & ->).
  apply retain_last_good; [by apply insert_ok|done].
Qed.

(** History stays bounded: after a successful store at most
    [INACTIVE_RETAIN] inactive entries of that template and profile are left
    beside the ones a subscription protects. *)
Theorem store_bounds_history db e db' :
  cache_ok db → store db e = (db', Ok ()) →
  let r := from_domain e in
  length (unprotected (set_rows db (<[r_id r := r]> (rows db))) db'
    (r_template_id r) (r_profile r)) ≤ INACTIVE_RETAIN.
Proof.
  intros Hok Hst. destruct (store_Ok _ _ _ Hst) as (Hins & _ & ->).
  apply retain_bound. by apply insert_ok.
Qed.

(** *** Witnesses: one template, one lenient subscription, two entries. *)

Definition demo_entry (id : N) (rev : N) (key : string) : GenerationCacheEntry :=
  mkCacheEntry id 1 1 "mihomo" "lenient" "dynamic" "{}" rev key "proxies: []" false.
Definition demo_empty : Db := mkDb ∅ {[1%N]} [mkSubRow 9 1 "mihomo" "{}" None] 3 0.
Definition demo_db : Db := (store demo_empty (demo_entry 5 3 "k5")).1.

Lemma demo_empty_ok : cache_ok demo_empty.
Proof. split; try (by intros); vm_compute; discriminate. Qed.

Lemma demo_db_ok : cache_ok demo_db.
Proof. apply store_ok, demo_empty_ok. Qed.

Lemma cache_invariant_witness :
  cache_ok (foldl step demo_db [EActivate 1 "mihomo" 5; EBump; EStore (demo_entry 6 4 "k6"); EWithdraw]).
Proof. apply (cache_invariant demo_db _ demo_db_ok). Defined.

Lemma activate_atomic_witness :
  ∃ r, rows demo_db !! 5%N = Some r ∧
    find_active (activate demo_db 1 "mihomo" 5).1 1 "mihomo" = transpose_row (Some (set_active true r)).
Proof.
  destruct (activate demo_db 1 "mihomo" 5) as [db' res] eqn:Ha.
  pose proof (activate_atomic demo_db 1 "mihomo" 5 db' res demo_db_ok Ha) as H.
  destruct res as [[]|err].
  - exact (proj1 H).
  - exfalso. assert ((activate demo_db 1 "mihomo" 5).2 = Ok ()) as H2 by (vm_compute; reflexivity).
    rewrite Ha in H2. discriminate H2.
Defined.

Lemma withdrawn_never_served_witness :
  (3 < Z.of_N (ce_pool_revision (demo_entry 6 4 "k6")))%Z.
Proof.
  apply (withdrawn_never_served demo_db [EStore (demo_entry 6 4 "k6")] (demo_entry 6 4 "k6") demo_db_ok).
  right. left. exists "k6". vm_compute. reflexivity.
Defined.

Lemma store_keeps_last_good_witness :
  last_good (store demo_db (demo_entry 6 4 "k6")).1 (mkSubRow 9 1 "mihomo" "{}" None) = Some 6%N.
Proof.
  rewrite (store_keeps_last_good demo_db (demo_entry 6 4 "k6") _ (mkSubRow 9 1 "mihomo" "{}" None)).
  - vm_compute. reflexivity.
  - apply demo_db_ok.
  - vm_compute. reflexivity.
  - left.
Defined.

Lemma store_bounds_history_witness :
  length (unprotected (set_rows demo_db (<[6%N := from_domain (demo_entry 6 4 "k6")]> (rows demo_db)))
    (store demo_db (demo_entry 6 4 "k6")).1 1 "mihomo") ≤ 8.
Proof.
  apply (store_bounds_history demo_db (demo_entry 6 4 "k6")).
  - apply demo_db_ok.
  - vm_compute. reflexivity.
Defined.

End CacheRepo.
