(* ===== verification/Generation.v ===== *)
(** * The generation pipeline
      ([crates/deve-sub-application/src/template/generation.rs],
      [clash_generation.rs]; [crates/deve-sub-domain/src/template/entity.rs])

    resolve, compatibility, strict checks, naming, assembly, emission and
    output validation, and the three entry points around the cache:
    [generate] (publishes), [generate_for_delivery] (stores, falls back to the
    last good version) and [preview] (no effects).  The pool and the cache
    are the stores of [NodePool] and [CacheRepo]. *)

From stdpp Require Import pretty.
From S2P Require Import Prelude Kernel Node Text NodePool Template GenTypes Yaml Validation.
From S2P Require Import Selection Compat Assemble CacheKey CacheRepo.

(** ** Entities ([template/entity.rs]) *)

Record SubscriptionTemplate := mkTemplate {
  t_id : TemplateId;
  t_name : string;
  t_description : string;
  t_active_version_id : option N;
  t_active_version : N;
  t_created_at : Z;
  t_updated_at : Z
}.

Record TemplateVersion := mkTemplateVersion {
  tv_id : N;
  tv_template_id : TemplateId;
  tv_version : N;
  tv_spec : TemplateSpec;
  tv_spec_yaml : string;
  tv_is_active : bool;
  tv_created_at : Z
}.

(** The queries of [TemplateRepository] and [TemplateVersionRepository] the
    pipeline uses. *)
Record TemplateStore := mkTemplateStore {
  find_template : TemplateId → Result TemplateError (option SubscriptionTemplate);
  find_by_version_number : TemplateId → N → Result TemplateError (option TemplateVersion);
  find_active_version : TemplateId → Result TemplateError (option TemplateVersion)
}.

Record AssembledTemplate := mkAssembledTemplate {
  at_clash : option string;
  at_nodes : list Node;
  at_groups : list AssembledGroup;
  at_rules : list Json;
  at_dns : Json;
  at_tun : Json;
  at_output : Json
}.

(** [deve_sub_yaml::SequenceState] *)
Inductive SequenceState := SeqMissing | SeqNotSequence | SeqEmpty | SeqNonEmpty.

Module Generation.
Import Compat.

(** [has_json_content] *)
Definition has_json_content (v : Json) : bool :=
  match v with
  | JNull => false
  | JObject m => match m with [] => false | _ => true end
  | _ => true
  end.

(** [cached_result] *)
Definition cached_result (cached : GenerationCacheEntry) (warnings : list string) : GenerationResult :=
  mkGenerationResult (ce_content cached) (ce_profile cached) [] []
    (warnings ++ ["served from cache"; "included/excluded report unavailable from cache"]).

(** The names of the dropped container fields. *)
Definition dropped_fields (groups : list AssembledGroup) (s : TemplateSpec) : list string :=
  (if groups is [] then [] else ["groups"]) ++
  (if rules s is [] then [] else ["rules"]) ++
  (if has_json_content (dns s) then ["dns"] else []) ++
  (if has_json_content (tun s) then ["tun"] else []).

(** The group types the profile rejects. *)
Definition incompatible_groups (profile : ProfileKind) (groups : list ProxyGroup) : list IncompatibleGroup :=
  omap (λ g, match check_group_type (pg_type g) (capability_for profile) with
             | Ok _ => None
             | Err r => Some (mkIncompatibleGroup (pg_name g) (group_type_display (pg_type g))
                                (reason_display r))
             end) groups.

(** ** The code the pipeline calls

    [Pipeline.server] fills this interface with the parts modelled elsewhere. *)

Class Externals := {
  (** the YAML parser and the derived document conversion *)
  yaml_parse : string → Result string Yaml.Value;
  from_value : Yaml.Value → Result string TemplateDocument;
  (** the native-Clash front end: [clash::parse], the body of
      [clash_normalization::warnings], the group names of [clash::config], and
      the materialisation of a native document, which may list the pool *)
  clash_parse : Yaml.Value → Result TemplateAppError TemplateDocument;
  clash_warnings : string → Result TemplateAppError (list string);
  native_group_names : string → Result TemplateAppError (list string);
  materialize : (NodeFilter → option NodeId → N → Result string (list NodePoolEntry)) →
    string → list (Node * Z) → list string → Result TemplateAppError (string * list string);
  (** [serde_json::to_string] of a selector, [{:?}] of a string list, SHA-256
      and the text form of identifiers *)
  selector_json : NodeSelector → Result string string;
  debug_strings : list string → string;
  sha256 : string → string;
  id_display : N → string;
  (** the emitters, and the parsers that check their output *)
  emit_mihomo_full : AssembledTemplate → Result string string;
  emit_nodes : ProfileKind → list Node → Result string string;
  inspect_generated_sequence : string → Result string SequenceState;
  json_from_str : string → option Json
}.

Section pipeline.
Context {R : Type} {pool : NodePoolRepository R} {ext : Externals}.

Definition parse_document (spec_yaml : string) : Result TemplateAppError TemplateDocument :=
  Validation.parse_template_document yaml_parse from_value clash_parse spec_yaml.

(** [clash_normalization::warnings] *)
Definition normalization_warnings (native : option string) : Result TemplateAppError (list string) :=
  match native with None => Ok [] | Some n => clash_warnings n end.

(** *** Context *)

Record GenerationContext := mkContext {
  cx_version : TemplateVersion;
  cx_profile : ProfileKind;
  cx_pool_revision : Revision.Revision;
  cx_cache_key : string;
  cx_selection_mode : string;
  cx_selection_payload : string;
  cx_normalization_warnings : list string
}.

(** [SqlitePoolMetaRepository::get_revision] *)
Definition get_revision (db : CacheRepo.Db) : Result TemplateAppError Revision.Revision :=
  if Z.leb 0 (CacheRepo.revision db) then Ok (Revision.new (Z.to_N (CacheRepo.revision db)))
  else Err (Storage "storage error: negative pool revision").

Definition selection_mode_str (m : SelectionMode) : string :=
  match m with Dynamic => "dynamic" | Fixed => "fixed" end.

(** [resolve_context] *)
Definition resolve_context (ts : TemplateStore) (db : CacheRepo.Db) (rq : GenerationRequest) :
    Result TemplateAppError GenerationContext :=
  let? t := map_err map_template_error (find_template ts (rq_template_id rq)) in
  let? _ := ok_or t TemplateNotFound in
  let? version :=
    match rq_template_version_pin rq with
    | Some n =>
        let? v := map_err GenTypes.Template (find_by_version_number ts (rq_template_id rq) n) in
        ok_or v VersionNotFound
    | None =>
        let? v := map_err map_template_error (find_active_version ts (rq_template_id rq)) in
        ok_or v VersionNotFound
    end in
  let? doc := parse_document (tv_spec_yaml version) in
  let? profile := ok_or (from_kebab (rq_profile rq)) (UnknownProfile (rq_profile rq)) in
  if negb (bool_decide (target_profiles (spec doc) = []))
     && negb (bool_decide (rq_profile rq ∈ target_profiles (spec doc)))
  then Err (InvalidInput ("profile '" +:+ rq_profile rq +:+ "' is not in template target_profiles "
                          +:+ debug_strings (target_profiles (spec doc))))
  else
    let? pool_revision := get_revision db in
    let selector := default (node_selector (spec doc)) (rq_node_selection rq) in
    let selection_mode := selection_mode_str (sel_mode selector) in
    let? payload := map_err Storage (selector_json selector) in
    let cache_key := CacheKey.compute_key sha256 id_display
      (mkCacheKeyParams (rq_template_id rq) (tv_version version) (rq_profile rq) (rq_mode rq)
        selection_mode payload pool_revision) in
    let? warnings := normalization_warnings (clash (spec doc)) in
    Ok (mkContext version profile pool_revision cache_key selection_mode payload warnings).

(** *** The pipeline *)

Definition with_selector (doc : TemplateDocument) (o : option NodeSelector) : TemplateDocument :=
  match o with
  | None => doc
  | Some sel =>
      let s := spec doc in
      mkTemplateDocument (api_version doc) (kind doc) (metadata doc)
        (mkTemplateSpec (clash s) (target_profiles s) (variables s) sel (proxy_groups s) (rules s)
          (dns s) (tun s) (output s))
  end.

(** Reading the whole pool takes at most one page per entry and a last empty
    one. *)
Definition resolve (doc : TemplateDocument) (r : R) : Result TemplateAppError TemplateResolution :=
  match Selection.resolve_template (S (length (pool_entries r))) doc r with
  | Some res => res
  | None => Err (Storage "pool listing did not terminate")
  end.

(** [sort_unstable] and [dedup]. *)
Definition sorted_ids (ids : list NodeId) : list NodeId :=
  sort_by N.compare (elements (list_to_set ids : gset NodeId)).

Definition missing_warnings (res : TemplateResolution) : list string :=
  ((λ m, "node " +:+ id_display (mr_node_id m) +:+ " is " +:+ missing_reason_display (mr_reason m))
    <$> ts_selection_missing res) ++
  (ts_groups res ≫= λ g,
    (λ m, "group '" +:+ gs_group_name g +:+ "': node " +:+ id_display (mr_node_id m) +:+ " is "
          +:+ missing_reason_display (mr_reason m)) <$> gs_missing g).

(** The [for id in &report.included_node_ids] loop. *)
Fixpoint collect_nodes (entries : gmap NodeId NodePoolEntry) (ids : list NodeId) :
    list (Node * Z) * list string :=
  match ids with
  | [] => ([], [])
  | id :: ids =>
      let '(nodes, warnings) := collect_nodes entries ids in
      match entries !! id with
      | Some e =>
          if is_active e && negb (missing_from_source e)
          then ((node e, match override_info e with Some o => sort_order o | None => 0%Z end) :: nodes,
                warnings)
          else (nodes, ("node " +:+ id_display id +:+ " became unavailable during generation") :: warnings)
      | None => (nodes, ("node " +:+ id_display id +:+ " not found in pool during fetch") :: warnings)
      end
  end.

(** [clash_generation::prepare_nodes] *)
Definition prepare_nodes (r : R) (s : TemplateSpec) (nodes : list (Node * Z)) :
    Result TemplateAppError (list (Node * Z) * option string * list string) :=
  let policies : gset string := list_to_set Assemble.POLICIES ∪ list_to_set (pg_name <$> proxy_groups s) in
  match clash s with
  | None => Ok (Assemble.rename_nodes id_display policies nodes, None, [])
  | Some native =>
      let? names := native_group_names native in
      let taken := policies ∪ {["__PROXY_NODES__"; "__PROXY_PROVIDERS__"]} ∪ list_to_set names in
      let renamed := Assemble.rename_nodes id_display taken nodes in
      let? p := materialize (list_nodes r) native renamed ((display_name ∘ fst) <$> nodes) in
      Ok (renamed, Some p.1, p.2)
  end.

Definition group_type_warning (profile : ProfileKind) (g : IncompatibleGroup) : string :=
  "group '" +:+ ig_group_name g +:+ "': type " +:+ ig_group_type g +:+ " incompatible with profile '"
  +:+ as_kebab profile +:+ "': " +:+ ig_reason g.

(** The group-type check: an error in strict mode and for Mihomo, warnings
    otherwise. *)
Definition check_group_types (profile : ProfileKind) (mode : GenerationMode) (groups : list ProxyGroup) :
    Result TemplateAppError (list string) :=
  match incompatible_groups profile groups with
  | [] => Ok []
  | bad =>
      if bool_decide (mode = Strict) || bool_decide (profile = Mihomo)
      then Err (Generation (IncompatibleGroupTypes (length bad)
        (String.concat ", " ((λ g, ig_group_name g +:+ " (" +:+ ig_group_type g +:+ ")") <$> bad)) bad))
      else Ok (group_type_warning profile <$> bad)
  end.

(** The Mihomo replacement of empty groups, with its warnings. *)
Definition finish_groups (profile : ProfileKind) (groups : list AssembledGroup) :
    list AssembledGroup * list string :=
  if bool_decide (profile = Mihomo)
  then (Assemble.reject_empty <$> groups,
        omap (λ g, match ag_members g with
                   | [] => Some ("group '" +:+ ag_name g +:+ "' has no available members; using REJECT")
                   | _ => None end) groups)
  else (groups, []).

(** The container-field check. *)
Definition check_container_fields (profile : ProfileKind) (mode : GenerationMode)
    (groups : list AssembledGroup) (s : TemplateSpec) : Result TemplateAppError (list string) :=
  if bool_decide (profile = Mihomo) then Ok []
  else match dropped_fields groups s with
  | [] => Ok []
  | dropped =>
      let fields := String.concat ", " dropped in
      if bool_decide (mode = Strict)
      then Err (Generation (ContainerFieldsUnsupported (as_kebab profile) fields))
      else Ok ["profile '" +:+ as_kebab profile +:+ "' does not yet emit " +:+ fields
               +:+ "; output is proxy-only"]
  end.

(** [emit] *)
Definition emit (profile : ProfileKind) (t : AssembledTemplate) : Result TemplateAppError string :=
  map_err Emit (match profile with
    | Mihomo => emit_mihomo_full t
    | p => emit_nodes p (at_nodes t)
    end).

Fixpoint object_get (fields : list (string * Json)) (key : string) : option Json :=
  match fields with
  | [] => None
  | (k, v) :: fields => if String.eqb k key then Some v else object_get fields key
  end.

Definition json_get (v : Json) (key : string) : option Json :=
  match v with JObject fields => object_get fields key | _ => None end.

(** The [for field in ["outbounds", "endpoints"]] loop. *)
Fixpoint count_entries (v : Json) (fields : list string) : Result TemplateAppError nat :=
  match fields with
  | [] => Ok 0
  | f :: fields =>
      let? here := match json_get v f with
        | None => Ok 0
        | Some (JArray l) => Ok (length l)
        | Some _ => Err (InvalidStructure ("'" +:+ f +:+ "' is not an array"))
        end in
      let? rest := count_entries v fields in
      Ok (here + rest)
  end.

(** [validate_output] *)
Definition validate_output (content : string) (profile : ProfileKind) : Result TemplateAppError () :=
  if Text.is_empty (Text.trim content) then Err EmptyOutput
  else match profile with
  | Mihomo =>
      let? st := map_err (λ _, EmptyOutput) (inspect_generated_sequence content) in
      match st with
      | SeqMissing => Err (InvalidStructure "missing 'proxies' key")
      | SeqNotSequence => Err (InvalidStructure "'proxies' is not an array")
      | SeqEmpty => Err (InvalidStructure "'proxies' array is empty")
      | SeqNonEmpty => Ok ()
      end
  | SingBox =>
      let? v := ok_or (json_from_str content) EmptyOutput in
      let? n := count_entries v ["outbounds"; "endpoints"] in
      if Nat.eqb n 0 then Err (InvalidStructure "sing-box has no outbounds or endpoints") else Ok ()
  | Xray | V2Ray | JsonProfile =>
      let? v := ok_or (json_from_str content) EmptyOutput in
      match v with
      | JArray _ | JObject _ => Ok ()
      | _ => Err (InvalidStructure "expected top-level array or object")
      end
  | Shadowrocket | UriList => Ok ()
  end.

(** The document handed to the emitter and the pipeline's warnings. *)
Record Assembled := mkAssembled {
  as_template : AssembledTemplate;
  as_report : CompatibilityReport;
  as_warnings : list string
}.

(** [run_pipeline] up to emission. *)
Definition assemble (version : TemplateVersion) (r : R) (profile : ProfileKind) (mode : GenerationMode)
    (selection : option NodeSelector) : Result TemplateAppError Assembled :=
  let? doc0 := parse_document (tv_spec_yaml version) in
  let doc := with_selector doc0 selection in
  let? resolution := resolve doc r in
  let all_ids := sorted_ids (ts_selected_node_ids resolution) in
  let? compat := check_compatibility all_ids profile r in
  let '(report, entries) := compat in
  if bool_decide (mode = Strict) && negb (match rp_excluded report with [] => true | _ => false end)
  then Err (Generation (IncompatibleNodes report))
  else
    let? w0 := normalization_warnings (clash (spec doc)) in
    let '(nodes, w1) := collect_nodes entries (rp_included_node_ids report) in
    let? prepared := prepare_nodes r (spec doc) (Assemble.sort_and_dedup nodes) in
    let '(nodes, native, w2) := prepared in
    match nodes with
    | [] => Err NoCompatibleNodes
    | _ =>
        let name_by_id : gmap NodeId string :=
          list_to_map (reverse ((λ x : Node * Z, (n_id x.1, display_name x.1)) <$> nodes)) in
        let? w3 := check_group_types profile mode (proxy_groups (spec doc)) in
        let '(groups, w4) := finish_groups profile
          (Assemble.assemble_groups (proxy_groups (spec doc)) (ts_groups resolution) name_by_id) in
        let? w5 := check_container_fields profile mode groups (spec doc) in
        Ok (mkAssembled
          (mkAssembledTemplate native (nodes.*1) groups (rule_value <$> rules (spec doc))
            (dns (spec doc)) (tun (spec doc)) (output (spec doc)))
          report (w0 ++ missing_warnings resolution ++ w1 ++ w2 ++ w3 ++ w4 ++ w5))
    end.

(** [run_pipeline] *)
Definition run_pipeline (version : TemplateVersion) (r : R) (profile : ProfileKind)
    (mode : GenerationMode) (selection : option NodeSelector) : Result TemplateAppError GenerationResult :=
  let? a := assemble version r profile mode selection in
  let? content := emit profile (as_template a) in
  let? _ := validate_output content profile in
  Ok (mkGenerationResult content (as_kebab profile) (rp_included_node_ids (as_report a))
    (rp_excluded (as_report a)) (as_warnings a)).

(** *** Entry points *)

Definition new_entry (new_id : GenerationCacheId) (ctx : GenerationContext) (rq : GenerationRequest)
    (content : string) : GenerationCacheEntry :=
  mkCacheEntry new_id (rq_template_id rq) (tv_version (cx_version ctx)) (rq_profile rq)
    (mode_as_str (rq_mode rq)) (cx_selection_mode ctx) (cx_selection_payload ctx)
    (Revision.value (cx_pool_revision ctx)) (cx_cache_key ctx) content false.

Abbreviation Out := (CacheRepo.Db * Result TemplateAppError GenerationResult)%type.

(** Publish a cache hit: activate it unless it already is. *)
Definition publish_hit (db : CacheRepo.Db) (cached : GenerationCacheEntry) (warnings : list string) : Out :=
  if ce_is_active cached then (db, Ok (cached_result cached warnings))
  else match CacheRepo.activate db (ce_template_id cached) (ce_profile cached) (ce_id cached) with
  | (db', Ok _) => (db', Ok (cached_result cached warnings))
  | (db', Err e) => (db', Err (GenTypes.Template e))
  end.

(** [generate]; [new_id] is the identifier [GenerationCacheId::new] draws. *)
Definition generate (ts : TemplateStore) (r : R) (db : CacheRepo.Db) (new_id : GenerationCacheId)
    (rq : GenerationRequest) : Out :=
  match resolve_context ts db rq with
  | Err e => (db, Err e)
  | Ok ctx =>
      match CacheRepo.find_by_key db (cx_cache_key ctx) with
      | Err e => (db, Err (GenTypes.Template e))
      | Ok (Some cached) => publish_hit db cached (cx_normalization_warnings ctx)
      | Ok None =>
          match run_pipeline (cx_version ctx) r (cx_profile ctx) (rq_mode rq) (rq_node_selection rq) with
          | Err e => (db, Err e)
          | Ok result =>
              let entry := new_entry new_id ctx rq (gr_content result) in
              match CacheRepo.store db entry with
              | (db', Err store_err) =>
                  match CacheRepo.find_by_key db' (ce_cache_key entry) with
                  | Err e => (db', Err (GenTypes.Template e))
                  | Ok (Some cached) => publish_hit db' cached (cx_normalization_warnings ctx)
                  | Ok None => (db', Err (GenTypes.Template store_err))
                  end
              | (db', Ok _) =>
                  match CacheRepo.activate db' (ce_template_id entry) (ce_profile entry) (ce_id entry) with
                  | (db'', Ok _) => (db'', Ok result)
                  | (db'', Err e) => (db'', Err (GenTypes.Template e))
                  end
              end
          end
      end
  end.

(** The notices of a last-good version, or the fixed notice when they cannot
    be reconstructed. *)
Definition last_good_notices (ts : TemplateStore) (e : GenerationCacheEntry) : list string :=
  default ["template normalization warnings unavailable from cache"]
    (match find_by_version_number ts (ce_template_id e) (ce_template_version e) with
     | Ok (Some version) =>
         match (let? doc := parse_document (tv_spec_yaml version) in
                normalization_warnings (clash (spec doc))) with
         | Ok w => Some w | Err _ => None end
     | _ => None
     end).

(** [generate_for_delivery] *)
Definition generate_for_delivery (ts : TemplateStore) (r : R) (db : CacheRepo.Db)
    (new_id : GenerationCacheId) (rq : GenerationRequest) : Out :=
  match resolve_context ts db rq with
  | Err e => (db, Err e)
  | Ok ctx =>
      match CacheRepo.find_by_key db (cx_cache_key ctx) with
      | Err e => (db, Err (GenTypes.Template e))
      | Ok (Some cached) => (db, Ok (cached_result cached (cx_normalization_warnings ctx)))
      | Ok None =>
          match run_pipeline (cx_version ctx) r (cx_profile ctx) (rq_mode rq) (rq_node_selection rq) with
          | Err pipeline_err =>
              match CacheRepo.find_latest db (rq_template_id rq) (rq_profile rq) (cx_selection_mode ctx)
                  (cx_selection_payload ctx) (rq_template_version_pin rq) (mode_as_str (rq_mode rq)) with
              | Ok (Some last_good) =>
                  if CacheKey.has_current_semantics sha256 id_display last_good then
                    let res := cached_result last_good (last_good_notices ts last_good) in
                    (db, Ok (mkGenerationResult (gr_content res) (gr_profile res)
                      (gr_included_node_ids res) (gr_excluded res)
                      (gr_warnings res ++ ["generation failed; served last successful version"])))
                  else (db, Err pipeline_err)
              | _ => (db, Err pipeline_err)
              end
          | Ok result =>
              let entry := new_entry new_id ctx rq (gr_content result) in
              match CacheRepo.store db entry with
              | (db', Err store_err) =>
                  match CacheRepo.find_by_key db' (ce_cache_key entry) with
                  | Err e => (db', Err (GenTypes.Template e))
                  | Ok (Some cached) => (db', Ok (cached_result cached (cx_normalization_warnings ctx)))
                  | Ok None => (db', Err (GenTypes.Template store_err))
                  end
              | (db', Ok _) => (db', Ok result)
              end
          end
      end
  end.

(** [preview] *)
Definition preview (ts : TemplateStore) (r : R) (db : CacheRepo.Db) (rq : GenerationRequest) :
    Result TemplateAppError GenerationResult :=
  let? ctx := resolve_context ts db rq in
  let? hit := map_err GenTypes.Template (CacheRepo.find_by_key db (cx_cache_key ctx)) in
  match hit with
  | Some cached => Ok (cached_result cached (cx_normalization_warnings ctx))
  | None => run_pipeline (cx_version ctx) r (cx_profile ctx) (rq_mode rq) (rq_node_selection rq)
  end.

(** [get_active_generation] *)
Definition get_active_generation (db : CacheRepo.Db) (t : TemplateId) (p : string) :
    Result TemplateAppError (option GenerationCacheEntry) :=
  let? e := map_err GenTypes.Template (CacheRepo.find_active db t p) in
  Ok (match e with
      | Some e => if CacheKey.has_current_semantics sha256 id_display e then Some e else None
      | None => None
      end).

(** ** What the pipeline guarantees *)

Lemma assemble_Ok version r profile mode selection a :
  assemble version r profile mode selection = Ok a →
  ∃ doc0 resolution report entries nodes w1 native w2 w3 groups w4 w5,
    let doc := with_selector doc0 selection in
    parse_document (tv_spec_yaml version) = Ok doc0 ∧
    resolve doc r = Ok resolution ∧
    check_compatibility (sorted_ids (ts_selected_node_ids resolution)) profile r = Ok (report, entries) ∧
    (mode = Strict → rp_excluded report = []) ∧
    collect_nodes entries (rp_included_node_ids report) = (nodes, w1) ∧
    (∃ renamed, prepare_nodes r (spec doc) (Assemble.sort_and_dedup nodes) = Ok (renamed, native, w2) ∧
      renamed ≠ [] ∧
      check_group_types profile mode (proxy_groups (spec doc)) = Ok w3 ∧
      finish_groups profile (Assemble.assemble_groups (proxy_groups (spec doc)) (ts_groups resolution)
        (list_to_map (reverse ((λ x : Node * Z, (n_id x.1, display_name x.1)) <$> renamed)))) = (groups, w4) ∧
      check_container_fields profile mode groups (spec doc) = Ok w5 ∧
      at_nodes (as_template a) = renamed.*1 ∧ at_groups (as_template a) = groups ∧ as_report a = report).
Proof.
  unfold assemble. intros H0. apply result_bind_Ok in H0 as (doc0 & Hd & H0).
  apply result_bind_Ok in H0 as (resolution & Hr & H0).
  apply result_bind_Ok in H0 as ([report entries] & Hc & H0).
  destruct (bool_decide (mode = Strict) && _) eqn:Hst; [done|].
  apply result_bind_Ok in H0 as (w0 & _ & H0).
  destruct (collect_nodes entries _) as [nodes w1] eqn:Hcol.
  apply result_bind_Ok in H0 as ([[renamed native] w2] & Hp & H0).
  destruct renamed as [|n renamed]; [done|].
  apply result_bind_Ok in H0 as (w3 & Hg & H0).
  destruct (finish_groups _ _) as [groups w4] eqn:Hf.
  apply result_bind_Ok in H0 as (w5 & Hk & H0). injection H0 as <-.
  exists doc0, resolution, report, entries, nodes, w1, native, w2, w3, groups, w4, w5.
  split_and!; [done..| |done|].
  - intros ->. rewrite bool_decide_eq_true_2 in Hst by done. simpl in Hst.
    destruct (rp_excluded report); done.
  - exists (n :: renamed). by split_and!.
Qed.

(** The names a node of the output may not have: the policies and the groups
    of the template; in a native document also its tokens and groups. *)
Definition reserved_name (s : TemplateSpec) (name : string) : Prop :=
  name ∈ Assemble.POLICIES ∨ name ∈ pg_name <$> proxy_groups s ∨
  ∃ native groups, clash s = Some native ∧ native_group_names native = Ok groups ∧
    (name ∈ ["__PROXY_NODES__"; "__PROXY_PROVIDERS__"] ∨ name ∈ groups).

Lemma prepare_nodes_names r s nodes renamed native w :
  prepare_nodes r s nodes = Ok (renamed, native, w) →
  NoDup ((display_name ∘ fst) <$> renamed) ∧
  (∀ n, n ∈ (display_name ∘ fst) <$> renamed → ¬ reserved_name s n) ∧
  Forall2 (λ x y, y = (Assemble.with_name x.1 (display_name y.1), x.2)) nodes renamed.
Proof.
  assert (∀ extra, let renamed := Assemble.rename_nodes id_display
      (list_to_set Assemble.POLICIES ∪ list_to_set (pg_name <$> proxy_groups s) ∪ extra) nodes in
    NoDup ((display_name ∘ fst) <$> renamed) ∧
    (∀ n, n ∈ (display_name ∘ fst) <$> renamed → (n ∉ Assemble.POLICIES) ∧ (n ∉ pg_name <$> proxy_groups s) ∧ n ∉ extra) ∧
    Forall2 (λ x y, y = (Assemble.with_name x.1 (display_name y.1), x.2)) nodes renamed) as Hren.
  { intros extra. destruct (Assemble.rename_nodes_spec id_display
      (list_to_set Assemble.POLICIES ∪ list_to_set (pg_name <$> proxy_groups s) ∪ extra) nodes)
      as (H1 & H2 & _). split_and!; [done| |apply Assemble.rename_nodes_only_names].
    intros n Hn. specialize (H2 n Hn). rewrite !not_elem_of_union, !elem_of_list_to_set in H2. tauto. }
  unfold prepare_nodes, reserved_name. destruct (clash s) as [nat|].
  - destruct (native_group_names nat) as [names|] eqn:Hnames; simpl; [|done].
    destruct (materialize _ _ _ _) as [[c ws]|]; simpl; [|done]. intros [= <- <- <-].
    specialize (Hren ({["__PROXY_NODES__"; "__PROXY_PROVIDERS__"]} ∪ list_to_set names)).
    cbn zeta in Hren. rewrite (assoc_L (∪)) in Hren. destruct Hren as (H1 & H2 & H3). split_and!; [done| |done].
    intros n Hn. destruct (H2 n Hn) as (Hp & Hg & He). intros [?|[?|(nat' & groups & [= <-] & Hok & Hin)]]; [done|done|].
    rewrite Hnames in Hok. apply Ok_inj in Hok as <-. set_solver.
  - intros [= <- <- <-]. destruct (Hren ∅) as (H1 & H2 & H3). rewrite (right_id_L ∅ (∪)) in H1, H2, H3. split_and!; [done| |done].
    intros n Hn. destruct (H2 n Hn) as (Hp & Hg & _). by intros [?|[?|(? & ? & ? & _)]].
Qed.

Lemma collect_nodes_spec entries ids nodes w x :
  collect_nodes entries ids = (nodes, w) → x ∈ nodes →
  ∃ id e, id ∈ ids ∧ entries !! id = Some e ∧ x.1 = node e ∧
    is_active e = true ∧ missing_from_source e = false.
Proof.
  revert nodes w. induction ids as [|id ids IH]; intros nodes w; simpl.
  { intros [= <- <-] Hx. by apply elem_of_nil in Hx. }
  destruct (collect_nodes entries ids) as [ns ws].
  assert (x ∈ ns → ∃ id' e, id' ∈ id :: ids ∧ entries !! id' = Some e ∧ x.1 = node e ∧
    is_active e = true ∧ missing_from_source e = false) as Hrest.
  { intros Hx. destruct (IH ns ws eq_refl Hx) as (i & e & Hi & ?). exists i, e.
    split; [by right|done]. }
  destruct (entries !! id) as [e|] eqn:He; [destruct (is_active e && negb _) eqn:Ha|];
    intros [= <- <-]; [|exact Hrest|exact Hrest].
  intros [->|Hx]%elem_of_cons; [|by apply Hrest]. bool_solve.
  exists id, e. split_and!; try done. left.
Qed.

Lemma name_by_id_elem (nodes : list (Node * Z)) id m :
  (list_to_map (reverse ((λ x : Node * Z, (n_id x.1, display_name x.1)) <$> nodes)) : gmap NodeId string)
    !! id = Some m → ∃ x, x ∈ nodes ∧ n_id x.1 = id ∧ display_name x.1 = m.
Proof.
  intros Hm%elem_of_list_to_map_2. rewrite elem_of_reverse in Hm.
  apply list_elem_of_fmap in Hm as (x & [= -> ->] & Hx). eauto.
Qed.

Lemma finish_groups_elem profile groups g gs w :
  finish_groups profile groups = (gs, w) → g ∈ gs →
  (g ∈ groups ∧ (profile = Mihomo → ag_members g ≠ [])) ∨
  (profile = Mihomo ∧ ∃ g0, g0 ∈ groups ∧ g = mkAssembledGroup (ag_name g0) Select ["REJECT"]).
Proof.
  unfold finish_groups. case_bool_decide as Hp; intros [= <- <-] Hg; [|by left].
  apply list_elem_of_fmap in Hg as (g0 & -> & Hg0). unfold Assemble.reject_empty.
  destruct (ag_members g0) eqn:Hm; [right; eauto|]. left. split; [done|]. by rewrite Hm.
Qed.

Lemma finish_groups_names profile groups gs w : finish_groups profile groups = (gs, w) → ag_name <$> gs = ag_name <$> groups.
Proof.
  unfold finish_groups. case_bool_decide; intros [= <- _]; [|done]. rewrite <-list_fmap_compose. apply list_fmap_ext.
  intros i g _. unfold Assemble.reject_empty. cbn. by destruct (ag_members g).
Qed.

(** *** The cache and the entry points *)

Context `{!PoolContract R}.

(** An entry of the pool that was selected for a document and that its
    profile accepts. *)
Definition eligible (r : R) (profile : ProfileKind) (resolution : TemplateResolution) (e : NodePoolEntry) : Prop :=
  e ∈ pool_entries r ∧ entry_id e ∈ sorted_ids (ts_selected_node_ids resolution) ∧
  is_active e = true ∧ missing_from_source e = false ∧ check_node (node e) (capability_for profile) = Ok ().

Lemma collected_eligible r profile resolution report entries nodes w x :
  check_compatibility (sorted_ids (ts_selected_node_ids resolution)) profile r = Ok (report, entries) →
  collect_nodes entries (rp_included_node_ids report) = (nodes, w) → x ∈ nodes →
  ∃ e, x.1 = node e ∧ eligible r profile resolution e.
Proof.
  intros Hc Hcol Hx. destruct (collect_nodes_spec _ _ _ _ _ Hcol Hx) as (id & e & Hid & He & Hxe & Ha & Hm).
  exists e. split; [done|]. unfold check_compatibility in Hc. apply result_bind_Ok in Hc as (l & Hl & Hc).
  pose proof (λ i, partition_included (capability_for profile)
    (list_to_map (reverse ((λ e, (entry_id e, e)) <$> l))) (sorted_ids (ts_selected_node_ids resolution)) i) as Hi.
  destruct (partition_nodes _ _ _) as [inc exc]. injection Hc as <- <-.
  destruct (proj1 (Hi id) Hid) as (Hin & e' & He' & Hck). rewrite He in He'. injection He' as <-.
  apply elem_of_list_to_map_2 in He. rewrite elem_of_reverse in He. apply list_elem_of_fmap in He as (e' & [= -> ->] & He).
  destruct (get_nodes r _) as [l'|] eqn:Hg; [|done]. apply Ok_inj in Hl as ->.
  apply (get_nodes_exact _ _ _ Hg) in He as [He _]. by split_and!.
Qed.

(** C20: emitted documents are closed.  The nodes handed to an emitter have
    pairwise distinct names, none of which is a policy, a group of the template
    or, in a native document, one of its tokens and groups.  Each of them is,
    up to its name, an active entry of the pool that the template's selection
    resolved to and that the profile accepts.  The groups are those of the
    template, in order and under their names; a group has its type and no member
    twice, each member the name of an emitted node or a group that the template
    lists for it; but a Mihomo group that lost all its members is a selection of
    REJECT, so no Mihomo group is empty. *)
Theorem assembled_closed version r profile mode selection a :
  assemble version r profile mode selection = Ok a →
  ∃ doc0 resolution,
    parse_document (tv_spec_yaml version) = Ok doc0 ∧ resolve (with_selector doc0 selection) r = Ok resolution ∧
    at_nodes (as_template a) ≠ [] ∧
    NoDup (display_name <$> at_nodes (as_template a)) ∧
    (∀ n, n ∈ display_name <$> at_nodes (as_template a) → ¬ reserved_name (spec (with_selector doc0 selection)) n) ∧
    (∀ n, n ∈ at_nodes (as_template a) →
       ∃ e, eligible r profile resolution e ∧ n = Assemble.with_name (node e) (display_name n)) ∧
    ag_name <$> at_groups (as_template a) = pg_name <$> proxy_groups (spec (with_selector doc0 selection)) ∧
    (∀ g, g ∈ at_groups (as_template a) →
      (profile = Mihomo ∧ ag_type g = Select ∧ ag_members g = ["REJECT"]) ∨
      ∃ pg, pg ∈ proxy_groups (spec (with_selector doc0 selection)) ∧ ag_name g = pg_name pg ∧ ag_type g = pg_type pg ∧
        NoDup (ag_members g) ∧ (profile = Mihomo → ag_members g ≠ []) ∧
        ∀ m, m ∈ ag_members g → m ∈ display_name <$> at_nodes (as_template a) ∨ MGroup m ∈ pg_members pg).
Proof.
  intros Ha. destruct (assemble_Ok _ _ _ _ _ _ Ha)
    as (doc0 & res & report & entries & nodes & w1 & native & w2 & w3 & groups & w4 & w5 & Hd & Hr & Hc & _ &
        Hcol & renamed & Hp & Hne & _ & Hf & _ & -> & -> & Hrep).
  destruct (prepare_nodes_names _ _ _ _ _ _ Hp) as (Hnd & Htk & Hall).
  assert (display_name <$> renamed.*1 = (display_name ∘ fst) <$> renamed) as Hcomp
    by (by rewrite <-list_fmap_compose).
  exists doc0, res. rewrite Hcomp. split_and!; [done|done|by destruct renamed|done|done|..].
  - intros n Hn. apply list_elem_of_fmap in Hn as (y & -> & Hy).
    apply list_elem_of_lookup in Hy as [i Hi]. destruct (Forall2_lookup_r _ _ _ _ _ Hall Hi) as (x & Hx & Hxy).
    apply list_elem_of_lookup_2, Assemble.retain_first_spec in Hx as [Hx _]. rewrite elem_of_sort_by in Hx.
    destruct (collected_eligible _ _ _ _ _ _ _ _ Hc Hcol Hx) as (e & He & Hel). exists e. split; [done|].
    rewrite <-He. by rewrite Hxy at 1.
  - rewrite (finish_groups_names _ _ _ _ Hf). unfold Assemble.assemble_groups. by rewrite <-list_fmap_compose.
  - intros g Hg. destruct (finish_groups_elem _ _ _ _ _ Hf Hg) as [[Hg' Hmi]|[Hmi (g0 & _ & ->)]]; [right|by left].
    destruct (Assemble.assemble_groups_spec _ _ _ _ Hg') as (pg & Hpg & Hn & Ht & Hnd' & Hmem). exists pg. split_and!; [done..|].
    intros m Hm. destruct (Hmem m Hm) as [[id Hid]|Hgr]; [left|by right].
    apply name_by_id_elem in Hid as (x & Hx & _ & <-). apply list_elem_of_fmap. by exists x.
Qed.

(** strict mode loses nothing silently: if the pipeline succeeds in strict
    mode, no selected node was excluded, no group type is incompatible with
    the profile, and no authored container field is dropped. *)
Theorem strict_lossless version r profile selection res :
  run_pipeline version r profile Strict selection = Ok res →
  gr_excluded res = [] ∧
  ∃ doc0 groups, parse_document (tv_spec_yaml version) = Ok doc0 ∧
    incompatible_groups profile (proxy_groups (spec (with_selector doc0 selection))) = [] ∧
    (profile ≠ Mihomo → dropped_fields groups (spec (with_selector doc0 selection)) = []) ∧
    ∃ a, assemble version r profile Strict selection = Ok a ∧ at_groups (as_template a) = groups.
Proof.
  unfold run_pipeline. intros H0. apply result_bind_Ok in H0 as (a & Ha & H0).
  apply result_bind_Ok in H0 as (content & _ & H0). apply result_bind_Ok in H0 as (u & _ & H0).
  injection H0 as <-. simpl.
  destruct (assemble_Ok _ _ _ _ _ _ Ha)
    as (doc0 & rs & report & entries & nodes & w1 & native & w2 & w3 & groups & w4 & w5 & Hd & _ & _ & Hst &
        _ & renamed & _ & _ & Hg & _ & Hk & _ & Hgs & Hrep).
  rewrite Hrep. split; [by apply Hst|]. exists doc0, groups. split_and!; [done|..].
  - unfold check_group_types in Hg. destruct (incompatible_groups _ _); [done|].
    by rewrite bool_decide_eq_true_2 in Hg.
  - intros Hp. unfold check_container_fields in Hk. rewrite bool_decide_eq_false_2 in Hk by done.
    destruct (dropped_fields _ _); [done|]. by rewrite bool_decide_eq_true_2 in Hk.
  - eauto.
Qed.

Lemma publish_hit_Err db cached w db' e : publish_hit db cached w = (db', Err e) → db' = db.
Proof.
  unfold publish_hit. destruct (ce_is_active cached); [done|].
  destruct (CacheRepo.activate _ _ _ _) as [db1 [[]|err]] eqn:Ha; [done|].
  intros [= <- _]. by eapply CacheRepo.activate_Err.
Qed.

(** A published hit is the active entry of its template and profile. *)
Lemma publish_hit_Ok db k cached w db' res :
  CacheRepo.cache_ok db → CacheRepo.find_by_key db k = Ok (Some cached) →
  publish_hit db cached w = (db', Ok res) →
  ∃ row, CacheRepo.find_active db' (ce_template_id cached) (ce_profile cached) =
      CacheRepo.transpose_row (Some row) ∧ CacheRepo.r_content row = gr_content res.
Proof.
  intros Hok Hk. destruct (CacheRepo.find_by_key_row _ _ _ Hk) as (i & r & Hi & He & Hab & _).
  destruct (CacheRepo.into_domain_fields _ _ He) as (Ht & Hp & Hid & Hct & Hact).
  unfold publish_hit. destruct (ce_is_active cached) eqn:Hc.
  - intros [= <- <-]. exists r. split; [|by symmetry].
    eapply CacheRepo.find_active_row; [done|exact Hi| |by rewrite <-Hact|done].
    by apply CacheRepo.for_profile_true.
  - destruct (CacheRepo.activate _ _ _ _) as [db1 [[]|err]] eqn:Ha; [|done].
    intros [= <- <-]. destruct (CacheRepo.activate_find _ _ _ _ _ Hok Ha) as (r1 & H1 & Hfa).
    exists (CacheRepo.set_active true r1). split; [exact Hfa|]. simpl.
    pose proof (CacheRepo.ok_id _ Hok i r Hi) as Hri. simpl in Hri.
    rewrite Hid, Hri, Hi in H1. injection H1 as <-. by symmetry.
Qed.

(** previews are faithful: whenever preview succeeds and generate succeeds
    on the same state, generate returns exactly the previewed result. *)
Theorem preview_consistent ts r db new_id rq res db' res' :
  preview ts r db rq = Ok res → generate ts r db new_id rq = (db', Ok res') → res' = res.
Proof.
  unfold preview, generate. intros Hp Hg.
  destruct (resolve_context ts db rq) as [ctx|]; simpl in *; [|done].
  destruct (CacheRepo.find_by_key db (cx_cache_key ctx)) as [[cached|]|] eqn:Hk; simpl in *; [| |done].
  - injection Hp as <-. unfold publish_hit in Hg.
    destruct (ce_is_active cached); [by injection Hg as _ <-|].
    destruct (CacheRepo.activate _ _ _ _) as [db1 [[]|err]]; [by injection Hg as _ <-|done].
  - rewrite Hp in Hg. destruct (CacheRepo.store _ _) as [db1 [[]|err]] eqn:Hs.
    + destruct (CacheRepo.activate _ _ _ _) as [db2 [[]|err]]; [by injection Hg as _ <-|done].
    + apply CacheRepo.store_Err in Hs as ->. by rewrite Hk in Hg.
Qed.

(** C15: a failed generation never changes what is served: if generate returns
    an error, for whatever reason and at whatever stage, every template and
    profile still has its previous active entry. *)
Theorem generate_error_keeps_active ts r db new_id rq db' e t p :
  CacheRepo.cache_ok db → generate ts r db new_id rq = (db', Err e) →
  CacheRepo.find_active db' t p = CacheRepo.find_active db t p.
Proof.
  intros Hok. unfold generate.
  destruct (resolve_context ts db rq) as [ctx|]; [|by intros [= <- _]].
  destruct (CacheRepo.find_by_key db (cx_cache_key ctx)) as [[cached|]|]; [| |by intros [= <- _]].
  { intros Hg. by apply publish_hit_Err in Hg as ->. }
  destruct (run_pipeline _ _ _ _ _) as [result|]; [|by intros [= <- _]].
  set (entry := new_entry new_id ctx rq (gr_content result)).
  pose proof (CacheRepo.store_keeps_active db entry t p Hok eq_refl) as Hst.
  destruct (CacheRepo.store db entry) as [db1 [[]|err]] eqn:Hs; cbn [fst] in Hst.
  - destruct (CacheRepo.activate _ _ _ _) as [db2 [[]|err]] eqn:Ha; [done|].
    intros [= <- _]. by rewrite (CacheRepo.activate_Err _ _ _ _ _ _ Ha).
  - apply CacheRepo.store_Err in Hs as ->.
    destruct (CacheRepo.find_by_key _ _) as [[cached|]|]; [|by intros [= <- _]..].
    intros Hg. by apply publish_hit_Err in Hg as ->.
Qed.

(** a successful generation publishes exactly what it returns: the active
    entry of the entry's template and profile afterwards is the returned
    content; on a cache miss that is the requested template and profile. *)
Theorem generate_publishes ts r db new_id rq db' res :
  CacheRepo.cache_ok db → generate ts r db new_id rq = (db', Ok res) →
  ∃ t p row, CacheRepo.find_active db' t p = CacheRepo.transpose_row (Some row) ∧
    CacheRepo.r_content row = gr_content res ∧
    ((t = rq_template_id rq ∧ p = rq_profile rq) ∨
     ∃ ctx cached, resolve_context ts db rq = Ok ctx ∧
       CacheRepo.find_by_key db (cx_cache_key ctx) = Ok (Some cached) ∧
       t = ce_template_id cached ∧ p = ce_profile cached).
Proof.
  intros Hok. unfold generate.
  destruct (resolve_context ts db rq) as [ctx|] eqn:Hctx; [|done].
  destruct (CacheRepo.find_by_key db (cx_cache_key ctx)) as [[cached|]|] eqn:Hk; [| |done].
  { intros Hg. destruct (publish_hit_Ok _ _ _ _ _ _ Hok Hk Hg) as (row & Hf & Hct).
    eexists _, _, row. split_and!; [exact Hf|done|]. right. eauto 10. }
  destruct (run_pipeline _ _ _ _ _) as [result|]; [|done].
  set (entry := new_entry new_id ctx rq (gr_content result)).
  destruct (CacheRepo.store db entry) as [db1 [[]|err]] eqn:Hs.
  - destruct (CacheRepo.activate _ _ _ _) as [db2 [[]|err]] eqn:Ha; [|done]. intros [= <- <-].
    assert (CacheRepo.cache_ok db1) as Hok1.
    { pose proof (CacheRepo.store_ok db entry Hok) as H1. by rewrite Hs in H1. }
    destruct (CacheRepo.activate_find _ _ _ _ _ Hok1 Ha) as (r1 & H1 & Hfa).
    eexists _, _, (CacheRepo.set_active true r1). split_and!; [exact Hfa| |by left].
    simpl. destruct (CacheRepo.store_Ok _ _ _ Hs) as (_ & _ & ->).
    eapply lookup_weaken in H1; [|apply CacheRepo.delete_rows_subseteq].
    cbn [CacheRepo.rows CacheRepo.set_rows] in H1. change (ce_id entry) with (CacheRepo.r_id (CacheRepo.from_domain entry)) in H1.
    rewrite lookup_insert_eq in H1. by injection H1 as <-.
  - apply CacheRepo.store_Err in Hs as ->.
    change (ce_cache_key entry) with (cx_cache_key ctx). by rewrite Hk.
Qed.

(** Delivery never publishes: serving a subscription, whether it hits the
    cache, generates, falls back or fails, leaves every active entry as it
    was. *)
Lemma delivery_keeps_active ts r db new_id rq t p :
  CacheRepo.cache_ok db →
  CacheRepo.find_active (generate_for_delivery ts r db new_id rq).1 t p = CacheRepo.find_active db t p.
Proof.
  intros Hok. unfold generate_for_delivery.
  destruct (resolve_context ts db rq) as [ctx|]; [|done].
  destruct (CacheRepo.find_by_key db (cx_cache_key ctx)) as [[cached|]|]; [done| |done].
  destruct (run_pipeline _ _ _ _ _) as [result|].
  - set (entry := new_entry new_id ctx rq (gr_content result)).
    pose proof (CacheRepo.store_keeps_active db entry t p Hok eq_refl) as Hst.
    destruct (CacheRepo.store db entry) as [db1 [[]|err]] eqn:Hs; cbn [fst] in Hst; [done|].
    by destruct (CacheRepo.find_by_key _ _) as [[cached|]|].
  - destruct (CacheRepo.find_latest _ _ _ _ _ _ _) as [[lg|]|]; [|done|done].
    by destruct (CacheKey.has_current_semantics _ _ _).
Qed.

(** last-good fallback: when the pipeline fails on a cache miss and
    delivery still succeeds, it serves, without changing the store, an entry
    of the same template, profile, selection and mode that is keyed under the
    current semantics and not older than the withdrawal floor. *)
Theorem delivery_fallback ts r db new_id rq ctx err db' res :
  resolve_context ts db rq = Ok ctx →
  CacheRepo.find_by_key db (cx_cache_key ctx) = Ok None →
  run_pipeline (cx_version ctx) r (cx_profile ctx) (rq_mode rq) (rq_node_selection rq) = Err err →
  generate_for_delivery ts r db new_id rq = (db', Ok res) →
  db' = db ∧ ∃ lg,
    CacheRepo.find_latest db (rq_template_id rq) (rq_profile rq) (cx_selection_mode ctx)
      (cx_selection_payload ctx) (rq_template_version_pin rq) (mode_as_str (rq_mode rq)) = Ok (Some lg) ∧
    CacheKey.has_current_semantics sha256 id_display lg = true ∧
    gr_content res = ce_content lg ∧
    (CacheRepo.withdrawal_revision db ≤ Z.of_N (ce_pool_revision lg))%Z ∧
    last (gr_warnings res) = Some "generation failed; served last successful version".
Proof.
  intros Hctx Hk Hrun. unfold generate_for_delivery. rewrite Hctx, Hk, Hrun.
  destruct (CacheRepo.find_latest _ _ _ _ _ _ _) as [[lg|]|] eqn:Hl; [|done|done].
  destruct (CacheKey.has_current_semantics _ _ _) eqn:Hs; [|done]. intros [= <- <-].
  split; [done|]. exists lg. split_and!; [done..| |].
  - by eapply CacheRepo.find_latest_floor.
  - simpl. by rewrite last_snoc.
Qed.

End pipeline.

(** *** Witnesses: one stored Trojan node, one template with one group, and an
    emitter that yields a fixed document. *)

Import SqlitePool.

Definition demo_doc : TemplateDocument :=
  mkTemplateDocument API_VERSION KIND (mkTemplateMetadata "demo" "" 1)
    (mkTemplateSpec None [] JNull (mkNodeSelector Dynamic [] [] 0)
      [mkProxyGroup "G" Select [MNode 3; MGroup "G2"] None None; mkProxyGroup "G2" UrlTest [] None None]
      [] JNull JNull JNull).

#[local] Instance demo_externals : Externals := {
  yaml_parse _ := Ok (Yaml.VMapping [(Yaml.VString "spec", Yaml.VNull)]);
  from_value _ := Ok demo_doc;
  clash_parse _ := Err EmptyOutput;
  clash_warnings _ := Ok [];
  native_group_names _ := Ok [];
  materialize _ n _ _ := Ok (n, []);
  selector_json _ := Ok "{}";
  debug_strings l := String.concat ", " l;
  sha256 s := s;
  id_display n := pretty n;
  emit_mihomo_full _ := Ok "proxies: [t]";
  emit_nodes _ _ := Ok "t";
  inspect_generated_sequence _ := Ok SeqNonEmpty;
  json_from_str _ := Some (JArray [])
}.

Definition demo_version : TemplateVersion :=
  mkTemplateVersion 20 1 1 (spec demo_doc) "spec" true 0.
Definition demo_store : TemplateStore :=
  mkTemplateStore (λ _, Ok (Some (mkTemplate 1 "demo" "" (Some 20%N) 1 0 0)))
    (λ _ _, Ok (Some demo_version)) (λ _, Ok (Some demo_version)).
Definition demo_request : GenerationRequest := request_new 1 "mihomo" Strict.

(** The pool emptied by the source: the pipeline fails. *)
Definition demo_gone : SqlitePool.Table := SqlitePool.mkTable ∅.

Lemma assembled_closed_witness :
  ∃ a, assemble demo_version Compat.demo_pool Mihomo Strict None = Ok a ∧
    NoDup (display_name <$> at_nodes (as_template a)).
Proof.
  destruct (assemble demo_version Compat.demo_pool Mihomo Strict None) as [a|e] eqn:Ha.
  - exists a. split; [reflexivity|].
    destruct (assembled_closed demo_version Compat.demo_pool Mihomo Strict None a Ha) as (doc0 & res & _ & _ & _ & H & _). exact H.
  - exfalso. vm_compute in Ha. discriminate Ha.
Defined.

Lemma strict_lossless_witness :
  ∃ res, run_pipeline demo_version Compat.demo_pool Mihomo Strict None = Ok res ∧ gr_excluded res = [].
Proof.
  destruct (run_pipeline demo_version Compat.demo_pool Mihomo Strict None) as [res|e] eqn:Ha.
  - exists res. split; [reflexivity|].
    exact (proj1 (strict_lossless demo_version Compat.demo_pool Mihomo None res Ha)).
  - exfalso. vm_compute in Ha. discriminate Ha.
Defined.

Lemma preview_consistent_witness :
  ∃ db' res, generate demo_store Compat.demo_pool CacheRepo.demo_empty 40 demo_request = (db', Ok res) ∧
    preview demo_store Compat.demo_pool CacheRepo.demo_empty demo_request = Ok res.
Proof.
  destruct (generate demo_store Compat.demo_pool CacheRepo.demo_empty 40 demo_request)
    as [db' [res|e]] eqn:Hg; [|exfalso; vm_compute in Hg; discriminate Hg].
  destruct (preview demo_store Compat.demo_pool CacheRepo.demo_empty demo_request) as [res'|e] eqn:Hp;
    [|exfalso; vm_compute in Hp; discriminate Hp].
  exists db', res. split; [reflexivity|].
  rewrite (preview_consistent demo_store Compat.demo_pool CacheRepo.demo_empty 40 demo_request res' db' res Hp Hg).
  reflexivity.
Defined.

Lemma generate_error_keeps_active_witness :
  ∃ db' e, generate demo_store demo_gone CacheRepo.demo_db 40 demo_request = (db', Err e) ∧
    CacheRepo.find_active db' 1 "mihomo" = CacheRepo.find_active CacheRepo.demo_db 1 "mihomo".
Proof.
  destruct (generate demo_store demo_gone CacheRepo.demo_db 40 demo_request)
    as [db' [res|e]] eqn:Hg; [exfalso; vm_compute in Hg; discriminate Hg|].
  exists db', e. split; [reflexivity|].
  exact (generate_error_keeps_active demo_store demo_gone CacheRepo.demo_db 40 demo_request db' e 1 "mihomo"
    CacheRepo.demo_db_ok Hg).
Defined.

Lemma generate_publishes_witness :
  ∃ db' res t p row, generate demo_store Compat.demo_pool CacheRepo.demo_empty 40 demo_request = (db', Ok res) ∧
    CacheRepo.find_active db' t p = CacheRepo.transpose_row (Some row) ∧
    CacheRepo.r_content row = gr_content res.
Proof.
  destruct (generate demo_store Compat.demo_pool CacheRepo.demo_empty 40 demo_request)
    as [db' [res|e]] eqn:Hg; [|exfalso; vm_compute in Hg; discriminate Hg].
  destruct (generate_publishes demo_store Compat.demo_pool CacheRepo.demo_empty 40 demo_request db' res
    CacheRepo.demo_empty_ok Hg) as (t & p & row & H1 & H2 & _).
  exists db', res, t, p, row. split; [reflexivity|]. split; [exact H1|exact H2].
Defined.

(** Delivered once, then the pool revision moves and the pool empties. *)
Definition demo_delivered : CacheRepo.Db :=
  CacheRepo.bump_revision
    (generate_for_delivery demo_store Compat.demo_pool CacheRepo.demo_empty 40 demo_request).1.

Lemma delivery_fallback_witness :
  ∃ lg, gr_content (default (mkGenerationResult "" "" [] [] [])
      (match (generate_for_delivery demo_store demo_gone demo_delivered 41 demo_request).2 with
       | Ok res => Some res | Err _ => None end)) = ce_content lg ∧ ce_content lg = "proxies: [t]".
Proof.
  destruct (resolve_context demo_store demo_delivered demo_request) as [ctx|e] eqn:Hctx;
    [|exfalso; vm_compute in Hctx; discriminate Hctx].
  destruct (generate_for_delivery demo_store demo_gone demo_delivered 41 demo_request)
    as [db' [res|e]] eqn:Hg; [|exfalso; vm_compute in Hg; discriminate Hg].
  destruct (run_pipeline (cx_version ctx) demo_gone (cx_profile ctx) (rq_mode demo_request)
    (rq_node_selection demo_request)) as [r|err] eqn:Hrun;
    [exfalso; vm_compute in Hctx; injection Hctx as <-; vm_compute in Hrun; discriminate Hrun|].
  assert (CacheRepo.find_by_key demo_delivered (cx_cache_key ctx) = Ok None) as Hk.
  { vm_compute in Hctx. injection Hctx as <-. vm_compute. reflexivity. }
  destruct (delivery_fallback demo_store demo_gone demo_delivered 41 demo_request ctx err db' res Hctx Hk Hrun Hg)
    as (_ & lg & _ & _ & Hct & _).
  exists lg. split; [exact Hct|]. rewrite <-Hct. clear -Hg. vm_compute in Hg.
  injection Hg as _ <-. reflexivity.
Defined.

End Generation.
