(* ===== verification/Subscription.v ===== *)
(** * Subscriptions and their credentials
      ([crates/deve-sub-domain/src/subscription/entity.rs],
      [crates/deve-sub-domain/src/identity/user.rs] and the repositories
      [subscription_repository.rs], [subscription_token_repository.rs],
      [short_code_repository.rs], [temp_link_repository.rs], [timestamp.rs],
      [retention.rs] of [crates/deve-sub-storage-sqlite/src])

    The aggregate with its three kinds of delivery credentials, and the tables
    that hold them.  A table is the list of its rows in [rowid] order; a
    transaction is a state transformer that returns the old state on error. *)

From S2P Require Import Prelude Kernel Template.

(** ** Stored timestamps

    [format_ts] truncates to whole seconds and writes the canonical UTC form
    ["YYYY-MM-DDTHH:MM:SSZ"], defined for the years 0 to 9999; on such texts
    the string order of SQLite is the order of time.  A stored timestamp is
    the instant its text denotes, which [parse_ts] returns. *)

Definition ns_per_s : Z := 1000000000.

Definition format_ts (ts : Z) : Result string Z :=
  let s := (ts / ns_per_s)%Z in
  if (Z.leb (-62167219200) s && Z.leb s 253402300799)%bool then Ok (s * ns_per_s)%Z
  else Err "timestamp format error".

(** [opt.map(format_ts).transpose()] *)
Definition format_ts_opt (o : option Z) : Result string (option Z) :=
  match o with
  | None => Ok None
  | Some ts => let? t := format_ts ts in Ok (Some t)
  end.

(** ** Entities *)

(** [Role] is carried by the aggregate but not used by delivery. *)
Inductive Role := Admin | RegularUser.

Record User := mkUser {
  u_id : UserId;
  u_username : string;
  u_password_hash : string;
  u_role : Role;
  u_enabled : bool;
  u_expires_at : option Z;
  u_traffic_quota : N;
  u_two_factor_enabled : bool;
  u_last_login_at : option Z;
  u_created_at : Z
}.

(** [User::is_active_at] *)
Definition is_active_at (u : User) (now : Z) : bool :=
  u_enabled u && match u_expires_at u with None => true | Some e => Z.ltb now e end.

(** [User::is_expired_at] *)
Definition is_expired_at (u : User) (now : Z) : bool :=
  match u_expires_at u with None => false | Some e => Z.leb e now end.

(** [User::is_traffic_exceeded] *)
Definition user_traffic_exceeded (u : User) (consumed : N) : bool :=
  N.ltb 0 (u_traffic_quota u) && N.ltb (u_traffic_quota u) consumed.

Record Subscription := mkSubscription {
  sub_id : SubscriptionId;
  sub_name : string;
  sub_slug : string;
  sub_owner_id : UserId;
  sub_template_id : TemplateId;
  sub_template_version_pin : option N;
  sub_profile : string;
  sub_node_selection : NodeSelector;
  sub_traffic_limit : option N;
  sub_expires_at : option Z;
  sub_token_id : SubscriptionTokenId;
  sub_short_code_id : option N;
  sub_enabled : bool;
  sub_created_at : Z;
  sub_updated_at : Z
}.

(** [Subscription::new]; [id] and [now] are what [SubscriptionId::new] and
    [Timestamp::now] return. *)
Definition subscription_new (id : SubscriptionId) (now : Z) (name slug : string) (owner : UserId)
    (template : TemplateId) (profile : string) (selection : NodeSelector)
    (token : SubscriptionTokenId) : Subscription :=
  mkSubscription id name slug owner template None profile selection None None token None true now now.

(** [Subscription::is_expired] *)
Definition is_expired (s : Subscription) (now : Z) : bool :=
  match sub_expires_at s with None => false | Some e => Z.leb e now end.

(** [Subscription::is_traffic_exceeded] *)
Definition is_traffic_exceeded (s : Subscription) (consumed : N) : bool :=
  match sub_traffic_limit s with
  | None => false
  | Some limit => N.ltb 0 limit && N.ltb limit consumed
  end.

Record SubscriptionToken := mkToken {
  tk_id : SubscriptionTokenId;
  tk_subscription_id : SubscriptionId;
  tk_digest : string;
  tk_previous_digest : option string;
  tk_grace_until : option Z;
  tk_issued_at : Z
}.

(** [SubscriptionToken::is_previous_token_valid_at] *)
Definition is_previous_token_valid_at (t : SubscriptionToken) (now : Z) : bool :=
  match tk_previous_digest t, tk_grace_until t with
  | Some _, None => true
  | Some _, Some until => Z.ltb now until
  | None, _ => false
  end.

Record ShortCode := mkShortCode {
  sc_id : N;
  sc_subscription_id : SubscriptionId;
  sc_code : string;
  sc_created_at : Z
}.

Record TempLink := mkTempLink {
  tl_id : N;
  tl_subscription_id : SubscriptionId;
  tl_digest : string;
  tl_expires_at : Z;
  tl_revoked : bool;
  tl_created_at : Z
}.

(** [TempLink::new] *)
Definition temp_link_new (id : N) (now : Z) (sid : SubscriptionId) (digest : string) (expires : Z) :
    TempLink :=
  mkTempLink id sid digest expires false now.

(** [TempLink::is_valid_at] *)
Definition is_valid_at (l : TempLink) (now : Z) : bool := negb (tl_revoked l) && Z.ltb now (tl_expires_at l).

(** [SubscriptionError]; the variants carry a prefix, the application's error
    type has variants of the same names. *)
Inductive SubscriptionError :=
  | SE_SubscriptionNotFound
  | SE_SlugExists
  | SE_TokenNotFound
  | SE_ShortCodeNotFound
  | SE_ShortCodeExists
  | SE_TempLinkNotFound
  | SE_TempLinkInvalid
  | SE_ConcurrentModification
  | SE_Storage (message : string).

(** ** The tables *)

(** [struct SubscriptionRow]: integers are SQLite's, the node selection is
    JSON text. *)
Record SubscriptionRow := mkSubscriptionRow {
  sr_id : SubscriptionId;
  sr_name : string;
  sr_slug : string;
  sr_owner_id : UserId;
  sr_template_id : TemplateId;
  sr_template_version_pin : option Z;
  sr_profile : string;
  sr_node_selection : string;
  sr_traffic_limit : option Z;
  sr_expires_at : option Z;
  sr_token_id : SubscriptionTokenId;
  sr_short_code_id : option N;
  sr_enabled : bool;
  sr_created_at : Z;
  sr_updated_at : Z
}.

Module SubscriptionRepo.

Record Db := mkDb {
  users : gmap UserId User;
  templates : gset TemplateId;
  subs : list SubscriptionRow;
  tokens : list SubscriptionToken;
  codes : list ShortCode;
  links : list TempLink
}.

Definition with_subs (db : Db) (l : list SubscriptionRow) : Db :=
  mkDb (users db) (templates db) l (tokens db) (codes db) (links db).
Definition with_tokens (db : Db) (l : list SubscriptionToken) : Db :=
  mkDb (users db) (templates db) (subs db) l (codes db) (links db).
Definition with_codes (db : Db) (l : list ShortCode) : Db :=
  mkDb (users db) (templates db) (subs db) (tokens db) l (links db).
Definition with_links (db : Db) (l : list TempLink) : Db :=
  mkDb (users db) (templates db) (subs db) (tokens db) (codes db) l.

(** The result of a transaction. *)
Abbreviation Tx A := (Db * Result SubscriptionError A)%type.

(** [stored_integer] *)
Definition stored_integer (v : option N) (field : string) : Result SubscriptionError (option Z) :=
  match v with
  | None => Ok None
  | Some n =>
      if N.leb n i64_max then Ok (Some (Z.of_N n))
      else Err (SE_Storage (field +:+ " exceeds the signed 64-bit storage range"))
  end.

(** [v.map(u64::try_from).transpose()] of a column. *)
Definition u64_opt (v : option Z) (message : string) : Result SubscriptionError (option N) :=
  match v with
  | None => Ok None
  | Some z => if Z.leb 0 z then Ok (Some (Z.to_N z)) else Err (SE_Storage message)
  end.

(** *** Tokens *)

(** [find_by_token_hash], [find_by_previous_token_hash],
    [find_active_for_subscription] *)
Definition find_by_token_hash (db : Db) (digest : string) : option SubscriptionToken :=
  List.find (λ t, String.eqb (tk_digest t) digest) (tokens db).

Definition has_previous (digest : string) (t : SubscriptionToken) : bool :=
  match tk_previous_digest t with None => false | Some p => String.eqb p digest end.

Definition find_by_previous_token_hash (db : Db) (digest : string) : option SubscriptionToken :=
  List.find (has_previous digest) (tokens db).

Definition find_active_for_subscription (db : Db) (sid : SubscriptionId) : option SubscriptionToken :=
  List.find (λ t, N.eqb (tk_subscription_id t) sid) (tokens db).

(** The row the [UPDATE] of [rotate] writes. *)
Definition rotated (t : SubscriptionToken) (old_digest digest : string) (grace : option Z) (issued : Z) :
    SubscriptionToken :=
  mkToken (tk_id t) (tk_subscription_id t) digest (Some old_digest) grace issued.

(** [rotate]: one transaction; the [UPDATE] is guarded by the digest that was
    read, and by the unique digest index. *)
Definition rotate (db : Db) (sid : SubscriptionId) (new_token : SubscriptionToken)
    (grace_until : option Z) : Tx SubscriptionToken :=
  match map_err SE_Storage (format_ts_opt grace_until) with
  | Err e => (db, Err e)
  | Ok grace =>
  match map_err SE_Storage (format_ts (tk_issued_at new_token)) with
  | Err e => (db, Err e)
  | Ok issued =>
  match find_active_for_subscription db sid with
  | None => (db, Err SE_TokenNotFound)
  | Some cur =>
      let key t := (tk_subscription_id t, tk_digest t) in
      let hit t := bool_decide (key t = (sid, tk_digest cur)) in
      let digest := tk_digest new_token in
      if existsb (λ t, negb (hit t) && String.eqb (tk_digest t) digest) (tokens db)
      then (db, Err (SE_Storage "UNIQUE constraint failed: subscription_tokens.token_digest"))
      else if negb (existsb hit (tokens db)) then (db, Err SE_ConcurrentModification)
      else (with_tokens db (update_where key (sid, tk_digest cur) (λ t, rotated t (tk_digest cur) digest grace issued)
                              (tokens db)),
            Ok (mkToken (tk_id cur) sid digest (Some (tk_digest cur)) grace_until
                  (tk_issued_at new_token)))
  end end end.

(** [rotation_grace_until IS NOT NULL AND rotation_grace_until <= ?] *)
Definition grace_expired (now : Z) (t : SubscriptionToken) : bool :=
  match tk_grace_until t with None => false | Some until => Z.leb until now end.

(** The row update of [clear_expired_grace_tokens]. *)
Definition clear_grace (now : Z) (t : SubscriptionToken) : SubscriptionToken :=
  if grace_expired now t
  then mkToken (tk_id t) (tk_subscription_id t) (tk_digest t) None None (tk_issued_at t) else t.

(** [clear_expired_grace_tokens] *)
Definition clear_expired_grace_tokens (db : Db) (now : Z) : Tx nat :=
  match map_err SE_Storage (format_ts now) with
  | Err e => (db, Err e)
  | Ok n =>
      (with_tokens db (clear_grace n <$> tokens db),
       Ok (length (List.filter (grace_expired n) (tokens db))))
  end.

(** *** Short codes *)

Definition find_by_code (db : Db) (code : string) : option ShortCode :=
  List.find (λ c, String.eqb (sc_code c) code) (codes db).

Definition find_by_subscription (db : Db) (sid : SubscriptionId) : option ShortCode :=
  List.find (λ c, N.eqb (sc_subscription_id c) sid) (codes db).

Definition set_short_code (id : N) (r : SubscriptionRow) : SubscriptionRow :=
  mkSubscriptionRow (sr_id r) (sr_name r) (sr_slug r) (sr_owner_id r) (sr_template_id r)
    (sr_template_version_pin r) (sr_profile r) (sr_node_selection r) (sr_traffic_limit r)
    (sr_expires_at r) (sr_token_id r) (Some id) (sr_enabled r) (sr_created_at r) (sr_updated_at r).

(** [replace]: delete, insert and re-reference in one transaction.  The
    insert's foreign key already requires the row the final [UPDATE] counts. *)
Definition replace (db : Db) (c : ShortCode) : Tx () :=
  match map_err SE_Storage (format_ts (sc_created_at c)) with
  | Err e => (db, Err e)
  | Ok created =>
      let sid := sc_subscription_id c in
      let kept := filter (λ x, sc_subscription_id x ≠ sid) (codes db) in
      if existsb (λ x, N.eqb (sc_id x) (sc_id c)) kept
      then (db, Err (SE_Storage "UNIQUE constraint failed: subscription_short_codes.id"))
      else if existsb (λ x, String.eqb (sc_code x) (sc_code c)) kept
      then (db, Err SE_ShortCodeExists)
      else if negb (existsb (λ r, N.eqb (sr_id r) sid) (subs db))
      then (db, Err (SE_Storage "FOREIGN KEY constraint failed"))
      else
        (with_codes
           (with_subs db (update_where sr_id sid (set_short_code (sc_id c)) (subs db)))
           (kept ++ [mkShortCode (sc_id c) sid (sc_code c) created]), Ok ())
  end.

(** *** Temporary links *)

Definition find_link_by_token_hash (db : Db) (digest : string) : option TempLink :=
  List.find (λ l, String.eqb (tl_digest l) digest) (links db).

(** [TempLinkRepository::create] *)
Definition create_link (db : Db) (l : TempLink) : Tx () :=
  match map_err SE_Storage (format_ts (tl_expires_at l)) with
  | Err e => (db, Err e)
  | Ok expires =>
  match map_err SE_Storage (format_ts (tl_created_at l)) with
  | Err e => (db, Err e)
  | Ok created =>
      if existsb (λ x, N.eqb (tl_id x) (tl_id l) || String.eqb (tl_digest x) (tl_digest l)) (links db)
      then (db, Err (SE_Storage "UNIQUE constraint failed: subscription_temp_links"))
      else if negb (existsb (λ r, N.eqb (sr_id r) (tl_subscription_id l)) (subs db))
      then (db, Err (SE_Storage "FOREIGN KEY constraint failed"))
      else (with_links db (links db ++ [mkTempLink (tl_id l) (tl_subscription_id l) (tl_digest l)
                                           expires (tl_revoked l) created]), Ok ())
  end end.

Definition revoke_row (l : TempLink) : TempLink :=
  mkTempLink (tl_id l) (tl_subscription_id l) (tl_digest l) (tl_expires_at l) true (tl_created_at l).

(** [revoke_for_subscription] *)
Definition revoke_for_subscription (db : Db) (sid : SubscriptionId) (id : N) : Tx () :=
  let key l := (tl_id l, tl_subscription_id l) in
  if existsb (λ l, bool_decide (key l = (id, sid))) (links db)
  then (with_links db (update_where key (id, sid) revoke_row (links db)), Ok ())
  else (db, Err SE_TempLinkNotFound).

(** The [subscription_temp_links] statement of [prune]: expired links, at most
    a batch; [now] is SQLite's clock in whole seconds. *)
Definition PRUNE_BATCH : nat := 500.

Fixpoint prune_links (budget : nat) (now : Z) (l : list TempLink) : list TempLink :=
  match l with
  | [] => []
  | x :: l =>
      if Z.ltb (tl_expires_at x) now
      then match budget with 0 => x :: l | S b => prune_links b now l end
      else x :: prune_links budget now l
  end.

Definition prune (db : Db) (now : Z) : Db := with_links db (prune_links PRUNE_BATCH now (links db)).

(** *** Subscriptions *)

Section codec.
(** [serde_json::to_string] and [from_str] of a node selector. *)
Context (to_json : NodeSelector → Result string string)
        (from_json : string → Result string NodeSelector).

(** [SubscriptionRow::to_domain] *)
Definition to_domain (r : SubscriptionRow) : Result SubscriptionError Subscription :=
  let? sel := map_err (λ e, SE_Storage ("invalid node_selection JSON: " +:+ e)) (from_json (sr_node_selection r)) in
  let? pin := u64_opt (sr_template_version_pin r) "negative template_version_pin" in
  let? limit := u64_opt (sr_traffic_limit r) "negative traffic_limit" in
  Ok (mkSubscription (sr_id r) (sr_name r) (sr_slug r) (sr_owner_id r) (sr_template_id r) pin
    (sr_profile r) sel limit (sr_expires_at r) (sr_token_id r) (sr_short_code_id r) (sr_enabled r)
    (sr_created_at r) (sr_updated_at r)).

(** [find_by_id] *)
Definition find_by_id (db : Db) (id : SubscriptionId) :
    Result SubscriptionError (option Subscription) :=
  match List.find (λ r, N.eqb (sr_id r) id) (subs db) with
  | None => Ok None
  | Some r => let? s := to_domain r in Ok (Some s)
  end.

(** The columns both inserts bind; the two timestamps and the token's columns
    are formatted before the transaction begins. *)
Definition bind_rows (s : Subscription) (t : SubscriptionToken) :
    Result SubscriptionError (SubscriptionRow * SubscriptionToken) :=
  let? sel := map_err (λ e, SE_Storage ("node_selection serialize: " +:+ e)) (to_json (sub_node_selection s)) in
  let? created := map_err SE_Storage (format_ts (sub_created_at s)) in
  let? updated := map_err SE_Storage (format_ts (sub_updated_at s)) in
  let? expires := map_err SE_Storage (format_ts_opt (sub_expires_at s)) in
  let? issued := map_err SE_Storage (format_ts (tk_issued_at t)) in
  let? grace := map_err SE_Storage (format_ts_opt (tk_grace_until t)) in
  let? pin := stored_integer (sub_template_version_pin s) "template_version_pin" in
  let? limit := stored_integer (sub_traffic_limit s) "traffic_limit" in
  Ok (mkSubscriptionRow (sub_id s) (sub_name s) (sub_slug s) (sub_owner_id s) (sub_template_id s) pin
        (sub_profile s) sel limit expires (sub_token_id s) None (sub_enabled s) created updated,
      mkToken (tk_id t) (tk_subscription_id t) (tk_digest t) (tk_previous_digest t) grace issued).

(** The constraints of the [subscriptions] insert. *)
Definition insert_sub (db : Db) (r : SubscriptionRow) : Result SubscriptionError Db :=
  if existsb (λ x, N.eqb (sr_id x) (sr_id r)) (subs db)
  then Err (SE_Storage "UNIQUE constraint failed: subscriptions.id")
  else if existsb (λ x, N.eqb (sr_owner_id x) (sr_owner_id r) && String.eqb (sr_slug x) (sr_slug r)) (subs db)
  then Err SE_SlugExists
  else if negb (bool_decide (is_Some (users db !! sr_owner_id r)) && bool_decide (sr_template_id r ∈ templates db))
  then Err (SE_Storage "FOREIGN KEY constraint failed")
  else Ok (with_subs db (subs db ++ [r])).

(** The constraints of the [subscription_tokens] insert. *)
Definition insert_token (db : Db) (t : SubscriptionToken) : Result SubscriptionError Db :=
  if existsb (λ x, N.eqb (tk_id x) (tk_id t) || String.eqb (tk_digest x) (tk_digest t)
                   || N.eqb (tk_subscription_id x) (tk_subscription_id t)) (tokens db)
  then Err (SE_Storage "UNIQUE constraint failed: subscription_tokens")
  else if negb (existsb (λ r, N.eqb (sr_id r) (tk_subscription_id t)) (subs db))
  then Err (SE_Storage "FOREIGN KEY constraint failed")
  else Ok (with_tokens db (tokens db ++ [t])).

(** [create_with_token] *)
Definition create_with_token (db : Db) (s : Subscription) (t : SubscriptionToken) : Tx () :=
  match (let? rows := bind_rows s t in
         let? db1 := insert_sub db rows.1 in
         insert_token db1 rows.2) with
  | Ok db' => (db', Ok ())
  | Err e => (db, Err e)
  end.

(** The row the [UPDATE] statement leaves. *)
Definition updated_row (r : SubscriptionRow) (s : Subscription) (pin : option Z) (sel : string)
    (limit expires : option Z) (updated : Z) : SubscriptionRow :=
  mkSubscriptionRow (sr_id r) (sub_name s) (sub_slug s) (sr_owner_id r) (sr_template_id r) pin
    (sub_profile s) sel limit expires (sr_token_id r) (sr_short_code_id r) (sub_enabled s)
    (sr_created_at r) updated.

(** [update] *)
Definition update (db : Db) (s : Subscription) : Tx () :=
  match (let? sel := map_err (λ e, SE_Storage ("node_selection serialize: " +:+ e)) (to_json (sub_node_selection s)) in
         let? updated := map_err SE_Storage (format_ts (sub_updated_at s)) in
         let? expires := map_err SE_Storage (format_ts_opt (sub_expires_at s)) in
         let? pin := stored_integer (sub_template_version_pin s) "template_version_pin" in
         let? limit := stored_integer (sub_traffic_limit s) "traffic_limit" in
         match List.find (λ r, N.eqb (sr_id r) (sub_id s)) (subs db) with
         | None => Err SE_SubscriptionNotFound
         | Some row =>
             if existsb (λ x, negb (N.eqb (sr_id x) (sub_id s)) && N.eqb (sr_owner_id x) (sr_owner_id row)
                              && String.eqb (sr_slug x) (sub_slug s)) (subs db)
             then Err SE_SlugExists
             else Ok (with_subs db (update_where sr_id (sub_id s)
                                      (λ r, updated_row r s pin sel limit expires updated) (subs db)))
         end) with
  | Ok db' => (db', Ok ())
  | Err e => (db, Err e)
  end.

(** [delete], with the cascades of the foreign keys. *)
Definition delete (db : Db) (id : SubscriptionId) : Tx () :=
  if existsb (λ r, N.eqb (sr_id r) id) (subs db)
  then (mkDb (users db) (templates db)
          (filter (λ r, sr_id r ≠ id) (subs db))
          (filter (λ t, tk_subscription_id t ≠ id) (tokens db))
          (filter (λ c, sc_subscription_id c ≠ id) (codes db))
          (filter (λ l, tl_subscription_id l ≠ id) (links db)), Ok ())
  else (db, Err SE_SubscriptionNotFound).

End codec.

(** ** Errors leave the database as it was *)

Lemma create_with_token_Err to_json db s t db' e :
  create_with_token to_json db s t = (db', Err e) → db' = db.
Proof. unfold create_with_token. case_goal; naive_solver. Qed.

Lemma update_Err to_json db s db' e : update to_json db s = (db', Err e) → db' = db.
Proof. unfold update. case_goal; naive_solver. Qed.

Lemma delete_Err db id db' e : delete db id = (db', Err e) → db' = db.
Proof. unfold delete. case_goal; naive_solver. Qed.

Lemma rotate_Err db sid nt g db' e : rotate db sid nt g = (db', Err e) → db' = db.
Proof. unfold rotate. repeat case_goal; naive_solver. Qed.

Lemma replace_Err db c db' e : replace db c = (db', Err e) → db' = db.
Proof. unfold replace. repeat case_goal; naive_solver. Qed.

Lemma create_link_Err db l db' e : create_link db l = (db', Err e) → db' = db.
Proof. unfold create_link. repeat case_goal; naive_solver. Qed.

Lemma revoke_Err db sid id db' e : revoke_for_subscription db sid id = (db', Err e) → db' = db.
Proof. unfold revoke_for_subscription. repeat case_goal; naive_solver. Qed.

Lemma sweep_Err db now db' e : clear_expired_grace_tokens db now = (db', Err e) → db' = db.
Proof. unfold clear_expired_grace_tokens. repeat case_goal; naive_solver. Qed.

(** ** The invariant of the tables *)

Definition owns (db : Db) (sid : SubscriptionId) (P : SubscriptionRow → Prop) : Prop :=
  ∃ r, r ∈ subs db ∧ sr_id r = sid ∧ P r.

(** Uniqueness of every indexed column, the foreign keys, and the two logical
    references the schema leaves to the application: [token_id] and
    [short_code_id]. *)
Record store_ok (db : Db) : Prop := {
  ok_sub_ids : NoDup (sr_id <$> subs db);
  ok_slugs : NoDup ((λ r, (sr_owner_id r, sr_slug r)) <$> subs db);
  ok_digests : NoDup (tk_digest <$> tokens db);
  ok_token_subs : NoDup (tk_subscription_id <$> tokens db);
  ok_codes : NoDup (sc_code <$> codes db);
  ok_code_subs : NoDup (sc_subscription_id <$> codes db);
  ok_link_ids : NoDup (tl_id <$> links db);
  ok_link_digests : NoDup (tl_digest <$> links db);
  ok_owner : ∀ r, r ∈ subs db → is_Some (users db !! sr_owner_id r) ∧ sr_template_id r ∈ templates db;
  ok_token_fk : ∀ t, t ∈ tokens db → owns db (tk_subscription_id t) (λ r, sr_token_id r = tk_id t);
  ok_sub_token : ∀ r, r ∈ subs db →
    ∃ t, t ∈ tokens db ∧ tk_subscription_id t = sr_id r ∧ tk_id t = sr_token_id r;
  ok_code_fk : ∀ c, c ∈ codes db → owns db (sc_subscription_id c) (λ r, sr_short_code_id r = Some (sc_id c));
  ok_sub_code : ∀ r i, r ∈ subs db → sr_short_code_id r = Some i →
    ∃ c, c ∈ codes db ∧ sc_subscription_id c = sr_id r ∧ sc_id c = i;
  ok_link_fk : ∀ l, l ∈ links db → owns db (tl_subscription_id l) (λ _, True)
}.

Lemma store_ok_empty : store_ok (mkDb ∅ ∅ [] [] [] []).
Proof. split; simpl; try constructor; set_solver. Qed.

(** Accounts are only added or edited, templates only added. *)
Lemma store_ok_grow db us ts :
  (∀ i, is_Some (users db !! i) → is_Some (us !! i)) → templates db ⊆ ts →
  store_ok db → store_ok (mkDb us ts (subs db) (tokens db) (codes db) (links db)).
Proof.
  intros Hu Ht []. split; try done. intros r Hr. destruct (ok_owner0 r Hr). set_solver.
Qed.

Lemma create_with_token_Ok to_json db s t db' :
  create_with_token to_json db s t = (db', Ok ()) →
  ∃ r t', bind_rows to_json s t = Ok (r, t') ∧
    db' = mkDb (users db) (templates db) (subs db ++ [r]) (tokens db ++ [t']) (codes db) (links db) ∧
    (∀ x, x ∈ subs db → sr_id x ≠ sr_id r ∧ (sr_owner_id x, sr_slug x) ≠ (sr_owner_id r, sr_slug r)) ∧
    is_Some (users db !! sr_owner_id r) ∧ sr_template_id r ∈ templates db ∧
    (∀ x, x ∈ tokens db → tk_digest x ≠ tk_digest t' ∧ tk_subscription_id x ≠ tk_subscription_id t').
Proof.
  unfold create_with_token. destruct (bind_rows _ _ _) as [[r t']|] eqn:Hb; simpl; [|done].
  unfold insert_sub, insert_token.
  destruct (existsb _ (subs db)) eqn:H1; simpl; [done|].
  destruct (existsb _ (subs db)) eqn:H2 in |- *; simpl; [done|].
  destruct (negb _) eqn:H3; simpl; [done|].
  destruct (existsb _ (tokens db)) eqn:H4; simpl; [done|].
  destruct (negb _) eqn:H5 in |- *; simpl; [done|]. intros [= <-]. exists r, t'.
  bool_solve. rewrite existsb_false in H1, H2. rewrite existsb_false in H4.
  split_and!; [done|done| |by eapply bool_decide_eq_true_1|by eapply bool_decide_eq_true_1|].
  - intros x Hx. specialize (H1 x Hx). specialize (H2 x Hx). simpl in *.
    destruct (N.eqb_spec (sr_id x) (sr_id r)); [done|]. split; [done|]. intros [= He1 He2].
    rewrite He1, He2, N.eqb_refl, String.eqb_refl in H2. done.
  - intros x Hx. specialize (H4 x Hx). simpl in *. bool_solve.
    destruct (String.eqb_spec (tk_digest x) (tk_digest t')); [done|].
    destruct (N.eqb_spec (tk_subscription_id x) (tk_subscription_id t')); done.
Qed.

Lemma bind_rows_Ok to_json s t r t' :
  bind_rows to_json s t = Ok (r, t') →
  sr_id r = sub_id s ∧ sr_owner_id r = sub_owner_id s ∧ sr_slug r = sub_slug s ∧
  sr_profile r = sub_profile s ∧ sr_token_id r = sub_token_id s ∧ sr_short_code_id r = None ∧
  sr_traffic_limit r = Z.of_N <$> sub_traffic_limit s ∧
  sr_template_version_pin r = Z.of_N <$> sub_template_version_pin s ∧
  to_json (sub_node_selection s) = Ok (sr_node_selection r) ∧
  tk_id t' = tk_id t ∧ tk_subscription_id t' = tk_subscription_id t ∧ tk_digest t' = tk_digest t ∧
  tk_previous_digest t' = tk_previous_digest t.
Proof.
  unfold bind_rows. rewrite !result_bind_Ok. intros (sel & Hsel & H).
  destruct (to_json _) as [sel'|]; simplify_eq/=.
  repeat match type of H with result_bind _ _ = Ok _ =>
    rewrite result_bind_Ok in H; destruct H as (? & ? & H) end.
  injection H as <- <-. simpl.
  unfold stored_integer in *. repeat case_match; simplify_eq/=; done.
Qed.

Lemma create_with_token_ok to_json db s t db' :
  tk_subscription_id t = sub_id s → tk_id t = sub_token_id s →
  create_with_token to_json db s t = (db', Ok ()) → store_ok db → store_ok db'.
Proof.
  intros Hts Htid Hc Hok. apply create_with_token_Ok in Hc as (r & t' & Hb & -> & Hfr & Hu & Ht & Hft).
  apply bind_rows_Ok in Hb as (Hid & _ & _ & _ & Htk & Hsc & _ & _ & _ & Htid' & Hts' & _).
  destruct Hok. split; simpl.
  - apply NoDup_fmap_snoc; naive_solver.
  - apply NoDup_fmap_snoc; [done|]. intros y Hy. by apply Hfr.
  - apply NoDup_fmap_snoc; naive_solver.
  - apply NoDup_fmap_snoc; naive_solver.
  - done.
  - done.
  - done.
  - done.
  - intros r' [Hr|Hr%list_elem_of_singleton]%elem_of_app; subst; auto.
  - intros x [Hx|Hx%list_elem_of_singleton]%elem_of_app; subst.
    + destruct (ok_token_fk0 x Hx) as (q & ? & ? & ?). exists q. simpl. rewrite elem_of_app. eauto.
    + exists r. simpl. rewrite elem_of_app, list_elem_of_singleton. split_and!; [by right|congruence..].
  - intros r' [Hr|Hr%list_elem_of_singleton]%elem_of_app; subst.
    + destruct (ok_sub_token0 r' Hr) as (q & ? & ? & ?). exists q. rewrite elem_of_app. eauto.
    + exists t'. rewrite elem_of_app, list_elem_of_singleton. split_and!; [by right|congruence..].
  - intros c Hc. destruct (ok_code_fk0 c Hc) as (q & ? & ? & ?). exists q. simpl. rewrite elem_of_app. eauto.
  - intros r' i [Hr|Hr%list_elem_of_singleton]%elem_of_app; subst; [eauto|congruence].
  - intros l Hl. destruct (ok_link_fk0 l Hl) as (q & ? & ? & ?). exists q. simpl. rewrite elem_of_app. eauto.
Qed.

Lemma owns_with_subs db l sid (P : SubscriptionRow → Prop) :
  (∀ r, r ∈ subs db → sr_id r = sid → P r → ∃ r', r' ∈ l ∧ sr_id r' = sid ∧ P r') →
  owns db sid P → owns (with_subs db l) sid P.
Proof. intros H (r & ? & ? & ?). by apply (H r). Qed.

(** Rewriting rows without touching what others refer to. *)
Lemma update_rows_ok db k u :
  (∀ r, sr_id (u r) = sr_id r ∧ sr_owner_id (u r) = sr_owner_id r ∧ sr_template_id (u r) = sr_template_id r ∧
        sr_token_id (u r) = sr_token_id r ∧ sr_short_code_id (u r) = sr_short_code_id r) →
  (∀ x y, x ∈ subs db → y ∈ subs db → sr_id x = k → sr_id y ≠ k →
     (sr_owner_id x, sr_slug (u x)) ≠ (sr_owner_id y, sr_slug y)) →
  store_ok db → store_ok (with_subs db (update_where sr_id k u (subs db))).
Proof.
  intros Hu Hslug Hok. pose proof Hok as [].
  assert (∀ sid P, (∀ r, P r → P (u r)) → owns db sid P →
    owns (with_subs db (update_where sr_id k u (subs db))) sid P) as Howns.
  { intros sid P HP. apply owns_with_subs. intros r Hr Hid Hp.
    exists (if decide (sr_id r = k) then u r else r). rewrite elem_of_update_where.
    case_decide; (split_and!; [eauto 6| |auto]); [|done]. by rewrite (proj1 (Hu r)). }
  assert (∀ r', r' ∈ update_where sr_id k u (subs db) → ∃ r, r ∈ subs db ∧ sr_id r' = sr_id r ∧
    sr_owner_id r' = sr_owner_id r ∧ sr_template_id r' = sr_template_id r ∧ sr_token_id r' = sr_token_id r ∧
    sr_short_code_id r' = sr_short_code_id r) as Hback.
  { intros r' (r & Hr & [[_ ->]|[_ ->]])%elem_of_update_where; exists r; [|done].
    destruct (Hu r) as (? & ? & ? & ? & ?). done. }
  split; simpl; try done.
  - rewrite fmap_update_where; [done|]. intros r _. apply Hu.
  - apply NoDup_update_where; [done..|]. intros x y Hx Hy Hkx Hky.
    rewrite (proj1 (proj2 (Hu x))). auto.
  - intros r' (r & Hr & _ & -> & -> & _)%Hback. auto.
  - intros t Ht. apply Howns; [|auto]. intros r. by destruct (Hu r) as (? & ? & ? & -> & ?).
  - intros r' (r & Hr & -> & _ & _ & -> & _)%Hback. auto.
  - intros c Hc. apply Howns; [|auto]. intros r. by destruct (Hu r) as (? & ? & ? & ? & ->).
  - intros r' i (r & Hr & -> & _ & _ & _ & ->)%Hback. auto.
  - intros l Hl. apply Howns; [done|auto].
Qed.

Lemma update_Ok to_json db s db' :
  update to_json db s = (db', Ok ()) →
  ∃ row pin sel limit expires updated,
    row ∈ subs db ∧ sr_id row = sub_id s ∧
    stored_integer (sub_template_version_pin s) "template_version_pin" = Ok pin ∧
    to_json (sub_node_selection s) = Ok sel ∧
    stored_integer (sub_traffic_limit s) "traffic_limit" = Ok limit ∧
    db' = with_subs db (update_where sr_id (sub_id s)
      (λ r, updated_row r s pin sel limit expires updated) (subs db)) ∧
    ∀ x, x ∈ subs db → sr_id x ≠ sub_id s →
      (sr_owner_id x, sr_slug x) ≠ (sr_owner_id row, sub_slug s).
Proof.
  unfold update. destruct (to_json _) as [sel|] eqn:Hsel; simpl; [|done].
  destruct (format_ts _) as [updated|]; simpl; [|done].
  destruct (format_ts_opt _) as [expires|]; simpl; [|done].
  destruct (stored_integer _ "template_version_pin") as [pin|]; simpl; [|done].
  destruct (stored_integer _ "traffic_limit") as [limit|]; simpl; [|done].
  destruct (List.find _ _) as [row|] eqn:Hf; simpl; [|done].
  destruct (existsb _ _) eqn:He; simpl; [done|]. intros [= <-].
  apply find_Some_elem in Hf as [Hrow Hid%N.eqb_eq].
  exists row, pin, sel, limit, expires, updated. split_and!; [done..|].
  intros x Hx Hne [= Ho Hs]. rewrite existsb_false in He. specialize (He x Hx). simpl in He.
  rewrite Ho, Hs, N.eqb_refl, String.eqb_refl, !andb_true_r in He.
  apply negb_false_iff, N.eqb_eq in He. done.
Qed.

Lemma update_ok to_json db s db' :
  update to_json db s = (db', Ok ()) → store_ok db → store_ok db'.
Proof.
  intros (row & pin & sel & limit & expires & updated & Hrow & Hid & _ & _ & _ & -> & Hs)%update_Ok Hok.
  apply update_rows_ok; [done| |done]. intros x y Hx Hy Hkx Hky. simpl.
  assert (x = row) as -> by (eapply NoDup_fmap_elem; [apply ok_sub_ids|..]; eauto; congruence).
  apply not_eq_sym. auto.
Qed.

Lemma delete_ok db id db' : delete db id = (db', Ok ()) → store_ok db → store_ok db'.
Proof.
  unfold delete. case_goal; [|done]. intros [= <-] [].
  assert (∀ sid P, sid ≠ id → owns db sid P → ∃ r, r ∈ filter (λ r, sr_id r ≠ id) (subs db) ∧
    sr_id r = sid ∧ P r) as Howns.
  { intros sid P Hne (r & ? & ? & ?). exists r. rewrite list_elem_of_filter. naive_solver. }
  split; simpl; try (by apply NoDup_fmap_filter).
  - intros r [_ Hr]%list_elem_of_filter. auto.
  - intros t [Hne Ht]%list_elem_of_filter. apply Howns; auto.
  - intros r [Hne Hr]%list_elem_of_filter. destruct (ok_sub_token0 r Hr) as (t & ? & ? & ?).
    exists t. rewrite list_elem_of_filter. naive_solver congruence.
  - intros c [Hne Hc]%list_elem_of_filter. apply Howns; auto.
  - intros r i [Hne Hr]%list_elem_of_filter Hi. destruct (ok_sub_code0 r i Hr Hi) as (c & ? & ? & ?).
    exists c. rewrite list_elem_of_filter. naive_solver congruence.
  - intros l [Hne Hl]%list_elem_of_filter. apply Howns; auto.
Qed.

(** What a successful rotation does, given one token row per subscription. *)
Lemma rotate_Ok db sid nt g db' t :
  NoDup (tk_subscription_id <$> tokens db) → rotate db sid nt g = (db', Ok t) →
  ∃ cur grace issued,
    cur ∈ tokens db ∧ tk_subscription_id cur = sid ∧
    format_ts_opt g = Ok grace ∧ format_ts (tk_issued_at nt) = Ok issued ∧
    (∀ x, x ∈ tokens db → x ≠ cur → tk_digest x ≠ tk_digest nt) ∧
    db' = with_tokens db (update_where tk_subscription_id sid
      (λ x, rotated x (tk_digest cur) (tk_digest nt) grace issued) (tokens db)) ∧
    t = mkToken (tk_id cur) sid (tk_digest nt) (Some (tk_digest cur)) g (tk_issued_at nt).
Proof.
  intros Hnd. unfold rotate. destruct (format_ts_opt g) as [grace|]; simpl; [|done].
  destruct (format_ts _) as [issued|]; simpl; [|done].
  destruct (find_active_for_subscription db sid) as [cur|] eqn:Hf; [|done].
  apply find_Some_elem in Hf as [Hcur Hsid%N.eqb_eq].
  destruct (existsb _ _) eqn:He; [done|]. destruct (negb _) eqn:Hn; [done|]. intros [= <- <-].
  exists cur, grace, issued. split_and!; [done..| |f_equal|done].
  - intros x Hx Hne Hd. rewrite existsb_false in He. specialize (He x Hx). simpl in He.
    rewrite Hd, String.eqb_refl, andb_true_r in He. bool_solve.
    apply bool_decide_eq_true_1 in He as [= He1 He2]. apply Hne.
    apply (NoDup_fmap_elem _ _ _ _ Hnd); [done|done|]. simpl. congruence.
  - unfold update_where. apply list_fmap_ext. intros i x Hx%list_elem_of_lookup_2.
    case_decide as H1; case_decide as H2; try congruence.
    assert (x = cur) as -> by (apply (NoDup_fmap_elem _ _ _ _ Hnd); [done|done|congruence]). congruence.
Qed.

(** Token rows rewritten in place, with their digests still unique. *)
Lemma update_tokens_ok db (u : SubscriptionToken → SubscriptionToken) :
  (∀ t, tk_id (u t) = tk_id t ∧ tk_subscription_id (u t) = tk_subscription_id t) →
  NoDup (tk_digest <$> (u <$> tokens db)) →
  store_ok db → store_ok (with_tokens db (u <$> tokens db)).
Proof.
  intros Hu Hd []. split; simpl; try done.
  - rewrite <-list_fmap_compose. erewrite list_fmap_ext; [done|]. intros i t _. apply Hu.
  - intros t' (t & -> & Ht)%list_elem_of_fmap. destruct (Hu t) as [-> ->]. apply ok_token_fk0. done.
  - intros r Hr. destruct (ok_sub_token0 r Hr) as (t & ? & ? & ?). exists (u t). destruct (Hu t) as [-> ->].
    split; [|done]. by apply list_elem_of_fmap_2.
Qed.

Lemma rotate_ok db sid nt g db' t :
  rotate db sid nt g = (db', Ok t) → store_ok db → store_ok db'.
Proof.
  intros Hr Hok. pose proof Hok as [].
  apply rotate_Ok in Hr as (cur & grace & issued & Hcur & Hsid & _ & _ & Hfresh & -> & _); [|done].
  apply update_tokens_ok; [|apply NoDup_update_where|]; try done.
  - intros x. by case_decide.
  - intros x y Hx Hy Hkx Hky. simpl. apply not_eq_sym, Hfresh; [done|congruence].
Qed.

Lemma sweep_Ok db now db' n :
  clear_expired_grace_tokens db now = (db', Ok n) →
  ∃ s, format_ts now = Ok s ∧ db' = with_tokens db (clear_grace s <$> tokens db).
Proof.
  unfold clear_expired_grace_tokens. destruct (format_ts now) as [s|]; simpl; [|done].
  intros [= <- <-]. eauto.
Qed.

Lemma sweep_ok db now db' n :
  clear_expired_grace_tokens db now = (db', Ok n) → store_ok db → store_ok db'.
Proof.
  intros (s & _ & ->)%sweep_Ok Hok. apply update_tokens_ok; [| |done].
  - intros t. unfold clear_grace. by case_goal.
  - rewrite <-list_fmap_compose. erewrite list_fmap_ext; [apply ok_digests, Hok|].
    intros i t _. simpl. unfold clear_grace. by case_goal.
Qed.

Lemma replace_Ok db c db' :
  replace db c = (db', Ok ()) →
  ∃ created, let kept := filter (λ x, sc_subscription_id x ≠ sc_subscription_id c) (codes db) in
    (∀ x, x ∈ kept → sc_code x ≠ sc_code c) ∧ owns db (sc_subscription_id c) (λ _, True) ∧
    db' = with_codes (with_subs db (update_where sr_id (sc_subscription_id c) (set_short_code (sc_id c)) (subs db)))
            (kept ++ [mkShortCode (sc_id c) (sc_subscription_id c) (sc_code c) created]).
Proof.
  unfold replace. destruct (format_ts _) as [created|]; simpl; [|done].
  destruct (existsb _ _) eqn:H1; [done|].
  destruct (existsb _ (filter _ _)) eqn:H2 in |- *; [done|].
  destruct (negb _) eqn:H3; [done|]. intros [= <-]. exists created. split_and!; [..|done].
  - intros x Hx He. rewrite existsb_false in H2. specialize (H2 x Hx). simpl in H2.
    by rewrite He, String.eqb_refl in H2.
  - bool_solve. apply existsb_true in H3 as (r & Hr & Hid%N.eqb_eq). by exists r.
Qed.

Lemma replace_ok db c db' : replace db c = (db', Ok ()) → store_ok db → store_ok db'.
Proof.
  intros (created & Hfresh & (r0 & Hr0 & Hid0 & _) & ->)%replace_Ok [].
  set (sid := sc_subscription_id c) in *.
  assert (∀ k P, (∀ r, P r → P (set_short_code (sc_id c) r)) → owns db k P → ∃ r,
    r ∈ update_where sr_id sid (set_short_code (sc_id c)) (subs db) ∧ sr_id r = k ∧ P r) as Howns.
  { intros k P HP (r & Hr & Hid & Hp). exists (if decide (sr_id r = sid) then set_short_code (sc_id c) r else r).
    rewrite elem_of_update_where. case_decide; split_and!; eauto 6. }
  assert (∀ r', r' ∈ update_where sr_id sid (set_short_code (sc_id c)) (subs db) →
    ∃ r, r ∈ subs db ∧ (sr_id r = sid ∧ r' = set_short_code (sc_id c) r ∨ sr_id r ≠ sid ∧ r' = r)) as Hback.
  { intros r' (r & Hr & H)%elem_of_update_where. eauto. }
  split; simpl.
  - by rewrite fmap_update_where.
  - by rewrite fmap_update_where.
  - done.
  - done.
  - apply NoDup_fmap_snoc; [by apply NoDup_fmap_filter|done].
  - apply NoDup_fmap_snoc; [by apply NoDup_fmap_filter|]. intros x [? _]%list_elem_of_filter. done.
  - done.
  - done.
  - intros r' (r & Hr & [[_ ->]|[_ ->]])%Hback; by apply (ok_owner0 r).
  - intros t Ht. apply Howns; [done|by apply ok_token_fk0].
  - intros r' (r & Hr & [[_ ->]|[_ ->]])%Hback; by apply (ok_sub_token0 r).
  - intros x [[Hne Hx]%list_elem_of_filter|Hx%list_elem_of_singleton]%elem_of_app; subst.
    + destruct (ok_code_fk0 x Hx) as (r & Hr & Hid & Hs). exists r. simpl.
      rewrite elem_of_update_where. split; [|done]. exists r. split; [done|]. right. split; congruence.
    + exists (set_short_code (sc_id c) r0). simpl. rewrite elem_of_update_where. split; [|done]. eauto.
  - intros r' i (r & Hr & [[Hid ->]|[Hid ->]])%Hback Hi.
    + exists (mkShortCode (sc_id c) sid (sc_code c) created). simpl in Hi. simplify_eq.
      rewrite elem_of_app, list_elem_of_singleton. split_and!; [by right|done..].
    + destruct (ok_sub_code0 r i Hr Hi) as (x & Hx & Hxs & Hxi). exists x.
      rewrite elem_of_app, list_elem_of_filter. split; [left; split; [congruence|done]|done].
  - intros l Hl. apply Howns; [done|auto].
Qed.

Lemma create_link_Ok db l db' :
  create_link db l = (db', Ok ()) →
  ∃ expires created, format_ts (tl_expires_at l) = Ok expires ∧
    (∀ x, x ∈ links db → tl_id x ≠ tl_id l ∧ tl_digest x ≠ tl_digest l) ∧
    owns db (tl_subscription_id l) (λ _, True) ∧
    db' = with_links db (links db ++ [mkTempLink (tl_id l) (tl_subscription_id l) (tl_digest l) expires
                                        (tl_revoked l) created]).
Proof.
  unfold create_link. destruct (format_ts (tl_expires_at l)) as [expires|]; simpl; [|done].
  destruct (format_ts _) as [created|]; simpl; [|done].
  destruct (existsb _ (links db)) eqn:H1; [done|]. destruct (negb _) eqn:H3; [done|]. intros [= <-].
  exists expires, created. split_and!; [done| | |done].
  - intros x Hx. rewrite existsb_false in H1. specialize (H1 x Hx). simpl in H1. bool_solve.
    destruct (N.eqb_spec (tl_id x) (tl_id l)), (String.eqb_spec (tl_digest x) (tl_digest l)); done.
  - bool_solve. apply existsb_true in H3 as (r & Hr & Hid%N.eqb_eq). by exists r.
Qed.

(** Link rows added, removed or rewritten in place. *)
Lemma with_links_ok db ls :
  NoDup (tl_id <$> ls) → NoDup (tl_digest <$> ls) →
  (∀ l, l ∈ ls → owns db (tl_subscription_id l) (λ _, True)) →
  store_ok db → store_ok (with_links db ls).
Proof. intros ? ? ? []. by split. Qed.

Lemma create_link_ok db l db' : create_link db l = (db', Ok ()) → store_ok db → store_ok db'.
Proof.
  intros (expires & created & _ & Hfresh & Hown & ->)%create_link_Ok Hok. pose proof Hok as [].
  apply with_links_ok; [| | |done].
  - apply NoDup_fmap_snoc; [done|]. intros y Hy. by apply Hfresh.
  - apply NoDup_fmap_snoc; [done|]. intros y Hy. by apply Hfresh.
  - intros x [Hx|Hx%list_elem_of_singleton]%elem_of_app; subst; auto.
Qed.

Lemma revoke_ok db sid id db' : revoke_for_subscription db sid id = (db', Ok ()) → store_ok db → store_ok db'.
Proof.
  unfold revoke_for_subscription. case_goal; [|done]. intros [= <-] Hok. pose proof Hok as [].
  apply with_links_ok; [by rewrite fmap_update_where..| |done].
  intros x (l & Hl & [[_ ->]|[_ ->]])%elem_of_update_where; simpl; auto.
Qed.

Lemma prune_links_sublist b now l : prune_links b now l `sublist_of` l.
Proof.
  revert b. induction l as [|x l IH]; intros b; simpl; [constructor|].
  case_goal; [destruct b|]; by constructor.
Qed.

Lemma prune_ok db now : store_ok db → store_ok (prune db now).
Proof.
  intros Hok. pose proof Hok as []. pose proof (prune_links_sublist PRUNE_BATCH now (links db)) as Hs.
  apply with_links_ok; [| | |done].
  - eapply sublist_NoDup; [done|]. by apply fmap_sublist.
  - eapply sublist_NoDup; [done|]. by apply fmap_sublist.
  - intros l Hl. apply ok_link_fk0. eapply elem_of_submseteq; [done|]. by apply sublist_submseteq.
Qed.

End SubscriptionRepo.
