(* ===== verification/SubCommands.v ===== *)
(** * Subscription commands
      ([crates/deve-sub-application/src/subscription/commands.rs],
      [validation.rs], [error.rs], [scheduler.rs])

    Create, update, delete, rotate, short codes and temporary links over the
    tables of [Subscription], and what any sequence of them guarantees. *)

From stdpp Require Import pretty.
From S2P Require Import Prelude Kernel Node Template GenTypes Compat Subscription.

(** ** Errors *)

Inductive SubscriptionAppError :=
  | SA_InvalidInput (message : string)
  | SA_SubscriptionNotFound
  | SA_SlugExists
  | SA_TokenNotFound
  | SA_ShortCodeNotFound
  | SA_TempLinkNotFound
  | SA_TempLinkInvalid
  | SA_TemplateNotFound
  | SA_UnknownProfile (profile : string)
  | SA_SubscriptionDisabled
  | SA_SubscriptionExpired
  | SA_UserInactive
  | SA_UserExpired
  | SA_TrafficExceeded
  | SA_GenerationFailed (error : TemplateAppError)
  | SA_NoAvailableNodes
  | SA_Storage (message : string)
  | SA_Subscription (e : SubscriptionError)
  | SA_Identity (message : string)
  | SA_Security (message : string).

(** [From<TemplateAppError>]; the payload of [GenerationFailed] is the error
    whose text it carries. *)
Definition from_template_error (e : TemplateAppError) : SubscriptionAppError :=
  match e with NoCompatibleNodes => SA_NoAvailableNodes | e => SA_GenerationFailed e end.

(** [map_subscription_error] *)
Definition map_subscription_error (e : SubscriptionError) : SubscriptionAppError :=
  match e with
  | SE_SubscriptionNotFound => SA_SubscriptionNotFound
  | SE_SlugExists => SA_SlugExists
  | SE_TokenNotFound => SA_TokenNotFound
  | SE_ShortCodeNotFound => SA_ShortCodeNotFound
  | SE_TempLinkNotFound => SA_TempLinkNotFound
  | SE_TempLinkInvalid => SA_TempLinkInvalid
  | SE_ConcurrentModification | SE_ShortCodeExists | SE_Storage _ => SA_Subscription e
  end.

Module SubCommands.
Import SubscriptionRepo.

(** ** Input validation ([validation.rs]); a string is its bytes, so its
    length is [str::len]. *)

Definition MAX_NAME_LEN : nat := 128.
Definition MAX_SLUG_LEN : nat := 128.

Definition validate_name (name : string) : Result SubscriptionAppError () :=
  if String.eqb name "" then Err (SA_InvalidInput "name must not be empty")
  else if Nat.ltb MAX_NAME_LEN (String.length name)
  then Err (SA_InvalidInput "name must not exceed 128 characters")
  else Ok ().

Definition validate_slug (slug : string) : Result SubscriptionAppError () :=
  if String.eqb slug "" then Err (SA_InvalidInput "slug must not be empty")
  else if Nat.ltb MAX_SLUG_LEN (String.length slug)
  then Err (SA_InvalidInput "slug must not exceed 128 characters")
  else Ok ().

Definition validate_profile (profile : string) : Result SubscriptionAppError ProfileKind :=
  ok_or (from_kebab profile) (SA_UnknownProfile profile).

Definition validate_traffic_limit (limit : option N) : Result SubscriptionAppError () :=
  match limit with
  | Some v =>
      if N.eqb v 0 || N.ltb i64_max v
      then Err (SA_InvalidInput "traffic_limit must be between 1 and 9223372036854775807; use null for unlimited")
      else Ok ()
  | None => Ok ()
  end.

Definition validate_template_version_pin (pin : option N) : Result SubscriptionAppError () :=
  match pin with
  | Some v =>
      if N.ltb i64_max v
      then Err (SA_InvalidInput "template_version_pin must not exceed 9223372036854775807")
      else Ok ()
  | None => Ok ()
  end.

(** ** The code the commands call but this development does not model *)

Class CommandExternals := {
  (** serde's JSON codec of a node selector, from text and from a value *)
  selector_to_json : NodeSelector → Result string string;
  selector_from_json : string → Result string NodeSelector;
  selector_from_value : Json → Result string NodeSelector;
  (** [OffsetDateTime::parse] with [Rfc3339] *)
  parse_rfc3339 : string → Result string Z;
  (** [hmac_digest] under the process's master key *)
  hmac_digest : string → string → Result string string
}.

Section commands.
Context {ext : CommandExternals}.

Abbreviation find_sub db id := (find_by_id selector_from_json db id).

Definition PURPOSE_SUBSCRIPTION_TOKEN : string := "subscription_token".

Definition token_digest (plaintext : string) : Result SubscriptionAppError string :=
  map_err SA_Security (hmac_digest PURPOSE_SUBSCRIPTION_TOKEN plaintext).

Definition parse_node_selection (v : Json) : Result SubscriptionAppError NodeSelector :=
  map_err (λ e, SA_InvalidInput ("invalid node_selection: " +:+ e)) (selector_from_value v).

Definition parse_iso8601 (s : string) : Result SubscriptionAppError Z :=
  map_err (λ e, SA_InvalidInput ("invalid expires_at: " +:+ e)) (parse_rfc3339 s).

(** [opt.as_deref().map(parse_iso8601).transpose()] *)
Definition parse_expiry (o : option string) : Result SubscriptionAppError (option Z) :=
  match o with None => Ok None | Some s => let? t := parse_iso8601 s in Ok (Some t) end.

(** What a command draws from its surroundings: the CSPRNG's token (or its
    failure), fresh identifiers and the clock ([create_subscription] reads it
    twice). *)
Record Draw := mkDraw {
  d_token : Result string string;
  d_id : N;
  d_id2 : N;
  d_now : Z;
  d_issued : Z
}.

Definition drawn_token (d : Draw) : Result SubscriptionAppError string := map_err SA_Security (d_token d).

Record CreateSubscriptionParams := mkCreateParams {
  cp_name : string;
  cp_slug : string;
  cp_owner_id : UserId;
  cp_template_id : TemplateId;
  cp_profile : string;
  cp_node_selection : Json;
  cp_traffic_limit : option N;
  cp_expires_at : option string
}.

Definition with_limits (s : Subscription) (limit : option N) (expires : option Z) : Subscription :=
  mkSubscription (sub_id s) (sub_name s) (sub_slug s) (sub_owner_id s) (sub_template_id s)
    (sub_template_version_pin s) (sub_profile s) (sub_node_selection s) limit expires (sub_token_id s)
    (sub_short_code_id s) (sub_enabled s) (sub_created_at s) (sub_updated_at s).

(** [create_subscription] *)
Definition create_subscription (db : Db) (d : Draw) (p : CreateSubscriptionParams) :
    Db * Result SubscriptionAppError (Subscription * string) :=
  match (let? _ := validate_name (cp_name p) in
         let? _ := validate_slug (cp_slug p) in
         let? _ := validate_profile (cp_profile p) in
         let? _ := validate_traffic_limit (cp_traffic_limit p) in
         let? sel := parse_node_selection (cp_node_selection p) in
         let? expires := parse_expiry (cp_expires_at p) in
         let? plaintext := drawn_token d in
         let? digest := token_digest plaintext in
         let s := with_limits (subscription_new (d_id d) (d_now d) (cp_name p) (cp_slug p) (cp_owner_id p)
                    (cp_template_id p) (cp_profile p) sel (d_id2 d)) (cp_traffic_limit p) expires in
         Ok (s, mkToken (d_id2 d) (sub_id s) digest None None (d_issued d), plaintext)) with
  | Err e => (db, Err e)
  | Ok (s, t, plaintext) =>
      match create_with_token selector_to_json db s t with
      | (db', Ok _) => (db', Ok (s, plaintext))
      | (db', Err e) => (db', Err (map_subscription_error e))
      end
  end.

Record UpdateSubscriptionParams := mkUpdateParams {
  up_id : SubscriptionId;
  up_name : string;
  up_slug : string;
  up_template_version_pin : option N;
  up_profile : string;
  up_node_selection : Json;
  up_traffic_limit : option N;
  up_expires_at : option string;
  up_enabled : option bool
}.

Definition apply_update (s : Subscription) (p : UpdateSubscriptionParams) (sel : NodeSelector)
    (expires : option Z) (now : Z) : Subscription :=
  mkSubscription (sub_id s) (up_name p) (up_slug p) (sub_owner_id s) (sub_template_id s)
    (up_template_version_pin p) (up_profile p) sel (up_traffic_limit p) expires (sub_token_id s)
    (sub_short_code_id s) (default (sub_enabled s) (up_enabled p)) (sub_created_at s) now.

(** [update_subscription] *)
Definition update_subscription (db : Db) (now : Z) (p : UpdateSubscriptionParams) :
    Db * Result SubscriptionAppError Subscription :=
  match (let? _ := validate_name (up_name p) in
         let? _ := validate_slug (up_slug p) in
         let? _ := validate_profile (up_profile p) in
         let? _ := validate_traffic_limit (up_traffic_limit p) in
         let? _ := validate_template_version_pin (up_template_version_pin p) in
         let? sel := parse_node_selection (up_node_selection p) in
         let? expires := parse_expiry (up_expires_at p) in
         let? found := map_err map_subscription_error (find_sub db (up_id p)) in
         let? s := ok_or found SA_SubscriptionNotFound in
         Ok (apply_update s p sel expires now)) with
  | Err e => (db, Err e)
  | Ok s =>
      match update selector_to_json db s with
      | (db', Ok _) => (db', Ok s)
      | (db', Err e) => (db', Err (map_subscription_error e))
      end
  end.

(** [delete_subscription] *)
Definition delete_subscription (db : Db) (id : SubscriptionId) : Db * Result SubscriptionAppError () :=
  match delete db id with
  | (db', r) => (db', map_err map_subscription_error r)
  end.

(** The existence check the credential commands start with. *)
Definition require_sub (db : Db) (id : SubscriptionId) : Result SubscriptionAppError Subscription :=
  let? found := map_err map_subscription_error (find_sub db id) in
  ok_or found SA_SubscriptionNotFound.

(** [rotate_token]; [grace] is a duration in nanoseconds.  [now + d] panics
    outside the range of [OffsetDateTime], which the caller bounds. *)
Definition rotate_token (db : Db) (d : Draw) (sid : SubscriptionId) (grace : option Z) :
    Db * Result SubscriptionAppError (SubscriptionTokenId * string) :=
  match (let? _ := require_sub db sid in
         let? plaintext := drawn_token d in
         let? digest := token_digest plaintext in
         Ok (plaintext, digest)) with
  | Err e => (db, Err e)
  | Ok (plaintext, digest) =>
      let grace_until := (λ g, (d_now d + g)%Z) <$> grace in
      match rotate db sid (mkToken (d_id d) sid digest None grace_until (d_now d)) grace_until with
      | (db', Ok updated) => (db', Ok (tk_id updated, plaintext))
      | (db', Err e) => (db', Err (map_subscription_error e))
      end
  end.

Definition SHORT_CODE_MAX_RETRIES : nat := 8.

(** The [for _ in 0..SHORT_CODE_MAX_RETRIES] loop over the draws. *)
Fixpoint short_code_loop (db : Db) (sid : SubscriptionId) (n : nat) (draws : nat → Draw) :
    Db * Result SubscriptionAppError (N * string) :=
  match n with
  | 0 => (db, Err (SA_Storage "short code generation exhausted 8 retries"))
  | S n =>
      let d := draws 0 in
      match drawn_token d with
      | Err e => (db, Err e)
      | Ok code =>
          match replace db (mkShortCode (d_id d) sid code (d_now d)) with
          | (db', Ok _) => (db', Ok (d_id d, code))
          | (db', Err SE_ShortCodeExists) => short_code_loop db' sid n (λ i, draws (S i))
          | (db', Err e) => (db', Err (map_subscription_error e))
          end
      end
  end.

(** [regenerate_short_code] *)
Definition regenerate_short_code (db : Db) (sid : SubscriptionId) (draws : nat → Draw) :
    Db * Result SubscriptionAppError (N * string) :=
  match require_sub db sid with
  | Err e => (db, Err e)
  | Ok _ => short_code_loop db sid SHORT_CODE_MAX_RETRIES draws
  end.

(** [create_temp_link] *)
Definition create_temp_link (db : Db) (d : Draw) (sid : SubscriptionId) (expires_at : Z) :
    Db * Result SubscriptionAppError (N * string * Z) :=
  match (let? _ := require_sub db sid in
         let? plaintext := drawn_token d in
         let? digest := token_digest plaintext in
         Ok (plaintext, digest)) with
  | Err e => (db, Err e)
  | Ok (plaintext, digest) =>
      match create_link db (temp_link_new (d_id d) (d_now d) sid digest expires_at) with
      | (db', Ok _) => (db', Ok (d_id d, plaintext, expires_at))
      | (db', Err e) => (db', Err (map_subscription_error e))
      end
  end.

(** [revoke_temp_link] *)
Definition revoke_temp_link (db : Db) (sid : SubscriptionId) (id : N) : Db * Result SubscriptionAppError () :=
  match revoke_for_subscription db sid id with
  | (db', r) => (db', map_err map_subscription_error r)
  end.

(** ** Histories *)

(** A committed command; [PutUser] stands for any edit of an account and
    [PutTemplate] for the creation of a template. *)
Inductive Command :=
  | Create (d : Draw) (p : CreateSubscriptionParams)
  | Update (now : Z) (p : UpdateSubscriptionParams)
  | Delete (id : SubscriptionId)
  | Rotate (d : Draw) (sid : SubscriptionId) (grace : option Z)
  | Regenerate (sid : SubscriptionId) (draws : nat → Draw)
  | CreateLink (d : Draw) (sid : SubscriptionId) (expires_at : Z)
  | RevokeLink (sid : SubscriptionId) (id : N)
  | Sweep (now : Z)
  | Prune (now : Z)
  | PutUser (u : User)
  | PutTemplate (t : TemplateId).

Definition exec (db : Db) (c : Command) : Db :=
  match c with
  | Create d p => (create_subscription db d p).1
  | Update now p => (update_subscription db now p).1
  | Delete id => (delete_subscription db id).1
  | Rotate d sid grace => (rotate_token db d sid grace).1
  | Regenerate sid draws => (regenerate_short_code db sid draws).1
  | CreateLink d sid expires => (create_temp_link db d sid expires).1
  | RevokeLink sid id => (revoke_temp_link db sid id).1
  | Sweep now => (clear_expired_grace_tokens db now).1
  | Prune now => prune db now
  | PutUser u => mkDb (<[u_id u := u]> (users db)) (templates db) (subs db) (tokens db) (codes db) (links db)
  | PutTemplate t => mkDb (users db) ({[t]} ∪ templates db) (subs db) (tokens db) (codes db) (links db)
  end.

Definition run (db : Db) (cs : list Command) : Db := foldl exec db cs.

Definition empty_db : Db := mkDb ∅ ∅ [] [] [] [].

(** ** The commands in terms of the transactions they commit *)

Lemma short_code_loop_cases db sid n draws :
  (short_code_loop db sid n draws).1 = db ∨
  ∃ i db' d code, short_code_loop db sid n draws = (db', Ok (d_id d, code)) ∧ d = draws i ∧
    d_token d = Ok code ∧ replace db (mkShortCode (d_id d) sid code (d_now d)) = (db', Ok ()).
Proof.
  revert draws. induction n as [|n IH]; intros draws; simpl; [by left|].
  unfold drawn_token. destruct (d_token (draws 0)) as [code|] eqn:Hd; simpl; [|by left].
  destruct (replace _ _) as [db' [[]|e]] eqn:Hr.
  - right. exists 0, db', (draws 0), code. done.
  - apply replace_Err in Hr as ->. destruct e; try (by left).
    destruct (IH (λ i, draws (S i))) as [?|(i & db' & d & c & ? & ? & ? & ?)]; [by left|].
    right. exists (S i), db', d, c. done.
Qed.

(** What a command does to the database: nothing, or one transaction. *)
Inductive committed (db : Db) : Command → Db → Prop :=
  | com_none c : committed db c db
  | com_create d p s plaintext digest db' :
      d_token d = Ok plaintext → token_digest plaintext = Ok digest →
      is_Some (from_kebab (sub_profile s)) →
      (∀ v, sub_traffic_limit s = Some v → 0 < v ∧ v ≤ i64_max)%N → sub_template_version_pin s = None →
      sub_token_id s = d_id2 d → sub_owner_id s = cp_owner_id p →
      create_with_token selector_to_json db s (mkToken (d_id2 d) (sub_id s) digest None None (d_issued d)) = (db', Ok ()) →
      committed db (Create d p) db'
  | com_update now p s db' :
      sub_id s = up_id p → is_Some (from_kebab (sub_profile s)) →
      (∀ v, sub_traffic_limit s = Some v → 0 < v ∧ v ≤ i64_max)%N →
      update selector_to_json db s = (db', Ok ()) →
      committed db (Update now p) db'
  | com_delete id db' : delete db id = (db', Ok ()) → committed db (Delete id) db'
  | com_rotate d sid grace plaintext digest db' t :
      d_token d = Ok plaintext → token_digest plaintext = Ok digest →
      rotate db sid (mkToken (d_id d) sid digest None ((λ g, d_now d + g)%Z <$> grace) (d_now d))
        ((λ g, d_now d + g)%Z <$> grace) = (db', Ok t) →
      committed db (Rotate d sid grace) db'
  | com_regenerate sid draws i code db' :
      d_token (draws i) = Ok code →
      replace db (mkShortCode (d_id (draws i)) sid code (d_now (draws i))) = (db', Ok ()) →
      committed db (Regenerate sid draws) db'
  | com_link d sid expires plaintext digest db' :
      d_token d = Ok plaintext → token_digest plaintext = Ok digest →
      create_link db (temp_link_new (d_id d) (d_now d) sid digest expires) = (db', Ok ()) →
      committed db (CreateLink d sid expires) db'
  | com_revoke sid id db' :
      revoke_for_subscription db sid id = (db', Ok ()) → committed db (RevokeLink sid id) db'
  | com_sweep now n db' :
      clear_expired_grace_tokens db now = (db', Ok n) → committed db (Sweep now) db'
  | com_prune now : committed db (Prune now) (prune db now)
  | com_user u : committed db (PutUser u)
      (mkDb (<[u_id u := u]> (users db)) (templates db) (subs db) (tokens db) (codes db) (links db))
  | com_template t : committed db (PutTemplate t)
      (mkDb (users db) ({[t]} ∪ templates db) (subs db) (tokens db) (codes db) (links db)).

Lemma validate_traffic_limit_Ok limit :
  validate_traffic_limit limit = Ok () → ∀ v, limit = Some v → (0 < v ∧ v ≤ i64_max)%N.
Proof.
  intros H v ->. simpl in H. destruct (N.eqb_spec v 0); [done|].
  destruct (N.ltb_spec i64_max v); [done|]. lia.
Qed.

Lemma map_err_Ok {E F A} (f : E → F) (c : Result E A) a : map_err f c = Ok a ↔ c = Ok a.
Proof. destruct c; naive_solver. Qed.

Ltac invert_binds H :=
  repeat match type of H with
  | result_bind _ _ = Ok _ => rewrite result_bind_Ok in H; destruct H as (? & ? & H)
  end;
  unfold drawn_token, validate_profile in *;
  repeat match goal with
  | H' : map_err _ _ = Ok _ |- _ => rewrite map_err_Ok in H'
  | H' : ok_or _ _ = Ok _ |- _ => rewrite ok_or_Ok in H'
  | x : () |- _ => destruct x
  end.

Lemma exec_committed db c : committed db c (exec db c).
Proof.
  destruct c as [d p|now p|id|d sid grace|sid draws|d sid expires|sid id|now|now|u|t]; simpl; [..|constructor|constructor|constructor].
  - unfold create_subscription. case_goal; [|apply com_none]. destruct a as [[s tk] plaintext].
    rename Heqr into H. invert_binds H. simplify_eq.
    destruct (create_with_token _ _ _ _) as [db' [[]|e]] eqn:Hc; simpl;
      [|apply create_with_token_Err in Hc as ->; apply com_none].
    eapply com_create; [done|done|..|exact Hc]; [by eexists|by apply validate_traffic_limit_Ok|done..].
  - unfold update_subscription. case_goal; [|apply com_none]. rename Heqr into H. invert_binds H.
    injection H as <-.
    destruct (update _ _ _) as [db' [[]|e]] eqn:Hc; simpl; [|apply update_Err in Hc as ->; apply com_none].
    simplify_eq. eapply com_update; [..|exact Hc]; [|by eexists|by apply validate_traffic_limit_Ok].
    simpl. match goal with H : find_by_id _ _ _ = Ok (Some _) |- _ => rename H into Hf end.
    unfold find_by_id in Hf. case_hyp Hf; [|done]. apply find_Some_elem in Heqo as [_ <-%N.eqb_eq].
    invert_binds Hf. injection Hf as ->.
    match goal with H : to_domain _ _ = Ok _ |- _ => unfold to_domain in H; invert_binds H end.
    by simplify_eq/=.
  - unfold delete_subscription. destruct (delete db id) as [db' [[]|e]] eqn:Hc; simpl.
    + by constructor.
    + apply delete_Err in Hc as ->. apply com_none.
  - unfold rotate_token. case_goal; [|apply com_none]. destruct a as [plaintext digest].
    rename Heqr into H. invert_binds H. simplify_eq.
    destruct (rotate _ _ _ _) as [db' [t|e]] eqn:Hc; simpl; [|apply rotate_Err in Hc as ->; apply com_none].
    by eapply com_rotate.
  - unfold regenerate_short_code. case_goal; [|apply com_none].
    destruct (short_code_loop_cases db sid SHORT_CODE_MAX_RETRIES draws)
      as [->|(i & db' & d & code & -> & -> & ? & ?)]; [apply com_none|]. by eapply com_regenerate.
  - unfold create_temp_link. case_goal; [|apply com_none]. destruct a as [plaintext digest].
    rename Heqr into H. invert_binds H. simplify_eq.
    destruct (create_link _ _) as [db' [[]|e]] eqn:Hc; simpl; [|apply create_link_Err in Hc as ->; apply com_none].
    by eapply com_link.
  - unfold revoke_temp_link. destruct (revoke_for_subscription db sid id) as [db' [[]|e]] eqn:Hc; simpl.
    + by constructor.
    + apply revoke_Err in Hc as ->. apply com_none.
  - destruct (clear_expired_grace_tokens db now) as [db' [n|e]] eqn:Hc; simpl.
    + by eapply com_sweep.
    + apply sweep_Err in Hc as ->. apply com_none.
Qed.

(** ** Invariants of every history *)

Lemma committed_ok db c db' : committed db c db' → store_ok db → store_ok db'.
Proof.
  destruct 1; [done|..]; intros Hok.
  - eapply create_with_token_ok; [..|done|done]; done.
  - by eapply update_ok.
  - by eapply delete_ok.
  - by eapply rotate_ok.
  - by eapply replace_ok.
  - by eapply create_link_ok.
  - by eapply revoke_ok.
  - by eapply sweep_ok.
  - by apply prune_ok.
  - apply store_ok_grow; [|done|done]. intros i Hi. destruct (decide (u_id u = i)) as [->|?].
    + rewrite lookup_insert_eq. eauto.
    + by rewrite lookup_insert_ne.
  - apply store_ok_grow; [done|set_solver|done].
Qed.

(** What a stored subscription may contain. *)
Definition row_valid (r : SubscriptionRow) : Prop :=
  is_Some (from_kebab (sr_profile r)) ∧
  (∀ z, sr_traffic_limit r = Some z → 0 < z ≤ Z.of_N i64_max)%Z ∧
  (∀ z, sr_template_version_pin r = Some z → 0 ≤ z)%Z ∧
  ∃ sel, selector_to_json sel = Ok (sr_node_selection r).

Lemma stored_integer_Ok v f z : stored_integer v f = Ok z → z = Z.of_N <$> v.
Proof. unfold stored_integer. repeat case_goal; naive_solver. Qed.

Lemma limit_valid (v : option N) :
  (∀ n, v = Some n → 0 < n ∧ n ≤ i64_max)%N → (∀ z, Z.of_N <$> v = Some z → 0 < z ≤ Z.of_N i64_max)%Z.
Proof. intros Hv z. destruct v as [n|]; simpl; [|done]. intros [= <-]. specialize (Hv n eq_refl). unfold i64_max in *. lia. Qed.

Lemma committed_valid db c db' :
  committed db c db' → (∀ r, r ∈ subs db → row_valid r) → ∀ r, r ∈ subs db' → row_valid r.
Proof.
  destruct 1 as [c|d p s pt dg db' ? ? Hpr Hlim Hpin ? ? Hc|now p s db' ? Hpr Hlim Hu|id db' Hd|d sid g pt dg db' t ? ? Hr
    |sid draws i code db' ? Hr|d sid e pt dg db' ? ? Hl|sid id db' Hr|now n db' Hs|now|u|t]; intros Hv; try done.
  - apply create_with_token_Ok in Hc as (r & t' & Hb & -> & _).
    apply bind_rows_Ok in Hb as (_ & _ & _ & Hp & _ & _ & Htl & Hvp & Hsel & _).
    intros r' [Hr|Hr%list_elem_of_singleton]%elem_of_app; subst; [auto|].
    rewrite <-Hp in Hpr. split; [done|]. split; [|split; [|by eexists]].
    + rewrite Htl. by apply limit_valid.
    + rewrite Hvp, Hpin. done.
  - apply update_Ok in Hu as (row & pin & sel & limit & ex & upd & _ & _ & Hp & Hsel & Hl & -> & _).
    intros r' (r & Hr & [[_ ->]|[_ ->]])%elem_of_update_where; [|auto].
    apply stored_integer_Ok in Hp as ->, Hl as ->.
    split; [done|]. split; [by apply limit_valid|]. split; [|by eexists].
    intros z. simpl. destruct (sub_template_version_pin s); simpl; [|done]. intros [= <-]. lia.
  - unfold delete in Hd. case_hyp Hd; [|done]. injection Hd as <-.
    intros r [_ Hr]%list_elem_of_filter. auto.
  - unfold rotate in Hr. repeat (case_hyp Hr; try done). by injection Hr as <-.
  - apply replace_Ok in Hr as (created & _ & _ & ->).
    intros r' (r & Hr & [[_ ->]|[_ ->]])%elem_of_update_where; [|auto]. apply (Hv r Hr).
  - by apply create_link_Ok in Hl as (? & ? & _ & _ & _ & ->).
  - unfold revoke_for_subscription in Hr. case_hyp Hr; [|done]. by injection Hr as <-.
  - by apply sweep_Ok in Hs as (? & _ & ->).
Qed.

(** A stored row the commands wrote can always be read back. *)
Lemma row_valid_decodes r :
  (∀ s t, selector_to_json s = Ok t → selector_from_json t = Ok s) → row_valid r →
  ∃ s, to_domain selector_from_json r = Ok s ∧ sub_id s = sr_id r ∧
    is_Some (from_kebab (sub_profile s)) ∧ (∀ v, sub_traffic_limit s = Some v → 0 < v)%N.
Proof.
  intros Hcodec (Hp & Hl & Hpin & sel & Hsel). unfold to_domain. rewrite (Hcodec _ _ Hsel). simpl.
  destruct (sr_template_version_pin r) as [z|] eqn:Hz; simpl.
  - rewrite (proj2 (Z.leb_le 0 z)) by auto. simpl.
    destruct (sr_traffic_limit r) as [y|] eqn:Hy; simpl; [|eexists; split; [done|naive_solver]].
    specialize (Hl y eq_refl). rewrite (proj2 (Z.leb_le 0 y)) by lia. simpl. eexists. split; [done|].
    split_and!; [done|done|]. intros v [= <-]. lia.
  - destruct (sr_traffic_limit r) as [y|] eqn:Hy; simpl; [|eexists; split; [done|naive_solver]].
    specialize (Hl y eq_refl). rewrite (proj2 (Z.leb_le 0 y)) by lia. simpl. eexists. split; [done|].
    split_and!; [done|done|]. intros v [= <-]. lia.
Qed.

(** C30: whatever commands are executed, in whatever order and with whatever
    random draws, the tables stay consistent: unique digests, codes and slugs,
    one token and at most one short code per subscription, [token_id] and
    [short_code_id] always refer to that subscription's own rows, no credential
    outlives its subscription; and every stored subscription can be read back,
    with a known profile and a traffic limit that is not the ambiguous zero. *)
Theorem store_invariant cs :
  (∀ s t, selector_to_json s = Ok t → selector_from_json t = Ok s) →
  let db := run empty_db cs in
  store_ok db ∧
  ∀ r, r ∈ subs db → ∃ s, find_by_id selector_from_json db (sr_id r) = Ok (Some s) ∧ sub_id s = sr_id r ∧
    is_Some (from_kebab (sub_profile s)) ∧ (∀ v, sub_traffic_limit s = Some v → 0 < v)%N.
Proof.
  intros Hcodec db.
  assert (store_ok db ∧ ∀ r, r ∈ subs db → row_valid r) as [Hok Hv].
  { apply (foldl_preserve (λ db, store_ok db ∧ ∀ r, r ∈ subs db → row_valid r)).
    - intros db0 c [Hok Hv]. pose proof (exec_committed db0 c) as Hc.
      split; [by eapply committed_ok|by eapply committed_valid].
    - split; [apply store_ok_empty|set_solver]. }
  split; [done|]. intros r Hr. destruct (row_valid_decodes r Hcodec (Hv r Hr)) as (s & Hs & Hrest).
  exists s. split; [|done]. unfold find_by_id. rewrite (find_unique _ _ r); [by rewrite Hs|done|by apply N.eqb_eq|].
  intros y Hy He%N.eqb_eq. eapply NoDup_fmap_elem; [apply ok_sub_ids|..]; eauto.
Qed.

End commands.

(** ** A concrete instance *)

Definition demo_selector : NodeSelector := mkNodeSelector Dynamic [] [] 0.

(** A codec of the empty dynamic selector, and a transparent digest. *)
#[export] Instance demo_command_externals : CommandExternals := {
  selector_to_json s :=
    match s with
    | mkNodeSelector Dynamic [] [] 0 => Ok "{}"
    | _ => Err "unsupported"
    end;
  selector_from_json t := if String.eqb t "{}" then Ok demo_selector else Err "unsupported";
  selector_from_value _ := Ok demo_selector;
  parse_rfc3339 _ := Err "unsupported";
  hmac_digest purpose plaintext := Ok (purpose +:+ ":" +:+ plaintext)
}.

Lemma demo_codec s t : selector_to_json s = Ok t → selector_from_json t = Ok s.
Proof. destruct s as [[] [] [] []]; simpl; naive_solver. Qed.

Definition demo_user : User := mkUser 1 "alice" "hash" RegularUser true None 0 false None 0.

Definition demo_draw (token : string) (id id2 : N) (now : Z) : Draw := mkDraw (Ok token) id id2 now now.

(** A user creates a subscription, rotates its token with an hour of grace,
    draws a short code and a temporary link, and the grace sweep runs. *)
Definition demo_create : Command :=
  Create (demo_draw "first" 10 20 0) (mkCreateParams "name" "slug" 1 1 "mihomo" JNull (Some 5%N) None).
Definition demo_hour : Z := 3600 * ns_per_s.
Definition demo_rotate : Command := Rotate (demo_draw "second" 21 0 0) 10 (Some demo_hour).

Definition demo_history : list Command :=
  [PutUser demo_user; PutTemplate 1; demo_create; demo_rotate;
   Regenerate 10 (λ _, demo_draw "code" 30 0 0);
   CreateLink (demo_draw "link" 40 0 0) 10 demo_hour; Sweep 60; Prune 60].

Lemma store_invariant_witness :
  length (subs (run empty_db demo_history)) = 1 ∧ store_ok (run empty_db demo_history).
Proof.
  split; [by vm_compute|]. apply (store_invariant demo_history). apply demo_codec.
Defined.

End SubCommands.
