(* ===== verification/Traffic.v ===== *)
(** * Traffic accounting
      ([crates/deve-sub-domain/src/subscription/traffic.rs],
      [crates/deve-sub-storage-sqlite/src/traffic_repository.rs], the
      discriminants of [discriminant.rs], the raw-history policy of
      [retention.rs] and the triggers of migration 0024)

    Deltas are appended to a raw table; triggers reject negative ones and add
    them to lifetime, probe and daily projections in the same statement, which
    is aborted when a projection would leave the 64-bit range.  The JSON
    breakdown of the daily projection, which cannot fail, is left out. *)

From S2P Require Import Prelude Kernel CacheRepo Subscription.

(** ** Data *)

Inductive TrafficSourceKind := AirportHeader | ManualCorrection | Probe.

#[export] Instance TrafficSourceKind_eq_dec : EqDecision TrafficSourceKind.
Proof. solve_decision. Defined.

Definition traffic_as_kebab (k : TrafficSourceKind) : string :=
  match k with
  | AirportHeader => "airport-header" | ManualCorrection => "manual-correction" | Probe => "probe"
  end.

(** [SqliteDiscriminant for TrafficSourceKind] *)
Definition encode (k : TrafficSourceKind) : string :=
  match k with AirportHeader => "A" | ManualCorrection => "M" | Probe => "P" end.

Definition decode (c : string) : option TrafficSourceKind :=
  if String.eqb c "A" then Some AirportHeader
  else if String.eqb c "M" then Some ManualCorrection
  else if String.eqb c "P" then Some Probe
  else None.

Record TrafficRecord := mkTrafficRecord {
  tr_id : N;
  tr_subscription_id : SubscriptionId;
  tr_source_kind : TrafficSourceKind;
  tr_upload : N;
  tr_download : N;
  tr_recorded_at : Z;
  tr_source_ref : string
}.

Record TrafficSummary := mkTrafficSummary {
  ts_upload : N;
  ts_download : N;
  ts_by_source : list (TrafficSourceKind * N * N)
}.

(** [TrafficSummary::total] *)
Definition total (s : TrafficSummary) : N := saturating_add_u64 (ts_upload s) (ts_download s).

Module TrafficRepo.
Local Open Scope Z_scope.

Record RawRow := mkRawRow {
  rr_id : N;
  rr_subscription_id : SubscriptionId;
  rr_source_kind : string;
  rr_upload : Z;
  rr_download : Z;
  rr_recorded_at : Z;
  rr_source_ref : string
}.

Record Db := mkDb {
  raw : list RawRow;
  totals : gmap (SubscriptionId * string) (Z * Z);
  probe_totals : gmap (SubscriptionId * string) (Z * Z);
  daily : gmap (SubscriptionId * Z) (Z * Z)
}.

(** [INSERT ... ON CONFLICT DO UPDATE SET upload = upload + excluded.upload]
    under the [CHECK]s: an overflowing sum is no integer any more. *)
Definition add_delta {K} `{Countable K} (m : gmap K (Z * Z)) (k : K) (u d : Z) : option (gmap K (Z * Z)) :=
  let '(u0, d0) := default (0, 0) (m !! k) in
  if (u0 + u <=? Z.of_N i64_max) && (d0 + d <=? Z.of_N i64_max)
  then Some (<[k := (u0 + u, d0 + d)]> m) else None.

(** [substr(source_ref, 1, instr(source_ref, ':') - 1)], the whole text when
    there is no colon. *)
Fixpoint prefix_of (s : string) : string :=
  match s with
  | String.EmptyString => ""
  | String.String c s => if Ascii.eqb c (Ascii.ascii_of_nat 58) then "" else String.String c (prefix_of s)
  end.

Definition ns_per_day : Z := 86400 * ns_per_s.

(** The [traffic_project_delta] trigger. *)
Definition project_delta (db : Db) (r : RawRow) : option Db :=
  totals' ← add_delta (totals db) (rr_subscription_id r, rr_source_kind r) (rr_upload r) (rr_download r);
  probe' ← (if String.eqb (rr_source_kind r) "P"
            then add_delta (probe_totals db) (rr_subscription_id r, prefix_of (rr_source_ref r))
                   (rr_upload r) (rr_download r)
            else Some (probe_totals db));
  daily' ← add_delta (daily db) (rr_subscription_id r, rr_recorded_at r / ns_per_day)
             (rr_upload r) (rr_download r);
  Some (mkDb (raw db ++ [r]) totals' probe' daily').

(** [create]; [known] tells the stored subscriptions. *)
Definition create (known : SubscriptionId → bool) (db : Db) (rec : TrafficRecord) :
    Db * Result SubscriptionError () :=
  match map_err SE_Storage (format_ts (tr_recorded_at rec)) with
  | Err e => (db, Err e)
  | Ok at_ =>
      let r := mkRawRow (tr_id rec) (tr_subscription_id rec) (encode (tr_source_kind rec))
                 (CacheRepo.as_i64 (tr_upload rec)) (CacheRepo.as_i64 (tr_download rec)) at_
                 (tr_source_ref rec) in
      if (rr_upload r <? 0) || (rr_download r <? 0)
      then (db, Err (SE_Storage "traffic delta must be a non-negative integer"))
      else if existsb (λ x, N.eqb (rr_id x) (rr_id r)) (raw db)
      then (db, Err (SE_Storage "UNIQUE constraint failed: subscription_traffic.id"))
      else if negb (known (rr_subscription_id r))
      then (db, Err (SE_Storage "FOREIGN KEY constraint failed"))
      else match project_delta db r with
           | Some db' => (db', Ok ())
           | None => (db, Err (SE_Storage "traffic integer overflow"))
           end
  end.

(** [delete_for_subscription]; deleting the subscription cascades to the same
    rows. *)
Definition delete_for_subscription (db : Db) (sid : SubscriptionId) : Db :=
  mkDb (filter (λ r, rr_subscription_id r ≠ sid) (raw db))
    (filter (λ e, e.1.1 ≠ sid) (totals db)) (filter (λ e, e.1.1 ≠ sid) (probe_totals db))
    (filter (λ e, e.1.1 ≠ sid) (daily db)).

(** The raw-history statements of [prune]: old rows go in batches, in any
    order the planner chooses; [gone] says which. *)
Definition prune_raw (db : Db) (gone : RawRow → bool) (gone_day : SubscriptionId * Z → bool) : Db :=
  mkDb (filter (λ r, gone r = false) (raw db)) (totals db) (probe_totals db)
    (filter (λ e, gone_day e.1 = false) (daily db)).

(** The three kinds the [CHECK] allows, in the order of their text. *)
Definition KINDS : list string := ["A"; "M"; "P"].

Record AggregateRow := mkAggregateRow { ar_kind : string; ar_upload : Z; ar_download : Z }.

(** [build_summary] *)
Fixpoint build_summary (rows : list AggregateRow) (upload download : N)
    (by_source : list (TrafficSourceKind * N * N)) : Result SubscriptionError TrafficSummary :=
  match rows with
  | [] => Ok (mkTrafficSummary upload download by_source)
  | row :: rows =>
      let? kind := ok_or (decode (ar_kind row)) (SE_Storage ("unknown source_kind '" +:+ ar_kind row +:+ "'")) in
      let u := Z.to_N (Z.max (ar_upload row) 0) in
      let d := Z.to_N (Z.max (ar_download row) 0) in
      build_summary rows (saturating_add_u64 upload u) (saturating_add_u64 download d)
        (by_source ++ [(kind, u, d)])
  end.

(** [get_summary] *)
Definition get_summary (db : Db) (sid : SubscriptionId) : Result SubscriptionError TrafficSummary :=
  build_summary (omap (λ k, (λ v, mkAggregateRow k v.1 v.2) <$> totals db !! (sid, k)) KINDS) 0 0 [].

(** [SUM] fails on integer overflow. *)
Definition sum_columns (rows : list (Z * Z)) : option (Z * Z) :=
  let u := foldr (λ v acc, v.1 + acc) 0 rows in
  let d := foldr (λ v acc, v.2 + acc) 0 rows in
  if (u <=? Z.of_N i64_max) && (d <=? Z.of_N i64_max) then Some (u, d) else None.

(** One group of the joined query: the user's subscriptions' rows of a kind. *)
Definition user_rows (db : Db) (owned : list SubscriptionId) (k : string) : list (Z * Z) :=
  omap (λ sid, totals db !! (sid, k)) owned.

Fixpoint group_by_kind (db : Db) (owned : list SubscriptionId) (ks : list string) :
    Result SubscriptionError (list AggregateRow) :=
  match ks with
  | [] => Ok []
  | k :: ks =>
      let? here := match user_rows db owned k with
                   | [] => Ok []
                   | rows => let? v := ok_or (sum_columns rows) (SE_Storage "integer overflow") in
                             Ok [mkAggregateRow k v.1 v.2]
                   end in
      let? rest := group_by_kind db owned ks in
      Ok (here ++ rest)
  end.

(** [get_summary_for_user]; [owned] lists the user's subscriptions. *)
Definition get_summary_for_user (db : Db) (owned : list SubscriptionId) :
    Result SubscriptionError TrafficSummary :=
  let? rows := group_by_kind db owned KINDS in
  build_summary rows 0 0 [].

(** ** The log the projections summarise *)

(** Operations on the ledger; [PruneRaw] is the bounded history cleanup. *)
Inductive Op :=
  | Observe (rec : TrafficRecord)
  | ResetTotals (sid : SubscriptionId)
  | PruneRaw (gone : RawRow → bool) (gone_day : SubscriptionId * Z → bool).

(** The specification keeps the accepted observations of each subscription
    since its last reset. *)
Definition step (known : SubscriptionId → bool) (st : Db * list TrafficRecord) (op : Op) :
    Db * list TrafficRecord :=
  let '(db, log) := st in
  match op with
  | Observe rec =>
      match create known db rec with
      | (db', Ok _) => (db', log ++ [rec])
      | (db', Err _) => (db', log)
      end
  | ResetTotals sid => (delete_for_subscription db sid, filter (λ r, tr_subscription_id r ≠ sid) log)
  | PruneRaw gone gone_day => (prune_raw db gone gone_day, log)
  end.

Definition empty_db : Db := mkDb [] ∅ ∅ ∅.

(** The counters of an observation are [u64]. *)
Definition op_wf (op : Op) : Prop :=
  match op with
  | Observe rec => (tr_upload rec ≤ u64_max ∧ tr_download rec ≤ u64_max)%N
  | _ => True
  end.

(** Bytes the log attributes to a subscription and a kind. *)
Definition spent (f : TrafficRecord → N) (sid : SubscriptionId) (k : TrafficSourceKind)
    (log : list TrafficRecord) : N :=
  foldr (λ r acc, if bool_decide (tr_subscription_id r = sid ∧ tr_source_kind r = k)
                  then (f r + acc)%N else acc) 0%N log.

Definition spent_all (f : TrafficRecord → N) (sid : SubscriptionId) (log : list TrafficRecord) : N :=
  foldr (λ r acc, if bool_decide (tr_subscription_id r = sid) then (f r + acc)%N else acc) 0%N log.

Lemma spent_app f sid k l1 l2 : (spent f sid k (l1 ++ l2) = spent f sid k l1 + spent f sid k l2)%N.
Proof. induction l1 as [|r l1 IH]; simpl; [done|]. rewrite IH. case_goal; lia. Qed.

Lemma spent_cons f sid k r log :
  spent f sid k (r :: log) =
    if bool_decide (tr_subscription_id r = sid ∧ tr_source_kind r = k)
    then (f r + spent f sid k log)%N else spent f sid k log.
Proof. done. Qed.

Lemma spent_filter f sid k sid' log :
  spent f sid k (filter (λ r, tr_subscription_id r ≠ sid') log) = if bool_decide (sid = sid') then 0%N else spent f sid k log.
Proof.
  induction log as [|r log IH]; [by case_bool_decide|]. rewrite filter_cons, spent_cons.
  destruct (decide (tr_subscription_id r ≠ sid')) as [Hd|Hd]; rewrite ?spent_cons, IH;
    repeat case_bool_decide; naive_solver.
Qed.

Lemma spent_all_kinds f sid log :
  (spent_all f sid log = spent f sid AirportHeader log + spent f sid ManualCorrection log + spent f sid Probe log)%N.
Proof.
  induction log as [|r log IH]; [done|]. rewrite !spent_cons.
  change (spent_all f sid (r :: log)) with
    (if bool_decide (tr_subscription_id r = sid) then (f r + spent_all f sid log)%N else spent_all f sid log).
  rewrite IH. destruct (tr_source_kind r); repeat case_bool_decide; naive_solver lia.
Qed.

Definition total_of (db : Db) (sid : SubscriptionId) (k : TrafficSourceKind) : Z * Z :=
  default (0, 0) (totals db !! (sid, encode k)).

(** The refinement relation between the tables and the log. *)
Definition ledger (db : Db) (log : list TrafficRecord) : Prop :=
  ∀ sid k, total_of db sid k = (Z.of_N (spent tr_upload sid k log), Z.of_N (spent tr_download sid k log)).

Lemma encode_inj k k' : encode k = encode k' → k = k'.
Proof. by destruct k, k'. Qed.

Lemma as_i64_nonneg n : (n ≤ u64_max)%N → (CacheRepo.as_i64 n <? 0) = false → CacheRepo.as_i64 n = Z.of_N n.
Proof.
  unfold CacheRepo.as_i64, u64_max. intros Hn. rewrite Z.mod_small by lia.
  destruct (Z.ltb_spec (Z.of_N n) (2 ^ 63)); [done|]. intros H1%Z.ltb_ge. lia.
Qed.

Lemma add_delta_Some {K} `{Countable K} (m m' : gmap K (Z * Z)) k u d :
  add_delta m k u d = Some m' →
  m' = <[k := ((default (0, 0) (m !! k)).1 + u, (default (0, 0) (m !! k)).2 + d)]> m.
Proof. unfold add_delta. destruct (default _ _) as [u0 d0]. simpl. case_goal; naive_solver. Qed.

Lemma project_delta_totals db r db' :
  project_delta db r = Some db' →
  add_delta (totals db) (rr_subscription_id r, rr_source_kind r) (rr_upload r) (rr_download r) = Some (totals db').
Proof.
  unfold project_delta. destruct (add_delta (totals db) _ _ _) as [t|]; simpl; [|done].
  intros (p & _ & H)%bind_Some. apply bind_Some in H as (d & _ & [= <-]). done.
Qed.

Lemma create_Ok known db rec db' :
  op_wf (Observe rec) → create known db rec = (db', Ok ()) →
  ∀ sid k, total_of db' sid k =
    if bool_decide (tr_subscription_id rec = sid ∧ tr_source_kind rec = k)
    then ((total_of db sid k).1 + Z.of_N (tr_upload rec), (total_of db sid k).2 + Z.of_N (tr_download rec))
    else total_of db sid k.
Proof.
  intros [Hu Hd]. unfold create. destruct (format_ts _) as [at_|]; simpl; [|done].
  destruct (_ || _) eqn:Hneg; [done|]. repeat (case_goal; [done|]). case_goal; [|done].
  intros [= ->] sid k. apply orb_false_iff in Hneg as [H1 H2].
  match goal with H : project_delta _ _ = Some _ |- _ => apply project_delta_totals in H as Hp end. simpl in Hp.
  rewrite (as_i64_nonneg _ Hu H1), (as_i64_nonneg _ Hd H2) in Hp.
  apply add_delta_Some in Hp. unfold total_of. rewrite Hp. case_bool_decide as Hc.
  - destruct Hc as [<- <-]. by rewrite lookup_insert_eq.
  - rewrite lookup_insert_ne; [done|]. intros [= ? ?%encode_inj]. naive_solver.
Qed.

Lemma create_Err known db rec db' e : create known db rec = (db', Err e) → db' = db.
Proof. unfold create. repeat case_goal; naive_solver. Qed.

Lemma step_ledger known db log op :
  op_wf op → ledger db log → let st := step known (db, log) op in ledger st.1 st.2.
Proof.
  intros Hwf Hl. destruct op as [rec|sid'|gone gone_day]; simpl; [|intros sid k|done].
  - destruct (create known db rec) as [db' [[]|e]] eqn:Hc; simpl.
    + intros sid k. rewrite (create_Ok _ _ _ _ Hwf Hc), (Hl sid k), !spent_app. simpl.
      case_bool_decide; f_equal; simpl; lia.
    + by apply create_Err in Hc as ->.
  - unfold total_of. simpl. rewrite !spent_filter. case_bool_decide as Hs.
    + rewrite map_lookup_filter_None_2; [done|]. right. intros ? _. simpl. naive_solver.
    + specialize (Hl sid k). unfold total_of in Hl. rewrite <-Hl. f_equal.
      destruct (totals db !! (sid, encode k)) as [v|] eqn:Hv.
      * apply map_lookup_filter_Some. naive_solver.
      * apply map_lookup_filter_None. by left.
Qed.

Lemma run_ledger known ops st :
  Forall op_wf ops → ledger st.1 st.2 →
  ledger (foldl (step known) st ops).1 (foldl (step known) st ops).2.
Proof.
  revert st. induction ops as [|op ops IH]; intros [db log] Hwf Hl; [done|].
  inversion Hwf as [|? ? Hop Hops]; subst. apply (IH (step known (db, log) op)); [done|].
  by apply step_ledger.
Qed.

(** *** Summaries *)

Definition row_ok (r : AggregateRow) : Prop := is_Some (decode (ar_kind r)) ∧ 0 ≤ ar_upload r ∧ 0 ≤ ar_download r.

Definition sum_rows (f : AggregateRow → Z) (rows : list AggregateRow) : N :=
  foldr (λ r acc, (Z.to_N (f r) + acc)%N) 0%N rows.

Lemma build_summary_spec rows u d by_source :
  Forall row_ok rows → (u ≤ u64_max)%N → (d ≤ u64_max)%N →
  ∃ s, build_summary rows u d by_source = Ok s ∧
    ts_upload s = N.min (u + sum_rows ar_upload rows) u64_max ∧
    ts_download s = N.min (d + sum_rows ar_download rows) u64_max.
Proof.
  intros Hr. revert u d by_source. induction Hr as [|r rows [[k Hk] [Hu Hd]] _ IH]; intros u d bs Hu' Hd'; simpl.
  - eexists. split; [done|]. simpl. lia.
  - rewrite Hk. simpl.
    edestruct (IH (saturating_add_u64 u (Z.to_N (Z.max (ar_upload r) 0)))
      (saturating_add_u64 d (Z.to_N (Z.max (ar_download r) 0)))) as (s & Hs & H1 & H2);
      [unfold saturating_add_u64; lia..|].
    exists s. split; [done|]. rewrite H1, H2. unfold saturating_add_u64. rewrite !Z.max_l by done. lia.
Qed.

Definition kinds : list TrafficSourceKind := [AirportHeader; ManualCorrection; Probe].

Lemma decode_encode k : decode (encode k) = Some k.
Proof. by destruct k. Qed.

(** The aggregate rows of a query, one per kind that has any. *)
Definition kind_rows (g : TrafficSourceKind → option (Z * Z)) (ks : list TrafficSourceKind) : list AggregateRow :=
  omap (λ k, (λ v, mkAggregateRow (encode k) v.1 v.2) <$> g k) ks.

Lemma kind_rows_summary (g : TrafficSourceKind → option (Z * Z)) (up down : TrafficSourceKind → N) :
  (∀ k, default (0, 0) (g k) = (Z.of_N (up k), Z.of_N (down k))) →
  ∃ s, build_summary (kind_rows g kinds) 0 0 [] = Ok s ∧
    ts_upload s = N.min (up AirportHeader + up ManualCorrection + up Probe) u64_max ∧
    ts_download s = N.min (down AirportHeader + down ManualCorrection + down Probe) u64_max.
Proof.
  intros Hg.
  assert (∀ ks, Forall row_ok (kind_rows g ks)) as Hok.
  { induction ks as [|k ks IH]; [constructor|]. unfold kind_rows in *. csimpl. specialize (Hg k).
    destruct (g k) as [[u d]|]; [|done]. simpl in *. simplify_eq. constructor; [|done].
    unfold row_ok. simpl. rewrite decode_encode. split; [done|lia]. }
  assert (∀ ks, sum_rows ar_upload (kind_rows g ks) = foldr (λ k acc, up k + acc)%N 0%N ks ∧
                sum_rows ar_download (kind_rows g ks) = foldr (λ k acc, down k + acc)%N 0%N ks) as Hsum.
  { induction ks as [|k ks [IH1 IH2]]; [done|]. unfold kind_rows in *. csimpl. specialize (Hg k).
    destruct (g k) as [[u d]|]; simplify_eq/=; rewrite IH1, IH2, ?N2Z.id; lia. }
  destruct (build_summary_spec (kind_rows g kinds) 0 0 [] (Hok kinds)) as (s & Hs & Hu & Hd); [done..|].
  exists s. destruct (Hsum kinds) as [H1 H2]. rewrite H1 in Hu. rewrite H2 in Hd.
  split; [done|]. rewrite Hu, Hd. simpl. lia.
Qed.

(** C37: the traffic ledger is exact. Whatever observations, resets and history
    cleanups happen, the totals a subscription is charged with are the sums of
    the observations accepted since its last reset, up to the saturation of
    [u64]; refused observations and pruned history change nothing. *)
Theorem traffic_summary_exact known ops sid :
  Forall op_wf ops →
  let st := foldl (step known) (empty_db, []) ops in
  ∃ s, get_summary st.1 sid = Ok s ∧
    ts_upload s = N.min (spent_all tr_upload sid st.2) u64_max ∧
    ts_download s = N.min (spent_all tr_download sid st.2) u64_max ∧
    total s = N.min (spent_all tr_upload sid st.2 + spent_all tr_download sid st.2) u64_max.
Proof.
  intros Hwf. pose proof (run_ledger known ops (empty_db, []) Hwf ltac:(done)) as Hl.
  destruct (foldl _ _ _) as [db log]. simpl in *.
  destruct (kind_rows_summary (λ k, totals db !! (sid, encode k)) (λ k, spent tr_upload sid k log)
    (λ k, spent tr_download sid k log)) as (s & Hs & Hu & Hd); [apply Hl|].
  exists s. rewrite !spent_all_kinds. split; [done|]. unfold total, saturating_add_u64.
  rewrite Hu, Hd. lia.
Qed.

(** Bytes of a kind over a list of subscriptions. *)
Definition spent_by (f : TrafficRecord → N) (owned : list SubscriptionId) (k : TrafficSourceKind)
    (log : list TrafficRecord) : N :=
  foldr (λ sid acc, (spent f sid k log + acc)%N) 0%N owned.

Definition spent_by_user (f : TrafficRecord → N) (owned : list SubscriptionId) (log : list TrafficRecord) : N :=
  foldr (λ sid acc, (spent_all f sid log + acc)%N) 0%N owned.

Lemma spent_by_kinds f owned log :
  (spent_by_user f owned log =
   spent_by f owned AirportHeader log + spent_by f owned ManualCorrection log + spent_by f owned Probe log)%N.
Proof.
  unfold spent_by_user, spent_by. induction owned as [|sid owned IH]; simpl; [done|].
  rewrite IH, spent_all_kinds. lia.
Qed.

Lemma user_rows_sum db log owned k :
  ledger db log →
  foldr (λ v acc, v.1 + acc) 0 (user_rows db owned (encode k)) = Z.of_N (spent_by tr_upload owned k log) ∧
  foldr (λ v acc, v.2 + acc) 0 (user_rows db owned (encode k)) = Z.of_N (spent_by tr_download owned k log).
Proof.
  intros Hl. unfold user_rows, spent_by. induction owned as [|sid owned IH]; [done|]. csimpl.
  destruct IH as [IH1 IH2]. specialize (Hl sid k). unfold total_of in Hl.
  destruct (totals db !! (sid, encode k)) as [[u d]|]; simplify_eq/=; rewrite IH1, IH2; lia.
Qed.

(** The grouped query, when no sum overflows. *)
Lemma group_by_kind_spec db log owned ks :
  ledger db log →
  (∀ k, spent_by tr_upload owned k log ≤ i64_max ∧ spent_by tr_download owned k log ≤ i64_max)%N →
  ∃ g, group_by_kind db owned (encode <$> ks) = Ok (kind_rows g ks) ∧
    ∀ k, default (0, 0) (g k) = (Z.of_N (spent_by tr_upload owned k log), Z.of_N (spent_by tr_download owned k log)).
Proof.
  intros Hl Hmax.
  exists (λ k, match user_rows db owned (encode k) with [] => None | rows => sum_columns rows end).
  assert (∀ k, sum_columns (user_rows db owned (encode k)) =
    Some (Z.of_N (spent_by tr_upload owned k log), Z.of_N (spent_by tr_download owned k log))) as Hsum.
  { intros k. unfold sum_columns. destruct (user_rows_sum db log owned k Hl) as [-> ->].
    destruct (Hmax k). rewrite !(proj2 (Z.leb_le _ _)) by lia. done. }
  split.
  - induction ks as [|k ks IH]; [done|]. rewrite fmap_cons. cbn [group_by_kind]. rewrite IH.
    unfold kind_rows. csimpl. specialize (Hsum k).
    destruct (user_rows db owned (encode k)); [done|]. by rewrite Hsum.
  - intros k. specialize (Hsum k). destruct (user_rows_sum db log owned k Hl) as [H1 H2].
    destruct (user_rows db owned (encode k)); simpl in *; [|by rewrite Hsum]. by rewrite <-H1, <-H2.
Qed.

(** a user's quota is charged with the traffic of all their subscriptions:
    as long as every per-kind sum is in the storage range, the query succeeds
    and totals every accepted observation of every subscription the user
    owns. *)
Theorem user_traffic_exact known ops owned :
  Forall op_wf ops →
  let st := foldl (step known) (empty_db, []) ops in
  (∀ k, spent_by tr_upload owned k st.2 ≤ i64_max ∧ spent_by tr_download owned k st.2 ≤ i64_max)%N →
  ∃ s, get_summary_for_user st.1 owned = Ok s ∧
    total s = N.min (spent_by_user tr_upload owned st.2 + spent_by_user tr_download owned st.2) u64_max.
Proof.
  intros Hwf st Hmax. pose proof (run_ledger known ops (empty_db, []) Hwf ltac:(done)) as Hl.
  fold st in Hl. destruct (group_by_kind_spec st.1 st.2 owned kinds Hl Hmax) as (g & Hg & Hv).
  destruct (kind_rows_summary _ _ _ Hv) as (s & Hs & Hu & Hd). exists s.
  unfold get_summary_for_user. change KINDS with (encode <$> kinds). rewrite Hg. split; [done|].
  rewrite !spent_by_kinds. unfold total, saturating_add_u64. rewrite Hu, Hd. lia.
Qed.

(** *** A concrete ledger *)

Definition demo_ops : list Op :=
  [Observe (mkTrafficRecord 1 10 AirportHeader 100 20 0 "feed");
   Observe (mkTrafficRecord 2 10 Probe 7 1 0 "node:1");
   Observe (mkTrafficRecord 3 11 ManualCorrection u64_max 0 0 "refused");
   Observe (mkTrafficRecord 4 11 ManualCorrection 5 5 0 "note");
   PruneRaw (λ _, true) (λ _, true)].

Lemma demo_ops_wf : Forall op_wf demo_ops.
Proof. repeat constructor; simpl; vm_compute; done. Qed.

Lemma traffic_summary_exact_witness :
  ∃ s, get_summary (foldl (step (λ _, true)) (empty_db, []) demo_ops).1 10 = Ok s ∧ total s = 128%N.
Proof.
  destruct (traffic_summary_exact (λ _, true) demo_ops 10 demo_ops_wf) as (s & Hs & _ & _ & Ht).
  exists s. split; [exact Hs|]. rewrite Ht. vm_compute. reflexivity.
Defined.

Lemma user_traffic_exact_witness :
  ∃ s, get_summary_for_user (foldl (step (λ _, true)) (empty_db, []) demo_ops).1 [10%N; 11%N] = Ok s ∧
    total s = 138%N.
Proof.
  destruct (user_traffic_exact (λ _, true) demo_ops [10%N; 11%N] demo_ops_wf) as (s & Hs & Ht).
  { intros []; vm_compute; split; discriminate. }
  exists s. split; [exact Hs|]. rewrite Ht. vm_compute. reflexivity.
Defined.

End TrafficRepo.
