(* ===== verification/Delivery.v ===== *)
(** * Subscription delivery
      ([crates/deve-sub-application/src/subscription/delivery.rs] and the
      public routes of [apps/server/src/delivery.rs])

    The three credentials, access enforcement, profile binding, on-demand
    generation, entity tags and the HTTP responses.  Delivery reads the stores
    of [SubCommands], [Traffic] and the template store; it writes only the
    generation cache. *)

From stdpp Require Import pretty.
From S2P Require Import Prelude Kernel Node Text NodePool Template GenTypes Compat CacheKey CacheRepo.
From S2P Require Import Selection Generation Subscription SubCommands Traffic.

(** ** Results *)

Record DeliveryResult := mkDeliveryResult {
  dr_content : string;
  dr_profile : string;
  dr_etag : string;
  dr_content_type : string;
  dr_content_disposition : string;
  dr_subscription_userinfo : string
}.

Inductive DeliveryOutcome :=
  | Content (r : DeliveryResult)
  | NotModified (etag : string).

Module Delivery.
Import SubscriptionRepo SubCommands.

(** ** Profiles *)

Fixpoint map_string (f : Ascii.ascii → Ascii.ascii) (s : string) : string :=
  match s with
  | EmptyString => ""
  | String c s => String (f c) (map_string f s)
  end.

(** [str::contains] *)
Fixpoint contains (s pat : string) : bool :=
  match Text.strip_prefix pat s with
  | Some _ => true
  | None => match s with EmptyString => false | String _ s => contains s pat end
  end.

(** [detect_profile_from_user_agent] *)
Definition detect_profile_from_user_agent (user_agent : option string) : option ProfileKind :=
  ua ← map_string Selection.to_ascii_lowercase <$> user_agent;
  if contains ua "shadowrocket" then Some Shadowrocket
  else if contains ua "clash" || contains ua "mihomo" then Some Mihomo
  else if contains ua "sing-box" || contains ua "singbox" then Some SingBox
  else if contains ua "xray" then Some Xray
  else if contains ua "v2ray" then Some V2Ray
  else None.

(** [resolve_profile] *)
Definition resolve_profile (profile user_agent : option string) (s : Subscription) :
    Result SubscriptionAppError ProfileKind :=
  match profile with
  | Some p =>
      if negb (String.eqb p (sub_profile s)) then Err (SA_UnknownProfile p)
      else ok_or (from_kebab p) (SA_UnknownProfile p)
  | None =>
      let? detected := ok_or (detect_profile_from_user_agent user_agent)
        (SA_UnknownProfile "could not auto-detect profile from User-Agent") in
      if negb (String.eqb (as_kebab detected) (sub_profile s))
      then Err (SA_UnknownProfile ("auto-detected profile '" +:+ as_kebab detected
             +:+ "' does not match subscription's bound profile '" +:+ sub_profile s +:+ "'"))
      else Ok detected
  end.

(** ** Response metadata *)

Definition quote : string := Text.bytes [34%N].

(** [str::split(',')] *)
Fixpoint split_commas (s : string) : list string :=
  match s with
  | EmptyString => [""]
  | String c s =>
      if Ascii.eqb c (Ascii.ascii_of_nat 44) then "" :: split_commas s
      else match split_commas s with
           | w :: ws => String c w :: ws
           | [] => [String c ""]
           end
  end.

(** [etag_matches] *)
Definition etag_matches (if_none_match etag : string) : bool :=
  if String.eqb if_none_match "*" then true
  else existsb (λ s, String.eqb s etag || String.eqb s ("W/" +:+ etag))
         (Text.trim <$> split_commas if_none_match).

(** [content_type_for] *)
Definition content_type_for (p : ProfileKind) : string :=
  match p with
  | Mihomo => "text/yaml; charset=utf-8"
  | SingBox | Xray | V2Ray | JsonProfile => "application/json; charset=utf-8"
  | Shadowrocket | UriList => "text/plain; charset=utf-8"
  end.

(** [content_disposition_for] *)
Definition content_disposition_for (p : ProfileKind) (slug : string) : string :=
  let ext := match p with
             | Mihomo => "yaml"
             | SingBox | Xray | V2Ray | JsonProfile => "json"
             | Shadowrocket | UriList => "txt"
             end in
  "attachment; filename=" +:+ quote +:+ slug +:+ "." +:+ ext +:+ quote.

(** The [total] field of [build_subscription_userinfo]. *)
Definition effective_limit (s : Subscription) (user_quota : N) : N :=
  let sub_limit := default 0%N (sub_traffic_limit s) in
  if N.ltb 0 sub_limit then
    if N.ltb 0 user_quota then N.min sub_limit user_quota else sub_limit
  else user_quota.

(** The [expire] field: [(ts.unix_ms() / 1000).max(0)]. *)
Definition expire_field (s : Subscription) : Z :=
  match sub_expires_at s with
  | Some ts => Z.max (Z.quot (Timestamp.unix_ms ts) 1000) 0
  | None => 0%Z
  end.

(** [build_subscription_userinfo] *)
Definition build_subscription_userinfo (s : Subscription) (t : TrafficSummary) (user_quota : N) : string :=
  "upload=" +:+ pretty (ts_upload t) +:+ "; download=" +:+ pretty (ts_download t)
  +:+ "; total=" +:+ pretty (effective_limit s user_quota)
  +:+ "; expire=" +:+ pretty (Z.to_N (expire_field s)).

(** ** Credentials *)

Section credentials.
Context {cext : CommandExternals}.

(** The two-stage lookup of [deliver_subscription]. *)
Definition resolve_digest (db : Db) (now : Z) (digest : string) :
    Result SubscriptionAppError SubscriptionToken :=
  match find_by_token_hash db digest with
  | Some t => Ok t
  | None =>
      let? prev := ok_or (find_by_previous_token_hash db digest) SA_TokenNotFound in
      if negb (is_previous_token_valid_at prev now) then Err SA_TokenNotFound else Ok prev
  end.

Definition load_subscription (db : Db) (id : SubscriptionId) : Result SubscriptionAppError Subscription :=
  let? found := map_err SA_Subscription (find_by_id selector_from_json db id) in
  ok_or found SA_SubscriptionNotFound.

(** [deliver_subscription] up to the shared pipeline. *)
Definition resolve_token (db : Db) (now : Z) (plaintext : string) :
    Result SubscriptionAppError Subscription :=
  let? digest := token_digest plaintext in
  let? token := resolve_digest db now digest in
  load_subscription db (tk_subscription_id token).

(** [deliver_by_short_code] up to the shared pipeline. *)
Definition resolve_short_code (db : Db) (code : string) : Result SubscriptionAppError Subscription :=
  let? c := ok_or (find_by_code db code) SA_ShortCodeNotFound in
  load_subscription db (sc_subscription_id c).

(** [deliver_by_temp_link] up to the shared pipeline. *)
Definition resolve_temp_link (db : Db) (now : Z) (plaintext : string) :
    Result SubscriptionAppError Subscription :=
  let? digest := token_digest plaintext in
  let? link := ok_or (find_link_by_token_hash db digest) SA_TokenNotFound in
  if negb (is_valid_at link now) then Err SA_TempLinkInvalid
  else load_subscription db (tl_subscription_id link).

End credentials.

(** ** The delivery pipeline *)

Section delivery.
Context {R : Type} {pool : NodePoolRepository R} {ext : Generation.Externals} {cext : CommandExternals}.

(** [DeliveryDeps]: the stores a request reads, and the cache it may write. *)
Record World := mkWorld {
  w_subs : Db;
  w_traffic : TrafficRepo.Db;
  w_templates : TemplateStore;
  w_pool : R;
  w_cache : CacheRepo.Db
}.

(** What a request carries, and what it draws: the instants [Timestamp::now]
    returns (at the credential check and at the access check) and the
    identifier of a new cache entry. *)
Record Request := mkDeliveryRequest {
  q_profile : option string;
  q_user_agent : option string;
  q_if_none_match : option string;
  q_now_credential : Z;
  q_now : Z;
  q_new_id : GenerationCacheId
}.

(** The subscriptions the owner join of [get_summary_for_user] selects. *)
Definition owned_subscriptions (db : Db) (owner : UserId) : list SubscriptionId :=
  sr_id <$> filter (λ r, sr_owner_id r = owner) (subs db).

(** [compute_etag] *)
Definition compute_etag (content : string) : string :=
  quote +:+ CacheKey.hex_lower (Generation.sha256 content) +:+ quote.

(** The checks of [deliver_for_subscription], in their order, with the owner
    and the subscription's traffic they read. *)
Definition check_access (w : World) (s : Subscription) (now : Z) :
    Result SubscriptionAppError (User * TrafficSummary) :=
  if negb (sub_enabled s) then Err SA_SubscriptionDisabled
  else
    let? user := ok_or (users (w_subs w) !! sub_owner_id s) SA_UserInactive in
    if negb (u_enabled user) then Err SA_UserInactive
    else if is_expired_at user now then Err SA_UserExpired
    else if is_expired s now then Err SA_SubscriptionExpired
    else
      let? sub_traffic := map_err SA_Subscription (TrafficRepo.get_summary (w_traffic w) (sub_id s)) in
      let? user_traffic := map_err SA_Subscription
        (TrafficRepo.get_summary_for_user (w_traffic w) (owned_subscriptions (w_subs w) (sub_owner_id s))) in
      if user_traffic_exceeded user (total user_traffic) then Err SA_TrafficExceeded
      else if is_traffic_exceeded s (total sub_traffic) then Err SA_TrafficExceeded
      else Ok (user, sub_traffic).

(** The request the subscription determines. *)
Definition delivery_request (s : Subscription) (p : ProfileKind) : GenerationRequest :=
  mkRequest (sub_template_id s) (as_kebab p) Lenient (Some (sub_node_selection s))
    (sub_template_version_pin s).

(** [deliver_for_subscription] *)
Definition deliver_for_subscription (w : World) (s : Subscription) (q : Request) :
    CacheRepo.Db * Result SubscriptionAppError DeliveryOutcome :=
  match (let? access := check_access w s (q_now q) in
         let? p := resolve_profile (q_profile q) (q_user_agent q) s in
         Ok (access, p)) with
  | Err e => (w_cache w, Err e)
  | Ok ((user, sub_traffic), p) =>
      match Generation.generate_for_delivery (w_templates w) (w_pool w) (w_cache w) (q_new_id q)
              (delivery_request s p) with
      | (db', Err e) => (db', Err (from_template_error e))
      | (db', Ok result) =>
          let etag := compute_etag (gr_content result) in
          let fresh := match q_if_none_match q with Some inm => etag_matches inm etag | None => false end in
          (db', Ok (if fresh then NotModified etag
                    else Content (mkDeliveryResult (gr_content result) (as_kebab p) etag (content_type_for p)
                           (content_disposition_for p (sub_slug s))
                           (build_subscription_userinfo s sub_traffic (u_traffic_quota user)))))
      end
  end.

Definition deliver_resolved (w : World) (r : Result SubscriptionAppError Subscription) (q : Request) :
    CacheRepo.Db * Result SubscriptionAppError DeliveryOutcome :=
  match r with
  | Err e => (w_cache w, Err e)
  | Ok s => deliver_for_subscription w s q
  end.

(** [deliver_subscription], [deliver_by_short_code], [deliver_by_temp_link] *)
Definition deliver_subscription (w : World) (token : string) (q : Request) :=
  deliver_resolved w (resolve_token (w_subs w) (q_now_credential q) token) q.
Definition deliver_by_short_code (w : World) (code : string) (q : Request) :=
  deliver_resolved w (resolve_short_code (w_subs w) code) q.
Definition deliver_by_temp_link (w : World) (token : string) (q : Request) :=
  deliver_resolved w (resolve_temp_link (w_subs w) (q_now_credential q) token) q.

(** ** HTTP ([apps/server/src/delivery.rs]) *)

Record Response := mkResponse {
  rs_status : N;
  rs_headers : list (string * string);
  rs_body : string
}.

(** [(status, text).into_response()] *)
Definition text_response (status : N) (body : string) : Response :=
  mkResponse status [("content-type", "text/plain; charset=utf-8")] body.

Definition CACHE_CONTROL : string := "private, no-cache".
Definition not_found : Response := text_response 404 "Not Found".
Definition forbidden : Response := text_response 403 "Forbidden".
Definition too_many_requests : Response := text_response 429 "Traffic Quota Exceeded".
Definition service_unavailable : Response := text_response 503 "Service Unavailable".
Definition internal_error : Response := text_response 500 "Internal Server Error".

(** [Response::builder]: an invalid header value fails the whole response,
    which then is an empty 500.  The validity of a value belongs to the [http]
    crate. *)
Definition build_response (header_ok : string → bool) (status : N) (headers : list (string * string))
    (body : string) : Response :=
  if forallb (λ h, header_ok h.2) headers then mkResponse status headers body else mkResponse 500 [] "".

(** [ok_response], [not_modified], [map_delivery_outcome] *)
Definition map_delivery_outcome (header_ok : string → bool) (o : DeliveryOutcome) : Response :=
  match o with
  | Content d => build_response header_ok 200
      [("cache-control", CACHE_CONTROL); ("etag", dr_etag d); ("content-type", dr_content_type d);
       ("content-disposition", dr_content_disposition d);
       ("subscription-userinfo", dr_subscription_userinfo d)] (dr_content d)
  | NotModified etag => build_response header_ok 304 [("cache-control", CACHE_CONTROL); ("etag", etag)] ""
  end.

(** [map_delivery_error] *)
Definition map_delivery_error (e : SubscriptionAppError) : Response :=
  match e with
  | SA_TokenNotFound | SA_ShortCodeNotFound | SA_TempLinkInvalid | SA_TempLinkNotFound
  | SA_SubscriptionNotFound | SA_SubscriptionDisabled | SA_UserInactive | SA_UnknownProfile _ => not_found
  | SA_UserExpired | SA_SubscriptionExpired => forbidden
  | SA_TrafficExceeded => too_many_requests
  | SA_GenerationFailed _ => service_unavailable
  | SA_NoAvailableNodes =>
      text_response 503 "No available nodes for this subscription; update its source or selection."
  | _ => internal_error
  end.

Definition respond (header_ok : string → bool) (r : Result SubscriptionAppError DeliveryOutcome) : Response :=
  match r with Ok o => map_delivery_outcome header_ok o | Err e => map_delivery_error e end.

(** [deliver_token]: the permanent token first, the temporary link only on
    [TokenNotFound]; [q_link] carries the second call's own draws. *)
Definition deliver_token (header_ok : string → bool) (w : World) (token : string) (q q_link : Request) :
    CacheRepo.Db * Response :=
  match deliver_subscription w token q with
  | (db', Err SA_TokenNotFound) =>
      let '(db'', r) := deliver_by_temp_link (mkWorld (w_subs w) (w_traffic w) (w_templates w) (w_pool w) db')
                          token q_link in
      (db'', respond header_ok r)
  | (db', r) => (db', respond header_ok r)
  end.

(** [deliver_code] *)
Definition deliver_code (header_ok : string → bool) (w : World) (code : string) (q : Request) :
    CacheRepo.Db * Response :=
  let '(db', r) := deliver_by_short_code w code q in (db', respond header_ok r).

(** ** Access control *)

(** What entitles a subscription to be served at an instant. *)
Record entitled (w : World) (s : Subscription) (now : Z) (u : User) (su : TrafficSummary) : Prop := {
  ent_enabled : sub_enabled s = true;
  ent_owner : users (w_subs w) !! sub_owner_id s = Some u;
  ent_owner_enabled : u_enabled u = true;
  ent_owner_expiry : ∀ e, u_expires_at u = Some e → (now < e)%Z;
  ent_expiry : ∀ e, sub_expires_at s = Some e → (now < e)%Z;
  ent_traffic : TrafficRepo.get_summary (w_traffic w) (sub_id s) = Ok su;
  ent_limit : ∀ limit, sub_traffic_limit s = Some limit → limit = 0%N ∨ (total su ≤ limit)%N;
  ent_quota : ∃ uu,
    TrafficRepo.get_summary_for_user (w_traffic w) (owned_subscriptions (w_subs w) (sub_owner_id s)) = Ok uu ∧
    (u_traffic_quota u = 0%N ∨ (total uu ≤ u_traffic_quota u)%N)
}.

Lemma expired_iff (e : option Z) (now : Z) :
  match e with None => false | Some e => Z.leb e now end = false ↔ ∀ x, e = Some x → (now < x)%Z.
Proof.
  destruct e as [e|]; [|naive_solver]. rewrite Z.leb_gt. naive_solver.
Qed.

Lemma over_limit_iff (limit consumed : N) :
  (0 <? limit)%N && (limit <? consumed)%N = false ↔ limit = 0%N ∨ (consumed ≤ limit)%N.
Proof. destruct (N.ltb_spec 0 limit), (N.ltb_spec limit consumed); simpl; split; try done; lia. Qed.

Lemma check_access_Ok w s now u su :
  check_access w s now = Ok (u, su) ↔ entitled w s now u su.
Proof.
  unfold check_access. split.
  - destruct (sub_enabled s) eqn:He; simpl; [|done].
    destruct (users _ !! _) as [u'|] eqn:Hu; simpl; [|done].
    destruct (u_enabled u') eqn:Hue; simpl; [|done].
    destruct (is_expired_at u' now) eqn:H1; [done|]. destruct (is_expired s now) eqn:H2; [done|].
    destruct (TrafficRepo.get_summary _ _) as [su'|] eqn:Hs; simpl; [|done].
    destruct (TrafficRepo.get_summary_for_user _ _) as [uu|] eqn:Hus; simpl; [|done].
    destruct (user_traffic_exceeded u' (total uu)) eqn:H3; [done|].
    destruct (is_traffic_exceeded s (total su')) eqn:H4; [done|]. intros [= -> ->].
    apply over_limit_iff in H3. split; [done..| | |done| |eauto].
    + by apply expired_iff.
    + by apply expired_iff.
    + intros limit Hl. unfold is_traffic_exceeded in H4. rewrite Hl in H4. by apply over_limit_iff.
  - intros [He Hu Hue H1 H2 Hs Hl (uu & Hus & Hq)]. rewrite He, Hu. simpl. rewrite Hue. simpl.
    apply expired_iff in H1, H2. unfold is_expired_at, is_expired. rewrite H1, H2, Hs. simpl.
    rewrite Hus. simpl. unfold user_traffic_exceeded. apply over_limit_iff in Hq. rewrite Hq.
    unfold is_traffic_exceeded. destruct (sub_traffic_limit s) as [limit|]; [|done].
    by rewrite (proj2 (over_limit_iff _ _) (Hl limit eq_refl)).
Qed.

(** The profile a request asks for: the path segment, or the one its
    User-Agent reveals. *)
Definition requested_profile (q : Request) : option ProfileKind :=
  match q_profile q with
  | Some p => from_kebab p
  | None => detect_profile_from_user_agent (q_user_agent q)
  end.

Lemma resolve_profile_Ok q s p :
  resolve_profile (q_profile q) (q_user_agent q) s = Ok p ↔
  requested_profile q = Some p ∧ sub_profile s = as_kebab p.
Proof.
  unfold resolve_profile, requested_profile. destruct (q_profile q) as [k|].
  - destruct (String.eqb_spec k (sub_profile s)) as [->|Hne]; simpl.
    + rewrite ok_or_Ok. split; [|naive_solver]. intros Hp. split; [done|]. by apply from_kebab_Some.
    + split; [done|]. intros [->%from_kebab_Some ?]. congruence.
  - destruct (detect_profile_from_user_agent _) as [k|]; simpl; [|naive_solver].
    destruct (String.eqb_spec (as_kebab k) (sub_profile s)); simpl; naive_solver congruence.
Qed.

(** The answer to an entitled request for generated content. *)
Definition answer (s : Subscription) (u : User) (su : TrafficSummary) (p : ProfileKind) (q : Request)
    (content : string) : DeliveryOutcome :=
  let etag := compute_etag content in
  if match q_if_none_match q with Some inm => etag_matches inm etag | None => false end
  then NotModified etag
  else Content (mkDeliveryResult content (as_kebab p) etag (content_type_for p)
         (content_disposition_for p (sub_slug s)) (build_subscription_userinfo s su (u_traffic_quota u))).

(** C3: content is delivered exactly when it should be. A subscription is
    served if and only if it and its owner are enabled and unexpired, neither
    quota is exceeded, the requested or detected profile is the one it is
    bound to, and generation for exactly its template, pin, profile and node
    selection succeeds; the answer then is that content, or its entity tag when
    the client already has it. *)
Theorem delivery_exact w s q db' o :
  deliver_for_subscription w s q = (db', Ok o) ↔
  ∃ u su p result,
    entitled w s (q_now q) u su ∧ requested_profile q = Some p ∧ sub_profile s = as_kebab p ∧
    Generation.generate_for_delivery (w_templates w) (w_pool w) (w_cache w) (q_new_id q)
      (mkRequest (sub_template_id s) (sub_profile s) Lenient (Some (sub_node_selection s))
         (sub_template_version_pin s)) = (db', Ok result) ∧
    o = answer s u su p q (gr_content result).
Proof.
  unfold deliver_for_subscription. split.
  - destruct (check_access w s (q_now q)) as [[u su]|] eqn:Ha; simpl; [|done].
    destruct (resolve_profile _ _ s) as [p|] eqn:Hp; simpl; [|done].
    apply check_access_Ok in Ha. apply resolve_profile_Ok in Hp as [Hq Hb].
    destruct (Generation.generate_for_delivery _ _ _ _ _) as [db1 [result|]] eqn:Hg; [|done].
    intros [= -> <-]. unfold delivery_request in Hg. rewrite <-Hb in Hg. eauto 10.
  - intros (u & su & p & result & Ha & Hq & Hb & Hg & ->).
    apply check_access_Ok in Ha. rewrite Ha. simpl.
    rewrite (proj2 (resolve_profile_Ok q s p)) by done. simpl.
    rewrite Hb in Hg. unfold delivery_request. by rewrite Hg.
Qed.

(** refusals come in the documented order: a disabled subscription or
    owner is a 404 whatever else is wrong with it; then expiry is a 403; then
    an exceeded quota is a 429; and a refusal never touches the cache. *)
Theorem refusal_order header_ok w s q su uu :
  TrafficRepo.get_summary (w_traffic w) (sub_id s) = Ok su →
  TrafficRepo.get_summary_for_user (w_traffic w) (owned_subscriptions (w_subs w) (sub_owner_id s)) = Ok uu →
  let hidden := sub_enabled s = false ∨
    (∀ u, users (w_subs w) !! sub_owner_id s = Some u → u_enabled u = false) in
  let outcome := deliver_for_subscription w s q in
  (hidden → outcome.1 = w_cache w ∧ respond header_ok outcome.2 = not_found) ∧
  ∀ u, users (w_subs w) !! sub_owner_id s = Some u → ¬ hidden →
    let expired := is_expired_at u (q_now q) || is_expired s (q_now q) in
    let exceeded := user_traffic_exceeded u (total uu) || is_traffic_exceeded s (total su) in
    (expired = true → outcome.1 = w_cache w ∧ respond header_ok outcome.2 = forbidden) ∧
    (expired = false → exceeded = true →
       outcome.1 = w_cache w ∧ respond header_ok outcome.2 = too_many_requests).
Proof.
  intros Hs Hu hidden outcome. unfold outcome, deliver_for_subscription, check_access. split.
  - intros Hh. destruct (sub_enabled s) eqn:He; simpl; [|done].
    destruct Hh as [?|Hh]; [done|]. destruct (users _ !! _) as [u|]; simpl; [|done].
    by rewrite (Hh u).
  - intros u Huser Hh. unfold hidden in Hh. destruct (sub_enabled s); simpl; [|naive_solver].
    rewrite Huser. simpl. destruct (u_enabled u) eqn:Hue; simpl; [|naive_solver].
    destruct (is_expired_at u _); simpl; [by split|]. destruct (is_expired s _); simpl; [by split|].
    split; [done|]. intros _. rewrite Hs, Hu. simpl.
    destruct (user_traffic_exceeded _ _); simpl; [by split|]. by destruct (is_traffic_exceeded _ _).
Qed.

(** ** No existence leak *)

(** Every stored subscription can be read, as the commands guarantee. *)
Definition readable (db : Db) : Prop := ∀ id, is_ok (find_by_id selector_from_json db id) = true.

(** A subscription nobody may learn of. *)
Definition hidden (w : World) (s : Subscription) : Prop :=
  sub_enabled s = false ∨ ∀ u, users (w_subs w) !! sub_owner_id s = Some u → u_enabled u = false.

Lemma load_subscription_cases db id :
  readable db → (∃ s, load_subscription db id = Ok s) ∨ load_subscription db id = Err SA_SubscriptionNotFound.
Proof.
  intros Hr. specialize (Hr id). unfold load_subscription.
  destruct (find_by_id _ db id) as [[s|]|]; simpl in *; [eauto|eauto|done].
Qed.

(** A readable store only yields a subscription or a not-found error. *)
Lemma resolve_token_cases db now token d :
  readable db → token_digest token = Ok d →
  (∃ s, resolve_token db now token = Ok s) ∨
  ∃ e, resolve_token db now token = Err e ∧ map_delivery_error e = not_found.
Proof.
  intros Hr Hd. unfold resolve_token. rewrite Hd. simpl.
  destruct (resolve_digest db now d) as [t|e] eqn:He; simpl.
  - destruct (load_subscription_cases db (tk_subscription_id t) Hr) as [?|?]; eauto.
  - right. exists e. split; [done|]. unfold resolve_digest in He.
    destruct (find_by_token_hash _ _); [done|].
    destruct (find_by_previous_token_hash _ _); simpl in He; [|by injection He as <-].
    case_hyp He; [by injection He as <-|done].
Qed.

Lemma resolve_temp_link_cases db now token d :
  readable db → token_digest token = Ok d →
  (∃ s, resolve_temp_link db now token = Ok s) ∨
  ∃ e, resolve_temp_link db now token = Err e ∧ map_delivery_error e = not_found.
Proof.
  intros Hr Hd. unfold resolve_temp_link. rewrite Hd. simpl.
  destruct (find_link_by_token_hash db d) as [l|]; simpl; [|eauto].
  destruct (negb _); [eauto|].
  destruct (load_subscription_cases db (tl_subscription_id l) Hr) as [?|?]; eauto.
Qed.

Lemma deliver_hidden w s q :
  hidden w s → ∃ e, deliver_for_subscription w s q = (w_cache w, Err e) ∧
    map_delivery_error e = not_found ∧ e ≠ SA_TokenNotFound.
Proof.
  unfold hidden, deliver_for_subscription, check_access. destruct (sub_enabled s); simpl; [|eauto].
  intros [?|Hh]; [done|]. destruct (users _ !! _) as [u|]; simpl; [|eauto]. rewrite (Hh u) by done. simpl. eauto.
Qed.

(** the public routes leak nothing. A token that is unknown, expired or
    revoked, and one that leads to a deleted or disabled subscription or to a
    disabled or missing owner, all get one and the same 404 response, and the
    cache is left alone. *)
Theorem token_no_leak header_ok w token d q ql :
  readable (w_subs w) → token_digest token = Ok d →
  (∀ s, resolve_token (w_subs w) (q_now_credential q) token = Ok s → hidden w s) →
  (∀ s, resolve_temp_link (w_subs w) (q_now_credential ql) token = Ok s → hidden w s) →
  deliver_token header_ok w token q ql = (w_cache w, not_found).
Proof.
  intros Hr Hd Ht Hl. unfold deliver_token, deliver_subscription.
  destruct (resolve_token_cases (w_subs w) (q_now_credential q) token d Hr Hd) as [[s Hs]|(e & He & Hm)].
  { rewrite Hs. simpl. destruct (deliver_hidden w s q (Ht s Hs)) as (e & -> & Hm & Hne).
    destruct e; try done; by simpl; rewrite ?Hm. }
  rewrite He. simpl. destruct e; try done; simpl.
  unfold deliver_by_temp_link. simpl. destruct w as [ws wt wtm wp wc]. simpl in *.
  destruct (resolve_temp_link_cases ws (q_now_credential ql) token d Hr Hd) as [[s Hs]|(e & He' & Hm')].
  - rewrite Hs. simpl. destruct (deliver_hidden (mkWorld ws wt wtm wp wc) s ql (Hl s Hs)) as (e & -> & Hm' & _).
    simpl. by rewrite Hm'.
  - rewrite He'. simpl. by rewrite Hm'.
Qed.

(** ** Published versions *)

Lemma deliver_resolved_keeps w r q t p :
  CacheRepo.cache_ok (w_cache w) →
  CacheRepo.find_active (deliver_resolved w r q).1 t p = CacheRepo.find_active (w_cache w) t p.
Proof.
  intros Hok. destruct r as [s|]; [|done]. unfold deliver_resolved, deliver_for_subscription.
  case_goal; [|done]. destruct a as [[u su] pk].
  pose proof (Generation.delivery_keeps_active (w_templates w) (w_pool w) (w_cache w) (q_new_id q)
    (delivery_request s pk) t p Hok) as Hk.
  destruct (Generation.generate_for_delivery _ _ _ _ _) as [db' [res|]]; done.
Qed.

(** Generation failures are never reported as an unknown token. *)
Lemma deliver_TokenNotFound w r q db' :
  deliver_resolved w r q = (db', Err SA_TokenNotFound) → db' = w_cache w.
Proof.
  destruct r as [s|e]; simpl; [|by intros [= <- _]]. unfold deliver_for_subscription.
  case_goal; [|by intros [= <- _]]. destruct a as [[u su] pk].
  destruct (Generation.generate_for_delivery _ _ _ _ _) as [db1 [res|e]]; [done|]. by destruct e.
Qed.

(** the public routes publish nothing: whatever token or short code is
    requested, however the request ends, and even when it stores a freshly
    generated version, every template and profile keeps its active entry. *)
Theorem routes_keep_published header_ok w token code q ql t p :
  CacheRepo.cache_ok (w_cache w) →
  CacheRepo.find_active (deliver_token header_ok w token q ql).1 t p = CacheRepo.find_active (w_cache w) t p ∧
  CacheRepo.find_active (deliver_code header_ok w code q).1 t p = CacheRepo.find_active (w_cache w) t p.
Proof.
  intros Hok. unfold deliver_token, deliver_code, deliver_subscription, deliver_by_short_code, deliver_by_temp_link.
  split.
  - pose proof (deliver_resolved_keeps w (resolve_token (w_subs w) (q_now_credential q) token) q t p Hok) as Hk.
    destruct (deliver_resolved w _ q) as [db' [o|e]] eqn:He; [done|]. destruct e; try done.
    apply deliver_TokenNotFound in He as ->. destruct w as [ws wt wtm wp wc]. simpl in *.
    pose proof (deliver_resolved_keeps (mkWorld ws wt wtm wp wc)
      (resolve_temp_link ws (q_now_credential ql) token) ql t p Hok) as Hk'.
    by destruct (deliver_resolved _ _ ql) as [db'' r].
  - pose proof (deliver_resolved_keeps w (resolve_short_code (w_subs w) code) q t p Hok) as Hk.
    by destruct (deliver_resolved w _ q) as [db' r].
Qed.

(** ** Slugs *)

Fixpoint has_byte (n : N) (s : string) : bool :=
  match s with
  | EmptyString => false
  | String c s => N.eqb (Ascii.N_of_ascii c) n || has_byte n s
  end.

Lemma has_byte_app n a b : has_byte n (a +:+ b) = has_byte n a || has_byte n b.
Proof. induction a as [|c a IH]; simpl; [done|]. by rewrite IH, orb_assoc. Qed.

(** a subscription whose slug contains a line break is accepted by the
    commands but can never be downloaded: the slug is copied into the
    [Content-Disposition] header unescaped, header values with control
    characters are invalid, and every full delivery then ends in an empty 500
    response, although the slug is documented as URL-safe. *)
Theorem control_slug_undeliverable header_ok w s q db' d :
  (∀ v, has_byte 10 v = true → header_ok v = false) →
  has_byte 10 (sub_slug s) = true →
  deliver_for_subscription w s q = (db', Ok (Content d)) →
  validate_slug (Text.bytes [97; 10; 98]%N) = Ok () ∧
  respond header_ok (Ok (Content d)) = mkResponse 500 [] "".
Proof.
  intros Hh Hs Hd. split; [done|].
  assert (∃ pk, dr_content_disposition d = content_disposition_for pk (sub_slug s)) as [pk Hcd].
  { unfold deliver_for_subscription in Hd. case_hyp Hd; [|done]. destruct a as [[u su] pk].
    destruct (Generation.generate_for_delivery _ _ _ _ _) as [db1 [res|]]; [|done].
    injection Hd as _ Hd. exists pk. case_hyp Hd; [done|]. by injection Hd as <-. }
  simpl. unfold build_response. simpl. rewrite Hcd.
  rewrite (Hh (content_disposition_for _ _)); [by rewrite !andb_false_r|].
  unfold content_disposition_for. rewrite !has_byte_app, Hs. by rewrite !orb_true_r.
Qed.

End delivery.

(** ** A concrete world *)

#[local] Existing Instance SqlitePool.sqlite_repository.
#[local] Existing Instance Generation.demo_externals.

Definition demo_world_of (history : list Command) : World :=
  mkWorld (run empty_db history) TrafficRepo.empty_db Generation.demo_store Compat.demo_pool
    CacheRepo.demo_empty.

Definition demo_world : World := demo_world_of demo_history.

Definition demo_request (now : Z) : Request := mkDeliveryRequest (Some "mihomo") None None now now 50.

(** The current token, the rotated-out one within its grace and the temporary
    link are served; the rotated-out one is unknown after its grace. *)
Example demo_served :
  (λ t, rs_body (deliver_token (λ _, true) demo_world t (demo_request 100) (demo_request 100)).2)
    <$> ["second"; "first"; "link"] = ["proxies: [t]"; "proxies: [t]"; "proxies: [t]"].
Proof. vm_compute. reflexivity. Qed.

Example demo_grace_over :
  (deliver_token (λ _, true) demo_world "first" (demo_request demo_hour) (demo_request demo_hour)).2 = not_found.
Proof. vm_compute. reflexivity. Qed.

(** The stored demonstration subscription. *)
Definition demo_subscription (slug : string) (enabled : bool) : Subscription :=
  mkSubscription 10 "name" slug 1 1 None "mihomo" demo_selector (Some 5%N) None 20 (Some 30%N) enabled 0 0.

Lemma refusal_order_witness :
  (deliver_for_subscription demo_world (demo_subscription "slug" false) (demo_request 0)).1 = CacheRepo.demo_empty ∧
  respond (λ _, true) (deliver_for_subscription demo_world (demo_subscription "slug" false) (demo_request 0)).2
    = not_found.
Proof.
  destruct (refusal_order (λ _, true) demo_world (demo_subscription "slug" false) (demo_request 0)
    (mkTrafficSummary 0 0 []) (mkTrafficSummary 0 0 []) eq_refl eq_refl) as [H _].
  apply H. left. reflexivity.
Defined.

(** The account is disabled after the subscription was set up. *)
Definition demo_disabled : list Command :=
  demo_history ++ [PutUser (mkUser 1 "alice" "hash" RegularUser false None 0 false None 0)].

Lemma demo_readable : readable (run empty_db demo_disabled).
Proof.
  intros id. destruct (decide (id = 10%N)) as [->|Hne]; [vm_compute; reflexivity|].
  unfold find_by_id. destruct (List.find _ _) as [r|] eqn:Hf; [|reflexivity]. exfalso.
  apply find_Some_elem in Hf as [Hr Hid%N.eqb_eq]. vm_compute in Hr.
  apply list_elem_of_singleton in Hr. subst r. by apply Hne.
Qed.

Lemma demo_hidden s : sub_owner_id s = 1%N → hidden (demo_world_of demo_disabled) s.
Proof. intros Ho. right. intros u. rewrite Ho. vm_compute. by intros [= <-]. Qed.

Lemma token_no_leak_witness :
  deliver_token (λ _, true) (demo_world_of demo_disabled) "second" (demo_request 100) (demo_request 100)
    = (CacheRepo.demo_empty, not_found).
Proof.
  apply (token_no_leak (λ _, true) (demo_world_of demo_disabled) "second" "subscription_token:second");
    [exact demo_readable|reflexivity| |].
  - intros s Hs. apply demo_hidden. vm_compute in Hs. by injection Hs as <-.
  - intros s Hs. vm_compute in Hs. discriminate Hs.
Defined.

Lemma routes_keep_published_witness :
  CacheRepo.find_active (deliver_token (λ _, true) demo_world "second" (demo_request 100) (demo_request 100)).1
    1 "mihomo" = CacheRepo.find_active (w_cache demo_world) 1 "mihomo".
Proof.
  exact (proj1 (routes_keep_published (λ _, true) demo_world "second" "code" (demo_request 100) (demo_request 100)
    1 "mihomo" CacheRepo.demo_empty_ok)).
Defined.

Definition demo_slug : string := Text.bytes [97; 10; 98]%N.

Lemma control_slug_undeliverable_witness :
  ∃ d, (deliver_for_subscription demo_world (demo_subscription demo_slug true) (demo_request 100)).2 = Ok (Content d) ∧
    respond (λ v, negb (has_byte 10 v)) (Ok (Content d)) = mkResponse 500 [] "".
Proof.
  destruct (deliver_for_subscription demo_world (demo_subscription demo_slug true) (demo_request 100))
    as [db' [[d|t]|e]] eqn:Hd; [|exfalso; vm_compute in Hd; discriminate Hd|exfalso; vm_compute in Hd; discriminate Hd].
  exists d. split; [reflexivity|].
  apply (control_slug_undeliverable (λ v, negb (has_byte 10 v)) demo_world (demo_subscription demo_slug true)
    (demo_request 100) db' d); [|reflexivity|exact Hd].
  intros v Hv. by rewrite Hv.
Defined.

End Delivery.
