(* ===== verification/Credentials.v ===== *)
(** * The life of a delivery credential
      ([subscription/commands.rs], [subscription/delivery.rs],
      [subscription/scheduler.rs], [subscription_token_repository.rs],
      [temp_link_repository.rs])

    What token rotation, its grace period, the background sweep, revocation
    and deletion mean for the token a client presents. *)

From S2P Require Import Prelude Kernel Template Subscription SubCommands Delivery.

Module Credentials.
Import SubscriptionRepo SubCommands Delivery.

(** ** What a token digest leads to *)

(** The subscription a digest gives access to at an instant. *)
Definition resolves (db : Db) (t : Z) (x : string) : option SubscriptionId :=
  match resolve_digest db t x with
  | Ok tk => Some (tk_subscription_id tk)
  | Err _ => None
  end.

(** The digests a token row answers to. *)
Definition digests_of (tk : SubscriptionToken) : list string :=
  tk_digest tk :: option_list (tk_previous_digest tk).

(** No digest belongs to two subscriptions. *)
Definition distinct (db : Db) : Prop :=
  ∀ t1 t2 x, t1 ∈ tokens db → t2 ∈ tokens db → x ∈ digests_of t1 → x ∈ digests_of t2 →
    tk_subscription_id t1 = tk_subscription_id t2.

Definition one_row (db : Db) : Prop := NoDup (tk_subscription_id <$> tokens db).

Lemma elem_of_digests_of tk x :
  x ∈ digests_of tk ↔ tk_digest tk = x ∨ tk_previous_digest tk = Some x.
Proof.
  unfold digests_of. rewrite elem_of_cons. destruct (tk_previous_digest tk); simpl;
    rewrite ?list_elem_of_singleton; set_solver.
Qed.

Lemma distinct_row db t1 t2 x :
  one_row db → distinct db → t1 ∈ tokens db → t2 ∈ tokens db →
  x ∈ digests_of t1 → x ∈ digests_of t2 → t1 = t2.
Proof. intros Hn Hd H1 H2 Hx1 Hx2. apply (NoDup_fmap_elem _ _ _ _ Hn); eauto. Qed.

(** The declarative reading of the two-stage lookup. *)
Lemma resolves_spec db t x sid :
  one_row db → distinct db →
  resolves db t x = Some sid ↔
  ∃ tk, tk ∈ tokens db ∧ tk_subscription_id tk = sid ∧
    (tk_digest tk = x ∨ tk_previous_digest tk = Some x ∧ is_previous_token_valid_at tk t = true).
Proof.
  intros Hn Hd. unfold resolves, resolve_digest.
  destruct (find_by_token_hash db x) as [c|] eqn:Hc.
  { apply find_Some_elem in Hc as [Hin Hx%String.eqb_eq]. split; [intros [= <-]; eauto|].
    intros (tk & Htk & <- & Hor). f_equal. apply (Hd c tk x); [done..| |].
    - apply elem_of_digests_of. by left.
    - apply elem_of_digests_of. naive_solver. }
  unfold find_by_token_hash in Hc. rewrite find_None_elem in Hc.
  assert (∀ tk, tk ∈ tokens db → tk_digest tk ≠ x) as Hno.
  { intros tk Htk Heq. specialize (Hc tk Htk). simpl in Hc. by rewrite Heq, String.eqb_refl in Hc. }
  destruct (find_by_previous_token_hash db x) as [p|] eqn:Hp; simpl.
  - apply find_Some_elem in Hp as [Hin Hx]. unfold has_previous in Hx.
    destruct (tk_previous_digest p) as [y|] eqn:Hy; [|done]. apply String.eqb_eq in Hx as ->.
    destruct (is_previous_token_valid_at p t) eqn:Hv; simpl.
    + split; [intros [= <-]; eauto 6|]. intros (tk & Htk & <- & [?|[Htp _]]); [naive_solver|].
      f_equal. apply (Hd p tk x); [done..| |]; apply elem_of_digests_of; by right.
    + split; [done|]. intros (tk & Htk & <- & [?|[Htp Htv]]); [naive_solver|].
      assert (tk = p) as -> by (apply (distinct_row db tk p x Hn Hd); [done..| |];
        apply elem_of_digests_of; by right). congruence.
  - unfold find_by_previous_token_hash in Hp. rewrite find_None_elem in Hp. split; [done|].
    intros (tk & Htk & <- & [?|[Htp _]]); [naive_solver|]. specialize (Hp tk Htk).
    unfold has_previous in Hp. by rewrite Htp, String.eqb_refl in Hp.
Qed.

(** ** Issued digests *)

Section history.
Context {cext : CommandExternals}.

Definition drawn_digest (d : Draw) : option string :=
  match d_token d with
  | Ok plaintext => match token_digest plaintext with Ok x => Some x | Err _ => None end
  | Err _ => None
  end.

(** The token digest a command may put into the token table, and into the
    table of temporary links. *)
Definition issues (c : Command) : option string :=
  match c with
  | Create d _ | Rotate d _ _ => drawn_digest d
  | _ => None
  end.

Definition issues_link (c : Command) : option string :=
  match c with
  | CreateLink d _ _ => drawn_digest d
  | _ => None
  end.

Lemma drawn_digest_Some d plaintext x :
  d_token d = Ok plaintext → token_digest plaintext = Ok x → drawn_digest d = Some x.
Proof. unfold drawn_digest. by intros -> ->. Qed.

(** The token rows after a committed command: old rows, a swept or rotated
    row, or a created one; only one subscription gets an issued digest. *)
Lemma committed_tokens db c db' :
  one_row db → committed db c db' →
  ∃ owner, ∀ tk', tk' ∈ tokens db' →
    (∃ tk, tk ∈ tokens db ∧ tk_subscription_id tk' = tk_subscription_id tk ∧
       (tk' = tk ∨
        (tk_digest tk' = tk_digest tk ∧ tk_previous_digest tk' = None) ∨
        (issues c = Some (tk_digest tk') ∧ tk_previous_digest tk' = Some (tk_digest tk) ∧
         tk_subscription_id tk' = owner))) ∨
    (issues c = Some (tk_digest tk') ∧ tk_previous_digest tk' = None ∧ tk_subscription_id tk' = owner).
Proof.
  intros Hn Hc.
  destruct Hc as [c|d p s pt dg db' Hdt Hdg ? ? ? ? ? Hc|now p s db' ? ? ? Hu|id db' Hd|d sid g pt dg db' t Hdt Hdg Hr
    |sid draws i code db' ? Hr|d sid e pt dg db' ? ? Hl|sid id db' Hr|now n db' Hs|now|u|t];
    try (exists 0%N; intros tk' Htk'; by eauto 10).
  - apply create_with_token_Ok in Hc as (r & t' & Hb & -> & _ & _ & _ & Hft).
    apply bind_rows_Ok in Hb as (_ & _ & _ & _ & _ & _ & _ & _ & _ & _ & Hsub & Hdig & Hprev).
    exists (tk_subscription_id t'). intros tk' Htk'.
    apply elem_of_app in Htk' as [?|Htk'%list_elem_of_singleton]; [by eauto 10|]. subst. right.
    simpl. by rewrite (drawn_digest_Some _ _ _ Hdt Hdg), Hdig.
  - apply update_Ok in Hu as (? & ? & ? & ? & ? & ? & _ & _ & _ & _ & _ & -> & _).
    exists 0%N. intros tk' Htk'. by eauto 10.
  - unfold delete in Hd. case_hyp Hd; [|done]. injection Hd as <-. simpl. exists 0%N.
    intros tk' [_ ?]%list_elem_of_filter. by eauto 10.
  - apply rotate_Ok in Hr as (cur & grace & issued & Hcur & Hsid & _ & _ & _ & -> & _); [|done].
    exists sid. intros tk' (tk & Htk & [[Hk ->]|[Hk ->]])%elem_of_update_where; [|by eauto 10].
    assert (tk = cur) as -> by (apply (NoDup_fmap_elem _ _ _ _ Hn); [done|done|congruence]).
    left. exists cur. simpl. rewrite (drawn_digest_Some _ _ _ Hdt Hdg). by eauto 10.
  - apply replace_Ok in Hr as (? & _ & _ & ->). exists 0%N. intros tk' Htk'. by eauto 10.
  - apply create_link_Ok in Hl as (? & ? & _ & _ & _ & ->). exists 0%N. intros tk' Htk'. by eauto 10.
  - unfold revoke_for_subscription in Hr. case_hyp Hr; [|done]. injection Hr as <-.
    exists 0%N. intros tk' Htk'. by eauto 10.
  - apply sweep_Ok in Hs as (s & _ & ->). exists 0%N. intros tk' (tk & -> & Htk)%list_elem_of_fmap.
    left. exists tk. unfold clear_grace. case_goal; by eauto 10.
Qed.

Lemma committed_digests db c db' :
  one_row db → committed db c db' →
  ∃ owner, ∀ tk' x, tk' ∈ tokens db' → x ∈ digests_of tk' →
    (issues c = Some x ∧ tk_subscription_id tk' = owner) ∨
    ∃ tk, tk ∈ tokens db ∧ tk_subscription_id tk' = tk_subscription_id tk ∧ x ∈ digests_of tk.
Proof.
  intros Hn Hc. destruct (committed_tokens db c db' Hn Hc) as [owner Ho]. exists owner.
  intros tk' x Htk' Hx. apply elem_of_digests_of in Hx. setoid_rewrite elem_of_digests_of.
  destruct (Ho tk' Htk') as [(tk & Htk & Hs & Hc')|(Hi & Hp & Hs)]; [|naive_solver congruence].
  destruct Hc' as [->|[[Hd Hp]|(Hi & Hp & Ho')]]; [naive_solver|naive_solver congruence|].
  destruct Hx as [<-|Hx]; [by left|]. right. exists tk. naive_solver congruence.
Qed.

(** Fresh digests keep the digests distinct. *)
Lemma committed_distinct db c db' :
  one_row db → committed db c db' → distinct db →
  (∀ x tk, issues c = Some x → tk ∈ tokens db → x ∉ digests_of tk) → distinct db'.
Proof.
  intros Hn Hc Hd Hfresh t1 t2 x H1 H2 Hx1 Hx2.
  destruct (committed_digests db c db' Hn Hc) as [owner Ho].
  destruct (Ho t1 x H1 Hx1) as [[Hi1 ->]|(o1 & Ho1 & -> & Hxo1)];
  destruct (Ho t2 x H2 Hx2) as [[Hi2 ->]|(o2 & Ho2 & -> & Hxo2)]; [done|..|by eapply Hd].
  - by destruct (Hfresh x o2 Hi1 Ho2).
  - by destruct (Hfresh x o1 Hi2 Ho1).
Qed.

(** ** Rotation *)

(** The instant a stored expiry means: whole seconds. *)
Definition whole_seconds (ts : Z) : Z := (ts / ns_per_s * ns_per_s)%Z.

Lemma format_ts_Ok ts s : format_ts ts = Ok s → s = whole_seconds ts.
Proof. unfold format_ts. case_goal; [|done]. by intros [= <-]. Qed.

(** The grace of a rotation at [now] covers [t]. *)
Definition in_grace (grace : option Z) (now t : Z) : Prop :=
  match grace with
  | None => True
  | Some g => (t < whole_seconds (now + g))%Z
  end.

Lemma rotate_token_Ok db d sid grace db' id plaintext :
  rotate_token db d sid grace = (db', Ok (id, plaintext)) →
  ∃ new t, d_token d = Ok plaintext ∧ token_digest plaintext = Ok new ∧
    rotate db sid (mkToken (d_id d) sid new None ((λ g, d_now d + g)%Z <$> grace) (d_now d))
      ((λ g, d_now d + g)%Z <$> grace) = (db', Ok t).
Proof.
  unfold rotate_token, drawn_token. destruct (require_sub _ _); simpl; [|done].
  destruct (d_token d) as [pt|]; simpl; [|done]. destruct (token_digest pt) as [new|] eqn:Hd; simpl; [|done].
  destruct (rotate _ _ _ _) as [db1 [t|]] eqn:Hr; [|done]. intros [= <- _ <-]. eauto.
Qed.

Lemma rotated_valid tk old new g now grace issued t :
  format_ts_opt ((λ d, now + d)%Z <$> g) = Ok grace →
  is_previous_token_valid_at (rotated tk old new grace issued) t = true ↔ in_grace g now t.
Proof.
  unfold is_previous_token_valid_at, in_grace. simpl. destruct g as [g|]; simpl; [|by intros [= <-]].
  destruct (format_ts _) as [s|] eqn:Hs; simpl; [|done]. intros [= <-].
  apply format_ts_Ok in Hs as ->. by rewrite Z.ltb_lt.
Qed.

(** the rotation contract. After a successful rotation the subscription
    answers to exactly two tokens: the new one, for as long as nothing else
    happens, and the one that was current before, until the grace ends (for
    ever if the grace is unbounded); a token kept from an earlier rotation is
    cut off at once, and no other subscription's credentials change. *)
Theorem rotation_window db d sid grace db' id plaintext new cur t x :
  store_ok db → distinct db →
  rotate_token db d sid grace = (db', Ok (id, plaintext)) → token_digest plaintext = Ok new →
  (∀ tk, tk ∈ tokens db → new ∉ digests_of tk) →
  find_active_for_subscription db sid = Some cur →
  (resolves db' t x = Some sid ↔ x = new ∨ x = tk_digest cur ∧ in_grace grace (d_now d) t) ∧
  ∀ sid', sid' ≠ sid → (resolves db' t x = Some sid' ↔ resolves db t x = Some sid').
Proof.
  intros Hok Hd Hrot Hnew Hfresh Hcur. pose proof (ok_token_subs db Hok) as Hn.
  apply rotate_token_Ok in Hrot as (new' & tk0 & Htok & Hnew' & Hr).
  assert (new' = new) as -> by congruence. clear Hnew'.
  assert (committed db (Rotate d sid grace) db') as Hcom by exact (com_rotate _ _ _ _ _ _ _ _ Htok Hnew Hr).
  assert (one_row db') as Hn' by apply ok_token_subs, (committed_ok db _ db' Hcom Hok).
  assert (distinct db') as Hd'.
  { apply (committed_distinct db _ db' Hn Hcom Hd). simpl. rewrite (drawn_digest_Some _ _ _ Htok Hnew). naive_solver. }
  apply find_Some_elem in Hcur as [Hcur Hsid%N.eqb_eq].
  pose proof Hr as (cur' & grace' & issued & Hcur' & Hsid' & Hg & _ & _ & -> & _)%rotate_Ok; [|done].
  assert (cur' = cur) as -> by (apply (NoDup_fmap_elem _ _ _ _ Hn); [done|done|congruence]).
  split; [|intros sid' Hne]; rewrite !resolves_spec by done; simpl; setoid_rewrite elem_of_update_where.
  - split.
    + intros (tk & (o & Ho & [[Hk ->]|[Hk ->]]) & Hs & Hx); [|done].
      assert (o = cur) as -> by (apply (NoDup_fmap_elem _ _ _ _ Hn); [done|done|congruence]).
      destruct Hx as [Hx|[Hx Hv]]; simpl in *; [by left|]. right. simplify_eq.
      split; [done|]. by eapply rotated_valid.
    + intros Hx. exists (rotated cur (tk_digest cur) new grace' issued). simpl.
      split; [by eauto 10|]. split; [done|]. destruct Hx as [->|[-> Hv]]; [by left|right].
      split; [done|]. by eapply rotated_valid.
  - split.
    + intros (tk & (o & Ho & [[Hk ->]|[Hk ->]]) & Hs & Hx); [simpl in *; congruence|eauto].
    + intros (tk & Htk & Hs & Hx). exists tk. split; [|done]. exists tk. split; [done|]. right. naive_solver congruence.
Qed.

(** ** The grace sweep *)

(** The store with every grace that ended by [T] cleared. *)
Definition swept (T : Z) (db : Db) : Db := with_tokens db (clear_grace T <$> tokens db).

Lemma clear_grace_keeps T tk :
  tk_id (clear_grace T tk) = tk_id tk ∧ tk_subscription_id (clear_grace T tk) = tk_subscription_id tk ∧
  tk_digest (clear_grace T tk) = tk_digest tk ∧ tk_issued_at (clear_grace T tk) = tk_issued_at tk.
Proof. unfold clear_grace. by case_goal. Qed.

Lemma clear_grace_mono s T tk : (s ≤ T)%Z → clear_grace T (clear_grace s tk) = clear_grace T tk.
Proof.
  intros Hle. unfold clear_grace. destruct (grace_expired s tk) eqn:Hs; [|done]. simpl.
  unfold grace_expired in *. destruct (tk_grace_until tk) as [u|]; [|done].
  apply Z.leb_le in Hs. by rewrite (proj2 (Z.leb_le u T)) by lia.
Qed.

Lemma swept_eq T db l : clear_grace T <$> l = clear_grace T <$> tokens db →
  swept T (with_tokens db l) = swept T db.
Proof. intros H. unfold swept. simpl. by rewrite H. Qed.

Lemma swept_swept s T db : (s ≤ T)%Z → swept T (swept s db) = swept T db.
Proof.
  intros Hle. apply swept_eq. rewrite <-list_fmap_compose. apply list_fmap_ext.
  intros i tk _. by apply clear_grace_mono.
Qed.

(** Clearing graces commutes with every transaction on the tokens. *)
Lemma create_with_token_swept T db s tk :
  swept T (create_with_token selector_to_json (swept T db) s tk).1 =
  swept T (create_with_token selector_to_json db s tk).1.
Proof.
  unfold create_with_token. destruct (bind_rows _ _ _) as [[r tk']|]; simpl; [|by apply swept_swept].
  unfold insert_sub. simpl. destruct (existsb _ (subs db)); simpl; [by apply swept_swept|].
  destruct (existsb _ (subs db)); simpl; [by apply swept_swept|].
  destruct (negb _); simpl; [by apply swept_swept|].
  unfold insert_token. simpl.
  rewrite (existsb_fmap _ _ (λ x, N.eqb (tk_id x) (tk_id tk') || String.eqb (tk_digest x) (tk_digest tk')
    || N.eqb (tk_subscription_id x) (tk_subscription_id tk'))).
  2: { intros x. destruct (clear_grace_keeps T x) as (-> & -> & -> & _). done. }
  destruct (existsb _ (tokens db)); simpl; [by apply swept_swept|].
  destruct (negb _); simpl; [by apply swept_swept|].
  unfold swept. simpl. f_equal. rewrite !fmap_app. f_equal.
  rewrite <-list_fmap_compose. apply list_fmap_ext. intros i x _. by apply clear_grace_mono.
Qed.

Lemma rotate_swept T db sid nt g :
  swept T (rotate (swept T db) sid nt g).1 = swept T (rotate db sid nt g).1.
Proof.
  assert (∀ x, tk_subscription_id (clear_grace T x) = tk_subscription_id x ∧
               tk_digest (clear_grace T x) = tk_digest x) as Hk.
  { intros x. by destruct (clear_grace_keeps T x) as (_ & -> & -> & _). }
  unfold rotate. destruct (format_ts_opt g) as [grace|]; simpl; [|by apply swept_swept].
  destruct (format_ts _) as [issued|]; simpl; [|by apply swept_swept].
  unfold find_active_for_subscription. simpl.
  rewrite (find_fmap _ _ (λ t, N.eqb (tk_subscription_id t) sid)).
  2: { intros x. by rewrite (proj1 (Hk x)). }
  destruct (List.find _ (tokens db)) as [cur|] eqn:Hf; simpl; [|by apply swept_swept].
  rewrite !(proj2 (Hk cur)).
  erewrite (existsb_fmap (clear_grace T)); [|intros x; destruct (Hk x) as [-> ->]; reflexivity].
  destruct (existsb _ (tokens db)); simpl; [by apply swept_swept|].
  erewrite (existsb_fmap (clear_grace T)); [|intros x; destruct (Hk x) as [-> ->]; reflexivity].
  destruct (negb _); simpl; [by apply swept_swept|].
  unfold swept. simpl. f_equal. unfold update_where. rewrite <-!list_fmap_compose. apply list_fmap_ext.
  intros i x _. simpl. destruct (Hk x) as [-> ->]. case_decide; simpl; [|by apply clear_grace_mono].
  unfold rotated. by destruct (clear_grace_keeps T x) as (-> & -> & _ & _).
Qed.

Lemma delete_swept T db id : swept T (delete (swept T db) id).1 = swept T (delete db id).1.
Proof.
  unfold delete. simpl. destruct (existsb _ _); simpl; [|by apply swept_swept].
  unfold swept. simpl. f_equal.
  rewrite (filter_fmap_comm _ _ (λ t, tk_subscription_id t ≠ id)).
  2: { intros x. by destruct (clear_grace_keeps T x) as (_ & -> & _ & _). }
  rewrite <-list_fmap_compose. apply list_fmap_ext. intros i x _. by apply clear_grace_mono.
Qed.

(** Transactions that do not touch the tokens commute with it exactly. *)
Lemma replace_swept T db c : replace (swept T db) c = (swept T (replace db c).1, (replace db c).2).
Proof. unfold replace. simpl. repeat case_goal; done. Qed.

Lemma create_link_swept T db l : create_link (swept T db) l = (swept T (create_link db l).1, (create_link db l).2).
Proof. unfold create_link. simpl. repeat case_goal; done. Qed.

Lemma revoke_swept T db sid id :
  revoke_for_subscription (swept T db) sid id =
  (swept T (revoke_for_subscription db sid id).1, (revoke_for_subscription db sid id).2).
Proof. unfold revoke_for_subscription. simpl. by case_goal. Qed.

Lemma update_swept T db s :
  update selector_to_json (swept T db) s =
  (swept T (update selector_to_json db s).1, (update selector_to_json db s).2).
Proof.
  unfold update. destruct (selector_to_json _); simpl; [|done].
  destruct (format_ts _); simpl; [|done]. destruct (format_ts_opt _); simpl; [|done].
  destruct (stored_integer _ _); simpl; [|done]. destruct (stored_integer _ _); simpl; [|done].
  destruct (List.find _ _); simpl; [|done]. by destruct (existsb _ _).
Qed.

Lemma short_code_loop_swept T db sid n draws :
  (short_code_loop (swept T db) sid n draws).1 = swept T (short_code_loop db sid n draws).1.
Proof.
  revert db draws. induction n as [|n IH]; intros db draws; simpl; [done|].
  destruct (drawn_token (draws 0)) as [code|]; [|done]. rewrite replace_swept.
  destruct (replace db _) as [db' [[]|e]]; simpl; [done|]. by destruct e.
Qed.

Definition is_sweep (c : Command) : bool := match c with Sweep _ => true | _ => false end.

Lemma exec_swept T db c : is_sweep c = false → swept T (exec (swept T db) c) = swept T (exec db c).
Proof.
  pose proof (λ db, swept_swept T T db (Z.le_refl T)) as Hid.
  destruct c as [d p|now p|id|d sid grace|sid draws|d sid expires|sid id|now|now|u|t]; intros Hs; simpl; try done.
  - unfold create_subscription. case_goal; [|apply Hid]. destruct a as [[s tk] pt].
    pose proof (create_with_token_swept T db s tk) as Hc.
    destruct (create_with_token _ (swept T db) _ _) as [d1 [[]|]], (create_with_token _ db _ _) as [d2 [[]|]]; done.
  - unfold update_subscription.
    change (find_by_id selector_from_json (swept T db) (up_id p)) with (find_by_id selector_from_json db (up_id p)).
    case_goal; [|apply Hid]. rename a into s. rewrite update_swept.
    destruct (update _ db s) as [d1 [[]|]]; apply Hid.
  - unfold delete_subscription. pose proof (delete_swept T db id) as Hc.
    destruct (delete (swept T db) id), (delete db id). done.
  - unfold rotate_token. change (require_sub (swept T db) sid) with (require_sub db sid).
    case_goal; [|apply Hid]. destruct a as [pt digest].
    pose proof (rotate_swept T db sid (mkToken (d_id d) sid digest None ((λ g, d_now d + g)%Z <$> grace) (d_now d))
      ((λ g, d_now d + g)%Z <$> grace)) as Hc.
    destruct (rotate (swept T db) _ _ _) as [d1 [|]], (rotate db _ _ _) as [d2 [|]]; done.
  - unfold regenerate_short_code. change (require_sub (swept T db) sid) with (require_sub db sid).
    destruct (require_sub db sid); [|apply Hid]. rewrite short_code_loop_swept. apply Hid.
  - unfold create_temp_link. change (require_sub (swept T db) sid) with (require_sub db sid).
    case_goal; [|apply Hid]. destruct a as [pt digest]. rewrite create_link_swept.
    destruct (create_link db _) as [d1 [[]|]]; apply Hid.
  - unfold revoke_temp_link. rewrite revoke_swept. destruct (revoke_for_subscription db sid id). apply Hid.
  - apply (Hid (prune db now)).
  - apply (Hid (mkDb _ _ _ _ _ _)).
  - apply (Hid (mkDb _ _ _ _ _ _)).
Qed.

Lemma exec_sweep_swept T db now : (now ≤ T)%Z → swept T (exec db (Sweep now)) = swept T db.
Proof.
  intros Hle. simpl. unfold clear_expired_grace_tokens.
  destruct (format_ts now) as [s|] eqn:Hs; simpl; [|done].
  apply format_ts_Ok in Hs as ->. apply (swept_swept (whole_seconds now) T).
  unfold whole_seconds, ns_per_s. pose proof (Z.mul_div_le now 1000000000). lia.
Qed.

(** Histories with and without their sweeps agree up to ended graces. *)
Lemma run_swept T cs a b :
  (∀ now, Sweep now ∈ cs → (now ≤ T)%Z) → swept T a = swept T b →
  swept T (run a cs) = swept T (run b (filter (λ c, is_sweep c = false) cs)).
Proof.
  revert a b. induction cs as [|c cs IH]; intros a b Hle Hab; [done|].
  rewrite filter_cons. destruct (decide (is_sweep c = false)) as [Hs|Hs]; simpl.
  - apply IH; [set_solver|]. rewrite <-(exec_swept T a c), <-(exec_swept T b c) by done. by rewrite Hab.
  - apply IH; [set_solver|]. destruct c; try done. rewrite <-Hab. apply exec_sweep_swept. set_solver.
Qed.

Lemma swept_one_row T db : one_row db → one_row (swept T db).
Proof.
  unfold one_row. simpl. intros Hn. rewrite <-list_fmap_compose. erewrite list_fmap_ext; [exact Hn|].
  intros i tk _. apply clear_grace_keeps.
Qed.

Lemma swept_digests T tk x : x ∈ digests_of (clear_grace T tk) → x ∈ digests_of tk.
Proof. rewrite !elem_of_digests_of. unfold clear_grace. case_goal; naive_solver. Qed.

(** Ended graces do not matter. *)
Lemma resolves_swept T db t x :
  one_row db → distinct db → (T ≤ t)%Z → resolves (swept T db) t x = resolves db t x.
Proof.
  intros Hn Hd Hle. apply option_eq. intros sid. rewrite !resolves_spec; [|done|done|by apply swept_one_row|].
  2: { intros t1 t2 y (o1 & -> & H1)%list_elem_of_fmap (o2 & -> & H2)%list_elem_of_fmap
         Hy1%swept_digests Hy2%swept_digests.
       destruct (clear_grace_keeps T o1) as (_ & -> & _), (clear_grace_keeps T o2) as (_ & -> & _).
       by apply (Hd o1 o2 y). }
  simpl. split.
  - intros (tk' & (tk & -> & Htk)%list_elem_of_fmap & Hs & Hx).
    destruct (clear_grace_keeps T tk) as (_ & H1 & H2 & _). rewrite H1 in Hs. rewrite H2 in Hx.
    exists tk. split_and!; [done..|]. destruct Hx as [?|[Hp Hv]]; [by left|right].
    unfold clear_grace in Hp, Hv. by destruct (grace_expired T tk).
  - intros (tk & Htk & Hs & Hx). exists (clear_grace T tk). split; [by apply list_elem_of_fmap_2|].
    destruct (clear_grace_keeps T tk) as (_ & H1 & H2 & _). rewrite H1, H2. split; [done|].
    destruct Hx as [?|[Hp Hv]]; [by left|right]. unfold clear_grace.
    destruct (grace_expired T tk) eqn:Hg; [exfalso|done].
    unfold grace_expired, is_previous_token_valid_at in *. rewrite Hp in Hv.
    destruct (tk_grace_until tk) as [u|]; [|done]. apply Z.leb_le in Hg. apply Z.ltb_lt in Hv. lia.
Qed.

(** *** Fresh histories *)

(** The digests a history issues, in order. *)
Definition issued (cs : list Command) : list string := omap issues cs.

Lemma fresh_history cs :
  NoDup (issued cs) →
  store_ok (run empty_db cs) ∧ distinct (run empty_db cs) ∧
  ∀ tk x, tk ∈ tokens (run empty_db cs) → x ∈ digests_of tk → x ∈ issued cs.
Proof.
  induction cs as [|c cs IH] using rev_ind; intros Hnd.
  { split_and!; [apply store_ok_empty|..]; intros ?; set_solver. }
  unfold issued in *. rewrite omap_app in Hnd. apply NoDup_app in Hnd as (Hnd & Hdis & _).
  destruct (IH Hnd) as (Hok & Hd & Hin). unfold run in *. rewrite foldl_snoc, omap_app.
  set (db := foldl exec empty_db cs) in *. pose proof (exec_committed db c) as Hc.
  pose proof (ok_token_subs db Hok) as Hn. split_and!.
  - by eapply committed_ok.
  - apply (committed_distinct db c _ Hn Hc Hd). intros x tk Hi Htk Hx.
    apply (Hdis x); [by eapply Hin|]. csimpl. rewrite Hi. left.
  - destruct (committed_digests db c _ Hn Hc) as [owner Ho]. intros tk x Htk Hx. rewrite elem_of_app.
    destruct (Ho tk x Htk Hx) as [[Hi _]|(o & Ho' & _ & Hx')]; [right|left; by eapply Hin].
    csimpl. rewrite Hi. left.
Qed.

(** the background sweep is invisible. Whatever history ran, with sweeps
    at whatever times, every token digest resolves, from the last sweep on, to
    the same subscription as if no sweep had ever run: cleanup removes exactly
    what delivery already refuses. *)
Theorem sweep_invisible cs T t x :
  NoDup (issued cs) → (∀ now, Sweep now ∈ cs → (now ≤ T)%Z) → (T ≤ t)%Z →
  resolves (run empty_db cs) t x = resolves (run empty_db (filter (λ c, is_sweep c = false) cs)) t x.
Proof.
  intros Hnd Hle Ht. destruct (fresh_history cs Hnd) as (Hok & Hd & _).
  assert (NoDup (issued (filter (λ c, is_sweep c = false) cs))) as Hnd'.
  { replace (issued (filter (λ c, is_sweep c = false) cs)) with (issued cs); [done|].
    unfold issued. clear. induction cs as [|c cs IH]; [done|]. rewrite filter_cons.
    destruct (decide (is_sweep c = false)) as [Hs|Hs]; csimpl; rewrite IH; [done|]. by destruct c. }
  destruct (fresh_history _ Hnd') as (Hok' & Hd' & _).
  rewrite <-(resolves_swept T _ t x (ok_token_subs _ Hok) Hd Ht).
  rewrite <-(resolves_swept T _ t x (ok_token_subs _ Hok') Hd' Ht).
  by rewrite (run_swept T cs empty_db empty_db).
Qed.

(** ** Retired credentials *)

(** From [T] on, no token row answers to the digest. *)
Definition dead (db : Db) (T : Z) (x : string) : Prop :=
  ∀ tk, tk ∈ tokens db → tk_digest tk ≠ x ∧
    (tk_previous_digest tk = Some x → ∃ u, tk_grace_until tk = Some u ∧ (u ≤ T)%Z).

(** From [T] on, no temporary link answers to it. *)
Definition dead_link (db : Db) (T : Z) (x : string) : Prop :=
  ∀ l, l ∈ links db → tl_digest l = x → tl_revoked l = true ∨ (tl_expires_at l ≤ T)%Z.

Lemma committed_links db c db' :
  committed db c db' → ∀ l', l' ∈ links db' →
    issues_link c = Some (tl_digest l') ∨
    ∃ l, l ∈ links db ∧ tl_digest l' = tl_digest l ∧ tl_expires_at l' = tl_expires_at l ∧
      (tl_revoked l = true → tl_revoked l' = true).
Proof.
  intros Hc.
  destruct Hc as [c|d p s pt dg db' Hdt Hdg ? ? ? ? ? Hc|now p s db' ? ? ? Hu|id db' Hd|d sid g pt dg db' t Hdt Hdg Hr
    |sid draws i code db' ? Hr|d sid e pt dg db' Hdt Hdg Hl|sid id db' Hr|now n db' Hs|now|u|t];
    intros l' Hl'; try (by eauto 10).
  - apply create_with_token_Ok in Hc as (? & ? & _ & -> & _). by eauto 10.
  - apply update_Ok in Hu as (? & ? & ? & ? & ? & ? & _ & _ & _ & _ & _ & -> & _). by eauto 10.
  - unfold delete in Hd. case_hyp Hd; [|done]. injection Hd as <-.
    apply list_elem_of_filter in Hl' as [_ ?]. by eauto 10.
  - unfold rotate in Hr. repeat (case_hyp Hr; try done). injection Hr as <-. by eauto 10.
  - apply replace_Ok in Hr as (? & _ & _ & ->). by eauto 10.
  - apply create_link_Ok in Hl as (ex & cr & _ & _ & _ & ->).
    apply elem_of_app in Hl' as [?|Hl'%list_elem_of_singleton]; [by eauto 10|]. subst. left. simpl.
    by apply drawn_digest_Some with pt.
  - unfold revoke_for_subscription in Hr. case_hyp Hr; [|done]. injection Hr as <-.
    apply elem_of_update_where in Hl' as (l & Hl & [[_ ->]|[_ ->]]); by eauto 10.
  - apply sweep_Ok in Hs as (? & _ & ->). by eauto 10.
  - right. exists l'. split; [|done]. simpl in Hl'. eapply elem_of_submseteq; [exact Hl'|].
    apply sublist_submseteq, prune_links_sublist.
Qed.

Lemma committed_dead db c db' T x :
  one_row db → committed db c db' → issues c ≠ Some x → dead db T x → dead db' T x.
Proof.
  intros Hn Hc Hi Hd tk' Htk'. destruct (committed_tokens db c db' Hn Hc) as [owner Ho].
  destruct (Ho tk' Htk') as [(tk & Htk & _ & Hcase)|(Hi' & Hp & _)]; [|split; congruence].
  destruct (Hd tk Htk) as [H1 H2].
  destruct Hcase as [->|[[He Hp]|(Hi' & Hp & _)]]; [done|..]; split; congruence.
Qed.

Lemma committed_dead_link db c db' T x :
  committed db c db' → issues_link c ≠ Some x → dead_link db T x → dead_link db' T x.
Proof.
  intros Hc Hi Hd l' Hl' Hx. destruct (committed_links db c db' Hc l' Hl') as [?|(l & Hl & H1 & H2 & H3)]; [congruence|].
  destruct (Hd l Hl) as [?|?]; [congruence|auto|right; congruence].
Qed.

(** retired credentials never serve again. Once a digest belongs to no
    token row (or only to a grace over by [T]) and to no unrevoked, unexpired
    temporary link, no later command, short of drawing the same random token
    again, makes the token resolve at or after [T]: the public route sees an
    unknown token. *)
Theorem retired_never_serves db cs T t token x :
  store_ok db → token_digest token = Ok x → dead db T x → dead_link db T x →
  (∀ c, c ∈ cs → issues c ≠ Some x ∧ issues_link c ≠ Some x) → (T ≤ t)%Z →
  resolve_token (run db cs) t token = Err SA_TokenNotFound ∧
  (resolve_temp_link (run db cs) t token = Err SA_TokenNotFound ∨
   resolve_temp_link (run db cs) t token = Err SA_TempLinkInvalid).
Proof.
  intros Hok Hx Hd Hl Hfresh Ht.
  assert (dead (run db cs) T x ∧ dead_link (run db cs) T x) as [Hd' Hl'].
  { revert db Hok Hd Hl. induction cs as [|c cs IH]; intros db Hok Hd Hl; [done|]. simpl.
    pose proof (exec_committed db c) as Hc. destruct (Hfresh c ltac:(left)) as [Hi Hil].
    apply IH; [intros c' Hc'; apply Hfresh; by right|by eapply committed_ok|..].
    - by eapply committed_dead; [apply ok_token_subs|..].
    - by eapply committed_dead_link. }
  unfold resolve_token, resolve_temp_link, resolve_digest. rewrite Hx. simpl. split.
  - destruct (find_by_token_hash _ _) as [tk|] eqn:Hf.
    { apply find_Some_elem in Hf as [Htk He%String.eqb_eq]. by destruct (Hd' tk Htk). }
    destruct (find_by_previous_token_hash _ _) as [tk|] eqn:Hf'; simpl; [|done].
    apply find_Some_elem in Hf' as [Htk He]. unfold has_previous in He.
    destruct (tk_previous_digest tk) as [y|] eqn:Hp; [|done]. apply String.eqb_eq in He as ->.
    destruct (Hd' tk Htk) as [_ H2]. destruct (H2 Hp) as (u & Hu & Hle).
    unfold is_previous_token_valid_at. rewrite Hp, Hu. by rewrite (proj2 (Z.ltb_ge t u)) by lia.
  - destruct (find_link_by_token_hash _ _) as [l|] eqn:Hf; simpl; [|by left]. right.
    apply find_Some_elem in Hf as [Hin He%String.eqb_eq]. unfold is_valid_at.
    destruct (Hl' l Hin He) as [->|Hle]; [done|]. by rewrite (proj2 (Z.ltb_ge t (tl_expires_at l))), andb_false_r by lia.
Qed.

(** revocation and deletion retire credentials at once. After a temporary
    link is revoked its digest is dead; after a subscription is deleted, so is
    every digest its token row answered to and every link it had. *)
Theorem revocation_retires db sid :
  store_ok db → distinct db →
  (∀ id db', revoke_temp_link db sid id = (db', Ok ()) →
     ∃ l, l ∈ links db ∧ tl_id l = id ∧ tl_subscription_id l = sid ∧ ∀ T, dead_link db' T (tl_digest l)) ∧
  (∀ db', delete_subscription db sid = (db', Ok ()) →
     (∀ tk x T, tk ∈ tokens db → tk_subscription_id tk = sid → x ∈ digests_of tk → dead db' T x) ∧
     (∀ l T, l ∈ links db → tl_subscription_id l = sid → dead_link db' T (tl_digest l)) ∧
     (∀ c, c ∈ codes db → sc_subscription_id c = sid →
        resolve_short_code db' (sc_code c) = Err SA_ShortCodeNotFound)).
Proof.
  intros Hok Hd. split.
  - intros id db'. unfold revoke_temp_link, revoke_for_subscription.
    destruct (existsb _ _) eqn:He; simpl; [|done]. intros [= <-].
    apply existsb_true in He as (l & Hl & Hk). apply bool_decide_eq_true_1 in Hk as [= Hid Hs].
    exists l. split_and!; [done..|]. intros T l' (o & Ho & Hc)%elem_of_update_where Hx. left.
    destruct Hc as [[_ ->]|[Hne ->]]; [done|].
    assert (o = l) as -> by (eapply NoDup_fmap_elem; [by apply ok_link_digests|done..]). congruence.
  - intros db'. unfold delete_subscription, delete. destruct (existsb _ _); simpl; [|done]. intros [= <-].
    split_and!.
    + intros tk x T Htk Hs Hx tk' [Hne Htk']%list_elem_of_filter.
      assert (x ∉ digests_of tk') as Hno by (intros Hx'; apply Hne; rewrite <-Hs; by apply (Hd tk' tk x)).
      rewrite elem_of_digests_of in Hno. naive_solver.
    + intros l T Hl Hs l' [Hne Hl']%list_elem_of_filter Hx.
      assert (l' = l) as -> by (eapply NoDup_fmap_elem; [by apply ok_link_digests|done..]). done.
    + intros c Hc Hs. unfold resolve_short_code, find_by_code. simpl.
      destruct (List.find _ _) as [c'|] eqn:Hf; [|done]. exfalso.
      apply find_Some_elem in Hf as [[Hne Hc']%list_elem_of_filter He%String.eqb_eq].
      assert (c' = c) as -> by (eapply NoDup_fmap_elem; [by apply ok_codes|done..]). done.
Qed.

End history.

(** ** Witnesses *)

(** The demonstration store before its rotation. *)
Definition demo_before : Db := run empty_db [PutUser demo_user; PutTemplate 1; demo_create].

Lemma demo_fresh cs : NoDup (issued cs) → store_ok (run empty_db cs) ∧ distinct (run empty_db cs).
Proof. intros (? & ? & _)%fresh_history. done. Qed.

Lemma demo_before_ok : store_ok demo_before ∧ distinct demo_before.
Proof. apply demo_fresh. apply (bool_decide_unpack _). vm_compute. exact I. Qed.

Lemma rotation_window_witness :
  let db' := exec demo_before demo_rotate in
  resolves db' 0 "subscription_token:first" = Some 10%N ∧
  resolves db' demo_hour "subscription_token:first" ≠ Some 10%N.
Proof.
  destruct demo_before_ok as [Hok Hd].
  assert (∀ t x, resolves (exec demo_before demo_rotate) t x = Some 10%N ↔
    x = "subscription_token:second" ∨ x = "subscription_token:first" ∧ in_grace (Some demo_hour) 0 t) as H.
  { intros t x.
    refine (proj1 (rotation_window demo_before (demo_draw "second" 21 0 0) 10 (Some demo_hour)
      (exec demo_before demo_rotate) 20 "second" "subscription_token:second"
      (mkToken 20 10 "subscription_token:first" None None 0) t x Hok Hd _ _ _ _));
      [vm_compute; reflexivity|reflexivity| |vm_compute; reflexivity].
    intros tk Htk. vm_compute in Htk. apply list_elem_of_singleton in Htk as ->. vm_compute.
    intros [?|?%elem_of_nil]%elem_of_cons; done. }
  split; [apply H; right; split; [reflexivity|vm_compute; reflexivity]|].
  rewrite H. intros [?|[_ ?]]; [discriminate|]. vm_compute in H0. discriminate.
Defined.

Lemma sweep_invisible_witness :
  resolves (run empty_db demo_history) 100 "subscription_token:first" =
  resolves (run empty_db (filter (λ c, is_sweep c = false) demo_history)) 100 "subscription_token:first".
Proof.
  apply (sweep_invisible demo_history 60 100 "subscription_token:first").
  - apply (bool_decide_unpack _). vm_compute. exact I.
  - intros now Hn. unfold demo_history in Hn. rewrite !elem_of_cons in Hn.
    repeat (destruct Hn as [Hn|Hn]; [first [discriminate Hn|injection Hn as ->; lia]|]). by apply elem_of_nil in Hn.
  - lia.
Defined.

(** The temporary link is revoked, and the rotation goes on. *)
Definition demo_revoked : Db := run empty_db (demo_history ++ [RevokeLink 10 40]).

Lemma retired_never_serves_witness :
  resolve_temp_link (run demo_revoked [Rotate (demo_draw "third" 22 0 0) 10 None; Sweep 70]) 80 "link"
    = Err SA_TempLinkInvalid.
Proof.
  assert (store_ok demo_revoked) as Hok.
  { apply (demo_fresh (demo_history ++ [RevokeLink 10 40])). apply (bool_decide_unpack _). vm_compute. exact I. }
  destruct (retired_never_serves (cext := demo_command_externals) demo_revoked
    [Rotate (demo_draw "third" 22 0 0) 10 None; Sweep 70] 0 80 "link" "subscription_token:link" Hok eq_refl) as [_ [H|H]].
  - intros tk Htk. vm_compute in Htk. apply list_elem_of_singleton in Htk as ->. vm_compute. split; discriminate.
  - intros l Hl _. vm_compute in Hl. apply list_elem_of_singleton in Hl as ->. by left.
  - intros c Hc. rewrite !elem_of_cons in Hc.
    destruct Hc as [->|[->|Hc%elem_of_nil]]; [split; discriminate|split; discriminate|done].
  - lia.
  - vm_compute in H. discriminate H.
  - exact H.
Defined.

Lemma revocation_retires_witness :
  dead (run empty_db (demo_history ++ [Delete 10])) 0 "subscription_token:second".
Proof.
  assert (NoDup (issued demo_history)) as Hnd by (apply (bool_decide_unpack _); vm_compute; exact I).
  destruct (demo_fresh demo_history Hnd) as [Hok Hd].
  destruct (revocation_retires (run empty_db demo_history) 10 Hok Hd) as [_ Hdel].
  destruct (Hdel (run empty_db (demo_history ++ [Delete 10]))) as [Hdead _]; [vm_compute; reflexivity|].
  apply (Hdead (mkToken 20 10 "subscription_token:second" (Some "subscription_token:first") (Some demo_hour) 0));
    [vm_compute; left|reflexivity|left].
Defined.

End Credentials.
