(* ===== verification/Crypto.v ===== *)
(** * Security primitives ([crates/deve-sub-security/src])

    [cipher.rs], [subkey.rs], [envelope.rs], [hmac.rs], [token.rs],
    [totp.rs] and [recovery.rs] over the primitives of the crates they call:
    HMAC, SHA-256 and XChaCha20-Poly1305 are the operations of [CryptoLib],
    with the laws callers rely on in [CryptoLaws]; base64 and URL parsing come
    from [UrlText.UrlLib].  Random bytes are arguments: an entropy source that
    fails is [None].  Byte strings are strings. *)

From Stdlib Require Import Ascii.
From stdpp Require Import pretty.
From S2P Require Import Prelude Kernel Node Text UrlText.
Import Text UrlText.

Module Crypto.

#[local] Arguments String.append !_ _ / : simpl nomatch.

Inductive SecurityError :=
  | SecCrypto (m : string)
  | PasswordHash (m : string)
  | PasswordWorkBusy
  | MasterKeyError (m : string)
  | InvalidSession.

Class CryptoLib := {
  hmac_sha256 : string → string → string;                  (* key, message *)
  hmac_sha1 : string → string → list N;                    (* the 20 digest bytes *)
  sha256 : string → string;
  aead_encrypt : string → string → string → string → option string;  (* key, nonce, aad, message *)
  aead_decrypt : string → string → string → string → option string   (* key, nonce, aad, ciphertext *)
}.

Class CryptoLaws (C : CryptoLib) : Prop := {
  hmac_sha256_length k m : String.length (hmac_sha256 k m) = 32;
  hmac_sha1_length k m : length (hmac_sha1 k m) = 20;
  hmac_sha1_bytes k m : Forall (λ b, (b < 256)%N) (hmac_sha1 k m);
  aead_roundtrip k n a m c : aead_encrypt k n a m = Some c → aead_decrypt k n a c = Some m
}.

Section crypto.
Context `{L : UrlLib} `{C : CryptoLib}.

(** ** Authenticated encryption ([cipher.rs]) *)

Definition nonce_len : nat := 24.

(** [XChaCha20Poly1305::new_from_slice] *)
Definition check_key (key : string) : Result SecurityError () :=
  if Nat.eqb (String.length key) 32 then Ok () else Err (SecCrypto "invalid key length").

(** [encrypt_aad]; [nonce] is what [generate_nonce] read, if it could. *)
Definition encrypt_aad (nonce : option string) (key plaintext aad : string) :
    Result SecurityError (string * string) :=
  let? _ := check_key key in
  let? nonce := ok_or nonce (SecCrypto "nonce generation failed") in
  let? ct := ok_or (aead_encrypt key nonce aad plaintext) (SecCrypto "encryption failed") in
  Ok (ct, nonce).

(** [decrypt_aad] *)
Definition decrypt_aad (key ciphertext nonce aad : string) : Result SecurityError string :=
  if negb (Nat.eqb (String.length nonce) nonce_len)
  then Err (SecCrypto ("invalid nonce length: expected 24, got " +:+ pretty (String.length nonce)))
  else
    let? _ := check_key key in
    ok_or (aead_decrypt key nonce aad ciphertext) (SecCrypto "decryption failed").

(** [encrypt], [decrypt]: no associated data. *)
Definition encrypt (nonce : option string) (key plaintext : string) := encrypt_aad nonce key plaintext "".
Definition decrypt (key ciphertext nonce : string) := decrypt_aad key ciphertext nonce "".

Definition encode_b64 (bytes : string) : string := base64_encode URL_SAFE_NO_PAD bytes.
Definition decode_b64 (s : string) : Result SecurityError string :=
  ok_or (base64_decode URL_SAFE_NO_PAD s) (SecCrypto "base64 decode failed").

(** [encrypt_to_b64], [decrypt_from_b64] *)
Definition encrypt_to_b64 (nonce : option string) (key plaintext : string) :
    Result SecurityError (string * string) :=
  let? (ct, n) := encrypt nonce key plaintext in
  Ok (encode_b64 ct, encode_b64 n).
Definition decrypt_from_b64 (key ct_b64 nonce_b64 : string) : Result SecurityError string :=
  let? ct := decode_b64 ct_b64 in
  let? nonce := decode_b64 nonce_b64 in
  decrypt key ct nonce.

(** ** Subkeys ([subkey.rs]): HKDF-SHA256 with one output block *)

Definition extract (salt ikm : string) : string := hmac_sha256 salt ikm.
Definition expand (prk info : string) : string := hmac_sha256 prk (info +:+ String "001" "").
Definition derive_envelope_subkey (master_key context : string) : string :=
  expand (extract "deve-sub-envelope-v2" master_key) context.

(** ** Envelopes ([envelope.rs]) *)

Definition envelope_prefix : string := "v2:".

Definition seal_parts (nonce : option string) (master_key context plaintext : string) :
    Result SecurityError (string * string) :=
  encrypt_aad nonce (derive_envelope_subkey master_key context) plaintext context.

Definition open_parts (master_key context ciphertext nonce : string) : Result SecurityError string :=
  decrypt_aad (derive_envelope_subkey master_key context) ciphertext nonce context.

Definition seal (nonce : option string) (master_key context plaintext : string) :
    Result SecurityError string :=
  let? (ct, n) := encrypt_aad nonce (derive_envelope_subkey master_key context) plaintext context in
  Ok (envelope_prefix +:+ encode_b64 ct +:+ ":" +:+ encode_b64 n).

Definition open (master_key context envelope : string) : Result SecurityError string :=
  let? body := ok_or (strip_prefix envelope_prefix envelope) (SecCrypto "envelope missing v2 prefix") in
  let? (ct_b64, nonce_b64) := ok_or (split_once ":" body) (SecCrypto "envelope missing separator") in
  let? ct := decode_b64 ct_b64 in
  let? nonce := decode_b64 nonce_b64 in
  decrypt_aad (derive_envelope_subkey master_key context) ct nonce context.

Definition is_envelope (s : string) : bool := starts_with envelope_prefix s.

(** [mask_url] *)
Definition mask_url (url : string) : string :=
  match url_parse url with
  | Err _ => "***"
  | Ok u =>
      match u_host_str u with
      | None => "***"
      | Some h =>
          match u_port u with
          | Some p => u_scheme u +:+ "://" +:+ h +:+ ":" +:+ pretty p +:+ "/***"
          | None => u_scheme u +:+ "://" +:+ h +:+ "/***"
          end
      end
  end.

(** ** Keyed digests ([hmac.rs]) *)

Definition purpose_session : string := "session".
Definition purpose_recovery : string := "recovery".
Definition purpose_challenge : string := "challenge".
Definition purpose_node_identity : string := "node-identity-v1".

Definition hmac_digest (purpose value key : string) : string :=
  base64_encode URL_SAFE_NO_PAD (hmac_sha256 key (purpose +:+ ":" +:+ value)).

Definition identity_fingerprint (purpose value : string) (key : option string) : string :=
  match key with
  | Some k => hmac_digest purpose value k
  | None => base64_encode URL_SAFE_NO_PAD (sha256 (purpose +:+ ":" +:+ value))
  end.

(** ** Tokens ([token.rs]) *)

(** [generate_session_token] from the 32 random bytes. *)
Definition generate_session_token (entropy : option string) : Result SecurityError string :=
  let? bytes := ok_or entropy (SecCrypto "entropy source failure") in
  Ok (base64_encode URL_SAFE_NO_PAD bytes).

Definition base62_alphabet : string :=
  "0123456789ABCDEFGHIJKLMNOPQRSTUVWXYZabcdefghijklmnopqrstuvwxyz".
Definition short_code_len : nat := 22.
Definition reject_threshold : N := 248.

Definition alphabet_char (alphabet : string) (i : N) : string := String.substring (N.to_nat i) 1 alphabet.

(** The sampling loop of [generate_short_code]: bytes at or above the
    threshold are skipped; [None] while the stream given so far is used up. *)
Fixpoint sample_code (need : nat) (stream : list N) (code : string) : option string :=
  match need with
  | O => Some code
  | S need' =>
      match stream with
      | [] => None
      | b :: stream =>
          if N.ltb b reject_threshold
          then sample_code need' stream (code +:+ alphabet_char base62_alphabet (b mod 62)%N)
          else sample_code need stream code
      end
  end.

Definition generate_short_code (stream : list N) : option string := sample_code short_code_len stream "".

(** ** TOTP ([totp.rs]) *)

Definition period : N := 30.
Definition window : N := 1.

Definition counter (timestamp : N) : N := (timestamp / period)%N.

(** [u64::to_be_bytes] *)
Definition to_be_bytes (n : N) : string :=
  String.concat "" ((λ i, String (ascii_of_N (N.land (N.shiftr n (8 * N.of_nat i)) 255)) "") <$> reverse (seq 0 8)).

(** [hotp]: dynamic truncation of RFC 4226; an index past the digest panics. *)
Definition hotp (secret : string) (counter : N) : option N :=
  let result := hmac_sha1 secret (to_be_bytes counter) in
  last_byte ← last result;
  let offset := N.to_nat (N.land last_byte 15) in
  b0 ← result !! offset;
  b1 ← result !! (offset + 1);
  b2 ← result !! (offset + 2);
  b3 ← result !! (offset + 3);
  let truncated := N.lor (N.lor (N.lor (N.shiftl (N.land b0 127) 24) (N.shiftl b1 16)) (N.shiftl b2 8)) b3 in
  Some (truncated mod 10 ^ 6)%N.

(** [verify_code_timestep]: every step of the window is tried and the last
    match kept. *)
Definition verify_code_timestep (now : N) (secret : string) (code : N) : option N :=
  foldl (λ matched offset,
      let candidate := ((counter now - window) + offset)%N in
      if bool_decide (hotp secret candidate = Some code) then Some candidate else matched)
    None [0%N; 1%N; 2%N].

Definition verify_code (now : N) (secret : string) (code : N) : bool :=
  bool_decide (is_Some (verify_code_timestep now secret code)).

(** [generate_code] *)
Definition generate_code (now : N) (secret : string) : option N := hotp secret (counter now).

(** ** Recovery codes ([recovery.rs]) *)

Definition code_count : nat := 10.
Definition recovery_alphabet : string := "ABCDEFGHJKLMNPQRSTUVWXYZ23456789".

(** [generate_one] from its ten random bytes. *)
Definition generate_one (buf : list N) : string :=
  let chars := (λ b, alphabet_char recovery_alphabet (b mod 32)%N) <$> buf in
  String.concat "" (take 5 chars) +:+ "-" +:+ String.concat "" (drop 5 chars).

(** [generate_codes]: blocks are drawn until the batch is full. *)
Fixpoint collect_codes (blocks : list (list N)) (codes : list string) : option (list string) :=
  if (length codes <? code_count)%nat
  then match blocks with
       | [] => None
       | b :: blocks =>
           let code := generate_one b in
           collect_codes blocks (if bool_decide (code ∈ codes) then codes else codes ++ [code])
       end
  else Some codes.
Definition generate_codes (blocks : list (list N)) : option (list string) := collect_codes blocks [].

Definition is_ascii_alphanumeric (c : ascii) : bool :=
  in_range 48 57 c || in_range 65 90 c || in_range 97 122 c.
Definition to_ascii_uppercase (c : ascii) : ascii :=
  if in_range 97 122 c then ascii_of_N (code c - 32)%N else c.

Fixpoint normalize_chars (s : string) : string :=
  match s with
  | "" => ""
  | String c s =>
      if is_ascii_alphanumeric c then String (to_ascii_uppercase c) (normalize_chars s) else normalize_chars s
  end.

(** [normalize_code] *)
Definition normalize_code (code : string) : string := normalize_chars (trim code).

(** ** Lemmas *)

Lemma strip_prefix_app p s : strip_prefix p (p +:+ s) = Some s.
Proof. induction p as [|c p IH]; simpl; [done|]. by rewrite Ascii.eqb_refl. Qed.

Context {HL : UrlLaws L} {HC : CryptoLaws C}.

Lemma derive_envelope_subkey_length k ctx : String.length (derive_envelope_subkey k ctx) = 32.
Proof. apply hmac_sha256_length. Qed.

Lemma decode_encode_b64 s : decode_b64 (encode_b64 s) = Ok s.
Proof. unfold decode_b64, encode_b64. by rewrite base64_roundtrip. Qed.

Lemma encrypt_aad_Ok nonce key m aad ct n :
  encrypt_aad nonce key m aad = Ok (ct, n) →
  nonce = Some n ∧ String.length key = 32 ∧ aead_encrypt key n aad m = Some ct.
Proof.
  unfold encrypt_aad, check_key. destruct (Nat.eqb_spec (String.length key) 32); simpl; [|done].
  destruct nonce as [n0|]; simpl; [|done]. destruct (aead_encrypt key n0 aad m) eqn:He; simpl; [|done].
  by intros [= <- <-].
Qed.

(** What was encrypted decrypts, given the same key, nonce and context. *)
Lemma decrypt_encrypt_aad nonce key m aad ct n :
  String.length n = nonce_len →
  encrypt_aad nonce key m aad = Ok (ct, n) → decrypt_aad key ct n aad = Ok m.
Proof.
  intros Hn (-> & Hk & He)%encrypt_aad_Ok. unfold decrypt_aad, check_key. rewrite Hn, Hk. simpl.
  by rewrite (aead_roundtrip _ _ _ _ _ He).
Qed.

Lemma open_seal nonce key ctx m env :
  (∀ n, nonce = Some n → String.length n = nonce_len) →
  seal nonce key ctx m = Ok env → open key ctx env = Ok m.
Proof.
  intros Hn. unfold seal, open. destruct (encrypt_aad _ _ _ _) as [[ct n]|] eqn:He; [|done].
  cbn [result_bind]. intros <-%Ok_inj. rewrite strip_prefix_app. cbn [ok_or result_bind String.append].
  rewrite split_once_app by by apply base64_lacks.
  cbn. rewrite !decode_encode_b64. cbn [result_bind].
  eapply decrypt_encrypt_aad; [|done]. apply Hn. by apply encrypt_aad_Ok in He as [? _].
Qed.

Lemma seal_total n key ctx m ct :
  aead_encrypt (derive_envelope_subkey key ctx) n ctx m = Some ct → ∃ env, seal (Some n) key ctx m = Ok env.
Proof.
  intros He. unfold seal, encrypt_aad, check_key. rewrite derive_envelope_subkey_length. simpl.
  rewrite He. simpl. eauto.
Qed.

End crypto.

End Crypto.
