(* ===== verification/Source.v ===== *)
(** * Subscription sources: data, validation and entry filters

    [crates/deve-sub-domain/src/source/] ([entity.rs], [snapshot.rs],
    [source_item.rs], [refresh_job.rs], [error.rs], the entry types of
    [ports.rs]), the SQLite discriminators of
    [crates/deve-sub-storage-sqlite/src/discriminant.rs], the errors and the
    input validation of [crates/deve-sub-application/src/source/]
    ([error.rs], [fetcher.rs], [commands.rs]), the entry filters ([filter.rs])
    and the region enrichment ([geoip.rs]). *)

From stdpp Require Import pretty.
From S2P Require Import Prelude Kernel Node Text Ip UrlText Selection Chain.
Import Text UrlText Selection.

Module Source.

(** [Display] of an identifier: the 26 Crockford base-32 digits of a ULID. *)
Definition ulid_digit (d : N) : string :=
  String.substring (N.to_nat d) 1 "0123456789ABCDEFGHJKMNPQRSTVWXYZ".
Definition id_display (id : N) : string :=
  String.concat "" ((λ i, ulid_digit (N.land (N.shiftr id (5 * N.of_nat i)) 31)) <$> reverse (seq 0 26)).

(** ** The source aggregate ([entity.rs]) *)

Inductive SourceType :=
  | Auto | Base64 | UriList | MihomoYaml | SingboxJson | XrayJson | V2rayJson | Shadowrocket.

(** [impl Display for SourceType] *)
Definition source_type_display (t : SourceType) : string :=
  match t with
  | Auto => "auto" | Base64 => "base64" | UriList => "uri_list" | MihomoYaml => "mihomo_yaml"
  | SingboxJson => "singbox_json" | XrayJson => "xray_json" | V2rayJson => "v2ray_json"
  | Shadowrocket => "shadowrocket"
  end.

(** ** Errors ([source/error.rs]) *)

Inductive SourceError :=
  | SourceNotFound
  | NodeNotFound (id : string)
  | NodeChain (e : Chain.NodeChainError)
  | NameExists
  | InvalidUrl (m : string)
  | InvalidSourceType (m : string)
  | SnapshotNotFound
  | RefreshInProgress (id : string)
  | SsrfRejected (m : string)
  | FetchTimeout (secs : N)
  | ResponseTooLarge (bytes : N)
  | SourceParseError (m : string)
  | Storage (m : string)
  | TagNotFound
  | TagExists.

(** [impl Display for SourceError]; the text of a chain error is given. *)
Definition source_error_display (chain_text : Chain.NodeChainError → string) (e : SourceError) : string :=
  match e with
  | SourceNotFound => "source not found"
  | NodeNotFound id => "node not found: " +:+ id
  | NodeChain e => chain_text e
  | NameExists => "source name already exists"
  | InvalidUrl m => "invalid source URL: " +:+ m
  | InvalidSourceType m => "invalid source type: " +:+ m
  | SnapshotNotFound => "snapshot not found"
  | RefreshInProgress id => "refresh already in progress for source " +:+ id
  | SsrfRejected m => "SSRF rejected: " +:+ m
  | FetchTimeout n => "fetch timeout after " +:+ pretty n +:+ "s"
  | ResponseTooLarge n => "response too large: " +:+ pretty n +:+ " bytes"
  | SourceParseError m => "parse error: " +:+ m
  | Storage m => "storage error: " +:+ m
  | TagNotFound => "tag not found"
  | TagExists => "tag name already exists"
  end.

(** [impl FromStr for SourceType] *)
Definition source_type_from_str (s : string) : Result SourceError SourceType :=
  if String.eqb s "auto" then Ok Auto
  else if String.eqb s "base64" then Ok Base64
  else if String.eqb s "uri_list" then Ok UriList
  else if String.eqb s "mihomo_yaml" then Ok MihomoYaml
  else if String.eqb s "singbox_json" then Ok SingboxJson
  else if String.eqb s "xray_json" then Ok XrayJson
  else if String.eqb s "v2ray_json" then Ok V2rayJson
  else if String.eqb s "shadowrocket" then Ok Shadowrocket
  else Err (InvalidSourceType s).

Record SourceFilterRules := mkRules {
  include_protocols : list string;
  exclude_protocols : list string;
  include_regions : list string;
  exclude_regions : list string
}.

Record Source := mkSource {
  s_id : N;
  s_name : string;
  s_source_type : SourceType;
  s_url : string;
  s_http_method : string;
  s_headers : option string;
  s_auto_update : bool;
  s_update_interval_secs : N;
  s_enabled : bool;
  s_keep_on_fail : bool;
  s_filter_rules : option SourceFilterRules;
  s_created_at : Z
}.

(** [Source::new]; the identifier and the clock are arguments. *)
Definition source_new (id : N) (now : Z) (name : string) (t : SourceType) (url : string) : Source :=
  mkSource id name t url "GET" None false 3600 true true None now.

Record SourceConfigUpdate := mkUpdate {
  u_id : N;
  u_name : string;
  u_source_type : SourceType;
  u_url : option string;
  u_auto_update : bool;
  u_update_interval_secs : N;
  u_enabled : bool;
  u_keep_on_fail : bool;
  u_filter_rules : option SourceFilterRules
}.

(** ** Snapshots and items ([snapshot.rs], [source_item.rs]) *)

Record SourceSnapshot := mkSnapshot {
  sn_id : N;
  sn_source_id : N;
  sn_version : N;
  sn_fetched_at : Z;
  sn_etag : option string;
  sn_node_count : N;
  sn_is_active : bool
}.

Inductive ItemParseStatus := Parsed | Duplicate | Unsupported | Failed | Filtered.

(** [impl Display for ItemParseStatus] *)
Definition item_status_display (s : ItemParseStatus) : string :=
  match s with
  | Parsed => "parsed" | Duplicate => "duplicate" | Unsupported => "unsupported"
  | Failed => "failed" | Filtered => "filtered"
  end.

(** [impl FromStr for ItemParseStatus] *)
Definition item_status_from_str (s : string) : Result string ItemParseStatus :=
  if String.eqb s "parsed" then Ok Parsed
  else if String.eqb s "duplicate" then Ok Duplicate
  else if String.eqb s "unsupported" then Ok Unsupported
  else if String.eqb s "failed" then Ok Failed
  else if String.eqb s "filtered" then Ok Filtered
  else Err ("invalid parse status: " +:+ s).

(** ** Refresh jobs ([refresh_job.rs]) *)

Inductive JobStatus := JPending | JRunning | JCompleted | JFailed | JCancelled.

#[export] Instance JobStatus_eq_dec : EqDecision JobStatus.
Proof. solve_decision. Defined.

(** [SourceRefreshJobStatus::as_kebab] *)
Definition status_as_kebab (s : JobStatus) : string :=
  match s with
  | JPending => "pending" | JRunning => "running" | JCompleted => "completed"
  | JFailed => "failed" | JCancelled => "cancelled"
  end.

(** [SourceRefreshJobStatus::is_terminal] *)
Definition is_terminal (s : JobStatus) : bool :=
  match s with JCompleted | JFailed | JCancelled => true | _ => false end.

Inductive RefreshPhase := Idle | Fetching | Parsing | Enriching | Reconciling | Publishing.

(** [RefreshPhase::as_kebab] *)
Definition phase_as_kebab (p : RefreshPhase) : string :=
  match p with
  | Idle => "idle" | Fetching => "fetching" | Parsing => "parsing"
  | Enriching => "enriching" | Reconciling => "reconciling" | Publishing => "publishing"
  end.

Record ReconcileResult := mkReconcileResult {
  new_nodes : N;
  duplicate_nodes : N;
  reactivated_nodes : N;
  missing_nodes : N
}.

(** [ReconcileResult::default] *)
Definition reconcile_default : ReconcileResult := mkReconcileResult 0 0 0 0.

Record SourceRefreshJob := mkJob {
  j_id : N;
  j_source_id : N;
  j_status : JobStatus;
  j_phase : RefreshPhase;
  j_started_at : Z;
  j_finished_at : option Z;
  j_error_message : option string;
  j_counts : ReconcileResult;
  j_not_modified : bool
}.

(** ** SQLite discriminators ([discriminant.rs]) *)

(** [impl SqliteDiscriminant for SourceRefreshJobStatus] *)
Definition status_encode (s : JobStatus) : string :=
  match s with
  | JPending => "P" | JRunning => "R" | JCompleted => "C" | JFailed => "F" | JCancelled => "X"
  end.
Definition status_decode (c : string) : option JobStatus :=
  if String.eqb c "P" then Some JPending
  else if String.eqb c "R" then Some JRunning
  else if String.eqb c "C" then Some JCompleted
  else if String.eqb c "F" then Some JFailed
  else if String.eqb c "X" then Some JCancelled
  else None.

(** [impl SqliteDiscriminant for RefreshPhase] *)
Definition phase_encode (p : RefreshPhase) : string :=
  match p with
  | Idle => "idle" | Fetching => "fetching" | Parsing => "parsing"
  | Enriching => "enriching" | Reconciling => "reconciling" | Publishing => "publishing"
  end.
Definition phase_decode (s : string) : option RefreshPhase :=
  if String.eqb s "idle" then Some Idle
  else if String.eqb s "fetching" then Some Fetching
  else if String.eqb s "parsing" then Some Parsing
  else if String.eqb s "enriching" then Some Enriching
  else if String.eqb s "reconciling" then Some Reconciling
  else if String.eqb s "publishing" then Some Publishing
  else None.

(** ** Application errors ([source/fetcher.rs], [source/parse.rs],
       [source/error.rs]) *)

Inductive FetchError :=
  | FeSsrf (m : string)
  | FeTimeout (secs : N)
  | FeTooLarge (bytes : N)
  | FeHttp (status : N) (body : string)
  | FeConnection (m : string)
  | FeTooManyRedirects.

(** [impl Display for FetchError] *)
Definition fetch_error_display (e : FetchError) : string :=
  match e with
  | FeSsrf m => "SSRF rejected: " +:+ m
  | FeTimeout n => "fetch timeout after " +:+ pretty n +:+ "s"
  | FeTooLarge n => "response too large: " +:+ pretty n +:+ " bytes"
  | FeHttp status body => "HTTP " +:+ pretty status +:+ ": " +:+ body
  | FeConnection m => "connection error: " +:+ m
  | FeTooManyRedirects => "too many redirects"
  end.

(** [FetchError::redacted] *)
Definition redacted (e : FetchError) : string :=
  match e with
  | FeSsrf _ => "SSRF rejected"
  | FeHttp status _ => "HTTP " +:+ pretty status
  | other => fetch_error_display other
  end.

Inductive FetchResult :=
  | FetchOk (body : string) (etag content_type : option string)
  | NotModified.

Definition max_nodes : N := 10000.
Definition max_body_bytes : N := 10 * 1024 * 1024.

Inductive ParseContentError :=
  | TooLarge
  | InvalidUtf8 (m : string)
  | PcParse (m : string)
  | TooManyNodes (n : N).

(** [impl Display for ParseContentError] *)
Definition parse_content_error_display (e : ParseContentError) : string :=
  match e with
  | TooLarge => "input exceeds 10485760 bytes"
  | InvalidUtf8 m => "invalid UTF-8 in response body: " +:+ m
  | PcParse m => "parse error: " +:+ m
  | TooManyNodes n => "too many nodes: " +:+ pretty n +:+ " (max 10000)"
  end.

Inductive SourceAppError :=
  | InvalidInput (m : string)
  | AppSourceNotFound
  | AppNodeNotFound
  | AppNameExists
  | AppSource (e : SourceError)
  | AppNodeChain (e : Chain.NodeChainError)
  | AppFetch (e : FetchError)
  | AppParse (e : ParseContentError)
  | ZeroNodes
  | Cancelled
  | AppRefreshInProgress (id : string).

(** [impl Display for SourceAppError] *)
Definition app_error_display (chain_text : Chain.NodeChainError → string) (e : SourceAppError) : string :=
  match e with
  | InvalidInput m => "invalid input: " +:+ m
  | AppSourceNotFound => "source not found"
  | AppNodeNotFound => "node not found"
  | AppNameExists => "source name already exists"
  | AppSource e => source_error_display chain_text e
  | AppNodeChain e => chain_text e
  | AppFetch e => "fetch failed: " +:+ redacted e
  | AppParse e => parse_content_error_display e
  | ZeroNodes => "refresh yielded zero nodes; old snapshot preserved"
  | Cancelled => "refresh cancelled"
  | AppRefreshInProgress id => "refresh already in progress for source " +:+ id
  end.

(** ** Input validation ([source/commands.rs]) *)

Definition max_name_len : nat := 128.
Definition max_url_len : nat := 2048.
Definition max_update_interval_secs : N := 30 * 24 * 3600.

Definition validate_name (name : string) : Result SourceAppError () :=
  if is_empty name then Err (InvalidInput "name must not be empty")
  else if (max_name_len <? String.length name)%nat
  then Err (InvalidInput "name must not exceed 128 characters")
  else Ok ().

Definition validate_url (url : string) : Result SourceAppError () :=
  if is_empty url then Err (InvalidInput "url must not be empty")
  else if (max_url_len <? String.length url)%nat
  then Err (InvalidInput "url must not exceed 2048 characters")
  else if negb (starts_with "https://" url) && negb (starts_with "http://" url)
  then Err (InvalidInput "url must start with http:// or https://")
  else Ok ().

(** The interval checks shared by [create_source] and [update_source]. *)
Definition validate_interval (secs : N) : Result SourceAppError () :=
  if N.eqb secs 0 then Err (InvalidInput "update_interval_secs must be greater than 0")
  else if N.ltb max_update_interval_secs secs
  then Err (InvalidInput "update_interval_secs must not exceed 30 days")
  else Ok ().

Record CreateSourceParams := mkCreate {
  c_name : string;
  c_source_type : SourceType;
  c_url : string;
  c_auto_update : bool;
  c_update_interval_secs : N;
  c_keep_on_fail : bool;
  c_filter_rules : option SourceFilterRules
}.

(** The source [create_source] hands to the repository. *)
Definition build_source (id : N) (now : Z) (p : CreateSourceParams) : Result SourceAppError Source :=
  let? _ := validate_name (c_name p) in
  let? _ := validate_url (c_url p) in
  let? _ := validate_interval (c_update_interval_secs p) in
  let s := source_new id now (c_name p) (c_source_type p) (c_url p) in
  Ok (mkSource (s_id s) (s_name s) (s_source_type s) (s_url s) (s_http_method s) (s_headers s)
        (c_auto_update p) (c_update_interval_secs p) (s_enabled s) (c_keep_on_fail p)
        (c_filter_rules p) (s_created_at s)).

(** The checks of [update_source]. *)
Definition validate_update (u : SourceConfigUpdate) : Result SourceAppError () :=
  let? _ := validate_name (u_name u) in
  let? _ := match u_url u with Some url => validate_url url | None => Ok () end in
  validate_interval (u_update_interval_secs u).

(** [map_source_error] *)
Definition map_source_error (e : SourceError) : SourceAppError :=
  match e with
  | NameExists => AppNameExists
  | other => AppSource other
  end.

(** [map_mutation_error] *)
Definition map_mutation_error (e : SourceError) : SourceAppError :=
  match e with
  | SourceNotFound => AppSourceNotFound
  | RefreshInProgress id => AppRefreshInProgress id
  | NameExists => AppNameExists
  | other => AppSource other
  end.

(** [map_lease_error] ([refresh.rs]) *)
Definition map_lease_error (e : SourceError) : SourceAppError :=
  match e with
  | RefreshInProgress id => AppRefreshInProgress id
  | other => AppSource other
  end.

(** ** Entries and filters ([ports.rs], [filter.rs]) *)

Record ReconcileEntry := mkEntry {
  raw_uri : string;
  initial_status : ItemParseStatus;
  e_node : option Node
}.

(** The include and exclude test both filters apply. *)
Definition is_filtered (include exclude : list string) (key : string) : bool :=
  (negb (bool_decide (include = [])) && negb (existsb (λ p, eq_ignore_ascii_case p key) include))
  || existsb (λ p, eq_ignore_ascii_case p key) exclude.

Definition is_protocol_filtered (protocol : string) (r : SourceFilterRules) : bool :=
  is_filtered (include_protocols r) (exclude_protocols r) protocol.
Definition is_region_filtered (region : string) (r : SourceFilterRules) : bool :=
  is_filtered (include_regions r) (exclude_regions r) region.

(** The entry a filter drops: the raw text stays. *)
Definition drop_entry (e : ReconcileEntry) : ReconcileEntry := mkEntry (raw_uri e) Filtered None.

(** [apply_protocol_filter] *)
Definition apply_protocol_filter (r : SourceFilterRules) (entries : list ReconcileEntry) :
    list ReconcileEntry :=
  (λ e, match e_node e with
        | None => e
        | Some n => if is_protocol_filtered (as_filter_key (protocol n)) r then drop_entry e else e
        end) <$> entries.

(** [apply_region_filter] *)
Definition apply_region_filter (r : SourceFilterRules) (entries : list ReconcileEntry) :
    list ReconcileEntry :=
  if bool_decide (include_regions r = []) && bool_decide (exclude_regions r = []) then entries
  else
  (λ e, match e_node e with
        | None => e
        | Some n =>
            if is_region_filtered (default "" (region_value (region n))) r then drop_entry e else e
        end) <$> entries.

(** [entries.iter().filter(|e| e.node.is_some()).count()] *)
Definition valid_count (entries : list ReconcileEntry) : nat :=
  length (filter (λ e, is_Some (e_node e)) entries).

(** ** Region enrichment ([geoip.rs])

    The lookups run concurrently, at most eight at a time, once per distinct
    host and their results are applied in entry order; the port is the
    function [detect]. *)

Inductive IpAddr := V4 (octets : N * N * N * N) | V6 (segments : list N).

Record RegionDetection := mkDetection { rd_region : option string; candidate_ips : list IpAddr }.

Definition unique_hosts (entries : list ReconcileEntry) : list string :=
  foldl (λ seen h, if bool_decide (h ∈ seen) then seen else seen ++ [h]) []
    (omap (λ e, (λ n, uri_host (host (endpoint n))) <$> e_node e) entries).

(** [IpAddr::to_string] *)
Definition ip_display (a : IpAddr) : string :=
  match a with V4 o => ipv4_display o | V6 segs => ipv6_display segs end.

Definition with_region (n : Node) (d : RegionDetection) : Node :=
  let ips := ip_display <$> candidate_ips d in
  mkNode (n_id n) (display_name n) (protocol n) (config n) (endpoint n) (authentication n)
    (transport n) (tls n) (udp n) (multiplex n) (obfuscation n) (congestion n) (n_chain n)
    (source n) (n_tags n) (mkRegion RegionAuto (rd_region d))
    (match ips with
     | [] => extras n
     | _ => <["candidate_ips" := JArray (JString <$> ips)]> (extras n)
     end).

(** [enrich_regions] *)
Definition enrich_regions (detect : string → RegionDetection) (entries : list ReconcileEntry) :
    list ReconcileEntry :=
  let host_results := (λ h, (h, detect h)) <$> unique_hosts entries in
  let detection_by_host : gmap string RegionDetection := list_to_map host_results in
  (λ e, match e_node e with
        | None => e
        | Some n =>
            match detection_by_host !! uri_host (host (endpoint n)) with
            | None => e
            | Some d => mkEntry (raw_uri e) (initial_status e) (Some (with_region n d))
            end
        end) <$> entries.

(** ** Lemmas *)

Lemma status_decode_encode s : status_decode (status_encode s) = Some s.
Proof. by destruct s. Qed.

Lemma phase_decode_encode p : phase_decode (phase_encode p) = Some p.
Proof. by destruct p. Qed.

Lemma source_type_roundtrip t : source_type_from_str (source_type_display t) = Ok t.
Proof. by destruct t. Qed.

Lemma item_status_roundtrip s : item_status_from_str (item_status_display s) = Ok s.
Proof. by destruct s. Qed.

Lemma length_apply_protocol_filter r l : length (apply_protocol_filter r l) = length l.
Proof. apply length_fmap. Qed.

Lemma length_apply_region_filter r l : length (apply_region_filter r l) = length l.
Proof. unfold apply_region_filter. case_goal; [done|apply length_fmap]. Qed.

Lemma length_enrich_regions detect l : length (enrich_regions detect l) = length l.
Proof. apply length_fmap. Qed.

Lemma elem_of_unique_hosts_acc (hs seen : list string) h :
  h ∈ foldl (λ seen h, if bool_decide (h ∈ seen) then seen else seen ++ [h]) seen hs
  ↔ h ∈ seen ∨ h ∈ hs.
Proof.
  revert seen. induction hs as [|x hs IH]; intros seen; simpl; [set_solver|].
  rewrite IH. case_bool_decide; set_solver.
Qed.

Lemma NoDup_unique_hosts_acc (hs seen : list string) :
  NoDup seen → NoDup (foldl (λ seen h, if bool_decide (h ∈ seen) then seen else seen ++ [h]) seen hs).
Proof.
  revert seen. induction hs as [|x hs IH]; intros seen Hs; simpl; [done|]. apply IH.
  case_bool_decide; [done|]. apply NoDup_app. split_and!; [done|set_solver|apply NoDup_singleton].
Qed.

(** Each distinct host is looked up once. *)
Lemma NoDup_unique_hosts l : NoDup (unique_hosts l).
Proof. apply NoDup_unique_hosts_acc, NoDup_nil_2. Qed.

(** The deduplicated lookups give every entry the region of its own host. *)
Lemma enrich_regions_exact detect l :
  enrich_regions detect l =
  (λ e, mkEntry (raw_uri e) (initial_status e)
     ((λ n, with_region n (detect (uri_host (host (endpoint n))))) <$> e_node e)) <$> l.
Proof.
  unfold enrich_regions. apply list_fmap_ext. intros i e He. destruct e as [raw st [n|]]; simpl; [|done].
  set (h := uri_host (host (endpoint n))).
  assert (h ∈ unique_hosts l) as Hh.
  { unfold unique_hosts. rewrite elem_of_unique_hosts_acc. right.
    apply list_elem_of_omap. exists (mkEntry raw st (Some n)). split; [by eapply list_elem_of_lookup_2|done]. }
  assert ((list_to_map ((λ h, (h, detect h)) <$> unique_hosts l) : gmap string _) !! h = Some (detect h)) as ->;
    [|done].
  apply elem_of_list_to_map_1.
  - rewrite <-list_fmap_compose. simpl. rewrite list_fmap_id. apply NoDup_unique_hosts.
  - apply list_elem_of_fmap. eauto.
Qed.

End Source.
