(* ===== verification/SourceParse.v ===== *)
(** * Subscription content ([crates/deve-sub-application/src/source/parse.rs])

    Format detection and the wrapping of parsed nodes into reconciliation
    entries.  The share-URI parsers are those of [UriParse]; the YAML and JSON
    container parsers are arguments.  Identifiers and instants of new nodes
    come from [draw], one per entry. *)

From stdpp Require Import pretty.
From S2P Require Import Prelude Kernel Node Text UrlText UrlInstance Selection UriParse Source.
Import Text UrlText UriParse Source.

Module SourceParse.

Section parse.
Context `{L : UrlLib}.

Definition Draw : Type := nat → NodeId * Z.

(** The container parsers that are not share-URI lists. *)
Record Containers := mkContainers {
  parse_mihomo_yaml : Draw → string → Result ParseError (list Node);
  parse_singbox_json : Draw → string → Result ParseError (list Node);
  parse_xray_json : Draw → string → Result ParseError (list Node);
  parse_v2ray_json : Draw → string → Result ParseError (list Node);
  parse_auto_json : Draw → string → Result ParseError (list Node)
}.
Variable containers : Containers.
Variable draw : Draw.

(** [impl Display for ParseError] ([deve-sub-protocol/src/error.rs]) *)
Definition parse_error_display (e : ParseError) : string :=
  match e with
  | TooManyEntries n => "too many container entries: " +:+ pretty n
  | InvalidUri t => "invalid URI: " +:+ t
  | UnknownScheme t => "unknown scheme: " +:+ t
  | PMissingField f => "missing required field: " +:+ f
  | PInvalidField f v => "invalid field " +:+ f +:+ ": " +:+ v
  | NotReality t => "expected security=reality, got: " +:+ t
  | InvalidHost t => "invalid host: " +:+ t
  | InvalidPort t => "invalid port: " +:+ t
  | InvalidBase64 t => "invalid base64: " +:+ t
  | InvalidJson t => "invalid JSON: " +:+ t
  | InvalidBandwidth t => "invalid bandwidth: " +:+ t
  | InvalidYaml t => "invalid YAML: " +:+ t
  | UnsupportedProxyType t => "unsupported proxy type: " +:+ t
  | MissingContainerKey k => "missing container key: " +:+ k
  end.

(** [entry_status] *)
Definition entry_status (n : Node) : ItemParseStatus :=
  match config n with
  | CUnsupported _ => Unsupported
  | _ => match protocol n with Unknown _ => Unsupported | _ => Parsed end
  end.

(** [parse_single_uri] *)
Definition parse_single_uri (k : nat) (uri : string) : ReconcileEntry :=
  let '(id, now) := draw k in
  match parse_uri id now uri with
  | Ok n => mkEntry uri (entry_status n) (Some n)
  | Err _ => mkEntry uri Failed None
  end.

(** The lines an URI list keeps. *)
Definition kept_lines (text : string) : list string :=
  filter (λ l, ignored_line l = false) (trim <$> lines text).

Fixpoint push_lines (ls : list string) (entries : list ReconcileEntry) :
    Result ParseContentError (list ReconcileEntry) :=
  match ls with
  | [] => Ok entries
  | l :: ls =>
      if N.eqb (N.of_nat (length entries)) max_nodes then Err (TooManyNodes (max_nodes + 1))
      else push_lines ls (entries ++ [parse_single_uri (length entries) l])
  end.

(** [parse_uri_list_text] *)
Definition parse_uri_list_text (text : string) : Result ParseContentError (list ReconcileEntry) :=
  push_lines (kept_lines text) [].

(** [try_decode_base64] *)
Definition try_decode_base64 (text : string) : option string :=
  match base64_decode STANDARD text with
  | Some d => Some d
  | None => base64_decode URL_SAFE_NO_PAD text
  end.

(** [parse_base64_text] *)
Definition parse_base64_text (text : string) : Result ParseContentError (list ReconcileEntry) :=
  let? decoded := ok_or (try_decode_base64 (trim text)) (PcParse "failed to decode base64 subscription") in
  let? decoded_str := map_err InvalidUtf8 (from_utf8 decoded) in
  parse_uri_list_text decoded_str.

(** The entry of a node a container parser returned. *)
Definition container_entry (n : Node) : ReconcileEntry :=
  mkEntry (default (display_name n) (Node.raw_uri (source n))) (entry_status n) (Some n).

(** [parse_container] *)
Definition parse_container (text : string) (parser : Draw → string → Result ParseError (list Node)) :
    Result ParseContentError (list ReconcileEntry) :=
  match parser draw text with
  | Ok ns => Ok (container_entry <$> ns)
  | Err (TooManyEntries n) => Err (TooManyNodes (N.of_nat n))
  | Err e => Err (PcParse (parse_error_display e))
  end.

(** [auto_detect_and_parse] *)
Definition auto_detect_and_parse (content_type : option string) (text : string) :
    Result ParseContentError (list ReconcileEntry) :=
  let ct := map_chars Selection.to_ascii_lowercase (default "" content_type) in
  let trimmed := trim_start text in
  if contains "yaml" ct || contains "proxies:" trimmed || contains "proxy-groups:" trimmed
  then parse_container text (parse_mihomo_yaml containers)
  else if contains "json" ct || starts_with "{" trimmed || starts_with "[" trimmed
  then parse_container text (parse_auto_json containers)
  else match try_decode_base64 trimmed with
       | Some decoded =>
           let? decoded := map_err InvalidUtf8 (from_utf8 decoded) in
           parse_uri_list_text decoded
       | None => parse_uri_list_text text
       end.

Definition parse_by_type (t : SourceType) (content_type : option string) (text : string) :
    Result ParseContentError (list ReconcileEntry) :=
  match t with
  | UriList => parse_uri_list_text text
  | Base64 => parse_base64_text text
  | MihomoYaml => parse_container text (parse_mihomo_yaml containers)
  | SingboxJson => parse_container text (parse_singbox_json containers)
  | XrayJson => parse_container text (parse_xray_json containers)
  | V2rayJson => parse_container text (parse_v2ray_json containers)
  | Shadowrocket => parse_container text (λ draw, parse_shadowrocket draw)
  | Auto => auto_detect_and_parse content_type text
  end.

(** [parse_content] *)
Definition parse_content (t : SourceType) (content_type : option string) (body : string) :
    Result ParseContentError (list ReconcileEntry) :=
  if N.ltb max_body_bytes (N.of_nat (String.length body)) then Err TooLarge
  else
    let? text := map_err InvalidUtf8 (from_utf8 body) in
    let? entries := parse_by_type t content_type text in
    if N.ltb max_nodes (N.of_nat (length entries)) then Err (TooManyNodes (N.of_nat (length entries)))
    else Ok entries.

(** ** Manual imports *)

Record ImportParseResult := mkImportParse {
  ip_nodes : list Node;
  ip_failed : list string;
  ip_failed_positions : list nat
}.

(** A node of an import: a fresh identity and instant, and a label. *)
Definition import_node (fresh : NodeId * Z) (n : Node) : Node :=
  let s := source n in
  mkNode fresh.1 (display_name n) (protocol n) (config n) (endpoint n) (authentication n) (transport n) (tls n)
    (udp n) (multiplex n) (obfuscation n) (congestion n) (n_chain n)
    (mkNodeSource (if is_empty (source_label s) then "manual" else source_label s) (Node.raw_uri s) fresh.2)
    (n_tags n) (region n) (extras n).

Fixpoint split_entries (fresh : nat → NodeId * Z) (position : nat) (l : list ReconcileEntry)
    (acc : ImportParseResult) : ImportParseResult :=
  match l with
  | [] => acc
  | e :: l =>
      split_entries fresh (S position) l
        (match e_node e with
         | Some n => mkImportParse (ip_nodes acc ++ [import_node (fresh position) n]) (ip_failed acc) (ip_failed_positions acc)
         | None => mkImportParse (ip_nodes acc) (ip_failed acc ++ [raw_uri e]) (ip_failed_positions acc ++ [position])
         end)
  end.

(** [parse_for_import] *)
Definition parse_for_import (fresh : nat → NodeId * Z) (t : SourceType) (content_type : option string) (body : string) :
    Result ParseContentError ImportParseResult :=
  let? entries := parse_content t content_type body in
  Ok (split_entries fresh 0 entries (mkImportParse [] [] [])).

(** ** Lemmas *)

(** The entries of a list of lines, numbered from [k]. *)
Fixpoint line_entries (k : nat) (ls : list string) : list ReconcileEntry :=
  match ls with
  | [] => []
  | l :: ls => parse_single_uri k l :: line_entries (S k) ls
  end.

Lemma push_lines_spec ls entries :
  (N.of_nat (length entries) ≤ max_nodes)%N →
  push_lines ls entries =
  if N.leb (N.of_nat (length entries + length ls)) max_nodes
  then Ok (entries ++ line_entries (length entries) ls) else Err (TooManyNodes (max_nodes + 1)).
Proof.
  revert entries. induction ls as [|l ls IH]; intros entries Hl; simpl.
  - rewrite Nat.add_0_r, (proj2 (N.leb_le _ _)), app_nil_r by done. done.
  - destruct (N.eqb_spec (N.of_nat (length entries)) max_nodes) as [He|He].
    + destruct (N.leb_spec (N.of_nat (length entries + S (length ls))) max_nodes); [lia|done].
    + rewrite IH by (rewrite length_app; simpl; lia). rewrite length_app. simpl.
      rewrite <-(assoc_L app). simpl. rewrite Nat.add_1_r, Nat.add_succ_r. done.
Qed.

Lemma parse_uri_list_text_spec text :
  parse_uri_list_text text =
  if N.leb (N.of_nat (length (kept_lines text))) max_nodes
  then Ok (line_entries 0 (kept_lines text)) else Err (TooManyNodes (max_nodes + 1)).
Proof. unfold parse_uri_list_text. by rewrite push_lines_spec by done. Qed.

Lemma parse_single_uri_raw k u : raw_uri (parse_single_uri k u) = u.
Proof. unfold parse_single_uri. destruct (draw k). by destruct (parse_uri _ _ _). Qed.

Lemma line_entries_raw k ls : raw_uri <$> line_entries k ls = ls.
Proof.
  revert k. induction ls as [|l ls IH]; intros k; [done|]. csimpl. by rewrite IH, parse_single_uri_raw.
Qed.

Lemma line_entries_lookup k ls i u :
  ls !! i = Some u → line_entries k ls !! i = Some (parse_single_uri (k + i) u).
Proof.
  revert k i. induction ls as [|l ls IH]; intros k [|i] H; simplify_eq/=; [by rewrite Nat.add_0_r|].
  rewrite (IH (S k) i H). by rewrite Nat.add_succ_r.
Qed.

(** A status tells whether the entry has a node. *)
Definition entry_consistent (e : ReconcileEntry) : Prop :=
  match e_node e with
  | None => initial_status e = Failed
  | Some n => initial_status e = entry_status n
  end.

Lemma line_entries_consistent k ls : Forall entry_consistent (line_entries k ls).
Proof.
  revert k. induction ls as [|l ls IH]; intros k; constructor; [|done].
  unfold parse_single_uri, entry_consistent. destruct (draw k). by destruct (parse_uri _ _ _).
Qed.

Lemma parse_container_consistent text p l : parse_container text p = Ok l → Forall entry_consistent l.
Proof.
  unfold parse_container. destruct (p draw text) as [ns|[]]; try done. intros [= <-].
  apply Forall_fmap, Forall_true. done.
Qed.

Lemma parse_uri_list_text_consistent text l : parse_uri_list_text text = Ok l → Forall entry_consistent l.
Proof. rewrite parse_uri_list_text_spec. case_goal; [|done]. intros [= <-]. apply line_entries_consistent. Qed.

Lemma parse_by_type_consistent t ct text l : parse_by_type t ct text = Ok l → Forall entry_consistent l.
Proof.
  destruct t; simpl; try apply parse_container_consistent.
  - unfold auto_detect_and_parse. case_goal; [apply parse_container_consistent|].
    case_goal; [apply parse_container_consistent|]. case_goal; [|apply parse_uri_list_text_consistent].
    intros (d & _ & H)%result_bind_Ok. by eapply parse_uri_list_text_consistent.
  - unfold parse_base64_text. intros (d & _ & (s & _ & H)%result_bind_Ok)%result_bind_Ok.
    by eapply parse_uri_list_text_consistent.
  - apply parse_uri_list_text_consistent.
Qed.

Lemma parse_content_Ok t ct body l :
  parse_content t ct body = Ok l →
  (N.of_nat (String.length body) ≤ max_body_bytes)%N ∧ (N.of_nat (length l) ≤ max_nodes)%N ∧
  parse_by_type t ct body = Ok l.
Proof.
  unfold parse_content. destruct (N.ltb_spec max_body_bytes (N.of_nat (String.length body))); [done|].
  intros (text & Ht & (es & He & H')%result_bind_Ok)%result_bind_Ok.
  unfold from_utf8 in Ht. destruct (utf8_valid body); [|done]. simpl in Ht. apply Ok_inj in Ht as <-.
  destruct (N.ltb_spec max_nodes (N.of_nat (length es))); [done|]. apply Ok_inj in H' as <-. done.
Qed.

Lemma split_entries_spec fresh pos l acc :
  let r := split_entries fresh pos l acc in
  length (ip_nodes r) = length (ip_nodes acc) + valid_count l ∧
  ip_failed r = ip_failed acc ++ (raw_uri <$> filter (λ e, e_node e = None) l) ∧
  ∃ ps, ip_failed_positions r = ip_failed_positions acc ++ ps ∧
    length ps = length (filter (λ e, e_node e = None) l) ∧ StronglySorted lt ps ∧ Forall (λ p, pos ≤ p) ps ∧
    Forall (λ p, ∃ e, l !! (p - pos) = Some e ∧ e_node e = None) ps.
Proof.
  revert pos acc. induction l as [|e l IH]; intros pos acc; simpl.
  { split_and!; [unfold valid_count; simpl; lia|by rewrite app_nil_r|].
    exists []. rewrite app_nil_r. split_and!; [done..|constructor|constructor|constructor]. }
  set (acc' := match e_node e with Some _ => _ | None => _ end).
  destruct (IH (S pos) acc') as (H1 & H2 & ps & H3 & H4 & H5 & H6 & H7).
  assert (Forall (λ p, ∃ e', (e :: l) !! (p - pos) = Some e' ∧ e_node e' = None) ps) as H8.
  { rewrite Forall_forall in *. intros p Hp. destruct (H7 p Hp) as (e' & He' & Hn).
    specialize (H6 p Hp). exists e'. split; [|done]. by replace (p - pos) with (S (p - S pos)) by lia. }
  assert (Forall (λ p, pos ≤ p) ps) as H9 by (eapply Forall_impl; [exact H6|simpl; lia]).
  unfold valid_count in *. rewrite !filter_cons. subst acc'. destruct (e_node e) as [n|] eqn:He.
  - rewrite decide_True by eauto. rewrite (decide_False (P := Some n = None)) by done. simpl in *.
    rewrite length_app in H1. simpl in H1. split_and!; [lia|done|]. by exists ps.
  - rewrite decide_False by (intros [? [=]]). rewrite (decide_True (P := None = None)) by done. simpl in *.
    split_and!; [lia|rewrite H2, <-(assoc_L app); done|].
    exists (pos :: ps). rewrite H3, <-(assoc_L app). split_and!; [done|simpl; lia| | |].
    + constructor; [done|]. eapply Forall_impl; [exact H6|simpl; lia].
    + by constructor.
    + constructor; [|done]. exists e. by rewrite Nat.sub_diag.
Qed.

End parse.

End SourceParse.
