(* ===== verification/Ssrf.v ===== *)
(** * The SSRF guard ([deve-sub-security/src/ssrf.rs])

    The address checks over octets and segments, and the proof that they
    refuse exactly the addresses of a list of blocked networks. *)

From S2P Require Import Prelude Kernel Node Text Ip UrlText Crypto Source.
Import Text Ip UrlText Crypto Source.

Module Ssrf.

#[export] Instance ip_addr_eq_dec : EqDecision IpAddr.
Proof. solve_decision. Defined.

(** ** Predicates of [std::net] *)

Abbreviation octets := (N * N * N * N)%type.

Definition is_loopback4 (ip : octets) : bool := let '(a, b, c, d) := ip in N.eqb a 127.
Definition is_private (ip : octets) : bool :=
  let '(a, b, c, d) := ip in
  N.eqb a 10 || (N.eqb a 172 && (N.leb 16 b && N.leb b 31)) || (N.eqb a 192 && N.eqb b 168).
Definition is_link_local (ip : octets) : bool := let '(a, b, c, d) := ip in N.eqb a 169 && N.eqb b 254.
Definition is_multicast4 (ip : octets) : bool := let '(a, b, c, d) := ip in N.leb 224 a && N.leb a 239.
Definition is_unspecified4 (ip : octets) : bool :=
  let '(a, b, c, d) := ip in N.eqb a 0 && N.eqb b 0 && N.eqb c 0 && N.eqb d 0.

Definition seg (i : nat) (segs : list N) : N := nth i segs 0%N.
Definition is_loopback6 (segs : list N) : bool := bool_decide (segs = [0; 0; 0; 0; 0; 0; 0; 1]%N).
Definition is_unspecified6 (segs : list N) : bool := bool_decide (segs = [0; 0; 0; 0; 0; 0; 0; 0]%N).
Definition is_multicast6 (segs : list N) : bool := N.eqb (N.land (seg 0 segs) 65280) 65280.
Definition is_unicast_link_local (segs : list N) : bool := N.eqb (N.land (seg 0 segs) 65472) 65152.

Definition v4_of (ab cd : N) : octets :=
  (N.shiftr ab 8, N.land ab 255, N.shiftr cd 8, N.land cd 255).
Definition to_ipv4_mapped (segs : list N) : option octets :=
  match segs with
  | [s0; s1; s2; s3; s4; s5; ab; cd] =>
      if bool_decide ([s0; s1; s2; s3; s4; s5] = [0; 0; 0; 0; 0; 65535]%N) then Some (v4_of ab cd) else None
  | _ => None
  end.
Definition to_ipv4 (segs : list N) : option octets :=
  match segs with
  | [s0; s1; s2; s3; s4; s5; ab; cd] =>
      if bool_decide ([s0; s1; s2; s3; s4] = [0; 0; 0; 0; 0]%N) && (N.eqb s5 0 || N.eqb s5 65535)
      then Some (v4_of ab cd) else None
  | _ => None
  end.

(** ** The checks *)

(** [is_cgnat], [is_ipv6_ula] *)
Definition is_cgnat (ip : octets) : bool :=
  let '(a, b, c, d) := ip in N.eqb a 100 && N.eqb (N.land b 192) 64.
Definition is_ipv6_ula (segs : list N) : bool := N.eqb (N.land (seg 0 segs) 65024) 64512.

(** [check_ipv4] *)
Definition check_ipv4 (ip : octets) : Result string () :=
  if is_loopback4 ip then Err "loopback address (127.0.0.0/8)"
  else if is_private ip then Err "private network (RFC 1918)"
  else if is_link_local ip then Err "link-local address (169.254.0.0/16)"
  else if is_multicast4 ip then Err "multicast address (224.0.0.0/4)"
  else if is_unspecified4 ip then Err "unspecified address (0.0.0.0)"
  else if is_cgnat ip then Err "CGNAT range (100.64.0.0/10)"
  else if N.eqb ip.1.1.1 0
  then Err (String (Ascii.ascii_of_N 34) ("this network" +:+ String (Ascii.ascii_of_N 34) " range (0.0.0.0/8)"))
  else Ok ().

(** [check_ipv6] *)
Definition check_ipv6 (segs : list N) : Result string () :=
  if is_loopback6 segs then Err "loopback address (::1)"
  else if is_multicast6 segs then Err "multicast address (ff00::/8)"
  else if is_unspecified6 segs then Err "unspecified address (::)"
  else if is_unicast_link_local segs then Err "link-local address (fe80::/10)"
  else if is_ipv6_ula segs then Err "unique local address (fc00::/7)"
  else match to_ipv4_mapped segs with
       | Some v4 => check_ipv4 v4
       | None => match to_ipv4 segs with
                 | Some v4 => check_ipv4 v4
                 | None => Ok ()
                 end
       end.

(** [check_ip] *)
Definition check_ip (ip : IpAddr) : Result string () :=
  match ip with V4 o => check_ipv4 o | V6 segs => check_ipv6 segs end.

(** ** [SsrfGuard::check] *)

Inductive SsrfError :=
  | InvalidUrl (m : string)
  | Blocked (m : string)
  | DnsResolutionFailed (host : string)
  | DnsLookup (m : string).

(** [impl Display for SsrfError] *)
Definition ssrf_error_display (e : SsrfError) : string :=
  match e with
  | InvalidUrl m => "invalid URL: " +:+ m
  | Blocked m => "SSRF blocked: " +:+ m
  | DnsResolutionFailed h => "DNS resolution failed for " +:+ h
  | DnsLookup m => "DNS lookup error: " +:+ m
  end.

(** [IpAddr::from_str] *)
Definition ip_from_str (s : string) : option IpAddr :=
  match ipv4_from_str s with
  | Some o => Some (V4 o)
  | None => V6 <$> ipv6_from_str s
  end.

(** The answer of [tokio::net::lookup_host]. *)
Inductive Lookup := Found (l : list IpAddr) | HostNotFound | LookupFailed (m : string).

(** The loop over the resolved addresses. *)
Fixpoint check_all (addrs safe_ips : list IpAddr) : Result SsrfError (list IpAddr) :=
  match addrs with
  | [] => Ok safe_ips
  | a :: addrs => let? _ := map_err Blocked (check_ip a) in check_all addrs (safe_ips ++ [a])
  end.

(** [SsrfGuard::check]; [lookup] is the resolver at the time of the call. *)
Definition check `{UrlLib} (lookup : string → Lookup) (url : string) : Result SsrfError (list IpAddr) :=
  let? parsed := map_err InvalidUrl (url_parse url) in
  let? host := ok_or (u_host_str parsed) (InvalidUrl "URL has no hostname") in
  match ip_from_str host with
  | Some ip => let? _ := map_err Blocked (check_ip ip) in Ok [ip]
  | None =>
      match lookup (host +:+ ":0") with
      | HostNotFound => Err (DnsResolutionFailed host)
      | LookupFailed m => Err (DnsLookup m)
      | Found [] => Err (DnsResolutionFailed host)
      | Found addrs => check_all addrs []
      end
  end.

(** ** Blocked networks

    A network is a prefix of the address as a number. *)

Definition bits4 (ip : octets) : N := let '(a, b, c, d) := ip in (a * 16777216 + b * 65536 + c * 256 + d)%N.
Definition bits6 (segs : list N) : N := foldl (λ n s, n * 65536 + s)%N 0%N segs.

Definition in_net (width : N) (ip net len : N) : Prop := (ip / 2 ^ (width - len) = net / 2 ^ (width - len))%N.

(** 127.0.0.0/8, 10.0.0.0/8, 172.16.0.0/12, 192.168.0.0/16, 169.254.0.0/16,
    224.0.0.0/4, 100.64.0.0/10 and 0.0.0.0/8. *)
Definition blocked_nets4 : list (N * N) :=
  [(bits4 (127, 0, 0, 0), 8); (bits4 (10, 0, 0, 0), 8); (bits4 (172, 16, 0, 0), 12); (bits4 (192, 168, 0, 0), 16);
   (bits4 (169, 254, 0, 0), 16); (bits4 (224, 0, 0, 0), 4); (bits4 (100, 64, 0, 0), 10); (bits4 (0, 0, 0, 0), 8)]%N.

Definition blocked4 (n : N) : Prop := Exists (λ net, in_net 32 n net.1 net.2) blocked_nets4.

(** ff00::/8, fe80::/10, fc00::/7, and ::1. *)
Definition blocked_nets6 : list (N * N) :=
  [(bits6 [65280; 0; 0; 0; 0; 0; 0; 0], 8); (bits6 [65152; 0; 0; 0; 0; 0; 0; 0], 10);
   (bits6 [64512; 0; 0; 0; 0; 0; 0; 0], 7); (bits6 [0; 0; 0; 0; 0; 0; 0; 1], 128)]%N.

(** An address is blocked by its own network, or by the IPv4 address that a
    mapped (::ffff:0:0/96) or compatible (::/96) address carries. *)
Definition blocked (ip : IpAddr) : Prop :=
  match ip with
  | V4 o => blocked4 (bits4 o)
  | V6 segs =>
      let n := bits6 segs in
      Exists (λ net, in_net 128 n net.1 net.2) blocked_nets6 ∨
      ((in_net 128 n (bits6 [0; 0; 0; 0; 0; 65535; 0; 0]%N) 96 ∨ in_net 128 n 0 96) ∧ blocked4 (n mod 2 ^ 32)%N)
  end.

Definition ip_ok (ip : IpAddr) : Prop := match ip with V4 o => octets_ok o | V6 segs => segments_ok segs end.

(** ** The checks refuse exactly the blocked networks *)

Lemma cgnat_bits b : (b < 256)%N → N.eqb (N.land b 192) 64 = N.eqb (b / 64) 1.
Proof.
  intros Hb. assert (all_bits 8 (λ b, Bool.eqb (N.eqb (N.land b 192) 64) (N.eqb (b / 64) 1)) 0 = true) as H by (vm_compute; done).
  apply (all_bits_spec _ _ _ b) in H; [|simpl; lia]. by apply Bool.eqb_prop.
Qed.

Lemma div_octets a b c d : (b < 256 → c < 256 → d < 256 →
  (a * 16777216 + b * 65536 + c * 256 + d) / 2 ^ 24 = a ∧
  (a * 16777216 + b * 65536 + c * 256 + d) / 2 ^ 16 = a * 256 + b ∧
  (a * 16777216 + b * 65536 + c * 256 + d) / 2 ^ 20 = a * 16 + b / 16 ∧
  (a * 16777216 + b * 65536 + c * 256 + d) / 2 ^ 22 = a * 4 + b / 64 ∧
  (a * 16777216 + b * 65536 + c * 256 + d) / 2 ^ 28 = a / 16)%N.
Proof.
  intros. change (2^24)%N with 16777216%N. change (2^16)%N with 65536%N. change (2^20)%N with 1048576%N.
  change (2^22)%N with 4194304%N. change (2^28)%N with 268435456%N.
  pose proof (N.div_mod b 16 ltac:(done)). pose proof (N.mod_lt b 16 ltac:(done)).
  pose proof (N.div_mod b 64 ltac:(done)). pose proof (N.mod_lt b 64 ltac:(done)).
  pose proof (N.div_mod a 16 ltac:(done)). pose proof (N.mod_lt a 16 ltac:(done)).
  split_and!; symmetry.
  - apply (N.div_unique _ _ _ (b * 65536 + c * 256 + d)); lia.
  - apply (N.div_unique _ _ _ (c * 256 + d)); lia.
  - apply (N.div_unique _ _ _ ((b mod 16) * 65536 + c * 256 + d)); lia.
  - apply (N.div_unique _ _ _ ((b mod 64) * 65536 + c * 256 + d)); lia.
  - apply (N.div_unique _ _ _ ((a mod 16) * 16777216 + b * 65536 + c * 256 + d)); lia.
Qed.

Lemma is_ok_guard {E A} (b : bool) (e : E) (r : Result E A) :
  is_ok (if b then Err e else r) = true ↔ b = false ∧ is_ok r = true.
Proof. destruct b; simpl; intuition congruence. Qed.

Lemma check_ipv4_exact o : octets_ok o → is_ok (check_ipv4 o) = true ↔ ¬ blocked4 (bits4 o).
Proof.
  destruct o as [[[a b] c] d]. intros (Ha & Hb & Hc & Hd). unfold blocked4, blocked_nets4, in_net.
  rewrite !Exists_cons, Exists_nil. cbn [fst snd bits4].
  change (32 - 8)%N with 24%N. change (32 - 12)%N with 20%N. change (32 - 16)%N with 16%N.
  change (32 - 4)%N with 28%N. change (32 - 10)%N with 22%N.
  destruct (div_octets a b c d Hb Hc Hd) as (-> & -> & -> & -> & ->).
  repeat match goal with |- context [(?n / 2 ^ ?k)%N] => let v := eval vm_compute in (n / 2 ^ k)%N in change (n / 2 ^ k)%N with v end.
  unfold check_ipv4, is_loopback4, is_private, is_link_local, is_multicast4, is_unspecified4, is_cgnat. cbn [fst snd].
  rewrite cgnat_bits by done.
  pose proof (N.div_mod b 16 ltac:(done)). pose proof (N.mod_lt b 16 ltac:(done)).
  pose proof (N.div_mod b 64 ltac:(done)). pose proof (N.mod_lt b 64 ltac:(done)).
  pose proof (N.div_mod a 16 ltac:(done)). pose proof (N.mod_lt a 16 ltac:(done)).
  rewrite !is_ok_guard, !orb_false_iff, !andb_false_iff, !N.eqb_neq, !N.leb_gt. simpl.
  revert H H0 H1 H2 H3 H4. generalize (b / 16)%N (b mod 16)%N (b / 64)%N (b mod 64)%N (a / 16)%N (a mod 16)%N.
  intros q r q' r' p s H H0 H1 H2 H3 H4.
  assert (a * 16 + q = 2753 ↔ a = 172 ∧ 16 ≤ b ≤ 31)%N as -> by lia.
  assert (a * 256 + b = 49320 ↔ a = 192 ∧ b = 168)%N as -> by lia.
  assert (a * 256 + b = 43518 ↔ a = 169 ∧ b = 254)%N as -> by lia.
  assert (p = 14 ↔ 224 ≤ a ≤ 239)%N as -> by lia.
  assert (a * 4 + q' = 401 ↔ a = 100 ∧ q' = 1)%N as -> by lia.
  clear H H0 H1 H2 H3 H4. lia.
Qed.

(** A mask of the first segment is a prefix of the address. *)
Lemma segment_masks s :
  (s < 65536)%N →
  N.eqb (N.land s 65280) 65280 = N.eqb (s / 256) 255 ∧ N.eqb (N.land s 65472) 65152 = N.eqb (s / 64) 1018 ∧
  N.eqb (N.land s 65024) 64512 = N.eqb (s / 512) 126.
Proof.
  intros Hs. assert (all_bits 16 (λ s, Bool.eqb (N.eqb (N.land s 65280) 65280) (N.eqb (s / 256) 255)
    && Bool.eqb (N.eqb (N.land s 65472) 65152) (N.eqb (s / 64) 1018)
    && Bool.eqb (N.eqb (N.land s 65024) 64512) (N.eqb (s / 512) 126)) 0 = true) as H by (vm_compute; done).
  apply (all_bits_spec _ _ _ s) in H; [|simpl; lia].
  apply andb_prop in H as [[H1 H2]%andb_prop H3]. by split_and!; apply Bool.eqb_prop.
Qed.

Lemma v4_of_bits ab cd : (ab < 65536)%N → (cd < 65536)%N → octets_ok (v4_of ab cd) ∧ bits4 (v4_of ab cd) = (ab * 65536 + cd)%N.
Proof.
  intros H1 H2. unfold v4_of, octets_ok, bits4. rewrite !N.shiftr_div_pow2, !(N.land_ones _ 8).
  change (2 ^ 8)%N with 256%N.
  pose proof (N.div_mod ab 256 ltac:(done)). pose proof (N.mod_lt ab 256 ltac:(done)).
  pose proof (N.div_mod cd 256 ltac:(done)). pose proof (N.mod_lt cd 256 ltac:(done)).
  revert H H0 H3 H4. generalize (ab / 256)%N (ab mod 256)%N (cd / 256)%N (cd mod 256)%N. intros. lia.
Qed.

Lemma div_segments s0 s1 s2 s3 s4 s5 s6 s7 :
  Forall (λ g, g < 65536)%N [s0; s1; s2; s3; s4; s5; s6; s7] →
  let n := bits6 [s0; s1; s2; s3; s4; s5; s6; s7] in
  (n / 2 ^ 112 = s0 ∧ n / 2 ^ 32 = bits6 [s0; s1; s2; s3; s4; s5] ∧ n mod 2 ^ 32 = s6 * 65536 + s7)%N.
Proof.
  rewrite !Forall_cons. intros (H0 & H1 & H2 & H3 & H4 & H5 & H6 & H7 & _). unfold bits6. simpl foldl.
  change (2 ^ 112)%N with 5192296858534827628530496329220096%N. change (2 ^ 32)%N with 4294967296%N. split_and!.
  - symmetry. apply (N.div_unique _ _ _ ((((((s1 * 65536 + s2) * 65536 + s3) * 65536 + s4) * 65536 + s5) * 65536 + s6)
      * 65536 + s7)); lia.
  - symmetry. apply (N.div_unique _ _ _ (s6 * 65536 + s7)); lia.
  - symmetry. apply (N.mod_unique _ _ (((((s0 * 65536 + s1) * 65536 + s2) * 65536 + s3) * 65536 + s4) * 65536 + s5)); lia.
Qed.

(** The prefixes of an IPv6 address, by segment. *)
Lemma nets6 s0 s1 s2 s3 s4 s5 s6 s7 :
  let segs := [s0; s1; s2; s3; s4; s5; s6; s7] in
  let n := bits6 segs in
  Forall (λ g, g < 65536)%N segs →
  (in_net 128 n (bits6 [65280; 0; 0; 0; 0; 0; 0; 0]%N) 8 ↔ is_multicast6 segs = true) ∧
  (in_net 128 n (bits6 [65152; 0; 0; 0; 0; 0; 0; 0]%N) 10 ↔ is_unicast_link_local segs = true) ∧
  (in_net 128 n (bits6 [64512; 0; 0; 0; 0; 0; 0; 0]%N) 7 ↔ is_ipv6_ula segs = true) ∧
  (in_net 128 n (bits6 [0; 0; 0; 0; 0; 0; 0; 1]%N) 128 ↔ is_loopback6 segs = true) ∧
  (in_net 128 n (bits6 [0; 0; 0; 0; 0; 65535; 0; 0]%N) 96 ↔ [s0; s1; s2; s3; s4; s5] = [0; 0; 0; 0; 0; 65535]%N) ∧
  (in_net 128 n 0 96 ↔ [s0; s1; s2; s3; s4; s5] = [0; 0; 0; 0; 0; 0]%N).
Proof.
  intros segs n Hs. destruct (div_segments s0 s1 s2 s3 s4 s5 s6 s7 Hs) as (D1 & D2 & D3). fold segs n in D1, D2, D3.
  assert (∀ k, n / 2 ^ (112 + k) = s0 / 2 ^ k)%N as Dk.
  { intros k. rewrite N.pow_add_r, <-N.Div0.div_div, D1. done. }
  unfold in_net. unfold segs in Hs. rewrite !Forall_cons in Hs. destruct Hs as (B0 & B1 & B2 & B3 & B4 & B5 & B6 & B7 & _).
  destruct (segment_masks s0 B0) as (M1 & M2 & M3).
  unfold is_multicast6, is_unicast_link_local, is_ipv6_ula, is_loopback6. change (seg 0 segs) with s0.
  rewrite M1, M2, M3, !N.eqb_eq, bool_decide_eq_true.
  change (128 - 8)%N with (112 + 8)%N. change (128 - 10)%N with (112 + 6)%N. change (128 - 7)%N with (112 + 9)%N.
  rewrite !Dk. change (128 - 96)%N with 32%N. rewrite D2.
  change (2 ^ 8)%N with 256%N. change (2 ^ 6)%N with 64%N. change (2 ^ 9)%N with 512%N.
  repeat match goal with |- context [(bits6 ?l / 2 ^ ?k)%N] =>
    let v := eval vm_compute in (bits6 l / 2 ^ k)%N in
    lazymatch v with N0 => idtac | Npos _ => idtac end; change (bits6 l / 2 ^ k)%N with v end.
  change (128 - 128)%N with 0%N. change (0 / 2 ^ 32)%N with 0%N. rewrite N.pow_0_r, N.div_1_r.
  split_and!; try done.
  - unfold segs, n, bits6. simpl foldl. split; [intros; repeat f_equal; lia|by intros [= -> -> -> -> -> -> -> ->]].
  - unfold bits6. simpl foldl. split; [intros; repeat f_equal; lia|by intros [= -> -> -> -> -> ->]].
  - unfold bits6. simpl foldl. split; [intros; repeat f_equal; lia|by intros [= -> -> -> -> -> ->]].
Qed.

Lemma guard_chain (l mu un ll ul : bool) (r P B : Prop) :
  (un = true → P ∧ B) → (r ↔ ¬ (P ∧ B)) →
  l = false ∧ mu = false ∧ un = false ∧ ll = false ∧ ul = false ∧ r ↔
  ¬ ((mu = true ∨ ll = true ∨ ul = true ∨ l = true ∨ False) ∨ P ∧ B).
Proof. intros Hu Hr. rewrite Hr. destruct l, mu, un, ll, ul; intuition congruence. Qed.

Lemma check_ipv6_exact segs : segments_ok segs → is_ok (check_ipv6 segs) = true ↔ ¬ blocked (V6 segs).
Proof.
  intros [Hl Hs]. do 8 (destruct segs as [|? segs]; [done|]). destruct segs; [|done].
  pose proof (nets6 n n0 n1 n2 n3 n4 n5 n6 Hs) as (N1 & N2 & N3 & N4 & N5 & N6).
  destruct (div_segments n n0 n1 n2 n3 n4 n5 n6 Hs) as (_ & _ & D3). simpl in D3.
  rewrite !Forall_cons in Hs. destruct Hs as (_ & _ & _ & _ & _ & _ & B6 & B7 & _).
  destruct (v4_of_bits n5 n6 B6 B7) as [Hv Hb]. pose proof (check_ipv4_exact _ Hv) as H4. rewrite Hb, <-D3 in H4.
  unfold blocked, blocked_nets6. rewrite !Exists_cons, Exists_nil. cbn [fst snd]. rewrite N1, N2, N3, N4, N5, N6.
  set (m := bits6 _) in *. change (bits6 [n; n0; n1; n2; n3; n4; n5; n6]) with m.
  unfold check_ipv6. rewrite !is_ok_guard.
  assert (is_unspecified6 [n; n0; n1; n2; n3; n4; n5; n6] = true →
    [n; n0; n1; n2; n3; n4] = [0; 0; 0; 0; 0; 0]%N ∧ blocked4 (m mod 2 ^ 32)%N) as Hu.
  { intros [= -> -> -> -> -> -> -> ->]%bool_decide_eq_true. split; [done|]. unfold m, blocked4, blocked_nets4.
    do 7 apply Exists_cons_tl. apply Exists_cons_hd. vm_compute. reflexivity. }
  apply guard_chain; [by intros []%Hu; split; [right|]|]. clear Hu N1 N2 N3 N4 N5 N6.
  revert H4. generalize (blocked4 (m mod 2 ^ 32)%N) as B. unfold to_ipv4_mapped, to_ipv4. intros B H4.
  case_bool_decide as Hm; [rewrite H4; tauto|].
  destruct (bool_decide ([n; n0; n1; n2; n3] = _)) eqn:H0; simpl.
  - apply bool_decide_eq_true in H0. injection H0 as -> -> -> -> ->.
    destruct (N.eqb_spec n4 0) as [->|Hz]; simpl; [rewrite H4; tauto|].
    destruct (N.eqb_spec n4 65535) as [->|Hz']; [done|]. simpl. split; [|done]. intros _ [[?|?] _]; simplify_eq.
  - apply bool_decide_eq_false in H0. split; [|done]. intros _ [[?|?] _]; simplify_eq.
Qed.

End Ssrf.
