(* ===== verification/Fetch.v ===== *)
(** * The subscription fetcher ([deve-sub-adapters/src/http_fetcher.rs])

    One fetch: the SSRF check of every hop, the client cache with its pinned
    addresses, redirects, and the bounded bodies.  The HTTP client, the
    resolver and [Url::join] are the record [World]; what the fetcher relies on
    of them is [WorldLaws]. *)

From S2P Require Import Prelude Kernel Node Text Ip UrlText UrlInstance Crypto Source Ssrf.
Import Text Ip UrlText Crypto Source Ssrf.

Module Fetch.

(** ** UTF-8 with replacement ([String::from_utf8_lossy]) *)

(** The first character of a text: whether it is valid, and the bytes it or
    the invalid sequence takes. *)
Definition utf8_head (s : list Ascii.ascii) : bool * nat :=
  match s with
  | [] => (true, 0)
  | c1 :: s1 =>
      let second p := match s1 with c :: _ => p c | [] => false end in
      let nth_cont i := match s1 !! i with Some c => continuation c | None => false end in
      if in_range 0 127 c1 then (true, 1)
      else if in_range 194 223 c1 then (if second continuation then (true, 2) else (false, 1))
      else if in_range 224 239 c1 then
        if second (if in_range 224 224 c1 then in_range 160 191
                   else if in_range 237 237 c1 then in_range 128 159 else continuation)
        then (if nth_cont 1 then (true, 3) else (false, 2)) else (false, 1)
      else if in_range 240 244 c1 then
        if second (if in_range 240 240 c1 then in_range 144 191
                   else if in_range 244 244 c1 then in_range 128 143 else continuation)
        then if nth_cont 1 then (if nth_cont 2 then (true, 4) else (false, 3)) else (false, 2)
        else (false, 1)
      else (false, 1)
  end.

Definition replacement : list Ascii.ascii := Ascii.ascii_of_N <$> [239; 191; 189]%N.

(** Every step takes at least one byte, so the length is enough fuel. *)
Fixpoint lossy (fuel : nat) (s : list Ascii.ascii) : list Ascii.ascii :=
  match fuel, s with
  | O, _ | _, [] => []
  | S fuel, _ =>
      let '(ok, k) := utf8_head s in
      (if ok then take k s else replacement) ++ lossy fuel (drop k s)
  end.

Definition from_utf8_lossy (s : string) : string :=
  let bytes := String.list_ascii_of_string s in
  String.string_of_list_ascii (lossy (length bytes) bytes).

(** ** The fetcher's world *)

(** A [reqwest] client as it was built: the host whose resolution it
    overrides, and the addresses. *)
Record Client := mkClient { cl_host : string; cl_pins : option (list IpAddr) }.

Inductive SendError := TimedOut | SendFailed (source : option string).

Record Response := mkResponse {
  rs_status : N;
  rs_etag : option string;
  rs_content_type : option string;
  rs_location : option string;
  rs_chunks : list (Result SendError string)
}.

(** The outside at the [n]-th request: the resolver, building a client, and
    the exchange; how many milliseconds the resolver, the response head and the
    body take; and [Url::join]. *)
Record World := mkWorld {
  w_lookup : nat → string → Lookup;
  w_build : nat → Result string ();
  w_send : nat → Client → string → option string → Result SendError Response;
  w_lookup_ms : nat → N;
  w_send_ms : nat → N;
  w_body_ms : nat → N;
  w_join : string → string → Result string string;
  w_connects : Client → string → IpAddr → Prop
}.

Record Config := mkConfig { timeout_secs : N; max_body_size : nat; max_redirects : nat }.

(** [DEFAULT_TIMEOUT_SECS], [DEFAULT_MAX_BODY_SIZE], [DEFAULT_MAX_REDIRECTS] *)
Definition default_config : Config := mkConfig 30 (N.to_nat (10 * 1024 * 1024)) 3.
Definition error_body_cap : nat := 1024.
Definition client_cache_max_hosts : nat := 64.

Record PinnedClient := mkPinned { pc_ips : list IpAddr; pc_client : Client }.

(** A request that was sent, and when, in milliseconds from the start of the
    fetch. *)
Record Request := mkRequest {
  rq_url : string;
  rq_host : string;
  rq_client : Client;
  rq_etag : option string;
  rq_at : N
}.

(** The client cache, the requests sent so far, and the time the fetch has
    taken. *)
Record FetchState := mkFetchState { client_cache : gmap string PinnedClient; sent : list Request; elapsed : N }.

(** A future that waits for [ms] more milliseconds. *)
Definition wait (ms : N) (st : FetchState) : FetchState :=
  mkFetchState (client_cache st) (sent st) (elapsed st + ms).

Section fetch.
Context `{L : UrlLib}.
Variable w : World.
Variable cfg : Config.

(** [map_error] *)
Definition map_error (e : SendError) : FetchError :=
  match e with
  | TimedOut => FeTimeout (timeout_secs cfg)
  | SendFailed source => FeConnection (default "connection error" source)
  end.

(** [client_for] *)
Definition client_for (n : nat) (host : string) (ips : list IpAddr) (cache : gmap string PinnedClient) :
    Result FetchError Client * gmap string PinnedClient :=
  let build :=
    match w_build w n with
    | Err m => (Err (FeConnection m), cache)
    | Ok _ =>
        let client := mkClient host (match ip_from_str host with None => Some ips | Some _ => None end) in
        let cache := if (client_cache_max_hosts <=? size cache)%nat then ∅ else cache in
        (Ok client, <[host := mkPinned ips client]> cache)
    end in
  match cache !! host with
  | Some entry => if bool_decide (pc_ips entry = ips) then (Ok (pc_client entry), cache) else build
  | None => build
  end.

(** The deadline of [tokio::time::timeout] has passed: the future that is
    waiting is not polled again. *)
Definition late (st : FetchState) : bool := N.ltb (timeout_secs cfg * 1000) (elapsed st).

(** [fetch_single]; [None] when the deadline passes while it waits. *)
Definition fetch_single (url : string) (etag : option string) (st : FetchState) :
    option (Result FetchError Response) * FetchState :=
  let n := length (sent st) in
  match (let? parsed := map_err (λ m, FeConnection ("invalid URL: " +:+ m)) (url_parse url) in
         ok_or (u_host_str parsed) (FeConnection "URL has no hostname")) with
  | Err e => (Some (Err e), st)
  | Ok host =>
      let st := wait (match ip_from_str host with Some _ => 0 | None => w_lookup_ms w n end) st in
      if late st then (None, st) else
      match map_err (λ e, FeSsrf (ssrf_error_display e)) (check (w_lookup w n) url) with
      | Err e => (Some (Err e), st)
      | Ok safe_ips =>
          match client_for n host safe_ips (client_cache st) with
          | (Err e, cache) => (Some (Err e), mkFetchState cache (sent st) (elapsed st))
          | (Ok client, cache) =>
              let st := wait (w_send_ms w n)
                (mkFetchState cache (sent st ++ [mkRequest url host client etag (elapsed st)]) (elapsed st)) in
              if late st then (None, st) else (Some (map_err map_error (w_send w n client url etag)), st)
          end
      end
  end.

(** [read_body] *)
Fixpoint read_body (chunks : list (Result SendError string)) (body : string) : Result FetchError string :=
  match chunks with
  | [] => Ok body
  | Err e :: _ => Err (map_error e)
  | Ok chunk :: chunks =>
      let body := body +:+ chunk in
      if (max_body_size cfg <? String.length body)%nat then Err (FeTooLarge (N.of_nat (String.length body)))
      else read_body chunks body
  end.

(** [read_error_body] *)
Fixpoint read_error_bytes (chunks : list (Result SendError string)) (body : string) : string :=
  match chunks with
  | Ok chunk :: chunks =>
      let body := body +:+ chunk in
      if (error_body_cap <=? String.length body)%nat then String.substring 0 error_body_cap body
      else read_error_bytes chunks body
  | _ => body
  end.
Definition read_error_body (chunks : list (Result SendError string)) : string :=
  from_utf8_lossy (read_error_bytes chunks "").

(** [StatusCode::is_redirection] *)
Definition is_redirection (status : N) : bool := N.leb 300 status && N.ltb status 400.

(** The loop of [fetch_inner], with the hops that remain. *)
Fixpoint fetch_loop (hops : nat) (url : string) (etag : option string) (st : FetchState) :
    option (Result FetchError FetchResult) * FetchState :=
  match hops with
  | O => (Some (Err FeTooManyRedirects), st)
  | S hops =>
      let n := length (sent st) in
      match fetch_single url etag st with
      | (None, st) => (None, st)
      | (Some (Err e), st) => (Some (Err e), st)
      | (Some (Ok r), st) =>
          if N.eqb (rs_status r) 200 then
            let st := wait (w_body_ms w n) st in
            if late st then (None, st) else
            (Some (let? body := read_body (rs_chunks r) "" in Ok (FetchOk body (rs_etag r) (rs_content_type r))), st)
          else if N.eqb (rs_status r) 304 then (Some (Ok NotModified), st)
          else if is_redirection (rs_status r) then
            match (let? loc := ok_or (rs_location r) (FeConnection "redirect without Location header") in
                   let? _ := map_err (λ m, FeConnection ("invalid redirect URL: " +:+ m)) (url_parse url) in
                   map_err (λ m, FeConnection ("invalid Location: " +:+ m)) (w_join w url loc)) with
            | Err e => (Some (Err e), st)
            | Ok next => fetch_loop hops next None st
            end
          else
            let st := wait (w_body_ms w n) st in
            if late st then (None, st) else
            (Some (Err (FeHttp (rs_status r) (read_error_body (rs_chunks r)))), st)
      end
  end.

(** [fetch_inner] *)
Definition fetch_inner (url : string) (etag : option string) (st : FetchState) :
    option (Result FetchError FetchResult) * FetchState :=
  fetch_loop (S (max_redirects cfg)) url etag st.

(** [fetch]: one deadline covers the whole fetch. *)
Definition fetch (url : string) (etag : option string) (cache : gmap string PinnedClient) :
    Result FetchError FetchResult * FetchState :=
  let '(r, st) := fetch_inner url etag (mkFetchState cache [] 0) in
  (default (Err (FeTimeout (timeout_secs cfg))) r, st).

End fetch.

(** ** What the fetcher relies on *)

(** The address an IP-literal host denotes, with or without brackets. *)
Definition literal_host (host : string) : option IpAddr :=
  match ip_from_str host with
  | Some ip => Some ip
  | None => match strip_brackets host with Some inner => V6 <$> ipv6_from_str inner | None => None end
  end.

Class WorldLaws (w : World) : Prop := {
  (** The resolver gives well-formed addresses; a socket address is itself. *)
  lookup_ok n target l a : w_lookup w n target = Found l → a ∈ l → ip_ok a;
  lookup_literal n host a l :
    ip_from_str host = None → literal_host host = Some a → w_lookup w n (host +:+ ":0") = Found l → l = [a];
  (** A client connects to the literal address of a URL, and for a name it
      overrides to one of the given addresses. *)
  connects_literal c host a ip : literal_host host = Some ip → w_connects w c host a → a = ip;
  connects_pinned host pins a :
    literal_host host = None → w_connects w (mkClient host (Some pins)) host a → a ∈ pins
}.

(** ** Pinned clients *)

(** The client built for a host whose checked addresses are [ips]. *)
Definition pinned_client (host : string) (ips : list IpAddr) : Client :=
  mkClient host (match ip_from_str host with None => Some ips | Some _ => None end).

(** Every cached client is pinned to the addresses of its entry, and there are
    at most 64 of them. *)
Record cache_ok (cache : gmap string PinnedClient) : Prop := {
  ca_pinned h e : cache !! h = Some e → pc_client e = pinned_client h (pc_ips e);
  ca_size : size cache ≤ client_cache_max_hosts
}.

Lemma cache_ok_empty : cache_ok ∅.
Proof. split; [intros h e; by rewrite lookup_empty|]. rewrite map_size_empty. unfold client_cache_max_hosts. lia. Qed.

Section safety.
Context `{L : UrlLib}.
Variable w : World.
Variable cfg : Config.

Lemma client_for_ok n host ips cache :
  cache_ok cache →
  let '(r, cache') := client_for w n host ips cache in
  cache_ok cache' ∧ ∀ c, r = Ok c → c = pinned_client host ips.
Proof.
  intros [Hp Hs]. unfold client_for.
  assert (cache_ok (<[host := mkPinned ips (pinned_client host ips)]>
    (if (client_cache_max_hosts <=? size cache)%nat then ∅ else cache))) as Hins.
  { destruct (Nat.leb_spec client_cache_max_hosts (size cache)) as [Hc|Hc]; split.
    - intros h e [[<- <-]|[_ He]]%lookup_insert_Some; [done|]. by rewrite lookup_empty in He.
    - rewrite map_size_insert_None, map_size_empty by apply lookup_empty. unfold client_cache_max_hosts. lia.
    - intros h e [[<- <-]|[_ He]]%lookup_insert_Some; [done|]. by apply Hp.
    - rewrite map_size_insert. destruct (cache !! host); simpl; lia. }
  assert (let '(r, cache') := match w_build w n with
    | Err m => (Err (FeConnection m), cache)
    | Ok _ => (Ok (pinned_client host ips), <[host := mkPinned ips (pinned_client host ips)]>
        (if (client_cache_max_hosts <=? size cache)%nat then ∅ else cache)) end in
    cache_ok cache' ∧ ∀ c, r = Ok c → c = pinned_client host ips) as Hbuild.
  { destruct (w_build w n); (split; [done|]); [by intros c <-%Ok_inj|done]. }
  destruct (cache !! host) as [e|] eqn:He; [|exact Hbuild].
  case_bool_decide as Hi; [|exact Hbuild]. split; [done|]. intros c <-%Ok_inj. by rewrite (Hp _ _ He), Hi.
Qed.

(** ** Checked addresses *)

Lemma check_all_Ok addrs safe ips :
  check_all addrs safe = Ok ips → ips = safe ++ addrs ∧ Forall (λ a, is_ok (check_ip a) = true) addrs.
Proof.
  revert safe. induction addrs as [|a addrs IH]; intros safe; simpl.
  { intros <-%Ok_inj. by rewrite app_nil_r. }
  intros (u & Hu & H)%result_bind_Ok. apply IH in H as [-> Hf]. rewrite <-(assoc_L app). split; [done|].
  constructor; [|done]. by destruct (check_ip a).
Qed.

Lemma check_Ok lookup url ips :
  check lookup url = Ok ips →
  ∃ u host, url_parse url = Ok u ∧ u_host_str u = Some host ∧ Forall (λ a, is_ok (check_ip a) = true) ips ∧
    match ip_from_str host with Some ip => ips = [ip] | None => lookup (host +:+ ":0") = Found ips end.
Proof.
  unfold check. intros (u & Hu & (host & Hh%ok_or_Ok & H)%result_bind_Ok)%result_bind_Ok.
  destruct (url_parse url) as [u'|]; [|done]. apply Ok_inj in Hu as ->. exists u, host. split_and!; [done|done|..].
  - destruct (ip_from_str host) as [ip|].
    + apply result_bind_Ok in H as (? & Hc & <-%Ok_inj). constructor; [|done]. by destruct (check_ip ip).
    + destruct (lookup _) as [[|a l]| |]; try done. apply check_all_Ok in H as [-> Hf]. done.
  - destruct (ip_from_str host) as [ip|].
    + by apply result_bind_Ok in H as (? & Hc & <-%Ok_inj).
    + destruct (lookup _) as [[|a l]| |]; try done. by apply check_all_Ok in H as [-> _].
Qed.

Lemma check_nonempty lookup url ips : check lookup url = Ok ips → ips ≠ [].
Proof.
  unfold check. intros (u & _ & (host & _ & H)%result_bind_Ok)%result_bind_Ok. destruct (ip_from_str host) as [ip|].
  - by apply result_bind_Ok in H as (? & _ & <-%Ok_inj).
  - destruct (lookup _) as [[|a l]| |]; try done. by apply check_all_Ok in H as [-> _].
Qed.

Lemma ip_from_str_ok s ip : ip_from_str s = Some ip → ip_ok ip.
Proof.
  unfold ip_from_str. destruct (ipv4_from_str s) as [o|] eqn:H4; [intros [= <-]; by eapply ipv4_from_str_ok|].
  intros (segs & H6 & ->)%fmap_Some. by eapply ipv6_from_str_ok.
Qed.

Lemma check_ip_exact ip : ip_ok ip → is_ok (check_ip ip) = true ↔ ¬ blocked ip.
Proof. destruct ip; [apply check_ipv4_exact|apply check_ipv6_exact]. Qed.

(** What the resolver of the [n]-th request gives for a host; a literal
    address is itself. *)
Definition resolution (n : nat) (host : string) : Lookup :=
  match ip_from_str host with Some ip => Found [ip] | None => w_lookup w n (host +:+ ":0") end.

(** The [n]-th request: its client is pinned to the addresses its own host
    resolved to, all of which were accepted, and it was sent in time. *)
Definition request_ok (n : nat) (q : Request) : Prop :=
  ∃ u ips, url_parse (rq_url q) = Ok u ∧ u_host_str u = Some (rq_host q) ∧
    resolution n (rq_host q) = Found ips ∧ Forall (λ a, is_ok (check_ip a) = true) ips ∧
    rq_client q = pinned_client (rq_host q) ips ∧ (rq_at q ≤ timeout_secs cfg * 1000)%N.

Lemma request_confined n q a :
  WorldLaws w → request_ok n q → w_connects w (rq_client q) (rq_host q) a →
  ∃ l, resolution n (rq_host q) = Found l ∧ a ∈ l ∧ Forall (λ b, ¬ blocked b) l.
Proof.
  intros Hw (u & ips & Hu & Hh & Hr & Hf & Hc & _) Ha. exists ips. split; [done|]. unfold resolution in Hr.
  assert (a ∈ ips ∧ Forall ip_ok ips) as [Hin Hok].
  { destruct (ip_from_str (rq_host q)) as [ip|] eqn:Hip.
    - injection Hr as <-. assert (literal_host (rq_host q) = Some ip) as Hl by (unfold literal_host; by rewrite Hip).
      rewrite (connects_literal _ _ _ _ Hl Ha). split; [by left|]. constructor; [by eapply ip_from_str_ok|done].
    - split; [|apply Forall_forall; intros b Hb; by eapply lookup_ok].
      destruct (literal_host (rq_host q)) as [ip|] eqn:Hl.
      + rewrite (lookup_literal _ _ _ _ Hip Hl Hr), (connects_literal _ _ _ _ Hl Ha). by left.
      + rewrite Hc in Ha. unfold pinned_client in Ha. rewrite Hip in Ha. by eapply connects_pinned. }
  split; [done|]. rewrite !Forall_forall in *. intros b Hb. by apply check_ip_exact; [apply Hok|apply Hf].
Qed.

(** ** One fetch *)

(** Request [q'] follows [q] on the redirect that answered it. *)
Definition follows (n : nat) (q q' : Request) : Prop :=
  ∃ resp loc, w_send w n (rq_client q) (rq_url q) (rq_etag q) = Ok resp ∧ is_redirection (rs_status resp) = true ∧
    rs_location resp = Some loc ∧ w_join w (rq_url q) loc = Ok (rq_url q') ∧ rq_etag q' = None.

(** Requests from the [n]-th on: each checked, each redirected by the one before. *)
Fixpoint trail (n : nat) (url : string) (etag : option string) (qs : list Request) : Prop :=
  match qs with
  | [] => True
  | q :: qs => rq_url q = url ∧ rq_etag q = etag ∧ request_ok n q ∧
      match qs with [] => True | q' :: _ => follows n q q' ∧ trail (S n) (rq_url q') None qs end
  end.

Lemma late_false st : late cfg st = false ↔ (elapsed st ≤ timeout_secs cfg * 1000)%N.
Proof. apply N.ltb_ge. Qed.

(** In time: a future that was not dropped has not passed the deadline. *)
Definition timely {A} (r : option A) (st : FetchState) : Prop :=
  match r with Some _ => late cfg st = false | None => late cfg st = true end.

Lemma fetch_single_ok url etag st :
  cache_ok (client_cache st) → late cfg st = false →
  let '(r, st') := fetch_single w cfg url etag st in
  cache_ok (client_cache st') ∧ timely r st' ∧
  ((sent st' = sent st ∧ ∀ x, r ≠ Some (Ok x)) ∨
   ∃ q, sent st' = sent st ++ [q] ∧ request_ok (length (sent st)) q ∧ rq_url q = url ∧ rq_etag q = etag ∧
     ∀ x, r = Some (Ok x) → w_send w (length (sent st)) (rq_client q) url etag = Ok x).
Proof.
  intros Hc Ht. unfold fetch_single. destruct (result_bind _ _) as [host|] eqn:E; [|by split_and!; [..|left]].
  apply result_bind_Ok in E as (u & Hu & Hh%ok_or_Ok). destruct (url_parse url) as [u'|] eqn:Hurl; [|done]. apply Ok_inj in Hu as ->.
  set (st1 := wait _ st). destruct (late cfg st1) eqn:Hl; [by split_and!; [..|left]|].
  destruct (check _ url) as [ips|] eqn:Hck; simpl; [|by split_and!; [..|left]].
  pose proof (client_for_ok (length (sent st)) host ips _ Hc) as Hcl.
  destruct (client_for _ _ _ _ _) as [[client|e] cache]; destruct Hcl as [Hk Hcl]; simpl; [|by split_and!; [..|left]].
  assert (request_ok (length (sent st)) (mkRequest url host client etag (elapsed st1))) as Hq.
  { apply check_Ok in Hck as (u0 & h & Hu0 & Hh0 & Hf & Hm). rewrite Hurl in Hu0. apply Ok_inj in Hu0 as <-.
    rewrite Hh in Hh0. injection Hh0 as <-. exists u, ips. unfold resolution. cbn.
    split_and!; [done|done| |done|by apply Hcl|exact (proj1 (late_false _) Hl)]. destruct (ip_from_str host); [by rewrite Hm|done]. }
  destruct (late cfg (wait _ _)) eqn:Hl2; (split; [done|split; [done|right; eexists; split_and!; [done|done|done|done|]]]); [done|].
  intros x [= Hx]. by destruct (w_send _ _ _ _ _); [apply Ok_inj in Hx as <-|].
Qed.

Lemma fetch_loop_ok hops url etag st :
  cache_ok (client_cache st) → late cfg st = false →
  let '(r, st') := fetch_loop w cfg hops url etag st in
  cache_ok (client_cache st') ∧ timely r st' ∧
  ∃ new, sent st' = sent st ++ new ∧ length new ≤ hops ∧ trail (length (sent st)) url etag new.
Proof.
  revert url etag st. induction hops as [|hops IH]; intros url etag st Hc Hl; simpl.
  { split_and!; [done..|]. exists []. by rewrite app_nil_r. }
  pose proof (fetch_single_ok url etag st Hc Hl) as Hf. destruct (fetch_single _ _ _ _ _) as [r st1].
  destruct Hf as (Hc1 & Ht1 & [[Hs Hr]|(q & Hs & Hq & Hqu & Hqe & Hsend)]).
  { assert (∃ new, sent st1 = sent st ++ new ∧ length new ≤ S hops ∧ trail (length (sent st)) url etag new) as Hend.
    { exists []. rewrite app_nil_r. split_and!; [done|simpl; lia|done]. }
    destruct r as [[x|]|]; [by destruct (Hr x)|by split_and!..]. }
  assert (∃ new, sent st1 = sent st ++ new ∧ length new ≤ S hops ∧ trail (length (sent st)) url etag new) as Hend.
  { exists [q]. split_and!; [done|simpl; lia|done]. }
  destruct r as [[x|]|]; [|by split_and!..]. specialize (Hsend x eq_refl).
  destruct (N.eqb (rs_status x) 200).
  { destruct (late cfg (wait _ st1)) eqn:Hw; by split_and!. }
  destruct (N.eqb (rs_status x) 304); [by split_and!|].
  destruct (is_redirection _) eqn:Hred.
  2:{ destruct (late cfg (wait _ st1)) eqn:Hw; by split_and!. }
  destruct (result_bind _ _) as [next|] eqn:Hn; [|by split_and!].
  apply result_bind_Ok in Hn as (loc & Hloc%ok_or_Ok & (? & _ & Hj)%result_bind_Ok).
  specialize (IH next None st1 Hc1 Ht1). destruct (fetch_loop _ _ _ _ _ _) as [y st2].
  destruct IH as (Hc2 & Ht2 & new & Hnew & Hlen & Htr). split_and!; [done..|]. exists (q :: new).
  rewrite Hnew, Hs, <-(assoc_L app). split_and!; [done|simpl; lia|]. simpl. split_and!; [done..|].
  destruct new as [|q' new]; [done|]. rewrite Hs, length_app, Nat.add_1_r in Htr. destruct Htr as (Hu' & He' & Htr).
  split; [|by rewrite Hu']. exists x, loc. rewrite Hqu, Hqe, Hu'. destruct (w_join w url loc); [|done]. by apply Ok_inj in Hj as ->.
Qed.

Lemma trail_lookup n url etag qs i q : trail n url etag qs → qs !! i = Some q → request_ok (n + i) q.
Proof.
  revert n url etag i. induction qs as [|q0 qs IH]; intros n url etag i; [done|]. intros (_ & _ & Hq & Hr) Hi.
  destruct i as [|i]; [injection Hi as <-; by rewrite Nat.add_0_r|]. rewrite Nat.add_succ_r.
  destruct qs as [|q1 qs]; [done|]. destruct Hr as [_ Hr]. by eapply (IH (S n)).
Qed.

Lemma trail_follows n url etag qs i q q' :
  trail n url etag qs → qs !! i = Some q → qs !! S i = Some q' → follows (n + i) q q'.
Proof.
  revert n url etag i. induction qs as [|q0 qs IH]; intros n url etag i; [done|]. intros (_ & _ & _ & Hr) Hi Hi'.
  destruct qs as [|q1 qs]; [done|]. destruct Hr as [Hf Hr].
  destruct i as [|i]; [injection Hi as <-; injection Hi' as <-; by rewrite Nat.add_0_r|].
  rewrite Nat.add_succ_r. by eapply (IH (S n)).
Qed.

Lemma read_body_bound chunks body b :
  read_body cfg chunks body = Ok b → String.length body ≤ max_body_size cfg → String.length b ≤ max_body_size cfg.
Proof.
  revert body. induction chunks as [|[chunk|e] chunks IH]; intros body; simpl; [by intros <-%Ok_inj| |done].
  destruct (Nat.ltb_spec (max_body_size cfg) (String.length (body +:+ chunk))); [done|]. intros Hb _. by eapply IH.
Qed.

Lemma fetch_loop_body hops url etag st body e c st' :
  fetch_loop w cfg hops url etag st = (Some (Ok (FetchOk body e c)), st') → String.length body ≤ max_body_size cfg.
Proof.
  revert url etag st. induction hops as [|hops IH]; intros url etag st; simpl; [done|].
  destruct (fetch_single _ _ _ _ _) as [[[r|]|] st1]; [|done..]. destruct (N.eqb (rs_status r) 200).
  { destruct (late _ _); [done|]. destruct (read_body _ _ _) as [b|] eqn:Hb; simpl; [|done].
    intros [= -> _ _ _]. eapply read_body_bound; [done|simpl; lia]. }
  destruct (N.eqb (rs_status r) 304); [done|]. destruct (is_redirection _); [|by destruct (late _ _)].
  destruct (result_bind _ _); [apply IH|done].
Qed.

(** C25: a fetch never reaches the inside: whatever the resolver answers at
    each moment and wherever redirects point, every address the [i]-th request
    may connect to is one that the host of its own URL resolved to for that
    request, and that whole answer lies in no blocked network (loopback,
    private, link-local, multicast, this-network, shared-address and
    unique-local ranges, also as IPv4-mapped or compatible IPv6).  The first
    request is to the given URL with its entity tag, each later one is where
    the one before was redirected to, without the tag; there is at most one
    request per allowed hop, and none is sent after the deadline; a fetch whose
    waiting passes the deadline reports the timeout, the accepted body is
    within the limit, and the cached clients stay pinned and few. *)
Theorem fetch_confined `{!WorldLaws w} url etag cache r st' :
  cache_ok cache → fetch w cfg url etag cache = (r, st') →
  cache_ok (client_cache st') ∧ length (sent st') ≤ S (max_redirects cfg) ∧
  (∀ i q, sent st' !! i = Some q →
     (∃ u, url_parse (rq_url q) = Ok u ∧ u_host_str u = Some (rq_host q)) ∧
     (rq_at q ≤ timeout_secs cfg * 1000)%N ∧
     ∀ a, w_connects w (rq_client q) (rq_host q) a →
       ∃ l, resolution i (rq_host q) = Found l ∧ a ∈ l ∧ Forall (λ b, ¬ blocked b) l) ∧
  (∀ q, sent st' !! 0 = Some q → rq_url q = url ∧ rq_etag q = etag) ∧
  (∀ i q q', sent st' !! i = Some q → sent st' !! S i = Some q' → follows i q q') ∧
  ((timeout_secs cfg * 1000 < elapsed st')%N → r = Err (FeTimeout (timeout_secs cfg))) ∧
  (∀ body e c, r = Ok (FetchOk body e c) → String.length body ≤ max_body_size cfg).
Proof.
  intros Hc. unfold fetch, fetch_inner. pose proof (fetch_loop_ok (S (max_redirects cfg)) url etag (mkFetchState cache [] 0) Hc) as H.
  destruct (fetch_loop _ _ _ _ _ _) as [x st] eqn:E. destruct H as (Hc' & Ht & new & Hn & Hl & Htr); [by apply late_false, N.le_0_l|].
  simpl in Hn, Htr. intros [= <- <-]. rewrite Hn. split_and!; [done|done|..].
  - intros i q Hi. pose proof (trail_lookup _ _ _ _ _ _ Htr Hi) as Hq. split_and!.
    + destruct Hq as (u & ? & ? & ? & _). by exists u.
    + by destruct Hq as (? & ? & _ & _ & _ & _ & _ & ?).
    + intros a. by apply request_confined.
  - intros q Hq. destruct new as [|q0 new]; [done|]. injection Hq as <-. by destruct Htr as (? & ? & _).
  - intros i q q'. apply (trail_follows 0 _ _ _ _ _ _ Htr).
  - intros Hlate%N.ltb_lt. destruct x; [|done]. unfold timely, late in Ht. by rewrite Hlate in Ht.
  - intros body e c Hr. destruct x as [x|]; [|done]. simpl in Hr. subst x. by eapply fetch_loop_body.
Qed.

End safety.

Lemma check_all_ok addrs safe :
  Forall (λ a, is_ok (check_ip a) = true) addrs → check_all addrs safe = Ok (safe ++ addrs).
Proof.
  revert safe. induction addrs as [|a addrs IH]; intros safe Hf; simpl; [by rewrite app_nil_r|].
  apply Forall_cons in Hf as [Ha Hf]. destruct (check_ip a); [|done]. simpl. by rewrite (IH _ Hf), <-(assoc_L app).
Qed.

(** An answer of the resolver that may be connected to. *)
Definition safe_answer (l : list IpAddr) : Prop := l ≠ [] ∧ Forall (λ a, ¬ blocked a) l.

(** The addresses a host stands for: a literal is itself, a name what the
    resolver finds. *)
Definition host_addresses (lookup : string → Lookup) (host : string) : Lookup :=
  match ip_from_str host with Some ip => Found [ip] | None => lookup (host +:+ ":0") end.

(** C34: the guard refuses exactly the blocked networks: an IPv4 or IPv6
    address passes the check exactly if it is outside every listed network, an
    embedded IPv4 address counting as itself; and the guard accepts a URL, and
    returns a list of addresses to pin, exactly if the URL parses, has a host,
    that list is what the host stands for (the literal address itself, or what
    the resolver finds), and it is not empty and none of it is blocked. *)
Theorem ssrf_exact `{UrlLib} :
  (∀ ip, ip_ok ip → is_ok (check_ip ip) = true ↔ ¬ blocked ip) ∧
  (∀ lookup url l, (∀ target l, lookup target = Found l → Forall ip_ok l) →
     check lookup url = Ok l ↔
     ∃ u host, url_parse url = Ok u ∧ u_host_str u = Some host ∧ host_addresses lookup host = Found l ∧ safe_answer l).
Proof.
  split; [apply check_ip_exact|]. intros lookup url l Hlk.
  assert (∀ host, host_addresses lookup host = Found l →
    Forall (λ a, is_ok (check_ip a) = true) l ↔ Forall (λ a, ¬ blocked a) l) as Hiff.
  { intros host Ha. assert (Forall ip_ok l) as Hok.
    { unfold host_addresses in Ha. destruct (ip_from_str host) as [ip|] eqn:Hip; [|by eapply Hlk].
      injection Ha as <-. constructor; [by eapply ip_from_str_ok|done]. }
    rewrite !Forall_forall in *. split; intros Hf a Ha'; by apply check_ip_exact, Hf; [apply Hok|]. }
  split.
  - intros Hc. pose proof (check_nonempty _ _ _ Hc) as Hne. apply check_Ok in Hc as (u & host & Hu & Hh & Hf & Hm).
    exists u, host. assert (host_addresses lookup host = Found l) as Ha.
    { unfold host_addresses. destruct (ip_from_str host); [by rewrite Hm|done]. }
    split_and!; [done..|]. split; [done|by apply (Hiff host)].
  - intros (u & host & Hu & Hh & Ha & Hne & Hf). apply (Hiff host Ha) in Hf. clear Hiff. unfold check, host_addresses in *. rewrite Hu. cbn [map_err result_bind].
    rewrite Hh. cbn [ok_or result_bind]. destruct (ip_from_str host) as [ip|].
    + injection Ha as <-. apply Forall_inv in Hf. by destruct (check_ip ip) as [[]|].
    + rewrite Ha. destruct l as [|a l]; [done|]. by apply check_all_ok.
Qed.

(** ** Witnesses *)

(** A world with one name, one answer and one redirect to the inside. *)
Definition demo_world : World :=
  mkWorld
    (λ n t, if String.eqb t "a.example:0" then Found [V4 (93, 184, 216, 34)%N] else HostNotFound)
    (λ _, Ok ())
    (λ n c url etag, Ok (mkResponse 200 None None None [Ok "x"]))
    (λ _, 40%N) (λ _, 200%N) (λ _, 1500%N)
    (λ base loc, Ok loc)
    (λ c host a, match literal_host host with
                 | Some ip => a = ip
                 | None => match cl_pins c with Some pins => a ∈ pins | None => False end
                 end).

#[local] Existing Instance UrlInstance.url_lib.

Lemma demo_world_laws : WorldLaws demo_world.
Proof.
  split.
  - intros n target l a. simpl. destruct (String.eqb target _); [|done]. intros [= <-] ->%list_elem_of_singleton. done.
  - intros n host a l _ Hl. simpl. destruct (String.eqb_spec (host +:+ ":0") "a.example:0") as [He|]; [|done].
    exfalso. do 9 (destruct host as [|? host]; [done|injection He as -> He]). destruct host as [|? host].
    + vm_compute in Hl. done.
    + injection He as -> He. destruct host as [|? host]; [done|]. injection He as -> He. by destruct host.
  - intros c host a ip Hl. simpl. by rewrite Hl.
  - intros host pins a Hl. simpl. by rewrite Hl.
Qed.

Definition demo_fetch := fetch demo_world default_config "https://u@a.example:443" None ∅.

Lemma fetch_confined_witness :
  length (sent demo_fetch.2) = 1 ∧ elapsed demo_fetch.2 = 1740%N ∧
  ∀ i q a, sent demo_fetch.2 !! i = Some q → w_connects demo_world (rq_client q) (rq_host q) a → ¬ blocked a.
Proof.
  split; [vm_compute; reflexivity|]. split; [vm_compute; reflexivity|]. intros i q a Hq Ha.
  destruct (@fetch_confined _ demo_world default_config demo_world_laws "https://u@a.example:443" None ∅
    demo_fetch.1 demo_fetch.2 cache_ok_empty) as (_ & _ & H & _).
  - unfold demo_fetch. symmetry. apply surjective_pairing.
  - destruct (H i q Hq) as (_ & _ & Hr). destruct (Hr a Ha) as (l & _ & Hin & Hf).
    exact (proj1 (Forall_forall _ _) Hf a Hin).
Defined.

(** A resolver of one public and one private name. *)
Definition demo_lookup (target : string) : Lookup :=
  if String.eqb target "a.example:0" then Found [V4 (93, 184, 216, 34)%N]
  else if String.eqb target "b.example:0" then Found [V4 (93, 184, 216, 34)%N; V4 (10, 0, 0, 1)%N] else HostNotFound.

Lemma demo_lookup_ok target l : demo_lookup target = Found l → Forall ip_ok l.
Proof.
  unfold demo_lookup. destruct (String.eqb _ _); [|destruct (String.eqb _ _); [|done]];
    intros [= <-]; repeat first [apply Forall_nil_2 | apply Forall_cons_2; [vm_compute; split_and!; reflexivity|]].
Qed.

Lemma ssrf_exact_witness :
  ¬ blocked (V4 (8, 8, 8, 8)%N) ∧ is_ok (check_ip (V4 (10, 1, 2, 3)%N)) = false ∧
  safe_answer [V4 (93, 184, 216, 34)%N] ∧
  is_ok (check demo_lookup "https://u@b.example:443") = false.
Proof.
  split; [apply (proj1 ssrf_exact); [vm_compute; split_and!; reflexivity|reflexivity]|]. split; [reflexivity|].
  split; [|vm_compute; reflexivity].
  assert (check demo_lookup "https://u@a.example:443" = Ok [V4 (93, 184, 216, 34)%N]) as Hc by (vm_compute; reflexivity).
  destruct (proj1 (proj2 ssrf_exact demo_lookup "https://u@a.example:443" [V4 (93, 184, 216, 34)%N] demo_lookup_ok) Hc) as (u & host & _ & _ & _ & Hs).
  exact Hs.
Defined.

End Fetch.
