(* ===== verification/SourceDb.v ===== *)
(** * Source storage ([crates/deve-sub-storage-sqlite/src])

    The tables of migrations 0004, 0017, 0019 and 0028 as one database state,
    and the operations of [source_refresh_job_repository.rs],
    [source_refresh_transaction.rs], [source_snapshot_repository.rs],
    [source_repository.rs] and [source_repository/config_update.rs] on it.
    An operation is a function from the state to a result and the state after
    it; a transaction that returns an error leaves the state alone.  The
    clock is an argument.  Tables with a primary key are maps; the
    row identifiers of items and bindings, which nothing reads, are left out,
    and so is the encryption of the columns of [nodes], [source_items] and
    [node_source_bindings], which hold here what decrypting them yields. *)

From S2P Require Import Prelude Kernel Node NodePool Text UrlText Crypto Subscription Source.
Import Text UrlText Crypto Source.

Module SourceDb.

(** ** Rows *)

Record SourceRow := mkSourceRow {
  sr_name : string;
  sr_source_type : string;
  sr_url_encrypted : option string;
  sr_http_method : string;
  sr_headers_encrypted : option string;
  sr_auto_update : bool;
  sr_update_interval_secs : Z;
  sr_enabled : bool;
  sr_keep_on_fail : bool;
  sr_filter_rules : option SourceFilterRules;
  sr_created_at : Z
}.

(** The [CHECK] constraints keep status and phase among the encoded values. *)
Record JobRow := mkJobRow {
  jr_source_id : N;
  jr_status : JobStatus;
  jr_phase : RefreshPhase;
  jr_started_at : Z;
  jr_finished_at : option Z;
  jr_error_message : option string;
  jr_new_nodes : Z;
  jr_duplicate_nodes : Z;
  jr_reactivated_nodes : Z;
  jr_missing_nodes : Z;
  jr_not_modified : bool
}.

Record SnapshotRow := mkSnapshotRow {
  snr_source_id : N;
  snr_version : Z;
  snr_fetched_at : Z;
  snr_etag : option string;
  snr_node_count : Z;
  snr_is_active : bool
}.

Record ItemRow := mkItemRow { it_snapshot_id : N; it_raw_uri : string; it_parse_status : string }.

Record BindingRow := mkBindingRow { b_node_id : NodeId; b_source_id : N; b_raw_uri : string }.

(** A row of [nodes]: the columns the pool reads decode, the identity
    fingerprint and the independent source label. *)
Record PoolNode := mkPoolNode {
  pn_row : SqlitePool.PoolRow;
  pn_fingerprint : string;
  pn_label : string
}.

Definition pn_missing (p : PoolNode) : bool := SqlitePool.row_missing (pn_row p).

Record Db := mkDb {
  sources : gmap N SourceRow;
  jobs : gmap N JobRow;
  snapshots : gmap N SnapshotRow;
  items : list ItemRow;
  nodes : gmap NodeId PoolNode;
  bindings : list BindingRow;
  pool_revision : N;
  withdrawal_revision : N
}.

Definition with_sources (t : gmap N SourceRow) (db : Db) : Db :=
  mkDb t (jobs db) (snapshots db) (items db) (nodes db) (bindings db) (pool_revision db) (withdrawal_revision db).
Definition with_jobs (t : gmap N JobRow) (db : Db) : Db :=
  mkDb (sources db) t (snapshots db) (items db) (nodes db) (bindings db) (pool_revision db) (withdrawal_revision db).
Definition with_snapshots (t : gmap N SnapshotRow) (db : Db) : Db :=
  mkDb (sources db) (jobs db) t (items db) (nodes db) (bindings db) (pool_revision db) (withdrawal_revision db).
Definition with_items (t : list ItemRow) (db : Db) : Db :=
  mkDb (sources db) (jobs db) (snapshots db) t (nodes db) (bindings db) (pool_revision db) (withdrawal_revision db).
Definition with_nodes (t : gmap NodeId PoolNode) (db : Db) : Db :=
  mkDb (sources db) (jobs db) (snapshots db) (items db) t (bindings db) (pool_revision db) (withdrawal_revision db).
Definition with_bindings (t : list BindingRow) (db : Db) : Db :=
  mkDb (sources db) (jobs db) (snapshots db) (items db) (nodes db) t (pool_revision db) (withdrawal_revision db).
Definition with_revisions (r w : N) (db : Db) : Db :=
  mkDb (sources db) (jobs db) (snapshots db) (items db) (nodes db) (bindings db) r w.

(** [u64 as i64] and [u64::try_from(i64)] *)
Definition as_i64 (n : N) : Z :=
  if N.leb n i64_max then Z.of_N n else (Z.of_N n - 18446744073709551616)%Z.
Definition u64_try_from (z : Z) (what : string) : Result SourceError N :=
  if Z.ltb z 0 then Err (Storage ("negative " +:+ what)) else Ok (Z.to_N z).

(** [format_ts(..).map_err(SourceError::Storage)] *)
Definition db_ts (ts : Z) : Result SourceError Z := map_err Storage (Subscription.format_ts ts).

(** Some row of a table satisfies a condition. *)
Definition any_row {A} (p : N → A → bool) (t : gmap N A) : bool :=
  existsb (λ kv, p kv.1 kv.2) (map_to_list t).

(** ** Refresh jobs ([source_refresh_job_repository.rs]) *)

(** [JobRow::to_domain] *)
Definition job_to_domain (id : N) (r : JobRow) : Result SourceError SourceRefreshJob :=
  let? n := u64_try_from (jr_new_nodes r) "new_nodes" in
  let? d := u64_try_from (jr_duplicate_nodes r) "duplicate_nodes" in
  let? a := u64_try_from (jr_reactivated_nodes r) "reactivated_nodes" in
  let? m := u64_try_from (jr_missing_nodes r) "missing_nodes" in
  Ok (mkJob id (jr_source_id r) (jr_status r) (jr_phase r) (jr_started_at r) (jr_finished_at r)
        (jr_error_message r) (mkReconcileResult n d a m) (jr_not_modified r)).

Definition is_running (r : JobRow) : bool := bool_decide (jr_status r = JRunning).
Definition is_open (r : JobRow) : bool := negb (is_terminal (jr_status r)).

(** The partial unique index [idx_refresh_jobs_lease]: another row of the
    source is running. *)
Definition lease_held (db : Db) (src except : N) : bool :=
  any_row (λ id r, bool_decide (id ≠ except) && N.eqb (jr_source_id r) src && is_running r) (jobs db).

(** [create]: a taken primary key has an SQLite code of its own, so
    [is_unique_violation] of [error_classify.rs] does not match it; only the
    lease index gives [RefreshInProgress]. *)
Definition create_job (job : SourceRefreshJob) (db : Db) : Result SourceError () * Db :=
  match db_ts (j_started_at job) with
  | Err e => (Err e, db)
  | Ok started_at =>
      if bool_decide (is_Some (jobs db !! j_id job)) then (Err (Storage "UNIQUE constraint failed: source_refresh_jobs.id"), db)
      else if bool_decide (j_status job = JRunning) && lease_held db (j_source_id job) (j_id job)
      then (Err (RefreshInProgress (id_display (j_source_id job))), db)
      else if bool_decide (sources db !! j_source_id job = None) then (Err (Storage "FOREIGN KEY constraint failed"), db)
      else (Ok (), with_jobs (<[j_id job := mkJobRow (j_source_id job) (j_status job) (j_phase job) started_at
                                 None None 0 0 0 0 false]> (jobs db)) db)
  end.

(** [find_by_id] *)
Definition find_job (id : N) (db : Db) : Result SourceError (option SourceRefreshJob) :=
  match jobs db !! id with
  | None => Ok None
  | Some r => let? j := job_to_domain id r in Ok (Some j)
  end.

(** [find_running_for_source]; the index makes the row unique. *)
Definition find_running_for_source (src : N) (db : Db) : Result SourceError (option SourceRefreshJob) :=
  match List.find (λ kv, N.eqb (jr_source_id kv.2) src && is_running kv.2) (map_to_list (jobs db)) with
  | None => Ok None
  | Some kv => let? j := job_to_domain kv.1 kv.2 in Ok (Some j)
  end.

Definition set_status (s : JobStatus) (r : JobRow) : JobRow :=
  mkJobRow (jr_source_id r) s (jr_phase r) (jr_started_at r) (jr_finished_at r) (jr_error_message r)
    (jr_new_nodes r) (jr_duplicate_nodes r) (jr_reactivated_nodes r) (jr_missing_nodes r) (jr_not_modified r).

(** [mark_running] *)
Definition mark_running (id : N) (db : Db) : Result SourceError () * Db :=
  match jobs db !! id with
  | Some r =>
      if bool_decide (jr_status r = JPending)
      then if lease_held db (jr_source_id r) id
           then (Err (RefreshInProgress "lease held by another running job"), db)
           else (Ok (), with_jobs (<[id := set_status JRunning r]> (jobs db)) db)
      else (Err (Storage "job not found or not in Pending status"), db)
  | None => (Err (Storage "job not found or not in Pending status"), db)
  end.

(** [update_phase]: the heartbeat is written whatever the status. *)
Definition update_phase (now : Z) (id : N) (p : RefreshPhase) (db : Db) : Result SourceError () * Db :=
  match db_ts now with
  | Err e => (Err e, db)
  | Ok now =>
      (Ok (), with_jobs (alter (λ r, mkJobRow (jr_source_id r) (jr_status r) p now (jr_finished_at r)
        (jr_error_message r) (jr_new_nodes r) (jr_duplicate_nodes r) (jr_reactivated_nodes r)
        (jr_missing_nodes r) (jr_not_modified r)) id (jobs db)) db)
  end.

Definition finish_completed (now : Z) (res : ReconcileResult) (not_modified : bool) (r : JobRow) : JobRow :=
  mkJobRow (jr_source_id r) JCompleted Publishing (jr_started_at r) (Some now) (jr_error_message r)
    (as_i64 (new_nodes res)) (as_i64 (duplicate_nodes res)) (as_i64 (reactivated_nodes res))
    (as_i64 (missing_nodes res)) not_modified.

Definition finish (s : JobStatus) (now : Z) (message : option string) (r : JobRow) : JobRow :=
  mkJobRow (jr_source_id r) s (jr_phase r) (jr_started_at r) (Some now) message
    (jr_new_nodes r) (jr_duplicate_nodes r) (jr_reactivated_nodes r) (jr_missing_nodes r) (jr_not_modified r).

(** [UPDATE source_refresh_jobs SET .. WHERE id = ? AND p] *)
Definition update_job (id : N) (p : JobRow → bool) (f : JobRow → JobRow) (db : Db) : Db :=
  with_jobs (alter (λ r, if p r then f r else r) id (jobs db)) db.

(** [UPDATE source_refresh_jobs SET .. WHERE p] and the affected rows *)
Definition update_jobs (p : JobRow → bool) (f : JobRow → JobRow) (db : Db) : Db :=
  with_jobs ((λ r, if p r then f r else r) <$> jobs db) db.
Definition count_jobs (p : JobRow → bool) (db : Db) : N :=
  N.of_nat (length (filter (λ kv, p kv.2 = true) (map_to_list (jobs db)))).

(** [mark_completed] *)
Definition mark_completed (now : Z) (id : N) (res : ReconcileResult) (not_modified : bool) (db : Db) :
    Result SourceError () * Db :=
  match db_ts now with
  | Err e => (Err e, db)
  | Ok now => (Ok (), update_job id is_running (finish_completed now res not_modified) db)
  end.

(** [mark_failed] *)
Definition mark_failed (now : Z) (id : N) (message : string) (db : Db) : Result SourceError () * Db :=
  match db_ts now with
  | Err e => (Err e, db)
  | Ok now => (Ok (), update_job id is_open (finish JFailed now (Some message)) db)
  end.

(** [mark_cancelled] *)
Definition mark_cancelled (now : Z) (id : N) (db : Db) : Result SourceError () * Db :=
  match db_ts now with
  | Err e => (Err e, db)
  | Ok now => (Ok (), update_job id is_open (λ r, finish JCancelled now (jr_error_message r) r) db)
  end.

(** [delete] *)
Definition delete_job (id : N) (db : Db) : Result SourceError () * Db :=
  (Ok (), with_jobs (delete id (jobs db)) db).

Fixpoint collect_jobs (l : list (N * JobRow)) : Result SourceError (list SourceRefreshJob) :=
  match l with
  | [] => Ok []
  | kv :: l => let? j := job_to_domain kv.1 kv.2 in let? js := collect_jobs l in Ok (j :: js)
  end.

(** [list_for_source] *)
Definition list_jobs (src : N) (limit : N) (db : Db) : Result SourceError (list SourceRefreshJob) :=
  collect_jobs (take (N.to_nat (N.min limit 100))
    (sort_by (λ a b, Z.compare (jr_started_at b.2) (jr_started_at a.2))
      (filter (λ kv, jr_source_id kv.2 = src) (map_to_list (jobs db))))).

(** [recover_crashed_jobs] *)
Definition recover_crashed_jobs (now : Z) (db : Db) : Result SourceError N * Db :=
  match db_ts now with
  | Err e => (Err e, db)
  | Ok now =>
      (Ok (count_jobs is_open db),
       update_jobs is_open (finish JFailed now (Some "process crashed during refresh")) db)
  end.

Definition is_stale (cutoff : Z) (r : JobRow) : bool := is_running r && Z.ltb (jr_started_at r) cutoff.

(** [recover_stale_jobs] *)
Definition recover_stale_jobs (now cutoff : Z) (reason : string) (db : Db) : Result SourceError N * Db :=
  match db_ts cutoff with
  | Err e => (Err e, db)
  | Ok cutoff =>
  match db_ts now with
  | Err e => (Err e, db)
  | Ok now =>
      (Ok (count_jobs (is_stale cutoff) db),
       update_jobs (is_stale cutoff) (finish JFailed now (Some reason)) db)
  end end.

(** ** The lease inside a publication ([source_refresh_transaction.rs]) *)

Definition owns_lease (src : N) (r : JobRow) : bool := N.eqb (jr_source_id r) src && is_running r.

(** [complete] *)
Definition complete (now : Z) (src job : N) (res : ReconcileResult) (not_modified : bool) (db : Db) :
    Result SourceError Db :=
  let? now := db_ts now in
  match jobs db !! job with
  | Some r =>
      if owns_lease src r
      then Ok (with_jobs (<[job := finish_completed now res not_modified r]> (jobs db)) db)
      else Err (Storage "refresh lease is no longer running")
  | None => Err (Storage "refresh lease is no longer running")
  end.

(** ** Snapshots ([source_snapshot_repository.rs]) *)

(** [SnapshotRow::to_domain] *)
Definition snapshot_to_domain (id : N) (r : SnapshotRow) : Result SourceError SourceSnapshot :=
  let? v := u64_try_from (snr_version r) "version" in
  let? n := u64_try_from (snr_node_count r) "node_count" in
  Ok (mkSnapshot id (snr_source_id r) v (snr_fetched_at r) (snr_etag r) n (snr_is_active r)).

Definition is_active_for (src : N) (r : SnapshotRow) : bool := N.eqb (snr_source_id r) src && snr_is_active r.

(** [UPDATE source_snapshots SET is_active = 0 WHERE source_id = ? AND is_active = 1] *)
Definition deactivate (src : N) (db : Db) : Db :=
  with_snapshots ((λ r, if is_active_for src r
    then mkSnapshotRow (snr_source_id r) (snr_version r) (snr_fetched_at r) (snr_etag r) (snr_node_count r) false
    else r) <$> snapshots db) db.

(** The insertion under the primary key, the two unique indexes and the
    reference to [sources]. *)
Definition insert_snapshot (id : N) (row : SnapshotRow) (db : Db) : Result SourceError Db :=
  if bool_decide (is_Some (snapshots db !! id)) then Err (Storage "UNIQUE constraint failed: source_snapshots.id")
  else if snr_is_active row && any_row (λ _ r, is_active_for (snr_source_id row) r) (snapshots db)
  then Err (Storage "UNIQUE constraint failed: idx_snapshots_single_active")
  else if any_row (λ _ r, N.eqb (snr_source_id r) (snr_source_id row) && Z.eqb (snr_version r) (snr_version row))
            (snapshots db)
  then Err (Storage "UNIQUE constraint failed: idx_snapshots_source_version_unique")
  else if bool_decide (sources db !! snr_source_id row = None) then Err (Storage "FOREIGN KEY constraint failed")
  else Ok (with_snapshots (<[id := row]> (snapshots db)) db).

(** [create] *)
Definition create_snapshot (s : SourceSnapshot) (db : Db) : Result SourceError () * Db :=
  match (let? fetched := db_ts (sn_fetched_at s) in
         insert_snapshot (sn_id s) (mkSnapshotRow (sn_source_id s) (as_i64 (sn_version s)) fetched (sn_etag s)
           (as_i64 (sn_node_count s)) (sn_is_active s)) (deactivate (sn_source_id s) db)) with
  | Ok db' => (Ok (), db')
  | Err e => (Err e, db)
  end.

(** [find_active] *)
Definition find_active (src : N) (db : Db) : Result SourceError (option SourceSnapshot) :=
  match List.find (λ kv, is_active_for src kv.2) (map_to_list (snapshots db)) with
  | None => Ok None
  | Some kv => let? s := snapshot_to_domain kv.1 kv.2 in Ok (Some s)
  end.

Fixpoint collect_snapshots (l : list (N * SnapshotRow)) : Result SourceError (list SourceSnapshot) :=
  match l with
  | [] => Ok []
  | kv :: l => let? s := snapshot_to_domain kv.1 kv.2 in let? ss := collect_snapshots l in Ok (s :: ss)
  end.

(** [find_active_for_sources] *)
Definition find_active_for_sources (ids : list N) (db : Db) : Result SourceError (gmap N SourceSnapshot) :=
  let? l := collect_snapshots
    (filter (λ kv, snr_is_active kv.2 = true ∧ snr_source_id kv.2 ∈ ids) (map_to_list (snapshots db))) in
  Ok (foldl (λ m s, <[sn_source_id s := s]> m) ∅ l).

Definition by_version_desc (a b : N * SnapshotRow) : comparison := Z.compare (snr_version b.2) (snr_version a.2).

Definition versions_desc (src : N) (db : Db) : list (N * SnapshotRow) :=
  sort_by by_version_desc (filter (λ kv, snr_source_id kv.2 = src) (map_to_list (snapshots db))).

(** [list_for_source] *)
Definition list_snapshots (src limit : N) (db : Db) : Result SourceError (list SourceSnapshot) :=
  collect_snapshots (take (N.to_nat (N.min limit 100)) (versions_desc src db)).

(** [find_by_id] *)
Definition find_snapshot (id : N) (db : Db) : Result SourceError (option SourceSnapshot) :=
  match snapshots db !! id with
  | None => Ok None
  | Some r => let? s := snapshot_to_domain id r in Ok (Some s)
  end.

Definition set_fetched_at (ts : Z) (r : SnapshotRow) : SnapshotRow :=
  mkSnapshotRow (snr_source_id r) (snr_version r) ts (snr_etag r) (snr_node_count r) (snr_is_active r).

(** [touch_fetched_at] *)
Definition touch_fetched_at (src job : N) (now : Z) (db : Db) : Result SourceError () * Db :=
  match (let? ts := db_ts now in
         let? db' := complete now src job reconcile_default true db in
         Ok (with_snapshots ((λ r, if is_active_for src r then set_fetched_at ts r else r) <$> snapshots db') db')) with
  | Ok db' => (Ok (), db')
  | Err e => (Err e, db)
  end.

(** ** Sources ([source_repository.rs], [config_update.rs]) *)

(** [bump_revision_tx] *)
Definition bump_revision (db : Db) : Db := with_revisions (pool_revision db + 1) (withdrawal_revision db) db.

Section repository.
Context `{L : UrlLib} `{C : CryptoLib}.
Variable key : option string.

Definition ctx_url : string := "sources.url".
Definition ctx_headers : string := "sources.headers".

(** [SqliteSourceRepository::seal], [open], [open_opt] *)
Definition seal_col (nonce : option string) (context plaintext : string) : Result SourceError (option string) :=
  match key with
  | Some k => match seal nonce k context plaintext with
              | Ok e => Ok (Some e)
              | Err _ => Err (Storage "encryption failed")
              end
  | None => Ok None
  end.

Definition open_bytes (k context env : string) : Result SourceError string :=
  let? bytes := map_err (λ _, Storage "decryption failed") (Crypto.open k context env) in
  map_err (λ m, Storage ("decrypted value is not UTF-8: " +:+ m)) (from_utf8 bytes).

Definition open_col (context : string) (encrypted : option string) : Result SourceError string :=
  match key, encrypted with
  | Some k, Some env => open_bytes k context env
  | Some _, None => Err (Storage "encrypted column is NULL")
  | None, _ => Err (Storage "no master key")
  end.

Definition open_opt (context : string) (encrypted : option string) : Result SourceError (option string) :=
  match key, encrypted with
  | Some k, Some env => let? s := open_bytes k context env in Ok (Some s)
  | Some _, None => Ok None
  | None, Some _ => Err (Storage "no master key")
  | None, None => Ok None
  end.

(** [SourceRow::to_domain] *)
Definition source_to_domain (id : N) (r : SourceRow) : Result SourceError Source :=
  let? url := open_col ctx_url (sr_url_encrypted r) in
  let? headers := open_opt ctx_headers (sr_headers_encrypted r) in
  let? t := source_type_from_str (sr_source_type r) in
  let? interval := u64_try_from (sr_update_interval_secs r) "update_interval_secs" in
  Ok (mkSource id (sr_name r) t url (sr_http_method r) headers (sr_auto_update r) interval (sr_enabled r)
        (sr_keep_on_fail r) (sr_filter_rules r) (sr_created_at r)).

(** The unique index on [sources.name]. *)
Definition name_taken (id : N) (name : string) (db : Db) : bool :=
  any_row (λ i r, bool_decide (i ≠ id) && String.eqb (sr_name r) name) (sources db).

(** The headers column: empty headers are stored as [NULL]. *)
Definition seal_headers (nonce : option string) (headers : option string) : Result SourceError (option string) :=
  match headers with
  | Some h => if is_empty h then Ok None else seal_col nonce ctx_headers h
  | None => Ok None
  end.

(** [create]; [n1] and [n2] are the nonces of the two sealed columns. *)
Definition create_source_row (n1 n2 : option string) (s : Source) (db : Db) : Result SourceError () * Db :=
  match (let? created := db_ts (s_created_at s) in
         let? url := seal_col n1 ctx_url (s_url s) in
         let? headers := seal_headers n2 (s_headers s) in
         if bool_decide (is_Some (sources db !! s_id s)) then Err (Storage "UNIQUE constraint failed: sources.id")
         else if name_taken (s_id s) (s_name s) db then Err NameExists
         else Ok (with_sources (<[s_id s := mkSourceRow (s_name s) (source_type_display (s_source_type s)) url
                (s_http_method s) headers (s_auto_update s) (as_i64 (s_update_interval_secs s)) (s_enabled s)
                (s_keep_on_fail s) (s_filter_rules s) created]> (sources db)) db)) with
  | Ok db' => (Ok (), db')
  | Err e => (Err e, db)
  end.

(** [find_by_id], [find_by_name] *)
Definition find_source (id : N) (db : Db) : Result SourceError (option Source) :=
  match sources db !! id with
  | None => Ok None
  | Some r => let? s := source_to_domain id r in Ok (Some s)
  end.

Definition find_source_by_name (name : string) (db : Db) : Result SourceError (option Source) :=
  match List.find (λ kv, String.eqb (sr_name kv.2) name) (map_to_list (sources db)) with
  | None => Ok None
  | Some kv => let? s := source_to_domain kv.1 kv.2 in Ok (Some s)
  end.

Fixpoint collect_sources (l : list (N * SourceRow)) : Result SourceError (list Source) :=
  match l with
  | [] => Ok []
  | kv :: l => let? s := source_to_domain kv.1 kv.2 in let? ss := collect_sources l in Ok (s :: ss)
  end.

Definition sources_by_id (db : Db) : list (N * SourceRow) :=
  sort_by (λ a b, N.compare a.1 b.1) (map_to_list (sources db)).

(** [list] *)
Definition list_sources (cursor : option N) (limit : N) (db : Db) : Result SourceError (list Source) :=
  collect_sources (take (N.to_nat (N.min limit 100))
    (filter (λ kv, match cursor with Some c => N.ltb c kv.1 | None => true end = true) (sources_by_id db))).

(** [guard_config_edit] *)
Definition guard_config_edit (id : N) (db : Db) : Result SourceError () :=
  if any_row (λ _ r, owns_lease id r) (jobs db) then Err (RefreshInProgress (id_display id)) else Ok ().

(** [invalidate_fetch_validator] *)
Definition invalidate_fetch_validator (id : N) (db : Db) : Db :=
  with_snapshots ((λ r, if is_active_for id r
    then mkSnapshotRow (snr_source_id r) (snr_version r) (snr_fetched_at r) None (snr_node_count r) (snr_is_active r)
    else r) <$> snapshots db) db.

(** [update] *)
Definition update_source_row (n1 n2 : option string) (s : Source) (db : Db) : Result SourceError () * Db :=
  match (let? url := seal_col n1 ctx_url (s_url s) in
         let? headers := seal_headers n2 (s_headers s) in
         let? _ := guard_config_edit (s_id s) db in
         let? r := ok_or (sources db !! s_id s) SourceNotFound in
         if name_taken (s_id s) (s_name s) db then Err NameExists
         else Ok (bump_revision (invalidate_fetch_validator (s_id s)
                (with_sources (<[s_id s := mkSourceRow (s_name s) (source_type_display (s_source_type s)) url
                   (s_http_method s) headers (s_auto_update s) (as_i64 (s_update_interval_secs s)) (s_enabled s)
                   (s_keep_on_fail s) (s_filter_rules s) (sr_created_at r)]> (sources db)) db)))) with
  | Ok db' => (Ok (), db')
  | Err e => (Err e, db)
  end.

(** The row [apply_config] writes: method, headers and creation time stay,
    and so does the URL unless a sealed replacement is given. *)
Definition edited_row (u : SourceConfigUpdate) (url : option string) (r : SourceRow) : SourceRow :=
  mkSourceRow (u_name u) (source_type_display (u_source_type u))
    (match url with Some e => Some e | None => sr_url_encrypted r end) (sr_http_method r)
    (sr_headers_encrypted r) (u_auto_update u) (as_i64 (u_update_interval_secs u)) (u_enabled u)
    (u_keep_on_fail u) (u_filter_rules u) (sr_created_at r).

(** [apply_config] *)
Definition apply_config (nonce : option string) (u : SourceConfigUpdate) (db : Db) : Result SourceError Source * Db :=
  match (let? url := match u_url u with Some url => seal_col nonce ctx_url url | None => Ok None end in
         let? _ := guard_config_edit (u_id u) db in
         let? r := ok_or (sources db !! u_id u) SourceNotFound in
         if name_taken (u_id u) (u_name u) db then Err NameExists
         else
           let row := edited_row u url r in
           let? s := source_to_domain (u_id u) row in
           Ok (s, bump_revision (invalidate_fetch_validator (u_id u)
                    (with_sources (<[u_id u := row]> (sources db)) db)))) with
  | Ok (s, db') => (Ok s, db')
  | Err e => (Err e, db)
  end.

(** [apply_failure_policy] *)
Definition disable_after_failure (id job : N) (db : Db) : Result SourceError () * Db :=
  let live := match jobs db !! job with Some j => owns_lease id j | None => false end in
  (Ok (), with_sources (alter (λ r, if negb (sr_keep_on_fail r) && live
     then mkSourceRow (sr_name r) (sr_source_type r) (sr_url_encrypted r) (sr_http_method r)
            (sr_headers_encrypted r) (sr_auto_update r) (sr_update_interval_secs r) false (sr_keep_on_fail r)
            (sr_filter_rules r) (sr_created_at r)
     else r) id (sources db)) db).

End repository.

(** *** Node rows *)

Definition set_missing (m : bool) (p : PoolNode) : PoolNode :=
  let r := pn_row p in
  mkPoolNode (SqlitePool.mkPoolRow (SqlitePool.row_node r) (SqlitePool.row_protocol r) (SqlitePool.row_region r)
    (SqlitePool.row_status r) m (SqlitePool.row_revision r + 1) (SqlitePool.row_created_at r)
    (SqlitePool.row_override r) (SqlitePool.row_tags r)) (pn_fingerprint p) (pn_label p).

Definition bound_to (src : N) (id : NodeId) (db : Db) : bool :=
  existsb (λ b, N.eqb (b_node_id b) id && N.eqb (b_source_id b) src) (bindings db).
Definition bound_elsewhere (src : N) (id : NodeId) (db : Db) : bool :=
  existsb (λ b, N.eqb (b_node_id b) id && negb (N.eqb (b_source_id b) src)) (bindings db).

(** A visible node that only remote sources contribute. *)
Definition is_remote_visible (p : PoolNode) : bool := String.eqb (pn_label p) "" && negb (pn_missing p).

(** [delete]: the withdrawn nodes, then the row with what cascades from it. *)
Definition delete_source_row (id : N) (db : Db) : Result SourceError () * Db :=
  match sources db !! id with
  | None => (Err SourceNotFound, db)
  | Some _ =>
      let nodes' := map_imap (λ nid p, Some (if is_remote_visible p && bound_to id nid db
                      && negb (bound_elsewhere id nid db) then set_missing true p else p)) (nodes db) in
      let gone := filter (λ kv, snr_source_id kv.2 = id) (snapshots db) in
      (Ok (), mkDb (delete id (sources db))
        (filter (λ kv, jr_source_id kv.2 ≠ id) (jobs db))
        (filter (λ kv, snr_source_id kv.2 ≠ id) (snapshots db))
        (filter (λ it, gone !! it_snapshot_id it = None) (items db))
        nodes'
        (filter (λ b, b_source_id b ≠ id) (bindings db))
        (pool_revision db + 1) (pool_revision db + 1))
  end.

End SourceDb.
