(* ===== verification/Reconcile.v ===== *)
(** * Pool writes ([crates/deve-sub-storage-sqlite/src/node_pool_repository/])

    [reconcile.rs] (the source refresh transaction), [write.rs] and the
    [import_nodes] of [node_pool_repository.rs], with the canonical identity
    of a node ([crates/deve-sub-domain/src/node.rs]).  The queries the code
    splits into chunks of 500 keys and batches of 250 rows are one query here:
    no chunk reads what another writes. *)

From S2P Require Import Prelude Kernel Node NodePool Text UrlText Crypto Source SourceDb.
Import Text UrlText Crypto Source SourceDb.

Module Reconcile.

(** ** Identity ([node.rs]) *)

(** [NodeIdentityRef] *)
Record NodeIdentity := mkIdentity {
  id_protocol : ProtocolKind;
  id_endpoint : Endpoint;
  id_authentication : Authentication;
  id_config : ProtocolConfig;
  id_tls : option TlsConfig;
  id_transport : option Transport;
  id_obfuscation : option Obfuscation;
  id_udp : UdpCapability;
  id_multiplex : option MultiplexConfig;
  id_congestion : option CongestionConfig;
  id_extras : gmap string Json
}.

Definition non_identity_extras : list string := ["candidate_ips"].

(** What [canonical_identity_str] serialises. *)
Definition canonical_identity (n : Node) : NodeIdentity :=
  mkIdentity (protocol n) (endpoint n) (authentication n) (config n) (tls n) (transport n)
    (obfuscation n) (udp n) (multiplex n) (congestion n)
    (filter (λ kv, kv.1 ∉ non_identity_extras) (extras n)).

Section pool.
Context `{L : UrlLib} `{C : CryptoLib}.
(** [serde_json::to_string] of the identity, and the master key. *)
Variable identity_json : NodeIdentity → string.
Variable key : option string.

(** [node_fingerprint] *)
Definition node_fingerprint (n : Node) : string :=
  identity_fingerprint purpose_node_identity (identity_json (canonical_identity n)) key.

(** ** Row writes ([write.rs]) *)

(** What the columns of a new row decode to: a chain is not inserted, and
    without a master key the encrypted columns are [NULL]. *)
Definition stored (n : Node) : Result string Node :=
  match key with
  | Some _ =>
      Ok (mkNode (n_id n) (display_name n) (protocol n) (config n) (endpoint n) (authentication n) (transport n)
            (tls n) (udp n) (multiplex n) (obfuscation n) (congestion n) None (source n) (n_tags n) (region n)
            (extras n))
  | None => Err "no master key"
  end.

Definition rows_with (fp : string) (db : Db) : list (NodeId * PoolNode) :=
  filter (λ kv, pn_fingerprint kv.2 = fp) (map_to_list (nodes db)).
Definition visible_with (fp : string) (db : Db) : list (NodeId * PoolNode) :=
  filter (λ kv, pn_missing kv.2 = false) (rows_with fp db).
Definition missing_with (fp : string) (db : Db) : list (NodeId * PoolNode) :=
  filter (λ kv, pn_missing kv.2 = true) (rows_with fp db).

(** [insert_node]: a new row, or nothing on a conflict with the primary key
    or with the deduplication index. *)
Definition insert_node (now : Z) (n : Node) (fp label : string) (db : Db) : option (NodeId * Db) :=
  if bool_decide (is_Some (nodes db !! n_id n)) ||
     (negb (String.eqb fp "") && negb (bool_decide (visible_with fp db = [])))
  then None
  else Some (n_id n, with_nodes (<[n_id n := mkPoolNode
         (SqlitePool.mkPoolRow (stored n) (protocol n) (region_value (region n)) "active" false 0 now None [])
         fp label]> (nodes db)) db).

(** [retain_manual_contribution] *)
Definition retain_manual_contribution (id : NodeId) (label : string) (db : Db) : Db :=
  with_nodes (alter (λ p, if String.eqb (pn_label p) "" || pn_missing p
    then let p' := set_missing false p in
         mkPoolNode (pn_row p') (pn_fingerprint p') (if String.eqb (pn_label p) "" then label else pn_label p)
    else p) id (nodes db)) db.

(** ** Manual import ([import_nodes]) *)

Inductive ImportOutcome := Inserted (id : NodeId) | DuplicateOf (id : NodeId).

Record ImportResult := mkImport {
  im_new_nodes : N;
  im_duplicate_nodes : N;
  im_failed : N;
  im_outcomes : list ImportOutcome
}.

Definition add_new (id : NodeId) (r : ImportResult) : ImportResult :=
  mkImport (im_new_nodes r + 1) (im_duplicate_nodes r) (im_failed r) (im_outcomes r ++ [Inserted id]).
Definition add_duplicate (id : NodeId) (r : ImportResult) : ImportResult :=
  mkImport (im_new_nodes r) (im_duplicate_nodes r + 1) (im_failed r) (im_outcomes r ++ [DuplicateOf id]).

Definition independent_label (n : Node) : string :=
  if is_empty (source_label (source n)) then "manual" else source_label (source n).

(** One iteration of the import loop. *)
Definition import_one (now : Z) (acc : Db * ImportResult) (n : Node) : Db * ImportResult :=
  let '(db, res) := acc in
  let label := independent_label n in
  let fp := node_fingerprint n in
  match visible_with fp db with
  | (id, _) :: _ => (retain_manual_contribution id label db, add_duplicate id res)
  | [] =>
      match missing_with fp db with
      | (id, _) :: _ => (retain_manual_contribution id label db, add_new id res)
      | [] =>
          match insert_node now n fp label db with
          | Some (id, db') => (db', add_new id res)
          | None =>
              match visible_with fp db with
              | (id, _) :: _ => (retain_manual_contribution id label db, add_duplicate id res)
              | [] => (db, res)
              end
          end
      end
  end.

(** [import_nodes] *)
Definition import_nodes (now : Z) (l : list Node) (db : Db) : Result SourceError ImportResult * Db :=
  let '(db', res) := foldl (import_one now) (db, mkImport 0 0 0 []) l in
  (Ok res, bump_revision db').

(** ** Reconciliation ([reconcile.rs]) *)

Record ReconcileInput := mkInput {
  ri_source_id : N;
  ri_job_id : option N;
  ri_snapshot : SourceSnapshot;
  ri_entries : list ReconcileEntry
}.

Definition min_id (d : NodeId) (l : list (NodeId * PoolNode)) : NodeId := foldr N.min d l.*1.

(** The grouped identity query: the lowest visible identifier, or the lowest
    of a fingerprint whose rows are all missing, and that flag. *)
Definition identity_of (fp : string) (db : Db) : option (NodeId * bool) :=
  match visible_with fp db with
  | kv :: l => Some (min_id kv.1 l, false)
  | [] => match rows_with fp db with
          | kv :: l => Some (min_id kv.1 l, true)
          | [] => None
          end
  end.

Definition load_identities (keys : list string) (db : Db) : gmap string (NodeId * bool) :=
  foldl (λ m k, match m !! k with
                | Some _ => m
                | None => match identity_of k db with Some v => <[k := v]> m | None => m end
                end) ∅ keys.

Record Acc := mkAcc {
  a_db : Db;
  a_identities : gmap string (NodeId * bool);
  a_seen : gset NodeId;
  a_result : ReconcileResult
}.

(** The identity an entry resolves to, and its final status. *)
Definition resolve_entry (now : Z) (acc : Acc) (status : ItemParseStatus) (n : Node) :
    Result SourceError (NodeId * ItemParseStatus * Acc) :=
  let fp := node_fingerprint n in
  let res := a_result acc in
  match a_identities acc !! fp with
  | Some (id, true) =>
      Ok (id, status,
        mkAcc (with_nodes (alter (set_missing false) id (nodes (a_db acc))) (a_db acc))
          (<[fp := (id, false)]> (a_identities acc)) (a_seen acc)
          (mkReconcileResult (new_nodes res) (duplicate_nodes res) (reactivated_nodes res + 1) (missing_nodes res)))
  | Some (id, false) =>
      Ok (id, match status with Parsed => Duplicate | s => s end,
        mkAcc (a_db acc) (a_identities acc) (a_seen acc)
          (mkReconcileResult (new_nodes res) (duplicate_nodes res + 1) (reactivated_nodes res) (missing_nodes res)))
  | None =>
      match insert_node now n fp "" (a_db acc) with
      | None => Err (Storage "unexpected node identity conflict inside write transaction")
      | Some (id, db') =>
          Ok (id, status,
            mkAcc db' (<[fp := (id, false)]> (a_identities acc)) (a_seen acc)
              (mkReconcileResult (new_nodes res + 1) (duplicate_nodes res) (reactivated_nodes res) (missing_nodes res)))
      end
  end.

(** One entry: its identity, its item row and, with a node, its binding. *)
Definition entry_step (now : Z) (snapshot_id src : N) (acc : Acc) (e : ReconcileEntry) : Result SourceError Acc :=
  match e_node e with
  | None =>
      let db := a_db acc in
      Ok (mkAcc (with_items (items db ++ [mkItemRow snapshot_id (raw_uri e) (item_status_display (initial_status e))]) db)
            (a_identities acc) (a_seen acc) (a_result acc))
  | Some n =>
      let? (id, status, acc) := resolve_entry now acc (initial_status e) n in
      let db := a_db acc in
      let db := with_items (items db ++ [mkItemRow snapshot_id (raw_uri e) (item_status_display status)]) db in
      let db := with_bindings (bindings db ++ [mkBindingRow id src (raw_uri e)]) db in
      Ok (mkAcc db (a_identities acc) ({[id]} ∪ a_seen acc) (a_result acc))
  end.

Fixpoint process_entries (now : Z) (snapshot_id src : N) (entries : list ReconcileEntry) (acc : Acc) :
    Result SourceError Acc :=
  match entries with
  | [] => Ok acc
  | e :: entries => let? acc := entry_step now snapshot_id src acc e in process_entries now snapshot_id src entries acc
  end.

(** Step 6: a node this source no longer contributes, with no binding left
    and no independent label, is marked missing. *)
Definition mark_missing_one (still_bound : gset NodeId) (acc : gmap NodeId PoolNode * N) (id : NodeId) :
    gmap NodeId PoolNode * N :=
  if bool_decide (id ∈ still_bound) then acc
  else match acc.1 !! id with
       | Some p => if is_remote_visible p then (<[id := set_missing true p]> acc.1, (acc.2 + 1)%N) else acc
       | None => acc
       end.

Definition bound_nodes (p : BindingRow → bool) (db : Db) : gset NodeId :=
  list_to_set (b_node_id <$> filter (λ b, p b = true) (bindings db)).

Definition mark_missing (candidates : gset NodeId) (acc : Acc) : Acc :=
  let db := a_db acc in
  let still_bound := bound_nodes (λ b, bool_decide (b_node_id b ∈ candidates)) db in
  let '(nodes', k) := foldl (mark_missing_one still_bound) (nodes db, 0%N) (elements candidates) in
  let res := a_result acc in
  mkAcc (with_nodes nodes' db) (a_identities acc) (a_seen acc)
    (mkReconcileResult (new_nodes res) (duplicate_nodes res) (reactivated_nodes res) (missing_nodes res + k)).

Definition snapshot_retain : nat := 10.

(** Step 8: the newest ten snapshots of the source stay; items cascade. *)
Definition retain_snapshots (src : N) (db : Db) : Db :=
  let kept := (take snapshot_retain (versions_desc src db)).*1 in
  let snapshots' := filter (λ kv, snr_source_id kv.2 ≠ src ∨ kv.1 ∈ kept) (snapshots db) in
  with_items (filter (λ it, is_Some (snapshots' !! it_snapshot_id it)) (items db))
    (with_snapshots snapshots' db).

(** The transaction body of [reconcile_source]. *)
Definition reconcile_tx (now : Z) (i : ReconcileInput) (db0 : Db) : Result SourceError (ReconcileResult * Db) :=
  let src := ri_source_id i in
  let s := ri_snapshot i in
  let db := deactivate src db0 in
  let? fetched := db_ts (sn_fetched_at s) in
  let? db := insert_snapshot (sn_id s) (mkSnapshotRow src (as_i64 (sn_version s)) fetched (sn_etag s)
               (as_i64 (sn_node_count s)) true) db in
  let old_bound := bound_nodes (λ b, N.eqb (b_source_id b) src) db in
  let db := with_bindings (filter (λ b, b_source_id b ≠ src) (bindings db)) db in
  let keys := omap (λ e, node_fingerprint <$> e_node e) (ri_entries i) in
  let acc := mkAcc db (load_identities keys db) ∅ reconcile_default in
  let? acc := process_entries now (sn_id s) src (ri_entries i) acc in
  let acc := mark_missing (old_bound ∖ a_seen acc) acc in
  let db := retain_snapshots src (bump_revision (a_db acc)) in
  let? db := match ri_job_id i with
             | Some job => complete now src job (a_result acc) false db
             | None => Ok db
             end in
  Ok (a_result acc, db).

(** [reconcile_source]: an error rolls everything back. *)
Definition reconcile (now : Z) (i : ReconcileInput) (db : Db) : Result SourceError ReconcileResult * Db :=
  match reconcile_tx now i db with
  | Ok (res, db') => (Ok res, db')
  | Err e => (Err e, db)
  end.

End pool.

End Reconcile.
