(* ===== verification/SourceInv.v ===== *)
(** * Invariants of the source tables

    What every operation of [SourceDb] and [Reconcile] preserves: at most one
    running job per source, one active snapshot per source and one row per
    version, one visible node per fingerprint, and, for the nodes only remote
    sources contribute, visibility exactly while a binding exists.  The
    operations are collected as the steps of a transition system. *)

From S2P Require Import Prelude Kernel Node NodePool Text UrlText Crypto Source SourceDb Reconcile.
Import Text UrlText Crypto Source SourceDb Reconcile.

Module SourceInv.

(** ** The invariants, table by table *)

(** The lease: at most one running job per source. *)
Record jobs_ok (srcs : gset N) (js : gmap N JobRow) : Prop := {
  jobs_lease i j ri rj : js !! i = Some ri → js !! j = Some rj →
    jr_status ri = JRunning → jr_status rj = JRunning → jr_source_id ri = jr_source_id rj → i = j;
  jobs_source i r : js !! i = Some r → jr_source_id r ∈ srcs
}.

(** One active snapshot per source, distinct versions, no orphan item. *)
Record snaps_ok (srcs : gset N) (ss : gmap N SnapshotRow) (its : list ItemRow) : Prop := {
  snaps_active i j ri rj : ss !! i = Some ri → ss !! j = Some rj →
    snr_is_active ri = true → snr_is_active rj = true → snr_source_id ri = snr_source_id rj → i = j;
  snaps_version i j ri rj : ss !! i = Some ri → ss !! j = Some rj →
    snr_source_id ri = snr_source_id rj → snr_version ri = snr_version rj → i = j;
  snaps_source i r : ss !! i = Some r → snr_source_id r ∈ srcs;
  snaps_items it : it ∈ its → is_Some (ss !! it_snapshot_id it)
}.

(** Deduplication, and visibility of remote nodes through bindings. *)
Record pool_ok (srcs : gset N) (ns : gmap NodeId PoolNode) (bs : list BindingRow) : Prop := {
  pool_dedup i j p q : ns !! i = Some p → ns !! j = Some q → pn_missing p = false → pn_missing q = false →
    pn_fingerprint p = pn_fingerprint q → pn_fingerprint p ≠ "" → i = j;
  pool_bound i p : ns !! i = Some p → pn_label p = "" → pn_missing p = false → i ∈ b_node_id <$> bs;
  pool_binding b : b ∈ bs → ∃ p, ns !! b_node_id b = Some p ∧ pn_missing p = false;
  pool_binding_source b : b ∈ bs → b_source_id b ∈ srcs
}.

Definition names_ok (ss : gmap N SourceRow) : Prop :=
  ∀ i j a b, ss !! i = Some a → ss !! j = Some b → sr_name a = sr_name b → i = j.

Record db_ok (db : Db) : Prop := {
  ok_jobs : jobs_ok (dom (sources db)) (jobs db);
  ok_snaps : snaps_ok (dom (sources db)) (snapshots db) (items db);
  ok_pool : pool_ok (dom (sources db)) (nodes db) (bindings db);
  ok_names : names_ok (sources db);
  ok_withdrawal : (withdrawal_revision db ≤ pool_revision db)%N
}.

Definition empty_db : Db := mkDb ∅ ∅ ∅ [] ∅ [] 0 0.

Lemma db_ok_empty : db_ok empty_db.
Proof.
  repeat split; simpl; intros; try (by apply elem_of_nil in H); simplify_map_eq; try done.
Qed.

(** ** Tables *)

Lemma any_row_true {A} (p : N → A → bool) t :
  any_row p t = true ↔ ∃ i r, t !! i = Some r ∧ p i r = true.
Proof.
  unfold any_row. rewrite existsb_true. split.
  - intros ([i r] & Hi%elem_of_map_to_list & Hp). eauto.
  - intros (i & r & Hi & Hp). exists (i, r). by rewrite elem_of_map_to_list.
Qed.

Lemma any_row_false {A} (p : N → A → bool) t :
  any_row p t = false ↔ ∀ i r, t !! i = Some r → p i r = false.
Proof.
  rewrite <-not_true_iff_false, any_row_true. split.
  - intros Hn i r Hi. destruct (p i r) eqn:Hp; [destruct Hn; eauto|done].
  - intros Hall (i & r & Hi & Hp). by rewrite (Hall i r Hi) in Hp.
Qed.

Lemma alter_insert_lookup {A} (m : gmap N A) i x (f : A → A) :
  m !! i = Some x → alter f i m = <[i := f x]> m.
Proof.
  intros Hi. apply map_eq. intros j. destruct (decide (j = i)) as [->|].
  - by rewrite lookup_alter_eq, lookup_insert_eq, Hi.
  - by rewrite lookup_alter_ne, lookup_insert_ne.
Qed.

Lemma lease_held_false db src except :
  lease_held db src except = false ↔
  ∀ i r, jobs db !! i = Some r → jr_source_id r = src → jr_status r = JRunning → i = except.
Proof.
  unfold lease_held. rewrite any_row_false. split; intros H i r Hi.
  - intros Hs Hr. specialize (H i r Hi). unfold is_running in H.
    rewrite Hs, N.eqb_refl, Hr in H. simpl in H. rewrite andb_true_r in H.
    case_bool_decide; [done|]. by destruct (decide (i = except)).
  - specialize (H i r Hi). unfold is_running. apply andb_false_iff.
    destruct (decide (jr_status r = JRunning)); [|right; by apply bool_decide_eq_false].
    left. apply andb_false_iff. destruct (N.eqb_spec (jr_source_id r) src); [|by right].
    left. apply bool_decide_eq_false. naive_solver.
Qed.

(** ** Jobs *)

(** An update of job rows that never makes a row running keeps the lease. *)
Lemma jobs_ok_fmap srcs js (f : JobRow → JobRow) :
  (∀ r, jr_source_id (f r) = jr_source_id r) →
  (∀ r, jr_status (f r) = JRunning → jr_status r = JRunning) →
  jobs_ok srcs js → jobs_ok srcs (f <$> js).
Proof.
  intros Hs Hr [H1 H2]. split.
  - intros i j ri rj. rewrite !lookup_fmap.
    intros (ri0 & Hi & ->)%fmap_Some (rj0 & Hj & ->)%fmap_Some ??. rewrite !Hs. eauto.
  - intros i r. rewrite lookup_fmap. intros (r0 & Hi & ->)%fmap_Some. rewrite Hs. eauto.
Qed.

Lemma jobs_ok_alter srcs js id (f : JobRow → JobRow) :
  (∀ r, jr_source_id (f r) = jr_source_id r) →
  (∀ r, jr_status (f r) = JRunning → jr_status r = JRunning) →
  jobs_ok srcs js → jobs_ok srcs (alter f id js).
Proof.
  intros Hs Hr [H1 H2].
  assert (∀ i r, alter f id js !! i = Some r → ∃ r0, js !! i = Some r0 ∧ jr_source_id r = jr_source_id r0 ∧
    (jr_status r = JRunning → jr_status r0 = JRunning)) as Hback.
  { intros i r. destruct (decide (i = id)) as [->|].
    - rewrite lookup_alter_eq. intros (r0 & Hi & ->)%fmap_Some. eauto.
    - rewrite lookup_alter_ne by done. eauto. }
  split.
  - intros i j ri rj (r0 & Hi & Ei & Si)%Hback (r1 & Hj & Ej & Sj)%Hback ?? He.
    eapply (H1 i j r0 r1); eauto; congruence.
  - intros i r (r0 & Hi & -> & _)%Hback. eauto.
Qed.

Lemma jobs_ok_insert srcs js id r :
  r.(jr_source_id) ∈ srcs →
  (jr_status r = JRunning →
   ∀ i r', js !! i = Some r' → jr_source_id r' = jr_source_id r → jr_status r' = JRunning → i = id) →
  jobs_ok srcs js → jobs_ok srcs (<[id := r]> js).
Proof.
  intros Hs Hr [H1 H2]. split.
  - intros i j ri rj. rewrite !lookup_insert_Some.
    intros [[<- <-]|[? Hi]] [[<- <-]|[? Hj]] Si Sj He; [done| | |eauto].
    + symmetry. eapply Hr; eauto.
    + eapply Hr; eauto.
  - intros i r'. rewrite lookup_insert_Some. intros [[<- <-]|[? Hi]]; eauto.
Qed.

Lemma jobs_ok_subset srcs srcs' js js' :
  js' ⊆ js → (∀ i r, js' !! i = Some r → jr_source_id r ∈ srcs → jr_source_id r ∈ srcs') →
  jobs_ok srcs js → jobs_ok srcs' js'.
Proof.
  intros Hsub Hs [H1 H2]. split.
  - intros i j ri rj Hi Hj. eapply H1; eapply lookup_weaken; eauto.
  - intros i r Hi. eapply Hs; [done|]. eapply H2, lookup_weaken; eauto.
Qed.

(** ** Snapshots *)

Lemma snaps_ok_fmap srcs ss its (f : SnapshotRow → SnapshotRow) :
  (∀ r, snr_source_id (f r) = snr_source_id r) → (∀ r, snr_version (f r) = snr_version r) →
  (∀ r, snr_is_active (f r) = true → snr_is_active r = true) →
  snaps_ok srcs ss its → snaps_ok srcs (f <$> ss) its.
Proof.
  intros Hs Hv Ha [H1 H2 H3 H4]. split.
  - intros i j ri rj. rewrite !lookup_fmap.
    intros (ri0 & Hi & ->)%fmap_Some (rj0 & Hj & ->)%fmap_Some ??. rewrite !Hs. eauto.
  - intros i j ri rj. rewrite !lookup_fmap.
    intros (ri0 & Hi & ->)%fmap_Some (rj0 & Hj & ->)%fmap_Some. rewrite !Hs, !Hv. eauto.
  - intros i r. rewrite lookup_fmap. intros (r0 & Hi & ->)%fmap_Some. rewrite Hs. eauto.
  - intros it Hit. rewrite lookup_fmap. apply fmap_is_Some. eauto.
Qed.

Lemma snaps_ok_subset srcs srcs' ss ss' its its' :
  ss' ⊆ ss → (∀ i r, ss' !! i = Some r → snr_source_id r ∈ srcs → snr_source_id r ∈ srcs') →
  (∀ it, it ∈ its' → it ∈ its ∧ is_Some (ss' !! it_snapshot_id it)) →
  snaps_ok srcs ss its → snaps_ok srcs' ss' its'.
Proof.
  intros Hsub Hs Hi [H1 H2 H3 H4]. split.
  - intros i j ri rj Hri Hrj. eapply H1; eapply lookup_weaken; eauto.
  - intros i j ri rj Hri Hrj. eapply H2; eapply lookup_weaken; eauto.
  - intros i r Hr. eapply Hs; [done|]. eapply H3, lookup_weaken; eauto.
  - intros it Hit. by apply Hi in Hit as [_ ?].
Qed.

Lemma insert_snapshot_Ok id row db db' :
  insert_snapshot id row db = Ok db' →
  db' = with_snapshots (<[id := row]> (snapshots db)) db ∧ snapshots db !! id = None ∧
  snr_source_id row ∈ dom (sources db) ∧
  (snr_is_active row = true → ∀ i r, snapshots db !! i = Some r → is_active_for (snr_source_id row) r = false) ∧
  (∀ i r, snapshots db !! i = Some r → snr_source_id r = snr_source_id row → snr_version r ≠ snr_version row).
Proof.
  unfold insert_snapshot. case_bool_decide as Hid; [done|].
  destruct (snr_is_active row && _) eqn:Ha; [done|].
  destruct (any_row _ _) eqn:Hv in |- *; [done|]. case_bool_decide as Hs; [done|].
  intros [= <-]. split_and!; [done|by apply eq_None_not_Some|by apply elem_of_dom, not_eq_None_Some| |].
  - intros Hact i r Hi. rewrite Hact in Ha. simpl in Ha. rewrite any_row_false in Ha. by apply (Ha i r).
  - intros i r Hi He Hve. rewrite any_row_false in Hv. specialize (Hv i r Hi). simpl in Hv.
    rewrite He, N.eqb_refl, Hve, Z.eqb_refl in Hv. done.
Qed.

Lemma insert_snapshot_ok srcs id row db db' its :
  insert_snapshot id row db = Ok db' → srcs = dom (sources db) →
  snaps_ok srcs (snapshots db) its → snaps_ok srcs (snapshots db') its.
Proof.
  intros (-> & Hid & Hsrc & Ha & Hv)%insert_snapshot_Ok -> [H1 H2 H3 H4]. simpl. split.
  - intros i j ri rj. rewrite !lookup_insert_Some.
    intros [[<- <-]|[? Hi]] [[<- <-]|[? Hj]] Ai Aj He; [done| | |eauto].
    + specialize (Ha Ai j rj Hj). unfold is_active_for in Ha. rewrite <-He, N.eqb_refl, Aj in Ha. done.
    + specialize (Ha Aj i ri Hi). unfold is_active_for in Ha. rewrite He, N.eqb_refl, Ai in Ha. done.
  - intros i j ri rj. rewrite !lookup_insert_Some.
    intros [[<- <-]|[? Hi]] [[<- <-]|[? Hj]] He Hve; [done| | |eauto].
    + exfalso. by eapply (Hv j rj).
    + exfalso. by eapply (Hv i ri).
  - intros i r. rewrite lookup_insert_Some. intros [[<- <-]|[? Hi]]; [done|eauto].
  - intros it Hit. rewrite lookup_insert_is_Some'. right. eauto.
Qed.

(** ** The pool under reconciliation *)

Lemma set_missing_missing m p : pn_missing (set_missing m p) = m.
Proof. done. Qed.

Section pool.
Context `{L : UrlLib} `{C : CryptoLib}.
Variable identity_json : NodeIdentity → string.
Variable key : option string.
Abbreviation fingerprint := (node_fingerprint identity_json key).

Lemma elem_of_rows_with fp db i p :
  (i, p) ∈ rows_with fp db ↔ nodes db !! i = Some p ∧ pn_fingerprint p = fp.
Proof. unfold rows_with. rewrite list_elem_of_filter, elem_of_map_to_list. simpl. tauto. Qed.

Lemma elem_of_visible_with fp db i p :
  (i, p) ∈ visible_with fp db ↔ nodes db !! i = Some p ∧ pn_fingerprint p = fp ∧ pn_missing p = false.
Proof. unfold visible_with. rewrite list_elem_of_filter, elem_of_rows_with. simpl. tauto. Qed.

Lemma visible_with_nil fp db i p :
  visible_with fp db = [] → nodes db !! i = Some p → pn_fingerprint p = fp → pn_missing p = true.
Proof.
  intros Hn Hi Hf. destruct (pn_missing p) eqn:Hm; [done|].
  assert ((i, p) ∈ visible_with fp db) as Hin by by apply elem_of_visible_with.
  rewrite Hn in Hin. by apply elem_of_nil in Hin.
Qed.

Lemma min_id_elem d l : min_id d l = d ∨ min_id d l ∈ l.*1.
Proof.
  unfold min_id. induction (l.*1) as [|x xs IH]; simpl; [by left|].
  destruct (N.min_dec x (foldr N.min d xs)) as [->| ->]; [right; by left|].
  destruct IH as [->|IH]; [by left|right; by right].
Qed.

Lemma min_id_row d q l : ∃ p, (min_id d l, p) ∈ (d, q) :: l.
Proof.
  destruct (min_id_elem d l) as [->|Hin]; [exists q; left|].
  apply list_elem_of_fmap in Hin as ([i p] & -> & Hi). exists p. by right.
Qed.

Lemma identity_of_Some fp db id m :
  identity_of fp db = Some (id, m) →
  (∃ p, nodes db !! id = Some p ∧ pn_fingerprint p = fp ∧ pn_missing p = m) ∧
  (m = true → ∀ j q, nodes db !! j = Some q → pn_fingerprint q = fp → pn_missing q = true).
Proof.
  unfold identity_of. destruct (visible_with fp db) as [|[d q] l] eqn:Hv.
  - destruct (rows_with fp db) as [|[d q] l] eqn:Hr; [done|]. intros [= <- <-].
    split; [|intros _ j p Hj; by eapply visible_with_nil].
    destruct (min_id_row d q l) as [p Hp]. rewrite <-Hr in Hp. apply elem_of_rows_with in Hp as [Hp Hf].
    exists p. split_and!; [done..|]. by eapply visible_with_nil.
  - intros [= <- <-]. split; [|done].
    destruct (min_id_row d q l) as [p Hp]. rewrite <-Hv in Hp. apply elem_of_visible_with in Hp as (?&?&?). eauto.
Qed.

Lemma identity_of_None fp db j q : identity_of fp db = None → nodes db !! j = Some q → pn_fingerprint q ≠ fp.
Proof.
  unfold identity_of. destruct (visible_with fp db) as [|[d p] l]; [|done].
  destruct (rows_with fp db) as [|[d p] l] eqn:Hr; [|done]. intros _ Hj Hf.
  assert ((j, q) ∈ rows_with fp db) as Hin by by apply elem_of_rows_with.
  rewrite Hr in Hin. by apply elem_of_nil in Hin.
Qed.

Lemma load_identities_lookup_acc keys db (m : gmap string (NodeId * bool)) fp :
  (∀ k, is_Some (m !! k) → m !! k = identity_of k db) →
  foldl (λ m k, match m !! k with
                | Some _ => m
                | None => match identity_of k db with Some v => <[k := v]> m | None => m end
                end) m keys !! fp = if bool_decide (fp ∈ keys) then identity_of fp db else m !! fp.
Proof.
  revert m. induction keys as [|k keys IH]; intros m Hm; simpl; [done|].
  rewrite IH.
  - destruct (decide (fp = k)) as [->|Hne].
    + rewrite (bool_decide_eq_true_2 (k ∈ k :: keys)) by left. case_bool_decide; [done|].
      destruct (m !! k) eqn:Hk; [apply Hm; by rewrite Hk|].
      destruct (identity_of k db) eqn:Hi; [by rewrite lookup_insert_eq|done].
    + destruct (m !! k) eqn:Hk; [case_bool_decide; case_bool_decide; set_solver|].
      destruct (identity_of k db) eqn:Hi; [rewrite lookup_insert_ne by done|];
      case_bool_decide; case_bool_decide; set_solver.
  - intros k'. destruct (m !! k) eqn:Hk; [apply Hm|]. destruct (identity_of k db) eqn:Hi; [|apply Hm].
    destruct (decide (k' = k)) as [->|]; [by rewrite lookup_insert_eq|rewrite lookup_insert_ne by done; apply Hm].
Qed.

Lemma load_identities_lookup keys db fp :
  load_identities keys db !! fp = if bool_decide (fp ∈ keys) then identity_of fp db else None.
Proof.
  unfold load_identities. rewrite load_identities_lookup_acc; [by rewrite lookup_empty|].
  intros k [v Hv]. by rewrite lookup_empty in Hv.
Qed.

End pool.

End SourceInv.
