(* ===== verification/PoolInv.v ===== *)
(** * What reconciliation does to the pool

    The loop of [Reconcile.reconcile_tx] under its invariant, the effect of the
    whole transaction on nodes and bindings, and the preservation of
    [SourceInv.pool_ok] by every pool write. *)

From S2P Require Import Prelude Kernel Node NodePool Text UrlText Crypto Source SourceDb Reconcile SourceInv.
Import Text UrlText Crypto Source SourceDb Reconcile SourceInv.

Module PoolInv.

Section pool.
Context `{L : UrlLib} `{C : CryptoLib}.
Variable identity_json : NodeIdentity → string.
Variable key : option string.
Abbreviation fingerprint := (node_fingerprint identity_json key).

(** ** The entry loop *)

Section loop.
Variables (src : N) (old : gset NodeId) (keys : list string).
(** The database when the loop starts. *)
Variable db0 : Db.

(** The loop after the entries [done]: the identity map describes the rows of
    the fingerprints of this refresh, visible rows are untouched, bindings
    grow by the entries' own, and a visible remote row is bound or was bound
    to this source before. *)
Record loop_ok (done : list ReconcileEntry) (acc : Acc) : Prop := {
  lo_tables : sources (a_db acc) = sources db0 ∧ jobs (a_db acc) = jobs db0 ∧
    snapshots (a_db acc) = snapshots db0 ∧ pool_revision (a_db acc) = pool_revision db0 ∧
    withdrawal_revision (a_db acc) = withdrawal_revision db0;
  lo_ids fp id m : a_identities acc !! fp = Some (id, m) →
    ∃ p, nodes (a_db acc) !! id = Some p ∧ pn_fingerprint p = fp ∧ pn_missing p = m;
  lo_hidden fp id : a_identities acc !! fp = Some (id, true) →
    ∀ j q, nodes (a_db acc) !! j = Some q → pn_fingerprint q = fp → pn_missing q = true;
  lo_absent fp : fp ∈ keys → a_identities acc !! fp = None →
    ∀ j q, nodes (a_db acc) !! j = Some q → pn_fingerprint q ≠ fp;
  lo_dedup i j p q : nodes (a_db acc) !! i = Some p → nodes (a_db acc) !! j = Some q →
    pn_missing p = false → pn_missing q = false → pn_fingerprint p = pn_fingerprint q →
    pn_fingerprint p ≠ "" → i = j;
  lo_keep i p : nodes db0 !! i = Some p → ∃ p', nodes (a_db acc) !! i = Some p' ∧
    pn_label p' = pn_label p ∧ pn_fingerprint p' = pn_fingerprint p ∧ (pn_missing p = false → p' = p);
  lo_new i p : nodes (a_db acc) !! i = Some p → nodes db0 !! i = None → pn_label p = "";
  lo_bound i p : nodes (a_db acc) !! i = Some p → pn_label p = "" → pn_missing p = false →
    i ∈ old ∨ i ∈ b_node_id <$> bindings (a_db acc);
  lo_woken i p p' : nodes db0 !! i = Some p → pn_missing p = true → nodes (a_db acc) !! i = Some p' →
    pn_missing p' = false → i ∈ a_seen acc;
  lo_bindings : ∃ fresh, bindings (a_db acc) = bindings db0 ++ fresh ∧
    Forall (λ b, b_source_id b = src) fresh ∧ ∀ id, id ∈ a_seen acc ↔ id ∈ b_node_id <$> fresh;
  lo_seen id : id ∈ a_seen acc →
    (∃ e n, e ∈ done ∧ e_node e = Some n ∧ a_identities acc !! fingerprint n = Some (id, false));
  lo_done e n : e ∈ done → e_node e = Some n →
    ∃ id, id ∈ a_seen acc ∧ a_identities acc !! fingerprint n = Some (id, false);
  lo_count : (new_nodes (a_result acc) + duplicate_nodes (a_result acc) + reactivated_nodes (a_result acc))%N
    = N.of_nat (valid_count done) ∧ missing_nodes (a_result acc) = 0%N
}.

(** The part of the invariant [resolve_entry] works on, with the entry's own
    identity resolved. *)
Record resolved (done : list ReconcileEntry) (acc acc' : Acc) (n : Node) (id : NodeId) : Prop := {
  re_tables : sources (a_db acc') = sources db0 ∧ jobs (a_db acc') = jobs db0 ∧
    snapshots (a_db acc') = snapshots db0 ∧ pool_revision (a_db acc') = pool_revision db0 ∧
    withdrawal_revision (a_db acc') = withdrawal_revision db0;
  re_rest : bindings (a_db acc') = bindings (a_db acc) ∧ items (a_db acc') = items (a_db acc) ∧
    a_seen acc' = a_seen acc;
  re_id : a_identities acc' !! fingerprint n = Some (id, false);
  re_mono fp i : a_identities acc !! fp = Some (i, false) → a_identities acc' !! fp = Some (i, false);
  re_ids fp i m : a_identities acc' !! fp = Some (i, m) →
    ∃ p, nodes (a_db acc') !! i = Some p ∧ pn_fingerprint p = fp ∧ pn_missing p = m;
  re_hidden fp i : a_identities acc' !! fp = Some (i, true) →
    ∀ j q, nodes (a_db acc') !! j = Some q → pn_fingerprint q = fp → pn_missing q = true;
  re_absent fp : fp ∈ keys → a_identities acc' !! fp = None →
    ∀ j q, nodes (a_db acc') !! j = Some q → pn_fingerprint q ≠ fp;
  re_dedup i j p q : nodes (a_db acc') !! i = Some p → nodes (a_db acc') !! j = Some q →
    pn_missing p = false → pn_missing q = false → pn_fingerprint p = pn_fingerprint q →
    pn_fingerprint p ≠ "" → i = j;
  re_keep i p : nodes (a_db acc) !! i = Some p → ∃ p', nodes (a_db acc') !! i = Some p' ∧
    pn_label p' = pn_label p ∧ pn_fingerprint p' = pn_fingerprint p ∧ (pn_missing p = false → p' = p) ∧
    (p' = p ∨ i = id);
  re_new i p : nodes (a_db acc') !! i = Some p → nodes (a_db acc) !! i = None → pn_label p = "" ∧ i = id;
  re_count : (new_nodes (a_result acc') + duplicate_nodes (a_result acc') + reactivated_nodes (a_result acc'))%N
    = N.of_nat (S (valid_count done)) ∧ missing_nodes (a_result acc') = 0%N
}.

(** A missing identity is made visible again. *)
Lemma resolved_reactivated done acc n i res :
  loop_ok done acc → a_identities acc !! fingerprint n = Some (i, true) →
  (new_nodes res + duplicate_nodes res + reactivated_nodes res)%N = N.of_nat (S (valid_count done)) →
  missing_nodes res = 0%N →
  resolved done acc
    (mkAcc (with_nodes (alter (set_missing false) i (nodes (a_db acc))) (a_db acc))
      (<[fingerprint n := (i, false)]> (a_identities acc)) (a_seen acc) res) n i.
Proof.
  intros H Hi Hc Hm. destruct (lo_ids _ _ H _ _ _ Hi) as (p & Hp & Hf & Hpm).
  assert (Hback : ∀ j q, alter (set_missing false) i (nodes (a_db acc)) !! j = Some q →
    (j = i ∧ q = set_missing false p) ∨ (j ≠ i ∧ nodes (a_db acc) !! j = Some q)).
  { intros j q. destruct (decide (j = i)) as [->|Hne].
    - rewrite lookup_alter_eq, Hp. intros [= <-]. by left.
    - rewrite lookup_alter_ne by done. by right. }
  split; simpl; [apply (lo_tables _ _ H)|done|by rewrite lookup_insert_eq|..|done].
  - intros fp' j. rewrite lookup_insert_Some. intros Hj. right. split; [congruence|done].
  - intros fp' j m'. rewrite lookup_insert_Some. intros [[<- [= <- <-]]|[Hne Hj]].
    { exists (set_missing false p). by rewrite lookup_alter_eq, Hp. }
    destruct (lo_ids _ _ H _ _ _ Hj) as (q & Hq & Hqf & Hqm).
    assert (j ≠ i) by congruence. exists q. by rewrite lookup_alter_ne.
  - intros fp' j. rewrite lookup_insert_Some. intros [[_ [=]]|[Hne Hj]].
    intros j' q [[-> ->]|[_ Hq]]%Hback Hqf; [simpl in Hqf; congruence|]. by eapply (lo_hidden _ _ H).
  - intros fp' Hin. rewrite lookup_insert_None. intros [Hn Hne].
    intros j q [[-> ->]|[_ Hq]]%Hback; [simpl; congruence|]. by eapply (lo_absent _ _ H).
  - intros j j' q q' [[-> ->]|[? Hq]]%Hback [[-> ->]|[? Hq']]%Hback Hm1 Hm2 He Hne; [done| | |].
    + simpl in He. rewrite Hf in He. rewrite (lo_hidden _ _ H _ _ Hi _ _ Hq') in Hm2; done.
    + simpl in He. rewrite Hf in He. rewrite (lo_hidden _ _ H _ _ Hi _ _ Hq) in Hm1; done.
    + by eapply (lo_dedup _ _ H j j' q q').
  - intros j q Hq. destruct (decide (j = i)) as [->|Hne].
    + rewrite lookup_alter_eq, Hq. simpl. simplify_eq. eexists. split_and!; [done..|congruence|by right].
    + rewrite lookup_alter_ne by done. exists q. by split_and!; [..|left].
  - intros j q [[-> ->]|[_ Hq]]%Hback; congruence.
Qed.

(** An unknown identity gets a row of its own. *)
Lemma resolved_inserted done acc n row res :
  loop_ok done acc → a_identities acc !! fingerprint n = None → fingerprint n ∈ keys →
  nodes (a_db acc) !! n_id n = None →
  pn_fingerprint row = fingerprint n → pn_label row = "" → pn_missing row = false →
  (new_nodes res + duplicate_nodes res + reactivated_nodes res)%N = N.of_nat (S (valid_count done)) →
  missing_nodes res = 0%N →
  resolved done acc
    (mkAcc (with_nodes (<[n_id n := row]> (nodes (a_db acc))) (a_db acc))
      (<[fingerprint n := (n_id n, false)]> (a_identities acc)) (a_seen acc) res) n (n_id n).
Proof.
  intros H Hi Hk Hx Hrf Hrl Hrm Hc Hm.
  split; simpl; [apply (lo_tables _ _ H)|done|by rewrite lookup_insert_eq|..|done].
  - intros fp' j Hj. rewrite lookup_insert_ne by congruence. done.
  - intros fp' j m'. rewrite lookup_insert_Some. intros [[<- [= <- <-]]|[Hne Hj]].
    { exists row. by rewrite lookup_insert_eq. }
    destruct (lo_ids _ _ H _ _ _ Hj) as (q & Hq & ? & ?). exists q.
    rewrite lookup_insert_ne by congruence. done.
  - intros fp' j. rewrite lookup_insert_Some. intros [[_ [=]]|[Hne Hj]]. intros j' q.
    rewrite lookup_insert_Some. intros [[<- <-]|[_ Hq]] Hqf; [congruence|]. by eapply (lo_hidden _ _ H).
  - intros fp' Hin. rewrite lookup_insert_None. intros [Hn Hne]. intros j q.
    rewrite lookup_insert_Some. intros [[<- <-]|[_ Hq]]; [congruence|]. by eapply (lo_absent _ _ H).
  - intros j j' q q'. rewrite !lookup_insert_Some.
    intros [[<- <-]|[? Hq]] [[<- <-]|[? Hq']] Hm1 Hm2 He Hne; [done| | |by eapply (lo_dedup _ _ H j j' q q')].
    + exfalso. eapply (lo_absent _ _ H (fingerprint n)); eauto; congruence.
    + exfalso. eapply (lo_absent _ _ H (fingerprint n)); eauto; congruence.
  - intros j q Hq. exists q. rewrite lookup_insert_ne by congruence. by split_and!; [..|left].
  - intros j q. rewrite lookup_insert_Some. intros [[<- <-]|[_ Hq]]; [done|congruence].
Qed.

Lemma insert_node_Some now n fp label db id db' :
  insert_node key now n fp label db = Some (id, db') →
  id = n_id n ∧ nodes db !! n_id n = None ∧ (fp ≠ "" → visible_with fp db = []) ∧
  ∃ row, db' = with_nodes (<[n_id n := row]> (nodes db)) db ∧
    pn_fingerprint row = fp ∧ pn_label row = label ∧ pn_missing row = false.
Proof.
  unfold insert_node. destruct (bool_decide (is_Some _)) eqn:Hx; [done|].
  apply bool_decide_eq_false, eq_None_not_Some in Hx. simpl.
  destruct (_ && _) eqn:Hv; [done|]. intros [= <- <-]. split_and!; [done..| |by eexists].
  intros Hne. apply andb_false_iff in Hv as [Hv|Hv]; apply negb_false_iff in Hv.
  - by apply String.eqb_eq in Hv.
  - by apply bool_decide_eq_true in Hv.
Qed.

Lemma resolve_entry_ok now done acc status n id status' acc' :
  loop_ok done acc → fingerprint n ∈ keys →
  resolve_entry identity_json key now acc status n = Ok (id, status', acc') →
  resolved done acc acc' n id.
Proof.
  intros H Hk. destruct (lo_count _ _ H) as [Hc Hm]. unfold resolve_entry.
  destruct (a_identities acc !! fingerprint n) as [[i []]|] eqn:Hi.
  - intros [= <- <- <-]. apply resolved_reactivated; simpl; [done..|lia|done].
  - intros [= <- <- <-].
    split; simpl; [apply (lo_tables _ _ H)|done|done|by eauto|apply (lo_ids _ _ H)|apply (lo_hidden _ _ H)
      |apply (lo_absent _ _ H)|apply (lo_dedup _ _ H)| | |lia].
    + intros j q Hq. exists q. by split_and!; [..|left].
    + intros j q Hq. congruence.
  - destruct (insert_node _ _ _ _ _ _) as [[i db']|] eqn:Hins; [|done]. intros [= <- <- <-].
    apply insert_node_Some in Hins as (-> & Hx & _ & row & -> & ? & ? & ?).
    apply resolved_inserted; simpl; try done; lia.
Qed.

Lemma valid_count_snoc l e : valid_count (l ++ [e]) = valid_count l + match e_node e with Some _ => 1 | None => 0 end.
Proof.
  unfold valid_count. rewrite filter_app, length_app. f_equal. rewrite filter_cons.
  destruct (e_node e) eqn:He; [rewrite decide_True by eauto; done|].
  rewrite decide_False by (intros [? [=]]). done.
Qed.

(** One entry with a node extends the invariant. *)
Lemma entry_step_node now sid done acc e n acc' :
  loop_ok done acc → e_node e = Some n → fingerprint n ∈ keys →
  entry_step identity_json key now sid src acc e = Ok acc' → loop_ok (done ++ [e]) acc'.
Proof.
  intros H He Hk. unfold entry_step. rewrite He.
  destruct (resolve_entry _ _ _ _ _ _) as [[[id st] a]|] eqn:Hr; [|done]. cbn [result_bind].
  eapply resolve_entry_ok in Hr; [|done..]. destruct (re_rest _ _ _ _ _ Hr) as (Rb & Ri & Rs). intros <-%Ok_inj.
  destruct (lo_bindings _ _ H) as (fresh & Hb & Hf & Hseen).
  split; simpl; [apply (re_tables _ _ _ _ _ Hr)|apply (re_ids _ _ _ _ _ Hr)|apply (re_hidden _ _ _ _ _ Hr)
    |apply (re_absent _ _ _ _ _ Hr)|apply (re_dedup _ _ _ _ _ Hr)|..].
  - intros i p Hp. destruct (lo_keep _ _ H _ _ Hp) as (p1 & H1 & Hl1 & Hf1 & Hk1).
    destruct (re_keep _ _ _ _ _ Hr _ _ H1) as (p2 & H2 & Hl2 & Hf2 & Hk2 & _).
    exists p2. split_and!; [done|congruence..|]. intros Hm. rewrite Hk2, Hk1; [done|done|by rewrite Hk1].
  - intros i p Hp H0. destruct (nodes (a_db acc) !! i) as [q|] eqn:Hq.
    + destruct (re_keep _ _ _ _ _ Hr _ _ Hq) as (p2 & H2 & Hl & _). simplify_eq. rewrite Hl. by eapply (lo_new _ _ H).
    + by destruct (re_new _ _ _ _ _ Hr _ _ Hp Hq).
  - rewrite Rb. intros i p Hp Hl Hm. rewrite fmap_app, elem_of_app. simpl.
    destruct (decide (i = id)) as [->|Hne]; [right; right; left|].
    destruct (nodes (a_db acc) !! i) as [q|] eqn:Hq.
    + destruct (re_keep _ _ _ _ _ Hr _ _ Hq) as (p2 & H2 & _ & _ & _ & [->|?]); [|done]. simplify_eq.
      destruct (lo_bound _ _ H _ _ Hq); auto.
    + by destruct (re_new _ _ _ _ _ Hr _ _ Hp Hq).
  - intros i p p' Hp Hm Hp' Hm'. rewrite Rs. destruct (decide (i = id)) as [->|Hne]; [set_solver|].
    apply elem_of_union_r. destruct (lo_keep _ _ H _ _ Hp) as (q & Hq & _).
    destruct (re_keep _ _ _ _ _ Hr _ _ Hq) as (p2 & H2 & _ & _ & _ & [->|?]); [|done]. simplify_eq.
    by eapply (lo_woken _ _ H).
  - rewrite Rb, Rs, Hb. exists (fresh ++ [mkBindingRow id src (raw_uri e)]). split_and!; [by rewrite (assoc_L app)| |].
    + apply Forall_app. split; [done|]. by apply Forall_singleton.
    + intros j. rewrite elem_of_union, fmap_app, elem_of_app, Hseen. simpl. set_solver.
  - rewrite Rs. intros j [->%elem_of_singleton|Hj]%elem_of_union.
    + exists e, n. split_and!; [set_solver|done|apply (re_id _ _ _ _ _ Hr)].
    + destruct (lo_seen _ _ H _ Hj) as (e' & n' & ? & ? & ?). exists e', n'.
      split_and!; [set_solver|done|by apply (re_mono _ _ _ _ _ Hr)].
  - rewrite Rs. intros e' n' [Hin| ->%list_elem_of_singleton]%elem_of_app He'.
    + destruct (lo_done _ _ H _ _ Hin He') as (j & ? & ?). exists j. split; [set_solver|by apply (re_mono _ _ _ _ _ Hr)].
    + simplify_eq. exists id. split; [set_solver|apply (re_id _ _ _ _ _ Hr)].
  - rewrite valid_count_snoc, He. pose proof (re_count _ _ _ _ _ Hr). lia.
Qed.

Lemma entry_step_ok now sid done acc e acc' :
  loop_ok done acc → (∀ n, e_node e = Some n → fingerprint n ∈ keys) →
  entry_step identity_json key now sid src acc e = Ok acc' → loop_ok (done ++ [e]) acc'.
Proof.
  intros H Hk. destruct (e_node e) as [n|] eqn:He; [intros; eapply entry_step_node; eauto|].
  unfold entry_step. rewrite He. intros <-%Ok_inj.
  destruct H as [A1 A2 A3 A4 A5 A6 A7 A8 A9 A10 A11 A12 A13].
  split; simpl; try done.
  - intros id Hid. destruct (A11 id Hid) as (e' & n & ? & ?). exists e', n. split; [set_solver|done].
  - intros e' n [Hin| ->%list_elem_of_singleton]%elem_of_app Hn; [eauto|congruence].
  - rewrite valid_count_snoc, He. lia.
Qed.

Lemma process_entries_ok now sid l done acc acc' :
  loop_ok done acc → (∀ e n, e ∈ l → e_node e = Some n → fingerprint n ∈ keys) →
  process_entries identity_json key now sid src l acc = Ok acc' → loop_ok (done ++ l) acc'.
Proof.
  revert done acc. induction l as [|e l IH]; intros done acc H Hk; simpl.
  - intros [= <-]. by rewrite app_nil_r.
  - intros (acc1 & H1 & H2)%result_bind_Ok. rewrite (cons_middle e done l), (assoc_L app).
    eapply (IH _ acc1); [|set_solver|done]. eapply entry_step_ok; [done| |done]. intros n Hn. eapply Hk; [left|done].
Qed.

(** The loop writes nodes, items and bindings only. *)
Definition same_tables (a b : Db) : Prop :=
  sources a = sources b ∧ jobs a = jobs b ∧ snapshots a = snapshots b ∧
  pool_revision a = pool_revision b ∧ withdrawal_revision a = withdrawal_revision b.

Lemma process_entries_tables now sid l acc acc' :
  process_entries identity_json key now sid src l acc = Ok acc' → same_tables (a_db acc') (a_db acc).
Proof.
  revert acc. induction l as [|e l IH]; intros acc; simpl; [by intros [= <-]|].
  intros (a1 & H1 & H2)%result_bind_Ok. apply IH in H2.
  assert (same_tables (a_db a1) (a_db acc)) as H3; [|unfold same_tables in *; intuition congruence].
  unfold entry_step in H1. destruct (e_node e) as [n|]; [|by apply Ok_inj in H1 as <-].
  apply result_bind_Ok in H1 as ([[id st] a2] & Hre & <-%Ok_inj). simpl.
  unfold resolve_entry in Hre. repeat case_hyp Hre; simplify_eq; try done.
  by apply insert_node_Some in Heqo0 as (_ & _ & _ & rw & -> & _).
Qed.

(** Items of the refresh belong to its snapshot. *)
Lemma process_entries_items now sid l acc acc' :
  process_entries identity_json key now sid src l acc = Ok acc' →
  ∃ fresh, items (a_db acc') = items (a_db acc) ++ fresh ∧ Forall (λ it, it_snapshot_id it = sid) fresh ∧
    it_raw_uri <$> fresh = raw_uri <$> l.
Proof.
  revert acc. induction l as [|e l IH]; intros acc; simpl.
  - intros [= <-]. exists []. by rewrite app_nil_r.
  - intros (acc1 & H1 & H2)%result_bind_Ok. destruct (IH acc1 H2) as (fresh & -> & Hf & Hr).
    assert (∃ it, items (a_db acc1) = items (a_db acc) ++ [it] ∧ it_snapshot_id it = sid ∧ it_raw_uri it = raw_uri e)
      as (it & -> & Hs & Hu).
    { unfold entry_step in H1. destruct (e_node e) as [n|]; [|injection H1 as <-; simpl; by eexists].
      destruct (resolve_entry _ _ _ _ _ _) as [[[id st] a]|] eqn:Hre; [|done]. apply Ok_inj in H1 as <-. simpl.
      assert (items (a_db a) = items (a_db acc)) as ->; [|by eexists].
      unfold resolve_entry in Hre. repeat case_hyp Hre; simplify_eq; try done.
      apply insert_node_Some in Heqo0 as (_ & _ & _ & row & -> & _). done. }
    exists (it :: fresh). rewrite <-(assoc_L app). split_and!; [done|by constructor|]. csimpl. by rewrite Hr, Hu.
Qed.

End loop.

(** ** Marking the withdrawn nodes *)

Definition withdrawn (still l : gset NodeId) (i : NodeId) (p : PoolNode) : bool :=
  bool_decide (i ∈ l) && bool_decide (i ∉ still) && is_remote_visible p.

Lemma mark_missing_lookup_acc (still : gset NodeId) l ns k i :
  (foldl (mark_missing_one still) (ns, k) l).1 !! i =
  (λ p, if bool_decide (i ∈ l) && bool_decide (i ∉ still) && is_remote_visible p then set_missing true p else p)
    <$> ns !! i.
Proof.
  revert ns k. induction l as [|x l IH]; intros ns k; simpl.
  { by destruct (ns !! i). }
  unfold mark_missing_one at 2. simpl. destruct (decide (i = x)) as [->|Hne].
  - rewrite (bool_decide_eq_true_2 (x ∈ x :: l)) by left.
    destruct (decide (x ∈ still)) as [Hst|Hst].
    { rewrite (bool_decide_eq_true_2 (x ∈ still)), IH, (bool_decide_eq_false_2 (x ∉ still)) by tauto.
      destruct (ns !! x); simpl; [by rewrite andb_false_r|done]. }
    rewrite (bool_decide_eq_false_2 (x ∈ still)), (bool_decide_eq_true_2 (x ∉ still)) by done. destruct (ns !! x) as [p|] eqn:Hp; simpl.
    + destruct (is_remote_visible p) eqn:Hr; rewrite IH, ?lookup_insert_eq, ?Hp; simpl.
      * unfold is_remote_visible at 1. simpl. by rewrite andb_false_r, andb_false_r.
      * by rewrite Hr, !andb_false_r.
    + by rewrite IH, Hp.
  - assert (bool_decide (i ∈ x :: l) = bool_decide (i ∈ l)) as -> by (apply bool_decide_ext; set_solver).
    destruct (bool_decide (x ∈ still)); [apply IH|].
    destruct (ns !! x) as [p|]; [|apply IH]. destruct (is_remote_visible p); [|apply IH].
    rewrite IH, lookup_insert_ne by done. done.
Qed.

Lemma mark_missing_spec cand acc :
  let acc' := mark_missing cand acc in
  (∀ i, nodes (a_db acc') !! i =
     (λ p, if withdrawn (bound_nodes (λ b, bool_decide (b_node_id b ∈ cand)) (a_db acc)) cand i p
           then set_missing true p else p) <$> nodes (a_db acc) !! i) ∧
  sources (a_db acc') = sources (a_db acc) ∧ jobs (a_db acc') = jobs (a_db acc) ∧
  snapshots (a_db acc') = snapshots (a_db acc) ∧ items (a_db acc') = items (a_db acc) ∧
  bindings (a_db acc') = bindings (a_db acc) ∧ pool_revision (a_db acc') = pool_revision (a_db acc) ∧
  withdrawal_revision (a_db acc') = withdrawal_revision (a_db acc).
Proof.
  unfold mark_missing. destruct (foldl _ _ _) as [ns k] eqn:Hf. simpl. split_and!; try done.
  intros i. pose proof (mark_missing_lookup_acc (bound_nodes (λ b, bool_decide (b_node_id b ∈ cand)) (a_db acc))
    (elements cand) (nodes (a_db acc)) 0%N i) as Hl. rewrite Hf in Hl. simpl in Hl. rewrite Hl.
  unfold withdrawn. destruct (nodes (a_db acc) !! i); simpl; [|done].
  by rewrite (bool_decide_ext (i ∈ elements cand) (i ∈ cand)) by apply elem_of_elements.
Qed.

Lemma elem_of_bound_nodes p db i : i ∈ bound_nodes p db ↔ ∃ b, b ∈ bindings db ∧ p b = true ∧ b_node_id b = i.
Proof.
  unfold bound_nodes. rewrite elem_of_list_to_set, list_elem_of_fmap.
  setoid_rewrite list_elem_of_filter. naive_solver.
Qed.

(** ** The whole transaction *)

(** What a successful reconciliation leaves behind. *)
Record reconciled (now : Z) (i : ReconcileInput) (db db' : Db) (res : ReconcileResult) : Prop := {
  rc_entries e n : e ∈ ri_entries i → e_node e = Some n →
    ∃ id p b, nodes db' !! id = Some p ∧ pn_fingerprint p = fingerprint n ∧ pn_missing p = false ∧
      b ∈ bindings db' ∧ b_node_id b = id ∧ b_source_id b = ri_source_id i;
  rc_bound b : b ∈ bindings db' → b_source_id b = ri_source_id i →
    ∃ e n p, e ∈ ri_entries i ∧ e_node e = Some n ∧ nodes db' !! b_node_id b = Some p ∧
      pn_fingerprint p = fingerprint n ∧ pn_missing p = false;
  rc_others : filter (λ b, b_source_id b ≠ ri_source_id i) (bindings db') =
              filter (λ b, b_source_id b ≠ ri_source_id i) (bindings db);
  rc_manual id p : nodes db !! id = Some p → pn_label p ≠ "" → pn_missing p = false → nodes db' !! id = Some p;
  rc_remote id p : nodes db !! id = Some p → pn_label p = "" → pn_missing p = false →
    ∃ p', nodes db' !! id = Some p' ∧
      (pn_missing p' = false ↔ id ∈ b_node_id <$> bindings db');
  rc_counts : (new_nodes res + duplicate_nodes res + reactivated_nodes res)%N
    = N.of_nat (valid_count (ri_entries i))
}.

(** The state the loop starts from. *)
Definition unbound (src : N) (db : Db) : Db :=
  with_bindings (filter (λ b, b_source_id b ≠ src) (bindings db)) db.
Definition entry_keys (l : list ReconcileEntry) : list string := omap (λ e, fingerprint <$> e_node e) l.
Definition start (src : N) (l : list ReconcileEntry) (db : Db) : Acc :=
  mkAcc (unbound src db) (load_identities (entry_keys l) (unbound src db)) ∅ reconcile_default.
Definition own_nodes (src : N) (db : Db) : gset NodeId := bound_nodes (λ b, N.eqb (b_source_id b) src) db.

Lemma elem_of_entry_keys l e n : e ∈ l → e_node e = Some n → fingerprint n ∈ entry_keys l.
Proof. intros He Hn. apply list_elem_of_omap. exists e. by rewrite Hn. Qed.

Lemma start_ok srcs src l db :
  pool_ok srcs (nodes db) (bindings db) →
  loop_ok src (own_nodes src db) (entry_keys l) (unbound src db) [] (start src l db).
Proof.
  intros [P1 P2 P3 P4]. split; simpl.
  - done.
  - intros fp id m. rewrite load_identities_lookup. case_bool_decide; [|done].
    intros [? _]%identity_of_Some. done.
  - intros fp id. rewrite load_identities_lookup. case_bool_decide; [|done].
    intros [_ Hh]%identity_of_Some. by apply Hh.
  - intros fp Hk. rewrite load_identities_lookup, bool_decide_eq_true_2 by done.
    intros Hn j q. by apply (identity_of_None fp (unbound src db)).
  - apply P1.
  - intros i p Hp. eauto.
  - congruence.
  - intros i p Hp Hl Hm. destruct (list_elem_of_fmap_1 _ _ _ (P2 _ _ Hp Hl Hm)) as (b & -> & Hb).
    destruct (decide (b_source_id b = src)) as [Hs|Hs].
    + left. apply elem_of_bound_nodes. exists b. by rewrite Hs, N.eqb_refl.
    + right. apply list_elem_of_fmap_2, list_elem_of_filter. done.
  - intros i p p' Hp Hm Hp' Hm'. congruence.
  - exists []. rewrite app_nil_r. split_and!; [done|constructor|]. set_solver.
  - set_solver.
  - intros e n He. by apply elem_of_nil in He.
  - done.
Qed.

Lemma complete_Ok now src job res nm db db' :
  complete now src job res nm db = Ok db' →
  ∃ r t, jobs db !! job = Some r ∧ owns_lease src r = true ∧ db_ts now = Ok t ∧
    db' = with_jobs (<[job := finish_completed t res nm r]> (jobs db)) db.
Proof.
  unfold complete. intros (t & Ht & H)%result_bind_Ok. destruct (jobs db !! job) as [r|]; [|done].
  destruct (owns_lease src r) eqn:Ho; [|done]. apply Ok_inj in H as <-. eauto 10.
Qed.

(** A committed transaction, as its steps. *)
Lemma reconcile_tx_Ok now i db res db' :
  reconcile_tx identity_json key now i db = Ok (res, db') →
  ∃ fetched row db1 acc,
    db_ts (sn_fetched_at (ri_snapshot i)) = Ok fetched ∧
    row = mkSnapshotRow (ri_source_id i) (as_i64 (sn_version (ri_snapshot i))) fetched (sn_etag (ri_snapshot i))
            (as_i64 (sn_node_count (ri_snapshot i))) true ∧
    insert_snapshot (sn_id (ri_snapshot i)) row (deactivate (ri_source_id i) db) = Ok db1 ∧
    process_entries identity_json key now (sn_id (ri_snapshot i)) (ri_source_id i) (ri_entries i)
      (start (ri_source_id i) (ri_entries i) db1) = Ok acc ∧
    let acc' := mark_missing (own_nodes (ri_source_id i) db1 ∖ a_seen acc) acc in
    res = a_result acc' ∧
    let db2 := retain_snapshots (ri_source_id i) (bump_revision (a_db acc')) in
    match ri_job_id i with
    | Some job => complete now (ri_source_id i) job (a_result acc') false db2 = Ok db'
    | None => db' = db2
    end.
Proof.
  unfold reconcile_tx. intros (fetched & Hf & (db1 & Hdb1 & H)%result_bind_Ok)%result_bind_Ok.
  apply result_bind_Ok in H as (acc & Hacc & H). apply result_bind_Ok in H as (db2 & Hdb2 & H).
  injection H as <- <-. eexists fetched, _, db1, acc. split_and!; [done|reflexivity|done|done|done|].
  destruct (ri_job_id i); [done|]. by apply Ok_inj in Hdb2.
Qed.

(** The other tables after the loop and the marking. *)
Lemma reconcile_tx_tables src l now sid db1 acc :
  process_entries identity_json key now sid src l (start src l db1) = Ok acc →
  let db2 := a_db (mark_missing (own_nodes src db1 ∖ a_seen acc) acc) in
  same_tables db2 db1 ∧ items db2 = items (a_db acc).
Proof.
  intros H2%process_entries_tables.
  destruct (mark_missing_spec (own_nodes src db1 ∖ a_seen acc) acc) as (_ & M1 & M2 & M3 & M4 & _ & M5 & M6).
  unfold same_tables in *. simpl in *. intuition congruence.
Qed.

(** The pool tables of a committed transaction. *)
Lemma reconcile_tx_pool now i db res db' :
  reconcile_tx identity_json key now i db = Ok (res, db') →
  pool_ok (dom (sources db)) (nodes db) (bindings db) →
  ∃ db1 acc, nodes db1 = nodes db ∧ bindings db1 = bindings db ∧
    loop_ok (ri_source_id i) (own_nodes (ri_source_id i) db) (entry_keys (ri_entries i))
      (unbound (ri_source_id i) db1) (ri_entries i) acc ∧
    let acc' := mark_missing (own_nodes (ri_source_id i) db ∖ a_seen acc) acc in
    res = a_result acc' ∧ nodes db' = nodes (a_db acc') ∧ bindings db' = bindings (a_db acc) ∧
    ri_source_id i ∈ dom (sources db) ∧ sources db' = sources db.
Proof.
  intros (fetched & row & db1 & acc & _ & -> & H1 & H2 & -> & H3)%reconcile_tx_Ok Hp.
  apply insert_snapshot_Ok in H1 as (-> & _ & Hs & _).
  set (db1 := with_snapshots _ _) in *.
  assert (own_nodes (ri_source_id i) db1 = own_nodes (ri_source_id i) db) as Ho by done.
  eapply process_entries_ok in H2; [|by apply (start_ok (dom (sources db)))|by apply elem_of_entry_keys].
  rewrite Ho in *. set (acc' := mark_missing _ _) in *.
  assert (nodes db' = nodes (a_db acc') ∧ bindings db' = bindings (a_db acc') ∧ sources db' = sources (a_db acc'))
    as (-> & -> & ->).
  { destruct (ri_job_id i) as [job|]; [|by rewrite H3].
    by apply complete_Ok in H3 as (r & t & _ & _ & _ & ->). }
  destruct (mark_missing_spec (own_nodes (ri_source_id i) db ∖ a_seen acc) acc) as (_ & M1 & _ & _ & _ & M2 & _).
  fold acc' in M1, M2. destruct (lo_tables _ _ _ _ _ _ H2) as (T1 & _).
  exists db1, acc. split_and!; try done. by rewrite M1, T1.
Qed.

(** The pool after the missing nodes are marked: a visible row survives with
    a binding or a label of its own, and only so. *)
Section after.
Variables (src : N) (l : list ReconcileEntry) (srcs : gset N) (db db1 : Db) (acc : Acc).
Hypothesis Hpool : pool_ok srcs (nodes db) (bindings db).
Hypothesis Hn1 : nodes db1 = nodes db.
Hypothesis Hb1 : bindings db1 = bindings db.
Hypothesis Hsrc : src ∈ srcs.
Hypothesis Hloop : loop_ok src (own_nodes src db) (entry_keys l) (unbound src db1) l acc.
Abbreviation after := (nodes (a_db (mark_missing (own_nodes src db ∖ a_seen acc) acc))).
Abbreviation bound := (b_node_id <$> bindings (a_db acc)).

Lemma after_lookup i : after !! i =
  (λ p, if bool_decide (i ∈ own_nodes src db ∖ a_seen acc) && bool_decide (i ∉ bound) && is_remote_visible p
        then set_missing true p else p) <$> nodes (a_db acc) !! i.
Proof.
  destruct (mark_missing_spec (own_nodes src db ∖ a_seen acc) acc) as [Hl _]. rewrite Hl.
  destruct (nodes (a_db acc) !! i) as [p|]; simpl; [|done]. unfold withdrawn.
  case_bool_decide as Hc; [|done]. simpl.
  assert (bool_decide (i ∉ bound_nodes (λ b, bool_decide (b_node_id b ∈ own_nodes src db ∖ a_seen acc)) (a_db acc))
    = bool_decide (i ∉ bound)) as ->; [|done].
  apply bool_decide_ext. rewrite elem_of_bound_nodes, list_elem_of_fmap. split; intros Hn Hx; apply Hn.
  - destruct Hx as (b & -> & Hb). exists b. by rewrite bool_decide_eq_true_2.
  - destruct Hx as (b & Hb & _ & <-). eauto.
Qed.

Lemma seen_bound i : i ∈ a_seen acc → i ∈ bound.
Proof.
  intros Hi. destruct (lo_bindings _ _ _ _ _ _ Hloop) as (fresh & -> & _ & Hs).
  rewrite fmap_app, elem_of_app. right. by apply Hs.
Qed.

Lemma after_bound i p : nodes (a_db acc) !! i = Some p → i ∈ bound → after !! i = Some p.
Proof.
  intros Hp Hb. rewrite after_lookup, Hp. simpl. rewrite (bool_decide_eq_false_2 (i ∉ bound)) by tauto.
  by rewrite andb_false_r.
Qed.

Lemma after_labelled i p : nodes (a_db acc) !! i = Some p → pn_label p ≠ "" → after !! i = Some p.
Proof.
  intros Hp Hb. rewrite after_lookup, Hp. simpl. unfold is_remote_visible.
  destruct (String.eqb_spec (pn_label p) ""); [done|]. by rewrite !andb_false_r.
Qed.

Lemma after_Some i p' : after !! i = Some p' →
  ∃ p, nodes (a_db acc) !! i = Some p ∧ pn_label p' = pn_label p ∧ pn_fingerprint p' = pn_fingerprint p ∧
    (pn_missing p' = false → p' = p).
Proof.
  rewrite after_lookup. destruct (nodes (a_db acc) !! i) as [p|]; [|done]. simpl. intros [= <-].
  exists p. by destruct (_ && _).
Qed.

(** Visible remote rows are exactly those with a binding. *)
Lemma after_visible i p' : after !! i = Some p' → pn_label p' = "" → pn_missing p' = false → i ∈ bound.
Proof.
  intros Ha Hl Hm. destruct (after_Some _ _ Ha) as (p & Hp & _ & _ & He). pose proof (He Hm). subst p'. clear He.
  destruct (decide (i ∈ bound)) as [|Hn]; [done|]. exfalso.
  destruct (lo_bound _ _ _ _ _ _ Hloop _ _ Hp Hl Hm) as [Ho|]; [|done].
  rewrite after_lookup, Hp in Ha. simpl in Ha. rewrite bool_decide_eq_true_2 in Ha
    by (apply elem_of_difference; split; [done|by intros ?%seen_bound]).
  rewrite bool_decide_eq_true_2 in Ha by done. unfold is_remote_visible in Ha. rewrite Hl, Hm in Ha. simpl in Ha.
  injection Ha as Ha. by rewrite <-Ha, set_missing_missing in Hm.
Qed.

Lemma after_binding b : b ∈ bindings (a_db acc) →
  b_source_id b ∈ srcs ∧ ∃ p, after !! b_node_id b = Some p ∧ pn_missing p = false.
Proof.
  intros Hb. assert (b_node_id b ∈ bound) as Hin by by apply list_elem_of_fmap_2.
  destruct (lo_bindings _ _ _ _ _ _ Hloop) as (fresh & Hbs & Hf & Hs). rewrite Hbs in Hb.
  apply elem_of_app in Hb as [Hb|Hb].
  - simpl in Hb. rewrite Hb1 in Hb. apply list_elem_of_filter in Hb as [_ Hb].
    split; [by apply (pool_binding_source _ _ _ Hpool)|].
    destruct (pool_binding _ _ _ Hpool b Hb) as (p & Hp & Hm). rewrite <-Hn1 in Hp.
    destruct (lo_keep _ _ _ _ _ _ Hloop _ _ Hp) as (p' & Hp' & _ & _ & He). rewrite (He Hm) in Hp'.
    exists p. split; [|done]. by apply after_bound.
  - rewrite Forall_forall in Hf. split; [by rewrite (Hf b Hb)|].
    assert (b_node_id b ∈ a_seen acc) as Hseen by (apply Hs, list_elem_of_fmap_2, Hb).
    destruct (lo_seen _ _ _ _ _ _ Hloop _ Hseen) as (e & n & _ & _ & Hid).
    destruct (lo_ids _ _ _ _ _ _ Hloop _ _ _ Hid) as (p & Hp & _ & Hm).
    exists p. split; [|done]. by apply after_bound.
Qed.

Lemma after_pool_ok : pool_ok srcs after (bindings (a_db acc)).
Proof.
  split.
  - intros i j p q (p0 & Hp & _ & _ & Ep)%after_Some (q0 & Hq & _ & _ & Eq)%after_Some Hm1 Hm2.
    pose proof (Ep Hm1). pose proof (Eq Hm2). subst p q. by eapply (lo_dedup _ _ _ _ _ _ Hloop).
  - apply after_visible.
  - apply after_binding.
  - intros b Hb. by apply after_binding.
Qed.

End after.

Lemma reconcile_pool_ok now i db res db' :
  reconcile_tx identity_json key now i db = Ok (res, db') →
  pool_ok (dom (sources db)) (nodes db) (bindings db) →
  pool_ok (dom (sources db')) (nodes db') (bindings db').
Proof.
  intros Hr Hp. destruct (reconcile_tx_pool _ _ _ _ _ Hr Hp) as (db1 & acc & Hn & Hb & Hl & _ & -> & -> & Hs & ->).
  by eapply after_pool_ok.
Qed.

Lemma mark_missing_counts cand acc :
  let r := a_result (mark_missing cand acc) in
  new_nodes r = new_nodes (a_result acc) ∧ duplicate_nodes r = duplicate_nodes (a_result acc) ∧
  reactivated_nodes r = reactivated_nodes (a_result acc).
Proof. unfold mark_missing. by destruct (foldl _ _ _). Qed.

Lemma reconcile_effect now i db res db' :
  reconcile_tx identity_json key now i db = Ok (res, db') →
  pool_ok (dom (sources db)) (nodes db) (bindings db) →
  reconciled now i db db' res.
Proof.
  intros Hr Hp. destruct (reconcile_tx_pool _ _ _ _ _ Hr Hp) as (db1 & acc & Hn & Hb & Hl & -> & Hn' & Hb' & Hs & _).
  set (src := ri_source_id i) in *.
  destruct (lo_bindings _ _ _ _ _ _ Hl) as (fresh & Hbs & Hf & Hseen). simpl in Hbs. rewrite Hb in Hbs.
  rewrite Forall_forall in Hf. split.
  - intros e n He Hen. destruct (lo_done _ _ _ _ _ _ Hl _ _ He Hen) as (id & Hid & Hfp).
    destruct (lo_ids _ _ _ _ _ _ Hl _ _ _ Hfp) as (p & Hpn & Hpf & Hpm).
    apply Hseen in Hid as Hin. apply list_elem_of_fmap in Hin as (b & -> & Hbf).
    exists (b_node_id b), p, b. rewrite Hn', Hb', Hbs. split_and!; [|done..|set_solver|done|by apply Hf].
    eapply after_bound; [done|]. by eapply seen_bound.
  - intros b Hbin Hbs'. rewrite Hb' in Hbin. rewrite Hbs in Hbin. apply elem_of_app in Hbin as [Hbin|Hbin].
    { apply list_elem_of_filter in Hbin as [? _]. done. }
    assert (b_node_id b ∈ a_seen acc) as Hid by by apply Hseen, list_elem_of_fmap_2.
    destruct (lo_seen _ _ _ _ _ _ Hl _ Hid) as (e & n & He & Hen & Hfp).
    destruct (lo_ids _ _ _ _ _ _ Hl _ _ _ Hfp) as (p & Hpn & Hpf & Hpm).
    exists e, n, p. rewrite Hn'. split_and!; try done. eapply after_bound; [done|]. by eapply seen_bound.
  - rewrite Hb', Hbs, filter_app.
    rewrite (list_filter_none _ fresh), app_nil_r by naive_solver. by apply list_filter_filter_l.
  - intros id p Hid Hlab Hm. rewrite Hn'. rewrite <-Hn in Hid.
    destruct (lo_keep _ _ _ _ _ _ Hl id p Hid) as (p' & Hp' & _ & _ & He). rewrite (He Hm) in Hp'.
    by eapply after_labelled.
  - intros id p Hid Hlab Hm. rewrite Hn', Hb'. rewrite <-Hn in Hid.
    destruct (lo_keep _ _ _ _ _ _ Hl id p Hid) as (p' & Hp' & _ & _ & He). rewrite (He Hm) in Hp'.
    eexists. split; [by rewrite after_lookup, Hp'|]. destruct (_ && is_remote_visible p) eqn:Hw.
    + rewrite set_missing_missing. apply andb_prop in Hw as [[_ Hw]%andb_prop _].
      apply bool_decide_eq_true in Hw. naive_solver.
    + split; [|done]. intros _. eapply after_visible; [done| |exact Hlab|exact Hm].
      rewrite after_lookup, Hp'. simpl. by rewrite Hw.
  - destruct (mark_missing_counts (own_nodes src db ∖ a_seen acc) acc) as (-> & -> & ->).
    by apply (lo_count _ _ _ _ _ _ Hl).
Qed.

(** ** Imports *)

(** A labelled, visible row may be written where no other visible row has its
    fingerprint. *)
Lemma pool_ok_insert srcs ns bs id p :
  pn_missing p = false → pn_label p ≠ "" →
  (∀ j q, j ≠ id → ns !! j = Some q → pn_missing q = false → pn_fingerprint q = pn_fingerprint p →
     pn_fingerprint p ≠ "" → False) →
  pool_ok srcs ns bs → pool_ok srcs (<[id := p]> ns) bs.
Proof.
  intros Hm Hl Hd [P1 P2 P3 P4]. split; [| | |done].
  - intros i j a b. rewrite !lookup_insert_Some.
    intros [[<- <-]|[? Ha]] [[<- <-]|[? Hb]] Hma Hmb He Hne; [done| | |by eapply (P1 i j a b)].
    + exfalso. eapply (Hd j b); eauto.
    + exfalso. eapply (Hd i a); eauto. congruence.
  - intros i a. rewrite lookup_insert_Some. intros [[<- <-]|[? Ha]]; [done|eauto].
  - intros b Hb. destruct (decide (b_node_id b = id)) as [->|Hne].
    + rewrite lookup_insert_eq. eauto.
    + rewrite lookup_insert_ne by done. eauto.
Qed.

Lemma independent_label_nonempty n : independent_label n ≠ "".
Proof. unfold independent_label. by destruct (source_label (source n)). Qed.

Lemma retain_ok srcs id label db :
  label ≠ "" →
  (∀ p, nodes db !! id = Some p → pn_missing p = true → visible_with (pn_fingerprint p) db = []) →
  pool_ok srcs (nodes db) (bindings db) →
  pool_ok srcs (nodes (retain_manual_contribution id label db)) (bindings (retain_manual_contribution id label db)).
Proof.
  intros Hl Hv Hp. simpl. destruct (nodes db !! id) as [p|] eqn:Hid.
  2:{ by rewrite alter_id by (intros ? ?; congruence). }
  destruct (String.eqb (pn_label p) "" || pn_missing p) eqn:Hc.
  2:{ rewrite alter_id; [done|]. intros q Hq. simplify_eq. by rewrite Hc. }
  rewrite (alter_insert_lookup _ _ p) by done.
  rewrite Hc. apply pool_ok_insert; simpl; [done| | |done].
  - by destruct (String.eqb_spec (pn_label p) "").
  - intros j q Hne Hq Hqm Hqf Hnz. destruct (pn_missing p) eqn:Hpm.
    + pose proof (visible_with_nil _ _ _ _ (Hv p eq_refl Hpm) Hq Hqf). congruence.
    + apply Hne. by eapply (pool_dedup _ _ _ Hp j id q p); [..|congruence].
Qed.

Lemma import_one_ok srcs now db res n :
  pool_ok srcs (nodes db) (bindings db) →
  let db' := (import_one identity_json key now (db, res) n).1 in
  pool_ok srcs (nodes db') (bindings db').
Proof.
  intros Hp. unfold import_one. set (fp := fingerprint n).
  destruct (visible_with fp db) as [|[id p] vs] eqn:Hv.
  - destruct (missing_with fp db) as [|[id p] ms] eqn:Hms.
    + destruct (insert_node _ _ _ _ _ _) as [[id db']|] eqn:Hi; [|done].
      apply insert_node_Some in Hi as (-> & Hx & Hvis & row & -> & Hf & Hl & Hm). simpl.
      apply pool_ok_insert; [done|rewrite Hl; apply independent_label_nonempty| |done].
      intros j q _ Hq Hqm Hqf Hne. rewrite Hf in Hqf.
      pose proof (visible_with_nil _ _ _ _ Hv Hq Hqf). congruence.
    + apply retain_ok; [apply independent_label_nonempty| |done]. intros q Hq _.
      assert ((id, p) ∈ missing_with fp db) as Hin by (rewrite Hms; left).
      unfold missing_with in Hin. apply list_elem_of_filter in Hin as [_ [Hp' Hf]%elem_of_rows_with].
      simplify_eq. by rewrite Hf.
  - apply retain_ok; [apply independent_label_nonempty| |done]. intros q Hq Hm.
    assert ((id, p) ∈ visible_with fp db) as Hin by (rewrite Hv; left).
    apply elem_of_visible_with in Hin as (? & ? & ?). congruence.
Qed.

(** Only [nodes] changes while nodes are imported. *)
Lemma import_one_tables now db res n :
  let db' := (import_one identity_json key now (db, res) n).1 in
  sources db' = sources db ∧ jobs db' = jobs db ∧ snapshots db' = snapshots db ∧ items db' = items db ∧
  bindings db' = bindings db ∧ pool_revision db' = pool_revision db ∧
  withdrawal_revision db' = withdrawal_revision db.
Proof.
  unfold import_one. repeat case_goal; try done.
  apply insert_node_Some in Heqo as (_ & _ & _ & row & -> & _). done.
Qed.

Lemma import_fold_ok now l db res :
  let db' := (foldl (import_one identity_json key now) (db, res) l).1 in
  (pool_ok (dom (sources db)) (nodes db) (bindings db) →
   pool_ok (dom (sources db)) (nodes db') (bindings db')) ∧
  sources db' = sources db ∧ jobs db' = jobs db ∧ snapshots db' = snapshots db ∧ items db' = items db ∧
  bindings db' = bindings db ∧ pool_revision db' = pool_revision db ∧
  withdrawal_revision db' = withdrawal_revision db.
Proof.
  revert db res. induction l as [|n l IH]; intros db res; [done|]. cbn [foldl].
  destruct (import_one identity_json key now (db, res) n) as [db1 res1] eqn:H1.
  pose proof (import_one_ok (dom (sources db)) now db res n) as Hok.
  pose proof (import_one_tables now db res n) as Ht. rewrite H1 in Hok, Ht. cbn [fst] in Hok, Ht.
  destruct Ht as (T1 & T2 & T3 & T4 & T5 & T6 & T7). destruct (IH db1 res1) as (I0 & I1 & I2 & I3 & I4 & I5 & I6 & I7).
  rewrite T1 in I0. split_and!; [by intros Hp; apply I0, Hok|congruence..].
Qed.

(** ** Deletion of a source *)

Lemma bound_to_true src i db : bound_to src i db = true ↔ ∃ b, b ∈ bindings db ∧ b_node_id b = i ∧ b_source_id b = src.
Proof.
  unfold bound_to. rewrite existsb_true. setoid_rewrite andb_true_iff. setoid_rewrite N.eqb_eq. done.
Qed.

Lemma bound_elsewhere_true src i db :
  bound_elsewhere src i db = true ↔ ∃ b, b ∈ bindings db ∧ b_node_id b = i ∧ b_source_id b ≠ src.
Proof.
  unfold bound_elsewhere. rewrite existsb_true. setoid_rewrite andb_true_iff.
  setoid_rewrite negb_true_iff. setoid_rewrite N.eqb_eq. setoid_rewrite N.eqb_neq. done.
Qed.

Lemma delete_source_pool_ok id db db' :
  delete_source_row id db = (Ok (), db') →
  pool_ok (dom (sources db)) (nodes db) (bindings db) →
  pool_ok (dom (sources db')) (nodes db') (bindings db').
Proof.
  unfold delete_source_row. destruct (sources db !! id); [|done]. intros [= <-] [P1 P2 P3 P4]. simpl.
  assert (∀ i q, map_imap (λ nid p, Some (if is_remote_visible p && bound_to id nid db
     && negb (bound_elsewhere id nid db) then set_missing true p else p)) (nodes db) !! i = Some q →
     ∃ p, nodes db !! i = Some p ∧ (q = p ∨ pn_missing q = true) ∧
       (q = p → is_remote_visible p && bound_to id i db && negb (bound_elsewhere id i db) = false)) as Hback.
  { intros i q. rewrite map_lookup_imap. intros (p & Hp & [= <-])%bind_Some. exists p.
    destruct (_ && _) eqn:Hc; [|by auto]. split_and!; [done|by right|]. intros He.
    apply andb_prop in Hc as [[Hr _]%andb_prop _]. unfold is_remote_visible in Hr.
    rewrite <-He, set_missing_missing in Hr. by rewrite andb_false_r in Hr. }
  split.
  - intros i j p q (p0 & Hp & [->|] & _)%Hback (q0 & Hq & [->|] & _)%Hback; try congruence. eauto.
  - intros i q (p & Hp & [->|] & Hc)%Hback Hl Hm; [|congruence].
    specialize (Hc eq_refl). unfold is_remote_visible in Hc. rewrite Hl, Hm in Hc. simpl in Hc.
    destruct (list_elem_of_fmap_1 _ _ _ (P2 _ _ Hp Hl Hm)) as (b & -> & Hb).
    destruct (decide (b_source_id b = id)) as [Hs|Hs];
      [|apply list_elem_of_fmap_2, list_elem_of_filter; done].
    rewrite (proj2 (bound_to_true id (b_node_id b) db)) in Hc by eauto. simpl in Hc.
    apply negb_false_iff, bound_elsewhere_true in Hc as (b' & Hb' & He & Hs').
    rewrite <-He. apply list_elem_of_fmap_2, list_elem_of_filter. done.
  - intros b [Hs Hb]%list_elem_of_filter. destruct (P3 b Hb) as (p & Hp & Hm).
    exists p. split; [|done]. rewrite map_lookup_imap, Hp. simpl.
    rewrite (proj2 (bound_elsewhere_true id (b_node_id b) db)) by eauto. by rewrite andb_false_r.
  - intros b [Hs Hb]%list_elem_of_filter. rewrite dom_delete_L. apply elem_of_difference.
    split; [auto|]. by rewrite elem_of_singleton.
Qed.

End pool.

End PoolInv.
