(* ===== verification/SourceSteps.v ===== *)
(** * The source tables as a transition system

    Every write of the source repositories as a step, the invariant
    [SourceInv.db_ok] of every run, and the life of a refresh job: its status
    only moves from pending to running to a terminal one, and a terminal
    outcome is final. *)

From S2P Require Import Prelude Kernel Node NodePool Text UrlText Crypto Source SourceDb Reconcile SourceInv PoolInv.
Import Text UrlText Crypto Source SourceDb Reconcile SourceInv PoolInv.

Module SourceSteps.

Section steps.
Context `{L : UrlLib} `{C : CryptoLib}.
Variable identity_json : NodeIdentity → string.
Variable key : option string.

(** The writes of the repositories; reads leave the tables alone. *)
Inductive Op :=
  | OCreateSource (n1 n2 : option string) (s : Source)
  | OUpdateSource (n1 n2 : option string) (s : Source)
  | OApplyConfig (nonce : option string) (u : SourceConfigUpdate)
  | ODeleteSource (id : N)
  | ODisable (id job : N)
  | OCreateJob (job : SourceRefreshJob)
  | OMarkRunning (id : N)
  | OUpdatePhase (now : Z) (id : N) (p : RefreshPhase)
  | OMarkCompleted (now : Z) (id : N) (res : ReconcileResult) (not_modified : bool)
  | OMarkFailed (now : Z) (id : N) (message : string)
  | OMarkCancelled (now : Z) (id : N)
  | ODeleteJob (id : N)
  | ORecoverCrashed (now : Z)
  | ORecoverStale (now cutoff : Z) (reason : string)
  | OCreateSnapshot (s : SourceSnapshot)
  | OTouch (src job : N) (now : Z)
  | OReconcile (now : Z) (i : ReconcileInput)
  | OImport (now : Z) (l : list Node)
  | OBump.

Definition apply_op (o : Op) (db : Db) : Db :=
  match o with
  | OCreateSource n1 n2 s => (create_source_row key n1 n2 s db).2
  | OUpdateSource n1 n2 s => (update_source_row key n1 n2 s db).2
  | OApplyConfig nonce u => (apply_config key nonce u db).2
  | ODeleteSource id => (delete_source_row id db).2
  | ODisable id job => (disable_after_failure id job db).2
  | OCreateJob job => (create_job job db).2
  | OMarkRunning id => (mark_running id db).2
  | OUpdatePhase now id p => (update_phase now id p db).2
  | OMarkCompleted now id res nm => (mark_completed now id res nm db).2
  | OMarkFailed now id m => (mark_failed now id m db).2
  | OMarkCancelled now id => (mark_cancelled now id db).2
  | ODeleteJob id => (delete_job id db).2
  | ORecoverCrashed now => (recover_crashed_jobs now db).2
  | ORecoverStale now cutoff reason => (recover_stale_jobs now cutoff reason db).2
  | OCreateSnapshot s => (create_snapshot s db).2
  | OTouch src job now => (touch_fetched_at src job now db).2
  | OReconcile now i => (reconcile identity_json key now i db).2
  | OImport now l => (import_nodes identity_json key now l db).2
  | OBump => bump_revision db
  end.

Definition run_ops (l : list Op) (db : Db) : Db := foldl (λ db o, apply_op o db) db l.

(** ** The lifecycle of a job row *)

(** What may happen to a job row in one step. *)
Inductive job_step : JobStatus → JobStatus → Prop :=
  | js_stay s : job_step s s
  | js_start : job_step JPending JRunning
  | js_complete : job_step JRunning JCompleted
  | js_fail s : is_terminal s = false → job_step s JFailed
  | js_cancel s : is_terminal s = false → job_step s JCancelled.

(** The recorded outcome of a job. *)
Definition outcome (r : JobRow) :=
  (jr_source_id r, jr_status r, jr_finished_at r, jr_error_message r,
   (jr_new_nodes r, jr_duplicate_nodes r, jr_reactivated_nodes r, jr_missing_nodes r), jr_not_modified r).

Definition row_step (r r' : JobRow) : Prop :=
  jr_source_id r' = jr_source_id r ∧ job_step (jr_status r) (jr_status r') ∧
  (is_terminal (jr_status r) = true → outcome r' = outcome r).

Lemma row_step_refl r : row_step r r.
Proof. split_and!; [done|constructor|done]. Qed.

(** A step of a whole job table: rows change by [row_step], vanish, or are new. *)
Definition jobs_step (js js' : gmap N JobRow) : Prop :=
  ∀ id r r', js !! id = Some r → js' !! id = Some r' → row_step r r'.

Lemma jobs_step_refl js : jobs_step js js.
Proof. intros id r r' H1 H2. simplify_eq. apply row_step_refl. Qed.

Lemma jobs_step_alter js id f : (∀ r, row_step r (f r)) → jobs_step js (alter f id js).
Proof.
  intros Hf i r r' Hi. destruct (decide (i = id)) as [->|].
  - rewrite lookup_alter_eq, Hi. intros [= <-]. apply Hf.
  - rewrite lookup_alter_ne, Hi by done. intros [= <-]. apply row_step_refl.
Qed.

Lemma jobs_step_insert js id r0 r1 : js !! id = Some r0 → row_step r0 r1 → jobs_step js (<[id := r1]> js).
Proof.
  intros H0 Hs i r r' Hi. rewrite lookup_insert_Some. intros [[<- <-]|[_ Hi']]; simplify_eq; [done|apply row_step_refl].
Qed.

Lemma jobs_step_fmap js f : (∀ r, row_step r (f r)) → jobs_step js (f <$> js).
Proof. intros Hf i r r' Hi. rewrite lookup_fmap, Hi. intros [= <-]. apply Hf. Qed.

Lemma jobs_step_subset js js' : js' ⊆ js → jobs_step js js'.
Proof.
  intros Hs i r r' Hi Hi'. rewrite (lookup_weaken _ _ _ _ Hi' Hs) in Hi. simplify_eq. apply row_step_refl.
Qed.

Lemma finish_step s now m r :
  is_open r = true → s = JFailed ∨ s = JCancelled → row_step r (finish s now m r).
Proof.
  intros Ho%negb_true_iff Hs. split_and!; [done| |congruence]. simpl.
  destruct Hs as [->| ->]; by constructor.
Qed.

Lemma finish_completed_step now res nm r : is_running r = true → row_step r (finish_completed now res nm r).
Proof.
  intros Hr%bool_decide_eq_true. split_and!; [done| |by rewrite Hr]. simpl. rewrite Hr. constructor.
Qed.

Lemma complete_step now src job res nm db db' : complete now src job res nm db = Ok db' → jobs_step (jobs db) (jobs db').
Proof.
  intros (r & t & Hr & Ho & _ & ->)%complete_Ok. eapply jobs_step_insert; [done|].
  apply finish_completed_step. by apply andb_prop in Ho as [_ ?].
Qed.

Lemma reconcile_tx_jobs now i db res db' :
  reconcile_tx identity_json key now i db = Ok (res, db') →
  match ri_job_id i with
  | Some job => ∃ db2 , jobs db2 = jobs db ∧ complete now (ri_source_id i) job res false db2 = Ok db'
  | None => jobs db' = jobs db
  end.
Proof.
  intros (fetched & row & db1 & acc & _ & -> & H1 & H2 & -> & H3)%reconcile_tx_Ok.
  apply insert_snapshot_Ok in H1 as (-> & _).
  apply reconcile_tx_tables in H2 as [(_ & Hj & _) _].
  destruct (ri_job_id i) as [job|]; [|by rewrite H3]. eexists. split; [|exact H3]. done.
Qed.

Lemma if_step (p : JobRow → bool) f r : (p r = true → row_step r (f r)) → row_step r (if p r then f r else r).
Proof. intros H. destruct (p r) eqn:Hp; [auto|apply row_step_refl]. Qed.

Lemma stale_open cutoff r : is_stale cutoff r = true → is_open r = true.
Proof.
  unfold is_stale, is_running, is_open. intros [->%bool_decide_eq_true _]%andb_prop. done.
Qed.

(** Every write moves every job forward, or leaves it alone. *)
Lemma apply_op_jobs o db : jobs_step (jobs db) (jobs (apply_op o db)).
Proof.
  destruct o; simpl.
  - unfold create_source_row. destruct (result_bind _ _) as [db'|] eqn:H; [|apply jobs_step_refl].
    repeat (apply result_bind_Ok in H as (? & _ & H)). repeat case_hyp H; simplify_eq. apply jobs_step_refl.
  - unfold update_source_row. destruct (result_bind _ _) as [db'|] eqn:H; [|apply jobs_step_refl].
    repeat (apply result_bind_Ok in H as (? & _ & H)). repeat case_hyp H; simplify_eq. apply jobs_step_refl.
  - unfold apply_config. destruct (result_bind _ _) as [[s db']|] eqn:H; [|apply jobs_step_refl].
    do 3 apply result_bind_Ok in H as (? & _ & H). case_hyp H; [done|].
    apply result_bind_Ok in H as (? & _ & H). simplify_eq. apply jobs_step_refl.
  - unfold delete_source_row. destruct (sources db !! id); [|apply jobs_step_refl].
    apply jobs_step_subset, map_filter_subseteq.
  - apply jobs_step_refl.
  - unfold create_job. destruct (db_ts _); [|apply jobs_step_refl].
    case_bool_decide as Hid; [apply jobs_step_refl|]. destruct (_ && _); [apply jobs_step_refl|].
    case_bool_decide; [apply jobs_step_refl|]. simpl. intros i r r' Hi. rewrite lookup_insert_ne, Hi.
    { intros [= <-]. apply row_step_refl. }
    intros <-. apply Hid. eauto.
  - unfold mark_running. destruct (jobs db !! id) as [r|] eqn:Hid; [|apply jobs_step_refl].
    case_bool_decide as Hp; [|apply jobs_step_refl]. destruct (lease_held _ _ _); [apply jobs_step_refl|].
    eapply jobs_step_insert; [done|]. unfold row_step. simpl. rewrite Hp. split_and!; [done|constructor|done].
  - unfold update_phase. destruct (db_ts now); [|apply jobs_step_refl].
    apply jobs_step_alter. intros r. split_and!; [done|constructor|done].
  - unfold mark_completed. destruct (db_ts now); [|apply jobs_step_refl].
    apply jobs_step_alter. intros r. apply if_step, finish_completed_step.
  - unfold mark_failed. destruct (db_ts now); [|apply jobs_step_refl].
    apply jobs_step_alter. intros r. apply if_step. intros. apply finish_step; auto.
  - unfold mark_cancelled. destruct (db_ts now); [|apply jobs_step_refl].
    apply jobs_step_alter. intros r. apply (if_step is_open (λ r, finish _ _ _ r)). intros. apply finish_step; auto.
  - apply jobs_step_subset, delete_subseteq.
  - unfold recover_crashed_jobs. destruct (db_ts now); [|apply jobs_step_refl].
    apply jobs_step_fmap. intros r. apply if_step. intros. apply finish_step; auto.
  - unfold recover_stale_jobs. destruct (db_ts cutoff); [|apply jobs_step_refl].
    destruct (db_ts now); [|apply jobs_step_refl].
    apply jobs_step_fmap. intros r. apply (if_step (is_stale _)). intros. apply finish_step; eauto using stale_open.
  - unfold create_snapshot. destruct (result_bind _ _) as [db'|] eqn:H; [|apply jobs_step_refl].
    apply result_bind_Ok in H as (? & _ & (-> & _)%insert_snapshot_Ok). apply jobs_step_refl.
  - unfold touch_fetched_at. destruct (result_bind _ _) as [db'|] eqn:H; [|apply jobs_step_refl].
    apply result_bind_Ok in H as (? & _ & (db1 & Hc & <-%Ok_inj)%result_bind_Ok).
    simpl. by eapply complete_step.
  - unfold reconcile. destruct (reconcile_tx _ _ _ _ _) as [[res db']|] eqn:H; [|apply jobs_step_refl].
    apply reconcile_tx_jobs in H. destruct (ri_job_id i); [|simpl; rewrite H; apply jobs_step_refl].
    destruct H as (db2 & Hj & Hc). simpl. rewrite <-Hj. by eapply complete_step.
  - unfold import_nodes. pose proof (import_fold_ok identity_json key now l db (mkImport 0 0 0 [])) as Hi.
    destruct (foldl _ _ _) as [db' res]. simpl in *. destruct Hi as (_ & _ & -> & _). apply jobs_step_refl.
  - apply jobs_step_refl.
Qed.

(** ** Preservation of the invariant *)

Lemma ok_with_jobs db js : jobs_ok (dom (sources db)) js → db_ok db → db_ok (with_jobs js db).
Proof. intros Hj [H1 H2 H3 H4 H5]. by split. Qed.

Lemma ok_with_snapshots db ss : snaps_ok (dom (sources db)) ss (items db) → db_ok db → db_ok (with_snapshots ss db).
Proof. intros Hj [H1 H2 H3 H4 H5]. by split. Qed.

Lemma ok_bump db : db_ok db → db_ok (bump_revision db).
Proof. intros [H1 H2 H3 H4 H5]. split; simpl; [done..|lia]. Qed.

Lemma name_taken_false id name db :
  name_taken id name db = false → ∀ i r, sources db !! i = Some r → sr_name r = name → i = id.
Proof.
  unfold name_taken. rewrite any_row_false. intros H i r Hi Hn. specialize (H i r Hi).
  rewrite Hn, String.eqb_refl, andb_true_r in H. apply bool_decide_eq_false in H. by destruct (decide (i = id)).
Qed.

(** Writing a source row whose name no other row has; a new row only extends
    what the references may name. *)
Lemma ok_insert_source id r db :
  (∀ i r', sources db !! i = Some r' → sr_name r' = sr_name r → i = id) →
  db_ok db → db_ok (with_sources (<[id := r]> (sources db)) db).
Proof.
  intros Hn [[H1 H2] H3 H4 H5 H6].
  assert (dom (sources db) ⊆ dom (<[id := r]> (sources db))) as Hsub by (rewrite dom_insert; set_solver).
  split; simpl; [split| | | |done].
  - done.
  - intros i j Hj. apply Hsub. eauto.
  - destruct H3 as [A1 A2 A3 A4]. split; [done..| |done]. intros i s Hs. apply Hsub. eauto.
  - destruct H4 as [A1 A2 A3 A4]. split; [done..|]. intros b Hb. apply Hsub. eauto.
  - intros i j a b. rewrite !lookup_insert_Some.
    intros [[<- <-]|[? Ha]] [[<- <-]|[? Hb]] He; [done| | |eauto]; [symmetry|]; eapply Hn; eauto.
Qed.

Lemma ok_deactivate src db : db_ok db → db_ok (deactivate src db).
Proof.
  intros H. apply ok_with_snapshots; [|done]. apply snaps_ok_fmap; [..|apply H]; intros r; by destruct (is_active_for src r).
Qed.

Lemma ok_insert_snapshot id row db db' : insert_snapshot id row db = Ok db' → db_ok db → db_ok db'.
Proof.
  intros Hi [H1 H2 H3 H4 H5]. pose proof Hi as (-> & _)%insert_snapshot_Ok.
  eapply insert_snapshot_ok in Hi; [|done..]. by split.
Qed.

Lemma ok_complete now src job res nm db db' : complete now src job res nm db = Ok db' → db_ok db → db_ok db'.
Proof.
  intros (r & t & Hr & Ho & _ & ->)%complete_Ok H. apply ok_with_jobs; [|done].
  apply jobs_ok_insert; [|done|apply H]. simpl. eapply jobs_source; [apply H|done].
Qed.

Lemma ok_invalidate id db : db_ok db → db_ok (invalidate_fetch_validator id db).
Proof.
  intros H. apply ok_with_snapshots; [|done]. apply snaps_ok_fmap; [..|apply H]; intros r; by destruct (is_active_for id r).
Qed.

Lemma ok_delete_source id db : db_ok db → db_ok (delete_source_row id db).2.
Proof.
  intros H. destruct (delete_source_row id db) as [[[]|e] db'] eqn:Hd.
  2:{ unfold delete_source_row in Hd. destruct (sources db !! id); simplify_eq. done. }
  pose proof (delete_source_pool_ok _ _ _ Hd (ok_pool _ H)) as Hp.
  unfold delete_source_row in Hd. destruct (sources db !! id) eqn:Hid; [|done]. injection Hd as <-.
  simpl in *. split; simpl; [| |done| |lia].
  - eapply jobs_ok_subset; [apply map_filter_subseteq| |apply H].
    intros i r [_ Hne]%map_lookup_filter_Some. rewrite dom_delete. set_solver.
  - eapply snaps_ok_subset; [apply map_filter_subseteq| | |apply H].
    + intros i r [_ Hne]%map_lookup_filter_Some. rewrite dom_delete. set_solver.
    + intros it [Hn Hit]%list_elem_of_filter. split; [done|].
      destruct (snaps_items _ _ _ (ok_snaps _ H) it Hit) as [r Hr]. exists r.
      apply map_lookup_filter_Some. split; [done|]. simpl. intros He.
      assert (filter (λ kv, snr_source_id kv.2 = id) (snapshots db) !! it_snapshot_id it = Some r) as Hx
        by by apply map_lookup_filter_Some. congruence.
  - intros i j a b. rewrite !lookup_delete_Some. intros [_ Ha] [_ Hb]. by eapply (ok_names _ H).
Qed.

Lemma ok_reconcile now i db res db' :
  reconcile_tx identity_json key now i db = Ok (res, db') → db_ok db → db_ok db'.
Proof.
  intros Hr H. pose proof (reconcile_pool_ok _ _ _ _ _ _ _ Hr (ok_pool _ H)) as Hp.
  apply reconcile_tx_Ok in Hr as (fetched & row & db1 & acc & _ & -> & H1 & H2 & -> & H3).
  pose proof (process_entries_items _ _ _ _ _ _ _ _ H2) as (fresh & Hit & Hfr & _).
  pose proof H1 as (E1 & _)%insert_snapshot_Ok.
  apply ok_insert_snapshot in H1 as [J1 S1 _ N1 W1]; [|by apply ok_deactivate].
  apply reconcile_tx_tables in H2 as [(T1 & T2 & T3 & T4 & T5) T6].
  set (acc' := mark_missing _ _) in *. set (db2 := retain_snapshots _ _) in *.
  assert (sources db2 = sources db1) as Hs by done.
  assert (snaps_ok (dom (sources db2)) (snapshots db2) (items db2)) as Hsn.
  { rewrite Hs. simpl. rewrite T3. eapply (snaps_ok_subset _ _ _ _ (items db1 ++ fresh)); [apply map_filter_subseteq|naive_solver| |].
    - intros it [Hx Hi]%list_elem_of_filter. rewrite T6, Hit in Hi. done.
    - destruct S1 as [A1 A2 A3 A4]. split; [done..|]. intros it [Hi|Hi]%elem_of_app; [auto|].
      rewrite Forall_forall in Hfr. rewrite (Hfr it Hi), E1. simpl. by rewrite lookup_insert_eq. }
  assert (jobs_ok (dom (sources db2)) (jobs db2)) as Hj by (rewrite Hs; simpl; by rewrite T2).
  assert (sources db' = sources db2 ∧ snapshots db' = snapshots db2 ∧ items db' = items db2 ∧
    pool_revision db' = pool_revision db2 ∧ withdrawal_revision db' = withdrawal_revision db2 ∧
    jobs_ok (dom (sources db2)) (jobs db')) as (Es & Ess & Ei & Ep & Ew & Hj').
  { destruct (ri_job_id i) as [job|]; [|by rewrite H3].
    apply complete_Ok in H3 as (r & t & Hjr & Ho & _ & ->). split_and!; [done..|]. simpl.
    apply jobs_ok_insert; [|done|done]. simpl. by eapply jobs_source. }
  split; [by rewrite Es|by rewrite Es, Ess, Ei|done|by rewrite Es, Hs|].
  rewrite Ep, Ew. simpl. rewrite T4, T5. lia.
Qed.

(** Every write preserves the invariant. *)
Lemma apply_op_ok o db : db_ok db → db_ok (apply_op o db).
Proof.
  intros H. destruct o; simpl.
  - unfold create_source_row. destruct (result_bind _ _) as [db'|] eqn:E; [|done].
    do 3 apply result_bind_Ok in E as (? & _ & E). case_hyp E; [done|]. case_hyp E; [done|].
    apply Ok_inj in E as <-. apply ok_insert_source; [|done]. by apply name_taken_false.
  - unfold update_source_row. destruct (result_bind _ _) as [db'|] eqn:E; [|done].
    do 4 apply result_bind_Ok in E as (? & _ & E). case_hyp E; [done|]. apply Ok_inj in E as <-.
    apply ok_bump, ok_invalidate, ok_insert_source; [|done]. by apply name_taken_false.
  - unfold apply_config. destruct (result_bind _ _) as [[s db']|] eqn:E; [|done].
    do 3 apply result_bind_Ok in E as (? & _ & E). case_hyp E; [done|].
    apply result_bind_Ok in E as (? & _ & E). injection E as <- <-.
    apply ok_bump, ok_invalidate, ok_insert_source; [|done]. by apply name_taken_false.
  - by apply ok_delete_source.
  - unfold disable_after_failure. simpl. destruct (sources db !! id) as [r|] eqn:Hid.
    2:{ rewrite alter_id by (intros ? ?; congruence). by destruct db, H. }
    rewrite (alter_insert_lookup _ _ r) by done.
    apply ok_insert_source; [|done]. intros i r' Hi. destruct (_ && _); simpl; intros; by eapply (ok_names _ H).
  - unfold create_job. destruct (db_ts _); [|done]. case_bool_decide; [done|].
    destruct (_ && _) eqn:Hl; [done|]. destruct (bool_decide (sources db !! _ = None)) eqn:Hs; [done|].
    apply bool_decide_eq_false in Hs. apply ok_with_jobs; [|done].
    apply jobs_ok_insert; [by apply elem_of_dom, not_eq_None_Some| |apply H].
    simpl. intros Hr. rewrite Hr in Hl. simpl in Hl. by apply lease_held_false.
  - unfold mark_running. destruct (jobs db !! id) as [r|] eqn:Hid; [|done]. case_bool_decide; [|done].
    destruct (lease_held _ _ _) eqn:Hl; [done|]. apply ok_with_jobs; [|done].
    apply jobs_ok_insert; [exact (jobs_source _ _ (ok_jobs _ H) _ _ Hid)| |apply H].
    simpl. intros _. by apply lease_held_false.
  - unfold update_phase. destruct (db_ts now); [|done]. apply ok_with_jobs; [|done]. by apply jobs_ok_alter; [..|apply H].
  - unfold mark_completed. destruct (db_ts now); [|done]. apply ok_with_jobs; [|done].
    apply jobs_ok_alter; [..|apply H]; intros r; by destruct (is_running r).
  - unfold mark_failed. destruct (db_ts now); [|done]. apply ok_with_jobs; [|done].
    apply jobs_ok_alter; [..|apply H]; intros r; by destruct (is_open r).
  - unfold mark_cancelled. destruct (db_ts now); [|done]. apply ok_with_jobs; [|done].
    apply jobs_ok_alter; [..|apply H]; intros r; by destruct (is_open r).
  - apply ok_with_jobs; [|done]. eapply jobs_ok_subset; [apply delete_subseteq|done|apply H].
  - unfold recover_crashed_jobs. destruct (db_ts now); [|done]. apply ok_with_jobs; [|done].
    apply jobs_ok_fmap; [..|apply H]; intros r; by destruct (is_open r).
  - unfold recover_stale_jobs. destruct (db_ts cutoff); [|done]. destruct (db_ts now); [|done].
    apply ok_with_jobs; [|done]. apply jobs_ok_fmap; [..|apply H]; intros r; by destruct (is_stale _ r).
  - unfold create_snapshot. destruct (result_bind _ _) as [db'|] eqn:E; [|done].
    apply result_bind_Ok in E as (? & _ & E). eapply ok_insert_snapshot; [done|]. by apply ok_deactivate.
  - unfold touch_fetched_at. destruct (result_bind _ _) as [db'|] eqn:E; [|done].
    apply result_bind_Ok in E as (ts & _ & (db1 & Hc & <-%Ok_inj)%result_bind_Ok).
    eapply ok_complete in Hc; [|done]. apply ok_with_snapshots; [|done].
    apply snaps_ok_fmap; [..|apply Hc]; intros r; by destruct (is_active_for src r).
  - unfold reconcile. destruct (reconcile_tx _ _ _ _ _) as [[res db']|] eqn:E; [|done]. by eapply ok_reconcile.
  - unfold import_nodes. pose proof (import_fold_ok identity_json key now l db (mkImport 0 0 0 [])) as Hi.
    destruct (foldl _ _ _) as [db' res]. simpl in *. destruct Hi as (I0 & I1 & I2 & I3 & I4 & I5 & I6 & I7).
    apply ok_bump. destruct H as [H1 H2 H3 H4 H5]. split; rewrite ?I1, ?I2, ?I3, ?I4, ?I6, ?I7; try done. by apply I0.
  - by apply ok_bump.
Qed.

Lemma run_ops_ok l db : db_ok db → db_ok (run_ops l db).
Proof. intros H. unfold run_ops. apply (foldl_preserve db_ok); [|done]. intros. by apply apply_op_ok. Qed.

End steps.

End SourceSteps.
