(* ===== verification/Refresh.v ===== *)
(** * Source refresh ([crates/deve-sub-application/src/source/refresh.rs],
      [scheduler.rs])

    The runner is a program over the effects it performs: every await point is
    a [Call] whose answer comes from the environment.  [perform] gives the
    answers a database and an environment allow: a storage call either runs
    its operation of [SourceDb] or [Reconcile], or fails with a storage error
    and leaves the tables alone; the fetcher, the region lookups, the clock,
    fresh identifiers and the cancel flag answer anything.  [runs] interleaves
    the calls with arbitrary writes of other tasks. *)

From stdpp Require Import relations.
From S2P Require Import Prelude Kernel Node NodePool Text UrlText Crypto UriParse Source SourceParse SourceDb.
From S2P Require Import Reconcile SourceInv PoolInv SourceSteps.
Import Text UrlText Crypto Source SourceParse SourceDb Reconcile SourceInv PoolInv SourceSteps.

Module Refresh.

(** ** Effects *)

Inductive Eff :=
  | LoadCancel
  | Now
  | FreshId
  | FreshNodes
  | FindSource (id : N)
  | FindActive (src : N)
  | CreateJob (job : SourceRefreshJob)
  | MarkRunning (id : N)
  | DeleteJob (id : N)
  | UpdatePhase (id : N) (p : RefreshPhase)
  | MarkCancelled (id : N)
  | MarkFailed (id : N) (message : string)
  | Disable (src job : N)
  | FetchUrl (url : string) (etag : option string)
  | LookupRegions
  | Touch (src job : N) (now : Z)
  | Publish (i : ReconcileInput).

(** The type of an answer. *)
Definition resp (e : Eff) : Type :=
  match e with
  | LoadCancel => bool
  | Now => Z
  | FreshId => N
  | FreshNodes => Draw
  | FindSource _ => Result SourceError (option Source)
  | FindActive _ => Result SourceError (option SourceSnapshot)
  | FetchUrl _ _ => Result FetchError FetchResult
  | LookupRegions => string → RegionDetection
  | Publish _ => Result SourceError ReconcileResult
  | _ => Result SourceError ()
  end.

Inductive Prog (A : Type) : Type :=
  | Ret (a : A)
  | Call (e : Eff) (k : resp e → Prog A).
Arguments Ret {A} a.
Arguments Call {A} e k.

Fixpoint bind {A B} (p : Prog A) (f : A → Prog B) : Prog B :=
  match p with
  | Ret a => f a
  | Call e k => Call e (λ r, bind (k r) f)
  end.

Notation "x <- 'call' e ;; p" := (Call e (λ x, p))
  (at level 100, e at next level, p at level 200, right associativity) : ds_scope.

(** [r.map_err(f)?] inside a program. *)
Definition try {E A B} (f : E → SourceAppError) (r : Result E A) (k : A → Prog (Result SourceAppError B)) :
    Prog (Result SourceAppError B) :=
  match r with
  | Ok a => k a
  | Err e => Ret (Err (f e))
  end.

Record RefreshResult := mkRefreshResult {
  rr_snapshot : SourceSnapshot;
  rr_reconcile : ReconcileResult;
  rr_not_modified : bool
}.

Section refresh.
Context `{L : UrlLib} `{C : CryptoLib}.
Variable identity_json : NodeIdentity → string.
Variable key : option string.
Variable containers : Containers.
Variable chain_text : Chain.Chain.NodeChainError → string.

(** ** Starting a job ([start_refresh_job]) *)

Definition start_refresh_job (src : N) : Prog (Result SourceAppError N) :=
  found <- call FindSource src ;;
  try map_source_error found (λ found,
  match found with
  | None => Ret (Err AppSourceNotFound)
  | Some _ =>
      id <- call FreshId ;;
      now <- call Now ;;
      let job := mkJob id src JPending Idle now None None reconcile_default false in
      created <- call CreateJob job ;;
      try map_lease_error created (λ _,
      started <- call MarkRunning id ;;
      match started with
      | Ok _ => Ret (Ok id)
      | Err e =>
          match e with
          | RefreshInProgress _ =>
              _ <- call DeleteJob id ;;
              Ret (Err (map_lease_error e))
          | _ => Ret (Err (map_lease_error e))
          end
      end)
  end).

(** ** Running a job ([execute_refresh_inner]) *)

(** [disable_on_failure], then the error. *)
Definition fail_and_disable (src job : N) (e : SourceAppError) : Prog (Result SourceAppError RefreshResult) :=
  _ <- call Disable src job ;;
  Ret (Err e).

(** From the reconciling phase on. *)
Definition publish_phase (job src : N) (active : option SourceSnapshot) (resp_etag : option string)
    (entries : list ReconcileEntry) : Prog (Result SourceAppError RefreshResult) :=
  r <- call UpdatePhase job Reconciling ;;
  try AppSource r (λ _,
  let new_version := match active with Some s => (sn_version s + 1)%N | None => 1%N end in
  id <- call FreshId ;;
  now <- call Now ;;
  let snapshot := mkSnapshot id src new_version now resp_etag (N.of_nat (valid_count entries)) true in
  r <- call Publish (mkInput src (Some job) snapshot entries) ;;
  try map_source_error r (λ reconcile, Ret (Ok (mkRefreshResult snapshot reconcile false)))).

(** The enriching phase: protocol filter, region lookups, region filter, and
    the second zero-node guard. *)
Definition enrich_phase (job src : N) (source : Source) (active : option SourceSnapshot)
    (resp_etag : option string) (entries : list ReconcileEntry) : Prog (Result SourceAppError RefreshResult) :=
  r <- call UpdatePhase job Enriching ;;
  try AppSource r (λ _,
  let entries := match s_filter_rules source with
                 | Some rules => apply_protocol_filter rules entries | None => entries end in
  detect <- call LookupRegions ;;
  let entries := enrich_regions detect entries in
  let entries := match s_filter_rules source with
                 | Some rules => apply_region_filter rules entries | None => entries end in
  if Nat.eqb (valid_count entries) 0 && bool_decide (is_Some active) then Ret (Err ZeroNodes)
  else
    c <- call LoadCancel ;;
    if (c : bool) then Ret (Err Cancelled) else publish_phase job src active resp_etag entries).

(** The parsing phase and the first zero-node guard. *)
Definition parse_phase (job src : N) (source : Source) (active : option SourceSnapshot)
    (body : string) (resp_etag content_type : option string) : Prog (Result SourceAppError RefreshResult) :=
  r <- call UpdatePhase job Parsing ;;
  try AppSource r (λ _,
  draw <- call FreshNodes ;;
  match parse_content containers draw (s_source_type source) content_type body with
  | Err e => fail_and_disable (s_id source) job (AppParse e)
  | Ok entries =>
      c <- call LoadCancel ;;
      if (c : bool) then Ret (Err Cancelled)
      else if Nat.eqb (valid_count entries) 0 && bool_decide (is_Some active) then Ret (Err ZeroNodes)
      else enrich_phase job src source active resp_etag entries
  end).

(** The 304 answer: only the active snapshot's time advances. *)
Definition not_modified_phase (job src : N) (active : option SourceSnapshot) :
    Prog (Result SourceAppError RefreshResult) :=
  match active with
  | None => Ret (Err (AppSource (Storage "server returned 304 but no active snapshot exists")))
  | Some snapshot =>
      now <- call Now ;;
      r <- call Touch src job now ;;
      try AppSource r (λ _, Ret (Ok (mkRefreshResult snapshot reconcile_default true)))
  end.

Definition execute_refresh_inner (job src : N) : Prog (Result SourceAppError RefreshResult) :=
  c <- call LoadCancel ;;
  if (c : bool) then Ret (Err Cancelled) else
  found <- call FindSource src ;;
  try map_source_error found (λ found,
  match found with
  | None => Ret (Err AppSourceNotFound)
  | Some source =>
      active <- call FindActive src ;;
      try map_source_error active (λ active,
      r <- call UpdatePhase job Fetching ;;
      try AppSource r (λ _,
      fetched <- call FetchUrl (s_url source) (match active with Some s => sn_etag s | None => None end) ;;
      match fetched with
      | Err e => fail_and_disable (s_id source) job (AppFetch e)
      | Ok fetch =>
          c <- call LoadCancel ;;
          if (c : bool) then Ret (Err Cancelled) else
          match fetch with
          | NotModified => not_modified_phase job src active
          | FetchOk body etag content_type => parse_phase job src source active body etag content_type
          end
      end))
  end).

(** [execute_refresh_job] *)
Definition execute_refresh_job (job src : N) : Prog (Result SourceAppError RefreshResult) :=
  bind (execute_refresh_inner job src) (λ result,
  match result with
  | Ok _ => Ret result
  | Err Cancelled => _ <- call MarkCancelled job ;; Ret result
  | Err e => _ <- call MarkFailed job (app_error_display chain_text e) ;; Ret result
  end).

(** ** Answers *)

(** A storage call that ran, or failed before writing. *)
Definition storage {A} (op : Db → Result SourceError A * Db) (db : Db) (r : Result SourceError A) (db' : Db) : Prop :=
  (r, db') = op db ∨ (∃ m, r = Err (Storage m)) ∧ db' = db.

Definition reading {A} (op : Db → Result SourceError A) : Db → Result SourceError A * Db := λ db, (op db, db).

Definition perform (e : Eff) (db : Db) : resp e → Db → Prop :=
  match e return resp e → Db → Prop with
  | LoadCancel | Now | FreshId | FreshNodes | LookupRegions | FetchUrl _ _ => λ _ db', db' = db
  | FindSource id => storage (reading (find_source key id)) db
  | FindActive src => storage (reading (find_active src)) db
  | CreateJob job => storage (create_job job) db
  | MarkRunning id => storage (mark_running id) db
  | DeleteJob id => storage (delete_job id) db
  | UpdatePhase id p => λ r db', ∃ now, storage (update_phase now id p) db r db'
  | MarkCancelled id => λ r db', ∃ now, storage (mark_cancelled now id) db r db'
  | MarkFailed id m => λ r db', ∃ now, storage (mark_failed now id m) db r db'
  | Disable src job => storage (disable_after_failure src job) db
  | Touch src job now => storage (touch_fetched_at src job now) db
  | Publish i => λ r db', ∃ now, storage (reconcile identity_json key now i) db r db'
  end.

(** ** Executions

    What a task did: its calls with their answers and the tables around them. *)

Record Event := mkEvent { ev_eff : Eff; ev_resp : resp ev_eff; ev_before : Db; ev_after : Db }.

(** A write of some other task. *)
Definition interferes (db db' : Db) : Prop := ∃ o, db' = apply_op identity_json key o db.

Fixpoint runs {A} (p : Prog A) (db : Db) (tr : list Event) (a : A) (db' : Db) : Prop :=
  match p with
  | Ret x => tr = [] ∧ a = x ∧ rtc interferes db db'
  | Call e k =>
      match tr with
      | [] => False
      | ev :: tr =>
          rtc interferes db (ev_before ev) ∧
          ∃ r, ev = mkEvent e r (ev_before ev) (ev_after ev) ∧ perform e (ev_before ev) r (ev_after ev) ∧
            runs (k r) (ev_after ev) tr a db'
      end
  end.

(** ** A deterministic run

    The environment of a run without storage failures or interference: the
    answers of the ports, and the cancel flag at each poll. *)

Record Env := mkEnv {
  env_cancel : nat → bool;
  env_now : Z;
  env_id : N;
  env_draw : Draw;
  env_fetch : string → option string → Result FetchError FetchResult;
  env_regions : string → RegionDetection
}.

Definition answer (env : Env) (polls : nat) (e : Eff) (db : Db) : resp e * Db :=
  match e return resp e * Db with
  | LoadCancel => (env_cancel env polls, db)
  | Now => (env_now env, db)
  | FreshId => (env_id env, db)
  | FreshNodes => (env_draw env, db)
  | LookupRegions => (env_regions env, db)
  | FetchUrl url etag => (env_fetch env url etag, db)
  | FindSource id => (find_source key id db, db)
  | FindActive src => (find_active src db, db)
  | CreateJob job => create_job job db
  | MarkRunning id => mark_running id db
  | DeleteJob id => delete_job id db
  | UpdatePhase id p => update_phase (env_now env) id p db
  | MarkCancelled id => mark_cancelled (env_now env) id db
  | MarkFailed id m => mark_failed (env_now env) id m db
  | Disable src job => disable_after_failure src job db
  | Touch src job now => touch_fetched_at src job now db
  | Publish i => reconcile identity_json key (env_now env) i db
  end.

Definition is_poll (e : Eff) : bool := match e with LoadCancel => true | _ => false end.

Fixpoint exec {A} (env : Env) (p : Prog A) (polls : nat) (db : Db) : A * Db :=
  match p with
  | Ret a => (a, db)
  | Call e k =>
      let '(r, db') := answer env polls e db in
      exec env (k r) (if is_poll e then S polls else polls) db'
  end.

(** The environment's answers are among those allowed. *)
Lemma answer_performs env polls e db : perform e db (answer env polls e db).1 (answer env polls e db).2.
Proof.
  destruct e; simpl; try done; try (by left); try (exists (env_now env)); left; by rewrite <-surjective_pairing.
Qed.

(** The calls of that run. *)
Fixpoint trace {A} (env : Env) (p : Prog A) (polls : nat) (db : Db) : list Event :=
  match p with
  | Ret _ => []
  | Call e k =>
      let '(r, db') := answer env polls e db in
      mkEvent e r db db' :: trace env (k r) (if is_poll e then S polls else polls) db'
  end.

Lemma exec_runs {A} env (p : Prog A) polls db :
  runs p db (trace env p polls db) (exec env p polls db).1 (exec env p polls db).2.
Proof.
  revert polls db. induction p as [a|e k IH]; intros polls db; simpl; [done|].
  pose proof (answer_performs env polls e db) as Hp. destruct (answer env polls e db) as [r db1]. simpl in Hp.
  split; [done|]. by exists r.
Qed.

(** ** The scheduler ([scheduler.rs]) *)

(** [DEFAULT_LEASE_TIMEOUT_SECS] *)
Definition default_lease_timeout_secs : N := 600.

(** [reclaim_stale_leases] *)
Definition reclaim_stale_leases (now : Z) (lease_timeout_secs : N) (db : Db) : Result SourceError N * Db :=
  recover_stale_jobs now (now - Z.of_N (N.min lease_timeout_secs i64_max) * 1000000000)
    "lease timed out (scheduler stale-lease sweep)" db.

(** The due test of [collect_due_sources]. *)
Definition is_due (now : Z) (snapshot : option SourceSnapshot) (s : Source) : bool :=
  match snapshot with
  | Some sn => N.leb (s_update_interval_secs s) (Z.to_N (Z.max (Z.quot (now - sn_fetched_at sn) 1000000000) 0))
  | None => true
  end.

Definition is_candidate (s : Source) : bool := s_auto_update s && s_enabled s.

(** The listing loop; [stopping] is the shutdown flag at each page.  [None]
    is an exhausted fuel. *)
Fixpoint collect_candidates (fuel : nat) (stopping : nat → bool) (page : nat) (cursor : option N)
    (acc : list Source) (db : Db) : option (option (list Source)) :=
  match fuel with
  | O => None
  | S fuel =>
      if stopping page then Some None
      else match list_sources key cursor 100 db with
           | Err _ => Some None
           | Ok l =>
               match last l with
               | None => Some (Some acc)
               | Some s =>
                   collect_candidates fuel stopping (S page) (Some (s_id s))
                     (acc ++ filter (λ s, is_candidate s = true) l) db
               end
           end
  end.

(** [collect_due_sources]; a page holds at least one source, so one page per
    source and the empty one are enough. *)
Definition collect_due_sources (now : Z) (stopping : nat → bool) (db : Db) : option (list N) :=
  match collect_candidates (S (size (sources db))) stopping 0 None [] db with
  | None => None
  | Some None => Some []
  | Some (Some candidates) =>
      if bool_decide (candidates = []) || stopping (S (size (sources db))) then Some []
      else match find_active_for_sources (s_id <$> candidates) db with
           | Err _ => Some []
           | Ok snapshots =>
               Some (s_id <$> filter (λ s, is_due now (snapshots !! s_id s) s = true) candidates)
           end
  end.

(** One refresh of a tick: the job lifecycle of a due source. *)
Definition refresh_one (src : N) : Prog (Result SourceAppError RefreshResult) :=
  bind (start_refresh_job src) (λ started,
  match started with
  | Ok job => execute_refresh_job job src
  | Err e => Ret (Err e)
  end).

(** ** Cancellation ([apps/server/src/source_refresh.rs]) *)

Inductive CancelOutcome := CancelInternal | JobNotFound | NotCancelled | CancelUnavailable | Signalled.

(** [cancel_refresh_job]: [registered] are the jobs with a live flag. *)
Definition cancel_refresh_job (registered : gset N) (id : N) (db : Db) : CancelOutcome :=
  match find_job id db with
  | Err _ => CancelInternal
  | Ok None => JobNotFound
  | Ok (Some job) =>
      if is_terminal (j_status job) then NotCancelled
      else if bool_decide (id ∈ registered) then Signalled else CancelUnavailable
  end.

End refresh.

End Refresh.
