(* ===== verification/RefreshSafety.v ===== *)
(** * Refresh jobs: the calls of a run, and its schedule

    [RefreshSafety]: what a run publishes and when.  [RefreshSchedule]: recovery and
    the jobs a scheduler starts. *)

(** * What a refresh may do

    Every execution of the runner, under arbitrary interference and storage
    failures: it publishes at most once, only while its job holds the lease,
    exactly when it reports success, never after a cancellation was seen and
    never an empty list over an existing snapshot; and its job ends. *)

From stdpp Require Import relations.
From S2P Require Import Prelude Kernel Node NodePool Text UrlText Crypto UriParse Source SourceParse SourceDb.
From S2P Require Import Reconcile SourceInv PoolInv SourceSteps Refresh.
Import Text UrlText Crypto Source SourceParse SourceDb Reconcile SourceInv PoolInv SourceSteps Refresh.

Module RefreshSafety.

(** ** Observations on events *)

(** The call committed new content or a new fetch time. *)
Definition publishes (ev : Event) : bool :=
  match ev_eff ev as e return resp e → bool with
  | Publish _ => λ r, is_ok r
  | Touch _ _ _ => λ r, is_ok r
  | _ => λ _, false
  end (ev_resp ev).

(** The call read a raised cancel flag. *)
Definition saw_cancel (ev : Event) : bool :=
  match ev_eff ev as e return resp e → bool with
  | LoadCancel => λ r, r
  | _ => λ _, false
  end (ev_resp ev).

(** A publication of this job over the snapshot [active] read earlier: a
    non-empty list, or the first list of the source. *)
Definition publication_of (job src : N) (active : option SourceSnapshot) (e : Eff) : Prop :=
  match e with
  | Publish i => ri_job_id i = Some job ∧ ri_source_id i = src ∧
      sn_version (ri_snapshot i) = match active with Some s => (sn_version s + 1)%N | None => 1%N end ∧
      (is_Some active → 0 < valid_count (ri_entries i))
  | Touch s j _ => s = src ∧ j = job ∧ is_Some active
  | _ => False
  end.

Definition quiet (ev : Event) : Prop := publishes ev = false ∧ saw_cancel ev = false.

(** The shape of an execution: calls that publish nothing, then the
    publication that success reports; or an error with no publication, which
    is [Cancelled] exactly when a raised flag was read. *)
Definition shape (job src : N) (active : option SourceSnapshot) (tr : list Event)
    (a : Result SourceAppError RefreshResult) : Prop :=
  match a with
  | Ok _ => ∃ pre ev, tr = pre ++ [ev] ∧ Forall quiet pre ∧ publishes ev = true ∧ saw_cancel ev = false ∧
      publication_of job src active (ev_eff ev)
  | Err e => Forall (λ ev, publishes ev = false) tr ∧ (e = Cancelled ↔ Exists (λ ev, saw_cancel ev = true) tr)
  end.

Lemma shape_cons job src active ev tr a : quiet ev → shape job src active tr a → shape job src active (ev :: tr) a.
Proof.
  intros [Hp Hc]. destruct a as [r|e]; simpl.
  - intros (pre & ev' & -> & Hq & ?). exists (ev :: pre), ev'. split_and!; [done|by constructor|naive_solver..].
  - intros [Hq He]. split; [by constructor|]. rewrite He, Exists_cons, Hc. naive_solver.
Qed.

Lemma shape_err job src active e : e ≠ Cancelled → shape job src active [] (Err e).
Proof. intros He. split; [constructor|]. rewrite Exists_nil. naive_solver. Qed.

Lemma shape_cancel job src active ev : publishes ev = false → saw_cancel ev = true →
  shape job src active [ev] (Err Cancelled).
Proof. intros Hp Hc. split; [by repeat constructor|]. split; [|done]. intros _. by constructor. Qed.

Lemma shape_ok job src active ev r : publishes ev = true → saw_cancel ev = false →
  publication_of job src active (ev_eff ev) → shape job src active [ev] (Ok r).
Proof. intros Hp Hc Hi. exists [], ev. split_and!; [done|constructor|done..]. Qed.

Section safety.
Context `{L : UrlLib} `{C : CryptoLib}.
Variable identity_json : NodeIdentity → string.
Variable key : option string.
Variable containers : Containers.
Variable chain_text : Chain.Chain.NodeChainError → string.
Abbreviation runs := (Refresh.runs identity_json key).
Abbreviation perform := (Refresh.perform identity_json key).

Lemma runs_call {A} e (k : resp e → Prog A) db tr a db' :
  runs (Call e k) db tr a db' ↔ ∃ r b c tr', tr = mkEvent e r b c :: tr' ∧
    rtc (interferes identity_json key) db b ∧ perform e b r c ∧ runs (k r) c tr' a db'.
Proof.
  simpl. destruct tr as [|ev tr]; [naive_solver|]. split.
  - intros (H1 & r & -> & H2 & H3). exists r, (ev_before ev), (ev_after ev), tr. done.
  - intros (r & b & c & tr' & [= -> ->] & H1 & H2 & H3). split; [done|]. by exists r.
Qed.

Lemma runs_ret {A} (x : A) db tr a db' :
  runs (Ret x) db tr a db' ↔ tr = [] ∧ a = x ∧ rtc (interferes identity_json key) db db'.
Proof. done. Qed.

Lemma map_source_error_cancelled e : map_source_error e ≠ Cancelled.
Proof. by destruct e. Qed.

(** A call that publishes nothing and saw no cancellation; a program that stopped. *)
Ltac quiet_step H r :=
  apply runs_call in H as (r & ? & ? & ? & -> & _ & _ & H); apply shape_cons; [done|].
Ltac stop H := apply runs_ret in H as (-> & -> & _).

Lemma publish_phase_shape job src active etag entries db tr a db' :
  (is_Some active → 0 < valid_count entries) →
  runs (publish_phase job src active etag entries) db tr a db' → shape job src active tr a.
Proof.
  intros Hv H. unfold publish_phase in H. quiet_step H r.
  destruct r as [[]|e]; [|stop H; by apply shape_err].
  cbn [try] in H. quiet_step H nid. quiet_step H nw.
  apply runs_call in H as (r & ? & ? & ? & -> & _ & _ & H). destruct r as [res|e]; simpl in H; stop H.
  - by apply shape_ok.
  - apply shape_cons; [done|]. apply shape_err, map_source_error_cancelled.
Qed.

Lemma zero_guard (n : nat) (active : option SourceSnapshot) :
  Nat.eqb n 0 && bool_decide (is_Some active) = false → is_Some active → 0 < n.
Proof.
  intros H Ha. rewrite bool_decide_eq_true_2, andb_true_r in H by done. apply Nat.eqb_neq in H. lia.
Qed.

Lemma enrich_phase_shape job src source active etag entries db tr a db' :
  runs (enrich_phase job src source active etag entries) db tr a db' → shape job src active tr a.
Proof.
  intros H. unfold enrich_phase in H. quiet_step H r.
  destruct r as [[]|e]; [|stop H; by apply shape_err].
  cbn [try] in H. quiet_step H detect. destruct (_ && _) eqn:Hz; [stop H; by apply shape_err|].
  apply runs_call in H as (c & ? & ? & ? & -> & _ & _ & H). destruct c.
  - stop H. by apply shape_cancel.
  - apply shape_cons; [done|]. eapply publish_phase_shape; [|done]. by apply zero_guard.
Qed.

Lemma fail_and_disable_shape job src active s e db tr a db' :
  e ≠ Cancelled → runs (fail_and_disable s job e) db tr a db' → shape job src active tr a.
Proof. intros He H. unfold fail_and_disable in H. quiet_step H r. stop H. by apply shape_err. Qed.

Lemma parse_phase_shape job src source active body etag ct db tr a db' :
  runs (parse_phase containers job src source active body etag ct) db tr a db' → shape job src active tr a.
Proof.
  intros H. unfold parse_phase in H. quiet_step H r.
  destruct r as [[]|e]; [|stop H; by apply shape_err].
  cbn [try] in H. quiet_step H draw. destruct (parse_content _ _ _ _ _) as [entries|e].
  2:{ eapply fail_and_disable_shape; [|done]. done. }
  apply runs_call in H as (c & ? & ? & ? & -> & _ & _ & H). destruct c.
  - stop H. by apply shape_cancel.
  - apply shape_cons; [done|]. destruct (_ && _); [stop H; by apply shape_err|].
    by eapply enrich_phase_shape.
Qed.

Lemma not_modified_phase_shape job src active db tr a db' :
  runs (not_modified_phase job src active) db tr a db' → shape job src active tr a.
Proof.
  intros H. unfold not_modified_phase in H. destruct active as [s|]; [|stop H; by apply shape_err].
  quiet_step H nw. apply runs_call in H as (r & ? & ? & ? & -> & _ & _ & H). destruct r as [[]|e]; simpl in H; stop H.
  - apply shape_ok; [done..|]. simpl. eauto.
  - apply shape_cons; [done|]. by apply shape_err.
Qed.

(** The read of the active snapshot the runner decides by. *)
Definition read_active (src : N) (active : option SourceSnapshot) (ev : Event) : Prop :=
  match ev_eff ev as e return resp e → Prop with
  | FindActive s => λ r, s = src ∧ r = Ok active
  | _ => λ _, False
  end (ev_resp ev).

Lemma execute_refresh_inner_shape job src db tr a db' :
  runs (execute_refresh_inner containers job src) db tr a db' →
  ∃ active, shape job src active tr a ∧ (is_ok a = true → Exists (read_active src active) tr).
Proof.
  intros H. unfold execute_refresh_inner in H.
  apply runs_call in H as (c & ? & ? & ? & -> & _ & _ & H). destruct c.
  { stop H. exists None. split; [by apply shape_cancel|done]. }
  apply runs_call in H as (found & ? & ? & ? & -> & _ & _ & H).
  destruct found as [[source|]|e]; [|stop H; exists None; by split; [repeat (apply shape_cons; [done|]); apply shape_err|]|
    stop H; exists None; by split; [repeat (apply shape_cons; [done|]); apply shape_err, map_source_error_cancelled|]].
  cbn [try] in H. apply runs_call in H as (active & ? & ? & ? & -> & _ & _ & H).
  destruct active as [active|e]; [|stop H; exists None; by split; [repeat (apply shape_cons; [done|]);
    apply shape_err, map_source_error_cancelled|]].
  exists active. split; [|intros _; do 2 right; by left]. repeat (apply shape_cons; [done|]). cbn [try] in H. quiet_step H r.
  destruct r as [[]|e]; [|stop H; by apply shape_err]. cbn [try] in H. quiet_step H fetched.
  destruct fetched as [fetch|e]; [|by eapply fail_and_disable_shape; [|done]].
  apply runs_call in H as (c & ? & ? & ? & -> & _ & _ & H). destruct c; [stop H; by apply shape_cancel|].
  apply shape_cons; [done|]. destruct fetch; [by eapply parse_phase_shape|by eapply not_modified_phase_shape].
Qed.

(** A sequence of programs is a sequence of executions. *)
Lemma runs_bind {A B} (p : Prog A) (f : A → Prog B) db tr b db' :
  runs (bind p f) db tr b db' → ∃ t1 t2 a db1, tr = t1 ++ t2 ∧ runs p db t1 a db1 ∧ runs (f a) db1 t2 b db'.
Proof.
  revert db tr. induction p as [x|e k IH]; intros db tr.
  - intros H. exists [], tr, x, db. split_and!; [done|simpl; split_and!; done|done].
  - cbn [bind]. intros (r & b0 & c & tr' & -> & H1 & H2 & H3)%runs_call.
    apply IH in H3 as (t1 & t2 & a & db1 & -> & H4 & H5).
    exists (mkEvent e r b0 c :: t1), t2, a, db1. split_and!; [done| |done].
    apply runs_call. exists r, b0, c, t1. done.
Qed.

(** The terminal write after an error. *)
Definition terminal_write (job : N) (ev : Event) : Prop :=
  ev_eff ev = MarkCancelled job ∨ ∃ m, ev_eff ev = MarkFailed job m.

Lemma execute_refresh_job_shape job src db tr a db' :
  runs (execute_refresh_job containers chain_text job src) db tr a db' →
  ∃ active t1 t2, tr = t1 ++ t2 ∧ shape job src active t1 a ∧
    (is_ok a = true → Exists (read_active src active) t1) ∧
    match a with Ok _ => t2 = [] | Err _ => ∃ ev, t2 = [ev] ∧ terminal_write job ev end.
Proof.
  intros (t1 & t2 & a1 & db1 & -> & H1 & H2)%runs_bind.
  destruct (execute_refresh_inner_shape _ _ _ _ _ _ H1) as (active & Hs & Ha). exists active, t1, t2.
  destruct a1 as [r|e]; [by stop H2|].
  assert (a = Err e ∧ ∃ ev, t2 = [ev] ∧ terminal_write job ev) as [-> He]; [|done].
  destruct e; apply runs_call in H2 as (w & b & c & t & -> & _ & _ & H2); stop H2;
    (split; [done|]); eexists; (split; [done|]); unfold terminal_write; simpl; eauto.
Qed.

(** A call is a write of the repositories, or leaves the tables alone; so a
    task is one of the writers others see. *)
Lemma perform_interferes e db r db' : perform e db r db' → rtc (interferes identity_json key) db db'.
Proof.
  assert (∀ A (op : Db → Result SourceError A * Db) o r db', (∀ db, (op db).2 = apply_op identity_json key o db) →
    storage op db r db' → rtc (interferes identity_json key) db db') as Hst.
  { intros A op o r0 d Ho [H|[_ ->]]; [|done]. apply rtc_once. exists o. rewrite <-Ho, <-H. done. }
  assert (∀ A (op : Db → Result SourceError A) r db',
    storage (reading op) db r db' → rtc (interferes identity_json key) db db') as Hrd.
  { intros A op r0 d [[= _ ->]|[_ ->]]; done. }
  destruct e; simpl in *; intros H; try (by subst); try (by eapply Hrd); try (destruct H as [now H]).
  - by apply (Hst _ _ (OCreateJob job) _ _ ltac:(done) H).
  - by apply (Hst _ _ (OMarkRunning id) _ _ ltac:(done) H).
  - by apply (Hst _ _ (ODeleteJob id) _ _ ltac:(done) H).
  - by apply (Hst _ _ (OUpdatePhase now id p) _ _ ltac:(done) H).
  - by apply (Hst _ _ (OMarkCancelled now id) _ _ ltac:(done) H).
  - by apply (Hst _ _ (OMarkFailed now id message) _ _ ltac:(done) H).
  - by apply (Hst _ _ (ODisable src job) _ _ ltac:(done) H).
  - by apply (Hst _ _ (OTouch src job now) _ _ ltac:(done) H).
  - by apply (Hst _ _ (OReconcile now i) _ _ ltac:(done) H).
Qed.

Lemma runs_interferes {A} (p : Prog A) db tr a db' : runs p db tr a db' → rtc (interferes identity_json key) db db'.
Proof.
  revert db tr. induction p as [x|e k IH]; intros db tr; simpl; [tauto|]. destruct tr as [|ev tr]; [done|].
  intros (Hi & r & _ & Hp & Hr). etrans; [exact Hi|]. etrans; [by eapply perform_interferes|by eapply IH].
Qed.

Lemma runs_ok {A} (p : Prog A) db tr a db' : runs p db tr a db' → db_ok db → db_ok db'.
Proof.
  intros H%runs_interferes. induction H as [|x y z [o ->] _ IH]; [done|]. intros Hx. by apply IH, apply_op_ok.
Qed.

(** Every event is an answer the environment may give. *)
Lemma runs_performed {A} (p : Prog A) db tr a db' :
  runs p db tr a db' → Forall (λ ev, perform (ev_eff ev) (ev_before ev) (ev_resp ev) (ev_after ev)) tr.
Proof.
  revert db tr. induction p as [x|e k IH]; intros db tr.
  - intros (-> & _). constructor.
  - intros (r & b & c & tr' & -> & _ & Hp & Hk)%runs_call. constructor; [done|by eapply IH].
Qed.

Definition lease_at (job src : N) (db : Db) : Prop := ∃ r, jobs db !! job = Some r ∧ owns_lease src r = true.
Definition completed_at (job : N) (db : Db) : Prop := ∃ r, jobs db !! job = Some r ∧ jr_status r = JCompleted.

Lemma complete_lease now src job res nm db db' :
  complete now src job res nm db = Ok db' → lease_at job src db ∧ completed_at job db'.
Proof.
  intros (r & t & Hr & Ho & _ & ->)%complete_Ok. split; [by exists r|]. eexists. simpl. by rewrite lookup_insert_eq.
Qed.

Lemma storage_Ok {A} (op : Db → Result SourceError A * Db) db a db' :
  storage op db (Ok a) db' → op db = (Ok a, db').
Proof. intros [H|[[m H] _]]; congruence. Qed.

(** A committed publication held the lease, and completed the job with it. *)
Lemma publication_lease job src active ev :
  perform (ev_eff ev) (ev_before ev) (ev_resp ev) (ev_after ev) → publishes ev = true →
  publication_of job src active (ev_eff ev) →
  lease_at job src (ev_before ev) ∧ completed_at job (ev_after ev).
Proof.
  destruct ev as [e r b c]. destruct e; simpl; try done.
  - destruct r as [[]|]; [|done]. intros Hs%storage_Ok _ (-> & -> & _). unfold touch_fetched_at in Hs.
    destruct (result_bind _ _) as [db'|] eqn:Hr; [|done]. injection Hs as ->.
    apply result_bind_Ok in Hr as (ts & _ & (db1 & Hc & <-%Ok_inj)%result_bind_Ok).
    by apply complete_lease in Hc.
  - destruct r as [res|]; [|done]. intros (now & Hs%storage_Ok) _ (Hj & <- & _). unfold reconcile in Hs.
    destruct (reconcile_tx _ _ _ _ _) as [[res' db']|] eqn:Hr; [|done]. injection Hs as -> ->.
    apply reconcile_tx_jobs in Hr. rewrite Hj in Hr. destruct Hr as (db2 & He & Hc).
    apply complete_lease in Hc as [(r & Hr & Ho) ?]. split; [|done]. exists r. by rewrite <-He.
Qed.

Definition ended_at (job : N) (db : Db) : Prop := ∀ r, jobs db !! job = Some r → is_terminal (jr_status r) = true.

Lemma update_job_open_ended job db f :
  (∀ r, is_terminal (jr_status (f r)) = true) → ended_at job (update_job job is_open f db).
Proof.
  intros Hf r. unfold update_job. simpl. rewrite lookup_alter_eq. intros (r0 & _ & ->)%fmap_Some.
  destruct (is_open r0) eqn:Ho; [apply Hf|]. by apply negb_false_iff in Ho.
Qed.

(** The terminal write answered [Ok]. *)
Definition write_ok (ev : Event) : bool :=
  match ev_eff ev as e return resp e → bool with
  | MarkCancelled _ => λ r, is_ok r
  | MarkFailed _ _ => λ r, is_ok r
  | _ => λ _, true
  end (ev_resp ev).

Lemma terminal_write_ended job ev :
  perform (ev_eff ev) (ev_before ev) (ev_resp ev) (ev_after ev) → terminal_write job ev → write_ok ev = true →
  ended_at job (ev_after ev).
Proof.
  destruct ev as [e r b c]. unfold terminal_write. simpl. intros Hp Hw Ho.
  destruct Hw as [->|[m ->]]; simpl in *; destruct r as [[]|]; try done; destruct Hp as (now & Hs%storage_Ok).
  - unfold mark_cancelled in Hs. destruct (db_ts now); [|done]. injection Hs as <-. by apply update_job_open_ended.
  - unfold mark_failed in Hs. destruct (db_ts now); [|done]. injection Hs as <-. by apply update_job_open_ended.
Qed.

End safety.

End RefreshSafety.

(** * Which sources a tick refreshes

    The paged listing of [Refresh.collect_due_sources] visits every source
    once, and the sources it returns are exactly the due ones. *)

From S2P Require Import Prelude Kernel Node NodePool Text UrlText Crypto UriParse Source SourceParse SourceDb.
From S2P Require Import Reconcile SourceInv Refresh.
Import Text UrlText Crypto Source SourceParse SourceDb Reconcile SourceInv Refresh.

Module RefreshSchedule.

(** ** Pages of a sorted table *)

Definition after (c : option N) (i : N) : bool := match c with Some c => N.ltb c i | None => true end.

Lemma sorted_by_id {A} (m : gmap N A) :
  StronglySorted N.lt ((sort_by (λ a b : N * A, N.compare a.1 b.1) (map_to_list m)).*1).
Proof.
  set (l := sort_by _ _). pose proof (sort_by_sorted (λ a b : N * A, N.compare a.1 b.1) (map_to_list m)) as Hs.
  assert (NoDup (l.*1)) as Hnd by (unfold l; rewrite sort_by_Permutation; apply NoDup_fst_map_to_list).
  fold l in Hs. clearbody l. induction Hs as [|p l Hs IH Hall]; simpl; [constructor|].
  rewrite fmap_cons in Hnd. apply NoDup_cons in Hnd as [Hp Hnd]. constructor; [by apply IH|].
  apply Forall_fmap, Forall_forall. intros q Hq. simpl. rewrite Forall_forall in Hall. specialize (Hall q Hq).
  unfold cmp_le in Hall. assert (p.1 ≠ q.1) by (intros Heq; apply Hp; rewrite Heq; by apply list_elem_of_fmap_2).
  destruct (N.compare_spec p.1 q.1); [lia|done|done].
Qed.

Lemma last_take_elem {A} (l : list A) n x : last (take n l) = Some x → x ∈ l.
Proof.
  intros H. rewrite <-(take_drop n l). apply elem_of_app. left.
  apply last_Some in H as [k ->]. apply elem_of_app. right. by left.
Qed.

(** The rows after the last one of a page are the rest of the table. *)
Lemma page_rest {A} (l : list (N * A)) c n p :
  StronglySorted N.lt (l.*1) →
  let rem := filter (λ kv, after c kv.1 = true) l in
  last (take n rem) = Some p →
  filter (λ kv, after (Some p.1) kv.1 = true) l = drop n rem.
Proof.
  intros Hs rem Hl.
  assert (∀ (l : list (N * A)) n p, StronglySorted N.lt (l.*1) → last (take n l) = Some p →
    filter (λ kv, after (Some p.1) kv.1 = true) l = drop n l) as Hmain.
  { clear. induction l as [|q l IH]; intros n p Hs Hl; [by destruct n|]. destruct n as [|n]; [done|]. simpl in *.
    inversion Hs as [|? ? Hs' Hall]; subst. rewrite last_cons in Hl.
    assert (∀ x, x ∈ l → (q.1 < x.1)%N) as Hlt.
    { intros x Hx. rewrite Forall_fmap, Forall_forall in Hall. by apply Hall. }
    destruct (last (take n l)) as [p'|] eqn:Hp'; simplify_eq.
    - rewrite filter_cons. rewrite decide_False; [by apply IH|]. simpl.
      assert (p ∈ l) as Hp. by (by eapply last_take_elem).
      specialize (Hlt p Hp). unfold after. rewrite (proj2 (N.ltb_ge _ _)) by lia. done.
    - assert (take n l = []) as Ht by (destruct (take n l) using rev_ind; [done|by rewrite last_snoc in Hp']).
      rewrite filter_cons, decide_False by (simpl; by rewrite N.ltb_irrefl).
      destruct n as [|n]; [|destruct l; [done|discriminate Ht]].
      simpl. rewrite drop_0. clear -Hlt. induction l as [|x l IH]; [done|]. rewrite filter_cons, decide_True.
      + f_equal. apply IH. intros y Hy. apply Hlt. by right.
      + simpl. apply N.ltb_lt, Hlt. left. }
  assert (StronglySorted N.lt (rem.*1)) as Hrs.
  { unfold rem. clear -Hs. induction l as [|q l IH]; [constructor|]. inversion Hs as [|? ? Hs' Hall]; subst.
    rewrite filter_cons. case_decide; [|by apply IH]. csimpl. constructor; [by apply IH|].
    rewrite Forall_fmap, Forall_forall in *. intros x [_ Hx]%list_elem_of_filter. by apply Hall. }
  rewrite <-(Hmain rem n p Hrs Hl). unfold rem. symmetry. apply list_filter_filter_l. intros x Hx.
  assert (p ∈ rem) as [Hp _]%list_elem_of_filter. by (by eapply last_take_elem).
  unfold after in *. destruct c as [c|]; [|done]. apply N.ltb_lt in Hx, Hp. apply N.ltb_lt. lia.
Qed.

Lemma sublist_sorted {A} (R : relation A) l k : StronglySorted R k → l `sublist_of` k → StronglySorted R l.
Proof.
  intros Hs Hl. induction Hl as [|x l k Hl IH|x l k Hl IH]; [done| |]; inversion Hs as [|? ? Hs' Hall]; subst; auto.
  constructor; [auto|]. rewrite Forall_forall in *. intros y Hy. by eapply Hall, elem_of_sublist.
Qed.

Lemma fmap_sublist {A B} (f : A → B) l k : l `sublist_of` k → f <$> l `sublist_of` f <$> k.
Proof. induction 1; csimpl; by constructor. Qed.

Section schedule.
Context `{L : UrlLib} `{C : CryptoLib}.
Variable key : option string.

Lemma collect_sources_app l1 l2 r :
  collect_sources key (l1 ++ l2) = Ok r →
  ∃ r1 r2, r = r1 ++ r2 ∧ collect_sources key l1 = Ok r1 ∧ collect_sources key l2 = Ok r2.
Proof.
  revert r. induction l1 as [|kv l1 IH]; intros r; simpl; [intros H; by exists [], r|].
  intros (s & Hs & (ss & H & <-%Ok_inj)%result_bind_Ok)%result_bind_Ok.
  destruct (IH ss H) as (r1 & r2 & -> & -> & ->). exists (s :: r1), r2. rewrite Hs. done.
Qed.

Lemma collect_sources_id id r s : source_to_domain key id r = Ok s → s_id s = id.
Proof.
  unfold source_to_domain. do 4 (intros (? & _ & H)%result_bind_Ok; revert H). by intros [= <-].
Qed.

Lemma collect_sources_ids l r : collect_sources key l = Ok r → s_id <$> r = l.*1.
Proof.
  revert r. induction l as [|kv l IH]; intros r; simpl; [by intros [= <-]|].
  intros (s & Hs & (ss & H & <-%Ok_inj)%result_bind_Ok)%result_bind_Ok.
  csimpl. by rewrite (IH ss H), (collect_sources_id _ _ _ Hs).
Qed.

Lemma last_fmap_ids l r kv : collect_sources key l = Ok r → last l = Some kv → ∃ s, last r = Some s ∧ s_id s = kv.1.
Proof.
  intros H Hl. pose proof (f_equal last (collect_sources_ids _ _ H)) as He. rewrite !fmap_last, Hl in He.
  destruct (last r) as [s|]; [|done]. injection He as He. eauto.
Qed.

Lemma collect_candidates_spec fuel page c acc db r :
  collect_sources key (filter (λ kv, after c kv.1 = true) (sources_by_id db)) = Ok r →
  length (filter (λ kv, after c kv.1 = true) (sources_by_id db)) < fuel →
  collect_candidates key fuel (λ _, false) page c acc db = Some (Some (acc ++ filter (λ s, is_candidate s = true) r)).
Proof.
  revert page c acc r. induction fuel as [|fuel IH]; intros page c acc r Hr Hf; [lia|]. cbn [collect_candidates].
  unfold list_sources. change (N.to_nat (100 `min` 100)) with 100.
  change (filter (λ kv, match c with Some c => N.ltb c kv.1 | None => true end = true) (sources_by_id db))
    with (filter (λ kv : N * SourceRow, after c kv.1 = true) (sources_by_id db)).
  set (rem := filter _ (sources_by_id db)) in *. rewrite <-(take_drop 100 rem) in Hr.
  destruct (collect_sources_app _ _ _ Hr) as (r1 & r2 & -> & H1 & H2). rewrite H1.
  destruct (last (take 100 rem)) as [kv|] eqn:Hl.
  - destruct (last_fmap_ids _ _ _ H1 Hl) as (s & -> & ->).
    pose proof (page_rest _ c 100 kv (sorted_by_id (sources db)) Hl) as Hrest. fold rem in Hrest.
    rewrite (IH _ _ _ r2); [by rewrite filter_app, (assoc_L app)| |].
    + unfold sources_by_id. rewrite Hrest. done.
    + unfold sources_by_id. rewrite Hrest, length_drop.
      assert (length rem ≠ 0) as Hz by (intros Hz%nil_length_inv; by rewrite Hz in Hl).
      change (length rem - 100 < fuel). change (length rem < S fuel) in Hf. lia.
  - assert (take 100 rem = []) as Ht by (destruct (take 100 rem) using rev_ind; [done|by rewrite last_snoc in Hl]).
    assert (rem = []) as Hrem by (destruct rem; [done|discriminate Ht]).
    rewrite Ht in H1. rewrite Hrem in H2. simpl in H1, H2. apply Ok_inj in H1 as <-, H2 as <-. simpl.
    by rewrite filter_nil, app_nil_r.
Qed.

(** A listed source is the one its id finds. *)
Lemma collect_sources_elem l r s :
  collect_sources key l = Ok r → s ∈ r → ∃ row, (s_id s, row) ∈ l ∧ source_to_domain key (s_id s) row = Ok s.
Proof.
  revert r. induction l as [|kv l IH]; intros r; simpl; [intros [= <-] ?%elem_of_nil; done|].
  intros (s0 & Hs & (ss & H & <-%Ok_inj)%result_bind_Ok)%result_bind_Ok [->|Hin]%elem_of_cons.
  - rewrite (collect_sources_id _ _ _ Hs). exists kv.2. split; [|done]. destruct kv. by left.
  - destruct (IH ss H Hin) as (row & Hr & Hd). exists row. split; [by right|done].
Qed.

Lemma collect_sources_find db r s : collect_sources key (sources_by_id db) = Ok r → s ∈ r →
  find_source key (s_id s) db = Ok (Some s).
Proof.
  intros H Hs. destruct (collect_sources_elem _ _ _ H Hs) as (row & Hr & Hd). unfold sources_by_id in Hr.
  rewrite sort_by_Permutation in Hr. apply elem_of_map_to_list in Hr. unfold find_source. by rewrite Hr, Hd.
Qed.

Lemma collect_sources_mem db r i s : collect_sources key (sources_by_id db) = Ok r →
  find_source key i db = Ok (Some s) → s ∈ r ∧ s_id s = i.
Proof.
  intros H. unfold find_source. destruct (sources db !! i) as [row|] eqn:Hi; [|done].
  intros (s0 & Hd & [= ->])%result_bind_Ok. pose proof (collect_sources_id _ _ _ Hd) as Hid. split; [|done].
  assert (i ∈ s_id <$> r) as (s' & -> & Hs')%list_elem_of_fmap.
  { rewrite (collect_sources_ids _ _ H). unfold sources_by_id. rewrite sort_by_Permutation.
    apply list_elem_of_fmap. exists (i, row). split; [done|by apply elem_of_map_to_list]. }
  pose proof (collect_sources_find _ _ _ H Hs') as Hf. unfold find_source in Hf. rewrite Hi, Hd in Hf.
  simpl in Hf. by simplify_eq.
Qed.

(** The scheduler's list, once every row it reads decodes. *)
Lemma collect_due_sources_Some now db all m :
  let cands := filter (λ s, is_candidate s = true) all in
  collect_sources key (sources_by_id db) = Ok all →
  find_active_for_sources (s_id <$> cands) db = Ok m →
  collect_due_sources key now (λ _, false) db = Some (s_id <$> filter (λ s, is_due now (m !! s_id s) s = true) cands).
Proof.
  intros cands Hall Hm. unfold collect_due_sources.
  assert (filter (λ kv : N * SourceRow, after None kv.1 = true) (sources_by_id db) = sources_by_id db) as Hf.
  { apply list_filter_all. done. }
  rewrite (collect_candidates_spec _ _ _ _ _ all); rewrite ?Hf; [|done|].
  - simpl. fold cands. rewrite orb_false_r. case_bool_decide as He; [by rewrite He|]. by rewrite Hm.
  - unfold sources_by_id. rewrite sort_by_Permutation, length_map_to_list. lia.
Qed.

(** ** Active snapshots in bulk *)

Lemma collect_snapshots_elem l r :
  collect_snapshots l = Ok r → ∀ s, s ∈ r ↔ ∃ kv, kv ∈ l ∧ snapshot_to_domain kv.1 kv.2 = Ok s.
Proof.
  revert r. induction l as [|kv l IH]; intros r; simpl.
  { intros [= <-] s. split; [by intros ?%elem_of_nil|by intros (? & ?%elem_of_nil & _)]. }
  intros (s & Hs & (ss & H & <-%Ok_inj)%result_bind_Ok)%result_bind_Ok s'.
  rewrite elem_of_cons, (IH ss H s'). split.
  - intros [->|(kv' & Hk & Hd)]; [exists kv|exists kv']; split; auto; [by left|by right].
  - intros (kv' & [->|Hk]%elem_of_cons & Hd); [left; congruence|right; eauto].
Qed.

Lemma snapshot_to_domain_source id r s : snapshot_to_domain id r = Ok s → sn_source_id s = snr_source_id r.
Proof. unfold snapshot_to_domain. do 2 (intros (? & _ & H)%result_bind_Ok; revert H). by intros [= <-]. Qed.

Lemma foldl_by_source (l : list SourceSnapshot) (m : gmap N SourceSnapshot) i :
  (∀ a b, a ∈ l → b ∈ l → sn_source_id a = sn_source_id b → a = b) →
  (∀ s, s ∈ l → sn_source_id s = i → foldl (λ m s, <[sn_source_id s := s]> m) m l !! i = Some s) ∧
  ((∀ s, s ∈ l → sn_source_id s ≠ i) → foldl (λ m s, <[sn_source_id s := s]> m) m l !! i = m !! i).
Proof.
  revert m. induction l as [|x l IH]; intros m Hu; simpl.
  { split; [by intros s ?%elem_of_nil|done]. }
  destruct (IH (<[sn_source_id x := x]> m)) as [I1 I2].
  { intros a b Ha Hb. apply Hu; by right. }
  split.
  - intros s [->|Hs]%elem_of_cons Hi; [|by apply I1].
    destruct (decide (Exists (λ y, sn_source_id y = i) l)) as [He|He].
    + apply Exists_exists in He as (y & Hy & Hyi). rewrite (I1 y Hy Hyi). f_equal.
      apply (Hu y x); [by right|left|congruence].
    + rewrite I2; [by rewrite Hi, lookup_insert_eq|]. intros y Hy Hyi. apply He, Exists_exists. eauto.
  - intros Hn. rewrite I2 by (intros y Hy; apply Hn; by right). apply lookup_insert_ne. apply Hn. left.
Qed.

(** The bulk read agrees with the single reads. *)
Lemma find_active_for_sources_spec ids db m i :
  db_ok db → find_active_for_sources ids db = Ok m → i ∈ ids → find_active i db = Ok (m !! i).
Proof.
  intros Hok. unfold find_active_for_sources.
  intros (l & Hl & <-%Ok_inj)%result_bind_Ok Hi.
  pose proof (collect_snapshots_elem _ _ Hl) as He.
  assert (Hu : ∀ a b, a ∈ l → b ∈ l → sn_source_id a = sn_source_id b → a = b).
  { intros a b Ha Hb Hs. apply He in Ha as ([ia ra] & [[Aa _] Ia]%list_elem_of_filter & Da).
    apply He in Hb as ([ib rb] & [[Ab _] Ib]%list_elem_of_filter & Db'). simpl in *.
    apply elem_of_map_to_list in Ia, Ib.
    assert (ia = ib) as <-.
    { eapply (snaps_active _ _ _ (ok_snaps _ Hok)); eauto.
      by rewrite <-(snapshot_to_domain_source _ _ _ Da), <-(snapshot_to_domain_source _ _ _ Db'). }
    congruence. }
  destruct (foldl_by_source l ∅ i Hu) as [F1 F2]. unfold find_active.
  destruct (List.find _ _) as [[j r]|] eqn:Hf.
  - apply find_Some_elem in Hf as [Hj%elem_of_map_to_list Ha]. simpl in Ha. unfold is_active_for in Ha.
    apply andb_prop in Ha as [Hs%N.eqb_eq Ha]. simpl.
    destruct (snapshot_to_domain j r) as [s|e] eqn:Hd.
    + simpl. rewrite (F1 s); [done| |by rewrite (snapshot_to_domain_source _ _ _ Hd)].
      apply He. exists (j, r). split; [|done]. apply list_elem_of_filter. simpl. rewrite Hs.
      split; [done|by apply elem_of_map_to_list].
    + exfalso. assert ((j, r) ∈ filter (λ kv : N * SnapshotRow, snr_is_active kv.2 = true ∧ snr_source_id kv.2 ∈ ids)
        (map_to_list (snapshots db))) as Hin.
      { apply list_elem_of_filter. simpl. rewrite Hs. split; [done|by apply elem_of_map_to_list]. }
      clear -Hl Hin Hd. revert l Hl. induction (filter _ _) as [|kv k IH]; intros l Hl; [by apply elem_of_nil in Hin|].
      simpl in Hl. apply result_bind_Ok in Hl as (s & Hs & (ss & Hss & _)%result_bind_Ok).
      apply elem_of_cons in Hin as [<-|Hin]; [simpl in Hs; congruence|by eapply IH].
  - rewrite F2; [done|]. intros s Hs Hsi. apply He in Hs as ([j r] & [[Ha _] Hj]%list_elem_of_filter & Hd).
    rewrite find_None_elem in Hf. specialize (Hf (j, r) Hj). simpl in *. unfold is_active_for in Hf.
    rewrite <-(snapshot_to_domain_source _ _ _ Hd), Hsi, N.eqb_refl, Ha in Hf. done.
Qed.

End schedule.

End RefreshSchedule.
