(* ===== verification/RefreshTheorems.v ===== *)
(** * Theorems on sources and their refresh

    The properties of [SourceParse], [SourceDb], [Reconcile], [Refresh] and
    the scheduler that make a refresh safe, with witnesses on a small
    installation: one source, a fetched list and a concrete environment. *)

From stdpp Require Import relations.
From S2P Require Import Prelude Kernel Node NodePool Text UrlText UrlInstance Crypto UriParse Source.
From S2P Require Import SourceParse SourceDb Reconcile SourceInv PoolInv SourceSteps Refresh RefreshSafety.
From S2P Require Import RefreshSafety.
Import Text UrlText Crypto Source SourceParse SourceDb Reconcile SourceInv PoolInv SourceSteps Refresh RefreshSafety
  RefreshSchedule.

(** ** A concrete installation *)

Module Demo.

#[export] Existing Instance UrlInstance.url_lib.
#[export] Existing Instance UrlInstance.url_laws.

(** The first [n] bytes of a text, padded. *)
Fixpoint fit (n : nat) (s : string) : string :=
  match n with
  | O => ""
  | S n => match s with "" => String (Ascii.ascii_of_N 48) (fit n "") | String c s => String c (fit n s) end
  end.

#[export] Instance crypto_lib : CryptoLib := {
  hmac_sha256 _ m := fit 32 m;
  hmac_sha1 _ m := repeat 7%N 20;
  sha256 m := fit 32 m;
  aead_encrypt _ _ _ m := Some m;
  aead_decrypt _ _ _ c := Some c
}.

Lemma fit_length n s : String.length (fit n s) = n.
Proof. revert s. induction n as [|n IH]; intros s; [done|]. destruct s; simpl; by rewrite IH. Qed.

#[export] Instance crypto_laws : CryptoLaws crypto_lib.
Proof.
  split.
  - intros. apply fit_length.
  - intros. apply repeat_length.
  - intros. by repeat constructor.
  - intros k n a m c [= <-]. done.
Qed.

Definition identity_json (i : NodeIdentity) : string := uri_host (host (id_endpoint i)).
Definition key : option string := Some "master".
Definition nonce : option string := Some "012345678901234567890123".
Definition containers : Containers :=
  mkContainers (λ _ _, Ok []) (λ _ _, Ok []) (λ _ _, Ok []) (λ _ _, Ok []) (λ _ _, Ok []).
Definition chain_text (e : Chain.Chain.NodeChainError) : string := "chain".

Definition now0 : Z := 1700000000000000000.

Definition source0 : Source :=
  mkSource 1 "airport" UriList "https://sub.example/list" "GET" None true 3600 true true None now0.

Definition manual_node : Node :=
  mkNode 900 "mine" Trojan (CUnsupported (mkUnsupported JNull None "demo"))
    (mkEndpoint (Domain "own.example") 443) AuthNone None None (mkUdp None None) None None None
    None (mkNodeSource "" None 0) [] (mkRegion RegionAuto None) ∅.

Definition ops0 : list (Op) :=
  [OCreateSource nonce nonce source0; OImport now0 [manual_node]].
Definition db0 : Db := run_ops identity_json key ops0 empty_db.

Definition body1 : string :=
  "trojan://pw@a.example:443#A" +:+ bytes [10%N] +:+ "trojan://pw@b.example:443#B".
Definition body2 : string := "trojan://pw@b.example:443#B".

Definition draw (base : N) : Draw := λ k, ((base + N.of_nat k)%N, now0).

(** The fetcher answers [body]. *)
Definition env (job : N) (body : string) : Env :=
  mkEnv (λ _, false) (now0 + 60000000000) job (draw (1000 * job)) (λ _ _, Ok (FetchOk body None None))
    (λ _, mkDetection (Some "HK") []).

(** The tables after a first refresh, and after a second one is started. *)
Definition first : Result SourceAppError RefreshResult * Db :=
  exec identity_json key (env 5 body1) (refresh_one containers chain_text 1) 0 db0.
Definition db1 : Db := first.2.

Definition input1 : ReconcileInput :=
  mkInput 1 None (mkSnapshot 9 1 2 now0 None 1 true)
    [mkEntry "trojan://pw@b.example:443#B" Parsed
       match UriParse.parse_uri 77 now0 "trojan://pw@b.example:443#B" with Ok n => Some n | Err _ => None end].

End Demo.

Module RefreshTheorems.

Section theorems.
Context `{L : UrlLib} `{C : CryptoLib}.
Variable identity_json : NodeIdentity → string.
Variable key : option string.
Variable containers : Containers.
Variable chain_text : Chain.Chain.NodeChainError → string.

(** C12: whatever sequence of repository writes runs from an empty database,
    with whatever arguments and failures: at most one refresh job per source
    is running, at most one snapshot per source is active, versions are
    distinct, items belong to existing snapshots, visible nodes have distinct
    fingerprints, a node without a label of its own is visible exactly while
    some source binds it, and source names are distinct. *)
Theorem source_tables_invariant l :
  let db := run_ops identity_json key l empty_db in
  db_ok db ∧
  ∀ i p, nodes db !! i = Some p → pn_label p = "" →
    (pn_missing p = false ↔ i ∈ b_node_id <$> bindings db).
Proof.
  simpl. set (db := run_ops _ _ _ _). assert (db_ok db) as H by apply run_ops_ok, db_ok_empty.
  split; [done|]. intros i p Hp Hl. split.
  - intros Hm. by apply (pool_bound _ _ _ (ok_pool _ H) i p).
  - intros (b & -> & Hb)%list_elem_of_fmap. destruct (pool_binding _ _ _ (ok_pool _ H) b Hb) as (q & Hq & Hm). congruence.
Qed.

(** the life of a refresh job under every repository write: its status
    moves only from pending to running, from running to completed, or from an
    open status to failed or cancelled, and once terminal its status, finish
    time, error message and counts never change. *)
Theorem job_lifecycle o db id r r' :
  jobs db !! id = Some r → jobs (apply_op identity_json key o db) !! id = Some r' →
  jr_source_id r' = jr_source_id r ∧ job_step (jr_status r) (jr_status r') ∧
  (is_terminal (jr_status r) = true → outcome r' = outcome r).
Proof. intros Hr Hr'. by apply (apply_op_jobs identity_json key o db id r r'). Qed.

(** C5: a refresh that succeeds publishes exactly once, as its last call:
    while its own job holds the source's lease, completing the job in the same
    step, after seeing no cancellation, and only a list with at least one node
    if a snapshot was active.  A refresh that fails publishes nothing, and
    reports a cancellation exactly when it read a raised cancel flag.  This
    holds under every interleaving with other writes and every storage
    failure. *)
Theorem refresh_publishes_iff_ok job src db tr a db' :
  runs identity_json key (execute_refresh_job containers chain_text job src) db tr a db' →
  match a with
  | Ok _ => ∃ pre ev active, tr = pre ++ [ev] ∧ Forall quiet pre ∧ Exists (read_active src active) pre ∧
      publishes ev = true ∧ publication_of job src active (ev_eff ev) ∧
      lease_at job src (ev_before ev) ∧ completed_at job (ev_after ev)
  | Err e => Forall (λ ev, publishes ev = false) tr ∧ (e = Cancelled ↔ Exists (λ ev, saw_cancel ev = true) tr)
  end.
Proof.
  intros H. pose proof (runs_performed _ _ _ _ _ _ _ H) as Hp.
  destruct (execute_refresh_job_shape _ _ _ _ _ _ _ _ _ _ H) as (active & t1 & t2 & -> & Hs & Ha & H2).
  destruct a as [r|e]; simpl in Hs.
  - subst t2. rewrite app_nil_r in *. destruct Hs as (pre & ev & -> & Hq & Hpub & Hc & Hof).
    rewrite Forall_app, Forall_singleton in Hp. destruct Hp as [_ Hp].
    exists pre, ev, active. destruct (publication_lease _ _ _ _ _ _ Hp Hpub Hof). split_and!; try done.
    specialize (Ha eq_refl). apply Exists_app in Ha as [?|Ha]; [done|].
    exfalso. apply Exists_exists in Ha as (ev' & ->%list_elem_of_singleton & Hra).
    destruct ev as [[] re b c]; done.
  - destruct H2 as (ev & -> & Hw). destruct Hs as [Hs1 Hs2].
    assert (publishes ev = false ∧ saw_cancel ev = false) as [E1 E2].
    { destruct ev as [ef re b c]. unfold terminal_write in Hw. simpl in Hw. by destruct Hw as [->|[m ->]]. }
    split; [apply Forall_app; split; [done|by apply Forall_singleton]|].
    rewrite Hs2, Exists_app, Exists_cons, Exists_nil, E2. clear. intuition congruence.
Qed.

(** C33: a refresh job ends with its run: whatever the outcome of the fetch,
    the parse, the filters and the reconciliation, and whatever other tasks
    write meanwhile, after the last call of the runner its job is terminal or
    gone, unless the storage refused the terminal write itself. *)
Theorem refresh_job_ends job src db tr a db' :
  runs identity_json key (execute_refresh_job containers chain_text job src) db tr a db' →
  Forall (λ ev, write_ok ev = true) tr →
  ∃ ev, last tr = Some ev ∧ ended_at job (ev_after ev).
Proof.
  intros H Hw. pose proof (runs_performed _ _ _ _ _ _ _ H) as Hp.
  destruct (execute_refresh_job_shape _ _ _ _ _ _ _ _ _ _ H) as (active & t1 & t2 & -> & Hs & _ & H2).
  destruct a as [r|e]; simpl in Hs.
  - subst t2. rewrite app_nil_r in *. destruct Hs as (pre & ev & -> & Hq & Hpub & Hc & Hof).
    rewrite Forall_app, Forall_singleton in Hp. destruct Hp as [_ Hp].
    exists ev. rewrite last_snoc. split; [done|].
    destruct (publication_lease _ _ _ _ _ _ Hp Hpub Hof) as [_ (r' & Hr & Hst)].
    intros r0 Hr0. simplify_eq. by rewrite Hst.
  - destruct H2 as (ev & -> & Ht). exists ev. rewrite last_snoc. split; [done|].
    rewrite Forall_app, Forall_singleton in Hp. destruct Hp as [_ Hp].
    rewrite Forall_app, Forall_singleton in Hw. destruct Hw as [_ Hw]. by eapply terminal_write_ended.
Qed.

(** ** Starting again *)

Lemma find_source_is_Some src s db : find_source key src db = Ok (Some s) → is_Some (sources db !! src).
Proof. unfold find_source. destruct (sources db !! src); [eauto|done]. Qed.

(** Without a running job the source can be leased. *)
Lemma start_succeeds env src s t db :
  find_source key src db = Ok (Some s) → db_ts (env_now env) = Ok t → jobs db !! env_id env = None →
  (∀ i r, jobs db !! i = Some r → jr_source_id r = src → jr_status r ≠ JRunning) →
  ∃ db', exec identity_json key env (start_refresh_job src) 0 db = (Ok (env_id env), db') ∧
    lease_at (env_id env) src db'.
Proof.
  intros Hs Ht Hid Hrun. destruct (find_source_is_Some _ _ _ Hs) as [row Hrow].
  unfold start_refresh_job. cbn [exec answer]. rewrite Hs. cbn [try exec answer is_poll].
  unfold create_job. cbn [j_started_at j_id j_status j_source_id j_phase]. rewrite Ht, Hid.
  rewrite (bool_decide_eq_false_2 (is_Some None)) by (intros [? [=]]).
  rewrite (bool_decide_eq_false_2 (JPending = JRunning)) by done. cbn [andb].
  rewrite Hrow, (bool_decide_eq_false_2 (Some row = None)) by done. cbn [try exec answer].
  unfold mark_running. simpl. rewrite lookup_insert_eq.
  rewrite (proj2 (lease_held_false _ _ _)).
  - simpl. eexists. split; [done|]. unfold lease_at. simpl. eexists. rewrite lookup_insert_eq. split; [done|].
    unfold owns_lease. simpl. by rewrite N.eqb_refl.
  - intros i r. simpl. rewrite lookup_insert_Some. intros [[<- _]|[_ Hi]] Hsr Hst; [done|].
    exfalso. by eapply Hrun.
Qed.

(** a source is never locked out: once every running job of it is older
    than the lease timeout, or the process restarts, the sweep of the next
    tick or the crash recovery releases its lease, and the next refresh of the
    source starts. *)
Theorem refresh_restarts env src s t timeout cutoff db :
  find_source key src db = Ok (Some s) → jobs db !! env_id env = None → db_ts (env_now env) = Ok t →
  db_ts (env_now env - Z.of_N (N.min timeout i64_max) * 1000000000) = Ok cutoff →
  (∀ i r, jobs db !! i = Some r → jr_source_id r = src → jr_status r = JRunning → (jr_started_at r < cutoff)%Z) →
  (∃ n db1 db2, reclaim_stale_leases (env_now env) timeout db = (Ok n, db1) ∧
     exec identity_json key env (start_refresh_job src) 0 db1 = (Ok (env_id env), db2) ∧
     lease_at (env_id env) src db2) ∧
  (∃ n db1 db2, recover_crashed_jobs (env_now env) db = (Ok n, db1) ∧
     exec identity_json key env (start_refresh_job src) 0 db1 = (Ok (env_id env), db2) ∧
     lease_at (env_id env) src db2).
Proof.
  intros Hs Hid Ht Hc Hold. split.
  - unfold reclaim_stale_leases, recover_stale_jobs. rewrite Hc, Ht.
    set (db1 := update_jobs _ _ db).
    destruct (start_succeeds env src s t db1) as (db2 & He & Hl); [exact Hs|done| | |by eexists _, db1, db2].
    + simpl. by rewrite lookup_fmap, Hid.
    + simpl. intros i r. rewrite lookup_fmap. intros (r0 & Hi & ->)%fmap_Some. unfold is_stale, is_running.
      destruct (decide (jr_status r0 = JRunning)) as [Hr|Hr].
      * rewrite (bool_decide_eq_true_2 _ Hr). simpl. destruct (Z.ltb_spec (jr_started_at r0) cutoff) as [|Hge]; [done|].
        intros Hsr. specialize (Hold i r0 Hi Hsr Hr). lia.
      * by rewrite (bool_decide_eq_false_2 _ Hr).
  - unfold recover_crashed_jobs. rewrite Ht. set (db1 := update_jobs _ _ db).
    destruct (start_succeeds env src s t db1) as (db2 & He & Hl); [exact Hs|done| | |by eexists _, db1, db2].
    + simpl. by rewrite lookup_fmap, Hid.
    + simpl. intros i r. rewrite lookup_fmap. intros (r0 & Hi & ->)%fmap_Some.
      unfold is_open. by destruct (jr_status r0) eqn:Hst; simpl; rewrite ?Hst.
Qed.

(** C28: what a committed reconciliation leaves in the pool: every entry with
    a node has a visible row of its fingerprint bound to the source, and the
    source is bound to nothing else; the bindings of other sources are as they
    were; a visible node with a label of its own is untouched; a visible node
    without one stays visible exactly if some source still binds it; and the
    reported new, duplicate and reactivated nodes add up to the entries with a
    node. *)
Theorem reconcile_exact now i db res db' :
  db_ok db → reconcile identity_json key now i db = (Ok res, db') →
  reconciled identity_json key now i db db' res.
Proof.
  intros Hok H. unfold reconcile in H. destruct (reconcile_tx _ _ _ _ _) as [[r d]|] eqn:Ht; [|done].
  injection H as -> ->. eapply reconcile_effect; [done|apply Hok].
Qed.

(** a publication without the lease rolls back: if the job of a
    reconciliation is not the running job of its source (it was reclaimed,
    cancelled or deleted meanwhile), the call fails and every table is as it
    was; the failure policy of such a job changes nothing either, and while a
    job is running, edits of its source are refused. *)
Theorem lease_protects now i job src db nonce u :
  (ri_job_id i = Some job → ri_source_id i = src → ¬ lease_at job src db →
     (reconcile identity_json key now i db).2 = db ∧ is_ok (reconcile identity_json key now i db).1 = false) ∧
  (¬ lease_at job src db → (disable_after_failure src job db).2 = db) ∧
  (u_id u = src → lease_at job src db →
     (apply_config key nonce u db).2 = db ∧ is_ok (apply_config key nonce u db).1 = false).
Proof.
  split_and!.
  - intros Hj Hs Hn. unfold reconcile. destruct (reconcile_tx _ _ _ _ _) as [[r d]|] eqn:Ht; [|done].
    exfalso. apply Hn. apply reconcile_tx_jobs in Ht. rewrite Hj in Ht. destruct Ht as (db2 & He & Hc).
    apply complete_lease in Hc as [(r' & Hr & Ho) _]. exists r'. by rewrite <-He, <-Hs.
  - intros Hn. unfold disable_after_failure. simpl.
    assert (match jobs db !! job with Some j => owns_lease src j | None => false end = false) as ->.
    { destruct (jobs db !! job) as [r|] eqn:Hr; [|done]. destruct (owns_lease src r) eqn:Ho; [|done].
      destruct Hn. by exists r. }
    rewrite alter_id; [by destruct db|]. intros r _. by rewrite andb_false_r.
  - intros Hu (r & Hr & Ho). unfold apply_config.
    assert (guard_config_edit (u_id u) db = Err (RefreshInProgress (id_display (u_id u)))) as Hg.
    { unfold guard_config_edit. rewrite (proj2 (any_row_true _ _)); [done|]. exists job, r. by rewrite Hu. }
    destruct (match u_url u with Some url => _ | None => _ end) as [url|e]; simpl; [|done]. by rewrite Hg.
Qed.

(** a scheduler tick refreshes exactly the sources that are due: over any
    number of sources, read in pages of a hundred, the ids it returns are, once
    each and in id order, those of the enabled sources with automatic update
    that have no active snapshot or whose active snapshot is at least the
    update interval old. *)
Theorem due_exact now db all m :
  db_ok db → collect_sources key (sources_by_id db) = Ok all →
  find_active_for_sources (s_id <$> filter (λ s, is_candidate s = true) all) db = Ok m →
  ∃ l, collect_due_sources key now (λ _, false) db = Some l ∧ StronglySorted N.lt l ∧
    ∀ i, i ∈ l ↔ ∃ s sn, find_source key i db = Ok (Some s) ∧ s_enabled s = true ∧ s_auto_update s = true ∧
      find_active i db = Ok sn ∧ is_due now sn s = true.
Proof.
  intros Hok Hall Hm. set (cands := filter (λ s, is_candidate s = true) all) in *.
  exists (s_id <$> filter (λ s, is_due now (m !! s_id s) s = true) cands). split_and!.
  - by apply collect_due_sources_Some.
  - eapply sublist_sorted; [apply (sorted_by_id (sources db))|]. unfold sources_by_id in Hall.
    rewrite <-(collect_sources_ids key _ _ Hall). apply fmap_sublist. unfold cands.
    etrans; apply sublist_filter.
  - intros i. rewrite list_elem_of_fmap. split.
    + intros (s & -> & [Hd Hc]%list_elem_of_filter). pose proof Hc as [Hca Hs]%list_elem_of_filter.
      unfold is_candidate in Hca. apply andb_prop in Hca as [Ha He].
      exists s, (m !! s_id s). split_and!; try done; [by eapply collect_sources_find|].
      apply (find_active_for_sources_spec _ _ _ _ Hok Hm). by apply list_elem_of_fmap_2.
    + intros (s & sn & Hf & He & Ha & Hn & Hd).
      destruct (collect_sources_mem key _ _ _ _ Hall Hf) as [Hs Hi].
      assert (s ∈ cands) as Hc.
      { apply list_elem_of_filter. split; [|done]. unfold is_candidate. by rewrite Ha, He. }
      exists s. split; [done|]. apply list_elem_of_filter. split; [|done].
      rewrite (find_active_for_sources_spec _ _ _ i Hok Hm) in Hn by (rewrite <-Hi; by apply list_elem_of_fmap_2).
      apply Ok_inj in Hn. by rewrite Hi, Hn.
Qed.

(** every fetched line is accounted for, within the limits: a successful
    parse had a body of at most 10 MiB and gives at most 10,000 entries, in
    each of which the status says whether there is a node; an URI list gives
    one entry per non-blank, non-comment line, in order and with its text, and
    a line fails alone; a list of more lines is refused as a whole. *)
Theorem content_accounted draw t ct body l :
  parse_content containers draw t ct body = Ok l →
  (N.of_nat (String.length body) ≤ max_body_bytes)%N ∧ (N.of_nat (length l) ≤ max_nodes)%N ∧
  Forall entry_consistent l ∧
  (t = UriList → raw_uri <$> l = kept_lines body) ∧
  (t = UriList → ∀ k u, kept_lines body !! k = Some u →
     e_node <$> l !! k = Some match UriParse.parse_uri (draw k).1 (draw k).2 u with Ok n => Some n | Err _ => None end).
Proof.
  intros H. destruct (parse_content_Ok _ _ _ _ _ _ H) as (Hb & Hn & Hp). split_and!; try done.
  - by eapply parse_by_type_consistent.
  - intros ->. simpl in Hp. rewrite parse_uri_list_text_spec in Hp. case_hyp Hp; [|done].
    apply Ok_inj in Hp as <-. apply line_entries_raw.
  - intros -> k u Hu. simpl in Hp. rewrite parse_uri_list_text_spec in Hp. case_hyp Hp; [|done].
    apply Ok_inj in Hp as <-. rewrite (line_entries_lookup _ _ _ _ _ Hu). simpl. f_equal.
    unfold parse_single_uri. destruct (draw k) as [i z]. simpl. by destruct (UriParse.parse_uri i z u).
Qed.

(** ** Round trips *)

Context {HL : UrlLaws L} {HC : CryptoLaws C}.

Lemma as_i64_try n what : (n ≤ i64_max)%N → u64_try_from (as_i64 n) what = Ok n.
Proof.
  intros Hn. unfold as_i64. rewrite (proj2 (N.leb_le _ _)) by done. unfold u64_try_from.
  destruct (Z.ltb_spec (Z.of_N n) 0); [lia|]. by rewrite N2Z.id.
Qed.

Lemma open_seal_col nonce context t e :
  (∀ n, nonce = Some n → String.length n = nonce_len) → utf8_valid t = true → is_Some key →
  seal_col key nonce context t = Ok e → open_col key context e = Ok t ∧ open_opt key context e = Ok (Some t).
Proof.
  intros Hn Hu [k Hk]. unfold seal_col, open_col, open_opt. rewrite Hk.
  destruct (seal nonce k context t) as [env|] eqn:Hs; [|done]. intros [= <-].
  unfold open_bytes. rewrite (open_seal _ _ _ _ _ Hn Hs). simpl. unfold from_utf8. rewrite Hu. done.
Qed.

(** The source a row stores: time in whole seconds, empty headers dropped. *)
Definition stored_source (s : Source) : Source :=
  mkSource (s_id s) (s_name s) (s_source_type s) (s_url s) (s_http_method s)
    (match s_headers s with Some h => if is_empty h then None else Some h | None => None end)
    (s_auto_update s) (s_update_interval_secs s) (s_enabled s) (s_keep_on_fail s) (s_filter_rules s)
    (s_created_at s / Subscription.ns_per_s * Subscription.ns_per_s).

(** a stored source reads back: with a master key, what [create] writes
    (URL and headers sealed under their own contexts, the type and the
    interval converted) is what [find_by_id] returns, up to the sub-second part
    of the creation time and empty headers. *)
Theorem source_roundtrip n1 n2 s db db' :
  is_Some key → (∀ n, n1 = Some n ∨ n2 = Some n → String.length n = nonce_len) →
  utf8_valid (s_url s) = true → (∀ h, s_headers s = Some h → utf8_valid h = true) →
  (s_update_interval_secs s ≤ i64_max)%N →
  create_source_row key n1 n2 s db = (Ok (), db') →
  find_source key (s_id s) db' = Ok (Some (stored_source s)).
Proof.
  intros Hk Hn Hu Hh Hi. unfold create_source_row. destruct (result_bind _ _) as [d|] eqn:E; [|done]. intros [= <-].
  apply result_bind_Ok in E as (created & Hc & (url & Hurl & (headers & Hhd & E)%result_bind_Ok)%result_bind_Ok).
  case_hyp E; [done|]. case_hyp E; [done|]. apply Ok_inj in E as <-.
  unfold find_source. simpl. rewrite lookup_insert_eq. unfold source_to_domain. simpl.
  destruct (open_seal_col n1 _ _ _ ltac:(by eauto) Hu Hk Hurl) as [-> _]. simpl.
  assert (open_opt key ctx_headers headers =
    Ok match s_headers s with Some h => if is_empty h then None else Some h | None => None end) as ->.
  { destruct Hk as [k Hk]. unfold seal_headers in Hhd. destruct (s_headers s) as [h|]; [destruct (is_empty h)|].
    - apply Ok_inj in Hhd as <-. unfold open_opt. by rewrite Hk.
    - eapply open_seal_col; [by eauto|by apply Hh|by rewrite Hk|done].
    - apply Ok_inj in Hhd as <-. unfold open_opt. by rewrite Hk. }
  simpl. rewrite source_type_roundtrip. simpl. rewrite as_i64_try by done. simpl.
  unfold db_ts, Subscription.format_ts in Hc. destruct (_ && _); [|done]. simpl in Hc. by apply Ok_inj in Hc as <-.
Qed.

End theorems.

(** ** Witnesses *)

Import Demo.

Lemma demo_ok : db_ok db0.
Proof. apply run_ops_ok, db_ok_empty. Qed.

Lemma demo_ok1 : db_ok db1.
Proof.
  eapply runs_ok; [|apply demo_ok]. apply (exec_runs identity_json key (env 5 body1)).
Qed.

Lemma job_lifecycle_witness :
  ∃ r r', jobs db1 !! 5%N = Some r ∧
    jobs (apply_op identity_json key (OMarkFailed now0 5 "late") db1) !! 5%N = Some r' ∧ outcome r' = outcome r.
Proof.
  destruct (jobs db1 !! 5%N) as [r|] eqn:Hr; [|exfalso; by vm_compute in Hr].
  destruct (jobs (apply_op identity_json key (OMarkFailed now0 5 "late") db1) !! 5%N) as [r'|] eqn:Hr';
    [|exfalso; by vm_compute in Hr'].
  destruct (job_lifecycle identity_json key (OMarkFailed now0 5 "late") db1 5 r r' Hr Hr') as (_ & _ & H).
  exists r, r'. split; [reflexivity|]. split; [reflexivity|]. apply H. clear -Hr. vm_compute in Hr.
  injection Hr as <-. reflexivity.
Defined.

Lemma forallb_Forall {A} (f : A → bool) l : forallb f l = true → Forall (λ x, f x = true) l.
Proof. induction l as [|x l IH]; simpl; [constructor|]. intros [? ?]%andb_prop. constructor; auto. Qed.

Lemma exec_ok_runs {E A} e (p : Prog (Result E A)) db :
  is_ok (exec identity_json key e p 0 db).1 = true →
  ∃ a db', runs identity_json key p db (trace identity_json key e p 0 db) (Ok a) db'.
Proof.
  pose proof (exec_runs identity_json key e p 0 db) as H. destruct (exec _ _ _ _ _ _) as [a db'].
  simpl in *. destruct a as [a|]; [|done]. intros _. eauto.
Qed.

(** The tables when the job of a first refresh has just been started, and the
    run of that job. *)
Definition started : Db := (exec identity_json key (env 5 body1) (start_refresh_job 1) 0 db0).2.
Definition run5 := execute_refresh_job containers chain_text 5 1.

Lemma started_ok : is_ok (exec identity_json key (env 5 body1) run5 0 started).1 = true.
Proof. vm_compute. reflexivity. Qed.

Lemma refresh_publishes_iff_ok_witness :
  ∃ pre ev, trace identity_json key (env 5 body1) run5 0 started = pre ++ [ev] ∧ publishes ev = true.
Proof.
  destruct (exec_ok_runs _ _ _ started_ok) as (a & db' & H).
  destruct (refresh_publishes_iff_ok identity_json key containers chain_text 5 1 started _ (Ok a) db' H)
    as (pre & ev & active & Htr & _ & _ & Hp & _). exists pre, ev. split; [exact Htr|exact Hp].
Defined.

(** A fetch that answers 404 fails the job. *)
Definition env404 : Env :=
  mkEnv (λ _, false) (now0 + 60000000000) 5 (draw 5000) (λ _ _, Err (FeHttp 404 "")) (λ _, mkDetection None []).

Lemma refresh_job_ends_witness :
  ∃ ev, last (trace identity_json key env404 run5 0 started) = Some ev ∧ ended_at 5 (ev_after ev).
Proof.
  apply (refresh_job_ends identity_json key containers chain_text 5 1 started _ _ _
    (exec_runs identity_json key env404 run5 0 started)).
  apply forallb_Forall. vm_compute. reflexivity.
Defined.

(** An hour later, with a lease timeout of a minute. *)
Definition later : Env :=
  mkEnv (λ _, false) (now0 + 3600000000000) 6 (draw 6000) (λ _ _, Ok (FetchOk body2 None None))
    (λ _, mkDetection None []).

Lemma refresh_restarts_witness :
  ∃ n d1 d2, reclaim_stale_leases (env_now later) 60 started = (Ok n, d1) ∧
    exec identity_json key later (start_refresh_job 1) 0 d1 = (Ok 6%N, d2) ∧ lease_at 6 1 d2.
Proof.
  apply (refresh_restarts identity_json key later 1 (stored_source source0) (now0 + 3600000000000) 60
    (now0 + 3540000000000) started).
  - vm_compute. reflexivity.
  - vm_compute. reflexivity.
  - vm_compute. reflexivity.
  - vm_compute. reflexivity.
  - assert (map_Forall (λ _ r, jr_source_id r = 1%N → jr_status r = JRunning →
      (jr_started_at r < now0 + 3540000000000)%Z) (jobs started)) as H.
    { apply (bool_decide_unpack _). vm_compute. exact I. }
    exact H.
Defined.

Lemma reconcile_exact_witness :
  ∃ res d, reconcile identity_json key now0 input1 db1 = (Ok res, d) ∧
    reconciled identity_json key now0 input1 db1 d res.
Proof.
  assert (is_ok (reconcile identity_json key now0 input1 db1).1 = true) as Ho by (vm_compute; reflexivity).
  pose proof (reconcile_exact identity_json key now0 input1 db1) as H.
  destruct (reconcile identity_json key now0 input1 db1) as [[res|e] d]; [|exfalso; discriminate Ho].
  exists res, d. split; [reflexivity|]. apply H; [exact demo_ok1|reflexivity].
Defined.

Lemma lease_protects_witness :
  (disable_after_failure 1 5 db1).2 = db1.
Proof.
  destruct (lease_protects identity_json key now0 input1 5 1 db1 nonce
    (mkUpdate 1 "airport" UriList None true 3600 true true None)) as (_ & H & _). apply H. clear H.
  intros (r & Hr & Ho). vm_compute in Hr. injection Hr as <-. discriminate Ho.
Defined.

Lemma due_exact_witness :
  ∃ l, collect_due_sources key now0 (λ _, false) db0 = Some l ∧ StronglySorted N.lt l.
Proof.
  destruct (due_exact key now0 db0 [stored_source source0] ∅ demo_ok) as (l & Hl & Hs & _).
  - vm_compute. reflexivity.
  - vm_compute. reflexivity.
  - exists l. split; [exact Hl|exact Hs].
Defined.

Lemma content_accounted_witness :
  ∃ l, parse_content containers (draw 100) UriList None body1 = Ok l ∧ raw_uri <$> l = kept_lines body1.
Proof.
  assert (is_ok (parse_content containers (draw 100) UriList None body1) = true) as Ho by (vm_compute; reflexivity).
  pose proof (content_accounted containers (draw 100) UriList None body1) as H.
  destruct (parse_content containers (draw 100) UriList None body1) as [l|e]; [|exfalso; discriminate Ho].
  exists l. split; [reflexivity|]. by apply (H l).
Defined.

Lemma source_roundtrip_witness :
  find_source key 1 (create_source_row key nonce nonce source0 empty_db).2 = Ok (Some (stored_source source0)).
Proof.
  apply (source_roundtrip key nonce nonce source0 empty_db).
  - by eexists.
  - intros n [[= <-]|[= <-]]; reflexivity.
  - vm_compute. reflexivity.
  - intros h [=].
  - vm_compute. discriminate.
  - vm_compute. reflexivity.
Defined.

(** ** Automatic detection and trailing blanks

    Under [Auto] only leading blanks are cut before the base64 decoding, so
    an encoded list that ends in a line feed is read as one malformed URI;
    declared as [Base64], the same body gives its nodes. *)

Definition encoded : string :=
  base64_encode STANDARD "trojan://pw@a.example:443#A" +:+ bytes [10%N].

Definition nodes_of (t : SourceType) : option nat :=
  match parse_content containers (draw 100) t None encoded with Ok l => Some (valid_count l) | Err _ => None end.

Lemma auto_misses_trailing_newline : nodes_of Auto = Some 0 ∧ nodes_of Base64 = Some 1.
Proof. split; vm_compute; reflexivity. Qed.

End RefreshTheorems.
