(* ===== verification/SourceCommands.v ===== *)
(** * Source commands ([source/commands.rs])

    Creating, editing, deleting and reading sources, and manual imports: the
    validation of [Source] in front of the repositories of [SourceDb] and
    [Reconcile], with the mapping of their errors. *)

From S2P Require Import Prelude Kernel Node NodePool Text UrlText UrlInstance Crypto Source SourceDb Reconcile.
From S2P Require Import SourceInv PoolInv SourceSteps RefreshTheorems.
Import Text UrlText Crypto Source SourceDb Reconcile SourceInv PoolInv SourceSteps.

Module SourceCommands.

Section commands.
Context `{L : UrlLib} `{C : CryptoLib}.
Variable identity_json : NodeIdentity → string.
Variable key : option string.

(** [create_source]: [id] and [now] are drawn by [Source::new]. *)
Definition create_source (id : N) (now : Z) (n1 n2 : option string) (p : CreateSourceParams) (db : Db) :
    Result SourceAppError Source * Db :=
  match build_source id now p with
  | Err e => (Err e, db)
  | Ok s =>
      match create_source_row key n1 n2 s db with
      | (Ok _, db') => (Ok s, db')
      | (Err e, db') => (Err (map_source_error e), db')
      end
  end.

(** [update_source] *)
Definition update_source (nonce : option string) (u : SourceConfigUpdate) (db : Db) : Result SourceAppError Source * Db :=
  match validate_update u with
  | Err e => (Err e, db)
  | Ok _ => let '(r, db') := apply_config key nonce u db in (map_err map_mutation_error r, db')
  end.

(** [delete_source] *)
Definition delete_source (id : N) (db : Db) : Result SourceAppError () * Db :=
  let '(r, db') := delete_source_row id db in (map_err map_mutation_error r, db').

(** [get_source], [list_sources] *)
Definition get_source (id : N) (db : Db) : Result SourceAppError (option Source) :=
  map_err map_source_error (find_source key id db).
Definition list_sources_page (cursor : option N) (limit : N) (db : Db) : Result SourceAppError (list Source) :=
  map_err map_source_error (list_sources key cursor limit db).

(** [import_nodes] *)
Definition import_nodes_command (now : Z) (l : list Node) (db : Db) : Result SourceAppError ImportResult * Db :=
  let '(r, db') := import_nodes identity_json key now l db in (map_err map_source_error r, db').

(** ** What the commands guarantee *)

(** A source within the limits of the API. *)
Record valid_source (name url : string) (interval : N) : Prop := {
  vs_name : 0 < String.length name ≤ 128;
  vs_url : String.length url ≤ 2048;
  vs_scheme : starts_with "https://" url = true ∨ starts_with "http://" url = true;
  vs_interval : (0 < interval ≤ 30 * 24 * 3600)%N
}.

Lemma is_empty_length s : is_empty s = false → 0 < String.length s.
Proof. destruct s; simpl; [done|lia]. Qed.

Lemma validate_name_Ok name u : validate_name name = Ok u → 0 < String.length name ≤ 128.
Proof.
  unfold validate_name, max_name_len. destruct (is_empty name) eqn:He; [done|].
  destruct (Nat.ltb_spec 128 (String.length name)); [done|]. intros _. apply is_empty_length in He. lia.
Qed.

Lemma validate_url_Ok url u :
  validate_url url = Ok u →
  String.length url ≤ 2048 ∧ (starts_with "https://" url = true ∨ starts_with "http://" url = true).
Proof.
  unfold validate_url. destruct (is_empty url); [done|].
  destruct (Nat.ltb_spec max_url_len (String.length url)) as [|Hl]; [done|].
  destruct (starts_with "https://" url), (starts_with "http://" url); simpl; intros H; try done; split; auto.
Qed.

Lemma validate_interval_Ok i u : validate_interval i = Ok u → (0 < i ≤ 30 * 24 * 3600)%N.
Proof.
  unfold validate_interval, max_update_interval_secs. destruct (N.eqb_spec i 0); [done|].
  destruct (N.ltb_spec (30 * 24 * 3600) i); [done|]. lia.
Qed.

(** source commands are checked and all or nothing: a refused creation,
    edit or deletion leaves every table as it was, and an accepted creation or
    edit has a name of 1 to 128 bytes, an HTTP or HTTPS address of at most
    2048 bytes and an interval of at most thirty days, creates exactly one new
    row under an unused name and identifier, and edits only the addressed
    source. *)
Theorem source_commands_checked id now n1 n2 p nonce u db :
  (∀ e db', create_source id now n1 n2 p db = (Err e, db') → db' = db) ∧
  (∀ s db', create_source id now n1 n2 p db = (Ok s, db') →
     valid_source (c_name p) (c_url p) (c_update_interval_secs p) ∧ s_id s = id ∧ sources db !! id = None ∧
     (∀ j r, sources db !! j = Some r → sr_name r ≠ c_name p) ∧
     ∃ r, db' = with_sources (<[id := r]> (sources db)) db ∧ sr_name r = c_name p) ∧
  (∀ e db', update_source nonce u db = (Err e, db') → db' = db) ∧
  (∀ s db', update_source nonce u db = (Ok s, db') →
     0 < String.length (u_name u) ≤ 128 ∧ (0 < u_update_interval_secs u ≤ 30 * 24 * 3600)%N ∧
     is_Some (sources db !! u_id u) ∧
     (∀ i, i ≠ u_id u → sources db' !! i = sources db !! i) ∧ nodes db' = nodes db ∧ jobs db' = jobs db ∧
     (∀ j r, j ≠ u_id u → sources db !! j = Some r → sr_name r ≠ u_name u)).
Proof.
  assert (∀ i name, name_taken i name db = false → ∀ j r, j ≠ i → sources db !! j = Some r → sr_name r ≠ name) as Hnt.
  { intros i name Ht j r Hj Hr Hn. by apply Hj, (name_taken_false i name db Ht j r Hr). }
  split_and!.
  - intros e db'. unfold create_source. destruct (build_source id now p) as [s|]; [|by intros [= _ <-]].
    unfold create_source_row. by destruct (result_bind _ _); intros [= _ <-].
  - intros s db'. unfold create_source. destruct (build_source id now p) as [s0|] eqn:Hb; [|done].
    unfold build_source in Hb. apply result_bind_Ok in Hb as (? & H1%validate_name_Ok & Hb).
    apply result_bind_Ok in Hb as (? & [H2 H3]%validate_url_Ok & Hb).
    apply result_bind_Ok in Hb as (? & H4%validate_interval_Ok & <-%Ok_inj).
    unfold create_source_row. destruct (result_bind _ _) as [d|] eqn:E; [|done]. intros [= <- <-].
    apply result_bind_Ok in E as (? & _ & E). apply result_bind_Ok in E as (? & _ & E).
    apply result_bind_Ok in E as (? & _ & E). destruct (bool_decide _) eqn:Hi; [done|].
    destruct (name_taken _ _ _) eqn:Ht; [done|]. apply Ok_inj in E as <-. simpl in *.
    apply bool_decide_eq_false in Hi. rewrite <-eq_None_not_Some in Hi.
    split_and!; [by split|done|done| |by eexists].
    intros j r Hr. eapply Hnt; [done| |done]. by intros ->; rewrite Hi in Hr.
  - intros e db'. unfold update_source. destruct (validate_update u); [|by intros [= _ <-]].
    unfold apply_config. destruct (result_bind _ _) as [[s d]|]; [done|]. by intros [= _ <-].
  - intros s db'. unfold update_source. destruct (validate_update u) as [v|] eqn:Hv; [|done].
    unfold validate_update in Hv. apply result_bind_Ok in Hv as (? & H1%validate_name_Ok & Hv).
    apply result_bind_Ok in Hv as (? & _ & H2%validate_interval_Ok).
    unfold apply_config. destruct (result_bind _ _) as [[s' d]|] eqn:E; [|done]. intros [= <- <-].
    do 2 apply result_bind_Ok in E as (? & _ & E). apply result_bind_Ok in E as (r & Hr%ok_or_Ok & E).
    destruct (name_taken _ _ _) eqn:Ht; [done|]. apply result_bind_Ok in E as (? & _ & [= <- <-]).
    simpl. rewrite Hr. split_and!; try done; try lia.
    + intros i Hi. by rewrite lookup_insert_ne.
    + intros j r' Hj Hr'. by eapply Hnt.
Qed.

(** deleting a source withdraws exactly its contribution: its row, jobs,
    snapshots and bindings are gone and those of other sources stay; a visible
    node disappears exactly if it has no label of its own and no other source
    binds it; and the withdrawal floor rises to the new pool revision, so that
    nothing generated before the deletion is served again. *)
Theorem source_deletion_exact id db db' :
  delete_source id db = (Ok (), db') →
  sources db' = delete id (sources db) ∧
  bindings db' = filter (λ b, b_source_id b ≠ id) (bindings db) ∧
  (∀ j r, jobs db' !! j = Some r ↔ jobs db !! j = Some r ∧ jr_source_id r ≠ id) ∧
  (∀ j r, snapshots db' !! j = Some r ↔ snapshots db !! j = Some r ∧ snr_source_id r ≠ id) ∧
  (∀ i p, nodes db !! i = Some p → pn_missing p = false → ∃ p', nodes db' !! i = Some p' ∧
     (pn_missing p' = true ↔ pn_label p = "" ∧ (∃ b, b ∈ bindings db ∧ b_node_id b = i ∧ b_source_id b = id) ∧
        ¬ ∃ b, b ∈ bindings db ∧ b_node_id b = i ∧ b_source_id b ≠ id)) ∧
  pool_revision db' = (pool_revision db + 1)%N ∧ withdrawal_revision db' = pool_revision db'.
Proof.
  unfold delete_source, delete_source_row. destruct (sources db !! id) as [row|] eqn:Hrow; [|done].
  intros [= <-]. simpl. split_and!; try done.
  - intros j r. by rewrite map_lookup_filter_Some.
  - intros j r. by rewrite map_lookup_filter_Some.
  - intros i p Hp Hm. rewrite map_lookup_imap, Hp. simpl. eexists. split; [done|].
    rewrite <-bound_to_true, <-bound_elsewhere_true. unfold is_remote_visible. rewrite Hm.
    destruct (String.eqb_spec (pn_label p) "") as [Hl|Hl]; simpl; [|by rewrite Hm; naive_solver].
    destruct (bound_to id i db), (bound_elsewhere id i db); simpl; rewrite ?Hm; split; naive_solver.
Qed.

End commands.

(** ** Witnesses *)

Import Demo.

Lemma source_commands_checked_witness :
  ∃ s db', create_source key 8 now0 nonce nonce (mkCreate "second" Auto "https://b.example/s" true 600 true None) db1
    = (Ok s, db') ∧ s_id s = 8%N.
Proof.
  destruct (source_commands_checked key 8 now0 nonce nonce (mkCreate "second" Auto "https://b.example/s" true 600 true None)
    None (mkUpdate 1 "airport" UriList None true 3600 true true None) db1) as (_ & H & _).
  assert (is_ok (create_source key 8 now0 nonce nonce
    (mkCreate "second" Auto "https://b.example/s" true 600 true None) db1).1 = true) as Ho by (vm_compute; reflexivity).
  destruct (create_source _ _ _ _ _ _ _) as [[s|m] db']; [|exfalso; discriminate Ho].
  destruct (H s db' eq_refl) as (_ & Hs & _). exists s, db'. split; [reflexivity|exact Hs].
Defined.

Lemma source_deletion_exact_witness :
  ∃ db', delete_source 1 db1 = (Ok (), db') ∧ withdrawal_revision db' = pool_revision db'.
Proof.
  pose proof (source_deletion_exact 1 db1) as H.
  assert (is_ok (delete_source 1 db1).1 = true) as Ho by (vm_compute; reflexivity).
  destruct (delete_source 1 db1) as [[[]|m] db']; [|exfalso; discriminate Ho].
  destruct (H db' eq_refl) as (_ & _ & _ & _ & _ & _ & Hw). exists db'. split; [reflexivity|exact Hw].
Defined.

End SourceCommands.
