(* ===== verification/NodeEdits.v ===== *)
(** * Node overrides, tags and the effective pool

    [source/node_commands.rs] over [node_override_repository.rs]: overrides,
    tags and tag memberships, beside the source tables of [SourceDb].  The
    pool the generator reads is the join of all of them ([NODE_COLUMNS] of
    [node_row.rs]); every write that changes it moves the pool revision. *)

From S2P Require Import Prelude Kernel Node NodePool Text UrlText Crypto Source SourceDb Reconcile SourceInv.
From S2P Require Import PoolInv SourceSteps.
Import Text UrlText Crypto Source SourceDb Reconcile SourceInv PoolInv SourceSteps.

Module NodeEdits.

(** ** Tables *)

Record EditDb := mkEditDb {
  e_db : Db;
  overrides : gmap NodeId NodeOverride;
  tag_rows : gmap TagId Tag;
  node_tags : gset (NodeId * TagId)
}.

Definition bump (e : EditDb) : EditDb :=
  mkEditDb (bump_revision (e_db e)) (overrides e) (tag_rows e) (node_tags e).
Definition with_overrides (t : gmap NodeId NodeOverride) (e : EditDb) : EditDb :=
  mkEditDb (e_db e) t (tag_rows e) (node_tags e).
Definition with_tags (t : gmap TagId Tag) (e : EditDb) : EditDb :=
  mkEditDb (e_db e) (overrides e) t (node_tags e).
Definition with_memberships (t : gset (NodeId * TagId)) (e : EditDb) : EditDb :=
  mkEditDb (e_db e) (overrides e) (tag_rows e) t.

Definition node_exists (e : EditDb) (id : NodeId) : bool := bool_decide (is_Some (nodes (e_db e) !! id)).
Definition tag_exists (e : EditDb) (t : TagId) : bool := bool_decide (is_Some (tag_rows e !! t)).

(** The primary key of [node_overrides]. *)
Definition override_id_taken (id : N) (node : NodeId) (e : EditDb) : bool :=
  existsb (λ kv, bool_decide (kv.1 ≠ node) && N.eqb (ov_id kv.2) id) (map_to_list (overrides e)).

(** ** The effective pool ([NODE_COLUMNS]) *)

(** The label of a node: its own, or the name of the bound source with the
    lowest identifier. *)
Definition effective_label (e : EditDb) (id : NodeId) (p : PoolNode) : string :=
  if String.eqb (pn_label p) "" then
    match sort_by N.compare (b_source_id <$> filter (λ b, b_node_id b = id) (bindings (e_db e))) with
    | s :: _ => match sources (e_db e) !! s with Some r => sr_name r | None => "" end
    | [] => ""
    end
  else pn_label p.

Definition tags_of (e : EditDb) (id : NodeId) : list Tag :=
  omap (λ nt, tag_rows e !! nt.2)
    (sort_by (λ a b, N.compare a.2 b.2) (filter (λ nt, nt.1 = id) (elements (node_tags e)))).

Definition relabel (l : string) (n : Node) : Node :=
  mkNode (n_id n) (display_name n) (protocol n) (config n) (endpoint n) (authentication n) (transport n) (tls n)
    (udp n) (multiplex n) (obfuscation n) (congestion n) (n_chain n)
    (mkNodeSource l (Node.raw_uri (source n)) (imported_at (source n))) (n_tags n) (region n) (extras n).

(** A row of [nodes] joined with its override, its label and its tags. *)
Definition joined (e : EditDb) (id : NodeId) (p : PoolNode) : SqlitePool.PoolRow :=
  let r := pn_row p in
  SqlitePool.mkPoolRow
    (match SqlitePool.row_node r with Ok n => Ok (relabel (effective_label e id p) n) | Err m => Err m end)
    (SqlitePool.row_protocol r) (SqlitePool.row_region r) (SqlitePool.row_status r) (SqlitePool.row_missing r)
    (SqlitePool.row_revision r) (SqlitePool.row_created_at r) (overrides e !! id) (tags_of e id).

(** The table every pool query reads. *)
Definition view (e : EditDb) : SqlitePool.Table := SqlitePool.mkTable (map_imap (λ id p, Some (joined e id p)) (nodes (e_db e))).

(** [get_node] *)
Definition get_node (id : NodeId) (e : EditDb) : Result SourceError (option NodePoolEntry) :=
  match SqlitePool.table_rows (view e) !! id with
  | None => Ok None
  | Some r => let? x := map_err Storage (SqlitePool.to_pool_entry id r) in Ok (Some x)
  end.

(** ** Overrides ([SqliteNodeOverrideRepository]) *)

Definition fk_failed : SourceError := Storage "FOREIGN KEY constraint failed".
Definition pk_failed : SourceError := Storage "UNIQUE constraint failed: node_overrides.id".

(** An [INSERT INTO node_overrides ... ON CONFLICT(node_id) DO UPDATE]: the
    inserted row, or the conflicting row updated. *)
Definition write_override (fresh : NodeOverride) (update : NodeOverride → NodeOverride) (e : EditDb) :
    Result SourceError EditDb :=
  let node := ov_node_id fresh in
  let row := match overrides e !! node with Some o => update o | None => fresh end in
  if negb (node_exists e node) then Err fk_failed
  else if override_id_taken (ov_id row) node e then Err pk_failed
  else Ok (with_overrides (<[node := row]> (overrides e)) e).

(** A transaction that commits with a revision bump or rolls back. *)
Definition commit {A} (a : A) (r : Result SourceError EditDb) (e : EditDb) : Result SourceError A * EditDb :=
  match r with Ok e' => (Ok a, bump e') | Err m => (Err m, e) end.

(** [upsert_override] *)
Definition upsert_override (ov : NodeOverride) (e : EditDb) : Result SourceError () * EditDb :=
  commit () (write_override ov (λ _, ov) e) e.

(** [get_override] *)
Definition get_override_row (id : NodeId) (e : EditDb) : Result SourceError (option NodeOverride) :=
  Ok (overrides e !! id).

(** [delete_override] *)
Definition delete_override_row (id : NodeId) (e : EditDb) : Result SourceError () * EditDb :=
  commit () (Ok (with_overrides (delete id (overrides e)) e)) e.

Definition set_region (r : option string) (o : NodeOverride) : NodeOverride :=
  mkNodeOverride (ov_id o) (ov_node_id o) (ov_display_name o) r (ov_enabled o) (ov_sni o) (ov_skip_cert_verify o)
    (ov_fingerprint o) (sort_order o).
Definition set_enabled (b : bool) (o : NodeOverride) : NodeOverride :=
  mkNodeOverride (ov_id o) (ov_node_id o) (ov_display_name o) (ov_region o) (Some b) (ov_sni o)
    (ov_skip_cert_verify o) (ov_fingerprint o) (sort_order o).
Definition blank_override (id : N) (node : NodeId) : NodeOverride :=
  mkNodeOverride id node None None None None None None 0.

(** [patch_override_region] *)
Definition patch_override_region (new_id : N) (node : NodeId) (r : option string) (e : EditDb) :
    Result SourceError () * EditDb :=
  commit () (write_override (set_region r (blank_override new_id node)) (set_region r) e) e.

(** [iter().copied().collect::<BTreeSet<_>>()] *)
Definition btree_set (l : list N) : list N := sort_by N.compare (remove_dups l).

(** The loop of [batch_set_enabled]; [fresh k] is the [k]-th identifier drawn. *)
Fixpoint enable_each (fresh : nat → N) (k : nat) (b : bool) (ids : list NodeId) (e : EditDb) :
    Result SourceError EditDb :=
  match ids with
  | [] => Ok e
  | id :: ids =>
      if negb (node_exists e id) then Err (NodeNotFound (id_display id))
      else let? e' := write_override (set_enabled b (blank_override (fresh k) id)) (set_enabled b) e in
           enable_each fresh (S k) b ids e'
  end.

(** [batch_set_enabled] *)
Definition batch_set_enabled_rows (fresh : nat → N) (ids : list NodeId) (b : bool) (e : EditDb) :
    Result SourceError N * EditDb :=
  if bool_decide (ids = []) then (Ok 0%N, e)
  else commit (N.of_nat (length (btree_set ids))) (enable_each fresh 0 b (btree_set ids) e) e.

(** ** Tags ([node_override_repository/tags.rs]) *)

Inductive TagUpdateMode := Replace | Add | Remove.

Fixpoint check_assignments (l : list (NodeId * list TagId)) (e : EditDb) : Result SourceError () :=
  match l with
  | [] => Ok ()
  | (node, ts) :: l =>
      if negb (node_exists e node) then Err (NodeNotFound (id_display node))
      else if negb (forallb (tag_exists e) (btree_set ts)) then Err TagNotFound
      else check_assignments l e
  end.

(** The statements one assignment runs. *)
Definition assign_tags (mode : TagUpdateMode) (m : gset (NodeId * TagId)) (a : NodeId * list TagId) :
    gset (NodeId * TagId) :=
  let m := match mode with Replace => filter (λ nt, nt.1 ≠ a.1) m | _ => m end in
  foldl (λ m t, match mode with Remove => m ∖ {[(a.1, t)]} | _ => m ∪ {[(a.1, t)]} end) m (btree_set a.2).

(** [apply_tags] *)
Definition apply_tags (l : list (NodeId * list TagId)) (mode : TagUpdateMode) (e : EditDb) :
    Result SourceError () * EditDb :=
  if bool_decide (l = []) then (Ok (), e)
  else commit () (let? _ := check_assignments l e in
                  Ok (with_memberships (foldl (assign_tags mode) (node_tags e) l) e)) e.

(** The unique index on [tags.name]. *)
Definition tag_name_taken (id : TagId) (name : string) (e : EditDb) : bool :=
  existsb (λ kv, bool_decide (kv.1 ≠ id) && String.eqb (tag_name kv.2) name) (map_to_list (tag_rows e)).

(** [rename_tag] *)
Definition rename_tag (id : TagId) (name : string) (color : option string) (e : EditDb) :
    Result SourceError Tag * EditDb :=
  commit (mkTag id name color)
    (if negb (tag_exists e id) then Err TagNotFound
     else if tag_name_taken id name e then Err TagExists
     else Ok (with_tags (<[id := mkTag id name color]> (tag_rows e)) e)) e.

(** [list_tags] *)
Definition list_tag_rows (e : EditDb) : Result SourceError (list Tag) :=
  Ok (sort_by (λ a b, String.compare (tag_name a) (tag_name b)) ((map_to_list (tag_rows e)).*2)).

(** [create_tag]: nothing a pool query returns changes, so no bump. *)
Definition create_tag_row (id : TagId) (name : string) (color : option string) (e : EditDb) :
    Result SourceError Tag * EditDb :=
  if tag_exists e id then (Err (Storage "UNIQUE constraint failed: tags.id"), e)
  else if tag_name_taken id name e then (Err TagExists, e)
  else (Ok (mkTag id name color), with_tags (<[id := mkTag id name color]> (tag_rows e)) e).

(** [delete_tag], with the cascade to the memberships. *)
Definition delete_tag_row (id : TagId) (e : EditDb) : Result SourceError () * EditDb :=
  commit () (if negb (tag_exists e id) then Err TagNotFound
             else Ok (with_memberships (filter (λ nt, nt.2 ≠ id) (node_tags e))
                        (with_tags (delete id (tag_rows e)) e))) e.

(** ** Commands ([node_commands.rs]) *)

Definition max_tag_name_len : nat := 128.

(** [str::chars().count()] of a valid text: the bytes that are not
    continuation bytes. *)
Fixpoint chars_count (s : string) : nat :=
  match s with
  | "" => 0
  | String c s => (if N.eqb (N.land (Ascii.N_of_ascii c) 192) 128 then 0 else 1) + chars_count s
  end.

(** [validate_tag_name] *)
Definition validate_tag_name (name : string) : Result SourceAppError () :=
  if is_empty name then Err (InvalidInput "tag name must not be empty")
  else if (max_tag_name_len <? chars_count name)%nat
  then Err (InvalidInput "tag name must not exceed 128 characters")
  else Ok ().

Definition is_ascii_hexdigit (c : Ascii.ascii) : bool :=
  let b := Ascii.N_of_ascii c in
  (N.leb 48 b && N.leb b 57) || (N.leb 97 b && N.leb b 102) || (N.leb 65 b && N.leb b 70).

(** [validate_tag_color] *)
Definition validate_tag_color (color : option string) : Result SourceAppError () :=
  match color with
  | Some c =>
      if negb (Nat.eqb (String.length c) 7) || negb (starts_with "#" c)
         || negb (forallb is_ascii_hexdigit (drop 1 (String.list_ascii_of_string c)))
      then Err (InvalidInput "tag color must be #RRGGBB") else Ok ()
  | None => Ok ()
  end.

(** [map_source_error] of [node_commands.rs] *)
Definition map_node_error (e : SourceError) : SourceAppError :=
  match e with
  | NameExists => AppNameExists
  | NodeChain c => AppNodeChain c
  | other => AppSource other
  end.

Definition lift {A} (r : Result SourceError A * EditDb) : Result SourceAppError A * EditDb :=
  (map_err map_node_error r.1, r.2).

(** [get_node(..)?.ok_or(NodeNotFound)] *)
Definition require_node (id : NodeId) (e : EditDb) : Result SourceAppError NodePoolEntry :=
  let? x := map_err map_node_error (get_node id e) in ok_or x AppNodeNotFound.

Record UpdateOverrideParams := mkOverrideParams {
  p_display_name : option string;
  p_region : option string;
  p_enabled : option bool;
  p_sni : option string;
  p_skip_cert_verify : option bool;
  p_fingerprint : option string;
  p_sort_order : Z
}.

(** [update_override] *)
Definition update_override (new_id : N) (node : NodeId) (p : UpdateOverrideParams) (e : EditDb) :
    Result SourceAppError NodeOverride * EditDb :=
  match require_node node e with
  | Err m => (Err m, e)
  | Ok _ =>
      let ov := mkNodeOverride new_id node (p_display_name p) (p_region p) (p_enabled p) (p_sni p)
        (p_skip_cert_verify p) (p_fingerprint p) (p_sort_order p) in
      match lift (upsert_override ov e) with
      | (Ok _, e') => (Ok ov, e')
      | (Err m, e') => (Err m, e')
      end
  end.

(** [delete_override] *)
Definition delete_override (node : NodeId) (e : EditDb) : Result SourceAppError () * EditDb :=
  lift (delete_override_row node e).

(** [effective_region] *)
Definition effective_region (x : NodePoolEntry) : RegionAssignment :=
  match override_info x with
  | Some o => match ov_region o with
              | Some r => mkRegion RegionManual (Some r)
              | None => mkRegion RegionAuto (region_value (region (node x)))
              end
  | None => mkRegion RegionAuto (region_value (region (node x)))
  end.

(** [set_manual_region] *)
Definition set_manual_region (new_id : N) (node : NodeId) (r : option string) (e : EditDb) :
    Result SourceAppError RegionAssignment * EditDb :=
  match require_node node e with
  | Err m => (Err m, e)
  | Ok _ =>
      match lift (patch_override_region new_id node r e) with
      | (Err m, e') => (Err m, e')
      | (Ok _, e') =>
          match require_node node e' with
          | Err m => (Err m, e')
          | Ok x => (Ok (effective_region x), e')
          end
      end
  end.

(** [get_override] *)
Definition get_override (node : NodeId) (e : EditDb) : Result SourceAppError (option NodeOverride) :=
  let? _ := require_node node e in map_err map_node_error (get_override_row node e).

(** [batch_set_enabled], [set_node_tags] *)
Definition batch_set_enabled (fresh : nat → N) (ids : list NodeId) (b : bool) (e : EditDb) :
    Result SourceAppError N * EditDb := lift (batch_set_enabled_rows fresh ids b e).
Definition set_node_tags (node : NodeId) (ts : list TagId) (e : EditDb) : Result SourceAppError () * EditDb :=
  lift (apply_tags [(node, ts)] Replace e).

(** [batch_modify_tags] *)
Definition batch_modify_tags (l : list (NodeId * list TagId)) (mode : TagUpdateMode) (e : EditDb) :
    Result SourceAppError () * EditDb :=
  if bool_decide (NoDup l.*1) then lift (apply_tags l mode e)
  else (Err (InvalidInput "duplicate node in tag assignments"), e).

(** [batch_set_tags] *)
Definition batch_set_tags (l : list (NodeId * list TagId)) (e : EditDb) : Result SourceAppError () * EditDb :=
  batch_modify_tags l Replace e.

(** The checks of a tag's presentation. *)
Definition check_tag (name : string) (color : option string) : Result SourceAppError () :=
  let? _ := validate_tag_name name in validate_tag_color color.

(** [create_tag] *)
Definition create_tag (id : TagId) (name : string) (color : option string) (e : EditDb) :
    Result SourceAppError Tag * EditDb :=
  let name := trim name in
  match check_tag name color with Err m => (Err m, e) | Ok _ => lift (create_tag_row id name color e) end.

(** [update_tag] *)
Definition update_tag (id : TagId) (name : string) (color : option string) (e : EditDb) :
    Result SourceAppError Tag * EditDb :=
  let name := trim name in
  match check_tag name color with Err m => (Err m, e) | Ok _ => lift (rename_tag id name color e) end.

(** [delete_tag], [list_tags] *)
Definition delete_tag (id : TagId) (e : EditDb) : Result SourceAppError () * EditDb := lift (delete_tag_row id e).
Definition list_tags (e : EditDb) : Result SourceAppError (list Tag) := map_err map_node_error (list_tag_rows e).

End NodeEdits.
