(* ===== verification/PoolView.v ===== *)
(** * The effective pool and its revision

    The tables of [NodeEdits] under every write: references stay intact, and
    two states of one history with the same pool revision have the same
    effective pool, so a cached generation of that revision is current. *)

From S2P Require Import Prelude Kernel Node NodePool Text UrlText UrlInstance Crypto Source SourceDb Reconcile.
From S2P Require Import SourceInv PoolInv SourceSteps RefreshTheorems NodeEdits.
Import Text UrlText Crypto Source SourceDb Reconcile SourceInv PoolInv SourceSteps NodeEdits.

Module PoolView.

(** ** What a source write keeps *)

(** The revision moves by one at most, nodes stay, and a write that leaves the
    revision alone leaves everything a pool query reads. *)
Record keeps (db db' : Db) : Prop := {
  kp_revision : pool_revision db' = pool_revision db ∨ pool_revision db' = (pool_revision db + 1)%N;
  kp_dom : dom (nodes db) ⊆ dom (nodes db');
  kp_same : pool_revision db' = pool_revision db →
    nodes db' = nodes db ∧ bindings db' = bindings db ∧
    ∀ i r, sources db !! i = Some r → ∃ r', sources db' !! i = Some r' ∧ sr_name r' = sr_name r
}.

Lemma keeps_refl db : keeps db db.
Proof. split; [lia|done|]. intros _. split_and!; [done|done|eauto]. Qed.

Lemma keeps_pool db db' :
  nodes db' = nodes db → bindings db' = bindings db → pool_revision db' = pool_revision db →
  (∀ i r, sources db !! i = Some r → ∃ r', sources db' !! i = Some r' ∧ sr_name r' = sr_name r) → keeps db db'.
Proof. intros Hn Hb Hr Hs. split; [lia|by rewrite Hn|done]. Qed.

Lemma keeps_tables db db' :
  sources db' = sources db → nodes db' = nodes db → bindings db' = bindings db →
  pool_revision db' = pool_revision db → keeps db db'.
Proof. intros Hs Hn Hb Hr. apply keeps_pool; try done. rewrite Hs. eauto. Qed.

Lemma keeps_bumped db db' :
  pool_revision db' = (pool_revision db + 1)%N → dom (nodes db) ⊆ dom (nodes db') → keeps db db'.
Proof. intros Hr Hd. split; [lia|done|lia]. Qed.

#[local] Hint Resolve keeps_refl : core.
#[local] Hint Extern 1 (keeps _ _) => by apply keeps_tables : core.

Section view.
Context `{L : UrlLib} `{C : CryptoLib}.
Variable identity_json : NodeIdentity → string.
Variable key : option string.
Abbreviation apply_op := (apply_op identity_json key).

Lemma insert_node_dom now n fp label db id db' :
  insert_node key now n fp label db = Some (id, db') → dom (nodes db) ⊆ dom (nodes db').
Proof. unfold insert_node. case_goal; [done|]. intros [= <- <-]. simpl. set_solver. Qed.

Lemma entry_step_dom now sid src acc e acc' :
  entry_step identity_json key now sid src acc e = Ok acc' → dom (nodes (a_db acc)) ⊆ dom (nodes (a_db acc')).
Proof.
  unfold entry_step. destruct (e_node e) as [n|]; [|by intros <-%Ok_inj].
  intros ([[id status] acc1] & Hr & <-%Ok_inj)%result_bind_Ok. simpl. revert Hr. unfold resolve_entry.
  destruct (a_identities acc !! _) as [[i []]|].
  - intros [= <- <- <-]. simpl. by rewrite dom_alter_L.
  - by intros [= <- <- <-].
  - destruct (insert_node _ _ _ _ _ _) as [[i db']|] eqn:Hi; [|done]. intros [= <- <- <-]. simpl.
    by eapply insert_node_dom.
Qed.

Lemma process_entries_dom now sid src l acc acc' :
  process_entries identity_json key now sid src l acc = Ok acc' → dom (nodes (a_db acc)) ⊆ dom (nodes (a_db acc')).
Proof.
  revert acc. induction l as [|e l IH]; intros acc; simpl; [by intros <-%Ok_inj|].
  intros (acc1 & H1%entry_step_dom & H2%IH)%result_bind_Ok. by etrans.
Qed.

Lemma mark_missing_dom cand acc : dom (nodes (a_db (mark_missing cand acc))) = dom (nodes (a_db acc)).
Proof.
  destruct (mark_missing_spec cand acc) as [H _]. apply set_eq. intros i.
  rewrite !elem_of_dom, H, fmap_is_Some. done.
Qed.

Lemma insert_snapshot_tables id row db db' :
  insert_snapshot id row db = Ok db' →
  sources db' = sources db ∧ nodes db' = nodes db ∧ bindings db' = bindings db ∧ pool_revision db' = pool_revision db.
Proof.
  unfold insert_snapshot. intros H. do 4 (case_hyp H; [done|]). by apply Ok_inj in H as <-.
Qed.

Lemma keeps_reconcile now i db res db' :
  reconcile_tx identity_json key now i db = Ok (res, db') → keeps db db'.
Proof.
  intros (fetched & row & db1 & acc & _ & _ & Hs & Hp & _ & Hd)%reconcile_tx_Ok.
  destruct (insert_snapshot_tables _ _ _ _ Hs) as (_ & Hn & _ & Hr).
  destruct (reconcile_tx_tables _ _ _ _ _ _ _ _ Hp) as ((_ & _ & _ & T & _) & _). apply process_entries_dom in Hp.
  set (acc' := mark_missing _ acc) in *.
  assert (pool_revision db' = pool_revision (a_db acc') + 1 ∧ nodes db' = nodes (a_db acc'))%N as [Er En].
  { destruct (ri_job_id i) as [job|]; [|by rewrite Hd]. apply complete_Ok in Hd as (? & ? & _ & _ & _ & ->). done. }
  apply keeps_bumped.
  - change (pool_revision (a_db acc') = pool_revision db1) in T. change (pool_revision db1 = pool_revision db) in Hr. lia.
  - rewrite En. unfold acc'. rewrite mark_missing_dom. simpl in Hp, Hn. by rewrite <-Hn.
Qed.

Lemma import_fold_dom now l db res :
  dom (nodes db) ⊆ dom (nodes (foldl (import_one identity_json key now) (db, res) l).1).
Proof.
  apply (foldl_preserve (λ s : Db * ImportResult, dom (nodes db) ⊆ dom (nodes s.1))); [|done].
  intros [d r] n Hd. etrans; [exact Hd|]. unfold import_one, retain_manual_contribution. simpl.
  repeat case_goal; simpl; rewrite ?dom_alter_L; try done. by eapply insert_node_dom.
Qed.

Lemma keeps_delete_source id db : keeps db (delete_source_row id db).2.
Proof.
  unfold delete_source_row. destruct (sources db !! id); [|done]. apply keeps_bumped; simpl; [lia|].
  intros i. rewrite !elem_of_dom, map_lookup_imap. intros [p ->]. simpl. eauto.
Qed.

Lemma keeps_disable id job db : keeps db (disable_after_failure id job db).2.
Proof.
  apply keeps_pool; try done. intros i r Hr. simpl. destruct (decide (id = i)) as [->|Hi].
  - rewrite lookup_alter_eq, Hr. simpl. eexists. split; [done|]. by destruct (_ && _).
  - rewrite lookup_alter_ne by done. eauto.
Qed.

Lemma keeps_create_source n1 n2 s db : keeps db (create_source_row key n1 n2 s db).2.
Proof.
  unfold create_source_row. destruct (result_bind _ _) as [db'|] eqn:E; [|done].
  do 3 apply result_bind_Ok in E as (? & _ & E). destruct (bool_decide _) eqn:Hid; [done|]. case_hyp E; [done|].
  apply Ok_inj in E as <-. apply keeps_pool; try done. intros i r Hr. simpl.
  rewrite lookup_insert_ne; [eauto|]. intros <-. apply bool_decide_eq_false in Hid. by destruct Hid.
Qed.

Lemma apply_op_keeps o db : keeps db (apply_op o db).
Proof.
  destruct o; simpl.
  - apply keeps_create_source.
  - unfold update_source_row. destruct (result_bind _ _) as [db'|] eqn:E; [|done].
    do 4 apply result_bind_Ok in E as (? & _ & E). case_hyp E; [done|]. apply Ok_inj in E as <-.
    apply keeps_bumped; simpl; [lia|done].
  - unfold apply_config. destruct (result_bind _ _) as [[s db']|] eqn:E; [|done].
    do 3 apply result_bind_Ok in E as (? & _ & E). case_hyp E; [done|].
    apply result_bind_Ok in E as (? & _ & E). injection E as <- <-. apply keeps_bumped; simpl; [lia|done].
  - apply keeps_delete_source.
  - apply keeps_disable.
  - unfold create_job. repeat case_goal; auto.
  - unfold mark_running. repeat case_goal; auto.
  - unfold update_phase. destruct (db_ts now); auto.
  - unfold mark_completed. destruct (db_ts now); auto.
  - unfold mark_failed. destruct (db_ts now); auto.
  - unfold mark_cancelled. destruct (db_ts now); auto.
  - auto.
  - unfold recover_crashed_jobs. destruct (db_ts now); auto.
  - unfold recover_stale_jobs. destruct (db_ts cutoff); [|done]. destruct (db_ts now); auto.
  - unfold create_snapshot. destruct (result_bind _ _) as [db'|] eqn:E; [|done].
    apply result_bind_Ok in E as (? & _ & (H1 & H2 & H3 & H4)%insert_snapshot_tables). by apply keeps_tables.
  - unfold touch_fetched_at. destruct (result_bind _ _) as [db'|] eqn:E; [|done].
    apply result_bind_Ok in E as (ts & _ & (db1 & Hc & <-%Ok_inj)%result_bind_Ok).
    apply complete_Ok in Hc as (? & ? & _ & _ & _ & ->). by apply keeps_tables.
  - unfold reconcile. destruct (reconcile_tx _ _ _ _ _) as [[res db']|] eqn:E; [|done]. by eapply keeps_reconcile.
  - unfold import_nodes. pose proof (import_fold_ok identity_json key now l db (mkImport 0 0 0 [])) as Hi.
    pose proof (import_fold_dom now l db (mkImport 0 0 0 [])) as Hd.
    destruct (foldl _ _ _) as [db' res]. simpl in *. apply keeps_bumped; simpl; [lia|done].
  - apply keeps_bumped; simpl; [lia|done].
Qed.

(** ** Steps of the whole pool *)

Inductive EOp :=
  | ESource (o : Op)
  | EUpsert (ov : NodeOverride)
  | EDeleteOverride (id : NodeId)
  | EPatchRegion (new_id : N) (id : NodeId) (r : option string)
  | EEnable (fresh : nat → N) (ids : list NodeId) (b : bool)
  | ETags (l : list (NodeId * list TagId)) (mode : TagUpdateMode)
  | ERenameTag (id : TagId) (name : string) (color : option string)
  | ECreateTag (id : TagId) (name : string) (color : option string)
  | EDeleteTag (id : TagId).

Definition apply_eop (o : EOp) (e : EditDb) : EditDb :=
  match o with
  | ESource o => mkEditDb (apply_op o (e_db e)) (overrides e) (tag_rows e) (node_tags e)
  | EUpsert ov => (upsert_override ov e).2
  | EDeleteOverride id => (delete_override_row id e).2
  | EPatchRegion new_id id r => (patch_override_region new_id id r e).2
  | EEnable fresh ids b => (batch_set_enabled_rows fresh ids b e).2
  | ETags l mode => (apply_tags l mode e).2
  | ERenameTag id name color => (rename_tag id name color e).2
  | ECreateTag id name color => (create_tag_row id name color e).2
  | EDeleteTag id => (delete_tag_row id e).2
  end.

Definition run_eops (l : list EOp) (e : EditDb) : EditDb := foldl (λ e o, apply_eop o e) e l.

Definition empty_edit_db : EditDb := mkEditDb empty_db ∅ ∅ ∅.

(** ** Integrity of overrides and tags *)

Record edit_ok (e : EditDb) : Prop := {
  eo_db : db_ok (e_db e);
  eo_override i o : overrides e !! i = Some o → ov_node_id o = i ∧ is_Some (nodes (e_db e) !! i);
  eo_override_id i j o o' : overrides e !! i = Some o → overrides e !! j = Some o' → ov_id o = ov_id o' → i = j;
  eo_tag t g : tag_rows e !! t = Some g → tag_id g = t;
  eo_tag_name t t' g g' : tag_rows e !! t = Some g → tag_rows e !! t' = Some g' → tag_name g = tag_name g' → t = t';
  eo_member n t : (n, t) ∈ node_tags e → is_Some (nodes (e_db e) !! n) ∧ is_Some (tag_rows e !! t)
}.

Lemma edit_ok_empty : edit_ok empty_edit_db.
Proof. split; simpl; [apply db_ok_empty|..]; intros; simplify_map_eq; try done; set_solver. Qed.

Lemma edit_ok_bump e : edit_ok e → edit_ok (bump e).
Proof. intros [H1 H2 H3 H4 H5 H6]. split; simpl; try done. destruct H1. split; try done. simpl in *. lia. Qed.

Lemma override_id_taken_false id node e :
  override_id_taken id node e = false ↔ ∀ i o, overrides e !! i = Some o → i ≠ node → ov_id o ≠ id.
Proof.
  unfold override_id_taken. rewrite existsb_false. split.
  - intros H i o Ho Hi He. specialize (H (i, o)). rewrite elem_of_map_to_list in H. specialize (H Ho). simpl in H.
    rewrite bool_decide_eq_true_2 in H by done. simpl in H. by apply N.eqb_neq in H.
  - intros H [i o] Ho%elem_of_map_to_list. simpl. destruct (decide (i = node)) as [->|Hi].
    + by rewrite bool_decide_eq_false_2 by (by intros []).
    + rewrite bool_decide_eq_true_2 by done. simpl. apply N.eqb_neq. by eapply H.
Qed.

Lemma tag_name_taken_false id name e :
  tag_name_taken id name e = false ↔ ∀ i g, tag_rows e !! i = Some g → i ≠ id → tag_name g ≠ name.
Proof.
  unfold tag_name_taken. rewrite existsb_false. split.
  - intros H i o Ho Hi He. specialize (H (i, o)). rewrite elem_of_map_to_list in H. specialize (H Ho). simpl in H.
    rewrite bool_decide_eq_true_2 in H by done. simpl in H. by apply String.eqb_neq in H.
  - intros H [i o] Ho%elem_of_map_to_list. simpl. destruct (decide (i = id)) as [->|Hi].
    + by rewrite bool_decide_eq_false_2 by (by intros []).
    + rewrite bool_decide_eq_true_2 by done. simpl. apply String.eqb_neq. by eapply H.
Qed.

(** The row a write of an override leaves. *)
Lemma write_override_Ok fresh update e e' :
  write_override fresh update e = Ok e' →
  ∃ row, row = match overrides e !! ov_node_id fresh with Some o => update o | None => fresh end ∧
    is_Some (nodes (e_db e) !! ov_node_id fresh) ∧ override_id_taken (ov_id row) (ov_node_id fresh) e = false ∧
    e' = with_overrides (<[ov_node_id fresh := row]> (overrides e)) e.
Proof.
  unfold write_override, node_exists. destruct (bool_decide _) eqn:Hn; [|done]. simpl.
  destruct (override_id_taken _ _ _) eqn:Ht; [done|]. intros <-%Ok_inj. apply bool_decide_eq_true in Hn. eauto 10.
Qed.

Lemma edit_ok_write fresh update e e' :
  (∀ o, ov_node_id (update o) = ov_node_id o ∨ ov_node_id (update o) = ov_node_id fresh) →
  write_override fresh update e = Ok e' → edit_ok e → edit_ok e'.
Proof.
  intros Hu (row & Hrow & Hn & Ht & ->)%write_override_Ok [H1 H2 H3 H4 H5 H6].
  assert (ov_node_id row = ov_node_id fresh) as Hid.
  { rewrite Hrow. destruct (overrides e !! ov_node_id fresh) as [o|] eqn:Ho; [|done].
    destruct (Hu o) as [-> | ->]; [|done]. by apply (H2 _ _ Ho). }
  rewrite override_id_taken_false in Ht.
  split; simpl; try done.
  - intros i o [[<- <-]|[_ Ho]]%lookup_insert_Some; [done|by eapply H2].
  - intros i j o o' [[<- <-]|[Hi Ho]]%lookup_insert_Some [[<- <-]|[Hj Ho']]%lookup_insert_Some He; try done.
    + by destruct (Ht j o').
    + by destruct (Ht i o).
    + by eapply H3.
Qed.

Lemma edit_ok_enable fresh k b ids e e' : enable_each fresh k b ids e = Ok e' → edit_ok e → edit_ok e'.
Proof.
  revert k e. induction ids as [|id ids IH]; intros k e; simpl; [by intros <-%Ok_inj|].
  destruct (negb _); [done|]. intros (e1 & H1 & H2)%result_bind_Ok Hok. eapply IH; [done|].
  eapply edit_ok_write; [|done|done]. by left.
Qed.

Lemma check_assignments_Ok l e :
  check_assignments l e = Ok () →
  ∀ a t, a ∈ l → t ∈ a.2 → is_Some (nodes (e_db e) !! a.1) ∧ is_Some (tag_rows e !! t).
Proof.
  induction l as [|[n ts] l IH]; simpl; [by intros _ a t ?%elem_of_nil|].
  destruct (node_exists e n) eqn:Hn; [|done]. destruct (forallb _ _) eqn:Ht; [|done]. simpl.
  intros Hl a t [->|Ha]%elem_of_cons Hta; [|by eapply IH]. split; [by apply bool_decide_eq_true in Hn|].
  rewrite forallb_forall in Ht. simpl in Hta. specialize (Ht t). unfold tag_exists in Ht.
  eapply bool_decide_eq_true. apply Ht, list_elem_of_In. unfold btree_set. by rewrite elem_of_sort_by, elem_of_remove_dups.
Qed.

Lemma assign_tags_elem mode m a n t :
  (n, t) ∈ assign_tags mode m a ↔
  if decide (n = a.1) then
    match mode with
    | Replace => t ∈ a.2
    | Add => (n, t) ∈ m ∨ t ∈ a.2
    | Remove => (n, t) ∈ m ∧ t ∉ a.2
    end
  else (n, t) ∈ m.
Proof.
  unfold assign_tags.
  assert (Hb : t ∈ btree_set a.2 ↔ t ∈ a.2).
  { unfold btree_set. by rewrite elem_of_sort_by, elem_of_remove_dups. }
  assert (Hadd : ∀ l (m : gset (NodeId * TagId)), (n, t) ∈ foldl (λ m t, m ∪ {[(a.1, t)]}) m l ↔ (n, t) ∈ m ∨ n = a.1 ∧ t ∈ l).
  { intros l. induction l as [|x l IH]; intros m'; simpl; [set_solver|]. rewrite IH. set_solver. }
  assert (Hrem : ∀ l (m : gset (NodeId * TagId)), (n, t) ∈ foldl (λ m t, m ∖ {[(a.1, t)]}) m l ↔ (n, t) ∈ m ∧ ¬ (n = a.1 ∧ t ∈ l)).
  { intros l. induction l as [|x l IH]; intros m'; simpl; [set_solver|]. rewrite IH. set_solver. }
  destruct mode; rewrite ?Hadd, ?Hrem, ?elem_of_filter, Hb; destruct (decide (n = a.1)); simpl; tauto.
Qed.

(** A whole list of assignments to distinct nodes. *)
Lemma assign_all_elem mode (l : list (NodeId * list TagId)) :
  NoDup l.*1 → ∀ m n t, (n, t) ∈ foldl (assign_tags mode) m l ↔
  match (list_to_map l : gmap NodeId (list TagId)) !! n with
  | None => (n, t) ∈ m
  | Some ts => match mode with
               | Replace => t ∈ ts
               | Add => (n, t) ∈ m ∨ t ∈ ts
               | Remove => (n, t) ∈ m ∧ t ∉ ts
               end
  end.
Proof.
  induction l as [|[i ts] l IH]; intros Hnd m n t; simpl; [by rewrite lookup_empty|].
  csimpl in Hnd. apply NoDup_cons in Hnd as [Hi Hnd]. rewrite (IH Hnd).
  destruct (decide (n = i)) as [->|Hne].
  - rewrite lookup_insert_eq, (not_elem_of_list_to_map_1 (M := gmap NodeId)) by done.
    rewrite assign_tags_elem. simpl. by rewrite decide_True.
  - rewrite lookup_insert_ne by done. pose proof (assign_tags_elem mode m (i, ts) n t) as Ha. simpl in Ha.
    rewrite decide_False in Ha by done.
    destruct ((list_to_map l : gmap NodeId (list TagId)) !! n) as [ts'|]; [destruct mode|]; tauto.
Qed.

Lemma edit_ok_tags l mode e :
  check_assignments l e = Ok () → edit_ok e →
  edit_ok (with_memberships (foldl (assign_tags mode) (node_tags e) l) e).
Proof.
  intros Hc [H1 H2 H3 H4 H5 H6]. split; simpl; try done. pose proof (check_assignments_Ok _ _ Hc) as Hl. clear Hc.
  assert (∀ m : gset (NodeId * TagId), (∀ n t, (n, t) ∈ m → is_Some (nodes (e_db e) !! n) ∧ is_Some (tag_rows e !! t)) →
    ∀ n t, (n, t) ∈ foldl (assign_tags mode) m l → is_Some (nodes (e_db e) !! n) ∧ is_Some (tag_rows e !! t)) as Hm.
  { induction l as [|a l IH]; intros m Hm; simpl; [done|]. apply IH; [intros b t Hb; apply Hl; by right|].
    intros n t Ht%assign_tags_elem. destruct (decide (n = a.1)) as [->|]; [|by apply Hm].
    destruct mode; [apply Hl; [left|done]| |by apply Hm, Ht].
    destruct Ht as [Ht|Ht]; [by apply Hm|apply Hl; [left|done]]. }
  by apply Hm.
Qed.

Lemma edit_ok_insert_tag id name color e :
  tag_name_taken id name e = false → edit_ok e → edit_ok (with_tags (<[id := mkTag id name color]> (tag_rows e)) e).
Proof.
  rewrite tag_name_taken_false. intros Ht [H1 H2 H3 H4 H5 H6]. split; simpl; try done.
  - intros t g [[<- <-]|[_ Hg]]%lookup_insert_Some; [done|eauto].
  - intros t t' g g' [[<- <-]|[Hi Hg]]%lookup_insert_Some [[<- <-]|[Hi' Hg']]%lookup_insert_Some He; try done.
    + by destruct (Ht t' g').
    + by destruct (Ht t g).
    + by eapply H5.
  - intros n t Hm. destruct (H6 n t Hm). split; [done|]. apply lookup_insert_is_Some'. auto.
Qed.

Lemma apply_eop_ok o e : edit_ok e → edit_ok (apply_eop o e).
Proof.
  intros He. destruct o; simpl.
  - destruct He as [H1 H2 H3 H4 H5 H6]. destruct (apply_op_keeps o (e_db e)) as [_ Hd _].
    assert (∀ i, is_Some (nodes (e_db e) !! i) → is_Some (nodes (apply_op o (e_db e)) !! i)) as Hn.
    { intros i. rewrite <-!elem_of_dom. apply Hd. }
    split; simpl; try done; [by apply apply_op_ok|..].
    + intros i ov Ho. destruct (H2 i ov Ho). auto.
    + intros n t Ht. destruct (H6 n t Ht). auto.
  - unfold upsert_override. destruct (write_override _ _ _) eqn:Hw; [|done]. simpl. apply edit_ok_bump.
    eapply edit_ok_write; [|done|done]. by right.
  - apply edit_ok_bump. destruct He as [H1 H2 H3 H4 H5 H6]. split; simpl; try done.
    + intros i o [_ Ho]%lookup_delete_Some. eauto.
    + intros i j o o' [_ Ho]%lookup_delete_Some [_ Ho']%lookup_delete_Some. eauto.
  - unfold patch_override_region. destruct (write_override _ _ _) eqn:Hw; [|done]. simpl. apply edit_ok_bump.
    eapply edit_ok_write; [|done|done]. by left.
  - unfold batch_set_enabled_rows. case_bool_decide; [done|]. destruct (enable_each _ _ _ _ _) eqn:Hw; [|done].
    simpl. apply edit_ok_bump. by eapply edit_ok_enable.
  - unfold apply_tags. case_bool_decide; [done|]. destruct (check_assignments l e) as [[]|] eqn:Hc; [|done]. simpl.
    apply edit_ok_bump. by apply edit_ok_tags.
  - unfold rename_tag, tag_exists. destruct (bool_decide _) eqn:Hx; [|done]. simpl.
    destruct (tag_name_taken _ _ _) eqn:Ht; [done|]. simpl. apply edit_ok_bump.
    apply bool_decide_eq_true in Hx. by apply edit_ok_insert_tag.
  - unfold create_tag_row. destruct (tag_exists e id); [done|]. destruct (tag_name_taken _ _ _) eqn:Ht; [done|].
    by apply edit_ok_insert_tag.
  - unfold delete_tag_row. destruct (tag_exists e id); [|done]. simpl. apply edit_ok_bump.
    destruct He as [H1 H2 H3 H4 H5 H6]. split; simpl; try done.
    + intros t g [_ Hg]%lookup_delete_Some. eauto.
    + intros t t' g g' [_ Hg]%lookup_delete_Some [_ Hg']%lookup_delete_Some. eauto.
    + intros n t [Hne Ht]%elem_of_filter. destruct (H6 n t Ht). simpl in Hne. split; [done|].
      by rewrite lookup_delete_ne.
Qed.

(** ** The revision versions the pool *)

Definition revision (e : EditDb) : N := pool_revision (e_db e).

Lemma view_ext e e' :
  nodes (e_db e') = nodes (e_db e) → overrides e' = overrides e → (∀ id, tags_of e' id = tags_of e id) →
  (∀ id p, nodes (e_db e) !! id = Some p → effective_label e' id p = effective_label e id p) → view e' = view e.
Proof.
  intros Hn Ho Ht Hl. unfold view. f_equal. rewrite Hn. apply map_eq. intros i. rewrite !map_lookup_imap.
  destruct (nodes (e_db e) !! i) as [p|] eqn:Hp; [|done]. simpl. unfold joined. by rewrite Hl, Ho, Ht.
Qed.

(** The label of a node depends on the names of the sources that bind it. *)
Lemma effective_label_ext e db' id p :
  edit_ok e → bindings db' = bindings (e_db e) →
  (∀ i r, sources (e_db e) !! i = Some r → ∃ r', sources db' !! i = Some r' ∧ sr_name r' = sr_name r) →
  effective_label (mkEditDb db' (overrides e) (tag_rows e) (node_tags e)) id p = effective_label e id p.
Proof.
  intros He Hb Hs. unfold effective_label. simpl. rewrite Hb. destruct (String.eqb _ _); [|done].
  destruct (sort_by _ _) as [|s l] eqn:Hl; [done|].
  assert (s ∈ b_source_id <$> filter (λ b, b_node_id b = id) (bindings (e_db e))) as Hin.
  { rewrite <-(elem_of_sort_by N.compare), Hl. left. }
  apply list_elem_of_fmap in Hin as (b & -> & [_ Hb']%list_elem_of_filter).
  pose proof (pool_binding_source _ _ _ (ok_pool _ (eo_db _ He)) b Hb') as [r Hr]%elem_of_dom.
  destruct (Hs _ _ Hr) as (r' & -> & Hn). by rewrite Hr.
Qed.

Lemma apply_eop_view o e :
  edit_ok e →
  (revision (apply_eop o e) = revision e ∧ view (apply_eop o e) = view e) ∨ revision (apply_eop o e) = (revision e + 1)%N.
Proof.
  intros He.
  assert (∀ A (a : A) r, (∀ e', r = Ok e' → revision e' = revision e) →
    (revision (commit a r e).2 = revision e ∧ view (commit a r e).2 = view e) ∨ revision (commit a r e).2 = (revision e + 1)%N)
    as Hcommit.
  { intros A a r Hr. destruct r as [e'|]; simpl; [|by left]. specialize (Hr e' eq_refl). unfold revision in *. simpl. right. lia. }
  assert (∀ fresh update e0 e', write_override fresh update e0 = Ok e' → revision e' = revision e0) as Hwrite.
  { intros fresh update e0 e' (row & _ & _ & _ & ->)%write_override_Ok. done. }
  destruct o; simpl.
  - unfold revision. simpl. destruct (apply_op_keeps o (e_db e)) as [[Hr|Hr] _ Hk]; [left|by right]. split; [done|].
    destruct (Hk Hr) as (Hn & Hb & Hsrc). apply view_ext; [done|done|done|]. intros. by apply effective_label_ext.
  - by apply Hcommit, Hwrite.
  - apply (Hcommit _ () (Ok (with_overrides (delete id (overrides e)) e))). by intros e' <-%Ok_inj.
  - by apply Hcommit, Hwrite.
  - unfold batch_set_enabled_rows. case_bool_decide; [by left|]. apply Hcommit. generalize (btree_set ids) 0. clear -Hwrite.
    intros l. revert e. induction l as [|i l IH]; intros e k e'; simpl; [by intros <-%Ok_inj|].
    destruct (negb _); [done|]. intros (e1 & H1%Hwrite & H2%IH)%result_bind_Ok. congruence.
  - unfold apply_tags. case_bool_decide; [by left|]. apply Hcommit. intros e' (? & _ & <-%Ok_inj)%result_bind_Ok. done.
  - apply Hcommit. intros e'. case_goal; [done|]. case_goal; [done|]. by intros <-%Ok_inj.
  - unfold create_tag_row. destruct (tag_exists e id) eqn:Hx; [by left|]. case_goal; [by left|]. simpl. left. split; [done|].
    apply view_ext; try done. intros i. unfold tags_of. simpl. apply list_omap_ext, Forall_Forall2_diag, Forall_forall.
    intros [n t] Ht. rewrite elem_of_sort_by, list_elem_of_filter, elem_of_elements in Ht. simpl.
    destruct (eo_member _ He n t) as [_ [g Hg]]; [apply Ht|]. rewrite lookup_insert_ne; [done|].
    intros ->. unfold tag_exists in Hx. apply bool_decide_eq_false in Hx. destruct Hx. eauto.
  - apply Hcommit. intros e'. case_goal; [done|]. by intros <-%Ok_inj.
Qed.

Lemma run_eops_ok l e : edit_ok e → edit_ok (run_eops l e).
Proof. intros H. unfold run_eops. apply (foldl_preserve edit_ok); [|done]. intros. by apply apply_eop_ok. Qed.

Lemma run_eops_view l e :
  edit_ok e → (revision e ≤ revision (run_eops l e))%N ∧ (revision (run_eops l e) = revision e → view (run_eops l e) = view e).
Proof.
  revert e. induction l as [|o l IH]; intros e He; [done|]. cbn [run_eops foldl].
  change (foldl (λ e o, apply_eop o e) (apply_eop o e) l) with (run_eops l (apply_eop o e)).
  destruct (IH (apply_eop o e) (apply_eop_ok o e He)) as [H3 H4].
  destruct (apply_eop_view o e He) as [[H1 H2]|H1]; (split; [lia|]); [|lia]. intros Hr. rewrite H4, H2; [done|lia].
Qed.

(** C26: the pool revision versions the effective pool: along any history of
    refreshes, imports, source edits, overrides and tag changes from empty
    tables, each write leaves the revision and every answer to a pool query as
    they were, or raises the revision by exactly one, in its own transaction;
    so two states with the same pool revision give the same answer to every
    pool query (the joined table of nodes, labels, overrides and tags is
    equal), the revision never falls, and overrides and memberships only refer
    to existing nodes and tags: a generation cached under a revision is never
    stale. *)
Theorem pool_revision_versions l1 l2 :
  let e1 := run_eops l1 empty_edit_db in
  let e2 := run_eops (l1 ++ l2) empty_edit_db in
  edit_ok e1 ∧
  (∀ o, (revision (apply_eop o e1) = revision e1 ∧ view (apply_eop o e1) = view e1) ∨
        revision (apply_eop o e1) = (revision e1 + 1)%N) ∧
  (revision e1 ≤ revision e2)%N ∧
  (revision e2 = revision e1 → view e2 = view e1 ∧ ∀ id, get_node id e2 = get_node id e1).
Proof.
  simpl. assert (run_eops (l1 ++ l2) empty_edit_db = run_eops l2 (run_eops l1 empty_edit_db)) as -> by apply foldl_app.
  set (e1 := run_eops l1 _). assert (edit_ok e1) as He by apply run_eops_ok, edit_ok_empty.
  destruct (run_eops_view l2 e1 He) as [H1 H2]. split_and!; [done|by intros o; apply apply_eop_view|done|]. intros Hr. specialize (H2 Hr).
  split; [done|]. intros id. unfold get_node. by rewrite H2.
Qed.

(** ** What an edit changes *)

Lemma view_lookup e id : SqlitePool.table_rows (view e) !! id = joined e id <$> nodes (e_db e) !! id.
Proof. unfold view. simpl. rewrite map_lookup_imap. by destruct (nodes (e_db e) !! id). Qed.

(** A readable node: its row decodes. *)
Lemma require_node_Ok id e x :
  require_node id e = Ok x →
  ∃ r n, nodes (e_db e) !! id = Some r ∧ SqlitePool.row_node (pn_row r) = Ok n ∧
    SqlitePool.to_pool_entry id (joined e id r) = Ok x.
Proof.
  unfold require_node, get_node. rewrite view_lookup. destruct (nodes (e_db e) !! id) as [r|]; [|done]. simpl.
  destruct (SqlitePool.to_pool_entry id (joined e id r)) as [y|] eqn:He; [|done]. simpl. intros <-%Ok_inj.
  destruct (SqlitePool.row_node (pn_row r)) as [n|m] eqn:Hn; [by exists r, n|].
  exfalso. revert He. unfold SqlitePool.to_pool_entry, joined. simpl. by rewrite Hn.
Qed.

(** The entry a readable row gives. *)
Lemma get_node_decoded e id r n :
  nodes (e_db e) !! id = Some r → SqlitePool.row_node (pn_row r) = Ok n →
  ∃ x, get_node id e = Ok (Some x) ∧ require_node id e = Ok x ∧ override_info x = overrides e !! id ∧
    tags x = tags_of e id ∧
    display_name (node x) = default (display_name n) (SqlitePool.override_field (overrides e !! id) ov_display_name) ∧
    is_active x = default (String.eqb (SqlitePool.row_status (pn_row r)) "active")
                    (SqlitePool.override_field (overrides e !! id) ov_enabled) ∧
    region (node x) = match SqlitePool.override_field (overrides e !! id) ov_region with
                      | Some v => mkRegion RegionManual (Some v)
                      | None => mkRegion RegionAuto (SqlitePool.row_region (pn_row r)) end ∧
    tls (node x) = SqlitePool.graft_tls (overrides e !! id) (tls n).
Proof.
  intros Hr Hn. unfold require_node, get_node. rewrite view_lookup, Hr. simpl. unfold SqlitePool.to_pool_entry at 1 2.
  unfold joined. simpl. rewrite Hn. simpl. by eexists.
Qed.

(** A write of one override leaves the other nodes' entries alone. *)
Lemma get_node_other e e' j :
  nodes (e_db e') = nodes (e_db e) → bindings (e_db e') = bindings (e_db e) → sources (e_db e') = sources (e_db e) →
  tag_rows e' = tag_rows e → node_tags e' = node_tags e → overrides e' !! j = overrides e !! j →
  get_node j e' = get_node j e.
Proof.
  intros Hn Hb Hs Ht Hm Ho. unfold get_node. rewrite !view_lookup, Hn. destruct (nodes (e_db e) !! j) as [p|]; [|done].
  simpl. unfold joined, effective_label, tags_of. by rewrite Hb, Hs, Ht, Hm, Ho.
Qed.

Lemma write_override_other fresh update e e' j :
  write_override fresh update e = Ok e' → j ≠ ov_node_id fresh → get_node j (bump e') = get_node j e.
Proof.
  intros (row & _ & _ & _ & ->)%write_override_Ok Hj. apply get_node_other; try done. simpl. by rewrite lookup_insert_ne.
Qed.

(** an override takes effect and nothing else does: after a successful
    update the node reads with the given name, activity, region and TLS
    fields, falling back to the parsed node where a field is absent and never
    creating a TLS configuration; a manual region is reported as the effective
    one, and clearing it restores the detected one while keeping the other
    overridden fields; every other node reads as before, and a refused edit
    changes nothing. *)
Theorem override_exact new_id id p rg e :
  (∀ ov e', update_override new_id id p e = (Ok ov, e') →
     ∃ r n x, nodes (e_db e) !! id = Some r ∧ SqlitePool.row_node (pn_row r) = Ok n ∧
       get_node id e' = Ok (Some x) ∧ override_info x = Some ov ∧
       display_name (node x) = default (display_name n) (p_display_name p) ∧
       is_active x = default (String.eqb (SqlitePool.row_status (pn_row r)) "active") (p_enabled p) ∧
       tls (node x) = SqlitePool.graft_tls (Some ov) (tls n) ∧
       ∀ j, j ≠ id → get_node j e' = get_node j e) ∧
  (∀ a e', set_manual_region new_id id rg e = (Ok a, e') →
     ∃ r x, nodes (e_db e) !! id = Some r ∧ get_node id e' = Ok (Some x) ∧ region (node x) = a ∧
       a = match rg with Some v => mkRegion RegionManual (Some v)
                    | None => mkRegion RegionAuto (SqlitePool.row_region (pn_row r)) end ∧
       is_active x = default (String.eqb (SqlitePool.row_status (pn_row r)) "active")
                       (SqlitePool.override_field (overrides e !! id) ov_enabled) ∧
       ∀ j, j ≠ id → get_node j e' = get_node j e) ∧
  (is_ok (update_override new_id id p e).1 = false → (update_override new_id id p e).2 = e).
Proof.
  split_and!.
  - intros ov e'. unfold update_override. destruct (require_node id e) as [x0|] eqn:Hx; [|done].
    apply require_node_Ok in Hx as (r & n & Hr & Hn & _). unfold upsert_override, lift.
    destruct (write_override _ _ e) as [e1|] eqn:Hw; [|done]. simpl. intros [= <- <-].
    pose proof (write_override_Ok _ _ _ _ Hw) as (row & Hrow & _ & _ & He1). simpl in *.
    assert (row = mkNodeOverride new_id id (p_display_name p) (p_region p) (p_enabled p) (p_sni p)
      (p_skip_cert_verify p) (p_fingerprint p) (p_sort_order p)) as Hrow' by (by destruct (overrides e !! id)).
    destruct (get_node_decoded (bump e1) id r n) as (x & Hg & _ & H1 & _ & H2 & H3 & _ & H4); [by rewrite He1|done|].
    rewrite He1 in H1, H2, H3, H4. simpl in *. rewrite lookup_insert_eq, Hrow' in *.
    exists r, n, x. split_and!; try done. intros j Hj. by apply (write_override_other _ _ _ _ j Hw).
  - intros a e'. unfold set_manual_region. destruct (require_node id e) as [x0|] eqn:Hx; [|done].
    apply require_node_Ok in Hx as (r & n & Hr & Hn & _). unfold patch_override_region, lift.
    destruct (write_override _ _ e) as [e1|] eqn:Hw; [|done]. simpl.
    pose proof (write_override_Ok _ _ _ _ Hw) as (row & Hrow & _ & _ & He1). simpl in *.
    assert (ov_region row = rg ∧ ov_enabled row = SqlitePool.override_field (overrides e !! id) ov_enabled) as [Hreg Hen].
    { rewrite Hrow. by destruct (overrides e !! id). }
    destruct (get_node_decoded (bump e1) id r n) as (x & Hg & Hq & H1 & _ & _ & H3 & H4 & _); [by rewrite He1|done|].
    rewrite Hq. intros [= <- <-]. rewrite He1 in H1, H3, H4. simpl in *. rewrite lookup_insert_eq in *. simpl in *.
    rewrite Hreg in H4. rewrite Hen in H3.
    assert (effective_region x = region (node x)) as Heff.
    { unfold effective_region. rewrite H1, Hreg, H4. by destruct rg. }
    exists r, x. rewrite Heff. split_and!; try done. intros j Hj. by apply (write_override_other _ _ _ _ j Hw).
  - unfold update_override. destruct (require_node id e); [|done]. unfold upsert_override, lift.
    by destruct (write_override _ _ _).
Qed.

(** The overrides a batch leaves. *)
Lemma enable_each_Ok fresh k b ids e e' :
  NoDup ids → enable_each fresh k b ids e = Ok e' →
  e_db e' = e_db e ∧ tag_rows e' = tag_rows e ∧ node_tags e' = node_tags e ∧
  (∀ i, i ∈ ids → is_Some (nodes (e_db e) !! i) ∧ ∃ o, overrides e' !! i = Some o ∧ ov_enabled o = Some b) ∧
  (∀ i, i ∉ ids → overrides e' !! i = overrides e !! i).
Proof.
  revert k e. induction ids as [|id ids IH]; intros k e Hnd; simpl.
  { intros <-%Ok_inj. split_and!; try done. by intros i ?%elem_of_nil. }
  apply NoDup_cons in Hnd as [Hid Hnd]. destruct (negb _); [done|]. intros (e1 & H1 & H2)%result_bind_Ok.
  apply write_override_Ok in H1 as (row & Hrow & Hn & _ & He1). simpl in *.
  destruct (IH (S k) e1 Hnd H2) as (D1 & D2 & D3 & D4 & D5). rewrite He1 in D1, D2, D3, D4, D5. simpl in *.
  assert (ov_enabled row = Some b) as Hb by (rewrite Hrow; by destruct (overrides e !! id)).
  split_and!; try done.
  - intros i [->|Hi]%elem_of_cons; [|by apply D4]. split; [done|]. exists row. by rewrite D5, lookup_insert_eq.
  - intros i [Hi Hi']%not_elem_of_cons. rewrite D5 by done. by rewrite lookup_insert_ne.
Qed.

(** The membership of a tag after a batch that gives the node [ts]. *)
Definition membership_after (mode : TagUpdateMode) (old : gset (NodeId * TagId)) (ts : option (list TagId))
    (n : NodeId) (t : TagId) : Prop :=
  match ts with
  | None => (n, t) ∈ old
  | Some ts => match mode with
               | Replace => t ∈ ts
               | Add => (n, t) ∈ old ∨ t ∈ ts
               | Remove => (n, t) ∈ old ∧ t ∉ ts
               end
  end.

(** batches are all or nothing.  Enabling or disabling a list of nodes
    either fails and changes nothing, or every listed node exists and reads
    with that activity and no other node's entry changes; changing tags either
    fails and changes nothing, or every listed node has exactly the replaced,
    extended or reduced set and no other membership changes, in whatever order
    the list is given. *)
Theorem batches_exact fresh ids b l mode e :
  (∀ r e', batch_set_enabled fresh ids b e = (r, e') →
     match r with
     | Err _ => e' = e
     | Ok k => (k ≤ N.of_nat (length ids))%N ∧
         (∀ i, i ∈ ids → is_Some (nodes (e_db e) !! i) ∧ ∀ x, get_node i e' = Ok (Some x) → is_active x = b) ∧
         (∀ j, j ∉ ids → get_node j e' = get_node j e)
     end) ∧
  (∀ r e', batch_modify_tags l mode e = (r, e') →
     match r with
     | Err _ => e' = e
     | Ok _ => ∀ n t, (n, t) ∈ node_tags e' ↔
         membership_after mode (node_tags e) ((list_to_map l : gmap NodeId (list TagId)) !! n) n t
     end).
Proof.
  unfold membership_after. split.
  - intros r e'. unfold batch_set_enabled, lift, batch_set_enabled_rows. case_bool_decide as Hn; simpl.
    { intros [= <- <-]. subst. split_and!; [lia|by intros i ?%elem_of_nil|done]. }
    destruct (enable_each _ _ _ _ _) as [e1|] eqn:He; simpl; intros [= <- <-]; [|done].
    assert (NoDup (btree_set ids)) as Hnd by (unfold btree_set; rewrite sort_by_Permutation; apply NoDup_remove_dups).
    assert (∀ i, i ∈ btree_set ids ↔ i ∈ ids) as Hb.
    { intros i. unfold btree_set. by rewrite elem_of_sort_by, elem_of_remove_dups. }
    destruct (enable_each_Ok _ _ _ _ _ _ Hnd He) as (D1 & D2 & D3 & D4 & D5). split_and!.
    + pose proof (submseteq_length _ _ (NoDup_submseteq _ ids Hnd (λ x, proj1 (Hb x)))). lia.
    + intros i Hi. destruct (D4 i) as [Hx (o & Ho & Hen)]; [by apply Hb|]. split; [done|]. intros x Hg.
      assert (require_node i (bump e1) = Ok x) as Hq by (unfold require_node; by rewrite Hg).
      apply require_node_Ok in Hq as (row & n & Hr & Hrn & _).
      destruct (get_node_decoded (bump e1) i row n Hr Hrn) as (x' & Hg' & _ & _ & _ & _ & Hact & _).
      rewrite Hg in Hg'. injection Hg' as <-. rewrite Hact. simpl. rewrite Ho. simpl. by rewrite Hen.
    + intros j Hj. apply get_node_other; simpl; try done; try (by rewrite D1). apply D5. by rewrite Hb.
  - intros r e'. unfold batch_modify_tags. case_bool_decide as Hnd; [|by intros [= <- <-]].
    unfold lift, apply_tags. case_bool_decide as Hl; simpl.
    { intros [= <- <-]. subst l. apply (assign_all_elem mode []). constructor. }
    destruct (check_assignments l e) as [[]|]; simpl; intros [= <- <-]; [|done]. simpl. clear Hl.
    apply assign_all_elem. done.
Qed.

End view.

(** ** Witnesses *)

Import RefreshTheorems.Demo.

Definition edits1 : EditDb := mkEditDb db1 ∅ ∅ ∅.
Definition params1 : UpdateOverrideParams := mkOverrideParams (Some "renamed") None (Some false) None None None 3.

(** The imported node gets an override; the edit takes effect. *)
Lemma override_exact_witness :
  ∃ ov e' x, update_override 77 900 params1 edits1 = (Ok ov, e') ∧ get_node 900 e' = Ok (Some x) ∧
    display_name (node x) = "renamed" ∧ is_active x = false.
Proof.
  destruct (override_exact 77 900 params1 None edits1) as (H & _ & _).
  assert (is_ok (update_override 77 900 params1 edits1).1 = true) as Ho by (vm_compute; reflexivity).
  destruct (update_override 77 900 params1 edits1) as [[ov|m] e']; [|exfalso; discriminate Ho].
  destruct (H ov e' eq_refl) as (r & n & x & _ & _ & Hg & _ & Hd & Ha & _).
  exists ov, e', x. split; [reflexivity|]. split; [exact Hg|]. split; [exact Hd|exact Ha].
Defined.

Lemma batches_exact_witness :
  ∃ k e', batch_set_enabled (λ k, N.of_nat k) [900; 900]%N false edits1 = (Ok k, e') ∧ (k ≤ 2)%N.
Proof.
  destruct (batches_exact (λ k, N.of_nat k) [900; 900]%N false [] Add edits1) as [H _].
  assert (is_ok (batch_set_enabled (λ k, N.of_nat k) [900; 900]%N false edits1).1 = true) as Ho by (vm_compute; reflexivity).
  destruct (batch_set_enabled _ _ _ _) as [[k|m] e']; [|exfalso; discriminate Ho].
  destruct (H (Ok k) e' eq_refl) as [Hk _]. exists k, e'. split; [reflexivity|exact Hk].
Defined.

End PoolView.
