(* ===== verification/Auth.v ===== *)
(** * Identities: data, tables and challenge tokens

    [crates/deve-sub-domain/src/identity/] ([user.rs], [session.rs],
    [totp.rs], [recovery_code.rs], [error.rs]), the repositories
    [user_repository.rs], [session_repository.rs], [totp_repository.rs] and
    [recovery_code_repository.rs] of [crates/deve-sub-storage-sqlite/src/],
    the errors, the input validation and the challenge token of
    [crates/deve-sub-application/src/auth/], [password.rs] and the enrolment
    helpers of [totp.rs] in [crates/deve-sub-security/src/].

    Every function on the tables is one SQL statement or one transaction, and
    so one atomic step of [AuthSteps]; an error leaves the tables unchanged. *)

From Stdlib Require Import Ascii.
From stdpp Require Import pretty.
From S2P Require Import Prelude Kernel Text UrlText Crypto CacheRepo Source.
Import Text UrlText Crypto CacheRepo Source.
From S2P Require Import Subscription.

Module Auth.

(** ** Entities *)

Inductive IdentityError :=
  | UserNotFound
  | UsernameExists
  | IdAlreadyInitialized
  | SessionNotFound
  | InvalidRole (s : string)
  | IdTwoFactorAlreadyEnabled
  | IdTwoFactorNotEnabled
  | RecoveryCodeNotFound
  | Storage (m : string).

Inductive AuthError :=
  | AlreadyInitialized
  | InvalidCredentials
  | InvalidInput (m : string)
  | RateLimited
  | SelfDisableForbidden
  | TwoFactorAlreadyEnabled
  | TwoFactorNotEnabled
  | InvalidTwoFactorCode
  | ChallengeTokenInvalid
  | TotpSecretNotFound
  | ESecurity (e : SecurityError)
  | EIdentity (e : IdentityError).

Definition user_new (id : UserId) (now : Z) (username password_hash : string) (role : Role) : User :=
  mkUser id username password_hash role true None 0 false None now.

(** [impl Display for Role], [impl FromStr for Role] *)
Definition role_display (r : Role) : string := match r with Admin => "admin" | RegularUser => "user" end.
Definition role_from_str (s : string) : Result IdentityError Role :=
  if String.eqb s "admin" then Ok Admin
  else if String.eqb s "user" then Ok RegularUser
  else Err (InvalidRole s).

(** [Display] of the errors a stored role can give. *)
Definition identity_error_display (e : IdentityError) : string :=
  match e with
  | UserNotFound => "user not found"
  | UsernameExists => "username already exists"
  | IdAlreadyInitialized => "admin already initialized"
  | SessionNotFound => "session not found"
  | InvalidRole s => "invalid role: " +:+ s
  | IdTwoFactorAlreadyEnabled => "2FA already enabled"
  | IdTwoFactorNotEnabled => "2FA not enabled"
  | RecoveryCodeNotFound => "recovery code not found or already used"
  | Storage m => "storage error: " +:+ m
  end.

Record Session := mkSession {
  se_id : N;
  se_user_id : UserId;
  se_token_hash : string;
  se_created_at : Z;
  se_expires_at : Z;
  se_revoked : bool
}.

(** [Session::new] *)
Definition session_new (id : N) (now : Z) (user_id : UserId) (token_hash : string) (expires_at : Z) : Session :=
  mkSession id user_id token_hash now expires_at false.

(** [Session::is_valid_at] *)
Definition is_valid_at (s : Session) (now : Z) : bool := negb (se_revoked s) && Z.ltb now (se_expires_at s).

Definition totp_aad_context : string := "identity.totp_secret".

Record TotpSecret := mkTotpSecret {
  ts_user_id : UserId;
  ts_ciphertext : string;
  ts_nonce : string;
  ts_created_at : Z
}.

Record RecoveryCode := mkRecoveryCode {
  rc_id : N;
  rc_user_id : UserId;
  rc_code_hash : string;
  rc_used : bool;
  rc_created_at : Z
}.

(** [RecoveryCode::new] *)
Definition recovery_code_new (id : N) (now : Z) (user_id : UserId) (hash : string) : RecoveryCode :=
  mkRecoveryCode id user_id hash false now.

(** ** Tables

    Identifiers are the primary keys; [username], [token_hash] and
    [code_hash] are unique columns; the other tables reference [users].
    Timestamps are stored with the precision of [format_ts]. *)

Record UserRow := mkUserRow {
  ur_username : string;
  ur_password_hash : string;
  ur_role : string;
  ur_enabled : bool;
  ur_expires_at : option Z;
  ur_traffic_quota : Z;
  ur_two_factor_enabled : bool;
  ur_last_login_at : option Z;
  ur_created_at : Z
}.

Record TotpRow := mkTotpRow {
  tr_ciphertext : string;
  tr_nonce : string;
  tr_created_at : Z;
  tr_last_used_timestep : option Z
}.

Record Db := mkDb {
  users : gmap UserId UserRow;
  sessions : gmap N Session;
  totp_secrets : gmap UserId TotpRow;
  recovery_codes : gmap N RecoveryCode
}.

Definition with_users (m : gmap UserId UserRow) (db : Db) : Db :=
  mkDb m (sessions db) (totp_secrets db) (recovery_codes db).
Definition with_sessions (m : gmap N Session) (db : Db) : Db :=
  mkDb (users db) m (totp_secrets db) (recovery_codes db).
Definition with_totp (m : gmap UserId TotpRow) (db : Db) : Db :=
  mkDb (users db) (sessions db) m (recovery_codes db).
Definition with_codes (m : gmap N RecoveryCode) (db : Db) : Db :=
  mkDb (users db) (sessions db) (totp_secrets db) m.

Abbreviation Tx A := (Result IdentityError A * Db)%type.

(** [.map_err(IdentityError::Storage)] on a timestamp. *)
Definition ts (t : Z) : Result IdentityError Z := map_err Storage (format_ts t).
Definition ts_opt (t : option Z) : Result IdentityError (option Z) := map_err Storage (format_ts_opt t).

(** *** Users *)

(** The bound columns of an insertion. *)
Definition user_row (u : User) : Result IdentityError UserRow :=
  let? expires := ts_opt (u_expires_at u) in
  let? last := ts_opt (u_last_login_at u) in
  let? created := ts (u_created_at u) in
  Ok (mkUserRow (u_username u) (u_password_hash u) (role_display (u_role u)) (u_enabled u) expires
        (as_i64 (u_traffic_quota u)) (u_two_factor_enabled u) last created).

(** [UserRow::to_domain] *)
Definition user_to_domain (id : UserId) (r : UserRow) : Result IdentityError User :=
  let? role := map_err (λ e, Storage (identity_error_display e)) (role_from_str (ur_role r)) in
  if Z.ltb (ur_traffic_quota r) 0 then Err (Storage "negative traffic_quota")
  else Ok (mkUser id (ur_username r) (ur_password_hash r) role (ur_enabled r) (ur_expires_at r)
             (Z.to_N (ur_traffic_quota r)) (ur_two_factor_enabled r) (ur_last_login_at r) (ur_created_at r)).

Definition username_taken (name : string) (m : gmap UserId UserRow) : bool :=
  bool_decide (map_Exists (λ _ r, ur_username r = name) m).

(** [create] *)
Definition create_user_row (u : User) (db : Db) : Tx () :=
  match user_row u with
  | Err e => (Err e, db)
  | Ok r =>
      if bool_decide (is_Some (users db !! u_id u)) then (Err (Storage "UNIQUE constraint failed: users.id"), db)
      else if username_taken (ur_username r) (users db) then (Err UsernameExists, db)
      else (Ok (), with_users (<[u_id u := r]> (users db)) db)
  end.

(** [create_if_empty] *)
Definition create_if_empty (u : User) (db : Db) : Tx () :=
  match user_row u with
  | Err e => (Err e, db)
  | Ok r =>
      if bool_decide (users db = ∅) then (Ok (), with_users {[u_id u := r]} db)
      else (Err IdAlreadyInitialized, db)
  end.

(** [row.map(|r| r.to_domain()).transpose()] *)
Definition read_user (o : option (UserId * UserRow)) : Result IdentityError (option User) :=
  match o with
  | None => Ok None
  | Some (id, r) => let? u := user_to_domain id r in Ok (Some u)
  end.

(** [find_by_id] *)
Definition find_user_by_id (id : UserId) (db : Db) : Result IdentityError (option User) :=
  read_user (pair id <$> users db !! id).

(** [find_by_username] *)
Definition find_user_by_username (name : string) (db : Db) : Result IdentityError (option User) :=
  read_user (head (filter (λ kv, ur_username kv.2 = name) (map_to_list (users db)))).

(** [count] *)
Definition count_users (db : Db) : Z := Z.of_nat (size (users db)).

Fixpoint collect_users (l : list (UserId * UserRow)) : Result IdentityError (list User) :=
  match l with
  | [] => Ok []
  | (id, r) :: l => let? u := user_to_domain id r in let? us := collect_users l in Ok (u :: us)
  end.

(** [list] *)
Definition list_user_rows (cursor : option UserId) (limit : N) (db : Db) : Result IdentityError (list User) :=
  collect_users (take (N.to_nat (N.min limit 100))
    (filter (λ kv, match cursor with Some c => N.ltb c kv.1 | None => true end = true)
       (sort_by (λ a b, N.compare a.1 b.1) (map_to_list (users db))))).

Definition set_user (id : UserId) (f : UserRow → UserRow) (db : Db) : Tx () :=
  match users db !! id with
  | None => (Err UserNotFound, db)
  | Some r => (Ok (), with_users (<[id := f r]> (users db)) db)
  end.

Definition row_enabled (b : bool) (r : UserRow) : UserRow :=
  mkUserRow (ur_username r) (ur_password_hash r) (ur_role r) b (ur_expires_at r) (ur_traffic_quota r)
    (ur_two_factor_enabled r) (ur_last_login_at r) (ur_created_at r).
Definition row_two_factor (b : bool) (r : UserRow) : UserRow :=
  mkUserRow (ur_username r) (ur_password_hash r) (ur_role r) (ur_enabled r) (ur_expires_at r) (ur_traffic_quota r)
    b (ur_last_login_at r) (ur_created_at r).
Definition row_last_login (at_ : Z) (r : UserRow) : UserRow :=
  mkUserRow (ur_username r) (ur_password_hash r) (ur_role r) (ur_enabled r) (ur_expires_at r) (ur_traffic_quota r)
    (ur_two_factor_enabled r) (Some at_) (ur_created_at r).

(** [set_enabled], [update_last_login] *)
Definition set_enabled (id : UserId) (b : bool) (db : Db) : Tx () := set_user id (row_enabled b) db.
Definition update_last_login (id : UserId) (at_ : Z) (db : Db) : Tx () :=
  match ts at_ with
  | Err e => (Err e, db)
  | Ok t => set_user id (row_last_login t) db
  end.

(** *** Sessions *)

Definition token_taken (h : string) (m : gmap N Session) : bool :=
  bool_decide (map_Exists (λ _ s, se_token_hash s = h) m).

(** [INSERT INTO sessions] *)
Definition insert_session (s : Session) (db : Db) : Result IdentityError Db :=
  let? created := ts (se_created_at s) in
  let? expires := ts (se_expires_at s) in
  if bool_decide (is_Some (sessions db !! se_id s)) then Err (Storage "UNIQUE constraint failed: sessions.id")
  else if token_taken (se_token_hash s) (sessions db)
  then Err (Storage "UNIQUE constraint failed: sessions.token_hash")
  else if bool_decide (users db !! se_user_id s = None) then Err (Storage "FOREIGN KEY constraint failed")
  else Ok (with_sessions (<[se_id s :=
             mkSession (se_id s) (se_user_id s) (se_token_hash s) created expires (se_revoked s)]> (sessions db)) db).

(** [SessionRepository::create] *)
Definition create_session (s : Session) (db : Db) : Tx () :=
  match insert_session s db with
  | Ok db' => (Ok (), db')
  | Err e => (Err e, db)
  end.

(** [find_by_token_hash] *)
Definition find_by_token_hash (h : string) (db : Db) : option Session :=
  snd <$> head (filter (λ kv, se_token_hash kv.2 = h) (map_to_list (sessions db))).

Definition session_revoke (s : Session) : Session :=
  mkSession (se_id s) (se_user_id s) (se_token_hash s) (se_created_at s) (se_expires_at s) true.

(** [revoke] *)
Definition revoke (id : N) (db : Db) : Tx () :=
  match sessions db !! id with
  | None => (Err SessionNotFound, db)
  | Some s => (Ok (), with_sessions (<[id := session_revoke s]> (sessions db)) db)
  end.

(** [revoke_all_for_user] *)
Definition revoke_all_for_user (uid : UserId) (db : Db) : Db :=
  with_sessions ((λ s, if bool_decide (se_user_id s = uid) && negb (se_revoked s) then session_revoke s else s)
                   <$> sessions db) db.

(** The [sessions] policy of [retention.rs]: a batch of expired rows. *)
Definition prune_sessions (now : Z) (batch : gset N) (db : Db) : Db :=
  with_sessions (filter (λ kv, ¬ (kv.1 ∈ batch ∧ (se_expires_at kv.2 < now)%Z)) (sessions db)) db.

(** *** TOTP secrets *)

(** [TotpSecretRow::to_domain] *)
Definition totp_to_domain (uid : UserId) (r : TotpRow) : Result IdentityError TotpSecret :=
  if Nat.eqb (String.length (tr_nonce r)) 24
  then Ok (mkTotpSecret uid (tr_ciphertext r) (tr_nonce r) (tr_created_at r))
  else Err (Storage "TOTP nonce is not 24 bytes").

(** [upsert]: the select finds no row for an unknown user either. *)
Definition upsert_totp (s : TotpSecret) (db : Db) : Tx () :=
  match ts (ts_created_at s) with
  | Err e => (Err e, db)
  | Ok created =>
      match users db !! ts_user_id s with
      | Some u =>
          if ur_two_factor_enabled u then (Err IdTwoFactorAlreadyEnabled, db)
          else (Ok (), with_totp (<[ts_user_id s := mkTotpRow (ts_ciphertext s) (ts_nonce s) created None]>
                                    (totp_secrets db)) db)
      | None => (Err IdTwoFactorAlreadyEnabled, db)
      end
  end.

(** [find_by_user] *)
Definition find_totp (uid : UserId) (db : Db) : Result IdentityError (option TotpSecret) :=
  match totp_secrets db !! uid with
  | None => Ok None
  | Some r => let? s := totp_to_domain uid r in Ok (Some s)
  end.

(** The enrolment a caller saw is still the stored one. *)
Definition is_current (expected : TotpSecret) (db : Db) : bool :=
  match totp_secrets db !! ts_user_id expected with
  | Some r => String.eqb (tr_ciphertext r) (ts_ciphertext expected) && String.eqb (tr_nonce r) (ts_nonce expected)
  | None => false
  end.

(** [set_enabled_if_current]: [None] when no row matched. *)
Definition set_enabled_if_current (expected : TotpSecret) (was enabled : bool) (db : Db) : option Db :=
  match users db !! ts_user_id expected with
  | Some u =>
      if Bool.eqb (ur_two_factor_enabled u) was && is_current expected db
      then Some (with_users (<[ts_user_id expected := row_two_factor enabled u]> (users db)) db)
      else None
  | None => None
  end.

(** *** Recovery codes *)

Definition code_taken (h : string) (m : gmap N RecoveryCode) : bool :=
  bool_decide (map_Exists (λ _ c, rc_code_hash c = h) m).

Definition codes_of (uid : UserId) (db : Db) : gmap N RecoveryCode :=
  filter (λ kv, rc_user_id kv.2 = uid) (recovery_codes db).

Definition delete_codes (uid : UserId) (db : Db) : Db :=
  with_codes (filter (λ kv, rc_user_id kv.2 ≠ uid) (recovery_codes db)) db.

Definition insert_code (c : RecoveryCode) (db : Db) : Result IdentityError Db :=
  let? created := ts (rc_created_at c) in
  if bool_decide (is_Some (recovery_codes db !! rc_id c)) then Err (Storage "UNIQUE constraint failed: recovery_codes.id")
  else if code_taken (rc_code_hash c) (recovery_codes db)
  then Err (Storage "UNIQUE constraint failed: recovery_codes.code_hash")
  else if bool_decide (users db !! rc_user_id c = None) then Err (Storage "FOREIGN KEY constraint failed")
  else Ok (with_codes (<[rc_id c := mkRecoveryCode (rc_id c) (rc_user_id c) (rc_code_hash c) (rc_used c) created]>
                         (recovery_codes db)) db).

Fixpoint insert_codes (cs : list RecoveryCode) (db : Db) : Result IdentityError Db :=
  match cs with
  | [] => Ok db
  | c :: cs => let? db := insert_code c db in insert_codes cs db
  end.

(** [replace_in_transaction] *)
Definition replace_in_transaction (uid : UserId) (cs : list RecoveryCode) (db : Db) : Result IdentityError Db :=
  if existsb (λ c, negb (N.eqb (rc_user_id c) uid)) cs
  then Err (Storage "recovery code owner does not match enrollment")
  else insert_codes cs (delete_codes uid db).

(** [replace_all_for_user] *)
Definition replace_all_for_user (uid : UserId) (cs : list RecoveryCode) (db : Db) : Tx () :=
  match replace_in_transaction uid cs db with
  | Ok db' => (Ok (), db')
  | Err e => (Err e, db)
  end.

(** [enable_if_current] *)
Definition enable_if_current (expected : TotpSecret) (cs : list RecoveryCode) (db : Db) : Tx bool :=
  match set_enabled_if_current expected false true db with
  | None =>
      (match users db !! ts_user_id expected with
       | Some u => if ur_two_factor_enabled u then Err IdTwoFactorAlreadyEnabled else Ok false
       | None => Ok false
       end, db)
  | Some db' =>
      match replace_in_transaction (ts_user_id expected) cs db' with
      | Ok db'' => (Ok true, db'')
      | Err e => (Err e, db)
      end
  end.

(** [disable_if_current] *)
Definition disable_if_current (expected : TotpSecret) (db : Db) : Tx bool :=
  match set_enabled_if_current expected true false db with
  | None => (Ok false, db)
  | Some db' =>
      (Ok true, delete_codes (ts_user_id expected)
                  (with_totp (delete (ts_user_id expected) (totp_secrets db')) db'))
  end.

(** [replace_recovery_codes_if_current] *)
Definition replace_recovery_codes_if_current (expected : TotpSecret) (cs : list RecoveryCode) (db : Db) : Tx bool :=
  match set_enabled_if_current expected true true db with
  | None => (Ok false, db)
  | Some db' =>
      match replace_in_transaction (ts_user_id expected) cs db' with
      | Ok db'' => (Ok true, db'')
      | Err e => (Err e, db)
      end
  end.

(** [record_used_timestep] *)
Definition record_used_timestep (uid : UserId) (t : N) (db : Db) : Tx bool :=
  if N.ltb i64_max t then (Err (Storage "TOTP timestep out of i64 range"), db)
  else match totp_secrets db !! uid with
       | Some r =>
           if match tr_last_used_timestep r with None => true | Some l => Z.ltb l (Z.of_N t) end
           then (Ok true, with_totp (<[uid := mkTotpRow (tr_ciphertext r) (tr_nonce r) (tr_created_at r)
                                                 (Some (Z.of_N t))]> (totp_secrets db)) db)
           else (Ok false, db)
       | None => (Ok false, db)
       end.

(** [find_unused_by_hash] *)
Definition find_unused_by_hash (uid : UserId) (h : string) (db : Db) : option RecoveryCode :=
  snd <$> head (filter (λ kv, rc_user_id kv.2 = uid ∧ rc_code_hash kv.2 = h ∧ rc_used kv.2 = false)
                  (map_to_list (recovery_codes db))).

Definition code_use (c : RecoveryCode) : RecoveryCode :=
  mkRecoveryCode (rc_id c) (rc_user_id c) (rc_code_hash c) true (rc_created_at c).

(** [mark_used_and_create_session] *)
Definition mark_used_and_create_session (id : N) (s : Session) (db : Db) : Tx () :=
  match recovery_codes db !! id with
  | Some c =>
      if rc_used c then (Err RecoveryCodeNotFound, db)
      else match insert_session s (with_codes (<[id := code_use c]> (recovery_codes db)) db) with
           | Ok db' => (Ok (), db')
           | Err e => (Err e, db)
           end
  | None => (Err RecoveryCodeNotFound, db)
  end.

(** ** Input validation ([commands.rs]) *)

Definition min_password_len : nat := 8.
Definition max_password_len : nat := 1024.
Definition max_username_len : nat := 64.

Definition validate_credentials (username password : string) : Result AuthError () :=
  if String.eqb username "" then Err (InvalidInput "username must not be empty")
  else if Nat.ltb max_username_len (String.length username)
  then Err (InvalidInput "username must not exceed 64 characters")
  else if Nat.ltb (String.length password) min_password_len
  then Err (InvalidInput "password must be at least 8 characters")
  else if Nat.ltb max_password_len (String.length password)
  then Err (InvalidInput "password must not exceed 1024 characters")
  else Ok ().

Definition dummy_password_hash : string :=
  "$argon2id$v=19$m=19456,t=2,p=1$AAAAAAAAAAAAAAAAAAAAAA$AAAAAAAAAAAAAAAAAAAAAAAAAAAAAAAAAAAAAAAAAAA".

(** ** Passwords, identifiers and the challenge payload

    The [argon2], [ulid] and [serde_json] crates, and what is used of them. *)

Class AuthLib := {
  argon2_hash : string → string → Result string string;      (* salt, password: the PHC text *)
  phc_parse : string → option string;                         (* [PasswordHash::new]: the error's text, if any *)
  argon2_verify : string → string → bool;                     (* password, PHC text *)
  id_parse : string → Result string N;                        (* [UserId::parse] *)
  payload_json : string → Z → Result string string;           (* [to_string] of [ChallengePayload] *)
  payload_from_slice : string → Result string (string * Z)    (* [from_slice] *)
}.

Class AuthLaws (A : AuthLib) : Prop := {
  argon2_roundtrip salt pw phc : argon2_hash salt pw = Ok phc → phc_parse phc = None ∧ argon2_verify pw phc = true;
  id_roundtrip id : (id < 2 ^ 128)%N → id_parse (id_display id) = Ok id;
  payload_total uid exp : ∃ t, payload_json uid exp = Ok t;
  payload_roundtrip uid exp t : payload_json uid exp = Ok t → payload_from_slice t = Ok (uid, exp)
}.

Section lib.
Context `{L : UrlLib} `{C : CryptoLib} `{A : AuthLib}.

(** [hash_password] with the salt it drew, [verify_password] *)
Definition hash_password (salt plain : string) : Result SecurityError string :=
  map_err PasswordHash (argon2_hash salt plain).
Definition verify_password (plain phc : string) : Result SecurityError bool :=
  match phc_parse phc with
  | Some e => Err (PasswordHash e)
  | None => Ok (argon2_verify plain phc)
  end.

(** ** The challenge token ([challenge.rs]) *)

Definition challenge_ttl_secs : Z := 300.

(** [unix_timestamp] floors. *)
Definition unix_timestamp (t : Z) : Z := Z.div t 1000000000.

Definition sec {X} (r : Result SecurityError X) : Result AuthError X := map_err ESecurity r.

(** [generate_challenge_token] *)
Definition generate_challenge_token (now : Z) (user_id : UserId) (key : string) : Result AuthError string :=
  let exp := (now + challenge_ttl_secs * 1000000000)%Z in
  let? json := map_err (λ e, ESecurity (SecCrypto e)) (payload_json (id_display user_id) (unix_timestamp exp)) in
  let payload_b64 := base64_encode URL_SAFE_NO_PAD json in
  Ok (payload_b64 +:+ "." +:+ hmac_digest purpose_challenge payload_b64 key).

(** [verify_challenge_token] *)
Definition verify_challenge_token (now : Z) (token key : string) : Result AuthError (option UserId) :=
  match rsplit_once "."%char token with
  | None => Ok None
  | Some (payload_b64, signature) =>
      if negb (String.eqb signature (hmac_digest purpose_challenge payload_b64 key)) then Ok None
      else
        let? bytes := ok_or (base64_decode URL_SAFE_NO_PAD payload_b64) (ESecurity (SecCrypto "base64")) in
        let? (uid, exp) := map_err (λ e, ESecurity (SecCrypto e)) (payload_from_slice bytes) in
        if Z.leb exp (unix_timestamp now) then Ok None
        else
          let? id := map_err (λ e, ESecurity (SecCrypto e)) (id_parse uid) in
          Ok (Some id)
  end.

(** ** Enrolment helpers ([totp.rs]) *)

(** [generate_secret] from the 20 random bytes. *)
Definition generate_secret (entropy : option string) : Result SecurityError string :=
  ok_or entropy (SecCrypto "entropy source failure").

(** [data_encoding::BASE32.encode]: five bits a digit, padded to eight. *)
Definition base32_digit (d : N) : string := String.substring (N.to_nat d) 1 "ABCDEFGHIJKLMNOPQRSTUVWXYZ234567".

Definition bits_of (c : ascii) : list bool := (λ i, N.testbit (code c) i) <$> [7; 6; 5; 4; 3; 2; 1; 0]%N.
Definition of_bits (l : list bool) : N := foldl (λ n (b : bool), 2 * n + if b then 1 else 0)%N 0%N l.
Fixpoint string_bits (s : string) : list bool :=
  match s with "" => [] | String c s => bits_of c ++ string_bits s end.
Fixpoint base32_digits (fuel : nat) (bits : list bool) : string :=
  match fuel with
  | O => ""
  | S fuel =>
      match bits with
      | [] => ""
      | _ => base32_digit (of_bits (take 5 (bits ++ repeat false 4))) +:+ base32_digits fuel (drop 5 bits)
      end
  end.
Definition base32_secret (secret : string) : string :=
  let digits := base32_digits (2 * String.length secret) (string_bits secret) in
  digits +:+ String.concat "" (repeat "=" ((8 - String.length digits mod 8) mod 8)).

(** [format!("{byte:02X}")], a digit at a time. *)
Definition hex_upper (n : N) : ascii := default Ascii.zero (String.get (N.to_nat n) "0123456789ABCDEF").

(** [percent_encode]: the unreserved characters stay. *)
Fixpoint percent_encode_rfc3986 (s : string) : string :=
  match s with
  | "" => ""
  | String c s =>
      (if is_ascii_alphanumeric c || one_of "-._~" c then String c ""
       else String "%" (String (hex_upper (N.shiftr (code c) 4)) (String (hex_upper (N.land (code c) 15)) "")))
      +:+ percent_encode_rfc3986 s
  end.

(** [otpauth_uri] *)
Definition otpauth_uri (secret issuer account : string) : string :=
  "otpauth://totp/" +:+ percent_encode_rfc3986 issuer +:+ ":" +:+ percent_encode_rfc3986 account +:+
  "?secret=" +:+ base32_secret secret +:+ "&issuer=" +:+ percent_encode_rfc3986 issuer +:+
  "&algorithm=SHA1&digits=6&period=30".

End lib.

End Auth.
