(* ===== verification/AuthCommands.v ===== *)
(** * Authentication commands as programs over atomic operations

    [commands.rs] and [twofa.rs] of [crates/deve-sub-application/src/auth/].
    A command is an [async fn] over the repositories, the rate limiter, the
    clock and the password workers; other commands run between any two of its
    calls.  It is a program [Prog]: a tree of calls [Op], each continued with
    the answer [Ans] it gets.  [exec] is what a call does to the shared state
    when it runs, [run] a command that nothing interrupts; [AuthSteps]
    interleaves them.

    Fresh identifiers, salts, nonces and random bytes are arguments; the
    clock is an operation.  [Timestamp + ttl] panics outside the range of the
    clock; the sessions table refuses such a time as well. *)

From Stdlib Require Import Ascii.
From S2P Require Import Prelude Kernel Text UrlText Crypto Source RateLimiter.
Import Text UrlText Crypto Source.
From S2P Require Import Subscription Auth.
Import Auth.

Module AuthCommands.

(** ** Operations and programs *)

Inductive Op :=
  (* [UserRepository] *)
  | OCreateUser (u : User)
  | OCreateIfEmpty (u : User)
  | OFindUser (id : UserId)
  | OFindUsername (name : string)
  | OCountUsers
  | OListUsers (cursor : option UserId) (limit : N)
  | OSetEnabled (id : UserId) (b : bool)
  | OUpdateLastLogin (id : UserId) (at_ : Z)
  (* [SessionRepository] *)
  | OCreateSession (s : Session)
  | OFindToken (hash : string)
  | ORevoke (id : N)
  | ORevokeAll (uid : UserId)
  (* [TotpSecretRepository] *)
  | OUpsertTotp (s : TotpSecret)
  | OFindTotp (uid : UserId)
  | OEnable (expected : TotpSecret) (codes : list RecoveryCode)
  | ODisable (expected : TotpSecret)
  | OReplaceCodes (expected : TotpSecret) (codes : list RecoveryCode)
  | ORecordTimestep (uid : UserId) (t : N)
  (* [RecoveryCodeRepository] *)
  | OFindUnused (uid : UserId) (hash : string)
  | OMarkUsed (id : N) (s : Session)
  (* the clock, the rate limiter, the password workers, [SETUP_PERMIT] *)
  | ONow
  | OCheck (username : string) (ip : option string)
  | OFailure (username : string) (ip : option string)
  | OSuccess (username : string)
  | OHash (salt plain : string)
  | OVerify (plain phc : string)
  | OAcquireSetup
  | OReleaseSetup.

Definition Ans (o : Op) : Type :=
  match o with
  | OCreateUser _ | OCreateIfEmpty _ | OSetEnabled _ _ | OUpdateLastLogin _ _ | OCreateSession _
  | ORevoke _ | ORevokeAll _ | OUpsertTotp _ | OMarkUsed _ _ => Result IdentityError ()
  | OFindUser _ | OFindUsername _ => Result IdentityError (option User)
  | OCountUsers => Result IdentityError Z
  | OListUsers _ _ => Result IdentityError (list User)
  | OFindToken _ => Result IdentityError (option Session)
  | OFindTotp _ => Result IdentityError (option TotpSecret)
  | OEnable _ _ | ODisable _ | OReplaceCodes _ _ | ORecordTimestep _ _ => Result IdentityError bool
  | OFindUnused _ _ => Result IdentityError (option RecoveryCode)
  | ONow => Z
  | OCheck _ _ => Result RateLimiter.AuthError ()
  | OFailure _ _ | OSuccess _ | OAcquireSetup | OReleaseSetup => ()
  | OHash _ _ => Result SecurityError string
  | OVerify _ _ => Result SecurityError bool
  end.

Inductive Prog (X : Type) : Type :=
  | Ret (x : X)
  | Call (o : Op) (k : Ans o → Prog X).
Arguments Ret {X} x.
Arguments Call {X} o k.

Fixpoint bind {X Y} (p : Prog X) (f : X → Prog Y) : Prog Y :=
  match p with
  | Ret x => f x
  | Call o k => Call o (λ a, bind (k a) f)
  end.

Definition ask (o : Op) : Prog (Ans o) := Call o Ret.

(** [Result<X, AuthError>] of an [async fn], and [?]. *)
Abbreviation M X := (Prog (Result AuthError X)).

Definition try {X Y} (p : M X) (f : X → M Y) : M Y :=
  bind p (λ r, match r with Ok x => f x | Err e => Ret (Err e) end).
Definition lift {X} (r : Result AuthError X) : M X := Ret r.
Definition fail {X} (e : AuthError) : M X := Ret (Err e).

(** A repository call with [#[from] IdentityError]; a security call with
    [#[from] SecurityError]. *)
Definition repo {X} (p : Prog (Result IdentityError X)) : M X := bind p (λ r, Ret (map_err EIdentity r)).
Definition work {X} (p : Prog (Result SecurityError X)) : M X := bind p (λ r, Ret (map_err ESecurity r)).
(** A call whose result is a plain value. *)
Definition plain {X} (p : Prog X) : M X := bind p (λ x, Ret (Ok x)).

Notation "'do' x := p 'in' k" := (try p (λ x, k))
  (at level 10, x pattern, p at level 100, k at level 200, format "'do'  x  :=  p  'in' '//' k").

Definition now : M Z := plain (ask ONow).

(** [option.ok_or(e)?] *)
Definition some_or {X} (o : option X) (e : AuthError) : M X := lift (ok_or o e).

Section commands.
Context `{L : UrlLib} `{C : CryptoLib} `{A : AuthLib}.
(** [MasterKey::as_bytes] *)
Variable key : string.

(** ** [commands.rs] *)

(** [setup_admin]; the permit is dropped on every return. *)
Definition setup_admin_body (id : UserId) (salt username password : string) : M User :=
  do n := repo (ask OCountUsers) in
  if Z.ltb 0 n then fail AlreadyInitialized
  else
    do hash := work (ask (OHash salt password)) in
    do created := now in
    let user := user_new id created username hash Admin in
    do _ := bind (ask (OCreateIfEmpty user)) (λ r, Ret (map_err (λ e,
      match e with IdAlreadyInitialized => AlreadyInitialized | other => EIdentity other end) r)) in
    Ret (Ok user).

Definition setup_admin (id : UserId) (salt username password : string) : M User :=
  do _ := lift (validate_credentials username password) in
  do _ := plain (ask OAcquireSetup) in
  bind (setup_admin_body id salt username password) (λ r, Call OReleaseSetup (λ _, Ret r)).

(** [is_initialized], [user_count], [find_user], [list_users] *)
Definition is_initialized : M bool := do n := repo (ask OCountUsers) in Ret (Ok (Z.ltb 0 n)).
Definition user_count : M Z := repo (ask OCountUsers).
Definition find_user (id : UserId) : M (option User) := repo (ask (OFindUser id)).
Definition list_users (cursor : option UserId) (limit : N) : M (list User) := repo (ask (OListUsers cursor limit)).

(** [create_user] *)
Definition create_user (id : UserId) (salt username password : string) (role : Role) : M User :=
  do _ := lift (validate_credentials username password) in
  do hash := work (ask (OHash salt password)) in
  do created := now in
  let user := user_new id created username hash role in
  do _ := repo (ask (OCreateUser user)) in
  Ret (Ok user).

Inductive LoginOutcome :=
  | Success (user : User) (session : Session) (token : string)
  | TwoFactorRequired (user : User) (challenge_token : string).

(** [rate_limiter.check(..)?] *)
Definition limit (username : string) (ip : option string) : M () :=
  bind (ask (OCheck username ip)) (λ r, Ret (map_err (λ _, RateLimited) r)).

(** The session the two login commands build: a token, its digest, the
    expiry. *)
Definition new_session (sid : N) (entropy : option string) (ttl : Z) (uid : UserId) : M (Session * string * Z) :=
  do at_ := now in
  do token := lift (sec (generate_session_token entropy)) in
  let token_hash := hmac_digest purpose_session token key in
  let expires_at := (at_ + ttl)%Z in
  do created := now in
  Ret (Ok (session_new sid created uid token_hash expires_at, token, at_)).

Record LoginParams := mkLogin {
  l_username : string;
  l_password : string;
  l_ip : option string;
  l_ttl : Z;
  (* drawn by the command *)
  l_session_id : N;
  l_entropy : option string
}.

(** The tail of [login] after the password. *)
Definition login_success (p : LoginParams) (user : User) : M LoginOutcome :=
  do (session, token, at_) := new_session (l_session_id p) (l_entropy p) (l_ttl p) (u_id user) in
  do _ := repo (ask (OCreateSession session)) in
  do _ := plain (ask (OUpdateLastLogin (u_id user) at_)) in
  do _ := plain (ask (OSuccess (l_username p))) in
  Ret (Ok (Success user session token)).

(** [login] *)
Definition login (p : LoginParams) : M LoginOutcome :=
  let reject := do _ := plain (ask (OFailure (l_username p) (l_ip p))) in fail InvalidCredentials in
  do _ := lift (validate_credentials (l_username p) (l_password p)) in
  do _ := limit (l_username p) (l_ip p) in
  do user := repo (ask (OFindUsername (l_username p))) in
  let hash := match user with Some u => u_password_hash u | None => dummy_password_hash end in
  do verified := work (ask (OVerify (l_password p) hash)) in
  match user with
  | Some user =>
      if (verified : bool)
      then
        do at_ := now in
        if is_active_at user at_
        then
          if u_two_factor_enabled user
          then
            do issued := now in
            do token := lift (generate_challenge_token issued (u_id user) key) in
            Ret (Ok (TwoFactorRequired user token))
          else login_success p user
        else reject
      else reject
  | None => reject
  end.

(** [logout] *)
Definition logout (sid : N) : M () :=
  bind (ask (ORevoke sid)) (λ r, Ret
    match r with
    | Ok _ => Ok ()
    | Err SessionNotFound => Ok ()
    | Err e => Err (EIdentity e)
    end).

(** [disable_user] *)
Definition disable_user (requester target : UserId) : M () :=
  if N.eqb target requester then fail SelfDisableForbidden
  else
    do _ := repo (ask (OSetEnabled target false)) in
    do _ := repo (ask (ORevokeAll target)) in
    Ret (Ok ()).

(** [verify_session] *)
Definition verify_session (token : string) : M (option Session) :=
  do session := repo (ask (OFindToken (hmac_digest purpose_session token key))) in
  do at_ := now in
  Ret (Ok (match session with
           | Some s => if is_valid_at s at_ then Some s else None
           | None => None
           end)).

(** [authenticate_session] *)
Definition authenticate_session (token : string) : M (option (User * Session)) :=
  do session := verify_session token in
  match session with
  | None => Ret (Ok None)
  | Some session =>
      do user := repo (ask (OFindUser (se_user_id session))) in
      do user := some_or user InvalidCredentials in
      do at_ := now in
      Ret (Ok (if is_active_at user at_ then Some (user, session) else None))
  end.

(** [force_logout] *)
Definition force_logout (uid : UserId) : M () :=
  do user := repo (ask (OFindUser uid)) in
  do _ := some_or user (EIdentity UserNotFound) in
  do _ := repo (ask (ORevokeAll uid)) in
  Ret (Ok ()).

(** ** [twofa.rs] *)

(** [setup_2fa]: the secret in base 32 and the enrolment URI. *)
Definition setup_2fa (uid : UserId) (issuer : string) (entropy nonce : option string) : M (string * string) :=
  do user := repo (ask (OFindUser uid)) in
  do user := some_or user InvalidCredentials in
  if u_two_factor_enabled user then fail TwoFactorAlreadyEnabled
  else
    do secret := lift (sec (generate_secret entropy)) in
    do (ciphertext, nonce) := lift (sec (seal_parts nonce key totp_aad_context secret)) in
    do created := now in
    do _ := bind (ask (OUpsertTotp (mkTotpSecret uid ciphertext nonce created))) (λ r, Ret (map_err (λ e,
      match e with IdTwoFactorAlreadyEnabled => TwoFactorAlreadyEnabled | other => EIdentity other end) r)) in
    Ret (Ok (base32_secret secret, otpauth_uri secret issuer (u_username user))).

(** The loop that hashes a batch of recovery codes. *)
Fixpoint code_entities (uid : UserId) (ids : list N) (codes : list string) : M (list RecoveryCode) :=
  match codes with
  | [] => Ret (Ok [])
  | c :: codes =>
      do created := now in
      let entity := recovery_code_new (default 0%N (head ids)) created uid
                      (hmac_digest purpose_recovery (normalize_code c) key) in
      do rest := code_entities uid (tail ids) codes in
      Ret (Ok (entity :: rest))
  end.

Definition recovery_batch (uid : UserId) (ids : list N) (blocks : list (list N)) :
    M (list string * list RecoveryCode) :=
  do codes := some_or (generate_codes blocks) (ESecurity (SecCrypto "entropy source failure")) in
  do entities := code_entities uid ids codes in
  Ret (Ok (codes, entities)).

(** [unix_timestamp() as u64] *)
Definition unix_u64 (t : Z) : N := Z.to_N (unix_timestamp t mod 2 ^ 64).

(** [verify_2fa] *)
Definition verify_2fa (uid : UserId) (code : N) (ids : list N) (blocks : list (list N)) : M (list string) :=
  do user := repo (ask (OFindUser uid)) in
  do user := some_or user InvalidCredentials in
  if u_two_factor_enabled user then fail TwoFactorAlreadyEnabled
  else
    do stored := repo (ask (OFindTotp uid)) in
    do stored := some_or stored TotpSecretNotFound in
    do plaintext := lift (sec (open_parts key totp_aad_context (ts_ciphertext stored) (ts_nonce stored))) in
    do at_ := now in
    if negb (verify_code (unix_u64 at_) plaintext code) then fail InvalidTwoFactorCode
    else
      do (codes, entities) := recovery_batch uid ids blocks in
      do enabled := bind (ask (OEnable stored entities)) (λ r, Ret (map_err (λ e,
        match e with IdTwoFactorAlreadyEnabled => TwoFactorAlreadyEnabled | other => EIdentity other end) r)) in
      if (enabled : bool) then Ret (Ok codes) else fail InvalidTwoFactorCode.

(** What [disable_2fa] and [regenerate_recovery_codes] begin with: the
    enrolment is read before the password is checked. *)
Definition authorize (uid : UserId) (password : string) : M TotpSecret :=
  do user := repo (ask (OFindUser uid)) in
  do user := some_or user InvalidCredentials in
  if negb (u_two_factor_enabled user) then fail TwoFactorNotEnabled
  else
    do stored := repo (ask (OFindTotp uid)) in
    do stored := some_or stored TwoFactorNotEnabled in
    do verified := work (ask (OVerify password (u_password_hash user))) in
    if (verified : bool) then Ret (Ok stored) else fail InvalidCredentials.

(** [disable_2fa] *)
Definition disable_2fa (uid : UserId) (password : string) : M () :=
  do stored := authorize uid password in
  do done_ := repo (ask (ODisable stored)) in
  if (done_ : bool) then Ret (Ok ()) else fail TwoFactorNotEnabled.

(** [regenerate_recovery_codes] *)
Definition regenerate_recovery_codes (uid : UserId) (password : string) (ids : list N) (blocks : list (list N)) :
    M (list string) :=
  do stored := authorize uid password in
  do (codes, entities) := recovery_batch uid ids blocks in
  do done_ := repo (ask (OReplaceCodes stored entities)) in
  if (done_ : bool) then Ret (Ok codes) else fail TwoFactorNotEnabled.

Record Login2faParams := mkLogin2fa {
  f_challenge_token : string;
  f_code : string;
  f_ip : option string;
  f_ttl : Z;
  f_session_id : N;
  f_entropy : option string
}.

(** [code.len() == 6 && code.chars().all(|c| c.is_ascii_digit())] *)
Definition is_totp_code (code : string) : bool :=
  Nat.eqb (String.length code) 6 && all_chars (in_range 48 57) code.

(** The second factor: whether it is valid, and the recovery code to
    consume. *)
Definition second_factor (uid : UserId) (code : string) : M (bool * option N) :=
  if is_totp_code code
  then
    do c := some_or (parse_unsigned u32_max code) InvalidTwoFactorCode in
    do stored := repo (ask (OFindTotp uid)) in
    do stored := some_or stored TotpSecretNotFound in
    do plaintext := lift (sec (open_parts key totp_aad_context (ts_ciphertext stored) (ts_nonce stored))) in
    do at_ := now in
    match verify_code_timestep (unix_u64 at_) plaintext c with
    | Some t => do fresh := repo (ask (ORecordTimestep uid t)) in Ret (Ok (fresh, None))
    | None => Ret (Ok (false, None))
    end
  else
    do found := repo (ask (OFindUnused uid (hmac_digest purpose_recovery (normalize_code code) key))) in
    Ret (Ok (match found with Some rc => (true, Some (rc_id rc)) | None => (false, None) end)).

(** Persist the session, consuming the recovery code with it. *)
Definition persist (user : User) (ip : option string) (consume : option N) (session : Session) : M () :=
  match consume with
  | Some rid =>
      bind (ask (OMarkUsed rid session)) (λ r,
        match r with
        | Ok _ => Ret (Ok ())
        | Err RecoveryCodeNotFound => do _ := plain (ask (OFailure (u_username user) ip)) in fail InvalidTwoFactorCode
        | Err e => fail (EIdentity e)
        end)
  | None => repo (ask (OCreateSession session))
  end.

(** [login_2fa] *)
Definition login_2fa (p : Login2faParams) : M (User * Session * string) :=
  do at_ := now in
  do uid := lift (verify_challenge_token at_ (f_challenge_token p) key) in
  do uid := some_or uid ChallengeTokenInvalid in
  do user := repo (ask (OFindUser uid)) in
  do user := some_or user ChallengeTokenInvalid in
  do active := now in
  if negb (is_active_at user active) then fail ChallengeTokenInvalid
  else
    do _ := limit (u_username user) (f_ip p) in
    do (valid, consume) := second_factor uid (f_code p) in
    if negb valid
    then do _ := plain (ask (OFailure (u_username user) (f_ip p))) in fail InvalidTwoFactorCode
    else
      do (session, token, at_) := new_session (f_session_id p) (f_entropy p) (f_ttl p) (u_id user) in
      do _ := persist user (f_ip p) consume session in
      do _ := plain (ask (OUpdateLastLogin (u_id user) at_)) in
      do _ := plain (ask (OSuccess (u_username user))) in
      Ret (Ok (user, session, token)).

(** ** The shared state and what an operation does *)

Record St := mkSt {
  st_db : Db;
  st_limiter : RateLimiter.State;
  st_clock : Z;                (* [Timestamp::now] *)
  st_instant : N;              (* [Instant::now] *)
  st_permit : bool             (* a permit of [SETUP_PERMIT] is available *)
}.

Definition with_db (db : Db) (st : St) : St :=
  mkSt db (st_limiter st) (st_clock st) (st_instant st) (st_permit st).
Definition with_limiter (l : RateLimiter.State) (st : St) : St :=
  mkSt (st_db st) l (st_clock st) (st_instant st) (st_permit st).
Definition with_permit (b : bool) (st : St) : St :=
  mkSt (st_db st) (st_limiter st) (st_clock st) (st_instant st) b.

(** The configuration of the rate limiter. *)
Variables (max_attempts lockout_duration instant_max : N).
Variable limiter_key : string → N.

(** A statement on the tables. *)
Definition on_db {X} (f : Db → Tx X) (st : St) : Result IdentityError X * St :=
  let '(r, db') := f (st_db st) in (r, with_db db' st).
Definition query {X} (f : Db → Result IdentityError X) (st : St) : Result IdentityError X * St := (f (st_db st), st).

Definition exec (o : Op) : St → Ans o * St :=
  match o return St → Ans o * St with
  | OCreateUser u => on_db (create_user_row u)
  | OCreateIfEmpty u => on_db (create_if_empty u)
  | OFindUser id => query (find_user_by_id id)
  | OFindUsername n => query (find_user_by_username n)
  | OCountUsers => query (λ db, Ok (count_users db))
  | OListUsers c l => query (list_user_rows c l)
  | OSetEnabled id b => on_db (set_enabled id b)
  | OUpdateLastLogin id t => on_db (update_last_login id t)
  | OCreateSession s => on_db (create_session s)
  | OFindToken h => query (λ db, Ok (find_by_token_hash h db))
  | ORevoke id => on_db (revoke id)
  | ORevokeAll uid => on_db (λ db, (Ok (), revoke_all_for_user uid db))
  | OUpsertTotp s => on_db (upsert_totp s)
  | OFindTotp uid => query (find_totp uid)
  | OEnable s cs => on_db (enable_if_current s cs)
  | ODisable s => on_db (disable_if_current s)
  | OReplaceCodes s cs => on_db (replace_recovery_codes_if_current s cs)
  | ORecordTimestep uid t => on_db (record_used_timestep uid t)
  | OFindUnused uid h => query (λ db, Ok (find_unused_by_hash uid h db))
  | OMarkUsed id s => on_db (mark_used_and_create_session id s)
  | ONow => λ st, (st_clock st, st)
  | OCheck u ip => λ st,
      let '(l, r) := RateLimiter.check instant_max limiter_key (st_limiter st) (st_instant st) u ip in
      (r, with_limiter l st)
  | OFailure u ip => λ st,
      ((), with_limiter (RateLimiter.record_failure max_attempts lockout_duration instant_max limiter_key
                           (st_limiter st) (st_instant st) u ip) st)
  | OSuccess u => λ st, ((), with_limiter (RateLimiter.record_success limiter_key (st_limiter st) u) st)
  | OHash salt pw => λ st, (hash_password salt pw, st)
  | OVerify pw phc => λ st, (verify_password pw phc, st)
  | OAcquireSetup => λ st, ((), with_permit false st)
  | OReleaseSetup => λ st, ((), with_permit true st)
  end.

(** A command that runs alone. *)
Fixpoint run {X} (p : Prog X) (st : St) : X * St :=
  match p with
  | Ret x => (x, st)
  | Call o k => let '(a, st') := exec o st in run (k a) st'
  end.

End commands.

End AuthCommands.
