(* ===== verification/AuthSteps.v ===== *)
(** * Authentication: what a step and a path of a command do

    [AuthSteps]: the atomic calls and the tables.  [AuthPaths]: the calls of a
    command in order. *)

(** * Interleaved authentication

    The server runs any number of the commands of [AuthCommands] at once; each
    repository call, limiter call and clock reading is one atomic step, and
    nothing keeps other commands from running between two steps of one.  This
    file gives that transition system and what a single command guarantees
    along each of its paths, whatever answers it gets. *)

From stdpp Require Import relations.
From S2P Require Import Prelude Kernel Text UrlText Crypto Source RateLimiter.
Import Text UrlText Crypto Source.
From S2P Require Import Subscription Auth AuthCommands.
Import Auth AuthCommands.

Module AuthSteps.

(** ** Requests *)

Inductive Request :=
  | RSetupAdmin (id : UserId) (salt username password : string)
  | RIsInitialized
  | RUserCount
  | RFindUser (id : UserId)
  | RListUsers (cursor : option UserId) (limit : N)
  | RCreateUser (id : UserId) (salt username password : string) (role : Role)
  | RLogin (p : LoginParams)
  | RLogout (sid : N)
  | RDisableUser (requester target : UserId)
  | RVerifySession (token : string)
  | RAuthenticate (token : string)
  | RForceLogout (uid : UserId)
  | RSetup2fa (uid : UserId) (issuer : string) (entropy nonce : option string)
  | RVerify2fa (uid : UserId) (code : N) (ids : list N) (blocks : list (list N))
  | RDisable2fa (uid : UserId) (password : string)
  | RRegenerate (uid : UserId) (password : string) (ids : list N) (blocks : list (list N))
  | RLogin2fa (p : Login2faParams).

Inductive Outcome :=
  | OutUser (r : Result AuthError User)
  | OutBool (r : Result AuthError bool)
  | OutCount (r : Result AuthError Z)
  | OutFound (r : Result AuthError (option User))
  | OutUsers (r : Result AuthError (list User))
  | OutLogin (r : Result AuthError LoginOutcome)
  | OutUnit (r : Result AuthError ())
  | OutSession (r : Result AuthError (option Session))
  | OutPrincipal (r : Result AuthError (option (User * Session)))
  | OutSetup (r : Result AuthError (string * string))
  | OutCodes (r : Result AuthError (list string))
  | OutLogin2fa (r : Result AuthError (User * Session * string)).

(** What a task saw: its calls and their answers. *)
Abbreviation Ev := {o : Op & Ans o}.
Definition ev (o : Op) (a : Ans o) : Ev := existT o a.

Section steps.
Context `{L : UrlLib} `{C : CryptoLib} `{A : AuthLib}.
Variable key : string.
Variables (max_attempts lockout_duration instant_max : N).
Variable limiter_key : string → N.

Definition fmap {X Y} (f : X → Y) (p : Prog X) : Prog Y := bind p (λ x, Ret (f x)).

Definition prog_of (r : Request) : Prog Outcome :=
  match r with
  | RSetupAdmin id salt u p => fmap OutUser (setup_admin id salt u p)
  | RIsInitialized => fmap OutBool is_initialized
  | RUserCount => fmap OutCount user_count
  | RFindUser id => fmap OutFound (find_user id)
  | RListUsers c l => fmap OutUsers (list_users c l)
  | RCreateUser id salt u p role => fmap OutUser (create_user id salt u p role)
  | RLogin p => fmap OutLogin (login key p)
  | RLogout sid => fmap OutUnit (logout sid)
  | RDisableUser a b => fmap OutUnit (disable_user a b)
  | RVerifySession t => fmap OutSession (verify_session key t)
  | RAuthenticate t => fmap OutPrincipal (authenticate_session key t)
  | RForceLogout uid => fmap OutUnit (force_logout uid)
  | RSetup2fa uid issuer entropy nonce => fmap OutSetup (setup_2fa key uid issuer entropy nonce)
  | RVerify2fa uid code ids blocks => fmap OutCodes (verify_2fa key uid code ids blocks)
  | RDisable2fa uid pw => fmap OutUnit (disable_2fa uid pw)
  | RRegenerate uid pw ids blocks => fmap OutCodes (regenerate_recovery_codes key uid pw ids blocks)
  | RLogin2fa p => fmap OutLogin2fa (login_2fa key p)
  end.

(** ** Configurations and steps *)

Record Task := mkTask {
  tk_request : Request;
  tk_history : list Ev;
  tk_prog : Prog Outcome;
  tk_holds : bool;           (* the task holds the setup permit *)
  tk_live : bool             (* a dropped future runs no further *)
}.

Record Config := mkConfig {
  cf_st : St;
  cf_tasks : list Task;
  cf_log : list (nat * Ev)   (* the answered calls of all tasks, in order *)
}.

Definition spawn (r : Request) : Task := mkTask r [] (prog_of r) false true.

(** A call that is waiting: only for the permit. *)
Definition ready (o : Op) (st : St) : Prop := match o with OAcquireSetup => st_permit st = true | _ => True end.

(** An error a call can answer without its statement's own reason: the
    database fails, or the password workers are busy or die. *)
Definition fault (o : Op) : Ans o → Prop :=
  match o return Ans o → Prop with
  | ONow | OCheck _ _ | OFailure _ _ | OSuccess _ | OAcquireSetup | OReleaseSetup => λ _, False
  | OHash _ _ | OVerify _ _ => λ a, a = Err PasswordWorkBusy ∨ ∃ m, a = Err (SecCrypto m)
  | OCreateUser _ | OCreateIfEmpty _ | OSetEnabled _ _ | OUpdateLastLogin _ _ | OCreateSession _
  | ORevoke _ | ORevokeAll _ | OUpsertTotp _ | OMarkUsed _ _
  | OFindUser _ | OFindUsername _ | OCountUsers | OListUsers _ _ | OFindToken _ | OFindTotp _
  | OEnable _ _ | ODisable _ | OReplaceCodes _ _ | ORecordTimestep _ _
  | OFindUnused _ _ => λ a, ∃ m, a = Err (Storage m)
  end.

Definition holds_after (o : Op) (b : bool) : bool :=
  match o with OAcquireSetup => true | OReleaseSetup => false | _ => b end.

(** The task after its call [o] was answered. *)
Definition advance (tk : Task) (o : Op) (k : Ans o → Prog Outcome) (a : Ans o) : Task :=
  mkTask (tk_request tk) (tk_history tk ++ [ev o a]) (k a) (holds_after o (tk_holds tk)) true.

Definition exec' := exec max_attempts lockout_duration instant_max limiter_key.

(** How a call can be answered: it runs, it fails, or it runs and its answer
    is lost to a failure. *)
Inductive answers (o : Op) (st : St) : Ans o → St → Prop :=
  | answered a st' : ready o st → exec' o st = (a, st') → answers o st a st'
  | failed a : fault o a → answers o st a st
  | lost a : fault o a → answers o st a (exec' o st).2.

Inductive step : Config → Config → Prop :=
  | step_spawn c r : step c (mkConfig (cf_st c) (cf_tasks c ++ [spawn r]) (cf_log c))
  | step_call c i tk o k a st' :
      cf_tasks c !! i = Some tk → tk_live tk = true → tk_prog tk = Call o k →
      answers o (cf_st c) a st' →
      step c (mkConfig st' (<[i := advance tk o k a]> (cf_tasks c)) (cf_log c ++ [(i, ev o a)]))
  | step_drop c i tk :
      cf_tasks c !! i = Some tk →
      step c (mkConfig (if tk_holds tk then with_permit true (cf_st c) else cf_st c)
                (<[i := mkTask (tk_request tk) (tk_history tk) (tk_prog tk) false false]> (cf_tasks c)) (cf_log c))
  | step_time c clock instant :
      (st_instant (cf_st c) ≤ instant)%N →
      step c (mkConfig (mkSt (st_db (cf_st c)) (st_limiter (cf_st c)) clock instant (st_permit (cf_st c)))
                (cf_tasks c) (cf_log c))
  | step_prune c batch :
      step c (mkConfig (with_db (prune_sessions (st_clock (cf_st c)) batch (st_db (cf_st c))) (cf_st c))
                (cf_tasks c) (cf_log c)).

Definition initial (db : Db) (limiter : RateLimiter.State) (clock : Z) (instant : N) : Config :=
  mkConfig (mkSt db limiter clock instant true) [] [].

(** *** Running tasks one after the other *)

Definition readyb (o : Op) (st : St) : bool := match o with OAcquireSetup => st_permit st | _ => true end.

Fixpoint drive (i : nat) (p : Prog Outcome) (tk : Task) (st : St) (log : list (nat * Ev)) :
    St * Task * list (nat * Ev) :=
  match p with
  | Ret _ => (st, tk, log)
  | Call o k =>
      if readyb o st
      then let '(a, st') := exec' o st in drive i (k a) (advance tk o k a) st' (log ++ [(i, ev o a)])
      else (st, tk, log)
  end.

(** A command that starts and runs to its end; the clock is set. *)
Inductive Act := AServe (r : Request) | AClock (t : Z).

Definition act (a : Act) (c : Config) : Config :=
  match a with
  | AServe r =>
      let i := length (cf_tasks c) in
      let '(st, tk, log) := drive i (prog_of r) (spawn r) (cf_st c) (cf_log c) in
      mkConfig st (cf_tasks c ++ [tk]) log
  | AClock t =>
      mkConfig (mkSt (st_db (cf_st c)) (st_limiter (cf_st c)) t (st_instant (cf_st c)) (st_permit (cf_st c)))
        (cf_tasks c) (cf_log c)
  end.

Definition acts (l : list Act) (c : Config) : Config := foldl (λ c a, act a c) c l.

Lemma drive_steps i p tk st tasks log :
  tk_prog tk = p → tk_live tk = true → i = length tasks →
  let '(st', tk', log') := drive i p tk st log in
  rtc step (mkConfig st (tasks ++ [tk]) log) (mkConfig st' (tasks ++ [tk']) log').
Proof.
  intros Hp Hl Hi. revert tk st log Hp Hl. induction p as [x|o k IH]; intros tk st log Hp Hl; cbn; [done|].
  destruct (readyb o st) eqn:Hr; [|done]. destruct (exec' o st) as [a st'] eqn:He.
  specialize (IH a (advance tk o k a) st' (log ++ [(i, ev o a)]) eq_refl eq_refl).
  destruct (drive i (k a) _ _ _) as [[st2 tk2] log2]. eapply rtc_l; [|exact IH].
  assert ((tasks ++ [tk]) !! i = Some tk) as Hlk by (subst i; by apply list_lookup_middle).
  replace (tasks ++ [advance tk o k a]) with (<[i := advance tk o k a]> (tasks ++ [tk]))
    by (subst i; by rewrite insert_app_r_alt, Nat.sub_diag).
  refine (step_call (mkConfig st (tasks ++ [tk]) log) i tk o k a st' Hlk Hl Hp _).
  apply answered; [|done]. by destruct o.
Qed.

Lemma act_steps a c : rtc step c (act a c).
Proof.
  destruct a as [r|t]; cbn.
  - pose proof (drive_steps (length (cf_tasks c)) (prog_of r) (spawn r) (cf_st c) (cf_tasks c) (cf_log c)) as H.
    destruct (drive _ _ _ _ _) as [[st tk] log]. eapply rtc_l; [apply (step_spawn c r)|by apply H].
  - apply rtc_once. by apply step_time.
Qed.

Lemma acts_steps l c : rtc step c (acts l c).
Proof.
  unfold acts. revert c. induction l as [|a l IH]; intros c; cbn; [done|].
  etransitivity; [apply act_steps|apply IH].
Qed.

(** ** What holds along every path of a program *)

Fixpoint guarded {X} (Q : list Ev → Op → Prop) (R : list Ev → X → Prop) (h : list Ev) (p : Prog X) : Prop :=
  match p with
  | Ret x => R h x
  | Call o k => Q h o ∧ ∀ a, guarded Q R (h ++ [ev o a]) (k a)
  end.

Lemma guarded_bind {X Y} Q (R' : list Ev → X → Prop) (R : list Ev → Y → Prop) (p : Prog X) f h :
  guarded Q R' h p → (∀ h' x, R' h' x → guarded Q R h' (f x)) → guarded Q R h (bind p f).
Proof.
  intros Hp Hf. revert h Hp. induction p as [x|o k IH]; intros h Hp; [by apply Hf|].
  destruct Hp as [HQ Hk]. split; [done|]. intros a. apply IH, Hk.
Qed.

Lemma guarded_assoc {X Y Z} Q (R : list Ev → Z → Prop) (p : Prog X) (f : X → Prog Y) (g : Y → Prog Z) h :
  guarded Q R h (bind p (λ x, bind (f x) g)) → guarded Q R h (bind (bind p f) g).
Proof.
  revert h. induction p as [x|o k IH]; intros h Hp; [done|]. destruct Hp as [HQ Hk]. split; [done|].
  intros a. apply IH, Hk.
Qed.

(** A program that only adds to its history. *)
Lemma guarded_grows {X} Q (R : list Ev → X → Prop) (p : Prog X) h h0 :
  h0 ⊆ h → guarded Q R h p → guarded Q (λ h' x, R h' x ∧ h0 ⊆ h') h p.
Proof.
  revert h. induction p as [x|o k IH]; intros h Hh Hp; [done|].
  destruct Hp as [HQ Hk]. split; [done|]. intros a. apply IH; [set_solver|done].
Qed.

End steps.

(** Membership of an event in a history that was extended since. *)
Ltac in_hist :=
  first [ assumption
        | apply elem_of_app; right; apply list_elem_of_singleton; reflexivity
        | apply elem_of_app; left; in_hist
        | match goal with H : ?h ⊆ ?h' |- _ ∈ ?h' => apply H; in_hist end ].

End AuthSteps.

(** * What each authentication command does before it acts

    Along every path of every command, whatever the answers: a session is
    only written after the password, or after the challenge and the second
    factor; two-factor authentication is only enabled for a secret a code was
    checked against; no command enables a user; and the outcomes that let a
    caller in rest on what the command read. *)

From S2P Require Import Prelude Kernel Text UrlText Crypto Source RateLimiter.
Import Text UrlText Crypto Source.
From S2P Require Import Subscription Auth AuthCommands.
Import Auth AuthCommands AuthSteps.

Module AuthPaths.

Section paths.
Context `{L : UrlLib} `{C : CryptoLib} `{A : AuthLib}.
Variable key : string.

(** The password of an active user without a second factor was verified. *)
Record password_login (p : LoginParams) (h : list Ev) (s : Session) (user : User) : Prop := {
  pl_found : ev (OFindUsername (l_username p)) (Ok (Some user)) ∈ h;
  pl_verified : ev (OVerify (l_password p) (u_password_hash user)) (Ok true) ∈ h;
  pl_active : ∃ t, ev ONow t ∈ h ∧ is_active_at user t = true;
  pl_single : u_two_factor_enabled user = false;
  pl_owner : se_user_id s = u_id user;
  pl_expiry : ∃ t, ev ONow t ∈ h ∧ se_expires_at s = (t + l_ttl p)%Z;
  pl_fresh : se_revoked s = false
}.

(** A valid challenge named an active user. *)
Record challenge_login (p : Login2faParams) (h : list Ev) (s : Session) (uid : UserId) (user : User) : Prop := {
  cl_token : ∃ t, ev ONow t ∈ h ∧ verify_challenge_token t (f_challenge_token p) key = Ok (Some uid);
  cl_found : ev (OFindUser uid) (Ok (Some user)) ∈ h;
  cl_active : ∃ t, ev ONow t ∈ h ∧ is_active_at user t = true;
  cl_owner : se_user_id s = u_id user;
  cl_expiry : ∃ t, ev ONow t ∈ h ∧ se_expires_at s = (t + f_ttl p)%Z;
  cl_fresh : se_revoked s = false
}.

(** The code is the one of a time step near the clock for the stored secret,
    and the step was claimed. *)
Definition totp_accepted (uid : UserId) (code : string) (h : list Ev) : Prop :=
  ∃ stored plaintext t c step,
    ev (OFindTotp uid) (Ok (Some stored)) ∈ h ∧
    open_parts key totp_aad_context (ts_ciphertext stored) (ts_nonce stored) = Ok plaintext ∧
    parse_unsigned u32_max code = Some c ∧
    ev ONow t ∈ h ∧ verify_code_timestep (unix_u64 t) plaintext c = Some step ∧
    ev (ORecordTimestep uid step) (Ok true) ∈ h.

(** The code is an unused recovery code of the user. *)
Definition recovery_found (uid : UserId) (code : string) (rid : N) (h : list Ev) : Prop :=
  ∃ rc, ev (OFindUnused uid (hmac_digest purpose_recovery (normalize_code code) key)) (Ok (Some rc)) ∈ h ∧
    rc_id rc = rid.

(** A code was checked against the enrolment. *)
Definition enrolment_checked (uid : UserId) (code : N) (h : list Ev) (stored : TotpSecret) : Prop :=
  ev (OFindTotp uid) (Ok (Some stored)) ∈ h ∧
  ∃ plaintext t,
    open_parts key totp_aad_context (ts_ciphertext stored) (ts_nonce stored) = Ok plaintext ∧
    ev ONow t ∈ h ∧ verify_code (unix_u64 t) plaintext code = true.

(** The enrolment was read, and then the user's password verified. *)
Definition password_confirmed (uid : UserId) (password : string) (h : list Ev) (stored : TotpSecret) : Prop :=
  ev (OFindTotp uid) (Ok (Some stored)) ∈ h ∧
  ∃ user, ev (OFindUser uid) (Ok (Some user)) ∈ h ∧ u_two_factor_enabled user = true ∧
    ev (OVerify password (u_password_hash user)) (Ok true) ∈ h.

(** The users table was seen empty. *)
Definition saw_no_users (h : list Ev) : Prop := ∃ n, ev OCountUsers (Ok n) ∈ h ∧ (n ≤ 0)%Z.

(** The setup permit was acquired and not released since. *)
Definition in_setup (h : list Ev) : Prop := ev OAcquireSetup () ∈ h ∧ ev OReleaseSetup () ∉ h.

(** The user is new, under validated credentials and the hash of the
    password. *)
Definition new_user (id : UserId) (salt username password : string) (role : Role) (h : list Ev) (u : User) : Prop :=
  validate_credentials username password = Ok () ∧
  ∃ hash t, ev (OHash salt password) (Ok hash) ∈ h ∧ u = user_new id t username hash role.

(** When a command may make a call. *)
Definition allowed (r : Request) (h : list Ev) (o : Op) : Prop :=
  match o with
  | OCreateSession s =>
      match r with
      | RLogin p => ∃ user, password_login p h s user
      | RLogin2fa p => ∃ uid user, challenge_login p h s uid user ∧ totp_accepted uid (f_code p) h
      | _ => False
      end
  | OMarkUsed rid s =>
      match r with
      | RLogin2fa p => ∃ uid user, challenge_login p h s uid user ∧ recovery_found uid (f_code p) rid h
      | _ => False
      end
  | OEnable stored codes =>
      match r with
      | RVerify2fa uid code _ _ => enrolment_checked uid code h stored ∧ Forall (λ c, rc_user_id c = uid) codes
      | _ => False
      end
  | ODisable stored =>
      match r with RDisable2fa uid pw => password_confirmed uid pw h stored | _ => False end
  | OReplaceCodes stored codes =>
      match r with
      | RRegenerate uid pw _ _ => password_confirmed uid pw h stored ∧ Forall (λ c, rc_user_id c = uid) codes
      | _ => False
      end
  | OSetEnabled _ b => b = false
  | OCreateIfEmpty u =>
      match r with
      | RSetupAdmin id salt name pw => saw_no_users h ∧ new_user id salt name pw Admin h u
      | _ => False
      end
  | OCreateUser u =>
      match r with RCreateUser id salt name pw role => new_user id salt name pw role h u | _ => False end
  | OHash _ _ =>
      match r with
      | RSetupAdmin _ _ _ _ => saw_no_users h ∧ in_setup h
      | RCreateUser _ _ _ _ _ => True
      | _ => False
      end
  | OReleaseSetup => in_setup h
  | _ => True
  end.

(** What an outcome rests on. *)
Definition justified (r : Request) (h : list Ev) (out : Outcome) : Prop :=
  match r, out with
  | RAuthenticate token, OutPrincipal (Ok (Some (user, s))) =>
      ev (OFindToken (hmac_digest purpose_session token key)) (Ok (Some s)) ∈ h ∧
      (∃ t, ev ONow t ∈ h ∧ is_valid_at s t = true) ∧
      ev (OFindUser (se_user_id s)) (Ok (Some user)) ∈ h ∧
      (∃ t, ev ONow t ∈ h ∧ is_active_at user t = true)
  | RLogin p, OutLogin (Ok (Success user s token)) =>
      password_login p h s user ∧ ev (OCreateSession s) (Ok ()) ∈ h ∧ se_token_hash s = hmac_digest purpose_session token key
  | RLogin2fa p, OutLogin2fa (Ok (user, s, token)) =>
      ∃ uid, challenge_login p h s uid user ∧
        (totp_accepted uid (f_code p) h ∧ ev (OCreateSession s) (Ok ()) ∈ h ∨
         ∃ rid, recovery_found uid (f_code p) rid h ∧ ev (OMarkUsed rid s) (Ok ()) ∈ h) ∧
        se_token_hash s = hmac_digest purpose_session token key
  | RVerifySession token, OutSession (Ok (Some s)) =>
      ev (OFindToken (hmac_digest purpose_session token key)) (Ok (Some s)) ∈ h ∧
      (∃ t, ev ONow t ∈ h ∧ is_valid_at s t = true)
  | RLogout sid, OutUnit (Ok _) => ev (ORevoke sid) (Ok ()) ∈ h ∨ ev (ORevoke sid) (Err SessionNotFound) ∈ h
  | RForceLogout uid, OutUnit (Ok _) | RDisableUser _ uid, OutUnit (Ok _) => ev (ORevokeAll uid) (Ok ()) ∈ h
  | _, _ => True
  end.

(** ** The programs *)

Lemma password_login_grows p h h' s user : h ⊆ h' → password_login p h s user → password_login p h' s user.
Proof. intros Hs [? ? (t & ? & ?) ? ? (t' & ? & ?) ?]. split; eauto. Qed.
Lemma challenge_login_grows p h h' s uid user :
  h ⊆ h' → challenge_login p h s uid user → challenge_login p h' s uid user.
Proof. intros Hs [(t0 & ? & ?) ? (t & ? & ?) ? (t' & ? & ?) ?]. split; eauto. Qed.
Lemma totp_accepted_grows uid code h h' : h ⊆ h' → totp_accepted uid code h → totp_accepted uid code h'.
Proof. intros Hs (st & pt & t & c & step & ? & ? & ? & ? & ? & ?). exists st, pt, t, c, step. naive_solver. Qed.

Abbreviation G r h p := (guarded (allowed r) (justified r) h p).

(** Run the program of the goal to its next call or return, by cases on the
    answers. *)
Ltac scrutinee x :=
  lazymatch x with
  | map_err _ ?a => scrutinee a
  | ok_or ?a _ => scrutinee a
  | negb ?a => scrutinee a
  | match ?a with _ => _ end => scrutinee a
  | code_entities _ _ _ _ => fail
  | bind ?q _ => scrutinee q
  | try ?q _ => scrutinee q
  | _ => first [is_var x; destruct x | destruct x eqn:?]
  end.

Ltac walk :=
  repeat first
    [ progress cbn [guarded bind try lift fail repo work plain ask now some_or ok_or limit fmap map_err sec negb]
    | lazymatch goal with
      | |- allowed _ _ _ ∧ (∀ a, _) => split; [try exact I | intros ?]
      | |- guarded _ _ _ ?p => scrutinee p
      | |- justified _ _ (_ (_ (match ?x with _ => _ end))) => scrutinee x
      end ]; try exact I; simplify_eq/=.

Ltac elem := first [apply list_elem_of_here | apply list_elem_of_further; elem].
Ltac seen :=
  repeat match goal with x : () |- _ => destruct x end;
  first [ elem | in_hist | match goal with H : _ ⊆ ?h |- _ ∈ ?h => apply H; elem end ].

(** The grounds of an outcome, from the facts and the history at hand. *)
Ltac grounds :=
  repeat match goal with
  | |- _ ∈ _ => seen
  | |- ∃ t, ev ONow t ∈ _ ∧ _ => eexists; split; [|solve [eassumption | reflexivity]]; seen
  | |- saw_no_users _ => eexists; split; [seen | by apply Z.ltb_ge]
  | |- in_setup _ => split; [seen|by rewrite !not_elem_of_cons; split_and!; try discriminate; apply not_elem_of_nil]
  | |- new_user _ _ _ _ _ _ _ => split; [repeat match goal with x : () |- _ => destruct x end; done|];
      do 2 eexists; split; [seen|reflexivity]
  | |- password_login _ _ _ _ => split
  | |- challenge_login _ _ _ _ _ => split
  | |- totp_accepted _ _ _ => do 5 eexists; split_and!; try eassumption
  | |- recovery_found _ _ _ _ => eexists; split; [|reflexivity]
  | |- enrolment_checked _ _ _ _ => split; [|do 2 eexists; split_and!; try eassumption]
  | |- password_confirmed _ _ _ _ => split; [|eexists; split_and!]
  | |- _ ∧ _ => split
  | |- _ => solve [eassumption | reflexivity | by eauto]
  | |- ∃ _, _ => eexists
  end.

Lemma login_paths p : G (RLogin p) [] (prog_of key (RLogin p)).
Proof.
  cbn [prog_of]. unfold fmap, login, login_success, new_session, now, limit, repo, work, plain, lift, ask, some_or, sec.
  walk; grounds.
Qed.

Lemma login_2fa_paths p : G (RLogin2fa p) [] (prog_of key (RLogin2fa p)).
Proof.
  cbn [prog_of]. unfold fmap, login_2fa, second_factor, persist, new_session, now, limit, repo, work, plain, lift, ask, some_or, sec.
  walk; grounds; first [left; by grounds | right; eexists; split; grounds].
Qed.

Lemma code_entities_paths r h0 uid ids codes h :
  h0 ⊆ h →
  guarded (allowed r) (λ h' x, h0 ⊆ h' ∧ match x with Ok l => Forall (λ c, rc_user_id c = uid) l | Err _ => True end)
    h (code_entities key uid ids codes).
Proof.
  revert ids h. induction codes as [|c codes IH]; intros ids h Hh; cbn; [by repeat constructor|].
  split; [done|]. intros t. eapply guarded_bind; [apply IH; set_solver|].
  intros h' [l|e] [Hh' Hl]; cbn; [|done]. split; [done|]. by constructor.
Qed.

Ltac start := unfold fmap, now, limit, repo, work, plain, lift, ask, some_or, sec; walk.

(** Past the batch of codes. *)
Ltac past_codes :=
  repeat apply guarded_assoc;
  match goal with
  | |- guarded _ _ ?h (bind (code_entities _ _ _ _) _) =>
      eapply guarded_bind; [apply (code_entities_paths _ h); reflexivity | intros ? [?|?] [? ?]; walk]
  end.

Lemma verify_2fa_paths uid code ids blocks :
  G (RVerify2fa uid code ids blocks) [] (prog_of key (RVerify2fa uid code ids blocks)).
Proof. cbn [prog_of]. unfold verify_2fa, recovery_batch. start. past_codes; grounds. Qed.

Lemma regenerate_paths uid pw ids blocks :
  G (RRegenerate uid pw ids blocks) [] (prog_of key (RRegenerate uid pw ids blocks)).
Proof. cbn [prog_of]. unfold regenerate_recovery_codes, authorize, recovery_batch. start. past_codes; grounds. Qed.

Lemma setup_admin_paths id salt u pw : G (RSetupAdmin id salt u pw) [] (prog_of key (RSetupAdmin id salt u pw)).
Proof. cbn [prog_of]. unfold setup_admin, setup_admin_body. start; grounds. Qed.

Lemma authenticate_paths token : G (RAuthenticate token) [] (prog_of key (RAuthenticate token)).
Proof. cbn [prog_of]. unfold authenticate_session, verify_session. start; grounds. Qed.

Lemma verify_session_paths token : G (RVerifySession token) [] (prog_of key (RVerifySession token)).
Proof. cbn [prog_of]. unfold verify_session. start; grounds. Qed.

(** A logout that succeeds had its revocation answered. *)
Lemma logout_paths sid : G (RLogout sid) [] (prog_of key (RLogout sid)).
Proof.
  cbn. split; [done|]. intros [[]|e]; [left; seen|]. destruct e; try exact I. right; seen.
Qed.

(** Every command, on every path. *)
Lemma paths r : G r [] (prog_of key r).
Proof.
  destruct r; auto using login_paths, login_2fa_paths, verify_2fa_paths, regenerate_paths, setup_admin_paths,
    authenticate_paths, verify_session_paths, logout_paths; cbn [prog_of];
    unfold is_initialized, user_count, find_user, list_users, create_user, disable_user,
      force_logout, setup_2fa, disable_2fa, authorize; start; by grounds.
Qed.

End paths.
End AuthPaths.
