(* ===== verification/AuthInv.v ===== *)
(** * Authentication: the invariant, and a run

    [AuthInv]: the invariant of the tables under every interleaving.  [AuthDemo]: a
    concrete run, for the witnesses. *)

(** * Invariants of interleaved authentication

    What the operations do to the tables, the invariant of the tables, and
    the facts that hold in every configuration the transition system of
    [AuthSteps] reaches. *)

From stdpp Require Import relations.
From S2P Require Import Prelude Kernel Text UrlText Crypto Source RateLimiter.
Import Text UrlText Crypto Source.
From S2P Require Import Subscription Auth AuthCommands AuthSteps.
Import Auth AuthCommands AuthSteps AuthPaths.

Module AuthInv.

(** ** What an operation does to the tables *)

Definition eff (o : Op) (db : Db) : Db :=
  match o with
  | OCreateUser u => (create_user_row u db).2
  | OCreateIfEmpty u => (create_if_empty u db).2
  | OSetEnabled id b => (set_enabled id b db).2
  | OUpdateLastLogin id t => (update_last_login id t db).2
  | OCreateSession s => (create_session s db).2
  | ORevoke id => (revoke id db).2
  | ORevokeAll uid => revoke_all_for_user uid db
  | OUpsertTotp s => (upsert_totp s db).2
  | OEnable s cs => (enable_if_current s cs db).2
  | ODisable s => (disable_if_current s db).2
  | OReplaceCodes s cs => (replace_recovery_codes_if_current s cs db).2
  | ORecordTimestep uid t => (record_used_timestep uid t db).2
  | OMarkUsed id s => (mark_used_and_create_session id s db).2
  | _ => db
  end.

(** *** The writes, by table *)

Lemma insert_session_Ok s db db' :
  insert_session s db = Ok db' →
  ∃ created expires, format_ts (se_created_at s) = Ok created ∧ format_ts (se_expires_at s) = Ok expires ∧
    sessions db !! se_id s = None ∧ token_taken (se_token_hash s) (sessions db) = false ∧
    is_Some (users db !! se_user_id s) ∧
    db' = with_sessions (<[se_id s := mkSession (se_id s) (se_user_id s) (se_token_hash s) created expires (se_revoked s)]>
                           (sessions db)) db.
Proof.
  unfold insert_session, ts. destruct (format_ts (se_created_at s)) as [cr|] eqn:Hc; [|done].
  destruct (format_ts (se_expires_at s)) as [ex|] eqn:He; [|done]. cbn.
  case_bool_decide as H1; [done|]. destruct (token_taken _ _) eqn:Ht; [done|].
  case_bool_decide as H2; [done|]. intros [= <-]. exists cr, ex. split_and!; try done.
  - by apply eq_None_not_Some.
  - by apply not_eq_None_Some.
Qed.

Lemma insert_code_Ok c db db' :
  insert_code c db = Ok db' →
  ∃ created, recovery_codes db !! rc_id c = None ∧ code_taken (rc_code_hash c) (recovery_codes db) = false ∧
    is_Some (users db !! rc_user_id c) ∧
    db' = with_codes (<[rc_id c := mkRecoveryCode (rc_id c) (rc_user_id c) (rc_code_hash c) (rc_used c) created]>
                        (recovery_codes db)) db.
Proof.
  unfold insert_code. intros (cr & _ & H)%result_bind_Ok. cbn in H.
  case_bool_decide as H1; [done|]. destruct (code_taken _ _) eqn:Ht; [done|].
  case_bool_decide as H2; [done|]. injection H as <-. exists cr. split_and!; try done.
  - by apply eq_None_not_Some.
  - by apply not_eq_None_Some.
Qed.

Lemma insert_codes_frame cs db db' :
  insert_codes cs db = Ok db' →
  users db' = users db ∧ sessions db' = sessions db ∧ totp_secrets db' = totp_secrets db.
Proof.
  revert db. induction cs as [|c cs IH]; intros db; cbn; [by intros [= <-]|].
  intros (db1 & H1 & H2)%result_bind_Ok. apply IH in H2 as (-> & -> & ->).
  by apply insert_code_Ok in H1 as (cr & _ & _ & _ & ->).
Qed.

Lemma replace_frame uid cs db db' :
  replace_in_transaction uid cs db = Ok db' →
  users db' = users db ∧ sessions db' = sessions db ∧ totp_secrets db' = totp_secrets db.
Proof. unfold replace_in_transaction. destruct (existsb _ _); [done|]. by intros (-> & -> & ->)%insert_codes_frame. Qed.

Lemma set_enabled_if_current_Some e was b db db' :
  set_enabled_if_current e was b db = Some db' →
  ∃ u r, users db !! ts_user_id e = Some u ∧ ur_two_factor_enabled u = was ∧
    totp_secrets db !! ts_user_id e = Some r ∧ tr_ciphertext r = ts_ciphertext e ∧ tr_nonce r = ts_nonce e ∧
    db' = with_users (<[ts_user_id e := row_two_factor b u]> (users db)) db.
Proof.
  unfold set_enabled_if_current, is_current. destruct (users db !! _) as [u|] eqn:Hu; [|done].
  destruct (Bool.eqb _ _) eqn:Hw; cbn; [|done]. apply eqb_prop in Hw.
  destruct (totp_secrets db !! _) as [r|] eqn:Hr; [|done].
  destruct (String.eqb (tr_ciphertext r) _) eqn:H1; cbn; [|done].
  destruct (String.eqb (tr_nonce r) _) eqn:H2; [|done].
  apply String.eqb_eq in H1, H2. intros [= <-]. by exists u, r.
Qed.

(** The three guarded enrolment writes succeed only on the enrolment they
    name. *)
Lemma enable_effect e cs db :
  let db' := (enable_if_current e cs db).2 in
  db' = db ∨ ∃ u r db1, users db !! ts_user_id e = Some u ∧ ur_two_factor_enabled u = false ∧
    totp_secrets db !! ts_user_id e = Some r ∧ tr_ciphertext r = ts_ciphertext e ∧ tr_nonce r = ts_nonce e ∧
    db1 = with_users (<[ts_user_id e := row_two_factor true u]> (users db)) db ∧
    replace_in_transaction (ts_user_id e) cs db1 = Ok db'.
Proof.
  unfold enable_if_current. destruct (set_enabled_if_current _ _ _ _) as [db1|] eqn:He; cbn; [|by left].
  destruct (replace_in_transaction _ _ _) as [db2|] eqn:Hr; cbn; [|by left]. right.
  apply set_enabled_if_current_Some in He as (u & r & ? & ? & ? & ? & ? & ?).
  exists u, r, db1. by split_and!.
Qed.

Lemma disable_effect e db :
  let db' := (disable_if_current e db).2 in
  db' = db ∨ ∃ u r, users db !! ts_user_id e = Some u ∧ ur_two_factor_enabled u = true ∧
    totp_secrets db !! ts_user_id e = Some r ∧ tr_ciphertext r = ts_ciphertext e ∧ tr_nonce r = ts_nonce e ∧
    db' = mkDb (<[ts_user_id e := row_two_factor false u]> (users db)) (sessions db)
            (delete (ts_user_id e) (totp_secrets db))
            (filter (λ kv, rc_user_id kv.2 ≠ ts_user_id e) (recovery_codes db)).
Proof.
  unfold disable_if_current. destruct (set_enabled_if_current _ _ _ _) as [db1|] eqn:He; cbn; [|by left]. right.
  apply set_enabled_if_current_Some in He as (u & r & ? & ? & ? & ? & ? & ->). by exists u, r.
Qed.

Lemma replace_codes_effect e cs db :
  let db' := (replace_recovery_codes_if_current e cs db).2 in
  db' = db ∨ ∃ u r db1, users db !! ts_user_id e = Some u ∧ ur_two_factor_enabled u = true ∧
    totp_secrets db !! ts_user_id e = Some r ∧
    db1 = with_users (<[ts_user_id e := row_two_factor true u]> (users db)) db ∧
    replace_in_transaction (ts_user_id e) cs db1 = Ok db'.
Proof.
  unfold replace_recovery_codes_if_current. destruct (set_enabled_if_current _ _ _ _) as [db1|] eqn:He; cbn; [|by left].
  destruct (replace_in_transaction _ _ _) as [db2|] eqn:Hr; cbn; [|by left]. right.
  apply set_enabled_if_current_Some in He as (u & r & ? & ? & ? & ? & ? & ?).
  exists u, r, db1. by split_and!.
Qed.

(** The sessions table: rows are added by the two login writes, and
    otherwise only revoked. *)
Definition inserts (o : Op) : option Session :=
  match o with OCreateSession s => Some s | OMarkUsed _ s => Some s | _ => None end.

Lemma insert_session_lookup s0 db db' sid s :
  insert_session s0 db = Ok db' → sessions db' !! sid = Some s →
  sessions db !! sid = Some s ∨
  (sessions db !! sid = None ∧ sid = se_id s0 ∧ se_id s = se_id s0 ∧
     se_user_id s = se_user_id s0 ∧ se_token_hash s = se_token_hash s0 ∧
     format_ts (se_expires_at s0) = Ok (se_expires_at s) ∧ se_revoked s = se_revoked s0 ∧
     token_taken (se_token_hash s0) (sessions db) = false ∧ is_Some (users db !! se_user_id s0)).
Proof.
  intros (cr & ex & _ & Hex & Hnone & Htok & Hown & ->)%insert_session_Ok. cbn.
  destruct (decide (se_id s0 = sid)) as [<-|]; [rewrite lookup_insert_eq|rewrite lookup_insert_ne by done; by left].
  intros [= <-]. by right.
Qed.

Lemma sessions_effect o db sid s :
  sessions (eff o db) !! sid = Some s →
  (∃ s0, sessions db !! sid = Some s0 ∧ (s = s0 ∨ s = session_revoke s0)) ∨
  (∃ s0, inserts o = Some s0 ∧ sessions db !! sid = None ∧ sid = se_id s0 ∧ se_id s = se_id s0 ∧
     se_user_id s = se_user_id s0 ∧ se_token_hash s = se_token_hash s0 ∧
     format_ts (se_expires_at s0) = Ok (se_expires_at s) ∧ se_revoked s = se_revoked s0 ∧
     token_taken (se_token_hash s0) (sessions db) = false ∧ is_Some (users db !! se_user_id s0)).
Proof.
  destruct o; cbn [eff]; try (intros; left; by eauto).
  - unfold create_user_row. repeat case_match; cbn; eauto.
  - unfold create_if_empty. repeat case_match; cbn; eauto.
  - unfold set_enabled, set_user. repeat case_match; cbn; eauto.
  - unfold update_last_login, set_user. repeat case_match; cbn; eauto.
  - unfold create_session. destruct (insert_session _ _) eqn:Hi; cbn; [|by eauto].
    intros Hs. destruct (insert_session_lookup _ _ _ _ _ Hi Hs) as [?|?]; eauto.
  - unfold revoke. destruct (sessions db !! id) as [r|] eqn:Hr; cbn; [|by eauto].
    destruct (decide (id = sid)) as [->|]; [rewrite lookup_insert_eq|rewrite lookup_insert_ne by done]; naive_solver.
  - cbn. rewrite lookup_fmap. destruct (sessions db !! sid) as [r|]; cbn; [|done]. intros [= <-]. left.
    exists r. split; [done|]. destruct (_ && _); auto.
  - unfold upsert_totp. repeat case_match; cbn; eauto.
  - destruct (enable_effect expected codes db) as [->|(u & r & db1 & _ & _ & _ & _ & _ & -> & Hr)]; [by eauto|].
    apply replace_frame in Hr as (_ & -> & _). cbn. eauto.
  - destruct (disable_effect expected db) as [->|(u & r & _ & _ & _ & _ & _ & ->)]; cbn; eauto.
  - destruct (replace_codes_effect expected codes db) as [->|(u & r & db1 & _ & _ & _ & -> & Hr)]; [by eauto|].
    apply replace_frame in Hr as (_ & -> & _). cbn. eauto.
  - unfold record_used_timestep. repeat case_match; cbn; eauto.
  - unfold mark_used_and_create_session. destruct (recovery_codes db !! id) as [c|]; cbn; [|by eauto].
    destruct (rc_used c); cbn; [by eauto|]. destruct (insert_session _ _) eqn:Hi; cbn; [|by eauto].
    intros Hs. destruct (insert_session_lookup _ _ _ _ _ Hi Hs) as [?|?]; eauto.
Qed.

(** A row of [users] under an operation. *)
Inductive user_change (o : Op) (uid : UserId) (db : Db) : option UserRow → option UserRow → Prop :=
  | uc_same r : user_change o uid db r r
  | uc_created u r :
      o = OCreateUser u ∨ (o = OCreateIfEmpty u ∧ users db = ∅) → u_id u = uid → user_row u = Ok r →
      username_taken (ur_username r) (users db) = false → user_change o uid db None (Some r)
  | uc_enabled b r : o = OSetEnabled uid b → user_change o uid db (Some r) (Some (row_enabled b r))
  | uc_login t r : user_change o uid db (Some r) (Some (row_last_login t r))
  | uc_enrolled e cs r s :
      o = OEnable e cs → ts_user_id e = uid → ur_two_factor_enabled r = false →
      totp_secrets db !! uid = Some s → tr_ciphertext s = ts_ciphertext e → tr_nonce s = ts_nonce e →
      user_change o uid db (Some r) (Some (row_two_factor true r))
  | uc_dropped e r :
      o = ODisable e → ts_user_id e = uid → ur_two_factor_enabled r = true →
      totp_secrets (eff o db) !! uid = None → user_change o uid db (Some r) (Some (row_two_factor false r)).

Lemma row_two_factor_same r b : ur_two_factor_enabled r = b → row_two_factor b r = r.
Proof. by destruct r; cbn; intros ->. Qed.

(** Only the row [id] of a table was written. *)
Lemma lookup_insert_change {V} (m : gmap N V) (P : N → option V → option V → Prop) id v uid :
  (∀ x, P uid x x) → P id (m !! id) (Some v) → P uid (m !! uid) (<[id := v]> m !! uid).
Proof.
  intros Hrefl Hp. destruct (decide (id = uid)) as [<-|]; [by rewrite lookup_insert_eq|by rewrite lookup_insert_ne].
Qed.

Lemma set_user_change o uid db id f :
  eff o db = (set_user id f db).2 → (∀ r, user_change o id db (Some r) (Some (f r))) →
  user_change o uid db (users db !! uid) (users (eff o db) !! uid).
Proof.
  intros -> Hf. unfold set_user. destruct (users db !! id) as [r|] eqn:Hr; cbn; [|constructor].
  apply (lookup_insert_change (users db) (λ k, user_change o k db)); [constructor|]. rewrite Hr. apply Hf.
Qed.

Lemma users_effect o db uid : user_change o uid db (users db !! uid) (users (eff o db) !! uid).
Proof.
  destruct o; try constructor.
  - cbn. unfold create_user_row. destruct (user_row u) as [r|] eqn:Hr; cbn; [|constructor].
    case_bool_decide as Hid; [constructor|]. destruct (username_taken _ _) eqn:Ht; cbn; [constructor|].
    apply (lookup_insert_change (users db) (λ k, user_change _ k db)); [constructor|].
    apply eq_None_not_Some in Hid. rewrite Hid. econstructor; eauto.
  - cbn. unfold create_if_empty. destruct (user_row u) as [r|] eqn:Hr; cbn; [|constructor].
    case_bool_decide as He; cbn; [|constructor]. rewrite He.
    apply (lookup_insert_change ∅ (λ k, user_change _ k db)); [constructor|]. rewrite lookup_empty.
    econstructor; eauto. unfold username_taken. rewrite He. apply bool_decide_eq_false. by intros ?%map_Exists_empty.
  - eapply set_user_change; [done|]. intros r. by constructor.
  - cbn. unfold update_last_login. destruct (ts at_) as [t|] eqn:Ht; [|constructor].
    replace (set_user id (row_last_login t) db).2 with (eff (OUpdateLastLogin id at_) db)
      by by cbn; unfold update_last_login; rewrite Ht.
    eapply set_user_change; [cbn; unfold update_last_login; by rewrite Ht|]. constructor.
  - cbn. unfold create_session. destruct (insert_session _ _) eqn:Hi; cbn; [|constructor].
    apply insert_session_Ok in Hi as (? & ? & _ & _ & _ & _ & _ & ->). constructor.
  - cbn. unfold revoke. destruct (sessions db !! id); constructor.
  - cbn. unfold upsert_totp. repeat case_match; constructor.
  - cbn. destruct (enable_effect expected codes db) as [->|(u & r & db1 & Hu & Htf & Hr & Hc & Hn & -> & Hdb)]; [constructor|].
    apply replace_frame in Hdb as (-> & _ & _). cbn.
    apply (lookup_insert_change (users db) (λ k, user_change _ k db)); [constructor|]. rewrite Hu. by econstructor.
  - pose proof (disable_effect expected db) as [Hd|(u & r & Hu & Htf & Hr & Hc & Hn & Hd)];
      cbn [eff]; rewrite Hd; [constructor|]; cbn.
    apply (lookup_insert_change (users db) (λ k, user_change _ k db)); [constructor|]. rewrite Hu.
    econstructor; [done..|]. cbn [eff]. rewrite Hd. apply lookup_delete_eq.
  - cbn. destruct (replace_codes_effect expected codes db) as [->|(u & r & db1 & Hu & Htf & Hr & -> & Hdb)]; [constructor|].
    apply replace_frame in Hdb as (-> & _ & _). cbn. rewrite row_two_factor_same by done.
    rewrite insert_id by done. constructor.
  - cbn. unfold record_used_timestep. repeat case_match; constructor.
  - cbn. unfold mark_used_and_create_session. destruct (recovery_codes db !! id) as [c|]; cbn; [|constructor].
    destruct (rc_used c); cbn; [constructor|]. destruct (insert_session _ _) eqn:Hi; cbn; [|constructor].
    apply insert_session_Ok in Hi as (? & ? & _ & _ & _ & _ & _ & ->). constructor.
Qed.

(** A row of [totp_secrets] under an operation. *)
Inductive totp_change (o : Op) (uid : UserId) (db : Db) : option TotpRow → option TotpRow → Prop :=
  | tc_same r : totp_change o uid db r r
  | tc_upsert s created u r :
      o = OUpsertTotp s → ts_user_id s = uid → users db !! uid = Some u → ur_two_factor_enabled u = false →
      totp_change o uid db r (Some (mkTotpRow (ts_ciphertext s) (ts_nonce s) created None))
  | tc_used t r :
      o = ORecordTimestep uid t → (∀ l, tr_last_used_timestep r = Some l → (l < Z.of_N t)%Z) →
      totp_change o uid db (Some r) (Some (mkTotpRow (tr_ciphertext r) (tr_nonce r) (tr_created_at r) (Some (Z.of_N t))))
  | tc_deleted e r :
      o = ODisable e → ts_user_id e = uid →
      (∃ u, users (eff o db) !! uid = Some u ∧ ur_two_factor_enabled u = false) → totp_change o uid db r None.

Lemma totp_effect o db uid : totp_change o uid db (totp_secrets db !! uid) (totp_secrets (eff o db) !! uid).
Proof.
  destruct o; try constructor; cbn.
  - unfold create_user_row. repeat case_match; constructor.
  - unfold create_if_empty. repeat case_match; constructor.
  - unfold set_enabled, set_user. repeat case_match; constructor.
  - unfold update_last_login, set_user. repeat case_match; constructor.
  - unfold create_session. destruct (insert_session _ _) eqn:Hi; cbn; [|constructor].
    apply insert_session_Ok in Hi as (? & ? & _ & _ & _ & _ & _ & ->). constructor.
  - unfold revoke. destruct (sessions db !! id); constructor.
  - unfold upsert_totp. destruct (ts _) as [cr|]; cbn; [|constructor].
    destruct (users db !! _) as [u|] eqn:Hu; cbn; [|constructor].
    destruct (ur_two_factor_enabled u) eqn:Htf; cbn; [constructor|].
    apply (lookup_insert_change (totp_secrets db) (λ k, totp_change _ k db)); [constructor|]. by econstructor.
  - destruct (enable_effect expected codes db) as [->|(u & r & db1 & Hu & Htf & Hr & Hc & Hn & -> & Hdb)]; [constructor|].
    apply replace_frame in Hdb as (_ & _ & ->). constructor.
  - pose proof (disable_effect expected db) as [Hd|(u & r & Hu & Htf & Hr & Hc & Hn & Hd)]; rewrite Hd; [constructor|]; cbn.
    destruct (decide (ts_user_id expected = uid)) as [<-|]; [rewrite lookup_delete_eq|rewrite lookup_delete_ne by done; constructor].
    econstructor; [done..|]. cbn [eff]. rewrite Hd. cbn. rewrite lookup_insert_eq. by eexists.
  - destruct (replace_codes_effect expected codes db) as [->|(u & r & db1 & Hu & Htf & Hr & -> & Hdb)]; [constructor|].
    apply replace_frame in Hdb as (_ & _ & ->). constructor.
  - unfold record_used_timestep. case_match; [constructor|].
    destruct (totp_secrets db !! uid0) as [r|] eqn:Hr; cbn; [|constructor].
    destruct (if tr_last_used_timestep r is Some l then Z.ltb l (Z.of_N t) else true) eqn:Hl; cbn; [|constructor].
    apply (lookup_insert_change (totp_secrets db) (λ k, totp_change _ k db)); [constructor|]. rewrite Hr.
    constructor; [done|]. intros l Hl'. rewrite Hl' in Hl. by apply Z.ltb_lt.
  - unfold mark_used_and_create_session. destruct (recovery_codes db !! id) as [c|]; cbn; [|constructor].
    destruct (rc_used c); cbn; [constructor|]. destruct (insert_session _ _) eqn:Hi; cbn; [|constructor].
    apply insert_session_Ok in Hi as (? & ? & _ & _ & _ & _ & _ & ->). constructor.
Qed.

(** A row of [recovery_codes] under an operation. *)
Definition issues (o : Op) : list RecoveryCode :=
  match o with OEnable _ cs | OReplaceCodes _ cs => cs | _ => [] end.

Inductive code_change (o : Op) (id : N) : option RecoveryCode → option RecoveryCode → Prop :=
  | cc_same r : code_change o id r r
  | cc_used s c : o = OMarkUsed id s → rc_used c = false → code_change o id (Some c) (Some (code_use c))
  | cc_deleted r : code_change o id r None
  | cc_issued c created r :
      c ∈ issues o → rc_id c = id →
      code_change o id r (Some (mkRecoveryCode (rc_id c) (rc_user_id c) (rc_code_hash c) (rc_used c) created)).

Lemma insert_codes_lookup o cs db db' id r :
  insert_codes cs db = Ok db' → cs ⊆ issues o →
  code_change o id r (recovery_codes db !! id) → code_change o id r (recovery_codes db' !! id).
Proof.
  revert db. induction cs as [|c cs IH]; intros db; cbn; [by intros [= <-]|].
  intros (db1 & (cr & _ & _ & _ & ->)%insert_code_Ok & H2)%result_bind_Ok Hsub Hc.
  eapply IH; [done|set_solver|]. cbn.
  destruct (decide (rc_id c = id)) as [<-|]; [rewrite lookup_insert_eq|by rewrite lookup_insert_ne].
  apply cc_issued; [set_solver|done].
Qed.

Lemma replace_lookup o uid cs db db' id :
  replace_in_transaction uid cs db = Ok db' → cs = issues o →
  code_change o id (recovery_codes db !! id) (recovery_codes db' !! id).
Proof.
  unfold replace_in_transaction. destruct (existsb _ _); [done|]. intros H ->.
  eapply insert_codes_lookup; [done..|]. cbn. rewrite map_lookup_filter.
  destruct (recovery_codes db !! id) as [c|]; cbn; [|constructor]. case_guard; constructor.
Qed.

Lemma codes_effect o db id : code_change o id (recovery_codes db !! id) (recovery_codes (eff o db) !! id).
Proof.
  destruct o; try constructor; cbn.
  - unfold create_user_row. repeat case_match; constructor.
  - unfold create_if_empty. repeat case_match; constructor.
  - unfold set_enabled, set_user. repeat case_match; constructor.
  - unfold update_last_login, set_user. repeat case_match; constructor.
  - unfold create_session. destruct (insert_session _ _) eqn:Hi; cbn; [|constructor].
    apply insert_session_Ok in Hi as (? & ? & _ & _ & _ & _ & _ & ->). constructor.
  - unfold revoke. destruct (sessions db !! _); constructor.
  - unfold upsert_totp. repeat case_match; constructor.
  - destruct (enable_effect expected codes db) as [->|(u & r & db1 & _ & _ & _ & _ & _ & -> & Hdb)]; [constructor|].
    by apply (replace_lookup _ _ _ _ _ _ Hdb).
  - destruct (disable_effect expected db) as [->|(u & r & _ & _ & _ & _ & _ & ->)]; [constructor|].
    cbn. rewrite map_lookup_filter. destruct (recovery_codes db !! id) as [c|]; cbn; [|constructor]. case_guard; constructor.
  - destruct (replace_codes_effect expected codes db) as [->|(u & r & db1 & _ & _ & _ & -> & Hdb)]; [constructor|].
    by apply (replace_lookup _ _ _ _ _ _ Hdb).
  - unfold record_used_timestep. repeat case_match; constructor.
  - unfold mark_used_and_create_session. destruct (recovery_codes db !! id0) as [c|] eqn:Hc; cbn; [|constructor].
    destruct (rc_used c) eqn:Hu; cbn; [constructor|]. destruct (insert_session _ _) eqn:Hi; cbn; [|constructor].
    apply insert_session_Ok in Hi as (? & ? & _ & _ & _ & _ & _ & ->). cbn.
    apply (lookup_insert_change (recovery_codes db) (λ k, code_change _ k)); [constructor|]. rewrite Hc. by econstructor.
Qed.

(** ** The invariant of the tables *)

Record tables_ok (db : Db) : Prop := {
  to_usernames a b ra rb :
    users db !! a = Some ra → users db !! b = Some rb → ur_username ra = ur_username rb → a = b;
  to_session_ids a s : sessions db !! a = Some s → se_id s = a ∧ is_Some (users db !! se_user_id s);
  to_tokens a b sa sb :
    sessions db !! a = Some sa → sessions db !! b = Some sb → se_token_hash sa = se_token_hash sb → a = b;
  to_totp_owner uid r : totp_secrets db !! uid = Some r → is_Some (users db !! uid);
  to_enrolled uid u :
    users db !! uid = Some u → ur_two_factor_enabled u = true → is_Some (totp_secrets db !! uid);
  to_code_ids a c : recovery_codes db !! a = Some c → rc_id c = a ∧ is_Some (users db !! rc_user_id c);
  to_hashes a b ca cb :
    recovery_codes db !! a = Some ca → recovery_codes db !! b = Some cb → rc_code_hash ca = rc_code_hash cb → a = b
}.

Lemma taken_false {V} (f : V → string) (m : gmap N V) h k v :
  bool_decide (map_Exists (λ _ x, f x = h) m) = false → m !! k = Some v → f v ≠ h.
Proof. intros Hf Hk <-. apply bool_decide_eq_false in Hf. apply Hf. by exists k, v. Qed.

Lemma users_grow o db uid : is_Some (users db !! uid) → is_Some (users (eff o db) !! uid).
Proof. intros H. pose proof (users_effect o db uid) as Hc. destruct Hc; naive_solver. Qed.

Record codes_ok (m : gmap N RecoveryCode) (us : gmap UserId UserRow) : Prop := {
  co_ids a c : m !! a = Some c → rc_id c = a ∧ is_Some (us !! rc_user_id c);
  co_hashes a b ca cb : m !! a = Some ca → m !! b = Some cb → rc_code_hash ca = rc_code_hash cb → a = b
}.

Lemma codes_ok_filter m us (P : N * RecoveryCode → Prop) `{!∀ x, Decision (P x)} :
  codes_ok m us → codes_ok (filter P m) us.
Proof.
  intros [Hi Hh]. split.
  - intros a c [Hl _]%map_lookup_filter_Some. eauto.
  - intros a b ca cb [H1 _]%map_lookup_filter_Some [H2 _]%map_lookup_filter_Some. eauto.
Qed.

Lemma insert_codes_ok cs db db' :
  insert_codes cs db = Ok db' → codes_ok (recovery_codes db) (users db) → codes_ok (recovery_codes db') (users db').
Proof.
  revert db. induction cs as [|c cs IH]; intros db; cbn; [by intros [= <-]|].
  intros (db1 & (cr & Hn & Ht & Hu & ->)%insert_code_Ok & H2)%result_bind_Ok [Hi Hh].
  eapply IH; [done|]. cbn. split.
  - intros a c'. destruct (decide (rc_id c = a)) as [<-|];
      [rewrite lookup_insert_eq; by intros [= <-]|rewrite lookup_insert_ne by done; eauto].
  - intros a b ca cb. rewrite !lookup_insert_Some. intros [[<- <-]|[? Ha]] [[<- <-]|[? Hb]]; cbn; [done|..].
    + intros E. by destruct (taken_false rc_code_hash _ _ _ _ Ht Hb).
    + intros E. by destruct (taken_false rc_code_hash _ _ _ _ Ht Ha).
    + eauto.
Qed.

Lemma replace_codes_ok uid cs db db' :
  replace_in_transaction uid cs db = Ok db' →
  codes_ok (recovery_codes db) (users db) → codes_ok (recovery_codes db') (users db').
Proof.
  unfold replace_in_transaction. destruct (existsb _ _); [done|]. intros H Hok.
  eapply insert_codes_ok; [done|]. by apply codes_ok_filter.
Qed.

Lemma codes_ok_users m us us' :
  (∀ k, is_Some (us !! k) → is_Some (us' !! k)) → codes_ok m us → codes_ok m us'.
Proof. intros Hs [Hi Hh]. split; [|done]. intros a c Ha. destruct (Hi a c Ha). eauto. Qed.

Lemma eff_codes_ok o db : tables_ok db → codes_ok (recovery_codes (eff o db)) (users (eff o db)).
Proof.
  intros Hok. assert (codes_ok (recovery_codes db) (users db)) as H0 by (split; apply Hok).
  assert (recovery_codes (eff o db) = recovery_codes db → codes_ok (recovery_codes (eff o db)) (users (eff o db))) as Hsame.
  { intros ->. eapply codes_ok_users, H0. intros k. apply users_grow. }
  destruct o; try (apply Hsame; done); cbn in *.
  - apply Hsame. unfold create_user_row. by repeat case_match.
  - apply Hsame. unfold create_if_empty. by repeat case_match.
  - apply Hsame. unfold set_enabled, set_user. by repeat case_match.
  - apply Hsame. unfold update_last_login, set_user. by repeat case_match.
  - apply Hsame. unfold create_session. destruct (insert_session _ _) eqn:Hi; [|done].
    by apply insert_session_Ok in Hi as (? & ? & _ & _ & _ & _ & _ & ->).
  - apply Hsame. unfold revoke. by case_match.
  - apply Hsame. unfold upsert_totp. by repeat case_match.
  - destruct (enable_effect expected codes db) as [->|(u & r & db1 & Hu & _ & _ & _ & _ & -> & Hdb)]; [done|].
    eapply replace_codes_ok; [done|]. cbn. eapply codes_ok_users, H0. intros k. rewrite lookup_insert_is_Some'. auto.
  - destruct (disable_effect expected db) as [->|(u & r & _ & _ & _ & _ & _ & ->)]; [done|]. cbn.
    apply codes_ok_filter. eapply codes_ok_users, H0. intros k. rewrite lookup_insert_is_Some'. auto.
  - destruct (replace_codes_effect expected codes db) as [->|(u & r & db1 & Hu & _ & _ & -> & Hdb)]; [done|].
    eapply replace_codes_ok; [done|]. cbn. eapply codes_ok_users, H0. intros k. rewrite lookup_insert_is_Some'. auto.
  - apply Hsame. unfold record_used_timestep. by repeat case_match.
  - unfold mark_used_and_create_session in *. destruct (recovery_codes db !! id) as [c|] eqn:Hc; [|by apply Hsame].
    destruct (rc_used c); [by apply Hsame|]. destruct (insert_session _ _) eqn:Hi; [|by apply Hsame].
    apply insert_session_Ok in Hi as (? & ? & _ & _ & _ & _ & _ & ->). cbn. destruct H0 as [Hids Hh].
    destruct (Hids _ _ Hc) as [Hid Hown]. split.
    + intros a c'. rewrite lookup_insert_Some. intros [[<- <-]|[_ ?]]; cbn; eauto.
    + intros a b ca cb. rewrite !lookup_insert_Some. intros [[<- <-]|[? Ha]] [[<- <-]|[? Hb]]; cbn; eauto.
Qed.

(** What a change of a user row keeps. *)
Lemma user_change_fixed o uid db r r' :
  user_change o uid db (Some r) (Some r') →
  ur_username r' = ur_username r ∧ ur_password_hash r' = ur_password_hash r ∧ ur_role r' = ur_role r.
Proof. inversion 1; by subst. Qed.

Lemma users_effect_inv o db uid r' :
  users (eff o db) !! uid = Some r' →
  (∃ r, users db !! uid = Some r ∧ user_change o uid db (Some r) (Some r')) ∨
  (∃ u, (o = OCreateUser u ∨ (o = OCreateIfEmpty u ∧ users db = ∅)) ∧ u_id u = uid ∧ users db !! uid = None ∧
     user_row u = Ok r' ∧ username_taken (ur_username r') (users db) = false).
Proof.
  intros H. pose proof (users_effect o db uid) as Hc. rewrite H in Hc.
  destruct (users db !! uid) as [r|] eqn:Hr; [left; by eauto|]. right.
  inversion Hc as [|u r0 Ho Hid Hrow Htk| | | |]; subst. exists u. by split_and!.
Qed.

Lemma user_row_two_factor u r : user_row u = Ok r → ur_two_factor_enabled r = u_two_factor_enabled u.
Proof.
  unfold user_row. intros (e & _ & (l & _ & (c & _ & [= <-])%result_bind_Ok)%result_bind_Ok)%result_bind_Ok. done.
Qed.

(** What every call of a command satisfies. *)
Definition call_ok (o : Op) : Prop :=
  match o with
  | OCreateUser u | OCreateIfEmpty u => u_two_factor_enabled u = false
  | OSetEnabled _ b => b = false
  | _ => True
  end.

Lemma eff_ok o db : call_ok o → tables_ok db → tables_ok (eff o db).
Proof.
  intros Hcall Hok. split.
  - intros a b ra rb Ha Hb E.
    destruct (users_effect_inv _ _ _ _ Ha) as [(ra0 & Ha0 & (Ea & _)%user_change_fixed)|(ua & Hua & Hia & Hna & _ & Hta)];
    destruct (users_effect_inv _ _ _ _ Hb) as [(rb0 & Hb0 & (Eb & _)%user_change_fixed)|(ub & Hub & Hib & Hnb & _ & Htb)].
    + eapply to_usernames; eauto. congruence.
    + destruct (taken_false ur_username _ _ _ _ Htb Ha0). congruence.
    + destruct (taken_false ur_username _ _ _ _ Hta Hb0). congruence.
    + destruct Hua as [-> | [-> _]], Hub as [Hub | [Hub _]]; simplify_eq; congruence.
  - intros a s Hs. destruct (sessions_effect _ _ _ _ Hs) as [(s0 & Hs0 & Hc)|(s0 & _ & _ & -> & Hid & Hu & _ & _ & _ & _ & Hown)].
    + destruct (to_session_ids _ Hok _ _ Hs0) as [? ?]. destruct Hc; subst; cbn; eauto using users_grow.
    + rewrite Hu. eauto using users_grow.
  - intros a b sa sb Ha Hb E.
    destruct (sessions_effect _ _ _ _ Ha) as [(a0 & Ha0 & Hca)|(a0 & Hia & _ & -> & _ & _ & Hta & _ & _ & Hka & _)];
    destruct (sessions_effect _ _ _ _ Hb) as [(b0 & Hb0 & Hcb)|(b0 & Hib & _ & -> & _ & _ & Htb & _ & _ & Hkb & _)].
    + eapply to_tokens; eauto. destruct Hca, Hcb; subst; done.
    + destruct (taken_false se_token_hash _ _ _ _ Hkb Ha0). destruct Hca; subst; cbn in *; congruence.
    + destruct (taken_false se_token_hash _ _ _ _ Hka Hb0). destruct Hcb; subst; cbn in *; congruence.
    + congruence.
  - intros uid r Hr. pose proof (totp_effect o db uid) as Hc. rewrite Hr in Hc. apply users_grow.
    inversion Hc; subst; eauto using to_totp_owner.
  - intros uid u Hu Htf. pose proof (totp_effect o db uid) as Hc.
    destruct (users_effect_inv _ _ _ _ Hu) as [(u0 & Hu0 & Hch)|(w & Hw & _ & _ & Hrow & _)].
    + assert (is_Some (totp_secrets db !! uid)) as [r Hr].
      { inversion Hch; subst; cbn in *; eauto using to_enrolled. }
      rewrite Hr in Hc. inversion Hc as [| | |e r0 He Hid (u' & Hu' & Htf')]; subst; eauto. congruence.
    + exfalso. apply user_row_two_factor in Hrow. destruct Hw as [-> |[-> _]]; cbn in Hcall; congruence.
  - intros a c Hc. by apply (co_ids _ _ (eff_codes_ok o db Hok)).
  - apply (co_hashes _ _ (eff_codes_ok o db Hok)).
Qed.

Lemma prune_sessions_ok now batch db : tables_ok db → tables_ok (prune_sessions now batch db).
Proof.
  intros Hok. unfold prune_sessions. split; cbn; try apply Hok.
  - intros a s [Hl _]%map_lookup_filter_Some. by apply Hok.
  - intros a b sa sb [Ha _]%map_lookup_filter_Some [Hb _]%map_lookup_filter_Some. by eapply to_tokens.
Qed.

(** ** Runs *)

Section runs.
Context `{L : UrlLib} `{C : CryptoLib} `{A : AuthLib}.
Variable key : string.
Variables (max_attempts lockout_duration instant_max : N).
Variable limiter_key : string → N.
Abbreviation step := (AuthSteps.step key max_attempts lockout_duration instant_max limiter_key).
Abbreviation answers := (AuthSteps.answers max_attempts lockout_duration instant_max limiter_key).
Abbreviation exec' := (AuthSteps.exec' max_attempts lockout_duration instant_max limiter_key).

Definition cf_db (c : Config) : Db := st_db (cf_st c).

Lemma exec_db o st : st_db (exec' o st).2 = eff o (st_db st).
Proof.
  destruct o; try done; cbn; unfold on_db; try by destruct (_ (st_db st)).
  all: try by destruct (RateLimiter.check _ _ _ _ _ _).
  all: try by destruct (_ _ (st_db st)).
  all: try by destruct (_ _ _ (st_db st)).
Qed.

(** The tables after a call, and where its answer comes from. *)
Lemma answers_db o st a st' :
  answers o st a st' →
  (st_db st' = eff o (st_db st) ∧ (a = (exec' o st).1 ∧ ready o st ∨ fault o a)) ∨
  (st_db st' = st_db st ∧ fault o a).
Proof.
  destruct 1 as [a st' Hr He|a Hf|a Hf]; [left|by right|left; by rewrite exec_db; auto].
  pose proof (exec_db o st) as Hd. rewrite He in *. auto.
Qed.

(** A task is on a path of its command. *)
Definition on_path (tk : Task) : Prop :=
  guarded (allowed key (tk_request tk)) (justified key (tk_request tk)) (tk_history tk) (tk_prog tk).

Lemma task_insert (l : list Task) i j tk tk' :
  <[i := tk]> l !! j = Some tk' → (j = i ∧ tk' = tk) ∨ (j ≠ i ∧ l !! j = Some tk').
Proof.
  destruct (decide (i = j)) as [<-|]; [|rewrite list_lookup_insert_ne by done; by right].
  intros H. pose proof (lookup_lt_Some _ _ _ H) as Hlt. rewrite length_insert in Hlt.
  rewrite list_lookup_insert_eq in H by done. injection H as <-. by left.
Qed.

Definition paths_ok (c : Config) : Prop := ∀ i tk, cf_tasks c !! i = Some tk → on_path tk.

Lemma step_paths c c' : step c c' → paths_ok c → paths_ok c'.
Proof.
  intros Hs Hok. destruct Hs as [c r|c i tk o k a st' Hi Hl Hp Ha|c i tk Hi|c clock instant _|c batch]; try exact Hok;
    unfold paths_ok; cbn [cf_tasks].
  - intros j tk [Hj|[_ [_ <-]%list_lookup_singleton_Some]]%lookup_app_Some; [by eapply Hok|]. apply paths.
  - intros j tk' [[-> ->]|[_ Hj]]%task_insert; [|by eapply Hok].
    specialize (Hok _ _ Hi). unfold on_path in *. rewrite Hp in Hok. apply Hok.
  - intros j tk' [[-> ->]|[_ Hj]]%task_insert; [|by eapply Hok]. by apply (Hok _ _ Hi).
Qed.

Lemma allowed_call r h o : allowed key r h o → call_ok o.
Proof.
  destruct o; try done; cbn.
  - destruct r; try done. intros (_ & hash & t & _ & ->). done.
  - destruct r; try done. intros (_ & _ & hash & t & _ & ->). done.
Qed.

(** A step as seen from the tables. *)
Inductive db_step (c c' : Config) : Prop :=
  | ds_call i tk o k a :
      cf_tasks c !! i = Some tk → tk_live tk = true → tk_prog tk = Call o k →
      allowed key (tk_request tk) (tk_history tk) o →
      (cf_db c' = eff o (cf_db c) ∧ (a = (exec' o (cf_st c)).1 ∧ ready o (cf_st c) ∨ fault o a)
       ∨ cf_db c' = cf_db c ∧ fault o a) →
      cf_tasks c' = <[i := advance tk o k a]> (cf_tasks c) → cf_log c' = cf_log c ++ [(i, ev o a)] → db_step c c'
  | ds_prune now batch :
      cf_db c' = prune_sessions now batch (cf_db c) → cf_tasks c' = cf_tasks c → cf_log c' = cf_log c → db_step c c'
  | ds_other r :
      cf_db c' = cf_db c → cf_tasks c' = cf_tasks c ++ [spawn key r] → cf_log c' = cf_log c → db_step c c'
  | ds_drop i tk :
      cf_db c' = cf_db c → cf_tasks c !! i = Some tk →
      cf_tasks c' = <[i := mkTask (tk_request tk) (tk_history tk) (tk_prog tk) false false]> (cf_tasks c) →
      cf_log c' = cf_log c → db_step c c'
  | ds_time : cf_db c' = cf_db c → cf_tasks c' = cf_tasks c → cf_log c' = cf_log c → db_step c c'.

Lemma step_db c c' : paths_ok c → step c c' → db_step c c'.
Proof.
  intros Hok Hs. destruct Hs as [c r|c i tk o k a st' Hi Hl Hp Ha|c i tk Hi|c clock instant _|c batch].
  - by eapply ds_other.
  - eapply ds_call; try done.
    + specialize (Hok _ _ Hi). unfold on_path in Hok. rewrite Hp in Hok. apply Hok.
    + by apply answers_db.
  - eapply ds_drop; [|done..]. by destruct (tk_holds tk).
  - by apply ds_time.
  - by eapply ds_prune.
Qed.

(** The configurations of a running server: every task is on a path of its
    command. *)
Lemma steps_paths c c' : rtc step c c' → paths_ok c → paths_ok c'.
Proof. induction 1; eauto using step_paths. Qed.

(** Invariants of the tables. *)
Lemma steps_db (P : Db → Prop) c c' :
  (∀ o db, call_ok o → P db → P (eff o db)) → (∀ now batch db, P db → P (prune_sessions now batch db)) →
  paths_ok c → rtc step c c' → P (cf_db c) → P (cf_db c').
Proof.
  intros Heff Hprune Hok Hs. induction Hs as [c|c c1 c2 Hs _ IH]; [done|]. intros HP.
  apply IH; [by eapply step_paths|]. apply step_db in Hs; [|done].
  destruct Hs as [i tk o k a ? ? ? Hall [[-> _] | [-> _]] ? ? | ? ? -> ? ? | ? -> ? ? | ? ? -> ? ? ? | -> ? ?]; auto.
  apply Heff; [|done]. by eapply allowed_call.
Qed.

(** Invariants of configurations. *)
Lemma steps_inv (P : Config → Prop) c c' :
  (∀ c c', paths_ok c → step c c' → P c → P c') → paths_ok c → rtc step c c' → P c → P c'.
Proof.
  intros Hstep Hok Hs. induction Hs as [c|c c1 c2 Hs _ IH]; [done|]. intros HP.
  apply IH; [by eapply step_paths|by eapply Hstep].
Qed.

Lemma steps_log c c' : rtc step c c' → ∃ l, cf_log c' = cf_log c ++ l.
Proof.
  induction 1 as [c|c c1 c2 Hs _ (l & IH)]; [exists []; by rewrite app_nil_r|].
  assert (∃ l, cf_log c1 = cf_log c ++ l) as (l1 & H1).
  { destruct Hs; cbn; eauto; exists []; by rewrite app_nil_r. }
  exists (l1 ++ l). by rewrite IH, H1, app_assoc.
Qed.

(** What the calls answer from a configuration on, while the tables are in a
    state [D] that the calls made keep. *)
Lemma steps_answers (D : Db → Prop) (P : Ev → Prop) (keeps : Op → Prop) c c' l :
  (∀ o db, call_ok o → keeps o → D db → D (eff o db)) → (∀ now batch db, D db → D (prune_sessions now batch db)) →
  (∀ o a st st', answers o st a st' → D (st_db st) → P (ev o a)) →
  paths_ok c → rtc step c c' → cf_log c' = cf_log c ++ l → Forall (λ x, keeps (projT1 x.2)) l →
  D (cf_db c) → D (cf_db c') ∧ Forall (λ x, P x.2) l.
Proof.
  intros Heff Hprune Hans Hok Hs. revert l. induction Hs as [c|c c1 c2 Hs Hs' IH]; intros l El Hk HD.
  { rewrite <-(app_nil_r (cf_log c)) in El at 1. apply app_inv_head in El as <-. by split. }
  assert (paths_ok c1) as Hok1 by by eapply step_paths. destruct (steps_log _ _ Hs') as (l2 & E2).
  destruct Hs as [c r|c i tk o k a st' Hi Hl Hp Ha|c i tk Hi|c clock instant _|c batch].
  - apply IH; [done..|exact El|done|done].
  - cbn [cf_log] in E2. rewrite El, <-app_assoc in E2. apply app_inv_head in E2 as ->.
    apply Forall_cons in Hk as [Hko Hk].
    destruct (IH Hok1 l2) as [HD' HP]; [by cbn; rewrite <-app_assoc|done| |].
    + unfold cf_db; cbn. pose proof (Hok _ _ Hi) as Hpath. unfold on_path in Hpath. rewrite Hp in Hpath.
      apply answers_db in Ha as [[-> _]|[-> _]]; [|done]. apply Heff; [|done..]. eapply allowed_call, Hpath.
    + split; [done|]. constructor; [|done]. by eapply Hans.
  - apply IH; [done..|exact El|done|]. unfold cf_db. cbn. by destruct (tk_holds tk).
  - apply IH; [done..|exact El|done|done].
  - apply IH; [done..|exact El|done|]. by apply Hprune.
Qed.

(** The history of a task that was started since lies in the log written
    since. *)
Lemma steps_history c c' l i tk :
  rtc step c c' → cf_log c' = cf_log c ++ l → length (cf_tasks c) ≤ i → cf_tasks c' !! i = Some tk →
  ∀ e, e ∈ tk_history tk → (i, e) ∈ l.
Proof.
  intros Hs. assert (∀ n k, n = length (cf_tasks c) → k = cf_log c →
    (∀ j t e l, n ≤ j → cf_log c = k ++ l → cf_tasks c !! j = Some t → e ∈ tk_history t → (j, e) ∈ l) →
    ∀ j t e l, n ≤ j → cf_log c' = k ++ l → cf_tasks c' !! j = Some t → e ∈ tk_history t → (j, e) ∈ l) as Hgen.
  { intros n k _ Hk. assert (∃ m, cf_log c = k ++ m) as Hpre by (exists []; by rewrite app_nil_r, Hk). clear Hk.
    revert Hpre. induction Hs as [c|c c1 c2 Hs _ IH]; intros Hpre Hinv; [done|].
    apply IH; clear IH.
    - destruct Hpre as (m & Hm), Hs; cbn; rewrite ?Hm, <-?app_assoc; eauto.
    - destruct Hpre as (m & Hm).
      destruct Hs as [c r|c i0 tk0 o k0 a st' Hi Hl Hp Ha|c i0 tk0 Hi|c clock instant _|c batch]; cbn [cf_log cf_tasks];
        intros j t e l0 Hj El Ht He; try by eauto.
      + apply lookup_app_Some in Ht as [Ht|[_ [_ <-]%list_lookup_singleton_Some]]; [by eauto|]. by apply elem_of_nil in He.
      + rewrite Hm, <-app_assoc in El. apply app_inv_head in El as <-.
        apply task_insert in Ht as [[-> ->]|[_ Ht]]; [|by apply elem_of_app; left; eauto].
        cbn in He. apply elem_of_app in He as [He|He]; apply elem_of_app; [by left; eauto|right].
        apply list_elem_of_singleton in He as ->. by apply list_elem_of_singleton.
      + apply task_insert in Ht as [[-> ->]|[_ Ht]]; by eauto. }
  intros El Hi Ht e He. eapply (Hgen (length (cf_tasks c)) (cf_log c)); [done..| |exact Hi|exact El|exact Ht|exact He].
  intros j t e' l' Hj _ Hj' _. apply lookup_lt_Some in Hj'. lia.
Qed.

End runs.

End AuthInv.

(** * A small installation for the authentication theorems

    Concrete functions for the crates the commands call ([argon2], [ulid],
    [serde_json]) that satisfy their contracts, and an installation with two
    users, one of them with a second factor. *)

From Stdlib Require Import Ascii.
From S2P Require Import Prelude Kernel Text UrlText UrlInstance Crypto Source RateLimiter RefreshTheorems.
Import Text UrlText Crypto Source.
From S2P Require Import Subscription Auth AuthCommands AuthSteps.
Import Auth AuthCommands AuthSteps.

Module AuthDemo.

#[export] Existing Instance UrlInstance.url_lib.
#[export] Existing Instance UrlInstance.url_laws.
#[export] Existing Instance Demo.crypto_lib.
#[export] Existing Instance Demo.crypto_laws.

(** ** Identifiers *)

Definition alphabet : string := "0123456789ABCDEFGHJKMNPQRSTVWXYZ".

Definition digit_value (c : ascii) : N :=
  foldr (λ d acc, if bool_decide (ulid_digit d = String c "") then d else acc) 0%N (N.of_nat <$> seq 0 32).

Fixpoint digits_value (s : string) (acc : N) : N :=
  match s with "" => acc | String c s => digits_value s (acc * 32 + digit_value c)%N end.

Lemma digit_value_digit d s acc :
  (d < 32)%N → digits_value (ulid_digit d +:+ s) acc = digits_value s (acc * 32 + d)%N.
Proof.
  intros Hd.
  assert (∃ c, ulid_digit d = String c "" ∧ digit_value c = d) as (c & -> & Hv).
  { assert (forallb (λ d, match ulid_digit d with
      | String c "" => N.eqb (digit_value c) d | _ => false end) (N.of_nat <$> seq 0 32) = true) as H
      by (vm_compute; reflexivity).
    rewrite forallb_forall in H. specialize (H d).
    assert (In d (N.of_nat <$> seq 0 32)) as Hin.
    { apply list_elem_of_In, list_elem_of_fmap. exists (N.to_nat d). rewrite N2Nat.id. split; [done|apply elem_of_seq; lia]. }
    specialize (H Hin). destruct (ulid_digit d) as [|c [|]]; [discriminate H| |discriminate H].
    exists c. split; [done|]. by apply N.eqb_eq. }
  change (digits_value s (acc * 32 + digit_value c)%N = digits_value s (acc * 32 + d)%N). by rewrite Hv.
Qed.

Lemma display_value n id acc :
  digits_value (String.concat "" ((λ i, ulid_digit (N.land (N.shiftr id (5 * N.of_nat i)) 31)) <$> reverse (seq 0 n))) acc
  = (acc * 32 ^ N.of_nat n + id mod 32 ^ N.of_nat n)%N.
Proof.
  revert acc. induction n as [|n IH]; intros acc; [cbn; rewrite N.mod_1_r; lia|].
  rewrite seq_S, reverse_snoc, fmap_cons. cbn [plus].
  assert (∀ x l, String.concat "" (x :: l) = x +:+ String.concat "" l) as Hc.
  { intros x [|y l]; [|done]. symmetry. apply string_app_nil_r. }
  rewrite Hc, digit_value_digit.
  2: { change 31%N with (N.ones 5). rewrite N.land_ones. by apply N.mod_lt. }
  rewrite IH. change 31%N with (N.ones 5). rewrite N.land_ones, N.shiftr_div_pow2.
  rewrite (N.pow_mul_r 2 5). change (2 ^ 5)%N with 32%N.
  rewrite Nat2N.inj_succ, N.pow_succ_r'. set (b := (32 ^ N.of_nat n)%N).
  assert (b ≠ 0)%N by (subst b; by apply N.pow_nonzero).
  rewrite (N.mul_comm 32 b), N.Div0.mod_mul_r by done.
  generalize (id mod b)%N, (id / b mod 32)%N. intros x y. nia.
Qed.

Definition parse_id (s : string) : Result string N := Ok (digits_value s 0).

Lemma parse_id_display id : (id < 2 ^ 128)%N → parse_id (id_display id) = Ok id.
Proof.
  intros Hid. unfold parse_id, id_display. rewrite display_value. f_equal. rewrite N.mul_0_l, N.add_0_l.
  apply N.mod_small. change (32 ^ N.of_nat 26)%N with (2 ^ 130)%N. eapply N.lt_trans; [exact Hid|]. done.
Qed.

(** ** The challenge payload, as a text of bits *)

Fixpoint bits (p : positive) : string :=
  match p with xH => "" | xO p => String "0" (bits p) | xI p => String "1" (bits p) end.
Fixpoint unbits (s : string) : positive :=
  match s with "" => xH | String c s => if Ascii.eqb c "0" then xO (unbits s) else xI (unbits s) end.

Lemma unbits_bits p : unbits (bits p) = p.
Proof. induction p; cbn; congruence. Qed.

#[export] Instance auth_lib : AuthLib := {
  argon2_hash _ pw := Ok ("h:" +:+ pw);
  phc_parse _ := None;
  argon2_verify pw phc := String.eqb phc ("h:" +:+ pw);
  id_parse := parse_id;
  payload_json uid exp := Ok (bits (encode (uid, exp)));
  payload_from_slice s := ok_or (decode (unbits s)) "payload"
}.

#[export] Instance auth_laws : AuthLaws auth_lib.
Proof.
  split.
  - intros salt pw phc [= <-]. split; [done|apply String.eqb_refl].
  - apply parse_id_display.
  - intros. by eexists.
  - intros uid exp t [= <-]. cbn. by rewrite unbits_bits, decode_encode.
Qed.

(** ** The installation *)

Definition key : string := "master".
Definition clock0 : Z := 1700000000000000000.
Definition digest (s : string) : N := Npos (encode s).

Definition alice : UserRow := mkUserRow "alice" "h:correct horse" "admin" true None 0 false None clock0.
Definition bob : UserRow := mkUserRow "bob" "h:battery staple" "user" true None 0 true None clock0.
Definition nonce0 : string := "012345678901234567890123".

Definition db0 : Db :=
  mkDb {[1%N := alice; 2%N := bob]} ∅ {[2%N := mkTotpRow "secret" nonce0 clock0 None]}
    {[7%N := mkRecoveryCode 7 2 (hmac_digest purpose_recovery "ABCDE23456" key) false clock0]}.

Definition start : Config := initial db0 (RateLimiter.mkState ∅ 0) clock0 0.

(** Five attempts, fifteen minutes. *)
Definition run_acts (l : list Act) : Config := acts key 5 900000000000 (2 ^ 100) digest l start.

Definition entropy (c : ascii) : option string := Some (String c "random bytes").
Definition day : Z := 86400000000000.

Definition login_alice : Request := RLogin (mkLogin "alice" "correct horse" None day 101 (entropy "a")).
Definition challenge_bob : string :=
  match generate_challenge_token clock0 2 key with Ok t => t | Err _ => "" end.
Definition totp_bob (sid : N) (e : ascii) : Request :=
  RLogin2fa (mkLogin2fa challenge_bob "901063" None day sid (entropy e)).
Definition recover_bob (sid : N) (e : ascii) : Request :=
  RLogin2fa (mkLogin2fa challenge_bob "abcde-23456" None day sid (entropy e)).

(** Ten blocks of random bytes, and a code of the batch they give. *)
Definition blocks : list (list N) := (λ i, (λ j, N.of_nat (i + j)) <$> seq 0 10) <$> seq 0 10.
Definition new_ids : list N := N.of_nat <$> seq 7 10.
Definition regenerate_bob : Request := RRegenerate 2 "battery staple" new_ids blocks.
Definition recover_bob_again : Request :=
  RLogin2fa (mkLogin2fa challenge_bob "ABCDE-FGHJK" None day 106 (entropy "f")).

(** Alice enrols: setup, then a code for the new secret. *)
Definition setup_alice : Request := RSetup2fa 1 "Deve" (Some "12345678901234567890") (Some nonce0).
Definition verify_alice : Request := RVerify2fa 1 901063 (N.of_nat <$> seq 20 10) blocks.

(** A second installation, empty. *)
Definition empty_start : Config := initial (mkDb ∅ ∅ ∅ ∅) (RateLimiter.mkState ∅ 0) clock0 0.
Definition setup_root (id : N) : Request := RSetupAdmin id "salt" "root" "correct horse".

End AuthDemo.
