(* ===== verification/AuthTheorems.v ===== *)
(** * Theorems on authentication

    What holds in every run of the server, with any number of commands
    interleaved, any call failing or its answer lost, tasks dropped and the
    clock moving: sessions are earned, one-time codes are used once, disabled
    users and revoked sessions stay out, an enrolment is proven before it is
    enabled. *)

From Stdlib Require Import Ascii.
From stdpp Require Import relations.
From S2P Require Import Prelude Kernel Text UrlText UrlInstance Crypto Source RateLimiter.
Import Text UrlText Crypto Source.
From S2P Require Import Subscription Auth AuthCommands AuthSteps AuthInv.
Import Auth AuthCommands AuthSteps AuthPaths AuthInv.

Module AuthTheorems.

(** ** Observations of the log *)

(** A time step of a user was claimed. *)
Definition burned (e : Ev) : option (UserId * N) :=
  let '(existT o a) := e in
  match o return Ans o → option (UserId * N) with
  | ORecordTimestep uid t => λ r, match r with Ok true => Some (uid, t) | _ => None end
  | _ => λ _, None
  end a.

(** A recovery code was consumed. *)
Definition consumed (e : Ev) : option N :=
  let '(existT o a) := e in
  match o return Ans o → option N with
  | OMarkUsed id _ => λ r, match r with Ok _ => Some id | _ => None end
  | _ => λ _, None
  end a.

(** The first administrator was created. *)
Definition bootstrapped (e : Ev) : bool :=
  let '(existT o a) := e in
  match o return Ans o → bool with
  | OCreateIfEmpty _ => λ r, match r with Ok _ => true | _ => false end
  | _ => λ _, false
  end a.

(** The user, session or secret a query returned. *)
Definition seen_user (e : Ev) : option User :=
  let '(existT o a) := e in
  match o return Ans o → option User with
  | OFindUser _ | OFindUsername _ => λ r, match r with Ok u => u | _ => None end
  | _ => λ _, None
  end a.
Definition seen_session (e : Ev) : option Session :=
  let '(existT o a) := e in
  match o return Ans o → option Session with
  | OFindToken _ => λ r, match r with Ok s => s | _ => None end
  | _ => λ _, None
  end a.

Definition seen_totp (e : Ev) : option (UserId * TotpSecret) :=
  let '(existT o a) := e in
  match o return Ans o → option (UserId * TotpSecret) with
  | OFindTotp uid => λ r, match r with Ok s => pair uid <$> s | _ => None end
  | _ => λ _, None
  end a.

(** A new secret for the user was stored, or may have been. *)
Definition resets (uid : UserId) (e : Ev) : bool :=
  match projT1 e with OUpsertTotp s => N.eqb (ts_user_id s) uid | _ => false end.

(** A batch with the recovery code was stored, or may have been. *)
Definition reissues (id : N) (e : Ev) : bool := bool_decide (id ∈ rc_id <$> issues (projT1 e)).

Section theorems.
Context `{L : UrlLib} `{C : CryptoLib} `{A : AuthLib}.
Variable key : string.
Variables (max_attempts lockout_duration instant_max : N).
Variable limiter_key : string → N.
Abbreviation step := (AuthSteps.step key max_attempts lockout_duration instant_max limiter_key).
Abbreviation answers := (AuthSteps.answers max_attempts lockout_duration instant_max limiter_key).
Abbreviation exec' := (AuthSteps.exec' max_attempts lockout_duration instant_max limiter_key).
Abbreviation paths_ok := (AuthInv.paths_ok key).

(** A configuration a server that starts on the tables [db0] can reach. *)
Definition reachable (db0 : Db) (c : Config) : Prop := ∃ lim clk ins, rtc step (initial db0 lim clk ins) c.

Lemma initial_paths db l clk ins : paths_ok (initial db l clk ins).
Proof. intros i tk Hi. done. Qed.

(** ** One-time events *)

Lemma snoc_split {X} (l l1 l2 : list X) x y :
  l ++ [x] = l1 ++ y :: l2 → (l2 = [] ∧ y = x ∧ l1 = l) ∨ ∃ l2', l2 = l2' ++ [x] ∧ l = l1 ++ y :: l2'.
Proof.
  destruct l2 as [|z l2 _] using rev_ind; intros H; [left|right].
  - apply app_inj_tail in H as [-> ->]. done.
  - exists l2. rewrite app_comm_cons, app_assoc in H. apply app_inj_tail in H as [-> ->]. done.
Qed.

(** The first event puts the tables in a state [B] that lasts until a reset
    and in which the second event cannot happen. *)
Section once.
Variables (H1 H2 : Ev → Prop) (reset : Ev → bool) (B : Db → Prop).
Hypothesis enters : ∀ o a st st', answers o st a st' → H1 (ev o a) → B (st_db st').
Hypothesis lasts : ∀ o a db, reset (ev o a) = false → B db → B (eff o db).
Hypothesis prunes : ∀ now batch db, B db → B (prune_sessions now batch db).
Hypothesis blocks : ∀ o a st st', answers o st a st' → B (st_db st) → ¬ H2 (ev o a).

Definition quiet (l : list (nat * Ev)) : Prop := Forall (λ x, reset x.2 = false) l.

Record once_ok (c : Config) : Prop := {
  oo_state l1 i e1 l2 : cf_log c = l1 ++ (i, e1) :: l2 → H1 e1 → quiet l2 → B (cf_db c);
  oo_log l1 i e1 l2 j e2 l3 :
    cf_log c = l1 ++ (i, e1) :: l2 ++ (j, e2) :: l3 → H1 e1 → H2 e2 → quiet l2 → False
}.

Lemma once_same c c' :
  cf_log c' = cf_log c → (B (cf_db c) → B (cf_db c')) → once_ok c → once_ok c'.
Proof. intros Hl Hb [Hs Hlog]. split; rewrite Hl; eauto. Qed.

Lemma once_step c c' : step c c' → once_ok c → once_ok c'.
Proof.
  intros Hs Hok. destruct Hs as [c r|c i tk o k a st' Hi Hl Hp Ha|c i tk Hi|c clock instant _|c batch].
  - by apply (once_same c).
  - assert (∀ l1 j e1 l2, cf_log c = l1 ++ (j, e1) :: l2 → H1 e1 → quiet l2 → reset (ev o a) = false → B (st_db st')) as Hlast.
    { intros l1 j e1 l2 E H Hq Hr. specialize (oo_state _ Hok _ _ _ _ E H Hq) as Hb.
      apply answers_db in Ha as [[-> _]|[-> _]]; [by apply (lasts o a)|done]. }
    split; cbn.
    + intros l1 j e1 l2 [(-> & [= -> ->] & ->)|(l2' & -> & E)]%snoc_split H Hq; [by apply (enters _ _ _ _ Ha)|].
      apply Forall_app in Hq as [Hq Hr]; rewrite Forall_singleton in Hr. exact (Hlast _ _ _ _ E H Hq Hr).
    + intros l1 j e1 l2 j2 e2 l3 E H H' Hq. rewrite app_comm_cons, app_assoc in E.
      apply snoc_split in E as [(-> & [= -> ->] & E)|(l3' & -> & E)].
      * eapply blocks; [exact Ha| |exact H']. eapply (oo_state _ Hok); [symmetry; exact E|done|done].
      * eapply (oo_log _ Hok); [|exact H|exact H'|exact Hq]. by rewrite E, <-app_assoc.
  - apply (once_same c); [done| |done]. unfold cf_db. cbn. by destruct (tk_holds tk).
  - by apply (once_same c).
  - apply (once_same c); [done|apply prunes|done].
Qed.

Lemma once c0 c l1 i e1 l2 j e2 l3 :
  cf_log c0 = [] → rtc step c0 c → cf_log c = l1 ++ (i, e1) :: l2 ++ (j, e2) :: l3 → H1 e1 → H2 e2 →
  ∃ x, x ∈ l2 ∧ reset x.2 = true.
Proof.
  intros H0 Hs E He1 He2. destruct (decide (Exists (λ x, reset x.2 = true) l2)) as [Hx|Hx].
  { apply Exists_exists in Hx as (x & ? & ?). eauto. }
  exfalso. assert (once_ok c) as Hok.
  { assert (once_ok c0) as Hok0
      by (split; rewrite H0; intros * E'; symmetry in E'; by apply app_nil in E' as [_ ?]).
    clear E H0. induction Hs; eauto using once_step. }
  eapply (oo_log _ Hok); [done..|]. apply Forall_forall. intros x Hel.
  destruct (reset x.2) eqn:?; [|done]. exfalso. apply Hx, Exists_exists. eauto.
Qed.
End once.

(** An answer that is no failure is the one of the statement. *)
Lemma answers_no_fault o st a st' :
  answers o st a st' → ¬ fault o a → a = (exec' o st).1 ∧ st_db st' = eff o (st_db st).
Proof. intros [[-> [[-> _]|?]]|[_ ?]]%answers_db ?; done. Qed.

Lemma burned_inv o a st st' uid t :
  answers o st a st' → burned (ev o a) = Some (uid, t) →
  st_db st' = eff o (st_db st) ∧ o = ORecordTimestep uid t ∧
  ∃ r, totp_secrets (st_db st) !! uid = Some r ∧ (∀ l, tr_last_used_timestep r = Some l → (l < Z.of_N t)%Z) ∧
    totp_secrets (st_db st') !! uid =
      Some (mkTotpRow (tr_ciphertext r) (tr_nonce r) (tr_created_at r) (Some (Z.of_N t))).
Proof.
  intros Ha Hb. destruct o; try done. cbn in Hb. destruct a as [[]|]; simplify_eq.
  apply answers_no_fault in Ha as [Hx Hdb]; [|by intros [? ?]]. rewrite Hdb. split; [done|]. split; [done|].
  cbn in *. unfold on_db, record_used_timestep in *.
  destruct (N.ltb i64_max t) eqn:Ht; [done|]. destruct (totp_secrets (st_db st) !! uid) as [r|] eqn:Hr; [|done].
  destruct (if tr_last_used_timestep r is Some l then Z.ltb l (Z.of_N t) else true) eqn:Hl; [|done].
  exists r. split; [done|]. split; [intros l El; rewrite El in Hl; by apply Z.ltb_lt|]. cbn. by rewrite lookup_insert_eq.
Qed.

(** The task claimed a time step for a code: the code is the one of that step,
    near the clock the task read, for the secret of the user it read. *)
Definition claimed_step (c : Config) (i : nat) (h : list Ev) (uid : UserId) (code : string) (t : N) : Prop :=
  ∃ stored plaintext at_ n,
    ev (OFindTotp uid) (Ok (Some stored)) ∈ h ∧
    open_parts key totp_aad_context (ts_ciphertext stored) (ts_nonce stored) = Ok plaintext ∧
    parse_unsigned u32_max code = Some n ∧ ev ONow at_ ∈ h ∧
    verify_code_timestep (unix_u64 at_) plaintext n = Some t ∧
    (i, ev (ORecordTimestep uid t) (Ok true)) ∈ cf_log c.

(** C4: No login gets in on a time step that a login used before: however the
    logins of a user interleave and whatever calls fail, a second-step login
    that lets its caller in consumed a recovery code or claimed the time step of
    the one-time password it was given; and the steps claimed for a user are
    strictly increasing until a new secret is stored. *)
Theorem totp_never_replayed db0 lim clk ins c :
  rtc step (initial db0 lim clk ins) c →
  (∀ i tk p user s token, cf_tasks c !! i = Some tk → tk_request tk = RLogin2fa p →
     tk_prog tk = Ret (OutLogin2fa (Ok (user, s, token))) →
     ∃ uid, challenge_login key p (tk_history tk) s uid user ∧
       ((∃ rid, (i, ev (OMarkUsed rid s) (Ok ())) ∈ cf_log c) ∨
        ∃ t, claimed_step c i (tk_history tk) uid (f_code p) t)) ∧
  (∀ l1 i e1 l2 j e2 l3 uid t1 t2, cf_log c = l1 ++ (i, e1) :: l2 ++ (j, e2) :: l3 →
     burned e1 = Some (uid, t1) → burned e2 = Some (uid, t2) →
     (t1 < t2)%N ∨ ∃ x, x ∈ l2 ∧ resets uid x.2 = true).
Proof.
  intros Hs. split.
  - intros i tk p user s token Htk Hr Hprog.
    assert (on_path key tk) as Hpath by (eapply (steps_paths key); [exact Hs|apply initial_paths|exact Htk]).
    assert (∀ e, e ∈ tk_history tk → (i, e) ∈ cf_log c) as Hlog.
    { intros e He. eapply steps_history; [exact Hs|done| |exact Htk|exact He]. cbn. lia. }
    unfold on_path in Hpath. rewrite Hr, Hprog in Hpath. destruct Hpath as (uid & Hch & Hf & _). exists uid. split; [done|].
    destruct Hf as [[(stored & plaintext & t & n & stp & H1 & H2 & H3 & H4 & H5 & H6) _]|(rid & _ & Hm)]; [right|left; eauto].
    exists stp, stored, plaintext, t, n. split_and!; eauto.
  - intros l1 i e1 l2 j e2 l3 uid t1 t2 E He1 He2. destruct (decide (t1 < t2)%N) as [?|Hge]; [by left|right].
    eapply (once (λ e, burned e = Some (uid, t1)) (λ e, burned e = Some (uid, t2)) (resets uid)
      (λ db, ∀ r, totp_secrets db !! uid = Some r → ∃ l, tr_last_used_timestep r = Some l ∧ (Z.of_N t1 ≤ l)%Z)) with (c0 := initial db0 lim clk ins); try done.
    + intros o a st st' Ha Hb r Hr. destruct (burned_inv _ _ _ _ _ _ Ha Hb) as (_ & _ & r0 & _ & _ & Hr').
      rewrite Hr' in Hr. injection Hr as <-. eexists. by split.
    + intros o a db Hr HB r Hr'. pose proof (totp_effect o db uid) as Hc. rewrite Hr' in Hc.
      inversion Hc as [r0 E1|s cr u r0 -> Hid Hu Htf|t r0 -> Hl E1|]; subst; [by apply HB| |].
      * cbn in Hr. by rewrite N.eqb_refl in Hr.
      * destruct (HB r0) as (l & Hl0 & ?); [done|]. specialize (Hl l Hl0). eexists. split; [done|]. cbn. lia.
    + intros o a st st' Ha HB Hb. destruct (burned_inv _ _ _ _ _ _ Ha Hb) as (_ & _ & r0 & Hr0 & Hlt & _).
      destruct (HB r0 Hr0) as (l & Hl & ?). specialize (Hlt l Hl). lia.
Qed.

Lemma consumed_inv o a st st' id :
  answers o st a st' → consumed (ev o a) = Some id →
  st_db st' = eff o (st_db st) ∧ ∃ s c, o = OMarkUsed id s ∧
    recovery_codes (st_db st) !! id = Some c ∧ rc_used c = false ∧
    recovery_codes (st_db st') !! id = Some (code_use c) ∧ is_Some (sessions (st_db st') !! se_id s).
Proof.
  intros Ha Hb. destruct o; try done. cbn in Hb. destruct a as [[]|]; simplify_eq.
  apply answers_no_fault in Ha as [Hx Hdb]; [|by intros [? ?]]. rewrite Hdb. split; [done|].
  cbn in *. unfold on_db, mark_used_and_create_session in *.
  destruct (recovery_codes (st_db st) !! id) as [c|] eqn:Hc; [|done]. destruct (rc_used c) eqn:Hu; [done|].
  destruct (insert_session _ _) eqn:Hi; [|done]. exists s, c. split_and!; [done..| |].
  - apply insert_session_Ok in Hi as (? & ? & _ & _ & _ & _ & _ & ->). cbn. by rewrite lookup_insert_eq.
  - apply insert_session_Ok in Hi as (? & ? & _ & _ & _ & _ & _ & ->). cbn. by rewrite lookup_insert_eq.
Qed.

(** C16: A recovery code is consumed once: two logins that consumed the same
    code, however they interleave, are separated by the issue of a new batch
    with that code; and when a code is consumed it was unused before, is used
    after, and the session it paid for is in the table. *)
Theorem recovery_code_used_once c0 c l1 i e1 l2 j e2 l3 id :
  cf_log c0 = [] → rtc step c0 c → cf_log c = l1 ++ (i, e1) :: l2 ++ (j, e2) :: l3 →
  consumed e1 = Some id → consumed e2 = Some id →
  (∃ x, x ∈ l2 ∧ reissues id x.2 = true) ∧
  ∀ o a st st', answers o st a st' → consumed (ev o a) = Some id →
    ∃ s rc, o = OMarkUsed id s ∧ recovery_codes (st_db st) !! id = Some rc ∧ rc_used rc = false ∧
      recovery_codes (st_db st') !! id = Some (code_use rc) ∧ is_Some (sessions (st_db st') !! se_id s).
Proof.
  intros H0 Hs E He1 He2. split; [|intros o a st st' Ha Hb; by destruct (consumed_inv _ _ _ _ _ Ha Hb)].
  eapply (once (λ e, consumed e = Some id) (λ e, consumed e = Some id) (reissues id)
    (λ db, ∀ rc, recovery_codes db !! id = Some rc → rc_used rc = true)); try done.
  - intros o a st st' Ha Hb rc Hr. destruct (consumed_inv _ _ _ _ _ Ha Hb) as (_ & s & r & _ & _ & _ & Hr' & _).
    rewrite Hr' in Hr. by injection Hr as <-.
  - intros o a db Hr HB rc Hrc. pose proof (codes_effect o db id) as Hc. rewrite Hrc in Hc.
    inversion Hc as [r E1|s r -> Hu E1| |r cr r0 Hin Hid E1]; subst; [by apply HB|done|].
    exfalso. apply bool_decide_eq_false in Hr. apply Hr. cbn. apply list_elem_of_fmap. eauto.
  - intros o a st st' Ha HB Hb. destruct (consumed_inv _ _ _ _ _ Ha Hb) as (_ & s & r & _ & Hr & Hu & _).
    specialize (HB r Hr). congruence.
Qed.

(** The tables of users, sessions, secrets and recovery codes keep their
    invariant in every run: names, token hashes and code hashes are unique,
    every row belongs to a user, and a user whose second factor is enabled has
    a stored secret. *)
Theorem auth_tables_invariant db0 c : tables_ok db0 → reachable db0 c → tables_ok (cf_db c).
Proof.
  intros H0 (lim & clk & ins & Hs). apply (steps_db key max_attempts lockout_duration instant_max limiter_key tables_ok
    (initial db0 lim clk ins)); auto using eff_ok, prune_sessions_ok, initial_paths.
Qed.

(** ** Where sessions come from *)

Definition granted (r : Request) (h : list Ev) (s : Session) : Prop :=
  match r with
  | RLogin p => ∃ user, password_login p h s user
  | RLogin2fa p => ∃ uid user, challenge_login key p h s uid user ∧
      (totp_accepted key uid (f_code p) h ∨ ∃ rid, recovery_found key uid (f_code p) rid h)
  | _ => False
  end.

Lemma granted_grows r h h' s : h ⊆ h' → granted r h s → granted r h' s.
Proof.
  intros Hs. destruct r; try done; cbn.
  - intros (u & H). exists u. by eapply password_login_grows.
  - intros (uid & u & H & Hf). exists uid, u. split; [by eapply challenge_login_grows|].
    destruct Hf as [Hf|(rid & rc & ? & ?)]; [left; by eapply totp_accepted_grows|right]. exists rid, rc. auto.
Qed.

(** The session was written by a login that had established its grounds. *)
Definition earned (c : Config) (s : Session) : Prop :=
  ∃ i tk s0, cf_tasks c !! i = Some tk ∧ granted (tk_request tk) (tk_history tk) s0 ∧
    se_user_id s = se_user_id s0 ∧ se_token_hash s = se_token_hash s0 ∧
    format_ts (se_expires_at s0) = Ok (se_expires_at s).

(** Tasks keep their request and add to their history. *)
Definition extends (c c' : Config) : Prop :=
  ∀ i tk, cf_tasks c !! i = Some tk →
    ∃ tk', cf_tasks c' !! i = Some tk' ∧ tk_request tk' = tk_request tk ∧ tk_history tk ⊆ tk_history tk'.

Lemma insert_extends (l : list Task) i tk tk' :
  l !! i = Some tk → tk_request tk' = tk_request tk → tk_history tk ⊆ tk_history tk' →
  ∀ j t, l !! j = Some t → ∃ t', <[i := tk']> l !! j = Some t' ∧ tk_request t' = tk_request t ∧ tk_history t ⊆ tk_history t'.
Proof.
  intros Hi Hr Hh j t Hj. destruct (decide (i = j)) as [<-|].
  - rewrite list_lookup_insert_eq by by eapply lookup_lt_Some. rewrite Hi in Hj. injection Hj as <-. eauto.
  - rewrite list_lookup_insert_ne by done. eauto.
Qed.

Lemma step_extends c c' : step c c' → extends c c'.
Proof.
  intros Hs. destruct Hs as [c r|c i tk o k a st' Hi Hl Hp Ha|c i tk Hi|c clock instant _|c batch]; intros j t Hj;
    cbn [cf_tasks]; try by eauto.
  - exists t. by rewrite lookup_app_l by by eapply lookup_lt_Some.
  - eapply insert_extends; [exact Hi|done| |exact Hj]. cbn. set_solver.
  - by eapply insert_extends.
Qed.

Lemma earned_extends c c' s s' :
  extends c c' → earned c s → se_user_id s' = se_user_id s → se_token_hash s' = se_token_hash s →
  se_expires_at s' = se_expires_at s → earned c' s'.
Proof.
  intros He (i & tk & s0 & Hi & Hg & Hu & Ht & Hx) Hu' Ht' Hx'.
  destruct (He _ _ Hi) as (tk' & Hi' & Hr & Hh). exists i, tk', s0. rewrite Hr, Hu', Ht', Hx'.
  split_and!; try done. by eapply granted_grows.
Qed.

Lemma allowed_grants r h o s : allowed key r h o → inserts o = Some s → granted r h s.
Proof.
  destruct o; try done; cbn; intros Ha [= ->]; destruct r; try done; cbn in *; naive_solver.
Qed.

(** The session is in the first table, or was earned. *)
Definition accounted (db0 : Db) (c : Config) : Prop :=
  ∀ sid s, sessions (cf_db c) !! sid = Some s →
    (∃ s0, sessions db0 !! sid = Some s0 ∧ (s = s0 ∨ s = session_revoke s0)) ∨ earned c s.

Lemma accounted_step db0 c c' : paths_ok c → step c c' → accounted db0 c → accounted db0 c'.
Proof.
  intros Hp Hs Hok. pose proof (step_extends _ _ Hs) as He.
  assert (∀ sid s s', sessions (cf_db c) !! sid = Some s → s' = s ∨ s' = session_revoke s →
    (∃ s0, sessions db0 !! sid = Some s0 ∧ (s' = s0 ∨ s' = session_revoke s0)) ∨ earned c' s') as Hkeep.
  { intros sid s s' Hl Hc. destruct (Hok _ _ Hl) as [(s0 & H0 & Hs0)|Hs0].
    - left. exists s0. split; [done|]. destruct Hc as [-> | ->], Hs0 as [-> | ->]; auto.
    - right. eapply earned_extends; [done..| | |]; by destruct Hc as [-> | ->]. }
  apply (step_db key) in Hs; [|done].
  destruct Hs as [i tk o k a Hi Hlv Hpr Hall Hdb Htk Hlog|now batch Hdb Htk _|r Hdb|i tk Hdb|Hdb]; intros sid s Hl.
  - destruct Hdb as [[Hdb _]|[Hdb _]]; rewrite Hdb in Hl; [|by eauto].
    destruct (sessions_effect _ _ _ _ Hl) as [(s0 & H0 & Hc)|(s0 & Hin & _ & _ & _ & Hu & Ht & Hx & _ & _)]; [by eauto|].
    right. destruct (He _ _ Hi) as (tk' & Hi' & Hr & Hh). exists i, tk', s0. rewrite Hr.
    split_and!; try done. eapply granted_grows; [done|]. by eapply allowed_grants.
  - rewrite Hdb in Hl. cbn in Hl. apply map_lookup_filter_Some in Hl as [Hl _]. eauto.
  - rewrite Hdb in Hl. eauto.
  - rewrite Hdb in Hl. eauto.
  - rewrite Hdb in Hl. eauto.
Qed.

(** C2: Sessions are earned: in every run, a session in the table was there at
    the start or was written by a login that had found the user, verified the
    password against the stored hash, seen the account active and without a
    second factor; or by a second-step login that held a valid, unexpired
    challenge for an active user and either claimed a fresh time step with a
    matching code or found an unused recovery code.  It belongs to that user,
    carries the digest of the token that login drew and expires after the
    configured time. *)
Theorem sessions_are_earned db0 lim clk ins c sid s :
  rtc step (initial db0 lim clk ins) c → sessions (cf_db c) !! sid = Some s →
  (∃ s0, sessions db0 !! sid = Some s0 ∧ (s = s0 ∨ s = session_revoke s0)) ∨ earned c s.
Proof.
  intros Hs. revert sid s. change (accounted db0 c).
  apply (steps_inv key max_attempts lockout_duration instant_max limiter_key (accounted db0) (initial db0 lim clk ins));
    [apply accounted_step|apply initial_paths|done|]. intros sid s Hl. eauto.
Qed.

(** ** What the repositories answer *)

Lemma user_to_domain_fields id r u :
  user_to_domain id r = Ok u →
  u_id u = id ∧ u_username u = ur_username r ∧ u_password_hash u = ur_password_hash r ∧ u_enabled u = ur_enabled r ∧
  u_expires_at u = ur_expires_at r ∧ u_two_factor_enabled u = ur_two_factor_enabled r.
Proof.
  unfold user_to_domain. intros (role & _ & H)%result_bind_Ok. destruct (Z.ltb _ 0); [done|]. by injection H as <-.
Qed.

Lemma read_user_Some o u : read_user o = Ok (Some u) → ∃ id r, o = Some (id, r) ∧ user_to_domain id r = Ok u.
Proof. destruct o as [[id r]|]; cbn; [|done]. intros (w & Hw & [= <-])%result_bind_Ok. eauto. Qed.

Lemma find_user_by_id_Some id db u :
  find_user_by_id id db = Ok (Some u) → ∃ r, users db !! id = Some r ∧ user_to_domain id r = Ok u.
Proof.
  intros (id' & r & H & Hr)%read_user_Some. apply fmap_Some in H as (r' & Hl & [= -> ->]). eauto.
Qed.

Lemma find_user_by_username_Some n db u :
  find_user_by_username n db = Ok (Some u) → ∃ r, users db !! u_id u = Some r ∧ user_to_domain (u_id u) r = Ok u.
Proof.
  intros (id & r & H & Hr)%read_user_Some. destruct (user_to_domain_fields _ _ _ Hr) as (-> & _).
  apply head_Some_elem_of, list_elem_of_filter in H as [_ H%elem_of_map_to_list]. eauto.
Qed.

Lemma find_by_token_hash_Some h db s :
  find_by_token_hash h db = Some s → ∃ sid, sessions db !! sid = Some s ∧ se_token_hash s = h.
Proof.
  unfold find_by_token_hash. intros ([sid s'] & H & ->)%fmap_Some.
  apply head_Some_elem_of, list_elem_of_filter in H as [Hh H%elem_of_map_to_list]. eauto.
Qed.

(** ** Disabled users *)

(** No answer shows the user enabled. *)
Definition shows_disabled (uid : UserId) (e : Ev) : Prop :=
  ∀ u, seen_user e = Some u → u_id u = uid → u_enabled u = false.

Definition user_disabled (uid : UserId) (db : Db) : Prop :=
  ∃ r, users db !! uid = Some r ∧ ur_enabled r = false.

Lemma disabled_stays uid o db : call_ok o → user_disabled uid db → user_disabled uid (eff o db).
Proof.
  intros Hc (r & Hr & He). pose proof (users_effect o db uid) as H. rewrite Hr in H.
  inversion H; subst; eexists; (split; [done|]); done.
Qed.

Lemma seen_user_inv o a st st' u :
  answers o st a st' → seen_user (ev o a) = Some u →
  ∃ r, users (st_db st) !! u_id u = Some r ∧ user_to_domain (u_id u) r = Ok u.
Proof.
  intros Ha Hu. destruct o; try done; cbn in Hu; destruct a as [[w|]|]; simplify_eq;
    (apply answers_no_fault in Ha as [Ha _]; [cbn in Ha; symmetry in Ha|by intros [? ?]]).
  - destruct (find_user_by_id_Some _ _ _ Ha) as (r & Hr & Hd).
    destruct (user_to_domain_fields _ _ _ Hd) as (-> & _). eauto.
  - by apply find_user_by_username_Some in Ha.
Qed.

Lemma disabled_shown uid o a st st' :
  answers o st a st' → user_disabled uid (st_db st) → shows_disabled uid (ev o a).
Proof.
  intros Ha (r & Hr & He) u Hu Hid. destruct (seen_user_inv _ _ _ _ _ Ha Hu) as (r' & Hr' & Hd).
  destruct (user_to_domain_fields _ _ _ Hd) as (_ & _ & _ & -> & _). congruence.
Qed.

(** The owner of a session a command may write, and of a principal it may
    return, was seen active. *)
Lemma granted_active r h s :
  granted r h s → ∃ e u, e ∈ h ∧ seen_user e = Some u ∧ u_id u = se_user_id s ∧ u_enabled u = true.
Proof.
  assert (∀ u t, is_active_at u t = true → u_enabled u = true) as Hact.
  { intros u t H. unfold is_active_at in H. by apply andb_prop in H as [? _]. }
  destruct r; try done; cbn.
  - intros (u & [Hf _ (t & _ & Ha) _ Ho _ _]). do 2 eexists. split; [exact Hf|]. split; [done|]. eauto.
  - intros (uid & u & [_ Hf (t & _ & Ha) Ho _ _] & _). do 2 eexists. split; [exact Hf|]. split; [done|]. eauto.
Qed.

(** C14: A disabled user stays out: once an account is disabled it is disabled
    in every later state, and no command that starts afterwards, however it
    interleaves, is about to write a session for that user or authenticates a
    request as that user, whatever sessions are left in the table. *)
Theorem disabled_locked_out db0 lim clk ins c c' uid :
  rtc step (initial db0 lim clk ins) c → user_disabled uid (cf_db c) → rtc step c c' →
  user_disabled uid (cf_db c') ∧
  ∀ i tk, length (cf_tasks c) ≤ i → cf_tasks c' !! i = Some tk →
    (∀ o k s, tk_prog tk = Call o k → inserts o = Some s → se_user_id s ≠ uid) ∧
    (∀ token user s, tk_request tk = RAuthenticate token → tk_prog tk = Ret (OutPrincipal (Ok (Some (user, s)))) →
       u_id user ≠ uid).
Proof.
  intros H0 Hd Hs. assert (paths_ok c) as Hp by (eapply steps_paths; [exact H0|apply initial_paths]).
  assert (paths_ok c') as Hp' by by eapply steps_paths. destruct (steps_log _ _ _ _ _ _ _ Hs) as (l & El).
  destruct (steps_answers key max_attempts lockout_duration instant_max limiter_key (user_disabled uid)
    (shows_disabled uid) (λ _, True) c c' l) as [Hd' Hl]; try done.
  { intros o db Hc _. by apply disabled_stays. }
  { intros o a st st'. apply disabled_shown. }
  { by apply Forall_true. }
  split; [done|]. intros i tk Hi Htk.
  assert (∀ e, e ∈ tk_history tk → shows_disabled uid e) as Hh.
  { intros e He. eapply (proj1 (Forall_forall _ _) Hl (i, e)). eapply steps_history; [exact Hs|exact El|done..]. }
  pose proof (Hp' _ _ Htk) as Hpath. unfold on_path in Hpath. split.
  - intros o k s Hprog Hin Ho. rewrite Hprog in Hpath. destruct Hpath as [Hall _].
    destruct (granted_active _ _ _ (allowed_grants _ _ _ _ Hall Hin)) as (e & u & He & Hu & Hid & Hen).
    specialize (Hh e He u Hu). rewrite Hid, Ho in Hh. by rewrite Hh in Hen.
  - intros token user s Hr Hprog Hid. rewrite Hr, Hprog in Hpath. destruct Hpath as (_ & _ & Hf & (t & _ & Ha)).
    unfold is_active_at in Ha. apply andb_prop in Ha as [Ha _].
    by rewrite (Hh _ Hf user eq_refl Hid) in Ha.
Qed.

(** ** Revoked sessions *)

(** The sessions a command revokes when it succeeds. *)
Definition covers (r : Request) (s : Session) : Prop :=
  match r with
  | RLogout sid => se_id s = sid
  | RForceLogout uid | RDisableUser _ uid => se_user_id s = uid
  | _ => False
  end.
Definition revoking (r : Request) : bool :=
  match r with RLogout _ | RForceLogout _ | RDisableUser _ _ => true | _ => false end.

(** The row of a session is revoked, if it is one the command covers. *)
Definition session_revoked (r : Request) (sid : N) (db : Db) : Prop :=
  tables_ok db ∧ ∀ s, sessions db !! sid = Some s → covers r s → se_revoked s = true.

Definition writes_session (sid : N) (o : Op) : Prop := ∃ s, inserts o = Some s ∧ se_id s = sid.
#[local] Instance writes_session_dec sid o : Decision (writes_session sid o).
Proof.
  destruct (inserts o) as [s|] eqn:Hi; [destruct (decide (se_id s = sid)) as [He|He]|];
    [left; by exists s|right..]; unfold writes_session; rewrite Hi; naive_solver.
Defined.

Lemma revoked_stays r sid o db :
  call_ok o → ¬ writes_session sid o → session_revoked r sid db → session_revoked r sid (eff o db).
Proof.
  intros Hc Hw [Hok Hr]. split; [by apply eff_ok|]. intros s Hs.
  destruct (sessions_effect _ _ _ _ Hs) as [(s0 & H0 & [-> | ->])|(s0 & Hin & _ & -> & _)]; [by apply Hr|done|].
  destruct Hw. by exists s0.
Qed.

Lemma revoked_prune r sid now batch db : session_revoked r sid db → session_revoked r sid (prune_sessions now batch db).
Proof.
  intros [Hok Hr]. split; [by apply prune_sessions_ok|]. cbn. intros s [Hs _]%map_lookup_filter_Some. by apply Hr.
Qed.

Definition shows_revoked (r : Request) (sid : N) (e : Ev) : Prop :=
  ∀ s, seen_session e = Some s → se_id s = sid → covers r s → se_revoked s = true.

Lemma revoked_shown r sid o a st st' :
  answers o st a st' → session_revoked r sid (st_db st) → shows_revoked r sid (ev o a).
Proof.
  intros Ha [Hok Hr] s Hs Hid. destruct o; try done. cbn in Hs. destruct a as [[w|]|]; simplify_eq.
  apply answers_no_fault in Ha as [Ha _]; [|by intros [? ?]]. cbn in Ha. injection Ha as Ha. symmetry in Ha.
  apply find_by_token_hash_Some in Ha as (sid' & Hl & _). destruct (to_session_ids _ Hok _ _ Hl) as [<- _]. eauto.
Qed.

(** The answered call by which a command revokes. *)
Definition revocation (r : Request) (e : Ev) : Prop :=
  let '(existT o a) := e in
  match o return Ans o → Prop with
  | ORevoke id => λ a, match r with RLogout sid => id = sid ∧ (a = Ok () ∨ a = Err SessionNotFound) | _ => False end
  | ORevokeAll u => λ a, match r with RForceLogout uid | RDisableUser _ uid => u = uid ∧ a = Ok () | _ => False end
  | _ => λ _, False
  end a.

Lemma revoke_all_revokes uid db k s :
  sessions (revoke_all_for_user uid db) !! k = Some s → se_user_id s = uid → se_revoked s = true.
Proof.
  cbn. rewrite lookup_fmap. destruct (sessions db !! k) as [s0|]; cbn; [|done]. intros [= <-].
  destruct (se_revoked s0) eqn:Hr, (bool_decide (se_user_id s0 = uid)) eqn:Hu; cbn; try done.
  apply bool_decide_eq_false in Hu. done.
Qed.

Lemma revoke_revokes id db k s :
  tables_ok db → sessions (revoke id db).2 !! k = Some s → se_id s = id → se_revoked s = true.
Proof.
  intros Hok. unfold revoke. destruct (sessions db !! id) as [s0|] eqn:Hd; cbn.
  - destruct (decide (id = k)) as [<-|Hne]; [rewrite lookup_insert_eq; by intros [= <-]|].
    rewrite lookup_insert_ne by done. intros Hk%(to_session_ids _ Hok). naive_solver.
  - intros Hk Hid. destruct (to_session_ids _ Hok _ _ Hk). congruence.
Qed.

Lemma revocation_enters r sid o a st st' :
  tables_ok (st_db st) → answers o st a st' → revocation r (ev o a) → session_revoked r sid (st_db st').
Proof.
  intros Hok Ha Hr.
  assert (call_ok o ∧ ¬ fault o a ∧
    ∀ s, sessions (eff o (st_db st)) !! sid = Some s → covers r s → se_revoked s = true) as (Hc & Hf & Hs).
  { destruct o; try done; cbn in Hr; destruct r; try done; destruct Hr as [-> Hr]; (split; [done|]);
      (split; [intros [m ->]; naive_solver|]); intros s; first [apply revoke_all_revokes | by apply revoke_revokes]. }
  apply answers_no_fault in Ha as [_ ->]; [|done]. split; [by apply eff_ok|done].
Qed.

(** A run up to an entry of its log, the entry, and the rest of the run. *)
Lemma log_cut c0 c l1 i e l2 :
  rtc step c0 c → cf_log c0 = [] → cf_log c = l1 ++ (i, e) :: l2 →
  ∃ ca cb o a, rtc step c0 ca ∧ e = ev o a ∧ answers o (cf_st ca) a (cf_st cb) ∧ step ca cb ∧
    cf_log cb = l1 ++ [(i, e)] ∧ rtc step cb c.
Proof.
  intros Hs H0. revert l2. revert c Hs.
  apply (rtc_ind_r (λ c, ∀ l2, cf_log c = l1 ++ (i, e) :: l2 → ∃ ca cb o a, rtc step c0 ca ∧ e = ev o a ∧
    answers o (cf_st ca) a (cf_st cb) ∧ step ca cb ∧ cf_log cb = l1 ++ [(i, e)] ∧ rtc step cb c)).
  { intros l2 E. rewrite H0 in E. by destruct l1. }
  intros c c1 Hs0 Hs IH l2 E.
  assert (cf_log c1 = cf_log c → ∃ ca cb o a, rtc step c0 ca ∧ e = ev o a ∧ answers o (cf_st ca) a (cf_st cb) ∧ step ca cb ∧
    cf_log cb = l1 ++ [(i, e)] ∧ rtc step cb c1) as Hsame.
  { intros El. rewrite El in E. destruct (IH _ E) as (ca & cb & o & a & ? & ? & ? & ? & ? & ?).
    exists ca, cb, o, a. split_and!; try done. by eapply rtc_r. }
  destruct Hs as [c r|c i0 tk o k a st' Hi Hl Hp Ha|c i0 tk Hi|c clock instant Hc|c batch]; try by apply Hsame.
  cbn in E. apply snoc_split in E as [(-> & [= -> ->] & ->)|(l2' & -> & E)].
  - exists c, (mkConfig st' (<[i0 := advance tk o k a]> (cf_tasks c)) (cf_log c ++ [(i0, ev o a)])), o, a.
    split_and!; try done. by eapply step_call.
  - destruct (IH _ E) as (ca & cb & o' & a' & ? & ? & ? & ? & ? & ?). exists ca, cb, o', a'. split_and!; try done.
    eapply rtc_r; [done|]. by eapply step_call.
Qed.

Lemma step_tasks c c' : rtc step c c' → length (cf_tasks c) ≤ length (cf_tasks c').
Proof.
  induction 1 as [|c c1 c2 Hs _ IH]; [done|]. etrans; [|exact IH].
  destruct Hs; cbn; rewrite ?length_app, ?length_insert; lia.
Qed.

(** The task let a caller in on a session. *)
Definition admits (tk : Task) (s : Session) : Prop :=
  (∃ token user, tk_request tk = RAuthenticate token ∧ tk_prog tk = Ret (OutPrincipal (Ok (Some (user, s))))) ∨
  (∃ token, tk_request tk = RVerifySession token ∧ tk_prog tk = Ret (OutSession (Ok (Some s)))).

Lemma admits_valid tk s :
  on_path key tk → admits tk s → ∃ e, e ∈ tk_history tk ∧ seen_session e = Some s ∧ se_revoked s = false.
Proof.
  intros Hp Ha. assert (∃ token t, ev (OFindToken (hmac_digest purpose_session token key)) (Ok (Some s)) ∈ tk_history tk ∧
    is_valid_at s t = true) as (token & t & Hf & Hv).
  { unfold on_path in Hp. destruct Ha as [(token & user & Hr & Hprog)|(token & Hr & Hprog)]; rewrite Hr, Hprog in Hp.
    - destruct Hp as (? & (t & _ & ?) & _). eauto.
    - destruct Hp as (? & (t & _ & ?)). eauto. }
  eexists. split; [exact Hf|]. split; [done|]. unfold is_valid_at in Hv. by apply andb_prop in Hv as [Hv%negb_true_iff _].
Qed.

(** C23: Revocation is final.  A logout, a forced logout or the disabling of a
    user that has succeeded made its revocation before it answered; and no
    request that starts afterwards, however it interleaves, is let in on a
    session the command covers (the session logged out, every session of the
    user), except on a session that was written under the same identifier after
    the revocation. *)
Theorem revocation_final db0 lim clk ins c c' j tk :
  tables_ok db0 → rtc step (initial db0 lim clk ins) c → cf_tasks c !! j = Some tk →
  revoking (tk_request tk) = true → tk_prog tk = Ret (OutUnit (Ok ())) → rtc step c c' →
  ∃ l1 e l2 l3, cf_log c = l1 ++ (j, e) :: l2 ∧ cf_log c' = cf_log c ++ l3 ∧ revocation (tk_request tk) e ∧
    ∀ i t s, length (cf_tasks c) ≤ i → cf_tasks c' !! i = Some t → admits t s → covers (tk_request tk) s →
      ∃ x, x ∈ l2 ++ l3 ∧ writes_session (se_id s) (projT1 x.2).
Proof.
  intros Hok0 H0 Htk Hrev Hprog Hs.
  assert (paths_ok c) as Hp by (eapply steps_paths; [exact H0|apply initial_paths]).
  assert (∃ e, e ∈ tk_history tk ∧ revocation (tk_request tk) e) as (e & He & Hr).
  { pose proof (Hp _ _ Htk) as Hpath. unfold on_path in Hpath. rewrite Hprog in Hpath.
    destruct (tk_request tk); try done; cbn in Hpath; [destruct Hpath as [Hpath|Hpath]|..];
      (eexists; split; [exact Hpath|]; cbn; auto). }
  assert ((j, e) ∈ cf_log c) as Hin by (eapply steps_history; [exact H0|done|cbn; lia|exact Htk|exact He]).
  apply list_elem_of_split in Hin as (l1 & l2 & E). destruct (steps_log _ _ _ _ _ _ _ Hs) as (l3 & E3).
  exists l1, e, l2, l3. split_and!; [done..|]. intros i t s Hi Ht Ha Hcov.
  destruct (log_cut _ _ _ _ _ _ H0 eq_refl E) as (ca & cb & o & a & Hca & -> & Hans & Hstep & Ecb & Hcb).
  assert (paths_ok ca) as Hpa by (eapply steps_paths; [exact Hca|apply initial_paths]).
  assert (paths_ok cb) as Hpb by by eapply step_paths.
  assert (tables_ok (cf_db ca)) as Hoka.
  { eapply (steps_db key max_attempts lockout_duration instant_max limiter_key tables_ok); [..|exact Hca|exact Hok0];
      auto using eff_ok, prune_sessions_ok, initial_paths. }
  destruct (decide (Exists (λ x, writes_session (se_id s) (projT1 x.2)) (l2 ++ l3))) as [Hx|Hx].
  { by apply Exists_exists in Hx. }
  exfalso. assert (rtc step cb c') as Hcb' by by etrans. apply not_Exists_Forall in Hx; [|intros x; apply writes_session_dec].
  destruct (steps_answers key max_attempts lockout_duration instant_max limiter_key (session_revoked (tk_request tk) (se_id s))
    (shows_revoked (tk_request tk) (se_id s)) (λ o, ¬ writes_session (se_id s) o) cb c' (l2 ++ l3)) as [_ Hl]; try done.
  { intros o' db. apply revoked_stays. } { intros now batch db. apply revoked_prune. }
  { intros o' a' st st'. apply revoked_shown. }
  { rewrite E3, E, Ecb. by rewrite <-!app_assoc. }
  { by eapply revocation_enters. }
  destruct (admits_valid t s) as (e' & He' & Hseen & Hnr); [|done|].
  { eapply steps_paths; [exact Hs|exact Hp|exact Ht]. }
  assert ((i, e') ∈ l2 ++ l3) as Hin.
  { eapply steps_history; [exact Hcb'| | |exact Ht|exact He'].
    - rewrite E3, E, Ecb. by rewrite <-!app_assoc.
    - etrans; [|exact Hi]. by apply step_tasks. }
  by rewrite (proj1 (Forall_forall _ _) Hl _ Hin s Hseen eq_refl Hcov) in Hnr.
Qed.

(** ** Enrolments *)

(** A secret that was read belongs to the user it was read for. *)
Definition shows_owner (e : Ev) : Prop := ∀ uid s, seen_totp e = Some (uid, s) → ts_user_id s = uid.

Lemma owner_shown o a st st' : answers o st a st' → shows_owner (ev o a).
Proof.
  intros Ha uid s Hs. destruct o; try done. cbn in Hs. destruct a as [[w|]|]; simplify_eq/=.
  apply answers_no_fault in Ha as [Ha _]; [|by intros [? ?]]. cbn in Ha. unfold find_totp in Ha.
  destruct (totp_secrets _ !! uid) as [r|]; [|done]. unfold totp_to_domain in Ha.
  destruct (Nat.eqb _ _); [|done]. by injection Ha as ->.
Qed.

Definition owners_ok (c : Config) : Prop := ∀ i tk e, cf_tasks c !! i = Some tk → e ∈ tk_history tk → shows_owner e.

Lemma owners_step c c' : step c c' → owners_ok c → owners_ok c'.
Proof.
  intros Hs Hok. destruct Hs as [c r|c i tk o k a st' Hi Hl Hp Ha|c i tk Hi|c clock instant _|c batch]; try exact Hok;
    intros j t e; cbn [cf_tasks].
  - intros [Ht|[_ [_ <-]%list_lookup_singleton_Some]]%lookup_app_Some He; [by eapply Hok|by apply elem_of_nil in He].
  - intros [[-> ->]|[_ Ht]]%task_insert He; [|by eapply Hok].
    apply elem_of_app in He as [He| ->%list_elem_of_singleton]; [by eapply Hok|by eapply owner_shown].
  - intros [[-> ->]|[_ Ht]]%task_insert He; by eapply Hok.
Qed.

(** The stored secret is the one a code of the user was checked against. *)
Definition proven (c : Config) (uid : UserId) (r : TotpRow) : Prop :=
  ∃ i tk code ids blocks stored, cf_tasks c !! i = Some tk ∧ tk_request tk = RVerify2fa uid code ids blocks ∧
    enrolment_checked key uid code (tk_history tk) stored ∧
    ts_ciphertext stored = tr_ciphertext r ∧ ts_nonce stored = tr_nonce r.

Definition enrolled_in (db : Db) (uid : UserId) (r : TotpRow) : Prop :=
  ∃ u r0, users db !! uid = Some u ∧ ur_two_factor_enabled u = true ∧ totp_secrets db !! uid = Some r0 ∧
    tr_ciphertext r0 = tr_ciphertext r ∧ tr_nonce r0 = tr_nonce r.

Definition enrolments_ok (db0 : Db) (c : Config) : Prop :=
  ∀ uid u, users (cf_db c) !! uid = Some u → ur_two_factor_enabled u = true →
    ∃ r, totp_secrets (cf_db c) !! uid = Some r ∧ (enrolled_in db0 uid r ∨ proven c uid r).

Lemma proven_extends c c' uid r r' :
  extends c c' → tr_ciphertext r' = tr_ciphertext r → tr_nonce r' = tr_nonce r → proven c uid r → proven c' uid r'.
Proof.
  intros He Hc Hn (i & tk & code & ids & blocks & st & Hi & Hr & (Hf & pt & t & Hop & Ht & Hv) & Hct & Hno).
  destruct (He _ _ Hi) as (tk' & Hi' & Hr' & Hh). exists i, tk', code, ids, blocks, st.
  rewrite Hc, Hn. split_and!; try done; [by rewrite Hr'|]. split; [auto|]. exists pt, t. auto.
Qed.

(** Enabling names an enrolment that a code was checked against. *)
Lemma enable_proven c i tk e cs :
  owners_ok c → cf_tasks c !! i = Some tk → allowed key (tk_request tk) (tk_history tk) (OEnable e cs) →
  ∀ r, tr_ciphertext r = ts_ciphertext e → tr_nonce r = ts_nonce e → proven c (ts_user_id e) r.
Proof.
  intros Hown Hi Hall r Hc Hn. cbn in Hall. destruct (tk_request tk) as [| | | | | | | | | | | | |uid cd ids blocks| | |] eqn:Hr; try done.
  destruct Hall as [Hchk _].
  assert (ts_user_id e = uid) as ->. { destruct Hchk as [Hf _]. by apply (Hown _ _ _ Hi Hf). }
  exists i, tk, cd, ids, blocks, e. auto.
Qed.

Lemma enrolments_step db0 c c' :
  paths_ok c → owners_ok c → step c c' → enrolments_ok db0 c → enrolments_ok db0 c'.
Proof.
  intros Hp Hown Hs Hok. pose proof (step_extends _ _ Hs) as He.
  assert (∀ uid u r', users (cf_db c) !! uid = Some u → ur_two_factor_enabled u = true →
    (∀ r, totp_secrets (cf_db c) !! uid = Some r → tr_ciphertext r' = tr_ciphertext r ∧ tr_nonce r' = tr_nonce r) →
    enrolled_in db0 uid r' ∨ proven c' uid r') as Hkeep.
  { intros uid u r' Hu Htf Hr'. destruct (Hok _ _ Hu Htf) as (r & Hr & [(u0 & r0 & ? & ? & ? & E1 & E2)|Hpr]);
      destruct (Hr' _ Hr) as [Hc Hn].
    - left. exists u0, r0. by rewrite Hc, Hn.
    - right. by eapply proven_extends. }
  apply (step_db key) in Hs; [|done].
  destruct Hs as [i tk o k a Hi Hlv Hpr Hall [[Hdb _]|[Hdb _]] Htk Hlog|now batch Hdb Htk _|rq Hdb|i tk Hdb|Hdb];
    intros uid u' Hu' Htf'; unfold enrolments_ok in *; rewrite Hdb in *.
  2-6: destruct (Hok uid u' Hu' Htf') as (r & Hr & _); exists r; split; [exact Hr|]; eapply Hkeep; [exact Hu'|done|];
    by intros r0; rewrite Hr; intros [= <-].
  pose proof (totp_effect o (cf_db c) uid) as Ht.
  destruct (users_effect_inv _ _ _ _ Hu') as [(u & Hu & Hch)|(w & Hw & _ & _ & Hrow & _)].
  2: { apply allowed_call in Hall. apply user_row_two_factor in Hrow. destruct Hw as [-> | [-> _]]; cbn in Hall; congruence. }
  assert (ur_two_factor_enabled u = true ∨ ∃ e cs s, o = OEnable e cs ∧ ts_user_id e = uid ∧
    totp_secrets (cf_db c) !! uid = Some s ∧ tr_ciphertext s = ts_ciphertext e ∧ tr_nonce s = ts_nonce e) as [Htf|Hen].
  { inversion Hch; subst; cbn in *; auto. right. do 3 eexists. split_and!; eauto. }
  - destruct (Hok _ _ Hu Htf) as (r & Hr & _). rewrite Hr in Ht.
    inversion Ht as [|s cr u0 r0 -> Hid Hu0 Htf0|t r0 -> Hl|e r0 -> Hid (u0 & Hu0 & Htf0)]; subst; [| congruence | |congruence].
    + exists r. split; [done|]. eapply Hkeep; [done..|]. intros r0. rewrite Hr. by intros [= <-].
    + eexists. split; [done|]. eapply Hkeep; [done..|]. intros r0. rewrite Hr. by intros [= <-].
  - destruct Hen as (e & cs & s & -> & Hid & Hs & Hc & Hn). rewrite Hs in Ht.
    inversion Ht as [r0 E1 E2| | |]; subst; try done. exists s. split; [done|]. right.
    eapply proven_extends; [exact He|done..|]. by eapply enable_proven.
Qed.

(** C19: An enrolment is proven: in every run, whenever a user's second factor
    is enabled, the stored secret is the one it was enabled with at the start,
    or one that a verification command of that user read and checked a code
    against; no interleaving of setups and verifications enables a secret
    nobody proved to hold. *)
Theorem enrolment_proven db0 lim clk ins c uid u :
  tables_ok db0 → rtc step (initial db0 lim clk ins) c →
  users (cf_db c) !! uid = Some u → ur_two_factor_enabled u = true →
  ∃ r, totp_secrets (cf_db c) !! uid = Some r ∧ (enrolled_in db0 uid r ∨ proven c uid r).
Proof.
  intros H0 Hs. revert uid u. change (enrolments_ok db0 c).
  apply (steps_inv key max_attempts lockout_duration instant_max limiter_key
    (λ c, owners_ok c ∧ enrolments_ok db0 c) (initial db0 lim clk ins)); [|apply initial_paths|done|].
  - intros c1 c2 Hp Hst [Ho He]. split; [by eapply owners_step|by eapply enrolments_step].
  - split; [by intros ? ? ?|]. intros uid u Hu Htf. destruct (to_enrolled _ H0 _ _ Hu Htf) as [r Hr].
    exists r. split; [done|]. left. by exists u, r.
Qed.

(** ** The first administrator *)

Lemma bootstrapped_inv o a st st' :
  answers o st a st' → bootstrapped (ev o a) = true → users (st_db st) = ∅ ∧ users (st_db st') ≠ ∅.
Proof.
  intros Ha Hb. destruct o; try done. cbn in Hb. destruct a as [[]|]; [|done].
  apply answers_no_fault in Ha as [Ha Hdb]; [|by intros [? ?]]. rewrite Hdb. cbn in *.
  unfold on_db, create_if_empty in *. destruct (user_row u); [|done].
  destruct (bool_decide (users (st_db st) = ∅)) eqn:He; [|done]. apply bool_decide_eq_true in He.
  split; [done|]. cbn. apply insert_non_empty.
Qed.

Lemma nonempty_stays o db : users db ≠ ∅ → users (eff o db) ≠ ∅.
Proof.
  intros Hne H. apply Hne, map_eq. intros uid. rewrite lookup_empty.
  pose proof (users_effect o db uid) as Hc. rewrite H, lookup_empty in Hc. by inversion Hc.
Qed.

Definition permit_ok (c : Config) : Prop :=
  (∀ i tk, cf_tasks c !! i = Some tk → tk_live tk = true → in_setup (tk_history tk) → tk_holds tk = true) ∧
  (∀ i tk, cf_tasks c !! i = Some tk → tk_holds tk = true → st_permit (cf_st c) = false) ∧
  (∀ i j ti tj, cf_tasks c !! i = Some ti → cf_tasks c !! j = Some tj →
     tk_holds ti = true → tk_holds tj = true → i = j).

Lemma exec_permit o st :
  st_permit (exec' o st).2 =
    match o with OAcquireSetup => false | OReleaseSetup => true | _ => st_permit st end.
Proof.
  destruct o; try done; cbn; unfold on_db; try by destruct (_ (st_db st)).
  all: try by destruct (RateLimiter.check _ _ _ _ _ _).
  all: try by destruct (_ _ (st_db st)).
  all: by destruct (_ _ _ (st_db st)).
Qed.

Lemma answers_permit o st a st' :
  answers o st a st' →
  match o with
  | OAcquireSetup => st_permit st = true ∧ st_permit st' = false
  | OReleaseSetup => st_permit st' = true
  | _ => st_permit st' = st_permit st
  end.
Proof.
  intros Ha. pose proof (exec_permit o st) as Hx.
  destruct Ha as [a st' Hr He|a Hf|a Hf]; [rewrite He in Hx|..]; destruct o; try done; auto.
Qed.

Lemma in_setup_snoc h o a :
  in_setup (h ++ [ev o a]) → match o with OAcquireSetup => True | OReleaseSetup => False | _ => in_setup h end.
Proof.
  intros [Ha Hr]. rewrite elem_of_app, list_elem_of_singleton in Ha, Hr.
  destruct o; try exact I; try (split; [destruct Ha; [done|discriminate]|tauto]).
  destruct a. tauto.
Qed.

Lemma permit_step c c' : paths_ok c → step c c' → permit_ok c → permit_ok c'.
Proof.
  intros Hp Hs (H1 & H2 & H3).
  destruct Hs as [c r|c i tk o k a st' Hi Hl Hpr Ha|c i tk Hi|c clock instant _|c batch]; try exact (conj H1 (conj H2 H3));
    unfold permit_ok; cbn [cf_tasks cf_st].
  - assert (∀ j t, (cf_tasks c ++ [spawn key r]) !! j = Some t → cf_tasks c !! j = Some t ∨ t = spawn key r) as Hinv.
    { intros j t [Ht|[_ [_ <-]%list_lookup_singleton_Some]]%lookup_app_Some; auto. }
    split_and!.
    + intros j t [Ht| ->]%Hinv Hlv Hin; [by eauto|]. destruct Hin as [Hin _]. by apply elem_of_nil in Hin.
    + intros j t [Ht| ->]%Hinv; [by eauto|done].
    + intros j1 j2 t1 t2 [Ht1| ->]%Hinv [Ht2| ->]%Hinv; try done. eauto.
  - assert (tk_holds tk = true → ∀ j t, cf_tasks c !! j = Some t → tk_holds t = true → j = i) as Huniq
      by (intros Hh j t Hj Ht; by eapply H3).
    pose proof (Hp _ _ Hi) as Hpath. unfold on_path in Hpath. rewrite Hpr in Hpath. destruct Hpath as [Hall _].
    pose proof (answers_permit _ _ _ _ Ha) as Hperm. split_and!.
    + intros j t [[-> ->]|[_ Ht]]%task_insert Hlv Hin; [|by eauto]. cbn in *. apply in_setup_snoc in Hin.
      destruct o; try done; by eapply H1.
    + intros j t [[-> ->]|[Hne Ht]]%task_insert Hh; cbn in Hh.
      * destruct o; cbn in *; try done; try (rewrite Hperm; by eauto). by destruct Hperm.
      * destruct o; cbn in *; try (rewrite Hperm; by eauto); [by destruct Hperm|].
        destruct Hne. eapply Huniq; eauto.
    + assert (∀ j t, j ≠ i → cf_tasks c !! j = Some t → tk_holds t = true → holds_after o (tk_holds tk) = true → False) as Hx.
      { intros j t Hne Ht Hh Hi'. destruct o; cbn in *; try done; try (by destruct Hne; eapply Huniq).
        destruct Hperm as [Hperm _]. rewrite (H2 _ _ Ht Hh) in Hperm. done. }
      intros j1 j2 t1 t2 [[-> ->]|[Hn1 Ht1]]%task_insert [[-> ->]|[Hn2 Ht2]]%task_insert Hh1 Hh2; cbn in *; [done|..].
      * by destruct (Hx j2 t2).
      * by destruct (Hx j1 t1).
      * eauto.
  - split_and!.
    + intros j t [[-> ->]|[_ Ht]]%task_insert Hlv Hin; [done|by eauto].
    + intros j t [[-> ->]|[Hne Ht]]%task_insert Hh; [done|]. destruct (tk_holds tk) eqn:Hk; [|by eauto].
      destruct Hne. by eapply H3.
    + intros j1 j2 t1 t2 [[-> ->]|[Hn1 Ht1]]%task_insert [[-> ->]|[Hn2 Ht2]]%task_insert Hh1 Hh2; try done. eauto.
Qed.

(** The server is set up once: in every run at most one command creates
    the first administrator, none does when users exist, every user it creates
    was validated and carries the hash of the given password, and of all the
    setup commands running at any time at most one is hashing, and only after
    it saw the table empty. *)
Theorem setup_once db0 lim clk ins c :
  rtc step (initial db0 lim clk ins) c →
  (∀ l1 i e1 l2 j e2 l3, cf_log c = l1 ++ (i, e1) :: l2 ++ (j, e2) :: l3 →
     bootstrapped e1 = true → bootstrapped e2 = false) ∧
  (users db0 ≠ ∅ → ∀ i e, (i, e) ∈ cf_log c → bootstrapped e = false) ∧
  (∀ i tk u k, cf_tasks c !! i = Some tk → tk_prog tk = Call (OCreateIfEmpty u) k →
     ∃ id salt name pw, tk_request tk = RSetupAdmin id salt name pw ∧ new_user id salt name pw Admin (tk_history tk) u) ∧
  (∀ i j ti tj s1 p1 k1 s2 p2 k2, cf_tasks c !! i = Some ti → cf_tasks c !! j = Some tj →
     tk_live ti = true → tk_live tj = true → tk_prog ti = Call (OHash s1 p1) k1 → tk_prog tj = Call (OHash s2 p2) k2 →
     (∃ a b d e, tk_request ti = RSetupAdmin a b d e) → (∃ a b d e, tk_request tj = RSetupAdmin a b d e) →
     i = j ∧ saw_no_users (tk_history ti)).
Proof.
  intros Hs. assert (paths_ok c) as Hp by (eapply steps_paths; [exact Hs|apply initial_paths]). split_and!.
  - intros l1 i e1 l2 j e2 l3 E H1. destruct (bootstrapped e2) eqn:H2; [|done].
    destruct (once (λ e, bootstrapped e = true) (λ e, bootstrapped e = true) (λ _, false) (λ db, users db ≠ ∅))
      with (c0 := initial db0 lim clk ins) (c := c) (l1 := l1) (i := i) (e1 := e1) (l2 := l2) (j := j) (e2 := e2) (l3 := l3)
      as (x & _ & Hx); try done.
    + intros o a st st' Ha Hb. by destruct (bootstrapped_inv _ _ _ _ Ha Hb).
    + intros o a db _. apply nonempty_stays.
    + intros o a st st' Ha HB Hb. by destruct (bootstrapped_inv _ _ _ _ Ha Hb).
  - intros Hne i e He. destruct (steps_log _ _ _ _ _ _ _ Hs) as (l & El). cbn in El.
    destruct (steps_answers key max_attempts lockout_duration instant_max limiter_key (λ db, users db ≠ ∅)
      (λ e, bootstrapped e = false) (λ _, True) (initial db0 lim clk ins) c l) as [_ Hl]; try done.
    { intros o db _ _. apply nonempty_stays. }
    { intros o a st st' Ha HB. destruct (bootstrapped (ev o a)) eqn:Hb; [|done].
      by destruct (bootstrapped_inv _ _ _ _ Ha Hb). }
    { by apply Forall_true. }
    rewrite El in He. by apply (proj1 (Forall_forall _ _) Hl (i, e)).
  - intros i tk u k Hi Hpr. specialize (Hp _ _ Hi). unfold on_path in Hp. rewrite Hpr in Hp. destruct Hp as [Hall _].
    cbn in Hall. destruct (tk_request tk); try done. destruct Hall as [_ Hall]. eauto 10.
  - assert (permit_ok c) as (H1 & _ & H3).
    { apply (steps_inv key max_attempts lockout_duration instant_max limiter_key permit_ok (initial db0 lim clk ins));
        [apply permit_step|apply initial_paths|done|]. split_and!; by intros. }
    assert (∀ i t s p k, cf_tasks c !! i = Some t → tk_prog t = Call (OHash s p) k →
      (∃ a b d e, tk_request t = RSetupAdmin a b d e) → saw_no_users (tk_history t) ∧ in_setup (tk_history t)) as Hall.
    { intros i t s p k Hi Hpr (a & b & d & e & Hr). specialize (Hp _ _ Hi). unfold on_path in Hp.
      rewrite Hpr, Hr in Hp. apply Hp. }
    intros i j ti tj s1 p1 k1 s2 p2 k2 Hi Hj Hli Hlj Hpi Hpj Hri Hrj.
    destruct (Hall _ _ _ _ _ Hi Hpi Hri) as [Hsaw Hin1], (Hall _ _ _ _ _ Hj Hpj Hrj) as [_ Hin2].
    split; [|done]. eapply H3; eauto.
Qed.

End theorems.

(** ** Witnesses *)

Section witnesses.
Import AuthDemo.

Abbreviation demo_step := (AuthSteps.step key 5 900000000000 (2 ^ 100) digest).

Lemma run_steps l : rtc demo_step start (run_acts l).
Proof. apply acts_steps. Qed.

Lemma demo_tables : tables_ok db0.
Proof.
  split; cbn.
  - intros a b ra rb Ha Hb. rewrite lookup_insert_Some, lookup_singleton_Some in Ha, Hb. naive_solver.
  - intros a s H. by rewrite lookup_empty in H.
  - intros a b sa sb H. by rewrite lookup_empty in H.
  - intros uid r [<- _]%lookup_singleton_Some. by eexists.
  - intros uid u. rewrite lookup_insert_Some, lookup_singleton_Some.
    intros [[<- <-]|[_ [<- <-]]]; [done|]. intros _. by eexists.
  - intros a c [<- <-]%lookup_singleton_Some. split; [done|by eexists].
  - intros a b ca cb [<- _]%lookup_singleton_Some [<- _]%lookup_singleton_Some. done.
Qed.

Definition two_codes : Config := run_acts [AServe (totp_bob 102 "b"); AClock (clock0 + 60000000000); AServe (totp_bob 103 "c")].
Definition two_recoveries : Config := run_acts [AServe (recover_bob 104 "d"); AServe regenerate_bob; AServe recover_bob_again].

Lemma log_split {X} (l : list X) m n x y :
  l !! m = Some x → l !! (S m + n)%nat = Some y →
  l = take m l ++ x :: take n (drop (S m) l) ++ y :: drop (S n) (drop (S m) l).
Proof.
  intros Hx Hy. rewrite <-lookup_drop in Hy. rewrite (take_drop_middle _ _ _ Hy). by rewrite take_drop_middle.
Qed.

Lemma totp_never_replayed_witness :
  ∃ i e1 j e2 uid t1 t2, cf_log two_codes !! 6 = Some (i, e1) ∧ cf_log two_codes !! 18 = Some (j, e2) ∧
    burned e1 = Some (uid, t1) ∧ burned e2 = Some (uid, t2) ∧
    ((t1 < t2)%N ∨ ∃ x, x ∈ take 11 (drop 7 (cf_log two_codes)) ∧ resets uid x.2 = true).
Proof.
  do 7 eexists. split; [vm_compute; reflexivity|]. split; [vm_compute; reflexivity|].
  split; [reflexivity|]. split; [reflexivity|].
  eapply (proj2 (totp_never_replayed key 5 900000000000 (2 ^ 100) digest db0 (RateLimiter.mkState ∅ 0) clock0 0 two_codes (run_steps _))
    (take 6 (cf_log two_codes)) _ _ _ _ _ _);
    [apply (log_split _ 6 11); vm_compute; reflexivity|reflexivity|reflexivity].
Defined.

Lemma recovery_code_used_once_witness :
  ∃ i e1 j e2, cf_log two_recoveries !! 7 = Some (i, e1) ∧ cf_log two_recoveries !! 31 = Some (j, e2) ∧
    consumed e1 = Some 7%N ∧ consumed e2 = Some 7%N ∧
    ∃ x, x ∈ take 23 (drop 8 (cf_log two_recoveries)) ∧ reissues 7 x.2 = true.
Proof.
  do 4 eexists. split; [vm_compute; reflexivity|]. split; [vm_compute; reflexivity|].
  split; [reflexivity|]. split; [reflexivity|].
  eapply (recovery_code_used_once key 5 900000000000 (2 ^ 100) digest start two_recoveries
    (take 7 (cf_log two_recoveries)) _ _ _ _ _ _);
    [reflexivity|apply run_steps|apply (log_split _ 7 23); vm_compute; reflexivity|reflexivity|reflexivity].
Defined.

Lemma auth_tables_invariant_witness : tables_ok (cf_db two_recoveries).
Proof.
  apply (auth_tables_invariant key 5 900000000000 (2 ^ 100) digest db0); [apply demo_tables|].
  exists (RateLimiter.mkState ∅ 0), clock0, 0%N. apply run_steps.
Defined.

Lemma sessions_are_earned_witness :
  ∃ s, sessions (cf_db two_codes) !! 103%N = Some s ∧
    ((∃ s0, sessions db0 !! 103%N = Some s0 ∧ (s = s0 ∨ s = session_revoke s0)) ∨ earned key two_codes s).
Proof.
  eexists. split; [vm_compute; reflexivity|].
  apply (sessions_are_earned key 5 900000000000 (2 ^ 100) digest db0 (RateLimiter.mkState ∅ 0) clock0 0 two_codes 103);
    [apply run_steps|vm_compute; reflexivity].
Defined.

(** Bob is disabled by Alice, then shows his session and logs in again. *)
Definition bob_session : string := "6272616E646F6D206279746573".
Definition before_disable : list Act := [AServe (totp_bob 102 "b"); AServe (RDisableUser 1 2)].
Definition after_disable : list Act := [AServe (RAuthenticate bob_session); AServe (recover_bob 104 "d")].

Lemma run_acts_app l l' : rtc demo_step (run_acts l) (run_acts (l ++ l')).
Proof. unfold run_acts, acts. rewrite foldl_app. apply acts_steps. Qed.

Lemma disabled_locked_out_witness :
  user_disabled 2 (cf_db (run_acts before_disable)) ∧ user_disabled 2 (cf_db (run_acts (before_disable ++ after_disable))).
Proof.
  assert (user_disabled 2 (cf_db (run_acts before_disable))) as Hd by (eexists; split; vm_compute; reflexivity).
  split; [exact Hd|].
  apply (disabled_locked_out key 5 900000000000 (2 ^ 100) digest db0 (RateLimiter.mkState ∅ 0) clock0 0
    (run_acts before_disable)); [apply run_steps|exact Hd|apply run_acts_app].
Defined.

(** Alice logs in, logs out and shows the session again. *)
Definition before_logout : list Act := [AServe login_alice; AServe (RLogout 101)].
Definition after_logout : list Act := [AServe (RAuthenticate "6172616E646F6D206279746573")].

Lemma revocation_final_witness :
  ∃ l1 e l2 l3, cf_log (run_acts before_logout) = l1 ++ (1, e) :: l2 ∧
    cf_log (run_acts (before_logout ++ after_logout)) = cf_log (run_acts before_logout) ++ l3 ∧ revocation (RLogout 101) e.
Proof.
  destruct (cf_tasks (run_acts before_logout) !! 1) as [tk|] eqn:Htk; [|vm_compute in Htk; discriminate Htk].
  assert (tk_request <$> cf_tasks (run_acts before_logout) !! 1 = Some (RLogout 101)) as Hr by (vm_compute; reflexivity).
  assert (tk_prog <$> cf_tasks (run_acts before_logout) !! 1 = Some (Ret (OutUnit (Ok ())))) as Hp by (vm_compute; reflexivity).
  rewrite Htk in Hr, Hp. cbn in Hr, Hp. injection Hr as Hr. injection Hp as Hp.
  destruct (revocation_final key 5 900000000000 (2 ^ 100) digest db0 (RateLimiter.mkState ∅ 0) clock0 0
    (run_acts before_logout) (run_acts (before_logout ++ after_logout)) 1 tk demo_tables (run_steps _) Htk)
    as (l1 & e & l2 & l3 & H1 & H2 & H3 & _).
  - rewrite Hr. reflexivity.
  - exact Hp.
  - apply run_acts_app.
  - exists l1, e, l2, l3. rewrite Hr in H3. split; [exact H1|]. split; [exact H2|exact H3].
Defined.

Definition enrolled : Config := run_acts [AServe setup_alice; AServe verify_alice].

Lemma enrolment_proven_witness :
  ∃ u, users (cf_db enrolled) !! 1%N = Some u ∧ ur_two_factor_enabled u = true ∧
    ∃ r, totp_secrets (cf_db enrolled) !! 1%N = Some r ∧ (enrolled_in db0 1 r ∨ proven key enrolled 1 r).
Proof.
  eexists. split; [vm_compute; reflexivity|]. split; [reflexivity|].
  eapply (enrolment_proven key 5 900000000000 (2 ^ 100) digest db0 (RateLimiter.mkState ∅ 0) clock0 0 enrolled 1);
    [apply demo_tables|apply run_steps|vm_compute; reflexivity|reflexivity].
Defined.

(** Two setups of an empty installation. *)
Definition two_setups : Config :=
  acts key 5 900000000000 (2 ^ 100) digest [AServe (setup_root 1); AServe (setup_root 2)] empty_start.

Lemma setup_once_witness :
  existsb (λ x, bootstrapped x.2) (cf_log two_setups) = true ∧
  ∀ l1 i e1 l2 j e2 l3, cf_log two_setups = l1 ++ (i, e1) :: l2 ++ (j, e2) :: l3 →
    bootstrapped e1 = true → bootstrapped e2 = false.
Proof.
  split; [vm_compute; reflexivity|].
  apply (setup_once key 5 900000000000 (2 ^ 100) digest (mkDb ∅ ∅ ∅ ∅) (RateLimiter.mkState ∅ 0) clock0 0 two_setups).
  apply acts_steps.
Defined.

End witnesses.
End AuthTheorems.
