(* ===== verification/AuthLogin.v ===== *)
(** * Logging in, step by step

    The challenge token as a codec with a lifetime, the answers of a login
    that fails, and the second step of a login as a whole: with the right code
    it always lets the user in, and the session it gives authenticates. *)

From Stdlib Require Import Ascii.
From S2P Require Import Prelude Kernel Text UrlText UrlInstance Crypto Source RateLimiter.
Import Text UrlText Crypto Source.
From S2P Require Import Subscription Auth AuthCommands AuthSteps AuthInv.
From S2P Require Import AuthTheorems.
Import Auth AuthCommands AuthSteps AuthTheorems.

Module AuthLogin.

Section login.
Context `{L : UrlLib} `{C : CryptoLib} `{A : AuthLib}.
Context {HL : UrlLaws L} {HC : CryptoLaws C} {HA : AuthLaws A}.
Variable key : string.

(** ** The challenge token *)

Lemma hmac_digest_no_dot purpose value : lacks "." (hmac_digest purpose value key).
Proof.
  unfold lacks, hmac_digest. eapply all_chars_impl; [|apply (base64_alphabet URL_SAFE_NO_PAD)].
  intros c. by_ascii c.
Qed.

Lemma rsplit_once_inv c s a b : rsplit_once c s = Some (a, b) → s = a +:+ String c b.
Proof.
  revert a b. induction s as [|d s IH]; intros a b; cbn; [done|].
  destruct (rsplit_once c s) as [[a' b']|] eqn:E.
  - intros [= <- <-]. cbn. by rewrite (IH _ _ eq_refl).
  - destruct (Ascii.eqb c d) eqn:Hc; [|done]. apply Ascii.eqb_eq in Hc as ->. by intros [= <- <-].
Qed.

Lemma unix_timestamp_add t n : unix_timestamp (t + n * 1000000000) = (unix_timestamp t + n)%Z.
Proof. unfold unix_timestamp. by rewrite Z.div_add. Qed.

(** A challenge issued at one time still lives at another. *)
Definition challenge_lives (issued now : Z) : bool := Z.ltb (unix_timestamp now) (unix_timestamp issued + 300).

Lemma verify_issued issued uid token now :
  (uid < 2 ^ 128)%N → generate_challenge_token issued uid key = Ok token →
  verify_challenge_token now token key =
    Ok (if Z.ltb (unix_timestamp now) (unix_timestamp issued + 300) then Some uid else None).
Proof.
  intros Huid (json & Hj & [= <-])%result_bind_Ok.
  destruct (payload_json _ _) as [js|] eqn:Hp; [|done]. injection Hj as ->. unfold verify_challenge_token.
  set (pl := base64_encode _ _). set (sg := hmac_digest _ _ _).
  change (pl +:+ "." +:+ sg) with (pl +:+ String "."%char sg).
  rewrite (rsplit_once_app "."%char) by apply hmac_digest_no_dot. rewrite String.eqb_refl. subst pl.
  cbn [negb]. rewrite base64_roundtrip. cbn [ok_or result_bind]. rewrite (payload_roundtrip _ _ _ Hp).
  cbn [map_err result_bind]. rewrite unix_timestamp_add. unfold challenge_ttl_secs.
  destruct (Z.leb_spec (unix_timestamp issued + 300) (unix_timestamp now)),
    (Z.ltb_spec (unix_timestamp now) (unix_timestamp issued + 300)); try lia; [done|]. by rewrite id_roundtrip.
Qed.

(** A challenge token names its user for five minutes: the token issued for
    a user is accepted for exactly that user while fewer than 300 seconds of
    the clock have passed and never later, and any token that is accepted is a
    payload with an expiry in the future under the keyed digest of that
    payload. *)
Theorem challenge_window issued now uid :
  (uid < 2 ^ 128)%N →
  (∃ token, generate_challenge_token issued uid key = Ok token ∧
     verify_challenge_token now token key =
       Ok (if challenge_lives issued now then Some uid else None)) ∧
  ∀ token u, verify_challenge_token now token key = Ok (Some u) →
    ∃ payload bytes text exp,
      token = payload +:+ "." +:+ hmac_digest purpose_challenge payload key ∧
      base64_decode URL_SAFE_NO_PAD payload = Some bytes ∧ payload_from_slice bytes = Ok (text, exp) ∧
      id_parse text = Ok u ∧ (unix_timestamp now < exp)%Z.
Proof.
  intros Huid. split.
  - destruct (payload_total (id_display uid) (unix_timestamp (issued + challenge_ttl_secs * 1000000000))) as (json & Hj).
    eexists. assert (generate_challenge_token issued uid key = Ok _) as Hg
      by (unfold generate_challenge_token; rewrite Hj; reflexivity).
    split; [exact Hg|]. by apply (verify_issued issued).
  - intros token u. unfold verify_challenge_token. destruct (rsplit_once _ token) as [[p sg]|] eqn:Hs; [|done].
    destruct (String.eqb sg _) eqn:He; cbn; [|done]. apply String.eqb_eq in He as ->.
    intros (bytes & Hb%ok_or_Ok & H)%result_bind_Ok. apply result_bind_Ok in H as ([text exp] & Hp & H).
    destruct (payload_from_slice bytes) as [q|] eqn:Hq; [|done]. injection Hp as ->.
    destruct (Z.leb_spec exp (unix_timestamp now)); [done|].
    apply result_bind_Ok in H as (id & Hid & [= <-]). destruct (id_parse text) eqn:Ht; [|done]. injection Hid as ->.
    exists p, bytes, text, exp. split_and!; try done. by apply rsplit_once_inv in Hs.
Qed.

(** ** Failed logins *)

Variables (max_attempts lockout_duration instant_max : N).
Variable limiter_key : string → N.
Abbreviation run := (AuthCommands.run max_attempts lockout_duration instant_max limiter_key).

(** The attempt is to be turned away: no such user, a wrong password, or an
    inactive account. *)
Definition turned_away (p : LoginParams) (st : St) : Prop :=
  match find_user_by_username (l_username p) (st_db st) with
  | Ok None => phc_parse dummy_password_hash = None
  | Ok (Some u) => phc_parse (u_password_hash u) = None ∧
      (argon2_verify (l_password p) (u_password_hash u) = false ∨ is_active_at u (st_clock st) = false)
  | Err _ => False
  end.

Definition after_failure (p : LoginParams) (st : St) : Result AuthError LoginOutcome * RateLimiter.State :=
  match validate_credentials (l_username p) (l_password p) with
  | Err e => (Err e, st_limiter st)
  | Ok _ =>
      match RateLimiter.check instant_max limiter_key (st_limiter st) (st_instant st) (l_username p) (l_ip p) with
      | (l, Err _) => (Err RateLimited, l)
      | (l, Ok _) =>
          (Err InvalidCredentials,
           RateLimiter.record_failure max_attempts lockout_duration instant_max limiter_key l (st_instant st)
             (l_username p) (l_ip p))
      end
  end.

Lemma login_turned_away p st :
  turned_away p st →
  (run (login key p) st).1 = (after_failure p st).1 ∧
  st_limiter (run (login key p) st).2 = (after_failure p st).2 ∧ st_db (run (login key p) st).2 = st_db st.
Proof.
  unfold turned_away, after_failure, login. intros Ht.
  destruct (validate_credentials _ _) as [[]|e]; [|done]. cbn.
  destruct (RateLimiter.check _ _ _ _ _ _) as [lim [[]|e]] eqn:Hck; cbn; [|done].
  destruct (find_user_by_username (l_username p) (st_db st)) as [[u|]|e] eqn:Hf; [| |done]; cbn.
  - destruct Ht as [Hp Ht]. unfold verify_password. rewrite Hp. cbn.
    destruct (argon2_verify _ _); cbn; [|done]. destruct Ht as [|Ht]; [done|]. by rewrite Ht.
  - unfold verify_password. by rewrite Ht.
Qed.

(** A failed login does not tell why: whether the user does not exist, the
    password is wrong or the account is inactive, the caller gets the same
    answer, the limiter ends in the same state and the tables are left
    alone. *)
Theorem rejections_alike p st1 st2 :
  st_limiter st1 = st_limiter st2 → st_instant st1 = st_instant st2 → turned_away p st1 → turned_away p st2 →
  (run (login key p) st1).1 = (run (login key p) st2).1 ∧
  st_limiter (run (login key p) st1).2 = st_limiter (run (login key p) st2).2 ∧
  st_db (run (login key p) st1).2 = st_db st1 ∧ st_db (run (login key p) st2).2 = st_db st2 ∧
  (is_ok (run (login key p) st1).1 = false).
Proof.
  intros Hl Hi H1 H2. destruct (login_turned_away _ _ H1) as (-> & -> & ->), (login_turned_away _ _ H2) as (-> & -> & ->).
  unfold after_failure. rewrite Hl, Hi. split_and!; try done.
  destruct (validate_credentials _ _); [|done]. by destruct (RateLimiter.check _ _ _ _ _ _) as [? [|]].
Qed.

(** ** The second step *)

Lemma run_bind {X Y} (p : Prog X) (f : X → Prog Y) st :
  run (bind p f) st = let '(x, st') := run p st in run (f x) st'.
Proof. revert st. induction p as [x|o k IH]; intros st; cbn; [done|]. destruct (exec _ _ _ _ o st). apply IH. Qed.

Lemma run_try {X Y} (p : M X) (f : X → M Y) st x st' :
  run p st = (Ok x, st') → run (try p f) st = run (f x) st'.
Proof. intros H. unfold try. by rewrite run_bind, H. Qed.

(** The user's secret accepts the code at a step after the last one used. *)
Record code_accepted (uid : UserId) (code : string) (st : St) (t : N) (r : TotpRow) : Prop := {
  ca_form : is_totp_code code = true;
  ca_row : totp_secrets (st_db st) !! uid = Some r;
  ca_nonce : String.length (tr_nonce r) = 24;
  ca_match : ∃ c plaintext, parse_unsigned u32_max code = Some c ∧
    open_parts key totp_aad_context (tr_ciphertext r) (tr_nonce r) = Ok plaintext ∧
    verify_code_timestep (unix_u64 (st_clock st)) plaintext c = Some t;
  ca_range : (t ≤ i64_max)%N;
  ca_fresh : ∀ l, tr_last_used_timestep r = Some l → (l < Z.of_N t)%Z
}.

Definition claimed (uid : UserId) (t : N) (r : TotpRow) (st : St) : St :=
  with_db (with_totp (<[uid := mkTotpRow (tr_ciphertext r) (tr_nonce r) (tr_created_at r) (Some (Z.of_N t))]>
                        (totp_secrets (st_db st))) (st_db st)) st.

Lemma second_factor_accepts uid code st t r :
  code_accepted uid code st t r → run (second_factor key uid code) st = (Ok (true, None), claimed uid t r st).
Proof.
  intros [Hform Hrow Hn (c & pt & Hc & Hop & Hv) Hr Hf]. unfold second_factor. rewrite Hform.
  erewrite run_try by (unfold some_or; rewrite Hc; reflexivity).
  erewrite run_try.
  2: { cbn. unfold find_totp, totp_to_domain. by rewrite Hrow, (proj2 (Nat.eqb_eq _ _) Hn). }
  erewrite run_try by reflexivity. cbn [ts_ciphertext ts_nonce].
  erewrite run_try by (rewrite Hop; reflexivity). erewrite run_try by reflexivity. cbn [st_clock].
  rewrite Hv. erewrite run_try; [reflexivity|]. cbn. unfold on_db, record_used_timestep.
  rewrite (proj2 (N.ltb_ge _ _) Hr), Hrow.
  destruct (tr_last_used_timestep r) as [l|] eqn:Hl; [|done]. by rewrite (proj2 (Z.ltb_lt _ _) (Hf l eq_refl)).
Qed.

Lemma find_by_token_hash_insert m sid s h db :
  sessions db = <[sid := s]> m → m !! sid = None → token_taken h m = false → se_token_hash s = h →
  find_by_token_hash h db = Some s.
Proof.
  intros Hs Hn Ht Hh. unfold find_by_token_hash. rewrite Hs.
  destruct (filter _ _) as [|[k w] l] eqn:E.
  - assert ((sid, s) ∈ filter (λ kv : N * Session, se_token_hash kv.2 = h) (map_to_list (<[sid := s]> m))) as Hin.
    { apply list_elem_of_filter. split; [done|]. apply elem_of_map_to_list, lookup_insert_eq. }
    rewrite E in Hin. by apply elem_of_nil in Hin.
  - assert ((k, w) ∈ filter (λ kv : N * Session, se_token_hash kv.2 = h) (map_to_list (<[sid := s]> m))) as Hin
      by (rewrite E; left).
    apply list_elem_of_filter in Hin as [Hw [[<- <-]|[_ Hk]]%elem_of_map_to_list%lookup_insert_Some]; [done|].
    by destruct (AuthInv.taken_false se_token_hash _ _ _ _ Ht Hk).
Qed.

(** The session a login can store: a fresh identifier and token, times that
    can be written. *)
Record session_fits (sid : N) (bytes : string) (ttl : Z) (st : St) (created expires : Z) : Prop := {
  sf_id : sessions (st_db st) !! sid = None;
  sf_token : token_taken (hmac_digest purpose_session (base64_encode URL_SAFE_NO_PAD bytes) key) (sessions (st_db st)) = false;
  sf_created : format_ts (st_clock st) = Ok created;
  sf_expires : format_ts (st_clock st + ttl) = Ok expires
}.

Definition new_row (sid uid : N) (bytes : string) (created expires : Z) : Session :=
  mkSession sid uid (hmac_digest purpose_session (base64_encode URL_SAFE_NO_PAD bytes) key) created expires false.

Definition logged_in (uid : UserId) (row : UserRow) (s : Session) (created : Z) (db : Db) : Db :=
  mkDb (<[uid := row_last_login created row]> (users db)) (<[se_id s := s]> (sessions db)) (totp_secrets db) (recovery_codes db).

Lemma login_tail sid bytes ttl st created expires uid row :
  session_fits sid bytes ttl st created expires → users (st_db st) !! uid = Some row →
  let s := session_new sid (st_clock st) uid (hmac_digest purpose_session (base64_encode URL_SAFE_NO_PAD bytes) key)
             (st_clock st + ttl) in
  create_session s (st_db st) = (Ok (), with_sessions (<[sid := new_row sid uid bytes created expires]> (sessions (st_db st))) (st_db st)) ∧
  update_last_login uid (st_clock st) (with_sessions (<[sid := new_row sid uid bytes created expires]> (sessions (st_db st))) (st_db st))
  = (Ok (), logged_in uid row (new_row sid uid bytes created expires) created (st_db st)).
Proof.
  intros [Hid Htok Hcr Hex] Hu s. split.
  - unfold create_session, insert_session, ts. cbn. rewrite Hcr, Hex. cbn. rewrite Hid, Htok, Hu. done.
  - unfold update_last_login, ts. rewrite Hcr. cbn. unfold set_user. cbn. by rewrite Hu.
Qed.

(** The session row a login stored authenticates. *)
Lemma authenticates uid row u sid bytes created expires st :
  let s := new_row sid uid bytes created expires in
  users (st_db st) !! uid = Some row → user_to_domain uid row = Ok u → is_active_at u (st_clock st) = true →
  find_by_token_hash (se_token_hash s) (st_db st) = Some s → (st_clock st < expires)%Z →
  run (authenticate_session key (base64_encode URL_SAFE_NO_PAD bytes)) st = (Ok (Some (u, s)), st).
Proof.
  intros s Hu Hd Ha Hf Hx. unfold authenticate_session, verify_session.
  assert (is_valid_at s (st_clock st) = true) as Hv by (unfold is_valid_at; cbn; by apply Z.ltb_lt).
  erewrite run_try.
  2: { erewrite run_try; [|cbn; unfold query; cbn in Hf; rewrite Hf; reflexivity].
       erewrite run_try by reflexivity. cbn [run]. rewrite Hv. reflexivity. }
  cbv iota. change (se_user_id s) with uid. erewrite run_try.
  2: { cbn. unfold query, find_user_by_id. cbn. rewrite Hu. cbn. rewrite Hd. reflexivity. }
  erewrite run_try by reflexivity. erewrite run_try by reflexivity. cbn [run st_clock]. by rewrite Ha.
Qed.

(** What the second step leaves behind. *)
Definition after_second_step (p : Login2faParams) (st : St) (lim : RateLimiter.State) (u : User) (row : UserRow)
    (t : N) (r : TotpRow) (bytes : string) (created expires : Z) : St :=
  let st2 := claimed (u_id u) t r (with_limiter lim st) in
  with_limiter (RateLimiter.record_success limiter_key lim (u_username u))
    (with_db (logged_in (u_id u) row (new_row (f_session_id p) (u_id u) bytes created expires) created (st_db st2)) st2).

Lemma login_2fa_runs p st u row lim t r bytes created expires :
  verify_challenge_token (st_clock st) (f_challenge_token p) key = Ok (Some (u_id u)) →
  users (st_db st) !! u_id u = Some row → user_to_domain (u_id u) row = Ok u → is_active_at u (st_clock st) = true →
  RateLimiter.check instant_max limiter_key (st_limiter st) (st_instant st) (u_username u) (f_ip p) = (lim, Ok ()) →
  code_accepted (u_id u) (f_code p) st t r → f_entropy p = Some bytes →
  session_fits (f_session_id p) bytes (f_ttl p) st created expires →
  ∃ session, run (login_2fa key p) st =
    (Ok (u, session, base64_encode URL_SAFE_NO_PAD bytes), after_second_step p st lim u row t r bytes created expires).
Proof.
  intros Hver Hu Hd Ha Hlim Hcode Hent Hfits. unfold after_second_step. set (uid := u_id u) in *.
  set (st1 := with_limiter lim st).
  assert (code_accepted uid (f_code p) st1 t r) as Hcode1 by (destruct Hcode; by split).
  set (st2 := claimed uid t r st1).
  assert (session_fits (f_session_id p) bytes (f_ttl p) st2 created expires) as Hfits2 by (destruct Hfits; by split).
  destruct (login_tail _ _ _ _ _ _ uid row Hfits2 Hu) as [Hcreate Hlast].
  set (ses := session_new _ _ _ _ _) in Hcreate. change (st_clock st2) with (st_clock st) in Hlast.
  exists ses. unfold login_2fa. erewrite run_try by reflexivity. cbn [st_clock].
  erewrite run_try by (unfold lift; rewrite Hver; reflexivity). erewrite run_try by reflexivity.
  erewrite run_try.
  2: { cbn. unfold query, find_user_by_id. rewrite Hu. cbn. rewrite Hd. reflexivity. }
  erewrite run_try by reflexivity. erewrite run_try by reflexivity. cbn [st_clock]. rewrite Ha. cbn [negb].
  erewrite run_try by (cbn; rewrite Hlim; reflexivity).
  fold st1. erewrite run_try by (apply second_factor_accepts, Hcode1). cbv beta iota. cbn [negb]. fold st2.
  erewrite run_try.
  2: { unfold new_session. erewrite run_try by reflexivity. rewrite Hent. erewrite run_try by reflexivity.
       erewrite run_try by reflexivity. reflexivity. }
  cbv beta iota. fold uid. change (session_new _ _ _ _ _) with ses. change (st_clock st2) with (st_clock st). fold uid.
  erewrite run_try.
  2: { unfold persist, repo, ask. cbn [bind run exec]. unfold on_db. rewrite Hcreate. reflexivity. }
  erewrite run_try.
  2: { unfold plain, ask. cbn [bind run exec]. unfold on_db. cbn [st_db with_db]. rewrite Hlast. reflexivity. }
  erewrite run_try by reflexivity. reflexivity.
Qed.

Lemma active_after_login uid row u t now :
  user_to_domain uid row = Ok u → is_active_at u now = true →
  ∃ u', user_to_domain uid (row_last_login t row) = Ok u' ∧ is_active_at u' now = true.
Proof.
  unfold user_to_domain. intros (ro & Hro & Hd)%result_bind_Ok Ha. cbn. rewrite Hro. cbn.
  destruct (Z.ltb _ 0); [done|]. injection Hd as <-. by eexists.
Qed.

(** The second step lets the right user in: with an unexpired challenge for
    an active user, an attempt the limiter admits and a code that matches a
    time step after the last one used, the login succeeds, claims that step,
    stores a session for the user, and the token it returns authenticates as
    that user at once. *)
Theorem second_step_completes p st uid issued u row lim t r bytes created expires :
  (uid < 2 ^ 128)%N → generate_challenge_token issued uid key = Ok (f_challenge_token p) →
  (unix_timestamp (st_clock st) < unix_timestamp issued + 300)%Z →
  users (st_db st) !! uid = Some row → user_to_domain uid row = Ok u → is_active_at u (st_clock st) = true →
  RateLimiter.check instant_max limiter_key (st_limiter st) (st_instant st) (u_username u) (f_ip p) = (lim, Ok ()) →
  code_accepted uid (f_code p) st t r → f_entropy p = Some bytes →
  session_fits (f_session_id p) bytes (f_ttl p) st created expires → (st_clock st < expires)%Z →
  ∃ session token st' u', run (login_2fa key p) st = (Ok (u, session, token), st') ∧
    tr_last_used_timestep <$> totp_secrets (st_db st') !! uid = Some (Some (Z.of_N t)) ∧
    run (authenticate_session key token) st' =
      (Ok (Some (u', new_row (f_session_id p) uid bytes created expires)), st') ∧ u_id u' = uid.
Proof.
  intros Huid Htok Hwin Hu Hd Ha Hlim Hcode Hent Hfits Hx.
  destruct (user_to_domain_fields _ _ _ Hd) as (Hid & _).
  pose proof (verify_issued _ _ _ (st_clock st) Huid Htok) as Hver. rewrite (proj2 (Z.ltb_lt _ _) Hwin) in Hver.
  rewrite <-Hid in Hver, Hu, Hd, Hcode |- *.
  destruct (login_2fa_runs p st u row lim t r bytes created expires) as (ses & Hrun); [done..|].
  destruct (active_after_login _ _ _ created _ Hd Ha) as (u' & Hd' & Ha').
  do 4 eexists. split; [exact Hrun|]. split_and!.
  - cbn. by rewrite lookup_insert_eq.
  - apply (authenticates _ (row_last_login created row)); [|exact Hd'|exact Ha'| |done].
    + cbn. by rewrite lookup_insert_eq.
    + eapply find_by_token_hash_insert; [reflexivity|apply (sf_id _ _ _ _ _ _ Hfits)|apply (sf_token _ _ _ _ _ _ Hfits)|done].
  - by destruct (user_to_domain_fields _ _ _ Hd').
Qed.

End login.

(** ** Witnesses *)

Section witnesses.
Import AuthDemo.

Lemma challenge_window_witness :
  (2 < 2 ^ 128)%N ∧ verify_challenge_token (clock0 + 299000000000) challenge_bob key = Ok (Some 2%N).
Proof.
  split; [reflexivity|].
  destruct (proj1 (challenge_window key clock0 (clock0 + 299000000000) 2 eq_refl)) as (token & Hg & Hv).
  unfold challenge_bob. rewrite Hg, Hv. vm_compute. reflexivity.
Defined.

(** Nobody is called carol; or she exists and the password is wrong. *)
Definition carol_login : LoginParams := mkLogin "carol" "wrong password" None day 110 (entropy "g").
Definition with_carol : St :=
  with_db (with_users (<[3%N := mkUserRow "carol" "h:her password" "user" true None 0 false None clock0]> (users db0)) db0)
    (cf_st start).

Lemma rejections_alike_witness :
  (AuthCommands.run 5 900000000000 (2 ^ 100) digest (login key carol_login) (cf_st start)).1 =
  (AuthCommands.run 5 900000000000 (2 ^ 100) digest (login key carol_login) with_carol).1.
Proof.
  apply (rejections_alike key 5 900000000000 (2 ^ 100) digest carol_login (cf_st start) with_carol);
    [reflexivity|reflexivity|vm_compute; reflexivity|vm_compute; split; [reflexivity|left; reflexivity]].
Defined.

Definition bob_params : Login2faParams := mkLogin2fa challenge_bob "901063" None day 102 (entropy "b").

Lemma second_step_completes_witness :
  ∃ session token st' u',
    AuthCommands.run 5 900000000000 (2 ^ 100) digest (login_2fa key bob_params) (cf_st start) = (Ok (u', session, token), st') ∧
    u_id u' = 2%N.
Proof.
  assert (user_to_domain 2 bob = Ok (mkUser 2 "bob" "h:battery staple" RegularUser true None 0 true None clock0)) as Hd
    by (vm_compute; reflexivity).
  destruct (second_step_completes key 5 900000000000 (2 ^ 100) digest bob_params (cf_st start) 2 clock0
    (mkUser 2 "bob" "h:battery staple" RegularUser true None 0 true None clock0) bob (RateLimiter.mkState ∅ 0) 56666667
    (mkTotpRow "secret" nonce0 clock0 None) "brandom bytes" clock0 (clock0 + day)) as (session & token & st' & u' & Hr & _ & _ & Hu').
  1-4, 6-7, 9: vm_compute; reflexivity.
  - exact Hd.
  - split; [vm_compute; reflexivity..| |discriminate|intros l Hl; discriminate Hl].
    exists 901063%N, "secret". repeat split; vm_compute; reflexivity.
  - split; vm_compute; reflexivity.
  - vm_compute; reflexivity.
  - do 4 eexists. split; [exact Hr|]. reflexivity.
Defined.

(** The code that enabled the second factor is accepted again by a login at
    the same time step: enrolment does not claim it. *)
Definition challenge_alice : string :=
  match generate_challenge_token clock0 1 key with Ok t => t | Err _ => "" end.
Definition replay_alice : Request := RLogin2fa (mkLogin2fa challenge_alice "901063" None day 120 (entropy "h")).

Lemma enrolment_code_reusable :
  match (λ tk, tk_prog tk) <$> cf_tasks (run_acts [AServe setup_alice; AServe verify_alice; AServe replay_alice]) with
  | [Ret (OutSetup (Ok _)); Ret (OutCodes (Ok _)); Ret (OutLogin2fa (Ok (u, _, _)))] => u_id u = 1%N
  | _ => False
  end.
Proof. vm_compute. reflexivity. Qed.

End witnesses.
End AuthLogin.
