(* ===== verification/Templates.v ===== *)
(** * Template storage
      ([crates/deve-sub-storage-sqlite/src/template_repository.rs],
      [template_version_repository.rs], migrations 0007, 0009 and 0020)

    The tables [templates] and [template_versions] beside the generation cache
    and the subscriptions that reference them, and the operations of both
    repositories.  A transaction is a function from the tables to an error or
    the tables after it; dropping it on an error leaves the tables alone.
    Identifiers are the integers their text stands for; an absent
    [active_version_id] is written as the empty text and read back as absent. *)

From S2P Require Import Prelude Kernel Template GenTypes Text CacheKey CacheRepo Generation Subscription.

(** The JSON text of a specification: [serde_json] on the derived
    [Serialize]/[Deserialize] of [TemplateSpec].  What it writes, it reads. *)
Class SpecCodec := {
  spec_to_json : TemplateSpec → Result string string;
  spec_from_json : string → Result string TemplateSpec;
  spec_json_reads : ∀ s j, spec_to_json s = Ok j → ∃ s', spec_from_json j = Ok s'
}.

Module Templates.

(** ** Tables *)

Record TemplateRow := mkTemplateRow {
  tr_name : string;
  tr_description : string;
  tr_active_version_id : option N;
  tr_active_version : Z;
  tr_created_at : Z;
  tr_updated_at : Z
}.

Record VersionRow := mkVersionRow {
  vr_template_id : TemplateId;
  vr_version : Z;
  vr_spec_json : string;
  vr_spec_yaml : string;
  vr_is_active : bool;
  vr_created_at : Z
}.

#[export] Instance TemplateRow_eq_dec : EqDecision TemplateRow.
Proof. solve_decision. Defined.
#[export] Instance VersionRow_eq_dec : EqDecision VersionRow.
Proof. solve_decision. Defined.

Record Db := mkDb {
  templates : gmap TemplateId TemplateRow;
  versions : gmap N VersionRow;
  cache : gmap GenerationCacheId CacheRepo.CacheRow;
  subscriptions : list CacheRepo.SubRow;
  revision : Z;
  withdrawal_revision : Z
}.

Definition with_templates (t : gmap TemplateId TemplateRow) (db : Db) : Db :=
  mkDb t (versions db) (cache db) (subscriptions db) (revision db) (withdrawal_revision db).
Definition with_versions (v : gmap N VersionRow) (db : Db) : Db :=
  mkDb (templates db) v (cache db) (subscriptions db) (revision db) (withdrawal_revision db).

(** The tables as the generation cache sees them. *)
Definition cache_view (db : Db) : CacheRepo.Db :=
  CacheRepo.mkDb (cache db) (dom (templates db)) (subscriptions db) (revision db) (withdrawal_revision db).
Definition with_cache_view (c : CacheRepo.Db) (db : Db) : Db :=
  mkDb (templates db) (versions db) (CacheRepo.rows c) (CacheRepo.subscriptions c) (CacheRepo.revision c)
    (CacheRepo.withdrawal_revision c).

(** ** Statements *)

Definition ts (t : Z) : Result TemplateError Z := map_err TE_Storage (format_ts t).

(** Another template already has the name (the [UNIQUE] column). *)
Definition name_taken (name : string) (except : TemplateId) (db : Db) : bool :=
  existsb (λ kv, negb (N.eqb kv.1 except) && String.eqb (tr_name kv.2) name) (map_to_list (templates db)).

(** [INSERT INTO templates]; [is_unique_violation] recognises the name index
    and not the primary key. *)
Definition insert_template (id : TemplateId) (r : TemplateRow) (db : Db) : Result TemplateError Db :=
  if bool_decide (is_Some (templates db !! id))
  then Err (TE_Storage "UNIQUE constraint failed: templates.id")
  else if name_taken (tr_name r) id db then Err TE_NameExists
  else Ok (with_templates (<[id := r]> (templates db)) db).

(** Some version of template [t] satisfies [p]. *)
Definition any_version (t : TemplateId) (p : N → VersionRow → bool) (db : Db) : bool :=
  existsb (λ kv, N.eqb (vr_template_id kv.2) t && p kv.1 kv.2) (map_to_list (versions db)).

(** [INSERT INTO template_versions]: primary key, the indexes on
    [(template_id, version)] and on the active row, the foreign key. *)
Definition insert_version (id : N) (r : VersionRow) (db : Db) : Result TemplateError Db :=
  if bool_decide (is_Some (versions db !! id))
  then Err (TE_Storage "UNIQUE constraint failed: template_versions.id")
  else if any_version (vr_template_id r) (λ _ r', Z.eqb (vr_version r') (vr_version r)) db
  then Err (TE_Storage "UNIQUE constraint failed: template_versions.template_id, template_versions.version")
  else if vr_is_active r && any_version (vr_template_id r) (λ _ r', vr_is_active r') db
  then Err (TE_Storage "UNIQUE constraint failed: template_versions.template_id")
  else if bool_decide (templates db !! vr_template_id r = None)
  then Err (TE_Storage "FOREIGN KEY constraint failed")
  else Ok (with_versions (<[id := r]> (versions db)) db).

Definition set_active (b : bool) (r : VersionRow) : VersionRow :=
  mkVersionRow (vr_template_id r) (vr_version r) (vr_spec_json r) (vr_spec_yaml r) b (vr_created_at r).

(** [UPDATE template_versions SET is_active = 0 WHERE template_id = ? AND is_active = 1] *)
Definition deactivate_all (t : TemplateId) (db : Db) : Db :=
  with_versions ((λ r, if N.eqb (vr_template_id r) t && vr_is_active r then set_active false r else r)
    <$> versions db) db.

(** [UPDATE templates SET name, description, active_version_id,
    active_version, updated_at WHERE id = ?] and its affected rows. *)
Definition update_row (id : TemplateId) (name desc : string) (vid : option N) (v updated : Z) (db : Db) :
    Result TemplateError Db :=
  match templates db !! id with
  | None => Err TE_TemplateNotFound
  | Some r =>
      if name_taken name id db then Err TE_NameExists
      else Ok (with_templates (<[id := mkTemplateRow name desc vid v (tr_created_at r) updated]>
                 (templates db)) db)
  end.

(** A transaction: committed, or dropped with its changes. *)
Definition transact {A} (body : Db → Result TemplateError (A * Db)) (db : Db) : Result TemplateError A * Db :=
  match body db with
  | Ok (a, db') => (Ok a, db')
  | Err e => (Err e, db)
  end.

Section repositories.
Context `{SpecCodec}.

(** [TemplateRow::to_domain] *)
Definition template_to_domain (id : TemplateId) (r : TemplateRow) : Result TemplateError SubscriptionTemplate :=
  let? v := CacheRepo.u64_column (tr_active_version r) "negative active_version" in
  Ok (mkTemplate id (tr_name r) (tr_description r) (tr_active_version_id r) v (tr_created_at r) (tr_updated_at r)).

(** [VersionRow::to_domain] *)
Definition version_to_domain (id : N) (r : VersionRow) : Result TemplateError TemplateVersion :=
  let? spec := map_err (λ e, TE_Storage ("invalid spec_json: " +:+ e)) (spec_from_json (vr_spec_json r)) in
  let? v := CacheRepo.u64_column (vr_version r) "negative version" in
  Ok (mkTemplateVersion id (vr_template_id r) v spec (vr_spec_yaml r) (vr_is_active r) (vr_created_at r)).

Definition spec_json (s : TemplateSpec) : Result TemplateError string :=
  map_err (λ e, TE_Storage ("spec serialize: " +:+ e)) (spec_to_json s).

(** [row.map(|r| r.to_domain()).transpose()] *)
Definition transpose_with {K R A} (f : K → R → Result TemplateError A) (o : option (K * R)) :
    Result TemplateError (option A) :=
  match o with
  | None => Ok None
  | Some (k, r) => let? a := f k r in Ok (Some a)
  end.

(** *** [SqliteTemplateRepository] *)

(** [create] *)
Definition create (t : SubscriptionTemplate) : Db → Result TemplateError () * Db :=
  transact (λ db,
    let? created := ts (t_created_at t) in
    let? updated := ts (t_updated_at t) in
    let? db' := insert_template (t_id t) (mkTemplateRow (t_name t) (t_description t) (t_active_version_id t)
      (CacheRepo.as_i64 (t_active_version t)) created updated) db in
    Ok ((), db')).

(** [create_with_version] *)
Definition create_with_version (t : SubscriptionTemplate) (v : TemplateVersion) :
    Db → Result TemplateError () * Db :=
  transact (λ db,
    let? created := ts (t_created_at t) in
    let? updated := ts (t_updated_at t) in
    let? v_created := ts (tv_created_at v) in
    let? json := spec_json (tv_spec v) in
    let? db1 := insert_template (t_id t) (mkTemplateRow (t_name t) (t_description t) (t_active_version_id t)
      (CacheRepo.as_i64 (t_active_version t)) created updated) db in
    let? db2 := insert_version (tv_id v) (mkVersionRow (tv_template_id v) (CacheRepo.as_i64 (tv_version v))
      json (tv_spec_yaml v) (tv_is_active v) v_created) db1 in
    Ok ((), db2)).

(** [COALESCE(MAX(version), 0)] of a template's history. *)
Definition history (t : TemplateId) (db : Db) : list (N * VersionRow) :=
  filter (λ kv, vr_template_id kv.2 = t) (map_to_list (versions db)).
Definition max_version (t : TemplateId) (db : Db) : Z :=
  match vr_version ∘ snd <$> history t db with
  | [] => 0
  | v :: vs => foldr Z.max v vs
  end.

(** The allocator: [MAX(version) + 1], which is no longer an integer column
    past the [i64] range. *)
Definition next_version (t : TemplateId) (db : Db) : Result TemplateError Z :=
  match templates db !! t with
  | None => Err TE_TemplateNotFound
  | Some _ =>
      if Z.eqb (max_version t db) (Z.of_N i64_max) then Err (TE_Storage "mismatched types: REAL is not INTEGER")
      else Ok (max_version t db + 1)%Z
  end.

(** [update_with_version]: the transaction, which yields the committed number. *)
Definition update_tx (t : SubscriptionTemplate) (v : TemplateVersion) (db : Db) : Result TemplateError (Z * Db) :=
  let? updated := ts (t_updated_at t) in
  let? v_created := ts (tv_created_at v) in
  let? json := spec_json (tv_spec v) in
  let? next := next_version (t_id t) db in
  let db1 := deactivate_all (tv_template_id v) db in
  let? db2 := insert_version (tv_id v) (mkVersionRow (tv_template_id v) next json (tv_spec_yaml v)
    (tv_is_active v) v_created) db1 in
  let? db3 := update_row (t_id t) (t_name t) (t_description t) (t_active_version_id t) next updated db2 in
  Ok (next, db3).

(** [update_with_version] *)
Definition update_with_version (t : SubscriptionTemplate) (v : TemplateVersion) (db : Db) :
    Result TemplateError N * Db :=
  match transact (update_tx t v) db with
  | (Ok next, db') => (CacheRepo.u64_column next "invalid allocated version", db')
  | (Err e, db') => (Err e, db')
  end.

(** [find_by_id] *)
Definition find_by_id (id : TemplateId) (db : Db) : Result TemplateError (option SubscriptionTemplate) :=
  transpose_with template_to_domain (pair id <$> templates db !! id).

(** [find_by_name]; the column is unique. *)
Definition find_by_name (name : string) (db : Db) : Result TemplateError (option SubscriptionTemplate) :=
  transpose_with template_to_domain
    (List.find (λ kv, String.eqb (tr_name kv.2) name) (map_to_list (templates db))).

(** [ORDER BY id] *)
Definition compare_key {A} (a b : N * A) : comparison := N.compare a.1 b.1.

(** [WHERE id > ?] *)
Definition past (cursor : option TemplateId) (id : TemplateId) : bool :=
  match cursor with None => true | Some c => N.ltb c id end.

(** [list] *)
Definition list_rows (cursor : option TemplateId) (limit : N) (db : Db) :
    Result TemplateError (list SubscriptionTemplate) :=
  collect_ok (λ kv, template_to_domain kv.1 kv.2)
    (take (N.to_nat (N.min limit 100)) (sort_by compare_key
      (filter (λ kv, past cursor kv.1 = true) (map_to_list (templates db))))).

(** [update] *)
Definition update (t : SubscriptionTemplate) : Db → Result TemplateError () * Db :=
  transact (λ db,
    let? updated := ts (t_updated_at t) in
    let? db' := update_row (t_id t) (t_name t) (t_description t) (t_active_version_id t)
      (CacheRepo.as_i64 (t_active_version t)) updated db in
    Ok ((), db')).

(** [delete]: subscriptions hold the row, versions and cache entries go with it. *)
Definition delete_row (id : TemplateId) : Db → Result TemplateError () * Db :=
  transact (λ db,
    match templates db !! id with
    | None => Err TE_TemplateNotFound
    | Some _ =>
        if existsb (λ s, N.eqb (CacheRepo.s_template_id s) id) (subscriptions db) then Err TE_InUse
        else Ok ((), mkDb (delete id (templates db))
               (filter (λ kv, vr_template_id kv.2 ≠ id) (versions db))
               (filter (λ kv, CacheRepo.r_template_id kv.2 ≠ id) (cache db))
               (subscriptions db) (revision db) (withdrawal_revision db))
    end).

(** *** [SqliteTemplateVersionRepository] *)

(** [create] *)
Definition create_version (v : TemplateVersion) : Db → Result TemplateError () * Db :=
  transact (λ db,
    let db1 := deactivate_all (tv_template_id v) db in
    let? json := spec_json (tv_spec v) in
    let? created := ts (tv_created_at v) in
    let? db2 := insert_version (tv_id v) (mkVersionRow (tv_template_id v) (CacheRepo.as_i64 (tv_version v))
      json (tv_spec_yaml v) (tv_is_active v) created) db1 in
    Ok ((), db2)).

(** [find_active]; the partial index makes the row unique. *)
Definition find_active (t : TemplateId) (db : Db) : Result TemplateError (option TemplateVersion) :=
  transpose_with version_to_domain (List.find (λ kv, vr_is_active kv.2) (history t db)).

(** [find_by_id] *)
Definition find_version (id : N) (db : Db) : Result TemplateError (option TemplateVersion) :=
  transpose_with version_to_domain (pair id <$> versions db !! id).

(** [find_by_version_number] *)
Definition find_by_version_number (t : TemplateId) (v : N) (db : Db) :
    Result TemplateError (option TemplateVersion) :=
  transpose_with version_to_domain
    (List.find (λ kv, Z.eqb (vr_version kv.2) (CacheRepo.as_i64 v)) (history t db)).

(** [ORDER BY version DESC] *)
Definition compare_version_desc (a b : N * VersionRow) : comparison :=
  Z.compare (vr_version b.2) (vr_version a.2).

(** [? IS NULL OR version < ?] *)
Definition below (before : option Z) (v : Z) : bool :=
  match before with None => true | Some b => Z.ltb v b end.

(** The rows of one history page. *)
Definition history_page (t : TemplateId) (limit : N) (before : option Z) (db : Db) : list (N * VersionRow) :=
  take (N.to_nat (N.min limit 100)) (sort_by compare_version_desc
    (filter (λ kv, below before (vr_version kv.2) = true) (history t db))).

(** [list_for_template] *)
Definition list_for_template (t : TemplateId) (limit : N) (before : option N) (db : Db) :
    Result TemplateError (list TemplateVersion) :=
  collect_ok (λ kv, version_to_domain kv.1 kv.2) (history_page t limit (CacheRepo.as_i64 <$> before) db).

(** The tables after a rollback to a stored version. *)
Definition activated (v : TemplateVersion) (updated : Z) (db : Db) : Db :=
  let db1 := deactivate_all (tv_template_id v) db in
  let db2 := with_versions (alter (set_active true) (tv_id v) (versions db1)) db1 in
  with_templates (alter (λ tr, mkTemplateRow (tr_name tr) (tr_description tr) (Some (tv_id v))
    (CacheRepo.as_i64 (tv_version v)) (tr_created_at tr) updated) (tv_template_id v) (templates db2)) db2.

(** [activate]; [now] is what the clock returns inside the transaction. *)
Definition activate (now : Z) (vid : N) : Db → Result TemplateError TemplateVersion * Db :=
  transact (λ db,
    match versions db !! vid with
    | None => Err TE_VersionNotFound
    | Some r =>
        let? v := version_to_domain vid r in
        let? updated := ts now in
        Ok (mkTemplateVersion (tv_id v) (tv_template_id v) (tv_version v) (tv_spec v) (tv_spec_yaml v) true
              (tv_created_at v), activated v updated db)
    end).

(** The queries the generation pipeline uses. *)
Definition template_store (db : Db) : TemplateStore :=
  mkTemplateStore (λ t, find_by_id t db) (λ t v, find_by_version_number t v db) (λ t, find_active t db).

End repositories.

End Templates.
