(* ===== verification/TemplateCommands.v ===== *)
(** * Template commands
      ([crates/deve-sub-application/src/template/commands.rs])

    Every command as a program over the calls it makes: the repository
    operations of [Templates] and readings of the clock.  [exec] answers one
    call, [run] answers a whole program on its own, and [step] is the server:
    any number of programs at once, one call at a time, with failing calls and
    answers lost after the commit, beside the transactions of the generation
    cache and of the subscriptions on the same tables. *)

From stdpp Require Import relations.
From S2P Require Import Prelude Kernel Template GenTypes Text Validation CacheKey CacheRepo Generation Templates.
Import Templates.

Module TemplateCommands.
Import Generation.

(** ** Calls *)

Inductive Op :=
  | ONow
  (* [TemplateRepository] *)
  | OCreate (t : SubscriptionTemplate) (v : TemplateVersion)
  | OUpdate (t : SubscriptionTemplate) (v : TemplateVersion)
  | OFind (id : TemplateId)
  | OFindName (name : string)
  | OList (cursor : option TemplateId) (limit : N)
  | ODelete (id : TemplateId)
  (* [TemplateVersionRepository] *)
  | OFindActive (t : TemplateId)
  | OFindVersion (id : N)
  | OListVersions (t : TemplateId) (limit : N) (before : option N)
  | OActivate (id : N).

Definition Ans (o : Op) : Type :=
  match o with
  | ONow => Z
  | OCreate _ _ | ODelete _ => Result TemplateError ()
  | OUpdate _ _ => Result TemplateError N
  | OFind _ | OFindName _ => Result TemplateError (option SubscriptionTemplate)
  | OList _ _ => Result TemplateError (list SubscriptionTemplate)
  | OFindActive _ | OFindVersion _ => Result TemplateError (option TemplateVersion)
  | OListVersions _ _ _ => Result TemplateError (list TemplateVersion)
  | OActivate _ => Result TemplateError TemplateVersion
  end.

Inductive Prog (X : Type) : Type :=
  | Ret (x : X)
  | Call (o : Op) (k : Ans o → Prog X).
Arguments Ret {X} x.
Arguments Call {X} o k.

Fixpoint bind {X Y} (p : Prog X) (f : X → Prog Y) : Prog Y :=
  match p with
  | Ret x => f x
  | Call o k => Call o (λ a, bind (k a) f)
  end.

(** [Result<X, TemplateAppError>] of an [async fn], and [?]. *)
Abbreviation M X := (Prog (Result TemplateAppError X)).

Definition try {X Y} (p : M X) (f : X → M Y) : M Y :=
  bind p (λ r, match r with Ok x => f x | Err e => Ret (Err e) end).

Notation "'do' x := p 'in' k" := (try p (λ x, k))
  (at level 10, x pattern, p at level 100, k at level 200, format "'do'  x  :=  p  'in' '//' k").

(** [.await.map_err(map_template_error)] *)
Definition repo {X} (p : Prog (Result TemplateError X)) : M X := bind p (λ r, Ret (map_err map_template_error r)).
Definition now : M Z := Call ONow (λ t, Ret (Ok t)).

(** ** Boundary checks *)

Definition MAX_NAME_LEN : nat := 128.
Definition MAX_DESC_LEN : nat := 2048.
Definition DEFAULT_LIST_LIMIT : N := 50.

(** [validate_name] *)
Definition validate_name (name : string) : Result TemplateAppError () :=
  if Text.is_empty (Text.trim name) then Err (InvalidInput "name must not be empty")
  else if Nat.ltb MAX_NAME_LEN (String.length name)
  then Err (InvalidInput "name must not exceed 128 characters")
  else Ok ().

(** [validate_description] *)
Definition validate_description (desc : string) : Result TemplateAppError () :=
  if Nat.ltb MAX_DESC_LEN (String.length desc)
  then Err (InvalidInput "description must not exceed 2048 characters")
  else Ok ().

(** [SubscriptionTemplate::new]; [id] and [at_] are what [TemplateId::new] and
    [Timestamp::now] return. *)
Definition template_new (id : TemplateId) (at_ : Z) (name desc : string) : SubscriptionTemplate :=
  mkTemplate id name desc None 0 at_ at_.

Section commands.
Context {ext : Externals} {codec : SpecCodec}.
(** [clash::config] followed by [clash::validate] *)
Variable clash_validate : string → Result TemplateAppError ().

Definition validate_document (doc : TemplateDocument) (yaml : string) : Result TemplateAppError () :=
  Validation.validate_document yaml_parse clash_validate id_display doc yaml.

(** The checks [create_template] and [update_template] share. *)
Definition checked (name desc yaml : string) : Result TemplateAppError TemplateDocument :=
  let? _ := validate_name name in
  let? _ := validate_description desc in
  let? doc := parse_document yaml in
  let? _ := validate_document doc yaml in
  Ok doc.

(** ** Commands *)

(** [create_template]; [tid] and [vid] are the fresh identifiers. *)
Definition create_template (tid : TemplateId) (vid : N) (name desc yaml : string) :
    M (SubscriptionTemplate * TemplateVersion) :=
  do doc := Ret (checked name desc yaml) in
  do t_now := now in
  do v_now := now in
  let shell := template_new tid t_now name desc in
  let version := mkTemplateVersion vid (t_id shell) 1 (spec doc) yaml true v_now in
  let template := mkTemplate (t_id shell) (t_name shell) (t_description shell) (Some vid) 1
    (t_created_at shell) (t_updated_at shell) in
  do _ := repo (Call (OCreate template version) Ret) in
  Ret (Ok (template, version)).

(** [update_template]; the number 0 in the call is replaced by the one the
    storage allocates. *)
Definition update_template (id : TemplateId) (vid : N) (name desc yaml : string) :
    M (SubscriptionTemplate * TemplateVersion) :=
  do doc := Ret (checked name desc yaml) in
  do found := repo (Call (OFind id) Ret) in
  do old := Ret (ok_or found TemplateNotFound) in
  do t_now := now in
  do v_now := now in
  let version n := mkTemplateVersion vid (t_id old) n (spec doc) yaml true v_now in
  let template n := mkTemplate (t_id old) name desc (Some vid) n (t_created_at old) t_now in
  do committed := repo (Call (OUpdate (template 0%N) (version 0%N)) Ret) in
  Ret (Ok (template committed, version committed)).

(** [delete_template] *)
Definition delete_template (id : TemplateId) : M () :=
  do _ := repo (Call (ODelete id) Ret) in Ret (Ok ()).

(** [get_template], [get_template_by_name] *)
Definition get_template (id : TemplateId) : M (option SubscriptionTemplate) := repo (Call (OFind id) Ret).
Definition get_template_by_name (name : string) : M (option SubscriptionTemplate) :=
  repo (Call (OFindName name) Ret).

(** [list_templates] *)
Definition list_templates (cursor : option TemplateId) (limit : option N) : M (list SubscriptionTemplate) :=
  repo (Call (OList cursor (default DEFAULT_LIST_LIMIT limit)) Ret).

(** [get_active_version] *)
Definition get_active_version (t : TemplateId) : M (option TemplateVersion) := repo (Call (OFindActive t) Ret).

(** [list_versions] *)
Definition list_versions (t : TemplateId) (limit : option N) : M (list TemplateVersion) :=
  repo (Call (OListVersions t (default DEFAULT_LIST_LIMIT limit) None) Ret).

(** [list_versions_before] *)
Definition list_versions_before (t : TemplateId) (before : option N) : M (list TemplateVersion) :=
  if match before with None => false | Some v => N.eqb v 0 || N.ltb i64_max v end
  then Ret (Err (InvalidInput "before_version must be a positive 64-bit database version"))
  else repo (Call (OListVersions t 100 before) Ret).

(** [rollback_template] *)
Definition rollback_template (t : TemplateId) (vid : N) : M TemplateVersion :=
  do found := repo (Call (OFindVersion vid) Ret) in
  do version := Ret (ok_or found VersionNotFound) in
  if negb (N.eqb (tv_template_id version) t) then Ret (Err VersionTemplateMismatch)
  else repo (Call (OActivate vid) Ret).

(** ** Answering calls *)

Record St := mkSt { st_db : Db; st_clock : Z }.

Definition on_db {A} (f : Db → A * Db) (st : St) : A * St :=
  let '(a, db) := f (st_db st) in (a, mkSt db (st_clock st)).
Definition query {A} (f : Db → A) (st : St) : A * St := (f (st_db st), st).

Definition exec (o : Op) : St → Ans o * St :=
  match o return St → Ans o * St with
  | ONow => λ st, (st_clock st, st)
  | OCreate t v => on_db (create_with_version t v)
  | OUpdate t v => on_db (update_with_version t v)
  | OFind id => query (find_by_id id)
  | OFindName n => query (find_by_name n)
  | OList c l => query (list_rows c l)
  | ODelete id => on_db (delete_row id)
  | OFindActive t => query (find_active t)
  | OFindVersion id => query (find_version id)
  | OListVersions t l b => query (list_for_template t l b)
  | OActivate id => λ st, on_db (activate (st_clock st) id) st
  end.

(** A program that runs alone. *)
Fixpoint run {X} (p : Prog X) (st : St) : X * St :=
  match p with
  | Ret x => (x, st)
  | Call o k => let '(a, st') := exec o st in run (k a) st'
  end.

(** ** The server *)

Inductive Request :=
  | RCreate (tid : TemplateId) (vid : N) (name desc yaml : string)
  | RUpdate (id : TemplateId) (vid : N) (name desc yaml : string)
  | RDelete (id : TemplateId)
  | RGet (id : TemplateId)
  | RGetByName (name : string)
  | RList (cursor : option TemplateId) (limit : option N)
  | RActive (t : TemplateId)
  | RVersions (t : TemplateId) (limit : option N)
  | RVersionsBefore (t : TemplateId) (before : option N)
  | RRollback (t : TemplateId) (vid : N).

(** What a command leaves to its caller is forgotten here. *)
Definition forget {X} (p : Prog X) : Prog () := bind p (λ _, Ret ()).

Definition prog_of (r : Request) : Prog () :=
  match r with
  | RCreate tid vid n d y => forget (create_template tid vid n d y)
  | RUpdate id vid n d y => forget (update_template id vid n d y)
  | RDelete id => forget (delete_template id)
  | RGet id => forget (get_template id)
  | RGetByName n => forget (get_template_by_name n)
  | RList c l => forget (list_templates c l)
  | RActive t => forget (get_active_version t)
  | RVersions t l => forget (list_versions t l)
  | RVersionsBefore t b => forget (list_versions_before t b)
  | RRollback t vid => forget (rollback_template t vid)
  end.

Record Config := mkConfig { cf_st : St; cf_tasks : list (Prog ()) }.

Definition fault (o : Op) : Ans o → Prop :=
  match o return Ans o → Prop with
  | ONow => λ _, False
  | OCreate _ _ | OUpdate _ _ | OFind _ | OFindName _ | OList _ _ | ODelete _ | OFindActive _ | OFindVersion _
  | OListVersions _ _ _ | OActivate _ => λ a, ∃ m, a = Err (TE_Storage m)
  end.

(** A call runs, fails, or runs and its answer is lost. *)
Inductive answers (o : Op) (st : St) : Ans o → St → Prop :=
  | answered : answers o st (exec o st).1 (exec o st).2
  | failed a : fault o a → answers o st a st
  | lost a : fault o a → answers o st a (exec o st).2.

(** The transactions of the other components on these tables; a subscription
    row references a template that exists. *)
Definition cache_event (ev : CacheRepo.Event) (db : Db) : Prop :=
  match ev with
  | CacheRepo.ESubscriptions subs => Forall (λ s, is_Some (templates db !! CacheRepo.s_template_id s)) subs
  | _ => True
  end.

Inductive step : Config → Config → Prop :=
  | step_spawn c r : step c (mkConfig (cf_st c) (cf_tasks c ++ [prog_of r]))
  | step_call c i o k a st' :
      cf_tasks c !! i = Some (Call o k) → answers o (cf_st c) a st' →
      step c (mkConfig st' (<[i := k a]> (cf_tasks c)))
  | step_time c clock : step c (mkConfig (mkSt (st_db (cf_st c)) clock) (cf_tasks c))
  | step_cache c ev :
      cache_event ev (st_db (cf_st c)) →
      step c (mkConfig (mkSt (with_cache_view (CacheRepo.step (cache_view (st_db (cf_st c))) ev) (st_db (cf_st c)))
                (st_clock (cf_st c))) (cf_tasks c)).

End commands.

End TemplateCommands.
