(* ===== verification/TemplateInv.v ===== *)
(** * Invariants of the template tables

    What the tables of [Templates] satisfy at every moment, and that each call
    a command of [TemplateCommands] can make keeps it: names and version
    numbers are unique, every version belongs to a template and holds a
    document that still passes validation, and every template points at its
    one active version. *)

From stdpp Require Import relations.
From S2P Require Import Prelude Kernel Template GenTypes Text Validation CacheKey CacheRepo Generation Templates.
From S2P Require Import TemplateCommands.
Import Templates TemplateCommands.

Module TemplateInv.
Import Generation.

(** ** What the statements check *)

Definition deact (t : TemplateId) (r : VersionRow) : VersionRow :=
  if N.eqb (vr_template_id r) t && vr_is_active r then set_active false r else r.

(** Two rows that differ at most in the active flag. *)
Definition same_content (r r' : VersionRow) : Prop :=
  vr_template_id r' = vr_template_id r ∧ vr_version r' = vr_version r ∧ vr_spec_json r' = vr_spec_json r ∧
  vr_spec_yaml r' = vr_spec_yaml r ∧ vr_created_at r' = vr_created_at r.

#[export] Instance same_content_refl : Reflexive same_content.
Proof. by intros []. Qed.
#[export] Instance same_content_trans : Transitive same_content.
Proof. intros [] [] []. unfold same_content. simpl. naive_solver. Qed.

Lemma deact_content t r : same_content r (deact t r).
Proof. unfold deact. case_goal; by destruct r. Qed.

Lemma deact_template t r : vr_template_id (deact t r) = vr_template_id r.
Proof. by destruct (deact_content t r). Qed.
Lemma deact_version t r : vr_version (deact t r) = vr_version r.
Proof. by destruct (deact_content t r) as (_ & -> & _). Qed.

Lemma deact_active t r : vr_is_active (deact t r) = true ↔ vr_is_active r = true ∧ vr_template_id r ≠ t.
Proof.
  unfold deact. destruct (N.eqb_spec (vr_template_id r) t), (vr_is_active r) eqn:Ha; simpl; rewrite ?Ha; naive_solver.
Qed.

Lemma deact_other t r : vr_template_id r ≠ t → deact t r = r.
Proof. unfold deact. by intros ->%N.eqb_neq. Qed.

Lemma set_active_deact t r : set_active true (deact t r) = set_active true r.
Proof. unfold deact. by case_goal. Qed.

Lemma template_name_free name id db :
  name_taken name id db = false → ∀ i r, templates db !! i = Some r → i ≠ id → tr_name r ≠ name.
Proof.
  unfold name_taken. rewrite existsb_false. intros Hf i r Hi Hne <-.
  specialize (Hf (i, r)). rewrite elem_of_map_to_list in Hf. specialize (Hf Hi). simpl in Hf.
  rewrite String.eqb_refl, andb_true_r, negb_false_iff, N.eqb_eq in Hf. done.
Qed.

Lemma name_taken_true name id db :
  name_taken name id db = true ↔ ∃ i r, templates db !! i = Some r ∧ i ≠ id ∧ tr_name r = name.
Proof.
  unfold name_taken. rewrite existsb_true. split.
  - intros ([i r] & Hi & Hn). apply elem_of_map_to_list in Hi. simpl in Hn.
    apply andb_true_iff in Hn as [Hne Heq]. apply negb_true_iff, N.eqb_neq in Hne. apply String.eqb_eq in Heq. eauto.
  - intros (i & r & Hi & Hne & <-). exists (i, r). rewrite elem_of_map_to_list. split; [done|]. simpl.
    rewrite String.eqb_refl, andb_true_r, negb_true_iff. by apply N.eqb_neq.
Qed.

Lemma any_version_false t p db :
  any_version t p db = false → ∀ i r, versions db !! i = Some r → vr_template_id r = t → p i r = false.
Proof.
  unfold any_version. rewrite existsb_false. intros Hf i r Hi Ht. specialize (Hf (i, r)).
  rewrite elem_of_map_to_list in Hf. specialize (Hf Hi). simpl in Hf. by rewrite Ht, N.eqb_refl in Hf.
Qed.

Lemma insert_template_Ok id r db db' :
  insert_template id r db = Ok db' →
  templates db !! id = None ∧ (∀ i x, templates db !! i = Some x → tr_name x ≠ tr_name r) ∧
  db' = with_templates (<[id := r]> (templates db)) db.
Proof.
  unfold insert_template. case_bool_decide as Hid; [done|].
  destruct (name_taken _ _ _) eqn:Hn; [done|]. intros [= <-]. apply eq_None_not_Some in Hid.
  split; [done|]. split; [|done]. intros i x Hi. apply (template_name_free _ _ _ Hn i); [done|]. by intros ->; simplify_eq.
Qed.

Lemma insert_version_Ok id r db db' :
  insert_version id r db = Ok db' →
  versions db !! id = None ∧
  (∀ i x, versions db !! i = Some x → vr_template_id x = vr_template_id r → vr_version x ≠ vr_version r) ∧
  is_Some (templates db !! vr_template_id r) ∧ db' = with_versions (<[id := r]> (versions db)) db.
Proof.
  unfold insert_version. case_bool_decide as Hid; [done|].
  destruct (any_version _ (λ _ r', Z.eqb _ _) db) eqn:Hv; [done|]. case_goal; [done|].
  case_bool_decide as Ht; [done|]. intros [= <-]. split; [by apply eq_None_not_Some|]. split; [|split; [|done]].
  - intros i x Hi Hx. apply Z.eqb_neq. by apply (any_version_false _ _ _ Hv i).
  - by apply not_eq_None_Some.
Qed.

Lemma update_row_Ok id name desc vid v updated db db' :
  update_row id name desc vid v updated db = Ok db' →
  ∃ r, templates db !! id = Some r ∧ (∀ i x, templates db !! i = Some x → i ≠ id → tr_name x ≠ name) ∧
    db' = with_templates (<[id := mkTemplateRow name desc vid v (tr_created_at r) updated]> (templates db)) db.
Proof.
  unfold update_row. destruct (templates db !! id) as [r|]; [|done].
  destruct (name_taken _ _ _) eqn:Hn; [done|]. intros [= <-]. exists r. split; [done|]. split; [|done].
  by apply template_name_free.
Qed.

(** ** The allocator *)

Lemma elem_of_history t db i r : (i, r) ∈ history t db ↔ versions db !! i = Some r ∧ vr_template_id r = t.
Proof. unfold history. rewrite list_elem_of_filter, elem_of_map_to_list. simpl. naive_solver. Qed.

Lemma foldr_max_ge (vs : list Z) v x : x ∈ v :: vs → (x ≤ foldr Z.max v vs)%Z.
Proof.
  revert v. induction vs as [|w vs IH]; intros v Hx; simpl in *.
  - apply list_elem_of_singleton in Hx as ->. lia.
  - apply elem_of_cons in Hx as [-> | [-> | Hx]%elem_of_cons]; [|lia|].
    + specialize (IH v ltac:(left)). lia.
    + specialize (IH v ltac:(by right)). lia.
Qed.

Lemma foldr_max_in (vs : list Z) v : foldr Z.max v vs ∈ v :: vs.
Proof.
  induction vs as [|w vs IH]; simpl; [left|].
  destruct (Z.max_spec w (foldr Z.max v vs)) as [[_ ->]|[_ ->]]; [|right; left].
  apply elem_of_cons in IH as [-> | IH]; [left|right; by right].
Qed.

(** Every number of the history is at most the maximum, which is zero or one
    of them. *)
Lemma max_version_ge t db i r :
  versions db !! i = Some r → vr_template_id r = t → (vr_version r ≤ max_version t db)%Z.
Proof.
  intros Hi Ht. unfold max_version.
  assert (vr_version r ∈ vr_version ∘ snd <$> history t db) as Hin.
  { apply list_elem_of_fmap. exists (i, r). split; [done|]. by apply elem_of_history. }
  destruct (vr_version ∘ snd <$> history t db) as [|v vs]; [by apply elem_of_nil in Hin|]. by apply foldr_max_ge.
Qed.

Lemma max_version_in t db :
  max_version t db = 0%Z ∨ ∃ i r, versions db !! i = Some r ∧ vr_template_id r = t ∧ vr_version r = max_version t db.
Proof.
  unfold max_version. destruct (vr_version ∘ snd <$> history t db) as [|v vs] eqn:Hl; [by left|right].
  pose proof (foldr_max_in vs v) as Hin. rewrite <-Hl in Hin.
  apply list_elem_of_fmap in Hin as ([i r] & Heq & Hin). apply elem_of_history in Hin as [Hi Ht].
  exists i, r. split; [done|]. split; [done|]. by rewrite Heq.
Qed.

(** ** The invariant *)

Section invariant.
Context {ext : Externals} {codec : SpecCodec}.
Variable clash_validate : string → Result TemplateAppError ().

(** The document was accepted when it was saved. *)
Definition accepted (yaml : string) : Prop :=
  ∃ doc, parse_document yaml = Ok doc ∧ TemplateCommands.validate_document clash_validate doc yaml = Ok ().

Record version_ok (r : VersionRow) : Prop := {
  vo_version : (1 ≤ vr_version r ≤ Z.of_N i64_max)%Z;
  vo_spec : ∃ s, spec_from_json (vr_spec_json r) = Ok s;
  vo_yaml : accepted (vr_spec_yaml r)
}.

Record tables_ok (db : Db) : Prop := {
  to_names : ∀ i j r r', templates db !! i = Some r → templates db !! j = Some r' → tr_name r = tr_name r' → i = j;
  to_version : map_Forall (λ _ r, version_ok r) (versions db);
  to_owner : ∀ i r, versions db !! i = Some r → is_Some (templates db !! vr_template_id r);
  to_number : ∀ i j r r', versions db !! i = Some r → versions db !! j = Some r' →
    vr_template_id r = vr_template_id r' → vr_version r = vr_version r' → i = j;
  to_single : ∀ i j r r', versions db !! i = Some r → versions db !! j = Some r' →
    vr_template_id r = vr_template_id r' → vr_is_active r = true → vr_is_active r' = true → i = j;
  to_pointer : ∀ t tr, templates db !! t = Some tr → ∃ vid r, tr_active_version_id tr = Some vid ∧
    versions db !! vid = Some r ∧ vr_template_id r = t ∧ vr_is_active r = true ∧ vr_version r = tr_active_version tr;
  to_cache : map_Forall (λ _ r, is_Some (templates db !! CacheRepo.r_template_id r)) (cache db);
  to_subs : Forall (λ s, is_Some (templates db !! CacheRepo.s_template_id s)) (subscriptions db);
  to_cache_ok : CacheRepo.cache_ok (cache_view db)
}.

(** A template [t] with row [tr] whose one active version is [vid], with row [r]. *)
Definition switched (t : TemplateId) (tr : TemplateRow) (vid : N) (r : VersionRow) (db : Db) : Db :=
  with_templates (<[t := tr]> (templates db)) (with_versions (<[vid := r]> (deact t <$> versions db)) db).

Lemma lookup_deact t db i r' :
  (deact t <$> versions db) !! i = Some r' ↔ ∃ r, versions db !! i = Some r ∧ r' = deact t r.
Proof. rewrite lookup_fmap, fmap_Some. done. Qed.

Lemma insert_is_Some {K A} `{Countable K} (m : gmap K A) i x j : is_Some (m !! j) → is_Some (<[i := x]> m !! j).
Proof. rewrite lookup_insert_is_Some. destruct (decide (i = j)); auto. Qed.

Lemma version_ok_content r r' : same_content r r' → version_ok r → version_ok r'.
Proof. intros (? & Hv & Hj & Hy & ?) [? ? ?]. split; by rewrite ?Hv, ?Hj, ?Hy. Qed.

(** Creating, updating and rolling back all switch a template. *)
Lemma switched_ok t tr vid r db :
  tables_ok db → version_ok r → vr_template_id r = t → vr_is_active r = true →
  tr_active_version_id tr = Some vid → tr_active_version tr = vr_version r →
  (∀ r0, versions db !! vid = Some r0 → vr_template_id r0 = t) →
  (∀ i x, versions db !! i = Some x → i ≠ vid → vr_template_id x = t → vr_version x ≠ vr_version r) →
  (∀ i x, templates db !! i = Some x → i ≠ t → tr_name x ≠ tr_name tr) →
  tables_ok (switched t tr vid r db).
Proof.
  intros [Hn Hv Ho Hnum Hs Hp Hc Hsub Hcok] Hr Ht Ha Hpt Hpv Hold Hnew Hname. split; simpl.
  - intros i j x y [[<- <-]|[? Hi]]%lookup_insert_Some [[<- <-]|[? Hj]]%lookup_insert_Some He;
      [done|by destruct (Hname j y)|by destruct (Hname i x)|by eapply Hn].
  - apply map_Forall_insert_2; [done|]. intros i x (y & Hy & ->)%lookup_deact.
    eapply version_ok_content; [apply deact_content|]. by apply (Hv i).
  - intros i x [[<- <-]|[? Hi]]%lookup_insert_Some.
    + rewrite Ht. rewrite lookup_insert_eq. eauto.
    + apply lookup_deact in Hi as (y & Hy & ->). rewrite deact_template. by eapply insert_is_Some, Ho.
  - intros i j x y [[<- <-]|[? Hi]]%lookup_insert_Some [[<- <-]|[? Hj]]%lookup_insert_Some Het Hev;
      [done|..]; try apply lookup_deact in Hi as (x' & Hi & ->); try apply lookup_deact in Hj as (y' & Hj & ->);
      rewrite ?deact_template, ?deact_version in *.
    + destruct (Hnew j y'); [done|done|congruence|congruence].
    + destruct (Hnew i x'); [done|done|congruence|congruence].
    + by eapply Hnum.
  - intros i j x y [[<- <-]|[? Hi]]%lookup_insert_Some [[<- <-]|[? Hj]]%lookup_insert_Some Het Hax Hay;
      [done|..]; try apply lookup_deact in Hi as (x' & Hi & ->); try apply lookup_deact in Hj as (y' & Hj & ->);
      rewrite ?deact_template in *.
    + apply deact_active in Hay as [_ Hne]. congruence.
    + apply deact_active in Hax as [_ Hne]. congruence.
    + apply deact_active in Hax as [Hax _]. apply deact_active in Hay as [Hay _]. by eapply Hs.
  - intros t' tr' [[<- <-]|[Hne Ht']]%lookup_insert_Some.
    + exists vid, r. by rewrite lookup_insert_eq.
    + destruct (Hp _ _ Ht') as (vid' & r' & ? & Hr' & Hrt & Hra & Hrv). exists vid', r'.
      assert (vid' ≠ vid) by (intros ->; apply Hne; symmetry; rewrite <-Hrt; by apply Hold).
      rewrite lookup_insert_ne, lookup_fmap, Hr' by done. simpl. rewrite deact_other by congruence. done.
  - intros i x Hi. by apply insert_is_Some, (Hc i).
  - eapply Forall_impl; [exact Hsub|]. intros s Hs'. by apply insert_is_Some.
  - by destruct Hcok; split.
Qed.

(** ** The writing operations as switches *)

Lemma spec_json_Ok s j : spec_json s = Ok j → spec_to_json s = Ok j.
Proof. unfold spec_json. destruct (spec_to_json s); simpl; congruence. Qed.

Lemma transact_Ok {A} (body : Db → Result TemplateError (A * Db)) db a db' :
  transact body db = (Ok a, db') → body db = Ok (a, db').
Proof. unfold transact. destruct (body db) as [[a' db'']|]; congruence. Qed.

Lemma transact_Err {A} (body : Db → Result TemplateError (A * Db)) db e db' :
  transact body db = (Err e, db') → db' = db.
Proof. unfold transact. destruct (body db) as [[a' db'']|]; congruence. Qed.

(** A template without versions: nothing to deactivate. *)
Lemma deact_none t db :
  (∀ i r, versions db !! i = Some r → vr_template_id r ≠ t) → deact t <$> versions db = versions db.
Proof.
  intros Hn. apply map_eq. intros i. rewrite lookup_fmap. destruct (versions db !! i) as [r|] eqn:Hi; [|done].
  simpl. f_equal. apply deact_other. by eapply Hn.
Qed.

Lemma tables_fresh db t :
  tables_ok db → templates db !! t = None → ∀ i r, versions db !! i = Some r → vr_template_id r ≠ t.
Proof. intros Hok Ht i r Hi <-. destruct (to_owner _ Hok i r Hi). congruence. Qed.

(** The version row a save binds. *)
Definition saved_row (v : TemplateVersion) (n : Z) (json : string) (created : Z) : VersionRow :=
  mkVersionRow (tv_template_id v) n json (tv_spec_yaml v) (tv_is_active v) created.

Record created_as (t : SubscriptionTemplate) (v : TemplateVersion) (db : Db) (tr : TemplateRow) (r : VersionRow) :
    Prop := {
  ca_template : templates db !! t_id t = None;
  ca_version : versions db !! tv_id v = None;
  ca_names : ∀ i x, templates db !! i = Some x → tr_name x ≠ t_name t;
  ca_row : ∃ created updated, ts (t_created_at t) = Ok created ∧ ts (t_updated_at t) = Ok updated ∧
    tr = mkTemplateRow (t_name t) (t_description t) (t_active_version_id t)
           (CacheRepo.as_i64 (t_active_version t)) created updated;
  ca_saved : ∃ json created, spec_to_json (tv_spec v) = Ok json ∧ ts (tv_created_at v) = Ok created ∧
    r = saved_row v (CacheRepo.as_i64 (tv_version v)) json created
}.

Lemma create_switched t v db db' :
  tables_ok db → tv_template_id v = t_id t → create_with_version t v db = (Ok (), db') →
  ∃ tr r, created_as t v db tr r ∧ db' = switched (t_id t) tr (tv_id v) r db.
Proof.
  intros Hok Htv Hc. unfold create_with_version in Hc. apply transact_Ok in Hc.
  apply result_bind_Ok in Hc as (created & Hcr & Hc). apply result_bind_Ok in Hc as (updated & Hup & Hc).
  apply result_bind_Ok in Hc as (v_created & Hvc & Hc). apply result_bind_Ok in Hc as (json & Hj & Hc).
  apply result_bind_Ok in Hc as (db1 & Hi1 & Hc). apply result_bind_Ok in Hc as (db2 & Hi2 & [= <-]).
  apply insert_template_Ok in Hi1 as (Ht & Hn & ->). apply insert_version_Ok in Hi2 as (Hv & _ & _ & ->).
  eexists _, _. split; [split; [done|done|done| |]|].
  - by exists created, updated.
  - exists json, v_created. split; [by apply spec_json_Ok|done].
  - unfold switched, with_versions, with_templates. simpl. f_equal. by rewrite deact_none by by apply tables_fresh.
Qed.

Record updated_as (t : SubscriptionTemplate) (v : TemplateVersion) (db : Db) (n : Z) (tr : TemplateRow)
    (r : VersionRow) : Prop := {
  ua_version : versions db !! tv_id v = None;
  ua_number : n = (max_version (t_id t) db + 1)%Z;
  ua_bound : max_version (t_id t) db ≠ Z.of_N i64_max;
  ua_names : ∀ i x, templates db !! i = Some x → i ≠ t_id t → tr_name x ≠ t_name t;
  ua_row : ∃ old updated, templates db !! t_id t = Some old ∧ ts (t_updated_at t) = Ok updated ∧
    tr = mkTemplateRow (t_name t) (t_description t) (t_active_version_id t) n (tr_created_at old) updated;
  ua_saved : ∃ json created, spec_to_json (tv_spec v) = Ok json ∧ ts (tv_created_at v) = Ok created ∧
    r = saved_row v n json created
}.

Lemma update_switched t v db n db' :
  tv_template_id v = t_id t → update_tx t v db = Ok (n, db') →
  ∃ tr r, updated_as t v db n tr r ∧ db' = switched (t_id t) tr (tv_id v) r db.
Proof.
  intros Htv Hc.
  apply result_bind_Ok in Hc as (updated & Hup & Hc). apply result_bind_Ok in Hc as (v_created & Hvc & Hc).
  apply result_bind_Ok in Hc as (json & Hj & Hc). apply result_bind_Ok in Hc as (next & Hnx & Hc).
  apply result_bind_Ok in Hc as (db2 & Hi2 & Hc). apply result_bind_Ok in Hc as (db3 & Hi3 & [= <- <-]).
  apply insert_version_Ok in Hi2 as (Hv & _ & _ & ->). apply update_row_Ok in Hi3 as (old & Hold & Hn & ->).
  simpl in *. rewrite lookup_fmap, fmap_None in Hv. unfold next_version in Hnx. rewrite Hold in Hnx.
  destruct (Z.eqb (max_version (t_id t) db) (Z.of_N i64_max)) eqn:Hmax; [done|].
  apply Z.eqb_neq in Hmax. apply Ok_inj in Hnx as <-.
  eexists _, _. split; [split; try done|].
  - exists old, updated. done.
  - exists json, v_created. split; [by apply spec_json_Ok|done].
  - unfold switched, with_versions, with_templates, deactivate_all, deact, saved_row. simpl. by rewrite Htv.
Qed.

Lemma as_i64_of_N z n : (0 ≤ z ≤ Z.of_N i64_max)%Z → CacheRepo.u64_column z "negative version" = Ok n →
  CacheRepo.as_i64 n = z.
Proof.
  unfold CacheRepo.u64_column, CacheRepo.as_i64, i64_max. intros Hz. destruct (Z.leb_spec 0 z); [|lia].
  intros [= <-]. rewrite Z2N.id by lia. rewrite Z.mod_small by lia. destruct (Z.ltb_spec z (2 ^ 63)); lia.
Qed.

Lemma version_to_domain_Ok id r v :
  version_to_domain id r = Ok v → tv_id v = id ∧ tv_template_id v = vr_template_id r ∧
    CacheRepo.u64_column (vr_version r) "negative version" = Ok (tv_version v) ∧
    spec_from_json (vr_spec_json r) = Ok (tv_spec v) ∧ tv_spec_yaml v = vr_spec_yaml r ∧
    tv_is_active v = vr_is_active r ∧ tv_created_at v = vr_created_at r.
Proof.
  unfold version_to_domain. destruct (spec_from_json _) as [s|] eqn:Hs; [|done]. simpl.
  destruct (CacheRepo.u64_column _ _) as [n|] eqn:Hn; [|done]. by intros [= <-].
Qed.

(** Stored rows decode. *)
Lemma version_to_domain_total id r : version_ok r → ∃ v, version_to_domain id r = Ok v.
Proof.
  intros [Hv [s Hs] _]. unfold version_to_domain, CacheRepo.u64_column. rewrite Hs. simpl.
  destruct (Z.leb_spec 0 (vr_version r)); [eauto|lia].
Qed.

Lemma activate_switched now vid db v db' :
  tables_ok db → activate now vid db = (Ok v, db') →
  ∃ r tr updated, versions db !! vid = Some r ∧ templates db !! vr_template_id r = Some tr ∧ ts now = Ok updated ∧
    version_to_domain vid (set_active true r) = Ok v ∧
    db' = switched (vr_template_id r)
      (mkTemplateRow (tr_name tr) (tr_description tr) (Some vid) (vr_version r) (tr_created_at tr) updated)
      vid (set_active true r) db.
Proof.
  intros Hok Ha. unfold activate in Ha. apply transact_Ok in Ha. destruct (versions db !! vid) as [r|] eqn:Hr; [|done].
  apply result_bind_Ok in Ha as (v0 & Hv0 & Ha). apply result_bind_Ok in Ha as (updated & Hup & [= <- <-]).
  destruct (to_owner _ Hok _ _ Hr) as [tr Htr]. exists r, tr, updated. split; [done|]. split; [done|].
  split; [done|]. pose proof (to_version _ Hok vid r Hr) as [Hrange _ _].
  apply version_to_domain_Ok in Hv0 as Hd. destruct Hd as (Hid & Ht & Hn & Hsp & Hy & _ & Hcr).
  rewrite Hid, Ht in *. split.
  - unfold version_to_domain. simpl. rewrite Hsp, Hn. simpl. by rewrite Hy, Hcr.
  - unfold activated, switched, deactivate_all, with_versions, with_templates. simpl. rewrite Hid, Ht. f_equal.
    + apply map_eq. intros i. destruct (decide (i = vr_template_id r)) as [->|Hne].
      * rewrite lookup_alter_eq, Htr, lookup_insert_eq. simpl. repeat f_equal. apply as_i64_of_N; [|done]. lia.
      * by rewrite lookup_alter_ne, lookup_insert_ne by done.
    + apply map_eq. intros i. destruct (decide (i = vid)) as [->|Hne].
      * rewrite lookup_alter_eq, lookup_fmap, Hr, lookup_insert_eq. simpl. f_equal. apply (set_active_deact (vr_template_id r)).
      * by rewrite lookup_alter_ne, lookup_insert_ne by done.
Qed.

(** ** Each call keeps the invariant *)

(** What a save binds together: the aggregate points at the version, the
    version belongs to the aggregate, and its document was accepted. *)
Definition save_ok (t : SubscriptionTemplate) (v : TemplateVersion) : Prop :=
  tv_template_id v = t_id t ∧ t_active_version_id t = Some (tv_id v) ∧ t_active_version t = tv_version v ∧
  tv_is_active v = true ∧ accepted (tv_spec_yaml v).

Definition op_ok (o : Op) : Prop :=
  match o with
  | OCreate t v => save_ok t v ∧ tv_version v = 1%N
  | OUpdate t v => save_ok t v
  | _ => True
  end.

Lemma create_ok t v db db' :
  tables_ok db → save_ok t v → tv_version v = 1%N → create_with_version t v db = (Ok (), db') → tables_ok db'.
Proof.
  intros Hok (Ht & Hp & Hn & Ha & Hy) H1 Hc. apply (create_switched _ _ _ _ Hok Ht) in Hc as (tr & r & Hca & ->).
  destruct Hca as [Hft Hfv Hnames (created & updated & _ & _ & ->) (json & vc & Hj & _ & ->)].
  apply switched_ok; simpl; rewrite ?Hn; try done.
  - split; simpl; [by rewrite H1|by apply (spec_json_reads (tv_spec v))|done].
  - intros r0 Hr0. congruence.
  - intros i x Hi _ Hx. by destruct (tables_fresh db (t_id t) Hok Hft i x Hi).
  - intros i x Hi _. by apply (Hnames i).
Qed.

Lemma max_version_range db t :
  tables_ok db → (0 ≤ max_version t db ≤ Z.of_N i64_max)%Z.
Proof.
  intros Hok. destruct (max_version_in t db) as [->|(i & r & Hi & _ & <-)]; [done|].
  destruct (vo_version _ (to_version _ Hok i r Hi)). lia.
Qed.

Lemma template_update_ok t v db n db' :
  tables_ok db → save_ok t v → update_tx t v db = Ok (n, db') → tables_ok db'.
Proof.
  intros Hok (Ht & Hp & _ & Ha & Hy) Hu. apply (update_switched _ _ _ _ _ Ht) in Hu as (tr & r & Hua & ->).
  destruct Hua as [Hfv Hn Hb Hnames (old & updated & _ & _ & ->) (json & vc & Hj & _ & ->)].
  pose proof (max_version_range db (t_id t) Hok). apply switched_ok; simpl; try done.
  - split; simpl; [unfold i64_max in *; lia|by apply (spec_json_reads (tv_spec v))|done].
  - intros r0 Hr0. congruence.
  - intros i x Hi _ Hx. pose proof (max_version_ge _ _ _ _ Hi Hx). lia.
Qed.

Lemma template_activate_ok now vid db v db' :
  tables_ok db → activate now vid db = (Ok v, db') → tables_ok db'.
Proof.
  intros Hok Ha. apply (activate_switched _ _ _ _ _ Hok) in Ha as (r & tr & updated & Hr & Htr & _ & _ & ->).
  apply switched_ok; simpl; try done.
  - eapply version_ok_content; [|by apply (to_version _ Hok vid)]. done.
  - intros r0 Hr0. by simplify_eq.
  - intros i x Hi Hne Hx Hv. apply Hne. by eapply (to_number _ Hok).
  - intros i x Hi Hne Hx. apply Hne. by eapply (to_names _ Hok).
Qed.

(** The tables after a template was deleted. *)
Definition removed (id : TemplateId) (db : Db) : Db :=
  mkDb (delete id (templates db)) (filter (λ kv, vr_template_id kv.2 ≠ id) (versions db))
    (filter (λ kv, CacheRepo.r_template_id kv.2 ≠ id) (cache db))
    (subscriptions db) (revision db) (withdrawal_revision db).

Lemma delete_row_Ok id db db' :
  delete_row id db = (Ok (), db') →
  is_Some (templates db !! id) ∧ Forall (λ s, CacheRepo.s_template_id s ≠ id) (subscriptions db) ∧
  db' = removed id db.
Proof.
  intros Hd. unfold delete_row in Hd. apply transact_Ok in Hd. destruct (templates db !! id) eqn:Ht; [|done].
  destruct (existsb _ _) eqn:Hs; [done|]. injection Hd as <-. split; [done|]. split; [|done].
  rewrite existsb_false in Hs. apply Forall_forall. intros s Hin. by apply N.eqb_neq, Hs.
Qed.

Lemma template_delete_ok id db db' : tables_ok db → delete_row id db = (Ok (), db') → tables_ok db'.
Proof.
  intros [Hn Hv Ho Hnum Hs Hp Hc Hsub Hcok] (_ & Hfree & ->)%delete_row_Ok.
  split; simpl.
  - intros i j r r' [_ Hi]%lookup_delete_Some [_ Hj]%lookup_delete_Some. by apply Hn.
  - intros i r [Hi _]%map_lookup_filter_Some. by apply (Hv i).
  - intros i r [Hi Hne]%map_lookup_filter_Some. simpl in Hne. rewrite lookup_delete_ne by done. by eapply Ho.
  - intros i j r r' [Hi _]%map_lookup_filter_Some [Hj _]%map_lookup_filter_Some. by apply Hnum.
  - intros i j r r' [Hi _]%map_lookup_filter_Some [Hj _]%map_lookup_filter_Some. by apply Hs.
  - intros t tr [Hne Ht]%lookup_delete_Some. destruct (Hp _ _ Ht) as (vid & r & ? & Hr & Hrt & ? & ?).
    exists vid, r. rewrite map_lookup_filter_Some. naive_solver.
  - intros i r [Hi Hne]%map_lookup_filter_Some. simpl in Hne. rewrite lookup_delete_ne by done. by apply (Hc i).
  - apply Forall_forall. intros s Hin. rewrite Forall_forall in Hsub, Hfree.
    rewrite lookup_delete_ne by (intros E; by apply (Hfree s Hin)). by apply Hsub.
  - assert (filter (λ kv, CacheRepo.r_template_id kv.2 ≠ id) (cache db) ⊆ CacheRepo.rows (cache_view db)) as Hsm
      by apply map_filter_subseteq.
    destruct (CacheRepo.cache_ok_subseteq _ _ Hsm Hcok). by split.
Qed.

(** How a call can change the tables. *)
Definition changed (o : Op) (db db' : Db) : Prop :=
  match o with
  | OCreate t v => create_with_version t v db = (Ok (), db')
  | OUpdate t v => ∃ n, update_tx t v db = Ok (n, db')
  | ODelete id => delete_row id db = (Ok (), db')
  | OActivate id => ∃ now v, activate now id db = (Ok v, db')
  | _ => False
  end.

Lemma exec_changed o st : st_db (exec o st).2 = st_db st ∨ changed o (st_db st) (st_db (exec o st).2).
Proof.
  destruct o; cbn; try (by left); unfold on_db.
  - destruct (create_with_version t v (st_db st)) as [[[]|e] db'] eqn:Hc; [by right|left]. by apply (transact_Err _ _ _ _ Hc).
  - unfold update_with_version. destruct (transact (update_tx t v) (st_db st)) as [[n|e] db'] eqn:Hc.
    + right. exists n. by apply transact_Ok in Hc.
    + left. by apply (transact_Err _ _ _ _ Hc).
  - destruct (delete_row id (st_db st)) as [[[]|e] db'] eqn:Hc; [by right|left]. by apply (transact_Err _ _ _ _ Hc).
  - destruct (activate (st_clock st) id (st_db st)) as [[v|e] db'] eqn:Hc; [|left; by apply (transact_Err _ _ _ _ Hc)].
    right. by exists (st_clock st), v.
Qed.

Lemma changed_ok o db db' : op_ok o → tables_ok db → changed o db db' → tables_ok db'.
Proof.
  intros Ho Hok Hc. destruct o; simpl in *; try done.
  - destruct Ho. by eapply create_ok.
  - destruct Hc as [n Hc]. by eapply template_update_ok.
  - by eapply template_delete_ok.
  - destruct Hc as (now & v & Hc). by eapply template_activate_ok.
Qed.

Lemma exec_ok o st : op_ok o → tables_ok (st_db st) → tables_ok (st_db (exec o st).2).
Proof. intros Ho Hok. destruct (exec_changed o st) as [->|Hc]; [done|]. by eapply changed_ok. Qed.

(** ** History *)

(** A version keeps its content as long as its template exists. *)
Definition kept (db db' : Db) : Prop :=
  ∀ i r, versions db !! i = Some r →
    (∃ r', versions db' !! i = Some r' ∧ same_content r r') ∨ templates db' !! vr_template_id r = None.

Lemma switched_kept t tr vid r db :
  (∀ r0, versions db !! vid = Some r0 → same_content r0 r) → kept db (switched t tr vid r db).
Proof.
  intros Hvid i x Hi. left. simpl. destruct (decide (i = vid)) as [->|Hne].
  - exists r. rewrite lookup_insert_eq. split; [done|]. by apply Hvid.
  - exists (deact t x). rewrite lookup_insert_ne, lookup_fmap, Hi by done. split; [done|]. apply deact_content.
Qed.

Lemma changed_kept o db db' : op_ok o → tables_ok db → changed o db db' → kept db db'.
Proof.
  intros Ho Hok Hc. destruct o; simpl in *; try done.
  - destruct Ho as [[Ht _] _]. apply (create_switched _ _ _ _ Hok Ht) in Hc as (tr & r & [? ? _ _ _] & ->).
    apply switched_kept. congruence.
  - destruct Ho as [Ht _], Hc as [n Hc]. apply (update_switched _ _ _ _ _ Ht) in Hc as (tr & r & [? _ _ _ _ _] & ->).
    apply switched_kept. congruence.
  - apply delete_row_Ok in Hc as (_ & _ & ->). intros i r Hi. simpl.
    destruct (decide (vr_template_id r = id)) as [->|Hne]; [right; by rewrite lookup_delete_eq|left].
    exists r. split; [|done]. by apply map_lookup_filter_Some.
  - destruct Hc as (now & v & Hc). apply (activate_switched _ _ _ _ _ Hok) in Hc as (r & tr & u & Hr & _ & _ & _ & ->).
    apply switched_kept. intros r0 Hr0. by simplify_eq.
Qed.

Lemma kept_refl db : kept db db.
Proof. intros i r Hi. left. eauto using same_content_refl. Qed.

Lemma exec_kept o st : op_ok o → tables_ok (st_db st) → kept (st_db st) (st_db (exec o st).2).
Proof. intros Ho Hok. destruct (exec_changed o st) as [->|Hc]; [apply kept_refl|]. by eapply changed_kept. Qed.

(** ** What commands ask for *)

Fixpoint All {X} (P : Op → Prop) (p : Prog X) : Prop :=
  match p with
  | Ret _ => True
  | Call o k => P o ∧ ∀ a, All P (k a)
  end.

Lemma All_bind {X Y} P (p : Prog X) (f : X → Prog Y) : All P p → (∀ x, All P (f x)) → All P (bind p f).
Proof. induction p as [x|o k IH]; simpl; [auto|]. intros [Ho Hk] Hf. eauto. Qed.

Lemma All_try {X Y} P (p : M X) (f : X → M Y) : All P p → (∀ x, All P (f x)) → All P (try p f).
Proof. intros Hp Hf. apply All_bind; [done|]. by intros []. Qed.

Lemma All_repo {X} P (p : Prog (Result TemplateError X)) : All P p → All P (repo p).
Proof. intros Hp. by apply All_bind. Qed.

Lemma checked_Ok name desc yaml doc :
  checked clash_validate name desc yaml = Ok doc →
  validate_name name = Ok () ∧ validate_description desc = Ok () ∧
  parse_document yaml = Ok doc ∧ TemplateCommands.validate_document clash_validate doc yaml = Ok ().
Proof.
  intros Hc. apply result_bind_Ok in Hc as ([] & Hn & Hc). apply result_bind_Ok in Hc as ([] & Hd & Hc).
  apply result_bind_Ok in Hc as (doc' & Hp & Hc). by apply result_bind_Ok in Hc as ([] & Hv & [= ->]).
Qed.

Lemma checked_accepted name desc yaml doc : checked clash_validate name desc yaml = Ok doc → accepted yaml.
Proof. intros (_ & _ & Hp & Hv)%checked_Ok. by exists doc. Qed.

Lemma create_asks tid vid name desc yaml : All op_ok (create_template clash_validate tid vid name desc yaml).
Proof.
  unfold create_template. destruct (checked _ _ _ _) as [doc|] eqn:Hc; simpl; [|done].
  split; [done|]. intros t_now. split; [done|]. intros v_now. split; [|by intros [[]|]].
  split; [|done]. unfold save_ok. simpl. split_and!; try done. by eapply checked_accepted.
Qed.

Lemma update_asks id vid name desc yaml : All op_ok (update_template clash_validate id vid name desc yaml).
Proof.
  unfold update_template. destruct (checked _ _ _ _) as [doc|] eqn:Hc; simpl; [|done].
  split; [done|]. intros [[old|]|]; simpl; try done.
  split; [done|]. intros t_now. split; [done|]. intros v_now. split; [|by intros []].
  unfold save_ok. simpl. split_and!; try done. by eapply checked_accepted.
Qed.

Lemma rollback_asks t vid : All op_ok (rollback_template t vid).
Proof.
  split; [done|]. intros [[v|]|]; try done. cbn. destruct (negb _); [done|]. split; [done|]. by intros [].
Qed.

Lemma versions_before_asks t before : All op_ok (list_versions_before t before).
Proof. unfold list_versions_before. destruct (match before with None => false | Some _ => _ end); by simpl. Qed.

Lemma prog_of_ok r : All op_ok (prog_of clash_validate r).
Proof.
  destruct r; cbn [prog_of]; unfold forget; (apply All_bind; [|done]);
    auto using create_asks, update_asks, rollback_asks, versions_before_asks; split; try done; by intros [].
Qed.

(** ** Steps *)

Record config_ok (c : Config) : Prop := {
  co_tables : tables_ok (st_db (cf_st c));
  co_tasks : Forall (All op_ok) (cf_tasks c)
}.

Lemma template_answers_db o st a st' : answers o st a st' → st' = st ∨ st' = (exec o st).2.
Proof. destruct 1; auto. Qed.

Lemma cache_step_templates db ev : CacheRepo.templates (CacheRepo.step db ev) = CacheRepo.templates db.
Proof. destruct ev; simpl; try done; [unfold CacheRepo.store|unfold CacheRepo.activate]; by repeat case_match. Qed.

(** A cache row's template was the row's before, or is checked on insertion. *)
Lemma cache_step_owner db ev i r' :
  CacheRepo.rows (CacheRepo.step db ev) !! i = Some r' →
  (∃ r, CacheRepo.rows db !! i = Some r ∧ CacheRepo.r_template_id r' = CacheRepo.r_template_id r) ∨
  CacheRepo.r_template_id r' ∈ CacheRepo.templates db.
Proof.
  destruct ev; simpl; [| |by eauto..].
  - unfold CacheRepo.store. case_goal; [by eauto|]. destruct (CacheRepo.insertable _ _) eqn:Hins; [|by eauto].
    simpl. intros Hr. eapply lookup_weaken in Hr; [|apply CacheRepo.delete_rows_subseteq].
    apply lookup_insert_Some in Hr as [[_ <-]|[_ Hr]]; [right|left; eauto].
    unfold CacheRepo.insertable in Hins. apply andb_true_iff in Hins as [_ Hins]. by apply bool_decide_eq_true in Hins.
  - unfold CacheRepo.activate. rewrite CacheRepo.deactivate_lookup.
    destruct (CacheRepo.rows db !! id) as [r0|] eqn:H0; simpl; [|by eauto]. case_goal; [|by eauto]. simpl.
    intros [[<- <-]|[_ Hr]]%lookup_insert_Some; left.
    + exists r0. split; [done|]. simpl. by case_match.
    + rewrite lookup_fmap, fmap_Some in Hr. destruct Hr as (r & Hr & ->). exists r. split; [done|]. by destruct (CacheRepo.for_profile t p r && _).
Qed.

Lemma cache_step_subs db ev :
  CacheRepo.subscriptions (CacheRepo.step db ev) =
    match ev with CacheRepo.ESubscriptions subs => subs | _ => CacheRepo.subscriptions db end.
Proof. destruct ev; simpl; try done; [unfold CacheRepo.store|unfold CacheRepo.activate]; by repeat case_match. Qed.

Lemma cache_view_step ev db :
  cache_view (with_cache_view (CacheRepo.step (cache_view db) ev) db) = CacheRepo.step (cache_view db) ev.
Proof.
  unfold cache_view at 1. cbn [with_cache_view templates cache subscriptions revision withdrawal_revision].
  pose proof (cache_step_templates (cache_view db) ev) as Ht. cbn [cache_view CacheRepo.templates] in Ht.
  rewrite <-Ht. by destruct (CacheRepo.step (cache_view db) ev).
Qed.

Lemma cache_step_ok ev db :
  cache_event ev db → tables_ok db → tables_ok (with_cache_view (CacheRepo.step (cache_view db) ev) db).
Proof.
  intros Hev [Hn Hv Ho Hnum Hs Hp Hc Hsub Hcok].
  split; [exact Hn|exact Hv|exact Ho|exact Hnum|exact Hs|exact Hp| | |].
  - intros i r Hi. cbn [with_cache_view cache templates] in *.
    apply cache_step_owner in Hi as [(r0 & Hi & ->)|Hd]; [by apply (Hc i)|]. by apply elem_of_dom.
  - cbn [with_cache_view subscriptions templates]. rewrite cache_step_subs. by destruct ev.
  - rewrite cache_view_step. by apply CacheRepo.step_cache_ok.
Qed.

Lemma template_step_ok c c' : config_ok c → step clash_validate c c' → config_ok c' ∧ kept (st_db (cf_st c)) (st_db (cf_st c')).
Proof.
  intros [Ht Hk] Hstep. destruct Hstep as [c r|c i o k a st' Hi Ha|c clock|c ev Hev]; simpl.
  - split; [|apply kept_refl]. split; simpl; [done|]. apply Forall_app. split; [done|].
    rewrite Forall_singleton. apply prog_of_ok.
  - destruct (Forall_lookup_1 _ _ _ _ Hk Hi) as [Ho Hka].
    assert (tables_ok (st_db st') ∧ kept (st_db (cf_st c)) (st_db st')) as [Ht' Hkept].
    { apply template_answers_db in Ha as [-> | ->]; [by auto using kept_refl|]. auto using exec_ok, exec_kept. }
    split; [|done]. split; simpl; [done|]. apply Forall_insert; [done|]. apply Hka.
  - by split; [|apply kept_refl].
  - split; [|exact (kept_refl (st_db (cf_st c)))]. split; [|done]. by apply cache_step_ok.
Qed.

Lemma steps_ok c c' : config_ok c → rtc (step clash_validate) c c' → config_ok c'.
Proof. intros Hok Hs. induction Hs as [|c c1 c' Hs _ IH]; [done|]. apply IH. by eapply template_step_ok. Qed.

End invariant.

End TemplateInv.
