(* ===== verification/TemplateTheorems.v ===== *)
(** * Templates: what saving, rolling back and reading guarantee

    The theorems on the template commands, for every configuration the server
    can reach: the tables stay consistent, saved versions are never altered,
    each command's outcome on every branch, the history pages, and that the
    generation pipeline finds the version the administrator activated. *)

From stdpp Require Import relations.
From S2P Require Import Prelude Kernel Template GenTypes Text Validation CacheKey CacheRepo Generation Templates.
From S2P Require Import TemplateCommands TemplateInv.
Import Templates TemplateCommands TemplateInv.

Module TemplateTheorems.
Import Generation.

(** A new installation; the pool counters are the pool's own. *)
Definition empty_tables (revision withdrawal : Z) : Db := mkDb ∅ ∅ ∅ [] revision withdrawal.

(** Strictly newest first. *)
Definition newest_first (l : list (N * VersionRow)) : Prop :=
  StronglySorted (λ a b, (vr_version b.2 < vr_version a.2)%Z) l.

Section theorems.
Context {ext : Externals} {codec : SpecCodec}.
Variable clash_validate : string → Result TemplateAppError ().

Abbreviation ok := (tables_ok clash_validate).

Definition reachable (c : Config) : Prop :=
  ∃ revision withdrawal clock, (0 ≤ withdrawal ≤ revision)%Z ∧
    rtc (step clash_validate) (mkConfig (mkSt (empty_tables revision withdrawal) clock) []) c.

Lemma reachable_config c : reachable c → config_ok clash_validate c.
Proof.
  intros (rev & w & clock & Hw & Hs). eapply steps_ok; [|exact Hs]. split; [|done].
  split; simpl; try done. split; simpl; try done. lia.
Qed.

(** The invariant at a reachable configuration. *)
Lemma reachable_ok c : reachable c → ok (st_db (cf_st c)).
Proof. intros Hr. apply (co_tables _ _ (reachable_config c Hr)). Qed.

Lemma reachable_steps c c' : reachable c → rtc (step clash_validate) c c' → reachable c'.
Proof. intros (rev & w & clock & Hw & Hs) Hs'. exists rev, w, clock. split; [done|]. by etrans. Qed.

(** ** Reads on consistent tables *)

Lemma find_active_at db t vid r :
  ok db → versions db !! vid = Some r → vr_template_id r = t → vr_is_active r = true →
  find_active t db = let? v := version_to_domain vid r in Ok (Some v).
Proof.
  intros Hok Hr Ht Ha. unfold find_active. erewrite (find_unique _ _ (vid, r)); [done|by apply elem_of_history|done|].
  intros [i x] [Hi Hx]%elem_of_history Hax. simpl in Hax.
  assert (i = vid) as -> by (eapply (to_single _ _ Hok); eauto; congruence). by simplify_eq.
Qed.

Lemma find_number_at db t n vid r :
  ok db → versions db !! vid = Some r → vr_template_id r = t → vr_version r = CacheRepo.as_i64 n →
  find_by_version_number t n db = let? v := version_to_domain vid r in Ok (Some v).
Proof.
  intros Hok Hr Ht Hn. unfold find_by_version_number. erewrite (find_unique _ _ (vid, r)); [done|by apply elem_of_history| |].
  - by apply Z.eqb_eq.
  - intros [i x] [Hi Hx]%elem_of_history Hax%Z.eqb_eq. simpl in Hax.
    assert (i = vid) as -> by (eapply (to_number _ _ Hok); eauto; congruence). by simplify_eq.
Qed.

Lemma find_by_id_at db t tr :
  ok db → templates db !! t = Some tr →
  ∃ n, Z.of_N n = tr_active_version tr ∧ find_by_id t db = Ok (Some (mkTemplate t (tr_name tr) (tr_description tr)
    (tr_active_version_id tr) n (tr_created_at tr) (tr_updated_at tr))).
Proof.
  intros Hok Ht. destruct (to_pointer _ _ Hok t tr Ht) as (vid & r & _ & Hr & _ & _ & Hv).
  pose proof (vo_version _ _ (to_version _ _ Hok vid r Hr)) as Hrange.
  exists (Z.to_N (tr_active_version tr)). split; [lia|].
  unfold find_by_id, transpose_with, template_to_domain, CacheRepo.u64_column. rewrite Ht. simpl.
  destruct (Z.leb_spec 0 (tr_active_version tr)); [done|lia].
Qed.

Lemma find_by_name_at db t tr :
  ok db → templates db !! t = Some tr → find_by_name (tr_name tr) db = find_by_id t db.
Proof.
  intros Hok Ht. unfold find_by_name, find_by_id. rewrite Ht.
  erewrite (find_unique _ _ (t, tr)); [done|by apply elem_of_map_to_list|by apply String.eqb_eq|].
  intros [j x] Hj%elem_of_map_to_list Hx%String.eqb_eq. simpl in *.
  assert (j = t) as -> by (eapply (to_names _ _ Hok); eauto). by simplify_eq.
Qed.

Lemma get_by_name_run db clock t name desc vid created updated :
  ok db → templates db !! t = Some (mkTemplateRow name desc vid 1 created updated) →
  run (get_template_by_name name) (mkSt db clock) =
    (Ok (Some (mkTemplate t name desc vid 1 created updated)), mkSt db clock).
Proof.
  intros Hok Ht. cbn. unfold query. cbn [st_db].
  rewrite (find_by_name_at _ _ _ Hok Ht : find_by_name name db = _).
  destruct (find_by_id_at _ _ _ Hok Ht) as (n & Hn & ->). simpl in *. by replace n with 1%N by lia.
Qed.

(** ** Consistency and history *)

(** C13: Whatever commands the server runs, however their calls interleave and
    wherever the database fails, the tables stay consistent: template names
    and version numbers are unique, every version belongs to a template and
    holds a document validation accepts, every template points at exactly one
    active version whose number it repeats, and no cache entry or subscription
    refers to a template that is gone. *)
Theorem template_tables_invariant c : reachable c → tables_ok clash_validate (st_db (cf_st c)).
Proof. apply reachable_ok. Qed.

(** A saved version is immutable: as the server goes on, its row keeps the
    template, the number, the specification and the text it was saved with;
    it disappears only if its template was deleted on the way. *)
Theorem version_history_kept c c' i r :
  reachable c → rtc (step clash_validate) c c' → versions (st_db (cf_st c)) !! i = Some r →
  (∃ r', versions (st_db (cf_st c')) !! i = Some r' ∧ same_content r r') ∨
  ∃ c1, rtc (step clash_validate) c c1 ∧ rtc (step clash_validate) c1 c' ∧
    templates (st_db (cf_st c1)) !! vr_template_id r = None.
Proof.
  intros Hok%reachable_config Hs. revert r.
  induction Hs as [c|c c1 c' Hs Hrest IH]; intros r Hr; [left; eauto using same_content_refl|].
  destruct (template_step_ok _ _ _ Hok Hs) as [Hok1 Hk]. destruct (Hk i r Hr) as [(r1 & Hr1 & Hc1)|Hgone].
  - destruct (IH Hok1 r1 Hr1) as [(r' & Hr' & Hc')|(c2 & H12 & H2' & Hgone)].
    + left. exists r'. split; [done|]. by etrans.
    + right. exists c2. destruct Hc1 as [Ht _]. rewrite Ht in Hgone. split; [by eapply rtc_l|done].
  - right. exists c1. split; [by apply rtc_once|done].
Qed.

(** ** Switching a template *)

(** Nothing outside template [t] changed. *)
Definition untouched (t : TemplateId) (db db' : Db) : Prop :=
  (∀ j, j ≠ t → templates db' !! j = templates db !! j) ∧
  (∀ i r, vr_template_id r ≠ t → versions db' !! i = Some r ↔ versions db !! i = Some r) ∧
  cache db' = cache db ∧ subscriptions db' = subscriptions db ∧
  revision db' = revision db ∧ withdrawal_revision db' = withdrawal_revision db.

(** The version [vid] is the one the template serves: the aggregate points at
    it and the other versions are inactive. *)
Definition serves (t : TemplateId) (vid : N) (db : Db) : Prop :=
  (∃ tr r, templates db !! t = Some tr ∧ tr_active_version_id tr = Some vid ∧ versions db !! vid = Some r ∧
     vr_template_id r = t ∧ tr_active_version tr = vr_version r) ∧
  ∀ i r, versions db !! i = Some r → vr_template_id r = t → vr_is_active r = bool_decide (i = vid).

Lemma switched_serves t tr vid r db :
  vr_template_id r = t → vr_is_active r = true → tr_active_version_id tr = Some vid →
  tr_active_version tr = vr_version r → serves t vid (switched t tr vid r db).
Proof.
  intros Ht Ha Hp Hv. split.
  - exists tr, r. unfold switched. simpl. rewrite !lookup_insert_eq. done.
  - intros i x Hi Hx. unfold switched in Hi. simpl in Hi. apply lookup_insert_Some in Hi as [[<- <-]|[Hne Hi]].
    + by rewrite bool_decide_true.
    + rewrite bool_decide_false by done. apply lookup_deact in Hi as (y & Hy & ->). rewrite deact_template in Hx.
      apply not_true_is_false. rewrite deact_active. tauto.
Qed.

Lemma switched_untouched t tr vid r db :
  vr_template_id r = t → (∀ r0, versions db !! vid = Some r0 → vr_template_id r0 = t) →
  untouched t db (switched t tr vid r db).
Proof.
  intros Ht Hold. unfold switched. split; simpl; [intros j Hj; by rewrite lookup_insert_ne|].
  split; [|done]. intros i x Hx. rewrite lookup_insert_Some, lookup_deact. split.
  - intros [[_ <-]|[_ (y & Hy & ->)]]; [done|]. rewrite deact_template in Hx. by rewrite deact_other.
  - intros Hi. right. split; [intros <-; by apply Hx, Hold|]. exists x. by rewrite deact_other.
Qed.

Lemma u64_column_Ok z m n : CacheRepo.u64_column z m = Ok n → Z.of_N n = z.
Proof. unfold CacheRepo.u64_column. destruct (Z.leb_spec 0 z); [|done]. intros [= <-]. by rewrite Z2N.id. Qed.

(** ** Saving *)

(** Saved versions are all still there, with their content. *)
Definition history_kept (db db' : Db) : Prop :=
  ∀ i r, versions db !! i = Some r → ∃ r', versions db' !! i = Some r' ∧ same_content r r'.

Lemma switched_history t tr vid r db :
  (∀ r0, versions db !! vid = Some r0 → same_content r0 r) → history_kept db (switched t tr vid r db).
Proof.
  intros Hv i x Hi. unfold switched. simpl. destruct (decide (i = vid)) as [->|Hne].
  - exists r. rewrite lookup_insert_eq. split; [done|]. by apply Hv.
  - exists (deact t x). rewrite lookup_insert_ne, lookup_fmap, Hi by done. split; [done|]. apply deact_content.
Qed.

(** A committed update, seen from the command. *)
Lemma run_update id vid name desc yaml st t v st' :
  ok (st_db st) → run (update_template clash_validate id vid name desc yaml) st = (Ok (t, v), st') →
  ∃ n tr r, updated_as (mkTemplate id name desc (Some vid) 0 (t_created_at t) (t_updated_at t))
      (mkTemplateVersion vid id 0 (tv_spec v) yaml true (tv_created_at v)) (st_db st) (Z.of_N n) tr r ∧
    st_db st' = switched id tr vid r (st_db st) ∧
    t = mkTemplate id name desc (Some vid) n (t_created_at t) (t_updated_at t) ∧
    v = mkTemplateVersion vid id n (tv_spec v) yaml true (tv_created_at v).
Proof.
  intros Hok. unfold update_template. destruct (checked _ _ _ _) as [doc|]; [|done]. cbn.
  destruct (templates (st_db st) !! id) as [tr|] eqn:Htr; [|unfold find_by_id; by rewrite Htr].
  destruct (find_by_id_at _ _ _ Hok Htr) as (m & Hm & ->). cbn.
  unfold on_db, update_with_version.
  destruct (transact _ _) as [[n|e] db'] eqn:Hu; cbn; [|done]. apply transact_Ok in Hu.
  destruct (CacheRepo.u64_column _ _) as [n'|] eqn:Hn'; [|done]. cbn. intros [= <- <- <-].
  apply u64_column_Ok in Hn' as <-.
  apply update_switched in Hu as (tr' & r & Hua & Hdb); [|done]. exists n', tr', r. by cbn.
Qed.

(** C18: A successful update appends to the history: the new version takes the
    number after the largest one ever used by the template, also after a
    rollback, so it differs from every earlier number; it becomes the one
    version the template serves, with the text that was submitted; the earlier
    versions keep their content and nothing outside the template changes. *)
Theorem update_appends c id vid name desc yaml t v st' :
  reachable c → run (update_template clash_validate id vid name desc yaml) (cf_st c) = (Ok (t, v), st') →
  let db := st_db (cf_st c) in
  let db' := st_db st' in
  Z.of_N (tv_version v) = (max_version id db + 1)%Z ∧ t_active_version t = tv_version v ∧
  (∀ i r, versions db !! i = Some r → vr_template_id r = id → (vr_version r < Z.of_N (tv_version v))%Z) ∧
  serves id vid db' ∧ history_kept db db' ∧ untouched id db db' ∧
  ∃ r, versions db' !! vid = Some r ∧ vr_version r = Z.of_N (tv_version v) ∧ vr_spec_yaml r = yaml ∧
    accepted clash_validate yaml.
Proof.
  intros Hr%reachable_ok Hrun. simpl. pose proof Hrun as Hck. apply (run_update _ _ _ _ _ _ _ _ _ Hr) in Hrun
    as (n & tr & r & [Hfv Hn Hb Hnames (old & updated & _ & _ & ->) (json & vc & Hj & _ & ->)] & -> & -> & ->).
  simpl in *. split; [done|]. split; [done|]. split; [|split; [|split; [|split]]].
  - intros i r Hi Hx. pose proof (max_version_ge _ _ _ _ Hi Hx). lia.
  - by apply switched_serves.
  - apply switched_history. congruence.
  - apply switched_untouched; [done|]. congruence.
  - eexists. unfold switched. simpl. rewrite lookup_insert_eq. split; [done|]. split; [done|]. split; [done|].
    unfold update_template in Hck. destruct (checked _ _ _ _) as [doc|] eqn:Hc; [|done]. by eapply checked_accepted.
Qed.

(** The outcome of storing a checked document under a fresh identifier. *)
Lemma create_with_version_run t v db :
  ok db → save_ok clash_validate t v → templates db !! t_id t = None → versions db !! tv_id v = None →
  is_ok (ts (t_created_at t)) → is_ok (ts (t_updated_at t)) → is_ok (ts (tv_created_at v)) →
  is_ok (spec_to_json (tv_spec v)) →
  if name_taken (t_name t) (t_id t) db then create_with_version t v db = (Err TE_NameExists, db)
  else ∃ db', create_with_version t v db = (Ok (), db').
Proof.
  intros Hok (Htv & _) Ht Hv Hc Hu Hvc Hj. unfold create_with_version, transact, spec_json.
  destruct (ts (t_created_at t)) as [c|]; [|done]. destruct (ts (t_updated_at t)) as [u|]; [|done].
  destruct (ts (tv_created_at v)) as [vc|]; [|done]. destruct (spec_to_json _) as [j|]; [|done]. simpl.
  unfold insert_template. rewrite Ht. rewrite bool_decide_false by by intros []. simpl.
  destruct (name_taken _ _ _); [done|]. simpl. unfold insert_version. simpl. rewrite Hv.
  rewrite bool_decide_false by by intros []. rewrite Htv. simpl.
  assert (∀ p, any_version (t_id t) p (with_templates (<[t_id t := mkTemplateRow (t_name t) (t_description t)
    (t_active_version_id t) (CacheRepo.as_i64 (t_active_version t)) c u]> (templates db)) db) = false) as Hany.
  { intros p. apply existsb_false. intros [i r] Hi%elem_of_map_to_list. simpl in *.
    pose proof (tables_fresh _ _ _ Hok Ht i r Hi) as Hne. by apply N.eqb_neq in Hne as ->. }
  rewrite !Hany, andb_false_r. rewrite lookup_insert_eq, bool_decide_false by done. eauto.
Qed.

(** Creating a template with fresh identifiers has exactly these outcomes:
    a name, description or document that fails the checks is rejected with the
    first failing check's error; a name in use is rejected as such; both leave
    the tables alone.  Otherwise the template exists with the submitted name
    and text as version 1, which it serves, it is found under its name, and
    nothing else changes. *)
Theorem create_outcome c tid vid name desc yaml at_ :
  reachable c → templates (st_db (cf_st c)) !! tid = None → versions (st_db (cf_st c)) !! vid = None →
  ts (st_clock (cf_st c)) = Ok at_ →
  let st := cf_st c in
  match checked clash_validate name desc yaml with
  | Err e => run (create_template clash_validate tid vid name desc yaml) st = (Err e, st)
  | Ok doc =>
      is_ok (spec_to_json (spec doc)) →
      if name_taken name tid (st_db st)
      then run (create_template clash_validate tid vid name desc yaml) st = (Err NameExists, st)
      else ∃ t v st', run (create_template clash_validate tid vid name desc yaml) st = (Ok (t, v), st') ∧
        tv_version v = 1%N ∧ tv_spec v = spec doc ∧ tv_spec_yaml v = yaml ∧ serves tid vid (st_db st') ∧
        untouched tid (st_db st) (st_db st') ∧
        run (get_template_by_name name) st' = (Ok (Some (mkTemplate tid name desc (Some vid) 1 at_ at_)), st')
  end.
Proof.
  intros Hok%reachable_ok Ht Hv Hat st. unfold create_template.
  destruct (checked clash_validate name desc yaml) as [doc|e] eqn:Hc; [|done]. intros Hj.
  set (t := mkTemplate tid name desc (Some vid) 1 (st_clock st) (st_clock st)).
  set (v := mkTemplateVersion vid tid 1 (spec doc) yaml true (st_clock st)).
  assert (save_ok clash_validate t v) as Hsave.
  { unfold save_ok. simpl. split_and!; try done. by eapply checked_accepted. }
  assert (is_ok (ts (st_clock st))) as Hts by (unfold st; by rewrite Hat).
  pose proof (create_with_version_run t v (st_db st) Hok Hsave Ht Hv Hts Hts Hts Hj) as Hrun. cbn [t_name t_id t] in Hrun.
  change (run _ st) with (let '(a, st') := on_db (create_with_version t v) st in
    run (try (Ret (map_err map_template_error a)) (λ _, Ret (Ok (t, v)))) st').
  unfold on_db. destruct (name_taken name tid (st_db st)) eqn:Hnt.
  - rewrite Hrun. by destruct st.
  - destruct Hrun as [db' Hdb]. rewrite Hdb. cbn.
    pose proof (create_ok _ _ _ _ _ Hok Hsave eq_refl Hdb) as Hok'.
    apply (create_switched _ _ _ _ _ Hok) in Hdb as (tr & r & Hca & ->); [|done].
    destruct Hca as [_ _ Hnames (c0 & u0 & Hc0 & Hu0 & ->) (json & vc & _ & _ & ->)]. cbn [t_created_at t_updated_at t] in Hc0, Hu0.
    unfold st in Hc0, Hu0. rewrite Hat in Hc0, Hu0. simplify_eq. eexists _, _, _. split; [done|].
    split; [done|]. split; [done|]. split; [done|]. split; [|split].
    + by apply switched_serves.
    + apply switched_untouched; [done|]. simpl. unfold st. congruence.
    + apply get_by_name_run; [done|]. unfold switched. simpl. by rewrite lookup_insert_eq.
Qed.

(** ** Rolling back *)

(** Activating a stored version succeeds. *)
Lemma activate_run db vid r now updated :
  ok db → versions db !! vid = Some r → ts now = Ok updated →
  ∃ v0 v tr, version_to_domain vid r = Ok v0 ∧ version_to_domain vid (set_active true r) = Ok v ∧
    templates db !! vr_template_id r = Some tr ∧
    activate now vid db = (Ok v, switched (vr_template_id r) (mkTemplateRow (tr_name tr) (tr_description tr)
      (Some vid) (vr_version r) (tr_created_at tr) updated) vid (set_active true r) db).
Proof.
  intros Hok Hr Hts. destruct (version_to_domain_total _ vid r (to_version _ _ Hok vid r Hr)) as [v0 Hv0].
  destruct (activate now vid db) as [[v|e] db'] eqn:Ha.
  - apply (activate_switched _ _ _ _ _ _ Hok) in Ha as (r' & tr & u & Hr' & Htr & Hu & Hv & ->).
    simplify_eq. rewrite Hts in Hu. apply Ok_inj in Hu as <-. by exists v0, v, tr.
  - unfold activate, transact in Ha. by rewrite Hr, Hv0, Hts in Ha.
Qed.

(** Rolling template [t] back to version [vid] has exactly these outcomes:
    an unknown version and a version of another template are refused without
    effect; otherwise [t] serves [vid] from then on, with the text and number
    it was saved with, keeps its name, description and whole history, and
    nothing outside the template changes. *)
Theorem rollback_outcome c t vid at_ :
  reachable c → ts (st_clock (cf_st c)) = Ok at_ →
  let st := cf_st c in
  let db := st_db st in
  match versions db !! vid with
  | None => run (rollback_template t vid) st = (Err VersionNotFound, st)
  | Some r =>
      if N.eqb (vr_template_id r) t
      then ∃ v st' tr tr', run (rollback_template t vid) st = (Ok v, st') ∧
        find_active t (st_db st') = Ok (Some v) ∧ tv_id v = vid ∧ Z.of_N (tv_version v) = vr_version r ∧
        tv_spec_yaml v = vr_spec_yaml r ∧ serves t vid (st_db st') ∧ history_kept db (st_db st') ∧
        untouched t db (st_db st') ∧ templates db !! t = Some tr ∧ templates (st_db st') !! t = Some tr' ∧
        tr_name tr' = tr_name tr ∧ tr_description tr' = tr_description tr
      else run (rollback_template t vid) st = (Err VersionTemplateMismatch, st)
  end.
Proof.
  intros Hok%reachable_ok Hat st db. destruct (versions db !! vid) as [r|] eqn:Hr; unfold rollback_template; cbn;
    unfold query, find_version; fold db; rewrite Hr; [|done].
  destruct (activate_run _ _ _ _ _ Hok Hr Hat) as (v0 & v & tr & Hv0 & Hv & Htr & Ha).
  pose proof (version_to_domain_Ok _ _ _ Hv0) as (_ & Ht & _). cbn. rewrite Hv0. cbn. rewrite Ht.
  destruct (N.eqb_spec (vr_template_id r) t) as [<-|Hne]; [|done]. cbn. unfold on_db.
  pose proof (TemplateInv.template_activate_ok _ _ _ _ _ _ Hok Ha) as Hok'. fold db st in Ha. rewrite Ha. cbn.
  match type of Ha with _ = (_, ?d) => assert (versions d !! vid = Some (set_active true r)) as Hin
    by (unfold switched; simpl; by rewrite lookup_insert_eq) end.
  eexists v, _, tr, _. split; [done|]. split.
  { etrans; [exact (find_active_at _ _ _ _ Hok' Hin eq_refl eq_refl)|]. by rewrite Hv. }
  pose proof (version_to_domain_Ok _ _ _ Hv) as (-> & _ & Hnv & _ & -> & _ & _). split; [done|].
  split; [by apply u64_column_Ok in Hnv|]. split; [done|]. split; [by apply switched_serves|].
  assert (∀ r0, versions db !! vid = Some r0 → r0 = r) as Hsame by (intros r0; rewrite Hr; by intros [= <-]).
  split; [apply switched_history; by intros r0 ->%Hsame|].
  split; [apply switched_untouched; [done|]; by intros r0 ->%Hsame|].
  split; [done|]. split; [unfold switched; simpl; by rewrite lookup_insert_eq|done].
Qed.

(** ** Deleting and failing *)

(** [db'] is [db] less everything that belongs to template [id]. *)
Definition without (id : TemplateId) (db db' : Db) : Prop :=
  (∀ j, templates db' !! j = if N.eqb j id then None else templates db !! j) ∧
  (∀ i r, versions db' !! i = Some r ↔ versions db !! i = Some r ∧ vr_template_id r ≠ id) ∧
  (∀ i r, cache db' !! i = Some r ↔ cache db !! i = Some r ∧ CacheRepo.r_template_id r ≠ id) ∧
  subscriptions db' = subscriptions db ∧ revision db' = revision db ∧
  withdrawal_revision db' = withdrawal_revision db.

(** Deleting a template has exactly these outcomes: an unknown template is
    reported; one a subscription uses is refused as in use; otherwise the
    template is gone with all its versions and cached generations, and the
    rows of every other template stay. *)
Theorem delete_outcome st id :
  let db := st_db st in
  match templates db !! id with
  | None => run (delete_template id) st = (Err TemplateNotFound, st)
  | Some _ =>
      if existsb (λ s, N.eqb (CacheRepo.s_template_id s) id) (subscriptions db)
      then run (delete_template id) st = (Err (Template TE_InUse), st)
      else ∃ st', run (delete_template id) st = (Ok (), st') ∧
        without id db (st_db st')
  end.
Proof.
  intros db. unfold delete_template. cbn. unfold on_db, delete_row, transact. fold db.
  destruct (templates db !! id) as [tr|] eqn:Ht; [|by destruct st].
  destruct (existsb _ _); [by destruct st|]. cbn. eexists. split; [done|]. unfold without. cbn. split; [|split; [|split; [|done]]].
  - intros j. destruct (N.eqb_spec j id) as [->|Hne]; [apply lookup_delete_eq|by rewrite lookup_delete_ne].
  - intros i r. apply map_lookup_filter_Some.
  - intros i r. apply map_lookup_filter_Some.
Qed.

Lemma update_with_version_Err t v db e db' :
  ok db → update_with_version t v db = (Err e, db') → db' = db.
Proof.
  intros Hok. unfold update_with_version. destruct (transact _ _) as [[n|e'] db1] eqn:Hu.
  - apply transact_Ok in Hu. intros [= Hn <-]. exfalso. revert Hn. unfold CacheRepo.u64_column.
    destruct (Z.leb_spec 0 n); [done|]. intros _. unfold update_tx in Hu.
    apply result_bind_Ok in Hu as (? & _ & Hu). apply result_bind_Ok in Hu as (? & _ & Hu).
    apply result_bind_Ok in Hu as (? & _ & Hu). apply result_bind_Ok in Hu as (next & Hnx & Hu).
    apply result_bind_Ok in Hu as (? & _ & Hu). apply result_bind_Ok in Hu as (? & _ & [= <- _]).
    unfold next_version in Hnx. destruct (templates db !! _); [|done]. destruct (Z.eqb _ _); [done|].
    apply Ok_inj in Hnx as <-. pose proof (max_version_range clash_validate db (t_id t) Hok). lia.
  - apply transact_Err in Hu as ->. by intros [= _ <-].
Qed.

(** ** Commands under interleaving and failures *)

(** One call of a command: the tables it found, its answer, and what it left. *)
Record Turn := mkTurn { tn_op : Op; tn_before : St; tn_answer : Ans tn_op; tn_after : St }.

(** The calls of a command up to some moment, and what remains of it.  Between
    two calls anything may happen: each call finds the tables of some reachable
    state.  A call is answered, fails, or takes effect and loses its answer. *)
Inductive conducted {X} : Prog X → list Turn → Prog X → Prop :=
  | conducted_here p : conducted p [] p
  | conducted_call o k c a st' turns q :
      reachable c → answers o (cf_st c) a st' → conducted (k a) turns q →
      conducted (Call o k) (mkTurn o (cf_st c) a st' :: turns) q.

Definition writes (o : Op) : bool :=
  match o with OCreate _ _ | OUpdate _ _ | ODelete _ | OActivate _ => true | _ => false end.

(** The error a write was answered with. *)
Definition write_error (o : Op) : Ans o → option TemplateError :=
  match o return Ans o → option TemplateError with
  | OCreate _ _ | ODelete _ => λ a, match a with Err e => Some e | Ok _ => None end
  | OUpdate _ _ => λ a, match a with Err e => Some e | Ok _ => None end
  | OActivate _ => λ a, match a with Err e => Some e | Ok _ => None end
  | _ => λ _, None
  end.

Definition unchanged (t : Turn) : Prop := st_db (tn_after t) = st_db (tn_before t).

(** The write a request asks for. *)
Definition own_write (r : Request) (o : Op) : Prop :=
  match r, o with
  | RCreate tid vid name desc yaml, OCreate t v =>
      t_id t = tid ∧ t_name t = name ∧ t_description t = desc ∧ t_active_version_id t = Some vid ∧
      tv_id v = vid ∧ tv_template_id v = tid ∧ tv_spec_yaml v = yaml
  | RUpdate _ vid name desc yaml, OUpdate t v =>
      t_name t = name ∧ t_description t = desc ∧ t_active_version_id t = Some vid ∧
      tv_id v = vid ∧ tv_template_id v = t_id t ∧ tv_spec_yaml v = yaml
  | RDelete id, ODelete id' => id' = id
  | RRollback _ vid, OActivate vid' => vid' = vid
  | _, _ => False
  end.

(** A command that reads, then writes once, what its request asks for, and
    ends with the answer of the write. *)
Fixpoint single_write {X} (own : Op → Prop) (p : M X) : Prop :=
  match p with
  | Ret r => is_ok r = false
  | Call o k =>
      if writes o then own o ∧ ∀ a, ∃ r, k a = Ret r ∧
        match write_error o a with Some e => r = Err (map_template_error e) | None => is_ok r = true end
      else ∀ a, single_write own (k a)
  end.

(** Only the last call of a command can change the tables; then the command
    is over and reports success, or a storage error because the answer was
    lost.  With any other error no call changed anything, and a success means
    that the last call was the write of the request and took effect. *)
Definition all_or_nothing {X} (own : Op → Prop) (p : M X) : Prop :=
  ∀ turns q, conducted p turns q →
  (∀ i t, turns !! i = Some t → ¬ unchanged t →
     S i = length turns ∧ ∃ r, q = Ret r ∧ (is_ok r = true ∨ ∃ m, r = Err (Template (TE_Storage m)))) ∧
  (∀ e, q = Ret (Err e) → (∀ m, e ≠ Template (TE_Storage m)) → Forall unchanged turns) ∧
  (∀ x, q = Ret (Ok x) → ∃ t, last turns = Some t ∧ own (tn_op t) ∧
     changed (tn_op t) (st_db (tn_before t)) (st_db (tn_after t))).

Lemma reads_unchanged o st a st' : writes o = false → answers o st a st' → st_db st' = st_db st.
Proof. intros Hw Ha. assert (st_db (exec o st).2 = st_db st) as He by by destruct o. by inversion Ha. Qed.

Lemma write_error_unchanged o st e :
  ok (st_db st) → write_error o (exec o st).1 = Some e → st_db (exec o st).2 = st_db st.
Proof.
  intros Hok. destruct o; try done; cbn; unfold on_db.
  - destruct (create_with_version t v (st_db st)) as [[[]|e'] db'] eqn:Hc; [done|]. intros _. by apply (transact_Err _ _ _ _ Hc).
  - destruct (update_with_version t v (st_db st)) as [[n|e'] db'] eqn:Hc; [done|]. intros _. by apply (update_with_version_Err _ _ _ _ _ Hok Hc).
  - destruct (delete_row id (st_db st)) as [[[]|e'] db'] eqn:Hc; [done|]. intros _. by apply (transact_Err _ _ _ _ Hc).
  - destruct (activate (st_clock st) id (st_db st)) as [[v|e'] db'] eqn:Hc; [done|]. intros _. by apply (transact_Err _ _ _ _ Hc).
Qed.

Lemma write_done o st : writes o = true → write_error o (exec o st).1 = None → changed o (st_db st) (st_db (exec o st).2).
Proof.
  intros Hw. destruct o; try done; cbn; unfold on_db.
  - by destruct (create_with_version t v (st_db st)) as [[[]|e'] db'] eqn:Hc.
  - unfold update_with_version. destruct (transact _ _) as [[n|e'] db'] eqn:Hc; [|done]. apply transact_Ok in Hc. by exists n.
  - by destruct (delete_row id (st_db st)) as [[[]|e'] db'] eqn:Hc.
  - destruct (activate (st_clock st) id (st_db st)) as [[v|e'] db'] eqn:Hc; [|done]. intros _. by eexists _, _.
Qed.

Lemma fault_error o a : writes o = true → fault o a → ∃ m, write_error o a = Some (TE_Storage m).
Proof. destruct o; try done; intros _ [m ->]; by exists m. Qed.

(** What one answered write means. *)
Lemma write_answer o st a st' :
  ok (st_db st) → writes o = true → answers o st a st' →
  match write_error o a with
  | Some e => st_db st' = st_db st ∨ ∃ m, e = TE_Storage m
  | None => changed o (st_db st) (st_db st')
  end.
Proof.
  intros Hok Hw Ha. destruct Ha as [|a Hf|a Hf]; [|by destruct (fault_error o a Hw Hf) as [m ->]; right; exists m..].
  destruct (write_error o (exec o st).1) as [e|] eqn:He; [left; by eapply write_error_unchanged|by apply write_done].
Qed.

Lemma single_write_atomic {X} own (p : M X) : single_write own p → all_or_nothing own p.
Proof.
  intros Hp turns q Hc. induction Hc as [p|o k c a st' turns q Hr Ha Hc IH].
  { split_and!; [done|constructor|]. intros x ->. done. }
  cbn in Hp. destruct (writes o) eqn:Hw.
  - destruct Hp as [Hown Hp]. destruct (Hp a) as (r & Hk & He). rewrite Hk in Hc. inversion Hc; subst; clear Hc IH.
    pose proof (write_answer _ _ _ _ (reachable_ok _ Hr) Hw Ha) as Hwr. destruct (write_error o a) as [e|].
    + subst r. split_and!.
      * intros [|i] t Ht Hn; [|done]. injection Ht as <-. destruct Hwr as [Hd|[m ->]]; [done|]. split; [done|].
        eexists. split; [done|]. right. by exists m.
      * intros e' [= <-] Hm. constructor; [|done]. destruct Hwr as [Hd|[m ->]]; [done|]. by destruct (Hm m).
      * done.
    + split_and!.
      * intros [|i] t Ht _; [|done]. split; [done|]. eexists. split; [done|]. by left.
      * intros e [= ->]. done.
      * intros x _. eexists. split; [done|]. by split.
  - destruct (IH (Hp a)) as (H1 & H2 & H3). pose proof (reads_unchanged _ _ _ _ Hw Ha) as Hd. split_and!.
    + intros [|i] t Ht Hn; [injection Ht as <-; done|]. destruct (H1 i t Ht Hn) as [Hl Hq]. split; [by cbn; rewrite Hl|done].
    + intros e Hq Hm. constructor; [done|]. by eapply H2.
    + intros x Hq. destruct (H3 x Hq) as (t & Ht & Hch). exists t. split; [|done]. by destruct turns.
Qed.


(** ** Generating from a saved template *)

Lemma cache_step_revision db ev : (CacheRepo.revision db ≤ CacheRepo.revision (CacheRepo.step db ev))%Z.
Proof.
  destruct ev; simpl; [|..|lia|lia|lia].
  - by rewrite (proj1 (CacheRepo.store_meta db e)).
  - by rewrite (proj1 (CacheRepo.activate_meta db t p id)).
Qed.

Lemma changed_revision o db db' : op_ok clash_validate o → ok db → changed o db db' → revision db' = revision db.
Proof.
  intros Ho Hok Hc. destruct o; simpl in *; try done.
  - destruct Ho as [[Ht _] _]. by apply (create_switched _ _ _ _ _ Hok Ht) in Hc as (tr & r & _ & ->).
  - destruct Ho as [Ht _], Hc as [n Hc]. by apply (update_switched _ _ _ _ _ Ht) in Hc as (tr & r & _ & ->).
  - by apply delete_row_Ok in Hc as (_ & _ & ->).
  - destruct Hc as (now & v & Hc). by apply (activate_switched _ _ _ _ _ _ Hok) in Hc as (r & tr & u & _ & _ & _ & _ & ->).
Qed.

Lemma step_revision c c' :
  config_ok clash_validate c → step clash_validate c c' → (revision (st_db (cf_st c)) ≤ revision (st_db (cf_st c')))%Z.
Proof.
  intros [Ht Hk] Hs. destruct Hs as [c r|c i o k a st' Hi Ha|c clock|c ev Hev]; simpl; try lia.
  - destruct (Forall_lookup_1 _ _ _ _ Hk Hi) as [Ho _]. apply template_answers_db in Ha as [-> | ->]; [lia|].
    destruct (exec_changed o (cf_st c)) as [->|Hc]; [lia|]. by rewrite (changed_revision _ _ _ Ho Ht Hc).
  - apply (cache_step_revision (cache_view (st_db (cf_st c)))).
Qed.

Lemma reachable_revision c : reachable c → (0 ≤ revision (st_db (cf_st c)))%Z.
Proof.
  intros Hr. destruct Hr as (rev & w & clock & Hw & Hs). revert Hs.
  assert (config_ok clash_validate (mkConfig (mkSt (empty_tables rev w) clock) [])) as Hok.
  { apply reachable_config. exists rev, w, clock. by split. }
  assert (0 ≤ revision (st_db (cf_st (mkConfig (mkSt (empty_tables rev w) clock) []))))%Z as H0 by (simpl; lia).
  intros Hs. induction Hs as [|c c1 c' Hs _ IH]; [done|]. pose proof (step_revision _ _ Hok Hs).
  destruct (template_step_ok _ _ _ Hok Hs) as [Hok1 _]. apply IH; [done|lia].
Qed.

(** Every template the server holds can be generated from: a request for
    it that pins no version resolves to the version the template's pointer
    names, whose stored text still parses; the only conditions left are the
    request's own (a known profile among the document's targets, a selection
    that serialises, a native document whose notices can be computed).  It
    never fails for a missing template, version or unreadable document. *)
Theorem saved_template_resolves c rq tr profile :
  reachable c → templates (st_db (cf_st c)) !! rq_template_id rq = Some tr →
  rq_template_version_pin rq = None → Compat.from_kebab (rq_profile rq) = Some profile →
  (∀ s, is_ok (selector_json s)) →
  ∃ vid v doc, tr_active_version_id tr = Some vid ∧ tv_id v = vid ∧ Z.of_N (tv_version v) = tr_active_version tr ∧
    parse_document (tv_spec_yaml v) = Ok doc ∧
    (target_profiles (spec doc) = [] ∨ rq_profile rq ∈ target_profiles (spec doc) →
     is_ok (normalization_warnings (clash (spec doc))) →
     ∃ cx, resolve_context (template_store (st_db (cf_st c))) (cache_view (st_db (cf_st c))) rq = Ok cx ∧
       cx_version cx = v ∧ cx_profile cx = profile).
Proof.
  intros Hr Ht Hpin Hprof Hsel. pose proof (reachable_revision c Hr) as Hrev. apply reachable_ok in Hr as Hok.
  destruct (to_pointer _ _ Hok _ _ Ht) as (vid & r & Hp & Hvr & Hrt & Ha & Hv).
  pose proof (to_version _ _ Hok vid r Hvr) as Hvok. destruct (vo_yaml _ _ Hvok) as (doc & Hdoc & _).
  destruct (version_to_domain_total _ vid r Hvok) as [v Hd].
  pose proof (version_to_domain_Ok _ _ _ Hd) as (Hid & _ & Hn & _ & Hy & _). apply u64_column_Ok in Hn.
  exists vid, v, doc. rewrite Hy. split; [done|]. split; [done|]. split; [congruence|]. split; [done|].
  intros Htarget Hwarn. unfold resolve_context. cbn [template_store find_template].
  destruct (find_by_id_at _ _ _ Hok Ht) as (n & _ & ->). cbn. rewrite Hpin.
  rewrite (find_active_at _ _ _ _ Hok Hvr Hrt Ha), Hd. cbn. rewrite Hy, Hdoc. cbn. rewrite Hprof. cbn.
  replace (negb _ && negb _) with false; cycle 1.
  { symmetry. apply andb_false_iff. rewrite !negb_false_iff, !bool_decide_eq_true. tauto. }
  unfold get_revision. cbn [cache_view CacheRepo.revision]. destruct (Z.leb_spec 0 (revision (st_db (cf_st c)))); [|lia].
  cbn. specialize (Hsel (default (node_selector (spec doc)) (rq_node_selection rq))).
  destruct (selector_json _) as [j|]; [|done]. cbn. destruct (normalization_warnings _) as [w|]; [|done]. cbn.
  eexists. split; [done|]. done.
Qed.

(** ** Reading the history *)

(** [next_before_version] of the [list_versions] handler. *)
Definition next_before (page : list TemplateVersion) : option N :=
  if Nat.eqb (length page) 100 then tv_version <$> last page else None.

(** Loading page after page while the server offers a next one. *)
Fixpoint load_history (fuel : nat) (t : TemplateId) (before : option N) (st : St) :
    option (Result TemplateAppError (list TemplateVersion)) :=
  match fuel with
  | O => None
  | S fuel =>
      match (run (list_versions_before t before) st).1 with
      | Err e => Some (Err e)
      | Ok page =>
          match next_before page with
          | None => Some (Ok page)
          | Some n =>
              match load_history fuel t (Some n) st with
              | Some (Ok rest) => Some (Ok (page ++ rest))
              | r => r
              end
          end
      end
  end.

(** The history of a template, newest first. *)
Definition full_history (t : TemplateId) (db : Db) : list (N * VersionRow) :=
  sort_by compare_version_desc (history t db).

#[local] Instance version_desc_order : CmpOrder compare_version_desc.
Proof.
  split; unfold cmp_le, compare_version_desc.
  - intros x y z. rewrite !Z.compare_ngt_iff. lia.
  - intros x y. rewrite !Z.compare_ngt_iff. lia.
Qed.

Lemma NoDup_history t db : NoDup (history t db).
Proof. apply NoDup_filter, NoDup_map_to_list. Qed.

Lemma full_history_newest t db : ok db → newest_first (full_history t db).
Proof.
  intros Hok. assert (∀ x, x ∈ full_history t db → x ∈ history t db) as Hin
    by (intros x; unfold full_history; by rewrite elem_of_sort_by).
  assert (NoDup (full_history t db)) as Hnd by (unfold full_history; rewrite sort_by_Permutation; apply NoDup_history).
  pose proof (sort_by_sorted compare_version_desc (history t db)) as Hs. fold (full_history t db) in Hs.
  unfold newest_first. induction Hs as [|x l Hs IH Hall]; constructor.
  - apply NoDup_cons in Hnd as [_ Hnd]. apply IH; [|done]. intros y Hy. apply Hin. by right.
  - apply NoDup_cons in Hnd as [Hx _]. apply Forall_forall. intros y Hy. rewrite Forall_forall in Hall.
    specialize (Hall y Hy). unfold cmp_le, compare_version_desc in Hall. rewrite Z.compare_ngt_iff in Hall.
    destruct x as [i r], y as [j r']. simpl in *.
    assert ((i, r) ∈ history t db) as [Hi Hti]%elem_of_history by (apply Hin; left).
    assert ((j, r') ∈ history t db) as [Hj Htj]%elem_of_history by (apply Hin; by right).
    assert (vr_version r ≠ vr_version r'); [|lia]. intros Heq. apply Hx.
    assert (i = j) as -> by (eapply (to_number _ _ Hok); eauto; congruence). by simplify_eq.
Qed.

(** The page after a prefix of the history is the start of the rest. *)
Lemma history_page_rest t db pre x rest :
  ok db → full_history t db = pre ++ x :: rest →
  history_page t 100 (Some (vr_version x.2)) db = take 100 rest.
Proof.
  intros Hok Hfull. unfold history_page. f_equal. pose proof (full_history_newest t db Hok) as Hnew.
  pose proof (sort_by_sorted compare_version_desc (history t db)) as Hs. fold (full_history t db) in Hs.
  rewrite Hfull, (cons_middle x pre rest), (assoc (++)) in Hnew, Hs.
  apply (StronglySorted_unique_strong (cmp_le compare_version_desc)).
  - intros [i r] [j r'] Hi Hj. rewrite elem_of_sort_by, list_elem_of_filter, elem_of_history in Hi.
    assert ((j, r') ∈ history t db) as [Hj' Htj]%elem_of_history.
    { rewrite <-(elem_of_sort_by compare_version_desc). fold (full_history t db). rewrite Hfull. set_solver. }
    unfold cmp_le, compare_version_desc. rewrite !Z.compare_ngt_iff. simpl. intros ? ?. destruct Hi as (_ & Hi & Hti).
    assert (i = j) as -> by (eapply (to_number _ _ Hok); eauto; [congruence|lia]). by simplify_eq.
  - apply sort_by_sorted, _.
  - by apply StronglySorted_app_1_r in Hs.
  - rewrite sort_by_Permutation, <-(sort_by_Permutation compare_version_desc (history t db)).
    fold (full_history t db). rewrite Hfull, (cons_middle x pre rest), (assoc (++)), filter_app.
    apply StronglySorted_app in Hnew as (Hlt & Hpre & _). rewrite (list_filter_Forall _ rest); cycle 1.
    { apply Forall_forall. intros y Hy. unfold below. apply Z.ltb_lt, (Hlt x y); [|done]. set_solver. }
    rewrite list_filter_none; [done|]. intros y Hy. unfold below. rewrite Z.ltb_lt. apply Z.nlt_ge.
    apply elem_of_app in Hy as [Hy | ->%list_elem_of_singleton]; [|done].
    apply StronglySorted_app in Hpre as (Hpx & _). specialize (Hpx y x Hy ltac:(left)). simpl in Hpx. lia.
Qed.

Lemma full_history_row t db i r : ok db → (i, r) ∈ full_history t db → version_ok clash_validate r.
Proof.
  intros Hok Hi. unfold full_history in Hi. rewrite elem_of_sort_by, elem_of_history in Hi.
  by apply (to_version _ _ Hok i), Hi.
Qed.

(** The page before an admissible number. *)
Lemma versions_before_run t n r db clock :
  ok db → version_ok clash_validate r → CacheRepo.u64_column (vr_version r) "negative version" = Ok n →
  (run (list_versions_before t (Some n)) (mkSt db clock)).1 =
    map_err map_template_error (collect_ok (λ kv, version_to_domain kv.1 kv.2) (history_page t 100 (Some (vr_version r)) db)).
Proof.
  intros Hok [Hrange _ _] Hn. pose proof (as_i64_of_N (vr_version r) n ltac:(lia) Hn) as Hi.
  apply u64_column_Ok in Hn. unfold list_versions_before.
  destruct (N.eqb_spec n 0); [lia|]. destruct (N.ltb_spec i64_max n); [lia|]. cbn. unfold query, list_for_template. cbn.
  by rewrite Hi.
Qed.

(** The call with cursor [before] returns the start of [rest]. *)
Definition page_of (t : TemplateId) (st : St) (before : option N) (rest : list (N * VersionRow)) : Prop :=
  (run (list_versions_before t before) st).1 =
    map_err map_template_error (collect_ok (λ kv, version_to_domain kv.1 kv.2) (take 100 rest)).

Lemma page_after t db clock pre x rest v :
  ok db → full_history t db = pre ++ x :: rest → version_to_domain x.1 x.2 = Ok v →
  page_of t (mkSt db clock) (Some (tv_version v)) rest.
Proof.
  intros Hok Hfull Hv. pose proof (version_to_domain_Ok _ _ _ Hv) as (_ & _ & Hn & _). unfold page_of.
  assert (version_ok clash_validate x.2) as Hx.
  { destruct x as [i r]. eapply (full_history_row t db i); [done|]. rewrite Hfull. set_solver. }
  by rewrite (versions_before_run t _ x.2 db clock Hok Hx Hn), (history_page_rest _ _ _ _ _ Hok Hfull).
Qed.

Lemma load_rest t db clock fuel before pre rest vs :
  ok db → full_history t db = pre ++ rest → page_of t (mkSt db clock) before rest →
  Forall2 (λ kv v, version_to_domain kv.1 kv.2 = Ok v) rest vs → length rest < fuel →
  load_history fuel t before (mkSt db clock) = Some (Ok vs).
Proof.
  intros Hok. revert before pre rest vs. induction fuel as [|fuel IH]; intros before pre rest vs Hfull Hp Hvs Hlen; [lia|].
  simpl. rewrite Hp. pose proof (Forall2_take _ _ _ 100 Hvs) as Htk. apply collect_ok_Forall2 in Htk as Hcol.
  rewrite Hcol. cbn [map_err]. unfold next_before. pose proof (Forall2_length _ _ _ Hvs) as Hl.
  destruct (Nat.eqb_spec (length (take 100 vs)) 100) as [H100|Hn100].
  - rewrite length_take in H100. destruct (last (take 100 rest)) as [y|] eqn:Hy; cycle 1.
    { apply last_None in Hy. apply (f_equal length) in Hy. rewrite length_take in Hy. cbn [length] in Hy. lia. }
    apply last_Some in Hy as [pre' Hpre']. rewrite Hpre' in Htk.
    apply Forall2_app_inv_l in Htk as (vs1 & vs2 & _ & Hy2 & Hvs12).
    apply Forall2_cons_inv_l in Hy2 as (v & vs3 & Hyv & ->%Forall2_nil_inv_l & ->). rewrite Hvs12, last_snoc. cbn [fmap option_fmap option_map].
    assert (full_history t db = (pre ++ pre') ++ y :: drop 100 rest) as Hfull'.
    { rewrite Hfull. rewrite <-(take_drop 100 rest) at 1. by rewrite Hpre', <-!(assoc (++)). }
    rewrite (IH (Some (tv_version v)) ((pre ++ pre') ++ [y]) (drop 100 rest) (drop 100 vs)).
    + do 2 f_equal. rewrite <-Hvs12. apply take_drop.
    + by rewrite Hfull', <-!(assoc (++)).
    + by eapply page_after.
    + by apply Forall2_drop.
    + rewrite length_drop. lia.
  - rewrite length_take in Hn100. by rewrite take_ge by lia.
Qed.

(** Reading a template's history page by page, as the web interface does,
    ends and yields every version of the template exactly once, newest first;
    as many requests as there are versions, plus one, are always enough. *)
Theorem history_pages_complete c t :
  reachable c →
  let db := st_db (cf_st c) in
  ∃ vs, load_history (S (length (history t db))) t None (cf_st c) = Some (Ok vs) ∧
    Forall2 (λ kv v, version_to_domain kv.1 kv.2 = Ok v) (full_history t db) vs ∧
    newest_first (full_history t db) ∧ full_history t db ≡ₚ history t db ∧
    ∀ i r, (i, r) ∈ full_history t db ↔ versions db !! i = Some r ∧ vr_template_id r = t.
Proof.
  intros Hok%reachable_ok db. destruct (collect_ok_total (λ kv, version_to_domain kv.1 kv.2) (full_history t db))
    as [vs Hvs%collect_ok_Forall2].
  { intros [i r] Hi. eapply version_to_domain_total, full_history_row; eauto. }
  exists vs. split; [|split; [done|split; [by apply full_history_newest|split]]].
  - subst db. destruct (cf_st c) as [db clock]. apply (load_rest t db clock _ None [] (full_history t db)); [done|done| |done|].
    + unfold page_of. cbn. unfold query, list_for_template, history_page. cbn.
      rewrite list_filter_Forall by by apply Forall_forall. done.
    + unfold full_history. rewrite length_sort_by. simpl. lia.
  - apply sort_by_Permutation.
  - intros i r. unfold full_history. by rewrite elem_of_sort_by, elem_of_history.
Qed.

(** ** Serving requests one after the other *)

Lemma run_rtc p st tasks :
  rtc (step clash_validate) (mkConfig st (tasks ++ [p])) (mkConfig (run p st).2 (tasks ++ [Ret (run p st).1])).
Proof.
  revert st. induction p as [x|o k IH]; intros st; simpl; [done|].
  destruct (exec o st) as [a st'] eqn:He. eapply rtc_l; [|apply IH].
  assert ((tasks ++ [Call o k]) !! length tasks = Some (Call o k)) as Hlk by by apply list_lookup_middle.
  replace (tasks ++ [k a]) with (<[length tasks := k a]> (tasks ++ [Call o k]))
    by by rewrite insert_app_r_alt, Nat.sub_diag.
  eapply (step_call _ (mkConfig st (tasks ++ [Call o k]))); [exact Hlk|]. pose proof (answered o st) as Ha.
  by rewrite He in Ha.
Qed.

Definition serve (r : Request) (c : Config) : Config :=
  let p := run (prog_of clash_validate r) (cf_st c) in mkConfig p.2 (cf_tasks c ++ [Ret p.1]).

Lemma serve_rtc rs c : rtc (step clash_validate) c (foldl (flip serve) c rs).
Proof.
  revert c. induction rs as [|r rs IH]; intros c; [done|]. simpl. etrans; [|apply IH].
  eapply rtc_l; [apply (step_spawn _ c r)|]. apply run_rtc.
Qed.

Definition serve_all (rs : list Request) : Config :=
  foldl (flip serve) (mkConfig (mkSt (empty_tables 5 0) 0) []) rs.

Lemma serve_all_reachable rs : reachable (serve_all rs).
Proof. exists 5%Z, 0%Z, 0%Z. split; [lia|]. apply serve_rtc. Qed.

End theorems.

(** ** An installation that is used *)

#[local] Existing Instance demo_externals.

#[local] Instance demo_codec : SpecCodec := {
  spec_to_json _ := Ok "{}";
  spec_from_json _ := Ok (spec demo_doc);
  spec_json_reads _ _ _ := ex_intro _ (spec demo_doc) eq_refl
}.

Definition demo_clash (s : string) : Result TemplateAppError () := Ok ().

(** Two templates; the first is saved twice and rolled back to its first version. *)
Definition demo_requests : list Request :=
  [RCreate 1 10 "main" "" "first"; RUpdate 1 11 "main" "edited" "second"; RCreate 2 20 "other" "" "third";
   RRollback 1 10].
Definition demo : Config := serve_all demo_clash demo_requests.
Definition demo_row : VersionRow := mkVersionRow 1 1 "{}" "first" true 0.

Example templates_served :
  (tr_active_version <$> templates (st_db (cf_st demo)) !! 1%N, versions (st_db (cf_st demo)) !! 10%N,
   vr_is_active <$> versions (st_db (cf_st demo)) !! 11%N) = (Some 1%Z, Some demo_row, Some false).
Proof. vm_compute. reflexivity. Qed.

Lemma template_tables_invariant_witness : tables_ok demo_clash (st_db (cf_st demo)).
Proof. exact (template_tables_invariant demo_clash demo (serve_all_reachable demo_clash demo_requests)). Defined.

Lemma version_history_kept_witness :
  let c' := serve demo_clash (RUpdate 1 12 "main" "" "fourth") demo in
  (∃ r', versions (st_db (cf_st c')) !! 10%N = Some r' ∧ same_content demo_row r') ∨
  ∃ c1, rtc (step demo_clash) demo c1 ∧ rtc (step demo_clash) c1 c' ∧
    templates (st_db (cf_st c1)) !! vr_template_id demo_row = None.
Proof.
  apply (version_history_kept demo_clash demo _ 10 demo_row (serve_all_reachable demo_clash demo_requests)).
  - exact (serve_rtc demo_clash [RUpdate 1 12 "main" "" "fourth"] demo).
  - vm_compute. reflexivity.
Defined.

Lemma update_appends_witness :
  ∃ t v st', run (update_template demo_clash 1 12 "main" "" "fourth") (cf_st demo) = (Ok (t, v), st') ∧
    Z.of_N (tv_version v) = (max_version 1 (st_db (cf_st demo)) + 1)%Z.
Proof.
  destruct (run (update_template demo_clash 1 12 "main" "" "fourth") (cf_st demo)) as [[[t v]|e] st'] eqn:Hr;
    [|exfalso; vm_compute in Hr; discriminate Hr].
  exists t, v, st'. split; [reflexivity|].
  exact (proj1 (update_appends demo_clash demo 1 12 "main" "" "fourth" t v st'
    (serve_all_reachable demo_clash demo_requests) Hr)).
Defined.

Example update_after_rollback :
  match run (update_template demo_clash 1 12 "main" "" "fourth") (cf_st demo) with
  | (Ok (t, v), _) => Some (tv_version v)
  | _ => None
  end = Some 3%N.
Proof. vm_compute. reflexivity. Qed.

Lemma create_outcome_witness :
  run (create_template demo_clash 3 30 "main" "" "fifth") (cf_st demo) = (Err NameExists, cf_st demo).
Proof.
  assert (Ok demo_doc = checked demo_clash "main" "" "fifth") as Hc by (vm_compute; reflexivity).
  pose proof (create_outcome demo_clash demo 3 30 "main" "" "fifth" 0 (serve_all_reachable demo_clash demo_requests)
    ltac:(vm_compute; reflexivity) ltac:(vm_compute; reflexivity) ltac:(vm_compute; reflexivity)) as H.
  cbv zeta in H. rewrite <-Hc in H. specialize (H I).
  assert (name_taken "main" 3 (st_db (cf_st demo)) = true) as Hn by (vm_compute; reflexivity).
  rewrite Hn in H. exact H.
Defined.

Lemma rollback_outcome_witness :
  run (rollback_template 2 11) (cf_st demo) = (Err VersionTemplateMismatch, cf_st demo).
Proof.
  pose proof (rollback_outcome demo_clash demo 2 11 0 (serve_all_reachable demo_clash demo_requests)
    ltac:(vm_compute; reflexivity)) as H. cbv zeta in H.
  assert (versions (st_db (cf_st demo)) !! 11%N = Some (mkVersionRow 1 2 "{}" "second" false 0)) as Hv
    by (vm_compute; reflexivity).
  rewrite Hv in H. exact H.
Defined.


Lemma saved_template_resolves_witness :
  ∃ vid v doc cx, Some vid = Some 10%N ∧ tv_id v = vid ∧ parse_document (tv_spec_yaml v) = Ok doc ∧
    resolve_context (template_store (st_db (cf_st demo))) (cache_view (st_db (cf_st demo)))
      (request_new 1 "mihomo" Strict) = Ok cx ∧ cx_version cx = v.
Proof.
  destruct (saved_template_resolves demo_clash demo (request_new 1 "mihomo" Strict)
    (mkTemplateRow "main" "edited" (Some 10%N) 1 0 0) Compat.Mihomo (serve_all_reachable demo_clash demo_requests)
    ltac:(vm_compute; reflexivity) eq_refl eq_refl (λ s, I)) as (vid & v & doc & Hp & Hid & _ & Hdoc & Hcx).
  assert (doc = demo_doc) as ->.
  { destruct (parse_document (tv_spec_yaml v)) as [d|] eqn:Hd; [|discriminate Hdoc].
    injection Hdoc as <-. unfold parse_document, Validation.parse_template_document in Hd.
    destruct (Validation.checked_yaml _ _) as [raw|] eqn:Hraw; [|discriminate Hd].
    unfold Validation.checked_yaml in Hraw. destruct (Nat.ltb _ _); [discriminate Hraw|].
    cbn in Hraw. injection Hraw as <-. cbn in Hd. injection Hd as <-. reflexivity. }
  destruct Hcx as (cx & Hcx & Hv & _); [left; reflexivity|exact I|].
  exists vid, v, demo_doc, cx. injection Hp as <-. split; [reflexivity|]. split; [exact Hid|]. split; [exact Hdoc|].
  split; [exact Hcx|exact Hv].
Defined.

Lemma history_pages_complete_witness :
  ∃ vs, load_history 3 1 None (cf_st demo) = Some (Ok vs) ∧
    Forall2 (λ kv v, version_to_domain kv.1 kv.2 = Ok v) (full_history 1 (st_db (cf_st demo))) vs.
Proof.
  assert (length (history 1 (st_db (cf_st demo))) = 2) as Hl by (vm_compute; reflexivity).
  destruct (history_pages_complete demo_clash demo 1 (serve_all_reachable demo_clash demo_requests))
    as (vs & Hvs & Hall & _).
  rewrite Hl in Hvs. exists vs. split; [exact Hvs|exact Hall].
Defined.

End TemplateTheorems.
