(* ===== verification/Containers.v ===== *)
(** * JSON documents and the helpers of the container parsers
    ([crates/deve-sub-protocol/src/container/mod.rs])

    [serde_json]'s objects are ordered maps: [map_insert] and [of_members] build
    them in key order with the last binding of a key, and [get] reads them.
    The field readers every container parser shares follow. *)

From stdpp Require Import pretty.
From S2P Require Import Prelude Kernel Node Text UrlText UriParse SourceParse.
Import Text UrlText UriParse SourceParse.

Module Containers.

(** ** [serde_json::Value] and [Map] *)

Definition Members : Type := list (string * Json).

(** [Map::insert] *)
Fixpoint map_insert (k : string) (v : Json) (m : Members) : Members :=
  match m with
  | [] => [(k, v)]
  | (k', v') :: m' =>
      match String.compare k k' with
      | Lt => (k, v) :: m
      | Eq => (k, v) :: m'
      | Gt => (k', v') :: map_insert k v m'
      end
  end.

(** [Map::remove] *)
Definition map_remove (k : string) (m : Members) : Members := filter (λ kv, kv.1 ≠ k) m.

(** The members inserted in turn into an empty map. *)
Definition of_members (l : Members) : Members := foldl (λ m kv, map_insert kv.1 kv.2 m) [] l.
Definition object (l : Members) : Json := JObject (of_members l).

(** What [serde_json::from_str] makes of a document: the last of the members
    of an object that share a name is kept. *)
Fixpoint to_value (j : Json) : Json :=
  match j with
  | JArray items => JArray (map to_value items)
  | JObject fields => object (map (λ kv, (kv.1, to_value kv.2)) fields)
  | _ => j
  end.

(** [Map::get] *)
Definition map_get (m : Members) (k : string) : option Json := snd <$> find (λ kv, String.eqb kv.1 k) m.

(** [Value::get] with a string *)
Definition get (v : Json) (k : string) : option Json :=
  match v with JObject m => map_get m k | _ => None end.

Definition as_object (v : Json) : option Members := match v with JObject m => Some m | _ => None end.
Definition as_array (v : Json) : option (list Json) := match v with JArray l => Some l | _ => None end.
Definition as_str (v : Json) : option string := match v with JString s => Some s | _ => None end.
Definition as_bool (v : Json) : option bool := match v with JBool b => Some b | _ => None end.
Definition as_u64 (v : Json) : option N := match v with JNumber r => json_number_u64 r | _ => None end.

(** [Value::as_i64]; the text "-0" is a float. *)
Definition as_i64 (v : Json) : option Z :=
  match v with
  | JNumber r =>
      match strip_prefix "-" r with
      | Some r =>
          n ← json_number_u64 r;
          if N.eqb n 0 || N.ltb (i64_max + 1) n then None else Some (- Z.of_N n)%Z
      | None => n ← json_number_u64 r; if N.ltb i64_max n then None else Some (Z.of_N n)
      end
  | _ => None
  end.

(** [json!] of an unsigned integer *)
Definition number (n : N) : Json := JNumber (pretty n).
Definition strings (l : list string) : Json := JArray (JString <$> l).

(** [obj.insert(k, v)] under [if let Some(..)], [if !s.is_empty()] and
    [if !l.is_empty()]. *)
Definition opt_field {A} (k : string) (f : A → Json) (o : option A) : Members :=
  match o with Some a => [(k, f a)] | None => [] end.
Definition str_field (k s : string) : Members := if is_empty s then [] else [(k, JString s)].
Definition list_field (k : string) (l : list string) : Members :=
  match l with [] => [] | _ => [(k, strings l)] end.

(** ** Field readers *)

Section readers.
Context `{L : UrlLib}.

Definition get_str (v : Json) (key : string) : option string := v ← get v key; as_str v.

(** [get_str(v, a).or_else(|| get_str(v, b))] *)
Definition get_str_alias (v : Json) (a b : string) : option string :=
  match get_str v a with Some s => Some s | None => get_str v b end.

Definition get_bool (v : Json) (key : string) : option bool :=
  val ← get v key;
  match as_bool val with
  | Some b => Some b
  | None =>
      s ← as_str val;
      if String.eqb s "true" || String.eqb s "1" then Some true
      else if String.eqb s "false" || String.eqb s "0" then Some false
      else None
  end.

Definition get_port (v : Json) (key : string) : Result ParseError (option N) :=
  match get v key with
  | None | Some JNull => Ok None
  | Some port_val =>
      match as_u64 port_val with
      | Some n => if N.leb n u16_max then Ok (Some n) else Err (InvalidPort (pretty n))
      | None =>
          match as_str port_val with
          | Some s => let? n := ok_or (parse_unsigned u16_max s) (InvalidPort s) in Ok (Some n)
          | None =>
              Err (InvalidPort ("port field `" +:+ key +:+ "` has non-numeric value: " +:+ json_to_string port_val))
          end
      end
  end.

Definition get_str_or_first (v : Json) (key : string) : option string :=
  val ← get v key;
  match as_str val with
  | Some s => Some s
  | None => arr ← as_array val; e ← head arr; as_str e
  end.

Definition get_str_array (v : Json) (key : string) : list string :=
  match a ← get v key; as_array a with
  | Some arr => omap as_str arr
  | None => []
  end.

(** [u32::try_from(n).unwrap_or(0)] *)
Definition u32_or_zero (n : N) : N := if N.leb n u32_max then n else 0%N.
Definition get_u32 (v : Json) (key : string) : option N := u32_or_zero <$> (j ← get v key; as_u64 j).

End readers.

(** ** Nodes of container entries *)

(** A shell ([node_shell_container]) with the fields a mapper sets. *)
Definition container_node (fresh : NodeId * Z) (name : string) (kind : ProtocolKind) (cfg : ProtocolConfig)
    (e : Endpoint) (auth : Authentication) (t : option TlsConfig) (tr : option Transport)
    (obfs : option Obfuscation) (cong : option CongestionConfig) (ext : gmap string Json) : Node :=
  let shell := node_shell fresh.1 fresh.2 None in
  mkNode (n_id shell) name kind cfg e auth tr t (udp shell) (multiplex shell) obfs cong
    (n_chain shell) (source shell) (n_tags shell) (region shell) ext.

Definition unsupported (fresh : NodeId * Z) : Json → string → ProtocolKind → string → Node :=
  unsupported_entry fresh.1 fresh.2.

(** A node as another import of the same entry gives it: identity and
    provenance are new, every other field is kept. *)
Definition restamped (fresh : NodeId * Z) (n : Node) : Node :=
  mkNode fresh.1 (display_name n) (protocol n) (config n) (endpoint n) (authentication n) (transport n)
    (tls n) (udp n) (multiplex n) (obfuscation n) (congestion n) (n_chain n) (mkNodeSource "" None fresh.2)
    (n_tags n) (region n) (extras n).

(** The fields no container format carries have their initial values. *)
Record plain (n : Node) : Prop := {
  plain_udp : udp n = mkUdp None None;
  plain_multiplex : multiplex n = None;
  plain_chain : n_chain n = None;
  plain_tags : n_tags n = [];
  plain_region : region n = mkRegion RegionAuto None
}.

Lemma restamped_plain fresh n : plain n →
  restamped fresh n
  = container_node fresh (display_name n) (protocol n) (config n) (endpoint n) (authentication n) (tls n)
      (transport n) (obfuscation n) (congestion n) (extras n).
Proof. intros []. unfold restamped, container_node. simpl. congruence. Qed.

(** ** Lemmas on objects *)

Lemma compare_eqb a b : String.compare a b = Eq ↔ a = b.
Proof.
  split; [apply String.compare_eq_iff|]. intros ->. pose proof (String.compare_antisym b b) as H.
  by destruct (String.compare b b).
Qed.

Lemma map_get_insert k v m k' :
  map_get (map_insert k v m) k' = if String.eqb k k' then Some v else map_get m k'.
Proof.
  unfold map_get. induction m as [|[k0 v0] m IH]; simpl; [by destruct (String.eqb k k')|].
  destruct (String.compare k k0) eqn:E; simpl.
  - apply compare_eqb in E as ->. by destruct (String.eqb k0 k').
  - by destruct (String.eqb k k').
  - destruct (String.eqb k0 k') eqn:E0; [|done]. apply String.eqb_eq in E0 as ->.
    destruct (String.eqb k k') eqn:E1; [|done]. apply String.eqb_eq in E1 as ->.
    by rewrite (proj2 (compare_eqb k' k') eq_refl) in E.
Qed.

(** The last binding of a key. *)
Fixpoint last_of (l : Members) (k : string) : option Json :=
  match l with
  | [] => None
  | (k', v) :: l =>
      match last_of l k with
      | Some v' => Some v'
      | None => if String.eqb k' k then Some v else None
      end
  end.

Lemma map_get_remove k m k' : map_get (map_remove k m) k' = if String.eqb k k' then None else map_get m k'.
Proof.
  unfold map_get, map_remove. induction m as [|[k0 v0] m IH]; [by destruct (String.eqb k k')|].
  cbn [filter list_filter]. case_decide as E; cbn [find fst] in *.
  - destruct (String.eqb k0 k') eqn:E0; [|exact IH]. apply String.eqb_eq in E0 as ->.
    destruct (String.eqb k k') eqn:E1; [|done]. by apply String.eqb_eq in E1 as ->.
  - subst k0. etransitivity; [exact IH|]. by destruct (String.eqb k k').
Qed.

Lemma map_get_fold l m k :
  map_get (foldl (λ m kv, map_insert kv.1 kv.2 m) m l) k
  = match last_of l k with Some v => Some v | None => map_get m k end.
Proof.
  revert m. induction l as [|[k' v] l IH]; intros m; simpl; [done|].
  rewrite IH, map_get_insert. simpl. by destruct (last_of l k), (String.eqb k' k).
Qed.

(** An object built by insertions reads as the last binding of each key. *)
Lemma get_object l k : get (object l) k = last_of l k.
Proof. unfold get, object, of_members. rewrite map_get_fold. by destruct (last_of l k). Qed.

Lemma last_of_app l1 l2 k :
  last_of (l1 ++ l2) k = match last_of l2 k with Some v => Some v | None => last_of l1 k end.
Proof.
  induction l1 as [|[k' v] l1 IH]; simpl; [by destruct (last_of l2 k)|].
  rewrite IH. by destruct (last_of l2 k).
Qed.

Lemma last_of_opt {A} k (f : A → Json) o k' :
  last_of (opt_field k f o) k' = if String.eqb k k' then f <$> o else None.
Proof. destruct o; simpl; by destruct (String.eqb k k'). Qed.

Lemma last_of_list k l k' :
  last_of (list_field k l) k'
  = if String.eqb k k' then match l with [] => None | _ => Some (strings l) end else None.
Proof. destruct l; simpl; by destruct (String.eqb k k'). Qed.

Lemma last_of_str k s k' :
  last_of (str_field k s) k' = if String.eqb k k' then if is_empty s then None else Some (JString s) else None.
Proof. unfold str_field. destruct (is_empty s); simpl; by destruct (String.eqb k k'). Qed.

Lemma option_match_eta {A} (o : option A) : match o with Some a => Some a | None => None end = o.
Proof. by destruct o. Qed.

(** Reading a member of an emitted object: what the members say of the key. *)
Lemma read_str l k o : last_of l k = JString <$> o → get_str (object l) k = o.
Proof. intros H. unfold get_str. rewrite get_object, H. by destruct o. Qed.

Lemma read_text l k s :
  last_of l k = (if is_empty s then None else Some (JString s)) → default "" (get_str (object l) k) = s.
Proof. intros H. unfold get_str. rewrite get_object, H. by destruct s. Qed.

Lemma read_bool l k o : last_of l k = JBool <$> o → get_bool (object l) k = o.
Proof. intros H. unfold get_bool. rewrite get_object, H. by destruct o. Qed.

Lemma omap_strings (l : list string) : omap as_str (JString <$> l) = l.
Proof. induction l as [|s l IH]; [done|]. cbn. by rewrite IH. Qed.

Lemma read_strings l k o :
  last_of l k = (match o with [] => None | _ => Some (strings o) end) → get_str_array (object l) k = o.
Proof.
  intros H. unfold get_str_array. rewrite get_object, H. destruct o as [|s o]; [done|].
  cbn [mbind option_bind]. unfold strings. cbn [as_array]. apply omap_strings.
Qed.

Lemma as_u64_number n : (n ≤ u64_max)%N → as_u64 (number n) = Some n.
Proof.
  intros Hn. unfold as_u64, number, json_number_u64.
  rewrite strip_sign by (done || apply pretty_digits). by apply parse_unsigned_pretty.
Qed.

Lemma read_u32 l k o :
  (∀ n, o = Some n → (n ≤ u32_max)%N) → last_of l k = number <$> o → get_u32 (object l) k = o.
Proof.
  intros Ho H. unfold get_u32. rewrite get_object, H. destruct o as [n|]; [|done].
  specialize (Ho n eq_refl). cbn [fmap option_fmap option_map mbind option_bind].
  rewrite as_u64_number by (unfold u32_max, u64_max in *; lia).
  simpl. unfold u32_or_zero. by destruct (N.leb_spec n u32_max); [|lia].
Qed.

Lemma read_port `{L : UrlLib} l k n : (n ≤ u16_max)%N → last_of l k = Some (number n) → get_port (object l) k = Ok (Some n).
Proof.
  intros Hn H. unfold get_port. rewrite get_object, H. unfold number at 1.
  change (JNumber (pretty n)) with (number n).
  rewrite as_u64_number by (unfold u16_max, u64_max in *; lia).
  by destruct (N.leb_spec n u16_max); [|lia].
Qed.

End Containers.

(** Compute what the members of an emitted object say of a key. *)
Ltac members :=
  rewrite ?Containers.get_object;
  repeat progress (
    repeat rewrite ?Containers.last_of_app, ?Containers.last_of_opt, ?Containers.last_of_list, ?Containers.last_of_str;
    cbn [Containers.last_of app String.eqb Ascii.eqb Bool.eqb]);
  rewrite ?Containers.option_match_eta.
