(* ===== verification/XrayParse.v ===== *)
(** * The Xray and V2Ray JSON parser
    ([crates/deve-sub-protocol/src/container/xray_v2ray.rs])

    One node per outbound: an entry no mapper accepts is kept as an unsupported
    node with its raw value.  The identifier and instant of the [k]-th node
    come from [draw]. *)

From stdpp Require Import pretty.
From S2P Require Import Prelude Kernel Node Text UrlText UriParse SourceParse Containers.
Import Text UrlText UriParse SourceParse Containers.

Module XrayParse.

(** [v.get(key).and_then(Value::as_array)] *)
Definition get_array (v : Json) (key : string) : option (list Json) := a ← get v key; as_array a.

(** ** Extractors *)

(** The address and port of the first of [vnext] or [servers]. *)
Definition server_of (list_name : string) (arr : list Json) : Result ParseError (string * N) :=
  let? first := ok_or (head arr) (PMissingField list_name) in
  let? address := ok_or (get_str first "address") (PMissingField "address") in
  let? port := ok_or (j ← get first "port"; as_u64 j) (PMissingField "port") in
  if N.leb port u16_max then Ok (address, port) else Err (InvalidPort (pretty port)).

Definition extract_server_port (entry : Json) : Result ParseError (string * N) :=
  let? settings := ok_or (get entry "settings") (PMissingField "settings") in
  match get_array settings "vnext" with
  | Some vnext => server_of "vnext[0]" vnext
  | None =>
      match get_array settings "servers" with
      | Some servers => server_of "servers[0]" servers
      | None => Err (PMissingField "vnext or servers")
      end
  end.

Definition extract_tag (entry : Json) : string := default "" (get_str entry "tag").

Definition extract_tls (stream : Json) : option TlsConfig :=
  security ← get_str stream "security";
  if String.eqb security "none" then None
  else
    tls_settings ←
      (if String.eqb security "tls" then get stream "tlsSettings"
       else if String.eqb security "reality" then get stream "realitySettings"
       else None);
    let reality :=
      if String.eqb security "reality"
      then Some (mkReality (default "" (get_str_alias tls_settings "publicKey" "public_key"))
                   (default "" (get_str_alias tls_settings "shortId" "short_id")) None)
      else None in
    Some (mkTls true (get_str_alias tls_settings "serverName" "server_name")
            (get_bool tls_settings "allowInsecure") (get_str_array tls_settings "alpn")
            (get_str tls_settings "fingerprint") [] reality).

Definition network_kind (network : string) : option TransportKind :=
  if String.eqb network "tcp" then Some Tcp
  else if String.eqb network "ws" then Some Ws
  else if String.eqb network "grpc" then Some Grpc
  else if String.eqb network "h2" || String.eqb network "http" then Some H2
  else if String.eqb network "kcp" then Some Kcp
  else if String.eqb network "quic" then Some Quic
  else if String.eqb network "httpupgrade" then Some HttpUpgrade
  else if String.eqb network "xhttp" || String.eqb network "splithttp" then Some Xhttp
  else None.

Definition extract_transport (stream : Json) : option Transport :=
  network ← get_str stream "network";
  kind ← network_kind network;
  let '(path, host, xhttp_mode) :=
    match kind with
    | Ws =>
        let ws := get stream "wsSettings" in
        (w ← ws; get_str w "path", w ← ws; h ← get w "headers"; get_str h "Host", None)
    | Grpc => (g ← get stream "grpcSettings"; get_str g "serviceName", None, None)
    | H2 =>
        let h2 := get stream "httpSettings" in
        (h ← h2; get_str h "path",
         h ← h2; arr ← get_array h "host"; v ← head arr; as_str v, None)
    | Xhttp =>
        let x := match get stream "xhttpSettings" with
                 | Some s => Some s
                 | None => get stream "splithttpSettings"
                 end in
        (s ← x; get_str s "path", s ← x; get_str s "host",
         Some (default XAuto (s ← x; m ← get_str s "mode"; xhttp_from_str_lossy m)))
    | _ => (None, None, None)
    end in
  Some (mkTransport kind path host xhttp_mode).

(** [entry.get("streamSettings")], read for TLS and transport *)
Definition stream_of (entry : Json) : option TlsConfig * option Transport :=
  match get entry "streamSettings" with
  | Some s => (extract_tls s, extract_transport s)
  | None => (None, None)
  end.

(** The first element of the array [list_name] of [settings]. *)
Definition first_of (entry : Json) (list_name item_name : string) : Result ParseError Json :=
  let? settings := ok_or (get entry "settings") (PMissingField "settings") in
  let? arr := ok_or (get_array settings list_name) (PMissingField list_name) in
  ok_or (head arr) (PMissingField item_name).

(** The first user of [vnext[0]], with its identifier. *)
Definition first_user (entry : Json) : Result ParseError (Json * string) :=
  let? first := first_of entry "vnext" "vnext[0]" in
  let? users := ok_or (get_array first "users") (PMissingField "users") in
  let? user := ok_or (head users) (PMissingField "users[0]") in
  let? uuid := ok_or (get_str user "id") (PMissingField "id") in
  Ok (user, uuid).

(** ** Mappers *)

Section mappers.
Context `{L : UrlLib}.
Variable fresh : NodeId * Z.

Definition parse_endpoint (entry : Json) : Result ParseError Endpoint :=
  let? (server, port) := extract_server_port entry in
  let? host := parse_host server in
  Ok (mkEndpoint host port).

Definition parse_vless (entry : Json) (raw_format : string) : Result ParseError Node :=
  let? e := parse_endpoint entry in
  let? (user, uuid) := first_user entry in
  let '(tls, transport) := stream_of entry in
  let is_reality := match tls with Some t => bool_decide (reality t ≠ None) | None => false end in
  let config :=
    if is_reality
    then CVlessReality (mkVlessReality (get_str user "encryption") (get_str user "flow") None)
    else CUnsupported (mkUnsupported entry (Some raw_format) "VLESS without Reality is not P0") in
  Ok (container_node fresh (extract_tag entry) Vless config e (AuthUuid uuid) tls transport None None ∅).

Definition parse_vmess (entry : Json) : Result ParseError Node :=
  let? e := parse_endpoint entry in
  let? (user, uuid) := first_user entry in
  let '(tls, transport) := stream_of entry in
  let config := CVMess (mkVMess (get_u32 user "alterId") (get_str user "security") None) in
  Ok (container_node fresh (extract_tag entry) VMess config e (AuthUuid uuid) tls transport None None ∅).

Definition parse_trojan (entry : Json) : Result ParseError Node :=
  let? e := parse_endpoint entry in
  let? first := first_of entry "servers" "servers[0]" in
  let? password := ok_or (get_str first "password") (PMissingField "password") in
  let '(tls, transport) := stream_of entry in
  let tls := match tls with Some t => Some t | None => Some default_tls_enabled end in
  Ok (container_node fresh (extract_tag entry) Trojan (CTrojan (mkTrojan None)) e (AuthPassword password)
        tls transport None None ∅).

Definition parse_shadowsocks (entry : Json) : Result ParseError Node :=
  let? e := parse_endpoint entry in
  let? first := first_of entry "servers" "servers[0]" in
  let? password := ok_or (get_str first "password") (PMissingField "password") in
  let? method := ok_or (get_str first "method") (PMissingField "method") in
  Ok (container_node fresh (extract_tag entry) Shadowsocks (CShadowsocks (mkShadowsocks method None None)) e
        (AuthPassword password) None None None None ∅).

(** [u8::try_from] of an unsigned JSON number *)
Definition as_u8 (v : Json) : option N := n ← as_u64 v; if N.leb n 255 then Some n else None.

(** The [reserved] array: three bytes. *)
Definition reserved_of (settings : Json) : option (N * N * N) :=
  arr ← get_array settings "reserved";
  match arr with
  | [a; b; c] => a ← as_u8 a; b ← as_u8 b; c ← as_u8 c; Some (a, b, c)
  | _ => None
  end.

(** [i64::try_from(secs).unwrap_or(0)] seconds, in nanoseconds *)
Definition seconds_or_zero (secs : N) : Z :=
  if N.leb secs i64_max then (Z.of_N secs * 1000000000)%Z else 0%Z.

Definition parse_peer (reserved : option (N * N * N)) (p : Json) : Result ParseError WireGuardPeer :=
  let? public_key := ok_or (get_str p "publicKey") (PMissingField "peer publicKey") in
  Ok (mkWireGuardPeer public_key (get_str p "preSharedKey") (get_str_array p "allowedIPs") reserved
        (seconds_or_zero <$> (v ← get p "keepAlive"; as_u64 v))).

Definition parse_wireguard (entry : Json) : Result ParseError Node :=
  let? settings := ok_or (get entry "settings") (PMissingField "settings") in
  let? secret_key := ok_or (get_str settings "secretKey") (PMissingField "secretKey") in
  let reserved := reserved_of settings in
  let? peers_arr := ok_or (get_array settings "peers") (PMissingField "peers") in
  let? peers := collect_ok (parse_peer reserved) peers_arr in
  let? (host, port) :=
    ok_or (p ← head peers_arr; e ← get_str p "endpoint";
           match parse_host_port e with Ok hp => Some hp | Err _ => None end)
      (PMissingField "peer endpoint") in
  Ok (container_node fresh (extract_tag entry) WireGuard
        (CWireGuard (mkWireGuard secret_key (get_str_array settings "address") peers
           (get_u32 settings "mtu") None []))
        (mkEndpoint host port) AuthNone None None None None ∅).

(** ** Dispatch *)

Definition map_outbound (protocol : string) (entry : Json) (raw_format : string) : Result ParseError Node :=
  if String.eqb protocol "vless" then parse_vless entry raw_format
  else if String.eqb protocol "vmess" then parse_vmess entry
  else if String.eqb protocol "trojan" then parse_trojan entry
  else if String.eqb protocol "shadowsocks" then parse_shadowsocks entry
  else if String.eqb protocol "wireguard" then parse_wireguard entry
  else Err (UnsupportedProxyType protocol).

Definition parse_outbound (entry : Json) (raw_format : string) : Node :=
  match get_str entry "protocol" with
  | None => unsupported fresh entry raw_format (Unknown "") "missing 'protocol' field"
  | Some protocol =>
      match map_outbound protocol entry raw_format with
      | Ok node => node
      | Err e => unsupported fresh entry raw_format (Unknown protocol) (parse_error_display e)
      end
  end.

End mappers.

(** ** Documents *)

Section documents.
Context `{L : UrlLib}.
Variable draw : Draw.

Definition parse_xray_v2ray_value (value : Json) (raw_format : string) : Result ParseError (list Node) :=
  let? v := ok_or (get value "outbounds") (MissingContainerKey "outbounds") in
  let? outbounds := ok_or (as_array v) (MissingContainerKey "outbounds (not a list)") in
  let? _ := check_entry_count (length outbounds) in
  Ok (imap (λ k e, parse_outbound (draw k) e raw_format) outbounds).

Definition parse_xray_v2ray (text : string) (raw_format : string) : Result ParseError (list Node) :=
  let? doc := map_err InvalidJson (json_from_str text) in
  parse_xray_v2ray_value (to_value doc) raw_format.

Definition parse_xray_json (text : string) : Result ParseError (list Node) := parse_xray_v2ray text "xray-json".
Definition parse_v2ray_json (text : string) : Result ParseError (list Node) := parse_xray_v2ray text "v2ray-json".

End documents.

(** ** An outbound keeps its data *)

Lemma unsupported_raw fresh e f k r : config (unsupported fresh e f k r) = CUnsupported (mkUnsupported e (Some f) r).
Proof. done. Qed.

End XrayParse.
