(* ===== verification/XrayEmit.v ===== *)
(** * The V2Ray and Xray JSON emitter
    ([crates/deve-sub-emitter/src/container/v2ray.rs], [xray.rs])

    One outbound per node, in order; the first node no builder accepts fails
    the document.  The pretty printer is an argument. *)

From stdpp Require Import pretty.
From S2P Require Import Prelude Kernel Node Text UrlText UriEmit Containers.
Import Text UrlText UriEmit Containers.

Module XrayEmit.

(** ** Stream settings *)

Definition transport_settings (t : Transport) : option Json :=
  match tr_kind t with
  | Ws | HttpUpgrade =>
      Some (object (opt_field "path" JString (tr_path t)
        ++ opt_field "headers" (λ host, object [("Host", JString host)]) (tr_host t)))
  | Grpc => Some (object (opt_field "serviceName" JString (tr_path t)))
  | H2 =>
      Some (object (opt_field "path" JString (tr_path t) ++ opt_field "host" (λ host, strings [host]) (tr_host t)))
  | Xhttp =>
      let mode := default XAuto (tr_xhttp_mode t) in
      Some (object (opt_field "path" JString (tr_path t) ++ opt_field "host" JString (tr_host t)
        ++ match mode with XAuto => [] | _ => [("mode", JString (xhttp_as_str mode))] end))
  | _ => None
  end.

(** The [security] members. *)
Definition security_fields (tls : option TlsConfig) : Members :=
  match tls with
  | None => [("security", JString "none")]
  | Some tls =>
      match reality tls with
      | Some r =>
          [("security", JString "reality");
           ("realitySettings", object (opt_field "serverName" JString (server_name tls)
              ++ str_field "publicKey" (public_key r) ++ str_field "shortId" (short_id r)
              ++ opt_field "fingerprint" JString (client_fingerprint tls)))]
      | None =>
          if tls_enabled tls then
            let ts := opt_field "serverName" JString (server_name tls)
              ++ opt_field "allowInsecure" JBool (skip_cert_verify tls) ++ list_field "alpn" (alpn tls)
              ++ opt_field "fingerprint" JString (client_fingerprint tls) in
            ("security", JString "tls") :: match ts with [] => [] | _ => [("tlsSettings", object ts)] end
          else [("security", JString "none")]
      end
  end.

Definition stream_settings (node : Node) : Json :=
  let transport := default (mkTransport Tcp None None None) (transport node) in
  let network := transport_kind_str (tr_kind transport) in
  object ([("network", JString network)] ++ security_fields (tls node)
    ++ opt_field (network +:+ "Settings") id (transport_settings transport)).

(** ** Builders: protocol name, [settings] and [streamSettings] *)

Definition Emit : Type := Result EmitError (string * Json * option Json).

Definition trojan (node : Node) (server : string) (port : N) : Emit :=
  match authentication node with
  | AuthPassword password =>
      Ok ("trojan",
          object [("servers", JArray [object [("address", JString server); ("port", number port);
            ("password", JString password)]])],
          Some (stream_settings node))
  | _ => Err (EMissingField "trojan password")
  end.

Definition shadowsocks (node : Node) (server : string) (port : N) : Emit :=
  match authentication node with
  | AuthPassword password =>
      match config node with
      | CShadowsocks cfg =>
          Ok ("shadowsocks",
              object [("servers", JArray [object [("address", JString server); ("port", number port);
                ("method", JString (ss_method cfg)); ("password", JString password)]])],
              None)
      | _ => Err (EMissingField "ss method")
      end
  | _ => Err (EMissingField "ss password")
  end.

Definition vmess (node : Node) (server : string) (port : N) : Emit :=
  match authentication node with
  | AuthUuid uuid =>
      let alter_id := match config node with CVMess cfg => default 0%N (vmess_alter_id cfg) | _ => 0%N end in
      let security := match config node with CVMess cfg => default "auto" (vmess_security cfg) | _ => "auto" end in
      Ok ("vmess",
          object [("vnext", JArray [object [("address", JString server); ("port", number port);
            ("users", JArray [object [("id", JString uuid); ("alterId", number alter_id);
              ("security", JString security)]])]])],
          Some (stream_settings node))
  | _ => Err (EMissingField "vmess uuid")
  end.

Definition vless (node : Node) (server : string) (port : N) : Emit :=
  match authentication node with
  | AuthUuid uuid =>
      let flow := match config node with CVlessReality cfg => vless_flow cfg | _ => None end in
      Ok ("vless",
          object [("vnext", JArray [object [("address", JString server); ("port", number port);
            ("users", JArray [object ([("id", JString uuid); ("encryption", JString "none")]
              ++ opt_field "flow" JString flow)])]])],
          Some (stream_settings node))
  | _ => Err (EMissingField "vless uuid")
  end.

(** A peer of the WireGuard outbound; a negative keepalive is left out. *)
Definition wireguard_peer (server : string) (port : N) (p : WireGuardPeer) : Json :=
  object ([("publicKey", JString (wgp_public_key p));
           ("endpoint", JString (server +:+ ":" +:+ pretty port))]
    ++ opt_field "preSharedKey" JString (wgp_pre_shared_key p)
    ++ list_field "allowedIPs" (wgp_allowed_ips p)
    ++ match persistent_keepalive p with
       | Some ka =>
           let secs := Z.quot ka 1000000000 in
           if Z.leb 0 secs then [("keepAlive", JNumber (pretty secs))] else []
       | None => []
       end).

Definition reserved_array (r : N * N * N) : Json :=
  let '(a, b, c) := r in JArray [number a; number b; number c].

Definition emit_wireguard (node : Node) (tag : string) : Result EmitError Json :=
  match config node with
  | CWireGuard cfg =>
      let server := uri_host (host (endpoint node)) in
      let peers := wireguard_peer server (port (endpoint node)) <$> wg_peers cfg in
      let settings := [("secretKey", JString (wg_private_key cfg))]
        ++ list_field "address" (wg_address cfg) ++ opt_field "mtu" number (wg_mtu cfg)
        ++ opt_field "reserved" reserved_array (p ← head (wg_peers cfg); wgp_reserved p)
        ++ [("peers", JArray peers)] in
      Ok (object [("tag", JString tag); ("protocol", JString "wireguard"); ("settings", object settings)])
  | _ => Err (EMissingField "wireguard config")
  end.

Definition emit_outbound (node : Node) : Result EmitError Json :=
  let server := uri_host (host (endpoint node)) in
  let port := port (endpoint node) in
  let tag := display_name node in
  if decide (protocol node = WireGuard) then emit_wireguard node tag
  else
    let? (protocol, settings, stream) :=
      match protocol node with
      | Trojan => trojan node server port
      | Shadowsocks => shadowsocks node server port
      | VMess => vmess node server port
      | Vless => vless node server port
      | other => Err (NoEmitter ("v2ray: unsupported protocol " +:+ protocol_display other))
      end in
    Ok (object ([("tag", JString tag); ("protocol", JString protocol); ("settings", settings)]
      ++ opt_field "streamSettings" id stream)).

(** ** Documents *)

Definition xray_doc (nodes : list Node) : Result EmitError Json :=
  let? outbounds := collect_ok emit_outbound nodes in
  Ok (object [("outbounds", JArray outbounds)]).

Definition v2ray_protocol (k : ProtocolKind) : bool :=
  match k with Vless | VMess | Trojan | Shadowsocks => true | _ => false end.
Definition v2ray_transport (k : TransportKind) : bool :=
  match k with Tcp | Ws | H2 | Grpc | Quic => true | _ => false end.

Definition v2ray_doc (nodes : list Node) : Result EmitError Json :=
  if existsb (λ n, negb (v2ray_protocol (protocol n))
       || match transport n with Some t => negb (v2ray_transport (tr_kind t)) | None => false end) nodes
  then Err (NoEmitter "unsupported V2Ray protocol or transport")
  else if existsb (λ n, match tls n with Some t => bool_decide (reality t ≠ None) | None => false end) nodes
  then Err (NoEmitter "V2Ray does not support Reality security")
  else xray_doc nodes.

Section text.
(** [serde_json::to_string_pretty] *)
Variable to_string_pretty : Json → string.

Definition emit_xray (nodes : list Node) : Result EmitError string :=
  let? doc := xray_doc nodes in Ok (to_string_pretty doc).

Definition emit_v2ray (nodes : list Node) : Result EmitError string :=
  let? doc := v2ray_doc nodes in Ok (to_string_pretty doc).
End text.

End XrayEmit.
