(* ===== verification/XrayTheorems.v ===== *)
(** * Xray documents: what they keep

    Every outbound gives a node, of its own protocol or with the raw entry;
    a document emitted from canonical nodes reads back as those nodes; what the
    emitter writes that the parser reads differently. *)

From stdpp Require Import pretty.
From S2P Require Import Prelude Kernel Node Text Ip UrlText Float64 UrlInstance UriParse UriEmit UriRoundtrip UriProtocols SourceParse Containers XrayParse XrayEmit.
Import Text Ip UrlText UriParse UriEmit UriRoundtrip UriBase64 SourceParse Containers XrayParse XrayEmit.

Module XrayTheorems.

(** ** Canonical nodes *)

(** TLS settings the stream settings carry. *)
Definition tls_carried (t : TlsConfig) : Prop :=
  tls_enabled t = true ∧ certificate_pins t = [] ∧
  match reality t with
  | Some r => spider_x r = None ∧ skip_cert_verify t = None ∧ alpn t = []
  | None => server_name t ≠ None ∨ skip_cert_verify t ≠ None ∨ alpn t ≠ [] ∨ client_fingerprint t ≠ None
  end.

Definition transport_carried (t : Transport) : Prop :=
  match tr_kind t with
  | Ws => tr_xhttp_mode t = None
  | Grpc => tr_host t = None ∧ tr_xhttp_mode t = None
  | Xhttp => tr_xhttp_mode t ≠ None
  | Tcp | Kcp | Quic | H2 | HttpUpgrade => tr_path t = None ∧ tr_host t = None ∧ tr_xhttp_mode t = None
  | Xtls => False
  end.

Definition stream_carried (n : Node) : Prop :=
  match transport n with Some t => transport_carried t | None => False end.

Definition peer_carried (reserved : option (N * N * N)) (p : WireGuardPeer) : Prop :=
  wgp_reserved p = reserved ∧
  match persistent_keepalive p with
  | Some d => ∃ s, (0 ≤ s ≤ Z.of_N i64_max)%Z ∧ d = (s * 1000000000)%Z
  | None => True
  end.

Definition is_byte (n : N) : Prop := (n ≤ 255)%N.

Definition config_carried (n : Node) : Prop :=
  match protocol n, config n, authentication n with
  | Trojan, CTrojan c, AuthPassword _ =>
      trojan_packet_encoding c = None ∧ stream_carried n ∧
      match tls n with Some t => tls_carried t ∨ t = default_tls_enabled | None => False end
  | Shadowsocks, CShadowsocks c, AuthPassword _ =>
      ss_plugin c = None ∧ ss_plugin_opts c = None ∧ tls n = None ∧ transport n = None
  | VMess, CVMess c, AuthUuid _ =>
      (∃ aid, vmess_alter_id c = Some aid ∧ (aid ≤ u32_max)%N) ∧ vmess_security c ≠ None ∧
      vmess_packet_encoding c = None ∧ stream_carried n ∧
      match tls n with Some t => tls_carried t | None => True end
  | Vless, CVlessReality c, AuthUuid _ =>
      vless_encryption c = Some "none" ∧ vless_packet_encoding c = None ∧ stream_carried n ∧
      match tls n with Some t => tls_carried t ∧ reality t ≠ None | None => False end
  | WireGuard, CWireGuard c, AuthNone =>
      wg_workers c = None ∧ wg_dns c = [] ∧ tls n = None ∧ transport n = None ∧
      (∀ m, wg_mtu c = Some m → (m ≤ u32_max)%N) ∧
      match wg_peers c with
      | [] => False
      | p :: _ =>
          Forall (peer_carried (wgp_reserved p)) (wg_peers c) ∧
          match wgp_reserved p with Some (x, y, z) => is_byte x ∧ is_byte y ∧ is_byte z | None => True end
      end
  | _, _, _ => False
  end.

(** A node the Xray document says everything about. *)
Record xray_canonical (n : Node) : Prop := {
  xc_plain : plain n;
  xc_endpoint : endpoint_ok (endpoint n);
  xc_rest : obfuscation n = None ∧ congestion n = None ∧ extras n = ∅;
  xc_config : config_carried n
}.

(** ** Stream settings read back *)

(** The member a transport adds: its name ends in "Settings". *)
Lemma settings_key k : transport_kind_str k +:+ "Settings" ∉ ["network"; "security"; "tlsSettings"; "realitySettings"].
Proof. apply (bool_decide_unpack _). by destruct k. Qed.

Lemma stream_get n k :
  k ∈ ["network"; "security"; "tlsSettings"; "realitySettings"] →
  get (stream_settings n) k
  = match last_of (security_fields (tls n)) k with
    | Some v => Some v
    | None => last_of [("network", JString (transport_kind_str (tr_kind (default (mkTransport Tcp None None None) (transport n)))))] k
    end.
Proof.
  intros Hk. unfold stream_settings. rewrite get_object, !last_of_app, last_of_opt.
  destruct (String.eqb_spec (transport_kind_str (tr_kind (default (mkTransport Tcp None None None) (transport n))) +:+ "Settings") k) as [E|_].
  - exfalso. eapply settings_key. rewrite E. exact Hk.
  - done.
Qed.

Lemma read_alias l a b o :
  last_of l a = JString <$> o → last_of l b = None → get_str_alias (object l) a b = o.
Proof. intros Ha Hb. unfold get_str_alias, get_str. rewrite !get_object, Ha, Hb. by destruct o. Qed.

Lemma read_alias_text l a b s :
  last_of l a = (if is_empty s then None else Some (JString s)) → last_of l b = None →
  default "" (get_str_alias (object l) a b) = s.
Proof. intros Ha Hb. unfold get_str_alias, get_str. rewrite !get_object, Ha, Hb. by destruct s. Qed.

Lemma extract_tls_stream n t :
  tls n = Some t → tls_carried t → extract_tls (stream_settings n) = Some t.
Proof.
  intros Hn (He & Hp & Hr). unfold extract_tls, get_str.
  rewrite !stream_get by by apply (bool_decide_unpack _). rewrite Hn.
  unfold security_fields. destruct t as [en sni skip al fp pins [[pk sid spx]|]]; simpl in *; subst.
  - destruct Hr as (-> & -> & ->). do 2 f_equal.
    + apply read_alias; by members.
    + apply (read_bool _ _ None); by members.
    + apply (read_strings _ _ []); by members.
    + apply read_str; by members.
    + do 2 f_equal; apply read_alias_text; by members.
  - set (ts := _ ++ _).
    assert (Hts : ts ≠ []).
    { unfold ts. destruct sni, skip, al, fp; simpl; naive_solver. }
    destruct ts as [|kv ts'] eqn:E; [done|]. rewrite <- E. simpl. unfold ts. do 2 f_equal.
    + apply read_alias; by members.
    + apply read_bool; by members.
    + apply read_strings; by members.
    + apply read_str; by members.
Qed.

Lemma extract_tls_absent n :
  tls n = None ∨ tls n = Some default_tls_enabled → extract_tls (stream_settings n) = None.
Proof.
  intros Hn. unfold extract_tls, get_str.
  rewrite !stream_get by by apply (bool_decide_unpack _). by destruct Hn as [-> | ->].
Qed.

(** The transport's own member, past the others. *)
Lemma stream_get_settings n t k v :
  transport n = Some t → transport_settings t = Some v → k = transport_kind_str (tr_kind t) +:+ "Settings" →
  get (stream_settings n) k = Some v.
Proof.
  intros Hn Hv ->. unfold stream_settings. rewrite Hn. change (default ?d (Some t)) with t. rewrite get_object, !last_of_app, last_of_opt.
  rewrite String.eqb_refl, Hv. done.
Qed.

Lemma security_keys tls k :
  k ∉ ["security"; "tlsSettings"; "realitySettings"] → last_of (security_fields tls) k = None.
Proof.
  rewrite !not_elem_of_cons. intros (H1 & H2 & H3 & _). apply not_eq_sym, String.eqb_neq in H1, H2, H3.
  destruct tls as [t|]; cbn [security_fields last_of]; [|by rewrite H1].
  destruct (reality t); cbn [last_of]; [by rewrite H3, H1|]. destruct (tls_enabled t); cbn [last_of]; [|by rewrite H1].
  destruct (_ ++ _); cbn [last_of]; [by rewrite H1|]. by rewrite H2, H1.
Qed.

Lemma extract_transport_stream n t :
  transport n = Some t → transport_carried t → extract_transport (stream_settings n) = Some t.
Proof.
  intros Hn Ht.
  assert (Hnet : get_str (stream_settings n) "network" = Some (transport_kind_str (tr_kind t))).
  { unfold get_str. rewrite stream_get by by apply (bool_decide_unpack _). 
    rewrite security_keys by by apply (bool_decide_unpack _). by rewrite Hn. }
  assert (Hkind : network_kind (transport_kind_str (tr_kind t)) = Some (tr_kind t))
    by (unfold transport_carried in Ht; by destruct (tr_kind t)).
  unfold extract_transport. rewrite Hnet. cbn [mbind option_bind]. rewrite Hkind. cbn [mbind option_bind].
  destruct t as [kind path host mode]. unfold transport_carried in Ht. cbn [tr_kind tr_path tr_host tr_xhttp_mode] in *.
  clear Hnet Hkind. destruct kind; try (by destruct Ht as (-> & -> & ->));
    try (rewrite (stream_get_settings n _ _ _ Hn eq_refl) by done; cbn [mbind option_bind]); [| | |done|].
  - subst mode. do 2 f_equal; [apply read_str; by members|].
    members. destruct host as [h|]; [|done]. simpl. by apply (read_str _ _ (Some h)).
  - destruct Ht as (-> & -> & ->). unfold stream_settings. rewrite Hn. members.
    rewrite security_keys by by apply (bool_decide_unpack _). done.
  - destruct Ht as [-> ->]. do 2 f_equal. apply read_str; by members.
  - destruct mode as [m|]; [|done].
    destruct m; (do 2 f_equal; [apply read_str; by members|apply read_str; by members|]);
      unfold get_str; members; reflexivity.
Qed.

(** ** Outbounds read back *)

Section outbounds.
Context `{L : UrlLib}.
Variable fresh : NodeId * Z.

(** An outbound as [emit_outbound] writes it. *)
Definition outbound (tag protocol : string) (settings : Json) (stream : option Json) : Json :=
  object ([("tag", JString tag); ("protocol", JString protocol); ("settings", settings)]
    ++ opt_field "streamSettings" id stream).

Lemma outbound_tag tag p settings stream : extract_tag (outbound tag p settings stream) = tag.
Proof. unfold extract_tag, outbound. by rewrite (read_str _ _ (Some tag)) by by members. Qed.

Lemma outbound_protocol tag p settings stream : get_str (outbound tag p settings stream) "protocol" = Some p.
Proof. apply (read_str _ _ (Some p)). by members. Qed.

Lemma outbound_settings tag p settings stream : get (outbound tag p settings stream) "settings" = Some settings.
Proof. unfold outbound. by members. Qed.

Lemma outbound_stream tag p settings stream : get (outbound tag p settings stream) "streamSettings" = stream.
Proof. unfold outbound. members. by destruct stream. Qed.

(** The first server of an emitted list, whatever its other members. *)
Lemma server_of_emitted k h p rest :
  uri_host_ok h → (p ≤ u16_max)%N → Forall (λ kv, kv.1 ∉ ["address"; "port"]) rest →
  server_of k [object ([("address", JString (uri_host h)); ("port", number p)] ++ rest)] = Ok (uri_host h, p).
Proof.
  intros Hh Hp Hrest. unfold server_of. cbn [head ok_or result_bind].
  assert (Hnone : ∀ key, key ∈ ["address"; "port"] → last_of rest key = None).
  { intros key Hk. induction Hrest as [|[k' v] rest Hk' _ IH]; [done|]. cbn [last_of]. rewrite IH.
    destruct (String.eqb_spec k' key) as [->|]; done. }
  rewrite (read_str _ _ (Some (uri_host h))).
  2:{ rewrite last_of_app, Hnone by by apply (bool_decide_unpack _). done. }
  cbn [ok_or result_bind]. rewrite get_object, last_of_app, Hnone by by apply (bool_decide_unpack _).
  change (last_of [("address", JString (uri_host h)); ("port", number p)] "port") with (Some (number p)).
  cbn [mbind option_bind]. rewrite as_u64_number by (unfold u16_max, u64_max in *; lia).
  cbn [ok_or result_bind]. by destruct (N.leb_spec p u16_max); [|lia].
Qed.

Lemma endpoint_emitted tag proto stream k e rest :
  k = "vnext" ∨ k = "servers" → endpoint_ok e → Forall (λ kv, kv.1 ∉ ["address"; "port"]) rest →
  parse_endpoint (outbound tag proto
    (object [(k, JArray [object ([("address", JString (uri_host (host e))); ("port", number (port e))] ++ rest)])]) stream)
  = Ok e.
Proof.
  intros Hk [Hh Hp] Hrest. unfold parse_endpoint, extract_server_port. rewrite outbound_settings.
  cbn [ok_or result_bind]. unfold get_array. rewrite !get_object.
  destruct Hk as [-> | ->]; cbn [last_of String.eqb Ascii.eqb Bool.eqb mbind option_bind as_array];
    rewrite server_of_emitted by done; cbn [result_bind]; rewrite parse_host_uri by done; by destruct e.
Qed.

Lemma first_emitted tag proto stream k item first :
  first_of (outbound tag proto (object [(k, JArray [first])]) stream) k item = Ok first.
Proof.
  unfold first_of. rewrite outbound_settings. cbn [ok_or result_bind]. unfold get_array.
  rewrite get_object. cbn [last_of]. by rewrite String.eqb_refl.
Qed.

Lemma first_user_emitted tag proto stream addr p user uuid :
  last_of user "id" = Some (JString uuid) →
  first_user (outbound tag proto
    (object [("vnext", JArray [object [("address", addr); ("port", p); ("users", JArray [object user])]])]) stream)
  = Ok (object user, uuid).
Proof.
  intros Hid. unfold first_user. rewrite first_emitted. cbn [result_bind]. unfold get_array.
  rewrite get_object. cbn [last_of String.eqb Ascii.eqb Bool.eqb mbind option_bind as_array ok_or result_bind head].
  by rewrite (read_str _ _ (Some uuid)).
Qed.

Lemma stream_emitted n tag proto settings :
  stream_carried n → match tls n with Some t => tls_carried t | None => True end →
  stream_of (outbound tag proto settings (Some (stream_settings n))) = (tls n, transport n).
Proof.
  intros Htr Ht. unfold stream_of. rewrite outbound_stream. unfold stream_carried in Htr.
  destruct (transport n) as [tr|] eqn:Etr; [|done]. rewrite (extract_transport_stream n tr) by done.
  destruct (tls n) as [t|] eqn:Et; [by rewrite (extract_tls_stream n t)|].
  by rewrite extract_tls_absent by auto.
Qed.

(** The outbound of a node reads back as the node. *)
Definition reads_back (n : Node) : Prop :=
  ∃ e, emit_outbound n = Ok e ∧ ∀ f, parse_outbound fresh e f = restamped fresh n.

(** It does when the mapper of the emitted protocol name rebuilds its fields. *)
Lemma reads_back_intro n p settings stream :
  emit_outbound n = Ok (outbound (display_name n) p settings stream) →
  (∀ f, map_outbound fresh p (outbound (display_name n) p settings stream) f = Ok (restamped fresh n)) →
  reads_back n.
Proof.
  intros He Hm. eexists. split; [exact He|]. intros f. unfold parse_outbound. by rewrite outbound_protocol, Hm.
Qed.

(** The members after [address] and [port] leave those alone. *)
Ltac others := repeat constructor; by apply (bool_decide_unpack _).

Lemma xray_trojan_reads_back n c pw :
  xray_canonical n → protocol n = Trojan → config n = CTrojan c → authentication n = AuthPassword pw → reads_back n.
Proof.
  intros [Hpl He (Hob & Hco & Hex) Hc] Hp Hcfg Ha. unfold config_carried in Hc. rewrite Hp, Hcfg, Ha in Hc.
  destruct Hc as (Hpe & Htr & Ht). eapply reads_back_intro.
  { unfold emit_outbound. destruct (decide _); [congruence|]. rewrite Hp. unfold trojan. by rewrite Ha. }
  intros f. unfold map_outbound. cbn [String.eqb Ascii.eqb Bool.eqb]. unfold parse_trojan.
  pose proof (endpoint_emitted (display_name n) "trojan" (Some (stream_settings n)) "servers" (endpoint n)
    [("password", JString pw)] ltac:(auto) He ltac:(others)) as Hep. cbn [app] in Hep.
  rewrite Hep, first_emitted. cbn [result_bind]. rewrite (read_str _ _ (Some pw)) by by members. cbn [ok_or result_bind].
  rewrite outbound_tag, restamped_plain, Hp, Hcfg, Ha, Hob, Hco, Hex by done.
  replace c with (mkTrojan None) by (destruct c; simpl in Hpe; by subst).
  destruct (tls n) as [t|] eqn:Et; [|done]. destruct Ht as [Ht | ->].
  - rewrite stream_emitted by (rewrite ?Et; done). by rewrite Et.
  - unfold stream_of. rewrite outbound_stream, extract_tls_absent by auto.
    unfold stream_carried in Htr. destruct (transport n) as [tr|] eqn:Etr; [|done].
    by rewrite (extract_transport_stream n tr).
Qed.

Lemma xray_shadowsocks_reads_back n c pw :
  xray_canonical n → protocol n = Shadowsocks → config n = CShadowsocks c → authentication n = AuthPassword pw →
  reads_back n.
Proof.
  intros [Hpl He (Hob & Hco & Hex) Hc] Hp Hcfg Ha. unfold config_carried in Hc. rewrite Hp, Hcfg, Ha in Hc.
  destruct Hc as (Hpl1 & Hpl2 & Ht & Htr). eapply reads_back_intro.
  { unfold emit_outbound. destruct (decide _); [congruence|]. rewrite Hp. unfold shadowsocks. by rewrite Ha, Hcfg. }
  intros f. unfold map_outbound. cbn [String.eqb Ascii.eqb Bool.eqb]. unfold parse_shadowsocks.
  pose proof (endpoint_emitted (display_name n) "shadowsocks" None "servers" (endpoint n)
    [("method", JString (ss_method c)); ("password", JString pw)] ltac:(auto) He ltac:(others)) as Hep. cbn [app] in Hep.
  rewrite Hep, first_emitted. cbn [result_bind]. rewrite (read_str _ _ (Some pw)) by by members. cbn [ok_or result_bind].
  rewrite (read_str _ _ (Some (ss_method c))) by by members. cbn [ok_or result_bind].
  rewrite outbound_tag, restamped_plain, Hp, Hcfg, Ha, Hob, Hco, Hex, Ht, Htr by done.
  destruct c; simpl in *; by subst.
Qed.

(** The mapper on an emitted VMess outbound, whatever its stream settings give. *)
Lemma vmess_outbound_reads n aid sec uuid stream tls transport f :
  endpoint_ok (endpoint n) → (aid ≤ u32_max)%N →
  let settings := object [("vnext", JArray [object [("address", JString (uri_host (host (endpoint n))));
    ("port", number (port (endpoint n)));
    ("users", JArray [object [("id", JString uuid); ("alterId", number aid); ("security", JString sec)]])]])] in
  stream_of (outbound (display_name n) "vmess" settings stream) = (tls, transport) →
  map_outbound fresh "vmess" (outbound (display_name n) "vmess" settings stream) f
  = Ok (container_node fresh (display_name n) VMess (CVMess (mkVMess (Some aid) (Some sec) None)) (endpoint n)
      (AuthUuid uuid) tls transport None None ∅).
Proof.
  intros He Hmax settings Hs. unfold map_outbound. cbn [String.eqb Ascii.eqb Bool.eqb]. unfold parse_vmess.
  set (user := [("id", JString uuid); ("alterId", number aid); ("security", JString sec)]) in settings.
  pose proof (endpoint_emitted (display_name n) "vmess" stream "vnext" (endpoint n)
    [("users", JArray [object user])] ltac:(auto) He ltac:(others)) as Hep. cbn [app] in Hep. fold settings in Hep.
  rewrite Hep. cbn [result_bind]. unfold settings at 1. rewrite (first_user_emitted _ _ _ _ _ user uuid) by done.
  cbn [result_bind]. rewrite Hs. unfold user.
  rewrite (read_u32 _ _ (Some aid)) by (by members || naive_solver).
  rewrite (read_str _ _ (Some sec)) by by members. by rewrite outbound_tag.
Qed.

Lemma xray_vmess_reads_back n c uuid :
  xray_canonical n → protocol n = VMess → config n = CVMess c → authentication n = AuthUuid uuid → reads_back n.
Proof.
  intros [Hpl He (Hob & Hco & Hex) Hc] Hp Hcfg Ha. unfold config_carried in Hc. rewrite Hp, Hcfg, Ha in Hc.
  destruct Hc as ((aid & Haid & Hmax) & Hsec & Hpe & Htr & Ht).
  destruct c as [aid' [sec|] pe]; simpl in *; [subst|done]. eapply reads_back_intro.
  { unfold emit_outbound. destruct (decide _); [congruence|]. rewrite Hp. unfold vmess. by rewrite Ha, Hcfg. }
  intros f. cbn [vmess_alter_id vmess_security from_option id].
  rewrite (vmess_outbound_reads n aid sec uuid _ (tls n) (transport n)) by (done || by apply stream_emitted).
  by rewrite restamped_plain, Hp, Hcfg, Ha, Hob, Hco, Hex by done.
Qed.

Lemma xray_vless_reads_back n c uuid :
  xray_canonical n → protocol n = Vless → config n = CVlessReality c → authentication n = AuthUuid uuid → reads_back n.
Proof.
  intros [Hpl He (Hob & Hco & Hex) Hc] Hp Hcfg Ha. unfold config_carried in Hc. rewrite Hp, Hcfg, Ha in Hc.
  destruct Hc as (Henc & Hpe & Htr & Ht). destruct c as [enc flow pe]; simpl in *; subst. eapply reads_back_intro.
  { unfold emit_outbound. destruct (decide _); [congruence|]. rewrite Hp. unfold vless. by rewrite Ha, Hcfg. }
  intros f. unfold map_outbound. cbn [String.eqb Ascii.eqb Bool.eqb vless_flow]. unfold parse_vless.
  set (user := [("id", JString uuid); ("encryption", JString "none")] ++ opt_field "flow" JString flow).
  pose proof (endpoint_emitted (display_name n) "vless" (Some (stream_settings n)) "vnext" (endpoint n)
    [("users", JArray [object user])] ltac:(auto) He ltac:(others)) as Hep. cbn [app] in Hep.
  rewrite Hep. cbn [result_bind]. rewrite (first_user_emitted _ _ _ _ _ user uuid) by (unfold user; by members).
  cbn [result_bind]. destruct (tls n) as [t|] eqn:Et; [|done]. destruct Ht as [Ht Hr].
  rewrite stream_emitted by (rewrite ?Et; done). rewrite Et. rewrite bool_decide_eq_true_2 by done. unfold user.
  rewrite (read_str _ _ (Some "none")) by by members. rewrite (read_str _ _ flow) by by members.
  by rewrite outbound_tag, restamped_plain, Hp, Hcfg, Ha, Hob, Hco, Hex, Et by done.
Qed.

Lemma keepalive_text s :
  (0 ≤ s ≤ Z.of_N i64_max)%Z →
  seconds_or_zero <$> as_u64 (JNumber (pretty s)) = Some (s * 1000000000)%Z.
Proof.
  intros Hs. rewrite pretty_Z_nonneg by lia. fold (number (Z.to_N s)).
  rewrite as_u64_number by (unfold i64_max, u64_max in *; lia). cbn. unfold seconds_or_zero.
  destruct (N.leb_spec (Z.to_N s) i64_max); [|lia]. f_equal. lia.
Qed.

Lemma peer_reads_back server port reserved p :
  peer_carried reserved p → parse_peer reserved (wireguard_peer server port p) = Ok p.
Proof.
  intros [Hr Hk]. destruct p as [pk psk ips res ka]. simpl in Hr, Hk. subst reserved.
  unfold parse_peer, wireguard_peer. cbn [wgp_public_key wgp_pre_shared_key wgp_allowed_ips persistent_keepalive].
  set (kf := match ka with Some _ => _ | None => _ end).
  assert (Hkf : ∀ k, last_of kf k = if String.eqb "keepAlive" k then
      (λ d, JNumber (pretty (Z.quot d 1000000000))) <$> ka else None).
  { intros k. unfold kf. destruct ka as [d|]; [|by destruct (String.eqb _ _)]. destruct Hk as (s & Hs & ->).
    cbn [fmap option_fmap option_map]. rewrite !Z.quot_mul by lia. by destruct (Z.leb_spec 0 s); [|lia]. }
  rewrite (read_str _ _ (Some pk)) by (members; by rewrite Hkf). cbn [ok_or result_bind].
  rewrite (read_str _ _ psk) by (members; rewrite Hkf; by members).
  rewrite (read_strings _ _ ips) by (members; rewrite Hkf; by members).
  members. rewrite Hkf. cbn [String.eqb Ascii.eqb Bool.eqb]. do 2 f_equal.
  destruct ka as [d|]; [|done]. destruct Hk as (s & Hs & ->). cbn [fmap option_fmap option_map mbind option_bind].
  rewrite Z.quot_mul by lia. by apply keepalive_text.
Qed.

Lemma peer_endpoint server port p :
  get_str (wireguard_peer server port p) "endpoint" = Some (server +:+ ":" +:+ pretty port).
Proof.
  apply (read_str _ _ (Some (server +:+ ":" +:+ pretty port))). members.
  destruct (persistent_keepalive p) as [d|]; [|done]. by destruct (Z.leb _ _).
Qed.

Lemma peers_read_back server port reserved ps :
  Forall (peer_carried reserved) ps → collect_ok (parse_peer reserved) (wireguard_peer server port <$> ps) = Ok ps.
Proof.
  induction 1 as [|p ps Hp _ IH]; [done|]. cbn [fmap list_fmap collect_ok]. rewrite peer_reads_back by done.
  cbn [result_bind]. by rewrite IH.
Qed.

Lemma reserved_reads_back l r :
  match r with Some (x, y, z) => is_byte x ∧ is_byte y ∧ is_byte z | None => True end →
  last_of l "reserved" = reserved_array <$> r → reserved_of (object l) = r.
Proof.
  intros Hr Hl. unfold reserved_of, get_array. rewrite get_object, Hl. destruct r as [[[x y] z]|]; [|done].
  destruct Hr as (Hx & Hy & Hz). unfold is_byte in *. cbn [fmap option_fmap option_map mbind option_bind as_array reserved_array].
  unfold as_u8. rewrite !as_u64_number by (unfold u64_max; lia). cbn [mbind option_bind].
  by repeat match goal with |- context [N.leb ?a 255] => destruct (N.leb_spec a 255); [cbn [mbind option_bind]|lia] end.
Qed.

Lemma xray_wireguard_reads_back n c :
  xray_canonical n → protocol n = WireGuard → config n = CWireGuard c → authentication n = AuthNone → reads_back n.
Proof.
  intros [Hpl He (Hob & Hco & Hex) Hc] Hp Hcfg Ha. unfold config_carried in Hc. rewrite Hp, Hcfg, Ha in Hc.
  destruct c as [sk addr peers mtu workers dns]; simpl in Hc. destruct Hc as (-> & -> & Ht & Htr & Hmtu & Hps).
  destruct peers as [|p ps] eqn:Eps; [done|]. rewrite <- Eps in Hps. destruct Hps as [Hps Hr].
  set (settings := [("secretKey", JString sk)] ++ list_field "address" addr ++ opt_field "mtu" number mtu
    ++ opt_field "reserved" reserved_array (wgp_reserved p)
    ++ [("peers", JArray (wireguard_peer (uri_host (host (endpoint n))) (port (endpoint n)) <$> p :: ps))]).
  apply (reads_back_intro n "wireguard" (object settings) None).
  { unfold emit_outbound. rewrite decide_True by done. unfold emit_wireguard. by rewrite Hcfg. }
  intros f. unfold map_outbound. cbn [String.eqb Ascii.eqb Bool.eqb]. unfold parse_wireguard.
  rewrite outbound_settings. cbn [ok_or result_bind]. unfold settings.
  rewrite (read_str _ _ (Some sk)) by by members. cbn [ok_or result_bind].
  rewrite (reserved_reads_back _ (wgp_reserved p)) by (done || by members).
  unfold get_array. members. cbn [mbind option_bind as_array ok_or result_bind].
  rewrite Eps in Hps. rewrite peers_read_back by done. cbn [fmap list_fmap head result_bind mbind option_bind].
  rewrite peer_endpoint. fold (host_port n).
  cbn [mbind option_bind]. rewrite parse_host_port_text by done. cbn [ok_or result_bind].
  rewrite (read_strings _ _ addr) by by members. rewrite (read_u32 _ _ mtu) by (done || by members).
  rewrite outbound_tag, restamped_plain, Hp, Hcfg, Ha, Hob, Hco, Hex, Ht, Htr by done. by destruct (endpoint n).
Qed.

Lemma xray_canonical_reads_back n : xray_canonical n → reads_back n.
Proof.
  intros H. pose proof (xc_config n H) as Hc. unfold config_carried in Hc.
  destruct (protocol n) eqn:Ep; try done; destruct (config n) eqn:Ec; try done;
    destruct (authentication n) eqn:Ea; try done;
    eauto using xray_vless_reads_back, xray_vmess_reads_back, xray_trojan_reads_back, xray_shadowsocks_reads_back, xray_wireguard_reads_back.
Qed.

End outbounds.

(** ** Documents *)

Section documents.
Context `{L : UrlLib}.

Lemma canonical_outbounds nodes :
  Forall xray_canonical nodes →
  ∃ es, collect_ok emit_outbound nodes = Ok es ∧ length es = length nodes ∧
    ∀ (stamp : nat → NodeId * Z) f,
      imap (λ k e, parse_outbound (stamp k) e f) es = imap (λ k n, restamped (stamp k) n) nodes.
Proof.
  induction 1 as [|n nodes Hn _ (es & Hes & Hlen & Hd)]; [by exists []|].
  destruct (xray_canonical_reads_back (0%N, 0%Z) n Hn) as (e & He & _).
  exists (e :: es). cbn [collect_ok]. rewrite He. cbn [result_bind]. rewrite Hes. split_and!; [done|simpl; lia|].
  intros stamp f. cbn [imap]. f_equal; [|apply (Hd (stamp ∘ S))].
  destruct (xray_canonical_reads_back (stamp 0) n Hn) as (e' & He' & Hp). rewrite He in He'. injection He' as <-. apply Hp.
Qed.

(** C8: An Xray document emitted from canonical nodes reads back as those
    nodes, in order: server, credentials, TLS, Reality, transport, WireGuard
    peers, keepalives and reserved bytes all survive; only identity and
    provenance are new. *)
Theorem xray_roundtrip (draw : Draw) (nodes : list Node) (raw_format : string)
  (Hc : Forall xray_canonical nodes) (Hmax : length nodes ≤ MAX_ENTRIES) :
  ∃ doc, xray_doc nodes = Ok doc ∧
    parse_xray_v2ray_value draw doc raw_format = Ok (imap (λ k n, restamped (draw k) n) nodes).
Proof.
  destruct (canonical_outbounds nodes Hc) as (es & Hes & Hlen & Hd).
  eexists. unfold xray_doc. rewrite Hes. split; [done|].
  unfold parse_xray_v2ray_value. members. cbn [ok_or result_bind as_array]. unfold check_entry_count.
  destruct (Nat.ltb_spec MAX_ENTRIES (length es)); [lia|]. cbn [result_bind]. by rewrite Hd.
Qed.

(** ** No outbound is dropped *)

(** The node has the protocol the entry names, or keeps the entry. *)
Definition kept_entry (raw_format : string) (e : Json) (n : Node) : Prop :=
  match config n with
  | CUnsupported u => raw u = e ∧ Node.raw_format u = Some raw_format
  | _ => get_str e "protocol" = Some (as_filter_key (protocol n))
  end.

Lemma map_outbound_kept fresh p e f n :
  map_outbound fresh p e f = Ok n → get_str e "protocol" = Some p → kept_entry f e n.
Proof.
  intros H Hp. unfold map_outbound in H.
  repeat (match type of H with (if String.eqb p ?k then _ else _) = _ => destruct (String.eqb_spec p k) as [->|_] end;
    [unfold parse_vless, parse_vmess, parse_trojan, parse_shadowsocks, parse_wireguard in H;
     repeat (let y := fresh "y" in apply result_bind_Ok in H as (y & _ & H); try (destruct y as [? ?]));
     try destruct (stream_of e); apply Ok_inj in H as <-; unfold kept_entry; cbn; try done |]).
  - by match goal with |- context [if ?b then _ else _] => destruct b end.
  - discriminate H.
Qed.

Lemma xray_outbound_kept fresh e f : kept_entry f e (parse_outbound fresh e f).
Proof.
  unfold parse_outbound. destruct (get_str e "protocol") as [p|] eqn:Ep; [|done].
  destruct (map_outbound fresh p e f) as [n|err] eqn:Em; [by eapply map_outbound_kept|done].
Qed.

(** No outbound of an Xray or V2Ray document is lost or reordered: a
    document that parses gives one node per outbound, which either has the
    protocol the outbound names or keeps the raw outbound as unsupported. *)
Theorem xray_outbounds_kept (draw : Draw) (value : Json) (raw_format : string) (outbounds : list Json)
  (Hout : get value "outbounds" = Some (JArray outbounds)) (Hmax : length outbounds ≤ MAX_ENTRIES) :
  ∃ nodes, parse_xray_v2ray_value draw value raw_format = Ok nodes ∧
    Forall2 (kept_entry raw_format) outbounds nodes.
Proof.
  unfold parse_xray_v2ray_value. rewrite Hout. cbn [ok_or result_bind as_array]. unfold check_entry_count.
  destruct (Nat.ltb_spec MAX_ENTRIES (length outbounds)); [lia|]. cbn [result_bind].
  eexists. split; [done|]. clear. revert draw.
  induction outbounds as [|e es IH]; intros draw; [constructor|]. cbn [imap].
  constructor; [apply xray_outbound_kept|]. apply (IH (draw ∘ S)).
Qed.

(** ** TLS *)

Definition uses_stream (k : ProtocolKind) : Prop := k = Trojan ∨ k = VMess ∨ k = Vless.

Lemma emit_stream n e :
  emit_outbound n = Ok e → uses_stream (protocol n) →
  ∃ tag p settings, e = outbound tag p settings (Some (stream_settings n)).
Proof.
  intros He Hp. unfold emit_outbound in He. destruct (decide (protocol n = WireGuard)) as [Hw|_].
  { exfalso. rewrite Hw in Hp. destruct Hp as [|[|]]; done. }
  unfold trojan, vmess, vless in He.
  destruct Hp as [Hp | [Hp | Hp]]; rewrite Hp in He; destruct (authentication n); try done;
    apply Ok_inj in He as <-; eexists _, _, _; reflexivity.
Qed.

(** A node with TLS or Reality never becomes a plaintext outbound: its
    stream settings are written, with the security mode of the node, whether or
    not the node has a transport of its own. *)
Theorem xray_tls_kept (n : Node) (t : TlsConfig) (e : Json)
  (He : emit_outbound n = Ok e) (Hp : uses_stream (protocol n)) (Ht : tls n = Some t)
  (Hsec : tls_enabled t = true ∨ reality t ≠ None) :
  ∃ s, get e "streamSettings" = Some s ∧
    get_str s "security" = Some (if decide (reality t = None) then "tls" else "reality").
Proof.
  destruct (emit_stream n e He Hp) as (tag & p & settings & ->). exists (stream_settings n). rewrite outbound_stream. split; [done|].
  unfold get_str. rewrite stream_get by by apply (bool_decide_unpack _). rewrite Ht. unfold security_fields.
  destruct (reality t) as [r|]; [done|]. destruct Hsec as [Hsec|]; [|done]. rewrite Hsec.
  by destruct (_ ++ _).
Qed.

Definition with_tls (t : option TlsConfig) (n : Node) : Node :=
  mkNode (n_id n) (display_name n) (protocol n) (config n) (endpoint n) (authentication n) (transport n) t
    (udp n) (multiplex n) (obfuscation n) (congestion n) (n_chain n) (source n) (n_tags n) (region n) (extras n).

(** A VMess node with TLS and no TLS option of its own is written with
    [security] set to [tls], and the parser of the same format reads that
    outbound as the plaintext node: it takes the absence of [tlsSettings] for
    the absence of TLS. *)
Theorem vmess_bare_tls_lost (fresh : NodeId * Z) (n : Node) (raw_format : string)
  (Hc : xray_canonical n) (Hp : protocol n = VMess) (Ht : tls n = None) :
  ∃ e, emit_outbound (with_tls (Some default_tls_enabled) n) = Ok e ∧
    (s ← get e "streamSettings"; get_str s "security") = Some "tls" ∧
    parse_outbound fresh e raw_format = restamped fresh n.
Proof.
  destruct Hc as [Hpl He (Hob & Hco & Hex) Hc]. unfold config_carried in Hc. rewrite Hp in Hc.
  destruct (config n) as [| | | | |c| | | | | |] eqn:Hcfg; try done.
  destruct (authentication n) as [uuid| | | |] eqn:Ha; try done.
  destruct Hc as ((aid & Haid & Hmax) & Hsec & Hpe & Htr & _).
  destruct c as [aid' [sec|] pe]; simpl in *; [subst|done].
  set (m := with_tls (Some default_tls_enabled) n).
  eexists (outbound (display_name n) "vmess" _ (Some (stream_settings m))). split_and!.
  - unfold emit_outbound. rewrite decide_False by (simpl; congruence). simpl. rewrite Hp. unfold vmess. simpl.
    by rewrite Ha, Hcfg.
  - rewrite outbound_stream. cbn [mbind option_bind]. unfold get_str.
    by rewrite stream_get by by apply (bool_decide_unpack _).
  - unfold parse_outbound. rewrite outbound_protocol.
    rewrite (vmess_outbound_reads fresh n aid sec uuid _ None (transport n)); [|done..|].
    + by rewrite restamped_plain, Hp, Hcfg, Ha, Hob, Hco, Hex, Ht by done.
    + unfold stream_of. rewrite outbound_stream, extract_tls_absent by (by right).
      unfold stream_carried in Htr. destruct (transport n) as [tr|] eqn:Etr; [|done].
      by rewrite (extract_transport_stream m tr).
Qed.

End documents.

(** ** Concrete nodes *)

Definition sample (name : string) (k : ProtocolKind) (c : ProtocolConfig) (h : Host) (a : Authentication)
    (tr : option Transport) (t : option TlsConfig) : Node :=
  mkNode 7 name k c (mkEndpoint h 443) a tr t (mkUdp None None) None None None None
    (mkNodeSource "feed" None 0) [] (mkRegion RegionAuto None) ∅.

Definition sample_vless : Node :=
  sample "de-1" Vless (CVlessReality (mkVlessReality (Some "none") (Some "xtls-rprx-vision") None))
    (Ipv6 [8193; 3512; 0; 0; 0; 0; 0; 1]%N) (AuthUuid "u-1") (Some (mkTransport Xhttp (Some "/x") None (Some StreamUp)))
    (Some (mkTls true (Some "example.com") None [] (Some "chrome") [] (Some (mkReality "pk" "" None)))).

Definition sample_vmess : Node :=
  sample "de-2" VMess (CVMess (mkVMess (Some 0%N) (Some "auto") None)) (Domain "relay.example") (AuthUuid "u-2")
    (Some (mkTransport Ws (Some "/ws") (Some "cdn.example") None)) None.

Definition sample_wireguard : Node :=
  sample "wg" WireGuard
    (CWireGuard (mkWireGuard "key" ["10.0.0.2/32"]
       [mkWireGuardPeer "peer" None ["0.0.0.0/0"; "::/0"] (Some (1, 2, 3)%N) (Some 25000000000%Z)]
       (Some 1408%N) None [])) (Ipv4 (192, 0, 2, 1)%N) AuthNone None None.

Lemma sample_plain name k c h a tr t : plain (sample name k c h a tr t).
Proof. done. Qed.

Lemma sample_vless_canonical : xray_canonical sample_vless.
Proof.
  split; [apply sample_plain| |done|by cbn; split_and!].
  split; [|done]. split; cbn; (split; [done|repeat constructor]).
Qed.

Lemma sample_vmess_canonical : xray_canonical sample_vmess.
Proof.
  split; [apply sample_plain| |done|].
  - split; [|done]. split; cbn; by split_and!.
  - cbn. split_and!; try done. by exists 0%N.
Qed.

Lemma sample_wireguard_canonical : xray_canonical sample_wireguard.
Proof.
  split; [apply sample_plain|by split|done|]. cbn. split_and!; try done.
  - by intros m [= <-].
  - repeat constructor; try done. exists 25%Z. done.
Qed.

#[local] Existing Instance UrlInstance.url_lib.

Definition sample_draw : Draw := λ k, (N.of_nat k, 0%Z).

Lemma xray_roundtrip_witness :
  ∃ doc, xray_doc [sample_vless; sample_vmess; sample_wireguard] = Ok doc ∧
    parse_xray_v2ray_value sample_draw doc "xray-json"
    = Ok (imap (λ k n, restamped (sample_draw k) n) [sample_vless; sample_vmess; sample_wireguard]).
Proof.
  apply (xray_roundtrip sample_draw).
  - rewrite !Forall_cons.
    exact (conj sample_vless_canonical (conj sample_vmess_canonical (conj sample_wireguard_canonical (Forall_nil_2 _)))).
  - unfold MAX_ENTRIES. cbn [length]. lia.
Defined.

Definition sample_doc : Json :=
  object [("outbounds", JArray [JNull; object [("protocol", JString "freedom")];
    object [("protocol", JString "trojan"); ("settings", object [("servers",
      JArray [object [("address", JString "a.example"); ("port", number 443); ("password", JString "p")]])])]])].

Lemma xray_outbounds_kept_witness :
  ∃ nodes, parse_xray_v2ray_value sample_draw sample_doc "xray-json" = Ok nodes ∧
    Forall2 (kept_entry "xray-json") [JNull; object [("protocol", JString "freedom")];
      object [("protocol", JString "trojan"); ("settings", object [("servers",
        JArray [object [("address", JString "a.example"); ("port", number 443); ("password", JString "p")]])])]] nodes.
Proof.
  apply (xray_outbounds_kept sample_draw sample_doc "xray-json").
  - reflexivity.
  - unfold MAX_ENTRIES. cbn [length]. lia.
Defined.

Definition sample_outbound : Json :=
  match emit_outbound sample_vless with Ok e => e | Err _ => JNull end.

Lemma xray_tls_kept_witness :
  ∃ s, get sample_outbound "streamSettings" = Some s ∧ get_str s "security" = Some "reality".
Proof.
  exact (xray_tls_kept sample_vless
    (mkTls true (Some "example.com") None [] (Some "chrome") [] (Some (mkReality "pk" "" None)))
    sample_outbound eq_refl (or_intror (or_intror eq_refl)) eq_refl (or_introl eq_refl)).
Defined.

Lemma vmess_bare_tls_lost_witness :
  ∃ e, emit_outbound (with_tls (Some default_tls_enabled) sample_vmess) = Ok e ∧
    (s ← get e "streamSettings"; get_str s "security") = Some "tls" ∧
    parse_outbound (9%N, 0%Z) e "xray-json" = restamped (9%N, 0%Z) sample_vmess.
Proof. exact (vmess_bare_tls_lost (9%N, 0%Z) sample_vmess "xray-json" sample_vmess_canonical eq_refl eq_refl). Defined.

End XrayTheorems.
