(* ===== verification/SingboxParse.v ===== *)
(** * The sing-box JSON parser
    ([crates/deve-sub-protocol/src/container/singbox.rs], [singbox_endpoint.rs],
    [singbox_snell.rs])

    Outbounds, then endpoints.  A [shadowtls] outbound that another reaches by
    [detour] is merged into the node of that other outbound. *)

From Stdlib Require Import Ascii.
From stdpp Require Import pretty.
From S2P Require Import Prelude Kernel Node Text Ip UrlText Float64 UriParse SourceParse Containers.
Import Text Ip UrlText UriParse SourceParse Containers.

Module SingboxParse.

#[export] Instance Host_eq_dec : EqDecision Host.
Proof. solve_decision. Defined.
#[export] Instance Endpoint_eq_dec : EqDecision Endpoint.
Proof. solve_decision. Defined.

Definition singbox_json : string := "singbox-json".

(** ** Extractors *)

Section extractors.
Context `{L : UrlLib}.

Definition build_base (entry : Json) : Result ParseError (string * Endpoint) :=
  let name := default "" (get_str entry "tag") in
  let? server := ok_or (get_str entry "server") (PMissingField "server") in
  let? port := get_port entry "server_port" in
  let? port := ok_or port (PMissingField "server_port") in
  let? host := parse_host server in
  Ok (name, mkEndpoint host port).

Definition extract_reality (tls : Json) : option RealityConfig :=
  r ← get tls "reality";
  enabled ← get_bool r "enabled";
  if (enabled : bool)
  then Some (mkReality (default "" (get_str r "public_key")) (default "" (get_str r "short_id")) None)
  else None.

Definition extract_tls (entry : Json) : option TlsConfig :=
  tls ← get entry "tls";
  if default false (get_bool tls "enabled")
  then Some (mkTls true (get_str tls "server_name") (get_bool tls "insecure") (get_str_array tls "alpn")
               (u ← get tls "utls"; get_str u "fingerprint") [] (extract_reality tls))
  else None.

Definition transport_type (name : string) : option TransportKind :=
  if String.eqb name "ws" then Some Ws
  else if String.eqb name "grpc" then Some Grpc
  else if String.eqb name "http" then Some H2
  else if String.eqb name "httpupgrade" then Some HttpUpgrade
  else None.

Definition extract_transport (entry : Json) : option Transport :=
  transport ← get entry "transport";
  name ← get_str transport "type";
  kind ← transport_type name;
  let '(path, host) :=
    match kind with
    | Ws => (get_str transport "path", h ← get transport "headers"; get_str h "Host")
    | Grpc => (get_str transport "service_name", None)
    | H2 =>
        (get_str transport "path",
         h ← get transport "host"; arr ← as_array h; v ← head arr; as_str v)
    | HttpUpgrade => (get_str transport "path", None)
    | _ => (None, None)
    end in
  Some (mkTransport kind path host None).

(** ** Go durations *)

Definition is_alphabetic (c : ascii) : bool := in_range 65 90 c || in_range 97 122 c.

(** The longest prefix of letters, and the rest. *)
Fixpoint span_alphabetic (s : string) : string * string :=
  match s with
  | String c s' =>
      if is_alphabetic c then let '(u, r) := span_alphabetic s' in (String c u, r) else ("", s)
  | EmptyString => ("", "")
  end.

(** The cast of a non-negative [f64] to [i64]: truncating, saturating. *)
Definition as_i64_ms (a : F64.F64) : Z := Z.of_N (N.min (F64.num a / F64.den a) i64_max).

Definition unit_ms (unit : string) (value : F64.F64) : option Z :=
  if String.eqb unit "h" then Some (as_i64_ms (F64.mul value (F64.of_u64 3600000)))
  else if String.eqb unit "m" then Some (as_i64_ms (F64.mul value (F64.of_u64 60000)))
  else if String.eqb unit "s" then Some (as_i64_ms (F64.mul value (F64.of_u64 1000)))
  else if String.eqb unit "ms" then Some (as_i64_ms value)
  else None.

(** Every turn consumes a character, so the length of the text is enough fuel. *)
Fixpoint go_duration_loop (fuel : nat) (s num : string) (total_ms : Z) (parsed_any : bool) : option Z :=
  match s with
  | EmptyString => if negb (is_empty num) || negb parsed_any then None else Some total_ms
  | String ch rest =>
      match fuel with
      | O => None
      | S fuel =>
          if in_range 48 57 ch || Ascii.eqb ch "."
          then go_duration_loop fuel rest (num +:+ String ch "") total_ms parsed_any
          else
            value ← F64.f64_from_str num;
            let '(unit, rest) := span_alphabetic s in
            if is_empty unit then None
            else
              ms ← unit_ms unit value;
              if Z.ltb (Z.of_N i64_max) (total_ms + ms) then None
              else go_duration_loop fuel rest "" (total_ms + ms) true
      end
  end.

(** [parse_go_duration], in nanoseconds *)
Definition parse_go_duration (s : string) : option Z :=
  let s := trim s in
  if is_empty s then None
  else (λ ms, (ms * 1000000)%Z) <$> go_duration_loop (String.length s) s "" 0 false.

Definition get_duration (entry : Json) (key : string) : option Z :=
  s ← get_str entry key; parse_go_duration s.

End extractors.

(** ** Mappers *)

Section mappers.
Context `{L : UrlLib}.
Variable fresh : NodeId * Z.

Definition or_default_tls (t : option TlsConfig) : option TlsConfig :=
  match t with Some t => Some t | None => Some default_tls_enabled end.

Definition parse_vless (entry : Json) : Result ParseError Node :=
  let? (name, e) := build_base entry in
  let? uuid := ok_or (get_str entry "uuid") (PMissingField "uuid") in
  Ok (container_node fresh name Vless
        (CVlessReality (mkVlessReality (get_str entry "encryption") (get_str entry "flow")
           (get_str entry "packet_encoding")))
        e (AuthUuid uuid) (extract_tls entry) (extract_transport entry) None None ∅).

Definition parse_trojan (entry : Json) : Result ParseError Node :=
  let? (name, e) := build_base entry in
  let? password := ok_or (get_str entry "password") (PMissingField "password") in
  Ok (container_node fresh name Trojan (CTrojan (mkTrojan None)) e (AuthPassword password)
        (or_default_tls (extract_tls entry)) (extract_transport entry) None None ∅).

Definition parse_shadowsocks (entry : Json) : Result ParseError Node :=
  let? (name, e) := build_base entry in
  let? password := ok_or (get_str entry "password") (PMissingField "password") in
  let? method := ok_or (get_str entry "method") (PMissingField "method") in
  Ok (container_node fresh name Shadowsocks
        (CShadowsocks (mkShadowsocks method (get_str entry "plugin") (get_str entry "plugin_opts")))
        e (AuthPassword password) None None None None ∅).

Definition parse_vmess (entry : Json) : Result ParseError Node :=
  let? (name, e) := build_base entry in
  let? uuid := ok_or (get_str entry "uuid") (PMissingField "uuid") in
  Ok (container_node fresh name VMess
        (CVMess (mkVMess (get_u32 entry "alter_id") (get_str entry "security") (get_str entry "packet_encoding")))
        e (AuthUuid uuid) (extract_tls entry) (extract_transport entry) None None ∅).

(** [mbps * 1_000_000] at 64 bits *)
Definition mbps_bps (mbps : N) : N := ((mbps * 1000000) mod (u64_max + 1))%N.

Definition parse_hysteria2 (entry : Json) : Result ParseError Node :=
  let? (name, e) := build_base entry in
  let? password := ok_or (get_str entry "password") (PMissingField "password") in
  let obfuscation :=
    o ← get entry "obfs"; kind ← get_str o "type"; Some (mkObfuscation kind (get_str o "password")) in
  let up_bps := mbps_bps <$> (v ← get entry "up_mbps"; as_u64 v) in
  let down_bps := mbps_bps <$> (v ← get entry "down_mbps"; as_u64 v) in
  let congestion :=
    match up_bps, down_bps with
    | None, None => None
    | _, _ => Some (mkCongestion Bbr up_bps down_bps)
    end in
  Ok (container_node fresh name Hysteria2
        (CHysteria2 (mkHysteria2 (get_str entry "server_ports") (get_duration entry "hop_interval")
           (get_bool entry "fast_open") (get_bool entry "lazy")))
        e (AuthPassword password) (or_default_tls (extract_tls entry)) None obfuscation congestion ∅).

Definition controller_of (c : string) : CongestionController :=
  if String.eqb c "bbr" then Bbr
  else if String.eqb c "cubic" then Cubic
  else if String.eqb c "new_reno" then NewReno
  else OtherController c.

Definition relay_mode_of (m : string) : option UdpRelayMode :=
  if String.eqb m "native" then Some UrmNative
  else if String.eqb m "quic" then Some UrmQuic
  else None.

Definition parse_tuic (entry : Json) : Result ParseError Node :=
  let? (name, e) := build_base entry in
  let? uuid := ok_or (get_str entry "uuid") (PMissingField "uuid") in
  let? password := ok_or (get_str entry "password") (PMissingField "password") in
  let congestion := (λ c, mkCongestion (controller_of c) None None) <$> get_str entry "congestion_control" in
  let udp_relay_mode := m ← get_str entry "udp_relay_mode"; relay_mode_of m in
  Ok (container_node fresh name TuicV5
        (CTuicV5 (mkTuicV5 udp_relay_mode (get_bool entry "zero_rtt_handshake") (get_duration entry "heartbeat") None))
        e (AuthUuidPassword uuid password) (or_default_tls (extract_tls entry)) None None congestion ∅).

(** [u32::try_from(n).unwrap_or(0)] of an [i64] *)
Definition u32_of_i64 (n : Z) : N := if Z.leb 0 n && Z.leb n (Z.of_N u32_max) then Z.to_N n else 0%N.

Definition parse_anytls (entry : Json) : Result ParseError Node :=
  let? (name, e) := build_base entry in
  let? password := ok_or (get_str entry "password") (PMissingField "password") in
  let min_idle_session := u32_of_i64 <$> (v ← get entry "min_idle_session"; as_i64 v) in
  Ok (container_node fresh name AnyTls
        (CAnyTls (mkAnyTls (get_duration entry "idle_session_check_interval")
           (get_duration entry "idle_session_timeout") min_idle_session (get_str entry "client_metadata")))
        e (AuthPassword password) (or_default_tls (extract_tls entry)) None None None ∅).

(** *** Snell ([singbox_snell.rs]) *)

Definition snell_invalid (field : string) : ParseError := PInvalidField field "unsupported or malformed Snell option".

Definition only_keys (allowed : list string) (m : Members) : bool :=
  forallb (λ kv, existsb (String.eqb kv.1) allowed) m.

Definition is_some_and {A} (p : A → bool) (o : option A) : bool := match o with Some a => p a | None => false end.
Definition is_string (v : Json) : bool := match v with JString _ => true | _ => false end.
Definition is_boolean (v : Json) : bool := match v with JBool _ => true | _ => false end.
Definition is_str (s : string) (v : Json) : bool := match v with JString t => String.eqb s t | _ => false end.

(** The first of the keys whose value is not a string. *)
Fixpoint strings_only (entry : Json) (keys : list string) : Result ParseError unit :=
  match keys with
  | [] => Ok ()
  | k :: keys =>
      if is_some_and (negb ∘ is_string) (get entry k) then Err (snell_invalid k) else strings_only entry keys
  end.

(** [Some(v) != entry.get("obfs_host")], where [obfs_host] is a string or absent *)
Definition differs_from (obfs_host : option Json) (v : Json) : bool :=
  match v, obfs_host with
  | JString a, Some (JString b) => negb (String.eqb a b)
  | _, _ => true
  end.

Definition snell_tls_ok (entry : Json) (m : Members) : bool :=
  is_some_and (is_str "tls") (get entry "obfs_mode")
  && only_keys ["enabled"; "server_name"] m
  && negb (is_some_and (λ v, negb (bool_decide (as_bool v = Some true))) (map_get m "enabled"))
  && negb (is_some_and (differs_from (get entry "obfs_host")) (map_get m "server_name")).

Definition snell_validate (entry : Json) : Result ParseError unit :=
  let? fields := ok_or (as_object entry) (snell_invalid "snell") in
  let? _ := (if only_keys ["type"; "tag"; "server"; "server_port"; "psk"; "version"; "reuse"; "obfs_mode";
      "obfs_host"; "userkey"; "mode"; "tls"] fields then Ok () else Err (snell_invalid "snell options")) in
  let? _ := strings_only entry ["obfs_mode"; "obfs_host"; "userkey"; "mode"] in
  let? _ := (if is_some_and (negb ∘ is_boolean) (get entry "reuse") then Err (snell_invalid "reuse") else Ok ()) in
  let v6 := bool_decide ((v ← get entry "version"; as_u64 v) = Some 6%N) in
  let has k := is_some_and (λ _, true) (get entry k) in
  let? _ := (if (v6 && (has "obfs_mode" || has "obfs_host")) || (negb v6 && has "mode")
      then Err (snell_invalid "version-specific settings") else Ok ()) in
  let? _ := (if has "obfs_host"
        && negb (is_some_and (λ v, is_str "http" v || is_str "tls" v) (get entry "obfs_mode"))
      then Err (snell_invalid "obfs_host without camouflage") else Ok ()) in
  match get entry "tls" with
  | None => Ok ()
  | Some tls =>
      let? m := ok_or (as_object tls) (snell_invalid "tls") in
      if snell_tls_ok entry m then Ok () else Err (snell_invalid "TLS beyond camouflage")
  end.

(** Camouflage of version 4, and the mode of version 6. *)
Definition snell_settings (entry : Json) (version : SnellVersion) :
    Result ParseError (option SnellObfs * option SnellV6Mode) :=
  match version with
  | SnellV4 =>
      let obfs_mode := default "none" (get_str entry "obfs_mode") in
      if String.eqb obfs_mode "none" then Ok (None, None)
      else if String.eqb obfs_mode "http"
      then Ok (Some (mkSnellObfs ObfsHttp (get_str entry "obfs_host") None None []), None)
      else if String.eqb obfs_mode "tls"
      then Ok (Some (mkSnellObfs ObfsTls (get_str entry "obfs_host") None None []), None)
      else Err (PInvalidField "obfs_mode" obfs_mode)
  | SnellV6 =>
      match get entry "mode" with
      | None => Ok (None, Some V6Default)
      | Some v =>
          if is_str "default" v then Ok (None, Some V6Default)
          else if is_str "unshaped" v then Ok (None, Some V6Unshaped)
          else if is_str "unsafe-raw" v then Ok (None, Some V6UnsafeRaw)
          else Err (PInvalidField "mode" (json_to_string v))
      end
  | other =>
      Err (PInvalidField "version" ("sing-box snell outbound does not support v" +:+ pretty (snell_as_u32 other)))
  end.

Definition snell_tls (entry : Json) (obfs : option SnellObfs) : option TlsConfig :=
  match obfs with
  | Some (mkSnellObfs ObfsTls host _ _ _) =>
      let t := default default_tls_enabled (extract_tls entry) in
      Some (mkTls true (match server_name t with None => host | some => some end) (skip_cert_verify t)
              (alpn t) (client_fingerprint t) (certificate_pins t) (reality t))
  | _ => extract_tls entry
  end.

Definition parse_snell (entry : Json) : Result ParseError Node :=
  let? _ := snell_validate entry in
  let? (name, e) := build_base entry in
  let? psk := ok_or (get_str entry "psk") (PMissingField "psk") in
  let? version_n := ok_or (v ← get entry "version"; as_u64 v) (PMissingField "version") in
  let? version := ok_or (snell_from_u32 (u32_or_zero version_n)) (PInvalidField "version" (pretty version_n)) in
  let? (obfs, v6_mode) := snell_settings entry version in
  let extras : gmap string Json :=
    match get_str entry "userkey" with Some key => {[ "snell_userkey" := JString key ]} | None => ∅ end in
  Ok (container_node fresh name Snell (CSnell (mkSnell version (get_bool entry "reuse") obfs v6_mode)) e
        (AuthPassword psk) (snell_tls entry obfs) None None None extras).

(** *** WireGuard ([singbox_endpoint.rs]) *)

Definition invalid (field : string) : ParseError :=
  PInvalidField field "invalid or not representable by the canonical WireGuard model".

Definition strings_of (value : option Json) (field : string) : Result ParseError (list string) :=
  match value with
  | None => Ok []
  | Some (JString s) => Ok [s]
  | Some (JArray a) => collect_ok (λ v, ok_or (as_str v) (invalid field)) a
  | Some _ => Err (invalid field)
  end.

(** An address and a prefix length within the address's width. *)
Definition prefix_ok (value : string) : bool :=
  match split_once "/" value with
  | Some (ip, bits) =>
      match parse_unsigned 255 bits with
      | Some bits =>
          match ipv4_from_str ip with
          | Some _ => N.leb bits 32
          | None => match ipv6_from_str ip with Some _ => N.leb bits 128 | None => false end
          end
      | None => false
      end
  | None => false
  end.

Definition prefixes (value : option Json) (field : string) : Result ParseError (list string) :=
  let? values := strings_of value field in
  if forallb prefix_ok values then Ok values else Err (invalid field).

Definition key (value : Json) (field : string) : Result ParseError string :=
  let? key := ok_or (get_str value field) (invalid field) in
  match base64_decode STANDARD key with
  | Some bytes => if Nat.eqb (String.length bytes) 32 then Ok key else Err (invalid field)
  | None => Err (invalid field)
  end.

Definition uint (value : option Json) (field : string) (max : N) : Result ParseError (option N) :=
  traverse (λ v, ok_or (n ← as_u64 v; if N.leb n max then Some n else None) (invalid field)) value.

Definition parse_reserved (v : Json) : Result ParseError (N * N * N) :=
  let byte v := ok_or (n ← as_u64 v; if N.leb n 255 then Some n else None) (invalid "reserved") in
  match v with
  | JArray [a; b; c] => let? a := byte a in let? b := byte b in let? c := byte c in Ok (a, b, c)
  | _ => Err (invalid "reserved")
  end.

Definition peer_keys : list string :=
  ["address"; "port"; "public_key"; "pre_shared_key"; "allowed_ips"; "persistent_keepalive_interval"; "reserved"].

(** One peer, with the endpoint the peers before it share. *)
Definition parse_peer (shared : option Endpoint) (peer : Json) : Result ParseError (Endpoint * WireGuardPeer) :=
  let? m := ok_or (as_object peer) (invalid "peer") in
  let? _ := (if only_keys peer_keys m then Ok () else Err (invalid "peer options")) in
  let? address := ok_or (get_str peer "address") (PMissingField "peer.address") in
  let? host := parse_host address in
  let? port := uint (get peer "port") "peer.port" u16_max in
  let? port := ok_or (p ← port; if N.eqb p 0 then None else Some p) (invalid "peer.port") in
  let peer_endpoint := mkEndpoint host port in
  let? _ := (if is_some_and (λ e, bool_decide (e ≠ peer_endpoint)) shared
             then Err (invalid "distinct peer endpoints") else Ok ()) in
  let? reserved := traverse parse_reserved (get peer "reserved") in
  let? keepalive := uint (get peer "persistent_keepalive_interval") "persistent_keepalive_interval" u16_max in
  let? _ := (if is_some_and (negb ∘ is_string) (get peer "pre_shared_key")
             then Err (invalid "pre_shared_key") else Ok ()) in
  let? public_key := key peer "public_key" in
  let? psk := traverse (λ _, key peer "pre_shared_key") (get peer "pre_shared_key") in
  let? allowed_ips := prefixes (get peer "allowed_ips") "allowed_ips" in
  Ok (peer_endpoint,
      mkWireGuardPeer public_key psk allowed_ips reserved ((λ s, (Z.of_N s * 1000000000)%Z) <$> keepalive)).

Fixpoint parse_peers (shared : option Endpoint) (peers : list Json) :
    Result ParseError (option Endpoint * list WireGuardPeer) :=
  match peers with
  | [] => Ok (shared, [])
  | p :: rest =>
      let? (e, peer) := parse_peer shared p in
      let? (shared, more) := parse_peers (Some e) rest in
      Ok (shared, peer :: more)
  end.

Definition endpoint_keys : list string :=
  ["type"; "tag"; "system"; "name"; "listen_port"; "mtu"; "address"; "private_key"; "peers"; "workers"].

Definition wireguard (entry : Json) : Result ParseError Node :=
  let? object := ok_or (as_object entry) (invalid "endpoint") in
  let? _ := (if only_keys endpoint_keys object then Ok () else Err (invalid "endpoint options")) in
  let? _ :=
    (if is_some_and (λ v, negb (bool_decide (as_bool v = Some false))) (get entry "system")
        || is_some_and (negb ∘ is_str "") (get entry "name")
     then Err (invalid "interface/listener options")
     else
       let? listen_port := uint (get entry "listen_port") "listen_port" u16_max in
       if is_some_and (λ v, negb (N.eqb v 0)) listen_port
       then Err (invalid "interface/listener options") else Ok ()) in
  let? private_key := key entry "private_key" in
  let? address := prefixes (get entry "address") "address" in
  let? _ := (match address with [] => Err (invalid "address") | _ => Ok () end) in
  let? raw_peers :=
    ok_or (a ← get entry "peers"; p ← as_array a; match p with [] => None | _ => Some p end) (invalid "peers") in
  let? (endpoint, peers) := parse_peers None raw_peers in
  let name := default "wireguard" (get_str entry "tag") in
  let? endpoint := ok_or endpoint (invalid "peers") in
  let? mtu := uint (get entry "mtu") "mtu" u32_max in
  let? workers := uint (get entry "workers") "workers" u32_max in
  Ok (container_node fresh name WireGuard (CWireGuard (mkWireGuard private_key address peers mtu workers []))
        endpoint AuthNone None None None None ∅).

(** [singbox_endpoint::parse] *)
Definition parse_endpoint (entry : Json) : Node :=
  let kind := default "" (get_str entry "type") in
  if negb (String.eqb kind "wireguard")
  then unsupported fresh entry singbox_json (Unknown kind) "unsupported endpoint type"
  else match wireguard entry with
       | Ok node => node
       | Err error => unsupported fresh entry singbox_json WireGuard (parse_error_display error)
       end.

(** A renamed member: [peer.remove(old)], or the fallback, inserted as [new],
    which must not be there. *)
Definition alias (err : ParseError) (old new : string) (fallback : option Json) (m : Members) :
    Result ParseError Members :=
  let value := match map_get m old with Some v => Some v | None => fallback end in
  let m := map_remove old m in
  match value with
  | Some v => match map_get m new with Some _ => Err err | None => Ok (map_insert new v m) end
  | None => Ok m
  end.

Definition legacy_peer (server port : option Json) (peer : Json) : Result ParseError Json :=
  let? m := ok_or (as_object peer) (invalid "peer") in
  let? m := alias (invalid "peer endpoint aliases") "server" "address" server m in
  let? m := alias (invalid "peer endpoint aliases") "server_port" "port" port m in
  Ok (JObject m).

Definition parse_legacy (entry : Json) : Result ParseError Node :=
  let? m := ok_or (as_object entry) (invalid "wireguard outbound") in
  let server := map_get m "server" in
  let m := map_remove "server" m in
  let port := map_get m "server_port" in
  let m := map_remove "server_port" m in
  let? m := alias (invalid "address aliases") "local_address" "address" None m in
  let? peers := ok_or (a ← map_get m "peers"; as_array a) (invalid "peers") in
  let? peers := collect_ok (legacy_peer server port) peers in
  wireguard (JObject (map_insert "peers" (JArray peers) m)).

(** *** Outbounds *)

Definition internal_types : list string := ["direct"; "block"; "dns"; "selector"; "urltest"].

Definition map_outbound (outbound_type : string) (entry : Json) : Result ParseError Node :=
  if String.eqb outbound_type "vless" then parse_vless entry
  else if String.eqb outbound_type "vmess" then parse_vmess entry
  else if String.eqb outbound_type "trojan" then parse_trojan entry
  else if String.eqb outbound_type "shadowsocks" then parse_shadowsocks entry
  else if String.eqb outbound_type "hysteria2" then parse_hysteria2 entry
  else if String.eqb outbound_type "tuic" then parse_tuic entry
  else if String.eqb outbound_type "wireguard" then parse_legacy entry
  else if String.eqb outbound_type "anytls" then parse_anytls entry
  else if String.eqb outbound_type "snell" then parse_snell entry
  else Err (UnsupportedProxyType outbound_type).

Definition missing_type (entry : Json) : Node :=
  unsupported fresh entry singbox_json (Unknown "") "missing 'type' field".

Definition parse_outbound (entry : Json) : Node :=
  match get_str entry "type" with
  | None => missing_type entry
  | Some outbound_type =>
      if existsb (String.eqb outbound_type) internal_types
      then unsupported fresh entry singbox_json (Unknown outbound_type) "sing-box internal outbound (not a proxy)"
      else
        match map_outbound outbound_type entry with
        | Ok node => node
        | Err e => unsupported fresh entry singbox_json (Unknown outbound_type) (parse_error_display e)
        end
  end.

(** *** ShadowTLS *)

Definition parse_shadowtls_standalone (entry : Json) : Result ParseError Node :=
  let? (name, e) := build_base entry in
  let? version_n := ok_or (v ← get entry "version"; as_u64 v) (PMissingField "version") in
  let? version := ok_or (shadowtls_from_u32 (u32_or_zero version_n)) (PInvalidField "version" (pretty version_n)) in
  let tls := default default_tls_enabled (extract_tls entry) in
  Ok (container_node fresh name ShadowTls
        (CShadowTls version (get_str entry "password") (Unknown "")
           (CUnsupported (mkUnsupported JNull None "standalone shadowtls: no inner protocol")))
        e AuthNone (Some tls) None None None ∅).

Definition parse_shadowtls_wrapper (inner_entry shadowtls_entry : Json) : Node :=
  match get inner_entry "tls" with
  | Some _ =>
      unsupported fresh inner_entry singbox_json ShadowTls
        "ShadowTLS inner TLS cannot be represented separately from wrapper TLS"
  | None =>
      match parse_shadowtls_standalone shadowtls_entry with
      | Err _ => unsupported fresh shadowtls_entry singbox_json ShadowTls "failed to parse shadowtls outbound"
      | Ok wrapper =>
          let inner := parse_outbound inner_entry in
          match config inner with
          | CUnsupported _ =>
              unsupported fresh inner_entry singbox_json ShadowTls
                ("shadowtls inner protocol '" +:+ protocol_display (protocol inner) +:+ "' is unsupported or internal")
          | _ =>
              match config wrapper with
              | CShadowTls version password _ _ =>
                  container_node fresh (display_name inner) (protocol wrapper)
                    (CShadowTls version password (protocol inner) (config inner)) (endpoint wrapper)
                    (authentication inner) (tls wrapper) (transport inner) (obfuscation wrapper)
                    (congestion wrapper) (extras wrapper)
              | _ =>
                  unsupported fresh shadowtls_entry singbox_json ShadowTls
                    "internal: shadowtls parse did not yield ShadowTls config"
              end
          end
      end
  end.

End mappers.

(** ** Documents *)

Section documents.
Context `{L : UrlLib}.
Variable draw : Draw.

Definition is_shadowtls (entry : Json) : bool := bool_decide (get_str entry "type" = Some "shadowtls").

(** [shadowtls_map]: the last [shadowtls] outbound with each tag. *)
Definition shadowtls_map (outbounds : list Json) : gmap string Json :=
  foldl (λ m entry,
      if is_shadowtls entry
      then match get_str entry "tag" with Some tag => <[tag := entry]> m | None => m end
      else m) ∅ outbounds.

(** [referenced_shadowtls] *)
Definition referenced_shadowtls (outbounds : list Json) : gset string :=
  list_to_set (omap (λ entry,
      detour ← get_str entry "detour";
      if decide (is_Some (shadowtls_map outbounds !! detour)) then Some detour else None) outbounds).

(** What one outbound adds. *)
Definition outbound_nodes (wrappers : gmap string Json) (referenced : gset string) (fresh : NodeId * Z)
    (entry : Json) : list Node :=
  match get_str entry "type" with
  | None => [missing_type fresh entry]
  | Some outbound_type =>
      let shadowtls := String.eqb outbound_type "shadowtls" in
      if shadowtls && is_some_and (λ tag, bool_decide (tag ∈ referenced)) (get_str entry "tag") then []
      else
        match detour ← get_str entry "detour"; wrappers !! detour with
        | Some shadowtls_entry => [parse_shadowtls_wrapper fresh entry shadowtls_entry]
        | None =>
            if shadowtls
            then [match parse_shadowtls_standalone fresh entry with
                  | Ok node => node
                  | Err _ => unsupported fresh entry singbox_json ShadowTls
                               "failed to parse standalone shadowtls outbound"
                  end]
            else [parse_outbound fresh entry]
        end
  end.

Definition list_at (value : Json) (key not_a_list : string) : Result ParseError (list Json) :=
  match get value key with
  | Some (JArray values) => Ok values
  | Some _ => Err (MissingContainerKey not_a_list)
  | None => Ok []
  end.

Definition parse_singbox_value (value : Json) : Result ParseError (list Node) :=
  let? _ :=
    (match get value "outbounds", get value "endpoints" with
     | None, None => Err (MissingContainerKey "outbounds")
     | _, _ => Ok ()
     end) in
  let? outbounds := list_at value "outbounds" "outbounds (not a list)" in
  let? endpoints := list_at value "endpoints" "endpoints (not a list)" in
  let? _ := check_entry_count (length outbounds + length endpoints) in
  let wrappers := shadowtls_map outbounds in
  let referenced := referenced_shadowtls outbounds in
  Ok (concat (imap (λ k e, outbound_nodes wrappers referenced (draw k) e) outbounds)
      ++ imap (λ k e, parse_endpoint (draw (length outbounds + k)) e) endpoints).

Definition parse_singbox_json (text : string) : Result ParseError (list Node) :=
  let? doc := map_err InvalidJson (json_from_str text) in
  parse_singbox_value (to_value doc).

End documents.

End SingboxParse.
