(* ===== verification/SingboxEmit.v ===== *)
(** * The sing-box JSON emitter
    ([crates/deve-sub-emitter/src/container/singbox.rs], [singbox_wireguard.rs])

    Outbounds, endpoints for WireGuard, and an explicit default route.  A
    ShadowTLS node is a pair of outbounds, the wrapper under a tag of its own. *)

From stdpp Require Import pretty.
From S2P Require Import Prelude Kernel Node Text UrlText UriEmit Containers.
Import Text UrlText UriEmit Containers.

Module SingboxEmit.

(** [vec![..]] with conditional pushes, later inserted into the object. *)
Definition EmitResult : Type := Result EmitError (string * Members).

(** ** TLS and transport *)

Definition reality_object (r : RealityConfig) : Json :=
  object ([("enabled", JBool true)] ++ str_field "public_key" (public_key r) ++ str_field "short_id" (short_id r)).

Definition tls_members (tls : TlsConfig) : Members :=
  (if tls_enabled tls || bool_decide (reality tls ≠ None) then [("enabled", JBool true)] else [])
  ++ opt_field "server_name" JString (server_name tls)
  ++ match skip_cert_verify tls with Some true => [("insecure", JBool true)] | _ => [] end
  ++ list_field "alpn" (alpn tls)
  ++ opt_field "utls" (λ fp, object [("enabled", JBool true); ("fingerprint", JString fp)]) (client_fingerprint tls)
  ++ opt_field "reality" reality_object (reality tls).

(** [push_tls_fields] *)
Definition tls_fields (node : Node) : Members :=
  match tls node with
  | Some tls => match tls_members tls with [] => [] | m => [("tls", object m)] end
  | None => []
  end.

Definition singbox_transport (t : Transport) : option Json :=
  let with_type (name : string) (host : string → Members) :=
    Some (object ([("type", JString name)] ++ opt_field "path" JString (tr_path t)
      ++ match tr_host t with Some h => host h | None => [] end)) in
  let headers h := [("headers", object [("Host", JString h)])] in
  match tr_kind t with
  | Ws => with_type "ws" headers
  | H2 => with_type "http" (λ h, [("host", JString h)])
  | Grpc => with_type "grpc" (λ _, [])
  | Quic => with_type "quic" (λ _, [])
  | HttpUpgrade => with_type "httpupgrade" headers
  | Tcp | Kcp | Xtls | Xhttp => None
  end.

(** [push_transport_fields] *)
Definition transport_fields (node : Node) : Members :=
  opt_field "transport" id (t ← transport node; singbox_transport t).

(** ** Go durations *)

(** [u128 as i64] *)
Definition wrap_i64 (n : Z) : Z :=
  let m := Z.modulo n (2 ^ 64) in if Z.leb (2 ^ 63) m then m - 2 ^ 64 else m.

Definition format_go_duration (d : Z) : string :=
  let total_ms := Z.quot d 1000000 in
  if Z.eqb total_ms 0 then "0s"
  else
    let abs_ms := wrap_i64 (Z.abs total_ms) in
    let hours := Z.quot abs_ms 3600000 in
    let mins := Z.quot (Z.rem abs_ms 3600000) 60000 in
    let secs := Z.quot (Z.rem abs_ms 60000) 1000 in
    let ms := Z.rem abs_ms 1000 in
    (if Z.ltb total_ms 0 then "-" else "")
    +:+ (if Z.ltb 0 hours then pretty hours +:+ "h" else "")
    +:+ (if Z.ltb 0 mins then pretty mins +:+ "m" else "")
    +:+ (if Z.ltb 0 secs || (Z.eqb hours 0 && Z.eqb mins 0 && Z.eqb ms 0) then pretty secs +:+ "s" else "")
    +:+ (if Z.ltb 0 ms then pretty ms +:+ "ms" else "").

Definition duration_field (k : string) : option Z → Members := opt_field k (λ d, JString (format_go_duration d)).

(** ** Builders *)

Definition trojan (node : Node) : EmitResult :=
  match authentication node with
  | AuthPassword password => Ok ("trojan", [("password", JString password)] ++ tls_fields node ++ transport_fields node)
  | _ => Err (EMissingField "trojan password")
  end.

Definition shadowsocks (node : Node) : EmitResult :=
  match authentication node with
  | AuthPassword password =>
      match config node with
      | CShadowsocks cfg =>
          Ok ("shadowsocks", [("method", JString (ss_method cfg)); ("password", JString password)]
            ++ opt_field "plugin" JString (ss_plugin cfg) ++ opt_field "plugin_opts" JString (ss_plugin_opts cfg))
      | _ => Err (EMissingField "ss method")
      end
  | _ => Err (EMissingField "ss password")
  end.

Definition singbox_pe (pe : string) : string := if String.eqb pe "packet" then "xudp" else pe.

Definition vmess (node : Node) : EmitResult :=
  match authentication node with
  | AuthUuid uuid =>
      Ok ("vmess", [("uuid", JString uuid)]
        ++ match config node with
           | CVMess cfg =>
               opt_field "alter_id" number (vmess_alter_id cfg)
               ++ opt_field "security" JString (vmess_security cfg)
               ++ opt_field "packet_encoding" (λ pe, JString (singbox_pe pe)) (vmess_packet_encoding cfg)
           | _ => []
           end
        ++ tls_fields node ++ transport_fields node)
  | _ => Err (EMissingField "vmess uuid")
  end.

Definition vless (node : Node) : EmitResult :=
  match authentication node with
  | AuthUuid uuid =>
      Ok ("vless", [("uuid", JString uuid)]
        ++ match config node with
           | CVlessReality cfg =>
               opt_field "flow" JString (vless_flow cfg)
               ++ opt_field "packet_encoding" (λ pe, JString (singbox_pe pe)) (vless_packet_encoding cfg)
           | _ => []
           end
        ++ tls_fields node ++ transport_fields node)
  | _ => Err (EMissingField "vless uuid")
  end.

Definition mbps (bps : N) : Json := number (bps / 1000000).

Definition obfs_object (o : Obfuscation) : Json :=
  object ([("type", JString (obfs_kind o))] ++ opt_field "password" JString (obfs_password o)).

Definition hysteria2 (node : Node) : EmitResult :=
  match authentication node with
  | AuthPassword password =>
      match config node with
      | CHysteria2 cfg =>
          Ok ("hysteria2", [("password", JString password)] ++ tls_fields node
            ++ opt_field "up_mbps" mbps (c ← congestion node; cc_up_bps c)
            ++ opt_field "down_mbps" mbps (c ← congestion node; cc_down_bps c)
            ++ opt_field "server_ports" JString (hy2_ports cfg)
            ++ duration_field "hop_interval" (hy2_hop_interval cfg)
            ++ opt_field "obfs" obfs_object (obfuscation node)
            ++ opt_field "fast_open" JBool (hy2_fast_open cfg) ++ opt_field "lazy" JBool (hy2_lazy cfg))
      | _ => Err (EMissingField "hysteria2 config")
      end
  | _ => Err (EMissingField "hysteria2 password")
  end.

Definition relay_mode_str (m : UdpRelayMode) : string := match m with UrmNative => "native" | UrmQuic => "quic" end.

Definition tuic_v5 (node : Node) : EmitResult :=
  match authentication node with
  | AuthUuidPassword uuid password =>
      match config node with
      | CTuicV5 cfg =>
          Ok ("tuic", [("uuid", JString uuid); ("password", JString password)] ++ tls_fields node
            ++ opt_field "congestion_control" (λ c, JString (controller_name (cc_controller c))) (congestion node)
            ++ opt_field "udp_relay_mode" (λ m, JString (relay_mode_str m)) (tuic_udp_relay_mode cfg)
            ++ opt_field "zero_rtt_handshake" JBool (tuic_zero_rtt_handshake cfg)
            ++ duration_field "heartbeat" (tuic_heartbeat cfg))
      | _ => Err (EMissingField "tuic v5 config")
      end
  | _ => Err (EMissingField "tuic v5 uuid+password")
  end.

Definition anytls (node : Node) : EmitResult :=
  match authentication node with
  | AuthPassword password =>
      match config node with
      | CAnyTls cfg =>
          Ok ("anytls", [("password", JString password)] ++ tls_fields node
            ++ duration_field "idle_session_check_interval" (anytls_idle_session_check_interval cfg)
            ++ duration_field "idle_session_timeout" (anytls_idle_session_timeout cfg)
            ++ opt_field "min_idle_session" number (anytls_min_idle_session cfg)
            ++ opt_field "client_metadata" JString (anytls_client_metadata cfg))
      | _ => Err (EMissingField "anytls config")
      end
  | _ => Err (EMissingField "anytls password")
  end.

(** The Debug name of a camouflage mode. *)
Definition obfs_mode_debug (m : SnellObfsMode) : string :=
  match m with
  | ObfsTls => "Tls" | ObfsHttp => "Http" | ObfsShadowTls => "ShadowTls" | ObfsRestls => "Restls" | ObfsJls => "Jls"
  end.

Definition snell_unrepresentable (node : Node) (cfg : SnellConfig) : bool :=
  negb (tls_is_obfs_alias cfg (tls node))
  || (bool_decide (sn_version cfg = SnellV6) && match sn_obfs cfg with Some _ => true | None => false end)
  || (bool_decide (sn_version cfg ≠ SnellV6) && match sn_v6_mode cfg with Some _ => true | None => false end)
  || match sn_obfs cfg with
     | Some o => bool_decide (so_password o ≠ None) || bool_decide (so_version o ≠ None) || bool_decide (so_alpn o ≠ [])
     | None => false
     end.

Definition v6_mode_str (m : SnellV6Mode) : string :=
  match m with V6Default => "default" | V6Unshaped => "unshaped" | V6UnsafeRaw => "unsafe-raw" end.

Definition snell_obfs_fields (o : SnellObfs) : Result EmitError Members :=
  let? mode :=
    match so_mode o with
    | ObfsHttp => Ok "http"
    | ObfsTls => Ok "tls"
    | m => Err (NoEmitter ("singbox: snell obfs mode " +:+ obfs_mode_debug m +:+ " not supported by sing-box"))
    end in
  Ok ([("obfs_mode", JString mode)] ++ opt_field "obfs_host" JString (so_host o)).

Definition snell (node : Node) : EmitResult :=
  match authentication node with
  | AuthPassword psk =>
      match config node with
      | CSnell cfg =>
          if snell_unrepresentable node cfg
          then Err (NoEmitter "sing-box Snell cannot preserve these TLS/obfuscation settings")
          else
            let fields := [("psk", JString psk); ("version", number (snell_as_u32 (sn_version cfg)))]
              ++ opt_field "reuse" JBool (sn_reuse cfg)
              ++ opt_field "userkey" JString (v ← extras node !! "snell_userkey"; as_str v) in
            let? more :=
              match sn_version cfg with
              | SnellV4 => match sn_obfs cfg with Some o => snell_obfs_fields o | None => Ok [] end
              | SnellV6 => Ok (opt_field "mode" (λ m, JString (v6_mode_str m)) (sn_v6_mode cfg))
              | other =>
                  Err (NoEmitter ("singbox: snell v" +:+ pretty (snell_as_u32 other) +:+ " not supported (only v4/v6)"))
              end in
            Ok ("snell", fields ++ more)
      | _ => Err (EMissingField "snell config")
      end
  | _ => Err (EMissingField "snell psk")
  end.

(** The members of an outbound; [shadowtls_pair] adds one. *)
Definition outbound_members (node : Node) : Result EmitError Members :=
  let? (type_, fields) :=
    match protocol node with
    | Trojan => trojan node
    | Shadowsocks => shadowsocks node
    | VMess => vmess node
    | Vless => vless node
    | Hysteria2 => hysteria2 node
    | TuicV5 => tuic_v5 node
    | AnyTls => anytls node
    | Snell => snell node
    | other => Err (NoEmitter ("singbox: unsupported protocol " +:+ protocol_display other))
    end in
  Ok ([("type", JString type_); ("tag", JString (display_name node));
       ("server", JString (uri_host (host (endpoint node)))); ("server_port", number (port (endpoint node)))] ++ fields).

Definition emit_outbound (node : Node) : Result EmitError Json :=
  let? m := outbound_members node in Ok (object m).

(** ** ShadowTLS *)

Definition synthesize_inner_node (outer : Node) (inner_protocol : ProtocolKind) (inner_config : ProtocolConfig) : Node :=
  mkNode (n_id outer) (display_name outer) inner_protocol inner_config (endpoint outer) (authentication outer)
    (transport outer) None (udp outer) (multiplex outer) (obfuscation outer) (congestion outer) (n_chain outer)
    (source outer) (n_tags outer) (region outer) (extras outer).

Definition shadowtls_pair (node : Node) (shadowtls_tag : string) : Result EmitError (Json * Json) :=
  match config node with
  | CShadowTls version password inner_protocol inner_config =>
      let stls := [("type", JString "shadowtls"); ("tag", JString shadowtls_tag);
          ("server", JString (uri_host (host (endpoint node)))); ("server_port", number (port (endpoint node)));
          ("version", number (shadowtls_as_u32 version))]
        ++ opt_field "password" JString password ++ tls_fields node in
      let? inner := outbound_members (synthesize_inner_node node inner_protocol inner_config) in
      Ok (object stls, object (inner ++ [("detour", JString shadowtls_tag)]))
  | _ => Err (EMissingField "shadowtls config")
  end.

(** ** WireGuard endpoints ([singbox_wireguard.rs]) *)

Definition wireguard_peer (address : string) (port : N) (p : WireGuardPeer) : Result EmitError Json :=
  let? keepalive :=
    match persistent_keepalive p with
    | None => Ok []
    | Some d =>
        let seconds := Z.quot d 1000000000 in
        if negb (Z.leb 0 seconds && Z.leb seconds (Z.of_N u16_max))
        then Err (NoEmitter "WireGuard keepalive must fit uint16 seconds")
        else if negb (Z.eqb (Z.rem d 1000000000) 0)
        then Err (NoEmitter "WireGuard keepalive must be whole seconds")
        else Ok [("persistent_keepalive_interval", number (Z.to_N seconds))]
    end in
  Ok (object ([("address", JString address); ("port", number port); ("public_key", JString (wgp_public_key p));
      ("allowed_ips", strings (wgp_allowed_ips p))]
    ++ opt_field "pre_shared_key" JString (wgp_pre_shared_key p)
    ++ opt_field "reserved" (λ r : N * N * N, JArray [number r.1.1; number r.1.2; number r.2]) (wgp_reserved p)
    ++ keepalive)).

Definition emit_wireguard (node : Node) : Result EmitError Json :=
  match config node with
  | CWireGuard cfg =>
      match wg_dns cfg with
      | [] =>
          let address := match host (endpoint node) with Ipv6 ip => ipv6_display ip | h => uri_host h end in
          let? peers := collect_ok (wireguard_peer address (port (endpoint node))) (wg_peers cfg) in
          Ok (object ([("type", JString "wireguard"); ("tag", JString (display_name node));
              ("private_key", JString (wg_private_key cfg)); ("address", strings (wg_address cfg));
              ("peers", JArray peers)]
            ++ opt_field "mtu" number (wg_mtu cfg) ++ opt_field "workers" number (wg_workers cfg)))
      | _ => Err (NoEmitter "sing-box WireGuard endpoint cannot preserve interface DNS")
      end
  | _ => Err (EMissingField "wireguard config")
  end.

(** ** Documents *)

(** The tag of a wrapper: [base], or the first of [base-2], [base-3], ... that
    is not taken.  One more try than there are tags always finds one. *)
Fixpoint wrapper_tag (fuel : nat) (tags : gset string) (base wrapper : string) (suffix : N) : option string :=
  match fuel with
  | O => None
  | S fuel =>
      if decide (wrapper ∈ tags)
      then wrapper_tag fuel tags base (base +:+ "-" +:+ pretty suffix) (suffix + 1)
      else Some wrapper
  end.

Record Emitted := mkEmitted { outbounds : list Json; endpoints : list Json; used_tags : gset string }.

(** One node: what it adds to the lists and the tags it takes. *)
Definition emit_node (st : Emitted) (node : Node) : Result EmitError Emitted :=
  if decide (protocol node = WireGuard) then
    let? e := emit_wireguard node in
    Ok (mkEmitted (outbounds st) (endpoints st ++ [e]) (used_tags st))
  else if decide (protocol node = ShadowTls) then
    let base := display_name node +:+ "-stls" in
    let wrapper := default base (wrapper_tag (S (size (used_tags st))) (used_tags st) base base 2) in
    let? (stls, inner) := shadowtls_pair node wrapper in
    Ok (mkEmitted (outbounds st ++ [stls; inner]) (endpoints st) ({[ wrapper ]} ∪ used_tags st))
  else
    let? o := emit_outbound node in
    Ok (mkEmitted (outbounds st ++ [o]) (endpoints st) (used_tags st)).

Fixpoint emit_nodes (st : Emitted) (nodes : list Node) : Result EmitError Emitted :=
  match nodes with
  | [] => Ok st
  | node :: nodes => let? st := emit_node st node in emit_nodes st nodes
  end.

Definition singbox_doc (nodes : list Node) : Result EmitError Json :=
  let tags : gset string := list_to_set (display_name <$> nodes) in
  if negb (Nat.eqb (size tags) (length nodes)) then Err (EncodeError "duplicate sing-box node tags")
  else
    let? st := emit_nodes (mkEmitted [] [] tags) nodes in
    Ok (object ([("outbounds", JArray (outbounds st))]
      ++ match endpoints st with [] => [] | es => [("endpoints", JArray es)] end
      ++ match nodes with
         | [] => []
         | first :: _ => [("route", object [("final", JString (display_name first))])]
         end)).

Section text.
(** [serde_json::to_string_pretty] *)
Variable to_string_pretty : Json → string.

Definition emit_singbox (nodes : list Node) : Result EmitError string :=
  let? doc := singbox_doc nodes in Ok (to_string_pretty doc).
End text.

End SingboxEmit.
