(* ===== verification/SingboxReads.v ===== *)
(** * sing-box: reading back what was emitted

    [SingboxReads]: the outbounds of one node.  [SingboxSpecial]: WireGuard
    endpoints and ShadowTLS pairs. *)

(** * sing-box outbounds read back

    What an outbound or endpoint written by [SingboxEmit] gives when
    [SingboxParse] reads it: Go durations, TLS, transport, and each protocol. *)

From Stdlib Require Import Ascii.
From stdpp Require Import pretty.
From S2P Require Import Prelude Kernel Node Text Ip UrlText Float64 UriParse UriEmit UrlInstance UriRoundtrip UriProtocols SourceParse Containers SingboxParse SingboxEmit.
Import Text Ip UrlText UriParse UriEmit UriRoundtrip UriBase64 SourceParse Containers SingboxParse SingboxEmit.

Module SingboxReads.

(** ** Go durations *)

Lemma loop_digits ds rest num total any fuel :
  all_chars (in_range 48 57) ds = true →
  go_duration_loop (String.length ds + fuel) (ds +:+ rest) num total any
  = go_duration_loop fuel rest (num +:+ ds) total any.
Proof.
  revert num. induction ds as [|c ds IH]; intros num Hd.
  - simpl. by rewrite string_app_nil_r.
  - simpl in Hd. apply andb_prop in Hd as [Hc Hd].
    change (String c ds +:+ rest) with (String c (ds +:+ rest)).
    cbn [String.length Nat.add go_duration_loop]. rewrite Hc. cbn [orb]. rewrite IH by done.
    by rewrite string_app_assoc.
Qed.

Lemma f64_digits n : F64.f64_from_str (pretty n) = Some (F64.round53 n 1).
Proof.
  unfold F64.f64_from_str. destruct (read_digits_pretty n) as [j Hj].
  by rewrite (F64.read_decimal_digits _ _ _ _ _ _ Hj eq_refl).
Qed.

(** What may follow a unit: the digits of the next number. *)
Definition digit_first (s : string) : Prop := match s with String c _ => in_range 48 57 c = true | EmptyString => True end.

Lemma span_unit u rest :
  all_chars is_alphabetic u = true → digit_first rest → span_alphabetic (u +:+ rest) = (u, rest).
Proof.
  intros Hu Hr. induction u as [|c u IH].
  - destruct rest as [|c rest]; [done|]. change ("" +:+ String c rest) with (String c rest). cbn [span_alphabetic].
    assert (is_alphabetic c = false) as ->; [|done]. apply negb_true_iff. revert Hr. by_ascii c.
  - simpl in Hu. apply andb_prop in Hu as [Hc Hu]. change (String c u +:+ rest) with (String c (u +:+ rest)). cbn [span_alphabetic]. rewrite Hc.
    by rewrite IH.
Qed.

Lemma as_ms_exact a n : F64.denotes a n → (n ≤ i64_max)%N → as_i64_ms a = Z.of_N n.
Proof.
  intros [Hd Hn] Hmax. unfold as_i64_ms. rewrite Hn. rewrite N.div_mul by lia. lia.
Qed.

(** The units a printed duration uses, in milliseconds. *)
Definition unit_value (u : string) : option N :=
  if String.eqb u "h" then Some 3600000%N else if String.eqb u "m" then Some 60000%N
  else if String.eqb u "s" then Some 1000%N else if String.eqb u "ms" then Some 1%N else None.

Lemma unit_ms_exact u v n :
  unit_value u = Some v → (n * v < 2 ^ 53)%N → unit_ms u (F64.round53 n 1) = Some (Z.of_N (n * v)).
Proof.
  intros Hu Hlt.
  assert (Hv : (0 < v < 2 ^ 53)%N) by (unfold unit_value in Hu; repeat case_match; simplify_eq; lia).
  assert (Hn : F64.denotes (F64.round53 n 1) n) by (apply F64.of_u64_exact; nia).
  unfold unit_value in Hu. unfold unit_ms. unfold i64_max in *.
  repeat (match type of Hu with (if ?b then _ else _) = _ => destruct b end; [simplify_eq; f_equal|]); [..|done].
  1-3: apply as_ms_exact; [|unfold i64_max; lia]; apply F64.mul_exact; [done|by apply F64.of_u64_exact|lia].
  rewrite N.mul_1_r in *. apply as_ms_exact; [done|unfold i64_max; lia].
Qed.

(** One printed component. *)
Lemma loop_component n u v rest total any fuel :
  unit_value u = Some v → digit_first rest → (n * v < 2 ^ 53)%N →
  (total + Z.of_N (n * v) ≤ Z.of_N i64_max)%Z →
  go_duration_loop (String.length (pretty n) + S fuel) (pretty n +:+ u +:+ rest) "" total any
  = go_duration_loop fuel rest "" (total + Z.of_N (n * v)) true.
Proof.
  intros Hu Hr Hlt Hmax. rewrite loop_digits by apply pretty_digits. change ("" +:+ pretty n) with (pretty n).
  assert (Hc : ∃ c u', u = String c u' ∧ all_chars is_alphabetic u = true ∧ in_range 48 57 c || Ascii.eqb c "." = false).
  { unfold unit_value in Hu.
    repeat (match type of Hu with (if String.eqb u ?s then _ else _) = _ => destruct (String.eqb_spec u s) as [->|_] end;
      [by eexists _, _|]). done. }
  destruct Hc as (c & u' & -> & Ha & Hc). change (String c u' +:+ rest) with (String c (u' +:+ rest)).
  cbn [go_duration_loop]. rewrite Hc, f64_digits.
  cbn [mbind option_bind]. change (String c (u' +:+ rest)) with (String c u' +:+ rest). rewrite span_unit by done.
  cbn [is_empty]. rewrite (unit_ms_exact _ v) by done. cbn [mbind option_bind].
  destruct (Z.ltb_spec (Z.of_N i64_max) (total + Z.of_N (n * v))); [lia|done].
Qed.

Lemma span_length s : String.length (span_alphabetic s).1 + String.length (span_alphabetic s).2 = String.length s.
Proof.
  induction s as [|c s IH]; [done|]. cbn [span_alphabetic]. destruct (is_alphabetic c); [|done].
  destruct (span_alphabetic s) as [u r]. simpl in *. lia.
Qed.

(** The loop ends before its fuel does: each turn takes a character. *)
Lemma loop_fuel fuel fuel' s num total any :
  String.length s ≤ fuel → String.length s ≤ fuel' →
  go_duration_loop fuel s num total any = go_duration_loop fuel' s num total any.
Proof.
  revert fuel' s num total any. induction fuel as [|fuel IH]; intros fuel' s num total any H1 H2.
  { destruct s; [by destruct fuel'|simpl in H1; lia]. }
  destruct s as [|c s]; [by destruct fuel'|]. destruct fuel' as [|fuel']; [simpl in H2; lia|].
  cbn [go_duration_loop]. cbn [String.length] in H1, H2.
  destruct (in_range 48 57 c || Ascii.eqb c "."); [apply IH; lia|].
  destruct (F64.f64_from_str num); [|done]. cbn [mbind option_bind].
  pose proof (span_length (String c s)) as Hl. destruct (span_alphabetic (String c s)) as [u r].
  cbn [fst snd String.length] in Hl.
  destruct (is_empty u) eqn:E; [done|]. destruct u; [done|]. cbn [String.length] in Hl.
  destruct (unit_ms _ _); [|done]. cbn [mbind option_bind]. destruct (Z.ltb _ _); [done|]. apply IH; lia.
Qed.

Definition run (s : string) (total : Z) (any : bool) : option Z :=
  go_duration_loop (String.length s) s "" total any.

(** A component as the printer writes it: nothing when it is zero. *)
Definition component (n : N) (u : string) : string := if N.eqb n 0 then "" else pretty n +:+ u.

Lemma pretty_digit_first (n : N) s : digit_first (pretty n +:+ s).
Proof.
  pose proof (pretty_digits n) as Hd. pose proof (pretty_nonempty n). destruct (pretty n) as [|c t]; [done|].
  cbn [all_chars] in Hd. by apply andb_prop in Hd as [? _].
Qed.

Lemma component_digit_first n u rest : digit_first rest → digit_first (component n u +:+ rest).
Proof.
  intros Hr. unfold component. destruct (N.eqb n 0); [done|]. rewrite string_app_assoc. apply pretty_digit_first.
Qed.

Lemma run_component n u v rest total any :
  unit_value u = Some v → digit_first rest → (n * v < 2 ^ 53)%N → (total + Z.of_N (n * v) ≤ Z.of_N i64_max)%Z →
  run (component n u +:+ rest) total any = run rest (total + Z.of_N (n * v)) (any || negb (N.eqb n 0)).
Proof.
  intros Hu Hr Hlt Hmax. unfold component. destruct (N.eqb_spec n 0) as [->|Hn].
  { rewrite N.mul_0_l, Z.add_0_r. by destruct any. }
  unfold run. rewrite string_app_assoc, (loop_fuel _ (String.length (pretty n) + S (String.length rest + String.length u)));
    [|rewrite !string_length_app; lia..].
  rewrite (loop_component n u v) by done. rewrite orb_true_r. apply loop_fuel; lia.
Qed.

(** A duration of whole milliseconds that [f64] counts exactly. *)
Definition duration_ok (d : Z) : Prop := ∃ ms, d = (ms * 1000000)%Z ∧ (0 ≤ ms < 2 ^ 53)%Z.

Lemma component_printable n u : all_chars printable u = true → all_chars printable (component n u) = true.
Proof.
  intros Hu. unfold component. destruct (N.eqb n 0); [done|]. by rewrite all_chars_app, pretty_printable, Hu.
Qed.

Lemma component_text n u : (0 ≤ n)%Z →
  (if Z.ltb 0 n then pretty n +:+ u else "") = component (Z.to_N n) u.
Proof.
  intros Hn. unfold component. rewrite pretty_Z_nonneg by done.
  destruct (Z.ltb_spec 0 n), (N.eqb_spec (Z.to_N n) 0); done || lia.
Qed.

Lemma format_components ms :
  (0 < ms < 2 ^ 53)%Z →
  format_go_duration (ms * 1000000)
  = component (Z.to_N (ms / 3600000)) "h" +:+ component (Z.to_N (ms mod 3600000 / 60000)) "m"
    +:+ component (Z.to_N (ms mod 60000 / 1000)) "s" +:+ component (Z.to_N (ms mod 1000)) "ms".
Proof.
  intros Hms. unfold format_go_duration. rewrite Z.quot_mul by lia.
  destruct (Z.eqb_spec ms 0); [lia|]. assert (wrap_i64 (Z.abs ms) = ms) as ->.
  { unfold wrap_i64. rewrite Z.abs_eq, Z.mod_small by lia. destruct (Z.leb_spec (2 ^ 63) ms); lia. }
  rewrite !Z.rem_mod_nonneg by lia. rewrite !Z.quot_div_nonneg by (lia || apply Z.mod_pos_bound; lia).
  destruct (Z.ltb_spec ms 0); [lia|]. change ("" +:+ ?s) with s.
  pose proof (Z.mod_pos_bound ms 3600000 ltac:(lia)). pose proof (Z.mod_pos_bound ms 60000 ltac:(lia)).
  pose proof (Z.mod_pos_bound ms 1000 ltac:(lia)).
  assert (Hsec : Z.ltb 0 (ms mod 60000 / 1000) || (Z.eqb (ms / 3600000) 0 && Z.eqb (ms mod 3600000 / 60000) 0
      && Z.eqb (ms mod 1000) 0) = Z.ltb 0 (ms mod 60000 / 1000)).
  { destruct (Z.ltb_spec 0 (ms mod 60000 / 1000)); [done|].
    destruct (Z.eqb_spec (ms / 3600000) 0); [|done]. destruct (Z.eqb_spec (ms mod 3600000 / 60000) 0); [|done].
    destruct (Z.eqb_spec (ms mod 1000) 0); [|done]. exfalso.
    Z.div_mod_to_equations; lia. }
  rewrite Hsec. by rewrite !component_text by ((apply Z.div_pos; lia) || lia).
Qed.

Lemma go_duration_reads d : duration_ok d → parse_go_duration (format_go_duration d) = Some d.
Proof.
  intros (ms & -> & Hms). destruct (decide (ms = 0%Z)) as [->|Hne]; [by vm_compute|].
  rewrite format_components by lia.
  set (h := Z.to_N (ms / 3600000)). set (m := Z.to_N (ms mod 3600000 / 60000)).
  set (s := Z.to_N (ms mod 60000 / 1000)). set (r := Z.to_N (ms mod 1000)).
  assert (Hsum : ms = Z.of_N (h * 3600000 + m * 60000 + s * 1000 + r)).
  { unfold h, m, s, r. Z.div_mod_to_equations; lia. }
  assert (Hlt : (h * 3600000 + m * 60000 + s * 1000 + r < 2 ^ 53)%N) by lia.
  clearbody h m s r. set (text := _ +:+ _).
  assert (Hrun : ∀ any, run text 0 any
    = run "" ms ((((any || negb (N.eqb h 0)) || negb (N.eqb m 0)) || negb (N.eqb s 0)) || negb (N.eqb r 0))).
  { intros any. unfold text. rewrite <- (string_app_nil_r (component r "ms")).
    rewrite (run_component h "h" 3600000); [|done|by repeat apply component_digit_first|lia|unfold i64_max; lia].
    rewrite (run_component m "m" 60000); [|done|by repeat apply component_digit_first|lia|unfold i64_max; lia].
    rewrite (run_component s "s" 1000); [|done|by repeat apply component_digit_first|lia|unfold i64_max; lia].
    rewrite (run_component r "ms" 1); [|done|done|lia|unfold i64_max; lia].
    f_equal. lia. }
  assert (Hp : all_chars printable text = true).
  { unfold text. rewrite !all_chars_app, !component_printable by done. done. }
  assert (Hne' : text ≠ "").
  { intros E. specialize (Hrun false). rewrite E in Hrun. cbn in Hrun.
    destruct (N.eqb_spec h 0), (N.eqb_spec m 0), (N.eqb_spec s 0), (N.eqb_spec r 0); subst; simpl in Hrun; done || lia. }
  unfold parse_go_duration. rewrite trim_tidy by by apply printable_tidy.
  destruct (is_empty text) eqn:Ee; [by destruct text|]. fold (run text 0 false). rewrite Hrun.
  assert ((((false || negb (N.eqb h 0)) || negb (N.eqb m 0)) || negb (N.eqb s 0)) || negb (N.eqb r 0) = true) as ->; [|done].
  destruct (N.eqb_spec h 0), (N.eqb_spec m 0), (N.eqb_spec s 0), (N.eqb_spec r 0); subst; simpl; done || lia.
Qed.

(** ** TLS and transport *)

(** TLS settings a [tls] object carries. *)
Definition tls_carried (t : TlsConfig) : Prop :=
  tls_enabled t = true ∧ certificate_pins t = [] ∧ skip_cert_verify t ≠ Some false ∧
  match reality t with Some r => spider_x r = None | None => True end.

Lemma last_of_tls n k :
  match tls n with Some t => tls_carried t | None => True end →
  last_of (tls_fields n) k = if String.eqb "tls" k then (λ t, object (tls_members t)) <$> tls n else None.
Proof.
  intros Ht. unfold tls_fields. destruct (tls n) as [t|]; [|by destruct (String.eqb _ _)].
  destruct (tls_members t) as [|kv m] eqn:E; [|by rewrite <- E]. exfalso. unfold tls_members in E. destruct Ht as [He _].
  by rewrite He in E.
Qed.

Lemma reality_reads l r :
  match r with Some r => spider_x r = None | None => True end →
  last_of l "reality" = reality_object <$> r → extract_reality (object l) = r.
Proof.
  intros Hr Hl. unfold extract_reality. rewrite get_object, Hl. destruct r as [[pk sid spx]|]; [|done].
  simpl in Hr. subst spx. cbn [fmap option_fmap option_map mbind option_bind]. unfold reality_object.
  cbn [public_key short_id]. rewrite (read_bool _ _ (Some true)) by by members. cbn [mbind option_bind].
  do 2 f_equal; apply read_text; by members.
Qed.

Lemma tls_reads l n :
  match tls n with Some t => tls_carried t | None => True end →
  last_of l "tls" = (λ t, object (tls_members t)) <$> tls n → extract_tls (object l) = tls n.
Proof.
  intros Ht Hl. unfold extract_tls. rewrite get_object, Hl. destruct (tls n) as [t|]; [|done].
  destruct t as [en sni skip al fp pins r]. destruct Ht as (He & Hp & Hs & Hr). simpl in He, Hp, Hs, Hr. subst en pins.
  cbn [fmap option_fmap option_map mbind option_bind]. unfold tls_members.
  cbn [tls_enabled server_name skip_cert_verify alpn client_fingerprint reality orb].
  set (skipf := match skip with Some true => _ | _ => _ end).
  assert (Hskip : ∀ k, last_of skipf k = if String.eqb "insecure" k then JBool <$> skip else None).
  { intros k. unfold skipf. destruct skip as [[]|]; [done|done|]. by destruct (String.eqb _ _). }
  rewrite (read_bool _ "enabled" (Some true)) by (members; rewrite Hskip; by members).
  cbn [from_option id]. do 2 f_equal.
  - apply read_str. members. rewrite Hskip. by members.
  - apply read_bool. members. rewrite Hskip. by members.
  - apply read_strings. members. rewrite Hskip. by members.
  - members. rewrite Hskip. members. destruct fp as [f|]; [|done].
    by apply (read_str _ _ (Some f)).
  - apply reality_reads; [done|]. members. rewrite Hskip. by members.
Qed.

Definition transport_carried (t : option Transport) : Prop :=
  match t with
  | Some t =>
      tr_xhttp_mode t = None ∧
      match tr_kind t with
      | Ws => True
      | H2 | HttpUpgrade => tr_host t = None
      | Grpc => tr_path t = None ∧ tr_host t = None
      | _ => False
      end
  | None => True
  end.

Lemma transport_reads l n :
  transport_carried (transport n) →
  last_of l "transport" = (t ← transport n; singbox_transport t) → extract_transport (object l) = transport n.
Proof.
  intros Ht Hl. unfold extract_transport. rewrite get_object, Hl. destruct (transport n) as [t|]; [|done].
  destruct t as [kind path host mode]. destruct Ht as [Hm Hk]. simpl in Hm, Hk. subst mode.
  unfold singbox_transport. cbn [tr_kind tr_path tr_host mbind option_bind].
  destruct kind; try done; cbn [mbind option_bind].
  1: destruct host as [h|]; rewrite (read_str _ "type" (Some "ws")) by (by members);
    cbn [mbind option_bind transport_type String.eqb Ascii.eqb Bool.eqb];
    (do 2 f_equal; [apply read_str; by members|members; first [done|by apply (read_str _ _ (Some h))]]).
  - subst host. rewrite (read_str _ "type" (Some "http")) by (by members).
    cbn [mbind option_bind transport_type String.eqb Ascii.eqb Bool.eqb].
    do 2 f_equal; [apply read_str; by members|members]. by destruct path.
  - destruct Hk as [-> ->]. done.
  - subst host. rewrite (read_str _ "type" (Some "httpupgrade")) by (by members).
    cbn [mbind option_bind transport_type String.eqb Ascii.eqb Bool.eqb].
    do 2 f_equal; apply read_str; by members.
Qed.

(** ** Outbounds *)

(** The members of an outbound before those of its protocol, and the [detour]
    of the inner outbound of a ShadowTLS pair. *)
Definition base (type_ : string) (n : Node) : Members :=
  [("type", JString type_); ("tag", JString (display_name n));
   ("server", JString (uri_host (host (endpoint n)))); ("server_port", number (port (endpoint n)))].

Definition reserved_keys : list string := ["type"; "tag"; "server"; "server_port"; "detour"].

(** Members that leave the common ones alone. *)
Definition own (fields : Members) : Prop := Forall (λ kv, kv.1 ∉ reserved_keys) fields.

Lemma own_None fields k : own fields → k ∈ reserved_keys → last_of fields k = None.
Proof.
  intros Hf Hk. induction Hf as [|[k' v] fields Hk' _ IH]; [done|]. cbn [last_of]. rewrite IH.
  by destruct (String.eqb_spec k' k) as [->|].
Qed.

Lemma own_app a b : own a → own b → own (a ++ b).
Proof. intros. by apply Forall_app. Qed.
Lemma own_nil : own [].
Proof. constructor. Qed.
Lemma own_cons k v l : k ∉ reserved_keys → own l → own ((k, v) :: l).
Proof. by constructor. Qed.
Lemma own_opt {A} k (f : A → Json) o : k ∉ reserved_keys → own (opt_field k f o).
Proof. intros H. destruct o; repeat constructor; done. Qed.
Lemma own_tls n : own (tls_fields n).
Proof.
  unfold tls_fields. destruct (tls n) as [t|]; [|constructor]. destruct (tls_members t); repeat constructor.
  by apply (bool_decide_unpack _).
Qed.

#[local] Hint Resolve own_app own_nil own_cons @own_opt own_tls : core.
#[local] Hint Extern 1 (_ ∉ reserved_keys) => by apply (bool_decide_unpack _) : core.

Lemma own_obfs o more : snell_obfs_fields o = Ok more → own more.
Proof.
  unfold snell_obfs_fields. intros H. apply result_bind_Ok in H as (mode & _ & H). apply Ok_inj in H as <-. auto.
Qed.

Lemma outbound_shape n m :
  outbound_members n = Ok m → ∃ type_ fields, m = base type_ n ++ fields ∧ own fields ∧ type_ ≠ "shadowtls".
Proof.
  unfold outbound_members. intros H. apply result_bind_Ok in H as ([type_ fields] & Hf & Hm).
  apply Ok_inj in Hm as <-. exists type_, fields. split; [done|].
  unfold trojan, shadowsocks, vmess, vless, hysteria2, tuic_v5, anytls, snell, duration_field, transport_fields in Hf.
  destruct (protocol n); try discriminate Hf; destruct (authentication n); try discriminate Hf;
    try (destruct (config n); try discriminate Hf);
    try (match type of Hf with (if ?b then _ else _) = _ => destruct b; [discriminate Hf|] end;
         apply result_bind_Ok in Hf as (more & Hmore & Hf));
    apply Ok_inj in Hf as [= <- <-]; (split; [|done]); auto 20.
  assert (own more); [|auto 20].
  destruct (sn_version c); try discriminate Hmore.
  - destruct (sn_obfs c); [by eapply own_obfs|]. apply Ok_inj in Hmore as <-. auto.
  - apply Ok_inj in Hmore as <-. auto.
Qed.

(** The common members read back, whatever the protocol's own are. *)
Section common.
Context `{L : UrlLib}.
Variables (type_ : string) (n : Node) (fields : Members) (detour : option string).
Hypothesis Hown : own fields.

Definition entry : Json := object (base type_ n ++ fields ++ opt_field "detour" JString detour).

Lemma entry_type : get_str entry "type" = Some type_.
Proof. apply (read_str _ _ (Some type_)). members. rewrite own_None by (done || by apply (bool_decide_unpack _)). by members. Qed.
Lemma entry_tag : get_str entry "tag" = Some (display_name n).
Proof. apply (read_str _ _ (Some (display_name n))). members. rewrite own_None by (done || by apply (bool_decide_unpack _)). by members. Qed.
Lemma entry_detour : get_str entry "detour" = detour.
Proof. apply read_str. members. rewrite own_None by (done || by apply (bool_decide_unpack _)). by members. Qed.

Lemma entry_base : endpoint_ok (endpoint n) → build_base entry = Ok (display_name n, endpoint n).
Proof.
  intros [Hh Hp]. unfold build_base. rewrite entry_tag. unfold entry.
  rewrite (read_str _ "server" (Some (uri_host (host (endpoint n))))).
  2:{ members. rewrite own_None by (done || by apply (bool_decide_unpack _)). by members. }
  cbn [ok_or result_bind]. rewrite (read_port _ _ (port (endpoint n))); [|done|].
  2:{ members. rewrite own_None by (done || by apply (bool_decide_unpack _)). by members. }
  cbn [ok_or result_bind]. rewrite parse_host_uri by done. cbn [result_bind from_option id].
  by destruct (endpoint n).
Qed.
End common.

(** ** Protocols *)

(** The TLS a reader gives a protocol that always has it. *)
Definition read_tls (k : ProtocolKind) (t : option TlsConfig) : option TlsConfig :=
  match k with Trojan | Hysteria2 | TuicV5 | AnyTls => or_default_tls t | _ => t end.

Definition tls_ok (n : Node) : Prop := match tls n with Some t => tls_carried t | None => True end.

Definition opt_duration_ok (d : option Z) : Prop := match d with Some d => duration_ok d | None => True end.

Definition bps_ok (b : option N) : Prop := match b with Some b => ∃ m, b = (m * 1000000)%N ∧ (b ≤ u64_max)%N | None => True end.

(** The settings of each protocol an outbound carries. *)
Definition config_carried (n : Node) : Prop :=
  match protocol n, config n, authentication n with
  | Vless, CVlessReality c, AuthUuid _ =>
      vless_encryption c = None ∧ vless_packet_encoding c ≠ Some "packet" ∧ transport_carried (transport n) ∧
      obfuscation n = None ∧ congestion n = None
  | VMess, CVMess c, AuthUuid _ =>
      (∀ aid, vmess_alter_id c = Some aid → (aid ≤ u32_max)%N) ∧ vmess_packet_encoding c ≠ Some "packet" ∧
      transport_carried (transport n) ∧ obfuscation n = None ∧ congestion n = None
  | Trojan, CTrojan c, AuthPassword _ =>
      trojan_packet_encoding c = None ∧ transport_carried (transport n) ∧ obfuscation n = None ∧ congestion n = None
  | Shadowsocks, CShadowsocks c, AuthPassword _ =>
      tls n = None ∧ transport n = None ∧ obfuscation n = None ∧ congestion n = None
  | Hysteria2, CHysteria2 c, AuthPassword _ =>
      opt_duration_ok (hy2_hop_interval c) ∧ transport n = None ∧
      match congestion n with
      | Some g => cc_controller g = Bbr ∧ bps_ok (cc_up_bps g) ∧ bps_ok (cc_down_bps g) ∧
          (cc_up_bps g ≠ None ∨ cc_down_bps g ≠ None)
      | None => True
      end
  | TuicV5, CTuicV5 c, AuthUuidPassword _ _ =>
      opt_duration_ok (tuic_heartbeat c) ∧ tuic_disable_sni c = None ∧ transport n = None ∧ obfuscation n = None ∧
      match congestion n with
      | Some g => controller_of (controller_name (cc_controller g)) = cc_controller g ∧
          cc_up_bps g = None ∧ cc_down_bps g = None
      | None => True
      end
  | AnyTls, CAnyTls c, AuthPassword _ =>
      opt_duration_ok (anytls_idle_session_check_interval c) ∧ opt_duration_ok (anytls_idle_session_timeout c) ∧
      (∀ k, anytls_min_idle_session c = Some k → (k ≤ u32_max)%N) ∧ transport n = None ∧
      obfuscation n = None ∧ congestion n = None
  | _, _, _ => False
  end.

Section protocols.
Context `{L : UrlLib}.

(** What reading the outbound of [n] gives; the TLS of a ShadowTLS inner
    outbound is the reader's own. *)
Definition reread (fresh : NodeId * Z) (n : Node) : Node :=
  container_node fresh (display_name n) (protocol n) (config n) (endpoint n) (authentication n)
    (read_tls (protocol n) (tls n)) (transport n) (obfuscation n) (congestion n) ∅.

Definition outbound_reads (n : Node) : Prop :=
  ∃ type_ fields, outbound_members n = Ok (base type_ n ++ fields) ∧ own fields ∧ type_ ≠ "shadowtls" ∧
    (tls n = None → last_of fields "tls" = None) ∧
    ∀ fresh detour, parse_outbound fresh (entry type_ n fields detour) = reread fresh n.

Lemma parse_outbound_mapped fresh type_ n fields detour node :
  own fields → existsb (String.eqb type_) internal_types = false →
  map_outbound fresh type_ (entry type_ n fields detour) = Ok node →
  parse_outbound fresh (entry type_ n fields detour) = node.
Proof. intros Hf Hi Hm. unfold parse_outbound. by rewrite entry_type, Hi, Hm. Qed.

Lemma packet_encoding_kept (pe : option string) :
  pe ≠ Some "packet" → (λ p, JString (singbox_pe p)) <$> pe = JString <$> pe.
Proof.
  intros H. destruct pe as [p|]; [|done]. simpl. unfold singbox_pe. by destruct (String.eqb_spec p "packet") as [->|].
Qed.

Lemma read_duration l k d :
  opt_duration_ok d → last_of l k = (λ d, JString (format_go_duration d)) <$> d → get_duration (object l) k = d.
Proof.
  intros Hd Hl. unfold get_duration, get_str. rewrite get_object, Hl. destruct d as [d|]; [|done].
  cbn [fmap option_fmap option_map mbind option_bind as_str]. by apply go_duration_reads.
Qed.

(** The members of an entry, with those of TLS and transport resolved. *)
Ltac entry_members Ht :=
  unfold base, transport_fields, duration_field; members; rewrite ?(last_of_tls _ _ Ht); members; rewrite ?option_fmap_id.

Lemma vless_reads n c uuid :
  protocol n = Vless → config n = CVlessReality c → authentication n = AuthUuid uuid →
  endpoint_ok (endpoint n) → config_carried n → tls_ok n → outbound_reads n.
Proof.
  intros Hp Hcfg Ha He Hc Ht. unfold config_carried in Hc. rewrite Hp, Hcfg, Ha in Hc.
  destruct Hc as (Henc & Hpe & Htr & Hob & Hco). destruct c as [enc flow pe]. simpl in Henc, Hpe. subst enc.
  pose (fields := [("uuid", JString uuid)] ++ (opt_field "flow" JString flow
    ++ opt_field "packet_encoding" (λ pe, JString (singbox_pe pe)) pe) ++ tls_fields n ++ transport_fields n).
  assert (Hown : own fields) by (unfold fields, transport_fields; auto 20).
  exists "vless", fields. split_and!; [|done|done| |].
  - unfold outbound_members. rewrite Hp. unfold vless. by rewrite Ha, Hcfg.
  - intros Hn. unfold fields. entry_members Ht. by rewrite Hn.
  - intros fresh detour. apply parse_outbound_mapped; [done|done|].
    unfold map_outbound. cbn [String.eqb Ascii.eqb Bool.eqb]. unfold parse_vless. rewrite entry_base by done.
    cbn [result_bind]. unfold entry, fields.
    rewrite (read_str _ "uuid" (Some uuid)) by (by entry_members Ht). cbn [ok_or result_bind].
    rewrite (read_str _ "encryption" None) by (by entry_members Ht).
    rewrite (read_str _ "flow" flow) by (by entry_members Ht).
    rewrite (read_str _ "packet_encoding" pe) by (entry_members Ht; by rewrite packet_encoding_kept).
    rewrite (tls_reads _ n) by (done || by entry_members Ht).
    rewrite (transport_reads _ n) by (done || by entry_members Ht).
    unfold reread. by rewrite Hp, Hcfg, Ha, Hob, Hco.
Qed.

Lemma vmess_reads n c uuid :
  protocol n = VMess → config n = CVMess c → authentication n = AuthUuid uuid →
  endpoint_ok (endpoint n) → config_carried n → tls_ok n → outbound_reads n.
Proof.
  intros Hp Hcfg Ha He Hc Ht. unfold config_carried in Hc. rewrite Hp, Hcfg, Ha in Hc.
  destruct Hc as (Haid & Hpe & Htr & Hob & Hco). destruct c as [aid sec pe]. simpl in Haid, Hpe.
  pose (fields := [("uuid", JString uuid)] ++ (opt_field "alter_id" number aid ++ opt_field "security" JString sec
    ++ opt_field "packet_encoding" (λ pe, JString (singbox_pe pe)) pe) ++ tls_fields n ++ transport_fields n).
  assert (Hown : own fields) by (unfold fields, transport_fields; auto 20).
  exists "vmess", fields. split_and!; [|done|done| |].
  - unfold outbound_members. rewrite Hp. unfold vmess. by rewrite Ha, Hcfg.
  - intros Hn. unfold fields. entry_members Ht. by rewrite Hn.
  - intros fresh detour. apply parse_outbound_mapped; [done|done|].
    unfold map_outbound. cbn [String.eqb Ascii.eqb Bool.eqb]. unfold parse_vmess. rewrite entry_base by done.
    cbn [result_bind]. unfold entry, fields.
    rewrite (read_str _ "uuid" (Some uuid)) by (by entry_members Ht). cbn [ok_or result_bind].
    rewrite (read_u32 _ "alter_id" aid) by (done || by entry_members Ht).
    rewrite (read_str _ "security" sec) by (by entry_members Ht).
    rewrite (read_str _ "packet_encoding" pe) by (entry_members Ht; by rewrite packet_encoding_kept).
    rewrite (tls_reads _ n) by (done || by entry_members Ht).
    rewrite (transport_reads _ n) by (done || by entry_members Ht).
    unfold reread. by rewrite Hp, Hcfg, Ha, Hob, Hco.
Qed.

Lemma trojan_reads n c pw :
  protocol n = Trojan → config n = CTrojan c → authentication n = AuthPassword pw →
  endpoint_ok (endpoint n) → config_carried n → tls_ok n → outbound_reads n.
Proof.
  intros Hp Hcfg Ha He Hc Ht. unfold config_carried in Hc. rewrite Hp, Hcfg, Ha in Hc.
  destruct Hc as (Hpe & Htr & Hob & Hco). destruct c as [pe]. simpl in Hpe. subst pe.
  pose (fields := [("password", JString pw)] ++ tls_fields n ++ transport_fields n).
  assert (Hown : own fields) by (unfold fields, transport_fields; auto 20).
  exists "trojan", fields. split_and!; [|done|done| |].
  - unfold outbound_members. rewrite Hp. unfold trojan. by rewrite Ha.
  - intros Hn. unfold fields. entry_members Ht. by rewrite Hn.
  - intros fresh detour. apply parse_outbound_mapped; [done|done|].
    unfold map_outbound. cbn [String.eqb Ascii.eqb Bool.eqb]. unfold parse_trojan. rewrite entry_base by done.
    cbn [result_bind]. unfold entry, fields.
    rewrite (read_str _ "password" (Some pw)) by (by entry_members Ht). cbn [ok_or result_bind].
    rewrite (tls_reads _ n) by (done || by entry_members Ht).
    rewrite (transport_reads _ n) by (done || by entry_members Ht).
    unfold reread. by rewrite Hp, Hcfg, Ha, Hob, Hco.
Qed.

Lemma shadowsocks_reads n c pw :
  protocol n = Shadowsocks → config n = CShadowsocks c → authentication n = AuthPassword pw →
  endpoint_ok (endpoint n) → config_carried n → outbound_reads n.
Proof.
  intros Hp Hcfg Ha He Hc. unfold config_carried in Hc. rewrite Hp, Hcfg, Ha in Hc.
  destruct Hc as (Ht & Htr & Hob & Hco). destruct c as [method plugin opts].
  pose (fields := [("method", JString method); ("password", JString pw)] ++ opt_field "plugin" JString plugin
    ++ opt_field "plugin_opts" JString opts).
  assert (Hown : own fields) by (unfold fields; auto 20).
  exists "shadowsocks", fields. split_and!; [|done|done| |].
  - unfold outbound_members. rewrite Hp. unfold shadowsocks. by rewrite Ha, Hcfg.
  - intros _. unfold fields. by members.
  - intros fresh detour. apply parse_outbound_mapped; [done|done|].
    unfold map_outbound. cbn [String.eqb Ascii.eqb Bool.eqb]. unfold parse_shadowsocks. rewrite entry_base by done.
    cbn [result_bind]. unfold entry, fields.
    rewrite (read_str _ "password" (Some pw)) by (by members). cbn [ok_or result_bind].
    rewrite (read_str _ "method" (Some method)) by (by members). cbn [ok_or result_bind].
    rewrite (read_str _ "plugin" plugin) by (by members). rewrite (read_str _ "plugin_opts" opts) by (by members).
    unfold reread. by rewrite Hp, Hcfg, Ha, Hob, Hco, Ht, Htr.
Qed.

(** A rate in whole megabits reads back. *)
Lemma bps_reads (l : Members) k b :
  bps_ok b → last_of l k = mbps <$> b → mbps_bps <$> (v ← get (object l) k; as_u64 v) = b.
Proof.
  intros Hb Hl. rewrite get_object, Hl. destruct b as [b|]; [|done]. destruct Hb as (m & -> & Hm).
  unfold mbps. cbn [fmap option_fmap option_map mbind option_bind]. rewrite N.div_mul by lia.
  rewrite as_u64_number by lia. cbn [fmap option_fmap option_map]. unfold mbps_bps. f_equal. apply N.mod_small. lia.
Qed.

Lemma congestion_reads (g : option CongestionConfig) :
  match g with
  | Some g => cc_controller g = Bbr ∧ (cc_up_bps g ≠ None ∨ cc_down_bps g ≠ None)
  | None => True
  end →
  match (c ← g; cc_up_bps c), (c ← g; cc_down_bps c) with
  | None, None => None
  | _, _ => Some (mkCongestion Bbr (c ← g; cc_up_bps c) (c ← g; cc_down_bps c))
  end = g.
Proof.
  destruct g as [[ctrl up down]|]; [|done]. simpl. intros [-> H]. destruct up, down; naive_solver.
Qed.

Lemma hysteria2_reads n c pw :
  protocol n = Hysteria2 → config n = CHysteria2 c → authentication n = AuthPassword pw →
  endpoint_ok (endpoint n) → config_carried n → tls_ok n → outbound_reads n.
Proof.
  intros Hp Hcfg Ha He Hc Ht. unfold config_carried in Hc. rewrite Hp, Hcfg, Ha in Hc.
  destruct Hc as (Hhop & Htr & Hg). destruct c as [ports hop fo lazy]. simpl in Hhop.
  pose (fields := [("password", JString pw)] ++ tls_fields n
    ++ opt_field "up_mbps" mbps (c ← congestion n; cc_up_bps c)
    ++ opt_field "down_mbps" mbps (c ← congestion n; cc_down_bps c)
    ++ opt_field "server_ports" JString ports ++ duration_field "hop_interval" hop
    ++ opt_field "obfs" obfs_object (obfuscation n)
    ++ opt_field "fast_open" JBool fo ++ opt_field "lazy" JBool lazy).
  assert (Hown : own fields) by (unfold fields, duration_field; auto 20).
  exists "hysteria2", fields. split_and!; [|done|done| |].
  - unfold outbound_members. rewrite Hp. unfold hysteria2. by rewrite Ha, Hcfg.
  - intros Hn. unfold fields. entry_members Ht. by rewrite Hn.
  - intros fresh detour. apply parse_outbound_mapped; [done|done|].
    unfold map_outbound. cbn [String.eqb Ascii.eqb Bool.eqb]. unfold parse_hysteria2. rewrite entry_base by done.
    cbn [result_bind]. unfold entry, fields.
    rewrite (read_str _ "password" (Some pw)) by (by entry_members Ht). cbn [ok_or result_bind].
    rewrite (bps_reads _ "up_mbps" (c ← congestion n; cc_up_bps c)).
    2:{ destruct (congestion n); [apply Hg|done]. } 2:{ by entry_members Ht. }
    rewrite (bps_reads _ "down_mbps" (c ← congestion n; cc_down_bps c)).
    2:{ destruct (congestion n); [apply Hg|done]. } 2:{ by entry_members Ht. }
    rewrite congestion_reads by (destruct (congestion n); naive_solver).
    rewrite (read_str _ "server_ports" ports) by (by entry_members Ht).
    rewrite (read_duration _ "hop_interval" hop) by (done || by entry_members Ht).
    rewrite (read_bool _ "fast_open" fo) by (by entry_members Ht).
    rewrite (read_bool _ "lazy" lazy) by (by entry_members Ht).
    rewrite (tls_reads _ n) by (done || by entry_members Ht).
    rewrite get_object. 
    assert (Hobfs : ∀ o, (o0 ← (obfs_object <$> o); kind ← get_str o0 "type"; Some (mkObfuscation kind (get_str o0 "password"))) = o).
    { intros [[kind opw]|]; [|done]. cbn [fmap option_fmap option_map mbind option_bind]. unfold obfs_object.
      rewrite (read_str _ "type" (Some kind)) by (by members). cbn [mbind option_bind].
      by rewrite (read_str _ "password" opw) by (by members). }
    match goal with |- context [last_of ?l "obfs"] => assert (last_of l "obfs" = obfs_object <$> obfuscation n) as -> end.
    { by entry_members Ht. }
    rewrite Hobfs. unfold reread. by rewrite Hp, Hcfg, Ha, Htr.
Qed.

Lemma tuic_reads n c uuid pw :
  protocol n = TuicV5 → config n = CTuicV5 c → authentication n = AuthUuidPassword uuid pw →
  endpoint_ok (endpoint n) → config_carried n → tls_ok n → outbound_reads n.
Proof.
  intros Hp Hcfg Ha He Hc Ht. unfold config_carried in Hc. rewrite Hp, Hcfg, Ha in Hc.
  destruct c as [mode zrtt hb sni]. simpl in Hc. destruct Hc as (Hhb & -> & Htr & Hob & Hg).
  pose (fields := [("uuid", JString uuid); ("password", JString pw)] ++ tls_fields n
    ++ opt_field "congestion_control" (λ c, JString (controller_name (cc_controller c))) (congestion n)
    ++ opt_field "udp_relay_mode" (λ m, JString (relay_mode_str m)) mode
    ++ opt_field "zero_rtt_handshake" JBool zrtt ++ duration_field "heartbeat" hb).
  assert (Hown : own fields) by (unfold fields, duration_field; auto 20).
  exists "tuic", fields. split_and!; [|done|done| |].
  - unfold outbound_members. rewrite Hp. unfold tuic_v5. by rewrite Ha, Hcfg.
  - intros Hn. unfold fields. entry_members Ht. by rewrite Hn.
  - intros fresh detour. apply parse_outbound_mapped; [done|done|].
    unfold map_outbound. cbn [String.eqb Ascii.eqb Bool.eqb]. unfold parse_tuic. rewrite entry_base by done.
    cbn [result_bind]. unfold entry, fields.
    rewrite (read_str _ "uuid" (Some uuid)) by (by entry_members Ht). cbn [ok_or result_bind].
    rewrite (read_str _ "password" (Some pw)) by (by entry_members Ht). cbn [ok_or result_bind].
    rewrite (read_str _ "congestion_control" ((λ c, controller_name (cc_controller c)) <$> congestion n))
      by (entry_members Ht; by destruct (congestion n)).
    rewrite (read_str _ "udp_relay_mode" (relay_mode_str <$> mode)) by (entry_members Ht; by destruct mode).
    rewrite (read_bool _ "zero_rtt_handshake" zrtt) by (by entry_members Ht).
    rewrite (read_duration _ "heartbeat" hb) by (done || by entry_members Ht).
    rewrite (tls_reads _ n) by (done || by entry_members Ht).
    assert (Hm : (m ← relay_mode_str <$> mode; relay_mode_of m) = mode) by (by destruct mode as [[]|]).
    rewrite Hm. unfold reread. rewrite Hp, Hcfg, Ha, Hob, Htr.
    destruct (congestion n) as [[ctrl up down]|]; [|done]. simpl in Hg. destruct Hg as (Hctrl & -> & ->).
    cbn [fmap option_fmap option_map cc_controller]. by rewrite Hctrl.
Qed.

Lemma min_idle_reads (l : Members) key k :
  (∀ n, k = Some n → (n ≤ u32_max)%N) → last_of l key = number <$> k →
  u32_of_i64 <$> (v ← get (object l) key; as_i64 v) = k.
Proof.
  intros Hk Hl. rewrite get_object, Hl. destruct k as [n|]; [|done]. specialize (Hk n eq_refl).
  cbn [fmap option_fmap option_map mbind option_bind]. unfold number, as_i64.
  assert (strip_prefix "-" (pretty n) = None) as -> by (apply (strip_sign "-"%char); [done|apply pretty_digits]).
  pose proof (as_u64_number n ltac:(unfold u32_max, u64_max in *; lia)) as E. unfold as_u64, number in E. rewrite E.
  cbn [mbind option_bind]. destruct (N.ltb_spec i64_max n); [unfold u32_max, i64_max in *; lia|].
  cbn [fmap option_fmap option_map]. unfold u32_of_i64.
  destruct (Z.leb_spec 0 (Z.of_N n)); [|lia]. destruct (Z.leb_spec (Z.of_N n) (Z.of_N u32_max)); [|lia].
  simpl. f_equal. lia.
Qed.

Lemma anytls_reads n c pw :
  protocol n = AnyTls → config n = CAnyTls c → authentication n = AuthPassword pw →
  endpoint_ok (endpoint n) → config_carried n → tls_ok n → outbound_reads n.
Proof.
  intros Hp Hcfg Ha He Hc Ht. unfold config_carried in Hc. rewrite Hp, Hcfg, Ha in Hc.
  destruct c as [check timeout idle meta]. simpl in Hc. destruct Hc as (Hch & Hto & Hid & Htr & Hob & Hco).
  pose (fields := [("password", JString pw)] ++ tls_fields n
    ++ duration_field "idle_session_check_interval" check ++ duration_field "idle_session_timeout" timeout
    ++ opt_field "min_idle_session" number idle ++ opt_field "client_metadata" JString meta).
  assert (Hown : own fields) by (unfold fields, duration_field; auto 20).
  exists "anytls", fields. split_and!; [|done|done| |].
  - unfold outbound_members. rewrite Hp. unfold anytls. by rewrite Ha, Hcfg.
  - intros Hn. unfold fields. entry_members Ht. by rewrite Hn.
  - intros fresh detour. apply parse_outbound_mapped; [done|done|].
    unfold map_outbound. cbn [String.eqb Ascii.eqb Bool.eqb]. unfold parse_anytls. rewrite entry_base by done.
    cbn [result_bind]. unfold entry, fields.
    rewrite (read_str _ "password" (Some pw)) by (by entry_members Ht). cbn [ok_or result_bind].
    rewrite (min_idle_reads _ "min_idle_session" idle) by (done || by entry_members Ht).
    rewrite (read_duration _ "idle_session_check_interval" check) by (done || by entry_members Ht).
    rewrite (read_duration _ "idle_session_timeout" timeout) by (done || by entry_members Ht).
    rewrite (read_str _ "client_metadata" meta) by (by entry_members Ht).
    rewrite (tls_reads _ n) by (done || by entry_members Ht).
    unfold reread. by rewrite Hp, Hcfg, Ha, Hob, Hco, Htr.
Qed.

Lemma carried_reads n : endpoint_ok (endpoint n) → config_carried n → tls_ok n → outbound_reads n.
Proof.
  intros He Hc Ht. pose proof Hc as Hc'. unfold config_carried in Hc'.
  destruct (protocol n) eqn:Ep; try done; destruct (config n) eqn:Ec; try done;
    destruct (authentication n) eqn:Ea; try done;
    eauto using vless_reads, vmess_reads, trojan_reads, shadowsocks_reads, hysteria2_reads, tuic_reads, anytls_reads.
Qed.

End protocols.

End SingboxReads.

(** * Snell, WireGuard and ShadowTLS in sing-box documents

    The protocols whose entries are validated key by key or span two entries,
    read back from what the emitter writes. *)

From Stdlib Require Import Ascii.
From stdpp Require Import pretty.
From S2P Require Import Prelude Kernel Node Text Ip UrlText Float64 UriParse UriEmit UrlInstance UriRoundtrip UriProtocols SourceParse Containers SingboxParse SingboxEmit.
Import Text Ip UrlText UriParse UriEmit UriRoundtrip UriBase64 SourceParse Containers SingboxParse SingboxEmit SingboxReads.

Module SingboxSpecial.

(** ** Keys of emitted objects *)

Lemma only_keys_insert allowed k v m :
  existsb (String.eqb k) allowed = true → only_keys allowed m = true → only_keys allowed (map_insert k v m) = true.
Proof.
  intros Hk. unfold only_keys. induction m as [|[k' v'] m IH]; simpl; [by rewrite Hk|].
  intros [H1 H2]%andb_prop. destruct (String.compare k k'); simpl; rewrite ?Hk, ?H1, ?H2; auto.
Qed.

Lemma only_keys_object allowed l : only_keys allowed l = true → only_keys allowed (of_members l) = true.
Proof.
  intros Hl. unfold of_members.
  enough (∀ m, only_keys allowed m = true → only_keys allowed (foldl (λ m kv, map_insert kv.1 kv.2 m) m l) = true) by auto.
  revert Hl. induction l as [|[k v] l IH]; intros Hl m Hm; [done|]. cbn [foldl fst snd].
  unfold only_keys in Hl. cbn [forallb fst] in Hl. apply andb_prop in Hl as [Hk Hl].
  apply IH; [done|]. by apply only_keys_insert.
Qed.

Lemma only_keys_app allowed a b : only_keys allowed (a ++ b) = only_keys allowed a && only_keys allowed b.
Proof. apply forallb_app. Qed.
Lemma only_keys_opt {A} allowed k (f : A → Json) o :
  existsb (String.eqb k) allowed = true → only_keys allowed (opt_field k f o) = true.
Proof. intros Hk. destruct o; [|done]. unfold only_keys. simpl. by rewrite Hk. Qed.

Ltac allowed_keys :=
  apply only_keys_object; rewrite ?only_keys_app, ?only_keys_opt by reflexivity; reflexivity.

(** ** Snell *)

Section snell.
Context `{L : UrlLib}.

Definition userkey_extras (userkey : option string) : gmap string Json :=
  match userkey with Some k => {[ "snell_userkey" := JString k ]} | None => ∅ end.

(** The versions and camouflage sing-box knows, and the TLS that mirrors it. *)
Definition snell_carried (n : Node) : Prop :=
  match config n, authentication n with
  | CSnell c, AuthPassword _ =>
      (∃ userkey, extras n = userkey_extras userkey) ∧ transport n = None ∧ obfuscation n = None ∧ congestion n = None ∧
      match sn_version c with
      | SnellV4 =>
          sn_v6_mode c = None ∧
          match sn_obfs c with
          | None => tls n = None
          | Some o =>
              so_password o = None ∧ so_version o = None ∧ so_alpn o = [] ∧
              match so_mode o with
              | ObfsHttp => tls n = None
              | ObfsTls => tls n = Some (mkTls true (so_host o) None [] None [] None)
              | _ => False
              end
          end
      | SnellV6 => sn_obfs c = None ∧ sn_v6_mode c ≠ None ∧ tls n = None
      | _ => False
      end
  | _, _ => False
  end.

(** The members of version 4 camouflage, or of the version 6 mode. *)
Definition more_fields (c : SnellConfig) : Members :=
  match sn_version c, sn_obfs c with
  | SnellV4, Some o =>
      [("obfs_mode", JString (match so_mode o with ObfsTls => "tls" | _ => "http" end))]
      ++ opt_field "obfs_host" JString (so_host o)
  | SnellV6, _ => opt_field "mode" (λ m, JString (v6_mode_str m)) (sn_v6_mode c)
  | _, _ => []
  end.

Definition snell_fields (psk : string) (c : SnellConfig) (userkey : option string) : Members :=
  ([("psk", JString psk); ("version", number (snell_as_u32 (sn_version c)))]
   ++ opt_field "reuse" JBool (sn_reuse c) ++ opt_field "userkey" JString userkey) ++ more_fields c.

Lemma snell_own psk c userkey : own (snell_fields psk c userkey).
Proof.
  unfold snell_fields, more_fields. repeat apply own_app; try (apply own_opt; by apply (bool_decide_unpack _)).
  - repeat first [apply own_cons|apply own_nil]; by apply (bool_decide_unpack _).
  - destruct (sn_version c); try apply own_nil; [destruct (sn_obfs c); [|apply own_nil]|];
      repeat first [apply own_app|apply own_cons|apply own_nil|apply own_opt]; by apply (bool_decide_unpack _).
Qed.

Lemma snell_emitted n c psk userkey :
  protocol n = Snell → config n = CSnell c → authentication n = AuthPassword psk →
  snell_carried n → extras n = userkey_extras userkey →
  outbound_members n = Ok (base "snell" n ++ snell_fields psk c userkey).
Proof.
  intros Hp Hcfg Ha Hc Hex. unfold snell_carried in Hc. rewrite Hcfg, Ha in Hc.
  destruct Hc as (_ & _ & _ & _ & Hc). unfold outbound_members. rewrite Hp. unfold snell. rewrite Ha, Hcfg, Hex.
  assert (Huk : (v ← userkey_extras userkey !! "snell_userkey"; as_str v) = userkey) by (by destruct userkey).
  rewrite Huk. unfold snell_fields, more_fields. destruct c as [ver reuse obfs mode]. cbn [sn_version sn_obfs sn_reuse sn_v6_mode] in *.
  unfold snell_unrepresentable, tls_is_obfs_alias. cbn [sn_version sn_obfs sn_v6_mode].
  destruct ver; try done.
  - destruct Hc as [-> Hc]. destruct obfs as [[om h opw ov oa]|].
    + cbn [so_mode so_host so_password so_version so_alpn] in *. destruct Hc as (-> & -> & -> & Hc).
      destruct om; try done; rewrite Hc; [|done]. cbn. by rewrite !bool_decide_eq_true_2 by done.
    + by rewrite Hc.
  - destruct Hc as (-> & Hm & ->). done.
Qed.

Lemma strings_are o : is_some_and (negb ∘ is_string) (JString <$> o) = false.
Proof. by destruct o. Qed.
Lemma bools_are o : is_some_and (negb ∘ is_boolean) (JBool <$> o) = false.
Proof. by destruct o. Qed.

Lemma more_None c k : k ∉ ["obfs_mode"; "obfs_host"; "mode"] → last_of (more_fields c) k = None.
Proof.
  rewrite !not_elem_of_cons. intros (H1 & H2 & H3 & _). apply not_eq_sym, String.eqb_neq in H1, H2, H3.
  unfold more_fields. destruct (sn_version c); try done; [destruct (sn_obfs c); [|done]|];
    rewrite ?last_of_app, ?last_of_opt; cbn [last_of]; by rewrite ?H1, ?H2, ?H3.
Qed.

(** The validator accepts what the emitter writes. *)
Lemma snell_validated n c psk userkey :
  config n = CSnell c → authentication n = AuthPassword psk → snell_carried n →
  snell_validate (entry "snell" n (snell_fields psk c userkey) None) = Ok ().
Proof.
  intros Hcfg Ha Hc. unfold snell_carried in Hc. rewrite Hcfg, Ha in Hc. destruct Hc as (_ & _ & _ & _ & Hc).
  unfold snell_validate, entry. set (l := _ ++ _).
  assert (Hv : (v ← get (object l) "version"; as_u64 v) = Some (snell_as_u32 (sn_version c))).
  { unfold l, snell_fields, base. members. rewrite more_None by (by apply (bool_decide_unpack _)). members.
    cbn [mbind option_bind]. apply as_u64_number. by destruct (sn_version c). }
  rewrite Hv. unfold object at 1. cbn [as_object ok_or result_bind]. unfold l, snell_fields, more_fields, base.
  destruct c as [ver reuse obfs mode]. cbn [sn_version sn_obfs sn_reuse sn_v6_mode] in *.
  destruct ver; try done; [destruct Hc as [-> Hc]; destruct obfs as [[om h opw ov oa]|]|destruct Hc as (-> & Hm & Ht)].
  - cbn [so_mode so_host so_password so_version so_alpn] in *. destruct Hc as (-> & -> & -> & Hc).
    assert (Hom : om = ObfsTls ∨ om = ObfsHttp) by (destruct om; naive_solver).
    match goal with |- context [only_keys ?a (of_members ?m)] => assert (only_keys a (of_members m) = true) as -> end;
      [allowed_keys|]. cbn [result_bind]. unfold strings_only. members.
    destruct h, userkey, reuse, Hom as [-> | ->]; reflexivity.
  - match goal with |- context [only_keys ?a (of_members ?m)] => assert (only_keys a (of_members m) = true) as -> end;
      [allowed_keys|]. cbn [result_bind]. unfold strings_only. members. destruct userkey, reuse; reflexivity.
  - match goal with |- context [only_keys ?a (of_members ?m)] => assert (only_keys a (of_members m) = true) as -> end;
      [allowed_keys|]. cbn [result_bind]. unfold strings_only. members. destruct userkey, reuse, mode; reflexivity.
Qed.

(** The outbound of a Snell node reads back as the node. *)
Lemma snell_reads n c psk userkey :
  protocol n = Snell → config n = CSnell c → authentication n = AuthPassword psk → endpoint_ok (endpoint n) →
  snell_carried n → extras n = userkey_extras userkey →
  ∀ fresh, parse_outbound fresh (entry "snell" n (snell_fields psk c userkey) None)
    = container_node fresh (display_name n) (protocol n) (config n) (endpoint n) (authentication n) (tls n)
        (transport n) (obfuscation n) (congestion n) (extras n).
Proof.
  intros Hp Hcfg Ha He Hc Hex fresh. apply parse_outbound_mapped; [apply snell_own|done|].
  unfold map_outbound. cbn [String.eqb Ascii.eqb Bool.eqb]. unfold parse_snell. rewrite snell_validated by done.
  cbn [result_bind]. rewrite entry_base by (apply snell_own || done). cbn [result_bind].
  assert (Hmore : ∀ k, k ∉ ["obfs_mode"; "obfs_host"; "mode"] → last_of (more_fields c) k = None) by (apply more_None).
  unfold entry. set (l := _ ++ _).
  assert (Hl : ∀ k, last_of l k = match last_of (more_fields c) k with Some v => Some v | None =>
      last_of (base "snell" n ++ [("psk", JString psk); ("version", number (snell_as_u32 (sn_version c)))]
        ++ opt_field "reuse" JBool (sn_reuse c) ++ opt_field "userkey" JString userkey) k end).
  { intros k. unfold l, snell_fields. rewrite !last_of_app.
    change (last_of (opt_field "detour" JString None) k) with (@None Json). cbv iota. by destruct (last_of (more_fields c) k). }
  rewrite (read_str l "psk" (Some psk)) by (rewrite Hl, Hmore by (by apply (bool_decide_unpack _)); unfold base; by members).
  cbn [ok_or result_bind]. rewrite get_object, Hl, Hmore by (by apply (bool_decide_unpack _)).
  unfold base at 1. members. cbn [mbind option_bind].
  rewrite as_u64_number by (by destruct (sn_version c)). cbn [ok_or result_bind].
  assert (snell_from_u32 (u32_or_zero (snell_as_u32 (sn_version c))) = Some (sn_version c)) as -> by (by destruct (sn_version c)).
  cbn [ok_or result_bind].
  rewrite (read_bool l "reuse" (sn_reuse c)) by (rewrite Hl, Hmore by (by apply (bool_decide_unpack _)); unfold base; by members).
  rewrite (read_str l "userkey" userkey) by (rewrite Hl, Hmore by (by apply (bool_decide_unpack _)); unfold base; by members).
  assert (Htls : extract_tls (object l) = None).
  { unfold extract_tls. rewrite get_object, Hl, Hmore by (by apply (bool_decide_unpack _)). unfold base. by members. }
  unfold snell_carried in Hc. rewrite Hcfg, Ha in Hc. destruct Hc as (_ & Htr & Hob & Hco & Hc).
  fold (userkey_extras userkey). rewrite Hp, Hcfg, Ha, Htr, Hob, Hco, Hex.
  destruct c as [ver reuse obfs mode]. cbn [sn_version sn_obfs sn_reuse sn_v6_mode] in *.
  assert (Hset : snell_settings (object l) ver = Ok (obfs, mode)).
  { unfold snell_settings, get_str. rewrite !get_object, !Hl. unfold more_fields, base.
    destruct ver; try done; [destruct Hc as [-> Hc]; destruct obfs as [[om h opw ov oa]|]|destruct Hc as (-> & Hm & Ht)];
      cbn [sn_version sn_obfs sn_v6_mode]; members.
    - cbn [so_mode so_host so_password so_version so_alpn] in *. destruct Hc as (-> & -> & -> & Hc).
      destruct om; try done; by destruct h.
    - done.
    - by destruct mode as [[]|]. }
  rewrite Hset. cbn [result_bind]. unfold snell_tls. rewrite Htls.
  do 2 f_equal. destruct ver; try done; [destruct Hc as [-> Hc]; destruct obfs as [[om h opw ov oa]|]|]; [|done|].
  - cbn [so_mode so_host so_password so_version so_alpn] in *. destruct Hc as (-> & -> & -> & Hc).
    by destruct om; rewrite ?Hc.
  - by destruct Hc as (-> & _ & ->).
Qed.

End snell.

(** ** WireGuard endpoints *)

Section wireguard.
Context `{L : UrlLib}.

(** A key of 32 bytes in Base64. *)
Definition key_ok (k : string) : Prop := ∃ bytes, base64_decode STANDARD k = Some bytes ∧ String.length bytes = 32.

Definition peer_carried (p : WireGuardPeer) : Prop :=
  key_ok (wgp_public_key p) ∧ (∀ k, wgp_pre_shared_key p = Some k → key_ok k) ∧
  forallb prefix_ok (wgp_allowed_ips p) = true ∧
  (∀ a b c, wgp_reserved p = Some (a, b, c) → (a ≤ 255 ∧ b ≤ 255 ∧ c ≤ 255)%N) ∧
  (∀ d, persistent_keepalive p = Some d → ∃ s, (s ≤ u16_max)%N ∧ d = (Z.of_N s * 1000000000)%Z).

Definition wireguard_carried (n : Node) : Prop :=
  match config n, authentication n with
  | CWireGuard c, AuthNone =>
      wg_dns c = [] ∧ tls n = None ∧ transport n = None ∧ obfuscation n = None ∧ congestion n = None ∧ extras n = ∅ ∧
      port (endpoint n) ≠ 0%N ∧ key_ok (wg_private_key c) ∧ wg_address c ≠ [] ∧
      forallb prefix_ok (wg_address c) = true ∧ wg_peers c ≠ [] ∧ Forall peer_carried (wg_peers c) ∧
      (∀ m, wg_mtu c = Some m → (m ≤ u32_max)%N) ∧ (∀ w, wg_workers c = Some w → (w ≤ u32_max)%N)
  | _, _ => False
  end.

Lemma read_key l f k : key_ok k → last_of l f = Some (JString k) → key (object l) f = Ok k.
Proof.
  intros (bytes & Hb & Hlen) Hl. unfold key. rewrite (read_str _ _ (Some k)) by done. cbn [ok_or result_bind].
  by rewrite Hb, Hlen.
Qed.

Lemma uint_reads o f max : (max ≤ u64_max)%N → (∀ n, o = Some n → (n ≤ max)%N) → uint (number <$> o) f max = Ok o.
Proof.
  intros Hmax Ho. destruct o as [n|]; [|done]. specialize (Ho n eq_refl). unfold uint. cbn [fmap option_fmap option_map traverse].
  rewrite as_u64_number by lia. cbn [mbind option_bind]. by destruct (N.leb_spec n max); [|lia].
Qed.

Lemma strings_read (ss : list string) f : strings_of (Some (strings ss)) f = Ok ss.
Proof.
  unfold strings_of, strings. induction ss as [|s ss IH]; [done|]. cbn [fmap list_fmap collect_ok as_str ok_or result_bind].
  by rewrite IH.
Qed.

Lemma prefixes_read ss f : forallb prefix_ok ss = true → prefixes (Some (strings ss)) f = Ok ss.
Proof. intros H. unfold prefixes. rewrite strings_read. cbn [result_bind]. by rewrite H. Qed.

Definition plain_address (h : Host) : string := match h with Ipv6 ip => ipv6_display ip | h => uri_host h end.

Lemma parse_plain_address h : uri_host_ok h → parse_host (plain_address h) = Ok h.
Proof. intros Hh. rewrite <- (parse_host_plain h Hh). by destruct h. Qed.

Definition reserved_json (r : N * N * N) : Json := JArray [number r.1.1; number r.1.2; number r.2].

Lemma reserved_reads r :
  (∀ a b c, r = Some (a, b, c) → (a ≤ 255 ∧ b ≤ 255 ∧ c ≤ 255)%N) →
  traverse SingboxParse.parse_reserved (reserved_json <$> r) = Ok r.
Proof.
  intros Hr. destruct r as [[[a b] c]|]; [|done]. destruct (Hr a b c eq_refl) as (Ha & Hb & Hc).
  cbn [fmap option_fmap option_map traverse reserved_json fst snd SingboxParse.parse_reserved].
  rewrite !as_u64_number by (unfold u64_max; lia). cbn [mbind option_bind].
  by repeat match goal with |- context [N.leb ?x 255] => destruct (N.leb_spec x 255); [cbn [ok_or result_bind]|lia] end.
Qed.

(** One peer, against an endpoint none or the same. *)
Lemma peer_reads e p shared :
  endpoint_ok e → port e ≠ 0%N → peer_carried p → (shared = None ∨ shared = Some e) →
  ∃ j, wireguard_peer (plain_address (host e)) (port e) p = Ok j ∧ SingboxParse.parse_peer shared j = Ok (e, p).
Proof.
  intros [Hh Hport] Hp0 (Hpk & Hpsk & Hips & Hres & Hka) Hsh. destruct p as [pk psk ips res ka].
  cbn [wgp_public_key wgp_pre_shared_key wgp_allowed_ips wgp_reserved persistent_keepalive] in *.
  assert (Hs : ∃ so : option N, (∀ s, so = Some s → (s ≤ u16_max)%N) ∧ ka = (λ s, (Z.of_N s * 1000000000)%Z) <$> so).
  { destruct ka as [d|]; [|by exists None]. destruct (Hka d eq_refl) as (s & Hs & ->). exists (Some s). naive_solver. }
  destruct Hs as (so & Hso & ->).
  set (l := [("address", JString (plain_address (host e))); ("port", number (port e)); ("public_key", JString pk);
      ("allowed_ips", strings ips)] ++ opt_field "pre_shared_key" JString psk ++ opt_field "reserved" reserved_json res
    ++ opt_field "persistent_keepalive_interval" number so).
  exists (object l). split.
  { unfold wireguard_peer. cbn [persistent_keepalive wgp_public_key wgp_pre_shared_key wgp_allowed_ips wgp_reserved].
    destruct so as [s|]; [|done]. specialize (Hso s eq_refl). cbn [fmap option_fmap option_map].
    rewrite Z.quot_mul, Z.rem_mul by lia.
    destruct (Z.leb_spec 0 (Z.of_N s)); [|lia]. destruct (Z.leb_spec (Z.of_N s) (Z.of_N u16_max)); [|lia].
    cbn. by rewrite N2Z.id. }
  unfold SingboxParse.parse_peer. unfold object at 1. cbn [as_object ok_or result_bind].
  assert (only_keys peer_keys (of_members l) = true) as -> by (unfold l; allowed_keys). cbn [result_bind].
  unfold l. rewrite (read_str _ "address" (Some (plain_address (host e)))) by (by members). cbn [ok_or result_bind].
  rewrite parse_plain_address by done. cbn [result_bind]. members.
  change (Some (number (port e))) with (number <$> Some (port e)).
  rewrite uint_reads by (done || naive_solver). cbn [result_bind mbind option_bind].
  destruct (N.eqb_spec (port e) 0); [done|]. cbn [ok_or result_bind].
  replace (mkEndpoint (host e) (port e)) with e by (by destruct e).
  assert (is_some_and (λ e0, bool_decide (e0 ≠ e)) shared = false) as ->.
  { destruct Hsh as [-> | ->]; [done|]. cbn. by rewrite bool_decide_eq_false_2 by naive_solver. }
  cbn [result_bind]. rewrite reserved_reads by done. cbn [result_bind].
  rewrite uint_reads by done. cbn [result_bind]. rewrite strings_are. cbn [result_bind].
  rewrite (read_key _ "public_key" pk) by (done || by members). cbn [result_bind].
  assert (Hk : ∀ (m : Members), last_of m "pre_shared_key" = JString <$> psk →
    traverse (λ _, key (object m) "pre_shared_key") (JString <$> psk) = Ok psk).
  { intros m Hm. destruct psk as [k|]; [|done]. cbn [fmap option_fmap option_map traverse].
    by rewrite (read_key _ _ k) by (by apply Hpsk || done). }
  rewrite Hk by (by members). cbn [result_bind]. rewrite prefixes_read by done. done.
Qed.

Lemma peers_read e ps shared :
  endpoint_ok e → port e ≠ 0%N → Forall peer_carried ps → (shared = None ∨ shared = Some e) →
  ∃ js, collect_ok (wireguard_peer (plain_address (host e)) (port e)) ps = Ok js ∧ length js = length ps ∧
    SingboxParse.parse_peers shared js = Ok (match ps with [] => shared | _ => Some e end, ps).
Proof.
  intros He Hp0 Hps. revert shared. induction Hps as [|p ps Hp _ IH]; intros shared Hsh; [by exists []|].
  destruct (peer_reads e p shared) as (j & Hj & Hpj); [done..|].
  destruct (IH (Some e)) as (js & Hjs & Hlen & Hpjs); [by right|].
  exists (j :: js). cbn [collect_ok SingboxParse.parse_peers]. rewrite Hj. cbn [result_bind]. rewrite Hjs.
  cbn [result_bind]. rewrite Hpj. cbn [result_bind]. rewrite Hpjs. split_and!; [done|simpl; lia|]. by destruct ps.
Qed.

Lemma wireguard_reads n :
  protocol n = WireGuard → endpoint_ok (endpoint n) → wireguard_carried n →
  ∃ e, emit_wireguard n = Ok e ∧ get_str e "tag" = Some (display_name n) ∧
    ∀ fresh, SingboxParse.parse_endpoint fresh e
      = container_node fresh (display_name n) (protocol n) (config n) (endpoint n) (authentication n) (tls n)
          (transport n) (obfuscation n) (congestion n) (extras n).
Proof.
  intros Hp He Hc. unfold wireguard_carried in Hc. destruct (config n) as [| | | | | | |c| | | |] eqn:Hcfg; try done.
  destruct (authentication n) eqn:Ha; try done.
  destruct Hc as (Hdns & Ht & Htr & Hob & Hco & Hex & Hp0 & Hk & Hane & Ha1 & Hpne & Hps & Hmtu & Hw).
  destruct (peers_read (endpoint n) (wg_peers c) None He Hp0 Hps) as (js & Hjs & Hlen & Hpjs); [by left|].
  destruct c as [sk addr peers mtu workers dns]. cbn [wg_dns wg_private_key wg_address wg_peers wg_mtu wg_workers] in *. subst dns.
  set (l := [("type", JString "wireguard"); ("tag", JString (display_name n)); ("private_key", JString sk);
      ("address", strings addr); ("peers", JArray js)] ++ opt_field "mtu" number mtu ++ opt_field "workers" number workers).
  exists (object l). split_and!.
  { unfold emit_wireguard. rewrite Hcfg. cbn [wg_dns wg_peers]. unfold plain_address in Hjs. by destruct (host (endpoint n)); rewrite Hjs. }
  { apply (read_str _ _ (Some (display_name n))). unfold l. by members. }
  intros fresh. unfold SingboxParse.parse_endpoint, l. rewrite (read_str _ "type" (Some "wireguard")) by (by members).
  cbn [from_option id String.eqb Ascii.eqb Bool.eqb negb]. unfold wireguard. unfold object at 1. cbn [as_object ok_or result_bind].
  match goal with |- context [only_keys ?a (of_members ?m)] => assert (only_keys a (of_members m) = true) as -> end;
    [allowed_keys|]. cbn [result_bind].
  rewrite (read_key _ "private_key" sk) by (done || by members).
  rewrite (read_str _ "tag" (Some (display_name n))) by (by members). members.
  cbn [is_some_and orb uint traverse result_bind]. rewrite prefixes_read by done. cbn [result_bind].
  destruct addr as [|a addr]; [done|]. cbn [result_bind mbind option_bind as_array ok_or].
  destruct js as [|j js]; [destruct peers; [done|simpl in Hlen; lia]|]. cbn [ok_or result_bind]. rewrite Hpjs.
  cbn [result_bind]. destruct peers as [|p ps]; [done|]. cbn [ok_or result_bind].
  rewrite !uint_reads by done. cbn [result_bind from_option id].
  by rewrite Hp, Ht, Htr, Hob, Hco, Hex.
Qed.

End wireguard.

(** ** ShadowTLS pairs *)

Section shadowtls.
Context `{L : UrlLib}.

(** The inner outbound of a ShadowTLS node. *)
Definition inner_of (n : Node) : Node :=
  match config n with CShadowTls _ _ ik ic => synthesize_inner_node n ik ic | _ => n end.

Definition shadowtls_carried (n : Node) : Prop :=
  match config n, tls n with
  | CShadowTls _ _ _ _, Some t =>
      tls_carried t ∧ config_carried (inner_of n) ∧ obfuscation n = None ∧ congestion n = None ∧ extras n = ∅
  | _, _ => False
  end.

Definition wrapper_members (n : Node) (w : string) (v : ShadowTlsVersion) (pw : option string) : Members :=
  [("type", JString "shadowtls"); ("tag", JString w); ("server", JString (uri_host (host (endpoint n))));
   ("server_port", number (port (endpoint n))); ("version", number (shadowtls_as_u32 v))]
  ++ opt_field "password" JString pw ++ tls_fields n.

Lemma wrapper_base n w v pw :
  endpoint_ok (endpoint n) → tls_ok n → build_base (object (wrapper_members n w v pw)) = Ok (w, endpoint n).
Proof.
  intros [Hh Hp] Ht. unfold build_base, wrapper_members.
  rewrite (read_str _ "tag" (Some w)) by (members; rewrite (last_of_tls _ _ Ht); by members).
  rewrite (read_str _ "server" (Some (uri_host (host (endpoint n))))) by (members; rewrite (last_of_tls _ _ Ht); by members).
  cbn [ok_or result_bind]. rewrite (read_port _ _ (port (endpoint n))) by (done || (members; rewrite (last_of_tls _ _ Ht); by members)).
  cbn [ok_or result_bind]. rewrite parse_host_uri by done. cbn [result_bind from_option id]. by destruct (endpoint n).
Qed.

(** A pair as it appears in a document. *)
Record pair_shape (n : Node) (w : string) (stls inner : Json) : Prop := {
  ps_stls_type : get_str stls "type" = Some "shadowtls";
  ps_stls_tag : get_str stls "tag" = Some w;
  ps_stls_detour : get_str stls "detour" = None;
  ps_inner_type : ∃ t, get_str inner "type" = Some t ∧ t ≠ "shadowtls";
  ps_inner_tag : get_str inner "tag" = Some (display_name n);
  ps_inner_detour : get_str inner "detour" = Some w
}.

Lemma shadowtls_pair_shape n w stls inner : shadowtls_pair n w = Ok (stls, inner) → pair_shape n w stls inner.
Proof.
  intros H. unfold shadowtls_pair in H. destruct (config n) as [| | | | | | | | | |v pw ik ic|]; try done.
  apply result_bind_Ok in H as (m & Hm & H). apply Ok_inj in H as [= <- <-].
  apply outbound_shape in Hm as (t & fields & -> & Hown & Ht). fold (wrapper_members n w v pw).
  rewrite <- app_assoc. change [("detour", JString w)] with (opt_field "detour" JString (Some w)).
  fold (entry t (synthesize_inner_node n ik ic) fields (Some w)).
  assert (Hw : ∀ k, k ∈ reserved_keys → last_of (wrapper_members n w v pw) k
    = last_of [("type", JString "shadowtls"); ("tag", JString w); ("server", JString (uri_host (host (endpoint n))));
        ("server_port", number (port (endpoint n)))] k).
  { intros k Hk. unfold wrapper_members. rewrite !last_of_app, last_of_opt, own_None by (apply own_tls || done).
    unfold reserved_keys in Hk. rewrite !elem_of_cons, elem_of_nil in Hk.
    by destruct Hk as [->|[->|[->|[->|[->|[]]]]]]. }
  split.
  - apply (read_str _ _ (Some "shadowtls")). by rewrite Hw by (by apply (bool_decide_unpack _)).
  - apply (read_str _ _ (Some w)). by rewrite Hw by (by apply (bool_decide_unpack _)).
  - apply (read_str _ _ None). by rewrite Hw by (by apply (bool_decide_unpack _)).
  - exists t. by rewrite entry_type.
  - by rewrite entry_tag.
  - by rewrite entry_detour.
Qed.

(** A ShadowTLS node reads back from its pair. *)
Lemma shadowtls_reads n w :
  protocol n = ShadowTls → endpoint_ok (endpoint n) → shadowtls_carried n →
  ∃ stls inner, shadowtls_pair n w = Ok (stls, inner) ∧
    ∀ fresh, parse_shadowtls_wrapper fresh inner stls
      = container_node fresh (display_name n) (protocol n) (config n) (endpoint n) (authentication n) (tls n)
          (transport n) (obfuscation n) (congestion n) (extras n).
Proof.
  intros Hp He Hc. unfold shadowtls_carried, inner_of in Hc.
  destruct (config n) as [| | | | | | | | | |v pw ik ic|] eqn:Hcfg; try done.
  destruct (tls n) as [t|] eqn:Et; [|done]. destruct Hc as (Htc & Hic & Hob & Hco & Hex).
  assert (Ht : tls_ok n) by (unfold tls_ok; by rewrite Et).
  destruct (carried_reads (synthesize_inner_node n ik ic)) as (ty & fields & Hm & Hown & Hty & Hntls & Hread); [done..|].
  exists (object (wrapper_members n w v pw)), (entry ty (synthesize_inner_node n ik ic) fields (Some w)). split.
  { unfold shadowtls_pair. rewrite Hcfg, Hm. cbn [result_bind]. by rewrite <- app_assoc. }
  intros fresh. unfold parse_shadowtls_wrapper.
  assert (get (entry ty (synthesize_inner_node n ik ic) fields (Some w)) "tls" = None) as ->.
  { unfold entry, base. members. by rewrite Hntls by done. }
  assert (Hst : parse_shadowtls_standalone fresh (object (wrapper_members n w v pw))
    = Ok (container_node fresh w ShadowTls (CShadowTls v pw (Unknown "")
        (CUnsupported (mkUnsupported JNull None "standalone shadowtls: no inner protocol")))
        (endpoint n) AuthNone (Some t) None None None ∅)).
  { unfold parse_shadowtls_standalone. rewrite wrapper_base by done. cbn [result_bind]. unfold wrapper_members.
    rewrite (read_str _ "password" pw) by (members; rewrite (last_of_tls _ _ Ht); by members).
    rewrite (tls_reads _ n) by (done || (members; rewrite (last_of_tls _ _ Ht); by members)).
    members. rewrite (last_of_tls _ _ Ht). cbn [String.eqb Ascii.eqb Bool.eqb mbind option_bind].
    rewrite as_u64_number by (by destruct v). cbn [ok_or result_bind].
    assert (shadowtls_from_u32 (u32_or_zero (shadowtls_as_u32 v)) = Some v) as -> by (by destruct v).
    cbn [ok_or result_bind]. by rewrite Et. }
  rewrite Hst, Hread. unfold reread. cbn [config container_node synthesize_inner_node].
  assert (Hnu : ∀ u, ic ≠ CUnsupported u).
  { intros u ->. unfold config_carried in Hic. cbn in Hic. by destruct ik. }
  destruct ic as [| | | | | | | | | | |u]; try (by cbn; rewrite Hp, Hob, Hco, Hex). by destruct (Hnu u).
Qed.

End shadowtls.

End SingboxSpecial.
