(* ===== verification/SingboxTheorems.v ===== *)
(** * sing-box documents

    Emitted documents are closed: tags are distinct, every [detour] names the
    wrapper it was written for, the default route exists.  Documents of
    canonical nodes read back as those nodes, and no entry of a document is
    dropped but the wrappers merged into the outbounds that use them. *)

From stdpp Require Import pretty.
From S2P Require Import Prelude Kernel Node Text Ip UrlText Float64 UriParse UriEmit UrlInstance UriRoundtrip UriProtocols SourceParse Containers SingboxParse SingboxEmit SingboxReads.
Import Text UrlText UriParse UriEmit UriRoundtrip UriBase64 SourceParse Containers SingboxParse SingboxEmit SingboxReads SingboxSpecial.

Module SingboxTheorems.

(** ** A wrapper always finds a tag *)

(** The [k]-th tag tried. *)
Definition candidate (base : string) (k : nat) : string :=
  match k with O => base | S k => base +:+ "-" +:+ pretty (N.of_nat k + 2)%N end.

Lemma wrapper_candidate_inj base : Inj (=) (=) (candidate base).
Proof.
  assert (Hne : ∀ k, base ≠ base +:+ "-" +:+ pretty (N.of_nat k + 2)%N).
  { intros k E. apply (f_equal String.length) in E. rewrite string_length_app in E.
    change (String.length ("-" +:+ ?x)) with (S (String.length x)) in E. lia. }
  intros [|i] [|j] E; cbn [candidate] in E; [done|by destruct (Hne j)|by destruct (Hne i)|].
  apply (inj (String.app base)) in E. injection E as E. change ("" +:+ ?x) with x in E. apply (inj (pretty (A:=N))) in E. f_equal. lia.
Qed.

Lemma wrapper_tag_taken fuel tags base k :
  wrapper_tag fuel tags base (candidate base k) (N.of_nat k + 2) = None →
  ∀ i, i < fuel → candidate base (k + i) ∈ tags.
Proof.
  revert k. induction fuel as [|fuel IH]; intros k H i Hi; [lia|]. cbn [wrapper_tag] in H.
  destruct (decide (candidate base k ∈ tags)) as [Hin|]; [|done].
  destruct i as [|i]; [by rewrite Nat.add_0_r|]. rewrite Nat.add_succ_r, <- Nat.add_succ_l. apply IH; [|lia].
  cbn [candidate]. by replace (N.of_nat (S k) + 2)%N with (N.of_nat k + 2 + 1)%N by lia.
Qed.

Lemma wrapper_tag_fresh fuel tags base w s t : wrapper_tag fuel tags base w s = Some t → t ∉ tags.
Proof.
  revert w s. induction fuel as [|fuel IH]; intros w s H; [done|]. cbn [wrapper_tag] in H.
  destruct (decide (w ∈ tags)); [by eapply IH|]. by injection H as <-.
Qed.

Lemma wrapper_tag_total (tags : gset string) base :
  ∃ t, wrapper_tag (S (size tags)) tags base base 2 = Some t ∧ t ∉ tags.
Proof.
  destruct (wrapper_tag (S (size tags)) tags base base 2) as [t|] eqn:E; [by eauto using wrapper_tag_fresh|].
  exfalso. pose proof (wrapper_tag_taken (S (size tags)) tags base 0 E) as Hin.
  set (l := candidate base <$> seq 0 (S (size tags))).
  assert (NoDup l) by (pose proof (wrapper_candidate_inj base); apply (NoDup_fmap_2 _), NoDup_seq).
  assert (Hsub : list_to_set l ⊆ tags).
  { intros t. rewrite elem_of_list_to_set. unfold l. rewrite list_elem_of_fmap. intros (i & -> & Hi).
    apply elem_of_seq in Hi. apply (Hin i). lia. }
  apply subseteq_size in Hsub. rewrite size_list_to_set in Hsub by done. unfold l in Hsub.
  rewrite length_fmap, length_seq in Hsub. lia.
Qed.

(** ** What each node adds *)

Definition tag_of (e : Json) : option string := get_str e "tag".

Inductive piece (n : Node) : list Json → list Json → list string → Prop :=
  | piece_endpoint e :
      protocol n = WireGuard → emit_wireguard n = Ok e → piece n [] [e] []
  | piece_pair w stls inner :
      protocol n = ShadowTls → shadowtls_pair n w = Ok (stls, inner) → piece n [stls; inner] [] [w]
  | piece_outbound o :
      protocol n ≠ WireGuard → protocol n ≠ ShadowTls → emit_outbound n = Ok o → piece n [o] [] [].

(** The pieces of a list of nodes; the wrappers' tags avoid those in use. *)
Inductive pieces : gset string → list Node → list Json → list Json → list string → Prop :=
  | pieces_nil tags : pieces tags [] [] [] []
  | pieces_cons tags n ns os es ws os' es' ws' :
      piece n os es ws → Forall (λ w, w ∉ tags) ws → pieces (list_to_set ws ∪ tags) ns os' es' ws' →
      pieces tags (n :: ns) (os ++ os') (es ++ es') (ws ++ ws').

Lemma emit_nodes_pieces st nodes st' :
  emit_nodes st nodes = Ok st' →
  ∃ os es ws, pieces (used_tags st) nodes os es ws ∧ outbounds st' = outbounds st ++ os ∧ endpoints st' = endpoints st ++ es.
Proof.
  revert st. induction nodes as [|n nodes IH]; intros st H; cbn [emit_nodes] in H.
  { injection H as <-. exists [], [], []. rewrite !app_nil_r. split_and!; [constructor|done..]. }
  apply result_bind_Ok in H as (st1 & H1 & H). apply IH in H as (os & es & ws & Hp & Ho & He).
  assert (Hstep : ∃ os1 es1 ws1, piece n os1 es1 ws1 ∧ Forall (λ w, w ∉ used_tags st) ws1 ∧
    outbounds st1 = outbounds st ++ os1 ∧ endpoints st1 = endpoints st ++ es1 ∧
    used_tags st1 = list_to_set ws1 ∪ used_tags st).
  { unfold emit_node in H1. destruct (decide (protocol n = WireGuard)) as [Hw|Hw].
    { apply result_bind_Ok in H1 as (e & He1 & [= <-]). exists [], [e], []. cbn.
      rewrite app_nil_r. split_and!; [by constructor|constructor|done|done|set_solver]. }
    destruct (decide (protocol n = ShadowTls)) as [Hs|Hs].
    { destruct (wrapper_tag_total (used_tags st) (display_name n +:+ "-stls")) as (t & Et & Hfresh). rewrite Et in H1.
      cbn [from_option id] in H1. apply result_bind_Ok in H1 as ([stls inner] & Hpair & [= <-]).
      exists [stls; inner], [], [t]. cbn. rewrite app_nil_r.
      split_and!; [by constructor|by repeat constructor|done|done|set_solver]. }
    apply result_bind_Ok in H1 as (o & Ho1 & [= <-]). exists [o], [], []. cbn. rewrite app_nil_r.
    split_and!; [by constructor|constructor|done|done|set_solver]. }
  destruct Hstep as (os1 & es1 & ws1 & Hp1 & Hf & Ho1 & He1 & Hu). rewrite Hu in Hp.
  exists (os1 ++ os), (es1 ++ es), (ws1 ++ ws). rewrite Ho, He, Ho1, He1, !app_assoc.
  split_and!; [by econstructor|done|done].
Qed.

Lemma outbound_entry n o :
  emit_outbound n = Ok o →
  ∃ t fields, o = entry t n fields None ∧ outbound_members n = Ok (base t n ++ fields) ∧ own fields ∧ t ≠ "shadowtls".
Proof.
  intros H. apply result_bind_Ok in H as (m & Hm & [= <-]).
  destruct (outbound_shape n m Hm) as (t & fields & -> & Hown & Ht). exists t, fields.
  split_and!; [|done..]. unfold entry. by rewrite app_nil_r.
Qed.

Lemma endpoint_tag n e : emit_wireguard n = Ok e → tag_of e = Some (display_name n).
Proof.
  unfold emit_wireguard. intros H. destruct (config n); try done. destruct (wg_dns c); [|done].
  apply result_bind_Ok in H as (ps & _ & [= <-]). apply (read_str _ _ (Some (display_name n))). by members.
Qed.

Lemma piece_tags n os es ws : piece n os es ws → tag_of <$> (os ++ es) ≡ₚ Some <$> (display_name n :: ws).
Proof.
  intros [e Hw He|w stls inner Hs Hp|o _ _ Ho]; cbn.
  - by rewrite (endpoint_tag n e He).
  - destruct (shadowtls_pair_shape _ _ _ _ Hp) as [_ Ht _ _ Hi _]. unfold tag_of. rewrite Ht, Hi. by apply perm_swap.
  - apply outbound_entry in Ho as (t & fields & -> & _ & Hown & _). unfold tag_of. by rewrite entry_tag.
Qed.

Lemma pieces_tags tags ns os es ws :
  pieces tags ns os es ws → tag_of <$> (os ++ es) ≡ₚ Some <$> ((display_name <$> ns) ++ ws).
Proof.
  induction 1 as [|tags n ns os es ws os' es' ws' Hp _ _ IH]; [done|]. apply piece_tags in Hp.
  rewrite fmap_app in Hp. rewrite !fmap_app in IH. rewrite !fmap_app, !fmap_cons. rewrite fmap_cons in Hp.
  transitivity (((tag_of <$> os) ++ (tag_of <$> es)) ++ ((tag_of <$> os') ++ (tag_of <$> es'))); [solve_Permutation|].
  rewrite Hp, IH. solve_Permutation.
Qed.

Lemma pieces_fresh tags ns os es ws : pieces tags ns os es ws → NoDup ws ∧ Forall (λ w, w ∉ tags) ws.
Proof.
  induction 1 as [tags|tags n ns os es ws os' es' ws' Hp Hf _ [Hnd Hall]]; [split; constructor|].
  rewrite NoDup_app, Forall_app. rewrite Forall_forall in Hf. rewrite !Forall_forall in *. split_and!.
  - destruct Hp; repeat constructor; set_solver.
  - intros w Hw Hw'. apply (Hall w Hw'). set_solver.
  - done.
  - done.
  - set_solver.
Qed.

(** Every [detour] names a wrapper of the list. *)
Definition detours_closed (os : list Json) : Prop :=
  ∀ o d, o ∈ os → get_str o "detour" = Some d →
    ∃ w, w ∈ os ∧ get_str w "type" = Some "shadowtls" ∧ tag_of w = Some d.

Lemma piece_detours n os es ws : piece n os es ws → detours_closed os.
Proof.
  intros [e Hw He|w stls inner Hs Hp|o _ _ Ho] o' d Hin Hd.
  - by apply elem_of_nil in Hin.
  - destruct (shadowtls_pair_shape _ _ _ _ Hp) as [Hty Htag Hno _ _ Hdet].
    apply elem_of_cons in Hin as [->|Hin]; [congruence|]. apply list_elem_of_singleton in Hin as ->.
    exists stls. split; [by apply elem_of_cons; left|]. split; [done|]. unfold tag_of. congruence.
  - apply list_elem_of_singleton in Hin as ->. apply outbound_entry in Ho as (t & fields & -> & _ & Hown & _).
    by rewrite entry_detour in Hd.
Qed.

Lemma pieces_detours tags ns os es ws : pieces tags ns os es ws → detours_closed os.
Proof.
  induction 1 as [|tags n ns os es ws os' es' ws' Hp _ _ IH]; intros o d Hin Hd; [by apply elem_of_nil in Hin|].
  apply elem_of_app in Hin as [Hin|Hin].
  - destruct (piece_detours _ _ _ _ Hp o d Hin Hd) as (w & Hw & ?). exists w. rewrite elem_of_app. auto.
  - destruct (IH o d Hin Hd) as (w & Hw & ?). exists w. rewrite elem_of_app. auto.
Qed.

(** ** Documents *)

Lemma size_tags (l : list string) : size (list_to_set l : gset string) ≤ length l.
Proof.
  induction l as [|s l IH]; [done|]. cbn [list_to_set length].
  destruct (decide (s ∈ (list_to_set l : gset string))).
  - replace ({[s]} ∪ list_to_set l) with (list_to_set l : gset string) by set_solver. lia.
  - rewrite size_union by set_solver. rewrite size_singleton. lia.
Qed.

(** As many tags as nodes: the tags are distinct. *)
Lemma tags_NoDup (l : list string) : size (list_to_set l : gset string) = length l → NoDup l.
Proof.
  induction l as [|s l IH]; [constructor|]. cbn [list_to_set length]. intros Hs. pose proof (size_tags l) as Hle.
  destruct (decide (s ∈ (list_to_set l : gset string))) as [Hin|Hin].
  - replace ({[s]} ∪ list_to_set l) with (list_to_set l : gset string) in Hs by set_solver. lia.
  - rewrite size_union, size_singleton in Hs by set_solver.
    constructor; [by rewrite elem_of_list_to_set in Hin|]. apply IH. lia.
Qed.

(** The entries of a document. *)
Definition entries (doc : Json) (key : string) : list Json := default [] (a ← get doc key; as_array a).

Lemma doc_pieces nodes doc :
  singbox_doc nodes = Ok doc →
  NoDup (display_name <$> nodes) ∧
  ∃ ws, pieces (list_to_set (display_name <$> nodes)) nodes (entries doc "outbounds") (entries doc "endpoints") ws ∧
    (∀ first, head nodes = Some first → (r ← get doc "route"; get_str r "final") = Some (display_name first)) ∧
    get doc "outbounds" = Some (JArray (entries doc "outbounds")) ∧
    (entries doc "endpoints" ≠ [] → get doc "endpoints" = Some (JArray (entries doc "endpoints"))) ∧
    (entries doc "endpoints" = [] → get doc "endpoints" = None).
Proof.
  intros H. unfold singbox_doc in H. destruct (Nat.eqb_spec (size (list_to_set (display_name <$> nodes) : gset string)) (length nodes))
    as [Hs|]; [|done]. cbn [negb] in H. apply result_bind_Ok in H as (st & Hst & [= <-]).
  split. { apply tags_NoDup. by rewrite length_fmap. }
  apply emit_nodes_pieces in Hst as (os & es & ws & Hp & Ho & He). cbn in Hp, Ho, He. subst.
  exists ws. set (doc := object _).
  assert (Hos : get doc "outbounds" = Some (JArray (outbounds st))).
  { unfold doc. rewrite get_object. by destruct nodes, (endpoints st). }
  assert (Hes : get doc "endpoints" = match endpoints st with [] => None | es => Some (JArray es) end).
  { unfold doc. rewrite get_object. by destruct nodes, (endpoints st). }
  assert (entries doc "outbounds" = outbounds st) as -> by (unfold entries; by rewrite Hos).
  assert (entries doc "endpoints" = endpoints st) as -> by (unfold entries; rewrite Hes; by destruct (endpoints st)).
  split_and!; [done| |done| |].
  - intros first Hf. destruct nodes as [|n nodes]; [done|]. injection Hf as <-.
    unfold doc. rewrite get_object. by destruct (endpoints st).
  - intros Hne. rewrite Hes. by destruct (endpoints st).
  - intros Hne. by rewrite Hes, Hne.
Qed.

(** C17: A sing-box document that is emitted is closed: no two of its outbounds
    and endpoints share a tag, however the node names were chosen to collide
    with wrapper tags; every [detour] names a ShadowTLS wrapper of the document;
    and the default route names the first node. *)
Theorem singbox_document_closed (nodes : list Node) (doc : Json) (H : singbox_doc nodes = Ok doc) :
  NoDup (tag_of <$> (entries doc "outbounds" ++ entries doc "endpoints")) ∧
  detours_closed (entries doc "outbounds") ∧
  match head nodes with
  | Some first =>
      (r ← get doc "route"; get_str r "final") = Some (display_name first) ∧
      Some (display_name first) ∈ tag_of <$> (entries doc "outbounds" ++ entries doc "endpoints")
  | None => True
  end.
Proof.
  destruct (doc_pieces nodes doc H) as (Hnd & ws & Hp & Hroute & _).
  pose proof (pieces_tags _ _ _ _ _ Hp) as Htags. destruct (pieces_fresh _ _ _ _ _ Hp) as [Hws Hfresh]. split_and!.
  - rewrite Htags. apply (NoDup_fmap_2 Some). apply NoDup_app. split_and!; [done| |done].
    intros t Ht Hw. rewrite Forall_forall in Hfresh. apply (Hfresh t Hw). by rewrite elem_of_list_to_set.
  - by eapply pieces_detours.
  - destruct (head nodes) as [first|] eqn:Hf; [|done]. split; [by apply Hroute|]. rewrite Htags. apply list_elem_of_fmap. exists (display_name first).
    split; [done|]. apply elem_of_app. left. apply list_elem_of_fmap. exists first. split; [done|].
    destruct nodes; [done|]. injection Hf as <-. by apply elem_of_cons; left.
Qed.

(** ** Reading documents back *)

Section reading.
Context `{L : UrlLib}.

(** A node the sing-box document says everything about. *)
Record singbox_canonical (n : Node) : Prop := {
  sc_plain : plain n;
  sc_endpoint : endpoint_ok (endpoint n);
  sc_carried :
    match protocol n with
    | WireGuard => wireguard_carried n
    | ShadowTls => shadowtls_carried n
    | Snell => snell_carried n
    | _ => config_carried n ∧ tls_ok n ∧ read_tls (protocol n) (tls n) = tls n ∧ extras n = ∅
    end
}.

Definition same_node (n n' : Node) : Prop := ∃ fresh, n' = restamped fresh n.

(** An outbound of its own: emitted, and read back. *)
Lemma single_reads n :
  singbox_canonical n → protocol n ≠ WireGuard → protocol n ≠ ShadowTls →
  ∃ o, emit_outbound n = Ok o ∧ ∀ fresh, parse_outbound fresh o = restamped fresh n.
Proof.
  intros [Hpl He Hc] Hw Hs. destruct (decide (protocol n = Snell)) as [Hsn|Hsn].
  - rewrite Hsn in Hc. pose proof Hc as Hc'. unfold snell_carried in Hc'.
    destruct (config n) as [| | | | | | | | |c| |] eqn:Hcfg; try done.
    destruct (authentication n) as [|psk| | |] eqn:Ha; try done. destruct Hc' as ((uk & Hex) & _).
    exists (entry "snell" n (snell_fields psk c uk) None). split.
    + unfold emit_outbound, entry. rewrite (snell_emitted n c psk uk) by done. cbn [result_bind].
      by rewrite <- (app_nil_r (snell_fields psk c uk)) at 1.
    + intros fresh. rewrite restamped_plain by done. rewrite (snell_reads n c psk uk) by done. done.
  - assert (Hc2 : config_carried n ∧ tls_ok n ∧ read_tls (protocol n) (tls n) = tls n ∧ extras n = ∅) by (by destruct (protocol n)).
    destruct Hc2 as (Hcc & Ht & Hrt & Hex). destruct (carried_reads n He Hcc Ht) as (t & fields & Hm & Hown & _ & _ & Hread).
    exists (entry t n fields None). split.
    + unfold emit_outbound, entry. rewrite Hm. cbn [result_bind]. by rewrite <- (app_nil_r fields) at 1.
    + intros fresh. rewrite Hread, restamped_plain by done. unfold reread. by rewrite Hrt, Hex.
Qed.

Lemma canonical_emits st n : singbox_canonical n → ∃ st', emit_node st n = Ok st'.
Proof.
  intros Hc. unfold emit_node. destruct (decide (protocol n = WireGuard)) as [Hw|Hw].
  { destruct Hc as [_ He Hc]. rewrite Hw in Hc. destruct (wireguard_reads n) as (e & -> & _); [done..|]. by eexists. }
  destruct (decide (protocol n = ShadowTls)) as [Hs|Hs].
  { destruct Hc as [_ He Hc]. rewrite Hs in Hc.
    edestruct (shadowtls_reads n) as (stls & inner & Hp & _); [done..|]. rewrite Hp. by eexists. }
  destruct (single_reads n Hc Hw Hs) as (o & -> & _). by eexists.
Qed.

Lemma canonicals_emit st nodes : Forall singbox_canonical nodes → ∃ st', emit_nodes st nodes = Ok st'.
Proof.
  intros Hc. revert st. induction Hc as [|n nodes Hn _ IH]; intros st; [by eexists|].
  cbn [emit_nodes]. destruct (canonical_emits st n Hn) as (st1 & ->). apply IH.
Qed.

(** *** The wrapper map *)

Definition map_step (m : gmap string Json) (entry : Json) : gmap string Json :=
  if is_shadowtls entry then match get_str entry "tag" with Some tag => <[tag := entry]> m | None => m end else m.

Lemma map_other m os w : (∀ e, e ∈ os → tag_of e ≠ Some w) → foldl map_step m os !! w = m !! w.
Proof.
  revert m. induction os as [|e os IH]; intros m H; [done|]. cbn [foldl]. rewrite IH by set_solver.
  unfold map_step. destruct (is_shadowtls e); [|done]. destruct (get_str e "tag") as [t|] eqn:Et; [|done].
  apply lookup_insert_ne. intros ->. apply (H e); [set_solver|done].
Qed.

Lemma map_lookup os e w :
  NoDup (tag_of <$> os) → e ∈ os → get_str e "type" = Some "shadowtls" → tag_of e = Some w →
  shadowtls_map os !! w = Some e.
Proof.
  intros Hnd Hin Hty Htag. unfold shadowtls_map. fold map_step. generalize (∅ : gmap string Json).
  revert Hnd Hin. induction os as [|e' os IH]; intros Hnd Hin m; [by apply elem_of_nil in Hin|].
  rewrite fmap_cons in Hnd. apply NoDup_cons in Hnd as [Hnot Hnd]. cbn [foldl].
  apply elem_of_cons in Hin as [<-|Hin]; [|by apply IH]. rewrite map_other.
  - unfold map_step, is_shadowtls. rewrite bool_decide_eq_true_2 by done. unfold tag_of in Htag. rewrite Htag.
    apply lookup_insert_eq.
  - intros e' Hin Htag'. apply Hnot. rewrite Htag, <- Htag'. by apply list_elem_of_fmap_2.
Qed.

Lemma referenced_elem os o w e :
  o ∈ os → get_str o "detour" = Some w → shadowtls_map os !! w = Some e → w ∈ referenced_shadowtls os.
Proof.
  intros Hin Hd Hm. unfold referenced_shadowtls. apply elem_of_list_to_set, list_elem_of_omap. exists o. split; [done|].
  rewrite Hd. cbn [mbind option_bind]. by rewrite decide_True by (by eexists).
Qed.

(** *** Pieces read back *)

Section maps.
Variables (wrappers : gmap string Json) (referenced : gset string).

Definition resolves (os : list Json) : Prop :=
  ∀ stls w, stls ∈ os → get_str stls "type" = Some "shadowtls" → tag_of stls = Some w →
    wrappers !! w = Some stls ∧ w ∈ referenced.

Lemma piece_reads n os es ws (stamp : nat → NodeId * Z) :
  singbox_canonical n → piece n os es ws → resolves os →
  Forall2 same_node (if decide (protocol n = WireGuard) then [] else [n])
    (concat (imap (λ k e, outbound_nodes wrappers referenced (stamp k) e) os)) ∧
  ∀ stamp', Forall2 same_node (if decide (protocol n = WireGuard) then [n] else [])
    (imap (λ k e, SingboxParse.parse_endpoint (stamp' k) e) es).
Proof.
  intros Hc Hp Hr. destruct Hp as [e Hw He|w stls inner Hs Hp|o Hw Hs Ho].
  - rewrite !decide_True by done. split; [constructor|]. intros stamp'. destruct Hc as [Hpl Hep Hc]. rewrite Hw in Hc.
    destruct (wireguard_reads n Hw Hep Hc) as (e' & He' & _ & Hread). rewrite He in He'. injection He' as <-.
    constructor; [|constructor]. exists (stamp' 0). by rewrite Hread, restamped_plain.
  - rewrite !decide_False by congruence. split; [|constructor]. destruct Hc as [Hpl Hep Hc]. rewrite Hs in Hc.
    destruct (shadowtls_reads n w Hs Hep Hc) as (stls' & inner' & Hp' & Hread). rewrite Hp in Hp'. injection Hp' as <- <-.
    destruct (shadowtls_pair_shape _ _ _ _ Hp) as [Hty Htag Hno (t & Hit & Hne) Hitag Hdet].
    destruct (Hr stls w) as [Hwr Href]; [set_solver|done|done|].
    apply String.eqb_neq in Hne.
    assert (H1 : ∀ f, outbound_nodes wrappers referenced f stls = []).
    { intros f. unfold outbound_nodes. rewrite Hty, Htag. cbn [String.eqb Ascii.eqb Bool.eqb is_some_and andb].
      by rewrite bool_decide_eq_true_2. }
    assert (H2 : ∀ f, outbound_nodes wrappers referenced f inner = [parse_shadowtls_wrapper f inner stls]).
    { intros f. unfold outbound_nodes. rewrite Hit, Hne, Hdet. cbn [andb mbind option_bind]. by rewrite Hwr. }
    unfold imap, compose. cbn [concat]. rewrite H1, H2. constructor; [|constructor]. exists (stamp 1).
    by rewrite Hread, restamped_plain.
  - rewrite !decide_False by congruence. split; [|constructor].
    destruct (single_reads n Hc Hw Hs) as (o' & Ho' & Hread). rewrite Ho in Ho'. injection Ho' as <-.
    destruct (outbound_entry n o Ho) as (t & fields & Eo & _ & Hown & Hne). apply String.eqb_neq in Hne.
    assert (H1 : ∀ f, outbound_nodes wrappers referenced f o = [parse_outbound f o]).
    { intros f. subst o. unfold outbound_nodes. rewrite entry_type, entry_detour by done. by rewrite Hne. }
    unfold imap, compose. cbn [concat]. rewrite H1. constructor; [|constructor]. exists (stamp 0). by rewrite Hread.
Qed.

Lemma pieces_read tags ns os es ws :
  Forall singbox_canonical ns → pieces tags ns os es ws → resolves os →
  ∀ (stamp stamp' : nat → NodeId * Z),
  Forall2 same_node (filter (λ n, protocol n ≠ WireGuard) ns)
    (concat (imap (λ k e, outbound_nodes wrappers referenced (stamp k) e) os)) ∧
  Forall2 same_node (filter (λ n, protocol n = WireGuard) ns)
    (imap (λ k e, SingboxParse.parse_endpoint (stamp' k) e) es).
Proof.
  intros Hc Hp. revert Hc. induction Hp as [|tags n ns os es ws os' es' ws' Hp _ _ IH]; intros Hc Hr stamp stamp'.
  { split; constructor. }
  apply Forall_cons in Hc as [Hn Hc].
  destruct (piece_reads n os es ws stamp Hn Hp) as [Ho He]; [intros stls w Hin; apply Hr; set_solver|].
  destruct (IH Hc) with (stamp := λ k, stamp (length os + k)) (stamp' := λ k, stamp' (length es + k)) as [Ho' He'];
    [intros stls w Hin; apply Hr; set_solver|].
  rewrite !imap_app, concat_app, !filter_cons.
  split.
  - destruct (decide (protocol n = WireGuard)) as [Hw|Hw].
    + rewrite decide_False by (by intros ?). exact (Forall2_app Ho Ho').
    + rewrite decide_True by done. exact (Forall2_app Ho Ho').
  - specialize (He stamp'). destruct (decide (protocol n = WireGuard)) as [Hw|Hw].
    + exact (Forall2_app He He').
    + exact (Forall2_app He He').
Qed.

End maps.
Lemma pieces_used tags ns os es ws stls w :
  pieces tags ns os es ws → stls ∈ os → get_str stls "type" = Some "shadowtls" → tag_of stls = Some w →
  ∃ inner, inner ∈ os ∧ get_str inner "detour" = Some w.
Proof.
  intros Hp Hin Hty Htag. induction Hp as [|tags n ns os es ws os' es' ws' Hp _ _ IH]; [by apply elem_of_nil in Hin|].
  apply elem_of_app in Hin as [Hin|Hin].
  - clear IH. destruct Hp as [e Hw He|w' stls' inner Hs Hp|o Hw Hs Ho].
    + by apply elem_of_nil in Hin.
    + destruct (shadowtls_pair_shape _ _ _ _ Hp) as [_ Ht _ (t & Hit & Hne) _ Hd].
      apply elem_of_cons in Hin as [->|Hin]; [|apply list_elem_of_singleton in Hin as ->; congruence].
      exists inner. split; [set_solver|]. unfold tag_of in Htag. congruence.
    + apply list_elem_of_singleton in Hin as ->. apply outbound_entry in Ho as (t & fields & -> & _ & Hown & Hne).
      rewrite entry_type in Hty by done. congruence.
  - destruct (IH Hin) as (inner & Hi & ?). exists inner. split; [set_solver|done].
Qed.

Lemma pieces_length tags ns os es ws :
  pieces tags ns os es ws →
  length os + length es = length ns + length (filter (λ n, protocol n = ShadowTls) ns).
Proof.
  induction 1 as [|tags n ns os es ws os' es' ws' Hp _ _ IH]; [done|]. rewrite !length_app, filter_cons. cbn [length].
  destruct Hp as [e Hw He|w stls inner Hs Hp|o Hw Hs Ho]; cbn [length].
  - rewrite decide_False by congruence. lia.
  - rewrite decide_True by done. cbn [length]. lia.
  - rewrite decide_False by congruence. lia.
Qed.

(** C7: A sing-box document emitted from canonical nodes with distinct names
    reads back as those nodes, WireGuard endpoints after the outbounds: TLS and
    Reality, transports, Go durations, bandwidths, Snell camouflage, WireGuard
    peers and ShadowTLS pairs all survive, and each wrapper is merged with the
    outbound written for it. *)
Theorem singbox_roundtrip (draw : Draw) (nodes : list Node)
  (Hc : Forall singbox_canonical nodes) (Hnames : NoDup (display_name <$> nodes))
  (Hmax : length nodes + length (filter (λ n, protocol n = ShadowTls) nodes) ≤ MAX_ENTRIES) :
  ∃ doc nodes', singbox_doc nodes = Ok doc ∧ parse_singbox_value draw doc = Ok nodes' ∧
    Forall2 same_node
      (filter (λ n, protocol n ≠ WireGuard) nodes ++ filter (λ n, protocol n = WireGuard) nodes) nodes'.
Proof.
  assert (Hemit : ∃ doc, singbox_doc nodes = Ok doc).
  { unfold singbox_doc. rewrite size_list_to_set, length_fmap, Nat.eqb_refl by done. cbn [negb].
    destruct (canonicals_emit (mkEmitted [] [] (list_to_set (display_name <$> nodes))) nodes Hc) as (st & ->). by eexists. }
  destruct Hemit as (doc & Hdoc). exists doc. destruct (doc_pieces nodes doc Hdoc) as (_ & ws & Hp & _ & Hos & Hes & Hnoes).
  pose proof (pieces_tags _ _ _ _ _ Hp) as Htags. destruct (pieces_fresh _ _ _ _ _ Hp) as [Hws Hfresh].
  set (os := entries doc "outbounds") in *. set (es := entries doc "endpoints") in *.
  assert (Hnd : NoDup (tag_of <$> os)).
  { enough (NoDup ((tag_of <$> os) ++ (tag_of <$> es))) as [? _]%NoDup_app by done.
    rewrite <- fmap_app, Htags. apply (NoDup_fmap_2 Some), NoDup_app. split_and!; [done| |done]. intros t Ht Hw. rewrite Forall_forall in Hfresh. apply (Hfresh t Hw).
    by rewrite elem_of_list_to_set. }
  assert (Hr : resolves (shadowtls_map os) (referenced_shadowtls os) os).
  { intros stls w Hin Hty Htag. pose proof (map_lookup os stls w Hnd Hin Hty Htag) as Hm. split; [done|].
    destruct (pieces_used _ _ _ _ _ _ _ Hp Hin Hty Htag) as (inner & Hi & Hd). by eapply referenced_elem. }
  assert (Hles : list_at doc "endpoints" "endpoints (not a list)" = Ok es).
  { unfold list_at. destruct es as [|e es'] eqn:Ee; [by rewrite Hnoes|]. by rewrite Hes. }
  eexists. split; [done|]. split.
  - unfold parse_singbox_value. rewrite Hos at 1. cbn [result_bind]. unfold list_at at 1. rewrite Hos. cbn [result_bind].
    rewrite Hles. cbn [result_bind]. unfold check_entry_count.
    destruct (Nat.ltb_spec MAX_ENTRIES (length os + length es)) as [Hlt|_]; [rewrite (pieces_length _ _ _ _ _ Hp) in Hlt; lia|].
    cbn [result_bind]. reflexivity.
  - destruct (pieces_read _ _ _ _ _ _ _ Hc Hp Hr draw (λ k, draw (length os + k))) as [H1 H2].
    exact (Forall2_app H1 H2).
Qed.

(** ** No entry is dropped *)

(** A wrapper another outbound's [detour] names. *)
Definition absorbed (os : list Json) (e : Json) : Prop :=
  is_shadowtls e = true ∧ ∃ tag, tag_of e = Some tag ∧ tag ∈ referenced_shadowtls os.

#[export] Instance absorbed_dec os e : Decision (absorbed os e).
Proof.
  unfold absorbed. destruct (is_shadowtls e); [|right; naive_solver]. destruct (tag_of e) as [t|]; [|right; naive_solver].
  destruct (decide (t ∈ referenced_shadowtls os)); [left|right]; naive_solver.
Defined.

(** The protocols of outbound types. *)
Definition type_protocols : list (string * ProtocolKind) :=
  [("vless", Vless); ("vmess", VMess); ("trojan", Trojan); ("shadowsocks", Shadowsocks); ("hysteria2", Hysteria2);
   ("tuic", TuicV5); ("wireguard", WireGuard); ("anytls", AnyTls); ("snell", Snell)].

(** Configuration and credential of an entry, by protocol. *)
Definition credential (e : Json) (n : Node) : Prop :=
  match protocol n, config n, authentication n with
  | Vless, CVlessReality _, AuthUuid u | VMess, CVMess _, AuthUuid u => get_str e "uuid" = Some u
  | Trojan, CTrojan _, AuthPassword w | Shadowsocks, CShadowsocks _, AuthPassword w
  | Hysteria2, CHysteria2 _, AuthPassword w | AnyTls, CAnyTls _, AuthPassword w => get_str e "password" = Some w
  | TuicV5, CTuicV5 _, AuthUuidPassword u w => get_str e "uuid" = Some u ∧ get_str e "password" = Some w
  | Snell, CSnell _, AuthPassword w => get_str e "psk" = Some w
  | WireGuard, CWireGuard c, AuthNone => get_str e "private_key" = Some (wg_private_key c)
  | _, _, _ => False
  end.

(** The address an entry dials. *)
Definition dials (e : Json) (ep : Endpoint) : Prop :=
  ∃ server, get_str e "server" = Some server ∧ parse_host server = Ok (host ep) ∧
    get_port e "server_port" = Ok (Some (port ep)).

(** Enabled TLS is on, with the names and checks of the entry. *)
Definition secured (e : Json) (t : option TlsConfig) : Prop :=
  ∀ o, get e "tls" = Some o → get_bool o "enabled" = Some true →
    ∃ c, t = Some c ∧ tls_enabled c = true ∧ server_name c = get_str o "server_name" ∧
      skip_cert_verify c = get_bool o "insecure".

(** The node is the one of its entry: protocol, name, credential, and but for
    WireGuard, whose peers have them, the address; TLS where the protocol
    carries the entry's. *)
Definition of_entry (e : Json) (n : Node) : Prop :=
  (∃ t, get_str e "type" = Some t ∧ (t, protocol n) ∈ type_protocols) ∧ credential e n ∧
  display_name n = default (if decide (protocol n = WireGuard) then "wireguard" else "") (get_str e "tag") ∧
  (protocol n ≠ WireGuard → dials e (endpoint n)) ∧
  (protocol n ∈ [Vless; VMess; Trojan; Hysteria2; TuicV5; AnyTls] → secured e (tls n)).

(** The ShadowTLS side of a node. *)
Definition of_wrapper (stls : Json) (n : Node) : Prop :=
  protocol n = ShadowTls ∧ dials stls (endpoint n) ∧ secured stls (tls n) ∧
  ∃ v p c, config n = CShadowTls v (get_str stls "password") p c.

(** The node carries the protocol and the credential of an inner node. *)
Definition carries (n inner : Node) : Prop :=
  display_name n = display_name inner ∧ authentication n = authentication inner ∧ transport n = transport inner ∧
  ∃ v pw, config n = CShadowTls v pw (protocol inner) (config inner).

(** What becomes of an entry: the node of the entry; the entry in its wrapper;
    a wrapper alone; or, unsupported, the raw entry, or that of the wrapper when
    the wrapper is what cannot be read. *)
Definition kept (os : list Json) (e : Json) (n : Node) : Prop :=
  match config n with
  | CUnsupported u =>
      raw_format u = Some singbox_json ∧
      (raw u = e ∨ ∃ d, get_str e "detour" = Some d ∧ shadowtls_map os !! d = Some (raw u))
  | CShadowTls _ _ _ _ =>
      (get_str e "type" = Some "shadowtls" ∧ of_wrapper e n) ∨
      (∃ d stls inner, get_str e "detour" = Some d ∧ shadowtls_map os !! d = Some stls ∧
         of_wrapper stls n ∧ of_entry e inner ∧ carries n inner)
  | _ => of_entry e n
  end.

Lemma build_base_reads e name ep : build_base e = Ok (name, ep) → name = default "" (get_str e "tag") ∧ dials e ep.
Proof.
  unfold build_base. intros H. apply result_bind_Ok in H as (server & Hs%ok_or_Ok & H).
  apply result_bind_Ok in H as (port & Hp & H). apply result_bind_Ok in H as (port' & ->%ok_or_Ok & H).
  apply result_bind_Ok in H as (host & Hh & H). injection H as <- <-. split; [done|]. by exists server.
Qed.

Lemma extract_tls_secured e : secured e (extract_tls e).
Proof. intros o Ho He. unfold extract_tls. rewrite Ho. cbn. rewrite He. by eexists. Qed.

Lemma default_tls_secured e : secured e (or_default_tls (extract_tls e)).
Proof. intros o Ho He. unfold extract_tls. rewrite Ho. cbn. rewrite He. by eexists. Qed.

#[local] Hint Resolve extract_tls_secured default_tls_secured : core.

Lemma key_reads e field k : key e field = Ok k → get_str e field = Some k.
Proof.
  unfold key. intros H. apply result_bind_Ok in H as (k' & Hk%ok_or_Ok & H).
  destruct (base64_decode STANDARD k'); [|done]. by destruct (Nat.eqb _ _); [apply Ok_inj in H as <-|].
Qed.

Lemma wireguard_fields fresh e n :
  wireguard fresh e = Ok n → protocol n = WireGuard ∧ credential e n ∧ display_name n = default "wireguard" (get_str e "tag").
Proof.
  unfold wireguard. intros H. do 3 apply result_bind_Ok in H as (? & _ & H).
  apply result_bind_Ok in H as (pk & Hk%key_reads & H).
  repeat (let y := fresh "y" in apply result_bind_Ok in H as (y & _ & H); try match type of H with (let (_, _) := ?p in _) = _ => destruct p end).
  by apply Ok_inj in H as <-.
Qed.

(** The renamed members of an old outbound leave the others alone. *)
Lemma alias_get err old new fallback m m' k :
  alias err old new fallback m = Ok m' → k ≠ old → k ≠ new → map_get m' k = map_get m k.
Proof.
  unfold alias. intros H Ho Hn. assert (map_get (map_remove old m) k = map_get m k) as Hr.
  { rewrite map_get_remove. destruct (String.eqb_spec old k); [by subst|done]. }
  destruct (match map_get m old with Some v => Some v | None => fallback end) as [v|]; [|by apply Ok_inj in H as <-].
  destruct (map_get _ new); [done|]. apply Ok_inj in H as <-. rewrite map_get_insert.
  destruct (String.eqb_spec new k); [by subst|done].
Qed.

Lemma legacy_reads fresh e n :
  parse_legacy fresh e = Ok n → protocol n = WireGuard ∧ credential e n ∧ display_name n = default "wireguard" (get_str e "tag").
Proof.
  unfold parse_legacy. intros H. apply result_bind_Ok in H as (m & Hm%ok_or_Ok & H). destruct e; try done. injection Hm as ->.
  apply result_bind_Ok in H as (m' & Ha & H). apply result_bind_Ok in H as (? & _ & H). apply result_bind_Ok in H as (peers & _ & H).
  apply wireguard_fields in H as (Hp & Hc & Hd).
  assert (∀ k, k ∈ ["private_key"; "tag"] → get_str (JObject (map_insert "peers" (JArray peers) m')) k = get_str (JObject m) k) as Hk.
  { intros k Hk. unfold get_str, get. rewrite map_get_insert.
    assert (String.eqb "peers" k = false ∧ k ≠ "local_address" ∧ k ≠ "address" ∧ String.eqb "server" k = false ∧ String.eqb "server_port" k = false)
      as (Hq & H1 & H2 & H3 & H4).
    { apply elem_of_cons in Hk as [->|Hk]; [by split_and!|]. apply list_elem_of_singleton in Hk as ->. by split_and!. }
    rewrite Hq, (alias_get _ _ _ _ _ _ _ Ha) by done. by rewrite !map_get_remove, H3, H4. }
  split_and!; [done| |by rewrite <-(Hk "tag") by set_solver]. unfold credential in *.
  destruct (protocol n), (config n), (authentication n); try done. by rewrite <-(Hk "private_key") by set_solver.
Qed.

Lemma mapper_entry fresh t e n : get_str e "type" = Some t → map_outbound fresh t e = Ok n → of_entry e n.
Proof.
  intros Ht H. unfold map_outbound in H.
  assert (∀ p, protocol n = p → (t, p) ∈ type_protocols → credential e n →
    display_name n = default (if decide (p = WireGuard) then "wireguard" else "") (get_str e "tag") →
    (p ≠ WireGuard → dials e (endpoint n)) →
    (p ∈ [Vless; VMess; Trojan; Hysteria2; TuicV5; AnyTls] → secured e (tls n)) → of_entry e n) as Hof.
  { intros p <- Hin Hc Hd Hdi Hs. split; [by exists t|]. by split_and!. }
  repeat match type of H with (if String.eqb t ?k then _ else _) = _ => destruct (String.eqb_spec t k) as [->|_] end; [..|done].
  7: { apply legacy_reads in H as (Hp & Hc & Hd). apply (Hof WireGuard); [done|set_solver|done|done|done|set_solver]. }
  8: { unfold parse_snell in H. apply result_bind_Ok in H as (? & _ & H).
    apply result_bind_Ok in H as ([name ep] & [-> Hb]%build_base_reads & H).
    apply result_bind_Ok in H as (psk & Hpsk%ok_or_Ok & H).
    repeat (let y := fresh "y" in apply result_bind_Ok in H as (y & _ & H); try match type of H with (let (_, _) := ?p in _) = _ => destruct p end).
    apply Ok_inj in H as <-. eapply Hof; [reflexivity|set_solver|by cbn|done|done|set_solver]. }
  all: unfold parse_vless, parse_vmess, parse_trojan, parse_shadowsocks, parse_hysteria2, parse_tuic, parse_anytls in H.
  all: apply result_bind_Ok in H as ([name ep] & [-> Hb]%build_base_reads & H).
  all: repeat (apply result_bind_Ok in H as (? & ?%ok_or_Ok & H)).
  all: apply Ok_inj in H as <-.
  all: eapply Hof; [reflexivity|set_solver|by cbn|done|done|].
  all: cbn; auto; set_solver.
Qed.

Lemma of_entry_config e n : of_entry e n → (∀ u, config n ≠ CUnsupported u) ∧ ∀ v pw p c, config n ≠ CShadowTls v pw p c.
Proof. intros (_ & Hc & _). unfold credential in Hc. split; intros; intros E; rewrite E in Hc; by destruct (protocol n), (authentication n). Qed.

Lemma of_entry_kept os e n : of_entry e n → kept os e n.
Proof.
  intros H. destruct (of_entry_config _ _ H) as [Hu Hs]. unfold kept. destruct (config n) eqn:E; try done.
  - by destruct (Hs version password inner_protocol p).
  - by destruct (Hu u).
Qed.

Lemma unsupported_kept os e r k fresh : kept os e (unsupported fresh e singbox_json k r).
Proof. split; [done|by left]. Qed.

(** An outbound alone: its node, or unsupported with the raw entry. *)
Lemma parse_outbound_read fresh e :
  of_entry e (parse_outbound fresh e) ∨ ∃ k r, parse_outbound fresh e = unsupported fresh e singbox_json k r.
Proof.
  unfold parse_outbound. destruct (get_str e "type") as [t|] eqn:Et; [|right; by eexists _, _].
  destruct (existsb _ _); [right; by eexists _, _|].
  destruct (map_outbound fresh t e) as [n|err] eqn:Em; [left; by eapply mapper_entry|right; by eexists _, _].
Qed.

Lemma standalone_reads fresh e n : parse_shadowtls_standalone fresh e = Ok n → of_wrapper e n.
Proof.
  unfold parse_shadowtls_standalone. intros H. apply result_bind_Ok in H as ([name ep] & [-> Hb]%build_base_reads & H).
  apply result_bind_Ok in H as (vn & _ & H). apply result_bind_Ok in H as (v & _ & H). apply Ok_inj in H as <-.
  split_and!; [done|done| |by eexists _, _, _]. intros o Ho He. cbn. unfold extract_tls. rewrite Ho. cbn. rewrite He. by eexists.
Qed.

Lemma wrapper_kept os fresh e d stls :
  get_str e "detour" = Some d → shadowtls_map os !! d = Some stls → kept os e (parse_shadowtls_wrapper fresh e stls).
Proof.
  intros Hd Hm. unfold parse_shadowtls_wrapper. destruct (get e "tls"); [apply unsupported_kept|].
  destruct (parse_shadowtls_standalone fresh stls) as [wr|] eqn:Ew; [|split; [done|right; by exists d]].
  destruct (standalone_reads _ _ _ Ew) as (Hp & Hdial & Hsec & v & p & c & Hc). rewrite Hc.
  destruct (parse_outbound_read fresh e) as [Ho|(k & r & ->)]; [|apply unsupported_kept].
  destruct (of_entry_config _ _ Ho) as [Hu _].
  destruct (config (parse_outbound fresh e)) eqn:Ec; [..|by destruct (Hu u)]; unfold kept; cbn [config container_node]; right;
    exists d, stls, (parse_outbound fresh e); (split; [done|split; [done|split; [by split_and!; [..|by eexists _, _, _]|split; [done|]]]]);
    (split_and!; [done..|by rewrite Ec; eexists _, _]).
Qed.

Lemma outbound_kept os fresh e :
  ¬ absorbed os e →
  ∃ n, outbound_nodes (shadowtls_map os) (referenced_shadowtls os) fresh e = [n] ∧ kept os e n.
Proof.
  intros Ha. unfold outbound_nodes. destruct (get_str e "type") as [t|] eqn:Et.
  2:{ eexists. split; [done|]. apply unsupported_kept. }
  assert (String.eqb t "shadowtls" && is_some_and (λ tag, bool_decide (tag ∈ referenced_shadowtls os)) (get_str e "tag") = false) as ->.
  { destruct (String.eqb_spec t "shadowtls") as [->|]; [|done]. cbn [andb].
    destruct (get_str e "tag") as [tag|] eqn:Etag; [|done]. cbn. apply bool_decide_eq_false_2. intros Hin. apply Ha. split.
    - unfold is_shadowtls. by apply bool_decide_eq_true_2.
    - by exists tag. }
  assert (∃ n, (if String.eqb t "shadowtls"
    then [match parse_shadowtls_standalone fresh e with
          | Ok node => node
          | Err _ => unsupported fresh e singbox_json ShadowTls "failed to parse standalone shadowtls outbound" end]
    else [parse_outbound fresh e]) = [n] ∧ kept os e n) as Halone.
  { destruct (String.eqb_spec t "shadowtls") as [->|]; (eexists; split; [done|]).
    - destruct (parse_shadowtls_standalone fresh e) as [n|] eqn:Es; [|apply unsupported_kept].
      pose proof (standalone_reads _ _ _ Es) as Hw. pose proof Hw as (_ & _ & _ & v & p & c & Hc). unfold kept. rewrite Hc. by left.
    - destruct (parse_outbound_read fresh e) as [Ho|(k & r & ->)]; [by apply of_entry_kept|apply unsupported_kept]. }
  destruct (get_str e "detour") as [d|] eqn:Ed; cbn [mbind option_bind]; [|done].
  destruct (shadowtls_map os !! d) as [stls|] eqn:Em; [|done]. eexists. split; [done|]. by eapply wrapper_kept.
Qed.

(** An endpoint is a WireGuard node, or unsupported with the raw entry. *)
Definition kept_endpoint (e : Json) (n : Node) : Prop :=
  match config n with
  | CUnsupported u => raw_format u = Some singbox_json ∧ raw u = e
  | _ => get_str e "type" = Some "wireguard" ∧ protocol n = WireGuard ∧ credential e n ∧
      display_name n = default "wireguard" (get_str e "tag")
  end.

Lemma endpoint_kept fresh e : kept_endpoint e (SingboxParse.parse_endpoint fresh e).
Proof.
  unfold SingboxParse.parse_endpoint. destruct (get_str e "type") as [ty|] eqn:Ety; [change (default "" (Some ty)) with ty|done].
  destruct (String.eqb_spec ty "wireguard") as [->|]; cbn [negb]; [|done].
  destruct (wireguard fresh e) as [n|err] eqn:Ew; [|done]. apply wireguard_fields in Ew as (Hp & Hc & Hd).
  unfold kept_endpoint. destruct (config n) eqn:E; try done. unfold credential in Hc. rewrite Hp, E in Hc. by destruct (authentication n).
Qed.

Lemma absorbed_used os e : absorbed os e → ∃ o, o ∈ os ∧ get_str o "detour" = tag_of e.
Proof.
  intros [_ (tag & Htag & Hin)]. unfold referenced_shadowtls in Hin. rewrite elem_of_list_to_set in Hin.
  apply list_elem_of_omap in Hin as (o & Ho & Hd). exists o. split; [done|]. rewrite Htag.
  destruct (get_str o "detour") as [d|]; [|done]. cbn in Hd. by destruct (decide _); [injection Hd as ->|].
Qed.


(** The rule has an exception: a ShadowTLS outbound whose [detour] is its
    own tag counts as its own wrapper, so a document with only that entry parses
    as no node at all, not even an unsupported one. *)
Theorem shadowtls_self_detour_dropped (draw : Draw) (e : Json) (tag : string)
  (Hty : get_str e "type" = Some "shadowtls") (Htag : get_str e "tag" = Some tag)
  (Hd : get_str e "detour" = Some tag) :
  absorbed [e] e ∧ parse_singbox_value draw (object [("outbounds", JArray [e])]) = Ok [].
Proof.
  assert (Hm : shadowtls_map [e] !! tag = Some e) by (apply map_lookup; [repeat constructor; set_solver|set_solver|done|done]).
  assert (Href : tag ∈ referenced_shadowtls [e]) by (apply (referenced_elem [e] e tag e); [set_solver|done|done]).
  split.
  - split; [by apply bool_decide_eq_true_2|by exists tag].
  - unfold parse_singbox_value, list_at. members. cbn [result_bind]. unfold check_entry_count. cbn [length].
    destruct (Nat.ltb_spec MAX_ENTRIES (1 + 0)) as [Hlt|_]; [unfold MAX_ENTRIES in Hlt; lia|]. cbn [result_bind].
    unfold imap. cbn [concat]. unfold outbound_nodes. rewrite Hty, Htag.
    cbn [String.eqb Ascii.eqb Bool.eqb is_some_and andb]. by rewrite bool_decide_eq_true_2.
Qed.

End reading.

(** ** Concrete documents *)

#[local] Existing Instance UrlInstance.url_lib.

Definition sb_sample (name : string) (k : ProtocolKind) (c : ProtocolConfig) (a : Authentication)
    (tr : option Transport) (t : option TlsConfig) : Node :=
  mkNode 7 name k c (mkEndpoint (Domain "relay.example") 443) a tr t (mkUdp None None) None None None None
    (mkNodeSource "feed" None 0) [] (mkRegion RegionAuto None) ∅.

Definition sb_sample_tls : TlsConfig := mkTls true (Some "example.com") (Some true) ["h2"] (Some "chrome") [] None.

Definition sb_sample_tuic : Node :=
  sb_sample "a-stls" TuicV5 (CTuicV5 (mkTuicV5 (Some UrmQuic) None (Some 10500000000%Z) None)) (AuthUuidPassword "u" "p") None
    (Some sb_sample_tls).

(** Its wrapper's first tag is the name of the node before it. *)
Definition sb_sample_shadowtls : Node :=
  sb_sample "a" ShadowTls (CShadowTls StV3 (Some "pw") Shadowsocks (CShadowsocks (mkShadowsocks "aes-128-gcm" None None)))
    (AuthPassword "inner") None (Some sb_sample_tls).

Definition sb_sample_key : string := base64_encode STANDARD "0123456789abcdef0123456789abcdef".

Definition sb_sample_wireguard : Node :=
  sb_sample "wg" WireGuard
    (CWireGuard (mkWireGuard sb_sample_key ["10.0.0.2/32"]
       [mkWireGuardPeer sb_sample_key None ["0.0.0.0/0"; "::/0"] (Some (1, 2, 3)%N) (Some 25000000000%Z)]
       (Some 1408%N) None [])) AuthNone None None.

Lemma sb_sample_endpoint : endpoint_ok (mkEndpoint (Domain "relay.example") 443).
Proof. split; [|done]. split; cbn; by split_and!. Qed.

Lemma sb_sample_tls_carried : tls_carried sb_sample_tls.
Proof. by split_and!. Qed.

Lemma sb_sample_tuic_canonical : singbox_canonical sb_sample_tuic.
Proof.
  split; [done|apply sb_sample_endpoint|]. cbn. split_and!; try done. by exists 10500%Z.
Qed.

Lemma sb_sample_shadowtls_canonical : singbox_canonical sb_sample_shadowtls.
Proof. split; [done|apply sb_sample_endpoint|]. cbn. by split_and!. Qed.

Lemma sb_sample_key_ok : key_ok sb_sample_key.
Proof. by exists "0123456789abcdef0123456789abcdef". Qed.

Lemma sb_sample_wireguard_canonical : singbox_canonical sb_sample_wireguard.
Proof.
  split; [done|apply sb_sample_endpoint|]. cbn -[sb_sample_key]. split_and!; try done; try apply sb_sample_key_ok; try (by intros m [= <-]).
  constructor; [|constructor]. split_and!; cbn -[sb_sample_key]; try done; [apply sb_sample_key_ok|..].
  - by intros x y z [= <- <- <-].
  - intros d [= <-]. by exists 25%N.
Qed.

Definition sb_sample_nodes : list Node := [sb_sample_tuic; sb_sample_shadowtls; sb_sample_wireguard].

Definition sb_sample_draw : Draw := λ k, (N.of_nat k, 0%Z).

Lemma singbox_roundtrip_witness :
  ∃ doc nodes', singbox_doc sb_sample_nodes = Ok doc ∧ parse_singbox_value sb_sample_draw doc = Ok nodes' ∧
    Forall2 same_node [sb_sample_tuic; sb_sample_shadowtls; sb_sample_wireguard] nodes'.
Proof.
  apply (singbox_roundtrip sb_sample_draw sb_sample_nodes).
  - unfold sb_sample_nodes. rewrite !Forall_cons.
    exact (conj sb_sample_tuic_canonical (conj sb_sample_shadowtls_canonical (conj sb_sample_wireguard_canonical (Forall_nil_2 _)))).
  - apply (bool_decide_unpack _). vm_compute. exact I.
  - unfold MAX_ENTRIES. change (length (filter _ sb_sample_nodes)) with 1. cbn [length sb_sample_nodes]. lia.
Defined.

Definition sb_sample_doc : Json := match singbox_doc sb_sample_nodes with Ok doc => doc | Err _ => JNull end.

Lemma singbox_document_closed_witness :
  NoDup (tag_of <$> (entries sb_sample_doc "outbounds" ++ entries sb_sample_doc "endpoints")) ∧
  detours_closed (entries sb_sample_doc "outbounds") ∧
  (r ← get sb_sample_doc "route"; get_str r "final") = Some "a-stls" ∧
  Some "a-stls" ∈ tag_of <$> (entries sb_sample_doc "outbounds" ++ entries sb_sample_doc "endpoints").
Proof. apply (singbox_document_closed sb_sample_nodes sb_sample_doc). vm_compute. reflexivity. Defined.

Example sb_sample_tags : tag_of <$> entries sb_sample_doc "outbounds" = [Some "a-stls"; Some "a-stls-2"; Some "a"].
Proof. vm_compute. reflexivity. Qed.

Definition mixed_doc : Json :=
  object [("outbounds", JArray [object [("type", JString "direct")]; JNull;
             object [("type", JString "trojan"); ("tag", JString "t"); ("server", JString "a.example");
                     ("server_port", JNumber "443"); ("password", JString "secret")]]);
          ("endpoints", JArray [JNull])].

Definition mixed_nodes : list Node := match parse_singbox_value sb_sample_draw mixed_doc with Ok ns => ns | Err _ => [] end.


Definition self_detour : Json :=
  object [("type", JString "shadowtls"); ("tag", JString "t"); ("detour", JString "t"); ("password", JString "secret")].

Lemma shadowtls_self_detour_dropped_witness :
  absorbed [self_detour] self_detour ∧ parse_singbox_value sb_sample_draw (object [("outbounds", JArray [self_detour])]) = Ok [].
Proof. exact (shadowtls_self_detour_dropped sb_sample_draw self_detour "t" eq_refl eq_refl eq_refl). Defined.

End SingboxTheorems.
