(* ===== verification/MihomoParse.v ===== *)
(** * The Mihomo (Clash) proxy parser
    ([crates/deve-sub-protocol/src/container/mihomo.rs])

    One node per entry of [proxies].  The YAML reader gives the document as a
    JSON value and is an argument; everything after it is here. *)

From stdpp Require Import pretty.
From S2P Require Import Prelude Kernel Node Text UrlText UriParse SourceParse Containers XrayParse SingboxParse.
Import Text UrlText UriParse SourceParse Containers.

Module MihomoParse.

Definition mihomo_yaml : string := "mihomo-yaml".

(** ** Extractors *)

Section extractors.
Context `{L : UrlLib}.

Definition build_base (entry : Json) : Result ParseError (string * Endpoint) :=
  let name := default "" (get_str entry "name") in
  let? server := ok_or (get_str entry "server") (PMissingField "server") in
  let? port := get_port entry "port" in
  let? port := ok_or port (PMissingField "port") in
  let? host := parse_host server in
  Ok (name, mkEndpoint host port).

Definition extract_reality (entry : Json) : option RealityConfig :=
  (λ ro, mkReality (default "" (get_str ro "public-key")) (default "" (get_str ro "short-id")) None)
  <$> get entry "reality-opts".

Definition extract_tls (entry : Json) : option TlsConfig :=
  let tls_enabled := default false (get_bool entry "tls") in
  let server_name := get_str_alias entry "servername" "sni" in
  let skip_cert_verify := get_bool entry "skip-cert-verify" in
  let alpn := get_str_array entry "alpn" in
  let fingerprint := get_str entry "client-fingerprint" in
  let reality := extract_reality entry in
  if negb tls_enabled && bool_decide (server_name = None) && bool_decide (skip_cert_verify = None)
     && bool_decide (alpn = []) && bool_decide (fingerprint = None) && bool_decide (reality = None)
  then None
  else Some (mkTls (tls_enabled || bool_decide (reality ≠ None)) server_name skip_cert_verify alpn fingerprint [] reality).

Definition network_kind (network : string) : option TransportKind :=
  if String.eqb network "tcp" then Some Tcp
  else if String.eqb network "ws" then Some Ws
  else if String.eqb network "grpc" then Some Grpc
  else if String.eqb network "h2" then Some H2
  else if String.eqb network "kcp" then Some Kcp
  else if String.eqb network "quic" then Some Quic
  else if String.eqb network "httpupgrade" then Some HttpUpgrade
  else if String.eqb network "xhttp" then Some Xhttp
  else None.

(** Never an error in the source either. *)
Definition extract_transport (entry : Json) : option Transport :=
  network ← get_str entry "network";
  kind ← network_kind network;
  let '(path, host, xhttp_mode) :=
    match kind with
    | Ws | HttpUpgrade =>
        let ws_opts := get entry "ws-opts" in
        (w ← ws_opts; get_str w "path", w ← ws_opts; h ← get w "headers"; get_str h "Host", None)
    | Grpc => (g ← get entry "grpc-opts"; get_str g "grpc-service-name", None, None)
    | H2 =>
        let h2_opts := get entry "h2-opts" in
        (h ← h2_opts; get_str h "path", h ← h2_opts; get_str_or_first h "host", None)
    | Xhttp =>
        let xopts := get entry "xhttp-opts" in
        (x ← xopts; get_str x "path", x ← xopts; get_str x "host",
         Some (default XAuto (x ← xopts; m ← get_str x "mode"; xhttp_from_str_lossy m)))
    | _ => (None, None, None)
    end in
  Some (mkTransport kind path host xhttp_mode).

Definition extract_udp (entry : Json) : UdpCapability := mkUdp (get_bool entry "udp") (get_bool entry "xudp").

End extractors.

(** ** Mappers *)

Section mappers.
Context `{L : UrlLib}.
Variable fresh : NodeId * Z.

(** A shell with the fields a mapper sets, the UDP capability among them. *)
Definition mihomo_node (name : string) (kind : ProtocolKind) (cfg : ProtocolConfig) (e : Endpoint)
    (auth : Authentication) (t : option TlsConfig) (tr : option Transport) (u : UdpCapability)
    (obfs : option Obfuscation) (cong : option CongestionConfig) : Node :=
  let shell := node_shell fresh.1 fresh.2 None in
  mkNode (n_id shell) name kind cfg e auth tr t u (multiplex shell) obfs cong (n_chain shell) (source shell)
    (n_tags shell) (region shell) (extras shell).

Definition parse_vless (entry : Json) : Result ParseError Node :=
  let? (name, e) := build_base entry in
  let? uuid := ok_or (get_str entry "uuid") (PMissingField "uuid") in
  Ok (mihomo_node name Vless
        (CVlessReality (mkVlessReality (get_str entry "encryption") (get_str entry "flow") (get_str entry "packet-encoding")))
        e (AuthUuid uuid) (extract_tls entry) (extract_transport entry) (extract_udp entry) None None).

Definition parse_trojan (entry : Json) : Result ParseError Node :=
  let? (name, e) := build_base entry in
  let? password := ok_or (get_str entry "password") (PMissingField "password") in
  let tls := default default_tls_enabled (extract_tls entry) in
  Ok (mihomo_node name Trojan (CTrojan (mkTrojan (get_str entry "packet-encoding"))) e (AuthPassword password)
        (Some tls) (extract_transport entry) (extract_udp entry) None None).

Definition parse_shadowsocks (entry : Json) : Result ParseError Node :=
  let? (name, e) := build_base entry in
  let? password := ok_or (get_str entry "password") (PMissingField "password") in
  let? method := ok_or (get_str entry "cipher") (PMissingField "cipher") in
  Ok (mihomo_node name Shadowsocks (CShadowsocks (mkShadowsocks method (get_str entry "plugin") None)) e
        (AuthPassword password) None None (extract_udp entry) None None).

Definition parse_vmess (entry : Json) : Result ParseError Node :=
  let? (name, e) := build_base entry in
  let? uuid := ok_or (get_str entry "uuid") (PMissingField "uuid") in
  Ok (mihomo_node name VMess
        (CVMess (mkVMess (get_u32 entry "alterId") (get_str entry "cipher") (get_str entry "packet-encoding")))
        e (AuthUuid uuid) (extract_tls entry) (extract_transport entry) (extract_udp entry) None None).

(** [parse_bandwidth(..).ok()] of a string member *)
Definition get_bandwidth (entry : Json) (k : string) : option N :=
  s ← get_str entry k; match parse_bandwidth s with Ok b => Some b | Err _ => None end.

Definition hop_interval_of (entry : Json) : option Z :=
  v ← get entry "hop-interval";
  match v with
  | JString s => match parse_duration_secs s with Ok d => Some d | Err _ => None end
  | JNumber r =>
      secs ← json_number_u64 r;
      if N.leb secs i64_max then Some (Z.of_N secs * 1000000000)%Z else None
  | _ => None
  end.

Definition parse_hysteria2 (entry : Json) : Result ParseError Node :=
  let? (name, e) := build_base entry in
  let? password := ok_or (get_str entry "password") (PMissingField "password") in
  let tls := default default_tls_enabled (extract_tls entry) in
  let obfuscation := (λ kind, mkObfuscation kind (get_str entry "obfs-password")) <$> get_str entry "obfs" in
  let up_bps := get_bandwidth entry "up" in
  let down_bps := get_bandwidth entry "down" in
  let controller := SingboxParse.controller_of <$> get_str entry "congestion-controller" in
  let congestion :=
    match up_bps, down_bps, controller with
    | None, None, None => None
    | _, _, _ => Some (mkCongestion (default Bbr controller) up_bps down_bps)
    end in
  Ok (mihomo_node name Hysteria2
        (CHysteria2 (mkHysteria2 (get_str entry "ports") (hop_interval_of entry) (get_bool entry "fast-open") (get_bool entry "lazy")))
        e (AuthPassword password) (Some tls) None (extract_udp entry) obfuscation congestion).

(** Seconds; past [i64::MAX] the [fallback]. *)
Definition get_seconds (entry : Json) (k : string) (fallback : N) : option Z :=
  (λ secs, (Z.of_N (if N.leb secs i64_max then secs else fallback) * 1000000000)%Z) <$> (v ← get entry k; as_u64 v).

Definition get_bool_alias (v : Json) (a b : string) : option bool :=
  match get_bool v a with Some x => Some x | None => get_bool v b end.

Definition parse_tuic (entry : Json) : Result ParseError Node :=
  let? (name, e) := build_base entry in
  let? uuid := ok_or (get_str entry "uuid") (PMissingField "uuid") in
  let? password := ok_or (get_str entry "password") (PMissingField "password") in
  let tls := default default_tls_enabled (extract_tls entry) in
  let congestion :=
    (λ c, mkCongestion (SingboxParse.controller_of c) None None) <$> get_str entry "congestion-controller" in
  let udp_relay_mode := m ← get_str entry "udp-relay-mode"; SingboxParse.relay_mode_of m in
  Ok (mihomo_node name TuicV5
        (CTuicV5 (mkTuicV5 udp_relay_mode (get_bool_alias entry "zero-rtt-handshake" "reduce-rtt")
           (get_seconds entry "heartbeat" i64_max) (get_bool entry "disable-sni")))
        e (AuthUuidPassword uuid password) (Some tls) None (extract_udp entry) None congestion).

Definition parse_naive (entry : Json) : Result ParseError Node :=
  let? (name, e) := build_base entry in
  let? username := ok_or (get_str entry "username") (PMissingField "username") in
  let? password := ok_or (get_str entry "password") (PMissingField "password") in
  let tls := default default_tls_enabled (extract_tls entry) in
  Ok (mihomo_node name NaiveProxy
        (CNaiveProxy (mkNaive (get_bool entry "quic") (get_bool entry "http2") (get_bool entry "http3")))
        e (AuthUserPassword username password) (Some tls) None (extract_udp entry) None None).

(** [parse_reserved_array] *)
Definition reserved_of (entry : Json) : option (N * N * N) := XrayParse.reserved_of entry.

Definition peer_of (public_key : string) (v : Json) : WireGuardPeer :=
  mkWireGuardPeer public_key (get_str v "pre-shared-key") (get_str_array v "allowed-ips") (reserved_of v)
    (get_seconds v "persistent-keepalive" 0).

Definition parse_wireguard_peer (peer : Json) : Result ParseError WireGuardPeer :=
  let? public_key := ok_or (get_str peer "public-key") (PMissingField "peer public-key") in
  Ok (peer_of public_key peer).

Definition parse_wireguard (entry : Json) : Result ParseError Node :=
  let? (name, e) := build_base entry in
  let? private_key := ok_or (get_str entry "private-key") (PMissingField "private-key") in
  let address := omap (get_str entry) ["ip"; "ipv6"] in
  let? peers :=
    match p ← get entry "peers"; as_array p with
    | Some peers_arr => collect_ok parse_wireguard_peer peers_arr
    | None =>
        match get_str entry "public-key" with
        | Some pub_key => Ok [peer_of pub_key entry]
        | None => Err (PMissingField "public-key or peers")
        end
    end in
  Ok (mihomo_node name WireGuard
        (CWireGuard (mkWireGuard private_key address peers (get_u32 entry "mtu") (get_u32 entry "workers")
           (get_str_array entry "dns")))
        e AuthNone None None (mkUdp (Some true) None) None None).

Definition with_enabled (t : TlsConfig) : TlsConfig :=
  mkTls true (server_name t) (skip_cert_verify t) (alpn t) (client_fingerprint t) (certificate_pins t) (reality t).

Definition parse_anytls (entry : Json) : Result ParseError Node :=
  let? (name, e) := build_base entry in
  let? password := ok_or (get_str entry "password") (PMissingField "password") in
  let tls := with_enabled (default default_tls_enabled (extract_tls entry)) in
  Ok (mihomo_node name AnyTls
        (CAnyTls (mkAnyTls (get_seconds entry "idle-session-check-interval" 0) (get_seconds entry "idle-session-timeout" 0)
           (get_u32 entry "min-idle-session") None))
        e (AuthPassword password) (Some tls) None (extract_udp entry) None None).

Definition snell_mode_of (mode : string) : Result ParseError SnellObfsMode :=
  if String.eqb mode "tls" then Ok ObfsTls
  else if String.eqb mode "http" then Ok ObfsHttp
  else if String.eqb mode "shadow-tls" then Ok ObfsShadowTls
  else if String.eqb mode "restls" then Ok ObfsRestls
  else if String.eqb mode "jls" then Ok ObfsJls
  else Err (PInvalidField "obfs-opts.mode" mode).

Definition parse_snell_obfs (o : Json) : Result ParseError SnellObfs :=
  let? mode_str := ok_or (get_str o "mode") (PMissingField "obfs-opts.mode") in
  let? mode := snell_mode_of mode_str in
  Ok (mkSnellObfs mode (get_str o "host") (get_str o "password") (get_u32 o "version") (get_str_array o "alpn")).

Definition snell_version_of (entry : Json) : Result ParseError SnellVersion :=
  match get entry "version" with
  | None => Ok SnellV1
  | Some v =>
      let? n := ok_or (match as_u64 v with Some n => Some n | None => s ← as_str v; parse_unsigned u64_max s end)
                  (PInvalidField "version" (json_to_string v)) in
      ok_or (snell_from_u32 (u32_or_zero n)) (PInvalidField "version" (pretty n))
  end.

Definition snell_tls (entry : Json) (obfs : option SnellObfs) : option TlsConfig :=
  match obfs with
  | Some (mkSnellObfs ObfsTls host _ _ obfs_alpn) =>
      let t := default default_tls_enabled (extract_tls entry) in
      Some (mkTls true (match server_name t with None => host | some => some end) (skip_cert_verify t)
              (match alpn t with [] => obfs_alpn | l => l end) (client_fingerprint t) (certificate_pins t) (reality t))
  | _ => None
  end.

Definition parse_snell (entry : Json) : Result ParseError Node :=
  let? (name, e) := build_base entry in
  let? psk := ok_or (get_str entry "psk") (PMissingField "psk") in
  let? version := snell_version_of entry in
  let? obfs := traverse parse_snell_obfs (get entry "obfs-opts") in
  Ok (mihomo_node name Snell (CSnell (mkSnell version (get_bool entry "reuse") obfs None)) e (AuthPassword psk)
        (snell_tls entry obfs) None (extract_udp entry) None None).

(** ** ShadowTLS as an obfuscation layer *)

Definition version_of (opts : Json) : option ShadowTlsVersion := v ← get_u32 opts "version"; shadowtls_from_u32 v.

Definition or_else {A} (o : option A) (p : option A) : option A := match o with Some a => Some a | None => p end.

(** Version, password and server name of the layer, from the place the entry
    has it. *)
Definition shadowtls_layer (entry : Json) : option (ShadowTlsVersion * option string * option string) :=
  match get entry "shadow-tls-opts" with
  | Some opts =>
      version ← version_of opts;
      Some (version, get_str opts "password",
            or_else (get_str opts "sni") (get_str_alias entry "sni" "servername"))
  | None =>
      if bool_decide (get_str entry "plugin" = Some "shadow-tls") then
        opts ← get entry "plugin-opts";
        version ← version_of opts;
        Some (version, get_str opts "password", or_else (get_str opts "host") (get_str entry "sni"))
      else
        obfs ← get entry "obfs-opts";
        if bool_decide (get_str obfs "mode" = Some "shadow-tls") then
          version ← version_of obfs;
          Some (version, get_str obfs "password", or_else (get_str obfs "host") (get_str entry "sni"))
        else None
  end.

Definition try_parse_shadowtls_projection (entry : Json) (inner : Node) : option Node :=
  layer ← shadowtls_layer entry;
  let '(version, password, sni) := layer in
  match config inner with
  | CUnsupported _ => None
  | inner_config =>
      let t := default default_tls_enabled (extract_tls entry) in
      let tls := mkTls true (or_else (server_name t) sni) (skip_cert_verify t) (alpn t) (client_fingerprint t)
                   (certificate_pins t) (reality t) in
      Some (mkNode (n_id inner) (display_name inner) ShadowTls
              (CShadowTls version password (protocol inner) inner_config) (endpoint inner) (authentication inner)
              (transport inner) (Some tls) (udp inner) (multiplex inner) (obfuscation inner) (congestion inner)
              (n_chain inner) (source inner) (n_tags inner) (region inner) (extras inner))
  end.

(** ** Dispatch *)

Definition map_proxy (proxy_type : string) (entry : Json) : Result ParseError Node :=
  if String.eqb proxy_type "vless" then parse_vless entry
  else if String.eqb proxy_type "vmess" then parse_vmess entry
  else if String.eqb proxy_type "trojan" then parse_trojan entry
  else if String.eqb proxy_type "ss" then parse_shadowsocks entry
  else if String.eqb proxy_type "hysteria2" || String.eqb proxy_type "hy2" then parse_hysteria2 entry
  else if String.eqb proxy_type "tuic" then parse_tuic entry
  else if String.eqb proxy_type "naive" then parse_naive entry
  else if String.eqb proxy_type "wireguard" then parse_wireguard entry
  else if String.eqb proxy_type "anytls" then parse_anytls entry
  else if String.eqb proxy_type "snell" then parse_snell entry
  else Err (UnsupportedProxyType proxy_type).

Definition parse_proxy_entry (entry : Json) : Node :=
  match get_str entry "type" with
  | None => unsupported fresh entry mihomo_yaml (Unknown "") "missing 'type' field"
  | Some proxy_type =>
      match map_proxy proxy_type entry with
      | Ok node => default node (try_parse_shadowtls_projection entry node)
      | Err e => unsupported fresh entry mihomo_yaml (Unknown proxy_type) (parse_error_display e)
      end
  end.

End mappers.

(** ** Documents *)

Section documents.
Context `{L : UrlLib}.
(** [deve_sub_yaml::parse_source_json], with the error's text *)
Variable parse_source_json : string → Result string Json.
Variable draw : Draw.

(** What [parse_mihomo_yaml] does with the value. *)
Definition parse_mihomo_value (value : Json) : Result ParseError (list Node) :=
  let? v := ok_or (get value "proxies") (MissingContainerKey "proxies") in
  let? proxies := ok_or (as_array v) (MissingContainerKey "proxies (not a list)") in
  let? _ := check_entry_count (length proxies) in
  Ok (imap (λ k e, parse_proxy_entry (draw k) e) proxies).

Definition parse_mihomo_yaml (text : string) : Result ParseError (list Node) :=
  let? value := map_err InvalidYaml (parse_source_json text) in
  parse_mihomo_value value.

End documents.

End MihomoParse.
