(* ===== verification/MihomoEmit.v ===== *)
(** * The Mihomo (Clash Meta) YAML emitter
    ([crates/deve-sub-emitter/src/container/mihomo.rs], [mihomo_template.rs],
    [ir.rs], [mod.rs])

    The document is written line by line: every [push_str] of the source starts
    with the line break that ends the line before it.  The YAML serializer and
    reader of native templates are arguments. *)

From Stdlib Require Import Ascii.
From stdpp Require Import pretty.
From S2P Require Import Prelude Kernel Node Text UrlText GenTypes Assemble UriEmit.
Import Text UrlText UriEmit.

Module MihomoEmit.

Definition LF : string := String "010" "".
Definition DQ : string := String "034" "".

(** ** Double-quoted scalars *)

Definition upper_hex (n : N) : ascii := default Ascii.zero (String.get (N.to_nat n) "0123456789ABCDEF").

(** The escape of U+00XX: [\u] and four digits. *)
Definition escape_00 (b : N) : string :=
  "\u00" +:+ String (upper_hex (b / 16)) (String (upper_hex (b mod 16)) "").

(** The body of [yaml_dq], over the UTF-8 text: the control characters of two
    bytes are C2 80 to C2 9F, the line separators E2 80 A8 and E2 80 A9. *)
Fixpoint dq_body (s : string) : string :=
  match s with
  | EmptyString => ""
  | String c rest =>
      let n := code c in
      if N.eqb n 34 then "\" +:+ DQ +:+ dq_body rest
      else if N.eqb n 92 then "\\" +:+ dq_body rest
      else if N.eqb n 10 then "\n" +:+ dq_body rest
      else if N.eqb n 13 then "\r" +:+ dq_body rest
      else if N.eqb n 9 then "\t" +:+ dq_body rest
      else if N.eqb n 0 then "\0" +:+ dq_body rest
      else if N.ltb n 32 || N.eqb n 127 then escape_00 n +:+ dq_body rest
      else
        match rest with
        | String d rest' =>
            if N.eqb n 194 && in_range 128 159 d then escape_00 (code d) +:+ dq_body rest'
            else
              match rest' with
              | String e rest'' =>
                  if N.eqb n 226 && N.eqb (code d) 128 && in_range 168 169 e
                  then "\u20" +:+ (if N.eqb (code e) 168 then "28" else "29") +:+ dq_body rest''
                  else String c (dq_body rest)
              | EmptyString => String c (dq_body rest)
              end
        | EmptyString => String c ""
        end
  end.

Definition yaml_dq (s : string) : string := DQ +:+ dq_body s +:+ DQ.

(** ** Lines *)

Definition Lines : Type := list string.

Definition top (k v : string) : Lines := ["    " +:+ k +:+ ": " +:+ v].
Definition nested (k v : string) : Lines := ["      " +:+ k +:+ ": " +:+ v].
Definition opt_line {A} (f : A → Lines) (o : option A) : Lines := match o with Some a => f a | None => [] end.
Definition flow_list (l : list string) : string := "[" +:+ join ", " (yaml_dq <$> l) +:+ "]".
Definition list_line (f : string → Lines) (l : list string) : Lines := match l with [] => [] | _ => f (flow_list l) end.
Definition show_bool (b : bool) : string := if b then "true" else "false".
Definition seconds (d : Z) : Z := Z.quot d 1000000000.

(** Whole seconds, left out when negative. *)
Definition seconds_line (f : string → Lines) (d : option Z) : Lines :=
  opt_line (λ d, if Z.leb 0 (seconds d) then f (pretty (seconds d)) else []) d.

Definition yaml_entry (name ptype server : string) (port : N) : Lines :=
  ["  - name: " +:+ yaml_dq name; "    type: " +:+ ptype; "    server: " +:+ yaml_dq server; "    port: " +:+ pretty port].

(** [push_tls] *)
Definition tls_lines (node : Node) : Lines :=
  opt_line (λ t : TlsConfig,
    (if tls_enabled t || bool_decide (reality t ≠ None) then ["    tls: true"] else [])
    ++ opt_line (λ s, top "sni" (yaml_dq s)) (server_name t)
    ++ opt_line (λ b, top "skip-cert-verify" (show_bool b)) (skip_cert_verify t)
    ++ list_line (top "alpn") (alpn t)
    ++ opt_line (λ s, top "client-fingerprint" (yaml_dq s)) (client_fingerprint t)
    ++ opt_line (λ r, ["    reality-opts:"]
         ++ (if is_empty (public_key r) then [] else nested "public-key" (yaml_dq (public_key r)))
         ++ (if is_empty (short_id r) then [] else nested "short-id" (yaml_dq (short_id r)))) (reality t)) (tls node).

Definition headers_lines (host : string) : Lines := ["      headers:"; "        Host: " +:+ yaml_dq host].

(** [push_transport_opts] *)
Definition transport_opts (t : Transport) : Lines :=
  let path := opt_line (λ p, nested "path" (yaml_dq p)) (tr_path t) in
  let given := bool_decide (tr_path t ≠ None) || bool_decide (tr_host t ≠ None) in
  match tr_kind t with
  | Ws => if given then ["    ws-opts:"] ++ path ++ opt_line headers_lines (tr_host t) else []
  | HttpUpgrade =>
      if given then ["    ws-opts:"] ++ path ++ opt_line headers_lines (tr_host t) ++ ["      v2ray-http-upgrade: true"]
      else []
  | Grpc => opt_line (λ p, ["    grpc-opts:"; "      grpc-service-name: " +:+ yaml_dq p]) (tr_path t)
  | H2 =>
      if given then ["    h2-opts:"] ++ path ++ opt_line (λ h, nested "host" (flow_list [h])) (tr_host t) else []
  | Xhttp =>
      let mode := default XAuto (tr_xhttp_mode t) in
      let mode_line := match mode with XAuto => [] | _ => nested "mode" (xhttp_as_str mode) end in
      if given || match mode with XAuto => false | _ => true end
      then ["    xhttp-opts:"] ++ path ++ opt_line (λ h, nested "host" (yaml_dq h)) (tr_host t) ++ mode_line
      else []
  | _ => []
  end.

(** [push_network] *)
Definition network_lines (node : Node) : Lines :=
  opt_line (λ t, top "network" (transport_kind_str (tr_kind t)) ++ transport_opts t) (transport node).

(** ** Entries *)

Definition Entry : Type := Result EmitError Lines.

Section entry.
Variable node : Node.
Let server := uri_host (host (endpoint node)).
Let port := port (endpoint node).
Let name := display_name node.

Definition emit_trojan : Entry :=
  match authentication node with
  | AuthPassword password =>
      Ok (yaml_entry name "trojan" server port ++ top "password" (yaml_dq password)
        ++ match config node with
           | CTrojan cfg => opt_line (λ pe, top "packet-encoding" (yaml_dq pe)) (trojan_packet_encoding cfg)
           | _ => []
           end
        ++ tls_lines node ++ network_lines node)
  | _ => Err (EMissingField "trojan password")
  end.

(** One [k=v] or bare flag of the SIP003 options. *)
Definition plugin_opt (pair : string) : Lines :=
  if is_empty pair then []
  else match split_once "=" pair with
       | Some (k, v) => nested k (if String.eqb v "true" || String.eqb v "false" then v else yaml_dq v)
       | None => nested pair "true"
       end.

Definition plugin_lines (cfg : ShadowsocksConfig) : Lines :=
  opt_line (λ p, top "plugin" (yaml_dq p)
    ++ opt_line (λ opts, ["    plugin-opts:"] ++ concat (plugin_opt <$> split ";" opts)) (ss_plugin_opts cfg)) (ss_plugin cfg).

Definition emit_ss : Entry :=
  match authentication node with
  | AuthPassword password =>
      match config node with
      | CShadowsocks cfg =>
          Ok (yaml_entry name "ss" server port ++ top "cipher" (ss_method cfg) ++ top "password" (yaml_dq password)
            ++ plugin_lines cfg)
      | _ => Err (EMissingField "ss method")
      end
  | _ => Err (EMissingField "ss password")
  end.

Definition emit_vmess : Entry :=
  match authentication node with
  | AuthUuid uuid =>
      Ok (yaml_entry name "vmess" server port ++ top "uuid" (yaml_dq uuid)
        ++ match config node with
           | CVMess cfg =>
               opt_line (λ aid, top "alterId" (pretty aid)) (vmess_alter_id cfg)
               ++ top "cipher" (default "auto" (vmess_security cfg))
               ++ opt_line (λ pe, top "packet-encoding" (yaml_dq pe)) (vmess_packet_encoding cfg)
           | _ => []
           end
        ++ tls_lines node ++ network_lines node)
  | _ => Err (EMissingField "vmess uuid")
  end.

Definition emit_vless : Entry :=
  match authentication node with
  | AuthUuid uuid =>
      Ok (yaml_entry name "vless" server port ++ top "uuid" (yaml_dq uuid)
        ++ match config node with
           | CVlessReality cfg =>
               opt_line (top "flow") (vless_flow cfg)
               ++ opt_line (λ pe, top "packet-encoding" (yaml_dq pe)) (vless_packet_encoding cfg)
           | _ => []
           end
        ++ tls_lines node ++ network_lines node)
  | _ => Err (EMissingField "vless uuid")
  end.

Definition quoted (s : string) : string := DQ +:+ s +:+ DQ.

Definition emit_hysteria2 : Entry :=
  match authentication node with
  | AuthPassword password =>
      match config node with
      | CHysteria2 cfg =>
          Ok (yaml_entry name "hysteria2" server port ++ top "password" (yaml_dq password)
            ++ opt_line (λ g, top "congestion-controller" (controller_name (cc_controller g))
                 ++ opt_line (λ b, top "up" (quoted (format_bandwidth b))) (cc_up_bps g)
                 ++ opt_line (λ b, top "down" (quoted (format_bandwidth b))) (cc_down_bps g)) (congestion node)
            ++ opt_line (λ p, top "ports" (yaml_dq p)) (hy2_ports cfg)
            ++ seconds_line (top "hop-interval") (hy2_hop_interval cfg)
            ++ opt_line (λ o, top "obfs" (obfs_kind o)
                 ++ opt_line (λ p, top "obfs-password" (yaml_dq p)) (obfs_password o)) (obfuscation node)
            ++ opt_line (λ b, top "fast-open" (show_bool b)) (hy2_fast_open cfg)
            ++ opt_line (λ b, top "lazy" (show_bool b)) (hy2_lazy cfg)
            ++ tls_lines node)
      | _ => Err (EMissingField "hysteria2 config")
      end
  | _ => Err (EMissingField "hysteria2 password")
  end.

Definition emit_tuic_v5 : Entry :=
  match authentication node with
  | AuthUuidPassword uuid password =>
      match config node with
      | CTuicV5 cfg =>
          Ok (yaml_entry name "tuic" server port ++ top "uuid" (yaml_dq uuid) ++ top "password" (yaml_dq password)
            ++ opt_line (λ g, top "congestion-controller" (controller_name (cc_controller g))) (congestion node)
            ++ opt_line (λ m, top "udp-relay-mode" (match m with UrmNative => "native" | UrmQuic => "quic" end))
                 (tuic_udp_relay_mode cfg)
            ++ opt_line (λ b, top "reduce-rtt" (show_bool b)) (tuic_zero_rtt_handshake cfg)
            ++ seconds_line (top "heartbeat-interval") (tuic_heartbeat cfg)
            ++ opt_line (λ b, top "disable-sni" (show_bool b)) (tuic_disable_sni cfg)
            ++ tls_lines node)
      | _ => Err (EMissingField "tuic v5 config")
      end
  | _ => Err (EMissingField "tuic v5 uuid+password")
  end.

Definition show_reserved (r : N * N * N) : string :=
  let '(a, b, c) := r in "[" +:+ pretty a +:+ ", " +:+ pretty b +:+ ", " +:+ pretty c +:+ "]".

(** Only the first peer is written. *)
Definition peer_lines (p : WireGuardPeer) : Lines :=
  let deep k v := ["        " +:+ k +:+ ": " +:+ v] in
  ["    peers:"; "      - server: " +:+ yaml_dq server] ++ deep "port" (pretty port)
  ++ deep "public-key" (yaml_dq (wgp_public_key p))
  ++ opt_line (λ k, deep "pre-shared-key" (yaml_dq k)) (wgp_pre_shared_key p)
  ++ list_line (deep "allowed-ips") (wgp_allowed_ips p)
  ++ opt_line (λ r, deep "reserved" (show_reserved r)) (wgp_reserved p)
  ++ seconds_line (deep "persistent-keepalive") (persistent_keepalive p).

Definition emit_wireguard : Entry :=
  match config node with
  | CWireGuard cfg =>
      let v4 := find (λ a, negb (contains ":" a)) (wg_address cfg) in
      let v6 := find (contains ":") (wg_address cfg) in
      Ok (yaml_entry name "wireguard" server port ++ top "private-key" (yaml_dq (wg_private_key cfg))
        ++ opt_line (λ ip, top "ip" (yaml_dq ip)) v4 ++ opt_line (λ ip, top "ipv6" (yaml_dq ip)) v6
        ++ opt_line (λ n, top "mtu" (pretty n)) (wg_mtu cfg) ++ opt_line (λ n, top "workers" (pretty n)) (wg_workers cfg)
        ++ list_line (top "dns") (wg_dns cfg) ++ opt_line peer_lines (head (wg_peers cfg)))
  | _ => Err (EMissingField "wireguard config")
  end.

Definition emit_anytls : Entry :=
  match authentication node with
  | AuthPassword password =>
      match config node with
      | CAnyTls cfg =>
          Ok (yaml_entry name "anytls" server port ++ top "password" (yaml_dq password) ++ tls_lines node
            ++ opt_line (λ d, top "idle-session-check-interval" (pretty (seconds d))) (anytls_idle_session_check_interval cfg)
            ++ opt_line (λ d, top "idle-session-timeout" (pretty (seconds d))) (anytls_idle_session_timeout cfg)
            ++ opt_line (λ n, top "min-idle-session" (pretty n)) (anytls_min_idle_session cfg))
      | _ => Err (EMissingField "anytls config")
      end
  | _ => Err (EMissingField "anytls password")
  end.

Definition snell_unsupported (cfg : SnellConfig) : bool :=
  bool_decide (sn_version cfg = SnellV6) || match extras node !! "snell_userkey" with Some _ => true | None => false end
  || ((bool_decide (sn_version cfg = SnellV1) || bool_decide (sn_version cfg = SnellV2))
      && bool_decide (udp_supported (udp node) = Some true)).

Definition obfs_mode_str (m : SnellObfsMode) : string :=
  match m with
  | ObfsTls => "tls" | ObfsHttp => "http" | ObfsShadowTls => "shadow-tls" | ObfsRestls => "restls" | ObfsJls => "jls"
  end.

Definition obfs_lines (o : SnellObfs) : Lines :=
  ["    obfs-opts:"; "      mode: " +:+ obfs_mode_str (so_mode o)]
  ++ opt_line (λ h, nested "host" (yaml_dq h)) (so_host o) ++ opt_line (λ p, nested "password" (yaml_dq p)) (so_password o)
  ++ opt_line (λ v, nested "version" (pretty v)) (so_version o) ++ list_line (nested "alpn") (so_alpn o).

Definition emit_snell : Entry :=
  match authentication node with
  | AuthPassword psk =>
      match config node with
      | CSnell cfg =>
          if snell_unsupported cfg
          then Err (NoEmitter "Mihomo cannot preserve these Snell version/authentication/UDP settings")
          else
            Ok (yaml_entry name "snell" server port ++ top "psk" (yaml_dq psk)
              ++ top "version" (pretty (snell_as_u32 (sn_version cfg)))
              ++ opt_line (λ b, top "udp" (show_bool b)) (udp_supported (udp node))
              ++ opt_line (λ b, top "reuse" (show_bool b)) (sn_reuse cfg)
              ++ opt_line obfs_lines (sn_obfs cfg)
              ++ match sn_obfs cfg with Some (mkSnellObfs ObfsTls _ _ _ _) => tls_lines node | _ => [] end)
      | _ => Err (EMissingField "snell config")
      end
  | _ => Err (EMissingField "snell psk")
  end.

(** Every protocol but ShadowTLS. *)
Definition emit_single : Entry :=
  match protocol node with
  | Trojan => emit_trojan
  | Shadowsocks => emit_ss
  | VMess => emit_vmess
  | Vless => emit_vless
  | Hysteria2 => emit_hysteria2
  | TuicV5 => emit_tuic_v5
  | WireGuard => emit_wireguard
  | AnyTls => emit_anytls
  | Snell => emit_snell
  | other => Err (NoEmitter ("mihomo: unsupported protocol " +:+ protocol_display other))
  end.

End entry.

(** ** ShadowTLS *)

(** The inner node: no TLS of its own, and no Snell camouflage. *)
Definition inner_node (node : Node) (inner_protocol : ProtocolKind) (inner_config : ProtocolConfig) : Node :=
  mkNode (n_id node) (display_name node) inner_protocol
    (match inner_config with
     | CSnell c => CSnell (mkSnell (sn_version c) (sn_reuse c) None (sn_v6_mode c))
     | c => c
     end)
    (endpoint node) (authentication node) (transport node) None (udp node) (multiplex node) (obfuscation node)
    (congestion node) (n_chain node) (source node) (n_tags node) (region node) (extras node).

(** The layer's lines under the key of the inner protocol. *)
Definition layer_lines (version : ShadowTlsVersion) (password : option string) (sni_key : string) (node : Node) : Lines :=
  nested "version" (pretty (shadowtls_as_u32 version)) ++ opt_line (λ p, nested "password" (yaml_dq p)) password
  ++ opt_line (λ s, nested sni_key (yaml_dq s)) (t ← tls node; server_name t).

(** [emit_shadowtls], on the configuration of the node; a ShadowTLS node may
    hold another as its inner one. *)
Fixpoint emit_shadowtls (cfg : ProtocolConfig) (node : Node) : Entry :=
  match cfg with
  | CShadowTls version password inner_protocol inner_config =>
      let inner := inner_node node inner_protocol inner_config in
      let? entry := match inner_protocol with ShadowTls => emit_shadowtls inner_config inner | _ => emit_single inner end in
      match inner_protocol with
      | Shadowsocks =>
          Ok (entry ++ ["    plugin: shadow-tls"; "    plugin-opts:"] ++ layer_lines version password "host" node)
      | Snell => Ok (entry ++ ["    obfs-opts:"; "      mode: shadow-tls"] ++ layer_lines version password "host" node)
      | Vless | Trojan | VMess | AnyTls =>
          Ok (entry ++ ["    shadow-tls-opts:"] ++ layer_lines version password "sni" node ++ tls_lines node)
      | other => Err (NoEmitter ("mihomo shadowtls: inner protocol " +:+ protocol_display other +:+ " not supported"))
      end
  | _ => Err (EMissingField "shadowtls config")
  end.

Definition emit_proxy (node : Node) : Entry :=
  match protocol node with ShadowTls => emit_shadowtls (config node) node | _ => emit_single node end.

(** ** Documents *)

Definition proxies_lines (nodes : list Node) : Result EmitError Lines :=
  let? entries := collect_ok emit_proxy nodes in Ok ("proxies:" :: concat entries).

(** [emit] *)
Definition emit_mihomo (nodes : list Node) : Result EmitError string :=
  let? ls := proxies_lines nodes in Ok (join LF ls).

End MihomoEmit.
