(* ===== verification/MihomoTheorems.v ===== *)
(** * Mihomo documents: quoting, entries and what is lost

    [MihomoQuote]: a reader of double-quoted scalars, and that it reads back what
    the emitter quotes.  [MihomoTheorems]: the entries of a document. *)

(** * Double-quoted YAML scalars read back

    A reader of double-quoted scalars with the escapes of YAML 1.2, strict on
    what must not stand unescaped, and that [yaml_dq] is read as the text it
    quotes, whatever bytes that has and whatever follows. *)

From Stdlib Require Import Ascii.
From S2P Require Import Prelude Kernel Node Text Ip UrlText MihomoEmit.
Import Text Ip UrlText MihomoEmit.

Module MihomoQuote.

(** ** The reader *)

Definition hex_value (c : ascii) : option N :=
  if in_range 48 57 c then Some (code c - 48)%N
  else if in_range 65 70 c then Some (code c - 55)%N
  else if in_range 97 102 c then Some (code c - 87)%N
  else None.

(** UTF-8 of a code point below U+10000 that is not a surrogate. *)
Definition utf8_of (cp : N) : option string :=
  if N.ltb cp 128 then Some (bytes [cp])
  else if N.ltb cp 2048 then Some (bytes [192 + cp / 64; 128 + cp mod 64]%N)
  else if N.leb 55296 cp && N.leb cp 57343 then None
  else Some (bytes [224 + cp / 4096; 128 + cp / 64 mod 64; 128 + cp mod 64]%N).

Definition hex4 (a b c d : ascii) : option N :=
  a ← hex_value a; b ← hex_value b; c ← hex_value c; d ← hex_value d; Some (((a * 16 + b) * 16 + c) * 16 + d)%N.

(** The one-character escapes. *)
Definition simple_escape (e : ascii) : option string :=
  match code e with
  | 48 => Some (bytes [0]) | 97 => Some (bytes [7]) | 98 => Some (bytes [8])
  | 116 | 9 => Some (bytes [9]) | 110 => Some (bytes [10]) | 118 => Some (bytes [11])
  | 102 => Some (bytes [12]) | 114 => Some (bytes [13]) | 101 => Some (bytes [27])
  | 32 => Some " " | 34 => Some (bytes [34]) | 47 => Some "/" | 92 => Some "\"
  | 78 => Some (bytes [194; 133]) | 95 => Some (bytes [194; 160])
  | 76 => Some (bytes [226; 128; 168]) | 80 => Some (bytes [226; 128; 169])
  | _ => None
  end%N.

(** A control character or a line separator that must be escaped. *)
Definition unprintable (c : ascii) (rest : string) : bool :=
  N.ltb (code c) 32 || N.eqb (code c) 127
  || match rest with
     | String d rest' =>
         (N.eqb (code c) 194 && in_range 128 159 d)
         || match rest' with
            | String e _ => N.eqb (code c) 226 && N.eqb (code d) 128 && in_range 168 169 e
            | EmptyString => false
            end
     | EmptyString => false
     end.

Definition prepend (a : string) (o : option (string * string)) : option (string * string) :=
  '(s, rest) ← o; Some (a +:+ s, rest).

(** The scalar's text and what follows the closing quote. *)
Fixpoint read_dq_body (s : string) : option (string * string) :=
  match s with
  | EmptyString => None
  | String c rest =>
      if N.eqb (code c) 34 then Some ("", rest)
      else if N.eqb (code c) 92 then
        match rest with
        | String "u" (String h1 (String h2 (String h3 (String h4 rest')))) =>
            cp ← hex4 h1 h2 h3 h4; t ← utf8_of cp; prepend t (read_dq_body rest')
        | String e rest' => t ← simple_escape e; prepend t (read_dq_body rest')
        | EmptyString => None
        end
      else if unprintable c rest then None
      else prepend (String c "") (read_dq_body rest)
  end.

Definition read_dq (s : string) : option (string * string) :=
  match s with String c rest => if N.eqb (code c) 34 then read_dq_body rest else None | EmptyString => None end.

(** ** What [dq_body] writes *)

(** The ways [dq_body] takes the text apart. *)
Inductive quoted : string → string → Prop :=
  | QNil : quoted "" ""
  | QEscape e t s q : simple_escape e = Some t → e ≠ "u"%char → quoted s q → quoted (t +:+ s) ("\" +:+ String e q)
  | QHex h1 h2 h3 h4 cp t s q :
      hex4 h1 h2 h3 h4 = Some cp → utf8_of cp = Some t → quoted s q →
      quoted (t +:+ s) ("\u" +:+ String h1 (String h2 (String h3 (String h4 q))))
  | QRaw c s q :
      N.eqb (code c) 34 = false → N.eqb (code c) 92 = false → unprintable c (q +:+ DQ) = false → quoted s q →
      quoted (String c s) (String c q).

Lemma quoted_reads s q rest : quoted s q → read_dq_body (q +:+ DQ +:+ rest) = Some (s, rest).
Proof.
  induction 1 as [|e t s q Ht Hu _ IH|h1 h2 h3 h4 cp t s q Hc Ht _ IH|c s q H1 H2 H3 _ IH].
  - done.
  - change ((_ +:+ String e q) +:+ DQ +:+ rest) with (String "\" (String e (q +:+ DQ +:+ rest))).
    cbn [read_dq_body]. change (N.eqb (code "\") 34) with false. change (N.eqb (code "\") 92) with true.
    cbv iota. transitivity (t ← simple_escape e; prepend t (read_dq_body (q +:+ DQ +:+ rest))).
    + destruct (q +:+ DQ +:+ rest) as [|? [|? [|? [|? ?]]]]; destruct e as [[] [] [] [] [] [] [] []]; try reflexivity; done.
    + rewrite Ht, IH. done.
  - change (("\u" +:+ String h1 (String h2 (String h3 (String h4 q)))) +:+ DQ +:+ rest)
      with (String "\" (String "u" (String h1 (String h2 (String h3 (String h4 (q +:+ DQ +:+ rest))))))).
    cbn [read_dq_body]. change (N.eqb (code "\") 34) with false. change (N.eqb (code "\") 92) with true. cbv iota.
    rewrite Hc. cbn [mbind option_bind]. rewrite Ht, IH. done.
  - change (String c q +:+ DQ +:+ rest) with (String c (q +:+ DQ +:+ rest)). cbn [read_dq_body]. rewrite H1, H2.
    assert (unprintable c (q +:+ DQ +:+ rest) = false) as ->.
    { revert H3. unfold unprintable. destruct q as [|d [|e q]]; simpl; try done.
      - destruct rest; simpl; [done|]. intros H3. rewrite !orb_false_r in H3. apply orb_false_iff in H3 as [-> _].
        rewrite !orb_false_l. by rewrite !andb_false_r.  }
    by rewrite IH.
Qed.

(** A character is escaped, alone or with the bytes of its encoding, or kept. *)
Inductive step (c : ascii) (rest : string) : Prop :=
  | SEscape e t rest' :
      simple_escape e = Some t → e ≠ "u"%char → String c rest = t +:+ rest' →
      dq_body (String c rest) = "\" +:+ String e (dq_body rest') → step c rest
  | SHex h1 h2 h3 h4 cp t rest' :
      hex4 h1 h2 h3 h4 = Some cp → utf8_of cp = Some t → String c rest = t +:+ rest' → t ≠ "" →
      dq_body (String c rest) = "\u" +:+ String h1 (String h2 (String h3 (String h4 (dq_body rest')))) → step c rest
  | SRaw :
      N.eqb (code c) 34 = false → N.eqb (code c) 92 = false → unprintable c rest = false →
      dq_body (String c rest) = String c (dq_body rest) → step c rest.

Lemma code_inj c n : N.eqb (code c) n = true → c = ascii_of_N n.
Proof. intros H%N.eqb_eq. unfold code in H. rewrite <- H. by rewrite ascii_N_embedding. Qed.

(** The escape of U+00XX reads as the character. *)
Definition escape_reads (c : ascii) (t : string) : bool :=
  bool_decide (hex4 "0" "0" (upper_hex (code c / 16)) (upper_hex (code c mod 16)) = Some (code c))
  && bool_decide (utf8_of (code c) = Some t).

Lemma escape_one c : N.ltb (code c) 32 || N.eqb (code c) 127 = true → escape_reads c (String c "") = true.
Proof. by_ascii c. Qed.

Lemma escape_two c : in_range 128 159 c = true → escape_reads c (String (ascii_of_N 194) (String c "")) = true.
Proof. by_ascii c. Qed.

Ltac escaped e t := by eapply (SEscape _ _ e t).

(** Decide the tests of [dq_body] and [unprintable] from the context. *)
Ltac decided :=
  cbn [dq_body unprintable]; unfold unprintable;
  repeat match goal with H : ?b = _ |- context [?b] => rewrite H end; done.

Lemma dq_step c rest : step c rest.
Proof.
  destruct (N.eqb (code c) 34) eqn:E1; [rewrite (code_inj _ _ E1); escaped (ascii_of_N 34) (bytes [34%N])|].
  destruct (N.eqb (code c) 92) eqn:E2; [rewrite (code_inj _ _ E2); escaped "\"%char "\"|].
  destruct (N.eqb (code c) 10) eqn:E3; [rewrite (code_inj _ _ E3); escaped "n"%char (bytes [10%N])|].
  destruct (N.eqb (code c) 13) eqn:E4; [rewrite (code_inj _ _ E4); escaped "r"%char (bytes [13%N])|].
  destruct (N.eqb (code c) 9) eqn:E5; [rewrite (code_inj _ _ E5); escaped "t"%char (bytes [9%N])|].
  destruct (N.eqb (code c) 0) eqn:E6; [rewrite (code_inj _ _ E6); escaped "0"%char (bytes [0%N])|].
  destruct (N.ltb (code c) 32 || N.eqb (code c) 127) eqn:E7.
  { destruct (andb_prop _ _ (escape_one c E7)) as [Hh%bool_decide_eq_true Hu%bool_decide_eq_true].
    apply (SHex _ _ _ _ _ _ _ _ rest Hh Hu); [done|done|decided]. }
  destruct rest as [|d rest]; [apply SRaw; decided|].
  destruct (N.eqb (code c) 194 && in_range 128 159 d) eqn:E8.
  { apply andb_prop in E8 as [->%code_inj Hd]. 
    destruct (andb_prop _ _ (escape_two d Hd)) as [Hh%bool_decide_eq_true Hu%bool_decide_eq_true].
    apply (SHex _ _ _ _ _ _ _ _ rest Hh Hu); [done|done|decided]. }
  destruct rest as [|e rest]; [apply SRaw; decided|].
  destruct (N.eqb (code c) 226 && N.eqb (code d) 128 && in_range 168 169 e) eqn:E9.
  2:{ apply SRaw; decided. }
  apply andb_prop in E9 as [[->%code_inj ->%code_inj]%andb_prop He].
  destruct (N.eqb (code e) 168) eqn:E10.
  - rewrite (code_inj _ _ E10). by apply (SHex _ _ "2" "0" "2" "8" 8232 (bytes [226; 128; 168]%N) rest).
  - assert (N.eqb (code e) 169 = true) as ->%code_inj
      by (apply andb_prop in He as [H1%N.leb_le H2%N.leb_le]; apply N.eqb_neq in E10; apply N.eqb_eq; lia).
    by apply (SHex _ _ "2" "0" "2" "9" 8233 (bytes [226; 128; 169]%N) rest).
Qed.

(** What is kept is not made part of a line separator by what follows. *)
Lemma unprintable_kept c rest : unprintable c rest = false → unprintable c (dq_body rest +:+ DQ) = false.
Proof.
  unfold unprintable. intros [H1 H2]%orb_false_iff. rewrite H1, orb_false_l.
  destruct rest as [|d rest]; [simpl; by rewrite andb_false_r|]. apply orb_false_iff in H2 as [H2 H3].
  destruct (dq_step d rest) as [e t rest' _ _ _ ->|? ? ? ? ? ? ? _ _ _ _ ->|_ _ _ ->];
    [simpl; by rewrite !andb_false_r; destruct (dq_body rest')|simpl; by rewrite !andb_false_r|].
  change (String d (dq_body rest) +:+ DQ) with (String d (dq_body rest +:+ DQ)). cbv beta iota. rewrite H2, orb_false_l.
  destruct rest as [|e rest]; [simpl; by rewrite andb_false_r|].
  destruct (dq_step e rest) as [? ? ? _ _ _ ->|? ? ? ? ? ? ? _ _ _ _ ->|_ _ _ ->];
    [simpl; by rewrite andb_false_r|simpl; by rewrite andb_false_r|exact H3].
Qed.

Lemma dq_quoted s : quoted s (dq_body s).
Proof.
  assert (∀ n s, String.length s ≤ n → quoted s (dq_body s)) as H; [|by apply (H (String.length s))].
  clear s. induction n as [|n IH]; intros [|c rest] Hn; simpl in Hn; try lia; try constructor.
  assert (Hl : ∀ t rest', String c rest = t +:+ rest' → t ≠ "" → String.length rest' ≤ n).
  { intros t rest' E Ht. apply (f_equal String.length) in E. rewrite string_length_app in E.
    destruct t; simpl in E; [done|lia]. }
  destruct (dq_step c rest) as [e t rest' Ht Hu E ->|h1 h2 h3 h4 cp t rest' Hh Ht E Hne ->|H1 H2 H3 ->].
  - rewrite E. apply QEscape; [done|done|]. apply IH, (Hl t); [done|]. by intros ->; destruct e as [[] [] [] [] [] [] [] []].
  - rewrite E. eapply QHex; [done|done|]. by eapply IH, Hl.
  - apply QRaw; [done|done|by apply unprintable_kept|]. apply IH. lia.
Qed.

(** [yaml_dq] reads back, whatever follows it. *)
Lemma read_dq_yaml_dq s rest : read_dq (yaml_dq s +:+ rest) = Some (s, rest).
Proof.
  unfold yaml_dq. rewrite !string_app_assoc.
  change (DQ +:+ dq_body s +:+ DQ +:+ rest) with (String (ascii_of_N 34) (dq_body s +:+ DQ +:+ rest)). apply (quoted_reads s (dq_body s)), dq_quoted.
Qed.

Lemma read_dq_whole s : read_dq (yaml_dq s) = Some (s, "").
Proof. pose proof (read_dq_yaml_dq s "") as H. by rewrite string_app_nil_r in H. Qed.

(** ** No line ends inside a quoted scalar *)

Lemma lacks_cons c d s : lacks c (String d s) ↔ c ≠ d ∧ lacks c s.
Proof. unfold lacks. cbn [all_chars]. by rewrite andb_true_iff, negb_true_iff, Ascii.eqb_neq. Qed.

Lemma hex_not_lf h n : hex_value h = Some n → "010"%char ≠ h.
Proof. by intros H <-. Qed.

Lemma quoted_lacks s q : quoted s q → lacks "010" q.
Proof.
  induction 1 as [|e t s q Ht Hu _ IH|h1 h2 h3 h4 cp t s q Hc Ht _ IH|c s q H1 H2 H3 _ IH]; [done|..].
  - change (lacks "010" (String "\" (String e q))). rewrite !lacks_cons. split_and!; [done| |done]. by intros <-.
  - change (lacks "010" (String "\" (String "u" (String h1 (String h2 (String h3 (String h4 q))))))).
    rewrite !lacks_cons. unfold hex4 in Hc. simplify_option_eq. split_and!; eauto using hex_not_lf.
  - rewrite lacks_cons. split; [|done]. by intros <-.
Qed.

Lemma yaml_dq_lacks s : lacks "010" (yaml_dq s).
Proof.
  unfold yaml_dq. rewrite !lacks_app. split_and!; [done| |done]. eapply quoted_lacks, dq_quoted.
Qed.

End MihomoQuote.

(** * Mihomo documents: what they keep and what they admit

    Every entry of a parsed document gives a node; the emitted document has one
    entry per node and nothing else, as long as the few texts the emitter does
    not quote have no line break; what follows when they have one, and when a
    proxy names a server without [tls: true]. *)

From Stdlib Require Import Ascii.
From stdpp Require Import pretty.
From S2P Require Import Prelude Kernel Node Text UrlText UrlInstance UriParse UriEmit UriRoundtrip UriProtocols SourceParse Containers XrayParse XrayEmit XrayTheorems MihomoParse MihomoEmit.
Import Text UrlText UriParse UriEmit SourceParse Containers MihomoEmit MihomoQuote.

Module MihomoTheorems.

(** ** Lines of an entry *)

Definition LFc : ascii := "010".

(** A line inside an entry. *)
Definition continuation (s : string) : Prop := starts_with "    " s = true ∧ lacks LFc s.
Definition body (ls : Lines) : Prop := Forall continuation ls.

Lemma digits_lack s : all_chars (in_range 48 57) s = true → lacks LFc s.
Proof. unfold lacks. apply all_chars_impl. intros c. by_ascii c. Qed.

Lemma pretty_N_lacks (n : N) : lacks LFc (pretty n).
Proof. apply digits_lack, pretty_digits. Qed.

Lemma pretty_Z_lacks (z : Z) : lacks LFc (pretty z).
Proof.
  destruct z as [|p|p]; [done|apply (pretty_N_lacks (Npos p))|].
  change (lacks LFc ("-" +:+ pretty (Npos p))). apply lacks_app. split; [done|apply pretty_N_lacks].
Qed.

Lemma join_lacks c sep l : lacks c sep → Forall (lacks c) l → lacks c (join sep l).
Proof.
  intros Hs H. induction H as [|a l Ha Hl IH]; [done|]. destruct l as [|b l]; [done|].
  rewrite join_cons, !lacks_app. done.
Qed.

Lemma flow_list_lacks l : lacks LFc (flow_list l).
Proof.
  unfold flow_list. rewrite !lacks_app. split_and!; [done| |done]. apply join_lacks; [done|].
  apply Forall_fmap, Forall_true. intros s. apply yaml_dq_lacks.
Qed.

Lemma show_bool_lacks b : lacks LFc (show_bool b).
Proof. by destruct b. Qed.

Lemma bandwidth_lacks b : lacks LFc (UriEmit.format_bandwidth b).
Proof.
  unfold UriEmit.format_bandwidth.
  repeat case_match; apply lacks_app; (split; [apply pretty_N_lacks|done]).
Qed.

Lemma quoted_text_lacks s : lacks LFc s → lacks LFc (MihomoEmit.quoted s).
Proof. intros H. unfold MihomoEmit.quoted. rewrite !lacks_app. done. Qed.

Lemma show_reserved_lacks r : lacks LFc (MihomoEmit.show_reserved r).
Proof.
  destruct r as [[a b] c]. unfold MihomoEmit.show_reserved.
  rewrite !lacks_app. split_and!; try done; apply pretty_N_lacks.
Qed.

Lemma continuation_line p s : starts_with "    " p = true → lacks LFc p → lacks LFc s → continuation (p +:+ s).
Proof.
  intros Hp Hl Hs. split; [|by apply lacks_app].
  destruct p as [|a [|b [|c [|d p]]]]; unfold starts_with in *; cbn [strip_prefix] in Hp;
    repeat (case_match; try done).
  rewrite !Ascii.eqb_eq in *. subst. done.
Qed.

Lemma body_nil : body [].
Proof. constructor. Qed.

Lemma body_app a b : body a → body b → body (a ++ b).
Proof. intros. by apply Forall_app. Qed.

Lemma body_cons a l : continuation a → body l → body (a :: l).
Proof. by constructor. Qed.

Lemma body_opt {A} (f : A → Lines) o : (∀ a, o = Some a → body (f a)) → body (opt_line f o).
Proof. destruct o; simpl; eauto using body_nil. Qed.

Lemma body_list f l : (∀ s, lacks LFc s → body (f s)) → body (list_line f l).
Proof. intros H. destruct l; [apply body_nil|]. apply H, flow_list_lacks. Qed.

Lemma body_seconds f d : (∀ s, lacks LFc s → body (f s)) → body (seconds_line f d).
Proof. intros H. apply body_opt. intros z _. case_match; [|apply body_nil]. apply H, pretty_Z_lacks. Qed.

Lemma body_top k v : lacks LFc k → lacks LFc v → body (top k v).
Proof.
  intros Hk Hv. apply body_cons; [|apply body_nil]. apply continuation_line; [done..|].
  rewrite !lacks_app. done.
Qed.

Lemma body_nested k v : lacks LFc k → lacks LFc v → body (nested k v).
Proof.
  intros Hk Hv. apply body_cons; [|apply body_nil]. apply (continuation_line "      "); [done..|].
  rewrite !lacks_app. done.
Qed.

Create HintDb lines.
#[export] Hint Resolve yaml_dq_lacks pretty_N_lacks pretty_Z_lacks flow_list_lacks show_bool_lacks bandwidth_lacks
  quoted_text_lacks show_reserved_lacks body_nil body_app body_cons body_top body_nested : lines.
#[export] Hint Extern 1 (lacks _ _) => reflexivity : lines.
#[export] Hint Extern 1 (continuation _) => (split; reflexivity) : lines.

(** A block of lines is one when every piece of it is. *)
Ltac bodies :=
  repeat match goal with
  | |- body (_ ++ _) => apply body_app
  | |- body (opt_line _ _) => apply body_opt; intros ? ?
  | |- body (list_line _ _) => apply body_list; intros ? ?
  | |- body (seconds_line _ _) => apply body_seconds; intros ? ?
  | |- body (if ?b then _ else _) => destruct b
  | |- body [] => apply body_nil
  | |- body (_ :: _) => apply body_cons
  | |- continuation (String.append _ _) => apply continuation_line; [reflexivity|reflexivity|]
  | |- lacks _ (String.append _ _) => apply lacks_app; split
  end; eauto with lines.

Lemma tls_body n : body (tls_lines n).
Proof. unfold tls_lines. bodies. Qed.

Lemma xhttp_lacks m : lacks LFc (xhttp_as_str m).
Proof. by destruct m. Qed.

Lemma kind_lacks k : lacks LFc (UriEmit.transport_kind_str k).
Proof. by destruct k. Qed.

#[local] Hint Resolve tls_body xhttp_lacks kind_lacks : lines.

Lemma network_body n : body (network_lines n).
Proof.
  unfold network_lines. bodies. unfold transport_opts, headers_lines. destruct (tr_kind _); bodies.
  destruct (default XAuto _); bodies.
Qed.
#[local] Hint Resolve network_body : lines.

(** ** Entries *)

Definition opt_lacks (o : option string) : Prop := match o with Some s => lacks LFc s | None => True end.

(** The texts written without quotes have no line break. *)
Fixpoint config_plain (c : ProtocolConfig) : Prop :=
  match c with
  | CShadowsocks cfg => lacks LFc (ss_method cfg) ∧ opt_lacks (ss_plugin_opts cfg)
  | CVMess cfg => opt_lacks (vmess_security cfg)
  | CVlessReality cfg => opt_lacks (vless_flow cfg)
  | CShadowTls _ _ _ inner => config_plain inner
  | _ => True
  end.

Record unquoted_plain (n : Node) : Prop := {
  up_config : config_plain (config n);
  up_obfs : match obfuscation n with Some o => lacks LFc (obfs_kind o) | None => True end;
  up_controller : match congestion n with Some g => lacks LFc (controller_name (cc_controller g)) | None => True end
}.

(** One entry of [proxies]: the line that starts it has the node's name. *)
Definition name_line (n : Node) : string := "  - name: " +:+ yaml_dq (display_name n).
Definition entry_of (n : Node) (ls : Lines) : Prop := ∃ rest, ls = name_line n :: rest ∧ body rest.

Lemma entry_intro n kind server p rest :
  lacks LFc kind → body rest → entry_of n (yaml_entry (display_name n) kind server p ++ rest).
Proof.
  intros Hk Hr. eexists. split; [reflexivity|]. simpl. fold (body rest).
  repeat (apply body_cons; [apply continuation_line; [reflexivity|reflexivity|]; eauto with lines|]). done.
Qed.

Lemma split_pieces_lack c d s : lacks c s → Forall (lacks c) (split d s).
Proof.
  induction s as [|x s IH]; [by repeat constructor|]. rewrite lacks_cons. intros [Hx Hs]. cbn [split].
  specialize (IH Hs). destruct (Ascii.eqb d x); [by constructor|].
  destruct IH as [|y ys Hy Hys]; constructor; try done; rewrite lacks_cons; done.
Qed.

Lemma split_once_lack c d s a b : lacks c s → split_once d s = Some (a, b) → lacks c a ∧ lacks c b.
Proof.
  revert a b. induction s as [|x s IH]; intros a b; [done|]. rewrite lacks_cons. intros [Hx Hs]. cbn [split_once].
  destruct (Ascii.eqb d x); [by intros [= <- <-]|]. destruct (split_once d s) as [[a' b']|]; [|done].
  intros [= <- <-]. destruct (IH a' b') as [Ha Hb]; [done|done|]. by rewrite lacks_cons.
Qed.

Lemma plugin_body cfg : opt_lacks (ss_plugin_opts cfg) → body (plugin_lines cfg).
Proof.
  intros H. unfold plugin_lines. bodies.
  match goal with E : ss_plugin_opts cfg = Some _ |- _ => rewrite E in H end.
  apply Forall_concat, Forall_fmap. eapply Forall_impl; [eapply split_pieces_lack, H|].
  intros pair Hpair. unfold plugin_opt. simpl. case_match; [apply body_nil|].
  destruct (split_once "=" pair) as [[k v]|] eqn:E; [|by apply body_nested].
  eapply split_once_lack in E as [Hk Hv]; [|exact Hpair]. apply body_nested; [done|]. case_match; [done|apply yaml_dq_lacks].
Qed.

Lemma opt_lacks_Some o a : opt_lacks o → o = Some a → lacks LFc a.
Proof. by intros H ->. Qed.

Lemma opt_lacks_default o d : opt_lacks o → lacks LFc d → lacks LFc (default d o).
Proof. by destruct o. Qed.

Lemma peer_body n p : body (peer_lines n p).
Proof. unfold peer_lines. bodies. Qed.

Lemma obfs_body o : body (obfs_lines o).
Proof. unfold obfs_lines. bodies. apply (continuation_line "      mode: "); [done..|]. by destruct (so_mode o). Qed.

Lemma relay_lacks m : lacks LFc (match m with UrmNative => "native" | UrmQuic => "quic" end).
Proof. by destruct m. Qed.

Lemma snell_tls_body n o : body (match o with Some (mkSnellObfs ObfsTls _ _ _ _) => tls_lines n | _ => [] end).
Proof. destruct o as [[[] ? ? ? ?]|]; eauto with lines. Qed.

#[local] Hint Resolve opt_lacks_Some opt_lacks_default peer_body obfs_body relay_lacks snell_tls_body plugin_body : lines.

(** An unquoted text of the node. *)
Ltac unquoted :=
  match goal with
  | E : ?o = Some ?a, H : match ?o with Some _ => _ | None => True end |- _ => rewrite E in H; by apply body_top
  end.

Lemma single_entry n ls : unquoted_plain n → emit_single n = Ok ls → entry_of n ls.
Proof.
  intros [Hc Ho Hg] He. unfold emit_single in He.
  destruct (protocol n); try done;
    unfold emit_trojan, emit_ss, emit_vmess, emit_vless, emit_hysteria2, emit_tuic_v5, emit_wireguard, emit_anytls, emit_snell in He;
    destruct (authentication n); try done; destruct (config n); try done; simpl in Hc;
    try (destruct (snell_unsupported _ _); [done|]); apply Ok_inj in He as <-; (apply entry_intro; [done|]);
    try destruct Hc; bodies; unquoted.
Qed.

Lemma entry_app n ls more : entry_of n ls → body more → entry_of n (ls ++ more).
Proof. intros (rest & -> & Hr) Hm. exists (rest ++ more). split; [done|by apply body_app]. Qed.

Lemma layer_body version password k n : lacks LFc k → body (layer_lines version password k n).
Proof. intros Hk. unfold layer_lines. bodies. Qed.

Lemma inner_plain n k c : config_plain c → unquoted_plain n → unquoted_plain (inner_node n k c).
Proof. intros Hc [_ Ho Hg]. split; [|done|done]. by destruct c. Qed.

Lemma shadowtls_entry cfg : ∀ n ls,
  config_plain cfg → unquoted_plain n → emit_shadowtls cfg n = Ok ls → entry_of n ls.
Proof.
  induction cfg as [| | | | | | | | | |version password k c IH|]; intros n ls Hc Hn He; try done.
  cbn [emit_shadowtls] in He. apply result_bind_Ok in He as (entry & He & Hls).
  assert (Hin : entry_of n entry).
  { change (entry_of (inner_node n k c) entry). pose proof (inner_plain n k c Hc Hn) as Hi.
    destruct k; eauto using single_entry. }
  destruct k; try done; apply Ok_inj in Hls as <-; (apply entry_app; [done|]); bodies; by apply layer_body.
Qed.

Lemma proxy_entry n ls : unquoted_plain n → emit_proxy n = Ok ls → entry_of n ls.
Proof.
  intros Hn He. unfold emit_proxy in He.
  destruct (protocol n) eqn:Ep; try (by apply single_entry). apply shadowtls_entry in He; [done|by apply up_config|done].
Qed.

(** ** Documents *)

Lemma proxies_entries nodes ls :
  proxies_lines nodes = Ok ls → Forall unquoted_plain nodes →
  ∃ entries, ls = "proxies:" :: concat entries ∧ Forall2 entry_of nodes entries.
Proof.
  intros Hls Hp. apply result_bind_Ok in Hls as (entries & Hes & Hls). apply Ok_inj in Hls as <-.
  apply collect_ok_Forall2 in Hes. exists entries. split; [done|]. clear -Hes Hp.
  induction Hes as [|n e ns es H _ IH]; inversion Hp; subst; constructor; eauto using proxy_entry.
Qed.

Lemma entries_lack nodes entries : Forall2 entry_of nodes entries → Forall (lacks LFc) (concat entries).
Proof.
  induction 1 as [|n e ns es (rest & -> & Hr) _ IH]; [constructor|]. simpl. constructor.
  - apply lacks_app. split; [done|apply yaml_dq_lacks].
  - apply Forall_app. split; [|done]. eapply Forall_impl; [exact Hr|]. by intros ? [_ ?].
Qed.

Lemma entries_nonempty nodes entries : Forall2 entry_of nodes entries → Forall (λ l, l ≠ "") (concat entries).
Proof.
  induction 1 as [|n e ns es (rest & -> & Hr) _ IH]; [constructor|]. simpl. constructor; [done|].
  apply Forall_app. split; [|done]. eapply Forall_impl; [exact Hr|]. by intros ? [? _] ->.
Qed.

(** C10: A Mihomo document has one entry per node and nothing besides: cut at
    its line breaks it is the key [proxies] and, for each node in order, a line
    that opens an entry with the node's name and lines indented below it.  No
    name, server, credential, SNI, path or header, whatever its bytes, ends a
    line or opens another entry; the name reads back as the text it is. *)
Theorem mihomo_one_entry_per_node (nodes : list Node) (text : string)
  (He : emit_mihomo nodes = Ok text) (Hp : Forall unquoted_plain nodes) :
  ∃ entries, split LFc text = "proxies:" :: concat entries ∧ Forall2 entry_of nodes entries ∧
    Forall (λ n, strip_prefix "  - name: " (name_line n) ≫= read_dq = Some (display_name n, "")) nodes.
Proof.
  unfold emit_mihomo in He. apply result_bind_Ok in He as (ls & Hls & He). apply Ok_inj in He as <-.
  destruct (proxies_entries _ _ Hls Hp) as (entries & -> & Hent). exists entries. split_and!; [|done|].
  - apply split_join; [done|]. constructor; [done|]. by eapply entries_lack.
  - apply Forall_true. intros n. apply (read_dq_whole (display_name n)).
Qed.

(** ** Texts that are not quoted *)

Lemma split_nonempty c s : split c s ≠ [].
Proof. induction s as [|x s IH]; [done|]. cbn [split]. destruct (Ascii.eqb c x); [done|]. by destruct (split c s). Qed.

Lemma split_app_all c a b : split c (a +:+ String c b) = split c a ++ split c b.
Proof.
  induction a as [|x a IH]; [simpl; by rewrite Ascii.eqb_refl|].
  change (String x a +:+ String c b) with (String x (a +:+ String c b)). cbn [split]. rewrite IH.
  destruct (Ascii.eqb c x); [done|].
  pose proof (split_nonempty c a). by destruct (split c a).
Qed.

Lemma split_join_all c l : l ≠ [] → split c (join (String c "") l) = concat (split c <$> l).
Proof.
  induction l as [|a l IH]; [done|]. intros _. destruct l as [|b l]; [by rewrite fmap_cons; simpl; rewrite app_nil_r|].
  rewrite join_cons. change (a +:+ String c "" +:+ ?x) with (a +:+ String c x). by rewrite split_app_all, IH.
Qed.

(** The cipher of a Shadowsocks node is written without quotes: a line
    break in it puts a line of the author's choosing, at any indentation, into
    the document, and so any key or another proxy. *)
Theorem mihomo_cipher_injects (n : Node) (cfg : ShadowsocksConfig) (password m line : string)
  (Hp : protocol n = Shadowsocks) (Hc : config n = CShadowsocks cfg) (Ha : authentication n = AuthPassword password)
  (Hm : ss_method cfg = m +:+ LF +:+ line) (Hl : lacks LFc line) :
  ∃ text, emit_mihomo [n] = Ok text ∧ line ∈ split LFc text.
Proof.
  unfold emit_mihomo, proxies_lines. cbn [collect_ok]. unfold emit_proxy. rewrite Hp. unfold emit_single. rewrite Hp.
  unfold emit_ss. rewrite Ha, Hc. cbn [result_bind]. eexists. split; [reflexivity|].
  rewrite (split_join_all LFc) by done. apply list_elem_of_In, in_concat.
  exists (split LFc ("    cipher: " +:+ ss_method cfg)). split.
  - apply in_map. right. cbn [concat]. apply in_or_app. left. do 4 right. left. reflexivity.
  - rewrite Hm. change ("    cipher: " +:+ m +:+ LF +:+ line) with (("    cipher: " +:+ m) +:+ String LFc line).
    rewrite split_app_all. apply in_or_app. right. rewrite split_lacks by done. by left.
Qed.

(** ** Proxies *)

Section proxies.
Context `{L : UrlLib}.

(** The protocols an entry's [type] may give. *)
Definition type_kinds (t : string) : option ProtocolKind :=
  if String.eqb t "vless" then Some Vless else if String.eqb t "vmess" then Some VMess
  else if String.eqb t "trojan" then Some Trojan else if String.eqb t "ss" then Some Shadowsocks
  else if String.eqb t "hysteria2" || String.eqb t "hy2" then Some Hysteria2 else if String.eqb t "tuic" then Some TuicV5
  else if String.eqb t "naive" then Some NaiveProxy else if String.eqb t "wireguard" then Some WireGuard
  else if String.eqb t "anytls" then Some AnyTls else if String.eqb t "snell" then Some Snell else None.

(** The node has the protocol the entry names, alone or inside ShadowTLS, or
    keeps the entry. *)
Definition kept_proxy (e : Json) (n : Node) : Prop :=
  match config n with
  | CUnsupported u => raw u = e ∧ raw_format u = Some MihomoParse.mihomo_yaml
  | CShadowTls _ _ inner _ => protocol n = ShadowTls ∧ (get_str e "type" ≫= type_kinds) = Some inner
  | _ => (get_str e "type" ≫= type_kinds) = Some (protocol n)
  end.

(** The configuration is of a single protocol. *)
Definition single (c : ProtocolConfig) : Prop :=
  match c with CUnsupported _ | CShadowTls _ _ _ _ => False | _ => True end.

Lemma map_proxy_single fresh t e n :
  MihomoParse.map_proxy fresh t e = Ok n → type_kinds t = Some (protocol n) ∧ single (config n).
Proof.
  intros H. unfold MihomoParse.map_proxy in H. unfold type_kinds.
  repeat (match type of H with (if ?b then _ else _) = _ => destruct b end;
    [unfold MihomoParse.parse_vless, MihomoParse.parse_vmess, MihomoParse.parse_trojan, MihomoParse.parse_shadowsocks,
       MihomoParse.parse_hysteria2, MihomoParse.parse_tuic, MihomoParse.parse_naive, MihomoParse.parse_wireguard,
       MihomoParse.parse_anytls, MihomoParse.parse_snell in H;
     repeat (let y := fresh "y" in apply result_bind_Ok in H as (y & _ & H); try (destruct y as [? ?]));
     apply Ok_inj in H as <-; done |]).
  discriminate H.
Qed.

Lemma proxy_entry_kept fresh e : kept_proxy e (MihomoParse.parse_proxy_entry fresh e).
Proof.
  unfold MihomoParse.parse_proxy_entry. destruct (get_str e "type") as [t|] eqn:Et; [|done].
  destruct (MihomoParse.map_proxy fresh t e) as [n|err] eqn:Em; [|done].
  apply map_proxy_single in Em as [Hk Hs]. unfold MihomoParse.try_parse_shadowtls_projection.
  destruct (MihomoParse.shadowtls_layer e) as [[[v p] sni]|]; cbn [mbind option_bind default].
  - unfold kept_proxy. rewrite Et. cbn [mbind option_bind]. by destruct (config n).
  - unfold kept_proxy. rewrite Et. cbn [mbind option_bind]. by destruct (config n).
Qed.

(** No proxy of a Mihomo document is lost or reordered: a document that
    reads as YAML with a list of proxies gives one node per entry, which has
    the protocol the entry names, alone or as the inner one of a ShadowTLS
    node, or keeps the raw entry as unsupported. *)
Theorem mihomo_proxies_kept (parse_source_json : string → Result string Json) (draw : Draw) (text : string)
  (value : Json) (proxies : list Json)
  (Hyaml : parse_source_json text = Ok value) (Hp : get value "proxies" = Some (JArray proxies))
  (Hmax : length proxies ≤ MAX_ENTRIES) :
  ∃ nodes, MihomoParse.parse_mihomo_yaml parse_source_json draw text = Ok nodes ∧ Forall2 kept_proxy proxies nodes.
Proof.
  unfold MihomoParse.parse_mihomo_yaml, MihomoParse.parse_mihomo_value. rewrite Hyaml. cbn [map_err result_bind].
  rewrite Hp. cbn [ok_or result_bind as_array]. unfold check_entry_count.
  destruct (Nat.ltb_spec MAX_ENTRIES (length proxies)); [lia|]. cbn [result_bind].
  eexists. split; [done|]. clear. revert draw.
  induction proxies as [|e es IH]; intros draw; [constructor|]. cbn [imap].
  constructor; [apply proxy_entry_kept|]. apply (IH (draw ∘ S)).
Qed.

(** A Trojan entry that names its server but has no [tls] key, the usual
    form since Trojan always runs over TLS, parses with TLS disabled, and its
    Xray outbound has [security] set to [none]; an entry without [sni] keeps
    TLS. *)
Theorem mihomo_trojan_sni_plaintext (fresh : NodeId * Z) (e : Json) (sni : string) (n : Node)
  (Htls : get_bool e "tls" = None) (Hreal : get e "reality-opts" = None)
  (Hsni : get_str_alias e "servername" "sni" = Some sni) (Hn : MihomoParse.map_proxy fresh "trojan" e = Ok n) :
  ∃ t, tls n = Some t ∧ tls_enabled t = false ∧ server_name t = Some sni ∧
    ∀ out, XrayEmit.emit_outbound n = Ok out → (s ← get out "streamSettings"; get_str s "security") = Some "none".
Proof.
  assert (MihomoParse.parse_trojan fresh e = Ok n) as H by exact Hn. clear Hn. unfold MihomoParse.parse_trojan in H.
  apply result_bind_Ok in H as ([name ep] & _ & H). apply result_bind_Ok in H as (pw & _ & H). apply Ok_inj in H as <-.
  unfold MihomoParse.extract_tls, MihomoParse.extract_reality. rewrite Htls, Hreal, Hsni. cbn.
  eexists. split_and!; [done..|]. intros out Hout. 
  destruct (XrayTheorems.emit_stream _ _ Hout) as (tag & p & settings & ->); [by left|].
  rewrite XrayTheorems.outbound_stream. cbn [mbind option_bind]. unfold get_str.
  by rewrite XrayTheorems.stream_get by by apply (bool_decide_unpack _).
Qed.



(** A Shadowsocks proxy behind ShadowTLS, as Mihomo writes it, keeps its
    [plugin] when it is read, so the entry emitted for it has the key [plugin]
    twice, which YAML forbids. *)
Theorem mihomo_shadowtls_plugin_twice (fresh : NodeId * Z) (e : Json) (inner : Node) (v : N) (version : ShadowTlsVersion)
  (opts : Json)
  (Ht : get_str e "type" = Some "ss") (Hm : MihomoParse.map_proxy fresh "ss" e = Ok inner)
  (Hp : get_str e "plugin" = Some "shadow-tls") (Hs : get e "shadow-tls-opts" = None)
  (Ho : get e "plugin-opts" = Some opts) (Hv : get_u32 opts "version" = Some v) (Hf : shadowtls_from_u32 v = Some version) :
  ∃ lines, emit_proxy (MihomoParse.parse_proxy_entry fresh e) = Ok lines ∧
    length (filter (λ l, starts_with "    plugin: " l = true) lines) = 2.
Proof.
  assert (Hl : ∃ password sni, MihomoParse.shadowtls_layer e = Some (version, password, sni)).
  { unfold MihomoParse.shadowtls_layer. rewrite Hs, Hp, bool_decide_eq_true_2, Ho by done.
    cbn [mbind option_bind]. unfold MihomoParse.version_of. rewrite Hv. cbn [mbind option_bind]. rewrite Hf. by eexists _, _. }
  destruct Hl as (password & sni & Hl). unfold MihomoParse.parse_proxy_entry. rewrite Ht, Hm.
  unfold MihomoParse.try_parse_shadowtls_projection. rewrite Hl.
  assert (MihomoParse.parse_shadowsocks fresh e = Ok inner) as H by exact Hm. clear Hm Hl.
  unfold MihomoParse.parse_shadowsocks in H. rewrite Hp in H.
  apply result_bind_Ok in H as ([name ep] & _ & H). apply result_bind_Ok in H as (pw & _ & H).
  apply result_bind_Ok in H as (m & _ & H). apply Ok_inj in H as <-.
  eexists. split; [reflexivity|]. unfold layer_lines.
  destruct password, (t ← tls _; server_name t); reflexivity.
Qed.

End proxies.

(** ** Concrete documents *)

#[local] Existing Instance UrlInstance.url_lib.

Definition hostile_name : string := "x" +:+ LF +:+ "  - name: evil".

Definition sample_ss (name method : string) : Node :=
  XrayTheorems.sample name Shadowsocks (CShadowsocks (mkShadowsocks method (Some "obfs") (Some "mode=http;fast")))
    (Domain "relay.example") (AuthPassword "p\w") None None.

Definition sample_layered : Node :=
  XrayTheorems.sample "st" ShadowTls
    (CShadowTls StV3 (Some "inner") Snell (CSnell (mkSnell SnellV4 (Some true) None None)))
    (Ipv4 (192, 0, 2, 1)%N) (AuthPassword "psk") None (Some (mkTls true (Some "example.com") None [] None [] None)).

Definition sample_nodes : list Node := [sample_ss hostile_name "aes-128-gcm"; sample_layered].
Definition sample_text : string := match emit_mihomo sample_nodes with Ok t => t | Err _ => "" end.

Lemma mihomo_one_entry_per_node_witness :
  ∃ entries, split LFc sample_text = "proxies:" :: concat entries ∧ Forall2 entry_of sample_nodes entries ∧
    Forall (λ n, strip_prefix "  - name: " (name_line n) ≫= read_dq = Some (display_name n, "")) sample_nodes.
Proof.
  apply (mihomo_one_entry_per_node sample_nodes sample_text).
  - vm_compute. reflexivity.
  - repeat constructor.
Defined.

Lemma mihomo_cipher_injects_witness :
  ∃ text, emit_mihomo [sample_ss "a" ("aes-128-gcm" +:+ LF +:+ "  - name: evil")] = Ok text ∧
    "  - name: evil" ∈ split LFc text.
Proof.
  exact (mihomo_cipher_injects (sample_ss "a" ("aes-128-gcm" +:+ LF +:+ "  - name: evil"))
    (mkShadowsocks ("aes-128-gcm" +:+ LF +:+ "  - name: evil") (Some "obfs") (Some "mode=http;fast")) "p\w" "aes-128-gcm"
    "  - name: evil" eq_refl eq_refl eq_refl eq_refl eq_refl).
Defined.

Definition trojan_proxy : Json :=
  object [("name", JString "t"); ("type", JString "trojan"); ("server", JString "a.example"); ("port", number 443);
    ("password", JString "p"); ("sni", JString "a.example")].

Definition mihomo_doc : Json := object [("proxies", JArray [JNull; trojan_proxy; object [("type", JString "ssh")]])].

Lemma mihomo_proxies_kept_witness :
  ∃ nodes, MihomoParse.parse_mihomo_yaml (λ _, Ok mihomo_doc) XrayTheorems.sample_draw "" = Ok nodes ∧
    Forall2 kept_proxy [JNull; trojan_proxy; object [("type", JString "ssh")]] nodes.
Proof.
  apply (mihomo_proxies_kept (λ _, Ok mihomo_doc) XrayTheorems.sample_draw "" mihomo_doc).
  - reflexivity.
  - reflexivity.
  - unfold MAX_ENTRIES. cbn [length]. lia.
Defined.

Definition layered_proxy : Json :=
  object [("name", JString "s"); ("type", JString "ss"); ("server", JString "a.example"); ("port", number 443);
    ("password", JString "p"); ("cipher", JString "aes-128-gcm"); ("plugin", JString "shadow-tls");
    ("plugin-opts", object [("host", JString "b.example"); ("password", JString "q"); ("version", number 3)])].

Definition trojan_node : Node := MihomoParse.parse_proxy_entry (7%N, 0%Z) trojan_proxy.

Definition layered_inner : Node :=
  match MihomoParse.map_proxy (7%N, 0%Z) "ss" layered_proxy with Ok n => n | Err _ => trojan_node end.

Lemma mihomo_shadowtls_plugin_twice_witness :
  ∃ lines, emit_proxy (MihomoParse.parse_proxy_entry (7%N, 0%Z) layered_proxy) = Ok lines ∧
    length (filter (λ l, starts_with "    plugin: " l = true) lines) = 2.
Proof.
  apply (mihomo_shadowtls_plugin_twice (7%N, 0%Z) layered_proxy layered_inner 3 StV3
    (object [("host", JString "b.example"); ("password", JString "q"); ("version", number 3)]));
    vm_compute; reflexivity.
Defined.


Lemma mihomo_trojan_sni_plaintext_witness :
  ∃ t, tls trojan_node = Some t ∧ tls_enabled t = false ∧ server_name t = Some "a.example" ∧
    ∀ out, XrayEmit.emit_outbound trojan_node = Ok out →
      (s ← get out "streamSettings"; get_str s "security") = Some "none".
Proof.
  apply (mihomo_trojan_sni_plaintext (7%N, 0%Z) trojan_proxy "a.example" trojan_node);
    [reflexivity|reflexivity|reflexivity|vm_compute; reflexivity].
Defined.

End MihomoTheorems.
