(* ===== verification/ContainerDispatch.v ===== *)
(** * Container dispatch
    ([crates/deve-sub-protocol/src/container/mod.rs],
    [crates/deve-sub-emitter/src/container/mod.rs], [ir.rs],
    [mihomo_template.rs], [crates/deve-sub-application/src/template/generation.rs])

    Which JSON dialect a source is read in, the emitter of each profile, and the
    Mihomo document of a whole template.  The YAML reader and serializer are
    arguments. *)

From Stdlib Require Import Ascii.
From S2P Require Import Prelude Kernel Node Template Yaml Text UrlText UriParse UriEmit SourceParse Compat GenTypes Assemble Generation Containers XrayParse XrayEmit SingboxParse SingboxEmit MihomoParse MihomoEmit.
Import Text UrlText UriParse UriEmit SourceParse Compat Containers MihomoEmit.

Module ContainerDispatch.

(** ** Sources *)

Section sources.
Context `{L : UrlLib}.
Variable draw : Draw.

Definition has (k : string) (e : Json) : bool := match get e k with Some _ => true | None => false end.

(** The part of [parse_auto_json] after the JSON reader. *)
Definition parse_auto_value (value : Json) : Result ParseError (list Node) :=
  if has "endpoints" value then SingboxParse.parse_singbox_value draw value
  else
    let? is_xray :=
      match o ← get value "outbounds"; as_array o with
      | Some outbounds =>
          let? _ := check_entry_count (length outbounds) in
          Ok (negb (existsb (has "type") outbounds) && existsb (has "protocol") outbounds)
      | None => Ok false
      end in
    if is_xray then XrayParse.parse_xray_v2ray_value draw value "xray-json"
    else SingboxParse.parse_singbox_value draw value.

Definition parse_auto_json (text : string) : Result ParseError (list Node) :=
  let? doc := map_err InvalidJson (json_from_str text) in parse_auto_value (to_value doc).

End sources.

(** The parsers the source pipeline dispatches to. *)
Definition containers `{L : UrlLib} (parse_source_json : string → Result string Json) : SourceParse.Containers :=
  SourceParse.mkContainers
    (λ draw, MihomoParse.parse_mihomo_yaml parse_source_json draw)
    (λ draw, SingboxParse.parse_singbox_json draw)
    (λ draw, XrayParse.parse_xray_json draw)
    (λ draw, XrayParse.parse_v2ray_json draw)
    (λ draw, parse_auto_json draw).

(** ** Templates *)

(** [impl Display for EmitError] *)
Definition emit_error_display (e : EmitError) : string :=
  match e with
  | NoEmitter t => "no URI emitter for protocol: " +:+ t
  | EMissingField f => "missing required field for emission: " +:+ f
  | EInvalidField f v => "invalid field " +:+ f +:+ ": " +:+ v
  | EncodeError t => "encode error: " +:+ t
  end.

(** [AssembledTemplate::from_nodes] *)
Definition from_nodes (nodes : list Node) : AssembledTemplate :=
  mkAssembledTemplate None nodes [] [] JNull JNull JNull.

(** The YAML crate: values of generated documents, their text, and the text of
    a mapping with one entry. *)
Class YamlText := {
  parse_generated_value : string → Result string Yaml.Value;
  value_to_string : Yaml.Value → Result string string;
  section_to_string : string → Json → Result string string
}.

(** [Mapping::shift_remove] of a string key *)
Fixpoint shift_remove (key : string) (m : list (Yaml.Value * Yaml.Value)) : list (Yaml.Value * Yaml.Value) :=
  match m with
  | [] => []
  | (k, v) :: m => if Yaml.equivalent key k then m else (k, v) :: shift_remove key m
  end.

(** [str::ends_with] of the line feed *)
Fixpoint ends_with_lf (s : string) : bool :=
  match s with
  | EmptyString => false
  | String c EmptyString => Ascii.eqb c "010"
  | String _ s => ends_with_lf s
  end.

Definition end_line (s : string) : string := if ends_with_lf s then s else s +:+ LF.

Section template.
Context `{Y : YamlText}.

Definition group_lines (g : AssembledGroup) : Lines :=
  ["  - name: " +:+ yaml_dq (ag_name g); "    type: " +:+ group_type_display (ag_type g)]
  ++ match ag_members g with
     | [] => []
     | members => "    proxies:" :: ((λ m, "      - " +:+ yaml_dq m) <$> members)
     end.

(** [emit_groups]: what it appends *)
Definition emit_groups (groups : list AssembledGroup) : string :=
  join LF ("proxy-groups:" :: concat (group_lines <$> groups)).

Definition encode {A} (r : Result string A) : Result EmitError A := map_err EncodeError r.

(** [emit_rules] *)
Definition emit_rules (rules : list Json) : Result EmitError string := encode (section_to_string "rules" (JArray rules)).

(** [emit_json_block] *)
Definition emit_json_block (key : string) (value : Json) : Result EmitError string := encode (section_to_string key value).

(** The native template's own sections, without its proxies. *)
Definition native_sections (config : string) : Result EmitError string :=
  let? native := encode (parse_generated_value config) in
  let? mapping := ok_or (Yaml.as_mapping native) (EncodeError "native routing template must be a mapping") in
  match shift_remove "proxies" mapping with
  | [] => Ok ""
  | m => encode (value_to_string (Yaml.VMapping m))
  end.

(** A further section, on a line of its own. *)
Definition append_section (present : bool) (section : Result EmitError string) (out : string) : Result EmitError string :=
  if present then let? text := section in Ok (end_line out +:+ text) else Ok out.

Definition emit_full (t : AssembledTemplate) : Result EmitError string :=
  match at_clash t with
  | Some config =>
      let? sections := native_sections config in
      let output := if is_empty sections then sections else end_line sections in
      let? proxies := emit_mihomo (at_nodes t) in
      Ok (end_line (output +:+ proxies))
  | None =>
      let? out := emit_mihomo (at_nodes t) in
      let out := match at_groups t with [] => out | groups => out +:+ LF +:+ emit_groups groups end in
      let? out := append_section (match at_rules t with [] => false | _ => true end) (emit_rules (at_rules t)) out in
      let? out := append_section (match at_dns t with JNull => false | _ => true end) (emit_json_block "dns" (at_dns t)) out in
      append_section (match at_tun t with JNull => false | _ => true end) (emit_json_block "tun" (at_tun t)) out
  end.

End template.

(** ** Profiles *)

Section profiles.
Context `{L : UrlLib} `{Y : YamlText}.
(** [serde_json::to_string_pretty], and of the nodes themselves *)
Variable to_string_pretty : Json → string.
Variable emit_json : list Node → Result EmitError string.

Definition emit_shadowrocket (nodes : list Node) : Result EmitError string :=
  let? uris := collect_ok emit_uri nodes in Ok (base64_encode STANDARD (join LF uris)).

(** [emit], before the error becomes text *)
Definition emit (profile : ProfileKind) (t : AssembledTemplate) : Result EmitError string :=
  match profile with
  | Mihomo => emit_full t
  | SingBox => SingboxEmit.emit_singbox to_string_pretty (at_nodes t)
  | Xray => XrayEmit.emit_xray to_string_pretty (at_nodes t)
  | V2Ray => XrayEmit.emit_v2ray to_string_pretty (at_nodes t)
  | Shadowrocket => emit_shadowrocket (at_nodes t)
  | UriList => emit_uri_list (at_nodes t)
  | JsonProfile => emit_json (at_nodes t)
  end.

End profiles.

End ContainerDispatch.
