(* ===== verification/DispatchTheorems.v ===== *)
(** * Container dispatch: what is detected and what a template's document holds

    Emitted JSON documents are read in the dialect they were written in; the
    Mihomo document of a template lays its sections out one after the other,
    and its groups read back. *)

From Stdlib Require Import Ascii.
From S2P Require Import Prelude Kernel Node Yaml Template Text UrlText UrlInstance UriParse UriEmit SourceParse Compat GenTypes Assemble Generation Containers XrayParse XrayEmit XrayTheorems SingboxParse SingboxEmit SingboxReads SingboxTheorems MihomoEmit MihomoTheorems ContainerDispatch.
Import Text UrlText UriParse UriEmit SourceParse Containers MihomoEmit MihomoQuote MihomoTheorems ContainerDispatch.

Module DispatchTheorems.

(** ** Detection *)

Section detection.
Context `{L : UrlLib}.

Lemma has_str k e s : get_str e k = Some s → has k e = true.
Proof. unfold get_str, has. by destruct (get e k). Qed.

Lemma xray_marks n e : XrayEmit.emit_outbound n = Ok e → has "protocol" e = true ∧ has "type" e = false.
Proof.
  intros H.
  assert (Hs : ∃ tag p settings stream, e = XrayTheorems.outbound tag p settings stream).
  { unfold XrayEmit.emit_outbound in H. destruct (decide (protocol n = WireGuard)).
    - unfold XrayEmit.emit_wireguard in H. destruct (config n); try done.
      apply Ok_inj in H as <-. eexists _, _, _, None. reflexivity.
    - apply result_bind_Ok in H as ([[p settings] stream] & _ & H). apply Ok_inj in H as <-. eexists _, _, _, _. reflexivity. }
  destruct Hs as (tag & p & settings & stream & ->). split.
  - eapply has_str, XrayTheorems.outbound_protocol.
  - unfold has, XrayTheorems.outbound. members. by destruct stream.
Qed.

Lemma piece_typed n os es ws : SingboxTheorems.piece n os es ws → Forall (λ o, has "type" o = true) os.
Proof.
  destruct 1 as [e Hp He|w stls inner Hp Hpair|o Hw Hs Ho]; [constructor| |].
  - destruct (SingboxSpecial.shadowtls_pair_shape _ _ _ _ Hpair) as [Hst _ _ (t & Hin & _) _ _].
    repeat constructor; by eapply has_str.
  - destruct (SingboxTheorems.outbound_entry _ _ Ho) as (t & fields & -> & _ & Hown & _).
    repeat constructor. eapply has_str, SingboxReads.entry_type, Hown.
Qed.

Lemma pieces_typed tags ns os es ws : SingboxTheorems.pieces tags ns os es ws → Forall (λ o, has "type" o = true) os.
Proof. induction 1; [constructor|]. apply Forall_app. eauto using piece_typed. Qed.

(** What detection does with a list of outbounds that pass the count. *)
Lemma auto_value_outbounds draw value outbounds :
  has "endpoints" value = false → get value "outbounds" = Some (JArray outbounds) →
  parse_auto_value draw value =
    let? _ := check_entry_count (length outbounds) in
    if negb (existsb (has "type") outbounds) && existsb (has "protocol") outbounds
    then XrayParse.parse_xray_v2ray_value draw value "xray-json" else SingboxParse.parse_singbox_value draw value.
Proof.
  intros He Ho. unfold parse_auto_value. rewrite He, Ho. cbn [mbind option_bind as_array].
  by destruct (check_entry_count (length outbounds)).
Qed.

(** A JSON source is read in the dialect it was written in: the automatic
    parser reads every document of the Xray emitter as the Xray parser does, and
    every document of the sing-box emitter as the sing-box parser does. *)
Theorem auto_json_detects (draw : Draw) (nodes : list Node) (doc : Json) :
  (XrayEmit.xray_doc nodes = Ok doc → nodes ≠ [] →
     parse_auto_value draw doc = XrayParse.parse_xray_v2ray_value draw doc "xray-json") ∧
  (SingboxEmit.singbox_doc nodes = Ok doc → parse_auto_value draw doc = SingboxParse.parse_singbox_value draw doc).
Proof.
  split.
  - intros H Hne. unfold XrayEmit.xray_doc in H. apply result_bind_Ok in H as (os & Hos & H). apply Ok_inj in H as <-.
    apply collect_ok_Forall2 in Hos. rewrite (auto_value_outbounds _ _ os) by done.
    assert (existsb (has "type") os = false) as ->.
    { clear Hne. induction Hos as [|n o ns os' Ho _ IH]; [done|]. cbn [existsb]. by rewrite (proj2 (xray_marks _ _ Ho)), IH. }
    assert (existsb (has "protocol") os = true) as ->.
    { destruct Hos as [|n o ns os' Ho _]; [done|]. cbn [existsb]. by rewrite (proj1 (xray_marks _ _ Ho)). }
    unfold XrayParse.parse_xray_v2ray_value. members. cbn [ok_or result_bind as_array negb andb].
    by destruct (check_entry_count (length os)).
  - intros H. destruct (SingboxTheorems.doc_pieces _ _ H) as (_ & ws & Hp & _ & Hos & Hes & Hno).
    set (os := SingboxTheorems.entries doc "outbounds") in *. set (es := SingboxTheorems.entries doc "endpoints") in *.
    destruct es as [|e es].
    + rewrite (auto_value_outbounds _ _ os) by (done || unfold has; by rewrite Hno).
      apply pieces_typed in Hp.
      assert (negb (existsb (has "type") os) && existsb (has "protocol") os = false) as ->.
      { destruct Hp as [|o os' Ho _]; [done|]. cbn [existsb]. by rewrite Ho. }
      unfold SingboxParse.parse_singbox_value, SingboxParse.list_at. rewrite Hos, Hno by done. cbn [result_bind length].
      rewrite Nat.add_0_r. by destruct (check_entry_count (length os)).
    + unfold parse_auto_value, has. by rewrite Hes by done.
Qed.

End detection.

(** ** The groups of a template *)

Record RawGroup := mkRawGroup { rg_name : string; rg_type : option string; rg_members : list string }.

(** The reader of a [proxy-groups] block, from its last line: the members and
    the type seen so far, and the groups after them. *)
Definition read_line (line : string) (st : list string * option string * list RawGroup) :
    list string * option string * list RawGroup :=
  let '(members, ty, groups) := st in
  match strip_prefix "      - " line ≫= read_dq with
  | Some (m, _) => (m :: members, ty, groups)
  | None =>
      match strip_prefix "    type: " line with
      | Some t => (members, Some t, groups)
      | None =>
          match strip_prefix "  - name: " line ≫= read_dq with
          | Some (name, _) => ([], None, mkRawGroup name ty members :: groups)
          | None => (members, ty, groups)
          end
      end
  end.

Definition read_groups (ls : Lines) : list RawGroup := (foldr read_line ([], None, []) ls).2.

Definition raw_group (g : AssembledGroup) : RawGroup :=
  mkRawGroup (ag_name g) (Some (group_type_display (ag_type g))) (ag_members g).

Lemma strip_own_prefix p s : strip_prefix p (p +:+ s) = Some s.
Proof. induction p as [|c p IH]; [done|].
  change (String c p +:+ s) with (String c (p +:+ s)). cbn [strip_prefix]. by rewrite Ascii.eqb_refl. Qed.

Lemma read_member m st : read_line ("      - " +:+ yaml_dq m) st = (m :: st.1.1, st.1.2, st.2).
Proof. destruct st as [[ms ty] gs]. unfold read_line. by rewrite strip_own_prefix; cbn [mbind option_bind]; rewrite read_dq_whole. Qed.

Lemma read_group g groups :
  foldr read_line ([], None, groups) (group_lines g) = ([], None, raw_group g :: groups).
Proof.
  destruct g as [name ty members]. unfold group_lines, raw_group. cbn [ag_name ag_type ag_members].
  assert (Hm : ∀ ms, foldr read_line ([], None, groups) ((λ m, "      - " +:+ yaml_dq m) <$> ms) = (ms, None, groups)).
  { induction ms as [|m ms IH]; [done|]. rewrite fmap_cons. cbn [foldr]. by rewrite IH, read_member. }
  assert (Hh : ∀ ms, read_line ("  - name: " +:+ yaml_dq name) (read_line ("    type: " +:+ group_type_display ty) (ms, None, groups))
    = ([], None, mkRawGroup name (Some (group_type_display ty)) ms :: groups)).
  { intros ms. transitivity (match strip_prefix "  - name: " ("  - name: " +:+ yaml_dq name) ≫= read_dq with
      | Some (nm, _) => ([], None, mkRawGroup nm (Some (group_type_display ty)) ms :: groups)
      | None => (ms, Some (group_type_display ty), groups) end).
    - by destruct ty.
    - rewrite strip_own_prefix. cbn [mbind option_bind]. by rewrite read_dq_whole. }
  destruct members as [|m ms]; cbn [app foldr]; [apply Hh|]. rewrite Hm. apply Hh.
Qed.

Lemma read_all groups : foldr read_line ([], None, []) (concat (group_lines <$> groups)) = ([], None, raw_group <$> groups).
Proof.
  induction groups as [|g groups IH]; [done|]. rewrite !fmap_cons. cbn [concat]. rewrite foldr_app, IH. apply read_group.
Qed.

Lemma group_lines_lack g : Forall (lacks LFc) (group_lines g).
Proof.
  unfold group_lines. repeat constructor.
  - apply lacks_app. split; [done|apply yaml_dq_lacks].
  - by destruct (ag_type g).
  - destruct (ag_members g); constructor; [done|]. apply Forall_fmap, Forall_true. intros m. apply lacks_app.
    split; [done|apply yaml_dq_lacks].
Qed.

(** ** Documents of templates *)

Section template.
Context `{Y : YamlText}.

(** Texts after one another, each from the start of a line. *)
Fixpoint on_own_lines (out : string) (texts : list string) : string :=
  match texts with
  | [] => out
  | x :: texts => on_own_lines (if ends_with_lf out then out +:+ x else out +:+ LF +:+ x) texts
  end.

(** The sections of a template after its proxies and groups. *)
Definition template_sections (t : AssembledTemplate) : list (string * Json) :=
  match at_rules t with [] => [] | rules => [("rules", JArray rules)] end
  ++ match at_dns t with JNull => [] | dns => [("dns", dns)] end
  ++ match at_tun t with JNull => [] | tun => [("tun", tun)] end.

Definition written (s : string * Json) (text : string) : Prop := section_to_string s.1 s.2 = Ok text.

Lemma on_own_lines_app out a b : on_own_lines out (a ++ b) = on_own_lines (on_own_lines out a) b.
Proof. revert out. induction a as [|x a IH]; intros out; [done|]. apply IH. Qed.

Lemma append_written present key value out out' :
  append_section present (encode (section_to_string key value)) out = Ok out' →
  ∃ texts, Forall2 written (if present then [(key, value)] else []) texts ∧ out' = on_own_lines out texts.
Proof.
  unfold append_section. destruct present.
  - intros (x & Hx & <-%Ok_inj)%result_bind_Ok. exists [x]. split.
    + constructor; [|constructor]. unfold encode in Hx. unfold written. cbn. by destruct (section_to_string key value); [apply Ok_inj in Hx as ->|].
    + cbn. unfold end_line. destruct (ends_with_lf out); [done|]. by rewrite string_app_assoc.
  - intros <-%Ok_inj. exists []. split; [constructor|done].
Qed.

Lemma ends_app a c s : ends_with_lf (a +:+ String c s) = ends_with_lf (String c s).
Proof. induction a as [|x a IH]; [done|]. rewrite <- IH. cbn. by destruct a. Qed.

Lemma ends_lacks s : lacks LFc s → ends_with_lf s = false.
Proof.
  induction s as [|c s IH]; [done|]. rewrite lacks_cons. intros [Hc Hs]. destruct s; [|by apply IH].
  cbn. apply Ascii.eqb_neq. by intros ->.
Qed.

Lemma join_ends ls : Forall (lacks LFc) ls → Forall (λ l, l ≠ "") ls → ends_with_lf (join LF ls) = false.
Proof.
  intros Hl Hn. induction Hl as [|a l Ha Hl IH]; [done|]. destruct l as [|b l]; [by apply ends_lacks|].
  rewrite join_cons. apply Forall_cons in Hn as [_ Hn]. specialize (IH Hn).
  apply Forall_cons in Hn as [Hb _].
  assert (∃ c s, join LF (b :: l) = String c s) as (c & s & E).
  { destruct b as [|c b]; [done|]. destruct l; [by eexists _, _|]. rewrite join_cons. by eexists _, _. }
  rewrite E in IH |- *. change (a +:+ LF +:+ String c s) with (a +:+ String LFc (String c s)). by rewrite ends_app.
Qed.

(** The lines of the sections the emitter writes itself. *)
Definition group_section (groups : list AssembledGroup) : Lines :=
  match groups with [] => [] | _ => "proxy-groups:" :: concat (group_lines <$> groups) end.

Lemma join_app a b : a ≠ [] → b ≠ [] → join LF (a ++ b) = join LF a +:+ LF +:+ join LF b.
Proof.
  intros Ha Hb. induction a as [|x a IH]; [done|]. destruct a as [|y a]; [by destruct b|].
  change ((x :: y :: a) ++ b) with (x :: y :: (a ++ b)). rewrite !join_cons. 
  change (y :: a ++ b) with ((y :: a) ++ b). rewrite IH by done. by rewrite !string_app_assoc.
Qed.

Lemma group_section_lines groups :
  Forall (lacks LFc) (group_section groups) ∧ Forall (λ l, l ≠ "") (group_section groups).
Proof.
  unfold group_section. destruct groups as [|g gs]; [split; constructor|]. rewrite !Forall_cons, !Forall_concat, !Forall_fmap.
  split_and!; [done| |done|].
  - apply Forall_true. intros. apply group_lines_lack.
  - apply Forall_true. intros h. unfold compose, group_lines. repeat constructor; [done..|].
    destruct (ag_members h); constructor; [done|]. by apply Forall_fmap, Forall_true.
Qed.

(** The emitter's own lines. *)
Lemma own_lines t ls :
  proxies_lines (at_nodes t) = Ok ls → Forall unquoted_plain (at_nodes t) →
  ∃ entries, ls = "proxies:" :: concat entries ∧ Forall2 entry_of (at_nodes t) entries ∧
    Forall (lacks LFc) ("proxies:" :: concat entries ++ group_section (at_groups t)) ∧
    Forall (λ l, l ≠ "") ("proxies:" :: concat entries ++ group_section (at_groups t)).
Proof.
  intros Hls Hp. destruct (proxies_entries _ _ Hls Hp) as (entries & -> & Hent). exists entries.
  rewrite !Forall_cons, !Forall_app. destruct (group_section_lines (at_groups t)).
  split_and!; eauto using entries_lack, entries_nonempty; done.
Qed.

(** The document of a native template: its sections but the proxies, then the
    proxies of the pool. *)
Definition native_layout (config : string) (proxies : Lines) (text : string) : Prop :=
  ∃ m own, parse_generated_value config = Ok (Yaml.VMapping m) ∧
    match shift_remove "proxies" m with [] => own = "" | m' => value_to_string (Yaml.VMapping m') = Ok own end ∧
    text = (if is_empty own then join LF proxies else on_own_lines own [join LF proxies]) +:+ LF.

(** The document of a V3 template: proxies and groups, then the serialized
    rules, DNS and TUN sections that are there, in this order. *)
Definition v3_layout (t : AssembledTemplate) (proxies : Lines) (text : string) : Prop :=
  let lines := proxies ++ group_section (at_groups t) in
  ∃ texts, Forall2 written (template_sections t) texts ∧ text = on_own_lines (join LF lines) texts ∧
    split LFc (join LF lines) = lines ∧ ends_with_lf (join LF lines) = false ∧
    read_groups (group_section (at_groups t)) = raw_group <$> at_groups t.

Lemma native_emitted config nodes ls text :
  proxies_lines nodes = Ok ls → Forall (lacks LFc) ls → Forall (λ l, l ≠ "") ls →
  (let? sections := native_sections config in
   let output := if is_empty sections then sections else end_line sections in
   let? proxies := emit_mihomo nodes in Ok (end_line (output +:+ proxies))) = Ok text →
  ls ≠ [] → native_layout config ls text.
Proof.
  intros Hls Hlack Hne H Hnil. apply result_bind_Ok in H as (own & Hown & H). unfold emit_mihomo in H. rewrite Hls in H.
  cbn [result_bind] in H. apply Ok_inj in H as <-. unfold native_sections in Hown.
  apply result_bind_Ok in Hown as (v & Hv & Hown). apply result_bind_Ok in Hown as (m & Hm%ok_or_Ok & Hown).
  exists m, own. destruct v; try done. injection Hm as ->. unfold encode in *. split_and!.
  - by destruct (parse_generated_value config); [apply Ok_inj in Hv as ->|].
  - destruct (shift_remove "proxies" m); [by apply Ok_inj in Hown|]. by destruct (value_to_string _); [apply Ok_inj in Hown as ->|].
  - assert (∀ s, ends_with_lf (s +:+ join LF ls) = false) as He.
    { intros s. pose proof (join_ends ls Hlack Hne) as Hj. destruct ls as [|l ls]; [done|].
      assert (∃ c r, join LF (l :: ls) = String c r) as (c & r & E).
      { apply Forall_cons in Hne as [Hl _]. destruct l as [|c l]; [done|]. destruct ls; [by eexists _, _|]. rewrite join_cons. by eexists _, _. }
      rewrite E in *. by rewrite ends_app. }
    unfold end_line at 1. rewrite He. destruct (is_empty own) eqn:Ho; [by destruct own|]. cbn. unfold end_line.
    destruct (ends_with_lf own); [done|]. by rewrite !string_app_assoc.
Qed.

(** C29: The Mihomo document of a template.  Without native sections it is the
    proxies, one entry per node, and the groups, which read back as exactly the
    groups of the template with their names, types and members in order; then
    the serialized rules, DNS and TUN sections, those the template has, in this
    order and each from the start of a line.  With native sections it is the
    author's document without its own proxies, followed by the proxies of the
    pool.  The fields that the writer does not quote must be plain. *)
Theorem mihomo_template_layout (t : AssembledTemplate) (text : string)
  (He : emit_full t = Ok text) (Hp : Forall unquoted_plain (at_nodes t)) :
  ∃ entries, Forall2 entry_of (at_nodes t) entries ∧
    match at_clash t with
    | Some config => native_layout config ("proxies:" :: concat entries) text
    | None => v3_layout t ("proxies:" :: concat entries) text
    end.
Proof.
  assert (∃ ls, proxies_lines (at_nodes t) = Ok ls) as [ls Hls].
  { unfold emit_full in He. destruct (at_clash t).
    - apply result_bind_Ok in He as (? & _ & He). apply result_bind_Ok in He as (? & (ls & ? & _)%result_bind_Ok & _). eauto.
    - apply result_bind_Ok in He as (? & (ls & ? & _)%result_bind_Ok & _). eauto. }
  destruct (own_lines t ls Hls Hp) as (entries & -> & Hent & Hlack & Hne). exists entries. split; [done|].
  unfold emit_full in He. destruct (at_clash t) as [config|].
  - rewrite app_comm_cons, Forall_app in Hlack, Hne. by eapply native_emitted; [exact Hls|apply Hlack|apply Hne| |].
  - unfold emit_mihomo in He. rewrite Hls in He. cbn [result_bind] in He.
    apply result_bind_Ok in He as (o1 & H1 & He). apply result_bind_Ok in He as (o2 & H2 & H3).
    assert (match at_groups t with [] => join LF ("proxies:" :: concat entries)
      | groups => join LF ("proxies:" :: concat entries) +:+ LF +:+ emit_groups groups end
      = join LF ("proxies:" :: concat entries ++ group_section (at_groups t))) as Hours.
    { unfold group_section. destruct (at_groups t); [by rewrite app_nil_r|]. by rewrite app_comm_cons, join_app. }
    rewrite Hours in H1. apply append_written in H1 as (t1 & Hw1 & ->). apply append_written in H2 as (t2 & Hw2 & ->).
    apply append_written in H3 as (t3 & Hw3 & ->). exists (t1 ++ t2 ++ t3). rewrite !on_own_lines_app. split_and!.
    + unfold template_sections. repeat apply Forall2_app; [by destruct (at_rules t)|by destruct (at_dns t)|by destruct (at_tun t)].
    + done.
    + by apply split_join.
    + by apply join_ends.
    + unfold read_groups, group_section. destruct (at_groups t) as [|g gs]; [done|]. cbn [foldr]. by rewrite read_all.
Qed.

End template.

(** ** Concrete documents *)

#[local] Existing Instance UrlInstance.url_lib.

Definition xray_sample : list Node := [XrayTheorems.sample_vless; XrayTheorems.sample_wireguard].
Definition xray_sample_doc : Json := match XrayEmit.xray_doc xray_sample with Ok d => d | Err _ => JNull end.

Lemma auto_json_detects_witness :
  parse_auto_value XrayTheorems.sample_draw xray_sample_doc
  = XrayParse.parse_xray_v2ray_value XrayTheorems.sample_draw xray_sample_doc "xray-json".
Proof. exact (proj1 (auto_json_detects XrayTheorems.sample_draw xray_sample xray_sample_doc) eq_refl ltac:(done)). Defined.

(** A serializer of one-line sections. *)
#[local] Instance sample_yaml : YamlText := {|
  parse_generated_value _ := Err "";
  value_to_string _ := Err "";
  section_to_string k _ := Ok (k +:+ ": []" +:+ LF)
|}.

Definition sample_template : AssembledTemplate :=
  mkAssembledTemplate None sample_nodes
    [mkAssembledGroup "auto" UrlTest [hostile_name; "st"]; mkAssembledGroup "none" Select []]
    [JString "MATCH,auto"] JNull (JBool true) JNull.

Definition sample_document : string := match emit_full sample_template with Ok t => t | Err _ => "" end.

Lemma mihomo_template_layout_witness :
  ∃ entries, Forall2 entry_of (at_nodes sample_template) entries ∧
    v3_layout sample_template ("proxies:" :: concat entries) sample_document.
Proof.
  apply (mihomo_template_layout sample_template sample_document).
  - vm_compute. reflexivity.
  - repeat constructor.
Defined.

End DispatchTheorems.
