(* ===== verification/YamlRead.v ===== *)
(** * The bounded YAML reader ([crates/deve-sub-yaml/src])

    [error.rs], [scalar.rs], [parser.rs], [projection.rs], [generated.rs] and
    the entry points of [lib.rs].  The event scanner is an argument: what it
    yields for a text, event by event.  The reader turns events into a tree that
    shares anchored nodes and charges every use of an alias for the whole node;
    the projections then build values. *)

From Stdlib Require Import Ascii.
From stdpp Require Import pretty.
From S2P Require Import Prelude Kernel Node Yaml Text Ip UrlText Float64 GenTypes Generation Containers.
Import Yaml Text Ip UrlText.

Module YamlRead.

(** ** Diagnostics *)

Inductive ErrorKind :=
  | Syntax | AmbiguousFlowIndicator | AmbiguousLineBreak | DocumentKind | Input | Budget | DepthKind | AliasKind
  | TagKind | DuplicateKey | Merge | TypeKind | Serialize.

#[export] Instance ErrorKind_eq_dec : EqDecision ErrorKind.
Proof. solve_decision. Defined.

(** [granit_parser::Marker] *)
Record Marker := mkMarker { mk_index : N; mk_line : N; mk_col : N }.

#[export] Instance Marker_eq_dec : EqDecision Marker.
Proof. solve_decision. Defined.

Record YError := mkYError { ye_kind : ErrorKind; ye_location : option (N * N) }.

Definition new (kind : ErrorKind) : YError := mkYError kind None.
Definition at_mark (e : YError) (mark : Marker) : YError :=
  mkYError (ye_kind e) (Some (mk_line mark, N.min (mk_col mark + 1) u64_max)).

Definition kind_display (k : ErrorKind) : string :=
  match k with
  | Syntax => "invalid YAML syntax"
  | AmbiguousFlowIndicator =>
      "ambiguous YAML flow '?' syntax; separate the key indicator with a space or quote the scalar"
  | AmbiguousLineBreak =>
      "literal U+0085/U+2028/U+2029 is unsupported in YAML; use LF for line breaks or a Unicode escape in a double-quoted scalar"
  | DocumentKind => "exactly one YAML document is required"
  | Input => "YAML input exceeds the byte limit"
  | Budget => "expanded YAML exceeds the value budget"
  | DepthKind => "YAML nesting exceeds the depth limit"
  | AliasKind => "invalid or excessive YAML alias expansion"
  | TagKind => "unsupported YAML tag"
  | DuplicateKey => "duplicate YAML mapping key"
  | Merge => "YAML merge requires a mapping or list of mappings"
  | TypeKind => "YAML value has an invalid type or range"
  | Serialize => "YAML serialization failed"
  end.

Definition error_display (e : YError) : string :=
  kind_display (ye_kind e) +:+
  match ye_location e with
  | Some (line, column) => " at line " +:+ pretty line +:+ ", column " +:+ pretty column
  | None => ""
  end.

(** ** Events of the scanner *)

Inductive ScalarStyle := Plain | SingleQuoted | DoubleQuoted | Literal | Folded.

#[export] Instance ScalarStyle_eq_dec : EqDecision ScalarStyle.
Proof. solve_decision. Defined.

(** A tag, as far as it is asked: its suffix in [tag:yaml.org,2002:]. *)
Record EventTag := mkEventTag { suffix_in_namespace : option string }.

(** An anchor is 0 when there is none. *)
Inductive Event :=
  | StreamStart | StreamEnd | DocumentStart | DocumentEnd
  | Alias (id : N)
  | Scalar (text : string) (style : ScalarStyle) (anchor : N) (tag : option EventTag)
  | SequenceStart (flow : bool) (anchor : N) (tag : option EventTag)
  | SequenceEnd
  | MappingStart (flow : bool) (anchor : N) (tag : option EventTag)
  | MappingEnd
  | OtherEvent.

Record Span := mkSpan { sp_start : Marker; sp_end : Marker }.

(** What the iterator yields: an event with its place, or where it failed. *)
Definition Item : Type := Result Marker (Event * Span).

(** ** Scalars ([scalar.rs]) *)

Definition check_flow_indicator (text : string) (style : ScalarStyle) (flow : bool) : Result YError () :=
  if flow && bool_decide (style = Plain) && starts_with "?" text then Err (new AmbiguousFlowIndicator) else Ok ().

Definition tag_error : YError := new TagKind.
Definition type_error : YError := new TypeKind.

Definition null (text : string) : bool := bool_decide (text ∈ ["~"; "null"; "Null"; "NULL"]).

Definition boolean (text : string) : option bool :=
  if bool_decide (text ∈ ["true"; "True"; "TRUE"]) then Some true
  else if bool_decide (text ∈ ["false"; "False"; "FALSE"]) then Some false
  else None.

(** [text.strip_prefix] of one character of a set, here the signs *)
Definition strip_sign (text : string) : option string :=
  match strip_prefix "+" text with Some s => Some s | None => strip_prefix "-" text end.

Definition starts_signed (text : string) : bool := starts_with "+" text || starts_with "-" text.

Definition leading_zero_decimal (text : string) : bool :=
  let digits := default text (strip_sign text) in
  Nat.ltb 1 (String.length digits) && starts_with "0" digits && all_chars (in_range 48 57) digits.

Definition is_digit (radix : N) (c : ascii) : bool := match to_digit radix c with Some _ => true | None => false end.

(** [u128::from_str_radix] of valid digits *)
Definition magnitude_of (radix : N) (digits : string) : option N :=
  let '(_, v, _) := read_digits radix digits 0 0 in if N.ltb v (2 ^ 128) then Some v else None.

Definition radix_of (digits : string) : N * string :=
  match strip_prefix "0x" digits with
  | Some d => (16%N, d)
  | None =>
      match strip_prefix "0o" digits with
      | Some d => (8%N, d)
      | None => match strip_prefix "0b" digits with Some d => (2%N, d) | None => (10%N, digits) end
      end
  end.

Definition integer (text : string) : Result YError (option Value) :=
  let '(negative, digits) :=
    match strip_prefix "-" text with
    | Some d => (true, d)
    | None => (false, default text (strip_prefix "+" text))
    end in
  if starts_signed digits || leading_zero_decimal text then Ok None
  else
    let '(radix, digits) := radix_of digits in
    if is_empty digits || negb (all_chars (is_digit radix) digits) then Ok None
    else
      match magnitude_of radix digits with
      | None => Ok None
      | Some magnitude =>
          if negative then
            if N.ltb (2 ^ 127) magnitude then Ok None
            else if N.ltb (2 ^ 63) magnitude then Err type_error
            else Ok (Some (VNumber (number_from_i64 (- Z.of_N magnitude))))
          else if N.leb magnitude u64_max then Ok (Some (VNumber (NU64 magnitude)))
          else Err type_error
      end.

(** The 64 bits of the value nearest to [n / d], or nothing past the range. *)
Definition f64_round (n d : N) : option N :=
  let e := Z.max (F64.floor_log2 n d) (-1022) in
  let mantissa :=
    if Z.leb e 52 then F64.nearest_even (n * 2 ^ Z.to_N (52 - e)) d
    else F64.nearest_even n (d * 2 ^ Z.to_N (e - 52)) in
  let bits := (Z.to_N (e + 1022) * 2 ^ 52 + mantissa)%N in
  if N.ltb bits (2047 * 2 ^ 52) then Some bits else None.

(** The exponent of a decimal text: nothing when malformed. *)
Definition read_exponent (s : string) : option Z :=
  match s with
  | EmptyString => Some 0%Z
  | String c rest =>
      if Ascii.eqb c "e" || Ascii.eqb c "E" then
        let '(negative, digits) :=
          match strip_prefix "-" rest with Some d => (true, d) | None => (false, default rest (strip_prefix "+" rest)) end in
        let '(count, v, rest) := read_digits 10 digits 0 0 in
        if Nat.eqb count 0 || negb (is_empty rest) then None
        else Some (if (negative : bool) then - Z.of_N v else Z.of_N v)%Z
      else None
  end.

(** [f64::from_str], only finite values: the others are dropped anyway. *)
Definition finite_from_str (s : string) : option N :=
  let '(negative, s) :=
    match strip_prefix "-" s with Some d => (true, d) | None => (false, default s (strip_prefix "+" s)) end in
  let '(whole, v, rest) := read_digits 10 s 0 0 in
  let '(places, v, rest) :=
    match strip_prefix "." rest with Some r => read_digits 10 r 0 v | None => (0, v, rest) end in
  if Nat.eqb (whole + places) 0 then None
  else
    exponent ← read_exponent rest;
    let scale := (exponent - Z.of_nat places)%Z in
    bits ← (if N.eqb v 0 then Some 0%N
            else if Z.leb 0 scale then f64_round (v * 10 ^ Z.to_N scale) 1 else f64_round v (10 ^ Z.to_N (- scale)));
    Some (if (negative : bool) then bits + 2 ^ 63 else bits)%N.

Definition F64_INFINITY : N := 2047 * 2 ^ 52.
Definition F64_NEG_INFINITY : N := F64_INFINITY + 2 ^ 63.
Definition F64_NAN : N := 2047 * 2 ^ 52 + 2 ^ 51.

Definition float (text : string) : option N :=
  if bool_decide (text ∈ [".inf"; ".Inf"; ".INF"; "+.inf"; "+.Inf"; "+.INF"]) then Some F64_INFINITY
  else if bool_decide (text ∈ ["-.inf"; "-.Inf"; "-.INF"]) then Some F64_NEG_INFINITY
  else if bool_decide (text ∈ [".nan"; ".NaN"; ".NAN"]) then Some F64_NAN
  else
    let unsigned := default text (strip_prefix "+" text) in
    if starts_with "+" text && starts_signed unsigned then None else finite_from_str unsigned.

Definition resolve (text : string) (style : ScalarStyle) (tag : option EventTag) : Result YError Value :=
  match tag with
  | Some t =>
      let? suffix := ok_or (suffix_in_namespace t) tag_error in
      if String.eqb suffix "bool" then ok_or (VBool <$> boolean text) type_error
      else if String.eqb suffix "null" then if null text then Ok VNull else Err type_error
      else if String.eqb suffix "int" then let? n := integer text in ok_or n type_error
      else if String.eqb suffix "float" then ok_or (VNumber ∘ NF64 <$> float text) type_error
      else Ok (VString text)
  | None =>
      if negb (bool_decide (style = Plain)) then Ok (VString text)
      else if is_empty text || null text then Ok VNull
      else
        match boolean text with
        | Some b => Ok (VBool b)
        | None =>
            let? n := integer text in
            match n with
            | Some v => Ok v
            | None =>
                match (if leading_zero_decimal text then None else float text) with
                | Some bits => Ok (VNumber (NF64 bits))
                | None => Ok (VString text)
                end
            end
        end
  end.

Definition container_tag (tag : option EventTag) : Result YError () :=
  match tag with
  | None => Ok ()
  | Some t => match suffix_in_namespace t with Some _ => Ok () | None => Err tag_error end
  end.

(** ** Equality of values ([value.rs], [number.rs]) *)

Definition is_nan (bits : N) : bool := N.ltb F64_INFINITY (bits mod 2 ^ 63).

(** [impl PartialEq for Number] *)
Definition number_eq (a b : Number) : bool :=
  match a, b with
  | NI64 x, NI64 y => Z.eqb x y
  | NU64 x, NU64 y => N.eqb x y
  | NF64 x, NF64 y =>
      (negb (is_nan x) && negb (is_nan y) && (N.eqb x y || (N.eqb (x mod 2 ^ 63) 0 && N.eqb (y mod 2 ^ 63) 0)))
      || (is_nan x && is_nan y)
  | _, _ => false
  end.

(** [Value == Value]: mappings compare without order. *)
Fixpoint value_eq (a b : Value) : bool :=
  match a, b with
  | VNull, VNull => true
  | VBool x, VBool y => Bool.eqb x y
  | VNumber x, VNumber y => number_eq x y
  | VString x, VString y => String.eqb x y
  | VSequence xs, VSequence ys =>
      (fix go xs ys := match xs, ys with [], [] => true | x :: xs, y :: ys => value_eq x y && go xs ys | _, _ => false end) xs ys
  | VMapping m, VMapping m' =>
      Nat.eqb (length m) (length m') &&
      (fix go m := match m with
         | [] => true
         | (k, v) :: m =>
             match List.find (λ p : Value * Value, value_eq k p.1) m' with Some p => value_eq v p.2 | None => false end && go m
         end) m
  | _, _ => false
  end.

(** [Mapping::contains_key] *)
Definition contains_key (k : Value) (m : list (Value * Value)) : bool := existsb (λ p, value_eq k p.1) m.

Example resolves_hex : resolve "0x1F" Plain None = Ok (VNumber (NU64 31)).
Proof. reflexivity. Qed.
Example resolves_zero_padded : resolve "007" Plain None = Ok (VString "007").
Proof. reflexivity. Qed.
Example resolves_half : resolve "-.5e1" Plain None = Ok (VNumber (NF64 13840687554816376832)).
Proof. vm_compute. reflexivity. Qed.
Example out_of_range : resolve "18446744073709551616" Plain None = Err type_error.
Proof. vm_compute. reflexivity. Qed.
Example smallest : finite_from_str "5e-324" = Some 1%N.
Proof. vm_compute. reflexivity. Qed.
Example too_large : finite_from_str "1.8e308" = None.
Proof. vm_compute. reflexivity. Qed.

(** ** The tree ([parser.rs]) *)

(** What a node says of the tree below it, aliases expanded. *)
Record Meta := mkMeta { nm_mark : Marker; nm_cost : N; nm_height : N; nm_containers : N; nm_jumps : N }.

(** [Node] and [Kind] *)
Inductive YNode :=
  | NScalar (meta : Meta) (value : Result YError Value) (lexical : string)
  | NSequence (meta : Meta) (children : list YNode)
  | NMapping (meta : Meta) (pairs : list (YNode * YNode)).

Definition meta (n : YNode) : Meta := match n with NScalar m _ _ | NSequence m _ | NMapping m _ => m end.

(** [Occurrence] *)
Record Occurrence := mkOccurrence { oc_node : YNode; oc_jumps : N }.

Record Limits := mkLimits { input_bytes : N; expanded_bytes : N; depth_limit : N }.

Definition TEMPLATE : Limits := mkLimits (1024 * 1024) (8 * 1024 * 1024) 10.
Definition SOURCE : Limits := mkLimits (10 * 1024 * 1024) (128 * 1024 * 1024) 128.
Definition GENERATED : Limits := mkLimits u64_max u64_max 128.

(** The reader's fields that change. *)
Record Reader := mkReader {
  rd_items : list Item; rd_anchors : gmap N YNode; rd_remaining : N; rd_events : N; rd_jumps : N }.

(** A step fails, or runs out of fuel, or goes on. *)
Inductive Outcome (S A : Type) :=
  | Done (a : A) (s : S)
  | Fail (e : YError)
  | NoFuel.
Arguments Done {S A} a s.
Arguments Fail {S A} e.
Arguments NoFuel {S A}.

Definition Step (S A : Type) : Type := S → Outcome S A.

Definition ret {S A} (a : A) : Step S A := λ s, Done a s.
Definition fail {S A} (e : YError) : Step S A := λ _, Fail e.
Definition bind {S A B} (m : Step S A) (k : A → Step S B) : Step S B :=
  λ s, match m s with Done a s => k a s | Fail e => Fail e | NoFuel => NoFuel end.
Definition lift {S A} (r : Result YError A) : Step S A := match r with Ok a => ret a | Err e => fail e end.

Declare Scope yaml_scope.
Notation "x <~ m ;; k" := (bind m (λ x, k)) (at level 100, m at next level, right associativity) : yaml_scope.
#[local] Open Scope yaml_scope.

Definition of_input (e : Event) : bool :=
  match e with StreamStart | StreamEnd | DocumentStart | DocumentEnd => false | _ => true end.

Definition saturating_succ (n : N) : N := N.min (n + 1) u64_max.
Definition checked_add (a b : N) : option N := if N.leb (a + b) u64_max then Some (a + b)%N else None.

(** [Reader::next] *)
Definition next : Step Reader (Event * Span) := λ r,
  match rd_items r with
  | [] => Fail (new DocumentKind)
  | Err mark :: _ => Fail (at_mark (new Syntax) mark)
  | Ok (e, span) :: items =>
      Done (e, span) (mkReader items (rd_anchors r) (rd_remaining r)
        (if of_input e then saturating_succ (rd_events r) else rd_events r) (rd_jumps r))
  end.

(** [Reader::expect] *)
Definition expect (matches : Event → bool) : Step Reader () :=
  ev <~ next;; let '(event, span) := ev in
  if matches event then ret () else fail (at_mark (new DocumentKind) (sp_start span)).

(** [Reader::charge] *)
Definition charge (bytes : N) (mark : Marker) : Step Reader () := λ r,
  if N.ltb (rd_remaining r) bytes then Fail (at_mark (new Budget) mark)
  else Done () (mkReader (rd_items r) (rd_anchors r) (rd_remaining r - bytes) (rd_events r) (rd_jumps r)).

Definition add_jumps (n : N) (mark : Marker) : Step Reader () := λ r,
  match checked_add (rd_jumps r) n with
  | Some j => Done () (mkReader (rd_items r) (rd_anchors r) (rd_remaining r) (rd_events r) j)
  | None => Fail (at_mark (new AliasKind) mark)
  end.

Definition anchored (id : N) : Step Reader (option YNode) := λ r, Done (rd_anchors r !! id) r.

(** An anchor names the node from here on; 0 is none. *)
Definition define_anchor (id : N) (n : YNode) : Step Reader () := λ r,
  if N.eqb id 0 then Done () r
  else Done () (mkReader (rd_items r) (<[id := n]> (rd_anchors r)) (rd_remaining r) (rd_events r) (rd_jumps r)).

(** The sums a container keeps while it is read. *)
Record Sums := mkSums { su_cost : N; su_height : N; su_containers : N; su_jumps : N }.

Definition accumulate (child : Occurrence) (s : Sums) : Result YError Sums :=
  let m := meta (oc_node child) in
  let? cost := ok_or (checked_add (su_cost s) (nm_cost m)) (new Budget) in
  let? jumps := ok_or (checked_add (su_jumps s) (oc_jumps child)) (new AliasKind) in
  Ok (mkSums cost (N.max (su_height s) (1 + nm_height m)) (N.max (su_containers s) (1 + nm_containers m)) jumps).

Definition meta_of (mark : Marker) (s : Sums) : Meta :=
  mkMeta mark (su_cost s) (su_height s) (su_containers s) (su_jumps s).

Section reader.
Variables (limits : Limits) (json_keys aliases : bool).

Definition max_depth : N := N.min (depth_limit limits) 128.

(** [Reader::container_depth] *)
Definition container_depth (depth : N) (mark : Marker) : Result YError () :=
  if N.leb 128 depth then Err (at_mark (new DepthKind) mark) else Ok ().

(** [Reader::alias] *)
Definition alias (id depth : N) (mark : Marker) : Step Reader Occurrence :=
  if negb aliases then fail (at_mark (new AliasKind) mark)
  else
    found <~ anchored id;;
    match found with
    | None => fail (at_mark (new AliasKind) mark)
    | Some node =>
        let m := meta node in
        if N.ltb (max_depth - depth) (nm_height m) || N.ltb (128 - depth) (nm_containers m)
        then fail (at_mark (new DepthKind) mark)
        else
          _ <~ charge (nm_cost m) mark;;
          jumps <~ lift (ok_or (checked_add (nm_jumps m) 1) (at_mark (new AliasKind) mark));;
          _ <~ add_jumps jumps mark;;
          ret (mkOccurrence node jumps)
    end.

(** The text of a scalar: a missing one is a plain tilde of no width. *)
Definition scalar_text (text : string) (style : ScalarStyle) (span : Span) : string :=
  if bool_decide (style = Plain) && bool_decide (sp_start span = sp_end span) then "" else text.

(** The bytes a scalar is charged besides its 64. *)
Definition scalar_bytes (text : string) (value : Result YError Value) : N :=
  if json_keys then N.of_nat (String.length text)
  else match value with Ok (VString s) => N.of_nat (String.length s) | _ => 0 end.

(** The scalar's value, kept as an error for keys that only need their text. *)
Definition scalar_value (text : string) (style : ScalarStyle) (tag : option EventTag) (mark : Marker) :
    Result YError (Result YError Value) :=
  match map_err (λ e, at_mark e mark) (resolve text style tag) with
  | Err e => if negb json_keys || negb (bool_decide (ye_kind e = TypeKind)) then Err e else Ok (Err e)
  | value => Ok value
  end.

Definition read_scalar (text : string) (style : ScalarStyle) (tag : option EventTag) (span : Span) (flow : bool) :
    Step Reader YNode :=
  let mark := sp_start span in
  _ <~ lift (map_err (λ e, at_mark e mark) (check_flow_indicator text style flow));;
  let text := scalar_text text style span in
  value <~ lift (scalar_value text style tag mark);;
  let bytes := scalar_bytes text value in
  _ <~ charge bytes mark;;
  ret (NScalar (mkMeta mark (64 + bytes) 0 0 0) value text).

Definition finish (anchor : N) (n : YNode) : Step Reader Occurrence :=
  _ <~ define_anchor anchor n;; ret (mkOccurrence n (nm_jumps (meta n))).

(** [Reader::node] and the loops of its containers. *)
Fixpoint node (fuel : nat) (ev : Event * Span) (depth : N) (flow : bool) {struct fuel} : Step Reader Occurrence :=
  match fuel with
  | O => λ _, NoFuel
  | S fuel =>
      let '(event, span) := ev in
      let mark := sp_start span in
      if N.ltb max_depth depth then fail (at_mark (new DepthKind) mark)
      else
        match event with
        | Alias id => alias id depth mark
        | Scalar text style anchor tag =>
            _ <~ charge 64 mark;;
            n <~ read_scalar text style tag span flow;; finish anchor n
        | SequenceStart style anchor tag =>
            _ <~ charge 64 mark;;
            _ <~ lift (map_err (λ e, at_mark e mark) (container_tag tag));;
            _ <~ lift (container_depth depth mark);;
            read <~ sequence fuel depth (flow || style) (mkSums 64 0 1 0);; let '(children, sums) := read in
            finish anchor (NSequence (meta_of mark sums) children)
        | MappingStart style anchor tag =>
            _ <~ charge 64 mark;;
            _ <~ lift (map_err (λ e, at_mark e mark) (container_tag tag));;
            _ <~ lift (container_depth depth mark);;
            read <~ mapping fuel depth (flow || style) (mkSums 64 0 1 0);; let '(pairs, sums) := read in
            finish anchor (NMapping (meta_of mark sums) pairs)
        | _ => _ <~ charge 64 mark;; fail (at_mark (new Syntax) mark)
        end
  end
with sequence (fuel : nat) (depth : N) (flow : bool) (sums : Sums) {struct fuel} : Step Reader (list YNode * Sums) :=
  match fuel with
  | O => λ _, NoFuel
  | S fuel =>
      ev <~ next;; let '(event, span) := ev in
      match event with
      | SequenceEnd => ret ([], sums)
      | _ =>
          child <~ node fuel (event, span) (depth + 1) flow;;
          sums <~ lift (accumulate child sums);;
          read <~ sequence fuel depth flow sums;; let '(rest, sums) := read in
          ret (oc_node child :: rest, sums)
      end
  end
with mapping (fuel : nat) (depth : N) (flow : bool) (sums : Sums) {struct fuel} :
    Step Reader (list (YNode * YNode) * Sums) :=
  match fuel with
  | O => λ _, NoFuel
  | S fuel =>
      ev <~ next;; let '(event, span) := ev in
      match event with
      | MappingEnd => ret ([], sums)
      | _ =>
          key <~ node fuel (event, span) (depth + 1) flow;;
          ev <~ next;;
          value <~ node fuel ev (depth + 1) flow;;
          sums <~ lift (accumulate key sums);;
          sums <~ lift (accumulate value sums);;
          read <~ mapping fuel depth flow sums;; let '(rest, sums) := read in
          ret ((oc_node key, oc_node value) :: rest, sums)
      end
  end.

End reader.

(** ** Documents *)

(** [check_legacy_line_breaks]: U+0085, U+2028 and U+2029 *)
Definition check_legacy_line_breaks (input : string) : Result YError () :=
  if contains (bytes [194; 133]%N) input || contains (bytes [226; 128; 168]%N) input || contains (bytes [226; 128; 169]%N) input
  then Err (new AmbiguousLineBreak) else Ok ().

Definition is_event (e e' : Event) : bool :=
  match e, e' with
  | StreamStart, StreamStart | StreamEnd, StreamEnd | DocumentStart, DocumentStart | DocumentEnd, DocumentEnd => true
  | _, _ => false
  end.

(** Two rounds per event, and the two of an empty document. *)
Definition fuel_of (items : list Item) : nat := 2 * length items + 2.

Section documents.
(** The scanner: its nesting limit, the text, and the items it yields. *)
Variable scan : N → string → list Item.

Definition nesting (limits : Limits) : N := N.min (N.min (depth_limit limits + 1) u64_max) 129.

(** The whole stream after its start. *)
Definition document (fuel : nat) (limits : Limits) (json_keys aliases : bool) : Step Reader YNode :=
  _ <~ expect (is_event StreamStart);;
  ev <~ next;; let '(start, span) := ev in
  match start with
  | StreamEnd =>
      _ <~ charge 64 (sp_start span);;
      ret (NScalar (mkMeta (sp_start span) 64 0 0 0) (Ok VNull) "")
  | DocumentStart =>
      event <~ next;;
      root <~ node limits json_keys aliases fuel event 0 false;;
      _ <~ expect (is_event DocumentEnd);;
      _ <~ expect (is_event StreamEnd);;
      λ r,
        match rd_items r with
        | _ :: _ => Fail (new DocumentKind)
        | [] =>
            if N.ltb (N.min (rd_events r * 100) u64_max) (rd_jumps r) then Fail (new AliasKind)
            else Done (oc_node root) r
        end
  | _ => fail (at_mark (new DocumentKind) (sp_start span))
  end.

(** [parse] *)
Definition parse (input : string) (limits : Limits) (json_keys aliases : bool) : Outcome Reader YNode :=
  if N.ltb (input_bytes limits) (N.of_nat (String.length input)) then Fail (new Input)
  else
    match check_legacy_line_breaks input with
    | Err e => Fail e
    | Ok _ =>
        let items := scan (nesting limits) input in
        document (fuel_of items) limits json_keys aliases (mkReader items ∅ (expanded_bytes limits) 0 0)
    end.

End documents.

(** ** Projections ([projection.rs]) *)

Definition MERGE_KEY : string := "<<".

(** [Mapping::shift_remove] of a string key, with the value removed. *)
Fixpoint shift_remove (key : string) (m : list (Value * Value)) : option Value * list (Value * Value) :=
  match m with
  | [] => (None, [])
  | (k, v) :: m =>
      if equivalent key k then (Some v, m) else let '(found, rest) := shift_remove key m in (found, (k, v) :: rest)
  end.

(** [map.entry(key).or_insert(value)] *)
Definition or_insert (m : list (Value * Value)) (kv : Value * Value) : list (Value * Value) :=
  if contains_key kv.1 m then m else m ++ [kv].

(** The mappings of the merge key, in order. *)
Fixpoint inherit (mark : Marker) (m : list (Value * Value)) (inherited : list Value) : Result YError (list (Value * Value)) :=
  match inherited with
  | [] => Ok m
  | VMapping entries :: inherited => inherit mark (foldl or_insert m entries) inherited
  | _ :: _ => Err (at_mark (new Merge) mark)
  end.

Definition merge (mark : Marker) (m : list (Value * Value)) : Result YError (list (Value * Value)) :=
  match shift_remove MERGE_KEY m with
  | (None, _) => Ok m
  | (Some v, rest) => inherit mark rest (match v with VSequence items => items | other => [other] end)
  end.

(** The loops of the projections, over the projection of a node. *)
Section loops.
Context {V : Type} (project : YNode → Result YError V).

Fixpoint project_all (l : list YNode) : Result YError (list V) :=
  match l with
  | [] => Ok []
  | n :: l => let? v := project n in let? vs := project_all l in Ok (v :: vs)
  end.
End loops.

Section pairs.
Variables (project : YNode → Result YError Value) (mark : Marker).

Fixpoint project_pairs (l : list (YNode * YNode)) (m : list (Value * Value)) : Result YError (list (Value * Value)) :=
  match l with
  | [] => Ok m
  | (k, v) :: l =>
      let? key := project k in
      if contains_key key m then Err (at_mark (new DuplicateKey) mark)
      else let? value := project v in project_pairs l (m ++ [(key, value)])
  end.
End pairs.

Fixpoint ordered (n : YNode) : Result YError Value :=
  match n with
  | NScalar _ value _ => value
  | NSequence _ children => let? items := project_all ordered children in Ok (VSequence items)
  | NMapping mt pairs =>
      let? m := project_pairs ordered (nm_mark mt) pairs [] in
      let? m := merge (nm_mark mt) m in
      Ok (VMapping m)
  end.

Section json.
(** [serde_json]'s text of a finite float *)
Variable f64_text : N → string.

Definition is_finite (bits : N) : bool := N.ltb (bits mod 2 ^ 63) F64_INFINITY.

Definition json_number (n : Number) : Json :=
  match number_as_u64 n with
  | Some u => JNumber (pretty u)
  | None =>
      match number_as_i64 n with
      | Some i => JNumber (pretty i)
      | None => match n with NF64 bits => if is_finite bits then JNumber (f64_text bits) else JNull | _ => JNull end
      end
  end.

Definition json_scalar (v : Value) : Result YError Json :=
  match v with
  | VNull => Ok JNull
  | VBool b => Ok (JBool b)
  | VNumber n => Ok (json_number n)
  | VString s => Ok (JString s)
  | VSequence _ | VMapping _ => Err (new TypeKind)
  end.

Section members.
Variable project : YNode → Result YError Json.

Fixpoint project_members (l : list (YNode * YNode)) (m : list (string * Json)) : Result YError (list (string * Json)) :=
  match l with
  | [] => Ok m
  | (k, v) :: l =>
      match k with
      | NScalar _ _ lexical => let? value := project v in project_members l (Containers.map_insert lexical value m)
      | k => Err (at_mark (new TypeKind) (nm_mark (meta k)))
      end
  end.
End members.

Fixpoint json (n : YNode) : Result YError Json :=
  match n with
  | NScalar _ value _ => let? v := value in json_scalar v
  | NSequence _ children => let? items := project_all json children in Ok (JArray items)
  | NMapping _ pairs => let? m := project_members json pairs [] in Ok (JObject m)
  end.
End json.

(** ** Entry points ([lib.rs]) *)

Section entry.
Variable scan : N → string → list Item.

(** Running out of fuel is excluded in [YamlTheorems]. *)
Definition result_of {S A} (o : Outcome S A) : option (Result YError A) :=
  match o with Done a _ => Some (Ok a) | Fail e => Some (Err e) | NoFuel => None end.

Definition parsed (input : string) (limits : Limits) (json_keys aliases : bool) : Result YError YNode :=
  default (Err (new Budget)) (result_of (parse scan input limits json_keys aliases)).

Definition parse_value_with_limits (input : string) (limits : Limits) : Result YError Value :=
  let? root := parsed input limits false true in ordered root.

Definition parse_template (input : string) : Result YError Value := parse_value_with_limits input TEMPLATE.

Definition parse_source_json (f64_text : N → string) (input : string) : Result YError Json :=
  let? root := parsed input SOURCE true true in json f64_text root.

Definition parse_generated_value (input : string) : Result YError Value :=
  let? root := parsed input GENERATED false false in ordered root.

End entry.

(** ** Generated output ([generated.rs]) *)

Record Shape := mkShape { captured : option Value; sequence_state : SequenceState }.

(** The inspecting reader: what is left to read, and what was found. *)
Record Inspector := mkInspector { in_items : list Item; in_found : SequenceState }.

Definition inspect_next : Step Inspector (Event * Span) := λ r,
  match in_items r with
  | [] => Fail (new DocumentKind)
  | Err mark :: _ => Fail (at_mark (new Syntax) mark)
  | Ok ev :: items => Done ev (mkInspector items (in_found r))
  end.

Definition inspect_expect (matches : Event → bool) : Step Inspector () :=
  ev <~ inspect_next;; let '(event, span) := ev in
  if matches event then ret () else fail (at_mark (new DocumentKind) (sp_start span)).

Definition set_found (s : SequenceState) : Step Inspector () := λ r, Done () (mkInspector (in_items r) s).

Section inspect.
Variable wanted : string.

Definition capture_of (capture : bool) (v : Value) : option Value := if capture then Some v else None.

Fixpoint inspect (fuel : nat) (ev : Event * Span) (depth : N) (capture flow : bool) {struct fuel} : Step Inspector Shape :=
  match fuel with
  | O => λ _, NoFuel
  | S fuel =>
      let '(event, span) := ev in
      let mark := sp_start span in
      if N.ltb 128 depth then fail (at_mark (new DepthKind) mark)
      else
        match event with
        | Scalar text style _ tag =>
            _ <~ lift (map_err (λ e, at_mark e mark) (check_flow_indicator text style flow));;
            value <~ lift (map_err (λ e, at_mark e mark) (resolve (scalar_text text style span) style tag));;
            ret (mkShape (capture_of capture value) SeqNotSequence)
        | SequenceStart style _ tag =>
            _ <~ lift (map_err (λ e, at_mark e mark) (container_tag tag));;
            _ <~ lift (container_depth depth mark);;
            values <~ inspect_sequence fuel depth capture (flow || style);;
            ret (mkShape (capture_of capture (VSequence values.1)) (if values.2 : bool then SeqNonEmpty else SeqEmpty))
        | MappingStart style _ tag =>
            _ <~ lift (map_err (λ e, at_mark e mark) (container_tag tag));;
            _ <~ lift (container_depth depth mark);;
            values <~ inspect_mapping fuel mark depth capture (flow || style) [] [];;
            ret (mkShape (capture_of capture (VMapping values)) SeqNotSequence)
        | Alias _ => fail (at_mark (new AliasKind) mark)
        | _ => fail (at_mark (new Syntax) mark)
        end
  end
with inspect_sequence (fuel : nat) (depth : N) (capture flow : bool) {struct fuel} : Step Inspector (list Value * bool) :=
  match fuel with
  | O => λ _, NoFuel
  | S fuel =>
      ev <~ inspect_next;;
      match ev.1 with
      | SequenceEnd => ret ([], false)
      | _ =>
          child <~ inspect fuel ev (depth + 1) capture flow;;
          rest <~ inspect_sequence fuel depth capture flow;;
          ret (option_list (captured child) ++ rest.1, true)
      end
  end
with inspect_mapping (fuel : nat) (mark : Marker) (depth : N) (capture flow : bool) (values : list (Value * Value))
    (keys : list Value) {struct fuel} : Step Inspector (list (Value * Value)) :=
  match fuel with
  | O => λ _, NoFuel
  | S fuel =>
      ev <~ inspect_next;;
      match ev.1 with
      | MappingEnd => ret values
      | _ =>
          shape <~ inspect fuel ev (depth + 1) true flow;;
          key <~ lift (ok_or (captured shape) (new TypeKind));;
          if (capture && contains_key key values) || (negb capture && existsb (value_eq key) keys)
          then fail (at_mark (new DuplicateKey) mark)
          else
            ev <~ inspect_next;;
            child <~ inspect fuel ev (depth + 1) capture flow;;
            _ <~ (if N.eqb depth 0 && bool_decide (as_str key = Some wanted) then set_found (sequence_state child) else ret ());;
            match captured child with
            | Some value => inspect_mapping fuel mark depth capture flow (values ++ [(key, value)]) keys
            | None => inspect_mapping fuel mark depth capture flow values (keys ++ [key])
            end
      end
  end.
End inspect.

(** [inspect_generated_sequence] *)
Definition inspect_document (scan : N → string → list Item) (input key : string) : Outcome Inspector SequenceState :=
  match check_legacy_line_breaks input with
  | Err e => Fail e
  | Ok _ =>
      let items := scan 129%N input in
      (_ <~ inspect_expect (is_event StreamStart);;
       _ <~ inspect_expect (is_event DocumentStart);;
       event <~ inspect_next;;
       _ <~ inspect key (fuel_of items) event 0 false false;;
       _ <~ inspect_expect (is_event DocumentEnd);;
       _ <~ inspect_expect (is_event StreamEnd);;
       λ r, match in_items r with _ :: _ => Fail (new DocumentKind) | [] => Done (in_found r) r end)
        (mkInspector items SeqMissing)
  end.

Definition inspect_generated_sequence (scan : N → string → list Item) (input key : string) : Result YError SequenceState :=
  default (Err (new Budget)) (result_of (inspect_document scan input key)).

End YamlRead.
