(* ===== verification/YamlTheorems.v ===== *)
(** * The bounded YAML reader: what it returns is small, and it returns

    [YamlBounds]: the tree the reader builds is charged exactly.  [YamlValues]:
    the values made of it are no larger or deeper, their mappings have distinct
    keys, and merges mean what they should.  [YamlTheorems]: reading ends. *)

(** * The bounded YAML reader: sizes and depths

    The tree the reader builds, with its aliases expanded, is charged exactly:
    what it records is the size and the depth of that tree, and both stay within
    the limits.  The values the projections make of it are no larger, and the
    mappings among them have distinct keys. *)

From Stdlib Require Import Sorting.Sorted Lists.List.
From S2P Require Import Prelude Kernel Node Yaml Text GenTypes Generation Containers YamlRead.
Import Yaml Text YamlRead.

Module YamlBounds.
#[local] Open Scope yaml_scope.

(** ** Trees *)

Section ynode_ind.
Variable P : YNode → Prop.
Hypothesis HScalar : ∀ m v t, P (NScalar m v t).
Hypothesis HSequence : ∀ m l, Forall P l → P (NSequence m l).
Hypothesis HMapping : ∀ m l, Forall (λ p, P p.1 ∧ P p.2) l → P (NMapping m l).

Fixpoint ynode_nested_ind (n : YNode) : P n :=
  match n with
  | NScalar m v t => HScalar m v t
  | NSequence m l => HSequence m l
      ((fix go l : Forall P l :=
        match l with [] => Forall_nil_2 P | n :: l => Forall_cons_2 P n l (ynode_nested_ind n) (go l) end) l)
  | NMapping m l => HMapping m l
      ((fix go l : Forall (λ p, P p.1 ∧ P p.2) l :=
        match l with
        | [] => Forall_nil_2 _
        | p :: l => Forall_cons_2 (λ p, P p.1 ∧ P p.2) p l
            (match p as p0 return P p0.1 ∧ P p0.2 with (k, v) => conj (ynode_nested_ind k) (ynode_nested_ind v) end) (go l)
        end) l)
  end.
End ynode_ind.

(** The size of the expanded tree: 64 for every node, and the bytes of its texts. *)
Fixpoint size (json_keys : bool) (n : YNode) : N :=
  match n with
  | NScalar _ v t => 64 + scalar_bytes json_keys t v
  | NSequence _ l => 64 + foldr (λ n s, size json_keys n + s) 0 l
  | NMapping _ l => 64 + foldr (λ p s, size json_keys p.1 + size json_keys p.2 + s) 0 l
  end%N.

(** The longest path below a node. *)
Fixpoint height (n : YNode) : N :=
  match n with
  | NScalar _ _ _ => 0
  | NSequence _ l => foldr (λ n h, N.max (1 + height n) h) 0 l
  | NMapping _ l => foldr (λ p h, N.max (N.max (1 + height p.1) (1 + height p.2)) h) 0 l
  end%N.

(** The most containers on a path. *)
Fixpoint containers (n : YNode) : N :=
  match n with
  | NScalar _ _ _ => 0
  | NSequence _ l => foldr (λ n h, N.max (1 + containers n) h) 1 l
  | NMapping _ l => foldr (λ p h, N.max (N.max (1 + containers p.1) (1 + containers p.2)) h) 1 l
  end%N.

(** The scalars carry scalar values, and a string is the text that was read. *)
Definition scalar_of (text : string) (v : Value) : Prop :=
  match v with VString s => s = text | VSequence _ | VMapping _ => False | _ => True end.

Fixpoint leaves (n : YNode) : Prop :=
  match n with
  | NScalar _ v t => match v with Ok v => scalar_of t v | Err _ => True end
  | NSequence _ l => foldr (λ n P, leaves n ∧ P) True l
  | NMapping _ l => foldr (λ p P, leaves p.1 ∧ leaves p.2 ∧ P) True l
  end.

Lemma integer_scalar text v t : integer text = Ok (Some v) → scalar_of t v.
Proof. unfold integer. repeat case_match; intros [= <-]; done. Qed.

Lemma resolve_scalar text style tag v : resolve text style tag = Ok v → scalar_of text v.
Proof.
  unfold resolve. destruct tag as [t|].
  - intros H. apply result_bind_Ok in H as (suffix & _ & H). repeat case_match.
    + apply ok_or_Ok, fmap_Some in H as (b & _ & ->). done.
    + by apply Ok_inj in H as <-.
    + done.
    + apply result_bind_Ok in H as (n & Hn & H). apply ok_or_Ok in H as ->. by eapply integer_scalar.
    + apply ok_or_Ok, fmap_Some in H as (b & _ & ->). done.
    + by apply Ok_inj in H as <-.
  - destruct (negb _); [by intros [= <-]|]. destruct (_ || _); [by intros [= <-]|].
    destruct (boolean text); [by intros [= <-]|]. intros H. apply result_bind_Ok in H as ([w|] & Hn & H).
    + apply Ok_inj in H as <-. by eapply integer_scalar.
    + destruct (if leading_zero_decimal text then None else float text); by apply Ok_inj in H as <-.
Qed.

Lemma scalar_value_leaf json_keys m text style tag mark v :
  scalar_value json_keys text style tag mark = Ok v → leaves (NScalar m v text).
Proof.
  unfold scalar_value. destruct (resolve text style tag) eqn:E; cbn [map_err].
  - intros [= <-]. by eapply resolve_scalar.
  - case_match; [done|by intros [= <-]].
Qed.

Lemma scalar_bytes_null json_keys : scalar_bytes json_keys "" (Ok VNull) = 0%N.
Proof. by destruct json_keys. Qed.

Section reader.
Variables (limits : Limits) (json_keys aliases : bool).
Let size := size json_keys.

(** What a node records of itself is true. *)
Definition exact (n : YNode) : Prop :=
  nm_cost (meta n) = size n ∧ nm_height (meta n) = height n ∧ nm_containers (meta n) = containers n ∧
  leaves n.

(** Nothing below a node at this depth is too deep. *)
Definition shallow (depth : N) (n : YNode) : Prop :=
  (depth + height n ≤ max_depth limits)%N ∧ (depth + containers n ≤ 128)%N.

Definition sound (r : Reader) : Prop := ∀ id n, rd_anchors r !! id = Some n → exact n.

(** One occurrence of a node: true records, within the depth, paid for. *)
Definition paid (depth : N) (r : Reader) (n : YNode) (r' : Reader) : Prop :=
  sound r' ∧ exact n ∧ shallow depth n ∧ rd_remaining r = (rd_remaining r' + size n)%N.

Lemma bind_Done {S A B} (m : Step S A) (k : A → Step S B) s b s' :
  bind m k s = Done b s' → ∃ a s1, m s = Done a s1 ∧ k a s1 = Done b s'.
Proof. unfold bind. destruct (m s); [eauto|done|done]. Qed.

Lemma lift_Done {S A} (x : Result YError A) (s : S) a s' : lift x s = Done a s' → x = Ok a ∧ s' = s.
Proof. destruct x; simpl; [by intros [= <- <-]|done]. Qed.

Lemma next_Done r ev r' : next r = Done ev r' → rd_anchors r' = rd_anchors r ∧ rd_remaining r' = rd_remaining r.
Proof. unfold next. destruct (rd_items r) as [|[[e sp]|m] items]; [done| |done]. by intros [= _ <-]. Qed.

Lemma charge_Done b mark r u r' :
  charge b mark r = Done u r' → rd_anchors r' = rd_anchors r ∧ rd_remaining r = (rd_remaining r' + b)%N.
Proof.
  unfold charge. destruct (N.ltb_spec (rd_remaining r) b); [done|]. intros [= <- <-]. simpl. split; [done|lia].
Qed.

Lemma define_Done id n r u r' :
  define_anchor id n r = Done u r' → rd_remaining r' = rd_remaining r ∧ (sound r → exact n → sound r').
Proof.
  unfold define_anchor. destruct (N.eqb id 0); intros [= <- <-]; [done|]. split; [done|].
  intros Hr Hn id' n' Hl. simpl in Hl. apply lookup_insert_Some in Hl as [[_ <-]|[_ Hl]]; [done|by eapply Hr].
Qed.

Lemma sound_same r r' : rd_anchors r' = rd_anchors r → sound r → sound r'.
Proof. intros E H id n Hl. rewrite E in Hl. by eapply H. Qed.

Ltac refold := fold (node limits json_keys aliases) in *; fold (sequence limits json_keys aliases) in *;
  fold (mapping limits json_keys aliases) in *.
Ltac step H := let a := fresh "a" in let r := fresh "r" in let E := fresh "E" in
  apply bind_Done in H as (a & r & E & H).

Lemma alias_paid id depth mark r o r' :
  (depth ≤ max_depth limits)%N → alias limits aliases id depth mark r = Done o r' → sound r → paid depth r (oc_node o) r'.
Proof.
  intros Hd H Hs. unfold alias in H. destruct aliases; [|done]. cbn [negb] in H.
  step H. injection E as <- <-. destruct (rd_anchors r !! id) as [n|] eqn:En; [|done].
  destruct (N.ltb_spec (max_depth limits - depth) (nm_height (meta n))); [done|].
  destruct (N.ltb_spec (128 - depth) (nm_containers (meta n))); [done|]. cbn [orb] in H.
  step H. apply charge_Done in E as [Ea Er]. step H. apply lift_Done in E as [_ ->]. step H.
  unfold add_jumps in E. destruct (checked_add _ _); [|done]. injection E as <- <-. injection H as <- <-.
  destruct (Hs id n En) as (Hc & Hh & Hk & Hl). split_and!.
  - by eapply sound_same.
  - done.
  - unfold shallow, max_depth in *. cbn [oc_node]. rewrite <- Hh, <- Hk. lia.
  - simpl. simpl in Er. by rewrite <- Hc.
Qed.

Lemma finish_paid anchor n depth r o r' :
  finish anchor n r = Done o r' → sound r → exact n → shallow depth n →
  oc_node o = n ∧ sound r' ∧ rd_remaining r' = rd_remaining r.
Proof.
  intros H Hs He Hd. unfold finish in H. step H. apply define_Done in E as [Er Hsound]. injection H as <- <-.
  split_and!; [done|by apply Hsound|done].
Qed.

Lemma scalar_paid text style tag span flow depth r n r' :
  (depth ≤ max_depth limits)%N → read_scalar json_keys text style tag span flow r = Done n r' → sound r →
  sound r' ∧ exact n ∧ shallow depth n ∧ (rd_remaining r + 64 = rd_remaining r' + size n)%N.
Proof.
  intros Hd H Hs. unfold read_scalar in H. step H. apply lift_Done in E as [_ ->]. step H. apply lift_Done in E as [Ev ->].
  step H. apply charge_Done in E as [Ea Er]. injection H as <- <-. split_and!.
  - by eapply sound_same.
  - split_and!; try done. by eapply scalar_value_leaf.
  - unfold shallow, max_depth in *. simpl. lia.
  - unfold size. simpl. lia.
Qed.

Lemma accumulate_Ok o sums sums' :
  accumulate o sums = Ok sums' → exact (oc_node o) →
  su_cost sums' = (su_cost sums + size (oc_node o))%N ∧
  su_height sums' = N.max (su_height sums) (1 + height (oc_node o)) ∧
  su_containers sums' = N.max (su_containers sums) (1 + containers (oc_node o)).
Proof.
  intros H (Hc & Hh & Hk & _). unfold accumulate in H. unfold checked_add in H.
  destruct (N.leb_spec (su_cost sums + nm_cost (meta (oc_node o))) u64_max); [|done]. cbn [ok_or result_bind] in H.
  apply result_bind_Ok in H as (j & _ & H). apply Ok_inj in H as <-. simpl. by rewrite Hc, Hh, Hk.
Qed.

(** The sums of the children, read from a list of them. *)
Definition total (l : list YNode) : N := foldr (λ n s, size n + s)%N 0%N l.
Definition tallest (l : list YNode) : N := foldr (λ n h, N.max (1 + height n) h) 0%N l.
Definition deepest (l : list YNode) : N := foldr (λ n h, N.max (1 + containers n) h) 0%N l.

Definition summed (sums : Sums) (l : list YNode) (sums' : Sums) : Prop :=
  su_cost sums' = (su_cost sums + total l)%N ∧ su_height sums' = N.max (su_height sums) (tallest l) ∧
  su_containers sums' = N.max (su_containers sums) (deepest l).

(** The children of a container at this depth: paid for, and summed up. *)
Definition paid_children (depth : N) (r : Reader) (sums : Sums) (l : list YNode) (sums' : Sums) (r' : Reader) : Prop :=
  sound r' ∧ Forall (shallow (depth + 1)) l ∧ Forall leaves l ∧ rd_remaining r = (rd_remaining r' + total l)%N ∧ summed sums l sums'.

Definition both (l : list (YNode * YNode)) : list YNode := flat_map (λ p, [p.1; p.2]) l.

Lemma paid_nil depth r sums : sound r → paid_children depth r sums [] sums r.
Proof. intros H. unfold paid_children, summed. simpl. split_and!; try done; lia. Qed.

Lemma paid_same depth r r0 sums l sums' r' :
  rd_remaining r0 = rd_remaining r → paid_children depth r0 sums l sums' r' → paid_children depth r sums l sums' r'.
Proof. intros E (? & ? & ? & Hr & ?). split_and!; try done. by rewrite <- E. Qed.

Lemma paid_cons depth r sums o r1 sums1 l sums' r' :
  paid (depth + 1) r (oc_node o) r1 → accumulate o sums = Ok sums1 → paid_children depth r1 sums1 l sums' r' →
  paid_children depth r sums (oc_node o :: l) sums' r'.
Proof.
  intros (_ & He & Hd & Hr) Ha (Hs & Hl & Hv & Hr' & Hc & Hh & Hk).
  destruct (accumulate_Ok _ _ _ Ha He) as (Ac & Ah & Ak). unfold paid_children, summed. simpl. split_and!; [done|by constructor|constructor; [apply He|done]|lia..].
Qed.

Lemma tallest_shallow depth l :
  Forall (shallow (depth + 1)) l → (depth ≤ max_depth limits)%N → (depth < 128)%N →
  (depth + tallest l ≤ max_depth limits)%N ∧ (depth + N.max 1 (deepest l) ≤ 128)%N.
Proof. intros H ? ?. induction H as [|n l [] _ IH]; simpl; [lia|]. destruct IH. lia. Qed.

Lemma size_sequence m l : size (NSequence m l) = (64 + total l)%N.
Proof. done. Qed.
Lemma size_mapping m l : size (NMapping m l) = (64 + total (both l))%N.
Proof. unfold size. simpl. f_equal. induction l as [|[k v] l IH]; simpl; [done|]. rewrite IH. unfold size. lia. Qed.
Lemma height_mapping m l : height (NMapping m l) = tallest (both l).
Proof. simpl. induction l as [|[k v] l IH]; simpl; [done|]. rewrite IH. lia. Qed.
Lemma containers_sequence m l : containers (NSequence m l) = N.max 1 (deepest l).
Proof. simpl. induction l as [|n l IH]; simpl; [done|]. rewrite IH. lia. Qed.
Lemma containers_mapping m l : containers (NMapping m l) = N.max 1 (deepest (both l)).
Proof. simpl. induction l as [|[k v] l IH]; simpl; [done|]. rewrite IH. lia. Qed.

Lemma leaves_sequence m l : Forall leaves l → leaves (NSequence m l).
Proof. intros H. simpl. by induction H. Qed.
Lemma leaves_mapping m l : Forall leaves (both l) → leaves (NMapping m l).
Proof. simpl. induction l as [|[k v] l IH]; simpl; [done|]. rewrite !Forall_cons. intros (? & ? & ?). auto. Qed.

(** A container whose children are summed up from nothing. *)
Lemma container_paid anchor mark depth r r1 sums n l r2 o r' :
  (depth ≤ max_depth limits)%N → (depth < 128)%N → rd_remaining r = (rd_remaining r1 + 64)%N →
  paid_children depth r1 (mkSums 64 0 1 0) l sums r2 → meta n = meta_of mark sums →
  (Forall leaves l → leaves n) → size n = (64 + total l)%N → height n = tallest l → containers n = N.max 1 (deepest l) →
  finish anchor n r2 = Done o r' → paid depth r (oc_node o) r'.
Proof.
  intros Hd Hd' Hr (Hs & Hl & Hv & Hr2 & Hc & Hh & Hk) Hm Hn Es Eh Ek H. destruct (tallest_shallow depth l Hl Hd Hd') as [].
  assert (exact n) as He. { unfold exact. rewrite Hm. simpl in *. split_and!; [lia..|auto]. }
  assert (shallow depth n) as Hsh by (unfold shallow; lia).
  eapply finish_paid in H as (-> & Hs' & Hr'); [|done..]. split_and!; try done. lia.
Qed.

Lemma container_depth_Ok depth mark u : container_depth depth mark = Ok u → (depth < 128)%N.
Proof. unfold container_depth. destruct (N.leb_spec 128 depth); [done|lia]. Qed.

(** One round of a sequence. *)
Lemma sequence_Done fuel depth flow sums r l sums' r' :
  sequence limits json_keys aliases (S fuel) depth flow sums r = Done (l, sums') r' →
  ∃ ev r0, next r = Done ev r0 ∧
    ((l = [] ∧ sums' = sums ∧ r' = r0) ∨
     ∃ o r1 sums1 rest, node limits json_keys aliases fuel ev (depth + 1) flow r0 = Done o r1 ∧ accumulate o sums = Ok sums1 ∧
       sequence limits json_keys aliases fuel depth flow sums1 r1 = Done (rest, sums') r' ∧ l = oc_node o :: rest).
Proof.
  intros H. cbn [sequence] in H. refold. apply bind_Done in H as ([event span] & r0 & E & H).
  exists (event, span), r0. split; [done|].
  destruct event;
    try (step H; apply bind_Done in H as (sums1 & r2 & E1 & H); apply lift_Done in E1 as [E1 ->];
         apply bind_Done in H as ([rest sums2] & r3 & E2 & H); injection H as <- <- <-; right; by eauto 8).
  injection H as <- <- <-. by left.
Qed.

(** One round of a mapping. *)
Lemma mapping_Done fuel depth flow sums r l sums' r' :
  mapping limits json_keys aliases (S fuel) depth flow sums r = Done (l, sums') r' →
  ∃ ev r0, next r = Done ev r0 ∧
    ((l = [] ∧ sums' = sums ∧ r' = r0) ∨
     ∃ k r1 ev' r2 v r3 s1 s2 rest, node limits json_keys aliases fuel ev (depth + 1) flow r0 = Done k r1 ∧
       next r1 = Done ev' r2 ∧ node limits json_keys aliases fuel ev' (depth + 1) flow r2 = Done v r3 ∧
       accumulate k sums = Ok s1 ∧ accumulate v s1 = Ok s2 ∧
       mapping limits json_keys aliases fuel depth flow s2 r3 = Done (rest, sums') r' ∧ l = (oc_node k, oc_node v) :: rest).
Proof.
  intros H. cbn [mapping] in H. refold. apply bind_Done in H as ([event span] & r0 & E & H).
  exists (event, span), r0. split; [done|].
  destruct event;
    try (step H; step H; step H; apply bind_Done in H as (s1 & r4 & E3 & H); apply lift_Done in E3 as [E3 ->];
         apply bind_Done in H as (s2 & r5 & E4 & H); apply lift_Done in E4 as [E4 ->];
         apply bind_Done in H as ([rest s3] & r6 & E5 & H); injection H as <- <- <-; right;
         eexists _, _, _, _, _, _, _, _, _; by split_and!).
  injection H as <- <- <-. by left.
Qed.

Lemma node_paid fuel :
  (∀ ev depth flow r o r', node limits json_keys aliases fuel ev depth flow r = Done o r' → sound r →
     paid depth r (oc_node o) r') ∧
  (∀ depth flow sums r l sums' r', sequence limits json_keys aliases fuel depth flow sums r = Done (l, sums') r' → sound r →
     paid_children depth r sums l sums' r') ∧
  (∀ depth flow sums r l sums' r', mapping limits json_keys aliases fuel depth flow sums r = Done (l, sums') r' → sound r →
     paid_children depth r sums (both l) sums' r').
Proof.
  induction fuel as [|fuel (IHn & IHs & IHm)]; [split_and!; intros; done|]. split_and!.
  - intros [event span] depth flow r o r' H Hs. cbn [node] in H. refold.
    destruct (N.ltb_spec (max_depth limits) depth) as [|Hd]; [done|].
    destruct event; try (step H; discriminate H).
    + by eapply alias_paid.
    + step H. apply charge_Done in E as [Ea Er]. step H.
      apply (scalar_paid _ _ _ _ _ depth) in E as (Hs1 & He & Hsh & Hr); [|done|by eapply sound_same].
      eapply finish_paid in H as (-> & Hs' & Hr'); [|done..]. split_and!; try done. lia.
    + step H. apply charge_Done in E as [Ea Er]. step H. apply lift_Done in E as [_ ->].
      step H. apply lift_Done in E as [E ->]. apply container_depth_Ok in E. apply bind_Done in H as ([l sums] & r1 & E0 & H).
      eapply IHs in E0; [|by eapply sound_same].
      eapply container_paid; try done; auto using containers_sequence, leaves_sequence.
    + step H. apply charge_Done in E as [Ea Er]. step H. apply lift_Done in E as [_ ->].
      step H. apply lift_Done in E as [E ->]. apply container_depth_Ok in E. apply bind_Done in H as ([l sums] & r1 & E0 & H).
      eapply IHm in E0; [|by eapply sound_same].
      eapply container_paid; try done; auto using leaves_mapping, size_mapping, height_mapping, containers_mapping.
  - intros depth flow sums r l sums' r' H Hs. apply sequence_Done in H as (ev & r0 & E & H).
    apply next_Done in E as [Ea Er]. apply (sound_same _ _ Ea) in Hs. apply (paid_same _ _ _ _ _ _ _ Er).
    destruct H as [(-> & -> & ->)|(o & r1 & sums1 & rest & Ho & Hacc & Hrest & ->)]; [by apply paid_nil|].
    apply IHn in Ho; [|done]. apply IHs in Hrest; [|apply Ho]. by eapply paid_cons.
  - intros depth flow sums r l sums' r' H Hs. apply mapping_Done in H as (ev & r0 & E & H).
    apply next_Done in E as [Ea Er]. apply (sound_same _ _ Ea) in Hs. apply (paid_same _ _ _ _ _ _ _ Er).
    destruct H as [(-> & -> & ->)|(k & r1 & ev' & r2 & v & r3 & s1 & s2 & rest & Hk & E & Hv & Ak & Av & Hrest & ->)];
      [by apply paid_nil|].
    apply next_Done in E as [Ea' Er']. apply IHn in Hk; [|done].
    apply IHn in Hv; [|eapply sound_same; [done|apply Hk]]. apply IHm in Hrest; [|apply Hv].
    simpl. eapply paid_cons; [done..|]. apply (paid_same _ _ _ _ _ _ _ Er'). by eapply paid_cons.
Qed.

(** What a whole document is: within the budget and the depth. *)
Lemma document_paid fuel r n r' :
  document fuel limits json_keys aliases r = Done n r' → rd_anchors r = ∅ →
  (size n ≤ rd_remaining r)%N ∧ (height n ≤ max_depth limits)%N ∧ (containers n ≤ 128)%N ∧ leaves n.
Proof.
  intros H Hr. assert (sound r) as Hs by (intros id m Hl; by rewrite Hr in Hl).
  unfold document in H. step H. unfold expect in E. apply bind_Done in E as ([e sp] & r1 & E & E').
  apply next_Done in E as [Ea Er]. destruct (is_event StreamStart e); [|done]. injection E' as <- <-.
  apply bind_Done in H as ([start span] & r2 & E & H). apply next_Done in E as [Ea' Er'].
  destruct start; try done.
  - step H. apply charge_Done in E as [_ Ec]. injection H as <- <-. unfold size. simpl. rewrite scalar_bytes_null. lia.
  - step H. apply next_Done in E as [Ea2 Er2]. step H.
    apply node_paid in E as (_ & He & [Hd Hk] & Hp); [|eapply sound_same; [|done]; congruence].
    step H. step H. destruct (rd_items _); [|done]. destruct (N.ltb _ _); [done|]. injection H as <- <-.
    destruct He as (_ & _ & _ & Hl). split_and!; [lia..|done].
Qed.

Lemma parse_paid scan input n r :
  parse scan input limits json_keys aliases = Done n r →
  (size n ≤ expanded_bytes limits)%N ∧ (height n ≤ max_depth limits)%N ∧ (containers n ≤ 128)%N ∧ leaves n.
Proof.
  unfold parse. destruct (N.ltb _ _); [done|]. destruct (check_legacy_line_breaks input); [|done].
  intros H. by apply document_paid in H.
Qed.

End reader.
End YamlBounds.

(** * The bounded YAML reader: the values that come out

    The projections make nothing larger or deeper than the tree they read, with
    its aliases expanded and its merges done.  The mappings of a template have
    distinct keys and no merge key, and what a key of them means is decided by
    the explicit entries first, then by the merged mappings in order. *)

From Stdlib Require Import Lists.List.
From S2P Require Import Prelude Kernel Node Yaml Text GenTypes Generation Containers YamlRead.
Import Yaml Text YamlRead YamlBounds.

Module YamlValues.

(** ** Sizes of values *)

(** 64 for every value, and the bytes of its strings. *)
Fixpoint vsize (v : Value) : N :=
  match v with
  | VString s => 64 + N.of_nat (String.length s)
  | VSequence l => 64 + foldr (λ v s, vsize v + s) 0 l
  | VMapping m => 64 + foldr (λ p s, vsize p.1 + vsize p.2 + s) 0 m
  | _ => 64
  end%N.

Fixpoint vdepth (v : Value) : N :=
  match v with
  | VSequence l => foldr (λ v h, N.max (1 + vdepth v) h) 0 l
  | VMapping m => foldr (λ p h, N.max (N.max (1 + vdepth p.1) (1 + vdepth p.2)) h) 0 m
  | _ => 0
  end%N.

Definition msize (m : list (Value * Value)) : N := foldr (λ p s, vsize p.1 + vsize p.2 + s)%N 0%N m.
Definition mdepth (m : list (Value * Value)) : N := foldr (λ p h, N.max (N.max (1 + vdepth p.1) (1 + vdepth p.2)) h) 0%N m.
Definition lsize (l : list Value) : N := foldr (λ v s, vsize v + s)%N 0%N l.
Definition ldepth (l : list Value) : N := foldr (λ v h, N.max (1 + vdepth v) h) 0%N l.

(** No key equals an earlier one, and none is the merge key. *)
Definition distinct (m : list (Value * Value)) : Prop := ForallOrdPairs (λ p q : Value * Value, value_eq q.1 p.1 = false) m.
Definition no_merge (m : list (Value * Value)) : Prop := Forall (λ p : Value * Value, equivalent MERGE_KEY p.1 = false) m.

Fixpoint good (v : Value) : Prop :=
  match v with
  | VSequence l => foldr (λ v P, good v ∧ P) True l
  | VMapping m => distinct m ∧ no_merge m ∧ foldr (λ p P, good p.1 ∧ good p.2 ∧ P) True m
  | _ => True
  end.

Definition all_good (m : list (Value * Value)) : Prop := Forall (λ p, good p.1 ∧ good p.2) m.

Lemma good_sequence l : good (VSequence l) ↔ Forall good l.
Proof. simpl. induction l as [|v l IH]; simpl; [by split|]. by rewrite Forall_cons, IH. Qed.

Lemma good_mapping m : good (VMapping m) ↔ distinct m ∧ no_merge m ∧ all_good m.
Proof.
  simpl. assert (foldr (λ p P, good p.1 ∧ good p.2 ∧ P) True m ↔ all_good m) as ->; [|done].
  unfold all_good. induction m as [|p m IH]; simpl; [by split|]. rewrite Forall_cons, IH. tauto.
Qed.

(** ** Mappings grow *)

Lemma msize_cons p m : msize (p :: m) = (vsize p.1 + vsize p.2 + msize m)%N.
Proof. done. Qed.
Lemma mdepth_cons p m : mdepth (p :: m) = N.max (N.max (1 + vdepth p.1) (1 + vdepth p.2)) (mdepth m).
Proof. done. Qed.
Lemma msize_snoc m p : msize (m ++ [p]) = (msize m + (vsize p.1 + vsize p.2))%N.
Proof. unfold msize. induction m as [|q m IH]; simpl; [lia|]. rewrite IH. lia. Qed.
Lemma mdepth_snoc m p : mdepth (m ++ [p]) = N.max (mdepth m) (N.max (1 + vdepth p.1) (1 + vdepth p.2)).
Proof. unfold mdepth. induction m as [|q m IH]; simpl; [lia|]. rewrite IH. lia. Qed.

Lemma distinct_snoc m p : distinct m → contains_key p.1 m = false → distinct (m ++ [p]).
Proof.
  unfold distinct, contains_key. intros H Hp. induction H as [|q m Hq H IH]; simpl in *.
  - repeat constructor.
  - apply orb_false_iff in Hp as [Hq' Hp]. constructor; [|auto]. apply Forall_app. split; [done|]. by constructor.
Qed.

(** What an insertion keeps. *)
Definition well (m : list (Value * Value)) : Prop := distinct m ∧ all_good m.

Lemma well_snoc m p : well m → contains_key p.1 m = false → good p.1 → good p.2 → well (m ++ [p]).
Proof. intros [Hd Hg] Hc H1 H2. split; [by apply distinct_snoc|]. apply Forall_app. split; [done|]. by constructor. Qed.

Lemma or_insert_size m p : (msize (or_insert m p) ≤ msize m + (vsize p.1 + vsize p.2))%N.
Proof. unfold or_insert. case_match; [lia|]. rewrite msize_snoc. lia. Qed.
Lemma or_insert_depth m p : (mdepth (or_insert m p) ≤ N.max (mdepth m) (N.max (1 + vdepth p.1) (1 + vdepth p.2)))%N.
Proof. unfold or_insert. case_match; [lia|]. rewrite mdepth_snoc. lia. Qed.

Lemma or_insert_well m p : well m → good p.1 → good p.2 → well (or_insert m p).
Proof. intros. unfold or_insert. destruct (contains_key p.1 m) eqn:E; [done|]. by apply well_snoc. Qed.

Lemma or_insert_no_merge m p : no_merge m → equivalent MERGE_KEY p.1 = false → no_merge (or_insert m p).
Proof. intros. unfold or_insert. case_match; [done|]. apply Forall_app. split; [done|]. by constructor. Qed.

Lemma entries_size l m : (msize (foldl or_insert m l) ≤ msize m + msize l)%N.
Proof.
  revert m. induction l as [|p l IH]; intros m; cbn [foldl]; [lia|].
  pose proof (or_insert_size m p). specialize (IH (or_insert m p)). rewrite msize_cons. lia.
Qed.

Lemma entries_depth l m : (mdepth (foldl or_insert m l) ≤ N.max (mdepth m) (mdepth l))%N.
Proof.
  revert m. induction l as [|p l IH]; intros m; cbn [foldl]; [lia|].
  pose proof (or_insert_depth m p). specialize (IH (or_insert m p)). rewrite mdepth_cons. lia.
Qed.

Lemma entries_well l m :
  well m → no_merge m → all_good l → no_merge l → well (foldl or_insert m l) ∧ no_merge (foldl or_insert m l).
Proof.
  revert m. induction l as [|p l IH]; intros m Hm Hn Hl Hln; simpl; [done|].
  apply Forall_cons in Hl as [[] ?]. apply Forall_cons in Hln as [? ?].
  apply IH; auto using or_insert_well, or_insert_no_merge.
Qed.

(** ** Merging *)

Lemma inherit_bounded mark inherited m m' :
  inherit mark m inherited = Ok m' →
  (msize m' ≤ msize m + lsize inherited)%N ∧ (mdepth m' ≤ N.max (mdepth m) (ldepth inherited))%N.
Proof.
  revert m. induction inherited as [|v l IH]; intros m H; simpl in H; [apply Ok_inj in H as <-; simpl; lia|].
  destruct v as [| | | | |entries]; try done. destruct (IH _ H) as [].
  pose proof (entries_size entries m). pose proof (entries_depth entries m).
  unfold lsize, ldepth in *. simpl. fold (msize entries) (mdepth entries). lia.
Qed.

Lemma inherit_well mark inherited m m' :
  inherit mark m inherited = Ok m' → well m → no_merge m → Forall good inherited → well m' ∧ no_merge m'.
Proof.
  revert m. induction inherited as [|v l IH]; intros m H Hm Hn Hl; simpl in H; [by apply Ok_inj in H as <-|].
  destruct v as [| | | | |entries]; try done. apply Forall_cons in Hl as [Hv Hl].
  apply good_mapping in Hv as (_ & Hn' & Hg). destruct (entries_well entries m Hm Hn Hg Hn') as []. by eapply IH.
Qed.

(** What removing a key takes out. *)
Lemma shift_remove_Some key m v rest :
  shift_remove key m = (Some v, rest) → ∃ k before after, equivalent key k = true ∧ m = before ++ (k, v) :: after ∧
    rest = before ++ after ∧ Forall (λ p, equivalent key p.1 = false) before.
Proof.
  revert rest. induction m as [|[k w] m IH]; intros rest H; simpl in H; [done|].
  destruct (equivalent key k) eqn:E.
  - injection H as <- <-. by exists k, [], m.
  - destruct (shift_remove key m) as [found rest'] eqn:Er. injection H as -> <-.
    destruct (IH _ eq_refl) as (k' & before & after & ? & -> & -> & ?).
    exists k', ((k, w) :: before), after. split_and!; try done. by constructor.
Qed.

Lemma shift_remove_None key m rest :
  shift_remove key m = (None, rest) → Forall (λ p, equivalent key p.1 = false) m.
Proof.
  revert rest. induction m as [|[k w] m IH]; intros rest H; simpl in H; [constructor|].
  destruct (equivalent key k) eqn:E; [done|]. destruct (shift_remove key m) as [found rest'] eqn:Er.
  injection H as -> <-. constructor; [done|]. by eapply IH.
Qed.

Lemma msize_app l l' : msize (l ++ l') = (msize l + msize l')%N.
Proof. unfold msize. induction l as [|p l IH]; simpl; [done|]. rewrite IH. lia. Qed.
Lemma mdepth_app l l' : mdepth (l ++ l') = N.max (mdepth l) (mdepth l').
Proof. unfold mdepth. induction l as [|p l IH]; simpl; [lia|]. rewrite IH. lia. Qed.

Lemma equivalent_eq key k : equivalent key k = true → k = VString key.
Proof. intros H. apply bool_decide_eq_true in H. destruct k; try done. by injection H as ->. Qed.

Lemma value_eq_key key k : value_eq k (VString key) = equivalent key k.
Proof. unfold equivalent. destruct k; simpl; try done. destruct (String.eqb_spec s key) as [->|];
  symmetry; [by apply bool_decide_eq_true|]. apply bool_decide_eq_false. by intros [= ->]. Qed.

(** Taking one entry out of a well-formed mapping; the keys after it differ. *)
Lemma distinct_remove before p after :
  distinct (before ++ p :: after) → distinct (before ++ after) ∧ Forall (λ q, value_eq q.1 p.1 = false) after.
Proof.
  unfold distinct. induction before as [|q before IH]; simpl; inversion 1 as [|? ? Hq H']; subst; [done|].
  destruct (IH H') as [? ?]. split; [|done]. constructor; [|done].
  apply Forall_app in Hq as [? Hq]. apply Forall_cons in Hq as [_ ?]. by apply Forall_app.
Qed.

Definition inherited_of (v : Value) : list Value := match v with VSequence items => items | other => [other] end.

Lemma inherited_size v : (lsize (inherited_of v) ≤ vsize v)%N.
Proof. destruct v; simpl; unfold lsize; simpl; lia. Qed.
Lemma inherited_depth v : (ldepth (inherited_of v) ≤ 1 + vdepth v)%N.
Proof. destruct v; simpl; unfold ldepth; simpl; lia. Qed.
Lemma inherited_good v : good v → Forall good (inherited_of v).
Proof. intros H. destruct v; cbn [inherited_of]; try (by apply Forall_singleton). by apply good_sequence. Qed.

Lemma merge_bounded mark m m' :
  merge mark m = Ok m' → (msize m' ≤ msize m)%N ∧ (mdepth m' ≤ mdepth m)%N.
Proof.
  unfold merge. destruct (shift_remove MERGE_KEY m) as [[v|] rest] eqn:E; [|intros [= <-]; lia].
  apply shift_remove_Some in E as (k & before & after & _ & -> & -> & _). intros H.
  apply (inherit_bounded mark (inherited_of v)) in H as [Hs Hd].
  pose proof (inherited_size v). pose proof (inherited_depth v).
  rewrite !msize_app, !msize_cons, !mdepth_app, !mdepth_cons in *. simpl. lia.
Qed.

Lemma merge_good mark m m' : merge mark m = Ok m' → well m → good (VMapping m').
Proof.
  intros H [Hd Hg]. apply good_mapping. unfold merge in H.
  destruct (shift_remove MERGE_KEY m) as [[v|] rest] eqn:E.
  - apply shift_remove_Some in E as (k & before & after & Hk & -> & -> & Hb). apply equivalent_eq in Hk as ->.
    apply distinct_remove in Hd as [Hd Ha]. apply Forall_app in Hg as [Hgb Hga].
    apply Forall_cons in Hga as [[_ Hv] Hga].
    apply (inherit_well mark (inherited_of v)) in H as [[? ?] ?]; [by split_and!| | |by apply inherited_good].
    + split; [done|]. by apply Forall_app.
    + apply Forall_app. split; [done|]. eapply Forall_impl; [exact Ha|]. intros p Hp. by rewrite <- value_eq_key.
  - apply Ok_inj in H as <-. split_and!; [done| |done]. by eapply shift_remove_None.
Qed.

(** ** Projecting a tree *)

Lemma project_all_size l vs :
  Forall (λ n, ∀ v, ordered n = Ok v → leaves n → (vsize v ≤ size false n)%N ∧ (vdepth v ≤ height n)%N ∧ good v) l →
  project_all ordered l = Ok vs → Forall leaves l →
  (lsize vs ≤ total false l)%N ∧ (ldepth vs ≤ tallest l)%N ∧ Forall good vs.
Proof.
  intros HF. revert vs. induction HF as [|n l Hn _ IH]; intros vs H Hl; simpl in H; [by apply Ok_inj in H as <-|].
  apply result_bind_Ok in H as (v & Hv & H). apply result_bind_Ok in H as (vs' & Hvs & H). apply Ok_inj in H as <-.
  apply Forall_cons in Hl as [Hln Hl]. destruct (Hn v Hv Hln) as (? & ? & ?). destruct (IH vs' Hvs Hl) as (? & ? & ?).
  unfold lsize, ldepth, total, tallest in *. simpl. split_and!; [lia..|by constructor].
Qed.

Lemma project_pairs_size mark l m m' :
  Forall (λ n, ∀ v, ordered n = Ok v → leaves n → (vsize v ≤ size false n)%N ∧ (vdepth v ≤ height n)%N ∧ good v) (both l) →
  project_pairs ordered mark l m = Ok m' → Forall leaves (both l) → well m →
  (msize m' ≤ msize m + total false (both l))%N ∧ (mdepth m' ≤ N.max (mdepth m) (tallest (both l)))%N ∧ well m'.
Proof.
  revert m. induction l as [|[k v] l IH]; intros m HF H Hl Hm; simpl in *; [apply Ok_inj in H as <-; split_and!; [lia..|done]|].
  apply result_bind_Ok in H as (key & Hk & H). destruct (contains_key key m) eqn:Ec; [done|].
  apply result_bind_Ok in H as (value & Hv & H).
  apply Forall_cons in HF as [Fk HF]. apply Forall_cons in HF as [Fv HF].
  apply Forall_cons in Hl as [Lk Hl]. apply Forall_cons in Hl as [Lv Hl].
  destruct (Fk _ Hk Lk) as (? & ? & ?). destruct (Fv _ Hv Lv) as (? & ? & ?).
  apply IH in H as (Hs & Hd & Hw); [|done|done|by apply well_snoc].
  rewrite msize_snoc in Hs. rewrite mdepth_snoc in Hd. simpl in Hs, Hd. split_and!; [lia..|done].
Qed.

Lemma leaves_both m l : leaves (NMapping m l) → Forall leaves (both l).
Proof. simpl. induction l as [|[k v] l IH]; simpl; [constructor|]. intros (? & ? & ?). auto. Qed.
Lemma leaves_children m l : leaves (NSequence m l) → Forall leaves l.
Proof. simpl. induction l as [|v l IH]; simpl; [constructor|]. intros (? & ?). auto. Qed.

Lemma Forall_both (P : YNode → Prop) l : Forall (λ p, P p.1 ∧ P p.2) l → Forall P (both l).
Proof. induction 1 as [|[k v] l [? ?] _ IH]; simpl; auto. Qed.

Lemma ordered_bounded n v :
  ordered n = Ok v → leaves n → (vsize v ≤ size false n)%N ∧ (vdepth v ≤ height n)%N ∧ good v.
Proof.
  revert v. induction n as [m value t|m l IH|m l IH] using ynode_nested_ind; intros v H Hl; cbn [ordered] in H.
  - subst value. destruct v; simpl in *; try done; subst; split_and!; try done; lia.
  - apply result_bind_Ok in H as (vs & Hvs & H). apply Ok_inj in H as <-.
    destruct (project_all_size l vs IH Hvs (leaves_children _ _ Hl)) as (? & ? & ?).
    split_and!; [| |by apply good_sequence].
    + rewrite size_sequence. simpl. fold (lsize vs). lia.
    + done.
  - apply result_bind_Ok in H as (m1 & H1 & H). apply result_bind_Ok in H as (m2 & H2 & H). apply Ok_inj in H as <-.
    apply project_pairs_size in H1 as (Hs & Hd & Hw); [|by apply Forall_both|by eapply leaves_both|by split; constructor].
    destruct (merge_bounded _ _ _ H2) as [].
    split_and!; [| |by eapply merge_good].
    + rewrite size_mapping. simpl. fold (msize m2). simpl in Hs. lia.
    + rewrite height_mapping. simpl. fold (mdepth m2). simpl in Hd. lia.
Qed.

Lemma parsed_Ok scan input limits json_keys aliases n :
  parsed scan input limits json_keys aliases = Ok n → ∃ r, parse scan input limits json_keys aliases = Done n r.
Proof. unfold parsed. destruct (parse _ _ _ _ _) as [n' r| |]; simpl; [|done|done]. intros [= <-]. by exists r. Qed.

(** ** What a merged key means *)

Lemma get_nil s : get (VMapping []) s = None.
Proof. done. Qed.
Lemma get_cons p m s : get (VMapping (p :: m)) s = if equivalent s p.1 then Some p.2 else get (VMapping m) s.
Proof. unfold get. simpl. by destruct (equivalent s p.1). Qed.
Lemma get_app m l s : get (VMapping (m ++ l)) s = get (VMapping m) s ∪ get (VMapping l) s.
Proof.
  induction m as [|p m IH]; [cbn [app]; rewrite get_nil; by destruct (get (VMapping l) s)|]. change ((p :: m) ++ l) with (p :: (m ++ l)).
  rewrite !get_cons. destruct (equivalent s p.1); [by destruct (get (VMapping l) s)|done].
Qed.

Lemma get_contains m s : contains_key (VString s) m = true → get (VMapping m) s ≠ None.
Proof.
  unfold contains_key. induction m as [|p m IH]; [done|]. rewrite get_cons. cbn [existsb]. intros H.
  destruct (equivalent s p.1) eqn:E; [done|]. apply IH. apply orb_true_iff in H as [H|H]; [|done].
  destruct (p.1) as [| | |t| |]; try done. simpl in H. apply String.eqb_eq in H as ->.
  unfold equivalent in E. simpl in E. apply bool_decide_eq_false in E. done.
Qed.

Lemma get_or_insert m p s : get (VMapping (or_insert m p)) s = get (VMapping m) s ∪ get (VMapping [p]) s.
Proof.
  unfold or_insert. destruct (contains_key p.1 m) eqn:E; [|apply get_app]. rewrite get_cons, get_nil.
  destruct (equivalent s p.1) eqn:Es; [|by destruct (get (VMapping m) s)].
  apply equivalent_eq in Es. rewrite Es in E. apply get_contains in E. by destruct (get (VMapping m) s).
Qed.

Lemma get_entries l m s : get (VMapping (foldl or_insert m l)) s = get (VMapping m) s ∪ get (VMapping l) s.
Proof.
  revert m. induction l as [|p l IH]; intros m; cbn [foldl]; [by destruct (get (VMapping m) s)|].
  rewrite IH, get_or_insert, !get_cons, get_nil. by destruct (get (VMapping m) s), (equivalent s p.1), (get (VMapping l) s).
Qed.

(** The first of the mappings with the key. *)
Definition first_of (s : string) (l : list Value) : option Value := foldr (λ e r, get e s ∪ r) None l.

Lemma get_inherit mark l m m' s :
  inherit mark m l = Ok m' → get (VMapping m') s = get (VMapping m) s ∪ first_of s l.
Proof.
  revert m. induction l as [|v l IH]; intros m H; simpl in H; [apply Ok_inj in H as <-; by destruct (get (VMapping m) s)|].
  destruct v as [| | | | |entries]; try done. rewrite (IH _ H), get_entries. cbn [first_of foldr]. fold (first_of s l).
  by destruct (get (VMapping m) s), (get (VMapping entries) s), (first_of s l).
Qed.

Lemma inherit_mappings mark l m m' : inherit mark m l = Ok m' → Forall (λ e, is_Some (as_mapping e)) l.
Proof. revert m. induction l as [|v l IH]; intros m H; [constructor|]. destruct v; try done. constructor; [done|by eapply IH]. Qed.

(** The mappings a merge key names. *)
Definition merged (m : list (Value * Value)) : list Value :=
  match get (VMapping m) MERGE_KEY with Some v => inherited_of v | None => [] end.

Lemma get_unless m s : Forall (λ p, equivalent s p.1 = false) m → get (VMapping m) s = None.
Proof. induction 1 as [|p m H _ IH]; [done|]. by rewrite get_cons, H. Qed.

(** C27: What a key of a mapping with merges means: the explicit entries decide
    first, then the mappings under the merge key, the earlier before the later.
    A merge key that names anything but mappings is refused. *)
Theorem merge_lookup (mark : Marker) (m m' : list (Value * Value)) (s : string) :
  merge mark m = Ok m' → s ≠ MERGE_KEY →
  get (VMapping m') s = get (VMapping m) s ∪ first_of s (merged m) ∧
  Forall (λ e, is_Some (as_mapping e)) (merged m).
Proof.
  intros H Hs. unfold merge in H. destruct (shift_remove MERGE_KEY m) as [[v|] rest] eqn:E.
  - apply shift_remove_Some in E as (k & before & after & Hk & -> & -> & Hb). apply equivalent_eq in Hk as ->.
    assert (merged (before ++ (VString MERGE_KEY, v) :: after) = inherited_of v) as ->.
    { unfold merged. by rewrite get_app, (get_unless before), get_cons by done. }
    split; [|by eapply inherit_mappings]. rewrite (get_inherit _ (inherited_of v) _ _ s H), !get_app, get_cons. cbn [fst].
    assert (equivalent s (VString MERGE_KEY) = false) as -> by (apply bool_decide_eq_false; by intros [= E]).
    done.
  - apply Ok_inj in H as <-. assert (merged m = []) as ->.
    { unfold merged. by rewrite get_unless by (by eapply shift_remove_None). }
    split; [by destruct (get (VMapping m) s)|constructor].
Qed.

(** ** JSON *)

Fixpoint jsize (j : Json) : N :=
  match j with
  | JString s => 64 + N.of_nat (String.length s)
  | JArray l => 64 + foldr (λ j s, jsize j + s) 0 l
  | JObject m => 64 + foldr (λ p s, 64 + N.of_nat (String.length p.1) + jsize p.2 + s) 0 m
  | _ => 64
  end%N.

Fixpoint jdepth (j : Json) : N :=
  match j with
  | JArray l => foldr (λ j h, N.max (1 + jdepth j) h) 0 l
  | JObject m => foldr (λ p h, N.max (1 + jdepth p.2) h) 0 m
  | _ => 0
  end%N.

Definition osize (m : list (string * Json)) : N :=
  foldr (λ p s, 64 + N.of_nat (String.length p.1) + jsize p.2 + s)%N 0%N m.
Definition odepth (m : list (string * Json)) : N := foldr (λ p h, N.max (1 + jdepth p.2) h)%N 0%N m.

Lemma osize_cons p m : osize (p :: m) = (64 + N.of_nat (String.length p.1) + jsize p.2 + osize m)%N.
Proof. done. Qed.
Lemma odepth_cons p m : odepth (p :: m) = N.max (1 + jdepth p.2) (odepth m).
Proof. done. Qed.

Lemma insert_bounded k j m :
  (osize (Containers.map_insert k j m) ≤ 64 + N.of_nat (String.length k) + jsize j + osize m)%N ∧
  (odepth (Containers.map_insert k j m) ≤ N.max (1 + jdepth j) (odepth m))%N.
Proof.
  induction m as [|[k' j'] m [IHs IHd]]; cbn [Containers.map_insert]; [rewrite osize_cons, odepth_cons; simpl; lia|].
  destruct (String.compare k k'); rewrite !osize_cons, !odepth_cons; simpl; lia.
Qed.

Section json.
Variable f64_text : N → string.

Definition json_fits (n : YNode) : Prop :=
  ∀ j, json f64_text n = Ok j → leaves n → (jsize j ≤ size true n)%N ∧ (jdepth j ≤ height n)%N.

Lemma json_items_bounded l js :
  Forall json_fits l → project_all (json f64_text) l = Ok js → Forall leaves l →
  (foldr (λ j s, jsize j + s) 0 js ≤ total true l)%N ∧ (foldr (λ j h, N.max (1 + jdepth j) h) 0 js ≤ tallest l)%N.
Proof.
  intros HF. revert js. induction HF as [|n l Hn _ IH]; intros js H Hl; simpl in H; [by apply Ok_inj in H as <-|].
  apply result_bind_Ok in H as (j & Hj & H). apply result_bind_Ok in H as (js' & Hjs & H). apply Ok_inj in H as <-.
  apply Forall_cons in Hl as [Hln Hl]. destruct (Hn j Hj Hln) as (? & ?). destruct (IH js' Hjs Hl) as (? & ?).
  unfold total, tallest in *. simpl. lia.
Qed.

Lemma json_members_bounded l m m' :
  Forall json_fits (both l) → project_members (json f64_text) l m = Ok m' → Forall leaves (both l) →
  (osize m' ≤ osize m + total true (both l))%N ∧ (odepth m' ≤ N.max (odepth m) (tallest (both l)))%N.
Proof.
  revert m. induction l as [|[k v] l IH]; intros m HF H Hl; simpl in *; [apply Ok_inj in H as <-; lia|].
  apply Forall_cons in HF as [_ HF]. apply Forall_cons in HF as [Fv HF].
  apply Forall_cons in Hl as [_ Hl]. apply Forall_cons in Hl as [Lv Hl].
  destruct k as [mk value lexical| |]; [|done|done]. apply result_bind_Ok in H as (j & Hj & H).
  destruct (Fv _ Hj Lv) as [? ?]. apply IH in H as [Hs Hd]; [|done|done].
  destruct (insert_bounded lexical j m) as [? ?]. simpl in *. lia.
Qed.

Lemma json_bounded n : json_fits n.
Proof.
  induction n as [m value t|m l IH|m l IH] using ynode_nested_ind; intros j H Hl; cbn [json] in H.
  - apply result_bind_Ok in H as (v & -> & H). destruct v; simpl in *; try done; apply Ok_inj in H as <-; simpl; try lia.
    + unfold json_number. repeat case_match; simpl; lia.
    + subst. lia.
  - apply result_bind_Ok in H as (js & Hjs & H). apply Ok_inj in H as <-.
    destruct (json_items_bounded l js IH Hjs (leaves_children _ _ Hl)) as (? & ?).
    rewrite size_sequence. split; simpl; [lia|done].
  - apply result_bind_Ok in H as (ms & Hms & H). apply Ok_inj in H as <-.
    apply json_members_bounded in Hms as (Hs & Hd); [|by apply Forall_both|by eapply leaves_both].
    rewrite size_mapping, height_mapping. simpl in *. fold (osize ms) (odepth ms). lia.
Qed.
End json.

(** C11: YAML that is read is small.  Whatever the scanner yields, with aliases
    expanded and merges done, a template counts at most 8 MiB, at 64 bytes for
    every value and the bytes of every string; no path in it is longer than 10,
    and every mapping in it has pairwise different keys and no merge key left.
    The JSON form of a source counts at most 128 MiB, and no path in it is
    longer than 128. *)
Theorem yaml_bounded (scan : N → string → list Item) (f64_text : N → string) (input source : string) (v : Value) (j : Json) :
  parse_template scan input = Ok v → parse_source_json scan f64_text source = Ok j →
  ((vsize v ≤ 8 * 1024 * 1024)%N ∧ (vdepth v ≤ 10)%N ∧ good v) ∧ (jsize j ≤ 128 * 1024 * 1024)%N ∧ (jdepth j ≤ 128)%N.
Proof.
  unfold parse_template, parse_value_with_limits, parse_source_json. intros Hv Hj. split.
  - apply result_bind_Ok in Hv as (n & Hn & H).
    apply parsed_Ok in Hn as (r & Hn). apply parse_paid in Hn as (Hs & Hh & _ & Hl).
    destruct (ordered_bounded n v H Hl) as (? & ? & ?). simpl in Hs. change (max_depth TEMPLATE) with 10%N in Hh.
    split_and!; [lia..|done].
  - apply result_bind_Ok in Hj as (n & Hn & H).
    apply parsed_Ok in Hn as (r & Hn). apply parse_paid in Hn as (Hs & Hh & _ & Hl).
    destruct (json_bounded f64_text n j H Hl) as (? & ?). simpl in Hs. change (max_depth SOURCE) with 128%N in Hh. lia.
Qed.

(** ** A document with an anchor, an alias and a merge *)

Definition demo_mark : Marker := mkMarker 0 1 0.
Definition demo_span : Span := mkSpan demo_mark (mkMarker 1 1 1).
Definition demo_scalar (text : string) : Item := Ok (Scalar text Plain 0 None, demo_span).
Definition demo_event (e : Event) : Item := Ok (e, demo_span).

(** [{base: &a {port: 1}, used: {<<: *a, name: x}}] *)
Definition demo_items : list Item :=
  [demo_event StreamStart; demo_event DocumentStart; demo_event (MappingStart true 0 None);
   demo_scalar "base"; demo_event (MappingStart true 1 None); demo_scalar "port"; demo_scalar "1"; demo_event MappingEnd;
   demo_scalar "used"; demo_event (MappingStart true 0 None); demo_scalar "<<"; demo_event (Alias 1);
   demo_scalar "name"; demo_scalar "x"; demo_event MappingEnd;
   demo_event MappingEnd; demo_event DocumentEnd; demo_event StreamEnd].

Definition demo_port : Value * Value := (VString "port", VNumber (NU64 1)).
Definition demo_value : Value :=
  VMapping [(VString "base", VMapping [demo_port]);
            (VString "used", VMapping [(VString "name", VString "x"); demo_port])].

(** As a source, with the merge left to the reader. *)
Definition demo_json : Json :=
  JObject [("base", JObject [("port", JNumber "1")]);
           ("used", JObject [("<<", JObject [("port", JNumber "1")]); ("name", JString "x")])].

Lemma yaml_bounded_witness :
  ((vsize demo_value ≤ 8 * 1024 * 1024)%N ∧ (vdepth demo_value ≤ 10)%N ∧ good demo_value) ∧
  (jsize demo_json ≤ 128 * 1024 * 1024)%N ∧ (jdepth demo_json ≤ 128)%N.
Proof.
  apply (yaml_bounded (λ _ _, demo_items) (λ _, "") "" "" demo_value demo_json); vm_compute; reflexivity.
Defined.

Lemma merge_lookup_witness :
  get (VMapping [(VString "name", VString "x"); demo_port]) "port" = Some (VNumber (NU64 1)) ∧
  Forall (λ e, is_Some (as_mapping e)) (merged [(VString MERGE_KEY, VMapping [demo_port]); (VString "name", VString "x")]).
Proof.
  apply (merge_lookup demo_mark [(VString MERGE_KEY, VMapping [demo_port]); (VString "name", VString "x")]
    [(VString "name", VString "x"); demo_port] "port"); [vm_compute; reflexivity|discriminate].
Defined.

End YamlValues.

(** * The bounded YAML reader: reading ends

    Whatever the scanner yields, the reader and the inspection of generated
    output return a result: every round takes an event off the items, and a
    node takes one round more than the loop it is read in. *)

From S2P Require Import Prelude Kernel Node Yaml Text GenTypes Generation Containers YamlRead.
Import Yaml Text YamlRead.

Module YamlTheorems.

(** ** Reading ends *)

(** Not out of fuel, and no more left to read than before. *)
Definition fits {S A} (left : S → nat) (r : S) (o : Outcome S A) : Prop :=
  match o with Done _ r' => left r' ≤ left r | Fail _ => True | NoFuel => False end.

Section fits.
Context {S : Type} (left : S → nat).

Lemma fits_bind {A B} (m : Step S A) (k : A → Step S B) r :
  fits left r (m r) → (∀ a r', m r = Done a r' → left r' ≤ left r → fits left r' (k a r')) → fits left r (bind m k r).
Proof.
  unfold bind. intros Hm Hk. destruct (m r) as [a r'| |] eqn:E; [|done|done]. specialize (Hk a r' eq_refl Hm). simpl in Hm.
  destruct (k a r'); simpl in *; [lia|done|done].
Qed.

Lemma fits_ret {A} (a : A) r : fits left r (ret a r).
Proof. simpl. lia. Qed.
Lemma fits_fail {A} e r : fits left r (fail (A := A) e r).
Proof. done. Qed.
Lemma fits_lift {A} (x : Result YError A) r : fits left r (lift x r).
Proof. destruct x; [apply fits_ret|done]. Qed.
End fits.

Create HintDb fits.
#[local] Hint Resolve fits_ret fits_fail fits_lift : fits.

(** Take a step apart; what is left are the steps that use fuel. *)
Ltac bound := repeat first
  [ progress intros
  | match goal with |- fits _ _ (bind _ _ _) => apply fits_bind end
  | match goal with |- fits _ _ ((if ?b then _ else _) _) => destruct b end
  | match goal with |- fits _ _ ((match ?x with _ => _ end) _) => destruct x end
  | solve [eauto with fits] ].

Definition left (r : Reader) : nat := length (rd_items r).

Lemma fits_charge b mark r : fits left r (charge b mark r).
Proof. unfold charge. case_match; simpl; [done|unfold left; simpl; lia]. Qed.
Lemma fits_add_jumps n mark r : fits left r (add_jumps n mark r).
Proof. unfold add_jumps. case_match; simpl; [unfold left; simpl; lia|done]. Qed.
Lemma fits_anchored id r : fits left r (anchored id r).
Proof. simpl. lia. Qed.
Lemma fits_define id n r : fits left r (define_anchor id n r).
Proof. unfold define_anchor. case_match; simpl; unfold left; simpl; lia. Qed.

(** An event is taken off the items. *)
Lemma next_shorter r ev r' : next r = Done ev r' → left r = S (left r').
Proof. unfold next, left. destruct (rd_items r) as [|[[e sp]|m] items]; [done| |done]. by intros [= _ <-]. Qed.

Lemma fits_next r : fits left r (next r).
Proof.
  pose proof (next_shorter r) as H. unfold next in *.
  destruct (rd_items r) as [|[[e sp]|m] items]; [done| |done]. simpl. rewrite (H _ _ eq_refl). lia.
Qed.

#[local] Hint Resolve fits_charge fits_add_jumps fits_anchored fits_define fits_next : fits.

Ltac shorter := repeat match goal with H : next _ = Done _ _ |- _ => apply next_shorter in H end.

Section totality.
Variables (limits : Limits) (json_keys aliases : bool).

Lemma fits_alias id depth mark r : fits left r (alias limits aliases id depth mark r).
Proof. unfold alias. bound. Qed.

Lemma fits_scalar text style tag span flow r : fits left r (read_scalar json_keys text style tag span flow r).
Proof. unfold read_scalar. bound. Qed.

Lemma fits_finish anchor n r : fits left r (finish anchor n r).
Proof. unfold finish. bound. Qed.

#[local] Hint Resolve fits_alias fits_scalar fits_finish : fits.

Lemma node_fits fuel :
  (∀ ev depth flow r, 2 * left r + 2 ≤ fuel → fits left r (node limits json_keys aliases fuel ev depth flow r)) ∧
  (∀ depth flow sums r, 2 * left r + 1 ≤ fuel → fits left r (sequence limits json_keys aliases fuel depth flow sums r)) ∧
  (∀ depth flow sums r, 2 * left r + 1 ≤ fuel → fits left r (mapping limits json_keys aliases fuel depth flow sums r)).
Proof.
  induction fuel as [|fuel (IHn & IHs & IHm)]; [split_and!; intros; lia|]. split_and!.
  - intros [event span] depth flow r Hf. cbn [node]. destruct (N.ltb _ _); [done|].
    destruct event; bound; first [apply IHs|apply IHm]; lia.
  - intros depth flow sums r Hf. cbn [sequence]. bound; shorter; first [apply IHn; lia|apply IHs; lia].
  - intros depth flow sums r Hf. cbn [mapping]. bound; shorter; first [apply IHn; lia|apply IHm; lia].
Qed.

Lemma document_fits fuel r :
  2 * left r + 2 ≤ fuel → fits left r (document fuel limits json_keys aliases r).
Proof.
  intros Hf. unfold document, expect. bound; shorter; try (apply node_fits; lia).
  cbn. destruct (rd_items _); [|done]. case_match; [done|apply le_n].
Qed.

End totality.

(** The inspecting reader. *)
Definition inspect_left (r : Inspector) : nat := length (in_items r).

Lemma inspect_next_shorter r ev r' : inspect_next r = Done ev r' → inspect_left r = S (inspect_left r').
Proof. unfold inspect_next, inspect_left. destruct (in_items r) as [|[ev'|m] items]; [done| |done]. by intros [= _ <-]. Qed.

Lemma fits_inspect_next r : fits inspect_left r (inspect_next r).
Proof.
  pose proof (inspect_next_shorter r) as H. unfold inspect_next in *.
  destruct (in_items r) as [|[ev|m] items]; [done| |done]. simpl. rewrite (H _ _ eq_refl). lia.
Qed.

Lemma fits_set_found s r : fits inspect_left r (set_found s r).
Proof. simpl. unfold inspect_left. simpl. lia. Qed.

#[local] Hint Resolve fits_inspect_next fits_set_found : fits.

Ltac inspect_shorter := repeat match goal with H : inspect_next _ = Done _ _ |- _ => apply inspect_next_shorter in H end.

Lemma inspect_fits wanted fuel :
  (∀ ev depth capture flow r, 2 * inspect_left r + 2 ≤ fuel →
     fits inspect_left r (inspect wanted fuel ev depth capture flow r)) ∧
  (∀ depth capture flow r, 2 * inspect_left r + 1 ≤ fuel →
     fits inspect_left r (inspect_sequence wanted fuel depth capture flow r)) ∧
  (∀ mark depth capture flow values keys r, 2 * inspect_left r + 1 ≤ fuel →
     fits inspect_left r (inspect_mapping wanted fuel mark depth capture flow values keys r)).
Proof.
  induction fuel as [|fuel (IHn & IHs & IHm)]; [split_and!; intros; lia|]. split_and!.
  - intros [event span] depth capture flow r Hf. cbn [inspect]. destruct (N.ltb _ _); [done|].
    destruct event; bound; first [apply IHs|apply IHm]; lia.
  - intros depth capture flow r Hf. cbn [inspect_sequence]. bound; inspect_shorter; first [apply IHn; lia|apply IHs; lia].
  - intros mark depth capture flow values keys r Hf. cbn [inspect_mapping].
    bound; inspect_shorter; first [apply IHn; lia|apply IHm; lia].
Qed.

(** C38: Reading YAML ends: whatever events the scanner yields, the bounded
    reader returns a tree or an error, and so does the inspection of generated
    output; the fuel of both, two rounds per event, is never used up. *)
Theorem yaml_reading_ends (scan : N → string → list Item) (input wanted : string) (limits : Limits) (json_keys aliases : bool) :
  result_of (parse scan input limits json_keys aliases) = Some (parsed scan input limits json_keys aliases) ∧
  result_of (inspect_document scan input wanted) = Some (inspect_generated_sequence scan input wanted).
Proof.
  split.
  - unfold parsed. assert (parse scan input limits json_keys aliases ≠ NoFuel) as H.
    { unfold parse. destruct (N.ltb _ _); [done|]. destruct (check_legacy_line_breaks input); [|done].
      intros E. pose proof (document_fits limits json_keys aliases (fuel_of (scan (nesting limits) input))
        (mkReader (scan (nesting limits) input) ∅ (expanded_bytes limits) 0 0) ltac:(unfold fuel_of, left; simpl; lia)) as Hd.
      by rewrite E in Hd. }
    by destruct (parse scan input limits json_keys aliases).
  - unfold inspect_generated_sequence. assert (inspect_document scan input wanted ≠ NoFuel) as H.
    { unfold inspect_document. destruct (check_legacy_line_breaks input); [|done].
      set (r := mkInspector _ _). intros E.
      match type of E with ?m r = _ => assert (fits inspect_left r (m r)) as Hd end; [|by rewrite E in Hd].
      clear E. unfold inspect_expect. bound; inspect_shorter.
      - apply inspect_fits. unfold fuel_of. unfold inspect_left in *. subst r. simpl in *. lia.
      - cbn. destruct (in_items _); [apply le_n|done]. }
    by destruct (inspect_document scan input wanted).
Qed.

End YamlTheorems.
