(* ===== verification/ClashRules.v ===== *)
(** * Rules of a native Clash document
    ([crates/deve-sub-application/src/template/clash_rules.rs])

    Every error of this file is an invalid input, kept as its message. *)

From Stdlib Require Import Ascii.
From stdpp Require Import pretty.
From S2P Require Import Prelude Kernel Node Text Ip UrlText Assemble UriParse SourceParse Containers.
Import Text Ip UrlText.

Module ClashRules.

Abbreviation Members := Containers.Members.

Definition contains_any (chars s : string) : bool := negb (all_chars (λ c, negb (one_of chars c)) s).

(** Line feed, carriage return and null *)
Definition BREAKS : string := bytes [10; 13; 0]%N.

Definition single_line_error : string := "rule must be a single line".

(** The loop of [split]: the depth, and the text since the last separator. *)
Fixpoint split_loop (s : string) (depth : N) (current : string) : Result string (list string) :=
  match s with
  | EmptyString => if N.eqb depth 0 then Ok [trim current] else Err "unbalanced rule parentheses"
  | String c s =>
      if Ascii.eqb c "(" then
        if N.ltb 32 (depth + 1) then Err "rule parentheses nesting exceeds 32"
        else split_loop s (depth + 1) (current +:+ String c "")
      else if Ascii.eqb c ")" then
        if N.eqb depth 0 then Err "unbalanced rule parentheses"
        else split_loop s (depth - 1) (current +:+ String c "")
      else if Ascii.eqb c "," && N.eqb depth 0 then
        let? parts := split_loop s 0 "" in Ok (trim current :: parts)
      else if one_of BREAKS c then Err single_line_error
      else split_loop s depth (current +:+ String c "")
  end.

Definition split (value : string) : Result string (list string) := split_loop value 0 "".

(** [str::strip_suffix] of one character *)
Definition strip_last (c : ascii) (s : string) : option string :=
  match String.rev s with
  | String d r => if Ascii.eqb c d then Some (String.rev r) else None
  | EmptyString => None
  end.

Definition unwrap_parentheses (value : string) : Result string string :=
  ok_or (s ← strip_prefix "(" value; strip_last ")" s) "logical conditions require parentheses".

Definition LOGIC : list string := ["AND"; "OR"; "NOT"].
Definition FLAGS : list string := ["no-resolve"; "src"].
Definition PLAIN_KINDS : list string :=
  ["DOMAIN"; "DOMAIN-SUFFIX"; "DOMAIN-KEYWORD"; "DOMAIN-WILDCARD"; "DOMAIN-REGEX"; "GEOSITE"; "IP-SUFFIX"; "IP-ASN";
   "GEOIP"; "SRC-GEOIP"; "SRC-IP-ASN"; "SRC-IP-SUFFIX"; "DST-PORT"; "SRC-PORT"; "IN-PORT"; "IN-TYPE"; "IN-USER";
   "IN-NAME"; "PROCESS-PATH"; "PROCESS-PATH-WILDCARD"; "PROCESS-PATH-REGEX"; "PROCESS-NAME"; "PROCESS-NAME-WILDCARD";
   "PROCESS-NAME-REGEX"; "UID"; "DSCP"].

Definition flags_ok (flags : list string) : bool := forallb (λ f, bool_decide (f ∈ FLAGS)) flags.

(** [IpAddr::from_str]: the length of its prefixes *)
Definition ip_bits (s : string) : option N :=
  match ipv4_from_str s with
  | Some _ => Some 32%N
  | None => match ipv6_from_str s with Some _ => Some 128%N | None => None end
  end.

Definition validate_cidr (payload : string) : Result string () :=
  let? parts := ok_or (split_once "/" payload) "CIDR requires address/prefix" in
  let? bits := ok_or (ip_bits parts.1) "invalid CIDR address" in
  let? prefix := ok_or (parse_unsigned 255 parts.2) "invalid CIDR prefix" in
  if N.ltb bits prefix then Err "CIDR prefix is out of range" else Ok ().

Section rules.
Variable providers : option Members.

(** The children of a logical condition, in order. *)
Section children.
Variable validate : string → string → Result string ().

Fixpoint validate_children (children : list string) : Result string () :=
  match children with
  | [] => Ok ()
  | child :: children =>
      let? inner := unwrap_parentheses child in
      let? fields := split inner in
      match fields with
      | kind :: payload :: flags =>
          if flags_ok flags then let? _ := validate kind payload in validate_children children
          else Err "invalid logical condition"
      | _ => Err "invalid logical condition"
      end
  end.
End children.

(** [validate_condition]: [levels] is how many levels are allowed from here, 11 at
    depth 0. *)
Fixpoint validate_condition (levels : nat) (kind payload : string) : Result string () :=
  match levels with
  | O => Err "logical rule nesting exceeds 10"
  | S levels =>
      if is_empty payload then Err "empty rule payload"
      else if bool_decide (kind ∈ LOGIC) then
        let? inner := unwrap_parentheses payload in
        let? children := split inner in
        if String.eqb kind "NOT" && negb (Nat.eqb (length children) 1) then Err "NOT requires one condition"
        else validate_children (validate_condition levels) children
      else if String.eqb kind "RULE-SET" then
        if bool_decide (is_Some (m ← providers; Containers.map_get m payload)) then Ok ()
        else Err ("unknown rule-provider '" +:+ payload +:+ "'")
      else if bool_decide (kind ∈ ["IP-CIDR"; "IP-CIDR6"; "SRC-IP-CIDR"]) then validate_cidr payload
      else if String.eqb kind "NETWORK" then
        if bool_decide (payload ∈ ["tcp"; "udp"; "TCP"; "UDP"]) then Ok () else Err "NETWORK must be tcp or udp"
      else if bool_decide (kind ∈ PLAIN_KINDS) then Ok ()
      else Err ("unsupported rule type '" +:+ kind +:+ "'")
  end.

Definition MAX_LEVELS : nat := 11.

Definition rule_parts (rule : string) : Result string (list string) :=
  let kind := trim (default "" (head (UrlText.split "," rule))) in
  if bool_decide (kind ∈ LOGIC) then split rule else Ok (trim <$> UrlText.split "," rule).

(** [validate_rule], for the names of the groups *)
Definition validate_rule (groups : list string) (rule : string) : Result string () :=
  if contains_any BREAKS rule then Err single_line_error
  else
    let? parts := rule_parts rule in
    let kind := default "" (head parts) in
    let? policy := ok_or (parts !! (if String.eqb kind "MATCH" then 1 else 2)) "missing rule payload or policy" in
    if negb (bool_decide (policy ∈ Assemble.POLICIES)) && negb (bool_decide (policy ∈ groups))
    then Err ("unknown policy '" +:+ policy +:+ "'; use a proxy group or built-in policy")
    else if String.eqb kind "MATCH" then
      if Nat.eqb (length parts) 2 then Ok () else Err "MATCH requires exactly one policy"
    else
      let? _ := validate_condition MAX_LEVELS kind (default "" (parts !! 1)) in
      if flags_ok (drop 3 parts) then Ok () else Err "unsupported rule flag (expected no-resolve or src)".

End rules.

(** ** Rule providers *)

Definition provider_kind_ok (kind : option string) : bool :=
  bool_decide (kind ∈ [Some "http"; Some "file"; Some "inline"]).
Definition behavior_ok (behavior : option string) : bool :=
  bool_decide (behavior ∈ [Some "domain"; Some "ipcidr"; Some "classical"]).

Definition provider_field (kind : option string) : string :=
  if bool_decide (kind = Some "http") then "url" else if bool_decide (kind = Some "file") then "path" else "payload".

Definition is_string (j : Json) : bool := match j with JString _ => true | _ => false end.
Definition is_object (j : Json) : bool := match j with JObject _ => true | _ => false end.

Definition get_str (j : Json) (k : string) : option string := v ← Containers.get j k; Containers.as_str v.

Definition provider_value_ok (provider : Json) (field : string) : bool :=
  if String.eqb field "payload"
  then match v ← Containers.get provider field; Containers.as_array v with Some items => forallb is_string items | None => false end
  else match get_str provider field with Some v => negb (is_empty v) | None => false end.

Definition validate_provider (name : string) (provider : Json) : Result string () :=
  if negb (is_object provider) then Err ("rule-providers." +:+ name +:+ " must be a mapping")
  else
    let kind := get_str provider "type" in
    if negb (provider_kind_ok kind) then Err ("rule-providers." +:+ name +:+ ".type must be http, file or inline")
    else if negb (behavior_ok (get_str provider "behavior"))
    then Err ("rule-providers." +:+ name +:+ ".behavior must be domain, ipcidr or classical")
    else
      let field := provider_field kind in
      if provider_value_ok provider field then Ok ()
      else Err ("rule-providers." +:+ name +:+ "." +:+ field +:+ " is missing or invalid").

Fixpoint validate_all (l : Members) : Result string () :=
  match l with
  | [] => Ok ()
  | (name, provider) :: l => let? _ := validate_provider name provider in validate_all l
  end.

Definition validate_providers (providers : option Members) : Result string () :=
  match providers with None => Ok () | Some l => validate_all l end.

Example nested_rule :
  validate_rule None ["PROXY"] "AND,((DOMAIN-SUFFIX,a.com),(NOT,((NETWORK,udp)))),PROXY" = Ok ().
Proof. vm_compute. reflexivity. Qed.
Example unknown_policy :
  validate_rule None ["PROXY"] "DOMAIN,a.com,OTHER" = Err "unknown policy 'OTHER'; use a proxy group or built-in policy".
Proof. vm_compute. reflexivity. Qed.
Example regex_payload : validate_rule None ["PROXY"] "DOMAIN-REGEX,^a(b|c$,PROXY" = Ok ().
Proof. vm_compute. reflexivity. Qed.

End ClashRules.
