(* ===== verification/Clash.v ===== *)
(** * Validation of a native Clash document
    ([crates/deve-sub-application/src/template/clash.rs],
     [clash_normalization.rs])

    The order in which a hash map is walked is an argument; what the code does
    at a subtraction below zero or at a missing map entry, a panic, is kept
    apart from its errors. *)

From stdpp Require Import pretty.
From S2P Require Import Prelude Kernel Node Text Ip UrlText Template GenTypes Assemble UriParse SourceParse Containers ClashRules.
Import Text UrlText.

Module Clash.

Abbreviation Members := Containers.Members.
Abbreviation map_get := Containers.map_get.
Abbreviation get_str := ClashRules.get_str.

(** ** A result, or a panic *)

Definition M (A : Type) : Type := option (Result TemplateAppError A).
Definition ret {A} (a : A) : M A := Some (Ok a).
Definition err {A} (e : TemplateAppError) : M A := Some (Err e).
Definition lift {A} (r : Result TemplateAppError A) : M A := Some r.
Definition panic {A} : M A := None.
Definition bind {A B} (m : M A) (k : A → M B) : M B :=
  match m with Some (Ok a) => k a | Some (Err e) => Some (Err e) | None => None end.

Declare Scope clash_scope.
Notation "x <~ m ;; k" := (bind m (λ x, k)) (at level 100, m at next level, right associativity) : clash_scope.
#[local] Open Scope clash_scope.

Lemma bind_ret {A B} (m : M A) (k : A → M B) b : bind m k = Some (Ok b) → ∃ a, m = Some (Ok a) ∧ k a = Some (Ok b).
Proof. destruct m as [[a|e]|]; simpl; [eauto|done|done]. Qed.

Definition invalid (message : string) : TemplateAppError := InvalidInput message.

(** ** Structural tokens *)

Definition NODES : string := "__PROXY_NODES__".
Definition PROVIDERS : string := "__PROXY_PROVIDERS__".
Definition TOKENS : list string := [NODES; PROVIDERS].

Definition is_null (j : Json) : bool := match j with JNull => true | _ => false end.
Definition is_bool (j : Json) : bool := match j with JBool _ => true | _ => false end.

(** [value[key]] to read: null when there is none *)
Definition at_key (j : Json) (key : string) : Json := default JNull (Containers.get j key).

(** [clash_normalization::validate] *)
Definition validate_tokens (config : Members) : Result TemplateAppError () :=
  if match map_get config "mode" with Some mode => negb (bool_decide (Containers.as_str mode = Some "rule")) | None => false end
  then Err (invalid "native Clash mode must be rule")
  else if match map_get config "proxies" with
          | Some p => negb (is_null p) && negb (match Containers.as_array p with Some [] => true | _ => false end)
          | None => false
          end
  then Err (invalid "native Clash proxies must be null or an empty list; nodes come from the node pool")
  else Ok ().

Definition provider_warning (name : string) : string :=
  "group '" +:+ name +:+ "': external proxy providers are not configured; provider placeholder and include-all-providers expand to an empty set".

Definition array_of (j : Json) : list Json := default [] (Containers.as_array j).

Definition names_providers (group : Json) : bool :=
  bool_decide (Containers.as_bool (at_key group "include-all-providers") = Some true)
  || existsb (λ v, bool_decide (Containers.as_str v = Some PROVIDERS)) (array_of (at_key group "proxies")).

(** The body of [clash_normalization::warnings]; indexing a map panics. *)
Definition warnings (config : Members) : M (list string) :=
  match map_get config "proxy-groups" with
  | None => panic
  | Some groups =>
      ret ((λ g, provider_warning (default "" (Containers.as_str (at_key g "name")))) <$>
           List.filter names_providers (array_of groups))
  end.

(** ** Groups *)

Definition required_string (value : Json) (field : string) : Result TemplateAppError string :=
  ok_or (get_str value field) (invalid ("proxy-groups." +:+ field +:+ " must be a string")).

Definition strings (value : option Json) (field : string) : Result TemplateAppError (list string) :=
  match value with
  | None => Ok []
  | Some value =>
      let? items := ok_or (Containers.as_array value) (invalid (field +:+ " must be a list")) in
      collect_ok (λ v, ok_or (Containers.as_str v) (invalid (field +:+ " entries must be strings"))) items
  end.

(** A loop over the keys of one type: the first that has another value. *)
Fixpoint check_keys (group : Json) (keys : list string) (ok : Json → bool) (message : string → string) :
    Result TemplateAppError () :=
  match keys with
  | [] => Ok ()
  | key :: keys =>
      match Containers.get group key with
      | Some value => if ok value then check_keys group keys ok message else Err (invalid (message key))
      | None => check_keys group keys ok message
      end
  end.

Definition GROUP_KINDS : list string := ["select"; "url-test"; "fallback"; "load-balance"].
Definition BOOL_KEYS : list string :=
  ["include-all"; "include-all-proxies"; "include-all-providers"; "lazy"; "disable-udp"; "hidden"].
Definition NUMBER_KEYS : list string := ["interval"; "timeout"; "max-failed-times"; "tolerance"].
Definition STRING_KEYS : list string := ["url"; "filter"; "exclude-filter"; "exclude-type"; "strategy"; "icon"].
Definition INCLUDE_KEYS : list string := ["include-all"; "include-all-proxies"; "include-all-providers"].

Definition bad_name (names : list string) (name : string) : bool :=
  is_empty (trim name) || ClashRules.contains_any ("," +:+ bytes [10; 13]%N) name
  || bool_decide (name ∈ Assemble.POLICIES) || bool_decide (name ∈ TOKENS) || bool_decide (name ∈ names).

(** The first loop over the groups: its body, for the names so far. *)
Definition check_group (names : list string) (group : Json) : Result TemplateAppError string :=
  let? name := required_string group "name" in
  if bad_name names name
  then Err (invalid ("proxy-groups: duplicate, reserved or invalid group name '" +:+ name +:+ "'"))
  else
    let? kind := required_string group "type" in
    let prefix := "proxy-groups '" +:+ name +:+ "': " in
    if negb (bool_decide (kind ∈ GROUP_KINDS)) then Err (invalid (prefix +:+ "unsupported type '" +:+ kind +:+ "'"))
    else
      let? _ := check_keys group BOOL_KEYS is_bool (λ key, prefix +:+ key +:+ " must be a boolean") in
      let? _ := check_keys group NUMBER_KEYS (λ v, bool_decide (is_Some (Containers.as_u64 v)))
                  (λ key, prefix +:+ key +:+ " must be a nonnegative integer") in
      let? _ := check_keys group STRING_KEYS ClashRules.is_string (λ key, prefix +:+ key +:+ " must be a string") in
      if bool_decide (is_Some (Containers.get group "use"))
      then Err (invalid (prefix +:+ "external proxy providers are not supported; use include-all-proxies"))
      else if match get_str group "default-selected" with Some v => bool_decide (v ∈ TOKENS) | None => false end
      then Err (invalid "group placeholders are only supported in proxies lists")
      else Ok name.

Fixpoint check_groups (names : list string) (groups : list Json) : Result TemplateAppError (list string) :=
  match groups with
  | [] => Ok names
  | group :: groups => let? name := check_group names group in check_groups (names ++ [name]) groups
  end.

Definition known (names nodes : list string) (member : string) : bool :=
  bool_decide (member ∈ names) || bool_decide (member ∈ Assemble.POLICIES) || bool_decide (member ∈ nodes).

(** The second loop: the members of a group, and the groups among them. *)
Definition group_edges (names : list string) (nodes : option (list string)) (group : Json) :
    Result TemplateAppError (string * list string) :=
  let? name := required_string group "name" in
  let? members := strings (Containers.get group "proxies") "proxy-groups.proxies" in
  if match members with [] => true | _ => false end
     && negb (existsb (λ key, bool_decide ((v ← Containers.get group key; Containers.as_bool v) = Some true)) INCLUDE_KEYS)
  then Err (invalid ("proxy-groups '" +:+ name +:+ "' has no members; add proxies or include-all-proxies: true"))
  else
    match (nodes ← nodes; List.find (λ m, negb (known names nodes m)) members) with
    | Some member => Err (invalid ("proxy-groups '" +:+ name +:+ "' references unavailable member '" +:+ member +:+ "'"))
    | None => Ok (name, List.filter (λ m, bool_decide (m ∈ names)) members)
    end.

(** ** Topological elimination *)

Definition Edges : Type := gmap string (list string).

(** [if let Some(degree) = indegree.get_mut(member) { *degree += 1 }] *)
Definition raise (indegree : gmap string nat) (member : string) : gmap string nat := alter S member indegree.

(** The counts of every member of every group. *)
Definition degrees (names : list string) (edges : list (string * list string)) : gmap string nat :=
  foldl (λ d e, foldl raise d e.2) (list_to_map ((λ n, (n, O)) <$> names)) edges.

(** Lower the members of a group that is done; the new sources go on the stack. *)
Fixpoint lower (members : list string) (indegree : gmap string nat) (ready : list string) :
    option (gmap string nat * list string) :=
  match members with
  | [] => Some (indegree, ready)
  | member :: members =>
      match indegree !! member with
      | None => lower members indegree ready
      | Some O => None
      | Some (S degree) =>
          lower members (<[member := degree]> indegree) (if Nat.eqb degree 0 then member :: ready else ready)
      end
  end.

(** [while let Some(name) = ready.pop()], the top of the stack first. *)
Fixpoint eliminate_loop (fuel : nat) (edges : Edges) (indegree : gmap string nat) (ready : list string) (visited : nat) :
    option nat :=
  match ready with
  | [] => Some visited
  | name :: ready =>
      match fuel, edges !! name with
      | S fuel, Some members =>
          '(indegree, ready) ← lower members indegree ready;
          eliminate_loop fuel edges indegree ready (S visited)
      | _, _ => None
      end
  end.

Section validate.
(** How the map of degrees is walked: its keys in some order. *)
Variable hash_order : list string → list string.

Definition eliminate (names : list string) (edges : list (string * list string)) : option nat :=
  let indegree := degrees names edges in
  let ready := List.filter (λ n, bool_decide (indegree !! n = Some O)) (hash_order names) in
  eliminate_loop (length names) (list_to_map edges) indegree (reverse ready) 0.

Definition SECTIONS : list string := ["proxy-groups"; "rules"; "rule-providers"; "dns"; "tun"; "mode"; "proxies"].

Fixpoint check_sections (config : Members) : Result TemplateAppError () :=
  match config with
  | [] => Ok ()
  | (key, _) :: config =>
      if bool_decide (key ∈ SECTIONS) then check_sections config
      else Err (invalid ("unsupported Clash section '" +:+ key +:+
                         "'; use routing sections only, nodes come from the node pool"))
  end.

Fixpoint check_objects (config : Members) (keys : list string) : Result TemplateAppError () :=
  match keys with
  | [] => Ok ()
  | key :: keys =>
      match map_get config key with
      | Some value => if ClashRules.is_object value then check_objects config keys else Err (invalid (key +:+ " must be a mapping"))
      | None => check_objects config keys
      end
  end.

(** The sections before the groups. *)
Definition check_shape (config : Members) : Result TemplateAppError (list Json) :=
  let? _ := validate_tokens config in
  let? _ := check_sections config in
  let? _ := check_objects config ["dns"; "tun"; "rule-providers"] in
  ok_or (g ← map_get config "proxy-groups"; Containers.as_array g) (invalid "proxy-groups must be a list").

(** The rules, numbered from one. *)
Fixpoint check_rules (names : list string) (providers : option Members) (index : N) (rules : list Json) :
    Result TemplateAppError () :=
  match rules with
  | [] => Ok ()
  | rule :: rules =>
      let? text := ok_or (Containers.as_str rule) (invalid ("rules[" +:+ pretty index +:+ "] must be a string")) in
      let? _ := map_err (λ e, invalid ("rules[" +:+ pretty index +:+ "]: invalid input: " +:+ e))
                  (ClashRules.validate_rule providers names text) in
      check_rules names providers (index + 1) rules
  end.

(** The sections after the groups. *)
Definition check_routing (config : Members) (names : list string) : Result TemplateAppError () :=
  let providers := p ← map_get config "rule-providers"; Containers.as_object p in
  let? _ := map_err invalid (ClashRules.validate_providers providers) in
  let? rules := ok_or (r ← map_get config "rules"; Containers.as_array r) (invalid "rules must be a list of Clash rule strings") in
  match rules with
  | [] => Err (invalid "rules must not be empty")
  | _ => check_rules names providers 1 rules
  end.

(** [clash::validate] *)
Definition validate (config : Members) (nodes : option (list string)) : M () :=
  groups <~ lift (check_shape config);;
  names <~ lift (check_groups [] groups);;
  edges <~ lift (collect_ok (group_edges names nodes) groups);;
  match eliminate names edges with
  | None => panic
  | Some visited =>
      if Nat.eqb visited (length names) then lift (check_routing config names)
      else err (invalid "proxy-groups contains a cycle")
  end.

End validate.
End Clash.
