(* ===== verification/ClashGroups.v ===== *)
(** * Materialising the groups of a native Clash document
    ([clash_filter.rs], [clash_membership.rs] and the native half of
     [clash_generation.rs] in [crates/deve-sub-application/src/template])

    The regular expressions, the clock and the pages of the node pool are
    arguments.  Hash sets that are only walked for their elements are lists. *)

From Stdlib Require Import Ascii.
From stdpp Require Import pretty.
From S2P Require Import Prelude Kernel Node Text Ip UrlText NodePool Template GenTypes Assemble Selection UriParse SourceParse Containers Yaml YamlRead ClashRules Clash.
Import Text UrlText Clash.

Module ClashGroups.
#[local] Open Scope clash_scope.

(** ** Bounded filters ([clash_filter.rs]) *)

Record Budget := mkBudget { bd_remaining : N; bd_bytes : N; bd_patterns : N; bd_visits : N }.

Definition new_budget : Budget := mkBudget 1000000 (64 * 1024 * 1024) 256 0.

Definition budget_error : TemplateAppError := invalid "proxy-group filtering exceeded its bounded work budget".

Section filters.
(** [fancy_regex]: compiling a pattern, and matching, which may exceed its limit *)
Context {Regex : Type} (build : string → option Regex) (is_match : Regex → string → option bool).
(** Whether the deadline has passed, the n-th time the clock is read. *)
Variable late : N → bool.

(** [Budget::visit] *)
Definition visit (bytes : nat) (b : Budget) : M Budget :=
  if N.eqb (bd_remaining b) 0 || N.ltb (bd_bytes b) (N.of_nat bytes) || late (bd_visits b) then err budget_error
  else ret (mkBudget (bd_remaining b - 1) (bd_bytes b - N.of_nat bytes) (bd_patterns b) (bd_visits b + 1)).

Fixpoint compile_all (parts : list string) (b : Budget) : M (list Regex * Budget) :=
  match parts with
  | [] => ret ([], b)
  | pattern :: parts =>
      b <~ visit (String.length pattern) b;;
      if N.eqb (bd_patterns b) 0 then err (invalid "proxy-group filtering exceeds 256 regular expressions")
      else
        let b := mkBudget (bd_remaining b) (bd_bytes b) (bd_patterns b - 1) (bd_visits b) in
        regex <~ lift (ok_or (build pattern) (invalid "invalid or unsupported proxy-group regular expression"));;
        rest <~ compile_all parts b;;
        ret (regex :: rest.1, rest.2)
  end.

(** [Matcher::compile] *)
Definition compile (value : option string) (split : bool) (b : Budget) : M (option (list Regex) * Budget) :=
  match value with
  | None | Some EmptyString => ret (None, b)
  | Some value =>
      if Nat.ltb 4096 (String.length value) then err (invalid "proxy-group regular expression exceeds 4096 bytes")
      else
        patterns <~ compile_all (if split then UrlText.split "`" value else [value]) b;;
        ret (Some patterns.1, patterns.2)
  end.

(** [Matcher::matches] *)
Fixpoint matches (patterns : list Regex) (name : string) (b : Budget) : M (bool * Budget) :=
  match patterns with
  | [] => ret (false, b)
  | pattern :: patterns =>
      b <~ visit (String.length name) b;;
      found <~ lift (ok_or (is_match pattern name) (invalid "proxy-group regular expression exceeded its execution limit"));;
      if found : bool then ret (true, b) else matches patterns name b
  end.

(** [matcher.as_ref().map(|f| f.matches(..)).transpose()?.unwrap_or(missing)] *)
Definition matches_or (missing : bool) (matcher : option (list Regex)) (name : string) (b : Budget) : M (bool * Budget) :=
  match matcher with None => ret (missing, b) | Some patterns => matches patterns name b end.

(** ** Membership ([clash_membership.rs]) *)

(** [text.rsplit_once(" [")] *)
Fixpoint rsplit_bracket (s : string) : option (string * string) :=
  match s with
  | EmptyString => None
  | String c s' =>
      match rsplit_bracket s' with
      | Some (a, b) => Some (String c a, b)
      | None => match strip_prefix " [" s with Some rest => Some ("", rest) | None => None end
      end
  end.

(** The collision counter of a qualified name. *)
Definition counter_ok (suffix : string) : bool :=
  match strip_prefix " " suffix with
  | None => false
  | Some number =>
      match parse_unsigned u64_max number with
      | None => false
      | Some counter => negb (N.ltb counter 2) && String.eqb (pretty counter) number
      end
  end.

Definition qualified_name (name : string) : option (string * string) :=
  '(base, qualified) ← rsplit_bracket name;
  '(id, suffix) ← split_once "]" qualified;
  if is_empty suffix || counter_ok suffix then Some (base, id) else None.

Definition adapter_type (n : Node) : string :=
  let kind := match config n with CShadowTls _ _ inner _ => inner | _ => protocol n end in
  match kind with TuicV5 => "tuic" | HysteriaV1 => "hysteria" | _ => as_filter_key kind end.

Definition group_adapter (kind : string) : string :=
  if String.eqb kind "select" then "selector"
  else if String.eqb kind "url-test" then "urltest"
  else if String.eqb kind "load-balance" then "loadbalance"
  else kind.

Definition policy_adapter (policy : string) : string :=
  if String.eqb policy "DIRECT" then "direct"
  else if String.eqb policy "COMPATIBLE" then "compatible"
  else if String.eqb policy "REJECT" then "reject"
  else if String.eqb policy "REJECT-DROP" then "rejectdrop"
  else if String.eqb policy "GLOBAL" then "selector"
  else "pass".

Definition str_at (j : Json) (key : string) : string := default "" (Containers.as_str (at_key j key)).

(** The types of every name: nodes, then groups, then policies. *)
Definition types_of (nodes : list (Node * Z)) (groups : list Json) : gmap string string :=
  let of_nodes := foldl (λ m p, <[display_name p.1 := adapter_type p.1]> m) ∅ nodes in
  let of_groups := foldl (λ m g, <[str_at g "name" := group_adapter (str_at g "type")]> m) of_nodes groups in
  foldl (λ m p, <[p := policy_adapter p]> m) of_groups Assemble.POLICIES.

Definition proxies_of (group : Json) : list string := omap Containers.as_str (array_of (at_key group "proxies")).

(** The references that are no name yet, once each. *)
Definition wanted_names (types : gmap string string) (groups : list Json) : list string :=
  remove_dups (filter (λ n, types !! n = None ∧ n ∉ TOKENS) (groups ≫= proxies_of)).

Section references.
Variable id_display : NodeId → string.

(** The selected nodes by the text of their identifiers. *)
Definition identities (nodes : list (Node * Z)) (original_names : list string) : gmap string (string * string) :=
  foldl (λ m p, <[id_display (n_id p.1.1) := (trim p.2, display_name p.1.1)]> m) ∅ (zip nodes original_names).

Definition alias_of (ids : gmap string (string * string)) (name : string) : option string :=
  '(base, id) ← qualified_name name;
  '(original, current) ← ids !! id;
  if String.eqb base original then Some current else None.

(** The loop over the wanted names: aliases, and what is left. *)
Fixpoint resolve_aliases (ids : gmap string (string * string)) (wanted : list string) (b : Budget) :
    M (gmap string string * list string * Budget) :=
  match wanted with
  | [] => ret (∅, [], b)
  | name :: wanted =>
      b <~ visit (String.length name) b;;
      rest <~ resolve_aliases ids wanted b;;
      let '(aliases, unresolved, b) := rest in
      match alias_of ids name with
      | Some current => ret (<[name := current]> aliases, unresolved, b)
      | None => ret (aliases, name :: unresolved, b)
      end
  end.

(** The pages of the pool, a thousand entries after a cursor. *)
Variable list_nodes : option NodeId → Result string (list NodePoolEntry).

(** References by identifier: identifier, base and name. *)
Fixpoint qualify (wanted : list string) (b : Budget) : M (list (string * (string * string)) * Budget) :=
  match wanted with
  | [] => ret ([], b)
  | name :: wanted =>
      b <~ visit (String.length name) b;;
      rest <~ qualify wanted b;;
      ret (match qualified_name name with Some (base, id) => (id, (base, name)) :: rest.1 | None => rest.1 end, rest.2)
  end.

Fixpoint match_references (display : string) (references : list (string * string)) (names : gset string) (b : Budget) :
    M (gset string * Budget) :=
  match references with
  | [] => ret (names, b)
  | (base, name) :: references =>
      b <~ visit (String.length name) b;;
      match_references display references (if String.eqb base (trim display) then {[name]} ∪ names else names) b
  end.

(** The entries of a page. *)
Fixpoint scan_page (wanted : list string) (qualified : list (string * (string * string))) (entries : list NodePoolEntry)
    (names : gset string) (b : Budget) : M (gset string * Budget) :=
  match entries with
  | [] => ret (names, b)
  | entry :: entries =>
      let display := display_name (node entry) in
      b <~ visit (String.length display) b;;
      if missing_from_source entry || negb (is_active entry) then
        let names := if bool_decide (display ∈ wanted) then {[display]} ∪ names else names in
        let references := snd <$> filter (λ r, r.1 = id_display (n_id (node entry))) qualified in
        p <~ match_references display references names b;;
        scan_page wanted qualified entries p.1 p.2
      else scan_page wanted qualified entries names b
  end.

(** The loop over the pages; each costs a visit, so [fuel] visits are enough. *)
Fixpoint scan_pool (fuel : nat) (wanted : list string) (qualified : list (string * (string * string)))
    (cursor : option NodeId) (names : gset string) (b : Budget) : M (gset string * Budget) :=
  match fuel with
  | O => err budget_error
  | S fuel =>
      b <~ visit 0 b;;
      entries <~ lift (map_err Storage (list_nodes cursor));;
      match last entries with
      | None => ret (names, b)
      | Some entry =>
          p <~ scan_page wanted qualified entries names b;;
          if Nat.eqb (size p.1) (length wanted) then ret p
          else scan_pool fuel wanted qualified (Some (n_id (node entry))) p.1 p.2
      end
  end.

Definition unavailable_names (wanted : list string) (b : Budget) : M (gset string * Budget) :=
  match wanted with
  | [] => ret (∅, b)
  | _ =>
      q <~ qualify wanted b;;
      scan_pool (S (N.to_nat (bd_remaining q.2))) wanted q.1 None ∅ q.2
  end.
End references.

(** ** One group *)

(** What the loop over the members of a group changes. *)
Record Acc := mkAcc { ac_budget : Budget; ac_seen : gset string; ac_members : list string; ac_warnings : list string }.

Definition push (member : string) (a : Acc) : Acc :=
  if bool_decide (member ∈ ac_seen a) then a
  else mkAcc (ac_budget a) ({[member]} ∪ ac_seen a) (ac_members a ++ [member]) (ac_warnings a).

Definition with_budget (b : Budget) (a : Acc) : Acc := mkAcc b (ac_seen a) (ac_members a) (ac_warnings a).
Definition warn (w : string) (a : Acc) : Acc := mkAcc (ac_budget a) (ac_seen a) (ac_members a) (ac_warnings a ++ [w]).

(** [append_nodes] *)
Fixpoint append_nodes (automatic : list string) (include : option (list Regex)) (a : Acc) : M Acc :=
  match automatic with
  | [] => ret a
  | member :: automatic =>
      b <~ visit (String.length member) (ac_budget a);;
      p <~ matches_or true include member b;;
      let a := with_budget p.2 a in
      append_nodes automatic include (if p.1 : bool then push member a else a)
  end.

Section group.
Variables (types : gmap string string) (aliases : gmap string string) (unavailable : gset string) (automatic : list string).

(** The loop over the listed members. *)
Fixpoint listed (name : string) (include : option (list Regex)) (members : list string) (a : Acc) : M Acc :=
  match members with
  | [] => ret a
  | member :: members =>
      b <~ visit (String.length member) (ac_budget a);;
      let a := with_budget b a in
      if String.eqb member PROVIDERS then listed name include members a
      else if String.eqb member NODES then a <~ append_nodes automatic include a;; listed name include members a
      else
        let '(member, a) :=
          match aliases !! member with
          | Some current =>
              (current, warn ("group '" +:+ name +:+ "': node reference '" +:+ member +:+ "' resolved to '" +:+ current +:+ "'") a)
          | None => (member, a)
          end in
        if bool_decide (types !! member = None) then
          if bool_decide (member ∈ unavailable) then
            listed name include members (warn ("group '" +:+ name +:+ "': unavailable node '" +:+ member +:+ "' removed") a)
          else err (invalid ("proxy-groups '" +:+ name +:+ "' references unavailable member '" +:+ member +:+ "'"))
        else listed name include members (push member a)
  end.

(** The loop that drops what is excluded. *)
Fixpoint keep (exclude : option (list Regex)) (excluded_types : list string) (members : list string) (b : Budget) :
    M (list string * Budget) :=
  match members with
  | [] => ret ([], b)
  | member :: members =>
      b <~ visit (String.length member) b;;
      let excluded_type := match types !! member with Some kind => bool_decide (kind ∈ excluded_types) | None => false end in
      p <~ (if excluded_type then ret (true, b) else matches_or false exclude member b);;
      rest <~ keep exclude excluded_types members p.2;;
      ret (if p.1 : bool then rest.1 else member :: rest.1, rest.2)
  end.

(** [value[key] = json!(..)]: null becomes an object, other values panic. *)
Definition set_key (j : Json) (key : string) (v : Json) : M Json :=
  match j with
  | JObject m => ret (JObject (Containers.map_insert key v m))
  | JNull => ret (JObject [(key, v)])
  | _ => panic
  end.

Definition remove_keys (keys : list string) (j : Json) : Json :=
  match j with JObject m => JObject (foldl (λ m k, Containers.map_remove k m) m keys) | _ => j end.

Definition FILTER_KEYS : list string :=
  ["filter"; "exclude-filter"; "exclude-type"; "include-all"; "include-all-proxies"; "include-all-providers"].

Definition includes_all (group : Json) : bool :=
  bool_decide (Containers.as_bool (at_key group "include-all") = Some true)
  || bool_decide (Containers.as_bool (at_key group "include-all-proxies") = Some true).

Definition drop_default (filtered : list string) (group : Json) : Json :=
  match Containers.as_str (at_key group "default-selected") with
  | Some d => if bool_decide (d ∈ filtered) then group else remove_keys ["default-selected"] group
  | None => group
  end.

Definition excluded_types_of (group : Json) : list string :=
  UriParse.map_chars Selection.to_ascii_lowercase <$> UrlText.split "|" (str_at group "exclude-type").

(** The members of a group, and the warnings about them. *)
Definition group_members (group : Json) (b : Budget) : M (list string * list string * Budget) :=
  let name := str_at group "name" in
  include <~ compile (Containers.as_str (at_key group "filter")) true b;;
  exclude <~ compile (Containers.as_str (at_key group "exclude-filter")) false include.2;;
  a <~ listed name include.1 (proxies_of group) (mkAcc exclude.2 ∅ [] []);;
  a <~ (if includes_all group then append_nodes automatic include.1 a else ret a);;
  kept <~ keep exclude.1 (excluded_types_of group) (ac_members a) (ac_budget a);;
  ret (kept.1, ac_warnings a, kept.2).

(** The body of the loop over the groups. *)
Definition materialize_group (group : Json) (b : Budget) : M (Json * list string * Budget) :=
  r <~ group_members group b;;
  let '(filtered, warnings, b) := r in
  let empty := match filtered with [] => true | _ => false end in
  let filtered := if empty then ["REJECT"] else filtered in
  g <~ (if empty then set_key group "type" (JString "select") else ret group);;
  let warnings := if empty
    then warnings ++ ["group '" +:+ str_at group "name" +:+ "' has no available members; using REJECT"] else warnings in
  g <~ set_key (drop_default filtered g) "proxies" (Containers.strings filtered);;
  ret (remove_keys FILTER_KEYS g, warnings, b).

Fixpoint materialize_groups (groups : list Json) (b : Budget) : M (list Json * list string) :=
  match groups with
  | [] => ret ([], [])
  | group :: groups =>
      r <~ materialize_group group b;;
      let '(g, warnings, b) := r in
      rest <~ materialize_groups groups b;;
      ret (g :: rest.1, warnings ++ rest.2)
  end.
End group.

Section materialize.
Variables (id_display : NodeId → string) (list_nodes : option NodeId → Result string (list NodePoolEntry)).

(** [materialize]: the document with its groups, and the warnings *)
Definition materialize (config : Members) (nodes : list (Node * Z)) (original_names : list string) : M (Members * list string) :=
  groups <~ lift (ok_or (g ← map_get config "proxy-groups"; Containers.as_array g) (invalid "proxy-groups must be a list"));;
  let types := types_of nodes groups in
  let wanted := wanted_names types groups in
  resolved <~ resolve_aliases (identities id_display nodes original_names) wanted new_budget;;
  let '(aliases, unresolved, b) := resolved in
  u <~ unavailable_names id_display list_nodes unresolved b;;
  let automatic := sort_by String.compare ((λ p : Node * Z, display_name p.1) <$> nodes) in
  done <~ materialize_groups types aliases u.1 automatic groups u.2;;
  ret (Containers.map_insert "proxy-groups" (JArray done.1) config, done.2).
End materialize.
End filters.
End ClashGroups.
