(* ===== verification/ClashWork.v ===== *)
(** * The work of materialising a native Clash document

    The groups of a native document are filled within a budget of visits, bytes
    and regular expressions ([clash_filter.rs]).  Here is how much work a
    document asks for at most, and the lemma that a document whose members are
    all present and whose work fits the budget is materialised. *)

From Stdlib Require Import Ascii.
From S2P Require Import Prelude Kernel Node Text Ip UrlText NodePool Template GenTypes Assemble Selection UriParse SourceParse Containers Yaml YamlRead ClashRules Clash ClashGroups.
Import Text UrlText Clash ClashGroups.

Module ClashWork.
#[local] Open Scope clash_scope.

(** ** How much work there is *)

(** The expressions of a filter. *)
Definition pieces (split : bool) (value : option string) : list string :=
  match value with
  | None | Some EmptyString => []
  | Some v => if split then UrlText.split "`" v else [v]
  end.

Definition filter_of (g : Json) : option string := Containers.as_str (at_key g "filter").
Definition exclude_of (g : Json) : option string := Containers.as_str (at_key g "exclude-filter").
Definition filter_pieces (g : Json) : list string := pieces true (filter_of g).
Definition exclude_pieces (g : Json) : list string := pieces false (exclude_of g).

(** The members a listed name stands for, with [total] nodes in the output. *)
Definition reach (total : nat) (member : string) : nat := if String.eqb member NODES then total else 1.

Definition members_at_most (total : nat) (g : Json) : nat :=
  sum_list_with (reach total) (proxies_of g) + if includes_all g then total else 0.

Definition patterns_of (g : Json) : nat := length (filter_pieces g) + length (exclude_pieces g).

(** The visits of a group: its expressions, its list, and each member once for
    every expression that may look at it and once for itself. *)
Definition group_work (total : nat) (g : Json) : nat :=
  patterns_of g + length (proxies_of g)
  + members_at_most total g * (1 + length (filter_pieces g))
  + members_at_most total g * (1 + length (exclude_pieces g)).

Definition work (types : gmap string string) (total : nat) (groups : list Json) : nat :=
  length (wanted_names types groups) + sum_list_with (group_work total) groups.

(** ** Steps within a budget *)

Section room.
Context {Regex : Type} (build : string → option Regex) (is_match : Regex → string → option bool) (late : N → bool).
Hypothesis Hclock : ∀ n, late n = false.
Variable longest : nat.

Definition short (s : string) : Prop := String.length s ≤ longest.

(** A budget with room for [k] visits of the longest text and [p] expressions. *)
Definition room (k p : nat) (b : Budget) : Prop :=
  (N.of_nat k ≤ bd_remaining b)%N ∧ (N.of_nat (k * longest) ≤ bd_bytes b)%N ∧ (N.of_nat p ≤ bd_patterns b)%N.

Lemma room_mono k k' p p' b : room k p b → k' ≤ k → p' ≤ p → room k' p' b.
Proof.
  intros (H1 & H2 & H3) Hk Hp. pose proof (Nat.mul_le_mono_r _ _ longest Hk). unfold room. split_and!; lia.
Qed.

Lemma visit_room s k p b : short s → room (S k) p b → ∃ b', visit late (String.length s) b = ret b' ∧ room k p b'.
Proof.
  unfold short. intros Hs (H1 & H2 & H3). cbn [Nat.mul] in H2. unfold visit. rewrite Hclock.
  rewrite (proj2 (N.eqb_neq _ _)) by lia. rewrite (proj2 (N.ltb_ge _ _)) by lia. cbn [orb].
  eexists. split; [done|]. unfold room. cbn. split_and!; lia.
Qed.

(** An expression that compiles, and whose matching stays within its limit. *)
Definition works (pattern : string) : Prop :=
  ∃ regex, build pattern = Some regex ∧ ∀ name, is_Some (is_match regex name).

Definition safe (regex : Regex) : Prop := ∀ name, is_Some (is_match regex name).

Definition matcher_safe (n : nat) (matcher : option (list Regex)) : Prop :=
  match matcher with None => True | Some patterns => length patterns ≤ n ∧ Forall safe patterns end.

Lemma compile_all_room parts k p b :
  Forall short parts → Forall works parts → room (length parts + k) (length parts + p) b →
  ∃ patterns b', compile_all build late parts b = ret (patterns, b') ∧ matcher_safe (length parts) (Some patterns) ∧ room k p b'.
Proof.
  intros Hs Hw. revert b. induction Hs as [|s parts Hs _ IH]; intros b Hr; cbn [compile_all].
  - exists [], b. split_and!; [done| |done]. by split; [cbn; lia|].
  - apply Forall_cons in Hw as [(regex & Eb & Hm) Hw]. cbn [length Nat.add] in Hr.
    destruct (visit_room s _ _ b Hs Hr) as (b1 & -> & Hr1). cbn [bind ret].
    destruct Hr1 as (H1 & H2 & H3). rewrite (proj2 (N.eqb_neq _ _)) by lia. rewrite Eb. cbn [ok_or lift bind].
    destruct (IH Hw (mkBudget (bd_remaining b1) (bd_bytes b1) (bd_patterns b1 - 1) (bd_visits b1))) as (ps & b2 & -> & [Hl Hps] & Hr2).
    { unfold room. cbn. split_and!; lia. }
    exists (regex :: ps), b2. split_and!; [done| |done]. split; [cbn; lia|by constructor].
Qed.

(** A filter that can be used: not too long, and its expressions work. *)
Definition usable (split : bool) (value : option string) : Prop :=
  String.length (default "" value) ≤ 4096 ∧ Forall works (pieces split value).

Lemma compile_room split value k p b :
  usable split value → Forall short (pieces split value) →
  room (length (pieces split value) + k) (length (pieces split value) + p) b →
  ∃ matcher b', compile build late value split b = ret (matcher, b') ∧
    matcher_safe (length (pieces split value)) matcher ∧ room k p b'.
Proof.
  intros [Hl Hw] Hs Hr. unfold compile. destruct value as [[|c v]|]; cbn [pieces] in *; [by exists None, b| |by exists None, b].
  cbn [default] in Hl. unfold id in Hl. rewrite (proj2 (Nat.ltb_ge _ _) Hl).
  destruct (compile_all_room _ k p b Hs Hw Hr) as (ps & b' & E & Hps & Hr'). rewrite E. by exists (Some ps), b'.
Qed.

Lemma matches_room patterns name k p b :
  short name → Forall safe patterns → room (length patterns + k) p b →
  ∃ found b', matches is_match late patterns name b = ret (found, b') ∧ room k p b'.
Proof.
  intros Hs Hf. revert b. induction Hf as [|r patterns Hr _ IH]; intros b Hb; cbn [matches].
  - by exists false, b.
  - cbn [length Nat.add] in Hb. destruct (visit_room name _ _ b Hs Hb) as (b1 & -> & Hb1). cbn [bind ret].
    destruct (Hr name) as [[] ->]; cbn [ok_or lift bind]; [|by apply IH].
    exists true, b1. split; [done|]. eapply room_mono; [done|lia..].
Qed.

Lemma matches_or_room missing n matcher name k p b :
  short name → matcher_safe n matcher → room (n + k) p b →
  ∃ found b', matches_or is_match late missing matcher name b = ret (found, b') ∧ room k p b'.
Proof.
  intros Hs Hm Hr. unfold matches_or. destruct matcher as [patterns|].
  - destruct Hm as [Hl Hm]. apply matches_room; [done..|]. eapply room_mono; [done|lia..].
  - exists missing, b. split; [done|]. eapply room_mono; [done|lia..].
Qed.

(** ** The members of a group *)

(** A list of members under construction: at most [n] of them, all short. *)
Definition fits (n k p : nat) (a : Acc) : Prop :=
  length (ac_members a) ≤ n ∧ Forall short (ac_members a) ∧ room k p (ac_budget a).

Lemma push_fits m n k p a : short m → fits n k p a → fits (S n) k p (push m a).
Proof.
  intros Hs (H1 & H2 & H3). unfold push. case_bool_decide; [by split; [lia|]|]. split_and!; cbn; [rewrite length_app; cbn; lia| |done].
  apply Forall_app. by split; [|apply Forall_singleton].
Qed.

Lemma fits_le n n' k p a : fits n k p a → n ≤ n' → fits n' k p a.
Proof. intros (H1 & H2 & H3) H. split_and!; [lia|done|done]. Qed.

Lemma append_room l q matcher n k p a :
  Forall short l → matcher_safe q matcher → fits n (length l * (1 + q) + k) p a →
  ∃ a', append_nodes is_match late l matcher a = ret a' ∧ fits (length l + n) k p a'.
Proof.
  intros Hl Hm. revert n a. induction Hl as [|m l Hs _ IH]; intros n a (H1 & H2 & H3); cbn [append_nodes]; [by exists a|].
  destruct (visit_room m (q + (length l * (1 + q) + k)) p (ac_budget a) Hs) as (b1 & -> & Hb1).
  { eapply room_mono; [exact H3|cbn [length]; lia..]. }
  cbn [bind ret]. destruct (matches_or_room true q matcher m _ p b1 Hs Hm Hb1) as (found & b2 & -> & Hb2). cbn [bind ret].
  destruct (IH (S n) (if found then push m (with_budget b2 a) else with_budget b2 a)) as (a' & E & Ha').
  { destruct found; [by apply push_fits|]. apply (fits_le n); [done|lia]. }
  exists a'. split; [done|]. eapply fits_le; [done|cbn [length]; lia].
Qed.

Section group.
Variables (types aliases : gmap string string) (unavailable : gset string) (automatic : list string).
Hypothesis Hauto : Forall short automatic.

(** A listed member that is present: a token, a name, or a reference to a node. *)
Definition present (m : string) : Prop :=
  m ∈ TOKENS ∨ match aliases !! m with Some c => is_Some (types !! c) ∧ short c | None => is_Some (types !! m) end.

Lemma listed_room name q matcher l n k p a :
  matcher_safe q matcher → Forall short l → Forall present l →
  fits n (length l + sum_list_with (reach (length automatic)) l * (1 + q) + k) p a →
  ∃ a', listed is_match late types aliases unavailable automatic name matcher l a = ret a' ∧
    fits (sum_list_with (reach (length automatic)) l + n) k p a'.
Proof.
  intros Hm Hl. revert n a. induction Hl as [|m l Hs _ IH]; intros n a Hp Ha; cbn [listed]; [by exists a|].
  apply Forall_cons in Hp as [Hp Hps]. destruct Ha as (H1 & H2 & H3). cbn [sum_list_with length] in *.
  set (r := reach (length automatic) m) in *. set (total := sum_list_with _ l) in *.
  destruct (visit_room m (r * (1 + q) + (length l + total * (1 + q) + k)) p (ac_budget a) Hs) as (b1 & -> & Hb1).
  { eapply room_mono; [exact H3|lia..]. }
  cbn [bind ret]. unfold r, reach in *. clear r. destruct (String.eqb_spec m PROVIDERS) as [->|Hne].
  { destruct (IH n (with_budget b1 a) Hps) as (a' & E & Ha').
    { split_and!; [done|done|]. eapply room_mono; [exact Hb1|lia..]. }
    exists a'. split; [done|]. eapply fits_le; [done|lia]. }
  destruct (String.eqb_spec m NODES) as [->|Hne'].
  { destruct (append_room automatic q matcher n (length l + total * (1 + q) + k) p (with_budget b1 a) Hauto Hm) as (a1 & -> & Ha1); [done|].
    cbn [bind ret]. destruct (IH _ a1 Hps Ha1) as (a' & E & Ha'). exists a'. split; [done|]. eapply fits_le; [done|lia]. }
  assert (∃ c a2, (match aliases !! m with
      | Some current => (current, warn ("group '" +:+ name +:+ "': node reference '" +:+ m +:+ "' resolved to '" +:+ current +:+ "'") (with_budget b1 a))
      | None => (m, with_budget b1 a) end) = (c, a2) ∧ is_Some (types !! c) ∧ short c ∧
      fits n (length l + total * (1 + q) + k) p a2) as (c & a2 & -> & [kind Ec] & Hc & Ha2).
  { destruct Hp as [Hp|Hp]; [unfold TOKENS in Hp; set_solver|].
    assert (fits n (length l + total * (1 + q) + k) p (with_budget b1 a)) as Hf.
    { split_and!; [done|done|]. eapply room_mono; [exact Hb1|lia..]. }
    destruct (aliases !! m) as [c|]; eexists _, _; (split; [done|]); naive_solver. }
  rewrite Ec. rewrite bool_decide_false by done.
  destruct (IH (S n) (push c a2) Hps) as (a' & E & Ha'); [by apply push_fits|].
  exists a'. split; [done|]. eapply fits_le; [done|lia].
Qed.

Lemma keep_room q matcher excluded l k p b :
  matcher_safe q matcher → Forall short l → room (length l * (1 + q) + k) p b →
  ∃ kept b', keep is_match late types matcher excluded l b = ret (kept, b') ∧ room k p b'.
Proof.
  intros Hm Hl. revert b. induction Hl as [|m l Hs _ IH]; intros b Hr; cbn [keep]; [by exists [], b|].
  destruct (visit_room m (q + (length l * (1 + q) + k)) p b Hs) as (b1 & -> & Hb1).
  { eapply room_mono; [exact Hr|cbn [length]; lia..]. }
  cbn [bind ret]. set (gone := match types !! m with Some kind => bool_decide (kind ∈ excluded) | None => false end).
  assert (∃ found b2, (if gone then ret (true, b1) else matches_or is_match late false matcher m b1) = ret (found, b2) ∧
    room (length l * (1 + q) + k) p b2) as (found & b2 & -> & Hb2).
  { destruct gone; [|by eapply matches_or_room]. exists true, b1. split; [done|]. eapply room_mono; [done|lia..]. }
  cbn [bind ret snd fst]. destruct (IH b2 Hb2) as (kept & b' & -> & Hb'). by eexists _, _.
Qed.

(** A group whose filters can be used and whose members are present. *)
Record ready (g : Json) : Prop := {
  rd_object : ∃ m, g = JObject m;
  rd_filter : usable true (filter_of g);
  rd_exclude : usable false (exclude_of g);
  rd_pieces : Forall short (filter_pieces g ++ exclude_pieces g);
  rd_members : Forall present (proxies_of g);
  rd_short : Forall short (proxies_of g)
}.

Lemma group_members_room g k p b :
  ready g → room (group_work (length automatic) g + k) (patterns_of g + p) b →
  ∃ l w b', group_members build is_match late types aliases unavailable automatic g b = ret (l, w, b') ∧ room k p b'.
Proof.
  intros [_ Hf He Hs Hp Hm] Hr. apply Forall_app in Hs as [Hsf Hse]. unfold group_members, group_work, patterns_of, members_at_most in *.
  fold (filter_of g). fold (exclude_of g). unfold filter_pieces, exclude_pieces in *.
  set (qf := length (pieces true (filter_of g))) in *. set (qe := length (pieces false (exclude_of g))) in *.
  set (listed_ := sum_list_with _ (proxies_of g)) in *. set (extra := if includes_all g then length automatic else 0) in *.
  destruct (compile_room true (filter_of g) (qe + length (proxies_of g) + (listed_ + extra) * (1 + qf) + (listed_ + extra) * (1 + qe) + k)
    (qe + p) b Hf Hsf) as (include & b1 & -> & Hi & Hb1); [eapply room_mono; [exact Hr|lia..]|]. cbn [bind ret fst snd].
  destruct (compile_room false (exclude_of g) (length (proxies_of g) + listed_ * (1 + qf) + (extra * (1 + qf) + ((listed_ + extra) * (1 + qe) + k)))
    p b1 He Hse) as (exclude & b2 & -> & Hx & Hb2); [eapply room_mono; [exact Hb1|lia..]|]. cbn [bind ret fst snd].
  destruct (listed_room (str_at g "name") qf include (proxies_of g) 0 (extra * (1 + qf) + ((listed_ + extra) * (1 + qe) + k)) p
    (mkAcc b2 ∅ [] []) Hi Hm Hp) as (a1 & -> & Ha1); [by split_and!; [cbn; lia|constructor|]|]. cbn [bind ret].
  assert (∃ a2, (if includes_all g then append_nodes is_match late automatic include a1 else ret a1) = ret a2 ∧
    fits (listed_ + extra) ((listed_ + extra) * (1 + qe) + k) p a2) as (a2 & -> & Ha2).
  { unfold extra in *. destruct (includes_all g).
    - destruct (append_room automatic qf include _ ((listed_ + length automatic) * (1 + qe) + k) p a1 Hauto Hi Ha1) as (a2 & E & Ha2).
      exists a2. split; [done|]. eapply fits_le; [done|fold listed_; lia].
    - exists a1. split; [done|]. cbn [Nat.mul Nat.add] in Ha1. eapply fits_le; [done|fold listed_; lia]. }
  cbn [bind ret]. destruct Ha2 as (Hlen & Hall & Hroom).
  destruct (keep_room qe exclude (excluded_types_of g) (ac_members a2) k p (ac_budget a2) Hx Hall) as (kept & b3 & -> & Hb3).
  { pose proof (Nat.mul_le_mono_r _ _ (1 + qe) Hlen). eapply room_mono; [exact Hroom|lia..]. }
  by eexists _, _, _.
Qed.

Lemma drop_default_object l m : ∃ m', drop_default l (JObject m) = JObject m'.
Proof. unfold drop_default. case_match; [case_bool_decide|]; simpl; eauto. Qed.

Lemma materialize_group_room g k p b :
  ready g → room (group_work (length automatic) g + k) (patterns_of g + p) b →
  ∃ g' w b', materialize_group build is_match late types aliases unavailable automatic g b = ret (g', w, b') ∧ room k p b'.
Proof.
  intros Hg Hr. destruct (group_members_room g k p b Hg Hr) as (l & w & b' & E & Hb'). unfold materialize_group. rewrite E.
  destruct (rd_object _ Hg) as [m ->]. cbn [bind ret]. destruct l as [|x l]; cbn [set_key bind ret].
  - destruct (drop_default_object ["REJECT"] (Containers.map_insert "type" (JString "select") m)) as [m' ->]. by eexists _, _, _.
  - destruct (drop_default_object (x :: l) m) as [m' ->]. by eexists _, _, _.
Qed.

Lemma materialize_groups_room groups k p b :
  Forall ready groups → room (sum_list_with (group_work (length automatic)) groups + k) (sum_list_with patterns_of groups + p) b →
  ∃ r, materialize_groups build is_match late types aliases unavailable automatic groups b = ret r.
Proof.
  intros Hf. revert b. induction Hf as [|g groups Hg _ IH]; intros b Hr; cbn [materialize_groups sum_list_with] in *; [by eexists|].
  destruct (materialize_group_room g (sum_list_with (group_work (length automatic)) groups + k) (sum_list_with patterns_of groups + p) b Hg)
    as (g' & w & b' & -> & Hb'); [eapply room_mono; [exact Hr|lia..]|].
  cbn [bind ret]. destruct (IH b' Hb') as [r ->]. by eexists.
Qed.
End group.

(** ** References to nodes by identifier *)

Lemma resolve_aliases_room ids wanted k p b :
  Forall short wanted → Forall (λ w, is_Some (alias_of ids w)) wanted → room (length wanted + k) p b →
  ∃ aliases b', resolve_aliases late ids wanted b = ret (aliases, [], b') ∧ room k p b' ∧
    ∀ w, aliases !! w = if bool_decide (w ∈ wanted) then alias_of ids w else None.
Proof using Hclock.
  intros Hs Hw. revert b. induction Hs as [|w wanted Hs _ IH]; intros b Hr; cbn [resolve_aliases].
  - exists ∅, b. split_and!; [done|done|]. intros w. by rewrite lookup_empty, bool_decide_false by apply not_elem_of_nil.
  - apply Forall_cons in Hw as [[c Ec] Hw]. cbn [length Nat.add] in Hr.
    destruct (visit_room w _ p b Hs Hr) as (b1 & -> & Hb1). cbn [bind ret].
    destruct (IH Hw b1 Hb1) as (aliases & b' & -> & Hb' & Ha). cbn [bind ret]. rewrite Ec.
    eexists _, _. split_and!; [done|done|]. intros v. destruct (decide (v = w)) as [->|Hne].
    + rewrite lookup_insert_eq, bool_decide_true by (by apply elem_of_cons; left). done.
    + rewrite lookup_insert_ne by done. rewrite Ha. by rewrite (bool_decide_ext (v ∈ wanted) (v ∈ w :: wanted)) by (rewrite elem_of_cons; split; [by right|by intros [?|?]]).
Qed.
End room.
End ClashWork.
