(* ===== verification/ClashDocument.v ===== *)
(** * Native Clash documents in the generation pipeline
    ([clash.rs], the native half of [clash_generation.rs], and [from_json] of
     [crates/deve-sub-yaml/src/value.rs])

    Reading a submitted document, and the materialised document a generation
    emits.  The YAML reader and serializer and the conversion of YAML to JSON
    values are arguments. *)

From S2P Require Import Prelude Kernel Node Text Ip UrlText NodePool Template GenTypes Validation Assemble UriParse SourceParse Containers Yaml YamlRead ClashRules Clash ClashGroups.
Import Text UrlText Yaml Clash ClashGroups.

Module ClashDocument.
#[local] Open Scope clash_scope.

(** [from_json] of a number: the integers first, a float otherwise. *)
Definition number_of (text : string) : Number :=
  match Containers.as_u64 (JNumber text) with
  | Some n => NU64 n
  | None =>
      match Containers.as_i64 (JNumber text) with
      | Some z => number_from_i64 z
      | None => NF64 (default 0%N (YamlRead.finite_from_str text))
      end
  end.

Fixpoint from_json (j : Json) : Value :=
  match j with
  | JNull => VNull
  | JBool b => VBool b
  | JNumber text => VNumber (number_of text)
  | JString s => VString s
  | JArray items => VSequence (map from_json items)
  | JObject m => VMapping (map (λ kv, (VString kv.1, from_json kv.2)) m)
  end.

(** [Mapping::insert] of a string key: in place, or at the end *)
Fixpoint mapping_insert (key : string) (v : Value) (m : list (Value * Value)) : list (Value * Value) :=
  match m with
  | [] => [(VString key, v)]
  | (k, w) :: m => if equivalent key k then (k, v) :: m else (k, w) :: mapping_insert key v m
  end.

Section document.
(** [bounded_yaml::parse], [serde_json::to_value] and [deve_sub_yaml::to_string],
    with the messages of their errors *)
Variable yaml_parse : string → Result string Value.
Variable to_json : Value → Result string Json.
Variable to_string : Value → Result string string.
(** [serde_json::from_value::<TemplateDocument>] *)
Variable document_of : Json → Result string TemplateDocument.
Variable hash_order : list string → list string.

(** [clash::config] *)
Definition config (yaml : string) : Result TemplateAppError Members :=
  let? raw := Validation.checked_yaml yaml_parse yaml in
  let? value := map_err invalid (to_json raw) in
  ok_or (Containers.as_object value) (invalid "native Clash configuration must be a mapping").

(** The only group of a document that has none. *)
Definition default_groups : Json :=
  JArray [Containers.object [("name", JString "PROXY"); ("type", JString "select"); ("include-all-proxies", JBool true)]].

Definition with_groups (m : list (Value * Value)) : list (Value * Value) :=
  if YamlRead.contains_key (VString "proxy-groups") m then m else mapping_insert "proxy-groups" (from_json default_groups) m.

Definition native_json (native : string) : Json :=
  Containers.object
    [("apiVersion", JString API_VERSION); ("kind", JString KIND);
     ("metadata", Containers.object [("name", JString "clash-routing")]);
     ("spec", Containers.object
       [("targetProfiles", Containers.strings ["mihomo"]);
        ("nodeSelector", Containers.object [("mode", JString "dynamic")]); ("clash", JString native)])].

(** [clash::parse] *)
Definition parse (raw : Value) : M TemplateDocument :=
  let value := match raw with VSequence _ => VMapping [(VString "rules", raw)] | _ => raw end in
  m <~ lift (ok_or (as_mapping value) (invalid "expected Clash routing YAML with rules, or a YAML rule list"));;
  native <~ lift (map_err invalid (to_string (VMapping (with_groups m))));;
  cfg <~ lift (config native);;
  _ <~ validate hash_order cfg None;;
  lift (map_err invalid (document_of (native_json native))).

(** [clash::config] followed by [clash::validate], as the template validation calls them *)
Definition check_native (native : string) : M () :=
  cfg <~ lift (config native);; validate hash_order cfg None.

(** [clash_normalization::warnings] of a native document *)
Definition native_warnings (native : string) : M (list string) := cfg <~ lift (config native);; warnings cfg.

(** The names the nodes must not take. *)
Definition group_names (cfg : Members) : list string :=
  match g ← map_get cfg "proxy-groups"; Containers.as_array g with
  | Some groups => omap (λ g, ClashRules.get_str g "name") groups
  | None => []
  end.

Section generation.
Context {Regex : Type} (build : string → option Regex) (is_match : Regex → string → option bool) (late : N → bool).
Variables (id_display : NodeId → string) (list_nodes : NodeFilter → option NodeId → N → Result string (list NodePoolEntry)).

(** The document after the nodes are renamed: its text, and the warnings *)
Definition native_document (native : string) (renamed : list (Node * Z)) (originals : list string) : M (string * list string) :=
  cfg <~ lift (config native);;
  done <~ materialize build is_match late id_display (λ c, list_nodes filter_all c 1000) cfg renamed originals;;
  _ <~ validate hash_order done.1 (Some ((λ p : Node * Z, display_name p.1) <$> renamed));;
  raw <~ lift (Validation.checked_yaml yaml_parse native);;
  m <~ lift (ok_or (as_mapping raw) (invalid "native Clash configuration must be a mapping"));;
  match map_get done.1 "proxy-groups" with
  | None => panic
  | Some groups =>
      text <~ lift (map_err Emit (to_string (VMapping (mapping_insert "proxy-groups" (from_json groups) m))));;
      ret (text, done.2)
  end.

(** The names the nodes may not have: policies, the groups of the template, the
    tokens and the groups of the document. *)
Definition native_used (s : TemplateSpec) (cfg : Members) : gset string :=
  list_to_set Assemble.POLICIES ∪ list_to_set (pg_name <$> proxy_groups s) ∪ list_to_set TOKENS ∪ list_to_set (group_names cfg).

(** [prepare_nodes] of a template with a native document; the document is read
    once in the code, and reads the same. *)
Definition prepare_native (s : TemplateSpec) (native : string) (nodes : list (Node * Z)) :
    M (list (Node * Z) * string * list string) :=
  cfg <~ lift (config native);;
  let renamed := Assemble.rename_nodes id_display (native_used s cfg) nodes in
  p <~ native_document native renamed ((λ p : Node * Z, display_name p.1) <$> nodes);;
  ret (renamed, p.1, p.2).
End generation.
End document.
End ClashDocument.
