(* ===== verification/ClashTheorems.v ===== *)
(** * Native Clash documents: validation, materialisation, generation

    [ClashOrder]: the topological elimination finds exactly the cycles.
    [ClashMembers]: the members the loops leave in a group.  [ClashTheorems]:
    what validation decides, and what it still says after materialisation.
    [ClashNative]: a document that was accepted generates. *)

(** * Topological elimination of native Clash groups

    The elimination never subtracts below zero, never misses a map entry and
    ends after one round per group; it visits every group exactly when no group
    contains itself, directly or through others.  None of it depends on the
    order in which the hash map is walked. *)

From stdpp Require Import relations.
From S2P Require Import Prelude Kernel Node Text Ip UrlText Template GenTypes Assemble UriParse SourceParse Containers ClashRules Clash.
Import Clash.

Module ClashOrder.

Definition cnt (n : string) (l : list string) : nat := length (filter (λ m, m = n) l).

Lemma cnt_cons n m l : cnt n (m :: l) = (if decide (m = n) then 1 else 0) + cnt n l.
Proof. unfold cnt. rewrite filter_cons. by case_decide. Qed.

Lemma cnt_zero n l : cnt n l = 0 ↔ n ∉ l.
Proof.
  induction l as [|m l IH]; [by split; [set_solver|]|]. rewrite cnt_cons, not_elem_of_cons. case_decide; subst; [naive_solver lia|].
  rewrite Nat.add_0_l, IH. naive_solver.
Qed.

(** ** The degrees *)

Lemma raise_members l d n : foldl raise d l !! n = (λ k, k + cnt n l) <$> d !! n.
Proof.
  revert d. induction l as [|m l IH]; intros d; cbn [foldl].
  - destruct (d !! n); simpl; [|done]. by rewrite Nat.add_0_r.
  - rewrite IH, cnt_cons. unfold raise. case_decide as E.
    + subst. rewrite lookup_alter_eq. destruct (d !! n); simpl; [|done]. f_equal. lia.
    + by rewrite lookup_alter_ne.
Qed.

Definition total (n : string) (edges : list (string * list string)) : nat := sum_list_with (λ e, cnt n e.2) edges.

Lemma raise_edges edges d n :
  foldl (λ d e, foldl raise d e.2) d edges !! n = (λ k, k + total n edges) <$> d !! n.
Proof.
  revert d. induction edges as [|e edges IH]; intros d; cbn [foldl].
  - destruct (d !! n); simpl; [|done]. by rewrite Nat.add_0_r.
  - rewrite IH, raise_members. destruct (d !! n); simpl; [|done]. f_equal. lia.
Qed.

(** What is left of a degree when some groups are done. *)
Definition pending_of (edges : list (string * list string)) (done : list string) (n : string) : nat :=
  sum_list_with (λ e, if decide (e.1 ∈ done) then 0 else cnt n e.2) edges.

Lemma pending_of_nil edges n : pending_of edges [] n = total n edges.
Proof.
  unfold pending_of, total. induction edges as [|e l IH]; [done|]. cbn [sum_list_with]. rewrite IH, decide_False; [done|].
  apply not_elem_of_nil.
Qed.

Lemma pending_of_zero edges done n :
  pending_of edges done n = 0 ↔ ∀ m members, (m, members) ∈ edges → m ∉ done → n ∉ members.
Proof.
  unfold pending_of. induction edges as [|[x l] edges IH]; simpl; [split; [set_solver|done]|].
  split.
  - intros H m members [[= -> ->]|Hm]%elem_of_cons Hd.
    + rewrite decide_False in H by done. apply cnt_zero. lia.
    + apply (proj1 IH) with m; [lia|done|done].
  - intros H. rewrite (proj2 IH) by (intros; eapply H; [by apply elem_of_cons; right|done]). case_decide as E; [done|].
    rewrite (proj2 (cnt_zero n l)); [done|]. apply (H x); [by apply elem_of_cons; left|done].
Qed.

Lemma pending_of_cons edges done x members n :
  NoDup edges.*1 → (x, members) ∈ edges → x ∉ done →
  pending_of edges done n = pending_of edges (x :: done) n + cnt n members.
Proof.
  unfold pending_of. induction edges as [|[y l] edges IH]; [set_solver|]. rewrite fmap_cons, NoDup_cons.
  intros [Hy Hnd] [[= <- <-]|Hx]%elem_of_cons Hd; simpl.
  - rewrite (decide_False (P := x ∈ done)), (decide_True (P := x ∈ x :: done)) by set_solver.
    assert (sum_list_with (λ e, if decide (e.1 ∈ done) then 0 else cnt n e.2) edges
      = sum_list_with (λ e, if decide (e.1 ∈ x :: done) then 0 else cnt n e.2) edges) as ->; [|lia].
    clear -Hy. simpl in Hy. induction edges as [|[z k] edges IH]; [done|]. simpl in *. apply not_elem_of_cons in Hy as [? ?].
    rewrite IH by done. f_equal. repeat case_decide; set_solver.
  - rewrite (IH Hnd Hx Hd). assert (x ≠ y). { intros ->. apply Hy. apply list_elem_of_fmap. by exists (y, members). }
    assert ((if decide (y ∈ done) then 0 else cnt n l) = if decide (y ∈ x :: done) then 0 else cnt n l) as ->; [|lia].
    repeat case_decide; set_solver.
Qed.

Section elimination.
Variables (names : list string) (edges : list (string * list string)).
Hypothesis Hkeys : edges.*1 = names.
Hypothesis Hnodup : NoDup names.
Hypothesis Hmembers : Forall (λ e, Forall (.∈ names) e.2) edges.

Lemma degrees_lookup n :
  degrees names edges !! n = if decide (n ∈ names) then Some (total n edges) else None.
Proof.
  unfold degrees. rewrite raise_edges.
  assert ((list_to_map ((λ n, (n, 0)) <$> names) : gmap string nat) !! n = if decide (n ∈ names) then Some 0 else None) as ->.
  { case_decide as H.
    - apply elem_of_list_to_map_1; [rewrite <- list_fmap_compose; by rewrite list_fmap_id|]. apply list_elem_of_fmap. eauto.
    - apply not_elem_of_list_to_map_1. rewrite <- list_fmap_compose. by rewrite list_fmap_id. }
  by case_decide.
Qed.

(** A group and one of the groups it contains. *)
Definition edge (x y : string) : Prop := ∃ members, (x, members) ∈ edges ∧ y ∈ members.

Lemma edge_names x y : edge x y → x ∈ names ∧ y ∈ names.
Proof.
  intros (members & Hx & Hy). split.
  - rewrite <- Hkeys. apply list_elem_of_fmap. by exists (x, members).
  - rewrite Forall_forall in Hmembers. specialize (Hmembers _ Hx). simpl in Hmembers.
    rewrite Forall_forall in Hmembers. by apply Hmembers.
Qed.

Lemma tc_edge_names x y : tc edge x y → x ∈ names.
Proof. destruct 1 as [x y H|x y z H _]; by apply edge_names in H as [? _]. Qed.

Lemma tc_flip x y : tc (flip edge) x y → tc edge y x.
Proof. induction 1 as [x y H|x y z H _ IH]; [by apply tc_once|]. by eapply tc_r. Qed.

Abbreviation pending := (pending_of edges).

Lemma pending_zero done n : pending done n = 0 ↔ ∀ m, edge m n → m ∈ done.
Proof.
  rewrite pending_of_zero. split.
  - intros H m (members & Hm & Hn). destruct (decide (m ∈ done)) as [|Hd]; [done|]. by destruct (H m members Hm Hd).
  - intros H m members Hm Hd Hn. apply Hd, H. by exists members.
Qed.

Lemma pending_cons done x members n :
  (x, members) ∈ edges → x ∉ done → pending done n = pending (x :: done) n + cnt n members.
Proof. intros Hx Hd. apply pending_of_cons; [by rewrite Hkeys|done|done]. Qed.

(** ** One round *)

Definition degrees_are (d : gmap string nat) (f : string → nat) : Prop :=
  ∀ n, d !! n = if decide (n ∈ names) then Some (f n) else None.

Lemma lower_spec members d ready q :
  Forall (.∈ names) members → degrees_are d (λ n, q n + cnt n members) →
  ∃ d' fresh, lower members d ready = Some (d', fresh ++ ready) ∧ degrees_are d' q ∧ NoDup fresh ∧
    ∀ n, n ∈ fresh ↔ n ∈ members ∧ q n = 0.
Proof.
  revert d ready. induction members as [|m members IH]; intros d ready Hm Hd.
  - exists d, []. split_and!; [done| |constructor|set_solver].
    intros n. rewrite Hd. unfold cnt. simpl. by rewrite Nat.add_0_r.
  - apply Forall_cons in Hm as [Hm Hms]. cbn [lower]. rewrite (Hd m), decide_True by done.
    rewrite cnt_cons, decide_True by done. rewrite Nat.add_succ_r. cbn [Nat.add].
    set (k := q m + cnt m members).
    destruct (IH (<[m:=k]> d) (if Nat.eqb k 0 then m :: ready else ready) Hms) as (d' & fresh & El & Hd' & Hnd & Hf).
    { intros n. destruct (decide (m = n)) as [<-|Hne]; [by rewrite lookup_insert_eq, decide_True by done|].
      rewrite lookup_insert_ne, Hd, cnt_cons, (decide_False (P := m = n)) by done. done. }
    rewrite El. destruct (Nat.eqb_spec k 0) as [Hk|Hk].
    + exists d', (fresh ++ [m]). rewrite <- app_assoc. split_and!; [done|done| |].
      * apply NoDup_app. split_and!; [done| |apply NoDup_singleton]. intros n Hn Hn'.
        apply list_elem_of_singleton in Hn' as ->. apply Hf in Hn as [Hn _]. subst k.
        assert (cnt m members = 0) as Hc by lia. by apply cnt_zero in Hc.
      * intros n. rewrite elem_of_app, Hf, list_elem_of_singleton, elem_of_cons.
        assert (q m = 0) by lia. naive_solver.
    + exists d', fresh. split_and!; [done..|]. intros n. rewrite Hf, elem_of_cons. split; [naive_solver|].
      intros [[->|Hn] Hq]; [|done]. split; [|done]. destruct (decide (m ∈ members)) as [|Hc]; [done|].
      apply cnt_zero in Hc. lia.
Qed.

(** The groups done, the last first: every group that contains one of them was
    done before it. *)
Fixpoint topological (done : list string) : Prop :=
  match done with
  | [] => True
  | x :: done => (∀ m, edge m x → m ∈ done) ∧ topological done
  end.

(** Between two rounds. *)
Record between (done ready : list string) (d : gmap string nat) : Prop := {
  bt_nodup : NoDup (done ++ ready);
  bt_names : Forall (.∈ names) (done ++ ready);
  bt_degrees : degrees_are d (pending done);
  bt_sources : ∀ n, n ∈ names → n ∈ done ++ ready ↔ pending done n = 0;
  bt_order : topological done
}.

Lemma between_lengths done ready d : between done ready d → length done + length ready ≤ length names.
Proof.
  intros []. rewrite <- length_app. apply submseteq_length, NoDup_submseteq; [done|]. intros x Hx.
  rewrite Forall_forall in bt_names0. by apply bt_names0.
Qed.

Lemma lookup_edges x members : (x, members) ∈ edges → (list_to_map edges : Edges) !! x = Some members.
Proof. intros H. apply elem_of_list_to_map_1; [by rewrite Hkeys|done]. Qed.

Lemma between_step done x ready d :
  between done (x :: ready) d →
  ∃ members d' fresh, (list_to_map edges : Edges) !! x = Some members ∧
    lower members d ready = Some (d', fresh ++ ready) ∧ between (x :: done) (fresh ++ ready) d'.
Proof.
  intros [Hnd Hn Hd Hs Ho].
  assert (x ∈ names) as Hx. { rewrite Forall_forall in Hn. apply Hn. set_solver. }
  assert (∃ members, (x, members) ∈ edges) as [members Hm].
  { rewrite <- Hkeys in Hx. apply list_elem_of_fmap in Hx as ([y l] & -> & ?). by exists l. }
  assert (x ∉ done) as Hxd. { apply NoDup_app in Hnd as (_ & H & _). intros Hx'. apply (H x Hx'). set_solver. }
  assert (Forall (.∈ names) members) as Hms.
  { rewrite Forall_forall in Hmembers. exact (Hmembers _ Hm). }
  assert (∀ n, pending done n = pending (x :: done) n + cnt n members) as Hp by (intros n; by apply pending_cons).
  destruct (lower_spec members d ready (pending (x :: done)) Hms) as (d' & fresh & El & Hd' & Hf & Hfresh).
  { intros n. rewrite Hd. case_decide; [|done]. f_equal. apply Hp. }
  assert (∀ n, n ∈ fresh → n ∉ done ++ x :: ready) as Hdisj.
  { intros n [Hnm Hq]%Hfresh Hin. apply Hs in Hin; [|by rewrite Forall_forall in Hms; apply Hms].
    rewrite Hp in Hin. apply cnt_zero with (n := n) (l := members); [lia|done]. }
  exists members, d', fresh. split_and!; [by apply lookup_edges|done|]. split.
  - rewrite (Permutation_app_comm fresh), app_assoc.
    change ((x :: done) ++ ready) with (x :: (done ++ ready)).
    assert (x :: (done ++ ready) ≡ₚ done ++ x :: ready) as Hperm by (by rewrite Permutation_middle).
    apply NoDup_app. split_and!; [by rewrite Hperm| |done]. intros n Hin Hn'. apply (Hdisj n Hn'). by rewrite <- Hperm.
  - apply Forall_forall. intros n Hin. rewrite Forall_forall in Hn. rewrite Forall_forall in Hms.
    rewrite !elem_of_app, elem_of_cons in Hin. destruct Hin as [[->|?]|[?%Hfresh|?]]; try done; [apply Hn; set_solver| |apply Hn; set_solver].
    apply Hms. naive_solver.
  - done.
  - intros n Hin. specialize (Hs n Hin). rewrite Hp in Hs. rewrite !elem_of_app, elem_of_cons in *.
    rewrite Hfresh. split.
    + intros H. destruct H as [[?|?]|[[? ?]|?]]; try lia; cut (pending (x :: done) n + cnt n members = 0); try lia; apply Hs; tauto.
    + intros H. destruct (decide (n ∈ members)) as [|Hnm]; [tauto|]. apply cnt_zero in Hnm.
      assert (pending (x :: done) n + cnt n members = 0) as H0 by lia. apply Hs in H0. tauto.
  - split; [|done]. apply pending_zero. apply Hs; [done|]. set_solver.
Qed.

(** The loop runs to an empty stack. *)
Lemma eliminate_loop_ends fuel done ready d :
  between done ready d → length names - length done ≤ fuel →
  ∃ done' d', eliminate_loop fuel (list_to_map edges) d ready (length done) = Some (length done') ∧ between done' [] d'.
Proof.
  revert done ready d. induction fuel as [|fuel IH]; intros done ready d Hb Hf.
  - pose proof (between_lengths _ _ _ Hb). destruct ready; simpl in *; [by exists done, d|lia].
  - destruct ready as [|x ready]; [by exists done, d|].
    pose proof (between_lengths _ _ _ Hb) as Hl. simpl in Hl.
    destruct (between_step _ _ _ _ Hb) as (members & d' & fresh & E & El & Hb').
    destruct (IH (x :: done) (fresh ++ ready) d' Hb') as (done' & d'' & Er & Hb''); [simpl; lia|].
    exists done', d''. split; [|done]. cbn [eliminate_loop]. rewrite E, El. exact Er.
Qed.

(** ** Cycles *)

Definition acyclic : Prop := ∀ x, ¬ tc edge x x.

Lemma topological_before done x y : topological done → NoDup done → y ∈ done → tc edge x y →
  ∃ before after, done = before ++ y :: after ∧ x ∈ after.
Proof.
  intros Ht Hnd Hy Hxy. induction Hxy as [x y H|x z y H Hzy IH].
  - clear -Ht Hnd Hy H. induction done as [|w done IH]; [set_solver|]. destruct Ht as [Hw Ht]. apply NoDup_cons in Hnd as [? ?].
    apply elem_of_cons in Hy as [->|Hy]; [exists [], done; auto|].
    destruct (IH Ht) as (b & a & -> & ?); [done..|]. by exists (w :: b), a.
  - destruct (IH Hy) as (b & a & -> & Hz). exists b, a. split; [done|].
    clear -Ht Hz H. induction b as [|w b IHb]; [|apply IHb; apply Ht]. destruct Ht as [_ Ht].
    clear -Ht Hz H. induction a as [|w a IHa]; [set_solver|]. destruct Ht as [Hw Ht].
    apply elem_of_cons in Hz as [->|Hz]; [right; by apply Hw|right; by apply IHa].
Qed.

Lemma all_done_acyclic done d : between done [] d → length done = length names → acyclic.
Proof.
  intros [Hnd Hn _ _ Ho] Hl x Hx. rewrite app_nil_r in *.
  assert (done ≡ₚ names) as Hp.
  { apply submseteq_length_Permutation; [apply NoDup_submseteq; [done|]|lia]. intros y Hy. rewrite Forall_forall in Hn. by apply Hn. }
  assert (x ∈ done) as Hxd.
  { rewrite Hp. by eapply tc_edge_names. }
  destruct (topological_before done x x Ho Hnd Hxd Hx) as (b & a & -> & Ha).
  apply NoDup_app in Hnd as (_ & _ & Hnd). apply NoDup_cons in Hnd as [? _]. done.
Qed.

Lemma acyclic_all_done done d : between done [] d → acyclic → length done = length names.
Proof.
  intros [Hnd Hn _ Hs _] Ha. rewrite app_nil_r in *.
  assert (names ⊆+ done) as Hsub.
  { apply NoDup_submseteq; [done|]. intros x Hx. destruct (decide (x ∈ done)) as [|Hd]; [done|exfalso].
    assert (sn (flip edge) x) as Hsn.
    { apply tc_finite_sn.
      - intros y Hy. apply (Ha y). apply tc_flip. exact Hy.
      - exists names. intros y Hy. apply tc_flip in Hy. by eapply tc_edge_names. }
    revert Hx Hd. induction Hsn as [x _ IH]. intros Hx Hd.
    assert (pending done x ≠ 0) as Hp by (intros E; apply Hd, Hs; done).
    apply Hp, pending_zero. intros m Hm. destruct (decide (m ∈ done)) as [|Hmd]; [done|].
    exfalso. apply (IH m); [exact Hm|by apply (edge_names m x)|done]. }
  apply Nat.le_antisymm; [|by apply submseteq_length].
  apply submseteq_length, NoDup_submseteq; [done|]. intros y Hy. rewrite Forall_forall in Hn. by apply Hn.
Qed.

Lemma between_start order :
  order ≡ₚ names →
  between [] (reverse (List.filter (λ n, bool_decide (degrees names edges !! n = Some 0)) order)) (degrees names edges).
Proof.
  intros Ho. set (ready := List.filter _ order).
  assert (∀ n, n ∈ ready ↔ n ∈ names ∧ degrees names edges !! n = Some 0) as Hr.
  { intros n. subst ready. rewrite !list_elem_of_In, filter_In, <- !list_elem_of_In, bool_decide_eq_true. by rewrite Ho. }
  assert (degrees_are (degrees names edges) (pending [])) as Hd.
  { intros n. rewrite degrees_lookup. case_decide; [|done]. by rewrite pending_of_nil. }
  split; cbn [app].
  - rewrite reverse_Permutation. apply NoDup_ListNoDup, List.NoDup_filter, NoDup_ListNoDup. by rewrite Ho.
  - apply Forall_forall. intros n Hn. rewrite reverse_Permutation in Hn. by apply Hr in Hn as [? _].
  - done.
  - intros n Hn. rewrite reverse_Permutation, Hr, (Hd n), decide_True by done. naive_solver.
  - done.
Qed.

Lemma eliminate_correct hash_order :
  hash_order names ≡ₚ names →
  ∃ visited, eliminate hash_order names edges = Some visited ∧ (visited = length names ↔ acyclic).
Proof.
  intros Ho. destruct (eliminate_loop_ends (length names) [] _ _ (between_start _ Ho)) as (done & d & E & Hb); [simpl; lia|].
  exists (length done). split; [exact E|]. split; [by eapply all_done_acyclic|by eapply acyclic_all_done].
Qed.

End elimination.
End ClashOrder.

(** * The members of a materialised group

    What the loops over the members of a native group leave: known names, each
    once, and of the groups only those the author listed. *)

From S2P Require Import Prelude Kernel Node Text Ip UrlText NodePool Template GenTypes Assemble UriParse SourceParse Containers Yaml YamlRead ClashRules Clash ClashGroups.
Import Clash ClashGroups.

Module ClashMembers.

Section members.
Context {Regex : Type} (build : string → option Regex) (is_match : Regex → string → option bool) (late : N → bool).
Variables (types : gmap string string) (aliases : gmap string string) (unavailable : gset string) (automatic : list string).

Ltac unbind H := let a := fresh "a" in let E := fresh "E" in apply bind_ret in H as (a & E & H).

(** A member that may be there: a known name, listed or the name of a node. *)
Definition sourced (raw : list string) (m : string) : Prop :=
  is_Some (types !! m) ∧ (m ∈ raw ∨ m ∈ automatic ∨ ∃ r, aliases !! r = Some m).

Record collected (raw : list string) (a : Acc) : Prop := {
  co_seen : ac_seen a = list_to_set (ac_members a);
  co_nodup : NoDup (ac_members a);
  co_sourced : Forall (sourced raw) (ac_members a)
}.

Hypothesis Hautomatic : Forall (λ m, is_Some (types !! m)) automatic.

Lemma collected_budget raw b a : collected raw a → collected raw (with_budget b a).
Proof. by intros []. Qed.
Lemma collected_warn raw w a : collected raw a → collected raw (warn w a).
Proof. by intros []. Qed.

Lemma collected_push raw m a : collected raw a → sourced raw m → collected raw (push m a).
Proof.
  intros [Hs Hn Hf] Hm. unfold push. case_bool_decide as E; [by split|]. split; simpl.
  - rewrite Hs, list_to_set_app_L. simpl. set_solver.
  - apply NoDup_app. split_and!; [done| |apply NoDup_singleton]. intros x Hx Hx'. apply list_elem_of_singleton in Hx' as ->.
    apply E. rewrite Hs. by apply elem_of_list_to_set.
  - apply Forall_app. split; [done|]. by apply Forall_singleton.
Qed.

Lemma append_collected raw l include a a' :
  append_nodes is_match late l include a = Some (Ok a') → l ⊆ automatic → collected raw a → collected raw a'.
Proof.
  revert a. induction l as [|m l IH]; intros a H Hl Ha; simpl in H; [by injection H as <-|].
  unbind H. unbind H. apply IH in H; [done|set_solver|].
  assert (sourced raw m) as Hm.
  { assert (m ∈ automatic) as Hin by set_solver. split; [|auto]. rewrite Forall_forall in Hautomatic. by apply Hautomatic. }
  destruct (a1.1); [apply collected_push; [|done]|]; by apply collected_budget.
Qed.

Lemma sourced_listed raw m : m ∈ raw → types !! m ≠ None → sourced raw m.
Proof. intros H Ht. split; [by destruct (types !! m)|auto]. Qed.

Lemma listed_collected raw name include l a a' :
  listed is_match late types aliases unavailable automatic name include l a = Some (Ok a') →
  l ⊆ raw → collected raw a → collected raw a'.
Proof.
  revert a. induction l as [|m l IH]; intros a H Hl Ha; cbn [listed] in H; [by injection H as <-|].
  assert (l ⊆ raw) as Hl' by set_solver. assert (m ∈ raw) as Hm by set_solver.
  unbind H. apply (collected_budget _ a0) in Ha. revert H. generalize dependent (with_budget a0 a). clear E a. intros a Ha H.
  destruct (String.eqb m PROVIDERS); [by eapply IH|]. destruct (String.eqb m NODES).
  { unbind H. eapply IH; [done|done|]. by eapply append_collected. }
  destruct (aliases !! m) as [current|] eqn:Ea.
  - case_bool_decide as Et.
    + case_bool_decide; [|done]. eapply IH; [done|done|]. by repeat apply collected_warn.
    + eapply IH; [done|done|]. apply collected_push; [by apply collected_warn|].
      split; [by destruct (types !! current)|eauto].
  - case_bool_decide as Et.
    + case_bool_decide; [|done]. eapply IH; [done|done|]. by apply collected_warn.
    + eapply IH; [done|done|]. apply collected_push; [done|]. by apply sourced_listed.
Qed.

Lemma keep_subset exclude excluded_types l b r :
  keep is_match late types exclude excluded_types l b = Some (Ok r) → r.1 ⊆ l ∧ (NoDup l → NoDup r.1).
Proof.
  revert b r. induction l as [|m l IH]; intros b r H; cbn [keep] in H; [by injection H as <-|].
  unbind H. unbind H. unbind H. injection H as <-. apply IH in E1 as [Hs Hn]. destruct (a0.1); cbn [fst].
  - split; [set_solver|]. intros [_ ?]%NoDup_cons. auto.
  - split; [set_solver|]. intros [? ?]%NoDup_cons. apply NoDup_cons. split; [set_solver|auto].
Qed.

(** The members of a group. *)
Lemma group_members_spec group b l w b' :
  group_members build is_match late types aliases unavailable automatic group b = Some (Ok (l, w, b')) →
  NoDup l ∧ Forall (sourced (proxies_of group)) l.
Proof.
  intros H. unfold group_members in H. unbind H. unbind H. unbind H. unbind H. unbind H. injection H as <- _ _.
  apply keep_subset in E3 as [Hs Hd].
  assert (collected (proxies_of group) a1) as H1.
  { eapply listed_collected; [exact E1|done|]. split; simpl; [done|constructor|constructor]. }
  assert (collected (proxies_of group) a2) as [_ Hn Hf].
  { destruct (includes_all group); [by eapply append_collected|]. by injection E2 as <-. }
  split; [by apply Hd|]. apply Forall_forall. intros x Hx. rewrite Forall_forall in Hf. by apply Hf, Hs.
Qed.

End members.
(** ** The pages of the pool

    Every page costs a visit, so the loop over them ends by its budget: any more
    fuel gives the same result. *)

Section pages.
Variables (late : N → bool) (id_display : NodeId → string) (list_nodes : option NodeId → Result string (list NodePoolEntry)).

Ltac unbind H := let a := fresh "a" in let E := fresh "E" in apply bind_ret in H as (a & E & H).

Lemma visit_costs n b b' : visit late n b = Some (Ok b') → bd_remaining b = (bd_remaining b' + 1)%N.
Proof.
  unfold visit. destruct (N.eqb_spec (bd_remaining b) 0); [done|]. case_match; [done|]. intros [= <-]. simpl. lia.
Qed.

Lemma match_references_costs d refs names b r :
  match_references late d refs names b = Some (Ok r) → (bd_remaining r.2 ≤ bd_remaining b)%N.
Proof.
  revert names b. induction refs as [|[base name] refs IH]; intros names b H; cbn [match_references] in H; [by injection H as <-|].
  unbind H. apply visit_costs in E. apply IH in H. lia.
Qed.

Lemma scan_page_costs wanted q entries names b r :
  scan_page late id_display wanted q entries names b = Some (Ok r) → (bd_remaining r.2 ≤ bd_remaining b)%N.
Proof.
  revert names b. induction entries as [|e entries IH]; intros names b H; cbn [scan_page] in H; [by injection H as <-|].
  unbind H. apply visit_costs in E. case_match; [|apply IH in H; lia].
  unbind H. apply match_references_costs in E0. apply IH in H. lia.
Qed.

Lemma scan_pool_fuel fuel fuel' wanted q cursor names b :
  N.to_nat (bd_remaining b) < fuel → fuel ≤ fuel' →
  scan_pool late id_display list_nodes fuel wanted q cursor names b = scan_pool late id_display list_nodes fuel' wanted q cursor names b.
Proof.
  revert fuel' cursor names b. induction fuel as [|fuel IH]; intros fuel' cursor names b Hb Hf; [lia|].
  destruct fuel' as [|fuel']; [lia|]. cbn [scan_pool]. destruct (visit late 0 b) as [[b1|]|] eqn:Ev; [|done|done].
  apply visit_costs in Ev. cbn [bind]. unfold lift. destruct (map_err Storage (list_nodes cursor)) as [entries|]; [|done]. cbn [bind].
  destruct (last entries) as [entry|]; [|done].
  destruct (scan_page late id_display wanted q entries names b1) as [[p|]|] eqn:Ep; [|done|done]. apply scan_page_costs in Ep. cbn [bind].
  case_match; [done|]. apply IH; lia.
Qed.
End pages.

End ClashMembers.

(** * Native Clash documents: what validation decides, and what it still says
      after materialisation *)

From stdpp Require Import relations.
From S2P Require Import Prelude Kernel Node Text Ip UrlText NodePool Template GenTypes Validation Assemble UriParse SourceParse Containers Yaml YamlRead ClashRules Clash ClashGroups ClashDocument.
Import Clash ClashOrder ClashGroups ClashMembers ClashDocument.

Module ClashTheorems.

(** Facts about the keys of groups are decided. *)
Ltac keys := refine (bool_decide_unpack _ _); vm_compute; exact I.

Ltac unbind H := let a := fresh "a" in let E := fresh "E" in apply bind_ret in H as (a & E & H).
Ltac unresult H := let a := fresh "a" in let E := fresh "E" in apply result_bind_Ok in H as (a & E & H).

(** ** Groups and their names *)

Definition name_of (g : Json) : string := str_at g "name".

Lemma get_str_at g k s : ClashRules.get_str g k = Some s → str_at g k = s.
Proof.
  unfold ClashRules.get_str, str_at, at_key. destruct (Containers.get g k) as [v|]; simpl; [|done]. by intros ->.
Qed.

Lemma get_in_object g k v : Containers.get g k = Some v → ∃ m, g = JObject m.
Proof. destruct g; try done. eauto. Qed.

Lemma required_name g k s : required_string g k = Ok s → ClashRules.get_str g k = Some s.
Proof. apply ok_or_Ok. Qed.

Lemma check_group_name names g name :
  check_group names g = Ok name → ClashRules.get_str g "name" = Some name ∧ name ∉ names ∧ name ∉ Assemble.POLICIES.
Proof.
  unfold check_group. intros H. unresult H. apply required_name in E. destruct (bad_name names a) eqn:Eb; [done|].
  unresult H. destruct (negb _); [done|]. unresult H. unresult H. unresult H. case_bool_decide; [done|].
  destruct (match ClashRules.get_str g "default-selected" with Some _ => _ | None => _ end); [done|].
  apply Ok_inj in H as <-. unfold bad_name in Eb. rewrite !orb_false_iff, !bool_decide_eq_false in Eb. naive_solver.
Qed.

Lemma check_groups_names names groups names' :
  check_groups names groups = Ok names' → NoDup names →
  names' = names ++ (name_of <$> groups) ∧ NoDup names' ∧ Forall (λ g, ClashRules.get_str g "name" = Some (name_of g)) groups.
Proof.
  revert names. induction groups as [|g groups IH]; intros names H Hn; cbn [check_groups] in H.
  - apply Ok_inj in H as <-. rewrite app_nil_r. split_and!; [done|done|constructor].
  - unresult H. apply check_group_name in E as (E & Hnot & _). pose proof (get_str_at _ _ _ E) as Ea. fold (name_of g) in Ea. subst a.
    destruct (IH _ H) as (-> & Hn' & Hf).
    { apply NoDup_app. split_and!; [done| |apply NoDup_singleton]. intros x Hx Hx'. apply list_elem_of_singleton in Hx' as ->. done. }
    split_and!; [by rewrite <- app_assoc|done|by constructor].
Qed.

Lemma collect_ok_Forall {E A B} (f : A → Result E B) l bs :
  collect_ok f l = Ok bs → Forall2 (λ a b, f a = Ok b) l bs.
Proof. apply collect_ok_Forall2. Qed.

(** The edges the validation collects fit the elimination. *)
Lemma group_edges_name names nodes g e :
  group_edges names nodes g = Ok e → e.1 = name_of g ∧ Forall (.∈ names) e.2.
Proof.
  unfold group_edges. intros H. unresult H. apply required_name, get_str_at in E. unresult H.
  case_match; [done|]. case_match; [done|]. apply Ok_inj in H as <-. split; [done|].
  apply Forall_forall. intros x Hx. apply list_elem_of_In, filter_In in Hx as [_ Hx]. by apply bool_decide_eq_true in Hx.
Qed.

Lemma collected_edges names nodes groups edges :
  collect_ok (group_edges names nodes) groups = Ok edges →
  edges.*1 = name_of <$> groups ∧ Forall (λ e, Forall (.∈ names) e.2) edges.
Proof.
  intros H. apply collect_ok_Forall in H. induction H as [|g e groups edges Hg _ [IH1 IH2]]; [by split|].
  apply group_edges_name in Hg as [? ?]. simpl. split; [by f_equal|by constructor].
Qed.

(** What the elimination says of a document whose groups pass their checks. *)
Lemma validate_eliminated (hash_order : list string → list string) cfg nodes groups names edges :
  (∀ l, hash_order l ≡ₚ l) →
  check_shape cfg = Ok groups → check_groups [] groups = Ok names → collect_ok (group_edges names nodes) groups = Ok edges →
  ∃ all, validate hash_order cfg nodes = (if all : bool then Some (check_routing cfg names)
                                           else Some (Err (invalid "proxy-groups contains a cycle"))) ∧
         (all = true ↔ acyclic edges).
Proof.
  intros Ho Hs Hn He. destruct (check_groups_names _ _ _ Hn) as (Enames & Hnd & _); [constructor|].
  destruct (collected_edges _ _ _ _ He) as [Hk Hm]. simpl in Enames.
  destruct (eliminate_correct names edges) with hash_order as (visited & Ev & Hv); [by rewrite Hk|done|done|apply Ho|].
  exists (Nat.eqb visited (length names)). rewrite Nat.eqb_eq. split; [|done].
  unfold validate, lift, err. rewrite Hs. cbn [bind]. rewrite Hn. cbn [bind]. rewrite He. cbn [bind]. by rewrite Ev.
Qed.

(** C21: Native validation rejects exactly the cyclic documents among those that
    pass its checks of shapes, names and members: where no group contains itself,
    directly or through others, the verdict is that of the rules and providers;
    where one does, it is the cycle error.  The elimination loop always ends,
    without a panic, and nothing depends on the order of the hash map. *)
Theorem native_cycles_exact (hash_order : list string → list string) (cfg : Members) (nodes : option (list string))
    (groups : list Json) (names : list string) (edges : list (string * list string)) :
  (∀ l, hash_order l ≡ₚ l) →
  check_shape cfg = Ok groups → check_groups [] groups = Ok names → collect_ok (group_edges names nodes) groups = Ok edges →
  (acyclic edges → validate hash_order cfg nodes = Some (check_routing cfg names)) ∧
  (¬ acyclic edges → validate hash_order cfg nodes = Some (Err (invalid "proxy-groups contains a cycle"))).
Proof.
  intros Ho Hs Hn He. destruct (validate_eliminated hash_order cfg nodes groups names edges) as (all & -> & Ha); [done..|].
  destruct all; split; intros H; try done; [by destruct H; apply Ha|by apply Ha in H].
Qed.

(** Validation never panics. *)
Lemma validate_total hash_order cfg nodes : (∀ l, hash_order l ≡ₚ l) → validate hash_order cfg nodes ≠ None.
Proof.
  intros Ho. destruct (check_shape cfg) as [groups|] eqn:Hs; [|unfold validate, lift; by rewrite Hs].
  destruct (check_groups [] groups) as [names|] eqn:Hn; [|unfold validate, lift; rewrite Hs; cbn [bind]; by rewrite Hn].
  destruct (check_groups_names _ _ _ Hn) as (Enames & Hnd & _); [constructor|]. simpl in Enames.
  unfold validate, lift. rewrite Hs. cbn [bind]. rewrite Hn. cbn [bind].
  destruct (collect_ok (group_edges names nodes) groups) as [edges|] eqn:He; [|done]. cbn [bind].
  destruct (collected_edges _ _ _ _ He) as [Hk Hm].
  destruct (eliminate_correct names edges) with hash_order as (visited & Ev & _); [by rewrite Hk|done|done|apply Ho|].
  rewrite Ev. by case_match.
Qed.

(** ** Keys of a group *)

Lemma get_remove_keys keys g k :
  Containers.get (remove_keys keys g) k = if decide (k ∈ keys) then None else Containers.get g k.
Proof.
  destruct g as [| | | | |m]; try (simpl; by case_decide). simpl. revert m. induction keys as [|k0 keys IH]; intros m; cbn [foldl].
  - by rewrite decide_False by apply not_elem_of_nil.
  - rewrite IH, Containers.map_get_remove. destruct (String.eqb_spec k0 k) as [->|Hne].
    + rewrite (decide_True (P := k ∈ k :: keys)) by set_solver. by case_decide.
    + repeat case_decide; set_solver.
Qed.

Lemma set_key_get g key v g' k :
  set_key g key v = Some (Ok g') → Containers.get g' k = if String.eqb key k then Some v else Containers.get g k.
Proof.
  destruct g as [| | | | |m]; try done.
  - intros [= <-]. simpl. unfold Containers.map_get. simpl. by destruct (String.eqb key k).
  - intros [= <-]. simpl. apply Containers.map_get_insert.
Qed.

(** A group and what materialisation makes of it, for the members it leaves. *)
Record reshaped (g : Json) (l : list string) (g' : Json) : Prop := {
  rs_proxies : Containers.get g' "proxies" = Some (Containers.strings l);
  rs_type : Containers.get g' "type" = Containers.get g "type" ∨ Containers.get g' "type" = Some (JString "select");
  rs_default : Containers.get g' "default-selected" = None ∨
    Containers.get g' "default-selected" = Containers.get g "default-selected" ∧
    ∀ d, Containers.get g "default-selected" = Some (JString d) → d ∈ l;
  rs_filters k : k ∈ FILTER_KEYS → Containers.get g' k = None;
  rs_same k : k ∉ "type" :: "proxies" :: "default-selected" :: FILTER_KEYS → Containers.get g' k = Containers.get g k
}.

Lemma drop_default_get l g k :
  Containers.get (drop_default l g) k = Containers.get g k ∨
  k = "default-selected" ∧ Containers.get (drop_default l g) k = None.
Proof.
  unfold drop_default. case_match; [|auto]. case_bool_decide; [auto|]. rewrite get_remove_keys. case_decide as E; [|auto].
  right. set_solver.
Qed.

Lemma drop_default_listed l g d :
  Containers.get (drop_default l g) "default-selected" = Some (JString d) → d ∈ l.
Proof.
  unfold drop_default, at_key. destruct (Containers.get g "default-selected") as [v|] eqn:E; simpl; [|by rewrite E].
  destruct (Containers.as_str v) as [s|] eqn:Es.
  - case_bool_decide as Hs.
    + rewrite E. intros [= ->]. simpl in Es. by injection Es as ->.
    + rewrite get_remove_keys, decide_True by set_solver. done.
  - rewrite E. intros [= ->]. done.
Qed.

Lemma reshape g g1 l g2 :
  (g1 = g ∨ set_key g "type" (JString "select") = Some (Ok g1)) →
  set_key (drop_default l g1) "proxies" (Containers.strings l) = Some (Ok g2) → reshaped g l (remove_keys FILTER_KEYS g2).
Proof.
  intros Hg1 Hg2.
  assert (∀ k, k ≠ "type" → Containers.get g1 k = Containers.get g k) as H1.
  { intros k Hk. destruct Hg1 as [->|H]; [done|]. rewrite (set_key_get _ _ _ _ _ H).
    destruct (String.eqb_spec "type" k); [congruence|done]. }
  assert (∀ k, k ∉ FILTER_KEYS → k ≠ "proxies" → Containers.get (remove_keys FILTER_KEYS g2) k = Containers.get (drop_default l g1) k) as H2.
  { intros k Hk Hp. rewrite get_remove_keys, decide_False by done. rewrite (set_key_get _ _ _ _ _ Hg2).
    destruct (String.eqb_spec "proxies" k); [congruence|done]. }
  split.
  - rewrite get_remove_keys, decide_False by keys. by rewrite (set_key_get _ _ _ _ _ Hg2).
  - rewrite H2 by keys. destruct (drop_default_get l g1 "type") as [->|[? _]]; [|done].
    destruct Hg1 as [->|H]; [by left|]. right. by rewrite (set_key_get _ _ _ _ _ H).
  - rewrite H2 by keys. destruct (drop_default_get l g1 "default-selected") as [E|[_ E]]; [|by left].
    right. rewrite E, H1 by done. split; [done|]. intros d Hd. eapply (drop_default_listed l g1). by rewrite E, H1.
  - intros k Hk. by rewrite get_remove_keys, decide_True.
  - intros k Hk. rewrite H2 by set_solver. destruct (drop_default_get l g1 k) as [->|[-> _]]; [|set_solver]. apply H1. set_solver.
Qed.

(** ** The checks of a group still pass *)

Lemma check_keys_kept g g' keys ok message :
  check_keys g keys ok message = Ok () →
  Forall (λ k, Containers.get g' k = None ∨ Containers.get g' k = Containers.get g k) keys →
  check_keys g' keys ok message = Ok ().
Proof.
  intros H Hf. induction Hf as [|k keys Hk _ IH]; [done|]. cbn [check_keys] in *.
  destruct Hk as [->| ->]; [apply IH; by repeat case_match|].
  destruct (Containers.get g k); [|by apply IH]. case_match; [by apply IH|done].
Qed.

Lemma reshaped_keys g l g' keys :
  reshaped g l g' → Forall (λ k, k ∈ FILTER_KEYS ∨ k ∉ "type" :: "proxies" :: "default-selected" :: FILTER_KEYS) keys →
  Forall (λ k, Containers.get g' k = None ∨ Containers.get g' k = Containers.get g k) keys.
Proof. intros Hr Hk. eapply Forall_impl; [exact Hk|]. intros k [?|?]; [left|right]; by apply Hr. Qed.

Lemma check_group_kept names g l g' name : check_group names g = Ok name → reshaped g l g' → check_group names g' = Ok name.
Proof.
  unfold check_group, required_string, ClashRules.get_str. intros H Hr.
  rewrite (rs_same _ _ _ Hr "name") by keys.
  unresult H. rewrite E. cbn [result_bind]. destruct (bad_name names a); [done|]. unresult H.
  assert (∃ kind, ok_or (v ← Containers.get g' "type"; Containers.as_str v) (invalid ("proxy-groups.type must be a string")) = Ok kind
    ∧ kind ∈ GROUP_KINDS) as (kind & Ek & Hk).
  { destruct (negb _) eqn:En in H; [done|]. apply negb_false_iff, bool_decide_eq_true in En.
    destruct (rs_type _ _ _ Hr) as [->| ->]; [by exists a0|]. exists "select". split; [done|]. keys. }
  destruct (negb _); [done|]. unresult H. unresult H. unresult H.
  change ("proxy-groups." +:+ "type" +:+ " must be a string") with "proxy-groups.type must be a string".
  rewrite Ek. cbn [result_bind]. rewrite bool_decide_true by done. cbn [negb].
  rewrite (check_keys_kept g g' BOOL_KEYS), (check_keys_kept g g' NUMBER_KEYS), (check_keys_kept g g' STRING_KEYS);
    try (by destruct a1, a2, a3); try (apply (reshaped_keys g l); [done|]; keys).
  cbn [result_bind]. rewrite (rs_same _ _ _ Hr "use") by keys. case_bool_decide; [done|].
  destruct (rs_default _ _ _ Hr) as [->|[-> _]]; [|done]. cbn [mbind option_bind].
  destruct (match v ← Containers.get g "default-selected"; _ with Some _ => _ | None => _ end); [done|]. exact H.
Qed.

Lemma strings_of_strings l field : strings (Some (Containers.strings l)) field = Ok l.
Proof.
  unfold strings, Containers.strings. cbn [Containers.as_array ok_or result_bind].
  induction l as [|s l IH]; [done|]. rewrite fmap_cons. cbn [collect_ok Containers.as_str ok_or result_bind]. by rewrite IH.
Qed.

(** Where the members of a group are read, they are its listed proxies. *)
Lemma strings_proxies g field l : strings (Containers.get g "proxies") field = Ok l → proxies_of g = l.
Proof.
  unfold strings, proxies_of, array_of, at_key. destruct (Containers.get g "proxies") as [v|]; [|by intros [= <-]].
  cbn [default]. intros H. unresult H. apply ok_or_Ok in E. cbn [from_option] in *. unfold id. rewrite E. cbn [default].
  unfold id. clear E. revert l H.
  induction a as [|j a IH]; intros l H; cbn [collect_ok] in H; [by apply Ok_inj in H as <-|].
  unresult H. unresult H. apply Ok_inj in H as <-. apply ok_or_Ok in E. cbn [omap list_omap]. rewrite E. f_equal. by apply IH.
Qed.

Lemma find_all_known names nodes l :
  Forall (λ m, known names nodes m = true) l → List.find (λ m, negb (known names nodes m)) l = None.
Proof. induction 1 as [|m l Hm _ IH]; [done|]. simpl. by rewrite Hm. Qed.

Lemma group_edges_kept names nodes g l g' e :
  group_edges names None g = Ok e → reshaped g l g' → l ≠ [] → Forall (λ m, known names nodes m = true) l →
  group_edges names (Some nodes) g' = Ok (e.1, List.filter (λ m, bool_decide (m ∈ names)) l) ∧
  e.2 = List.filter (λ m, bool_decide (m ∈ names)) (proxies_of g).
Proof.
  unfold group_edges. intros H Hr Hl Hk. unresult H. unresult H. apply strings_proxies in E0 as ->.
  assert (required_string g' "name" = Ok a) as ->.
  { revert E. unfold required_string, ClashRules.get_str. by rewrite (rs_same _ _ _ Hr "name") by keys. }
  cbn [result_bind]. rewrite (rs_proxies _ _ _ Hr), strings_of_strings. cbn [result_bind].
  cbn [mbind option_bind] in *. rewrite find_all_known by done.
  destruct (_ && _) in H; [done|]. apply Ok_inj in H as <-. by destruct l.
Qed.

(** ** The names a document knows *)

Definition node_names (nodes : list (Node * Z)) : list string := (λ p : Node * Z, display_name p.1) <$> nodes.

Lemma foldl_insert_dom {A} (key : A → string) (value : A → string) (l : list A) (m : gmap string string) x :
  is_Some (foldl (λ m a, <[key a := value a]> m) m l !! x) ↔ is_Some (m !! x) ∨ x ∈ key <$> l.
Proof.
  revert m. induction l as [|a l IH]; intros m; cbn [foldl]; [set_solver|]. rewrite IH, fmap_cons, elem_of_cons.
  destruct (decide (key a = x)) as [<-|Hne]; [rewrite lookup_insert_eq; naive_solver|].
  rewrite lookup_insert_ne by done. naive_solver.
Qed.

Lemma types_known nodes groups x :
  is_Some (types_of nodes groups !! x) ↔ x ∈ node_names nodes ∨ x ∈ name_of <$> groups ∨ x ∈ Assemble.POLICIES.
Proof.
  unfold types_of. rewrite !foldl_insert_dom, lookup_empty, list_fmap_id. unfold node_names, name_of.
  split; [|naive_solver]. intros [[[[? [=]]|?]|?]|?]; naive_solver.
Qed.

Section document.
Context {Regex : Type} (build : string → option Regex) (is_match : Regex → string → option bool) (late : N → bool).
Variable id_display : NodeId → string.

(** An alias stands for a selected node. *)
Lemma identities_names nodes originals id original current :
  identities id_display nodes originals !! id = Some (original, current) → current ∈ node_names nodes.
Proof.
  unfold identities. assert (Forall (λ p, display_name p.1.1 ∈ node_names nodes) (zip nodes originals)) as Hz.
  { apply Forall_forall. intros [[n z] o] Hp. apply elem_of_zip_l in Hp. apply list_elem_of_fmap. by exists (n, z). }
  assert (∀ id p, (∅ : gmap string (string * string)) !! id = Some p → p.2 ∈ node_names nodes) as H0 by done.
  revert H0. generalize (∅ : gmap string (string * string)).
  induction Hz as [|p l Hp _ IH]; intros m Hm; cbn [foldl]; [intros H; by apply (Hm id (original, current))|].
  apply IH. intros id' q Hq. apply lookup_insert_Some in Hq as [[_ <-]|[_ Hq]]; [done|by eapply Hm].
Qed.

Lemma aliases_names (ids : gmap string (string * string)) (names : list string) wanted b aliases unresolved b' :
  (∀ id p, ids !! id = Some p → p.2 ∈ names) →
  resolve_aliases late ids wanted b = Some (Ok (aliases, unresolved, b')) → ∀ r m, aliases !! r = Some m → m ∈ names.
Proof.
  intros Hids. revert b aliases unresolved b'. induction wanted as [|name wanted IH]; intros b aliases unresolved b' H; cbn [resolve_aliases] in H.
  - injection H as <- <- <-. done.
  - unbind H. apply bind_ret in H as ([[al un] b1] & E' & H). specialize (IH _ _ _ _ E').
    destruct (alias_of ids name) as [current|] eqn:Ea; injection H as <- <- <-; [|done].
    intros r m Hr. apply lookup_insert_Some in Hr as [[_ <-]|[_ Hr]]; [|by eapply IH].
    unfold alias_of in Ea. destruct (qualified_name name) as [[base id]|]; [|done]. simpl in Ea.
    destruct (ids !! id) as [[original cur]|] eqn:Ei; [|done]. simpl in Ea. case_match; [|done]. injection Ea as <-.
    exact (Hids _ _ Ei).
Qed.

Variables (types aliases : gmap string string) (unavailable : gset string) (automatic : list string).
Hypothesis Hautomatic : Forall (λ m, is_Some (types !! m)) automatic.

Abbreviation sourced := (sourced types aliases automatic).

Lemma materialize_group_spec g b g' w b' :
  materialize_group build is_match late types aliases unavailable automatic g b = Some (Ok (g', w, b')) →
  ∃ l, reshaped g l g' ∧ l ≠ [] ∧ NoDup l ∧ (l = ["REJECT"] ∨ Forall (sourced (proxies_of g)) l).
Proof.
  intros H. unfold materialize_group in H. apply bind_ret in H as ([[l ws] b1] & E & H).
  apply group_members_spec in E as [Hn Hf]; [|done]. unbind H. unbind H. injection H as <- _ _.
  destruct l as [|x l].
  - exists ["REJECT"]. split_and!; [|done|apply NoDup_singleton|by left]. eapply reshape; [right; exact E|exact E0].
  - injection E as <-. exists (x :: l). split_and!; [|done|done|by right]. eapply reshape; [by left|exact E0].
Qed.

Lemma materialize_groups_spec groups b r :
  materialize_groups build is_match late types aliases unavailable automatic groups b = Some (Ok r) →
  Forall2 (λ g g', ∃ l, reshaped g l g' ∧ l ≠ [] ∧ NoDup l ∧ (l = ["REJECT"] ∨ Forall (sourced (proxies_of g)) l)) groups r.1.
Proof.
  revert b r. induction groups as [|g groups IH]; intros b r H; cbn [materialize_groups] in H; [injection H as <-; constructor|].
  apply bind_ret in H as ([[g' w] b1] & E & H). unbind H. injection H as <-. simpl.
  constructor; [by eapply materialize_group_spec|by eapply IH].
Qed.

End document.
(** ** A validated document stays valid *)

Lemma check_sections_insert cfg v : check_sections cfg = Ok () → check_sections (Containers.map_insert "proxy-groups" v cfg) = Ok ().
Proof.
  induction cfg as [|[k w] cfg IH]; cbn [check_sections Containers.map_insert]; [done|]. intros H.
  destruct (bool_decide (k ∈ SECTIONS)) eqn:Ek; [|done].
  destruct (String.compare "proxy-groups" k) eqn:Ec; cbn [check_sections]; rewrite ?Ek; [exact H|exact H|by apply IH].
Qed.

Lemma check_objects_same cfg cfg' keys :
  Forall (λ k, map_get cfg' k = map_get cfg k) keys → check_objects cfg' keys = check_objects cfg keys.
Proof. induction 1 as [|k keys Hk _ IH]; [done|]. cbn [check_objects]. by rewrite Hk, IH. Qed.

Lemma map_get_groups cfg v k :
  map_get (Containers.map_insert "proxy-groups" v cfg) k = if String.eqb "proxy-groups" k then Some v else map_get cfg k.
Proof. apply Containers.map_get_insert. Qed.

Lemma check_shape_insert cfg groups groups' :
  check_shape cfg = Ok groups → check_shape (Containers.map_insert "proxy-groups" (JArray groups') cfg) = Ok groups'.
Proof.
  unfold check_shape, validate_tokens. intros H. rewrite !map_get_groups. cbn [String.eqb Ascii.eqb Bool.eqb].
  unresult H. unresult H. unresult H. rewrite E. cbn [result_bind].
  rewrite check_sections_insert by (by destruct a0). cbn [result_bind].
  rewrite (check_objects_same cfg); [rewrite E1; by destruct a1|].
  repeat constructor; by rewrite map_get_groups.
Qed.

Lemma check_routing_insert cfg v names :
  check_routing (Containers.map_insert "proxy-groups" v cfg) names = check_routing cfg names.
Proof. unfold check_routing. by rewrite !map_get_groups. Qed.

(** The groups before and after. *)
Definition settled (names nodes : list string) (g g' : Json) : Prop :=
  ∃ l, reshaped g l g' ∧ l ≠ [] ∧ NoDup l ∧ Forall (λ m, known names nodes m = true) l ∧
    ∀ m, m ∈ l → m ∈ names → m ∈ proxies_of g.

Lemma check_groups_settled acc names nodes groups groups' all :
  check_groups acc groups = Ok all → Forall2 (settled names nodes) groups groups' → check_groups acc groups' = Ok all.
Proof.
  intros H Hf. revert acc H. induction Hf as [|g g' groups groups' (l & Hr & _) _ IH]; intros acc H; [done|]. cbn [check_groups] in *.
  unresult H. rewrite (check_group_kept _ _ _ _ _ E Hr). cbn [result_bind]. by apply IH.
Qed.

Lemma edges_settled names nodes groups groups' edges :
  collect_ok (group_edges names None) groups = Ok edges → Forall2 (settled names nodes) groups groups' →
  ∃ edges', collect_ok (group_edges names (Some nodes)) groups' = Ok edges' ∧
    ∀ x y, edge edges' x y → edge edges x y.
Proof.
  intros H Hf. revert edges H. induction Hf as [|g g' groups groups' (l & Hr & Hl & _ & Hk & Hin) _ IH]; intros edges H; cbn [collect_ok] in *.
  - apply Ok_inj in H as <-. exists []. by split.
  - unresult H. unresult H. apply Ok_inj in H as <-. destruct (IH _ E0) as (edges' & E' & He).
    destruct (group_edges_kept names nodes g l g' a E Hr Hl Hk) as [Eg Ea]. rewrite Eg, E'. cbn [result_bind].
    eexists. split; [done|]. intros x y (ms & [[= -> ->]|Hx]%elem_of_cons & Hy).
    + exists a.2. split; [apply elem_of_cons; left; by destruct a|]. rewrite Ea.
      apply list_elem_of_In, filter_In in Hy as [Hy1 Hy2]. apply list_elem_of_In, filter_In.
      split; [|done]. apply list_elem_of_In, Hin; [by apply list_elem_of_In|by apply bool_decide_eq_true in Hy2].
    + destruct (He x y) as (ms' & ? & ?); [by exists ms|]. exists ms'. split; [by apply elem_of_cons; right|done].
Qed.

Lemma acyclic_sub edges edges' : (∀ x y, edge edges' x y → edge edges x y) → acyclic edges → acyclic edges'.
Proof. intros H Ha x Hx. apply (Ha x). by eapply tc_mono. Qed.

(** The parts of a document that validation accepts. *)
Lemma validate_parts hash_order cfg nodes :
  (∀ l, hash_order l ≡ₚ l) → validate hash_order cfg nodes = Some (Ok ()) →
  ∃ groups names edges, check_shape cfg = Ok groups ∧ check_groups [] groups = Ok names ∧
    collect_ok (group_edges names nodes) groups = Ok edges ∧ acyclic edges ∧ check_routing cfg names = Ok ().
Proof.
  intros Ho H. pose proof H as H'. unfold validate, lift in H'. unbind H'. unbind H'. unbind H'. clear H'.
  injection E as E. injection E0 as E0. injection E1 as E1.
  exists a, a0, a1. destruct (validate_eliminated hash_order cfg nodes a a0 a1) as (all & Ev & Ha); [done..|].
  rewrite Ev in H. destruct all; [|done]. injection H as H. split_and!; try done. by apply Ha.
Qed.

Lemma check_groups_policies acc groups all :
  check_groups acc groups = Ok all → Forall (.∉ Assemble.POLICIES) acc → Forall (.∉ Assemble.POLICIES) all.
Proof.
  revert acc. induction groups as [|g groups IH]; intros acc H Ha; cbn [check_groups] in H; [by apply Ok_inj in H as <-|].
  unresult H. apply check_group_name in E as (_ & _ & Hp). eapply IH; [done|]. apply Forall_app. split; [done|]. by apply Forall_singleton.
Qed.

Lemma group_names_of cfg groups names :
  check_shape cfg = Ok groups → check_groups [] groups = Ok names → group_names cfg = names.
Proof.
  intros Hs Hn. destruct (check_groups_names _ _ _ Hn) as (-> & _ & Hf); [constructor|].
  unfold check_shape in Hs. unresult Hs. unresult Hs. unresult Hs. apply ok_or_Ok in Hs. unfold group_names. rewrite Hs.
  cbn [app]. clear -Hf. induction Hf as [|g groups Hg _ IH]; [done|]. cbn [omap list_omap]. rewrite Hg, IH. done.
Qed.

Section generation.
Context {Regex : Type} (build : string → option Regex) (is_match : Regex → string → option bool) (late : N → bool).
Variables (id_display : NodeId → string) (list_nodes : option NodeId → Result string (list NodePoolEntry)).

Lemma known_policy names known_nodes m : m ∈ Assemble.POLICIES → known names known_nodes m = true.
Proof. intros H. unfold known. by rewrite (bool_decide_true (m ∈ Assemble.POLICIES)), orb_true_r by done. Qed.

(** Every group of a validated document is settled by materialisation. *)
Lemma materialize_settles cfg groups names nodes originals cfg' w :
  check_shape cfg = Ok groups → check_groups [] groups = Ok names →
  (∀ n, n ∈ node_names nodes → n ∉ names) →
  materialize build is_match late id_display list_nodes cfg nodes originals = Some (Ok (cfg', w)) →
  ∃ groups', cfg' = Containers.map_insert "proxy-groups" (JArray groups') cfg ∧
    Forall2 (settled names (node_names nodes)) groups groups'.
Proof.
  intros Hs Hn Hdis H. destruct (check_groups_names _ _ _ Hn) as (Enames & _ & _); [constructor|]. simpl in Enames.
  pose proof (check_groups_policies _ _ _ Hn (Forall_nil_2 _)) as Hpol.
  assert ((g ← map_get cfg "proxy-groups"; Containers.as_array g) = Some groups) as Hg.
  { unfold check_shape in Hs. unresult Hs. unresult Hs. unresult Hs. by apply ok_or_Ok in Hs. }
  unfold materialize, lift in H. rewrite Hg in H. cbn [ok_or bind] in H.
  apply bind_ret in H as ([[aliases unresolved] b] & Eal & H). unbind H. unbind H. injection H as <- _.
  exists a0.1. split; [done|]. clear E.
  pose proof (λ id p, identities_names id_display nodes originals id p.1 p.2) as Hids.
  assert (∀ r m, aliases !! r = Some m → m ∈ node_names nodes) as Hal.
  { eapply aliases_names; [|exact Eal]. intros id [o c] E. exact (Hids id (o, c) E). }
  apply materialize_groups_spec in E0.
  - eapply Forall2_impl; [exact E0|]. clear E0. intros g g' (l & Hr & Hl & Hnd & Hsrc).
    exists l. split_and!; [done..| |].
    + destruct Hsrc as [->|Hf]; [apply Forall_singleton, known_policy; keys|].
      eapply Forall_impl; [exact Hf|]. intros m [Hm _]. apply types_known in Hm. unfold known.
      rewrite !orb_true_iff, !bool_decide_eq_true. rewrite <- Enames in Hm. tauto.
    + intros m Hm Hmn. destruct Hsrc as [->|Hf].
      * apply list_elem_of_singleton in Hm as ->. rewrite Forall_forall in Hpol. exfalso. apply (Hpol _ Hmn). keys.
      * rewrite Forall_forall in Hf. destruct (Hf m Hm) as [_ [?|[Ha|[r Ha]]]]; [done|exfalso..].
        -- apply elem_of_sort_by in Ha. by apply (Hdis m).
        -- apply (Hdis m); [by eapply Hal|done].
  - apply Forall_forall. intros m Hm. apply elem_of_sort_by in Hm. apply types_known. by left.
Qed.
End generation.

(** ** Rules refer to what exists *)

(** The rule providers a condition asks for, at any depth of its logic. *)
Inductive mentions : string → string → string → Prop :=
  | mentions_here p : mentions "RULE-SET" p p
  | mentions_child kind payload inner children child fields k p flags q :
      kind ∈ ClashRules.LOGIC → ClashRules.unwrap_parentheses payload = Ok inner → ClashRules.split inner = Ok children →
      child ∈ children → ClashRules.unwrap_parentheses child = Ok fields → ClashRules.split fields = Ok (k :: p :: flags) →
      mentions k p q → mentions kind payload q.

Lemma validate_children_all validate children child fields k p flags :
  ClashRules.validate_children validate children = Ok () → child ∈ children →
  ClashRules.unwrap_parentheses child = Ok fields → ClashRules.split fields = Ok (k :: p :: flags) → validate k p = Ok ().
Proof.
  intros H Hin Hu Hs. induction children as [|c children IH]; [by apply elem_of_nil in Hin|].
  cbn [ClashRules.validate_children] in H. apply elem_of_cons in Hin as [<-|Hin].
  - rewrite Hu in H. cbn [result_bind] in H. rewrite Hs in H. cbn [result_bind] in H. case_match; [|done].
    unresult H. by destruct a.
  - unresult H. unresult H. repeat case_match; try done. unresult H. by apply IH.
Qed.

Lemma condition_mentions providers levels kind payload q :
  ClashRules.validate_condition providers levels kind payload = Ok () → mentions kind payload q →
  ∃ m v, providers = Some m ∧ map_get m q = Some v.
Proof.
  intros H Hm. revert levels H. induction Hm as [p|kind payload inner children child fields k p flags q Hk Hu Hs Hin Hu' Hs' _ IH];
    intros levels H; destruct levels as [|levels]; try done; cbn [ClashRules.validate_condition] in H;
    destruct (Text.is_empty _) in H; try done.
  - rewrite bool_decide_false in H by keys. cbn [String.eqb Ascii.eqb Bool.eqb] in H. case_bool_decide as E; [|done].
    destruct providers as [m|]; [|by destruct E]. destruct E as [v E]. by exists m, v.
  - rewrite bool_decide_true in H by done. rewrite Hu in H. cbn [result_bind] in H. rewrite Hs in H. cbn [result_bind] in H.
    case_match; [done|]. apply (IH levels). by eapply validate_children_all.
Qed.

(** A rule whose policy and providers exist. *)
Definition rule_closed (names : list string) (providers : option Members) (rule : Json) : Prop :=
  ∃ text parts policy, rule = JString text ∧ ClashRules.rule_parts text = Ok parts ∧
    (policy ∈ names ∨ policy ∈ Assemble.POLICIES) ∧
    (parts = ["MATCH"; policy] ∨
     ∃ kind payload flags, parts = kind :: payload :: policy :: flags ∧ ClashRules.flags_ok flags = true ∧
       ∀ q, mentions kind payload q → ∃ m v, providers = Some m ∧ map_get m q = Some v).

Lemma rule_is_closed names providers text :
  ClashRules.validate_rule providers names text = Ok () → rule_closed names providers (JString text).
Proof.
  unfold ClashRules.validate_rule. intros H. destruct (ClashRules.contains_any _ _); [done|]. unresult H. unresult H.
  apply ok_or_Ok in E0. exists text, a, a0. destruct (negb _ && negb _) eqn:En; [done|].
  split_and!; [done|done| |].
  { apply andb_false_iff in En as [En|En]; apply negb_false_iff, bool_decide_eq_true in En; auto. }
  destruct a as [|kind a]; [done|]. cbn [head default] in *. unfold id in *.
  destruct (String.eqb_spec kind "MATCH") as [->|Hne].
  - left. destruct a as [|x [|y a]]; [done| |]; cbn in E0; injection E0 as ->; [done|]. done.
  - right. destruct a as [|payload [|z flags]]; [done|done|]. cbn in E0. injection E0 as ->. cbn [lookup list_lookup default] in H.
    exists kind, payload, flags. split; [done|]. unresult H. destruct a. cbn [drop] in H. case_match; [|done]. split; [done|].
    intros q. by eapply condition_mentions.
Qed.

Lemma rules_are_closed names providers index rules :
  check_rules names providers index rules = Ok () → Forall (rule_closed names providers) rules.
Proof.
  revert index. induction rules as [|r rules IH]; intros index H; [constructor|]. cbn [check_rules] in H.
  unresult H. apply ok_or_Ok in E. unresult H. constructor; [|by eapply IH].
  destruct r as [| | |text| |]; try done. injection E as <-.
  apply rule_is_closed. destruct (ClashRules.validate_rule providers names text) as [[]|]; [done|discriminate E0].
Qed.

(** C35: Native validation leaves no dangling reference in the routing: a document
    it accepts has at least one rule, the policy of every rule is one of its
    groups or a built-in policy, and every rule set a condition asks for, however
    deep in its logic, is one of its rule providers. *)
Theorem native_rules_closed (hash_order : list string → list string) (cfg : Members) (nodes : option (list string)) :
  (∀ l, hash_order l ≡ₚ l) → validate hash_order cfg nodes = Some (Ok ()) →
  ∃ rules, map_get cfg "rules" = Some (JArray rules) ∧ rules ≠ [] ∧
    Forall (rule_closed (group_names cfg) (p ← map_get cfg "rule-providers"; Containers.as_object p)) rules.
Proof.
  intros Ho H. destruct (validate_parts hash_order cfg nodes Ho H) as (groups & names & edges & Hs & Hn & _ & _ & Hr).
  rewrite (group_names_of _ _ _ Hs Hn). unfold check_routing in Hr. unresult Hr. unresult Hr. apply ok_or_Ok in E0.
  destruct (map_get cfg "rules") as [[]|]; try done. injection E0 as ->. exists a0. destruct a0; [done|].
  split_and!; [done|done|]. by eapply rules_are_closed.
Qed.

(** Two groups that list each other. *)
Definition demo_cycle : Members :=
  Containers.of_members
    [("proxy-groups", JArray [Containers.object [("name", JString "A"); ("type", JString "select"); ("proxies", Containers.strings ["B"])];
                              Containers.object [("name", JString "B"); ("type", JString "select"); ("proxies", Containers.strings ["A"])]]);
     ("rules", Containers.strings ["MATCH,A"])].

Lemma native_cycles_exact_witness :
  validate id demo_cycle None = Some (Err (invalid "proxy-groups contains a cycle")).
Proof.
  eapply (native_cycles_exact id demo_cycle None); [done|vm_compute; reflexivity|vm_compute; reflexivity|vm_compute; reflexivity|].
  intros H. apply (H "A"). apply (tc_l _ "A" "B" "A"); [exists ["B"]|apply tc_once; exists ["A"]]; split; set_solver.
Defined.

(** A nested condition that asks for a provider. *)
Definition demo_routing : Members :=
  Containers.of_members
    [("proxy-groups", JArray [Containers.object [("name", JString "A"); ("type", JString "select"); ("proxies", Containers.strings ["DIRECT"])]]);
     ("rule-providers", Containers.object [("ads", Containers.object
        [("type", JString "http"); ("behavior", JString "domain"); ("url", JString "https://example.com")])]);
     ("rules", Containers.strings ["AND,((NETWORK,udp),(NOT,((RULE-SET,ads)))),REJECT"; "MATCH,A"])].

Lemma native_rules_closed_witness :
  ∃ rules, map_get demo_routing "rules" = Some (JArray rules) ∧ rules ≠ [] ∧
    Forall (rule_closed (group_names demo_routing) (p ← map_get demo_routing "rule-providers"; Containers.as_object p)) rules.
Proof. apply (native_rules_closed id demo_routing None); [done|vm_compute; reflexivity]. Defined.

End ClashTheorems.

(** * Generating from a native Clash document

    A document that was accepted when it was saved is materialised without a
    panic, and the validation that follows accepts what comes out. *)

From S2P Require Import Prelude Kernel Node Text Ip UrlText NodePool Template GenTypes Validation Assemble UriParse SourceParse Containers Yaml YamlRead ClashRules Clash ClashGroups ClashWork ClashDocument.
Import Yaml Clash ClashOrder ClashGroups ClashMembers ClashWork ClashDocument ClashTheorems.

Module ClashNative.
#[local] Open Scope clash_scope.

(** ** No panic *)

Lemma bind_total {A B} (m : M A) (k : A → M B) : m ≠ None → (∀ a, m = Some (Ok a) → k a ≠ None) → bind m k ≠ None.
Proof. destruct m as [[a|e]|]; simpl; [auto|done|done]. Qed.

Lemma lift_total {A} (r : Result TemplateAppError A) : lift r ≠ None.
Proof. done. Qed.
Lemma ret_total {A} (a : A) : ret a ≠ None.
Proof. done. Qed.
Lemma err_total {A} e : err (A := A) e ≠ None.
Proof. done. Qed.

Create HintDb total.
#[local] Hint Resolve lift_total ret_total err_total : total.

(** Take a computation apart into the steps it is made of. *)
Ltac total := repeat first
  [ match goal with |- bind _ _ ≠ None => apply bind_total; [|intros ? ?] end
  | solve [eauto with total]
  | match goal with |- (let '(_, _) := ?x in _) ≠ None => destruct x end
  | match goal with |- (if ?b then _ else _) ≠ None => destruct b end
  | match goal with |- (match ?x with _ => _ end) ≠ None => destruct x end ].

Section total.
Context {Regex : Type} (build : string → option Regex) (is_match : Regex → string → option bool) (late : N → bool).
Variables (id_display : NodeId → string) (list_nodes : option NodeId → Result string (list NodePoolEntry)).

Lemma visit_total n b : visit late n b ≠ None.
Proof. unfold visit. total. Qed.
#[local] Hint Resolve visit_total : total.

Lemma compile_all_total parts b : compile_all build late parts b ≠ None.
Proof. revert b. induction parts as [|p parts IH]; intros b; cbn [compile_all]; total. Qed.
#[local] Hint Resolve compile_all_total : total.
Lemma compile_total v s b : compile build late v s b ≠ None.
Proof. unfold compile. total. Qed.
Lemma matches_total patterns name b : matches is_match late patterns name b ≠ None.
Proof. revert b. induction patterns as [|p patterns IH]; intros b; cbn [matches]; total. Qed.
#[local] Hint Resolve compile_total matches_total : total.
Lemma matches_or_total missing matcher name b : matches_or is_match late missing matcher name b ≠ None.
Proof. unfold matches_or. total. Qed.
#[local] Hint Resolve matches_or_total : total.

Lemma resolve_aliases_total ids wanted b : resolve_aliases late ids wanted b ≠ None.
Proof. revert b. induction wanted as [|w wanted IH]; intros b; cbn [resolve_aliases]; total. Qed.
Lemma qualify_total wanted b : qualify late wanted b ≠ None.
Proof. revert b. induction wanted as [|w wanted IH]; intros b; cbn [qualify]; total. Qed.
Lemma match_references_total d refs names b : match_references late d refs names b ≠ None.
Proof. revert names b. induction refs as [|[base name] refs IH]; intros names b; cbn [match_references]; total. Qed.
#[local] Hint Resolve resolve_aliases_total qualify_total match_references_total : total.
Lemma scan_page_total wanted q entries names b : scan_page late id_display wanted q entries names b ≠ None.
Proof. revert names b. induction entries as [|e entries IH]; intros names b; cbn [scan_page]; total. Qed.
#[local] Hint Resolve scan_page_total : total.
Lemma scan_pool_total fuel wanted q cursor names b : scan_pool late id_display list_nodes fuel wanted q cursor names b ≠ None.
Proof. revert cursor names b. induction fuel as [|fuel IH]; intros cursor names b; cbn [scan_pool]; total. Qed.
#[local] Hint Resolve scan_pool_total : total.
Lemma unavailable_total wanted b : unavailable_names late id_display list_nodes wanted b ≠ None.
Proof. unfold unavailable_names. total. Qed.
#[local] Hint Resolve unavailable_total : total.

Section group.
Variables (types aliases : gmap string string) (unavailable : gset string) (automatic : list string).

Lemma append_total l include a : append_nodes is_match late l include a ≠ None.
Proof. revert a. induction l as [|m l IH]; intros a; cbn [append_nodes]; total. Qed.
#[local] Hint Resolve append_total : total.
Lemma listed_total name include l a : listed is_match late types aliases unavailable automatic name include l a ≠ None.
Proof. revert a. induction l as [|m l IH]; intros a; cbn [listed]; total. Qed.
Lemma keep_total exclude ex l b : keep is_match late types exclude ex l b ≠ None.
Proof. revert b. induction l as [|m l IH]; intros b; cbn [keep]; total. Qed.
#[local] Hint Resolve listed_total keep_total : total.
Lemma group_members_total g b : group_members build is_match late types aliases unavailable automatic g b ≠ None.
Proof. unfold group_members. total. Qed.

Lemma materialize_group_total m b :
  materialize_group build is_match late types aliases unavailable automatic (JObject m) b ≠ None.
Proof.
  unfold materialize_group. apply bind_total; [apply group_members_total|]. intros [[l w] b1] _. destruct l as [|x l]; cbn [set_key].
  - cbn [ret bind]. destruct (drop_default_object ["REJECT"] (Containers.map_insert "type" (JString "select") m)) as [m' ->]. done.
  - cbn [ret bind]. destruct (drop_default_object (x :: l) m) as [m' ->]. done.
Qed.

Lemma materialize_groups_total groups b :
  Forall (λ g, ∃ m, g = JObject m) groups →
  materialize_groups build is_match late types aliases unavailable automatic groups b ≠ None.
Proof.
  intros Hf. revert b. induction Hf as [|g groups [m ->] _ IH]; intros b; cbn [materialize_groups]; [done|].
  apply bind_total; [apply materialize_group_total|]. intros [[g w] b1] _. total.
Qed.
End group.

Lemma materialize_total cfg groups nodes originals :
  (g ← map_get cfg "proxy-groups"; Containers.as_array g) = Some groups → Forall (λ g, ∃ m, g = JObject m) groups →
  materialize build is_match late id_display list_nodes cfg nodes originals ≠ None.
Proof.
  intros Hg Hf. unfold materialize. rewrite Hg. cbn [ok_or lift bind]. apply bind_total; [total|]. intros [[al un] b] _.
  apply bind_total; [total|]. intros u _. apply bind_total; [by apply materialize_groups_total|]. intros. done.
Qed.

(** *** Enough budget

    A document that names what is there, with filters that work, is materialised
    when its work fits the budget. *)

(** The longest text a visit may charge for. *)
Definition longest (groups : list Json) (nodes : list (Node * Z)) : nat :=
  max_list_with String.length
    (node_names nodes ++ (groups ≫= proxies_of) ++ (groups ≫= λ g, filter_pieces g ++ exclude_pieces g)).

(** A listed member that is there: a token, a node of the output by its name or
    by identifier, a group of the document or a policy. *)
Definition there (groups : list Json) (nodes : list (Node * Z)) (originals : list string) (m : string) : Prop :=
  m ∈ TOKENS ∨ m ∈ node_names nodes ∨ m ∈ name_of <$> groups ∨ m ∈ Assemble.POLICIES ∨
  is_Some (alias_of (identities id_display nodes originals) m).

#[export] Instance there_dec groups nodes originals m : Decision (there groups nodes originals m).
Proof. unfold there. apply _. Defined.

(** A document that generates: the clock does not run out, its members are
    there, its filters work, and its work fits the budget. *)
Record affordable (groups : list Json) (nodes : list (Node * Z)) (originals : list string) : Prop := {
  af_clock : ∀ n, late n = false;
  af_members : Forall (λ g, Forall (there groups nodes originals) (proxies_of g)) groups;
  af_filters : Forall (λ g, usable build is_match true (filter_of g) ∧ usable build is_match false (exclude_of g)) groups;
  af_patterns : sum_list_with patterns_of groups ≤ 256;
  af_visits : (N.of_nat (work (types_of nodes groups) (length nodes) groups) ≤ 1000000)%N;
  af_bytes : (N.of_nat (work (types_of nodes groups) (length nodes) groups * longest groups nodes) ≤ 64 * 1024 * 1024)%N
}.

Lemma longest_short groups nodes s :
  s ∈ node_names nodes ++ (groups ≫= proxies_of) ++ (groups ≫= λ g, filter_pieces g ++ exclude_pieces g) →
  short (longest groups nodes) s.
Proof.
  unfold short, longest. induction (_ ++ _) as [|x l IH]; intros H; [by apply elem_of_nil in H|]. cbn [max_list_with].
  apply elem_of_cons in H as [->|H]; [|specialize (IH H)]; lia.
Qed.

Lemma alias_of_there nodes originals m c :
  alias_of (identities id_display nodes originals) m = Some c → c ∈ node_names nodes.
Proof.
  unfold alias_of. intros E. destruct (qualified_name m) as [[base id]|]; [|done]. simpl in E.
  destruct (identities id_display nodes originals !! id) as [[original cur]|] eqn:Ei; [|done]. simpl in E.
  case_match; [|done]. injection E as <-. by eapply identities_names.
Qed.

Lemma there_present groups nodes originals (aliases : gmap string string) m :
  (∀ w, aliases !! w = if bool_decide (w ∈ wanted_names (types_of nodes groups) groups)
                       then alias_of (identities id_display nodes originals) w else None) →
  m ∈ groups ≫= proxies_of → there groups nodes originals m → present (longest groups nodes) (types_of nodes groups) aliases m.
Proof.
  intros Ha Hin Hm. unfold present. destruct (decide (m ∈ TOKENS)) as [?|Ht]; [by left|right].
  rewrite Ha. case_bool_decide as Hw.
  - apply elem_of_remove_dups, list_elem_of_filter in Hw as [[Hn _] _].
    destruct (alias_of _ m) as [c|] eqn:Ec.
    + apply alias_of_there in Ec. split; [apply types_known; by left|]. apply longest_short. set_solver.
    + destruct Hm as [?|[Hm|[Hm|[Hm|[? ?]]]]]; [done| | | |congruence]; exfalso;
        (assert (is_Some (types_of nodes groups !! m)) as [? ?] by (apply types_known; tauto)); congruence.
  - apply dec_stable. intros Hn. apply Hw, elem_of_remove_dups, list_elem_of_filter. split; [|done].
    split; [by apply eq_None_not_Some|done].
Qed.

Lemma wanted_there groups nodes originals w :
  affordable groups nodes originals → w ∈ wanted_names (types_of nodes groups) groups →
  is_Some (alias_of (identities id_display nodes originals) w) ∧ short (longest groups nodes) w.
Proof.
  intros Haf Hw. apply elem_of_remove_dups, list_elem_of_filter in Hw as [[Hn Ht] Hw]. split.
  - pose proof Hw as Hw'. apply list_elem_of_bind in Hw as (g & Hwg & Hg). pose proof (af_members _ _ _ Haf) as Hall.
    rewrite Forall_forall in Hall. specialize (Hall _ Hg). rewrite Forall_forall in Hall.
    destruct (Hall _ Hwg) as [?|[Hm|[Hm|[Hm|?]]]]; [done| | | |done];
      (assert (is_Some (types_of nodes groups !! w)) as [? ?] by (apply types_known; tauto)); congruence.
  - apply longest_short. set_solver.
Qed.

Lemma affordable_ready groups nodes originals (aliases : gmap string string) :
  affordable groups nodes originals → Forall (λ g, ∃ m, g = JObject m) groups →
  (∀ w, aliases !! w = if bool_decide (w ∈ wanted_names (types_of nodes groups) groups)
                       then alias_of (identities id_display nodes originals) w else None) →
  Forall (ready build is_match (longest groups nodes) (types_of nodes groups) aliases) groups.
Proof.
  intros Haf Ho Ha. apply Forall_forall. intros g Hg. pose proof (af_filters _ _ _ Haf) as Hfil. pose proof (af_members _ _ _ Haf) as Hmem.
  rewrite Forall_forall in Hfil, Hmem, Ho. destruct (Hfil g Hg) as [H1 H2]. specialize (Hmem g Hg). rewrite Forall_forall in Hmem.
  assert (∀ m, m ∈ proxies_of g → m ∈ groups ≫= proxies_of) as Hin by (intros m ?; apply list_elem_of_bind; eauto).
  split; [by apply Ho|done|done|apply Forall_forall; intros m Hm..].
  - apply longest_short, elem_of_app. right. apply elem_of_app. right. apply list_elem_of_bind. by exists g.
  - apply there_present with originals; auto.
  - apply longest_short. rewrite !elem_of_app. auto.
Qed.

Lemma affordable_materialize cfg groups nodes originals :
  map_get cfg "proxy-groups" = Some (JArray groups) → Forall (λ g, ∃ m, g = JObject m) groups →
  affordable groups nodes originals →
  ∃ r, materialize build is_match late id_display list_nodes cfg nodes originals = Some (Ok r).
Proof.
  intros Hg Ho Haf. unfold materialize. rewrite Hg. cbn [mbind option_bind Containers.as_array ok_or lift bind].
  set (types := types_of nodes groups). set (wanted := wanted_names types groups).
  set (sorted := sort_by String.compare _). assert (length sorted = length nodes) as Elen.
  { unfold sorted. rewrite sort_by_Permutation. apply length_fmap. }
  destruct (resolve_aliases_room late (af_clock _ _ _ Haf) (longest groups nodes) (identities id_display nodes originals) wanted
    (sum_list_with (group_work (length nodes)) groups) 256 new_budget) as (aliases & b & -> & Hb & Hal).
  - apply Forall_forall. intros w Hw. by eapply wanted_there.
  - apply Forall_forall. intros w Hw. by eapply wanted_there.
  - destruct Haf as [_ _ _ _ Hv Hy]. unfold work in Hv, Hy. fold types wanted in Hv, Hy. by split_and!.
  - cbn [bind ret unavailable_names fst snd].
    destruct (materialize_groups_room build is_match late (af_clock _ _ _ Haf) (longest groups nodes) types aliases ∅ sorted) with
      (groups := groups) (k := 0) (p := 0) (b := b) as [r ->].
    + apply Forall_forall. intros m Hm. apply elem_of_sort_by in Hm. apply longest_short, elem_of_app. by left.
    + by apply affordable_ready with originals.
    + rewrite Elen, !Nat.add_0_r. pose proof (af_patterns _ _ _ Haf). eapply room_mono; [exact Hb|lia..].
    + by eexists.
Qed.

End total.
(** ** A generation from an accepted document *)

Section generation.
Variables (yaml_parse : string → Result string Value) (to_json : Value → Result string Json) (to_string : Value → Result string string).
Variable hash_order : list string → list string.
Hypothesis Horder : ∀ l, hash_order l ≡ₚ l.

Lemma check_native_parts native :
  check_native yaml_parse to_json hash_order native = Some (Ok ()) →
  ∃ cfg, config yaml_parse to_json native = Ok cfg ∧ validate hash_order cfg None = Some (Ok ()).
Proof. unfold check_native, lift. intros H. apply bind_ret in H as (cfg & E & H). injection E as E. by exists cfg. Qed.

Lemma groups_objects groups names : check_groups [] groups = Ok names → Forall (λ g, ∃ m, g = JObject m) groups.
Proof.
  intros H. apply check_groups_names in H as (_ & _ & Hf); [|constructor]. eapply Forall_impl; [exact Hf|].
  intros g Hg. unfold ClashRules.get_str in Hg. destruct (Containers.get g "name") eqn:E; [|done]. by eapply get_in_object.
Qed.

Lemma shape_groups cfg groups :
  check_shape cfg = Ok groups → map_get cfg "proxy-groups" = Some (JArray groups).
Proof.
  unfold check_shape. intros H. do 3 (apply result_bind_Ok in H as (? & _ & H)). apply ok_or_Ok in H.
  destruct (map_get cfg "proxy-groups") as [[]|]; try done. by injection H as ->.
Qed.

(** What materialisation leaves of a valid document is valid for its nodes. *)
Lemma settled_valid cfg groups names edges nodes groups' :
  check_shape cfg = Ok groups → check_groups [] groups = Ok names → collect_ok (group_edges names None) groups = Ok edges →
  acyclic edges → check_routing cfg names = Ok () → Forall2 (settled names nodes) groups groups' →
  validate hash_order (Containers.map_insert "proxy-groups" (JArray groups') cfg) (Some nodes) = Some (Ok ()).
Proof.
  intros Hs Hn He Ha Hr Hf. destruct (edges_settled _ _ _ _ _ He Hf) as (edges' & He' & Hsub).
  destruct (validate_eliminated hash_order (Containers.map_insert "proxy-groups" (JArray groups') cfg) (Some nodes) groups' names edges')
    as (all & -> & Hall); [done|by eapply check_shape_insert|by eapply check_groups_settled|done|].
  rewrite (proj2 Hall) by (by eapply acyclic_sub). by rewrite check_routing_insert, Hr.
Qed.

(** A submitted document is kept as the text that was checked. *)
Lemma submitted_is_checked (document_of : Json → Result string TemplateDocument) raw doc :
  (∀ n d, document_of (native_json n) = Ok d → clash (spec d) = Some n) →
  parse yaml_parse to_json to_string document_of hash_order raw = Some (Ok doc) →
  ∃ native, clash (spec doc) = Some native ∧ check_native yaml_parse to_json hash_order native = Some (Ok ()).
Proof.
  intros Hd H. unfold parse in H. apply bind_ret in H as (m & _ & H). apply bind_ret in H as (native & _ & H).
  apply bind_ret in H as (cfg & Ec & H). apply bind_ret in H as ([] & Ev & H). injection H as H.
  exists native. destruct (document_of (native_json native)) as [d|] eqn:Ed; [|done]. injection H as <-. split; [by apply Hd|].
  unfold check_native. by rewrite Ec.
Qed.

(** Its warnings are computed without a panic. *)
Lemma checked_warnings native :
  check_native yaml_parse to_json hash_order native = Some (Ok ()) → native_warnings yaml_parse to_json native ≠ None.
Proof.
  intros H. apply check_native_parts in H as (cfg & Ec & Hv). unfold native_warnings, lift. rewrite Ec. cbn [bind].
  destruct (validate_parts hash_order cfg None Horder Hv) as (groups & names & edges & Hs & _).
  unfold warnings. by rewrite (shape_groups _ _ Hs).
Qed.

Context {Regex : Type} (build : string → option Regex) (is_match : Regex → string → option bool) (late : N → bool).
Variables (id_display : NodeId → string) (list_nodes : NodeFilter → option NodeId → N → Result string (list NodePoolEntry)).

(** What preparing a native document comes to, with the names its nodes get:
    when its work is affordable and the serializer takes the document, a text;
    otherwise that or the error of the step that failed, and in every case a
    text is the author's document with settled groups that validate. *)
Definition generates (s : TemplateSpec) (native : string) (nodes : list (Node * Z)) : Prop :=
  ∃ cfg groups, config yaml_parse to_json native = Ok cfg ∧ map_get cfg "proxy-groups" = Some (JArray groups) ∧
    let renamed := Assemble.rename_nodes id_display (native_used s cfg) nodes in
    let prepared := prepare_native yaml_parse to_json to_string hash_order build is_match late id_display list_nodes s native nodes in
    let done raw m groups' text warnings :=
      Validation.checked_yaml yaml_parse native = Ok raw ∧ as_mapping raw = Some m ∧
      Forall2 (settled (group_names cfg) (node_names renamed)) groups groups' ∧
      validate hash_order (Containers.map_insert "proxy-groups" (JArray groups') cfg) (Some (node_names renamed)) = Some (Ok ()) ∧
      to_string (VMapping (mapping_insert "proxy-groups" (from_json (JArray groups')) m)) = Ok text ∧
      prepared = Some (Ok (renamed, text, warnings)) in
    prepared ≠ None ∧
    (∀ result, prepared = Some (Ok result) → ∃ raw m groups' text warnings, done raw m groups' text warnings) ∧
    (∀ raw m, Validation.checked_yaml yaml_parse native = Ok raw → as_mapping raw = Some m → (∀ v, ∃ text, to_string v = Ok text) →
       affordable build is_match late id_display groups renamed (node_names nodes) →
       ∃ groups' text warnings, done raw m groups' text warnings).

(** What follows a materialisation that succeeds. *)
Lemma prepared_after s native nodes cfg groups names edges cfg' w :
  config yaml_parse to_json native = Ok cfg →
  check_shape cfg = Ok groups → check_groups [] groups = Ok names → collect_ok (group_edges names None) groups = Ok edges →
  acyclic edges → check_routing cfg names = Ok () →
  let renamed := Assemble.rename_nodes id_display (native_used s cfg) nodes in
  materialize build is_match late id_display (λ c, list_nodes filter_all c 1000) cfg renamed (node_names nodes) = Some (Ok (cfg', w)) →
  ∃ groups', Forall2 (settled names (node_names renamed)) groups groups' ∧
    validate hash_order (Containers.map_insert "proxy-groups" (JArray groups') cfg) (Some (node_names renamed)) = Some (Ok ()) ∧
    prepare_native yaml_parse to_json to_string hash_order build is_match late id_display list_nodes s native nodes =
      (raw <~ lift (Validation.checked_yaml yaml_parse native);;
       m <~ lift (ok_or (as_mapping raw) (invalid "native Clash configuration must be a mapping"));;
       text <~ lift (map_err Emit (to_string (VMapping (mapping_insert "proxy-groups" (from_json (JArray groups')) m))));;
       ret (renamed, text, w)).
Proof.
  intros Ec Hs Hn He Ha Hr renamed Em. pose proof (group_names_of _ _ _ Hs Hn) as Egn.
  destruct (materialize_settles build is_match late id_display (λ c, list_nodes filter_all c 1000) cfg groups names renamed (node_names nodes) cfg' w Hs Hn)
    as (groups' & -> & Hf); [|exact Em|].
  { intros n Hin Hnames. destruct (Assemble.rename_nodes_spec id_display (native_used s cfg) nodes) as (_ & Hd & _).
    apply (Hd n Hin). unfold native_used. apply elem_of_union_r, elem_of_list_to_set. by rewrite Egn. }
  exists groups'. pose proof (settled_valid _ _ _ _ _ _ Hs Hn He Ha Hr Hf) as Hval. split_and!; [done|done|].
  unfold prepare_native, native_document. rewrite Ec. cbn [lift bind].
  fold renamed. unfold node_names in Em. rewrite Em. cbn [bind fst snd]. unfold node_names in Hval. rewrite Hval. cbn [bind].
  rewrite map_get_groups. cbn [String.eqb Ascii.eqb Bool.eqb].
  destruct (Validation.checked_yaml yaml_parse native) as [raw|]; [|done]. cbn [bind].
  destruct (as_mapping raw) as [m|]; [|done]. cbn [ok_or bind]. by destruct (to_string _).
Qed.

(** C9: A native document that was accepted generates.  When every member its
    groups list is there (a token, a policy, a group of the document, or a node
    of the output by its name or by identifier), its filters compile and match
    within their limits, the deadline is not reached and its work fits the budget
    of a million visits, 64 MiB and 256 expressions, preparing it returns a
    text.  It never panics, and its second validation never fails.  Every text
    it returns is the author's document with just its groups replaced: every
    group is nonempty, lists each member once and each member a node of the
    output, a group of the document or a policy, has no filters or includes left
    and only a default that is among its members; and no group gets a group its
    author did not list. *)
Theorem native_generation (s : TemplateSpec) (native : string) (nodes : list (Node * Z)) :
  check_native yaml_parse to_json hash_order native = Some (Ok ()) →
  generates s native nodes.
Proof.
  intros H. apply check_native_parts in H as (cfg & Ec & Hv).
  destruct (validate_parts hash_order cfg None Horder Hv) as (groups & names & edges & Hs & Hn & He & Ha & Hr).
  pose proof (shape_groups _ _ Hs) as Hg. pose proof (group_names_of _ _ _ Hs Hn) as Egn.
  exists cfg, groups. split; [done|split; [done|]]. intros renamed prepared. rewrite Egn. intros done_.
  destruct (materialize build is_match late id_display (λ c, list_nodes filter_all c 1000) cfg renamed (node_names nodes))
    as [[[cfg' w]|e]|] eqn:Em.
  - destruct (prepared_after s native nodes cfg groups names edges cfg' w Ec Hs Hn He Ha Hr Em) as (groups' & Hf & Hval & Ep).
    fold renamed in Hf, Hval, Ep. fold prepared in Ep. clearbody prepared. unfold lift in Ep.
    destruct (Validation.checked_yaml yaml_parse native) as [raw|] eqn:Eraw; [|by cbn in Ep; rewrite Ep; naive_solver]. cbn [bind] in Ep.
    destruct (as_mapping raw) as [m|] eqn:Em'; [|by cbn in Ep; rewrite Ep; naive_solver]. cbn [ok_or bind] in Ep.
    destruct (to_string _) as [text|e] eqn:Et; cbn in Ep.
    + assert (done_ raw m groups' text w) by (unfold done_; by split_and!). rewrite Ep. split_and!; [done|eauto 10|].
      intros raw' m' [= <-] Hm' _ _. rewrite Em' in Hm'. injection Hm' as <-. eauto.
    + rewrite Ep. split_and!; [done|done|]. intros raw' m' [= <-] Hm' Ht _. exfalso. rewrite Em' in Hm'. injection Hm' as <-.
      destruct (Ht (VMapping (mapping_insert "proxy-groups" (from_json (JArray groups')) m))). congruence.
  - assert (prepared = Some (Err e)) as Ep.
    { unfold prepared, prepare_native, native_document. rewrite Ec. cbn [lift bind]. fold renamed. unfold node_names in Em. by rewrite Em. }
    clearbody prepared. rewrite Ep. split_and!; [done|done|]. intros raw m _ _ _ Haf. exfalso.
    destruct (affordable_materialize build is_match late id_display (λ c, list_nodes filter_all c 1000) cfg groups renamed (node_names nodes)) as [r Er];
      [done|by eapply groups_objects|done|]. congruence.
  - exfalso. apply (materialize_total build is_match late id_display (λ c, list_nodes filter_all c 1000) cfg groups renamed (node_names nodes)) in Em; [done| |by eapply groups_objects].
    by rewrite Hg.
Qed.

End generation.
(** ** A document with two groups

    One lists the other, a policy and a node by identifier; the other takes every
    node a filter selects. *)

Definition demo_groups : list Json :=
  [Containers.object [("name", JString "PROXY"); ("type", JString "select"); ("proxies", Containers.strings ["AUTO"; "DIRECT"; "t [3]"])];
   Containers.object [("name", JString "AUTO"); ("type", JString "url-test"); ("include-all-proxies", JBool true);
                      ("filter", JString "t"); ("exclude-type", JString "Direct")]].

Definition demo_config : Json :=
  Containers.object [("proxy-groups", JArray demo_groups); ("rules", Containers.strings ["DOMAIN-SUFFIX,example.com,AUTO"; "MATCH,PROXY"])].

Definition demo_spec : TemplateSpec :=
  mkTemplateSpec (Some "native") ["mihomo"] JNull (mkNodeSelector Dynamic [] [] 0) [] [] JNull JNull JNull.

Definition demo_node : Node :=
  mkNode 3 "t" Trojan (CTrojan (mkTrojan None)) (mkEndpoint (Domain "host.example") 443)
    (AuthPassword "p") None None (mkUdp None None) None None None None (mkNodeSource "src" None 0) [] (mkRegion RegionAuto None) ∅.

Lemma demo_affordable :
  affordable (λ _, Some ()) (λ _ _, Some true) (λ _, false) (λ _, "3") demo_groups [(demo_node, 0%Z)] ["t"].
Proof.
  split; [done| | |vm_compute; lia|vm_compute; discriminate|vm_compute; discriminate].
  - apply (bool_decide_eq_true_1 _). vm_compute. reflexivity.
  - repeat constructor; vm_compute; eauto.
Qed.

Lemma native_generation_witness :
  ∃ text warnings,
    prepare_native (λ _, Ok (VMapping [(VString "rules", VNull)])) (λ _, Ok demo_config) (λ _, Ok "text") id
      (λ _, Some ()) (λ _ _, Some true) (λ _, false) (λ _, "3") (λ _ _ _, Ok []) demo_spec "native" [(demo_node, 0%Z)]
    = Some (Ok ([(demo_node, 0%Z)], text, warnings)).
Proof.
  edestruct (native_generation (λ _, Ok (VMapping [(VString "rules", VNull)])) (λ _, Ok demo_config) (λ _, Ok "text") id)
    with (build := λ _ : string, Some ()) (is_match := λ (_ : ()) (_ : string), Some true) (late := λ _ : N, false)
         (id_display := λ _ : NodeId, "3") (list_nodes := λ (_ : NodeFilter) (_ : option NodeId) (_ : N), @Ok string (list NodePoolEntry) [])
         (s := demo_spec) (native := "native") (nodes := [(demo_node, 0%Z)]) as (cfg & groups & Ec & Hg & _ & _ & H);
    [done|vm_compute; reflexivity|].
  injection Ec as <-. vm_compute in Hg. injection Hg as <-.
  edestruct H as (groups' & text & warnings & _ & _ & _ & _ & _ & E);
    [done|done|by eexists|exact demo_affordable|]. exists text, warnings. exact E.
Defined.

End ClashNative.
