(* ===== verification/Pipeline.v ===== *)
(** * The generation pipeline with its own parts

    [Generation] is stated over an interface of the code it calls.  Here the
    interface is filled with the parts modelled elsewhere: the bounded YAML
    reader, the native Clash documents, the emitters and the inspection of what
    they emit.  What remains an argument is third-party: the YAML scanner and
    serializer, serde's conversions, regular expressions, the clock and SHA-256. *)

From S2P Require Import Prelude Kernel Node Text Ip UrlText NodePool Template GenTypes Validation Assemble UriParse UriEmit SourceParse Compat Generation Containers Yaml ContainerDispatch YamlRead ClashRules Clash ClashGroups ClashDocument ClashTheorems.

Module Pipeline.

(** What the server links against. *)
Class Platform := {
  Regex : Type;
  scan : N → string → list YamlRead.Item;
  yaml_to_string : Yaml.Value → Result string string;
  section_text : string → Json → Result string string;
  yaml_to_json : Yaml.Value → Result string Json;
  document_from_yaml : Yaml.Value → Result string TemplateDocument;
  document_from_json : Json → Result string TemplateDocument;
  selector_text : NodeSelector → Result string string;
  debug_text : list string → string;
  digest : string → string;
  id_text : N → string;
  pretty_json : Json → string;
  nodes_json : list Node → Result UriEmit.EmitError string;
  regex_build : string → option Regex;
  regex_match : Regex → string → option bool;
  past_deadline : N → bool;
  hash_order : list string → list string
}.

(** The order of a hash map is an order of its keys. *)
Class HashOrder `{Platform} : Prop := hash_order_perm : ∀ l, hash_order l ≡ₚ l.

Section pipeline.
Context `{L : UrlText.UrlLib} `{P : Platform}.

#[local] Instance yaml_text : ContainerDispatch.YamlText := {
  ContainerDispatch.parse_generated_value s := map_err YamlRead.error_display (YamlRead.parse_generated_value scan s);
  ContainerDispatch.value_to_string := yaml_to_string;
  ContainerDispatch.section_to_string := section_text
}.

(** A panic takes the task down; it is excluded for saved documents. *)
Definition settle {A} (m : Clash.M A) : Result TemplateAppError A := default (Err (Storage "panic")) m.

Definition read_yaml (s : string) : Result string Yaml.Value := map_err YamlRead.error_display (YamlRead.parse_template scan s).

#[local] Instance server : Generation.Externals := {
  Generation.yaml_parse := read_yaml;
  Generation.from_value := document_from_yaml;
  Generation.clash_parse v := settle (ClashDocument.parse read_yaml yaml_to_json yaml_to_string document_from_json hash_order v);
  Generation.clash_warnings n := settle (ClashDocument.native_warnings read_yaml yaml_to_json n);
  Generation.native_group_names n := let? c := ClashDocument.config read_yaml yaml_to_json n in Ok (ClashDocument.group_names c);
  Generation.materialize pages n renamed originals :=
    settle (ClashDocument.native_document read_yaml yaml_to_json yaml_to_string hash_order regex_build regex_match past_deadline
              id_text pages n renamed originals);
  Generation.selector_json := selector_text;
  Generation.debug_strings := debug_text;
  Generation.sha256 := digest;
  Generation.id_display := id_text;
  Generation.emit_mihomo_full t := map_err ContainerDispatch.emit_error_display (ContainerDispatch.emit_full t);
  Generation.emit_nodes p nodes :=
    map_err ContainerDispatch.emit_error_display
      (ContainerDispatch.emit pretty_json nodes_json p (ContainerDispatch.from_nodes nodes));
  Generation.inspect_generated_sequence s :=
    map_err YamlRead.error_display (YamlRead.inspect_generated_sequence scan s "proxies");
  Generation.json_from_str s := match UrlText.json_from_str s with Ok j => Some (Containers.to_value j) | Err _ => None end
}.

Context {R : Type} {pool : NodePoolRepository R}.

(** The native half of [prepare_nodes] is [ClashDocument.prepare_native]. *)
Lemma prepare_nodes_native (r : R) (s : TemplateSpec) (native : string) (nodes : list (Node * Z)) :
  clash s = Some native →
  Generation.prepare_nodes r s nodes =
    (let? p := settle (ClashDocument.prepare_native read_yaml yaml_to_json yaml_to_string hash_order regex_build regex_match
                         past_deadline id_text (list_nodes r) s native nodes) in
     Ok (p.1.1, Some p.1.2, p.2)).
Proof.
  intros Hs. unfold Generation.prepare_nodes, ClashDocument.prepare_native, ClashDocument.native_used. rewrite Hs.
  cbn [Generation.native_group_names Generation.materialize Generation.id_display server]. unfold Clash.lift.
  destruct (ClashDocument.config read_yaml yaml_to_json native) as [cfg|e] eqn:Ec; [|done].
  cbn [result_bind Clash.bind].
  assert ((list_to_set Clash.TOKENS : gset string) = {["__PROXY_NODES__"; "__PROXY_PROVIDERS__"]}) as ->.
  { unfold Clash.TOKENS, Clash.NODES, Clash.PROVIDERS. simpl. by rewrite (right_id_L ∅ (∪)). }
  change ((λ p : Node * Z, display_name p.1) <$> nodes) with ((display_name ∘ fst) <$> nodes).
  destruct (ClashDocument.native_document _ _ _ _ _ _ _ _ _ _ _ _) as [[p|e]|] ;
    by cbn.
Qed.
End pipeline.
End Pipeline.
